(* ===== verification/_CoqProject ===== *)
-Q . S2P
Prelude.v
JsString.v
JsMap.v
Normalization.v
SessionKeyUtils.v
SessionKey.v
RouteConfig.v
ResolveRoute.v
RouteRefinement.v
RouteCache.v
JsRegExp.v
JsNumber.v
NumberCoercion.v
JsDate.v
CronTime.v
CronSchedule.v
CronJobs.v
CronPolicy.v
CronResults.v
CronActiveJobs.v
CronTimer.v
WorkAdmission.v
CommandQueue.v
TaskTimeout.v
StoreWriterQueue.v
SessionIdentity.v
SessionLifecycle.v
SessionWork.v
SessionMutations.v
SessionMoves.v
SessionShape.v
SessionLocks.v
SessionOrder.v
SessionExclusion.v
SessionProgress.v
ToolCatalog.v
ToolPolicy.v
AllowFrom.v
MentionGating.v
IngressState.v
IngressAllowlist.v
IngressDecision.v
IngressIdentity.v
IngressRuntime.v
IngressAccess.v
IpAddress.v
ClientIp.v
AuthRateLimit.v
AuthRateWindow.v
GatewayAuth.v
FixedWindow.v
GatewayMethods.v
GatewayRequest.v
GatewayRegistry.v
GatewayScopes.v
GatewayDispatch.v
PairingStore.v
PairingFacts.v
PairingBook.v
PairingRefines.v
PairingRuns.v
AuthCredentials.v
ProfileUsage.v
ProfileFailures.v
ProfileCooldowns.v
ProfileUpdates.v
ProfileOrder.v
