(* ===== verification/Prelude.v ===== *)
(** * LuckyNemo gateway core: a verification library

    LuckyNemo (a fork of OpenClaw) is a personal assistant: a gateway process
    takes messages from chat channels, routes each one to an agent and a
    session, queues the work on lanes and runs the agent with the tools that
    policy allows.  This library models the decision-making core of the gateway
    (TypeScript under [src/src/] and [src/packages/]) and proves what it
    promises.

    ** The parts and how they interact

    A message arrives with a channel, an account and a peer.  The ingress
    resolution decides whether its sender has access, from allow lists, access
    groups, routes, commands and mentions.  Routing reads the
    configuration's bindings, picks an agent and builds the session key that
    names the conversation; keys are normalised, cached and parsed again by
    every later stage.  A sender without access may be offered a code, which an
    owner approves; the pairing store keeps the requests and the senders that were
    approved.  The work is admitted by the gateway's admission state,
    which restart and suspension close, and enqueued on a lane of the command
    queue, which runs a bounded number of tasks per lane and gives each one a
    timeout.  Work on a session and mutations of it (reset, deletion, archiving)
    exclude each other by session identity: both lock the identities' keys,
    which are queues of writes per key, and a mutation waits for, or interrupts,
    the admissions it competes with.  The agent's tools are filtered by allow
    and deny lists.  Cron jobs start work on their own: a timer looks at the
    stored jobs, reserves and runs those that are due, and the result of a run
    decides when, and whether, the job runs again.  Clients of the gateway's own
    protocol are authenticated by address, secret, proxy or tailnet, with a limit
    on failures per client; each of their requests is authorised by role and
    scopes, charged to a write budget, admitted as root work and dispatched
    through a registry that plugins add methods to.  Runs of an agent call model
    providers with stored credentials: failures put a credential in cooldown,
    and the usable ones are tried in an order that takes turns.

    ** Files

    - [Prelude]: shared automation and list lemmas.
    - [JsString]: JavaScript strings of Latin-1 code units (trim, case, search,
      split and join); [JsMap]: [Map] and [Set] in insertion order;
      [JsNumber]: IEEE doubles as rationals with rounding, NaN and infinities;
      [JsRegExp]: the regular expressions that are used; [JsDate]: [Date] in
      UTC and its interchange format.
    - [Normalization]: [packages/normalization-core/src/string-coerce.ts] and
      [agent-id.ts], [src/routing/account-id.ts], [src/infra/prototype-keys.ts],
      [src/channels/chat-type.ts].
    - [NumberCoercion]: [packages/normalization-core/src/number-coercion.ts].
    - [SessionKeyUtils]: [src/sessions/session-key-utils.ts]; [SessionKey]:
      [src/routing/session-key.ts].
    - [RouteConfig]: what routing reads of the configuration
      ([src/agents/agent-scope-config.ts], [src/config/bindings.ts],
      [src/routing/binding-scope.ts], [peer-kind-match.ts], [bindings.ts],
      [account-lookup.ts], [src/channels/ids.ts]).
    - [ResolveRoute]: [src/routing/resolve-route.ts] without its caches;
      [RouteRefinement]: its specification, a scan of the configured bindings,
      and the refinement; [RouteCache]: the three caches of the same file.
    - [WorkAdmission]: [src/process/gateway-work-admission.ts]; the class
      [AdmissionInterface] at its end is what it promises to the queue, with the
      instance [gateway_admission].
    - [CommandQueue]: [src/process/command-queue.ts], against that interface;
      [TaskTimeout]: [runQueueEntryTask] of the same file.
    - [StoreWriterQueue]: [src/shared/store-writer-queue.ts], the write queues
      that serve as locks.
    - [SessionIdentity]: [src/sessions/session-lifecycle-identity.ts];
      [SessionLifecycle]: [src/sessions/session-lifecycle-admission.ts] and
      [session-work-admission-handoff.ts], with the operations and their runs.
    - About [SessionLifecycle]: [SessionWork] (the index of admissions,
      handoffs, interrupts), [SessionMutations] (counts and idle waiters),
      [SessionMoves] (every operation as small moves on lock queues, writers and
      calls), [SessionShape] (calls come to an await), [SessionLocks] (locks fit
      program counters), [SessionOrder] (keys are locked in order),
      [SessionExclusion] and [SessionProgress].
    - [CronTime]: [src/cron/parse.ts]; [CronSchedule]: [src/cron/schedule.ts],
      [schedule-number.ts] and [stagger.ts], against the class [CronEngine] of
      the cron expression engine; [CronJobs]: the scheduling half of
      [src/cron/service/jobs.ts]; [CronPolicy]: [src/cron/retry-hint.ts], the
      retry decisions of [src/cron/service/timer.ts], [failure-alerts.ts] and
      [src/config/cron-limits.ts]; [CronResults]: [applyJobResult] and the
      trigger results of [timer.ts]; [CronActiveJobs]: [src/cron/active-jobs.ts],
      the register of running jobs; [CronTimer]: the scheduler of [timer.ts] and
      its catching up after a restart, with [timer-outcome-finalization.ts] and
      [persistOrRestore] of [store.ts].
    - [ToolCatalog]: [src/agents/tool-catalog.ts]; [ToolPolicy]:
      [src/agents/tool-policy-shared.ts], [tool-policy.ts], [glob-pattern.ts],
      [tool-policy-match.ts], [sandbox-tool-policy.ts].
    - [AllowFrom]: lists of senders
      ([packages/normalization-core/src/string-normalization.ts],
      [src/channels/allow-from.ts], [message-access/effective-allow-from.ts],
      [store-allow-from.ts], [dm-allow-state.ts]); [MentionGating]:
      [src/channels/command-gating.ts], [mention-gating.ts].
    - Of [src/channels/message-access/]: [IngressState] ([types.ts], [state.ts])
      against the class [IngressAdapter] of a channel and its specification;
      [IngressAllowlist] ([allowlist.ts]); [IngressDecision] ([sender-gates.ts],
      [decision.ts]); [IngressIdentity] ([runtime-identity.ts]), the instance;
      [IngressRuntime] ([runtime.ts], [runtime-access-groups.ts],
      [runtime-types.ts]); [IngressAccess]: theorems about the whole.
    - [IpAddress]: [packages/net-policy/src/ip.ts], against the class
      [NetRuntime] of ipaddr.js and [net.isIP]; [ClientIp]: addresses, hosts and
      origins ([src/gateway/net.ts], [origin-check.ts]), against the class
      [UrlRuntime] of the URL parser.
    - [AuthRateLimit]: [src/gateway/auth-rate-limit.ts]; [AuthRateWindow]: its
      specification, a sliding window per client, and the refinement;
      [GatewayAuth]: [src/gateway/auth.ts], [src/security/secret-equal.ts].
    - [FixedWindow]: [src/infra/fixed-window-rate-limit.ts],
      [src/gateway/control-plane-rate-limit.ts], [control-plane-identity.ts].
    - [GatewayMethods]: scopes, roles, the table of core methods and the registry
      ([src/gateway/operator-scopes.ts], [role-policy.ts], [method-scopes.ts],
      [methods/], [src/shared/gateway-method-policy.ts]); [GatewayRequest]: the
      authorisation and dispatch of [src/gateway/server-methods.ts] and the
      registration of methods by plugins.  About them: [GatewayRegistry],
      [GatewayScopes], [GatewayDispatch].
    - [PairingStore]: [src/pairing/pairing-store.ts], [pairing-store-keys.ts] and
      [pairing-store-sqlite.ts]; [PairingFacts]: the states it writes, and reading
      back; [PairingBook]: its specification, a book of tickets and lists;
      [PairingRefines]: the refinement; [PairingRuns]: theorems about runs.
    - [AuthCredentials]: stored credentials and their eligibility
      ([src/agents/auth-profiles/types.ts], [credential-state.ts],
      [src/config/types.secrets.ts],
      [packages/model-catalog-core/src/provider-id.ts]); [ProfileUsage]:
      [usage-state.ts]; [ProfileFailures]: [usage.ts] and what a success writes
      ([profiles.ts]); [ProfileOrder]: [order.ts], [profile-list.ts] and their
      theorems.  About the records: [ProfileCooldowns], [ProfileUpdates].

    Definitions have the names of the functions they translate.  Stateful code
    is state passing: a module-level variable is a field of a record (or an
    explicit cache argument), and a function returns its result with the new
    state.  Callers woken, promises settled and callbacks called are lists of
    events.  A promise that settles later is an operation of its own, so that
    every interleaving is a list of operations; [WorkAdmission.run],
    [CommandQueue.queue_run] and [TaskTimeout.timeout_run] execute such lists,
    and [WorkAdmission.reachable] closes them by induction.  An async function
    of the sessions is a call with a program counter that names the await it
    stands at: [SessionLifecycle.sync] runs it to the next one, and
    [SessionLifecycle.lifecycle_step] is an operation from outside or the continuation of
    one call, one drain loop or one callback.  Exceptions are
    [None].

    ** What the theorems show

    - Ids and keys.  Agent and account ids are canonical and never a
      prototype key; normalising an agent id twice can change it, which
      [normalizeAgentId_not_idempotent] shows and
      [normalizeAgentId_canonical_idempotent] bounds.  A session key changes by
      trimming and case only, the case of opaque peer ids is kept, and the key
      built for a peer parses back to its route ([delivery_route_roundtrip], for
      usable segments, none of them called [thread]:
      [delivery_route_agent_named_thread]).  Caches return
      what the uncached functions return.
    - Routing.  The indexed search over tiers returns the route of the
      specification for every configuration and input
      ([resolveAgentRoute_linear]); the caches are transparent and bounded while
      configuration objects are replaced ([resolve_all_transparent]), up to the
      collision [empty_peer_id_gets_peerless_route]; routes go to configured
      agents; direct messages share the main session under the main scope; the
      account tables agree.
    - Admission.  An invariant of all reachable states with generations that
      grow with every closing, admission exactly when open, no lost wake-up at
      the fence or of those who wait for roots, release exactly once, the one-way drain, and
      leases that die with their fence.
    - Queue.  An invariant of all runs, every command settled exactly once, no
      work left behind a free slot, start order by priority and age within the
      limit, generations that fence off abandoned tasks, correct answers to
      those who wait for active tasks, refusal while draining.
    - Timeouts.  A task is timed out only for a cause and always once silent
      for its timeout; an undecided task has a timer; release and abort.
    - Sessions.  While all calls were made from outside of any store write,
      those that share an identity exclude each other inside their locks
      ([calls_exclude_each_other]); one call from inside is enough to break it, which
      [leaked_context_breaks_exclusion] shows on a run.  No deadlock
      ([never_stuck]), by the order in which keys are locked; every call reaches
      an await; the locks held and waited for are those the program counters
      name; active mutations are counted exactly, idle waiters are not lost, the
      index of admissions is exact, handoffs are consumed once, interrupts hit
      the competitors; identity keys are sorted, injective and decode; writes to
      one path run one at a time in order.
    - Cron.  Absolute times denote real dates; the next run of a schedule is
      its least time after now, staggering moves runs by less than the stagger
      window, the cache of expressions is transparent.  Errors that are retried
      are those in an allowed category.  After a run the counters count results
      in a row, the next run of a recurring job is the early retry of a transient
      error with attempts left, or leaves the gap its result demands
      ([recurring_result_leaves_gap]), one-shot jobs are retried a bounded
      number of times ([one_shot_retries_bounded]) unless two kinds of failure
      alternate ([alternating_failures_retry_forever]), and jobs whose
      expression is rejected are disabled.  The timer fires in time, a due job
      survives maintenance and is reserved by the next tick, reserved jobs are
      not reserved again and no reservation of a live run outlives its tick
      ([no_reservation_leaks]); after a restart every missed job is run or
      deferred, and no reservation is left either
      ([catchup_leaves_no_reservation]).  The marker of a run is current until the
      first operation that retires it ([marker_current_until_retired]); the results
      of retired runs are thrown away, and their reservations stay.
    - Access.  A dispatched event has a sender whom the lists that count name, by
      no mutable identifier unless the policy enables them
      ([admitted_sender_is_listed]); when events are dispatched (those of
      the trusted modes apart) and when a sender
      is offered to pair ([dispatched_iff], [pairing_required_iff]); the decision
      is that of the first refusing gate of its graph; a resolved list matches
      for its grounds ([resolved_list_explained]); dynamic groups are asked for;
      the store of paired senders stays out of the other policies; the sender
      projection is the sender gate's; [prefixed_entry_ids_lock_out] shows how a
      prefix of entry ids shuts listed senders out.
    - Pairing.  What is written is read back ([written_state_is_read]); every
      operation is a step of the book ([store_keeps_the_book]), so that senders and
      codes of requests are distinct and an account has three at most; a sender on
      a list was added or held a code that was approved within the hour
      ([approved_senders_held_a_code]), and a request that was given a code can be
      approved for that hour ([pending_request_survives]).
    - Gateway.  The address of a client is that of the connection, or the nearest
      hop that is no proxy behind a trusted one ([client_ip_not_forged]); an accepted connection has a ground
      ([authorized_has_ground]).  The limiter is a sliding window with lockouts
      per client ([limiter_is_sliding_window]), bounded in size, whose lockouts
      last and which fails closed when full; wrong tokens are bounded,
      and beyond the limit tokens are not looked at ([wrong_tokens_bounded]).  Exactly which calls are authorised
      ([calls_authorized_iff]); the scopes a client asks for are enough; the
      registry follows a reference table ([registry_is_table]); every reply of
      the dispatcher keeps its promise ([request_replies]); the writes of the
      control plane that run are bounded over time ([invoked_writes_bounded]).
    - Credentials.  Records are decided on by what is left of them, so that
      clearing windows that are over is unobservable
      ([clearing_is_unobservable]).  Of failures without a result of the usage
      probe: a cooldown that is open does not move and holds for every model that
      failed in it ([cooldown_holds_for_failed_models]), and failures of one kind
      do not escalate ([failures_do_not_escalate]), unlike what the documentation
      says.  Records stay well formed, and a failure is exactly one update of one
      record under the lock ([failure_updates_one_record]).  The order in which
      credentials are tried ([profile_order_spec]), and that they take turns where
      no authored order applies ([success_goes_last]).
    - Numbers.  Timer delays and expiry times are within their bounds; printed
      integers parse back.
    - Tools.  The policy decision against a declarative reading of lists, groups
      and globs ([tool_policies_decide], for allow lists that are empty or have an
      entry that is not inert; [blank_allow_list_narrows] shows the others); profiles allow what they list; accepted prefixes; [alsoAllow].

    ** Bounds and fuel

    Recursion is structural nearly everywhere.  [evict_oldest] and the other
    bounded loops take the length of the list they shorten as fuel, which each
    turn shortens by one.  [SessionLifecycle.sync] has the number of statements
    a call has left before its next await ([calls_reach_an_await] shows that it
    is enough), [walk_writers] the number of writers made so far, since parents
    are older.  The loops of [CronJobs] over staggered runs take the four
    attempts of the code.  Clocks in [TaskTimeout] are integers a [Date] can
    show, so that differences are exact doubles; elsewhere numbers are any
    double.

    ** What is not modelled

    Strings are Latin-1: case folding and trimming agree with JavaScript there,
    and other code units are out of scope.  Locale comparison is a parameter or
    restricted where the code sorts ids.  Log lines and diagnostics are left
    out.  The cached route objects are values: a caller that mutated one would
    change the cache.  Callbacks (tasks, [onWait], invalidation) do not call
    back into the component synchronously.  The length of the timer that bounds
    an interrupt is left out: that it fires is an operation.  Queue clearing
    between tests is left out.  The command queue's migration of
    state from older versions, its snapshot list in locale order, and the diagnostics of tool allow lists are left out.  Channel
    tables generated at build time are parameters.  Of cron, the creation,
    validation and patching of jobs, the store, the execution of jobs and its
    watchdog, the delivery of results, task records and events are left out, and
    so are a stop of the service while a reservation is written and failed writes
    other than those of results;
    croner, SHA-256, the local zone, [Date.parse] outside the interchange format
    and the classification of provider errors are parameters.  Of access, the
    reading of the pairing store and [String.prototype.localeCompare] are
    parameters; adapters and hooks are functions, so that nothing is said of
    promises that never settle; the deprecated helpers and the slugs of channel
    names are left out.  Of pairing, the adapters of channels, random numbers and
    the database under a transaction are parameters or data; the texts that answer
    a sender, setup codes and the helpers of migrations are left out.  Of the
    gateway, ipaddr.js, [net.isIP], the URL parser
    and the tailnet's whois are parameters; a turn of the event loop is one
    instant; sockets, the queue that serialises attempts of one client, the
    tokens of devices and nodes and the handlers of methods are left out.  Of
    credentials, the request of the usage probe is an argument, the file under
    its lock a second store, the aliases of providers a map; editing profiles,
    refreshing tokens, resolving references to secrets, the hook and the log are
    left out.
    Channels, plugins, storage, user interfaces and the server are I/O around
    this core. *)
From stdpp Require Export prelude gmap list sorting.
From stdpp Require Export strings.

#[export] Set Warnings "-clear-no-such-hyp".

(** ** Automation shared by every component *)

(** Facts about the JavaScript runtime that the components use without naming
    them: string normalisation laws, insertion-ordered map laws, list laws. *)
Create HintDb js discriminated.

(** Case analysis on the innermost scrutinee of the goal, keeping the
    equation. *)
Ltac case_inner :=
  match goal with
  | |- context [match ?x with _ => _ end] =>
      lazymatch x with
      | context [match _ with _ => _ end] => fail
      | _ => destruct x eqn:?
      end
  end.

(** The same in a hypothesis. *)
Ltac case_inner_in H :=
  match type of H with
  | context [match ?x with _ => _ end] =>
      lazymatch x with
      | context [match _ with _ => _ end] => fail
      | _ => destruct x eqn:?
      end
  end.

(** Turn boolean tests of the model into propositions. *)
Ltac bool_to_prop :=
  repeat match goal with
  | H : andb _ _ = true |- _ => apply andb_true_iff in H as [? ?]
  | H : orb _ _ = false |- _ => apply orb_false_iff in H as [? ?]
  | H : negb _ = true |- _ => apply negb_true_iff in H
  | H : negb _ = false |- _ => apply negb_false_iff in H
  | H : bool_decide _ = true |- _ => apply bool_decide_eq_true in H
  | H : bool_decide _ = false |- _ => apply bool_decide_eq_false in H
  end.

(** ** Lists *)

Section lists.
  Context {A B : Type}.

  (** [Array.prototype.find]: the first element that satisfies a test. *)
Fixpoint find_first (p : A -> bool) (l : list A) : option A :=
    match l with
    | [] => None
    | x :: r => if p x then Some x else find_first p r
    end.

Lemma find_first_Some p l x :
    find_first p l = Some x ->
    exists l1 l2, l = l1 ++ x :: l2 /\ p x = true /\ Forall (fun y => p y = false) l1.
  Proof.
    induction l as [|y l IH]; simpl; [done|].
    destruct (p y) eqn:E; intros H.
    - simplify_eq. exists [], l. auto.
    - destruct (IH H) as (l1 & l2 & -> & ? & ?). exists (y :: l1), l2. auto.
  Qed.

Lemma find_first_elem p l x : find_first p l = Some x -> x ∈ l /\ p x = true.
  Proof.
    intros (l1 & l2 & -> & ? & _)%find_first_Some. set_solver.
  Qed.

Lemma find_first_None p l : find_first p l = None <-> Forall (fun y => p y = false) l.
  Proof.
    induction l as [|y l IH]; simpl; [split; auto|].
    rewrite Forall_cons, <- IH. destruct (p y); naive_solver.
  Qed.

Lemma find_first_app p l1 l2 :
    find_first p (l1 ++ l2) =
    match find_first p l1 with Some x => Some x | None => find_first p l2 end.
  Proof. induction l1 as [|y l1 IH]; simpl; [done|]. by destruct (p y). Qed.

Lemma find_first_ext p q l :
    (forall x, x ∈ l -> p x = q x) -> find_first p l = find_first q l.
  Proof.
    induction l as [|y l IH]; intros H; simpl; [done|].
    rewrite (H y) by set_solver. destruct (q y); [done|]. apply IH. set_solver.
  Qed.

Lemma filter_fmap_none {C} (p : B -> bool) (f : C -> B) l :
    (forall x, p (f x) = false) -> List.filter p (f <$> l) = [].
  Proof. intros Hp. induction l as [|x l IH]; [done|]. cbn. by rewrite Hp. Qed.

Lemma filter_fmap_all {C} (p : B -> bool) (f : C -> B) l :
    (forall x, p (f x) = true) -> List.filter p (f <$> l) = f <$> l.
  Proof. intros Hp. induction l as [|x l IH]; [done|]. cbn. rewrite Hp. f_equal. exact IH. Qed.

Lemma filter_split_perm (p : A -> bool) l :
    List.filter (fun x => negb (p x)) l ++ List.filter p l ≡ₚ l.
  Proof.
    induction l as [|x l IH]; [done|]. cbn [List.filter]. destruct (p x); cbn [negb].
    - by rewrite <- Permutation_middle, IH.
    - by rewrite <- app_comm_cons, IH.
  Qed.

Lemma filter_perm (p : A -> bool) l l' : l ≡ₚ l' -> List.filter p l ≡ₚ List.filter p l'.
  Proof.
    induction 1 as [|x l l' _ IH|x y l|l l' l'' _ IH1 _ IH2]; cbn [List.filter]; [done|..|by etrans].
    - destruct (p x); by rewrite IH.
    - destruct (p x), (p y); (done || apply Permutation_swap).
  Qed.

  (** [toSorted] with a comparison that is negative or zero on [le]: the sort
      is stable. *)
Fixpoint sort_insert (le : A -> A -> bool) (x : A) (l : list A) : list A :=
    match l with
    | [] => [x]
    | y :: r => if le x y then x :: l else y :: sort_insert le x r
    end.

Definition stable_sort (le : A -> A -> bool) (l : list A) : list A := foldr (sort_insert le) [] l.

Lemma sort_insert_perm le x l : sort_insert le x l ≡ₚ x :: l.
  Proof.
    induction l as [|y l IH]; [done|]. cbn [sort_insert]. destruct (le x y); [done|].
    rewrite IH. apply Permutation_swap.
  Qed.

Lemma stable_sort_perm le l : stable_sort le l ≡ₚ l.
  Proof.
    induction l as [|x l IH]; [done|]. unfold stable_sort in *. cbn [foldr].
    by rewrite sort_insert_perm, IH.
  Qed.

  (** A comparison that is total and transitive sorts. *)
Lemma sort_insert_sorted (le : A -> A -> bool) x l :
    (forall a b, le a b = true \/ le b a = true) ->
    (forall a b c, le a b = true -> le b c = true -> le a c = true) ->
    StronglySorted (fun a b => le a b = true) l -> StronglySorted (fun a b => le a b = true) (sort_insert le x l).
  Proof.
    intros Htot Htr. induction 1 as [|y l Hl IH Hy]; cbn [sort_insert]; [by repeat constructor|].
    destruct (le x y) eqn:E; constructor.
    - by constructor.
    - constructor; [done|]. eapply Forall_impl; [exact Hy|]. intros z. by apply Htr.
    - exact IH.
    - rewrite sort_insert_perm. constructor; [|done]. destruct (Htot x y); [congruence|done].
  Qed.

Lemma stable_sort_sorted (le : A -> A -> bool) l :
    (forall a b, le a b = true \/ le b a = true) ->
    (forall a b c, le a b = true -> le b c = true -> le a c = true) ->
    StronglySorted (fun a b => le a b = true) (stable_sort le l).
  Proof.
    intros Htot Htr. induction l as [|x l IH]; [constructor|]. by apply sort_insert_sorted.
  Qed.

  (** Searching a filtered list is searching with the conjunction. *)
Lemma find_first_filter p q l :
    find_first p (List.filter q l) = find_first (fun x => q x && p x) l.
  Proof.
    induction l as [|y l IH]; simpl; [done|].
    destruct (q y) eqn:E; simpl; rewrite ?IH; done.
  Qed.
End lists.

(** [Array.prototype.includes] on a list with decidable equality. *)
Definition includes `{EqDecision A} (x : A) (l : list A) : bool := bool_decide (x ∈ l).

Lemma includes_spec `{EqDecision A} (x : A) l : includes x l = true <-> x ∈ l.
Proof. unfold includes. by rewrite bool_decide_eq_true. Qed.

Lemma filter_filter {B} (p q : B -> bool) l :
  List.filter p (List.filter q l) = List.filter (fun x => q x && p x) l.
Proof.
  induction l as [|x l IH]; simpl; [done|]. destruct (q x); simpl; rewrite IH; done.
Qed.

Lemma filter_ext_in {B} (p q : B -> bool) l :
  (forall x, x ∈ l -> p x = q x) -> List.filter p l = List.filter q l.
Proof.
  intros H. apply List.filter_ext_in. intros x Hx. apply H. by apply list_elem_of_In.
Qed.

Lemma filter_all {B} (p : B -> bool) l : (forall x, x ∈ l -> p x = true) -> List.filter p l = l.
Proof.
  induction l as [|x l IH]; intros H; simpl; [done|]. rewrite H by by left.
  f_equal. apply IH. intros y Hy. apply H. by right.
Qed.

Lemma Forall_filter_list {B} (P : B -> Prop) p l : Forall P l -> Forall P (List.filter p l).
Proof. induction 1; simpl; [constructor|]. destruct (p _); auto. Qed.

Lemma NoDup_fmap_eq {B C} (f : B -> C) l x y :
  NoDup (f <$> l) -> x ∈ l -> y ∈ l -> f x = f y -> x = y.
Proof.
  induction l as [|z l IH]; [by intros _ ?%elem_of_nil|]. rewrite fmap_cons, NoDup_cons.
  intros [Hz Hnd] [->|Hx]%elem_of_cons [->|Hy]%elem_of_cons E; [done| | |by apply IH].
  - destruct Hz. rewrite E. by apply list_elem_of_fmap_2.
  - destruct Hz. rewrite <- E. by apply list_elem_of_fmap_2.
Qed.

Lemma filter_sublist {A} (p : A -> bool) l : List.filter p l `sublist_of` l.
Proof. induction l as [|x l IH]; [done|]. cbn [List.filter]. destruct (p x); by constructor. Qed.

Lemma elem_of_filter_bool {A} (p : A -> bool) l x : x ∈ List.filter p l <-> x ∈ l /\ p x = true.
Proof. rewrite !list_elem_of_In. apply filter_In. Qed.

Lemma elem_of_sort {A} le (l : list A) x : x ∈ stable_sort le l <-> x ∈ l.
Proof. by rewrite stable_sort_perm. Qed.

Lemma sorted_filter {A} (R : A -> A -> Prop) p l : StronglySorted R l -> StronglySorted R (List.filter p l).
Proof.
  induction 1 as [|x l _ IH Hx]; cbn [List.filter]; [constructor|]. destruct (p x); [|done].
  constructor; [done|]. by apply Forall_filter_list.
Qed.

Lemma filter_nothing {A} (p : A -> bool) l : (forall x, x ∈ l -> p x = false) -> List.filter p l = [].
Proof.
  induction l as [|x l IH]; intros H; [done|]. cbn [List.filter]. rewrite H by by left. apply IH.
  intros y Hy. apply H. by right.
Qed.

Lemma existsb_fresh {R K} `{EqDecision K} (key : R -> K) row rows : key row ∉ key <$> rows ->
  existsb (fun r => bool_decide (key r = key row)) rows = false.
Proof.
  intros H. apply not_true_is_false. intros (r & Hr & E)%existsb_exists. apply H.
  apply bool_decide_eq_true in E. rewrite <- E. apply list_elem_of_fmap. exists r. by rewrite list_elem_of_In.
Qed.

Lemma omap_all {A B} (f : A -> option B) (g : B -> A) (l : list B) : (forall x, x ∈ l -> f (g x) = Some x) ->
  omap f (g <$> l) = l.
Proof.
  induction l as [|x l IH]; intros H; [done|]. rewrite fmap_cons. cbn. rewrite H by by left. f_equal.
  apply IH. intros y Hy. apply H. by right.
Qed.

Lemma filter_fmap_list {A B} (p : B -> bool) (f : A -> B) l :
  List.filter p (f <$> l) = f <$> List.filter (fun x => p (f x)) l.
Proof.
  induction l as [|x l IH]; [done|]. rewrite fmap_cons. cbn [List.filter]. destruct (p (f x)); [|done].
  by rewrite IH.
Qed.

Lemma indexed_snd {A} (l : list A) : (imap pair l).*2 = l.
Proof.
  rewrite fmap_imap. apply list_eq. intros i. rewrite list_lookup_imap. by destruct (l !! i).
Qed.

(** An invariant of a left fold. *)
Lemma fold_left_inv {A B} (P : A -> Prop) (f : A -> B -> A) l a :
  P a -> (forall x y, P x -> P (f x y)) -> P (fold_left f l a).
Proof. intros Ha Hf. revert a Ha. induction l as [|y l IH]; simpl; auto. Qed.
