(* ===== verification/JsString.v ===== *)
(** * JavaScript strings

    A string is the list of its UTF-16 code units.  The code units of this
    model are the [ascii] bytes, U+0000 to U+00FF; on that range [trim],
    [toLowerCase] and the case-insensitive literal matching of regular
    expressions are given here exactly as the language defines them (the
    white space of the range is TAB, LF, VT, FF, CR, SP and U+00A0; the upper
    case letters are A-Z, and U+00C0-U+00DE without U+00D7).  The file holds
    the string operations the components share and their laws. *)
From Stdlib Require Ascii.
From S2P Require Import Prelude.

Abbreviation ascii := Stdlib.Strings.Ascii.ascii.
Export (notations) Stdlib.Strings.Ascii.

Abbreviation jstr := (list ascii).

(** A string literal of the source. *)
Definition lit (x : string) : jstr := String.list_ascii_of_string x.
Arguments lit _%_string_scope.

Definition code (c : ascii) : nat := Stdlib.Strings.Ascii.nat_of_ascii c.

(** ** Truthiness and defaults *)

(** [Boolean(s)]. *)
Definition truthy (s : jstr) : bool := match s with [] => false | _ => true end.

(** [s || d]. *)
Definition str_or (s d : jstr) : jstr := match s with [] => d | _ => s end.

(** [o ?? ""]. *)
Definition or_empty (o : option jstr) : jstr := default [] o.

(** [s || undefined], [s || null]. *)
Definition non_empty (s : jstr) : option jstr := match s with [] => None | _ => Some s end.

(** Truthiness of an optional string. *)
Definition truthy_opt (o : option jstr) : bool :=
  match o with Some s => truthy s | None => false end.

(** ** Characters *)

Definition is_space (c : ascii) : bool :=
  let n := code c in ((9 <=? n) && (n <=? 13) || (n =? 32) || (n =? 160))%nat.

Definition is_upper (c : ascii) : bool :=
  let n := code c in
  ((65 <=? n) && (n <=? 90) || (192 <=? n) && (n <=? 222) && negb (n =? 215))%nat.

Definition lowerc (c : ascii) : ascii :=
  if is_upper c then Stdlib.Strings.Ascii.ascii_of_nat (code c + 32) else c.

Definition is_digit (c : ascii) : bool := let n := code c in ((48 <=? n) && (n <=? 57))%nat.

(** The class [[a-z]]. *)
Definition is_az (c : ascii) : bool := let n := code c in ((97 <=? n) && (n <=? 122))%nat.

(** The class [[a-z]] of a case-insensitive expression. *)
Definition is_az_i (c : ascii) : bool :=
  is_az c || (let n := code c in ((65 <=? n) && (n <=? 90))%nat).

Definition is_char (x c : ascii) : bool := bool_decide (x = c).

Ltac by_bits c := destruct c as [[] [] [] [] [] [] [] []]; vm_compute; first [done | auto].

Lemma lowerc_idem c : lowerc (lowerc c) = lowerc c.
Proof. by_bits c. Qed.

Lemma lowerc_space c : is_space (lowerc c) = is_space c.
Proof. by_bits c. Qed.

Lemma lowerc_colon c : lowerc c = ":"%char <-> c = ":"%char.
Proof. by_bits c. Qed.

(** ** [trim] and [toLowerCase] *)

Fixpoint drop_while {A} (p : A -> bool) (l : list A) : list A :=
  match l with
  | [] => []
  | c :: r => if p c then drop_while p r else l
  end.

Definition drop_while_end {A} (p : A -> bool) (l : list A) : list A :=
  rev (drop_while p (rev l)).

Definition trim (s : jstr) : jstr := drop_while_end is_space (drop_while is_space s).

Definition lower (s : jstr) : jstr := map lowerc s.

(** ** Prefixes, search, slices *)

(** [s.startsWith(p)]. *)
Fixpoint starts_with (p s : jstr) : bool :=
  match p, s with
  | [], _ => true
  | x :: p', y :: s' => is_char x y && starts_with p' s'
  | _ :: _, [] => false
  end.

(** [s.indexOf(p)], [None] for -1. *)
Fixpoint index_of (p s : jstr) : option nat :=
  if starts_with p s then Some 0%nat
  else match s with [] => None | _ :: s' => S <$> index_of p s' end.

(** [s.lastIndexOf(p)], [None] for -1. *)
Fixpoint last_index_of (p s : jstr) : option nat :=
  match s with
  | [] => if starts_with p [] then Some 0%nat else None
  | _ :: s' =>
      match last_index_of p s' with
      | Some i => Some (S i)
      | None => if starts_with p s then Some 0%nat else None
      end
  end.

(** [s.includes(p)]. *)
Definition str_includes (p s : jstr) : bool := bool_decide (is_Some (index_of p s)).

(** [s.slice(a, b)] for 0 <= a, b. *)
Definition slice (a b : nat) (s : jstr) : jstr := take (b - a) (drop a s).

(** ** [split(c)] and [join(c)] for one-character separators *)

Fixpoint split_on (c : ascii) (s : jstr) : list jstr :=
  match s with
  | [] => [[]]
  | x :: r =>
      if is_char x c then [] :: split_on c r
      else match split_on c r with
           | [] => [[x]]
           | p :: ps => (x :: p) :: ps
           end
  end.

Fixpoint join (sep : jstr) (ps : list jstr) : jstr :=
  match ps with
  | [] => []
  | [p] => p
  | p :: ps' => p ++ sep ++ join sep ps'
  end.

(** ** Laws of [drop_while] *)

Section drop_while.
  Context {A : Type} (p : A -> bool).

Lemma drop_while_idem l : drop_while p (drop_while p l) = drop_while p l.
  Proof.
    induction l as [|c l IH]; simpl; [done|]. destruct (p c) eqn:E; [done|].
    simpl. by rewrite E.
  Qed.

Lemma drop_while_none l : Forall (fun c => p c = false) l -> drop_while p l = l.
  Proof. destruct 1 as [|c l H _]; simpl; [done|]. by rewrite H. Qed.

Lemma drop_while_hd c l : p c = false -> drop_while p (c :: l) = c :: l.
  Proof. simpl. by intros ->. Qed.

Lemma drop_while_split l :
    exists l', l = l' ++ drop_while p l /\ Forall (fun c => p c = true) l'.
  Proof.
    induction l as [|c l (l' & IH1 & IH2)]; simpl; [by exists []|].
    destruct (p c) eqn:E; [|by exists []].
    exists (c :: l'). split; [simpl; congruence|auto].
  Qed.

Lemma drop_while_head l c r : drop_while p l = c :: r -> p c = false.
  Proof.
    induction l as [|x l IH]; simpl; [done|]. destruct (p x) eqn:E; [auto|]. naive_solver.
  Qed.

Lemma drop_while_suffix l : drop_while p l `suffix_of` l.
  Proof. destruct (drop_while_split l) as (l' & H & _). by exists l'. Qed.

Lemma drop_while_end_snoc_false l c :
    p c = false -> drop_while_end p (l ++ [c]) = l ++ [c].
  Proof.
    intros H. unfold drop_while_end. rewrite rev_app_distr. simpl. rewrite H.
    simpl. by rewrite rev_involutive.
  Qed.

Lemma drop_while_end_last l :
    drop_while_end p l = [] \/
    exists r c, drop_while_end p l = r ++ [c] /\ p c = false.
  Proof.
    unfold drop_while_end. destruct (drop_while p (rev l)) as [|c r] eqn:E; [by left|].
    right. exists (rev r), c. split; [done|]. by eapply drop_while_head.
  Qed.

Lemma drop_while_end_prefix l : drop_while_end p l `prefix_of` l.
  Proof.
    unfold drop_while_end. destruct (drop_while_split (rev l)) as (l' & H & _).
    exists (rev l'). rewrite <- rev_app_distr, <- H. by rewrite rev_involutive.
  Qed.

Lemma drop_while_end_none l : Forall (fun c => p c = false) l -> drop_while_end p l = l.
  Proof.
    intros H. unfold drop_while_end. rewrite drop_while_none, rev_involutive; [done|].
    by apply Forall_rev.
  Qed.

Lemma drop_while_end_idem l : drop_while_end p (drop_while_end p l) = drop_while_end p l.
  Proof. unfold drop_while_end. by rewrite rev_involutive, drop_while_idem. Qed.

  (** Dropping at the end keeps the first element when it is kept. *)
Lemma drop_while_drop_while_end l :
    drop_while p (drop_while_end p (drop_while p l)) = drop_while_end p (drop_while p l).
  Proof.
    destruct (drop_while p l) as [|c r] eqn:E; [done|].
    apply drop_while_head in E.
    destruct (drop_while_end_prefix (c :: r)) as [k Hk].
    destruct (drop_while_end p (c :: r)) as [|d q] eqn:E'; [done|].
    simpl in Hk. simplify_eq. simpl. by rewrite E.
  Qed.
End drop_while.

Lemma drop_while_map {A} (p : A -> bool) (f : A -> A) l :
  (forall c, p (f c) = p c) -> drop_while p (map f l) = map f (drop_while p l).
Proof.
  intros H. induction l as [|c l IH]; simpl; [done|]. rewrite H. by destruct (p c).
Qed.

Lemma drop_while_end_map {A} (p : A -> bool) (f : A -> A) l :
  (forall c, p (f c) = p c) -> drop_while_end p (map f l) = map f (drop_while_end p l).
Proof.
  intros H. unfold drop_while_end. by rewrite <- map_rev, drop_while_map, map_rev.
Qed.

(** The members that every object inherits. *)
Definition object_members : list jstr :=
  [lit "constructor"; lit "__defineGetter__"; lit "__defineSetter__"; lit "hasOwnProperty";
   lit "__lookupGetter__"; lit "__lookupSetter__"; lit "isPrototypeOf"; lit "propertyIsEnumerable";
   lit "toString"; lit "valueOf"; lit "__proto__"; lit "toLocaleString"].

(** ** Laws of [trim] and [toLowerCase] *)

Definition no_space (s : jstr) : Prop := Forall (fun c => is_space c = false) s.

#[global] Instance no_space_dec s : Decision (no_space s).
Proof. unfold no_space. apply _. Defined.

Lemma trim_idem s : trim (trim s) = trim s.
Proof.
  unfold trim. rewrite drop_while_drop_while_end. apply drop_while_end_idem.
Qed.

Lemma trim_no_space s : no_space s -> trim s = s.
Proof.
  intros H. unfold trim. rewrite drop_while_none by done. by apply drop_while_end_none.
Qed.

(** [trim] of a string that begins with a kept character and ends in a trimmed,
    non-empty one. *)
Lemma trim_cons_app c s t :
  is_space c = false -> trim t = t -> t <> [] -> trim (c :: s ++ t) = c :: s ++ t.
Proof.
  intros Hc Ht Hne. unfold trim. rewrite drop_while_hd by done.
  assert (exists r d, t = r ++ [d] /\ is_space d = false) as (r & d & -> & Hd).
  { destruct (drop_while_end_last is_space (drop_while is_space t)) as [E|(r & d & E & Hd)];
      unfold trim in Ht; rewrite Ht in E; [done|eauto]. }
  rewrite app_comm_cons, app_assoc. by apply drop_while_end_snoc_false.
Qed.

Lemma lower_idem s : lower (lower s) = lower s.
Proof. unfold lower. rewrite map_map. apply map_ext. apply lowerc_idem. Qed.

Lemma lower_app s t : lower (s ++ t) = lower s ++ lower t.
Proof. apply map_app. Qed.

Lemma lower_length s : length (lower s) = length s.
Proof. apply length_map. Qed.

Lemma trim_lower s : trim (lower s) = lower (trim s).
Proof.
  unfold trim, lower. rewrite drop_while_map by apply lowerc_space.
  by rewrite drop_while_end_map by apply lowerc_space.
Qed.

Lemma lower_nil s : lower s = [] <-> s = [].
Proof. by destruct s. Qed.

Lemma no_space_lower s : no_space (lower s) <-> no_space s.
Proof.
  unfold no_space, lower. rewrite Forall_map. apply Forall_iff. intros c. simpl.
  by rewrite lowerc_space.
Qed.

Lemma no_space_app s t : no_space (s ++ t) <-> no_space s /\ no_space t.
Proof. apply Forall_app. Qed.

Lemma truthy_spec s : truthy s = true <-> s <> [].
Proof. by destruct s. Qed.

Lemma str_or_nil d : str_or [] d = d.
Proof. done. Qed.

Lemma str_or_cons s d : s <> [] -> str_or s d = s.
Proof. by destruct s. Qed.

Lemma str_or_non_empty s d : d <> [] -> str_or s d <> [].
Proof. by destruct s. Qed.

(** ** Laws of [startsWith] *)

Lemma starts_with_spec p s : starts_with p s = true <-> exists r, s = p ++ r.
Proof.
  revert s. induction p as [|x p IH]; intros [|y s]; simpl.
  - split; [by exists []|done].
  - split; [eauto|done].
  - split; [done|by intros [? ?]].
  - unfold is_char. rewrite andb_true_iff, bool_decide_eq_true, IH. naive_solver.
Qed.

Lemma starts_with_app p r : starts_with p (p ++ r) = true.
Proof. apply starts_with_spec. eauto. Qed.

(** ** Laws of [lastIndexOf] *)

Lemma last_index_of_Some p s i :
  last_index_of p s = Some i -> s = take i s ++ p ++ drop (i + length p) s.
Proof.
  revert i. induction s as [|c s IH]; intros i; simpl.
  - destruct p; simpl; [|done]. by intros [= <-].
  - destruct (last_index_of p s) as [j|] eqn:E.
    + intros [= <-]. simpl. f_equal. by apply IH.
    + destruct (starts_with p (c :: s)) eqn:E'; [|done]. intros [= <-].
      apply starts_with_spec in E' as [r Hr]. rewrite Hr. simpl. by rewrite drop_app_length.
Qed.

Lemma last_index_of_app a x p s :
  last_index_of (x :: p) (p ++ s) = None ->
  last_index_of (x :: p) (a ++ x :: p ++ s) = Some (length a).
Proof.
  intros H. induction a as [|c a IH]; simpl app.
  - cbn [last_index_of]. rewrite H. change (x :: p ++ s) with ((x :: p) ++ s).
    by rewrite starts_with_app.
  - cbn [last_index_of]. by rewrite IH.
Qed.

(** ** Laws of [split] and [join] *)

Definition free_of (c : ascii) (s : jstr) : Prop := Forall (fun x => x <> c) s.

#[global] Instance free_of_dec c s : Decision (free_of c s).
Proof. unfold free_of. apply _. Defined.

Lemma free_of_app c s t : free_of c (s ++ t) <-> free_of c s /\ free_of c t.
Proof. apply Forall_app. Qed.

Lemma free_of_trim c s : free_of c s -> free_of c (trim s).
Proof.
  unfold free_of, trim. intros H.
  destruct (drop_while_suffix is_space s) as [u Hu]. rewrite Hu in H.
  destruct (drop_while_end_prefix is_space (drop_while is_space s)) as [v Hv]. rewrite Hv in H.
  by apply Forall_app in H as [_ [H _]%Forall_app].
Qed.

Lemma split_on_not_nil c s : split_on c s <> [].
Proof. induction s as [|x s IH]; simpl; [done|]. repeat case_match; done. Qed.

Lemma split_on_free c s : free_of c s -> split_on c s = [s].
Proof.
  induction 1 as [|x s H _ IH]; simpl; [done|]. unfold is_char.
  rewrite bool_decide_eq_false_2 by done. by rewrite IH.
Qed.

Lemma split_on_app c s t :
  free_of c s -> split_on c (s ++ c :: t) = s :: split_on c t.
Proof.
  induction 1 as [|x s H _ IH]; simpl; unfold is_char.
  - by rewrite bool_decide_eq_true_2.
  - rewrite bool_decide_eq_false_2 by done. by rewrite IH.
Qed.

Lemma split_on_app_gen c s t :
  split_on c (s ++ c :: t) = split_on c s ++ split_on c t.
Proof.
  induction s as [|x s IH]; simpl; unfold is_char.
  - by rewrite bool_decide_eq_true_2.
  - case_bool_decide as E; rewrite IH; [done|].
    pose proof (split_on_not_nil c s). by destruct (split_on c s).
Qed.

Lemma join_cons sep p ps : ps <> [] -> join sep (p :: ps) = p ++ sep ++ join sep ps.
Proof. by destruct ps. Qed.

(** Splitting and joining on the same separator is the identity. *)
Lemma join_split c s : join [c] (split_on c s) = s.
Proof.
  induction s as [|x s IH]; [done|]. simpl. unfold is_char. case_bool_decide as E.
  - subst. rewrite join_cons by apply split_on_not_nil. by rewrite IH.
  - pose proof (split_on_not_nil c s). destruct (split_on c s) as [|p [|q ps]]; [done| |];
      simpl in *; by rewrite <- IH.
Qed.

Lemma split_on_pieces c s : Forall (free_of c) (split_on c s).
Proof.
  induction s as [|x s IH]; simpl; [repeat constructor|]. unfold is_char.
  case_bool_decide as E; [constructor; [constructor|done]|].
  pose proof (split_on_not_nil c s). destruct (split_on c s) as [|p ps]; [done|].
  inversion IH; subst. constructor; [by constructor|done].
Qed.

(** Joining separator-free pieces and splitting gives the pieces back. *)
Lemma split_join c ps :
  ps <> [] -> Forall (free_of c) ps -> split_on c (join [c] ps) = ps.
Proof.
  intros Hne H. induction H as [|p ps Hp Hps IH]; [done|].
  destruct ps as [|q ps]; [by apply split_on_free|].
  rewrite join_cons by done. change ([c] ++ join [c] (q :: ps)) with (c :: join [c] (q :: ps)).
    rewrite split_on_app by done. f_equal. by apply IH.
Qed.

Lemma lower_split c s :
  (forall x, lowerc x = c <-> x = c) -> split_on c (lower s) = map lower (split_on c s).
Proof.
  intros Hc. induction s as [|x s IH]; [done|]. simpl. unfold is_char in *.
  destruct (decide (x = c)) as [->|Hx].
  - rewrite !bool_decide_eq_true_2 by first [done | by apply Hc]. by rewrite IH.
  - rewrite !bool_decide_eq_false_2 by (rewrite ?Hc; done). rewrite IH.
    by destruct (split_on c s).
Qed.

Create Rewrite HintDb js.
#[export] Hint Resolve trim_idem lower_idem split_on_not_nil : js.
#[export] Hint Rewrite trim_idem lower_idem trim_lower lower_app lower_length : js.

Lemma drop_while_app {B} (p : B -> bool) x y :
  drop_while p (x ++ y) = match drop_while p x with [] => drop_while p y | r => r ++ y end.
Proof.
  induction x as [|c x IH]; [done|]. cbn. destruct (p c); [apply IH|done].
Qed.

Lemma drop_while_end_app {B} (p : B -> bool) x y :
  exists r, drop_while_end p (x ++ y) = drop_while_end p x ++ r.
Proof.
  destruct (drop_while_end_prefix p x) as [r Hr]. unfold drop_while_end in *.
  rewrite rev_app_distr, drop_while_app. destruct (drop_while p (rev y)) as [|c l] eqn:E.
  - exists []. by rewrite app_nil_r.
  - exists (r ++ rev (c :: l)). rewrite rev_app_distr, rev_involutive, app_assoc. by rewrite <- Hr.
Qed.

(** ** The order of code units *)

(** The order of JavaScript strings: by code units, from the left. *)
Fixpoint jstr_le (a b : jstr) : bool :=
  match a, b with
  | [], _ => true
  | _ :: _, [] => false
  | x :: a', y :: b' => (code x <? code y)%nat || (bool_decide (x = y) && jstr_le a' b')
  end.

Fixpoint insert_sorted (x : jstr) (l : list jstr) : list jstr :=
  match l with
  | [] => [x]
  | y :: r => if jstr_le x y then x :: l else y :: insert_sorted x r
  end.

(** [toSorted()]. *)
Definition to_sorted (l : list jstr) : list jstr := foldr insert_sorted [] l.

(** [a < b]. *)
Definition str_lt (a b : jstr) : Prop := jstr_le b a = false.

Lemma code_inj (x y : ascii) : code x = code y -> x = y.
Proof.
  intros E. rewrite <- (Stdlib.Strings.Ascii.ascii_nat_embedding x).
  rewrite <- (Stdlib.Strings.Ascii.ascii_nat_embedding y). unfold code in E. by rewrite E.
Qed.

Lemma str_lt_cons x y a b :
  str_lt (x :: a) (y :: b) <-> (code x < code y)%nat \/ x = y /\ str_lt a b.
Proof.
  unfold str_lt. simpl. rewrite orb_false_iff, andb_false_iff, Nat.ltb_ge, bool_decide_eq_false.
  split.
  - intros [Hc [Hne|Hle]].
    + left. destruct (decide (code x = code y)) as [E|]; [|lia]. by apply code_inj in E.
    + destruct (decide (x = y)) as [->|Hne]; [by right|]. left.
      destruct (decide (code x = code y)) as [E|]; [|lia]. by apply code_inj in E.
  - intros [Hlt|[-> Hlt]].
    + split; [lia|]. left. intros ->. lia.
    + split; [lia|]. by right.
Qed.

#[export] Instance str_lt_strict : StrictOrder str_lt.
Proof.
  split.
  - intros a. induction a as [|x a IH]; [done|]. intros [?|[_ ?]]%str_lt_cons; [lia|done].
  - intros a. induction a as [|x a IH]; intros [|y b] [|z c]; try done.
    rewrite !str_lt_cons. intros [?|[-> ?]] [?|[-> ?]]; [left; lia|by left..|].
    right. split; [done|]. by eapply IH.
Qed.

Lemma str_lt_total a b : str_lt a b \/ a = b \/ str_lt b a.
Proof.
  revert b. induction a as [|x a IH]; intros [|y b]; [auto..|].
  - by left.
  - by right; right.
  - rewrite !str_lt_cons. destruct (Nat.lt_trichotomy (code x) (code y)) as [?|[E|?]]; auto.
    apply code_inj in E as ->. destruct (IH b) as [?|[->|?]]; auto.
Qed.

Lemma jstr_le_spec a b : jstr_le a b = true <-> ~ str_lt b a.
Proof. unfold str_lt. by rewrite not_false_iff_true. Qed.

Lemma jstr_le_total a b : jstr_le a b = true \/ jstr_le b a = true.
Proof.
  rewrite !jstr_le_spec. destruct (str_lt_total a b) as [H|[->|H]].
  - left. intros H'. by apply (irreflexivity str_lt a); trans b.
  - left. apply irreflexivity, _.
  - right. intros H'. by apply (irreflexivity str_lt a); trans b.
Qed.

Lemma jstr_le_anti a b : jstr_le a b = true -> jstr_le b a = true -> a = b.
Proof. rewrite !jstr_le_spec. destruct (str_lt_total a b) as [H|[->|H]]; done. Qed.

Lemma jstr_le_trans a b c : jstr_le a b = true -> jstr_le b c = true -> jstr_le a c = true.
Proof.
  rewrite !jstr_le_spec. intros H1 H2 H3. destruct (str_lt_total a b) as [H|[->|H]]; [|done|done].
  apply H2. by trans a.
Qed.

Lemma elem_of_insert_sorted x y l : x ∈ insert_sorted y l <-> x = y \/ x ∈ l.
Proof.
  induction l as [|z l IH]; simpl; [set_solver|]. destruct (jstr_le y z); set_solver.
Qed.

Lemma elem_of_to_sorted x l : x ∈ to_sorted l <-> x ∈ l.
Proof.
  induction l as [|y l IH]; simpl; [done|]. rewrite elem_of_insert_sorted, IH. set_solver.
Qed.

Lemma insert_sorted_strict x l :
  x ∉ l -> StronglySorted str_lt l -> StronglySorted str_lt (insert_sorted x l).
Proof.
  intros Hx Hs. induction Hs as [|y l Hs IH Hy]; simpl; [by repeat constructor|].
  apply not_elem_of_cons in Hx as [Hne Hx]. destruct (jstr_le x y) eqn:E.
  - assert (str_lt x y) as Hxy.
    { destruct (str_lt_total x y) as [?|[->|Hlt]]; [done..|]. unfold str_lt in Hlt. congruence. }
    constructor; [by constructor|]. constructor; [done|].
    eapply Forall_impl; [exact Hy|]. intros z Hz. by transitivity y.
  - constructor; [by apply IH|]. apply Forall_forall. intros z [->|Hz]%elem_of_insert_sorted; [done|].
    by apply (proj1 (Forall_forall _ _) Hy).
Qed.

Lemma to_sorted_strict l : NoDup l -> StronglySorted str_lt (to_sorted l).
Proof.
  induction 1 as [|x l Hx Hl IH]; simpl; [constructor|].
  apply insert_sorted_strict; [by rewrite elem_of_to_sorted|done].
Qed.
