(* ===== verification/JsMap.v ===== *)
(** * JavaScript [Map] and [Set]

    A [Map] iterates in insertion order and keeps the position of a key whose
    value is replaced, which the bounded caches and the lane table rely on: it
    is an association list with its keys distinct.  A [Set] is the list of its
    elements in insertion order. *)
From S2P Require Import Prelude.

Section jsmap.
  Context {K V : Type} `{!EqDecision K}.
  Implicit Types (m : list (K * V)) (k : K) (v : V).

  (** [m.get(k)]. *)
Fixpoint jm_get k m : option V :=
    match m with
    | [] => None
    | (k', v) :: r => if decide (k = k') then Some v else jm_get k r
    end.

  (** [m.has(k)]. *)
Definition jm_has k m : bool := bool_decide (is_Some (jm_get k m)).

  (** [m.set(k, v)]: in place when [k] is a key, at the end otherwise. *)
Fixpoint jm_set k v m : list (K * V) :=
    match m with
    | [] => [(k, v)]
    | (k', v') :: r => if decide (k = k') then (k, v) :: r else (k', v') :: jm_set k v r
    end.

  (** [m.delete(k)]. *)
Fixpoint jm_delete k m : list (K * V) :=
    match m with
    | [] => []
    | (k', v') :: r => if decide (k = k') then r else (k', v') :: jm_delete k r
    end.

  (** [m.keys().next()]: the oldest key. *)
Definition jm_oldest m : option K := fst <$> head m.

  (** The keys of a map are distinct. *)
Definition jm_wf m : Prop := NoDup m.*1.

Lemma jm_get_set_eq k v m : jm_get k (jm_set k v m) = Some v.
  Proof.
    induction m as [|[k' v'] m IH]; simpl; [by rewrite decide_True|].
    destruct (decide (k = k')) as [->|]; simpl; [by rewrite decide_True|].
    by rewrite decide_False.
  Qed.

Lemma jm_get_set_ne k k' v m : k' <> k -> jm_get k' (jm_set k v m) = jm_get k' m.
  Proof.
    intros Hne. induction m as [|[k0 v0] m IH]; simpl; [by rewrite decide_False|].
    destruct (decide (k = k0)) as [->|]; simpl; [by rewrite !decide_False|].
    by rewrite IH.
  Qed.

Lemma jm_get_set k k' v m :
    jm_get k' (jm_set k v m) = if decide (k' = k) then Some v else jm_get k' m.
  Proof. case_decide; subst; auto using jm_get_set_eq, jm_get_set_ne. Qed.

Lemma jm_get_None k m : jm_get k m = None <-> k ∉ m.*1.
  Proof.
    induction m as [|[k' v'] m IH]; simpl; [set_solver|].
    destruct (decide (k = k')) as [->|]; [set_solver|]. rewrite IH. set_solver.
  Qed.

Lemma jm_get_elem k v m : jm_get k m = Some v -> (k, v) ∈ m.
  Proof.
    induction m as [|[k' v'] m IH]; simpl; [done|].
    destruct (decide (k = k')); intros; simplify_eq; set_solver.
  Qed.

Lemma jm_elem_get k v m : jm_wf m -> (k, v) ∈ m -> jm_get k m = Some v.
  Proof.
    unfold jm_wf. induction m as [|[k' v'] m IH]; simpl; [set_solver|].
    rewrite NoDup_cons. intros [Hk Hnd] [Heq|Hin]%elem_of_cons; simplify_eq.
    - by rewrite decide_True.
    - rewrite decide_False; [auto|]. intros ->. apply Hk.
      apply list_elem_of_fmap. by exists (k', v).
  Qed.

Lemma jm_get_app k m1 m2 :
    jm_get k (m1 ++ m2) = match jm_get k m1 with Some v => Some v | None => jm_get k m2 end.
  Proof. induction m1 as [|[k1 v1] m1 IH]; [done|]. cbn. by case_decide. Qed.

Lemma jm_set_new k v m : k ∉ m.*1 -> jm_set k v m = m ++ [(k, v)].
  Proof.
    induction m as [|[k1 v1] m IH]; [done|]. cbn. intros [Hne Hm]%not_elem_of_cons.
    rewrite decide_False by done. by rewrite IH.
  Qed.

Lemma jm_get_delete_ne k k' m : k' <> k -> jm_get k' (jm_delete k m) = jm_get k' m.
  Proof.
    intros Hne. induction m as [|[k0 v0] m IH]; simpl; [done|].
    destruct (decide (k = k0)) as [->|]; simpl; [by rewrite decide_False|].
    by rewrite IH.
  Qed.

Lemma jm_delete_keys k m : (jm_delete k m).*1 ⊆ m.*1.
  Proof.
    induction m as [|[k0 v0] m IH]; simpl; [done|]. destruct (decide _); set_solver.
  Qed.

Lemma jm_get_delete_eq k m : jm_wf m -> jm_get k (jm_delete k m) = None.
  Proof.
    unfold jm_wf. induction m as [|[k0 v0] m IH]; simpl; [done|].
    rewrite NoDup_cons. intros [Hk Hnd]. destruct (decide (k = k0)) as [->|]; simpl.
    - by apply jm_get_None.
    - rewrite decide_False by done. auto.
  Qed.

Lemma jm_get_delete_Some k k' v m :
    jm_wf m -> jm_get k' (jm_delete k m) = Some v -> k' <> k /\ jm_get k' m = Some v.
  Proof.
    intros Hwf H. destruct (decide (k' = k)) as [->|].
    - by rewrite jm_get_delete_eq in H.
    - by rewrite jm_get_delete_ne in H.
  Qed.

Lemma jm_set_keys k v m :
    (jm_set k v m).*1 = if decide (k ∈ m.*1) then m.*1 else m.*1 ++ [k].
  Proof.
    induction m as [|[k0 v0] m IH]; cbn [jm_set].
    - rewrite decide_False by set_solver. done.
    - destruct (decide (k = k0)) as [->|Hne]; rewrite !fmap_cons.
      + rewrite decide_True by set_solver. done.
      + rewrite IH. destruct (decide (k ∈ m.*1)) as [Hin|Hin].
        * rewrite decide_True by set_solver. done.
        * rewrite decide_False by set_solver. done.
  Qed.

Lemma jm_wf_set k v m : jm_wf m -> jm_wf (jm_set k v m).
  Proof.
    unfold jm_wf. rewrite jm_set_keys. case_decide as Hk; [done|]. intros H.
    apply NoDup_app. split; [done|]. split; [set_solver|apply NoDup_singleton].
  Qed.

Lemma jm_wf_delete k m : jm_wf m -> jm_wf (jm_delete k m).
  Proof.
    unfold jm_wf. induction m as [|[k0 v0] m IH]; simpl; [done|].
    rewrite NoDup_cons. intros [Hk Hnd]. destruct (decide _); [done|]. simpl.
    apply NoDup_cons. split; [|auto]. intros ?. by apply Hk, (jm_delete_keys k).
  Qed.

Lemma jm_length_set k v m :
    length (jm_set k v m) = if decide (k ∈ m.*1) then length m else S (length m).
  Proof.
    rewrite <- !(length_fmap fst), jm_set_keys. case_decide; [done|].
    rewrite length_app. simpl. lia.
  Qed.

Lemma jm_length_set_le k v m : length (jm_set k v m) <= S (length m).
  Proof. rewrite jm_length_set. case_decide; lia. Qed.

  (** Dropping the oldest entry makes room for one. *)
Lemma jm_length_delete_oldest k m :
    jm_oldest m = Some k -> S (length (jm_delete k m)) = length m.
  Proof.
    unfold jm_oldest. destruct m as [|[k0 v0] m]; simpl; [done|]. intros [= ->].
    by rewrite decide_True.
  Qed.

Lemma jm_length_delete k v m : jm_get k m = Some v -> S (length (jm_delete k m)) = length m.
  Proof.
    induction m as [|[k0 v0] m IH]; simpl; [done|]. destruct (decide (k = k0)); [done|].
    intros H. simpl. by rewrite IH.
  Qed.

Lemma jm_delete_absent k m : k ∉ m.*1 -> jm_delete k m = m.
  Proof.
    induction m as [|[k0 v0] m IH]; [done|]. rewrite fmap_cons. cbn. intros H.
    rewrite decide_False by set_solver. rewrite IH; set_solver.
  Qed.

  (** A property of all entries. *)
Definition jm_all (P : K -> V -> Prop) m : Prop := forall k v, (k, v) ∈ m -> P k v.

Lemma jm_all_nil P : jm_all P [].
  Proof. intros ??. set_solver. Qed.

Lemma jm_all_get P k v m : jm_all P m -> jm_get k m = Some v -> P k v.
  Proof. eauto using jm_get_elem. Qed.

Lemma jm_all_set P k v m : jm_all P m -> P k v -> jm_all P (jm_set k v m).
  Proof.
    unfold jm_all. intros Hm Hv. induction m as [|[k0 v0] m IH]; simpl.
    - intros ?? ?%list_elem_of_singleton. by simplify_eq.
    - destruct (decide (k = k0)) as [->|]; intros k1 v1 [?|?]%elem_of_cons; simplify_eq; auto.
      + apply Hm. set_solver.
      + apply Hm. set_solver.
      + apply IH; [|done]. intros ???. apply Hm. set_solver.
  Qed.

Lemma jm_all_delete P k m : jm_all P m -> jm_all P (jm_delete k m).
  Proof.
    unfold jm_all. intros Hm. induction m as [|[k0 v0] m IH]; simpl; [done|].
    destruct (decide (k = k0)) as [->|].
    - intros ???. apply Hm. set_solver.
    - intros k1 v1 [?|?]%elem_of_cons; [apply Hm; set_solver|].
      apply IH; [|done]. intros ???. apply Hm. set_solver.
  Qed.

  (** A loop over the entries that replaces or deletes each of them. *)
Definition jm_filter_map (f : V -> option V) m : list (K * V) :=
    omap (fun '(k, v) => (fun v' => (k, v')) <$> f v) m.

Lemma jm_filter_map_keys f m : (jm_filter_map f m).*1 `sublist_of` m.*1.
  Proof.
    induction m as [|[k v] m IH]; [done|]. cbn. destruct (f v); cbn; by constructor.
  Qed.

Lemma jm_wf_filter_map f m : jm_wf m -> jm_wf (jm_filter_map f m).
  Proof. intros H. eapply sublist_NoDup; [exact H|apply jm_filter_map_keys]. Qed.

Lemma jm_length_filter_map f m : length (jm_filter_map f m) <= length m.
  Proof.
    rewrite <- (length_fmap fst (jm_filter_map f m)), <- (length_fmap fst m).
    apply sublist_length, jm_filter_map_keys.
  Qed.

Lemma jm_get_filter_map f k m : jm_wf m -> jm_get k (jm_filter_map f m) = jm_get k m ≫= f.
  Proof.
    unfold jm_wf. induction m as [|[k0 v0] m IH]; [done|]. rewrite fmap_cons, NoDup_cons.
    intros [Hk Hnd]. cbn. destruct (decide (k = k0)) as [->|Hne]; cbn.
    - destruct (f v0) as [v'|]; cbn; [by rewrite decide_True|].
      apply jm_get_None. intros Hin. apply Hk.
      eapply elem_of_sublist; [exact Hin|apply jm_filter_map_keys].
    - destruct (f v0) as [v'|]; cbn; [rewrite decide_False by done|]; auto.
  Qed.

Lemma jm_filter_map_id f m : jm_all (fun _ v => f v = Some v) m -> jm_filter_map f m = m.
  Proof.
    unfold jm_all. induction m as [|[k v] m IH]; [done|]. intros H. cbn.
    rewrite (H k v) by set_solver. cbn. f_equal. apply IH. set_solver.
  Qed.

Lemma jm_all_filter_map P f m :
    (forall k v v', P k v -> f v = Some v' -> P k v') -> jm_all P m -> jm_all P (jm_filter_map f m).
  Proof.
    intros Hf Hm k v Hin. apply list_elem_of_omap in Hin as ([k0 v0] & Hin & E).
    destruct (f v0) as [v'|] eqn:Ev; simplify_eq/=. eauto.
  Qed.
End jsmap.

#[export] Hint Resolve jm_wf_filter_map : js.
#[export] Hint Resolve jm_wf_set jm_wf_delete jm_all_set jm_all_delete jm_all_nil : js.
#[export] Hint Resolve jm_get_set_eq jm_get_set_ne jm_get_delete_ne : js.

(** [new Set(l)]: first occurrences, in order. *)
Definition js_set `{EqDecision A} (l : list A) : list A :=
  fold_left (fun acc x => if decide (x ∈ acc) then acc else acc ++ [x]) l [].

(** [s.add(x)]. *)
Definition js_add `{EqDecision A} (x : A) (s : list A) : list A :=
  if decide (x ∈ s) then s else s ++ [x].

Lemma elem_of_js_add `{EqDecision A} (x y : A) s : y ∈ js_add x s <-> y = x \/ y ∈ s.
Proof. unfold js_add. case_decide; set_solver. Qed.

Lemma NoDup_js_add `{EqDecision A} (x : A) s : NoDup s -> NoDup (js_add x s).
Proof.
  intros H. unfold js_add. case_decide; [done|]. apply NoDup_app.
  split; [done|]. split; [set_solver|apply NoDup_singleton].
Qed.

Lemma elem_of_js_set `{EqDecision A} (x : A) l : x ∈ js_set l <-> x ∈ l.
Proof.
  unfold js_set. cut (forall acc, x ∈ fold_left (fun a y => js_add y a) l acc <-> x ∈ acc \/ x ∈ l).
  { intros H. rewrite (H []). set_solver. }
  induction l as [|y l IH]; intros acc; simpl; [set_solver|].
  rewrite IH, elem_of_js_add. set_solver.
Qed.

Lemma js_set_snoc `{EqDecision A} (l : list A) x : js_set (l ++ [x]) = js_add x (js_set l).
Proof. unfold js_set. by rewrite fold_left_app. Qed.

Lemma NoDup_js_set `{EqDecision A} (l : list A) : NoDup (js_set l).
Proof.
  induction l as [|x l IH] using rev_ind; [constructor|]. rewrite js_set_snoc. by apply NoDup_js_add.
Qed.

Lemma js_set_NoDup {A} `{EqDecision A} (l : list A) : NoDup l -> js_set l = l.
Proof.
  induction l as [|x l IH] using rev_ind; [done|]. intros (Hl & Hx & _)%NoDup_app.
  rewrite js_set_snoc, IH by done. unfold js_add. rewrite decide_False; [done|].
  intros Hin. apply (Hx x Hin). by left.
Qed.

Lemma jm_set_same {K V} `{EqDecision K} (k : K) (v : V) m : jm_get k m = Some v -> jm_set k v m = m.
Proof.
  induction m as [|[k' v'] m IH]; [done|]. cbn. case_decide as E; [|by intros H; rewrite IH].
  intros [= ->]. by rewrite E.
Qed.

(** A [Map] of [Set]s: [x] joins the set of [k], which is created when missing. *)
Definition multi_add `{Countable K} `{EqDecision A} (x : A) (m : gmap K (list A)) (k : K) :
    gmap K (list A) :=
  <[k := js_add x (default [] (m !! k))]> m.

Lemma multi_add_lookup `{Countable K} `{EqDecision A} (x : A) (ks : list K)
    (m : gmap K (list A)) (k : K) :
  fold_left (multi_add x) ks m !! k =
  if bool_decide (k ∈ ks) then Some (js_add x (default [] (m !! k))) else m !! k.
Proof.
  revert m. induction ks as [|y ks IH]; intros m; cbn [fold_left].
  { by rewrite bool_decide_eq_false_2 by set_solver. }
  assert (js_add x (js_add x (default [] (m !! y))) = js_add x (default [] (m !! y))) as E.
  { unfold js_add at 1. rewrite decide_True; [done|]. apply elem_of_js_add. by left. }
  rewrite IH. unfold multi_add. destruct (decide (k = y)) as [->|Hne].
  - rewrite lookup_insert_eq. simpl. rewrite E.
    rewrite (bool_decide_eq_true_2 (y ∈ y :: ks)) by set_solver. by case_bool_decide.
  - rewrite lookup_insert_ne by done. rewrite (bool_decide_ext (k ∈ y :: ks) (k ∈ ks)); [done|].
    set_solver.
Qed.
