(* ===== verification/Normalization.v ===== *)
(** * Identifier normalisation

    [packages/normalization-core/src/string-coerce.ts] (section 1),
    [packages/normalization-core/src/agent-id.ts] (section 2),
    [src/infra/prototype-keys.ts] and [src/routing/account-id.ts] with its two
    bounded caches (section 3), [src/channels/chat-type.ts] (section 4).

    A value of TypeScript type [unknown] is a [jsval]; numbers are the integral
    ones, printed in decimal as [String(n)] does below 2^53 and for bigints. *)
From stdpp Require Import pretty.
From S2P Require Import Prelude JsString JsMap.

(** ** 1. String coercion *)

Inductive jsval :=
  | VUndefined
  | VNull
  | VBool (b : bool)
  | VNumber (n : Z)
  | VString (s : jstr)
  | VObject.

(** A [string | null | undefined] argument. *)
Definition of_opt (o : option jstr) : jsval :=
  match o with Some s => VString s | None => VUndefined end.

Definition js_number_string (n : Z) : jstr := lit (pretty n).

Definition readStringValue (v : jsval) : option jstr :=
  match v with VString s => Some s | _ => None end.

Definition normalizeNullableString (v : jsval) : option jstr :=
  match v with
  | VString s => let trimmed := trim s in if truthy trimmed then Some trimmed else None
  | _ => None
  end.

Definition normalizeOptionalString (v : jsval) : option jstr := normalizeNullableString v.

Definition normalizeStringifiedOptionalString (v : jsval) : option jstr :=
  match v with
  | VString s => normalizeOptionalString v
  | VNumber n => normalizeOptionalString (VString (js_number_string n))
  | VBool b => normalizeOptionalString (VString (if b then lit "true" else lit "false"))
  | _ => None
  end.

Definition normalizeStringifiedEntries (values : option (list jsval)) : list jstr :=
  List.filter truthy (omap normalizeStringifiedOptionalString (default [] values)).

Definition normalizeOptionalLowercaseString (v : jsval) : option jstr :=
  lower <$> normalizeOptionalString v.

Definition normalizeLowercaseStringOrEmpty (v : jsval) : jstr :=
  default [] (normalizeOptionalLowercaseString v).

Definition hasNonEmptyString (v : jsval) : bool :=
  bool_decide (is_Some (normalizeOptionalString v)).

(** The normal form of a string: trimmed and lower case. *)
Definition fold_str (s : jstr) : jstr := lower (trim s).

Lemma normalizeLowercaseStringOrEmpty_string s :
  normalizeLowercaseStringOrEmpty (VString s) = fold_str s.
Proof.
  unfold normalizeLowercaseStringOrEmpty, normalizeOptionalLowercaseString, fold_str.
  simpl. by destruct (trim s).
Qed.

Lemma normalizeLowercaseStringOrEmpty_opt o :
  normalizeLowercaseStringOrEmpty (of_opt o) = fold_str (or_empty o).
Proof. destruct o; [apply normalizeLowercaseStringOrEmpty_string|done]. Qed.

Lemma normalizeOptionalString_Some v s :
  normalizeOptionalString v = Some s -> s <> [] /\ trim s = s.
Proof.
  destruct v as [| | | |t|]; simpl; try done. destruct (trim t) as [|c r] eqn:E; simpl; [done|].
  intros [= <-]. split; [done|]. rewrite <- E. apply trim_idem.
Qed.

Lemma normalizeOptionalString_string s :
  normalizeOptionalString (VString s) = non_empty (trim s).
Proof. simpl. by destruct (trim s). Qed.

Lemma fold_str_idem s : fold_str (fold_str s) = fold_str s.
Proof. unfold fold_str. by rewrite trim_lower, trim_idem, lower_idem. Qed.

Lemma fold_str_trim s : fold_str (trim s) = fold_str s.
Proof. unfold fold_str. by rewrite trim_idem. Qed.

#[export] Hint Rewrite normalizeLowercaseStringOrEmpty_string
  normalizeLowercaseStringOrEmpty_opt fold_str_idem fold_str_trim : js.

(** ** 2. Agent ids *)

Definition DEFAULT_AGENT_ID : jstr := lit "main".

Definition is_dash (c : ascii) : bool := is_char c "-"%char.

(** [[a-z0-9_-]]. *)
Definition id_char (c : ascii) : bool :=
  is_az c || is_digit c || is_char c "_"%char || is_dash c.

(** [[a-z0-9_-]] and [[a-z0-9]] under the flag [i]. *)
Definition id_char_i (c : ascii) : bool :=
  is_az_i c || is_digit c || is_char c "_"%char || is_dash c.
Definition id_head_i (c : ascii) : bool := is_az_i c || is_digit c.

(** [/^[a-z0-9][a-z0-9_-]{0,63}$/i.test(s)]. *)
Definition VALID_ID_RE (s : jstr) : bool :=
  match s with
  | [] => false
  | c :: r => id_head_i c && forallb id_char_i r && (length r <=? 63)%nat
  end.

(** [s.replace(/[^a-z0-9_-]+/g, "-")]; [run] says that the previous character
    belonged to a match already replaced. *)
Fixpoint replace_invalid_from (run : bool) (s : jstr) : jstr :=
  match s with
  | [] => []
  | c :: r =>
      if id_char c then c :: replace_invalid_from false r
      else if run then replace_invalid_from true r
      else "-"%char :: replace_invalid_from true r
  end.

Definition replace_INVALID_CHARS (s : jstr) : jstr := replace_invalid_from false s.

(** [.replace(/^-+/, "")] and [.replace(/-+$/, "")]. *)
Definition strip_LEADING_DASH (s : jstr) : jstr := drop_while is_dash s.
Definition strip_TRAILING_DASH (s : jstr) : jstr := drop_while_end is_dash s.

(** The replace chain that both id modules apply to an invalid id. *)
Definition clean_id (normalized : jstr) : jstr :=
  slice 0 64 (strip_TRAILING_DASH (strip_LEADING_DASH (replace_INVALID_CHARS normalized))).

Definition normalizeAgentId (value : option jstr) : jstr :=
  let trimmed := trim (or_empty value) in
  if negb (truthy trimmed) then DEFAULT_AGENT_ID
  else
    let normalized := normalizeLowercaseStringOrEmpty (VString trimmed) in
    if VALID_ID_RE trimmed then normalized
    else str_or (clean_id normalized) DEFAULT_AGENT_ID.

Definition isValidAgentId (value : option jstr) : bool :=
  let trimmed := trim (or_empty value) in truthy trimmed && VALID_ID_RE trimmed.

Definition sanitizeAgentId (value : option jstr) : jstr := normalizeAgentId value.

Definition normalizeOptionalAgentId (value : jsval) : option jstr :=
  let trimmed := normalizeOptionalString value in
  if truthy_opt trimmed then Some (normalizeAgentId trimmed) else None.

(** ** 3. Account ids *)

Definition BLOCKED_OBJECT_KEYS : list jstr :=
  [lit "__proto__"; lit "prototype"; lit "constructor"].

Definition isBlockedObjectKey (key : jstr) : bool := includes key BLOCKED_OBJECT_KEYS.

Definition DEFAULT_ACCOUNT_ID : jstr := lit "default".
Definition ACCOUNT_ID_CACHE_MAX : nat := 512.

Definition canonicalizeAccountId (value : jstr) : jstr :=
  let normalized := normalizeLowercaseStringOrEmpty (VString value) in
  if VALID_ID_RE value then normalized else clean_id normalized.

Definition normalizeCanonicalAccountId (value : jstr) : option jstr :=
  let canonical := canonicalizeAccountId value in
  if negb (truthy canonical) || isBlockedObjectKey canonical then None else Some canonical.

(** [setNormalizeCache]: insert, then drop the oldest entry above the bound. *)
Definition setNormalizeCache {T} (cache : list (jstr * T)) (key : jstr) (value : T)
    : list (jstr * T) :=
  let cache := jm_set key value cache in
  if (length cache <=? ACCOUNT_ID_CACHE_MAX)%nat then cache
  else match jm_oldest cache with
       | Some oldest => jm_delete oldest cache
       | None => cache
       end.

(** What [normalizeAccountId] computes for a trimmed non-empty value on a
    cache miss. *)
Definition computeAccountId (trimmed : jstr) : jstr :=
  default DEFAULT_ACCOUNT_ID (normalizeCanonicalAccountId trimmed).

Definition normalizeAccountId_cached (cache : list (jstr * jstr)) (value : option jstr)
    : list (jstr * jstr) * jstr :=
  let trimmed := trim (or_empty value) in
  if negb (truthy trimmed) then (cache, DEFAULT_ACCOUNT_ID)
  else
    let cached := jm_get trimmed cache in
    if truthy_opt cached then (cache, or_empty cached)
    else
      let normalized := computeAccountId trimmed in
      (setNormalizeCache cache trimmed normalized, normalized).

Definition normalizeOptionalAccountId_cached (cache : list (jstr * option jstr))
    (value : option jstr) : list (jstr * option jstr) * option jstr :=
  let trimmed := trim (or_empty value) in
  if negb (truthy trimmed) then (cache, None)
  else match jm_get trimmed cache with
       | Some cached => (cache, cached)
       | None =>
           let normalized := normalizeCanonicalAccountId trimmed in
           (setNormalizeCache cache trimmed normalized, normalized)
       end.

(** The functions the caches compute (see [normalizeAccountId_cache_transparent]);
    every other component calls these. *)
Definition normalizeAccountId (value : option jstr) : jstr :=
  (normalizeAccountId_cached [] value).2.

Definition normalizeOptionalAccountId (value : option jstr) : option jstr :=
  (normalizeOptionalAccountId_cached [] value).2.

(** ** 4. Chat types *)

Inductive ChatType := Direct | Group | Channel.

#[global] Instance ChatType_eq_dec : EqDecision ChatType.
Proof. solve_decision. Defined.

Definition chat_type_name (k : ChatType) : jstr :=
  match k with
  | Direct => lit "direct"
  | Group => lit "group"
  | Channel => lit "channel"
  end.

Definition normalizeChatType (raw : option jstr) : option ChatType :=
  match normalizeOptionalLowercaseString (of_opt raw) with
  | None => None
  | Some value =>
      if negb (truthy value) then None
      else if bool_decide (value = lit "direct") || bool_decide (value = lit "dm")
      then Some Direct
      else if bool_decide (value = lit "group") then Some Group
      else if bool_decide (value = lit "channel") then Some Channel
      else None
  end.

(** ** Laws of the id pipeline *)

Definition id_chars (s : jstr) : Prop := Forall (fun c => id_char c = true) s.

(** The canonical ids: not empty, at most 64 characters of [[a-z0-9_-]], the
    first one not a dash. *)
Record canonical_id (s : jstr) : Prop := {
  ci_chars : id_chars s;
  ci_length : length s <= 64;
  ci_head : exists c r, s = c :: r /\ is_dash c = false;
}.

(** The ids that the pipeline changes again: ["_...-"]. *)
Definition unstable_id (s : jstr) : Prop := exists r, s = "_"%char :: r ++ ["-"%char].

Lemma id_char_lower c : id_char c = true -> lowerc c = c /\ is_space c = false.
Proof. by_bits c. Qed.

Lemma id_char_i_lower c : id_char_i c = true -> id_char (lowerc c) = true.
Proof. by_bits c. Qed.

Lemma id_head_i_lower c : id_head_i c = true -> is_dash (lowerc c) = false.
Proof. by_bits c. Qed.

Lemma id_char_cases c :
  id_char c = true ->
  is_dash c = true \/ c = "_"%char \/ (id_head_i c = true /\ is_dash c = false).
Proof. by_bits c. Qed.

Lemma id_char_id_char_i c : id_char c = true -> id_char_i c = true.
Proof. by_bits c. Qed.

Lemma is_dash_spec c : is_dash c = true <-> c = "-"%char.
Proof. unfold is_dash, is_char. by rewrite bool_decide_eq_true. Qed.

Lemma id_chars_no_space s : id_chars s -> no_space s.
Proof. intros H. eapply Forall_impl; [exact H|]. intros c [_ ?]%id_char_lower. done. Qed.

Lemma id_chars_fold s : id_chars s -> fold_str s = s.
Proof.
  intros H. unfold fold_str. rewrite trim_no_space by by apply id_chars_no_space.
  induction H as [|c s [Hc _]%id_char_lower _ IH]; [done|]. simpl. by rewrite Hc, IH.
Qed.

Lemma replace_invalid_from_chars run s : id_chars (replace_invalid_from run s).
Proof.
  revert run. induction s as [|c s IH]; intros run; simpl; [constructor|].
  destruct (id_char c) eqn:E; [constructor; [done|apply IH]|]. destruct run; [apply IH|].
  constructor; [done|apply IH].
Qed.

Lemma replace_invalid_from_id run s : id_chars s -> replace_invalid_from run s = s.
Proof.
  intros H. revert run. induction H as [|c s Hc _ IH]; intros run; simpl; [done|].
  by rewrite Hc, IH.
Qed.

Lemma clean_id_eq s :
  clean_id s = take 64 (strip_TRAILING_DASH (strip_LEADING_DASH (replace_INVALID_CHARS s))).
Proof. unfold clean_id, slice. by rewrite drop_0. Qed.

Lemma strip_dashes_head l :
  strip_TRAILING_DASH (strip_LEADING_DASH l) = [] \/
  exists c r, strip_TRAILING_DASH (strip_LEADING_DASH l) = c :: r /\ is_dash c = false.
Proof.
  unfold strip_TRAILING_DASH, strip_LEADING_DASH.
  rewrite <- drop_while_drop_while_end.
  destruct (drop_while is_dash _) as [|c r] eqn:E; [by left|].
  right. exists c, r. split; [done|]. by eapply drop_while_head.
Qed.

Lemma clean_id_canonical s : clean_id s = [] \/ canonical_id (clean_id s).
Proof.
  rewrite clean_id_eq. pose proof (strip_dashes_head (replace_INVALID_CHARS s)) as Hh.
  assert (id_chars (strip_TRAILING_DASH (strip_LEADING_DASH (replace_INVALID_CHARS s)))) as Hc.
  { pose proof (replace_invalid_from_chars false s) as H.
    destruct (drop_while_suffix is_dash (replace_INVALID_CHARS s)) as [k1 H1].
    destruct (drop_while_end_prefix is_dash (strip_LEADING_DASH (replace_INVALID_CHARS s)))
      as [k2 H2].
    unfold id_chars, strip_LEADING_DASH, strip_TRAILING_DASH, replace_INVALID_CHARS in *.
    rewrite H1, Forall_app in H. destruct H as [_ H]. rewrite H2, Forall_app in H. tauto. }
  destruct Hh as [->|(c & r & Hcr & Hd)]; [by left|]. right. split.
  - by apply Forall_take.
  - rewrite length_take. lia.
  - rewrite Hcr. simpl. eauto.
Qed.

Lemma VALID_ID_RE_canonical s : VALID_ID_RE s = true -> canonical_id (lower s).
Proof.
  destruct s as [|c r]; [done|]. cbn [VALID_ID_RE]. intros H. bool_to_prop.
  split; [|rewrite lower_length|]; simpl.
  - constructor.
    + apply id_char_i_lower. unfold id_head_i, id_char_i in *. by rewrite H.
    + apply Forall_map. apply Forall_forall. intros x Hx. apply id_char_i_lower.
      match goal with F : forallb _ _ = true |- _ => rewrite forallb_forall in F; apply F end.
      by apply list_elem_of_In.
  - match goal with L : (_ <=? _)%nat = true |- _ => apply Nat.leb_le in L end. lia.
  - eexists _, _. split; [done|]. by apply id_head_i_lower.
Qed.

Lemma DEFAULT_AGENT_ID_canonical : canonical_id DEFAULT_AGENT_ID.
Proof. split; [repeat constructor|vm_compute; lia|by eexists _, _]. Qed.

Lemma normalizeAgentId_cases value :
  exists u, normalizeAgentId value = u /\ canonical_id u.
Proof.
  eexists. split; [done|]. unfold normalizeAgentId.
  destruct (truthy (trim (or_empty value))); simpl negb; cbv iota;
    [|apply DEFAULT_AGENT_ID_canonical].
  autorewrite with js. destruct (VALID_ID_RE _) eqn:E.
  - by apply VALID_ID_RE_canonical.
  - destruct (clean_id_canonical (fold_str (or_empty value))) as [->|H].
    + apply DEFAULT_AGENT_ID_canonical.
    + rewrite str_or_cons; [done|]. destruct (ci_head _ H) as (?&?&->&_). done.
Qed.

Lemma canonical_non_empty s : canonical_id s -> s <> [].
Proof. intros [_ _ (?&?&->&_)]. done. Qed.

Lemma canonical_trim s : canonical_id s -> trim s = s.
Proof. intros H. by apply trim_no_space, id_chars_no_space, ci_chars. Qed.

(** On a canonical id the pipeline either accepts the id as valid, or strips
    its trailing dashes. *)
Lemma canonical_valid_or_underscore s :
  canonical_id s -> VALID_ID_RE s = true \/ exists r, s = "_"%char :: r.
Proof.
  intros [Hc Hl (c & r & -> & Hd)]. apply Forall_cons in Hc as [Hc Hr].
  destruct (id_char_cases c Hc) as [?|[->|[Hh _]]]; [congruence|by right; exists r|left].
  simpl in *. rewrite Hh. simpl. apply andb_true_iff. split.
  - apply forallb_forall. intros x Hx%list_elem_of_In.
    apply id_char_id_char_i. by eapply Forall_forall in Hr.
  - apply Nat.leb_le. lia.
Qed.

Lemma clean_id_canonical_eq s : canonical_id s -> clean_id s = strip_TRAILING_DASH s.
Proof.
  intros [Hc Hl (c & r & -> & Hd)]. rewrite clean_id_eq. unfold replace_INVALID_CHARS.
  rewrite replace_invalid_from_id by done. unfold strip_LEADING_DASH.
  rewrite drop_while_hd by done. apply take_ge.
  destruct (drop_while_end_prefix is_dash (c :: r)) as [k Hk].
  apply (f_equal length) in Hk. rewrite length_app in Hk.
  unfold strip_TRAILING_DASH. lia.
Qed.

Lemma strip_TRAILING_DASH_id s :
  strip_TRAILING_DASH s = s <-> forall r, s <> r ++ ["-"%char].
Proof.
  unfold strip_TRAILING_DASH. split.
  - intros H r ->. destruct (drop_while_end_last is_dash (r ++ ["-"%char])) as [E|(q & c & E & Hc)].
    + rewrite E in H. by destruct r.
    + rewrite E in H. apply app_inj_tail in H as [_ ->]. done.
  - destruct s as [|c r _] using rev_ind; [done|].
    intros H. apply drop_while_end_snoc_false. destruct (is_dash c) eqn:E; [|done].
    apply is_dash_spec in E as ->. by destruct (H r).
Qed.

Lemma normalizeAgentId_is_canonical value : canonical_id (normalizeAgentId value).
Proof. by destruct (normalizeAgentId_cases value) as (u & -> & H). Qed.

Lemma clean_id_ends s r :
  s = "_"%char :: r -> strip_TRAILING_DASH s = s <-> ~ unstable_id s.
Proof.
  intros ->. rewrite strip_TRAILING_DASH_id. split.
  - intros H [q [= ->]]. by apply (H ("_"%char :: q)).
  - intros H [|c q]; [done|]. intros [= <- ->]. apply H. by exists q.
Qed.

Lemma VALID_ID_RE_not_unstable s : VALID_ID_RE s = true -> ~ unstable_id s.
Proof. intros H [r ->]. by vm_compute in H. Qed.

Lemma normalizeAgentId_on_canonical s :
  canonical_id s ->
  normalizeAgentId (Some s) = if VALID_ID_RE s then s else strip_TRAILING_DASH s.
Proof.
  intros H. unfold normalizeAgentId. simpl or_empty. rewrite canonical_trim by done.
  pose proof (canonical_non_empty _ H) as Hne.
  replace (truthy s) with true by (by destruct s). simpl negb. cbv iota.
  autorewrite with js. rewrite (id_chars_fold s) by apply H.
  destruct (VALID_ID_RE s) eqn:E; [done|].
  rewrite clean_id_canonical_eq by done. apply str_or_cons.
  destruct (canonical_valid_or_underscore _ H) as [?|[r ->]]; [congruence|].
  unfold strip_TRAILING_DASH, drop_while_end. simpl rev.
  intros Hnil%(f_equal (@rev ascii)). rewrite rev_involutive in Hnil.
  assert (forall l, drop_while is_dash (l ++ ["_"%char]) <> []) as Hd.
  { induction l as [|c l IH]; simpl; [done|]. by destruct (is_dash c). }
  by apply (Hd (rev r)).
Qed.

(** [normalizeAgentId] returns a canonical id, and normalising that id again
    changes it exactly when it starts with ["_"] and ends with ["-"] (an id cut
    to 64 characters just after a dash). *)
Theorem normalizeAgentId_canonical_idempotent value :
  canonical_id (normalizeAgentId value) /\
  (normalizeAgentId (Some (normalizeAgentId value)) = normalizeAgentId value <->
   ~ unstable_id (normalizeAgentId value)).
Proof.
  pose proof (normalizeAgentId_is_canonical value) as H. split; [done|].
  rewrite normalizeAgentId_on_canonical by done.
  destruct (canonical_valid_or_underscore _ H) as [E|[r E]].
  - rewrite E. pose proof (VALID_ID_RE_not_unstable _ E). tauto.
  - destruct (VALID_ID_RE (normalizeAgentId value)) eqn:E'.
    + pose proof (VALID_ID_RE_not_unstable _ E'). tauto.
    + by eapply clean_id_ends.
Qed.

(** Such ids exist: a 65-character agent id whose 64th character is a dash. *)
Definition unstable_agent_id : jstr := lit "_" ++ repeat "a"%char 62 ++ lit "-b".

(** [normalizeAgentId] is not idempotent. *)
Theorem normalizeAgentId_not_idempotent :
  normalizeAgentId (Some (normalizeAgentId (Some unstable_agent_id))) <>
  normalizeAgentId (Some unstable_agent_id).
Proof. by vm_compute. Qed.

(** ** The account id caches *)

(** What a bounded cache may hold: at most [max] entries with distinct keys,
    each the value of the uncached function. *)
Record cache_ok {T} (max : nat) (f : jstr -> T) (cache : list (jstr * T)) : Prop := {
  co_keys : jm_wf cache;
  co_size : length cache <= max;
  co_values : jm_all (fun k v => v = f k) cache;
}.

Lemma cache_ok_empty {T} max (f : jstr -> T) : cache_ok max f [].
Proof. split; [constructor|simpl; lia|apply jm_all_nil]. Qed.

Lemma cache_ok_get {T} max (f : jstr -> T) cache k v :
  cache_ok max f cache -> jm_get k cache = Some v -> v = f k.
Proof. intros H. apply (jm_all_get _ _ _ _ (co_values _ _ _ H)). Qed.

Lemma setNormalizeCache_ok {T} (f : jstr -> T) cache key :
  cache_ok ACCOUNT_ID_CACHE_MAX f cache ->
  cache_ok ACCOUNT_ID_CACHE_MAX f (setNormalizeCache cache key (f key)).
Proof.
  intros [Hk Hs Hv]. unfold setNormalizeCache.
  pose proof (jm_wf_set key (f key) cache Hk) as Hk'.
  pose proof (jm_length_set_le key (f key) cache) as Hl.
  assert (jm_all (fun k v => v = f k) (jm_set key (f key) cache)) as Hv' by auto with js.
  case_inner.
  - split; [done|by apply Nat.leb_le|done].
  - match goal with H : (_ <=? _)%nat = false |- _ => apply Nat.leb_gt in H end.
    destruct (jm_oldest (jm_set key (f key) cache)) as [k|] eqn:E.
    + pose proof (jm_length_delete_oldest _ _ E).
      split; [by apply jm_wf_delete|lia|by apply jm_all_delete].
    + unfold jm_oldest in E. apply fmap_None in E.
      destruct (jm_set key (f key) cache); simpl in *; [lia|done].
Qed.

Lemma normalizeAccountId_eq value :
  normalizeAccountId value =
  if truthy (trim (or_empty value)) then computeAccountId (trim (or_empty value))
  else DEFAULT_ACCOUNT_ID.
Proof.
  unfold normalizeAccountId, normalizeAccountId_cached. simpl. by destruct (truthy _).
Qed.

Lemma canonicalizeAccountId_cases value :
  canonicalizeAccountId value = [] \/ canonical_id (canonicalizeAccountId value).
Proof.
  unfold canonicalizeAccountId. autorewrite with js. destruct (VALID_ID_RE value) eqn:E.
  - right. assert (trim value = value) as Ht.
    { pose proof (VALID_ID_RE_canonical _ E) as H. apply trim_no_space.
      apply no_space_lower. by apply id_chars_no_space, ci_chars. }
    unfold fold_str. rewrite Ht. by apply VALID_ID_RE_canonical.
  - apply clean_id_canonical.
Qed.

Lemma normalizeCanonicalAccountId_Some value s :
  normalizeCanonicalAccountId value = Some s ->
  canonical_id s /\ isBlockedObjectKey s = false.
Proof.
  unfold normalizeCanonicalAccountId. intros H.
  destruct (negb (truthy (canonicalizeAccountId value)) ||
    isBlockedObjectKey (canonicalizeAccountId value)) eqn:E; simplify_eq.
  bool_to_prop. split; [|done].
  destruct (canonicalizeAccountId_cases value) as [E'|]; [|done]. by rewrite E' in *.
Qed.

Lemma computeAccountId_ok trimmed :
  canonical_id (computeAccountId trimmed) /\
  isBlockedObjectKey (computeAccountId trimmed) = false.
Proof.
  unfold computeAccountId.
  destruct (normalizeCanonicalAccountId trimmed) as [s|] eqn:E; simpl.
  - by apply normalizeCanonicalAccountId_Some in E.
  - split; [|by vm_compute]. split; [repeat constructor|vm_compute; lia|by eexists _, _].
Qed.

Lemma normalizeAccountId_ok value :
  canonical_id (normalizeAccountId value) /\
  isBlockedObjectKey (normalizeAccountId value) = false.
Proof.
  rewrite normalizeAccountId_eq. destruct (truthy (trim (or_empty value))).
  - apply computeAccountId_ok.
  - split; [|by vm_compute]. split; [repeat constructor|vm_compute; lia|by eexists _, _].
Qed.

(** [normalizeAccountId] returns a canonical id that is not one of the
    object keys [isBlockedObjectKey] rejects, and the optional variant returns
    such an id or nothing. *)
Theorem normalizeAccountId_safe value :
  (canonical_id (normalizeAccountId value) /\
   isBlockedObjectKey (normalizeAccountId value) = false) /\
  (forall s, normalizeOptionalAccountId value = Some s ->
   canonical_id s /\ isBlockedObjectKey s = false /\ normalizeAccountId value = s).
Proof.
  split; [apply normalizeAccountId_ok|]. rewrite normalizeAccountId_eq.
  - unfold normalizeOptionalAccountId, normalizeOptionalAccountId_cached. simpl. intros s.
    destruct (truthy (trim (or_empty value))); simpl; [|done]. intros H.
    pose proof (normalizeCanonicalAccountId_Some _ _ H) as [??].
    split; [done|]. split; [done|]. unfold computeAccountId. by rewrite H.
Qed.

(** The bounded caches are invisible: from any reachable cache the cached
    functions return what the uncached ones return, and they keep the cache
    within its bound with only correct entries. *)
Theorem normalizeAccountId_cache_transparent value
    (cache : list (jstr * jstr)) (ocache : list (jstr * option jstr)) :
  cache_ok ACCOUNT_ID_CACHE_MAX computeAccountId cache ->
  cache_ok ACCOUNT_ID_CACHE_MAX normalizeCanonicalAccountId ocache ->
  ((normalizeAccountId_cached cache value).2 = normalizeAccountId value /\
   cache_ok ACCOUNT_ID_CACHE_MAX computeAccountId (normalizeAccountId_cached cache value).1) /\
  ((normalizeOptionalAccountId_cached ocache value).2 = normalizeOptionalAccountId value /\
   cache_ok ACCOUNT_ID_CACHE_MAX normalizeCanonicalAccountId (normalizeOptionalAccountId_cached ocache value).1).
Proof.
  intros Hc Ho. split.
  - rewrite normalizeAccountId_eq. unfold normalizeAccountId_cached. simpl.
    destruct (truthy (trim (or_empty value))); simpl; [|done].
    destruct (jm_get (trim (or_empty value)) cache) as [v|] eqn:E; simpl.
    + apply (cache_ok_get _ _ _ _ _ Hc) in E as ->.
      destruct (computeAccountId_ok (trim (or_empty value))) as [Hcan _].
      destruct (ci_head _ Hcan) as (c & r & Hcr & _). rewrite Hcr. done.
    + split; [done|]. by apply setNormalizeCache_ok.
  - unfold normalizeOptionalAccountId, normalizeOptionalAccountId_cached. simpl.
    destruct (truthy (trim (or_empty value))); simpl; [|done].
    destruct (jm_get (trim (or_empty value)) ocache) as [v|] eqn:E; simpl.
    + by apply (cache_ok_get _ _ _ _ _ Ho) in E as ->.
    + split; [done|]. by apply setNormalizeCache_ok.
Qed.

Lemma normalizeAccountId_cache_transparent_witness :
  let c := (normalizeAccountId_cached [] (Some (lit " Work "))).1 in
  (normalizeAccountId_cached c (Some (lit "Work"))).2 = lit "work" /\ length c = 1.
Proof.
  split; [|reflexivity].
  destruct (normalizeAccountId_cache_transparent (Some (lit "Work"))
    (normalizeAccountId_cached [] (Some (lit " Work "))).1 []) as [[-> _] _].
  - apply (setNormalizeCache_ok computeAccountId [] (lit "Work")), cache_ok_empty.
  - apply cache_ok_empty.
  - reflexivity.
Defined.
