(* ===== verification/SessionKeyUtils.v ===== *)
(** * Session key utilities

    [src/sessions/session-key-utils.ts]: the case-preserving normal form of a
    session key with its bounded cache, and the parsers of agent-scoped, cron,
    subagent, thread and delivery keys.

    The regular expressions of the source are written out as matchers; each
    matcher quotes its expression.  A case-insensitive literal is compared with
    the lower-cased input. *)
From S2P Require Import Prelude JsString JsMap Normalization.

Definition colon : ascii := ":"%char.
Definition not_colon (c : ascii) : bool := negb (is_char c colon).

Fixpoint take_while {A} (p : A -> bool) (l : list A) : list A :=
  match l with
  | [] => []
  | c :: r => if p c then c :: take_while p r else []
  end.

(** A literal of a case-insensitive expression at the start of [s]. *)
Definition starts_with_i (p s : jstr) : bool := starts_with p (lower s).

(** ** Case-preserving peers *)

Inductive PeerSpan := Segment | Tail.

#[global] Instance PeerSpan_eq_dec : EqDecision PeerSpan.
Proof. solve_decision. Defined.

Record CasePreservingPeerDescriptor := {
  cp_channel : jstr;
  cp_peerKinds : list jstr;
  cp_span : PeerSpan;
  cp_unscoped : bool;
}.

Definition CASE_PRESERVING_PEERS : list CasePreservingPeerDescriptor := [
  {| cp_channel := lit "signal"; cp_peerKinds := [lit "group"];
     cp_span := Segment; cp_unscoped := true |};
  {| cp_channel := lit "matrix"; cp_peerKinds := [lit "channel"; lit "group"];
     cp_span := Tail; cp_unscoped := true |} ].

Definition findCasePreservingPeerDescriptor (channel peerKind : option jstr)
    : option CasePreservingPeerDescriptor :=
  let c := normalizeLowercaseStringOrEmpty (of_opt channel) in
  let k := normalizeLowercaseStringOrEmpty (of_opt peerKind) in
  find_first (fun d => bool_decide (cp_channel d = c) && includes k (cp_peerKinds d))
    CASE_PRESERVING_PEERS.

Definition isCasePreservingPeer (channel peerKind : option jstr) : bool :=
  let c := normalizeLowercaseStringOrEmpty (of_opt channel) in
  let k := normalizeLowercaseStringOrEmpty (of_opt peerKind) in
  bool_decide (is_Some (findCasePreservingPeerDescriptor (Some c) (Some k))).

(** The wrapper loop of [requiresFoldedSessionKeyAliasProof]: skip
    ["agent"], [owner] while at least three parts remain. *)
Fixpoint skip_agent_wrappers (parts : list jstr) : bool * list jstr :=
  match parts with
  | p :: _ :: ((_ :: _) as rest) =>
      if bool_decide (normalizeOptionalLowercaseString (VString p) = Some (lit "agent"))
      then (true, (skip_agent_wrappers rest).2)
      else (false, parts)
  | _ => (false, parts)
  end.

Definition requiresFoldedSessionKeyAliasProof (sessionKey : option jstr) : bool :=
  match normalizeOptionalString (of_opt sessionKey) with
  | None => false
  | Some raw =>
      let '(hasAgentWrapper, body) := skip_agent_wrappers (split_on colon raw) in
      let body :=
        if hasAgentWrapper
        then drop_while (fun p => negb (hasNonEmptyString (VString p))) body
        else body in
      match findCasePreservingPeerDescriptor (head body) (body !! 1%nat) with
      | Some d => bool_decide (cp_span d = Tail)
      | None => false
      end
  end.

Definition normalizeSessionPeerId (channel peerKind peerId : option jstr) : jstr :=
  let peerId := trim (or_empty peerId) in
  if negb (truthy peerId) then []
  else if isCasePreservingPeer channel peerKind then peerId
  else normalizeLowercaseStringOrEmpty (VString peerId).

(** ** The normal form of a session key *)

Record PreservedSpan := { ps_start : nat; ps_end : nat; ps_trim : bool }.

Definition mayContainCasePreservingPeer (raw : jstr) : bool :=
  let folded := lower raw in
  existsb (fun d => str_includes (cp_channel d ++ lit ":") folded) CASE_PRESERVING_PEERS.

(** [(^|:)<channel>:<kind>:([^:]+)] with flags [gi] at index [i], where [rest]
    is the input from [i] on: the bounds of group 2. *)
Definition segment_match (pat : jstr) (i : nat) (rest : jstr) : option (nat * nat) :=
  let body (skipped : nat) (r : jstr) :=
    if starts_with_i pat r then
      let segment := take_while not_colon (drop (length pat) r) in
      if truthy segment then
        let segStart := i + skipped + length pat in
        Some (segStart, segStart + length segment)
      else None
    else None in
  match (if decide (i = 0) then body 0 rest else None) with
  | Some m => Some m
  | None => if starts_with [colon] rest then body 1 (drop 1 rest) else None
  end.

(** [matchAll]: the matches from left to right, the search resuming where the
    last match ended ([skip] more characters from here). *)
Fixpoint segment_spans (pat : jstr) (i skip : nat) (rest : jstr) : list PreservedSpan :=
  match rest with
  | [] => []
  | _ :: r =>
      match skip with
      | S k => segment_spans pat (S i) k r
      | 0 =>
          match segment_match pat i rest with
          | Some (a, b) =>
              {| ps_start := a; ps_end := b; ps_trim := true |}
                :: segment_spans pat (S i) (b - i - 1) r
          | None => segment_spans pat (S i) 0 r
          end
      end
  end.

(** [agent:[^:]*:] with flag [i]: the length of the match. *)
Definition agent_group (rest : jstr) : option nat :=
  if starts_with_i (lit "agent:") rest then
    let owner := take_while not_colon (drop 6 rest) in
    if starts_with [colon] (drop (6 + length owner) rest)
    then Some (6 + length owner + 1) else None
  else None.

(** [(?:agent:[^:]*:)*:*<channel>:<kind>:] with flag [i], groups taken greedily
    and given back on failure; [:*] takes every colon because the channel does
    not start with one. *)
Fixpoint scoped_tail (fuel : nat) (pat rest : jstr) : option nat :=
  let here :=
    let k := length (take_while (fun c => is_char c colon) rest) in
    if starts_with_i pat (drop k rest) then Some (k + length pat) else None in
  match fuel with
  | 0 => here
  | S fuel =>
      match agent_group rest with
      | Some n =>
          match scoped_tail fuel pat (drop n rest) with
          | Some m => Some (n + m)
          | None => here
          end
      | None => here
      end
  end.

(** [^(?:agent:[^:]*:)+:*<channel>:<kind>:] with flag [i]: the match length. *)
Definition scoped_match (pat raw : jstr) : option nat :=
  match agent_group raw with
  | Some n => Nat.add n <$> scoped_tail (length raw) pat (drop n raw)
  | None => None
  end.

Definition threadMarker : jstr := lit ":thread:".

Definition collectTailSpan (raw : jstr) (tailStart : nat) : list PreservedSpan :=
  if (length raw <=? tailStart)%nat then []
  else
    let tail := drop tailStart raw in
    match last_index_of threadMarker (normalizeLowercaseStringOrEmpty (VString tail)) with
    | None => [{| ps_start := tailStart; ps_end := length raw; ps_trim := false |}]
    | Some markerIndex =>
        let threadIdStart := tailStart + markerIndex + length threadMarker in
        {| ps_start := tailStart; ps_end := tailStart + markerIndex; ps_trim := false |}
          :: (if (threadIdStart <? length raw)%nat
              then [{| ps_start := threadIdStart; ps_end := length raw; ps_trim := false |}]
              else [])
    end.

Definition collect_for_kind (raw : jstr) (d : CasePreservingPeerDescriptor) (kind : jstr)
    : list PreservedSpan :=
  let pat := cp_channel d ++ lit ":" ++ kind ++ lit ":" in
  match cp_span d with
  | Segment => segment_spans pat 0 0 raw
  | Tail =>
      match scoped_match pat raw with
      | Some n => collectTailSpan raw n
      | None =>
          if cp_unscoped d && starts_with_i pat raw
          then collectTailSpan raw (length pat) else []
      end
  end.

Definition collectCasePreservedSpans (raw : jstr) : list PreservedSpan :=
  d ← CASE_PRESERVING_PEERS; kind ← cp_peerKinds d; collect_for_kind raw d kind.

(** Stable [toSorted] by start. *)
Fixpoint insert_span (s : PreservedSpan) (l : list PreservedSpan) : list PreservedSpan :=
  match l with
  | [] => [s]
  | t :: r => if (ps_start s <=? ps_start t)%nat then s :: l else t :: insert_span s r
  end.

Definition sort_spans (l : list PreservedSpan) : list PreservedSpan := foldr insert_span [] l.

(** The emission loop: lower case outside the spans, verbatim inside. *)
Fixpoint emit_spans (raw : jstr) (cursor : nat) (spans : list PreservedSpan) : jstr :=
  match spans with
  | [] => normalizeLowercaseStringOrEmpty (VString (drop cursor raw))
  | s :: spans =>
      if (ps_start s <? cursor)%nat then emit_spans raw cursor spans
      else
        let preserved := slice (ps_start s) (ps_end s) raw in
        normalizeLowercaseStringOrEmpty (VString (slice cursor (ps_start s) raw))
          ++ (if ps_trim s then trim preserved else preserved)
          ++ emit_spans raw (ps_end s) spans
  end.

(** What is computed for a trimmed non-empty key on a cache miss. *)
Definition computeNormalizedSessionKey (raw : jstr) : jstr :=
  if negb (mayContainCasePreservingPeer raw) then lower raw
  else
    emit_spans raw 0
      (sort_spans
         (List.filter (fun s => ps_start s <? ps_end s)%nat (collectCasePreservedSpans raw))).

(** *** The cache *)

Definition NORMALIZED_SESSION_KEY_CACHE_MAX_ENTRIES : nat := 2048.
Definition NORMALIZED_SESSION_KEY_CACHE_MAX_LENGTH : nat := 4096.

Definition readNormalizedSessionKeyCache (cache : list (jstr * jstr)) (raw : jstr)
    : option jstr :=
  if (length raw <=? NORMALIZED_SESSION_KEY_CACHE_MAX_LENGTH)%nat
  then jm_get raw cache else None.

(** The eviction loop, once per entry at most. *)
Fixpoint evict_oldest {V} (fuel : nat) (max : nat) (cache : list (jstr * V))
    : list (jstr * V) :=
  match fuel with
  | 0 => cache
  | S fuel =>
      if (max <? length cache)%nat then
        match jm_oldest cache with
        | None => cache
        | Some oldest => evict_oldest fuel max (jm_delete oldest cache)
        end
      else cache
  end.

Definition writeNormalizedSessionKeyCache (cache : list (jstr * jstr)) (raw normalized : jstr)
    : list (jstr * jstr) :=
  if (NORMALIZED_SESSION_KEY_CACHE_MAX_LENGTH <? length raw)%nat then cache
  else
    let cache := jm_set raw normalized cache in
    evict_oldest (length cache) NORMALIZED_SESSION_KEY_CACHE_MAX_ENTRIES cache.

Definition normalizeSessionKey_cached (cache : list (jstr * jstr)) (sessionKey : option jstr)
    : list (jstr * jstr) * jstr :=
  match normalizeOptionalString (of_opt sessionKey) with
  | None => (cache, [])
  | Some raw =>
      match readNormalizedSessionKeyCache cache raw with
      | Some cached => (cache, cached)
      | None =>
          let normalized := computeNormalizedSessionKey raw in
          (writeNormalizedSessionKeyCache cache raw normalized, normalized)
      end
  end.

(** The function the cache computes; every parser below calls it. *)
Definition normalizeSessionKeyPreservingOpaquePeerIds (sessionKey : option jstr) : jstr :=
  (normalizeSessionKey_cached [] sessionKey).2.

(** ** Parsers *)

Record ParsedAgentSessionKey := { pk_agentId : jstr; pk_rest : jstr }.

Definition parseAgentSessionKey (sessionKey : option jstr) : option ParsedAgentSessionKey :=
  let raw := normalizeSessionKeyPreservingOpaquePeerIds sessionKey in
  if negb (truthy raw) then None
  else
    match split_on colon raw with
    | p0 :: p1 :: p2 :: ps =>
        if negb (truthy p1) || negb (truthy p2) then None
        else if negb (bool_decide (p0 = lit "agent")) then None
        else
          let agentId := normalizeOptionalString (VString p1) in
          let rest := join [colon] (p2 :: ps) in
          match agentId with
          | Some id => if truthy rest then Some {| pk_agentId := id; pk_rest := rest |} else None
          | None => None
          end
    | _ => None
    end.

(** [^cron:[^:]+:run:[^:]+]: what follows the match, when there is one. *)
Definition cron_run_match (rest : jstr) : option jstr :=
  if starts_with (lit "cron:") rest then
    let r := drop 5 rest in
    let job := take_while not_colon r in
    let r := drop (length job) r in
    if truthy job && starts_with (lit ":run:") r then
      let r := drop 5 r in
      let run := take_while not_colon r in
      if truthy run then Some (drop (length run) r) else None
    else None
  else None.

(** [/^cron:[^:]+:run:[^:]+(?::|$)/]: the greedy class leaves a colon or the
    end of the input. *)
Definition cron_run_re (rest : jstr) : bool :=
  match cron_run_match rest with
  | Some r => negb (truthy r) || starts_with [colon] r
  | None => false
  end.

(** [/^cron:[^:]+:run:[^:]+$/]. *)
Definition cron_run_end_re (rest : jstr) : bool :=
  match cron_run_match rest with Some r => negb (truthy r) | None => false end.

Definition isCronRunSessionKey (sessionKey : option jstr) : bool :=
  match parseAgentSessionKey sessionKey with
  | None => false
  | Some parsed => cron_run_re (pk_rest parsed)
  end.

Record ParsedCronRunScopeSuffix := {
  cs_baseSessionKey : option jstr;
  cs_runId : option jstr;
}.

Definition parseCronRunScopeSuffix (sessionKey : option jstr) : ParsedCronRunScopeSuffix :=
  match normalizeOptionalString (of_opt sessionKey) with
  | None => {| cs_baseSessionKey := None; cs_runId := None |}
  | Some raw =>
      let whole := {| cs_baseSessionKey := Some raw; cs_runId := None |} in
      match parseAgentSessionKey (Some raw) with
      | None => whole
      | Some parsed =>
          if negb (cron_run_end_re (pk_rest parsed)) then whole
          else
            let runMarker := lit ":run:" in
            match last_index_of runMarker (lower raw) with
            | Some markerIndex =>
                {| cs_baseSessionKey := Some (take markerIndex raw);
                   cs_runId := Some (drop (markerIndex + length runMarker) raw) |}
            | None =>
                (* [slice(0, -1)] and [slice(-1 + 5)] *)
                {| cs_baseSessionKey := Some (take (length raw - 1) raw);
                   cs_runId := Some (drop 4 raw) |}
            end
      end
  end.

(** [normalizeOptionalLowercaseString(s)?.startsWith(p) === true]. *)
Definition folded_starts_with (p : jstr) (s : option jstr) : bool :=
  match normalizeOptionalLowercaseString (of_opt s) with
  | Some l => starts_with p l
  | None => false
  end.

Definition isCronSessionKey (sessionKey : option jstr) : bool :=
  match parseAgentSessionKey sessionKey with
  | None => false
  | Some parsed => folded_starts_with (lit "cron:") (Some (pk_rest parsed))
  end.

Definition isSubagentSessionKey (sessionKey : option jstr) : bool :=
  match normalizeOptionalString (of_opt sessionKey) with
  | None => false
  | Some raw =>
      folded_starts_with (lit "subagent:") (Some raw)
      || folded_starts_with (lit "subagent:") (pk_rest <$> parseAgentSessionKey (Some raw))
  end.

(** The number of matches of [/(^|:)subagent:/g] from index [i]. *)
Fixpoint count_subagent (i skip : nat) (rest : jstr) : nat :=
  match rest with
  | [] => 0
  | _ :: r =>
      match skip with
      | S k => count_subagent (S i) k r
      | 0 =>
          if bool_decide (i = 0) && starts_with (lit "subagent:") rest
          then S (count_subagent (S i) (length (lit "subagent:") - 1) r)
          else if starts_with (lit ":subagent:") rest
          then S (count_subagent (S i) (length (lit ":subagent:") - 1) r)
          else count_subagent (S i) 0 r
      end
  end.

Definition getSubagentDepth (sessionKey : option jstr) : nat :=
  match normalizeOptionalLowercaseString (of_opt sessionKey) with
  | None => 0
  | Some raw =>
      let scoped := default raw (pk_rest <$> parseAgentSessionKey (Some raw)) in
      count_subagent 0 0 (lower scoped)
  end.

Definition isAcpSessionKey (sessionKey : option jstr) : bool :=
  match normalizeOptionalString (of_opt sessionKey) with
  | None => false
  | Some raw =>
      let normalized := normalizeLowercaseStringOrEmpty (VString raw) in
      if starts_with (lit "acp:") normalized then true
      else folded_starts_with (lit "acp:") (pk_rest <$> parseAgentSessionKey (Some raw))
  end.

Record ParsedThreadSessionSuffix := {
  ts_baseSessionKey : option jstr;
  ts_threadId : option jstr;
}.

Definition parseThreadSessionSuffix (sessionKey : option jstr) : ParsedThreadSessionSuffix :=
  match normalizeOptionalString (of_opt sessionKey) with
  | None => {| ts_baseSessionKey := None; ts_threadId := None |}
  | Some raw =>
      let lowerRaw := normalizeLowercaseStringOrEmpty (VString raw) in
      let markerIndex := last_index_of threadMarker lowerRaw in
      let baseSessionKey := match markerIndex with None => raw | Some i => take i raw end in
      let threadIdRaw :=
        match markerIndex with
        | None => None
        | Some i => Some (drop (i + length threadMarker) raw)
        end in
      {| ts_baseSessionKey := Some baseSessionKey;
         ts_threadId := normalizeOptionalString (of_opt threadIdRaw) |}
  end.

Inductive DeliveryPeerKind := DPChannel | DPDirect | DPDm | DPGroup.

#[global] Instance DeliveryPeerKind_eq_dec : EqDecision DeliveryPeerKind.
Proof. solve_decision. Defined.

Definition SESSION_DELIVERY_PEER_KINDS : list (jstr * DeliveryPeerKind) :=
  [ (lit "channel", DPChannel); (lit "direct", DPDirect); (lit "dm", DPDm);
    (lit "group", DPGroup) ].

Record ParsedSessionDeliveryRoute := {
  dr_accountId : option jstr;
  dr_channel : jstr;
  dr_peerId : jstr;
  dr_peerKind : DeliveryPeerKind;
  dr_threadId : option jstr;
}.

(** The account-scoped direct form [channel:account:direct:peer...]. *)
Definition parse_account_direct (channel : jstr) (parts : list jstr) (kind : DeliveryPeerKind)
    (threadId : option jstr) : option ParsedSessionDeliveryRoute :=
  match normalizeOptionalString (of_opt (parts !! 1%nat)),
        normalizeOptionalString (of_opt (parts !! 3%nat)),
        normalizeOptionalString (VString (join [colon] (drop 3 parts))) with
  | Some accountId, Some _, Some peerId =>
      Some {| dr_accountId := Some accountId; dr_channel := channel; dr_peerId := peerId;
              dr_peerKind := kind; dr_threadId := threadId |}
  | _, _, _ => None
  end.

(** The form [channel:kind:peer...]. *)
Definition parse_peer (channel : jstr) (parts : list jstr) (threadId : option jstr)
    : option ParsedSessionDeliveryRoute :=
  match parts !! 1%nat ≫= (fun k => jm_get k SESSION_DELIVERY_PEER_KINDS),
        normalizeOptionalString (of_opt (parts !! 2%nat)),
        normalizeOptionalString (VString (join [colon] (drop 2 parts))) with
  | Some peerKind, Some _, Some peerId =>
      Some {| dr_accountId := None; dr_channel := channel; dr_peerId := peerId;
              dr_peerKind := peerKind; dr_threadId := threadId |}
  | _, _, _ => None
  end.

Definition parseSessionDeliveryRoute (sessionKey : option jstr)
    : option ParsedSessionDeliveryRoute :=
  let parsedThread := parseThreadSessionSuffix sessionKey in
  let base :=
    match ts_baseSessionKey parsedThread with Some b => Some b | None => sessionKey end in
  match parseAgentSessionKey base with
  | None => None
  | Some parsed =>
      let parts := split_on colon (pk_rest parsed) in
      if bool_decide (head parts = Some (lit "agent")) || (length parts <? 3)%nat then None
      else
        match normalizeOptionalLowercaseString (of_opt (head parts)) with
        | None => None
        | Some channel =>
            if negb (truthy channel) then None
            else if (4 <=? length parts)%nat && bool_decide (parts !! 2%nat = Some (lit "direct"))
            then parse_account_direct channel parts DPDirect (ts_threadId parsedThread)
            else if (4 <=? length parts)%nat && bool_decide (parts !! 2%nat = Some (lit "dm"))
            then parse_account_direct channel parts DPDm (ts_threadId parsedThread)
            else parse_peer channel parts (ts_threadId parsedThread)
        end
  end.

Record RawSessionConversationRef := {
  rc_channel : jstr;
  rc_kind : ChatType;
  rc_rawId : jstr;
  rc_prefix : jstr;
}.

Definition group_or_channel (kind : option jstr) : option ChatType :=
  match kind with
  | None => None
  | Some k =>
      if bool_decide (k = lit "group") then Some Group
      else if bool_decide (k = lit "channel") then Some Channel else None
  end.

Definition parseRawSessionConversationRef (sessionKey : option jstr)
    : option RawSessionConversationRef :=
  match normalizeOptionalString (of_opt sessionKey) with
  | None => None
  | Some raw =>
      let rawParts := split_on colon raw in
      let folded (o : option jstr) := normalizeOptionalLowercaseString (of_opt o) in
      let hasAgentWrapper := bool_decide (folded (head rawParts) = Some (lit "agent")) in
      if hasAgentWrapper
         && (negb (hasNonEmptyString (of_opt (rawParts !! 1%nat)))
             || (length rawParts <? 3)%nat)
      then None
      else
        let bodyStartIndex := if hasAgentWrapper then 2 else 0 in
        let parts := drop bodyStartIndex rawParts in
        if bool_decide (folded (head parts) = Some (lit "agent")) then None
        else if (length parts <? 3)%nat || negb (hasNonEmptyString (of_opt (parts !! 2%nat)))
        then None
        else
          match folded (head parts), group_or_channel (folded (parts !! 1%nat)),
                normalizeOptionalString (VString (join [colon] (drop 2 parts))),
                normalizeOptionalString
                  (VString (join [colon] (take (bodyStartIndex + 2) rawParts))) with
          | Some channel, Some kind, Some rawId, Some prefix =>
              Some {| rc_channel := channel; rc_kind := kind; rc_rawId := rawId;
                      rc_prefix := prefix |}
          | _, _, _, _ => None
          end
  end.

(** ** The matchers read their input up to case *)

Lemma not_colon_lowerc c : not_colon (lowerc c) = not_colon c.
Proof.
  unfold not_colon, is_char. f_equal. apply bool_decide_ext. apply lowerc_colon.
Qed.

Lemma take_while_map {A} (p : A -> bool) (f : A -> A) l :
  (forall c, p (f c) = p c) -> take_while p (map f l) = map f (take_while p l).
Proof.
  intros H. induction l as [|c l IH]; simpl; [done|]. rewrite H.
  destruct (p c); simpl; by rewrite ?IH.
Qed.

Lemma lower_drop n s : lower (drop n s) = drop n (lower s).
Proof. unfold lower. by rewrite skipn_map. Qed.

Lemma lower_take n s : lower (take n s) = take n (lower s).
Proof. unfold lower. by rewrite firstn_map. Qed.

Lemma take_while_lower s : take_while not_colon (lower s) = lower (take_while not_colon s).
Proof. apply take_while_map, not_colon_lowerc. Qed.

Lemma take_colons_lower s :
  length (take_while (fun c => is_char c colon) (lower s))
  = length (take_while (fun c => is_char c colon) s).
Proof.
  unfold lower. rewrite take_while_map; [apply lower_length|].
  intros c. unfold is_char. apply bool_decide_ext. apply lowerc_colon.
Qed.

Lemma truthy_lower s : truthy (lower s) = truthy s.
Proof. by destruct s. Qed.

Lemma starts_with_i_lower p s : starts_with_i p (lower s) = starts_with_i p s.
Proof. unfold starts_with_i. by rewrite lower_idem. Qed.

Lemma starts_with_colon_lower s : starts_with [colon] (lower s) = starts_with [colon] s.
Proof.
  destruct s as [|c s]; [done|]. simpl. unfold is_char. f_equal.
  apply bool_decide_ext. pose proof (lowerc_colon c). unfold colon. naive_solver.
Qed.

Lemma segment_match_lower pat i s : segment_match pat i (lower s) = segment_match pat i s.
Proof.
  unfold segment_match. cbv beta zeta.
  rewrite starts_with_colon_lower, <- !lower_drop, !starts_with_i_lower, !take_while_lower,
    !truthy_lower, !lower_length. done.
Qed.

Lemma segment_spans_lower pat s i skip :
  segment_spans pat i skip (lower s) = segment_spans pat i skip s.
Proof.
  revert i skip. induction s as [|c s IH]; intros i skip; [done|].
  change (lower (c :: s)) with (lowerc c :: lower s).
  cbn [segment_spans]. change (lowerc c :: lower s) with (lower (c :: s)).
  rewrite segment_match_lower. destruct skip; [|by rewrite IH].
  destruct (segment_match pat i (c :: s)) as [[a b]|]; by rewrite IH.
Qed.

Lemma agent_group_lower s : agent_group (lower s) = agent_group s.
Proof.
  unfold agent_group. cbv zeta.
  by rewrite starts_with_i_lower, <- !lower_drop, take_while_lower, lower_length,
    starts_with_colon_lower.
Qed.

Lemma scoped_tail_lower fuel pat s : scoped_tail fuel pat (lower s) = scoped_tail fuel pat s.
Proof.
  revert s. induction fuel as [|fuel IH]; intros s; simpl;
    rewrite take_colons_lower, <- lower_drop, starts_with_i_lower; [done|].
  rewrite agent_group_lower. destruct (agent_group s); [|done].
  by rewrite <- lower_drop, IH.
Qed.

Lemma scoped_match_lower pat s : scoped_match pat (lower s) = scoped_match pat s.
Proof.
  unfold scoped_match. rewrite agent_group_lower, lower_length.
  destruct (agent_group s); [|done]. by rewrite <- lower_drop, scoped_tail_lower.
Qed.

Lemma collectTailSpan_lower s n : collectTailSpan (lower s) n = collectTailSpan s n.
Proof.
  unfold collectTailSpan. rewrite lower_length, <- lower_drop. autorewrite with js.
  unfold fold_str. by rewrite trim_lower, lower_idem.
Qed.

Lemma collectCasePreservedSpans_lower s :
  collectCasePreservedSpans (lower s) = collectCasePreservedSpans s.
Proof.
  unfold collectCasePreservedSpans. apply list_bind_ext; [|done]. intros d.
  apply list_bind_ext; [|done]. intros k. unfold collect_for_kind.
  rewrite segment_spans_lower, scoped_match_lower, starts_with_i_lower.
  destruct (cp_span d); [done|]. destruct (scoped_match _ s) as [n|].
  - by rewrite collectTailSpan_lower.
  - by rewrite collectTailSpan_lower.
Qed.

Lemma mayContain_lower s : mayContainCasePreservingPeer (lower s) = mayContainCasePreservingPeer s.
Proof. unfold mayContainCasePreservingPeer. by rewrite lower_idem. Qed.

(** ** The emission loop as a mask *)

(** Which of [k] characters from [cursor] on the loop keeps. *)
Fixpoint span_mask (k cursor : nat) (spans : list PreservedSpan) : list bool :=
  match spans with
  | [] => repeat false k
  | s :: spans =>
      if (ps_start s <? cursor)%nat then span_mask k cursor spans
      else
        let a := ps_start s - cursor in
        let b := ps_end s - ps_start s in
        repeat false (min a k) ++ repeat true (min b (k - a))
          ++ span_mask (k - a - b) (ps_end s) spans
  end.

Definition pick (keep : bool) (c : ascii) : ascii := if keep then c else lowerc c.

Definition masked (mask : list bool) (s : jstr) : jstr := zip_with pick mask s.

Lemma masked_false n s : n = length s -> masked (repeat false n) s = lower s.
Proof. intros ->. induction s as [|c s IH]; [done|]. simpl. by rewrite IH. Qed.

Lemma masked_true n s : n = length s -> masked (repeat true n) s = s.
Proof. intros ->. induction s as [|c s IH]; [done|]. simpl. by rewrite IH. Qed.

Lemma masked_app m1 m2 s1 s2 :
  length m1 = length s1 -> masked (m1 ++ m2) (s1 ++ s2) = masked m1 s1 ++ masked m2 s2.
Proof. apply zip_with_app. Qed.

Lemma masked_idem m s : masked m (masked m s) = masked m s.
Proof.
  revert s. induction m as [|b m IH]; intros [|c s]; simpl; try done.
  rewrite IH. f_equal. destruct b; simpl; [done|apply lowerc_idem].
Qed.

Lemma length_span_mask spans k cursor : length (span_mask k cursor spans) = k.
Proof.
  revert k cursor. induction spans as [|s spans IH]; intros k cursor; simpl.
  - apply repeat_length.
  - case_match; [apply IH|]. rewrite !length_app, !repeat_length, IH. lia.
Qed.

Lemma length_masked m s : length m = length s -> length (masked m s) = length s.
Proof. intros H. unfold masked. rewrite length_zip_with. lia. Qed.

Lemma lower_masked m s : length m = length s -> lower (masked m s) = lower s.
Proof.
  revert s. induction m as [|b m IH]; intros [|c s]; simpl; try done.
  intros [= H]. rewrite IH by done. f_equal. destruct b; simpl; [done|apply lowerc_idem].
Qed.

Lemma no_space_drop n s : no_space s -> no_space (drop n s).
Proof. apply Forall_drop. Qed.

Lemma no_space_take n s : no_space s -> no_space (take n s).
Proof. apply Forall_take. Qed.

Lemma fold_no_space s : no_space s -> fold_str s = lower s.
Proof. intros H. unfold fold_str. by rewrite trim_no_space. Qed.

#[export] Hint Resolve no_space_drop no_space_take : js.

(** On a key without white space, the loop is the mask. *)
Lemma emit_spans_masked raw spans cursor :
  no_space raw ->
  Forall (fun s => ps_start s <= ps_end s) spans ->
  emit_spans raw cursor spans
  = masked (span_mask (length (drop cursor raw)) cursor spans) (drop cursor raw).
Proof.
  intros Hns Hs. revert cursor. induction Hs as [|s spans Hle _ IH]; intros cursor; simpl.
  - rewrite normalizeLowercaseStringOrEmpty_string, fold_no_space by auto with js.
    by rewrite masked_false.
  - destruct (ps_start s <? cursor)%nat eqn:E; [apply IH|]. apply Nat.ltb_ge in E.
    rewrite normalizeLowercaseStringOrEmpty_string, IH.
    set (rest := drop cursor raw).
    assert (slice cursor (ps_start s) raw = take (ps_start s - cursor) rest) as -> by done.
    assert (slice (ps_start s) (ps_end s) raw =
      take (ps_end s - ps_start s) (drop (ps_start s - cursor) rest)) as ->.
    { unfold slice, rest. rewrite drop_drop. do 2 f_equal. lia. }
    assert (drop (ps_end s) raw
      = drop (ps_end s - ps_start s) (drop (ps_start s - cursor) rest)) as ->.
    { unfold rest. rewrite !drop_drop. f_equal. lia. }
    assert (no_space rest) by (unfold rest; auto with js).
    rewrite fold_no_space by auto with js.
    set (a := ps_start s - cursor). set (b := ps_end s - ps_start s).
    assert ((if ps_trim s then trim (take b (drop a rest)) else take b (drop a rest))
      = take b (drop a rest)) as ->.
    { destruct (ps_trim s); [|done]. apply trim_no_space. auto with js. }
    rewrite <- (take_drop a rest) at 8. rewrite <- (take_drop b (drop a rest)) at 4.
    rewrite masked_app by (rewrite repeat_length, length_take; lia).
    rewrite masked_app by (rewrite repeat_length, length_take, length_drop; lia).
    rewrite masked_false by (rewrite length_take; lia).
    rewrite masked_true by (rewrite length_take, length_drop; lia).
    rewrite !length_drop. done.
Qed.

(** ** Laws of the normal form *)

Lemma normalizeSessionKey_eq sessionKey :
  normalizeSessionKeyPreservingOpaquePeerIds sessionKey =
  match normalizeOptionalString (of_opt sessionKey) with
  | None => []
  | Some raw => computeNormalizedSessionKey raw
  end.
Proof.
  unfold normalizeSessionKeyPreservingOpaquePeerIds, normalizeSessionKey_cached.
  destruct (normalizeOptionalString _) as [raw|]; [|done].
  unfold readNormalizedSessionKeyCache. by destruct (length raw <=? _)%nat.
Qed.

Lemma normalizeOptionalString_no_space s :
  no_space s -> s <> [] -> normalizeOptionalString (VString s) = Some s.
Proof.
  intros H Hne. rewrite normalizeOptionalString_string, trim_no_space by done.
  by destruct s.
Qed.

Lemma normalizeSessionKey_no_space raw :
  no_space raw ->
  normalizeSessionKeyPreservingOpaquePeerIds (Some raw) = computeNormalizedSessionKey raw.
Proof.
  intros Hns. rewrite normalizeSessionKey_eq. simpl of_opt.
  destruct (decide (raw = [])) as [->|Hne]; [done|].
  by rewrite normalizeOptionalString_no_space.
Qed.

Lemma insert_span_Forall P s l : P s -> Forall P l -> Forall P (insert_span s l).
Proof.
  intros Hs H. induction H as [|t l Ht H IH]; simpl; [auto|].
  case_match; rewrite !Forall_cons; auto.
Qed.

Lemma sort_spans_Forall P l : Forall P l -> Forall P (sort_spans l).
Proof. induction 1; simpl; [constructor|by apply insert_span_Forall]. Qed.

(** The key after normalisation, as a mask over the trimmed key. *)
Definition key_mask (raw : jstr) : list bool :=
  if mayContainCasePreservingPeer raw then
    span_mask (length raw) 0
      (sort_spans
         (List.filter (fun s => ps_start s <? ps_end s)%nat (collectCasePreservedSpans raw)))
  else repeat false (length raw).

Lemma length_key_mask raw : length (key_mask raw) = length raw.
Proof.
  unfold key_mask. case_match; [apply length_span_mask|apply repeat_length].
Qed.

Lemma key_mask_lower raw : key_mask (lower raw) = key_mask raw.
Proof.
  unfold key_mask. by rewrite mayContain_lower, collectCasePreservedSpans_lower, lower_length.
Qed.

Lemma computeNormalizedSessionKey_masked raw :
  no_space raw -> computeNormalizedSessionKey raw = masked (key_mask raw) raw.
Proof.
  intros Hns. unfold computeNormalizedSessionKey, key_mask.
  destruct (mayContainCasePreservingPeer raw); simpl.
  - rewrite emit_spans_masked; [by rewrite drop_0|done|]. apply sort_spans_Forall.
    apply Forall_forall. intros s Hs%list_elem_of_In%filter_In.
    destruct Hs as [_ Hs%Nat.ltb_lt]. lia.
  - by rewrite masked_false.
Qed.

Lemma computeNormalizedSessionKey_lower raw :
  no_space raw -> lower (computeNormalizedSessionKey raw) = lower raw.
Proof.
  intros H. rewrite computeNormalizedSessionKey_masked by done.
  apply lower_masked, length_key_mask.
Qed.

Lemma computeNormalizedSessionKey_no_space raw :
  no_space raw -> no_space (computeNormalizedSessionKey raw).
Proof.
  intros H. apply no_space_lower. rewrite computeNormalizedSessionKey_lower by done.
  by apply no_space_lower.
Qed.

Lemma computeNormalizedSessionKey_idem raw :
  no_space raw ->
  computeNormalizedSessionKey (computeNormalizedSessionKey raw) = computeNormalizedSessionKey raw.
Proof.
  intros H. rewrite computeNormalizedSessionKey_masked
    by by apply computeNormalizedSessionKey_no_space.
  rewrite <- key_mask_lower, computeNormalizedSessionKey_lower, key_mask_lower by done.
  rewrite computeNormalizedSessionKey_masked by done. apply masked_idem.
Qed.

Lemma masked_fixed m s : length m = length s -> lower s = s -> masked m s = s.
Proof.
  revert s. induction m as [|b m IH]; intros [|c s]; simpl; try done.
  intros [= H] [= Hc Hs]. rewrite IH by done. destruct b; simpl; by rewrite ?Hc.
Qed.

(** A lower-case key without white space is its own normal form. *)
Lemma normalizeSessionKey_fixed raw :
  no_space raw -> lower raw = raw ->
  normalizeSessionKeyPreservingOpaquePeerIds (Some raw) = raw.
Proof.
  intros Hns Hl. rewrite normalizeSessionKey_no_space by done.
  rewrite computeNormalizedSessionKey_masked by done.
  apply masked_fixed; [apply length_key_mask|done].
Qed.

(** Normalising a session key without white space changes nothing but the
    case of its characters, is idempotent, and for a key that names no
    case-preserving channel is plain lowercasing. *)
Theorem normalizeSessionKey_case_only raw :
  no_space raw ->
  let n := normalizeSessionKeyPreservingOpaquePeerIds (Some raw) in
  lower n = lower raw /\
  normalizeSessionKeyPreservingOpaquePeerIds (Some n) = n /\
  (mayContainCasePreservingPeer raw = false -> n = lower raw).
Proof.
  intros Hns n. unfold n.
  rewrite normalizeSessionKey_no_space by done.
  rewrite normalizeSessionKey_no_space by by apply computeNormalizedSessionKey_no_space.
  split; [by apply computeNormalizedSessionKey_lower|].
  split; [by apply computeNormalizedSessionKey_idem|].
  intros E. unfold computeNormalizedSessionKey. by rewrite E.
Qed.

Lemma normalizeSessionKey_case_only_witness :
  let raw := lit "Agent:Main:Matrix:Channel:!RoOm:Org:Thread:$Ev" in
  lower (normalizeSessionKeyPreservingOpaquePeerIds (Some raw)) = lower raw /\
  normalizeSessionKeyPreservingOpaquePeerIds (Some raw)
  = lit "agent:main:matrix:channel:!RoOm:Org:thread:$Ev".
Proof.
  split; [|by vm_compute].
  apply (normalizeSessionKey_case_only (lit "Agent:Main:Matrix:Channel:!RoOm:Org:Thread:$Ev")).
  apply (bool_decide_unpack _). by vm_compute.
Defined.

(** *** The cache *)

Lemma evict_oldest_ok {V} (f : jstr -> V) fuel max cache :
  length cache <= max + fuel ->
  jm_wf cache -> jm_all (fun k v => v = f k) cache ->
  cache_ok max f (evict_oldest fuel max cache).
Proof.
  revert cache. induction fuel as [|fuel IH]; intros cache Hl Hwf Hall; simpl.
  - split; [done|lia|done].
  - destruct (max <? length cache)%nat eqn:E.
    + apply Nat.ltb_lt in E. destruct (jm_oldest cache) as [k|] eqn:Ek.
      * pose proof (jm_length_delete_oldest _ _ Ek). apply IH; [lia|auto with js..].
      * unfold jm_oldest in Ek. apply fmap_None in Ek. destruct cache; simpl in *; [lia|done].
    + apply Nat.ltb_ge in E. by split.
Qed.

(** The session key cache is invisible: the cached function returns what
    the uncached one returns, and keeps at most 2048 correct entries. *)
Theorem normalizeSessionKey_cache_transparent cache sessionKey :
  cache_ok NORMALIZED_SESSION_KEY_CACHE_MAX_ENTRIES computeNormalizedSessionKey cache ->
  (normalizeSessionKey_cached cache sessionKey).2
  = normalizeSessionKeyPreservingOpaquePeerIds sessionKey /\
  cache_ok NORMALIZED_SESSION_KEY_CACHE_MAX_ENTRIES computeNormalizedSessionKey
    (normalizeSessionKey_cached cache sessionKey).1.
Proof.
  intros Hc. rewrite normalizeSessionKey_eq. unfold normalizeSessionKey_cached.
  destruct (normalizeOptionalString _) as [raw|]; [|done].
  unfold readNormalizedSessionKeyCache.
  destruct (if (length raw <=? _)%nat then jm_get raw cache else None) as [v|] eqn:E; cbn [fst snd].
  - destruct (length raw <=? _)%nat; [|done].
    apply (cache_ok_get _ _ _ _ _ Hc) in E as ->. done.
  - split; [done|]. unfold writeNormalizedSessionKeyCache.
    destruct (_ <? length raw)%nat; [done|].
    destruct Hc as [Hk Hs Hv]. apply evict_oldest_ok.
    + apply Nat.le_add_l.
    + by apply jm_wf_set.
    + by apply jm_all_set.
Qed.

Lemma normalizeSessionKey_cache_transparent_witness :
  let c := (normalizeSessionKey_cached [] (Some (lit "Agent:A:Main"))).1 in
  (normalizeSessionKey_cached c (Some (lit " Agent:A:Main "))).2 = lit "agent:a:main".
Proof.
  destruct (normalizeSessionKey_cache_transparent
    (normalizeSessionKey_cached [] (Some (lit "Agent:A:Main"))).1
    (Some (lit " Agent:A:Main "))) as [E _].
  - apply (normalizeSessionKey_cache_transparent [] (Some (lit "Agent:A:Main"))), cache_ok_empty.
  - cbv zeta. rewrite E. by vm_compute.
Defined.
