(* ===== verification/SessionKey.v ===== *)
(** * Session keys

    [src/routing/session-key.ts]: how the keys that name conversations are
    built from agents, channels, accounts and peers, and how they are
    classified and moved between the request and the store form. *)
From S2P Require Import Prelude JsString JsMap Normalization SessionKeyUtils.

Definition DEFAULT_MAIN_KEY : jstr := lit "main".

Inductive SessionKeyShape := Missing | Agent | LegacyOrAlias | MalformedAgent.

Inductive DmScope := DmMain | PerPeer | PerChannelPeer | PerAccountChannelPeer.

#[global] Instance DmScope_eq_dec : EqDecision DmScope.
Proof. solve_decision. Defined.

Definition dm_scope_name (d : DmScope) : jstr :=
  match d with
  | DmMain => lit "main"
  | PerPeer => lit "per-peer"
  | PerChannelPeer => lit "per-channel-peer"
  | PerAccountChannelPeer => lit "per-account-channel-peer"
  end.

(** [identityLinks]: [Object.entries], in order; [None] for a value that is not
    an array. *)
Definition IdentityLinks := list (jstr * option (list jstr)).

Definition normalizeToken (value : option jstr) : jstr :=
  normalizeLowercaseStringOrEmpty (of_opt value).

Definition normalizeMainKey (value : option jstr) : jstr :=
  str_or (normalizeLowercaseStringOrEmpty (of_opt value)) DEFAULT_MAIN_KEY.

Definition buildAgentMainSessionKey (agentId : jstr) (mainKey : option jstr) : jstr :=
  lit "agent:" ++ normalizeAgentId (Some agentId) ++ lit ":" ++ normalizeMainKey mainKey.

(** ** Wake and event targets *)

Inductive WakeTarget :=
  | WakeUnchanged
  | WakeSession (sessionKey : jstr)
  | WakeAgent (agentId : jstr).

Definition scopedHeartbeatWakeOptions (sessionKey : jstr) (mainKey : option jstr)
    (scopeGlobal : bool) : WakeTarget :=
  match parseAgentSessionKey (Some sessionKey) with
  | None => WakeUnchanged
  | Some parsed =>
      if isCronRunSessionKey (Some sessionKey) then
        if scopeGlobal then WakeAgent (pk_agentId parsed)
        else WakeSession (buildAgentMainSessionKey (pk_agentId parsed) mainKey)
      else WakeSession sessionKey
  end.

Definition resolveEventSessionKey (sessionKey : jstr) (mainKey : option jstr)
    (scopeGlobal : bool) : jstr :=
  match parseAgentSessionKey (Some sessionKey) with
  | None => sessionKey
  | Some parsed =>
      if negb (isCronRunSessionKey (Some sessionKey)) then sessionKey
      else if scopeGlobal then lit "global"
      else buildAgentMainSessionKey (pk_agentId parsed) mainKey
  end.

(** ** Request and store keys *)

Definition toAgentRequestSessionKey (storeKey : option jstr) : option jstr :=
  let raw := trim (or_empty storeKey) in
  if negb (truthy raw) then None
  else Some (default raw (pk_rest <$> parseAgentSessionKey (Some raw))).

Definition agentSessionKeysMatchByRequestKey (left right : option jstr) : bool :=
  let leftRaw := trim (or_empty left) in
  let rightRaw := trim (or_empty right) in
  if negb (truthy leftRaw) || negb (truthy rightRaw) then false
  else
    bool_decide (leftRaw = rightRaw)
    || bool_decide
         (toAgentRequestSessionKey (Some leftRaw) = toAgentRequestSessionKey (Some rightRaw)).

Definition toAgentStoreSessionKey (agentId : jstr) (requestKey mainKey : option jstr) : jstr :=
  let raw := trim (or_empty requestKey) in
  let lowered := normalizeLowercaseStringOrEmpty (VString raw) in
  if negb (truthy raw) || bool_decide (lowered = DEFAULT_MAIN_KEY)
  then buildAgentMainSessionKey agentId mainKey
  else
    match parseAgentSessionKey (Some raw) with
    | Some parsed => lit "agent:" ++ pk_agentId parsed ++ lit ":" ++ pk_rest parsed
    | None =>
        let normalized := normalizeSessionKeyPreservingOpaquePeerIds (Some raw) in
        if starts_with (lit "agent:") lowered then normalized
        else lit "agent:" ++ normalizeAgentId (Some agentId) ++ lit ":" ++ normalized
    end.

Definition resolveAgentIdFromSessionKey (sessionKey : option jstr) : jstr :=
  normalizeAgentId
    (Some (default DEFAULT_AGENT_ID (pk_agentId <$> parseAgentSessionKey sessionKey))).

Definition classifySessionKeyShape (sessionKey : option jstr) : SessionKeyShape :=
  let raw := trim (or_empty sessionKey) in
  if negb (truthy raw) then Missing
  else if bool_decide (is_Some (parseAgentSessionKey (Some raw))) then Agent
  else if starts_with (lit "agent:") (normalizeLowercaseStringOrEmpty (VString raw))
  then MalformedAgent else LegacyOrAlias.

Definition isUnscopedSessionKeySentinel (sessionKey : option jstr) : bool :=
  let lowered := normalizeLowercaseStringOrEmpty (of_opt sessionKey) in
  bool_decide (lowered = lit "global") || bool_decide (lowered = lit "unknown").

Definition scopeLegacySessionKeyToAgent (agentId sessionKey mainKey : option jstr)
    : option jstr :=
  let raw := trim (or_empty sessionKey) in
  if negb (truthy raw) then None
  else
    let agentId := trim <$> agentId in
    match agentId, classifySessionKeyShape (Some raw) with
    | Some id, LegacyOrAlias =>
        if truthy id then Some (toAgentStoreSessionKey id (Some raw) mainKey) else Some raw
    | _, _ => Some raw
    end.

(** ** Peer keys *)

Definition resolveLinkedPeerId (identityLinks : option IdentityLinks) (channel peerId : jstr)
    : option jstr :=
  match identityLinks with
  | None => None
  | Some links =>
      let peerId := trim peerId in
      if negb (truthy peerId) then None
      else
        let rawCandidate := normalizeToken (Some peerId) in
        let candidates := if truthy rawCandidate then [rawCandidate] else [] in
        let channel := normalizeToken (Some channel) in
        let scopedCandidate := normalizeToken (Some (channel ++ lit ":" ++ peerId)) in
        let candidates :=
          if truthy channel && truthy scopedCandidate
          then candidates ++ [scopedCandidate] else candidates in
        if bool_decide (candidates = []) then None
        else
          let hit (entry : jstr * option (list jstr)) : bool :=
            truthy (trim entry.1)
            && existsb (fun id =>
                 let normalized := normalizeToken (Some id) in
                 truthy normalized && includes normalized candidates) (default [] entry.2) in
          trim ∘ fst <$> find_first hit links
  end.

Definition buildAgentPeerSessionKey (agentId : jstr) (mainKey : option jstr) (channel : jstr)
    (accountId : option jstr) (peerKind : option ChatType) (peerId : option jstr)
    (identityLinks : option IdentityLinks) (dmScope : option DmScope) : jstr :=
  let peerKind := default Direct peerKind in
  if decide (peerKind = Direct) then
    let dmScope := default DmMain dmScope in
    let peerId := trim (or_empty peerId) in
    let linkedPeerId :=
      if decide (dmScope = DmMain) then None
      else resolveLinkedPeerId identityLinks channel peerId in
    let peerId := if truthy_opt linkedPeerId then or_empty linkedPeerId else peerId in
    let peerId := normalizeLowercaseStringOrEmpty (VString peerId) in
    if bool_decide (dmScope = PerAccountChannelPeer) && truthy peerId then
      let channel := str_or (normalizeLowercaseStringOrEmpty (VString channel)) (lit "unknown") in
      let accountId := normalizeAccountId accountId in
      lit "agent:" ++ normalizeAgentId (Some agentId) ++ lit ":" ++ channel ++ lit ":"
        ++ accountId ++ lit ":direct:" ++ peerId
    else if bool_decide (dmScope = PerChannelPeer) && truthy peerId then
      let channel := str_or (normalizeLowercaseStringOrEmpty (VString channel)) (lit "unknown") in
      lit "agent:" ++ normalizeAgentId (Some agentId) ++ lit ":" ++ channel ++ lit ":direct:"
        ++ peerId
    else if bool_decide (dmScope = PerPeer) && truthy peerId then
      lit "agent:" ++ normalizeAgentId (Some agentId) ++ lit ":direct:" ++ peerId
    else buildAgentMainSessionKey agentId mainKey
  else
    let channel' := str_or (normalizeLowercaseStringOrEmpty (VString channel)) (lit "unknown") in
    let peerId :=
      str_or (normalizeSessionPeerId (Some channel) (Some (chat_type_name peerKind)) peerId)
        (lit "unknown") in
    lit "agent:" ++ normalizeAgentId (Some agentId) ++ lit ":" ++ channel' ++ lit ":"
      ++ chat_type_name peerKind ++ lit ":" ++ peerId.

Definition buildGroupHistoryKey (channel : jstr) (accountId : option jstr) (peerKind : ChatType)
    (peerId : jstr) : jstr :=
  let channel := str_or (normalizeToken (Some channel)) (lit "unknown") in
  let accountId := normalizeAccountId accountId in
  let peerId :=
    str_or (normalizeSessionPeerId (Some channel) (Some (chat_type_name peerKind)) (Some peerId))
      (lit "unknown") in
  channel ++ lit ":" ++ accountId ++ lit ":" ++ chat_type_name peerKind ++ lit ":" ++ peerId.

Definition resolveThreadSessionKeys (baseSessionKey : jstr) (threadId parentSessionKey : option jstr)
    (useSuffix : option bool) (normalizeThreadId : option (jstr -> jstr)) : jstr * option jstr :=
  let threadId := trim (or_empty threadId) in
  if negb (truthy threadId) then (baseSessionKey, None)
  else
    let normalizedThread :=
      match normalizeThreadId with
      | Some f => f threadId
      | None => normalizeLowercaseStringOrEmpty (VString threadId)
      end in
    let sessionKey :=
      if default true useSuffix then baseSessionKey ++ lit ":thread:" ++ normalizedThread
      else baseSessionKey in
    (sessionKey, parentSessionKey).

(** ** Keys as lists of segments *)

(** A usable segment of a key: not empty, no colon, no white space, lower case. *)
Record segment (s : jstr) : Prop := {
  sg_ne : s <> [];
  sg_colon : free_of colon s;
  sg_space : no_space s;
  sg_lower : lower s = s;
}.

#[global] Instance segment_dec s : Decision (segment s).
Proof.
  refine (cast_if (decide (s <> [] /\ free_of colon s /\ no_space s /\ lower s = s)));
    [by constructor; tauto|by intros []; tauto].
Defined.

Definition key_of (segments : list jstr) : jstr := join [colon] segments.

Lemma id_char_not_colon c : id_char c = true -> c <> colon /\ lowerc c = c.
Proof. by_bits c. Qed.

Lemma canonical_id_segment s : canonical_id s -> segment s.
Proof.
  intros H. pose proof (canonical_non_empty _ H). destruct H as [Hc _ _]. split; [done|..].
  - eapply Forall_impl; [exact Hc|]. by intros c [? _]%id_char_not_colon.
  - by apply id_chars_no_space.
  - clear -Hc. induction Hc as [|c s [_ Hc]%id_char_not_colon _ IH]; [done|]. simpl. by rewrite Hc, IH.
Qed.

Lemma agent_segment v : segment (normalizeAgentId v).
Proof. apply canonical_id_segment, normalizeAgentId_is_canonical. Qed.

Lemma account_segment v : segment (normalizeAccountId v).
Proof. apply canonical_id_segment, normalizeAccountId_ok. Qed.

Lemma lit_segment (x : string) :
  bool_decide (segment (lit x)) = true -> segment (lit x).
Proof. apply bool_decide_eq_true_1. Qed.

Lemma split_key_of segments :
  segments <> [] -> Forall segment segments -> split_on colon (key_of segments) = segments.
Proof.
  intros Hne H. apply split_join; [done|]. eapply Forall_impl; [exact H|]. by intros s [].
Qed.

Lemma key_of_cons s t segments : key_of (s :: t :: segments) = s ++ colon :: key_of (t :: segments).
Proof. done. Qed.

Lemma key_of_no_space segments : Forall segment segments -> no_space (key_of segments).
Proof.
  induction 1 as [|s segments [_ _ Hs _] _ IH]; [constructor|].
  destruct segments as [|t segments]; [done|]. rewrite key_of_cons. unfold no_space in *.
  apply Forall_app. split; [done|]. by constructor.
Qed.

Lemma key_of_lower segments : Forall segment segments -> lower (key_of segments) = key_of segments.
Proof.
  induction 1 as [|s segments [_ _ _ Hl] _ IH]; [done|].
  destruct segments as [|t segments]; [done|]. rewrite key_of_cons, lower_app, Hl.
  change (lower (colon :: key_of (t :: segments))) with (colon :: lower (key_of (t :: segments))).
  by rewrite IH.
Qed.

Lemma key_of_normal segments :
  Forall segment segments ->
  normalizeSessionKeyPreservingOpaquePeerIds (Some (key_of segments)) = key_of segments.
Proof.
  intros H. apply normalizeSessionKey_fixed; [by apply key_of_no_space|by apply key_of_lower].
Qed.

Lemma normalizeOptionalString_segment s :
  segment s -> normalizeOptionalString (VString s) = Some s.
Proof. intros [? _ ? _]. by apply normalizeOptionalString_no_space. Qed.

Lemma key_of_ne s segments : segment s -> key_of (s :: segments) <> [].
Proof. intros [Hne _ _ _]. by destruct segments, s. Qed.

(** A key whose first segment is ["agent"] parses into its second segment and
    the rest. *)
Lemma parseAgentSessionKey_key_of a r rest :
  Forall segment (a :: r :: rest) ->
  parseAgentSessionKey (Some (key_of (lit "agent" :: a :: r :: rest)))
  = Some {| pk_agentId := a; pk_rest := key_of (r :: rest) |}.
Proof.
  intros H. assert (Forall segment (lit "agent" :: a :: r :: rest)) as Hall.
  { constructor; [by apply lit_segment|done]. }
  unfold parseAgentSessionKey. rewrite key_of_normal by done.
  pose proof (key_of_ne (lit "agent") (a :: r :: rest) ltac:(by apply lit_segment)) as Hne.
  apply truthy_spec in Hne. rewrite Hne.
  rewrite split_key_of by done. cbn [negb].
  apply Forall_cons in H as [Ha H]. apply Forall_cons in H as [Hr H].
  rewrite normalizeOptionalString_segment by done.
  pose proof (key_of_ne r rest Hr) as Hkr%truthy_spec. unfold key_of in Hkr. rewrite Hkr.
  destruct Ha as [Ha%truthy_spec _ _ _]. destruct Hr as [Hr%truthy_spec _ _ _].
  rewrite Ha, Hr. by rewrite bool_decide_eq_true_2.
Qed.

(** A key has no thread marker unless an inner segment is ["thread"]. *)
Lemma key_of_no_thread x segments y :
  Forall segment (x :: segments ++ [y]) -> lit "thread" ∉ segments ->
  last_index_of threadMarker (key_of (x :: segments ++ [y])) = None.
Proof.
  intros H Hin. destruct (last_index_of _ _) as [i|] eqn:E; [|done]. exfalso.
  apply last_index_of_Some, (f_equal (split_on colon)) in E.
  rewrite split_key_of in E by done.
  change (threadMarker) with (colon :: lit "thread" ++ [colon]) in E.
  set (a := take i _) in E. set (b := drop _ _) in E.
  change ((colon :: lit "thread" ++ [colon]) ++ b) with (colon :: lit "thread" ++ colon :: b) in E.
  rewrite split_on_app_gen, split_on_app in E by by apply (bool_decide_unpack _).
  destruct (split_on colon a) as [|a0 sa] eqn:Ea; [by destruct (split_on_not_nil colon a)|].
  pose proof (split_on_not_nil colon b) as Hb.
  destruct (exists_last Hb) as (sb & b0 & Eb). rewrite Eb in E.
  injection E as _ E. rewrite app_comm_cons, app_assoc in E. apply app_inj_tail in E as [E _].
  apply Hin. rewrite E. set_solver.
Qed.

Lemma parseThreadSessionSuffix_none key :
  key <> [] -> no_space key -> lower key = key -> last_index_of threadMarker key = None ->
  parseThreadSessionSuffix (Some key)
  = {| ts_baseSessionKey := Some key; ts_threadId := None |}.
Proof.
  intros Hne Hs Hl Hi. unfold parseThreadSessionSuffix. simpl of_opt.
  rewrite normalizeOptionalString_no_space by done. autorewrite with js.
  unfold fold_str. rewrite trim_no_space, Hl, Hi by done. done.
Qed.

(** The delivery parser on a key of segments without an inner ["thread"]. *)
Lemma parseSessionDeliveryRoute_key_of a rest y :
  Forall segment (a :: rest ++ [y]) -> lit "thread" ∉ a :: rest ->
  parseSessionDeliveryRoute (Some (key_of (lit "agent" :: a :: rest ++ [y])))
  = let parts := rest ++ [y] in
    if bool_decide (head parts = Some (lit "agent")) || (length parts <? 3)%nat then None
    else
      channel ← head parts;
      if (4 <=? length parts)%nat && bool_decide (parts !! 2%nat = Some (lit "direct"))
      then parse_account_direct channel parts DPDirect None
      else if (4 <=? length parts)%nat && bool_decide (parts !! 2%nat = Some (lit "dm"))
      then parse_account_direct channel parts DPDm None
      else parse_peer channel parts None.
Proof.
  intros H Hin. unfold parseSessionDeliveryRoute.
  assert (segment (lit "agent")) as Hag by by apply lit_segment.
  assert (Forall segment (lit "agent" :: (a :: rest) ++ [y])) as Hall by by constructor.
  rewrite (parseThreadSessionSuffix_none (key_of (lit "agent" :: a :: rest ++ [y]))).
  2: by apply key_of_ne. 2: by apply key_of_no_space. 2: by apply key_of_lower.
  2: by apply (key_of_no_thread (lit "agent") (a :: rest) y).
  cbn [ts_baseSessionKey ts_threadId].
  destruct (rest ++ [y]) as [|r parts] eqn:E; [by destruct rest|].
  rewrite parseAgentSessionKey_key_of by done. cbn [pk_rest].
  rewrite split_key_of; [|done|by apply Forall_cons in H as [_ H]].
  case_match; [done|]. cbn [head of_opt].
  assert (segment r) as Hr by (rewrite !Forall_cons in H; tauto).
  unfold normalizeOptionalLowercaseString. rewrite normalizeOptionalString_segment by done.
  cbn [fmap option_fmap option_map]. rewrite (sg_lower r Hr).
  replace (truthy r) with true by (symmetry; apply truthy_spec, Hr). done.
Qed.

(** ** Building a key and parsing it back *)

Section peer_keys.
  Context (agentId channel peerId : jstr) (accountId : option jstr).
  Context (kind : ChatType) (dmScope : DmScope).

Let a := normalizeAgentId (Some agentId).
Let c := fold_str channel.
Let acct := normalizeAccountId accountId.
Let p := fold_str peerId.

  Hypothesis Hc : segment c.
  Hypothesis Hp : segment p.
  Hypothesis Hkind : isCasePreservingPeer (Some channel) (Some (chat_type_name kind)) = false.

Let key :=
    buildAgentPeerSessionKey agentId None channel accountId (Some kind) (Some peerId) None
      (Some dmScope).

  (** The segments of the key, after ["agent"] and the agent id. *)
Definition peer_key_rest : list jstr :=
    match kind, dmScope with
    | Direct, DmMain => [lit "main"]
    | Direct, PerPeer => [lit "direct"; p]
    | Direct, PerChannelPeer => [c; lit "direct"; p]
    | Direct, PerAccountChannelPeer => [c; acct; lit "direct"; p]
    | Group, _ => [c; lit "group"; p]
    | Channel, _ => [c; lit "channel"; p]
    end.

Lemma peer_id_normal :
    str_or (normalizeSessionPeerId (Some channel) (Some (chat_type_name kind)) (Some peerId))
      (lit "unknown") = p.
  Proof.
    unfold normalizeSessionPeerId. rewrite Hkind.
    change (or_empty (Some peerId)) with peerId. autorewrite with js.
    assert (truthy (trim peerId) = true) as ->.
    { apply truthy_spec. intros E. apply (sg_ne _ Hp). unfold p, fold_str. by rewrite E. }
    apply str_or_cons, Hp.
  Qed.

Lemma build_key_of : key = key_of (lit "agent" :: a :: peer_key_rest).
  Proof.
    unfold key, buildAgentPeerSessionKey, peer_key_rest. cbv zeta.
    change (default Direct (Some kind)) with kind.
    change (default DmMain (Some dmScope)) with dmScope.
    rewrite !peer_id_normal. change (or_empty (Some peerId)) with peerId. rewrite !normalizeLowercaseStringOrEmpty_string.
    change (fold_str channel) with c. rewrite !(str_or_cons c) by apply Hc.
    assert (truthy p = true) as Htp by apply truthy_spec, Hp.
    assert (fold_str (trim peerId) = p) as Hfp by apply fold_str_trim.
    destruct kind; [rewrite decide_True by done|by rewrite decide_False|by rewrite decide_False].
    destruct dmScope; [rewrite decide_True by done|rewrite decide_False by done..];
      cbn [truthy_opt resolveLinkedPeerId]; rewrite Hfp, ?Htp; done.
  Qed.

Lemma peer_key_segments : Forall segment (a :: peer_key_rest).
  Proof.
    constructor; [apply agent_segment|]. unfold peer_key_rest.
    assert (segment acct) by apply account_segment.
    destruct kind, dmScope; rewrite ?Forall_cons, ?Forall_nil; split_and?; try done;
      by apply lit_segment.
  Qed.

  (** What the delivery parser should return for the key. *)
Definition peer_delivery_route : option ParsedSessionDeliveryRoute :=
    let route account k :=
      Some {| dr_accountId := account; dr_channel := c; dr_peerId := p; dr_peerKind := k;
              dr_threadId := None |} in
    match kind, dmScope with
    | Direct, (DmMain | PerPeer) => None
    | Direct, PerChannelPeer => route None DPDirect
    | Direct, PerAccountChannelPeer => route (Some acct) DPDirect
    | Group, _ => route None DPGroup
    | Channel, _ => route None DPChannel
    end.
End peer_keys.

Lemma parse_peer_segments c k kind p thread :
  jm_get k SESSION_DELIVERY_PEER_KINDS = Some kind -> segment p ->
  parse_peer c [c; k; p] thread
  = Some {| dr_accountId := None; dr_channel := c; dr_peerId := p; dr_peerKind := kind;
            dr_threadId := thread |}.
Proof.
  intros Hk Hp. unfold parse_peer.
  change ([c; k; p] !! 1%nat) with (Some k). change ([c; k; p] !! 2%nat) with (Some p).
  cbn [mbind option_bind of_opt drop join]. rewrite Hk.
  by rewrite normalizeOptionalString_segment.
Qed.

Lemma parse_account_direct_segments c account kind p thread :
  segment account -> segment p ->
  parse_account_direct c [c; account; lit "direct"; p] kind thread
  = Some {| dr_accountId := Some account; dr_channel := c; dr_peerId := p; dr_peerKind := kind;
            dr_threadId := thread |}.
Proof.
  intros Ha Hp. unfold parse_account_direct.
  change ([c; account; lit "direct"; p] !! 1%nat) with (Some account).
  change ([c; account; lit "direct"; p] !! 3%nat) with (Some p).
  cbn [of_opt drop join]. by rewrite !normalizeOptionalString_segment.
Qed.

Ltac solve_no_thread :=
  rewrite !not_elem_of_cons; split_and?;
  first [assumption | apply not_elem_of_nil | by vm_compute].



(** The restriction on ["thread"] is needed: for the agent of that name the
    key of every group conversation reads as a thread suffix of the bare word
    ["agent"], and parses to no route at all. *)
Theorem delivery_route_agent_named_thread channel peerId :
  segment (fold_str channel) -> segment (fold_str peerId) ->
  isCasePreservingPeer (Some channel) (Some (chat_type_name Group)) = false ->
  fold_str channel <> lit "thread" ->
  parseSessionDeliveryRoute
    (Some (buildAgentPeerSessionKey (lit "thread") None channel None (Some Group) (Some peerId)
             None (Some DmMain)))
  = None.
Proof.
  intros Hc Hp Hk Hth. rewrite build_key_of by done.
  pose proof (peer_key_segments (lit "thread") channel peerId None Group DmMain Hc Hp Hk) as Hseg.
  unfold peer_key_rest in *. change (normalizeAgentId (Some (lit "thread"))) with (lit "thread") in *.
  set (key := key_of _). assert (segment (lit "agent")) as Hag by by apply lit_segment.
  assert (Forall segment [lit "agent"; lit "thread"; fold_str channel; lit "group"; fold_str peerId])
    as Hall by by constructor.
  assert (last_index_of threadMarker key = Some 5) as Hi.
  { apply (last_index_of_app (lit "agent") colon (lit "thread:")
      (key_of [fold_str channel; lit "group"; fold_str peerId])).
    apply (key_of_no_thread (lit "thread") [fold_str channel; lit "group"] (fold_str peerId));
      [by apply Forall_cons in Hall as [_ ?]|solve_no_thread]. }
  unfold parseSessionDeliveryRoute, parseThreadSessionSuffix. cbn [of_opt].
  rewrite normalizeOptionalString_no_space
    by first [by apply key_of_no_space | by apply (key_of_ne (lit "agent"))].
  rewrite normalizeLowercaseStringOrEmpty_string, fold_no_space by by apply key_of_no_space.
  assert (lower key = key) as -> by by apply key_of_lower. rewrite Hi. cbn [ts_baseSessionKey].
  change (take 5 key) with (lit "agent"). by vm_compute.
Qed.

Lemma delivery_route_agent_named_thread_witness :
  parseSessionDeliveryRoute (Some (lit "agent:thread:telegram:group:-100")) = None.
Proof.
  rewrite <- (delivery_route_agent_named_thread (lit "Telegram") (lit "-100")).
  - by vm_compute.
  - apply (bool_decide_unpack _). by vm_compute.
  - apply (bool_decide_unpack _). by vm_compute.
  - by vm_compute.
  - by vm_compute.
Defined.
