(* ===== verification/RouteConfig.v ===== *)
(** * Routing configuration

    The part of the configuration that routing reads, and the helpers over it:
    [src/agents/agent-scope-config.ts] (agent list and default agent),
    [src/config/bindings.ts], [src/routing/binding-scope.ts],
    [src/routing/peer-kind-match.ts], [src/routing/bindings.ts],
    [src/routing/account-lookup.ts] and [normalizeChatChannelId] of
    [src/channels/ids.ts], whose channel tables (generated metadata) are
    parameters.

    The configuration is the schema-validated object: list entries are objects,
    ids keep the type [unknown] the code accepts. *)
From S2P Require Import Prelude JsString JsMap Normalization SessionKeyUtils SessionKey.

(** ** Data *)

Record AgentEntry := { ae_id : option jstr; ae_default : bool }.

Record BindingPeer := { bp_kind : option jstr; bp_id : jsval }.

Record AgentBindingMatch := {
  bm_channel : option jstr;
  bm_accountId : option jstr;
  bm_peer : option BindingPeer;
  bm_guildId : jsval;
  bm_teamId : jsval;
  bm_roles : option (list jstr);
}.

Record AgentBinding := {
  ab_type : option jstr;
  ab_agentId : jstr;
  ab_match : option AgentBindingMatch;
  ab_dmScope : option DmScope;
}.

Record SessionConfig := {
  sc_dmScope : option DmScope;
  sc_mainKey : option jstr;
  sc_identityLinks : option IdentityLinks;
}.

(** [agents.list], [bindings] and [session]; [None] when absent or not an array. *)
Record Config := {
  cfg_agents : option (list AgentEntry);
  cfg_bindings : option (list AgentBinding);
  cfg_session : option SessionConfig;
}.

(** ** Agents *)

Definition listAgentEntries (cfg : Config) : list AgentEntry := default [] (cfg_agents cfg).

Definition listAgentIds (cfg : Config) : list jstr :=
  match listAgentEntries cfg with
  | [] => [DEFAULT_AGENT_ID]
  | agents => js_set (map (fun entry => normalizeAgentId (ae_id entry)) agents)
  end.

(** The warning for several defaults is a log line and is left out. *)
Definition resolveDefaultAgentId (cfg : Config) : jstr :=
  match listAgentEntries cfg with
  | [] => DEFAULT_AGENT_ID
  | (first :: _) as agents =>
      let defaults := List.filter ae_default agents in
      let chosen := trim <$> ae_id (default first (head defaults)) in
      normalizeAgentId (Some (str_or (or_empty chosen) DEFAULT_AGENT_ID))
  end.

Definition resolveAgentEntry (cfg : Config) (agentId : jstr) : option AgentEntry :=
  let id := normalizeAgentId (Some agentId) in
  find_first (fun entry => bool_decide (normalizeAgentId (ae_id entry) = id))
    (listAgentEntries cfg).

(** ** Bindings of the configuration *)

Definition isRouteBinding (binding : AgentBinding) : bool :=
  negb (bool_decide (ab_type binding = Some (lit "acp"))).

Definition isAcpBinding (binding : AgentBinding) : bool :=
  bool_decide (ab_type binding = Some (lit "acp")).

Definition listConfiguredBindings (cfg : Config) : list AgentBinding :=
  default [] (cfg_bindings cfg).

Definition listRouteBindings (cfg : Config) : list AgentBinding :=
  List.filter isRouteBinding (listConfiguredBindings cfg).

Definition listAcpBindings (cfg : Config) : list AgentBinding :=
  List.filter isAcpBinding (listConfiguredBindings cfg).

Definition listBindings (cfg : Config) : list AgentBinding := listRouteBindings cfg.

(** ** Binding scopes *)

Definition normalizeRouteBindingId (value : jsval) : jstr :=
  match value with
  | VString s => trim s
  | VNumber n => trim (js_number_string n)
  | _ => []
  end.

Definition normalizeRouteBindingRoles (value : option (list jstr)) : option (list jstr) :=
  match value with
  | Some (r :: rs) => Some (r :: rs)
  | _ => None
  end.

Definition scopeIdMatches (constraint : option jstr) (exact groupSpace : jstr) : bool :=
  match constraint with
  | None => true
  | Some c =>
      if negb (truthy c) then true
      else bool_decide (c = exact) || bool_decide (c = groupSpace)
  end.

(** The member roles form a set, whatever iterable the caller passed. *)
Definition hasAnyRouteBindingRole (roles : list jstr) (memberRoleIds : option (list jstr))
    : bool :=
  match memberRoleIds with
  | None => false
  | Some ids => existsb (fun role => includes role ids) roles
  end.

Definition routeBindingScopeMatches (c_guildId c_teamId : option jstr)
    (c_roles : option (list jstr)) (s_guildId s_teamId s_groupSpace : jsval)
    (s_memberRoleIds : option (list jstr)) : bool :=
  let guildId := normalizeRouteBindingId s_guildId in
  let teamId := normalizeRouteBindingId s_teamId in
  let groupSpace := normalizeRouteBindingId s_groupSpace in
  if negb (scopeIdMatches c_guildId guildId groupSpace) then false
  else if negb (scopeIdMatches c_teamId teamId groupSpace) then false
  else match normalizeRouteBindingRoles c_roles with
       | None => true
       | Some roles => hasAnyRouteBindingRole roles s_memberRoleIds
       end.

Definition peerKindMatches (bindingKind scopeKind : ChatType) : bool :=
  if decide (bindingKind = scopeKind) then true
  else match bindingKind, scopeKind with
       | Group, Channel => true
       | Channel, Group => true
       | _, _ => false
       end.

(** ** Channel ids *)

Record BundledChatChannelEntry := { ce_id : jstr; ce_aliases : list jstr }.

(** The order of [a.localeCompare(b)] on canonical ids: the collation sorts
    ["_"], ["-"], digits and letters in that order and compares from the left. *)
Definition id_rank (c : ascii) : nat :=
  if is_char c "_"%char then 0
  else if is_dash c then 1
  else code c + 2.

Fixpoint locale_le (a b : jstr) : bool :=
  match a, b with
  | [], _ => true
  | _ :: _, [] => false
  | x :: a', y :: b' =>
      (id_rank x <? id_rank y)%nat || (bool_decide (x = y) && locale_le a' b')
  end.

Fixpoint locale_insert (x : jstr) (l : list jstr) : list jstr :=
  match l with
  | [] => [x]
  | y :: r => if locale_le x y then x :: l else y :: locale_insert x r
  end.

(** [toSorted((a, b) => a.localeCompare(b))]. *)
Definition locale_sort (l : list jstr) : list jstr := foldr locale_insert [] l.

Record NormalizedRouteBindingMatch := {
  nm_agentId : jstr;
  nm_accountId : jstr;
  nm_channelId : jstr;
}.

Section channels.
(** The generated channel metadata and the runtime catalogue. *)
Context (BUNDLED_CHAT_CHANNEL_ENTRIES runtimeBundledChatChannelEntries
  : list BundledChatChannelEntry).

Definition CHAT_CHANNEL_ALIASES : list (jstr * jstr) :=
  foldl (fun m kv => jm_set kv.1 kv.2 m) []
    (entry ← BUNDLED_CHAT_CHANNEL_ENTRIES; alias ← ce_aliases entry; [(alias, ce_id entry)]).

Definition normalizeRuntimeBundledChatChannelId (normalized : jstr) : option jstr :=
  ce_id <$>
    find_first (fun entry =>
      bool_decide (ce_id entry = normalized) || includes normalized (ce_aliases entry))
      runtimeBundledChatChannelEntries.

Definition normalizeChatChannelId (raw : option jstr) : option jstr :=
  match normalizeOptionalLowercaseString (of_opt raw) with
  | None => None
  | Some normalized =>
      let resolved := default normalized (jm_get normalized CHAT_CHANNEL_ALIASES) in
      if includes resolved (map ce_id BUNDLED_CHAT_CHANNEL_ENTRIES) then Some resolved
      else normalizeRuntimeBundledChatChannelId normalized
  end.

Definition normalizeRouteBindingChannelId (raw : option jstr) : option jstr :=
  let normalized := normalizeChatChannelId raw in
  if truthy_opt normalized then normalized
  else non_empty (normalizeLowercaseStringOrEmpty (of_opt raw)).

Definition resolveNormalizedRouteBindingMatch (binding : AgentBinding)
    : option NormalizedRouteBindingMatch :=
  match ab_match binding with
  | None => None
  | Some m =>
      match normalizeRouteBindingChannelId (bm_channel m) with
      | None => None
      | Some channelId =>
          let accountId := trim (or_empty (bm_accountId m)) in
          if negb (truthy accountId) || bool_decide (accountId = lit "*") then None
          else
            Some {| nm_agentId := normalizeAgentId (Some (ab_agentId binding));
                    nm_accountId := normalizeAccountId (Some accountId);
                    nm_channelId := channelId |}
      end
  end.

(** ** Bound accounts *)

Definition listBoundAccountIds (cfg : Config) (channelId : jstr) : list jstr :=
  match normalizeRouteBindingChannelId (Some channelId) with
  | None => []
  | Some normalizedChannel =>
      let ids :=
        foldl (fun ids binding =>
          match resolveNormalizedRouteBindingMatch binding with
          | None => ids
          | Some resolved =>
              if negb (bool_decide (nm_channelId resolved = normalizedChannel)) then ids
              else js_add (nm_accountId resolved) ids
          end) [] (listBindings cfg) in
      locale_sort ids
  end.

Definition resolveDefaultAgentBoundAccountId (cfg : Config) (channelId : jstr)
    : option jstr :=
  match normalizeRouteBindingChannelId (Some channelId) with
  | None => None
  | Some normalizedChannel =>
      let defaultAgentId := normalizeAgentId (Some (resolveDefaultAgentId cfg)) in
      nm_accountId <$>
        find_first (fun resolved =>
          bool_decide (nm_channelId resolved = normalizedChannel)
          && bool_decide (nm_agentId resolved = defaultAgentId))
          (omap resolveNormalizedRouteBindingMatch (listBindings cfg))
  end.

(** channel -> agent -> accounts. *)
Definition buildChannelAccountBindings (cfg : Config)
    : list (jstr * list (jstr * list jstr)) :=
  foldl (fun m binding =>
    match resolveNormalizedRouteBindingMatch binding with
    | None => m
    | Some resolved =>
        let byAgent := default [] (jm_get (nm_channelId resolved) m) in
        let accounts := default [] (jm_get (nm_agentId resolved) byAgent) in
        let accounts :=
          if includes (nm_accountId resolved) accounts then accounts
          else accounts ++ [nm_accountId resolved] in
        jm_set (nm_channelId resolved) (jm_set (nm_agentId resolved) accounts byAgent) m
    end) [] (listBindings cfg).

Definition resolvePreferredAccountId (defaultAccountId : jstr) (boundAccounts : list jstr)
    : jstr :=
  match boundAccounts with
  | first :: _ => first
  | [] => defaultAccountId
  end.
End channels.

(** ** Account tables *)

Section accounts.
Context {T : Type}.
Implicit Types (accounts : option (list (jstr * T))).

Definition resolveAccountEntry accounts (accountId : jstr) : option T :=
  match accounts with
  | None => None
  | Some entries =>
      match jm_get accountId entries with
      | Some v => Some v
      | None =>
          let normalized := normalizeLowercaseStringOrEmpty (VString accountId) in
          match find_first (fun kv =>
            bool_decide (normalizeLowercaseStringOrEmpty (VString kv.1) = normalized)) entries with
          | Some (matchKey, v) => if truthy matchKey then Some v else None
          | None => None
          end
      end
  end.

Definition resolveNormalizedAccountEntry accounts (accountId : jstr)
    (normalize : jstr -> jstr) : option T :=
  match accounts with
  | None => None
  | Some entries =>
      match jm_get accountId entries, isBlockedObjectKey accountId with
      | Some v, false => Some v
      | _, _ =>
          let normalized := normalize accountId in
          match find_first (fun kv =>
            if isBlockedObjectKey kv.1 then false
            else
              let candidate := normalize kv.1 in
              truthy_opt (normalizeOptionalAccountId (Some kv.1))
              && negb (isBlockedObjectKey candidate)
              && bool_decide (candidate = normalized)) entries with
          | Some (matchKey, v) => if truthy matchKey then Some v else None
          | None => None
          end
      end
  end.
End accounts.

(** ** Bound accounts, three ways *)

Section bound_accounts.
Context (bundled runtime : list BundledChatChannelEntry).

(** The accounts bound to an agent on a channel, as the table gives them. *)
Definition table_accounts (m : list (jstr * list (jstr * list jstr))) (channelId agentId : jstr)
    : list jstr :=
  default [] (jm_get channelId m ≫= jm_get agentId).

Definition channel_match (channelId : jstr) (r : NormalizedRouteBindingMatch) : bool :=
  bool_decide (nm_channelId r = channelId).

Definition agent_match (channelId agentId : jstr) (r : NormalizedRouteBindingMatch) : bool :=
  channel_match channelId r && bool_decide (nm_agentId r = agentId).

(** The account-scoped bindings of a configuration. *)
Definition resolved_bindings (cfg : Config) : list NormalizedRouteBindingMatch :=
  omap (resolveNormalizedRouteBindingMatch bundled runtime) (listBindings cfg).


Lemma list_filter_snoc_eq {A} (p : A -> bool) l x :
  List.filter p (l ++ [x]) = if p x then List.filter p l ++ [x] else List.filter p l.
Proof.
  induction l as [|y l IH]; simpl; [done|]. rewrite IH. destruct (p y), (p x); done.
Qed.

Lemma omap_snoc_eq {A B} (f : A -> option B) l x :
  omap f (l ++ [x]) = omap f l ++ option_list (f x).
Proof. rewrite omap_app. simpl. by destruct (f x). Qed.

(** The table holds, per channel and agent, the accounts in binding order. *)
Lemma buildChannelAccountBindings_spec cfg ch a :
  table_accounts (buildChannelAccountBindings bundled runtime cfg) ch a =
  js_set (nm_accountId <$> List.filter (agent_match ch a) (resolved_bindings cfg)).
Proof.
  unfold buildChannelAccountBindings, resolved_bindings.
  induction (listBindings cfg) as [|b bs IH] using rev_ind; [done|].
  rewrite foldl_app, omap_snoc_eq. cbn [foldl].
  destruct (resolveNormalizedRouteBindingMatch _ _ b) as [r|]; [|by rewrite app_nil_r].
  change (option_list (Some r)) with [r]. rewrite list_filter_snoc_eq. unfold agent_match at 1, channel_match.
  unfold table_accounts in *. rewrite jm_get_set.
  case_decide as Hc; subst.
  2:{ rewrite bool_decide_eq_false_2 by congruence. exact IH. }
  rewrite bool_decide_eq_true_2 by done. cbn [mbind option_bind andb]. rewrite jm_get_set.
  case_decide as Ha; subst.
  - rewrite bool_decide_eq_true_2 by done. rewrite fmap_app. cbn [fmap list_fmap].
    rewrite js_set_snoc, <- IH. unfold js_add, includes.
    destruct (jm_get (nm_channelId r) _) as [byAgent|] eqn:E; cbn [mbind option_bind default];
      unfold default, id; (case_bool_decide; [by rewrite decide_True|by rewrite decide_False]).
  - rewrite bool_decide_eq_false_2 by congruence. rewrite <- IH.
    by destruct (jm_get (nm_channelId r) _).
Qed.

Lemma locale_insert_Permutation x l : locale_insert x l ≡ₚ x :: l.
Proof.
  induction l as [|y l IH]; simpl; [done|]. destruct (locale_le x y); [done|].
  rewrite IH. apply Permutation_swap.
Qed.

Lemma locale_sort_Permutation l : locale_sort l ≡ₚ l.
Proof.
  induction l as [|x l IH]; simpl; [done|]. by rewrite locale_insert_Permutation, IH.
Qed.

Lemma locale_le_total a b : locale_le a b = false -> locale_le b a = true.
Proof.
  revert b. induction a as [|x a IH]; intros [|y b]; simpl; try done.
  intros [Hlt Hand]%orb_false_iff. apply Nat.ltb_ge in Hlt.
  apply orb_true_iff. destruct (decide (id_rank y < id_rank x)%nat) as [?|Hge].
  - left. by apply Nat.ltb_lt.
  - right. assert (x = y) as ->.
    { assert (id_rank x = id_rank y) as Heq by lia. revert Heq. unfold id_rank, is_char, is_dash.
      unfold is_char. repeat case_bool_decide; subst; intros Heq; try done; try lia.
      all: cut (code x = code y); [|lia]; intros Hc;
        rewrite <- (Ascii.ascii_nat_embedding x), <- (Ascii.ascii_nat_embedding y); by f_equal. }
    rewrite bool_decide_eq_true_2 in Hand |- * by done. simpl in *. auto.
Qed.

Definition locale_sorted (l : list jstr) : Prop :=
  Sorted (fun a b => locale_le a b = true) l.

Lemma locale_insert_sorted x l : locale_sorted l -> locale_sorted (locale_insert x l).
Proof.
  unfold locale_sorted. induction 1 as [|y l Hs IH Hh]; simpl; [repeat constructor|].
  destruct (locale_le x y) eqn:E; [repeat constructor; done|].
  constructor; [done|]. apply locale_le_total in E.
  destruct l as [|z l]; simpl; [by constructor|]. destruct (locale_le x z); [by constructor|].
  constructor. by inversion Hh.
Qed.

Lemma locale_sort_sorted l : locale_sorted (locale_sort l).
Proof. induction l; simpl; [constructor|]. by apply locale_insert_sorted. Qed.

Lemma listBoundAccountIds_Permutation cfg channelId ch :
  normalizeRouteBindingChannelId bundled runtime (Some channelId) = Some ch ->
  listBoundAccountIds bundled runtime cfg channelId ≡ₚ
  js_set (nm_accountId <$> List.filter (channel_match ch) (resolved_bindings cfg)).
Proof.
  intros Hch. unfold listBoundAccountIds, resolved_bindings. rewrite Hch, locale_sort_Permutation.
  induction (listBindings cfg) as [|b bs IH] using rev_ind; [done|].
  rewrite foldl_app, omap_snoc_eq. cbn [foldl].
  destruct (resolveNormalizedRouteBindingMatch _ _ b) as [r|]; [|by rewrite app_nil_r].
  change (option_list (Some r)) with [r]. rewrite list_filter_snoc_eq. unfold channel_match at 1.
  case_bool_decide; cbn [negb]; [|done]. rewrite fmap_app. cbn [fmap list_fmap].
  rewrite js_set_snoc. unfold js_add.
  case_decide as H1; case_decide as H2; rewrite IH in H1; try done. by rewrite IH.
Qed.

Lemma js_set_head (l : list jstr) : head (js_set l) = head l.
Proof.
  destruct l as [|x l]; [done|]. change (x :: l) with ([x] ++ l).
  induction l as [|y l IH] using rev_ind; [done|].
  rewrite app_assoc, js_set_snoc. unfold js_add. case_decide.
  - rewrite IH. done.
  - destruct (js_set ([x] ++ l)) as [|z s] eqn:E; [done|]. cbn in *. done.
Qed.

Lemma find_first_head {A} (p : A -> bool) l : find_first p l = head (List.filter p l).
Proof. induction l as [|x l IH]; simpl; [done|]. by destruct (p x). Qed.

Lemma resolvePreferredAccountId_head fallback l :
  resolvePreferredAccountId fallback l = default fallback (head l).
Proof. by destruct l. Qed.

End bound_accounts.

(** The three views of account bindings agree: the table lists, per channel
    and agent, exactly the accounts that some route binding names, once each;
    the ids listed for a channel are the accounts of all agents, once each and
    in collation order; and the account bound to the default agent is the
    first of its table entry, which [resolvePreferredAccountId] prefers. *)
Theorem bound_accounts_agree bundled runtime cfg channelId ch :
  normalizeRouteBindingChannelId bundled runtime (Some channelId) = Some ch ->
  let table := buildChannelAccountBindings bundled runtime cfg in
  let ids := listBoundAccountIds bundled runtime cfg channelId in
  let def := normalizeAgentId (Some (resolveDefaultAgentId cfg)) in
  (forall agent account, account ∈ table_accounts table ch agent <->
    exists b, b ∈ listBindings cfg /\ resolveNormalizedRouteBindingMatch bundled runtime b =
      Some {| nm_agentId := agent; nm_accountId := account; nm_channelId := ch |}) /\
  (forall agent, NoDup (table_accounts table ch agent)) /\
  (NoDup ids /\ locale_sorted ids /\
    forall account, account ∈ ids <-> exists agent, account ∈ table_accounts table ch agent) /\
  (forall fallback,
    default fallback (resolveDefaultAgentBoundAccountId bundled runtime cfg channelId) =
    resolvePreferredAccountId fallback (table_accounts table ch def)).
Proof.
  intros Hch. cbv zeta.
  pose proof (listBoundAccountIds_Permutation bundled runtime cfg channelId ch Hch) as Hp.
  assert (forall agent account,
    account ∈ table_accounts (buildChannelAccountBindings bundled runtime cfg) ch agent <->
    exists r, r ∈ resolved_bindings bundled runtime cfg /\ nm_channelId r = ch /\
      nm_agentId r = agent /\ nm_accountId r = account) as Htab.
  { intros agent account. rewrite buildChannelAccountBindings_spec, elem_of_js_set, list_elem_of_fmap.
    setoid_rewrite list_elem_of_In. setoid_rewrite List.filter_In.
    unfold agent_match, channel_match. setoid_rewrite andb_true_iff.
    setoid_rewrite bool_decide_eq_true. naive_solver. }
  split_and!.
  - intros agent account. rewrite Htab. unfold resolved_bindings. setoid_rewrite list_elem_of_omap.
    split; [intros ([] & (b & Hb & Hr) & H); naive_solver|naive_solver].
  - intros agent. rewrite buildChannelAccountBindings_spec. apply NoDup_js_set.
  - rewrite Hp. apply NoDup_js_set.
  - unfold listBoundAccountIds. rewrite Hch. apply locale_sort_sorted.
  - intros account. rewrite Hp, elem_of_js_set, list_elem_of_fmap. setoid_rewrite Htab.
    setoid_rewrite list_elem_of_In. setoid_rewrite List.filter_In.
    unfold channel_match. setoid_rewrite bool_decide_eq_true. naive_solver.
  - intros fallback. unfold resolveDefaultAgentBoundAccountId. rewrite Hch.
    rewrite buildChannelAccountBindings_spec, find_first_head. fold (resolved_bindings bundled runtime cfg).
    change (fun resolved : NormalizedRouteBindingMatch => _) with
      (agent_match ch (normalizeAgentId (Some (resolveDefaultAgentId cfg)))).
    set (l := List.filter _ _).
    rewrite resolvePreferredAccountId_head, js_set_head. by destruct l.
Qed.

Definition example_bound_cfg : Config :=
  let bind agent account := {| ab_type := None; ab_agentId := lit agent;
    ab_match := Some {| bm_channel := Some (lit "Telegram"); bm_accountId := Some (lit account);
      bm_peer := None; bm_guildId := VUndefined; bm_teamId := VUndefined; bm_roles := None |};
    ab_dmScope := None |} in
  {| cfg_agents := None; cfg_session := None;
     cfg_bindings := Some [bind "main" "work"; bind "dev" "alt"; bind "main" "home"; bind "dev" "work"] |}.

Lemma bound_accounts_agree_witness :
  listBoundAccountIds [] [] example_bound_cfg (lit "telegram") = [lit "alt"; lit "home"; lit "work"] /\
  default (lit "x") (resolveDefaultAgentBoundAccountId [] [] example_bound_cfg (lit "telegram")) =
    lit "work".
Proof.
  split; [by vm_compute|].
  destruct (bound_accounts_agree [] [] example_bound_cfg (lit "telegram") (lit "telegram"))
    as (_ & _ & _ & ->); by vm_compute.
Defined.
