(* ===== verification/ResolveRoute.v ===== *)
(** * Route resolution

    [src/routing/resolve-route.ts] without its caches (those are in
    [RouteCache.v]): the evaluation of the configured bindings, the per-account
    index, the tiers, and the route that is chosen.

    The main theorem says that the indexed search equals a linear scan of the
    configured bindings, tier by tier. *)
From S2P Require Import Prelude JsString JsMap Normalization SessionKeyUtils SessionKey RouteConfig.

(** ** Data *)

Record RoutePeer := { rp_kind : ChatType; rp_id : jstr }.

(** The arguments of [resolveAgentRoute] besides the configuration; ids have
    the type [unknown] that [normalizeId] accepts. *)
Record ResolveAgentRouteInput := {
  ri_channel : jstr;
  ri_accountId : option jstr;
  ri_peer : option (ChatType * jsval);
  ri_parentPeer : option (ChatType * jsval);
  ri_guildId : jsval;
  ri_teamId : jsval;
  ri_memberRoleIds : option (list jstr);
}.

Inductive MatchedBy :=
  | ByPeer | ByPeerParent | ByPeerWildcard | ByGuildRoles | ByGuild | ByTeam
  | ByAccount | ByChannel | ByDefault.

#[global] Instance MatchedBy_eq_dec : EqDecision MatchedBy.
Proof. solve_decision. Defined.

Inductive LastRoutePolicy := PolicyMain | PolicySession.

Record ResolvedAgentRoute := {
  ra_agentId : jstr;
  ra_channel : jstr;
  ra_accountId : jstr;
  ra_dmScope : DmScope;
  ra_sessionKey : jstr;
  ra_mainSessionKey : jstr;
  ra_lastRoutePolicy : LastRoutePolicy;
  ra_matchedBy : MatchedBy;
}.

Definition deriveLastRoutePolicy (sessionKey mainSessionKey : jstr) : LastRoutePolicy :=
  if decide (sessionKey = mainSessionKey) then PolicyMain else PolicySession.

Definition resolveInboundLastRouteSessionKey (lastRoutePolicy : LastRoutePolicy)
    (mainSessionKey sessionKey : jstr) : jstr :=
  match lastRoutePolicy with PolicyMain => mainSessionKey | PolicySession => sessionKey end.

Definition buildAgentSessionKey (agentId : jstr) (mainKey : option jstr) (channel : jstr)
    (accountId : option jstr) (peer : option RoutePeer) (dmScope : option DmScope)
    (identityLinks : option IdentityLinks) : jstr :=
  let channel := str_or (normalizeToken (Some channel)) (lit "unknown") in
  buildAgentPeerSessionKey agentId (Some (default DEFAULT_MAIN_KEY mainKey)) channel accountId
    (Some (default Direct (rp_kind <$> peer)))
    ((fun p => str_or (normalizeRouteBindingId (VString (rp_id p))) (lit "unknown")) <$> peer)
    identityLinks dmScope.

(** ** Agents *)

Record AgentLookup := {
  al_byNormalizedId : list (jstr * jstr);
  al_fallbackDefaultAgentId : jstr;
}.

Definition buildAgentLookup (cfg : Config) : AgentLookup :=
  {| al_byNormalizedId :=
       foldl (fun m agent =>
         match trim <$> ae_id agent with
         | None => m
         | Some rawId =>
             if negb (truthy rawId) then m
             else jm_set (normalizeAgentId (Some rawId)) (sanitizeAgentId (Some rawId)) m
         end) [] (listAgentEntries cfg);
     al_fallbackDefaultAgentId := sanitizeAgentId (Some (resolveDefaultAgentId cfg)) |}.

Definition pickFirstExistingAgentId (lookup : AgentLookup) (agentId : jstr) : jstr :=
  let trimmed := trim agentId in
  if negb (truthy trimmed) then al_fallbackDefaultAgentId lookup
  else
    let normalized := normalizeAgentId (Some trimmed) in
    match al_byNormalizedId lookup with
    | [] => sanitizeAgentId (Some trimmed)
    | _ =>
        let resolved := jm_get normalized (al_byNormalizedId lookup) in
        if truthy_opt resolved then or_empty resolved else al_fallbackDefaultAgentId lookup
    end.

(** ** Bindings *)

Inductive NormalizedPeerConstraint :=
  | PeerNone
  | PeerInvalid
  | PeerWildcardKind (kind : ChatType)
  | PeerValid (kind : ChatType) (id : jstr).

#[global] Instance NormalizedPeerConstraint_eq_dec : EqDecision NormalizedPeerConstraint.
Proof. solve_decision. Defined.

Record NormalizedBindingMatch := {
  nb_accountPattern : jstr;
  nb_peer : NormalizedPeerConstraint;
  nb_guildId : option jstr;
  nb_teamId : option jstr;
  nb_roles : option (list jstr);
}.

(** [eb_order] is the identity of an evaluated binding. *)
Record EvaluatedBinding := {
  eb_binding : AgentBinding;
  eb_match : NormalizedBindingMatch;
  eb_order : nat;
}.

Record EvaluatedBindingsByChannel := {
  bc_byAccount : list (jstr * list EvaluatedBinding);
  bc_byAnyAccount : list EvaluatedBinding;
}.

Record EvaluatedBindingsIndex := {
  ix_byPeer : list (jstr * list EvaluatedBinding);
  ix_byPeerWildcard : list EvaluatedBinding;
  ix_byGuildWithRoles : list (jstr * list EvaluatedBinding);
  ix_byGuild : list (jstr * list EvaluatedBinding);
  ix_byTeam : list (jstr * list EvaluatedBinding);
  ix_byAccount : list EvaluatedBinding;
  ix_byChannel : list EvaluatedBinding;
}.

Definition star : jstr := lit "*".

Definition resolveAccountPatternKey (accountPattern : jstr) : jstr :=
  if negb (truthy (trim accountPattern)) then DEFAULT_ACCOUNT_ID
  else normalizeAccountId (Some accountPattern).

Definition normalizePeerConstraint (peer : option BindingPeer) : NormalizedPeerConstraint :=
  match peer with
  | None => PeerNone
  | Some peer =>
      let kind := normalizeChatType (bp_kind peer) in
      let id := normalizeRouteBindingId (bp_id peer) in
      match kind with
      | None => PeerInvalid
      | Some kind =>
          if negb (truthy id) then PeerInvalid
          else if bool_decide (id = star) then PeerWildcardKind kind
          else PeerValid kind id
      end
  end.

Definition normalizeBindingMatch (m : option AgentBindingMatch) : NormalizedBindingMatch :=
  {| nb_accountPattern := trim (or_empty (m ≫= bm_accountId));
     nb_peer := normalizePeerConstraint (m ≫= bm_peer);
     nb_guildId := non_empty (normalizeRouteBindingId (default VUndefined (bm_guildId <$> m)));
     nb_teamId := non_empty (normalizeRouteBindingId (default VUndefined (bm_teamId <$> m)));
     nb_roles := normalizeRouteBindingRoles (m ≫= bm_roles) |}.

(** One turn of the loop of [buildEvaluatedBindingsByChannel]: the running
    order and the table. *)
Definition evaluateBinding (state : nat * list (jstr * EvaluatedBindingsByChannel))
    (binding : AgentBinding) : nat * list (jstr * EvaluatedBindingsByChannel) :=
  let '(order, byChannel) := state in
  let channel := normalizeToken (ab_match binding ≫= bm_channel) in
  if negb (truthy channel) then (order, byChannel)
  else
    let evaluated :=
      {| eb_binding := binding; eb_match := normalizeBindingMatch (ab_match binding);
         eb_order := order |} in
    let bucket :=
      default {| bc_byAccount := []; bc_byAnyAccount := [] |} (jm_get channel byChannel) in
    let bucket :=
      if bool_decide (nb_accountPattern (eb_match evaluated) = star)
      then {| bc_byAccount := bc_byAccount bucket;
              bc_byAnyAccount := bc_byAnyAccount bucket ++ [evaluated] |}
      else
        let accountKey := resolveAccountPatternKey (nb_accountPattern (eb_match evaluated)) in
        let existing := default [] (jm_get accountKey (bc_byAccount bucket)) in
        {| bc_byAccount := jm_set accountKey (existing ++ [evaluated]) (bc_byAccount bucket);
           bc_byAnyAccount := bc_byAnyAccount bucket |} in
    (S order, jm_set channel bucket byChannel).

Definition buildEvaluatedBindingsByChannel (cfg : Config)
    : list (jstr * EvaluatedBindingsByChannel) :=
  (foldl evaluateBinding (0, []) (listBindings cfg)).2.

(** The two-pointer merge by order; ties take the account-scoped side. *)
Fixpoint merge_by_order (accountScoped : list EvaluatedBinding) :=
  fix go (anyAccount : list EvaluatedBinding) : list EvaluatedBinding :=
    match accountScoped, anyAccount with
    | [], _ => anyAccount
    | _, [] => accountScoped
    | x :: accountScoped', y :: anyAccount' =>
        if (eb_order x <=? eb_order y)%nat
        then x :: merge_by_order accountScoped' anyAccount
        else y :: go anyAccount'
    end.

Definition mergeEvaluatedBindingsInSourceOrder (accountScoped anyAccount : list EvaluatedBinding)
    : list EvaluatedBinding :=
  match accountScoped, anyAccount with
  | [], _ => anyAccount
  | _, [] => accountScoped
  | _, _ => merge_by_order accountScoped anyAccount
  end.

(** What [getEvaluatedBindingsForChannelAccount] computes on a cache miss. *)
Definition lookupChannelAccount (byChannel : list (jstr * EvaluatedBindingsByChannel))
    (channel accountId : jstr) : list EvaluatedBinding :=
  let channelBindings := jm_get channel byChannel in
  let accountScoped :=
    default [] (channelBindings ≫= fun b => jm_get accountId (bc_byAccount b)) in
  let anyAccount := default [] (bc_byAnyAccount <$> channelBindings) in
  mergeEvaluatedBindingsInSourceOrder accountScoped anyAccount.

Definition pushToIndexMap (m : list (jstr * list EvaluatedBinding)) (key : option jstr)
    (binding : EvaluatedBinding) : list (jstr * list EvaluatedBinding) :=
  match key with
  | None => m
  | Some key =>
      if negb (truthy key) then m
      else jm_set key (default [] (jm_get key m) ++ [binding]) m
  end.

Definition peer_key (kind : ChatType) (id : jstr) : jstr :=
  chat_type_name kind ++ lit ":" ++ id.

Definition peerLookupKeys (kind : ChatType) (id : jstr) : list jstr :=
  match kind with
  | Group => [peer_key Group id; peer_key Channel id]
  | Channel => [peer_key Channel id; peer_key Group id]
  | Direct => [peer_key Direct id]
  end.

(** The collection loop: the bindings under each key that were not yet seen. *)
Fixpoint collect_new (out matches : list EvaluatedBinding) : list EvaluatedBinding :=
  match matches with
  | [] => out
  | m :: matches =>
      if existsb (fun s => eb_order s =? eb_order m)%nat out then collect_new out matches
      else collect_new (out ++ [m]) matches
  end.

Definition collectPeerIndexedBindings (index : EvaluatedBindingsIndex) (peer : option RoutePeer)
    : list EvaluatedBinding :=
  match peer with
  | None => []
  | Some peer =>
      foldl (fun out key => collect_new out (default [] (jm_get key (ix_byPeer index)))) []
        (peerLookupKeys (rp_kind peer) (rp_id peer))
  end.

Definition empty_index : EvaluatedBindingsIndex :=
  {| ix_byPeer := []; ix_byPeerWildcard := []; ix_byGuildWithRoles := []; ix_byGuild := [];
     ix_byTeam := []; ix_byAccount := []; ix_byChannel := [] |}.

Definition index_binding (ix : EvaluatedBindingsIndex) (b : EvaluatedBinding)
    : EvaluatedBindingsIndex :=
  let m := eb_match b in
  let with_peer x := {| ix_byPeer := x; ix_byPeerWildcard := ix_byPeerWildcard ix;
    ix_byGuildWithRoles := ix_byGuildWithRoles ix; ix_byGuild := ix_byGuild ix;
    ix_byTeam := ix_byTeam ix; ix_byAccount := ix_byAccount ix; ix_byChannel := ix_byChannel ix |} in
  let with_wildcard x := {| ix_byPeer := ix_byPeer ix; ix_byPeerWildcard := x;
    ix_byGuildWithRoles := ix_byGuildWithRoles ix; ix_byGuild := ix_byGuild ix;
    ix_byTeam := ix_byTeam ix; ix_byAccount := ix_byAccount ix; ix_byChannel := ix_byChannel ix |} in
  let with_guild_roles x := {| ix_byPeer := ix_byPeer ix; ix_byPeerWildcard := ix_byPeerWildcard ix;
    ix_byGuildWithRoles := x; ix_byGuild := ix_byGuild ix;
    ix_byTeam := ix_byTeam ix; ix_byAccount := ix_byAccount ix; ix_byChannel := ix_byChannel ix |} in
  let with_guild x := {| ix_byPeer := ix_byPeer ix; ix_byPeerWildcard := ix_byPeerWildcard ix;
    ix_byGuildWithRoles := ix_byGuildWithRoles ix; ix_byGuild := x;
    ix_byTeam := ix_byTeam ix; ix_byAccount := ix_byAccount ix; ix_byChannel := ix_byChannel ix |} in
  let with_team x := {| ix_byPeer := ix_byPeer ix; ix_byPeerWildcard := ix_byPeerWildcard ix;
    ix_byGuildWithRoles := ix_byGuildWithRoles ix; ix_byGuild := ix_byGuild ix;
    ix_byTeam := x; ix_byAccount := ix_byAccount ix; ix_byChannel := ix_byChannel ix |} in
  let with_account x := {| ix_byPeer := ix_byPeer ix; ix_byPeerWildcard := ix_byPeerWildcard ix;
    ix_byGuildWithRoles := ix_byGuildWithRoles ix; ix_byGuild := ix_byGuild ix;
    ix_byTeam := ix_byTeam ix; ix_byAccount := x; ix_byChannel := ix_byChannel ix |} in
  let with_channel x := {| ix_byPeer := ix_byPeer ix; ix_byPeerWildcard := ix_byPeerWildcard ix;
    ix_byGuildWithRoles := ix_byGuildWithRoles ix; ix_byGuild := ix_byGuild ix;
    ix_byTeam := ix_byTeam ix; ix_byAccount := ix_byAccount ix; ix_byChannel := x |} in
  match nb_peer m with
  | PeerValid kind id =>
      with_peer (foldl (fun byPeer key => pushToIndexMap byPeer (Some key) b)
        (ix_byPeer ix) (peerLookupKeys kind id))
  | PeerWildcardKind _ => with_wildcard (ix_byPeerWildcard ix ++ [b])
  | PeerNone | PeerInvalid =>
      if truthy_opt (nb_guildId m) && bool_decide (is_Some (nb_roles m))
      then with_guild_roles (pushToIndexMap (ix_byGuildWithRoles ix) (nb_guildId m) b)
      else if truthy_opt (nb_guildId m) && negb (bool_decide (is_Some (nb_roles m)))
      then with_guild (pushToIndexMap (ix_byGuild ix) (nb_guildId m) b)
      else if truthy_opt (nb_teamId m)
      then with_team (pushToIndexMap (ix_byTeam ix) (nb_teamId m) b)
      else if negb (bool_decide (nb_accountPattern m = star))
      then with_account (ix_byAccount ix ++ [b])
      else with_channel (ix_byChannel ix ++ [b])
  end.

Definition buildEvaluatedBindingsIndex (bindings : list EvaluatedBinding)
    : EvaluatedBindingsIndex :=
  foldl index_binding empty_index bindings.

(** ** Matching *)

Record BindingScope := {
  bs_peer : option RoutePeer;
  bs_guildId : jstr;
  bs_teamId : jstr;
  bs_memberRoleIds : list jstr;
}.

Definition hasGuildConstraint (m : NormalizedBindingMatch) : bool := truthy_opt (nb_guildId m).
Definition hasTeamConstraint (m : NormalizedBindingMatch) : bool := truthy_opt (nb_teamId m).
Definition hasRolesConstraint (m : NormalizedBindingMatch) : bool :=
  bool_decide (is_Some (nb_roles m)).

Definition matchesBindingScope (m : NormalizedBindingMatch) (scope : BindingScope) : bool :=
  let scoped :=
    routeBindingScopeMatches (nb_guildId m) (nb_teamId m) (nb_roles m)
      (VString (bs_guildId scope)) (VString (bs_teamId scope)) VUndefined
      (Some (bs_memberRoleIds scope)) in
  match nb_peer m with
  | PeerInvalid => false
  | PeerValid kind id =>
      match bs_peer scope with
      | None => false
      | Some p =>
          if negb (peerKindMatches kind (rp_kind p)) || negb (bool_decide (rp_id p = id))
          then false else scoped
      end
  | PeerWildcardKind kind =>
      match bs_peer scope with
      | None => false
      | Some p => if negb (peerKindMatches kind (rp_kind p)) then false else scoped
      end
  | PeerNone => scoped
  end.

(** ** Resolution *)

(** The arguments after the normalisation at the head of [resolveAgentRoute]. *)
Record RouteQuery := {
  rq_channel : jstr;
  rq_accountId : jstr;
  rq_peer : option RoutePeer;
  rq_parentPeer : option RoutePeer;
  rq_guildId : jstr;
  rq_teamId : jstr;
  rq_memberRoleIds : list jstr;
}.

Definition normalizeRoutePeer (p : ChatType * jsval) : RoutePeer :=
  {| rp_kind := default p.1 (normalizeChatType (Some (chat_type_name p.1)));
     rp_id := normalizeRouteBindingId p.2 |}.

Definition normalizeRouteInput (input : ResolveAgentRouteInput) : RouteQuery :=
  {| rq_channel := normalizeToken (Some (ri_channel input));
     rq_accountId := normalizeAccountId (ri_accountId input);
     rq_peer := normalizeRoutePeer <$> ri_peer input;
     rq_parentPeer := normalizeRoutePeer <$> ri_parentPeer input;
     rq_guildId := normalizeRouteBindingId (ri_guildId input);
     rq_teamId := normalizeRouteBindingId (ri_teamId input);
     rq_memberRoleIds := default [] (ri_memberRoleIds input) |}.

Record RouteTier := {
  rt_matchedBy : MatchedBy;
  rt_enabled : bool;
  rt_scopePeer : option RoutePeer;
  rt_candidates : list EvaluatedBinding;
  rt_predicate : EvaluatedBinding -> bool;
}.

Definition is_valid_peer (b : EvaluatedBinding) : bool :=
  match nb_peer (eb_match b) with PeerValid _ _ => true | _ => false end.
Definition is_wildcard_peer (b : EvaluatedBinding) : bool :=
  match nb_peer (eb_match b) with PeerWildcardKind _ => true | _ => false end.

Definition index_bucket (guildId : jstr) (m : list (jstr * list EvaluatedBinding))
    : list EvaluatedBinding :=
  if truthy guildId then default [] (jm_get guildId m) else [].

Definition routeTiers (index : EvaluatedBindingsIndex) (q : RouteQuery) : list RouteTier :=
  let peer := rq_peer q in
  let parentPeer := rq_parentPeer q in
  let parent_with_id :=
    match parentPeer with
    | Some p => if truthy (rp_id p) then Some p else None
    | None => None
    end in
  [ {| rt_matchedBy := ByPeer; rt_enabled := bool_decide (is_Some peer);
       rt_scopePeer := peer; rt_candidates := collectPeerIndexedBindings index peer;
       rt_predicate := is_valid_peer |};
    {| rt_matchedBy := ByPeerParent; rt_enabled := bool_decide (is_Some parent_with_id);
       rt_scopePeer := parent_with_id;
       rt_candidates := collectPeerIndexedBindings index parentPeer;
       rt_predicate := is_valid_peer |};
    {| rt_matchedBy := ByPeerWildcard; rt_enabled := bool_decide (is_Some peer);
       rt_scopePeer := peer; rt_candidates := ix_byPeerWildcard index;
       rt_predicate := is_wildcard_peer |};
    {| rt_matchedBy := ByGuildRoles;
       rt_enabled := truthy (rq_guildId q) && (0 <? length (rq_memberRoleIds q))%nat;
       rt_scopePeer := peer;
       rt_candidates := index_bucket (rq_guildId q) (ix_byGuildWithRoles index);
       rt_predicate := fun c => hasGuildConstraint (eb_match c) && hasRolesConstraint (eb_match c) |};
    {| rt_matchedBy := ByGuild; rt_enabled := truthy (rq_guildId q);
       rt_scopePeer := peer; rt_candidates := index_bucket (rq_guildId q) (ix_byGuild index);
       rt_predicate := fun c =>
         hasGuildConstraint (eb_match c) && negb (hasRolesConstraint (eb_match c)) |};
    {| rt_matchedBy := ByTeam; rt_enabled := truthy (rq_teamId q);
       rt_scopePeer := peer; rt_candidates := index_bucket (rq_teamId q) (ix_byTeam index);
       rt_predicate := fun c => hasTeamConstraint (eb_match c) |};
    {| rt_matchedBy := ByAccount; rt_enabled := true;
       rt_scopePeer := peer; rt_candidates := ix_byAccount index;
       rt_predicate := fun c => negb (bool_decide (nb_accountPattern (eb_match c) = star)) |};
    {| rt_matchedBy := ByChannel; rt_enabled := true;
       rt_scopePeer := peer; rt_candidates := ix_byChannel index;
       rt_predicate := fun c => bool_decide (nb_accountPattern (eb_match c) = star) |} ].

Definition tier_scope (q : RouteQuery) (scopePeer : option RoutePeer) : BindingScope :=
  {| bs_peer := scopePeer; bs_guildId := rq_guildId q; bs_teamId := rq_teamId q;
     bs_memberRoleIds := rq_memberRoleIds q |}.

Definition tier_find (q : RouteQuery) (tier : RouteTier) : option EvaluatedBinding :=
  find_first (fun c =>
    rt_predicate tier c && matchesBindingScope (eb_match c) (tier_scope q (rt_scopePeer tier)))
    (rt_candidates tier).

(** The loop over the tiers. *)
Fixpoint search_tiers (q : RouteQuery) (tiers : list RouteTier)
    : option (EvaluatedBinding * MatchedBy) :=
  match tiers with
  | [] => None
  | tier :: tiers =>
      if negb (rt_enabled tier) then search_tiers q tiers
      else match tier_find q tier with
           | Some matched => Some (matched, rt_matchedBy tier)
           | None => search_tiers q tiers
           end
  end.

(** [choose]. *)
Definition chooseRoute (lookup : AgentLookup) (session : option SessionConfig) (q : RouteQuery)
    (agentId : jstr) (matchedBy : MatchedBy) (sessionOverride : option DmScope)
    : ResolvedAgentRoute :=
  let dmScope := default DmMain (session ≫= sc_dmScope) in
  let identityLinks := session ≫= sc_identityLinks in
  let mainKey := session ≫= sc_mainKey in
  let resolvedAgentId := pickFirstExistingAgentId lookup agentId in
  let effectiveDmScope := default dmScope sessionOverride in
  let sessionKey :=
    buildAgentSessionKey resolvedAgentId mainKey (rq_channel q) (Some (rq_accountId q))
      (rq_peer q) (Some effectiveDmScope) identityLinks in
  let mainSessionKey :=
    normalizeLowercaseStringOrEmpty
      (VString (buildAgentMainSessionKey resolvedAgentId mainKey)) in
  {| ra_agentId := resolvedAgentId; ra_channel := rq_channel q;
     ra_accountId := rq_accountId q; ra_dmScope := effectiveDmScope;
     ra_sessionKey := sessionKey; ra_mainSessionKey := mainSessionKey;
     ra_lastRoutePolicy := deriveLastRoutePolicy sessionKey mainSessionKey;
     ra_matchedBy := matchedBy |}.

(** The route once the binding search is done. *)
Definition routeOfMatch (cfg : Config) (q : RouteQuery)
    (found : option (EvaluatedBinding * MatchedBy)) : ResolvedAgentRoute :=
  let lookup := buildAgentLookup cfg in
  match found with
  | Some (matched, matchedBy) =>
      chooseRoute lookup (cfg_session cfg) q (ab_agentId (eb_binding matched)) matchedBy
        (ab_dmScope (eb_binding matched))
  | None => chooseRoute lookup (cfg_session cfg) q (resolveDefaultAgentId cfg) ByDefault None
  end.

(** [resolveAgentRoute] with every cache missed. *)
Definition resolveRouteQuery (cfg : Config) (q : RouteQuery) : ResolvedAgentRoute :=
  let bindings :=
    lookupChannelAccount (buildEvaluatedBindingsByChannel cfg) (rq_channel q) (rq_accountId q) in
  let index := buildEvaluatedBindingsIndex bindings in
  routeOfMatch cfg q (search_tiers q (routeTiers index q)).

Definition resolveAgentRoute_uncached (cfg : Config) (input : ResolveAgentRouteInput)
    : ResolvedAgentRoute :=
  resolveRouteQuery cfg (normalizeRouteInput input).
