(* ===== verification/RouteRefinement.v ===== *)
(** * Route resolution refines a linear scan

    The reference definition of routing keeps the configured bindings in one
    list and asks, tier by tier, for the first binding of the tier's class that
    matches the query: no table per channel, no merge, no index, no enabling
    conditions.  [ResolveRoute] builds all of these; the theorems here say that
    none of them is observable, and what holds of every route. *)
From S2P Require Import Prelude JsString JsMap Normalization SessionKeyUtils SessionKey RouteConfig.
From S2P Require Import ResolveRoute.

(** ** The reference *)

(** The evaluated bindings with their channels, in source order. *)
Fixpoint evaluate_from (order : nat) (bindings : list AgentBinding)
    : list (jstr * EvaluatedBinding) :=
  match bindings with
  | [] => []
  | b :: bindings =>
      let channel := normalizeToken (ab_match b ≫= bm_channel) in
      if truthy channel then
        (channel, {| eb_binding := b; eb_match := normalizeBindingMatch (ab_match b);
                     eb_order := order |}) :: evaluate_from (S order) bindings
      else evaluate_from order bindings
  end.

Definition is_any_account (b : EvaluatedBinding) : bool :=
  bool_decide (nb_accountPattern (eb_match b) = star).

Definition for_account (accountId : jstr) (b : EvaluatedBinding) : bool :=
  negb (is_any_account b)
  && bool_decide (resolveAccountPatternKey (nb_accountPattern (eb_match b)) = accountId).

Definition in_channel (channel : jstr) (ce : jstr * EvaluatedBinding) : bool :=
  bool_decide (ce.1 = channel).

(** The bindings of a channel and account, in source order. *)
Definition channel_account_bindings (cfg : Config) (channel accountId : jstr)
    : list EvaluatedBinding :=
  List.filter (fun b => for_account accountId b || is_any_account b)
    (snd <$> List.filter (in_channel channel) (evaluate_from 0 (listBindings cfg))).

(** The class of a binding is the one tier that may choose it ([ByPeer] also
    stands for the parent peer's tier). *)
Definition binding_class (b : EvaluatedBinding) : MatchedBy :=
  let m := eb_match b in
  match nb_peer m with
  | PeerValid _ _ => ByPeer
  | PeerWildcardKind _ => ByPeerWildcard
  | _ =>
      if hasGuildConstraint m then if hasRolesConstraint m then ByGuildRoles else ByGuild
      else if hasTeamConstraint m then ByTeam
      else if is_any_account b then ByChannel else ByAccount
  end.

Definition linear_find (q : RouteQuery) (class : MatchedBy) (peer : option RoutePeer)
    (bindings : list EvaluatedBinding) : option EvaluatedBinding :=
  find_first (fun b => bool_decide (binding_class b = class)
    && matchesBindingScope (eb_match b) (tier_scope q peer)) bindings.

Fixpoint first_tier (tiers : list (MatchedBy * option EvaluatedBinding))
    : option (EvaluatedBinding * MatchedBy) :=
  match tiers with
  | [] => None
  | (by_, Some b) :: _ => Some (b, by_)
  | (_, None) :: tiers => first_tier tiers
  end.

Definition linear_search (q : RouteQuery) (bindings : list EvaluatedBinding)
    : option (EvaluatedBinding * MatchedBy) :=
  let peer := rq_peer q in
  first_tier
    [ (ByPeer, linear_find q ByPeer peer bindings);
      (ByPeerParent, linear_find q ByPeer (rq_parentPeer q) bindings);
      (ByPeerWildcard, linear_find q ByPeerWildcard peer bindings);
      (ByGuildRoles, linear_find q ByGuildRoles peer bindings);
      (ByGuild, linear_find q ByGuild peer bindings);
      (ByTeam, linear_find q ByTeam peer bindings);
      (ByAccount, linear_find q ByAccount peer bindings);
      (ByChannel, linear_find q ByChannel peer bindings) ].

(** The route of a query, by the reference. *)
Definition linear_route (cfg : Config) (q : RouteQuery) : ResolvedAgentRoute :=
  routeOfMatch cfg q
    (linear_search q (channel_account_bindings cfg (rq_channel q) (rq_accountId q))).

(** ** Orders *)

Definition sorted_orders (l : list EvaluatedBinding) : Prop :=
  StronglySorted (fun a b => eb_order a < eb_order b)%nat l.

Lemma evaluate_from_orders n bs :
  Forall (fun e => n <= eb_order e.2)%nat (evaluate_from n bs).
Proof.
  revert n. induction bs as [|b bs IH]; intros n; simpl; [constructor|].
  destruct (truthy _); [|apply IH]. constructor; [simpl; lia|].
  eapply Forall_impl; [apply IH|]. simpl. lia.
Qed.

Lemma evaluate_from_sorted n bs : sorted_orders (evaluate_from n bs).*2.
Proof.
  unfold sorted_orders. revert n. induction bs as [|b bs IH]; intros n; simpl; [constructor|].
  destruct (truthy _); [|apply IH]. rewrite fmap_cons. constructor; [apply IH|].
  rewrite Forall_fmap. eapply Forall_impl; [apply (evaluate_from_orders (S n))|]. simpl. lia.
Qed.

Lemma Forall_list_filter {A} (P : A -> Prop) p l : Forall P l -> Forall P (List.filter p l).
Proof. induction 1; simpl; [constructor|]. destruct (p _); auto. Qed.

Lemma sorted_orders_filter p l : sorted_orders l -> sorted_orders (List.filter p l).
Proof.
  unfold sorted_orders. induction 1 as [|x l Hs IH Hf]; simpl; [constructor|].
  destruct (p x); [|done]. constructor; auto using Forall_list_filter.
Qed.

Lemma sorted_orders_filter_map p (l : list (jstr * EvaluatedBinding)) :
  sorted_orders l.*2 -> sorted_orders (List.filter p l).*2.
Proof.
  unfold sorted_orders. induction l as [|x l IH]; cbn [List.filter]; [done|].
  rewrite fmap_cons. intros [Hs Hf]%StronglySorted_inv. destruct (p x); [|auto].
  rewrite fmap_cons. constructor; [auto|]. rewrite Forall_fmap in Hf |- *.
  by apply Forall_list_filter.
Qed.

Lemma channel_account_bindings_sorted cfg ch acc :
  sorted_orders (channel_account_bindings cfg ch acc).
Proof.
  apply sorted_orders_filter, sorted_orders_filter_map, evaluate_from_sorted.
Qed.

(** ** The merge *)

Lemma merge_by_order_nil_r xs : merge_by_order xs [] = xs.
Proof. by destruct xs. Qed.

Lemma mergeEvaluated_eq xs ys :
  mergeEvaluatedBindingsInSourceOrder xs ys = merge_by_order xs ys.
Proof. by destruct xs, ys. Qed.

Lemma merge_cons_l x xs ys :
  Forall (fun y => eb_order x < eb_order y)%nat ys ->
  merge_by_order (x :: xs) ys = x :: merge_by_order xs ys.
Proof.
  destruct ys as [|y ys]; [by rewrite !merge_by_order_nil_r|].
  intros [? _]%Forall_cons. simpl. by rewrite (proj2 (Nat.leb_le _ _)) by lia.
Qed.

Lemma merge_cons_r y xs ys :
  Forall (fun x => eb_order y < eb_order x)%nat xs ->
  merge_by_order xs (y :: ys) = y :: merge_by_order xs ys.
Proof.
  destruct xs as [|x xs]; [by destruct ys|].
  intros [? _]%Forall_cons. simpl. by rewrite (proj2 (Nat.leb_gt _ _)) by lia.
Qed.

(** Merging two disjoint sublists by order gives the sublist of both. *)
Lemma merge_filters p q l :
  sorted_orders l -> (forall x, p x = true -> q x = true -> False) ->
  merge_by_order (List.filter p l) (List.filter q l) = List.filter (fun x => p x || q x) l.
Proof.
  intros Hs Hpq. unfold sorted_orders in Hs.
  induction Hs as [|x l Hs IH Hf]; cbn [List.filter]; [done|].
  destruct (p x) eqn:Ep; cbn [orb].
  - destruct (q x) eqn:Eq; [by destruct (Hpq x)|].
    by rewrite merge_cons_l, IH by auto using Forall_list_filter.
  - destruct (q x) eqn:Eq; [|done].
    by rewrite merge_cons_r, IH by auto using Forall_list_filter.
Qed.

(** ** The table per channel *)

Definition scoped_of (m : list (jstr * EvaluatedBindingsByChannel)) (ch acc : jstr) :=
  default [] (jm_get ch m ≫= fun b => jm_get acc (bc_byAccount b)).
Definition any_of (m : list (jstr * EvaluatedBindingsByChannel)) (ch : jstr) :=
  default [] (bc_byAnyAccount <$> jm_get ch m).

(** What one binding adds to each bucket. *)
Lemma evaluateBinding_spec n m b :
  let m' := evaluateBinding (n, m) b in
  let new := evaluate_from n [b] in
  m'.1 = (n + length new)%nat /\
  (forall ch acc, scoped_of m'.2 ch acc =
    scoped_of m ch acc ++ List.filter (for_account acc) (List.filter (in_channel ch) new).*2) /\
  (forall ch, any_of m'.2 ch =
    any_of m ch ++ List.filter is_any_account (List.filter (in_channel ch) new).*2).
Proof.
  unfold evaluateBinding, scoped_of, any_of. cbn [evaluate_from].
  set (ch0 := normalizeToken (ab_match b ≫= bm_channel)).
  destruct (truthy ch0) eqn:Hch; cbn [negb fst snd List.filter].
  2:{ rewrite Nat.add_0_r. split_and!; [done| |]; intros; by rewrite app_nil_r. }
  set (e := {| eb_binding := b; eb_match := normalizeBindingMatch (ab_match b); eb_order := n |}).
  split_and!; [simpl; lia| |].
  - intros ch acc. rewrite jm_get_set. unfold in_channel. cbn [fst].
    destruct (decide (ch = ch0)) as [->|Hne].
    2:{ rewrite (bool_decide_eq_false_2 (ch0 = ch)) by congruence.
        cbn. by rewrite app_nil_r. }
    rewrite (bool_decide_eq_true_2 (ch0 = ch0)) by done. cbn [fmap list_fmap snd List.filter].
    unfold for_account, is_any_account. cbn [eb_match e].
    case_bool_decide as Hs; cbn [bc_byAccount negb andb].
    + destruct (jm_get ch0 m); cbn; by rewrite ?app_nil_r.
    + cbn [mbind option_bind bc_byAccount]. rewrite jm_get_set.
      destruct (decide (acc = _)) as [->|].
      * rewrite bool_decide_eq_true_2 by done. by destruct (jm_get ch0 m); cbn.
      * rewrite bool_decide_eq_false_2 by congruence.
        destruct (jm_get ch0 m); cbn; by rewrite ?app_nil_r.
  - intros ch. rewrite jm_get_set. unfold in_channel. cbn [fst].
    destruct (decide (ch = ch0)) as [->|Hne].
    2:{ rewrite (bool_decide_eq_false_2 (ch0 = ch)) by congruence.
        cbn. by rewrite app_nil_r. }
    rewrite (bool_decide_eq_true_2 (ch0 = ch0)) by done. cbn [fmap list_fmap snd List.filter].
    unfold is_any_account. cbn [eb_match e option_fmap option_map].
    case_bool_decide as Hs; cbn [bc_byAnyAccount default];
      destruct (jm_get ch0 m); cbn; by rewrite ?app_nil_r.
Qed.

Lemma evaluate_from_cons n b bs :
  evaluate_from n (b :: bs) =
  evaluate_from n [b] ++ evaluate_from (n + length (evaluate_from n [b])) bs.
Proof. simpl. destruct (truthy _); simpl; by rewrite ?Nat.add_1_r, ?Nat.add_0_r. Qed.

Lemma list_filter_app {A} (p : A -> bool) l1 l2 :
  List.filter p (l1 ++ l2) = List.filter p l1 ++ List.filter p l2.
Proof. induction l1; simpl; [done|]. destruct (p _); simpl; congruence. Qed.

Lemma build_spec bs : forall n m,
  let m' := (foldl evaluateBinding (n, m) bs).2 in
  let new := evaluate_from n bs in
  (forall ch acc, scoped_of m' ch acc =
    scoped_of m ch acc ++ List.filter (for_account acc) (List.filter (in_channel ch) new).*2) /\
  (forall ch, any_of m' ch =
    any_of m ch ++ List.filter is_any_account (List.filter (in_channel ch) new).*2).
Proof.
  induction bs as [|b bs IH]; intros n m.
  { simpl. split; intros; by rewrite app_nil_r. }
  cbn [foldl]. destruct (evaluateBinding_spec n m b) as (Hn & Hs & Ha).
  destruct (evaluateBinding (n, m) b) as [n1 m1]. cbn [fst snd] in *. subst n1.
  destruct (IH (n + length (evaluate_from n [b])) m1)%nat as [IHs IHa].
  cbv zeta. rewrite (evaluate_from_cons n b bs).
  split; intros; rewrite ?IHs, ?IHa, ?Hs, ?Ha, list_filter_app, fmap_app, list_filter_app;
    by rewrite app_assoc.
Qed.

(** A lookup gives the channel's and account's bindings in source order. *)
Lemma lookupChannelAccount_eq cfg ch acc :
  lookupChannelAccount (buildEvaluatedBindingsByChannel cfg) ch acc =
  channel_account_bindings cfg ch acc.
Proof.
  unfold lookupChannelAccount. rewrite mergeEvaluated_eq.
  destruct (build_spec (listBindings cfg) 0 []) as [Hs Ha].
  specialize (Hs ch acc). specialize (Ha ch).
  unfold scoped_of, any_of in Hs, Ha. cbn [jm_get] in Hs, Ha.
  unfold buildEvaluatedBindingsByChannel. rewrite Hs, Ha. cbn [app default fmap option_fmap].
  apply merge_filters.
  - apply sorted_orders_filter_map, evaluate_from_sorted.
  - unfold for_account. intros x. destruct (is_any_account x); done.
Qed.

(** ** The index *)

Lemma foldl_snoc_eq {A B} (f : A -> B -> A) a l x : foldl f a (l ++ [x]) = f (foldl f a l) x.
Proof. by rewrite foldl_app. Qed.

Lemma jm_get_pushToIndexMap m k key b :
  default [] (jm_get k (pushToIndexMap m key b)) =
  default [] (jm_get k m) ++ (if truthy_opt key && bool_decide (key = Some k) then [b] else []).
Proof.
  unfold pushToIndexMap. destruct key as [key|]; simpl; [|by rewrite app_nil_r].
  destruct (truthy key); simpl; [|by rewrite app_nil_r].
  rewrite jm_get_set. case_decide; subst.
  - by rewrite bool_decide_eq_true_2.
  - rewrite bool_decide_eq_false_2 by congruence. by rewrite app_nil_r.
Qed.

Definition valid_under (key : jstr) (b : EvaluatedBinding) : bool :=
  match nb_peer (eb_match b) with
  | PeerValid kind id => includes key (peerLookupKeys kind id)
  | _ => false
  end.

Definition class_is (c : MatchedBy) (b : EvaluatedBinding) : bool :=
  bool_decide (binding_class b = c).

Definition guild_is (key : jstr) (b : EvaluatedBinding) : bool :=
  bool_decide (nb_guildId (eb_match b) = Some key).

Definition team_is (key : jstr) (b : EvaluatedBinding) : bool :=
  bool_decide (nb_teamId (eb_match b) = Some key).

Definition when (c : bool) (b : EvaluatedBinding) : list EvaluatedBinding :=
  if c then [b] else [].

Lemma peerLookupKeys_NoDup kind id : NoDup (peerLookupKeys kind id).
Proof.
  destruct kind; simpl; rewrite ?NoDup_cons; split_and?; try apply NoDup_nil_2; unfold peer_key;
    try set_solver; intros [H|H]%elem_of_cons; simplify_eq; set_solver.
Qed.

Lemma peerLookupKeys_truthy kind id : Forall (fun k => truthy k = true) (peerLookupKeys kind id).
Proof. destruct kind; repeat constructor. Qed.

(** Pushing a binding under distinct keys. *)
Lemma push_keys keys b k : forall m,
  NoDup keys -> Forall (fun k => truthy k = true) keys ->
  default [] (jm_get k (foldl (fun byPeer key => pushToIndexMap byPeer (Some key) b) m keys)) =
  default [] (jm_get k m) ++ when (includes k keys) b.
Proof.
  induction keys as [|k0 keys IH]; intros m Hnd Ht; cbn [foldl].
  { cbn. by rewrite app_nil_r. }
  apply NoDup_cons in Hnd as [Hk Hnd]. apply Forall_cons in Ht as [Ht0 Ht].
  rewrite IH, jm_get_pushToIndexMap by done.
  change (truthy_opt (Some k0)) with (truthy k0). rewrite Ht0. cbn [andb].
  rewrite <- app_assoc. f_equal. unfold includes.
  destruct (decide (k0 = k)) as [->|Hne].
  - rewrite bool_decide_eq_true_2 by done.
    rewrite (bool_decide_eq_false_2 (k ∈ keys)) by done.
    by rewrite bool_decide_eq_true_2 by set_solver.
  - rewrite bool_decide_eq_false_2 by congruence. simpl. unfold when.
    destruct (decide (k ∈ keys)).
    + by rewrite !bool_decide_eq_true_2 by set_solver.
    + by rewrite !bool_decide_eq_false_2 by set_solver.
Qed.

(** What indexing one binding adds to each bucket. *)
Lemma index_binding_spec ix b k :
  default [] (jm_get k (ix_byPeer (index_binding ix b))) =
    default [] (jm_get k (ix_byPeer ix)) ++ when (valid_under k b) b /\
  ix_byPeerWildcard (index_binding ix b) =
    ix_byPeerWildcard ix ++ when (class_is ByPeerWildcard b) b /\
  default [] (jm_get k (ix_byGuildWithRoles (index_binding ix b))) =
    default [] (jm_get k (ix_byGuildWithRoles ix)) ++
    when (class_is ByGuildRoles b && guild_is k b) b /\
  default [] (jm_get k (ix_byGuild (index_binding ix b))) =
    default [] (jm_get k (ix_byGuild ix)) ++ when (class_is ByGuild b && guild_is k b) b /\
  default [] (jm_get k (ix_byTeam (index_binding ix b))) =
    default [] (jm_get k (ix_byTeam ix)) ++ when (class_is ByTeam b && team_is k b) b /\
  ix_byAccount (index_binding ix b) = ix_byAccount ix ++ when (class_is ByAccount b) b /\
  ix_byChannel (index_binding ix b) = ix_byChannel ix ++ when (class_is ByChannel b) b.
Proof.
  unfold index_binding, class_is, binding_class, valid_under, guild_is, team_is.
  change (hasGuildConstraint (eb_match b)) with (truthy_opt (nb_guildId (eb_match b))).
  change (hasTeamConstraint (eb_match b)) with (truthy_opt (nb_teamId (eb_match b))).
  unfold hasRolesConstraint, is_any_account.
  destruct (nb_peer (eb_match b)) as [| |kind|kind id].
  3: cbn; rewrite ?app_nil_r; done.
  3: { cbn [ix_byPeer ix_byPeerWildcard ix_byGuildWithRoles ix_byGuild ix_byTeam ix_byAccount
         ix_byChannel]. rewrite push_keys by auto using peerLookupKeys_NoDup, peerLookupKeys_truthy.
       cbn. rewrite ?app_nil_r. done. }
  all: destruct (truthy_opt (nb_guildId (eb_match b))) eqn:Hg, (truthy_opt (nb_teamId (eb_match b))) eqn:Ht,
    (bool_decide (is_Some (nb_roles (eb_match b)))), (bool_decide (nb_accountPattern (eb_match b) = star));
    cbn [andb negb ix_byPeer ix_byPeerWildcard ix_byGuildWithRoles ix_byGuild ix_byTeam ix_byAccount
         ix_byChannel]; rewrite ?jm_get_pushToIndexMap, ?Hg, ?Ht; cbn; rewrite ?app_nil_r; done.
Qed.

Lemma list_filter_snoc {A} (p : A -> bool) l x :
  List.filter p (l ++ [x]) = List.filter p l ++ (if p x then [x] else []).
Proof. rewrite list_filter_app. simpl. by destruct (p x). Qed.

(** The index holds, in source order, the bindings of each class. *)
Lemma index_spec bs k :
  let ix := buildEvaluatedBindingsIndex bs in
  default [] (jm_get k (ix_byPeer ix)) = List.filter (valid_under k) bs /\
  ix_byPeerWildcard ix = List.filter (class_is ByPeerWildcard) bs /\
  default [] (jm_get k (ix_byGuildWithRoles ix)) =
    List.filter (fun b => class_is ByGuildRoles b && guild_is k b) bs /\
  default [] (jm_get k (ix_byGuild ix)) =
    List.filter (fun b => class_is ByGuild b && guild_is k b) bs /\
  default [] (jm_get k (ix_byTeam ix)) =
    List.filter (fun b => class_is ByTeam b && team_is k b) bs /\
  ix_byAccount ix = List.filter (class_is ByAccount) bs /\
  ix_byChannel ix = List.filter (class_is ByChannel) bs.
Proof.
  cbv zeta. unfold buildEvaluatedBindingsIndex.
  induction bs as [|b bs IH] using rev_ind; [by split_and!|].
  rewrite foldl_snoc_eq, !list_filter_snoc.
  destruct (index_binding_spec (foldl index_binding empty_index bs) b k)
    as (-> & -> & -> & -> & -> & -> & ->).
  destruct IH as (-> & -> & -> & -> & -> & -> & ->). done.
Qed.

(** ** Peer candidates *)

Lemma collect_new_seen out ms :
  Forall (fun m => m ∈ out) ms -> collect_new out ms = out.
Proof.
  induction 1 as [|m ms Hm _ IH]; simpl; [done|].
  rewrite (proj2 (List.existsb_exists _ _)); [done|].
  exists m. split; [by apply list_elem_of_In|apply Nat.eqb_refl].
Qed.

Lemma collect_new_fresh out ms :
  sorted_orders (out ++ ms) -> collect_new out ms = out ++ ms.
Proof.
  revert out. induction ms as [|m ms IH]; intros out Hs; simpl; [by rewrite app_nil_r|].
  rewrite (proj1 (Bool.not_true_iff_false _)).
  - rewrite IH; rewrite <- app_assoc; done.
  - intros (s & Hin%list_elem_of_In & Heq%Nat.eqb_eq)%List.existsb_exists.
    cut (eb_order s < eb_order m)%nat; [lia|].
    apply list_elem_of_split in Hin as (l1 & l2 & ->).
    clear -Hs. unfold sorted_orders in Hs. rewrite <- !app_assoc in Hs.
    induction l1 as [|x l1 IH]; simpl in Hs; apply StronglySorted_inv in Hs as [Hs Hf]; [|auto].
    rewrite Forall_app, Forall_cons in Hf. tauto.
Qed.

Lemma chat_peer_key_inj k1 i1 k2 i2 : peer_key k1 i1 = peer_key k2 i2 -> k1 = k2 /\ i1 = i2.
Proof. unfold peer_key. destruct k1, k2; simpl; intros; simplify_eq; auto. Qed.

Lemma elem_of_peerLookupKeys kind id kind' id' :
  peer_key kind id ∈ peerLookupKeys kind' id' <->
  peerKindMatches kind' kind = true /\ id = id'.
Proof.
  unfold peerKindMatches, peerLookupKeys. destruct kind, kind'; case_decide as Hd; try done;
    rewrite ?elem_of_cons, elem_of_nil; (split;
      [intros H; repeat destruct H as [H|H]; try done;
         apply chat_peer_key_inj in H as [? ->]; done
      |intros [? ->]; first [done | tauto]]).
Qed.

Definition valid_for (p : RoutePeer) (b : EvaluatedBinding) : bool :=
  valid_under (peer_key (rp_kind p) (rp_id p)) b.

(** Both keys of a group or channel peer hold the same bindings. *)
Lemma valid_under_keys p k b :
  k ∈ peerLookupKeys (rp_kind p) (rp_id p) -> valid_under k b = valid_for p b.
Proof.
  intros Hk. unfold valid_for, valid_under.
  destruct (nb_peer (eb_match b)) as [| | |kind id]; try done. unfold includes.
  apply bool_decide_ext.
  assert (exists k', k = peer_key k' (rp_id p) /\
            (forall kd, peerKindMatches kd k' = peerKindMatches kd (rp_kind p))) as (k' & -> & Heq).
  { destruct (rp_kind p); simpl in Hk; rewrite ?elem_of_cons, elem_of_nil in Hk;
      repeat destruct Hk as [Hk|Hk]; try done; eexists; (split; [done|]); by intros []. }
  by rewrite !elem_of_peerLookupKeys, Heq.
Qed.

Lemma list_filter_ext {A} (p q : A -> bool) l :
  (forall x, x ∈ l -> p x = q x) -> List.filter p l = List.filter q l.
Proof.
  induction l as [|x l IH]; intros H; simpl; [done|].
  rewrite H by set_solver. rewrite IH by set_solver. done.
Qed.

Lemma elem_of_list_filter {A} (p : A -> bool) l x :
  x ∈ List.filter p l <-> x ∈ l /\ p x = true.
Proof. rewrite !list_elem_of_In. apply List.filter_In. Qed.

(** The candidates of a peer are its bindings, each once and in source order. *)
Lemma collectPeerIndexedBindings_eq bs p :
  sorted_orders bs ->
  collectPeerIndexedBindings (buildEvaluatedBindingsIndex bs) (Some p) =
  List.filter (valid_for p) bs.
Proof.
  intros Hs. unfold collectPeerIndexedBindings.
  assert (forall k, k ∈ peerLookupKeys (rp_kind p) (rp_id p) ->
    default [] (jm_get k (ix_byPeer (buildEvaluatedBindingsIndex bs))) =
    List.filter (valid_for p) bs) as Hk.
  { intros k Hk. destruct (index_spec bs k) as [-> _].
    apply list_filter_ext. eauto using valid_under_keys. }
  assert (collect_new [] (List.filter (valid_for p) bs) = List.filter (valid_for p) bs) as Hfresh
    by (apply (collect_new_fresh []), sorted_orders_filter, Hs).
  assert (collect_new (List.filter (valid_for p) bs) (List.filter (valid_for p) bs) =
          List.filter (valid_for p) bs) as Hseen
    by (apply collect_new_seen, Forall_forall; auto).
  destruct (rp_kind p); cbn [foldl peerLookupKeys] in *; rewrite ?Hk by set_solver;
    by rewrite ?Hfresh.
Qed.

(** ** The tiers *)

Definition query_ok (q : RouteQuery) : Prop :=
  trim (rq_guildId q) = rq_guildId q /\ trim (rq_teamId q) = rq_teamId q.

Lemma normalizeRouteInput_ok input : query_ok (normalizeRouteInput input).
Proof.
  assert (forall v, trim (normalizeRouteBindingId v) = normalizeRouteBindingId v) as H
    by (intros []; simpl; auto using trim_idem).
  split; apply H.
Qed.

Definition evaluated_ok (b : EvaluatedBinding) : Prop :=
  eb_match b = normalizeBindingMatch (ab_match (eb_binding b)).

Lemma evaluate_from_evaluated_ok n bs : Forall (fun e => evaluated_ok e.2) (evaluate_from n bs).
Proof.
  revert n. induction bs as [|b bs IH]; intros n; simpl; [constructor|].
  destruct (truthy _); [|done]. by constructor.
Qed.

Lemma channel_account_bindings_ok cfg ch acc :
  Forall evaluated_ok (channel_account_bindings cfg ch acc).
Proof.
  apply Forall_list_filter, Forall_fmap, Forall_list_filter, evaluate_from_evaluated_ok.
Qed.

(** A tier that is skipped finds nothing. *)
Definition tier_result (q : RouteQuery) (t : RouteTier) : option EvaluatedBinding :=
  if rt_enabled t then tier_find q t else None.

Lemma search_tiers_eq q tiers :
  search_tiers q tiers = first_tier ((fun t => (rt_matchedBy t, tier_result q t)) <$> tiers).
Proof.
  induction tiers as [|t tiers IH]; [done|]. cbn [search_tiers]. rewrite fmap_cons.
  unfold tier_result at 1. cbn [first_tier].
  destruct (rt_enabled t); cbn [negb]; [|done]. by destruct (tier_find q t).
Qed.

Lemma find_first_none {A} (p : A -> bool) l : (forall x, x ∈ l -> p x = false) -> find_first p l = None.
Proof. intros H. apply find_first_None, Forall_forall, H. Qed.

(** What matching a scope tells of a binding's constraints. *)
Lemma scope_peer m scope :
  matchesBindingScope m scope = true ->
  match nb_peer m with
  | PeerNone => True
  | PeerInvalid => False
  | PeerValid kind id => exists p, bs_peer scope = Some p /\
      peerKindMatches kind (rp_kind p) = true /\ rp_id p = id
  | PeerWildcardKind kind => exists p, bs_peer scope = Some p /\
      peerKindMatches kind (rp_kind p) = true
  end.
Proof.
  unfold matchesBindingScope.
  destruct (nb_peer m) as [| |kind|kind id]; [done|done| |];
    destruct (bs_peer scope) as [p|]; try done;
    destruct (peerKindMatches kind (rp_kind p)) eqn:?; simpl; try done; eauto.
  case_bool_decide; [|done]. eauto.
Qed.

Lemma scope_ids m scope :
  matchesBindingScope m scope = true ->
  (hasGuildConstraint m = true -> nb_guildId m = Some (trim (bs_guildId scope))) /\
  (hasTeamConstraint m = true -> nb_teamId m = Some (trim (bs_teamId scope))).
Proof.
  intros Hm.
  assert (forall c exact, truthy_opt c = true -> scopeIdMatches c (trim exact) [] = true ->
    c = Some (trim exact)) as Hid.
  { intros [c|] exact Ht; [|done]. simpl in Ht |- *. rewrite Ht. simpl.
    intros [H|H]%orb_true_iff; bool_to_prop; subst; done. }
  assert (routeBindingScopeMatches (nb_guildId m) (nb_teamId m) (nb_roles m)
      (VString (bs_guildId scope)) (VString (bs_teamId scope)) VUndefined
      (Some (bs_memberRoleIds scope)) = true) as Hs.
  { revert Hm. unfold matchesBindingScope. repeat case_match; done. }
  unfold routeBindingScopeMatches in Hs. cbn [normalizeRouteBindingId] in Hs.
  destruct (scopeIdMatches (nb_guildId m) _ _) eqn:?; [|done].
  destruct (scopeIdMatches (nb_teamId m) _ _) eqn:?; [|done].
  split; eauto.
Qed.

Lemma scope_roles m scope :
  matchesBindingScope m scope = true -> normalizeRouteBindingRoles (nb_roles m) = nb_roles m ->
  hasRolesConstraint m = true -> bs_memberRoleIds scope <> [].
Proof.
  intros Hm Hr Hroles.
  assert (routeBindingScopeMatches (nb_guildId m) (nb_teamId m) (nb_roles m)
      (VString (bs_guildId scope)) (VString (bs_teamId scope)) VUndefined
      (Some (bs_memberRoleIds scope)) = true) as Hs.
  { revert Hm. unfold matchesBindingScope. repeat case_match; done. }
  unfold routeBindingScopeMatches in Hs. rewrite Hr in Hs.
  unfold hasRolesConstraint in Hroles. bool_to_prop. destruct Hroles as [roles Hroles].
  rewrite Hroles in Hs. destruct (scopeIdMatches _ _ _); [|done].
  destruct (scopeIdMatches _ _ _); [|done]. simpl in Hs.
  intros He. rewrite He in Hs.
  apply List.existsb_exists in Hs as (x & _ & Hx). by apply includes_spec, elem_of_nil in Hx.
Qed.

(** A search of the filtered list, when the filter is implied by the match. *)
Lemma find_first_filter_eq {A} (p q r : A -> bool) l :
  (forall x, x ∈ l -> q x && p x = r x) -> find_first p (List.filter q l) = find_first r l.
Proof. intros H. rewrite find_first_filter. by apply find_first_ext. Qed.

Lemma bool_and_ext (a b c : bool) : (c = true -> a = b) -> a && c = b && c.
Proof. destruct c; [intros ->; done|]. by rewrite !andb_false_r. Qed.

Section tiers.
  Context (q : RouteQuery) (bs : list EvaluatedBinding).
  Hypothesis Hq : query_ok q.
  Hypothesis Hs : sorted_orders bs.
  Hypothesis Hok : Forall evaluated_ok bs.

Let ix := buildEvaluatedBindingsIndex bs.

Lemma elem_ok b : b ∈ bs -> eb_match b = normalizeBindingMatch (ab_match (eb_binding b)).
Proof. intros Hb. rewrite Forall_forall in Hok. by apply Hok. Qed.

Lemma class_peer b : class_is ByPeer b = is_valid_peer b.
Proof.
  unfold class_is, binding_class, is_valid_peer.
  by destruct (nb_peer (eb_match b)); repeat case_match.
Qed.

Lemma class_wildcard b : class_is ByPeerWildcard b = is_wildcard_peer b.
Proof.
  unfold class_is, binding_class, is_wildcard_peer.
  by destruct (nb_peer (eb_match b)); repeat case_match.
Qed.

(** The peer tiers. *)
Lemma peer_tier p by_ :
  tier_find q {| rt_matchedBy := by_; rt_enabled := true; rt_scopePeer := Some p;
    rt_candidates := collectPeerIndexedBindings ix (Some p); rt_predicate := is_valid_peer |} =
  linear_find q ByPeer (Some p) bs.
Proof.
  unfold tier_find, linear_find. cbn [rt_predicate rt_candidates rt_scopePeer].
  unfold ix. rewrite collectPeerIndexedBindings_eq by done.
  apply find_first_filter_eq. intros b Hb. fold (class_is ByPeer b). rewrite class_peer, andb_assoc.
  apply bool_and_ext. intros Hm%scope_peer.
  unfold valid_for, valid_under, is_valid_peer.
  destruct (nb_peer (eb_match b)) as [| | |kind id]; try done.
  destruct Hm as (p' & Hp & Hk & <-). cbn in Hp. simplify_eq. rewrite andb_true_r.
  by apply includes_spec, elem_of_peerLookupKeys.
Qed.

(** Without a peer, nothing of a peer class matches. *)
Lemma no_peer_none class :
  class = ByPeer \/ class = ByPeerWildcard -> linear_find q class None bs = None.
Proof.
  intros Hc. apply find_first_none. intros b _. apply andb_false_iff.
  destruct (matchesBindingScope _ _) eqn:Hm; [|auto]. left.
  apply scope_peer in Hm. apply bool_decide_eq_false. unfold binding_class.
  destruct (nb_peer (eb_match b)); try (by destruct Hm as (? & ? & ?)); try done;
    repeat case_match; destruct Hc; by subst.
Qed.

Lemma empty_peer_none p : rp_id p = [] -> linear_find q ByPeer (Some p) bs = None.
Proof.
  intros Hp. apply find_first_none. intros b Hb. apply andb_false_iff.
  destruct (matchesBindingScope _ _) eqn:Hm; [|auto]. left.
  apply scope_peer in Hm. fold (class_is ByPeer b). rewrite class_peer. unfold is_valid_peer.
  rewrite (elem_ok b Hb) in Hm |- *. cbn [nb_peer normalizeBindingMatch] in *.
  destruct (ab_match (eb_binding b) ≫= bm_peer) as [peer|]; [|done]. cbn [normalizePeerConstraint] in *.
  destruct (normalizeChatType (bp_kind peer)) as [kind|]; [|done].
  destruct (truthy (normalizeRouteBindingId (bp_id peer))) eqn:Ht; [|done]. cbn [negb] in *.
  case_bool_decide; [done|].
  destruct Hm as (p' & Hp' & _ & Hid). cbn in Hp'. simplify_eq.
  by rewrite <- Hid, Hp in Ht.
Qed.

(** A match of a guild or team class carries that id. *)
Lemma class_guild_is class b peer :
  class = ByGuildRoles \/ class = ByGuild ->
  class_is class b && matchesBindingScope (eb_match b) (tier_scope q peer) = true ->
  hasGuildConstraint (eb_match b) = true /\
  guild_is (rq_guildId q) b = true /\ truthy (rq_guildId q) = true.
Proof.
  intros Hc [Hcl Hm]%andb_true_iff. unfold class_is in Hcl. bool_to_prop.
  assert (hasGuildConstraint (eb_match b) = true) as Hg.
  { revert Hcl. unfold binding_class. destruct (nb_peer (eb_match b)); repeat case_match;
      intros; subst; destruct Hc; done. }
  destruct (scope_ids _ _ Hm) as [Hid _]. specialize (Hid Hg). cbn [tier_scope bs_guildId bs_teamId] in Hid.
  rewrite (proj1 Hq) in Hid. split; [done|]. split.
  - by apply bool_decide_eq_true.
  - unfold hasGuildConstraint in Hg. by rewrite Hid in Hg.
Qed.

Lemma class_team_is b peer :
  class_is ByTeam b && matchesBindingScope (eb_match b) (tier_scope q peer) = true ->
  hasTeamConstraint (eb_match b) = true /\
  team_is (rq_teamId q) b = true /\ truthy (rq_teamId q) = true.
Proof.
  intros [Hcl Hm]%andb_true_iff. unfold class_is in Hcl. bool_to_prop.
  assert (hasTeamConstraint (eb_match b) = true) as Hg.
  { revert Hcl. unfold binding_class. destruct (nb_peer (eb_match b)); repeat case_match; done. }
  destruct (scope_ids _ _ Hm) as [_ Hid]. specialize (Hid Hg). cbn [tier_scope bs_guildId bs_teamId] in Hid.
  rewrite (proj2 Hq) in Hid. split; [done|]. split.
  - by apply bool_decide_eq_true.
  - unfold hasTeamConstraint in Hg. by rewrite Hid in Hg.
Qed.

Lemma class_guild_roles b : class_is ByGuildRoles b = true -> hasRolesConstraint (eb_match b) = true.
Proof.
  unfold class_is, binding_class. intros H. bool_to_prop. revert H.
  destruct (nb_peer (eb_match b)); repeat case_match; done.
Qed.

Lemma class_guild_no_roles b : class_is ByGuild b = true -> hasRolesConstraint (eb_match b) = false.
Proof.
  unfold class_is, binding_class. intros H. bool_to_prop. revert H.
  destruct (nb_peer (eb_match b)); repeat case_match; done.
Qed.

Lemma class_account b : class_is ByAccount b = true -> is_any_account b = false.
Proof.
  unfold class_is, binding_class. intros H. bool_to_prop. revert H.
  destruct (nb_peer (eb_match b)); repeat case_match; done.
Qed.

Lemma class_channel b : class_is ByChannel b = true -> is_any_account b = true.
Proof.
  unfold class_is, binding_class. intros H. bool_to_prop. revert H.
  destruct (nb_peer (eb_match b)); repeat case_match; done.
Qed.

(** Booleans with the same true cases are equal. *)
Lemma bool_iff (a b : bool) : (a = true -> b = true) -> (b = true -> a = true) -> a = b.
Proof. destruct a, b; naive_solver. Qed.

(** A tier over one bucket of the index, on its class. *)
Lemma bucket_tier class peer (pred extra : EvaluatedBinding -> bool) :
  (forall b, b ∈ bs ->
    class_is class b && matchesBindingScope (eb_match b) (tier_scope q peer) = true ->
    pred b = true /\ extra b = true) ->
  find_first (fun b => pred b && matchesBindingScope (eb_match b) (tier_scope q peer))
    (List.filter (fun b => class_is class b && extra b) bs) =
  linear_find q class peer bs.
Proof.
  intros H. apply find_first_filter_eq. intros b Hb. fold (class_is class b).
  specialize (H b Hb). apply bool_iff.
  - intros Ht. repeat (apply andb_true_iff in Ht as [Ht ?] || idtac).
    bool_to_prop. apply andb_true_iff. split; [|done].
    by repeat match goal with Hx : _ && _ = true |- _ => apply andb_true_iff in Hx as [? ?] end.
  - intros Ht. destruct (H Ht) as [-> ->]. apply andb_true_iff in Ht as [-> ->]. done.
Qed.

(** The enabling conditions only skip searches that find nothing. *)
Lemma disabled_none class peer (c : bool) :
  (forall b, b ∈ bs ->
    class_is class b && matchesBindingScope (eb_match b) (tier_scope q peer) = true -> c = true) ->
  c = false -> linear_find q class peer bs = None.
Proof.
  intros H ->. apply find_first_none. intros b Hb. fold (class_is class b).
  apply not_true_is_false. intros Ht. by specialize (H b Hb Ht).
Qed.

Lemma roles_normal b : b ∈ bs ->
  normalizeRouteBindingRoles (nb_roles (eb_match b)) = nb_roles (eb_match b).
Proof. intros Hb. rewrite (elem_ok b Hb). simpl. by destruct (_ ≫= bm_roles) as [[]|]. Qed.

Lemma guild_roles_enabled b peer : b ∈ bs ->
  class_is ByGuildRoles b && matchesBindingScope (eb_match b) (tier_scope q peer) = true ->
  truthy (rq_guildId q) && (0 <? length (rq_memberRoleIds q))%nat = true.
Proof.
  intros Hb Ht. apply andb_true_iff. split.
  - by destruct (class_guild_is _ _ _ (or_introl eq_refl) Ht) as (_ & _ & ?).
  - apply andb_true_iff in Ht as [Hc Hm].
    pose proof (scope_roles _ _ Hm (roles_normal b Hb) (class_guild_roles b Hc)) as Hr.
    cbn in Hr. by destruct (rq_memberRoleIds q).
Qed.

(** The tiers search the index as the reference searches the list. *)
Lemma tiers_linear : search_tiers q (routeTiers ix q) = linear_search q bs.
Proof.
  rewrite search_tiers_eq. unfold linear_search. f_equal.
  unfold routeTiers. rewrite !fmap_cons, fmap_nil. cbn [rt_matchedBy].
  destruct (index_spec bs (rq_guildId q)) as (_ & Hw & Hgr & Hg & _ & Ha & Hch).
  destruct (index_spec bs (rq_teamId q)) as (_ & _ & _ & _ & Ht & _ & _).
  fold ix in Hw, Hgr, Hg, Ht, Ha, Hch.
  repeat f_equal; unfold tier_result; cbn [rt_enabled].
  - destruct (rq_peer q) as [p|]; [|by rewrite no_peer_none by auto].
    rewrite bool_decide_eq_true_2 by eauto. apply peer_tier.
  - destruct (rq_parentPeer q) as [p|]; [|by rewrite no_peer_none by auto].
    destruct (rp_id p) as [|c id] eqn:Hid; simpl; [by rewrite empty_peer_none|]. apply peer_tier.
  - destruct (rq_peer q) as [p|]; [|by rewrite no_peer_none by auto].
    rewrite bool_decide_eq_true_2 by eauto. unfold tier_find. cbn. rewrite Hw.
    apply find_first_filter_eq. intros b _. fold (class_is ByPeerWildcard b).
    rewrite class_wildcard. by destruct (is_wildcard_peer b).
  - case_match eqn:He; [|symmetry; eapply disabled_none; [|done]; eauto using guild_roles_enabled].
    apply andb_true_iff in He as [He _].
    unfold tier_find. cbn. unfold index_bucket. rewrite He, Hgr. apply bucket_tier.
    intros b Hb Hm. destruct (class_guild_is _ _ _ (or_introl eq_refl) Hm) as (-> & -> & _).
    apply andb_true_iff in Hm as [Hc _]. by rewrite class_guild_roles.
  - case_match eqn:He.
    2:{ symmetry. eapply disabled_none; [|done]. intros b _ Hm.
        by destruct (class_guild_is _ _ _ (or_intror eq_refl) Hm) as (_ & _ & ?). }
    unfold tier_find. cbn. unfold index_bucket. rewrite He, Hg. apply bucket_tier.
    intros b Hb Hm. destruct (class_guild_is _ _ _ (or_intror eq_refl) Hm) as (-> & -> & _).
    apply andb_true_iff in Hm as [Hc _]. by rewrite class_guild_no_roles.
  - case_match eqn:He.
    2:{ symmetry. eapply disabled_none; [|done]. intros b _ Hm.
        by destruct (class_team_is _ _ Hm) as (_ & _ & ?). }
    unfold tier_find. cbn. unfold index_bucket. rewrite He, Ht. apply bucket_tier.
    intros b Hb Hm. by destruct (class_team_is _ _ Hm) as (-> & -> & _).
  - unfold tier_find. cbn [rt_predicate rt_candidates rt_scopePeer]. rewrite Ha. apply find_first_filter_eq. intros b _.
    fold (class_is ByAccount b) (is_any_account b).
    destruct (class_is ByAccount b) eqn:Hc; [|done]. by rewrite class_account.
  - unfold tier_find. cbn [rt_predicate rt_candidates rt_scopePeer]. rewrite Hch. apply find_first_filter_eq. intros b _.
    fold (class_is ByChannel b) (is_any_account b).
    destruct (class_is ByChannel b) eqn:Hc; [|done]. by rewrite class_channel.
Qed.
End tiers.

(** C1. Route resolution equals the reference: for every configuration and
    input, searching the per-account index tier by tier (with the tiers'
    enabling conditions and candidate tables) chooses the same binding, by the
    same tier, as scanning the configured bindings in source order once per
    tier, and so gives the same route. *)
Theorem resolveAgentRoute_linear cfg input :
  resolveAgentRoute_uncached cfg input = linear_route cfg (normalizeRouteInput input).
Proof.
  unfold resolveAgentRoute_uncached, resolveRouteQuery, linear_route.
  rewrite lookupChannelAccount_eq, tiers_linear;
    auto using normalizeRouteInput_ok, channel_account_bindings_sorted, channel_account_bindings_ok.
Qed.

(** ** The agent and the session of a route *)

Lemma js_get_foldl_set {A} (f : A -> option (jstr * jstr)) (P : jstr -> Prop) l m k v :
  (forall x k' v', x ∈ l -> f x = Some (k', v') -> P v') ->
  (forall k' v', jm_get k' m = Some v' -> P v') ->
  jm_get k (foldl (fun m x => match f x with Some (k', v') => jm_set k' v' m | None => m end) m l)
    = Some v -> P v.
Proof.
  revert m. induction l as [|x l IH]; intros m Hf Hm; cbn [foldl]; [apply Hm|].
  apply IH; [set_solver|]. destruct (f x) as [[k' v']|] eqn:E; [|done].
  intros k1 v1. rewrite jm_get_set. case_decide; [|apply Hm].
  intros [= <-]. eapply Hf; [|done]. set_solver.
Qed.

Definition entry_binding (entry : AgentEntry) : option (jstr * jstr) :=
  match trim <$> ae_id entry with
  | None => None
  | Some rawId =>
      if negb (truthy rawId) then None
      else Some (normalizeAgentId (Some rawId), sanitizeAgentId (Some rawId))
  end.

Lemma buildAgentLookup_eq cfg :
  al_byNormalizedId (buildAgentLookup cfg) =
  foldl (fun m x => match entry_binding x with Some (k, v) => jm_set k v m | None => m end) []
    (listAgentEntries cfg).
Proof.
  unfold buildAgentLookup. cbn [al_byNormalizedId].
  generalize (@nil (jstr * jstr)). induction (listAgentEntries cfg) as [|x l IH]; intros m; [done|].
  cbn [foldl]. rewrite IH. f_equal. unfold entry_binding.
  destruct (trim <$> ae_id x) as [i|]; [|done]. by destruct (truthy i).
Qed.

Lemma normalizeAgentId_trim s : normalizeAgentId (Some (trim s)) = normalizeAgentId (Some s).
Proof.
  unfold normalizeAgentId. change (or_empty (Some (trim s))) with (trim s).
  change (or_empty (Some s)) with s. by rewrite trim_idem.
Qed.

Lemma normalizeAgentId_blank o : trim (or_empty o) = [] -> normalizeAgentId o = DEFAULT_AGENT_ID.
Proof. unfold normalizeAgentId. by intros ->. Qed.

Lemma listAgentIds_entry cfg e : e ∈ listAgentEntries cfg -> normalizeAgentId (ae_id e) ∈ listAgentIds cfg.
Proof.
  intros He. unfold listAgentIds. destruct (listAgentEntries cfg) as [|x l]; [set_solver|].
  apply elem_of_js_set, list_elem_of_In, List.in_map_iff. exists e.
  split; [done|by apply list_elem_of_In].
Qed.

Lemma resolveDefaultAgentId_listed_aux cfg : resolveDefaultAgentId cfg ∈ listAgentIds cfg.
Proof.
  unfold resolveDefaultAgentId. destruct (listAgentEntries cfg) as [|first l] eqn:E.
  { unfold listAgentIds. rewrite E. set_solver. }
  set (entry := default first (head _)).
  assert (entry ∈ listAgentEntries cfg) as Hin.
  { unfold entry. rewrite E.
    destruct (List.filter ae_default (first :: l)) as [|d ds] eqn:Ed; [by left|].
    change (default first (head (d :: ds))) with d.
    assert (d ∈ List.filter ae_default (first :: l)) as [? _]%elem_of_list_filter
      by (rewrite Ed; set_solver). done. }
  clearbody entry. clear E.
  replace (normalizeAgentId _) with (normalizeAgentId (ae_id entry)); [by apply listAgentIds_entry|].
  destruct (ae_id entry) as [s|]; cbn [fmap option_fmap option_map or_empty default].
  - change (id (trim s)) with (trim s). destruct (decide (trim s = [])) as [Ht|Ht].
    + rewrite Ht. by rewrite normalizeAgentId_blank.
    + rewrite str_or_cons by done. by rewrite normalizeAgentId_trim.
  - done.
Qed.

(** The default agent is one of the configured agents. *)
Theorem resolveDefaultAgentId_listed cfg : resolveDefaultAgentId cfg ∈ listAgentIds cfg.
Proof. apply resolveDefaultAgentId_listed_aux. Qed.

Lemma pickFirstExistingAgentId_listed cfg agentId :
  al_byNormalizedId (buildAgentLookup cfg) <> [] ->
  pickFirstExistingAgentId (buildAgentLookup cfg) agentId ∈ listAgentIds cfg \/
  pickFirstExistingAgentId (buildAgentLookup cfg) agentId =
    normalizeAgentId (Some (resolveDefaultAgentId cfg)).
Proof.
  intros Hne. unfold pickFirstExistingAgentId.
  destruct (truthy (trim agentId)); cbn [negb]; [|by right].
  destruct (al_byNormalizedId (buildAgentLookup cfg)) as [|e l] eqn:E; [done|]. rewrite <- E.
  destruct (jm_get _ _) as [v|] eqn:Hg; [|by right]. cbn [truthy_opt].
  destruct (truthy v); [|by right]. left. cbn [or_empty default]. clear E.
  rewrite buildAgentLookup_eq in Hg. revert Hg.
  apply (js_get_foldl_set entry_binding (fun v => v ∈ listAgentIds cfg)); [|done].
  intros x k' v' Hx. unfold entry_binding.
  destruct (ae_id x) as [s|] eqn:Ha; cbn; [|done].
  destruct (truthy (trim s)); [|done]. intros [= <- <-]. unfold sanitizeAgentId.
  rewrite normalizeAgentId_trim, <- Ha. by apply listAgentIds_entry.
Qed.

Lemma lookup_non_empty cfg e :
  e ∈ listAgentEntries cfg -> truthy (trim (or_empty (ae_id e))) = true ->
  al_byNormalizedId (buildAgentLookup cfg) <> [].
Proof.
  intros He Ht. rewrite buildAgentLookup_eq.
  assert (forall l m, (m <> [] \/ e ∈ l) ->
    foldl (fun m x => match entry_binding x with Some (k, v) => jm_set k v m | None => m end) m l <> [])
    as H.
  { induction l as [|x l IH]; intros m Hm; cbn [foldl]; [destruct Hm; set_solver|].
    apply IH. destruct (entry_binding x) as [[k v]|] eqn:Eb.
    - left. destruct m as [|[k0 v0] m]; simpl; [done|]. by destruct (decide _).
    - destruct Hm as [Hm|Hm]; [by left|]. apply elem_of_cons in Hm as [->|Hm]; [|by right].
      exfalso. revert Eb. unfold entry_binding. destruct (ae_id x) as [s|]; [|done].
      change (truthy (trim s) = true) in Ht. cbn [fmap option_fmap option_map]. by rewrite Ht. }
  apply H. by right.
Qed.

Lemma routeOfMatch_chosen cfg q found : exists agentId matchedBy dmScope,
  routeOfMatch cfg q found =
  chooseRoute (buildAgentLookup cfg) (cfg_session cfg) q agentId matchedBy dmScope.
Proof. unfold routeOfMatch. destruct found as [[b by_]|]; eauto. Qed.

(** Routing never leaves the configured agents: once the configuration
    names an agent, the agent of every route is one of the configured ids
    (a binding that names an unknown agent falls back to the default one),
    whatever the bindings say. *)
Theorem resolveAgentRoute_agent_configured cfg input :
  Exists (fun e => truthy (trim (or_empty (ae_id e))) = true) (listAgentEntries cfg) ->
  normalizeAgentId (Some (resolveDefaultAgentId cfg)) = resolveDefaultAgentId cfg ->
  ra_agentId (resolveAgentRoute_uncached cfg input) ∈ listAgentIds cfg.
Proof.
  intros (e & He & Ht)%Exists_exists Hd.
  unfold resolveAgentRoute_uncached, resolveRouteQuery.
  destruct (routeOfMatch_chosen cfg (normalizeRouteInput input)
    (search_tiers (normalizeRouteInput input) (routeTiers (buildEvaluatedBindingsIndex
       (lookupChannelAccount (buildEvaluatedBindingsByChannel cfg)
          (rq_channel (normalizeRouteInput input)) (rq_accountId (normalizeRouteInput input))))
       (normalizeRouteInput input)))) as (agentId & by_ & dm & ->).
  cbn [chooseRoute ra_agentId].
  destruct (pickFirstExistingAgentId_listed cfg agentId) as [?| ->]; [|done|].
  - by eapply lookup_non_empty.
  - rewrite Hd. apply resolveDefaultAgentId_listed_aux.
Qed.

Definition example_cfg : Config :=
  {| cfg_agents := Some [ {| ae_id := Some (lit "Ops"); ae_default := true |};
                          {| ae_id := Some (lit "dev"); ae_default := false |} ];
     cfg_bindings := Some [
       {| ab_type := None; ab_agentId := lit "ghost";
          ab_match := Some {| bm_channel := Some (lit "telegram"); bm_accountId := Some (lit "*");
            bm_peer := None; bm_guildId := VUndefined; bm_teamId := VUndefined; bm_roles := None |};
          ab_dmScope := None |} ];
     cfg_session := None |}.

Definition example_input : ResolveAgentRouteInput :=
  {| ri_channel := lit "telegram"; ri_accountId := None; ri_peer := Some (Direct, VString (lit "u1"));
     ri_parentPeer := None; ri_guildId := VUndefined; ri_teamId := VUndefined;
     ri_memberRoleIds := None |}.

Lemma resolveAgentRoute_agent_configured_witness :
  ra_agentId (resolveAgentRoute_uncached example_cfg example_input) ∈ listAgentIds example_cfg.
Proof.
  apply (resolveAgentRoute_agent_configured example_cfg example_input).
  - apply (bool_decide_unpack _). by vm_compute.
  - by vm_compute.
Defined.

Lemma fold_buildAgentMainSessionKey agentId mainKey :
  fold_str (buildAgentMainSessionKey agentId mainKey) = buildAgentMainSessionKey agentId mainKey.
Proof.
  unfold buildAgentMainSessionKey, fold_str.
  assert (exists t, normalizeMainKey mainKey = t /\ t <> [] /\ trim t = t /\ lower t = t)
    as (t & -> & Hne & Ht & Hl).
  { eexists. split; [done|]. unfold normalizeMainKey. autorewrite with js.
    destruct (decide (fold_str (or_empty mainKey) = [])) as [->|Hne]; [by vm_compute|].
    rewrite str_or_cons by done. split; [done|]. unfold fold_str.
    by rewrite trim_lower, trim_idem, lower_idem. }
  destruct (agent_segment (Some agentId)) as [_ _ _ Ha].
  change (lit "agent:" ++ normalizeAgentId (Some agentId) ++ lit ":" ++ t) with
    ("a"%char :: lit "gent:" ++ normalizeAgentId (Some agentId) ++ lit ":" ++ t).
  rewrite !app_assoc, trim_cons_app by done.
  rewrite <- !app_assoc. cbn [lower map]. rewrite !map_app.
  fold (lower (normalizeAgentId (Some agentId))) (lower t). by rewrite Ha, Hl.
Qed.

(** Direct messages collapse: a direct (or absent) peer under the scope
    ["main"] gets the agent's main session, which is then where the last route
    is recorded. *)
Theorem resolveAgentRoute_direct_main cfg input :
  let r := resolveAgentRoute_uncached cfg input in
  ra_dmScope r = DmMain ->
  default Direct (rp_kind <$> rq_peer (normalizeRouteInput input)) = Direct ->
  ra_sessionKey r = ra_mainSessionKey r /\ ra_lastRoutePolicy r = PolicyMain /\
  resolveInboundLastRouteSessionKey (ra_lastRoutePolicy r) (ra_mainSessionKey r) (ra_sessionKey r)
    = ra_mainSessionKey r.
Proof.
  cbv zeta. unfold resolveAgentRoute_uncached, resolveRouteQuery.
  set (q := normalizeRouteInput input).
  destruct (routeOfMatch_chosen cfg q (search_tiers q (routeTiers (buildEvaluatedBindingsIndex
       (lookupChannelAccount (buildEvaluatedBindingsByChannel cfg) (rq_channel q) (rq_accountId q))) q)))
    as (agentId & by_ & dm & ->).
  unfold chooseRoute.
  cbn [ra_sessionKey ra_mainSessionKey ra_lastRoutePolicy ra_dmScope]. intros Hdm Hk.
  rewrite Hdm, normalizeLowercaseStringOrEmpty_string, fold_buildAgentMainSessionKey.
  unfold buildAgentSessionKey, buildAgentPeerSessionKey. rewrite Hk.
  change (default Direct (Some Direct)) with Direct.
  change (default DmMain (Some DmMain)) with DmMain.
  rewrite decide_True by done. cbn [bool_decide decide_rel decide].
  rewrite !bool_decide_eq_false_2 by done. cbn [andb].
  set (a := pickFirstExistingAgentId _ _).
  assert (buildAgentMainSessionKey a (Some (default DEFAULT_MAIN_KEY (cfg_session cfg ≫= sc_mainKey))) =
          buildAgentMainSessionKey a (cfg_session cfg ≫= sc_mainKey)) as ->.
  { by destruct (cfg_session cfg ≫= sc_mainKey). }
  unfold deriveLastRoutePolicy. by rewrite decide_True.
Qed.

Lemma resolveAgentRoute_direct_main_witness :
  ra_sessionKey (resolveAgentRoute_uncached example_cfg example_input) = lit "agent:ops:main" /\
  ra_sessionKey (resolveAgentRoute_uncached example_cfg example_input) =
  ra_mainSessionKey (resolveAgentRoute_uncached example_cfg example_input).
Proof.
  split; [by vm_compute|].
  apply (resolveAgentRoute_direct_main example_cfg example_input); by vm_compute.
Defined.
