(* ===== verification/RouteCache.v ===== *)
(** * The caches of route resolution

    [src/routing/resolve-route.ts] as it runs: the three [WeakMap]s keyed by
    the configuration object, threaded through [resolveAgentRoute].  A
    configuration object is its identity and the references of its [agents],
    [bindings] and [session], which may be replaced between two calls; what a
    reference points to does not change.

    The theorems: on queries whose cache keys are unambiguous every cached
    answer is the uncached one, whatever was asked before and whatever was
    replaced; the caches stay within their bounds; and an ambiguous query gets
    a route that belongs to another one. *)
From S2P Require Import Prelude JsString JsMap Normalization SessionKeyUtils SessionKey RouteConfig.
From S2P Require Import ResolveRoute RouteRefinement.

(** ** Keys *)

Definition tab : ascii := "009"%char.
Definition comma : ascii := ","%char.
Definition hyphen : jstr := lit "-".

Definition formatRouteCachePeer (peer : option RoutePeer) : jstr :=
  match peer with
  | None => hyphen
  | Some p => if negb (truthy (rp_id p)) then hyphen else peer_key (rp_kind p) (rp_id p)
  end.

Definition formatRoleIdsCacheKey (roleIds : list jstr) : jstr :=
  match roleIds with
  | [] => hyphen
  | [role] => role
  | [first; second] =>
      if jstr_le first second then first ++ comma :: second else second ++ comma :: first
  | _ => join [comma] (to_sorted roleIds)
  end.

Definition buildResolvedRouteCacheKey (q : RouteQuery) (dmScope : DmScope) : jstr :=
  join [tab]
    [ rq_channel q; rq_accountId q; formatRouteCachePeer (rq_peer q);
      formatRouteCachePeer (rq_parentPeer q); str_or (rq_guildId q) hyphen;
      str_or (rq_teamId q) hyphen; formatRoleIdsCacheKey (rq_memberRoleIds q);
      dm_scope_name dmScope ].

Definition channel_account_key (channel accountId : jstr) : jstr := channel ++ tab :: accountId.

(** ** State *)

Record ConfigObject := { co_id : nat; co_agents : nat; co_bindings : nat; co_session : nat }.

Record AgentLookupCache := { ac_agentsRef : nat; ac_lookup : AgentLookup }.

Record EvaluatedBindingsCache := {
  ec_bindingsRef : nat;
  ec_byChannel : list (jstr * EvaluatedBindingsByChannel);
  ec_byChannelAccount : list (jstr * list EvaluatedBinding);
  ec_byChannelAccountIndex : list (jstr * EvaluatedBindingsIndex);
}.

Record ResolvedRouteCache := {
  rr_bindingsRef : nat;
  rr_agentsRef : nat;
  rr_sessionRef : nat;
  rr_byKey : list (jstr * ResolvedAgentRoute);
}.

Record RouteCaches := {
  agentLookupCacheByCfg : list (nat * AgentLookupCache);
  evaluatedBindingsCacheByCfg : list (nat * EvaluatedBindingsCache);
  resolvedRouteCacheByCfg : list (nat * ResolvedRouteCache);
}.

Definition no_caches : RouteCaches :=
  {| agentLookupCacheByCfg := []; evaluatedBindingsCacheByCfg := []; resolvedRouteCacheByCfg := [] |}.

Definition with_agentLookup (st : RouteCaches) x : RouteCaches :=
  {| agentLookupCacheByCfg := x; evaluatedBindingsCacheByCfg := evaluatedBindingsCacheByCfg st;
     resolvedRouteCacheByCfg := resolvedRouteCacheByCfg st |}.
Definition with_evaluated (st : RouteCaches) x : RouteCaches :=
  {| agentLookupCacheByCfg := agentLookupCacheByCfg st; evaluatedBindingsCacheByCfg := x;
     resolvedRouteCacheByCfg := resolvedRouteCacheByCfg st |}.
Definition with_routes (st : RouteCaches) x : RouteCaches :=
  {| agentLookupCacheByCfg := agentLookupCacheByCfg st;
     evaluatedBindingsCacheByCfg := evaluatedBindingsCacheByCfg st; resolvedRouteCacheByCfg := x |}.

Definition MAX_EVALUATED_BINDINGS_CACHE_KEYS : nat := 2000.
Definition MAX_RESOLVED_ROUTE_CACHE_KEYS : nat := 4000.

(** ** Operations *)

Section caches.
(** What the references of configuration objects point to. *)
Context (agents_at : nat -> option (list AgentEntry)).
Context (bindings_at : nat -> option (list AgentBinding)).
Context (session_at : nat -> option SessionConfig).

Definition config_at (agents bindings session : nat) : Config :=
  {| cfg_agents := agents_at agents; cfg_bindings := bindings_at bindings;
     cfg_session := session_at session |}.

Definition deref (cfg : ConfigObject) : Config :=
  config_at (co_agents cfg) (co_bindings cfg) (co_session cfg).

Definition resolveAgentLookupCache (st : RouteCaches) (cfg : ConfigObject)
    : AgentLookup * RouteCaches :=
  let fresh :=
    let next := buildAgentLookup (deref cfg) in
    (next, with_agentLookup st
       (jm_set (co_id cfg) {| ac_agentsRef := co_agents cfg; ac_lookup := next |}
          (agentLookupCacheByCfg st))) in
  match jm_get (co_id cfg) (agentLookupCacheByCfg st) with
  | Some existing =>
      if decide (ac_agentsRef existing = co_agents cfg) then (ac_lookup existing, st) else fresh
  | None => fresh
  end.

Definition getEvaluatedBindingsForChannelAccount (st : RouteCaches) (cfg : ConfigObject)
    (channel accountId : jstr) : list EvaluatedBinding * RouteCaches :=
  let fresh :=
    {| ec_bindingsRef := co_bindings cfg;
       ec_byChannel := buildEvaluatedBindingsByChannel (deref cfg);
       ec_byChannelAccount := []; ec_byChannelAccountIndex := [] |} in
  let cache :=
    match jm_get (co_id cfg) (evaluatedBindingsCacheByCfg st) with
    | Some existing =>
        if decide (ec_bindingsRef existing = co_bindings cfg) then existing else fresh
    | None => fresh
    end in
  let store cache :=
    with_evaluated st (jm_set (co_id cfg) cache (evaluatedBindingsCacheByCfg st)) in
  let cacheKey := channel_account_key channel accountId in
  match jm_get cacheKey (ec_byChannelAccount cache) with
  | Some hit => (hit, store cache)
  | None =>
      let evaluated := lookupChannelAccount (ec_byChannel cache) channel accountId in
      let index := buildEvaluatedBindingsIndex evaluated in
      let byChannelAccount := jm_set cacheKey evaluated (ec_byChannelAccount cache) in
      let byIndex := jm_set cacheKey index (ec_byChannelAccountIndex cache) in
      let '(byChannelAccount, byIndex) :=
        if (MAX_EVALUATED_BINDINGS_CACHE_KEYS <? length byChannelAccount)%nat
        then ([(cacheKey, evaluated)], [(cacheKey, index)])
        else (byChannelAccount, byIndex) in
      (evaluated, store {| ec_bindingsRef := ec_bindingsRef cache;
         ec_byChannel := ec_byChannel cache; ec_byChannelAccount := byChannelAccount;
         ec_byChannelAccountIndex := byIndex |})
  end.

Definition getEvaluatedBindingIndexForChannelAccount (st : RouteCaches) (cfg : ConfigObject)
    (channel accountId : jstr) : EvaluatedBindingsIndex * RouteCaches :=
  let '(bindings, st) := getEvaluatedBindingsForChannelAccount st cfg channel accountId in
  let cacheKey := channel_account_key channel accountId in
  let existing := jm_get (co_id cfg) (evaluatedBindingsCacheByCfg st) in
  match existing ≫= fun e => jm_get cacheKey (ec_byChannelAccountIndex e) with
  | Some indexed => (indexed, st)
  | None =>
      let built := buildEvaluatedBindingsIndex bindings in
      match existing with
      | None => (built, st)
      | Some e =>
          (built, with_evaluated st
             (jm_set (co_id cfg)
                {| ec_bindingsRef := ec_bindingsRef e; ec_byChannel := ec_byChannel e;
                   ec_byChannelAccount := ec_byChannelAccount e;
                   ec_byChannelAccountIndex := jm_set cacheKey built (ec_byChannelAccountIndex e) |}
                (evaluatedBindingsCacheByCfg st)))
      end
  end.

(** The route cache of a configuration, replaced by an empty one when one of
    the references has changed. *)
Definition resolveRouteCacheForConfig (st : RouteCaches) (cfg : ConfigObject)
    : list (jstr * ResolvedAgentRoute) * RouteCaches :=
  let fresh :=
    ([], with_routes st
       (jm_set (co_id cfg)
          {| rr_bindingsRef := co_bindings cfg; rr_agentsRef := co_agents cfg;
             rr_sessionRef := co_session cfg; rr_byKey := [] |} (resolvedRouteCacheByCfg st))) in
  match jm_get (co_id cfg) (resolvedRouteCacheByCfg st) with
  | Some existing =>
      if decide (rr_bindingsRef existing = co_bindings cfg
                 /\ rr_agentsRef existing = co_agents cfg
                 /\ rr_sessionRef existing = co_session cfg)
      then (rr_byKey existing, st) else fresh
  | None => fresh
  end.

(** [routeCache.set] with the bound, on the map the call holds. *)
Definition storeRoute (st : RouteCaches) (cfg : ConfigObject) (key : jstr)
    (route : ResolvedAgentRoute) : RouteCaches :=
  match jm_get (co_id cfg) (resolvedRouteCacheByCfg st) with
  | None => st
  | Some c =>
      let byKey := jm_set key route (rr_byKey c) in
      let byKey :=
        if (MAX_RESOLVED_ROUTE_CACHE_KEYS <? length byKey)%nat then [(key, route)] else byKey in
      with_routes st
        (jm_set (co_id cfg)
           {| rr_bindingsRef := rr_bindingsRef c; rr_agentsRef := rr_agentsRef c;
              rr_sessionRef := rr_sessionRef c; rr_byKey := byKey |} (resolvedRouteCacheByCfg st))
  end.

(** The body of [resolveAgentRoute] after a miss, up to [choose]. *)
Definition resolveAgentRoute_miss (st : RouteCaches) (cfg : ConfigObject) (q : RouteQuery)
    : ResolvedAgentRoute * RouteCaches :=
  let '(_, st) := getEvaluatedBindingsForChannelAccount st cfg (rq_channel q) (rq_accountId q) in
  let '(index, st) :=
    getEvaluatedBindingIndexForChannelAccount st cfg (rq_channel q) (rq_accountId q) in
  let found := search_tiers q (routeTiers index q) in
  let '(lookup, st) := resolveAgentLookupCache st cfg in
  let session := cfg_session (deref cfg) in
  match found with
  | Some (matched, matchedBy) =>
      (chooseRoute lookup session q (ab_agentId (eb_binding matched)) matchedBy
         (ab_dmScope (eb_binding matched)), st)
  | None =>
      (chooseRoute lookup session q (resolveDefaultAgentId (deref cfg)) ByDefault None, st)
  end.

Definition session_dmScope (cfg : Config) : DmScope := default DmMain (cfg_session cfg ≫= sc_dmScope).

Definition session_identityLinks (cfg : Config) : option IdentityLinks :=
  cfg_session cfg ≫= sc_identityLinks.

Definition resolveRoute (shouldLogDebug : bool) (st : RouteCaches) (cfg : ConfigObject)
    (q : RouteQuery) : ResolvedAgentRoute * RouteCaches :=
  if negb shouldLogDebug && negb (bool_decide (is_Some (session_identityLinks (deref cfg)))) then
    let '(routeCache, st) := resolveRouteCacheForConfig st cfg in
    let key := buildResolvedRouteCacheKey q (session_dmScope (deref cfg)) in
    match jm_get key routeCache with
    | Some cached => (cached, st)
    | None =>
        let '(route, st) := resolveAgentRoute_miss st cfg q in
        (route, storeRoute st cfg key route)
    end
  else resolveAgentRoute_miss st cfg q.

Definition resolveAgentRoute (shouldLogDebug : bool) (st : RouteCaches) (cfg : ConfigObject)
    (input : ResolveAgentRouteInput) : ResolvedAgentRoute * RouteCaches :=
  resolveRoute shouldLogDebug st cfg (normalizeRouteInput input).

(** A sequence of calls, with the configuration objects as they are by then. *)
Fixpoint resolve_all (st : RouteCaches) (calls : list (bool * ConfigObject * ResolveAgentRouteInput))
    : list ResolvedAgentRoute * RouteCaches :=
  match calls with
  | [] => ([], st)
  | (debug, cfg, input) :: calls =>
      let '(route, st) := resolveAgentRoute debug st cfg input in
      let '(routes, st) := resolve_all st calls in
      (route :: routes, st)
  end.
End caches.

(** ** Keys determine routes *)

Lemma insert_sorted_Permutation x l : insert_sorted x l ≡ₚ x :: l.
Proof.
  induction l as [|y l IH]; simpl; [done|]. destruct (jstr_le x y); [done|].
  rewrite IH. apply Permutation_swap.
Qed.

Lemma to_sorted_Permutation l : to_sorted l ≡ₚ l.
Proof. induction l as [|x l IH]; simpl; [done|]. by rewrite insert_sorted_Permutation, IH. Qed.

Lemma formatRoleIdsCacheKey_eq roles :
  roles <> [] -> formatRoleIdsCacheKey roles = join [comma] (to_sorted roles).
Proof.
  destruct roles as [|a [|b [|c roles]]]; try done. intros _. unfold to_sorted.
  cbn [foldr insert_sorted formatRoleIdsCacheKey]. by destruct (jstr_le a b).
Qed.

Definition role_ok (role : jstr) : Prop :=
  role <> [] /\ role <> hyphen /\ free_of comma role /\ free_of tab role.

#[global] Instance role_ok_dec role : Decision (role_ok role).
Proof. unfold role_ok. apply _. Defined.

(** A query whose cache key is unambiguous. *)
Record key_safe (q : RouteQuery) : Prop := {
  ks_query : query_ok q;
  ks_channel : free_of tab (rq_channel q);
  ks_account : free_of tab (rq_accountId q);
  ks_peer : forall p, rq_peer q = Some p -> rp_id p <> [] /\ free_of tab (rp_id p);
  ks_parent : forall p, rq_parentPeer q = Some p -> free_of tab (rp_id p);
  ks_guild : rq_guildId q <> hyphen /\ free_of tab (rq_guildId q);
  ks_team : rq_teamId q <> hyphen /\ free_of tab (rq_teamId q);
  ks_roles : Forall role_ok (rq_memberRoleIds q);
}.

Lemma free_of_lit c (x : string) : bool_decide (free_of c (lit x)) = true -> free_of c (lit x).
Proof. apply bool_decide_eq_true_1. Qed.

Lemma free_of_join c sep l : free_of c sep -> Forall (free_of c) l -> free_of c (join sep l).
Proof.
  intros Hs H. induction H as [|x l Hx Hl IH]; [constructor|]. destruct l as [|y l]; [done|].
  change (join sep (x :: y :: l)) with (x ++ sep ++ join sep (y :: l)).
  by rewrite !free_of_app.
Qed.

Lemma formatRoleIdsCacheKey_inj r r' :
  Forall role_ok r -> Forall role_ok r' ->
  formatRoleIdsCacheKey r = formatRoleIdsCacheKey r' -> r ≡ₚ r'.
Proof.
  assert (forall r, Forall role_ok r -> r <> [] ->
    split_on comma (formatRoleIdsCacheKey r) = to_sorted r) as Hsplit.
  { intros l Hl Hne. rewrite formatRoleIdsCacheKey_eq by done. apply split_join.
    - intros E. apply Hne. pose proof (to_sorted_Permutation l) as P. rewrite E in P.
      by apply Permutation_nil in P.
    - rewrite to_sorted_Permutation. eapply Forall_impl; [exact Hl|]. by intros ? (_ & _ & ? & _). }
  assert (forall r, Forall role_ok r -> formatRoleIdsCacheKey r = hyphen -> r = []) as Hhy.
  { intros l Hl E. destruct (decide (l = [])) as [|Hne]; [done|].
    specialize (Hsplit l Hl Hne). rewrite E in Hsplit.
    change (split_on comma hyphen) with [hyphen] in Hsplit.
    rewrite <- to_sorted_Permutation, <- Hsplit in Hl.
    apply Forall_cons in Hl as [(_ & ? & _) _]. done. }
  intros Hr Hr' E.
  destruct (decide (r = [])) as [->|Hne]; [symmetry in E; by rewrite (Hhy r')|].
  destruct (decide (r' = [])) as [->|Hne']; [by rewrite (Hhy r)|].
  rewrite <- (to_sorted_Permutation r), <- (to_sorted_Permutation r').
  by rewrite <- !Hsplit, E.
Qed.

Lemma formatRouteCachePeer_inj p p' :
  formatRouteCachePeer p = formatRouteCachePeer p' ->
  p = p' \/ (from_option rp_id [] p = [] /\ from_option rp_id [] p' = []).
Proof.
  assert (forall k i, peer_key k i <> hyphen) as Hne by by intros [].
  destruct p as [[k i]|], p' as [[k' i']|]; simpl; [|..|auto];
    destruct (decide (i = [])) as [->|Hi] || idtac; try destruct (decide (i' = [])) as [->|Hi'];
    simpl; auto; rewrite ?(proj2 (truthy_spec _)) by done; simpl; intros E; try naive_solver.
  - apply chat_peer_key_inj in E as [-> ->]. auto.
Qed.

Lemma free_of_formatRouteCachePeer p :
  (forall x, p = Some x -> free_of tab (rp_id x)) -> free_of tab (formatRouteCachePeer p).
Proof.
  intros H. destruct p as [x|]; [|by apply free_of_lit]. simpl.
  destruct (truthy (rp_id x)); [|by apply free_of_lit]. simpl. unfold peer_key.
  apply free_of_app; split; [destruct (rp_kind x); by apply free_of_lit|].
  apply free_of_app; split; [by apply free_of_lit|eauto].
Qed.

Lemma str_or_hyphen_inj a b :
  a <> hyphen -> b <> hyphen -> str_or a hyphen = str_or b hyphen -> a = b.
Proof. destruct a, b; simpl; congruence. Qed.

Lemma free_of_str_or c a b : free_of c a -> free_of c b -> free_of c (str_or a b).
Proof. by destruct a. Qed.

Lemma key_parts_free q dm : key_safe q -> Forall (free_of tab)
    [ rq_channel q; rq_accountId q; formatRouteCachePeer (rq_peer q);
      formatRouteCachePeer (rq_parentPeer q); str_or (rq_guildId q) hyphen;
      str_or (rq_teamId q) hyphen; formatRoleIdsCacheKey (rq_memberRoleIds q);
      dm_scope_name dm ].
Proof.
  intros []. rewrite !Forall_cons, Forall_nil.
  assert (free_of tab hyphen) by by apply free_of_lit.
  split_and?; try done.
  - apply free_of_formatRouteCachePeer. naive_solver.
  - by apply free_of_formatRouteCachePeer.
  - apply free_of_str_or; tauto.
  - apply free_of_str_or; tauto.
  - destruct (decide (rq_memberRoleIds q = [])) as [->|Hne]; [by apply free_of_lit|].
    rewrite formatRoleIdsCacheKey_eq by done. apply free_of_join; [by apply (bool_decide_unpack _)|].
    rewrite to_sorted_Permutation. eapply Forall_impl; [exact ks_roles0|]. by intros ? (_ & _ & _ & ?).
  - destruct dm; by apply free_of_lit.
Qed.

(** Two queries that the router cannot tell apart. *)
Record same_query (q q' : RouteQuery) : Prop := {
  sq_channel : rq_channel q = rq_channel q';
  sq_account : rq_accountId q = rq_accountId q';
  sq_peer : rq_peer q = rq_peer q';
  sq_parent : rq_parentPeer q = rq_parentPeer q' \/
    (from_option rp_id [] (rq_parentPeer q) = [] /\ from_option rp_id [] (rq_parentPeer q') = []);
  sq_guild : rq_guildId q = rq_guildId q';
  sq_team : rq_teamId q = rq_teamId q';
  sq_roles : rq_memberRoleIds q ≡ₚ rq_memberRoleIds q';
}.

Lemma key_same_query q q' dm :
  key_safe q -> key_safe q' ->
  buildResolvedRouteCacheKey q dm = buildResolvedRouteCacheKey q' dm -> same_query q q'.
Proof.
  intros Hq Hq' E. apply (f_equal (split_on tab)) in E.
  unfold buildResolvedRouteCacheKey in E.
  rewrite !split_join in E by first [done|by apply key_parts_free].
  destruct Hq, Hq'. injection E as Ec Ea Ep Epp Eg Et Er. split; try done.
  - apply formatRouteCachePeer_inj in Ep as [|[Hp Hp']]; [done|].
    destruct (rq_peer q) as [p|], (rq_peer q') as [p'|]; cbn in Hp, Hp'; try done; naive_solver.
  - by apply formatRouteCachePeer_inj.
  - apply str_or_hyphen_inj; tauto.
  - apply str_or_hyphen_inj; tauto.
  - by apply formatRoleIdsCacheKey_inj.
Qed.

Lemma chooseRoute_same lookup session q q' a by_ dm :
  same_query q q' ->
  chooseRoute lookup session q a by_ dm = chooseRoute lookup session q' a by_ dm.
Proof. intros []. unfold chooseRoute. by rewrite sq_channel0, sq_account0, sq_peer0. Qed.

Lemma existsb_includes_perm roles (l l' : list jstr) :
  l ≡ₚ l' -> existsb (fun role => includes role l) roles = existsb (fun role => includes role l') roles.
Proof.
  intros H. induction roles as [|r roles IH]; simpl; [done|]. rewrite IH. f_equal.
  unfold includes. apply bool_decide_ext. by rewrite H.
Qed.

Lemma matchesBindingScope_same q q' m p :
  same_query q q' ->
  matchesBindingScope m (tier_scope q p) = matchesBindingScope m (tier_scope q' p).
Proof.
  intros []. unfold matchesBindingScope, tier_scope. cbn [bs_peer bs_guildId bs_teamId bs_memberRoleIds].
  rewrite sq_guild0, sq_team0.
  replace (routeBindingScopeMatches (nb_guildId m) (nb_teamId m) (nb_roles m)
    (VString (rq_guildId q')) (VString (rq_teamId q')) VUndefined (Some (rq_memberRoleIds q)))
  with (routeBindingScopeMatches (nb_guildId m) (nb_teamId m) (nb_roles m)
    (VString (rq_guildId q')) (VString (rq_teamId q')) VUndefined (Some (rq_memberRoleIds q')));
    [done|].
  unfold routeBindingScopeMatches, hasAnyRouteBindingRole.
  repeat case_match; try done. by apply existsb_includes_perm.
Qed.

Lemma linear_find_same q q' c p bs :
  same_query q q' -> linear_find q c p bs = linear_find q' c p bs.
Proof.
  intros H. apply find_first_ext. intros b _. by rewrite (matchesBindingScope_same q q').
Qed.

(** Queries that look the same get the same route. *)
Lemma linear_route_same cfg q q' : same_query q q' -> linear_route cfg q = linear_route cfg q'.
Proof.
  intros H. unfold linear_route.
  assert (linear_search q (channel_account_bindings cfg (rq_channel q) (rq_accountId q)) =
          linear_search q' (channel_account_bindings cfg (rq_channel q') (rq_accountId q'))) as ->.
  { rewrite (sq_channel _ _ H), (sq_account _ _ H). unfold linear_search.
    rewrite (sq_peer _ _ H), !(linear_find_same q q' _ _ _ H).
    assert (forall p, from_option rp_id [] p = [] -> linear_find q' ByPeer p
      (channel_account_bindings cfg (rq_channel q') (rq_accountId q')) = None) as Hnone.
    { intros [p|] Hp; [|apply no_peer_none; auto].
      apply empty_peer_none; [apply channel_account_bindings_ok|exact Hp]. }
    destruct (sq_parent _ _ H) as [->|[Hp Hp']]; [done|]. by rewrite (Hnone _ Hp), (Hnone _ Hp'). }
  unfold routeOfMatch. case_match; [case_match|]; by apply chooseRoute_same.
Qed.

Lemma resolveRouteQuery_linear cfg q : query_ok q -> resolveRouteQuery cfg q = linear_route cfg q.
Proof.
  intros Hq. unfold resolveRouteQuery, linear_route.
  rewrite lookupChannelAccount_eq, tiers_linear;
    auto using channel_account_bindings_sorted, channel_account_bindings_ok.
Qed.

Lemma key_same_route cfg q q' dm :
  key_safe q -> key_safe q' ->
  buildResolvedRouteCacheKey q dm = buildResolvedRouteCacheKey q' dm ->
  resolveRouteQuery cfg q = resolveRouteQuery cfg q'.
Proof.
  intros Hq Hq' E. rewrite !resolveRouteQuery_linear by auto using ks_query.
  apply linear_route_same. by eapply key_same_query.
Qed.

(** ** The caches are correct *)

Lemma channel_account_key_inj ch acc ch' acc' :
  free_of tab acc -> free_of tab acc' ->
  channel_account_key ch acc = channel_account_key ch' acc' -> ch = ch' /\ acc = acc'.
Proof.
  unfold channel_account_key. intros H H' E.
  assert (rev acc ++ tab :: rev ch = rev acc' ++ tab :: rev ch') as R.
  { apply (f_equal (@rev ascii)) in E. rewrite !rev_app_distr in E. simpl in E.
    by rewrite <- !app_assoc in E. }
  apply (f_equal (split_on tab)) in R as S.
  assert (free_of tab (rev acc)) by by apply Forall_rev.
  assert (free_of tab (rev acc')) by by apply Forall_rev.
  rewrite !split_on_app in S by done. injection S as Ea _.
  apply (f_equal (@rev ascii)) in Ea. rewrite !rev_involutive in Ea. subst acc'.
  apply app_inv_tail in E. done.
Qed.

Section correct.
Context (agents_at : nat -> option (list AgentEntry)).
Context (bindings_at : nat -> option (list AgentBinding)).
Context (session_at : nat -> option SessionConfig).

Notation config_at := (config_at agents_at bindings_at session_at).
Notation deref := (deref agents_at bindings_at session_at).

Definition lookup_ok (_ : nat) (c : AgentLookupCache) : Prop :=
  forall bindings session,
    ac_lookup c = buildAgentLookup (config_at (ac_agentsRef c) bindings session).

Record bindings_ok (id : nat) (c : EvaluatedBindingsCache) : Prop := {
  bo_byChannel : forall agents session,
    ec_byChannel c =
    buildEvaluatedBindingsByChannel (config_at agents (ec_bindingsRef c) session);
  bo_entries : forall channel accountId l, free_of tab accountId ->
    jm_get (channel_account_key channel accountId) (ec_byChannelAccount c) = Some l ->
    l = lookupChannelAccount (ec_byChannel c) channel accountId;
  bo_index : forall channel accountId ix, free_of tab accountId ->
    jm_get (channel_account_key channel accountId) (ec_byChannelAccountIndex c) = Some ix ->
    ix = buildEvaluatedBindingsIndex (lookupChannelAccount (ec_byChannel c) channel accountId);
  bo_bound : (length (ec_byChannelAccount c) <= MAX_EVALUATED_BINDINGS_CACHE_KEYS)%nat;
}.

Record routes_ok (id : nat) (c : ResolvedRouteCache) : Prop := {
  ro_entries : forall q route, key_safe q ->
    let cfg := config_at (rr_agentsRef c) (rr_bindingsRef c) (rr_sessionRef c) in
    jm_get (buildResolvedRouteCacheKey q (session_dmScope cfg)) (rr_byKey c) = Some route ->
    route = resolveRouteQuery cfg q;
  ro_bound : (length (rr_byKey c) <= MAX_RESOLVED_ROUTE_CACHE_KEYS)%nat;
}.

(** Every entry is what the uncached code computes, within the bounds. *)
Record caches_ok (st : RouteCaches) : Prop := {
  co_lookup : jm_all lookup_ok (agentLookupCacheByCfg st);
  co_evaluated : jm_all bindings_ok (evaluatedBindingsCacheByCfg st);
  co_routes : jm_all routes_ok (resolvedRouteCacheByCfg st);
}.

Lemma no_caches_ok : caches_ok no_caches.
Proof. split; apply jm_all_nil. Qed.

Lemma resolveAgentLookupCache_ok st cfg :
  caches_ok st ->
  (resolveAgentLookupCache agents_at bindings_at session_at st cfg).1 = buildAgentLookup (deref cfg) /\
  caches_ok (resolveAgentLookupCache agents_at bindings_at session_at st cfg).2.
Proof.
  intros [Hl He Hr]. unfold resolveAgentLookupCache.
  assert (lookup_ok (co_id cfg)
    {| ac_agentsRef := co_agents cfg; ac_lookup := buildAgentLookup (deref cfg) |}) as Hnew
    by done.
  destruct (jm_get _ _) as [c|] eqn:E; [case_decide as Hc|]; cbn [fst snd].
  - split; [|done]. apply (jm_all_get _ _ _ _ Hl) in E. rewrite (E (co_bindings cfg) (co_session cfg)).
    by rewrite Hc.
  - split; [done|]. split; simpl; auto using jm_all_set.
  - split; [done|]. split; simpl; auto using jm_all_set.
Qed.

(** The cache a call works on, found or fresh. *)
Lemma bindings_ok_fresh cfg : bindings_ok (co_id cfg)
  {| ec_bindingsRef := co_bindings cfg;
     ec_byChannel := buildEvaluatedBindingsByChannel (deref cfg);
     ec_byChannelAccount := []; ec_byChannelAccountIndex := [] |}.
Proof. split; try done. cbn [ec_byChannelAccount length]. lia. Qed.

Lemma getEvaluatedBindings_ok st cfg ch acc :
  caches_ok st -> free_of tab acc ->
  let r := getEvaluatedBindingsForChannelAccount agents_at bindings_at session_at st cfg ch acc in
  r.1 = lookupChannelAccount (buildEvaluatedBindingsByChannel (deref cfg)) ch acc /\
  caches_ok r.2 /\
  exists c, jm_get (co_id cfg) (evaluatedBindingsCacheByCfg r.2) = Some c /\
    ec_bindingsRef c = co_bindings cfg.
Proof.
  intros [Hl He Hr] Hacc. unfold getEvaluatedBindingsForChannelAccount.
  set (cache := match jm_get (co_id cfg) (evaluatedBindingsCacheByCfg st) with
    Some _ => _ | None => _ end).
  assert (bindings_ok (co_id cfg) cache /\ ec_bindingsRef cache = co_bindings cfg) as [Hc Href].
  { unfold cache. destruct (jm_get _ _) as [c|] eqn:E; [case_decide|];
      auto using bindings_ok_fresh. split; [|done]. by eapply jm_all_get. }
  clearbody cache. destruct Hc as [Hby Hen Hix Hb].
  assert (ec_byChannel cache = buildEvaluatedBindingsByChannel (deref cfg)) as Hby'.
  { rewrite (Hby (co_agents cfg) (co_session cfg)), Href. done. }
  cbv zeta. destruct (jm_get (channel_account_key ch acc) _) as [l|] eqn:E.
  { cbn [fst snd]. split; [rewrite <- Hby'; by apply Hen|]. split.
    - split; try done. apply jm_all_set; done.
    - exists cache. split; [apply jm_get_set_eq|done]. }
  set (l := lookupChannelAccount _ ch acc). set (ix := buildEvaluatedBindingsIndex l).
  set (m := jm_set _ l _). set (mi := jm_set _ ix _).
  assert (forall m' mi', (m' = m /\ mi' = mi /\ (length m <= MAX_EVALUATED_BINDINGS_CACHE_KEYS)%nat) \/
    (m' = [(channel_account_key ch acc, l)] /\ mi' = [(channel_account_key ch acc, ix)]) ->
    bindings_ok (co_id cfg) {| ec_bindingsRef := ec_bindingsRef cache; ec_byChannel := ec_byChannel cache;
      ec_byChannelAccount := m'; ec_byChannelAccountIndex := mi' |}) as Hnew.
  { intros m' mi' Hm.
    assert (forall c a v, free_of tab a -> jm_get (channel_account_key c a) m' = Some v ->
      (c = ch /\ a = acc /\ v = l) \/ jm_get (channel_account_key c a) (ec_byChannelAccount cache) = Some v)
      as H1.
    { intros c a v Ha. destruct Hm as [(-> & _ & _)|[-> _]]; unfold m; rewrite ?jm_get_set; simpl;
        case_decide as Hk; try done; auto; intros [= <-];
        apply channel_account_key_inj in Hk as [-> ->]; auto. }
    assert (forall c a v, free_of tab a -> jm_get (channel_account_key c a) mi' = Some v ->
      (c = ch /\ a = acc /\ v = ix) \/
      jm_get (channel_account_key c a) (ec_byChannelAccountIndex cache) = Some v) as H2.
    { intros c a v Ha. destruct Hm as [(_ & -> & _)|[_ ->]]; unfold mi; rewrite ?jm_get_set; simpl;
        case_decide as Hk; try done; auto; intros [= <-];
        apply channel_account_key_inj in Hk as [-> ->]; auto. }
    split; cbn [ec_bindingsRef ec_byChannel ec_byChannelAccount ec_byChannelAccountIndex].
    - exact Hby.
    - intros c a v Ha Hg. destruct (H1 c a v Ha Hg) as [(-> & -> & ->)|?]; [done|]. by apply Hen.
    - intros c a v Ha Hg. destruct (H2 c a v Ha Hg) as [(-> & -> & ->)|?]; [done|]. by apply Hix.
    - destruct Hm as [(-> & _ & ?)|[-> _]]; [done|]. cbn [length].
      unfold MAX_EVALUATED_BINDINGS_CACHE_KEYS. lia. }
  destruct (MAX_EVALUATED_BINDINGS_CACHE_KEYS <? length m)%nat eqn:Hlen; cbn [fst snd];
    (split; [by unfold l; rewrite Hby'|]; split;
     [split; try done; apply jm_all_set; [done|]; apply Hnew
     |eexists; split; [apply jm_get_set_eq|done]]); [by right|].
  apply Nat.ltb_ge in Hlen. auto.
Qed.

Lemma getEvaluatedIndex_ok st cfg ch acc :
  caches_ok st -> free_of tab acc ->
  let r := getEvaluatedBindingIndexForChannelAccount agents_at bindings_at session_at st cfg ch acc in
  r.1 = buildEvaluatedBindingsIndex
          (lookupChannelAccount (buildEvaluatedBindingsByChannel (deref cfg)) ch acc) /\
  caches_ok r.2.
Proof.
  intros Hst Hacc. unfold getEvaluatedBindingIndexForChannelAccount.
  pose proof (getEvaluatedBindings_ok st cfg ch acc Hst Hacc) as (Hb & Hst' & c & Hc & Href).
  destruct (getEvaluatedBindingsForChannelAccount _ _ _ st cfg ch acc) as [bindings st'].
  cbn [fst snd] in *. subst bindings. rewrite Hc. cbn [mbind option_bind].
  destruct Hst' as [Hl He Hr]. pose proof (jm_all_get _ _ _ _ He Hc) as Hok.
  pose proof Hok as [Hby Hen Hix Hbd].
  assert (ec_byChannel c = buildEvaluatedBindingsByChannel (deref cfg)) as Hby'.
  { by rewrite (Hby (co_agents cfg) (co_session cfg)), Href. }
  destruct (jm_get _ (ec_byChannelAccountIndex c)) as [ix|] eqn:E; cbn [fst snd].
  { split; [rewrite <- Hby'; by apply Hix|done]. }
  split; [done|]. split; simpl; [done| |done]. apply jm_all_set; [done|].
  split; cbn [ec_bindingsRef ec_byChannel ec_byChannelAccount ec_byChannelAccountIndex]; try done.
  intros ch' acc' ix Ha. rewrite jm_get_set. case_decide as Hk; [|by apply Hix].
  intros [= <-]. apply channel_account_key_inj in Hk as [-> ->]; [|done..]. by rewrite Hby'.
Qed.

Lemma resolveAgentRoute_miss_ok st cfg q :
  caches_ok st -> free_of tab (rq_accountId q) ->
  let r := resolveAgentRoute_miss agents_at bindings_at session_at st cfg q in
  r.1 = resolveRouteQuery (deref cfg) q /\ caches_ok r.2.
Proof.
  intros Hst Hacc. unfold resolveAgentRoute_miss.
  pose proof (getEvaluatedBindings_ok st cfg (rq_channel q) _ Hst Hacc) as (_ & Hst1 & _).
  destruct (getEvaluatedBindingsForChannelAccount _ _ _ _ _ _ _) as [bs st1]. cbn [fst snd] in *.
  pose proof (getEvaluatedIndex_ok st1 cfg (rq_channel q) _ Hst1 Hacc) as (Hix & Hst2).
  destruct (getEvaluatedBindingIndexForChannelAccount _ _ _ _ _ _ _) as [ix st2].
  cbn [fst snd] in *. subst ix.
  destruct (resolveAgentLookupCache_ok st2 cfg Hst2) as [Hlk Hst3].
  destruct (resolveAgentLookupCache _ _ _ _ _) as [lookup st3]. cbn [fst snd] in *. subst lookup.
  unfold resolveRouteQuery, routeOfMatch. by destruct (search_tiers _ _) as [[b by_]|].
Qed.

(** The map a call holds is the one of its configuration, with its references. *)
Lemma resolveRouteCacheForConfig_ok st cfg :
  caches_ok st ->
  let r := resolveRouteCacheForConfig st cfg in
  caches_ok r.2 /\
  (forall q route, key_safe q ->
    jm_get (buildResolvedRouteCacheKey q (session_dmScope (deref cfg))) r.1 = Some route ->
    route = resolveRouteQuery (deref cfg) q) /\
  exists c, jm_get (co_id cfg) (resolvedRouteCacheByCfg r.2) = Some c /\
    rr_bindingsRef c = co_bindings cfg /\ rr_agentsRef c = co_agents cfg /\
    rr_sessionRef c = co_session cfg.
Proof.
  intros [Hl He Hr]. unfold resolveRouteCacheForConfig.
  assert (routes_ok (co_id cfg)
    {| rr_bindingsRef := co_bindings cfg; rr_agentsRef := co_agents cfg;
       rr_sessionRef := co_session cfg; rr_byKey := [] |}) as Hnew.
  { split; [done|]. cbn [rr_byKey length]. lia. }
  destruct (jm_get _ _) as [c|] eqn:E; [case_decide as Hc|]; cbn [fst snd].
  - split; [done|]. split; [|exists c; tauto]. intros q route Hq.
    destruct (jm_all_get _ _ _ _ Hr E) as [Hen _].
    destruct Hc as (H1 & H2 & H3). specialize (Hen q route Hq). cbv zeta in Hen.
    rewrite H1, H2, H3 in Hen. exact Hen.
  - split; [split; simpl; auto using jm_all_set|]. split; [done|].
    eexists. split; [apply jm_get_set_eq|done].
  - split; [split; simpl; auto using jm_all_set|]. split; [done|].
    eexists. split; [apply jm_get_set_eq|done].
Qed.

(** A miss leaves the route caches alone. *)
Lemma resolveAgentRoute_miss_routes st cfg q :
  resolvedRouteCacheByCfg (resolveAgentRoute_miss agents_at bindings_at session_at st cfg q).2 =
  resolvedRouteCacheByCfg st.
Proof.
  assert (forall st ch acc, resolvedRouteCacheByCfg
    (getEvaluatedBindingsForChannelAccount agents_at bindings_at session_at st cfg ch acc).2 =
    resolvedRouteCacheByCfg st) as Hg.
  { intros. unfold getEvaluatedBindingsForChannelAccount. cbv zeta.
    destruct (jm_get (channel_account_key ch acc) _); [done|]. by destruct (_ <? _)%nat. }
  assert (forall st ch acc, resolvedRouteCacheByCfg
    (getEvaluatedBindingIndexForChannelAccount agents_at bindings_at session_at st cfg ch acc).2 =
    resolvedRouteCacheByCfg st) as Hi.
  { intros st0 ch acc. unfold getEvaluatedBindingIndexForChannelAccount. specialize (Hg st0 ch acc).
    destruct (getEvaluatedBindingsForChannelAccount _ _ _ st0 _ _ _) as [bs st1]. cbn [snd] in Hg.
    destruct (jm_get (co_id cfg) _) as [e|]; cbn [mbind option_bind]; [|done].
    by destruct (jm_get _ (ec_byChannelAccountIndex e)). }
  assert (forall st, resolvedRouteCacheByCfg
    (resolveAgentLookupCache agents_at bindings_at session_at st cfg).2 = resolvedRouteCacheByCfg st)
    as Ha.
  { intros. unfold resolveAgentLookupCache. destruct (jm_get _ _); [by case_decide|done]. }
  unfold resolveAgentRoute_miss.
  specialize (Hg st (rq_channel q) (rq_accountId q)).
  destruct (getEvaluatedBindingsForChannelAccount _ _ _ st _ _ _) as [bs st1]. cbn [snd] in Hg.
  specialize (Hi st1 (rq_channel q) (rq_accountId q)).
  destruct (getEvaluatedBindingIndexForChannelAccount _ _ _ st1 _ _ _) as [ix st2]. cbn [snd] in Hi.
  specialize (Ha st2).
  destruct (resolveAgentLookupCache _ _ _ st2 cfg) as [lk st3]. cbn [snd] in Ha.
  rewrite <- Hg, <- Hi, <- Ha. by destruct (search_tiers _ _) as [[b by_]|].
Qed.

Lemma storeRoute_ok st cfg c q :
  caches_ok st -> key_safe q ->
  jm_get (co_id cfg) (resolvedRouteCacheByCfg st) = Some c ->
  rr_bindingsRef c = co_bindings cfg -> rr_agentsRef c = co_agents cfg ->
  rr_sessionRef c = co_session cfg ->
  caches_ok (storeRoute st cfg (buildResolvedRouteCacheKey q (session_dmScope (deref cfg)))
    (resolveRouteQuery (deref cfg) q)).
Proof.
  intros [Hl He Hr] Hq Hc H1 H2 H3. unfold storeRoute. rewrite Hc.
  destruct (jm_all_get _ _ _ _ Hr Hc) as [Hen Hb].
  split; simpl; [done..|]. apply jm_all_set; [done|].
  set (key := buildResolvedRouteCacheKey q _). set (route := resolveRouteQuery _ q).
  assert (forall q' r', key_safe q' ->
    buildResolvedRouteCacheKey q' (session_dmScope (deref cfg)) = key -> r' = route ->
    r' = resolveRouteQuery (deref cfg) q') as Hsame.
  { intros q' r' Hq' Hk ->. by apply (key_same_route _ q q' (session_dmScope (deref cfg))). }
  split; cbn [rr_bindingsRef rr_agentsRef rr_sessionRef rr_byKey].
  - intros q' r' Hq'. rewrite H1, H2, H3. fold (deref cfg).
    specialize (Hen q' r' Hq'). cbv zeta in Hen. rewrite H1, H2, H3 in Hen. fold (deref cfg) in Hen.
    destruct (_ <? _)%nat.
    + simpl. case_decide as Hk; [|done]. intros [= <-]. by apply Hsame.
    + rewrite jm_get_set. case_decide as Hk; [|done]. intros [= <-]. by apply Hsame.
  - destruct (MAX_RESOLVED_ROUTE_CACHE_KEYS <? _)%nat eqn:Hlen; [|by apply Nat.ltb_ge in Hlen].
    cbn [length]. unfold MAX_RESOLVED_ROUTE_CACHE_KEYS. lia.
Qed.

(** One call on good caches: the uncached route, and good caches. *)
Lemma resolveAgentRoute_ok debug st cfg input :
  caches_ok st -> key_safe (normalizeRouteInput input) ->
  let r := resolveAgentRoute agents_at bindings_at session_at debug st cfg input in
  r.1 = resolveAgentRoute_uncached (deref cfg) input /\ caches_ok r.2.
Proof.
  intros Hst Hq. unfold resolveAgentRoute, resolveAgentRoute_uncached, resolveRoute.
  set (q := normalizeRouteInput input) in *.
  destruct (negb debug && _); [|by apply resolveAgentRoute_miss_ok; [|apply ks_account]].
  destruct (resolveRouteCacheForConfig_ok st cfg Hst) as (Hst1 & Hhit & c & Hc & H1 & H2 & H3).
  destruct (resolveRouteCacheForConfig st cfg) as [routeCache st1]. cbn [fst snd] in *.
  destruct (jm_get _ routeCache) as [cached|] eqn:E; cbn [fst snd].
  { split; [by apply Hhit|done]. }
  destruct (resolveAgentRoute_miss_ok st1 cfg q Hst1 (ks_account _ Hq)) as [Hr Hst2].
  pose proof (resolveAgentRoute_miss_routes st1 cfg q) as Hsame.
  destruct (resolveAgentRoute_miss _ _ _ st1 cfg q) as [route st2]. cbn [fst snd] in *. subst route.
  split; [done|]. apply (storeRoute_ok st2 cfg c q); try done. by rewrite Hsame.
Qed.

(** C9. The caches are transparent and bounded: after any sequence of calls on
    queries with unambiguous keys, whatever configuration objects they name and
    whichever of their [agents], [bindings] and [session] were replaced in
    between, every route is the one the uncached code gives for the
    configuration at its call, and the two bounded caches hold at most 2000 and
    4000 entries per configuration. *)
Theorem resolve_all_transparent calls st :
  caches_ok st ->
  Forall (fun c => key_safe (normalizeRouteInput c.2)) calls ->
  (resolve_all agents_at bindings_at session_at st calls).1 =
    map (fun c => resolveAgentRoute_uncached (deref c.1.2) c.2) calls /\
  let st' := (resolve_all agents_at bindings_at session_at st calls).2 in
  caches_ok st' /\
  jm_all (fun _ c => length (ec_byChannelAccount c) <= 2000)%nat (evaluatedBindingsCacheByCfg st') /\
  jm_all (fun _ c => length (rr_byKey c) <= 4000)%nat (resolvedRouteCacheByCfg st').
Proof.
  revert st. induction calls as [|[[debug cfg] input] calls IH]; intros st Hst Hc.
  - split; [done|]. cbn [resolve_all snd]. destruct Hst as [Hl He Hr].
    split; [done|]. split; intros k v Hin; [by destruct (He k v Hin)|by destruct (Hr k v Hin)].
  - apply Forall_cons in Hc as [Hq Hc]. cbn [snd] in Hq.
    destruct (resolveAgentRoute_ok debug st cfg input Hst Hq) as [Hr Hst1]. cbn [resolve_all].
    destruct (resolveAgentRoute _ _ _ debug st cfg input) as [route st1]. cbn [fst snd] in *.
    destruct (IH st1 Hst1 Hc) as [Hrs Hst2].
    destruct (resolve_all _ _ _ st1 calls) as [routes st2]. cbn [fst snd] in *.
    split; [|done]. cbn [map]. cbn [fst snd]. by rewrite Hr, Hrs.
Qed.
End correct.

(** ** Examples *)

Definition example_agents (r : nat) : option (list AgentEntry) :=
  match r with
  | 0%nat => Some [ {| ae_id := Some (lit "main"); ae_default := true |};
                    {| ae_id := Some (lit "ops"); ae_default := false |} ]
  | _ => Some [ {| ae_id := Some (lit "ops"); ae_default := true |} ]
  end.

Definition example_bindings (r : nat) : option (list AgentBinding) :=
  Some [
    {| ab_type := None; ab_agentId := lit "ops";
       ab_match := Some {| bm_channel := Some (lit "discord"); bm_accountId := Some (lit "*");
         bm_peer := None; bm_guildId := VString (lit "g1"); bm_teamId := VUndefined;
         bm_roles := Some [lit "admin"] |};
       ab_dmScope := None |} ].

Definition example_session (r : nat) : option SessionConfig :=
  Some {| sc_dmScope := Some PerPeer; sc_mainKey := None; sc_identityLinks := None |}.

Definition example_object (agents : nat) : ConfigObject :=
  {| co_id := 7; co_agents := agents; co_bindings := 0; co_session := 0 |}.

Definition discord_input (peer : option (ChatType * jsval)) (roles : list jstr)
    : ResolveAgentRouteInput :=
  {| ri_channel := lit "Discord"; ri_accountId := None; ri_peer := peer; ri_parentPeer := None;
     ri_guildId := VString (lit "g1"); ri_teamId := VUndefined; ri_memberRoleIds := Some roles |}.

Lemma key_safe_example peer_id roles :
  bool_decide (peer_id <> []) && bool_decide (free_of tab peer_id) = true ->
  bool_decide (trim peer_id = peer_id) = true ->
  bool_decide (Forall role_ok roles) = true ->
  key_safe (normalizeRouteInput (discord_input (Some (Group, VString peer_id)) roles)).
Proof.
  intros Hp Ht Hr. bool_to_prop. split.
  - apply normalizeRouteInput_ok.
  - by apply (bool_decide_unpack _).
  - by apply (bool_decide_unpack _).
  - intros p. cbn. intros [= <-]. cbn [normalizeRoutePeer rp_id snd normalizeRouteBindingId].
    by match goal with E : trim peer_id = peer_id |- _ => rewrite E end.
  - done.
  - split; [done|by apply (bool_decide_unpack _)].
  - split; [done|by apply (bool_decide_unpack _)].
  - exact Hr.
Qed.

Definition example_calls : list (bool * ConfigObject * ResolveAgentRouteInput) :=
  let group := Some (Group, VString (lit "c1")) in
  [ (false, example_object 0, discord_input group [lit "admin"]);
    (false, example_object 0, discord_input group []);
    (false, example_object 1, discord_input group []) ].

Lemma resolve_all_transparent_witness :
  map ra_agentId
    (resolve_all example_agents example_bindings example_session no_caches example_calls).1
  = [lit "ops"; lit "main"; lit "ops"].
Proof.
  rewrite (proj1 (resolve_all_transparent example_agents example_bindings example_session
    example_calls no_caches (no_caches_ok _ _ _) ltac:(
      unfold example_calls; rewrite !Forall_cons, Forall_nil; cbn [snd]; split_and?; try done;
      apply key_safe_example; by vm_compute))).
  by vm_compute.
Defined.

(** The key of a peer with an empty id is the key of no peer: once a call
    without a peer has been answered, the same call with such a peer (a group
    whose id is blank, say) gets that answer, the session of the peerless call,
    where the uncached code gives a session of its own. *)
Theorem empty_peer_id_gets_peerless_route agents_at bindings_at session_at st cfg q kind :
  session_identityLinks (deref agents_at bindings_at session_at cfg) = None ->
  rq_peer q = None ->
  let q' := {| rq_channel := rq_channel q; rq_accountId := rq_accountId q;
    rq_peer := Some {| rp_kind := kind; rp_id := [] |}; rq_parentPeer := rq_parentPeer q;
    rq_guildId := rq_guildId q; rq_teamId := rq_teamId q;
    rq_memberRoleIds := rq_memberRoleIds q |} in
  let r := resolveRoute agents_at bindings_at session_at false st cfg q in
  (resolveRoute agents_at bindings_at session_at false r.2 cfg q').1 = r.1.
Proof.
  intros Hlinks Hpeer q' r.
  set (dm := session_dmScope (deref agents_at bindings_at session_at cfg)).
  assert (buildResolvedRouteCacheKey q' dm = buildResolvedRouteCacheKey q dm) as Hkey.
  { unfold buildResolvedRouteCacheKey, q'. cbn. by rewrite Hpeer. }
  assert (exists c, jm_get (co_id cfg) (resolvedRouteCacheByCfg r.2) = Some c /\
    (rr_bindingsRef c = co_bindings cfg /\ rr_agentsRef c = co_agents cfg /\
     rr_sessionRef c = co_session cfg) /\
    jm_get (buildResolvedRouteCacheKey q dm) (rr_byKey c) = Some r.1) as (c & Hc & Hrefs & Hget).
  2:{ unfold resolveRoute. rewrite Hlinks. cbn [negb andb bool_decide].
      rewrite bool_decide_eq_false_2 by by intros []. cbn [negb].
      unfold resolveRouteCacheForConfig. rewrite Hc, decide_True by done. fold dm.
      by rewrite Hkey, Hget. }
  subst r. unfold resolveRoute. rewrite Hlinks.
  rewrite bool_decide_eq_false_2 by by intros []. cbn [negb andb].
  assert (exists c, jm_get (co_id cfg) (resolvedRouteCacheByCfg (resolveRouteCacheForConfig st cfg).2) = Some c /\
    (rr_bindingsRef c = co_bindings cfg /\ rr_agentsRef c = co_agents cfg /\
     rr_sessionRef c = co_session cfg) /\
    rr_byKey c = (resolveRouteCacheForConfig st cfg).1) as (c & Hc & Hrefs & Hby).
  { unfold resolveRouteCacheForConfig.
    destruct (jm_get (co_id cfg) (resolvedRouteCacheByCfg st)) as [c|] eqn:E;
      [case_decide|]; cbn [fst snd];
      try (eexists; split; [apply jm_get_set_eq|done]). eauto. }
  destruct (resolveRouteCacheForConfig st cfg) as [routeCache st1]. cbn [fst snd] in *. subst routeCache.
  fold dm. destruct (jm_get _ (rr_byKey c)) as [cached|] eqn:E; cbn [fst snd]; [eauto|].
  pose proof (resolveAgentRoute_miss_routes agents_at bindings_at session_at st1 cfg q) as Hsame.
  destruct (resolveAgentRoute_miss _ _ _ st1 cfg q) as [route st2]. cbn [fst snd] in *.
  unfold storeRoute. rewrite Hsame, Hc. eexists. split; [apply jm_get_set_eq|]. split; [done|].
  cbn [rr_byKey]. destruct (_ <? _)%nat; [simpl; by rewrite decide_True|apply jm_get_set_eq].
Qed.

Definition peerless_query : RouteQuery :=
  {| rq_channel := lit "telegram"; rq_accountId := lit "default"; rq_peer := None;
     rq_parentPeer := None; rq_guildId := []; rq_teamId := []; rq_memberRoleIds := [] |}.

Definition blank_group_query : RouteQuery :=
  {| rq_channel := lit "telegram"; rq_accountId := lit "default";
     rq_peer := Some {| rp_kind := Group; rp_id := [] |};
     rq_parentPeer := None; rq_guildId := []; rq_teamId := []; rq_memberRoleIds := [] |}.

Lemma empty_peer_id_gets_peerless_route_witness :
  let resolve := resolveRoute example_agents example_bindings example_session false in
  let cfg := example_object 0 in
  ra_sessionKey (resolve (resolve no_caches cfg peerless_query).2 cfg blank_group_query).1
    = lit "agent:main:main" /\
  ra_sessionKey (resolve no_caches cfg blank_group_query).1
    = lit "agent:main:telegram:group:unknown".
Proof.
  cbv zeta. split; [|by vm_compute].
  change blank_group_query with {| rq_channel := rq_channel peerless_query;
    rq_accountId := rq_accountId peerless_query;
    rq_peer := Some {| rp_kind := Group; rp_id := [] |};
    rq_parentPeer := rq_parentPeer peerless_query;
    rq_guildId := rq_guildId peerless_query; rq_teamId := rq_teamId peerless_query;
    rq_memberRoleIds := rq_memberRoleIds peerless_query |}.
  rewrite (empty_peer_id_gets_peerless_route example_agents example_bindings example_session
    no_caches (example_object 0) peerless_query Group); by vm_compute.
Defined.
