(* ===== verification/JsRegExp.v ===== *)
(** * Regular expressions

    The part of JavaScript's regular expressions that [test] needs: whether some
    part of a string matches.  An expression is matched at positions of the
    string, since anchors and word boundaries look at the characters around a
    position.  [ends] computes where the matches that begin at a position end,
    and agrees with the relation [matches]. *)
From S2P Require Import Prelude JsString.

Inductive regexp :=
  | REmpty
  | RChar (p : ascii -> bool)
  | RSeq (a b : regexp)
  | RAlt (a b : regexp)
  | RStar (a : regexp)
  | RStart
  | REnd
  | RWordBoundary.

(** [\w]. *)
Definition is_word (c : ascii) : bool := is_az_i c || is_digit c || is_char "_"%char c.

Definition word_at (s : jstr) (i : nat) : bool :=
  match s !! i with Some c => is_word c | None => false end.

(** [\b]: exactly one of the characters around the position is a word character. *)
Definition boundary (s : jstr) (i : nat) : bool :=
  xorb (match i with O => false | S j => word_at s j end) (word_at s i).

(** The match of an expression from position [i] to position [j]. *)
Inductive matches (s : jstr) : regexp -> nat -> nat -> Prop :=
  | m_empty i : matches s REmpty i i
  | m_char p i c : s !! i = Some c -> p c = true -> matches s (RChar p) i (S i)
  | m_seq a b i j k : matches s a i j -> matches s b j k -> matches s (RSeq a b) i k
  | m_alt_l a b i j : matches s a i j -> matches s (RAlt a b) i j
  | m_alt_r a b i j : matches s b i j -> matches s (RAlt a b) i j
  | m_star_nil a i : matches s (RStar a) i i
  | m_star_cons a i j k : matches s a i j -> matches s (RStar a) j k -> matches s (RStar a) i k
  | m_start : matches s RStart 0 0
  | m_end : matches s REnd (length s) (length s)
  | m_word i : boundary s i = true -> matches s RWordBoundary i i.

(** The ends of repeated matches: each round moves on. *)
Fixpoint star_ends (step : nat -> list nat) (fuel : nat) (i : nat) : list nat :=
  match fuel with
  | O => [i]
  | S fuel => i :: (List.filter (fun j => (i <? j)%nat) (step i) ≫= star_ends step fuel)
  end.

Fixpoint ends (s : jstr) (r : regexp) (i : nat) : list nat :=
  match r with
  | REmpty => [i]
  | RChar p => match s !! i with Some c => if p c then [S i] else [] | None => [] end
  | RSeq a b => ends s a i ≫= ends s b
  | RAlt a b => ends s a i ++ ends s b i
  | RStar a => star_ends (ends s a) (length s - i) i
  | RStart => if (i =? 0)%nat then [i] else []
  | REnd => if (i =? length s)%nat then [i] else []
  | RWordBoundary => if boundary s i then [i] else []
  end.

(** [re.test(s)]. *)
Definition test (r : regexp) (s : jstr) : bool :=
  existsb (fun i => bool_decide (ends s r i <> [])) (seq 0 (S (length s))).

(** ** Correctness *)

Lemma matches_mono s r i j : matches s r i j -> (i <= j)%nat.
Proof. induction 1; lia. Qed.

Lemma matches_bound s r i j : matches s r i j -> (i <= length s)%nat -> (j <= length s)%nat.
Proof.
  induction 1 as [|p i c Hi| | | | | | | |]; intros; try lia; auto.
  apply lookup_lt_Some in Hi. lia.
Qed.

(** Repetitions that stand still can be left out. *)
Lemma matches_star_proper s a i k : matches s (RStar a) i k ->
  i = k \/ exists j, (i < j)%nat /\ matches s a i j /\ matches s (RStar a) j k.
Proof.
  intros H. remember (RStar a) as r. induction H as [| | | | | |a' i j k H1 _ H2 IH| | |]; simplify_eq;
    [by left|]. destruct (decide (i = j)) as [->|Hne]; [by apply IH|].
  right. exists j. pose proof (matches_mono _ _ _ _ H1). split_and!; [lia|done|done].
Qed.

Lemma star_ends_spec s a fuel i k :
  (forall i j, (i <= length s)%nat -> j ∈ ends s a i <-> matches s a i j) ->
  (i <= length s)%nat -> (length s - i <= fuel)%nat ->
  k ∈ star_ends (ends s a) fuel i <-> matches s (RStar a) i k.
Proof.
  intros Ha. revert i. induction fuel as [|fuel IH]; intros i Hi Hf; cbn [star_ends].
  - rewrite list_elem_of_singleton. split; [intros ->; constructor|].
    intros [|(j & Hj & H1 & _)]%matches_star_proper; [done|].
    pose proof (matches_bound _ _ _ _ H1 Hi). lia.
  - rewrite elem_of_cons, list_elem_of_bind. split.
    + intros [->|(j & Hk & Hj)]; [constructor|].
      apply list_elem_of_In, filter_In in Hj as [Hj Hlt%Nat.ltb_lt]. apply list_elem_of_In, Ha in Hj; [|done].
      pose proof (matches_bound _ _ _ _ Hj Hi). apply IH in Hk; [|lia..]. by econstructor.
    + intros [|(j & Hj & H1 & H2)]%matches_star_proper; [by left|]. right. exists j. split.
      * pose proof (matches_bound _ _ _ _ H1 Hi). apply IH; [lia..|done].
      * apply list_elem_of_In, filter_In. split; [by apply list_elem_of_In, Ha|by apply Nat.ltb_lt].
Qed.

Lemma ends_spec s r i j : (i <= length s)%nat -> j ∈ ends s r i <-> matches s r i j.
Proof.
  revert i j. induction r as [|p|a IHa b IHb|a IHa b IHb|a IHa| | |]; intros i j Hi; cbn [ends].
  - rewrite list_elem_of_singleton. split; [intros ->; constructor|by inversion 1].
  - destruct (s !! i) as [c|] eqn:E; [destruct (p c) eqn:Ep|]; split; intros H; try set_solver;
      try (inversion H; simplify_eq; congruence).
    + apply list_elem_of_singleton in H as ->. by econstructor.
    + inversion H. set_solver.
  - rewrite list_elem_of_bind. split.
    + intros (k & Hb & Ha). apply IHa in Ha; [|done]. pose proof (matches_bound _ _ _ _ Ha Hi).
      apply IHb in Hb; [|done]. by econstructor.
    + inversion 1 as [| |a' b' i' k j' Ha Hb| | | | | | |]; simplify_eq. exists k.
      pose proof (matches_bound _ _ _ _ Ha Hi). split; [by apply IHb|by apply IHa].
  - rewrite elem_of_app, IHa, IHb by done. split.
    + intros [?|?]; [by apply m_alt_l|by apply m_alt_r].
    + inversion 1; simplify_eq; auto.
  - apply star_ends_spec; [intros; by apply IHa|done|lia].
  - destruct (Nat.eqb_spec i 0) as [->|]; split; intros H; try set_solver.
    + apply list_elem_of_singleton in H as ->. constructor.
    + inversion H. set_solver.
    + inversion H; lia.
  - destruct (Nat.eqb_spec i (length s)) as [->|]; split; intros H; try set_solver.
    + apply list_elem_of_singleton in H as ->. constructor.
    + inversion H. set_solver.
    + inversion H; lia.
  - destruct (boundary s i) eqn:E; split; intros H; try set_solver.
    + apply list_elem_of_singleton in H as ->. by constructor.
    + inversion H. set_solver.
    + inversion H; congruence.
Qed.

(** [test] finds a match exactly when there is one. *)
Lemma test_spec r s : test r s = true <-> exists i j, (i <= length s)%nat /\ matches s r i j.
Proof.
  unfold test. rewrite existsb_exists. split.
  - intros (i & Hi & Hne%bool_decide_eq_true). apply in_seq in Hi.
    destruct (ends s r i) as [|j l] eqn:E; [done|]. exists i, j. split; [lia|].
    apply ends_spec; [lia|]. rewrite E. set_solver.
  - intros (i & j & Hi & Hm). exists i. split; [apply in_seq; lia|]. apply bool_decide_eq_true.
    apply ends_spec in Hm; [|done]. intros E. rewrite E in Hm. set_solver.
Qed.

(** ** Building expressions *)

Definition re_char (c : ascii) : regexp := RChar (is_char c).

(** A literal, and one in a case-insensitive expression, given in lower case. *)
Definition re_lit (w : jstr) : regexp := foldr (fun c r => RSeq (re_char c) r) REmpty w.
Definition re_lit_i (w : jstr) : regexp :=
  foldr (fun c r => RSeq (RChar (fun d => is_char c (lowerc d))) r) REmpty w.

Definition re_opt (r : regexp) : regexp := RAlt r REmpty.
Definition re_plus (r : regexp) : regexp := RSeq r (RStar r).
Definition re_alts (rs : list regexp) : regexp := foldr RAlt (RChar (fun _ => false)) rs.
Definition re_seqs (rs : list regexp) : regexp := foldr RSeq REmpty rs.

(** [r{0,n}]. *)
Fixpoint re_upto (n : nat) (r : regexp) : regexp :=
  match n with O => REmpty | S n => re_opt (RSeq r (re_upto n r)) end.

Definition re_digit : regexp := RChar is_digit.
Definition re_space : regexp := RChar is_space.

(** A class of characters listed in a string, with [\s]. *)
Definition re_class_or_space (cs : jstr) : regexp := RChar (fun c => is_space c || bool_decide (c ∈ cs)).
