(* ===== verification/JsNumber.v ===== *)
(** * JavaScript numbers

    A double is a rational number, an infinity or NaN ([-0] is not told apart
    from [0]).  Comparisons and [Math.floor] are exact on doubles; an arithmetic
    operation is the exact one followed by [round], the rounding to the nearest
    double, ties to even, with its overflow to infinity. *)
From Stdlib Require Export QArith Qround.
From Stdlib Require Qcanon.
From S2P Require Import Prelude JsString.
#[local] Open Scope Z_scope.

Inductive num :=
  | NaN
  | Inf (negative : bool)
  | Fin (q : Q).

(** ** Rounding *)

(** [n / d] scaled by [2^-e] as a fraction of integers. *)
Definition scale (n d e : Z) : Z * Z :=
  if e <? 0 then (n * 2 ^ (- e), d) else (n, d * 2 ^ e).

(** The integer nearest to [n / d], ties to even. *)
Definition nearest_even (n d : Z) : Z :=
  let m := n / d in
  let r := n mod d in
  if (d <? 2 * r) || ((2 * r =? d) && Z.odd m) then m + 1 else m.

(** The exponent of the last place of a positive [n / d]. *)
Definition ulp_exponent (n d : Z) : Z :=
  let e0 := Z.log2 n - Z.log2 d in
  let '(a, b) := scale n d e0 in
  Z.max (-1074) ((if a <? b then e0 - 1 else e0) - 52).

Definition round_pos (n d : Z) : option Q :=
  let e := ulp_exponent n d in
  let '(a, b) := scale n d e in
  let m := nearest_even a b in
  let '(v, w) := if e <? 0 then (m, 2 ^ (- e)) else (m * 2 ^ e, 1) in
  if w * 2 ^ 1024 <=? v then None else Some (Qred (Qmake v (Z.to_pos w))).

(** The double nearest to a rational. *)
Definition round (q : Q) : num :=
  let q := Qred q in
  let n := Qnum q in
  let d := Zpos (Qden q) in
  if n =? 0 then Fin 0
  else if 0 <? n then
    match round_pos n d with Some v => Fin v | None => Inf false end
  else
    match round_pos (- n) d with Some v => Fin (- v) | None => Inf true end.

(** ** Operations *)

Definition of_Z (z : Z) : num := Fin (inject_Z z).

Definition isFinite (x : num) : bool := match x with Fin _ => true | _ => false end.

Definition num_lt (x y : num) : bool :=
  match x, y with
  | NaN, _ | _, NaN => false
  | Inf true, Inf true => false
  | Inf true, _ => true
  | _, Inf true => false
  | Inf false, _ => false
  | _, Inf false => true
  | Fin a, Fin b => negb (Qle_bool b a)
  end.

Definition num_le (x y : num) : bool :=
  match x, y with
  | NaN, _ | _, NaN => false
  | Inf true, _ => true
  | _, Inf false => true
  | _, Inf true => false
  | Inf false, _ => false
  | Fin a, Fin b => Qle_bool a b
  end.

Definition num_add (x y : num) : num :=
  match x, y with
  | Fin a, Fin b => round (a + b)%Q
  | NaN, _ | _, NaN => NaN
  | Inf s, Inf t => if Bool.eqb s t then Inf s else NaN
  | Inf s, _ | _, Inf s => Inf s
  end.

Definition num_neg (x : num) : num :=
  match x with NaN => NaN | Inf s => Inf (negb s) | Fin q => Fin (- q)%Q end.

Definition num_sub (x y : num) : num := num_add x (num_neg y).

Definition num_zero (x : num) : bool :=
  match x with Fin q => Qnum q =? 0 | _ => false end.

Definition num_negative (x : num) : bool :=
  match x with Fin q => Qnum q <? 0 | Inf s => s | NaN => false end.

Definition num_mul (x y : num) : num :=
  match x, y with
  | Fin a, Fin b => round (a * b)%Q
  | NaN, _ | _, NaN => NaN
  | _, _ => if num_zero x || num_zero y then NaN
            else Inf (xorb (num_negative x) (num_negative y))
  end.

(** Division; without [-0], a zero divisor counts as positive. *)
Definition num_div (x y : num) : num :=
  match x, y with
  | NaN, _ | _, NaN | Inf _, Inf _ => NaN
  | Inf s, Fin b => Inf (xorb s (num_negative (Fin b)))
  | Fin _, Inf _ => Fin 0
  | Fin a, Fin b =>
      if num_zero (Fin b) then if num_zero (Fin a) then NaN else Inf (num_negative (Fin a))
      else round (a / b)%Q
  end.

(** The remainder [%], which is exact and has the sign of the dividend. *)
Definition num_mod (x y : num) : num :=
  match x, y with
  | Fin a, Fin b =>
      if num_zero (Fin b) then NaN
      else Fin (Qred (a - b * inject_Z (Z.quot (Qnum (a / b)%Q) (Zpos (Qden (a / b)%Q))))%Q)
  | Fin a, Inf _ => Fin a
  | _, _ => NaN
  end.

(** [Math.floor], [Math.trunc], [Math.max], [Math.min]. *)
Definition math_floor (x : num) : num :=
  match x with Fin q => of_Z (Qfloor q) | _ => x end.

Definition math_trunc (x : num) : num :=
  match x with Fin q => of_Z (Z.quot (Qnum q) (Zpos (Qden q))) | _ => x end.

Definition math_max (x y : num) : num :=
  match x, y with NaN, _ | _, NaN => NaN | _, _ => if num_lt x y then y else x end.

Definition math_min (x y : num) : num :=
  match x, y with NaN, _ | _, NaN => NaN | _, _ => if num_lt y x then y else x end.

Definition MAX_SAFE_INTEGER : Z := 2 ^ 53 - 1.

(** The integer a number is. *)
Definition to_Z (x : num) : option Z :=
  match x with
  | Fin q => if (Qnum q mod Zpos (Qden q)) =? 0 then Some (Qnum q / Zpos (Qden q)) else None
  | _ => None
  end.

Definition isSafeInteger (x : num) : bool :=
  match to_Z x with
  | Some z => Z.abs z <=? MAX_SAFE_INTEGER
  | None => false
  end.

(** ** Laws *)

Lemma to_Z_of_Z z : to_Z (of_Z z) = Some z.
Proof. unfold to_Z, of_Z. cbn. by rewrite Z.mod_1_r, Z.div_1_r. Qed.

Lemma isSafeInteger_of_Z z : isSafeInteger (of_Z z) = (Z.abs z <=? MAX_SAFE_INTEGER).
Proof. unfold isSafeInteger. by rewrite to_Z_of_Z. Qed.

Lemma isFinite_Fin x : isFinite x = true <-> exists q, x = Fin q.
Proof. destruct x; naive_solver. Qed.

Lemma num_le_of_Z a b : num_le (of_Z a) (of_Z b) = (a <=? b).
Proof. unfold num_le, of_Z, inject_Z, Qle_bool. cbn. by rewrite !Z.mul_1_r. Qed.

Lemma num_lt_of_Z a b : num_lt (of_Z a) (of_Z b) = (a <? b).
Proof.
  unfold num_lt, of_Z, inject_Z, Qle_bool. cbn. rewrite !Z.mul_1_r.
  by rewrite <- Z.ltb_antisym.
Qed.

Lemma math_max_of_Z a b : math_max (of_Z a) (of_Z b) = of_Z (Z.max a b).
Proof.
  unfold math_max. cbn [of_Z]. fold (of_Z a) (of_Z b). rewrite num_lt_of_Z.
  destruct (a <? b) eqn:E; [apply Z.ltb_lt in E|apply Z.ltb_ge in E]; f_equal; lia.
Qed.

Lemma math_min_of_Z a b : math_min (of_Z a) (of_Z b) = of_Z (Z.min a b).
Proof.
  unfold math_min. cbn [of_Z]. fold (of_Z a) (of_Z b). rewrite num_lt_of_Z.
  destruct (b <? a) eqn:E; [apply Z.ltb_lt in E|apply Z.ltb_ge in E]; f_equal; lia.
Qed.

Lemma math_floor_of_Z z : math_floor (of_Z z) = of_Z z.
Proof. unfold math_floor, of_Z. by rewrite Qfloor_Z. Qed.

(** A positive finite number has a floor of at least zero. *)
Lemma Qfloor_nonneg q : Qle_bool q 0 = false -> 0 <= Qfloor q.
Proof.
  intros H. rewrite <- (Qfloor_Z 0). apply Qfloor_resp_le. apply Qlt_le_weak.
  apply Qnot_le_lt. intros Hle. change (inject_Z 0) with 0%Q in Hle.
  apply Qle_bool_iff in Hle. congruence.
Qed.

(** Integers up to [2^53] are doubles: rounding keeps them. *)
Lemma nearest_even_exact m d : 0 < d -> nearest_even (m * d) d = m.
Proof.
  intros Hd. unfold nearest_even. rewrite Z.div_mul, Z.mod_mul by lia.
  rewrite (proj2 (Z.ltb_ge _ _)) by lia. rewrite (proj2 (Z.eqb_neq _ _)) by lia. done.
Qed.

Lemma round_pos_exact n : 0 < n <= 2 ^ 53 -> exists v, round_pos n 1 = Some v /\ (v == inject_Z n)%Q.
Proof.
  intros Hn. unfold round_pos.
  assert (ulp_exponent n 1 = Z.log2 n - 52) as ->.
  { unfold ulp_exponent, scale. cbn [Z.log2]. pose proof (Z.log2_nonneg n).
    rewrite Z.sub_0_r, (proj2 (Z.ltb_ge _ _)) by lia.
    destruct (Z.log2_spec n) as [Hl _]; [lia|].
    rewrite (proj2 (Z.ltb_ge _ _)) by lia. lia. }
  pose proof (Z.log2_le_mono n (2 ^ 53) ltac:(lia)) as Hl. rewrite Z.log2_pow2 in Hl by lia.
  pose proof (Z.log2_nonneg n) as Hl0. set (e := Z.log2 n - 52).
  unfold scale. destruct (Z.ltb_spec e 0) as [He|He].
  - rewrite <- (Z.mul_1_r (n * 2 ^ (- e))), nearest_even_exact by lia.
    assert (0 < 2 ^ (- e)) as Hp by (apply Z.pow_pos_nonneg; lia).
    rewrite (proj2 (Z.leb_gt _ _)).
    + eexists. split; [done|]. rewrite Qred_correct. unfold Qeq, inject_Z. cbn [Qnum Qden].
      rewrite Z2Pos.id by lia. lia.
    + rewrite (Z.mul_comm n). apply Z.mul_lt_mono_pos_l; [done|].
      assert (2 ^ 53 < 2 ^ 1024) by (apply Z.pow_lt_mono_r; lia). lia.
  - assert (e = 0 \/ (e = 1 /\ n = 2 ^ 53)) as [->|[-> ->]].
    { destruct (decide (e = 0)); [by left|]. right.
      assert (Z.log2 n = 53) as E by lia. destruct (Z.log2_spec n) as [H1 _]; [lia|].
      rewrite E in H1. lia. }
    + replace (1 * 2 ^ 0) with 1 by done. rewrite <- (Z.mul_1_r n), nearest_even_exact by lia.
      replace (2 ^ 0) with 1 by done. rewrite !Z.mul_1_r, Z.mul_1_l.
      assert (2 ^ 53 < 2 ^ 1024) by (apply Z.pow_lt_mono_r; lia).
      rewrite (proj2 (Z.leb_gt _ _)) by lia.
      eexists. split; [done|]. rewrite Qred_correct. apply Qeq_refl.
    + eexists. split; by vm_compute.
Qed.

Lemma round_inject_Z z : Z.abs z <= 2 ^ 53 -> exists v, round (inject_Z z) = Fin v /\ (v == inject_Z z)%Q.
Proof.
  intros Hz. unfold round.
  rewrite Qcanon.Qred_identity by apply Z.gcd_1_r. cbn [Qnum Qden inject_Z].
  destruct (Z.eqb_spec z 0) as [->|Hne]; [by exists 0%Q|].
  destruct (Z.ltb_spec 0 z) as [Hp|Hn].
  - destruct (round_pos_exact z) as (v & -> & Hv); [lia|]. eauto.
  - destruct (round_pos_exact (- z)) as (v & -> & Hv); [lia|]. eexists. split; [done|].
    rewrite Hv. unfold Qeq, inject_Z. cbn. lia.
Qed.

(** Doubles are kept in lowest terms, so that the integer comes back as it was. *)
Lemma round_pos_reduced n d v : round_pos n d = Some v -> Qred v = v.
Proof.
  unfold round_pos. destruct (scale _ _ _). destruct (_ <? 0);
    cbv beta iota; (destruct (_ <=? _); [done|]); intros [= <-]; apply Qred_complete, Qred_correct.
Qed.

Lemma Qred_inject_Z z : Qred (inject_Z z) = inject_Z z.
Proof. apply Qcanon.Qred_identity, Z.gcd_1_r. Qed.

Lemma round_exact z : Z.abs z <= 2 ^ 53 -> round (inject_Z z) = of_Z z.
Proof.
  intros Hz. unfold round, of_Z. rewrite Qred_inject_Z. cbn [Qnum Qden inject_Z].
  destruct (Z.eqb_spec z 0) as [->|Hne]; [done|].
  assert (forall n v, round_pos n 1 = Some v -> (v == inject_Z n)%Q -> v = inject_Z n) as Hv.
  { intros n v E%round_pos_reduced Hn. by rewrite <- E, <- (Qred_inject_Z n); apply Qred_complete. }
  destruct (Z.ltb_spec 0 z) as [Hp|Hn].
  - destruct (round_pos_exact z) as (v & E & Hq); [lia|]. rewrite E. by rewrite (Hv _ _ E Hq).
  - destruct (round_pos_exact (- z)) as (v & E & Hq); [lia|]. rewrite E, (Hv _ _ E Hq).
    unfold inject_Z, Qopp. cbn. by rewrite Z.opp_involutive.
Qed.

(** Exact arithmetic on integers. *)
Lemma add_exact a b : Z.abs (a + b) <= 2 ^ 53 -> num_add (of_Z a) (of_Z b) = of_Z (a + b).
Proof.
  intros H. rewrite <- (round_exact (a + b)) by done. unfold num_add, of_Z. f_equal.
  unfold inject_Z, Qplus. cbn. by rewrite !Z.mul_1_r.
Qed.

Lemma sub_exact a b : Z.abs (a - b) <= 2 ^ 53 -> num_sub (of_Z a) (of_Z b) = of_Z (a - b).
Proof. intros H. rewrite <- Z.add_opp_r in *. unfold num_sub. by rewrite <- add_exact. Qed.

Lemma mul_exact a b : Z.abs (a * b) <= 2 ^ 53 -> num_mul (of_Z a) (of_Z b) = of_Z (a * b).
Proof. intros H. by rewrite <- (round_exact (a * b)). Qed.

(** Past [2^53] rounding stays past it. *)
Lemma round_large n : 2 ^ 53 < n < 2 ^ 54 -> exists m, round (inject_Z n) = of_Z m /\ 2 ^ 53 <= m <= 2 ^ 54.
Proof.
  intros Hn. assert (Z.log2 n = 53) as Hl by (apply Z.log2_unique; lia).
  assert (ulp_exponent n 1 = 1) as He.
  { unfold ulp_exponent, scale. rewrite Hl. cbn [Z.log2]. replace (53 - 0 <? 0) with false by done.
    replace (1 * 2 ^ (53 - 0)) with (2 ^ 53) by lia. rewrite (proj2 (Z.ltb_ge _ _)) by lia. done. }
  assert (exists k, nearest_even n 2 = k /\ 2 ^ 52 <= k <= 2 ^ 53) as (k & Hk & Hb).
  { eexists. split; [done|]. unfold nearest_even. pose proof (Z.div_mod n 2 ltac:(lia)).
    pose proof (Z.mod_pos_bound n 2 ltac:(lia)).
    destruct (_ || _) eqn:E; [|lia]. destruct (decide (n / 2 = 2 ^ 53 - 1)); lia. }
  exists (k * 2). split; [|lia]. unfold round. rewrite Qred_inject_Z. cbn [Qnum Qden inject_Z].
  rewrite (proj2 (Z.eqb_neq n 0)), (proj2 (Z.ltb_lt 0 n)) by lia.
  unfold round_pos. rewrite He. unfold scale. cbn [Z.ltb Z.compare]. change (1 * 2 ^ 1) with 2. rewrite Hk.
  assert (2 ^ 55 < 2 ^ 1024) by (apply Z.pow_lt_mono_r; lia).
  change (2 ^ 1) with 2. rewrite (proj2 (Z.leb_gt _ _)) by lia.
  change (Z.to_pos 1) with 1%positive. change (Qmake (k * 2) 1) with (inject_Z (k * 2)).
  by rewrite Qred_inject_Z.
Qed.

(** The floor of a rounded quotient of integers is the floor of the quotient. *)
Lemma nearest_even_bounds n d : 0 < d ->
  n / d <= nearest_even n d /\ 2 * (d * nearest_even n d) <= 2 * n + d.
Proof.
  intros Hd. unfold nearest_even. pose proof (Z.div_mod n d ltac:(lia)).
  pose proof (Z.mod_pos_bound n d Hd).
  set (q := n / d) in *. set (r := n mod d) in *.
  assert (exists m, (if (d <? 2 * r) || ((2 * r =? d) && Z.odd q) then q + 1 else q) = m /\
          (m = q \/ m = q + 1 /\ d <= 2 * r)) as (m & -> & Hm).
  { eexists; split; [done|].
    destruct (Z.ltb_spec d (2 * r)), (Z.eqb_spec (2 * r) d), (Z.odd q); cbn; lia. }
  destruct Hm as [->|[-> ?]]; split; nia.
Qed.

Lemma ulp_exponent_spec n d : 0 < n < 2 ^ 53 -> 0 < d <= 2 ^ 53 ->
  ulp_exponent n d <= 0 /\ d < 2 * 2 ^ (- ulp_exponent n d).
Proof.
  intros Hn Hd. pose proof (Z.log2_spec n ltac:(lia)) as [Hn1 Hn2].
  pose proof (Z.log2_spec d ltac:(lia)) as [Hd1 Hd2].
  pose proof (Z.log2_nonneg n). pose proof (Z.log2_nonneg d).
  assert (Z.log2 n <= 52) by (apply Z.lt_succ_r, Z.log2_lt_pow2; lia).
  set (ln := Z.log2 n) in *. set (ld := Z.log2 d) in *.
  assert (exists k, ulp_exponent n d = Z.max (-1074) (k - 52) /\ k <= ln - ld
          /\ d < 2 ^ (53 - k)) as (k & -> & Hk & Hdk).
  { unfold ulp_exponent. fold ln ld. destruct (scale n d (ln - ld)) as [a b] eqn:E.
    destruct (Z.ltb_spec a b) as [L|L]; eexists; (split; [done|]); (split; [lia|]).
    - eapply Z.lt_le_trans; [exact Hd2|]. apply Z.pow_le_mono_r; lia.
    - unfold scale in E. destruct (Z.ltb_spec (ln - ld) 0); injection E as <- <-.
      + replace (53 - (ln - ld)) with (53 + - (ln - ld)) by lia. rewrite Z.pow_add_r by lia.
        assert (0 < 2 ^ (- (ln - ld))) by (apply Z.pow_pos_nonneg; lia). nia.
      + apply (Z.mul_lt_mono_pos_r (2 ^ (ln - ld))); [apply Z.pow_pos_nonneg; lia|].
        rewrite <- Z.pow_add_r by lia. replace (53 - (ln - ld) + (ln - ld)) with 53 by lia. lia. }
  split; [lia|]. rewrite <- Z.pow_succ_r by lia. destruct (Z.le_ge_cases (-1074) (k - 52)).
  - rewrite Z.max_r by lia. eapply Z.lt_le_trans; [exact Hdk|]. apply Z.pow_le_mono_r; lia.
  - rewrite Z.max_l by lia. apply (Z.le_lt_trans _ (2 ^ 53)); [lia|]. apply Z.pow_lt_mono_r; lia.
Qed.

Lemma round_pos_floor n d : 0 < n < 2 ^ 53 -> 0 < d <= 2 ^ 53 ->
  exists v, round_pos n d = Some v /\ Qfloor v = n / d.
Proof.
  intros Hn Hd. destruct (ulp_exponent_spec n d Hn Hd) as [He Hlt]. unfold round_pos.
  set (e := ulp_exponent n d) in *. set (P := 2 ^ (- e)) in *.
  assert (0 < P) as HP by (apply Z.pow_pos_nonneg; lia).
  assert (scale n d e = (n * P, d)) as ->.
  { unfold scale. destruct (Z.ltb_spec e 0); [done|]. unfold P. replace e with 0 by lia.
    f_equal; lia. }
  pose proof (nearest_even_bounds (n * P) d ltac:(lia)) as [Hlo Hhi].
  set (m := nearest_even (n * P) d) in *. set (q := n / d) in *.
  pose proof (Z.div_mod n d ltac:(lia)) as Hq. pose proof (Z.mod_pos_bound n d ltac:(lia)) as Hr.
  fold q in Hq. assert (0 <= q < 2 ^ 53) by (split; [apply Z.div_pos|apply Z.div_lt_upper_bound]; nia).
  assert (q * P <= m) by (etransitivity; [|exact Hlo]; apply Z.div_le_lower_bound; nia).
  assert (m < (q + 1) * P) by nia.
  assert ((if e <? 0 then (m, P) else (m * 2 ^ e, 1)) = (m, P)) as ->.
  { destruct (Z.ltb_spec e 0); [done|]. unfold P. replace e with 0 by lia. f_equal; lia. }
  assert (2 ^ 53 < 2 ^ 1024) by (apply Z.pow_lt_mono_r; lia).
  rewrite (proj2 (Z.leb_gt _ _)) by nia. eexists. split; [done|].
  rewrite Qred_correct. unfold Qfloor. rewrite Z2Pos.id by done.
  symmetry. apply (Z.div_unique_pos _ _ _ (m - P * q)); lia.
Qed.

Lemma Qred_fraction a b : 0 < a -> 0 < b ->
  exists g, 0 < g /\ a = g * Qnum (Qred (inject_Z a / inject_Z b)) /\
    b = g * Zpos (Qden (Qred (inject_Z a / inject_Z b))).
Proof.
  intros Ha Hb. destruct b as [|b|]; try lia.
  replace (inject_Z a / inject_Z (Zpos b))%Q with (Qmake a b).
  2:{ unfold Qdiv, Qmult, Qinv, inject_Z. cbn. by rewrite Z.mul_1_r. }
  unfold Qred. pose proof (Z.ggcd_gcd a (Zpos b)) as Hg.
  pose proof (Z.ggcd_correct_divisors a (Zpos b)) as Hd.
  destruct (Z.ggcd a (Zpos b)) as (g & r1 & r2). cbn in *. destruct Hd as [H1 H2].
  assert (0 < g) as Hg0 by (pose proof (Z.gcd_nonneg a (Zpos b)); destruct (Z.eq_dec g 0); lia).
  exists g. rewrite Z2Pos.id by nia. done.
Qed.

Lemma floor_div_exact a b : 0 <= a <= MAX_SAFE_INTEGER -> 0 < b <= MAX_SAFE_INTEGER ->
  math_floor (num_div (of_Z a) (of_Z b)) = of_Z (a / b).
Proof.
  unfold MAX_SAFE_INTEGER. intros Ha Hb. unfold num_div. cbn [num_zero of_Z Qnum inject_Z].
  fold (inject_Z a) (inject_Z b). rewrite (proj2 (Z.eqb_neq b 0)) by lia.
  destruct (Z.eq_dec a 0) as [->|Hne]; [by destruct b|].
  destruct (Qred_fraction a b) as (g & Hg & Ea & Eb); [lia..|].
  unfold round. set (q := Qred _) in *. destruct q as [n d]. cbn [Qnum Qden] in *.
  rewrite (proj2 (Z.eqb_neq n 0)), (proj2 (Z.ltb_lt 0 n)) by nia.
  destruct (round_pos_floor n (Zpos d)) as (v & -> & Hv); [nia..|].
  cbn. f_equal. f_equal. rewrite Hv, Ea, Eb. rewrite Z.div_mul_cancel_l; lia.
Qed.

Lemma mod_exact a b : 0 <= a -> 0 < b -> num_mod (of_Z a) (of_Z b) = of_Z (a mod b).
Proof.
  intros Ha Hb. unfold num_mod, of_Z. cbn [num_zero Qnum inject_Z].
  rewrite (proj2 (Z.eqb_neq b 0)) by lia. f_equal. rewrite <- (Qred_inject_Z (a mod b)).
  apply Qred_complete. destruct b as [|b|]; try lia.
  assert ((a # b) = inject_Z a / inject_Z (Zpos b))%Q as <-.
  { unfold Qdiv, Qmult, Qinv, inject_Z. cbn. by rewrite Z.mul_1_r. }
  cbn [Qnum Qden]. rewrite Z.quot_div_nonneg by lia.
  rewrite Z.mod_eq by lia. unfold Qeq, inject_Z. cbn. lia.
Qed.

Definition num_eq (x y : num) : Prop :=
  match x, y with
  | Fin a, Fin b => (a == b)%Q
  | NaN, NaN => True
  | Inf s, Inf t => s = t
  | _, _ => False
  end.

Lemma round_of_Z z : Z.abs z <= 2 ^ 53 -> num_eq (round (inject_Z z)) (of_Z z).
Proof. intros H. by destruct (round_inject_Z z H) as (v & -> & ?). Qed.

#[global] Instance num_eq_equivalence : Equivalence num_eq.
Proof.
  split.
  - intros []; simpl; try apply Qeq_refl; done.
  - intros [] []; simpl; done.
  - intros [] [] []; simpl; try congruence; try done. apply Qeq_trans.
Qed.

#[global] Instance num_lt_proper : Proper (num_eq ==> num_eq ==> eq) num_lt.
Proof.
  intros [|s|a] [|t|b] H [|s'|a'] [|t'|b'] H'; simpl in *; try done; try (by subst); try congruence.
  f_equal. apply eq_true_iff_eq. rewrite !Qle_bool_iff. by rewrite H, H'.
Qed.

#[global] Instance to_Z_proper : Proper (num_eq ==> eq) to_Z.
Proof.
  intros [|s|a] [|t|b] H; simpl in *; try done. unfold Qeq in H.
  destruct a as [n d], b as [n' d']. cbn in *.
  assert (Z.pos d <> 0 /\ Z.pos d' <> 0) as [Hd Hd'] by lia.
  destruct (Z.eqb_spec (n mod Z.pos d) 0) as [E|E], (Z.eqb_spec (n' mod Z.pos d') 0) as [E'|E'].
  - apply Z.mod_divide in E as [k ->], E' as [k' ->]; try done. rewrite !Z.div_mul by done.
    f_equal. apply (Z.mul_cancel_r _ _ (Z.pos d * Z.pos d')); lia.
  - exfalso. apply E'. apply Z.mod_divide in E as [k ->]; [|done].
    apply Z.mod_divide; [done|]. exists k. apply (Z.mul_cancel_r _ _ (Z.pos d)); lia.
  - exfalso. apply E. apply Z.mod_divide in E' as [k ->]; [|done].
    apply Z.mod_divide; [done|]. exists k. apply (Z.mul_cancel_r _ _ (Z.pos d')); lia.
  - done.
Qed.

Lemma to_Z_eq x z : num_eq x (of_Z z) -> to_Z x = Some z.
Proof. intros H. by rewrite (to_Z_proper _ _ H), to_Z_of_Z. Qed.

Lemma num_lt_eq x y a b : num_eq x (of_Z a) -> num_eq y (of_Z b) -> num_lt x y = (a <? b).
Proof. intros Hx Hy. by rewrite (num_lt_proper _ _ Hx _ _ Hy), num_lt_of_Z. Qed.

(** Arithmetic on integers is exact while the result is at most [2^53]. *)
Lemma num_add_of_Z a b : Z.abs (a + b) <= 2 ^ 53 -> num_eq (num_add (of_Z a) (of_Z b)) (of_Z (a + b)).
Proof.
  intros H. unfold num_add, of_Z.
  replace (inject_Z a + inject_Z b)%Q with (inject_Z (a + b)).
  - destruct (round_inject_Z (a + b) H) as (v & -> & Hv). done.
  - unfold inject_Z, Qplus. cbn. by rewrite !Z.mul_1_r.
Qed.

#[global] Instance round_proper : Proper (Qeq ==> eq) round.
Proof. intros a b H. unfold round. by rewrite (Qred_complete a b H). Qed.

Lemma num_mul_finite a b x y :
  num_eq x (of_Z a) -> num_eq y (of_Z b) -> num_mul x y = num_mul (of_Z a) (of_Z b).
Proof.
  destruct x as [| |p], y as [| |q]; try done. cbn. intros Hp Hq. by rewrite Hp, Hq.
Qed.

Lemma num_mul_of_Z a b : Z.abs (a * b) <= 2 ^ 53 -> num_eq (num_mul (of_Z a) (of_Z b)) (of_Z (a * b)).
Proof.
  intros H. unfold num_mul, of_Z.
  replace (inject_Z a * inject_Z b)%Q with (inject_Z (a * b)) by done.
  destruct (round_inject_Z (a * b) H) as (v & -> & Hv). done.
Qed.

#[global] Instance num_le_proper : Proper (num_eq ==> num_eq ==> eq) num_le.
Proof.
  intros [|s|a] [|t|b] H [|s'|a'] [|t'|b'] H'; simpl in *; try done; try (by subst); try congruence.
  apply eq_true_iff_eq. rewrite !Qle_bool_iff. by rewrite H, H'.
Qed.

#[global] Instance math_max_proper : Proper (num_eq ==> num_eq ==> num_eq) math_max.
Proof.
  intros x x' Hx y y' Hy. pose proof (num_lt_proper _ _ Hx _ _ Hy) as E. unfold math_max.
  destruct x, x', y, y'; try done; rewrite <- E; by destruct (num_lt _ _).
Qed.

Lemma num_sub_Fin a b : num_sub (Fin a) (Fin b) = round (a - b)%Q.
Proof. done. Qed.

(** A negative difference stays negative, however large. *)
Lemma nearest_even_nonneg n d : 0 <= n -> 0 < d -> 0 <= nearest_even n d.
Proof.
  intros Hn Hd. unfold nearest_even. pose proof (Z.div_pos n d Hn Hd).
  destruct (_ || _); lia.
Qed.

Lemma round_negative z : z < 0 -> num_lt (of_Z 0) (round (inject_Z z)) = false.
Proof.
  intros Hz. unfold round. rewrite Qcanon.Qred_identity by apply Z.gcd_1_r.
  cbn [Qnum Qden inject_Z]. rewrite (proj2 (Z.eqb_neq _ _)), (proj2 (Z.ltb_ge _ _)) by lia.
  destruct (round_pos (- z) 1) as [v|] eqn:E; [|done]. cbn.
  apply negb_false_iff, Qle_bool_iff. apply (Qopp_le_compat 0 v).
  assert (forall n p, 0 <= n -> (0 <= Qmake n p)%Q) as Hq by (intros; unfold Qle; cbn; lia).
  assert (forall k, 0 <= k -> 0 < 2 ^ k) as Hp by (intros; by apply Z.pow_pos_nonneg).
  unfold round_pos, scale in E. set (e := ulp_exponent (- z) 1) in *.
  destruct (Z.ltb_spec e 0) as [He|He]; cbv beta iota in E;
    (destruct (_ <=? _); [done|]); injection E as <-; rewrite Qred_correct; apply Hq.
  - apply nearest_even_nonneg; [|done]. pose proof (Hp (- e) ltac:(lia)). nia.
  - apply Z.mul_nonneg_nonneg; [|by apply Z.lt_le_incl, Hp].
    apply nearest_even_nonneg; [lia|]. rewrite Z.mul_1_l. by apply Hp.
Qed.

Lemma num_sub_of_Z a b : Z.abs (a - b) <= 2 ^ 53 -> num_eq (num_sub (of_Z a) (of_Z b)) (of_Z (a - b)).
Proof.
  intros H. unfold of_Z. rewrite num_sub_Fin.
  assert (inject_Z a - inject_Z b == inject_Z (a - b))%Q as ->.
  { unfold Qminus. by rewrite <- inject_Z_opp, <- inject_Z_plus. }
  by apply round_of_Z.
Qed.

(** [Math.max(0, a - b)] on integers. *)
Lemma max_zero_sub a b : 0 <= a <= 2 ^ 53 -> 0 <= b ->
  num_eq (math_max (of_Z 0) (num_sub (of_Z a) (of_Z b))) (of_Z (Z.max 0 (a - b))).
Proof.
  intros Ha Hb. destruct (Z.le_gt_cases b a) as [H|H].
  - rewrite num_sub_of_Z by lia. by rewrite math_max_of_Z.
  - unfold of_Z at 2 3. rewrite num_sub_Fin.
    assert (inject_Z a - inject_Z b == inject_Z (a - b))%Q as ->.
    { unfold Qminus. by rewrite <- inject_Z_opp, <- inject_Z_plus. }
    pose proof (round_negative (a - b) ltac:(lia)) as Hn. replace (Z.max 0 (a - b)) with 0 by lia.
    unfold math_max. destruct (round (inject_Z (a - b))) as [| |q] eqn:E.
    + exfalso. clear -E. unfold round in E. destruct (_ =? _); [done|].
      destruct (_ <? _); by destruct (round_pos _ _).
    + cbn [of_Z] in *. by rewrite Hn.
    + cbn [of_Z] in *. by rewrite Hn.
Qed.

#[global] Instance num_neg_proper : Proper (num_eq ==> num_eq) num_neg.
Proof. intros [|s|a] [|t|b] H; simpl in *; try done; [by subst|by rewrite H]. Qed.

#[global] Instance num_add_proper : Proper (num_eq ==> num_eq ==> num_eq) num_add.
Proof.
  intros [|s|a] [|t|b] H [|s'|a'] [|t'|b'] H'; simpl in *; try done; try (by subst).
  assert (round (a + a') = round (b + b')) as -> by (apply round_proper; by rewrite H, H').
  apply num_eq_equivalence.
Qed.

#[global] Instance num_sub_proper : Proper (num_eq ==> num_eq ==> num_eq) num_sub.
Proof. intros x x' Hx y y' Hy. unfold num_sub. by rewrite Hx, Hy. Qed.

(** ** Order *)

Lemma num_le_refl x : x <> NaN -> num_le x x = true.
Proof. destruct x as [|[]|q]; try done. intros _. by apply Qle_bool_iff, Qle_refl. Qed.

Lemma num_lt_le x y : num_lt x y = true -> num_le x y = true.
Proof.
  destruct x as [|[]|p], y as [|[]|q]; try done. cbn [num_lt num_le]. intros H%negb_true_iff.
  apply Qle_bool_iff, Qlt_le_weak, Qnot_le_lt. intros Hle%Qle_bool_iff. congruence.
Qed.

Lemma num_not_lt x y : x <> NaN -> y <> NaN -> num_lt x y = false -> num_le y x = true.
Proof. destruct x as [|[]|p], y as [|[]|q]; try done. intros _ _. cbn. by intros ?%negb_false_iff. Qed.

Lemma num_lt_not_nan x y : num_lt x y = true -> x <> NaN /\ y <> NaN.
Proof. by destruct x as [|[]|p], y as [|[]|q]. Qed.

Lemma math_max_eq x y : x <> NaN -> y <> NaN -> math_max x y = if num_lt x y then y else x.
Proof. intros Hx Hy. by destruct x, y. Qed.

Lemma math_max_l x y : x <> NaN -> y <> NaN -> num_le x (math_max x y) = true.
Proof.
  intros Hx Hy. rewrite math_max_eq by done.
  destruct (num_lt x y) eqn:E; [by apply num_lt_le|by apply num_le_refl].
Qed.

Lemma math_max_r x y : x <> NaN -> y <> NaN -> num_le y (math_max x y) = true.
Proof.
  intros Hx Hy. rewrite math_max_eq by done.
  destruct (num_lt x y) eqn:E; [by apply num_le_refl|by apply num_not_lt].
Qed.

Lemma num_lt_le_trans x y z : num_lt x y = true -> num_le y z = true -> num_lt x z = true.
Proof.
  destruct x as [|[]|p], y as [|[]|q], z as [|[]|r]; try done. cbn.
  rewrite !negb_true_iff. intros Hqp Hqr. apply not_true_is_false. intros Hrp.
  apply Qle_bool_iff in Hqr, Hrp. assert (Qle_bool q p = true); [|congruence].
  apply Qle_bool_iff. by eapply Qle_trans.
Qed.

Lemma num_add_not_nan x y : isFinite x = true -> isFinite y = true -> num_add x y <> NaN.
Proof. destruct x, y; try done. intros _ _. cbn. unfold round. by repeat case_match. Qed.

Lemma math_max_not_nan x y : x <> NaN -> y <> NaN -> math_max x y <> NaN.
Proof. intros Hx Hy. rewrite math_max_eq by done. by destruct (num_lt x y). Qed.

#[export] Hint Resolve num_lt_le math_max_l math_max_r math_max_not_nan num_add_not_nan : js.

Lemma num_le_lt_trans x y z : num_le x y = true -> num_lt y z = true -> num_lt x z = true.
Proof.
  destruct x as [|[]|p], y as [|[]|q], z as [|[]|r]; try done. cbn.
  rewrite !negb_true_iff. intros Hpq Hrq. apply not_true_is_false. intros Hrp.
  apply Qle_bool_iff in Hpq, Hrp. assert (Qle_bool r q = true); [|congruence].
  apply Qle_bool_iff. by eapply Qle_trans.
Qed.
