(* ===== verification/NumberCoercion.v ===== *)
(** * Number coercion

    [packages/normalization-core/src/number-coercion.ts]: how untrusted values
    become finite numbers, safe integers, timer delays and expiration times.
    The ISO string functions are left out (they format dates); where the code
    only asks whether one is defined, the timestamp test they start with is
    used. *)
From stdpp Require Import pretty.
From S2P Require Import Prelude JsString JsNumber Normalization.
#[local] Open Scope Z_scope.

(** A value of type [unknown], as far as these functions look. *)
Inductive nval :=
  | VNum (x : num)
  | VStr (s : jstr)
  | VOther.

Definition of_num_opt (o : option num) : nval := match o with Some x => VNum x | None => VOther end.

(** ** Finite numbers and safe integers *)

Definition asFiniteNumber (value : nval) : option num :=
  match value with VNum x => if isFinite x then Some x else None | _ => None end.

Record NumberRange := {
  rg_min : option num;
  rg_max : option num;
  rg_minExclusive : bool;
  rg_maxExclusive : bool;
}.

Definition asFiniteNumberInRange (value : nval) (range : NumberRange) : option num :=
  match asFiniteNumber value with
  | None => None
  | Some number =>
      let below :=
        match rg_min range with
        | Some m => if rg_minExclusive range then num_le number m else num_lt number m
        | None => false
        end in
      let above :=
        match rg_max range with
        | Some m => if rg_maxExclusive range then num_le m number else num_lt m number
        | None => false
        end in
      if below then None else if above then None else Some number
  end.

Definition asSafeIntegerInRange (value : nval) (min max : option num) : option num :=
  match value with
  | VNum x =>
      if negb (isSafeInteger x) then None
      else if match min with Some m => num_lt x m | None => false end then None
      else if match max with Some m => num_lt m x | None => false end then None
      else Some x
  | _ => None
  end.

Definition asPositiveSafeInteger (value : nval) : option num :=
  match value with
  | VNum x => if isSafeInteger x && num_lt (of_Z 0) x then Some x else None
  | _ => None
  end.

(** ** Numeric strings *)

Definition normalizeNumericString (value : jstr) : option jstr := non_empty (trim value).

Definition is_digit (c : ascii) : bool := (48 <=? code c)%nat && (code c <=? 57)%nat.

(** The longest run of digits. *)
Fixpoint span_digits (s : jstr) : jstr * jstr :=
  match s with
  | c :: r => if is_digit c then let '(d, t) := span_digits r in (c :: d, t) else ([], s)
  | [] => ([], [])
  end.

Definition digits_value (acc : Z) (ds : jstr) : Z :=
  foldl (fun v c => 10 * v + (Z.of_nat (code c) - 48)) acc ds.

(** [[+-]?]. *)
Definition split_sign (s : jstr) : bool * jstr :=
  match s with
  | c :: r => if is_char c "+"%char then (false, r)
              else if is_char c "-"%char then (true, r) else (false, s)
  | [] => (false, [])
  end.

Definition signed (negative : bool) (z : Z) : Z := if negative then - z else z.

(** [/^[+-]?\d+$/] and the integer it denotes. *)
Definition integer_token (s : jstr) : option Z :=
  let '(negative, r) := split_sign s in
  let '(ds, rest) := span_digits r in
  match ds, rest with
  | _ :: _, [] => Some (signed negative (digits_value 0 ds))
  | _, _ => None
  end.

(** The mantissa of a decimal token: its digits and how many are fractional. *)
Definition mantissa (s : jstr) : option (jstr * nat * jstr) :=
  let '(int, r) := span_digits s in
  match r with
  | c :: r' =>
      if is_char c "."%char then
        let '(frac, r'') := span_digits r' in
        match int, frac with
        | [], [] => None
        | _, _ => Some (int ++ frac, length frac, r'')
        end
      else match int with [] => None | _ => Some (int, 0%nat, r) end
  | [] => match int with [] => None | _ => Some (int, 0%nat, []) end
  end.

(** The optional exponent, up to the end. *)
Definition exponent (s : jstr) : option Z :=
  match s with
  | [] => Some 0
  | c :: r => if is_char (lowerc c) "e"%char then integer_token r else None
  end.

(** The regular expression of decimal and scientific tokens, and the rational a
    token denotes. *)
Definition decimal_token (s : jstr) : option Q :=
  let '(negative, r) := split_sign s in
  match mantissa r with
  | None => None
  | Some (ds, frac, r) =>
      match exponent r with
      | None => None
      | Some e =>
          let m := signed negative (digits_value 0 ds) in
          let e := e - Z.of_nat frac in
          Some (if e <? 0 then Qmake m (Z.to_pos (10 ^ (- e))) else inject_Z (m * 10 ^ e))
      end
  end.

Definition parseStrictInteger (value : nval) : option num :=
  match value with
  | VNum x => if isSafeInteger x then Some x else None
  | VStr s =>
      match normalizeNumericString s ≫= integer_token with
      | None => None
      | Some z =>
          let parsed := round (inject_Z z) in
          if isSafeInteger parsed then Some parsed else None
      end
  | VOther => None
  end.

Definition parseStrictFiniteNumber (value : nval) : option num :=
  match value with
  | VNum x => if isFinite x then Some x else None
  | VStr s =>
      match normalizeNumericString s ≫= decimal_token with
      | None => None
      | Some q =>
          let parsed := round q in
          if isFinite parsed then Some parsed else None
      end
  | VOther => None
  end.

Definition parseFiniteNumber (value : nval) : option num :=
  match value with
  | VNum x => if isFinite x then Some x else None
  | _ => parseStrictFiniteNumber value
  end.

Definition parseStrictPositiveInteger (value : nval) : option num :=
  match parseStrictInteger value with
  | Some parsed => if num_lt (of_Z 0) parsed then Some parsed else None
  | None => None
  end.

Definition parseStrictNonNegativeInteger (value : nval) : option num :=
  match parseStrictInteger value with
  | Some parsed => if num_le (of_Z 0) parsed then Some parsed else None
  | None => None
  end.

Definition resolveIntegerOption (value : nval) (fallback : num) (min max : option num) : num :=
  let candidate := default fallback (asFiniteNumber value) in
  let floored := math_floor candidate in
  let minBounded := match min with None => floored | Some m => math_max m floored end in
  match max with None => minBounded | Some m => math_min m minBounded end.

Definition resolveOptionalIntegerOption (value : nval) (min max : option num) : option num :=
  match asFiniteNumber value with
  | None => None
  | Some x => Some (resolveIntegerOption value x min max)
  end.

Definition resolveNonNegativeIntegerOption (value : nval) (fallback : num) : num :=
  resolveIntegerOption value fallback (Some (of_Z 0)) None.

(** ** Timers *)

Definition MAX_TIMER_TIMEOUT_MS : Z := 2147000000.
Definition MAX_TIMER_TIMEOUT_SECONDS : Z := MAX_TIMER_TIMEOUT_MS / 1000.
Definition MAX_DATE_TIMESTAMP_MS : Z := 8640000000000000.

Definition clampTimerTimeoutMs (valueMs : nval) (minMs : num) : option num :=
  match asFiniteNumber valueMs with
  | None => None
  | Some value =>
      let min := math_max (of_Z 1) (math_floor minMs) in
      Some (math_min (math_max (math_floor value) min) (of_Z MAX_TIMER_TIMEOUT_MS))
  end.

Definition clampPositiveTimerTimeoutMs (valueMs : nval) : option num :=
  match asFiniteNumber valueMs with
  | None => None
  | Some value =>
      if num_le value (of_Z 0) then None else clampTimerTimeoutMs (VNum value) (of_Z 1)
  end.

Definition resolveTimerTimeoutMs (valueMs : nval) (fallbackMs minMs : num) : num :=
  let value := match asFiniteNumber valueMs with
               | Some v => Some v
               | None => asFiniteNumber (VNum fallbackMs)
               end in
  let min := math_max (of_Z 0) (math_floor minMs) in
  match value with
  | None => min
  | Some value => math_min (math_max (math_floor value) min) (of_Z MAX_TIMER_TIMEOUT_MS)
  end.

Definition resolvePositiveTimerTimeoutMs (valueMs : nval) (fallbackMs : num) : num :=
  default (resolveTimerTimeoutMs (VNum fallbackMs) (of_Z 1) (of_Z 1))
    (clampPositiveTimerTimeoutMs valueMs).

Definition addTimerTimeoutGraceMs (timeoutMs : nval) (graceMs : num) : option num :=
  match asFiniteNumber timeoutMs, asFiniteNumber (VNum graceMs) with
  | Some timeout, Some grace =>
      let withGrace := num_add timeout grace in
      if isFinite withGrace then clampTimerTimeoutMs (VNum withGrace) (of_Z 1)
      else Some (of_Z MAX_TIMER_TIMEOUT_MS)
  | _, _ => None
  end.

Definition finiteSecondsToTimerSafeMilliseconds (value : nval) (floorSeconds : bool) : option num :=
  match asFiniteNumber value with
  | None => None
  | Some seconds =>
      if num_le seconds (of_Z 0) then None
      else
        let boundedSeconds := if floorSeconds then math_floor seconds else seconds in
        let milliseconds := math_floor (num_mul boundedSeconds (of_Z 1000)) in
        if negb (isFinite milliseconds) || num_le milliseconds (of_Z 0) then None
        else Some (math_min milliseconds (of_Z MAX_TIMER_TIMEOUT_MS))
  end.

(** ** Dates and expirations *)

Definition asDateTimestampMs (value : nval) : option num :=
  asFiniteNumberInRange value
    {| rg_min := Some (of_Z (- MAX_DATE_TIMESTAMP_MS)); rg_max := Some (of_Z MAX_DATE_TIMESTAMP_MS);
       rg_minExclusive := false; rg_maxExclusive := false |}.

Definition isFutureDateTimestampMs (value : nval) (now : num) : bool :=
  match asDateTimestampMs value, asDateTimestampMs (VNum now) with
  | Some timestampMs, Some nowMs => num_lt nowMs timestampMs
  | _, _ => false
  end.

Definition resolveDateTimestampMs (value fallbackValue : nval) : num :=
  match asDateTimestampMs value with
  | Some t => t
  | None => default (of_Z 0) (asDateTimestampMs fallbackValue)
  end.

(** [timestampMsToIsoString(value) !== undefined]. *)
Definition hasIsoString (value : num) : bool := bool_decide (is_Some (asDateTimestampMs (VNum value))).

Definition secondsToSafeMilliseconds (seconds : option num) : option num :=
  match seconds with
  | None => None
  | Some seconds =>
      let milliseconds := num_mul seconds (of_Z 1000) in
      if isSafeInteger milliseconds then Some milliseconds else None
  end.

Definition positiveSecondsToSafeMilliseconds (value : nval) : option num :=
  secondsToSafeMilliseconds (parseStrictPositiveInteger value).

Definition nonNegativeSecondsToSafeMilliseconds (value : nval) : option num :=
  secondsToSafeMilliseconds (parseStrictNonNegativeInteger value).

Definition resolveExpiresAtMsFromDurationMs (value : nval) (nowMs : num)
    (bufferMs minRemainingMs : option num) : option num :=
  match asPositiveSafeInteger value with
  | None => None
  | Some durationMs =>
      match asDateTimestampMs (VNum nowMs), asFiniteNumber (VNum (default (of_Z 0) bufferMs)) with
      | Some nowMs, Some bufferMs =>
          let expiresAt := num_sub (num_add nowMs durationMs) bufferMs in
          if negb (isSafeInteger expiresAt) || negb (hasIsoString expiresAt) then None
          else match minRemainingMs with
               | None => Some expiresAt
               | Some minRemainingMs =>
                   let minExpiresAt := num_add nowMs minRemainingMs in
                   if negb (isSafeInteger minExpiresAt) || negb (hasIsoString minExpiresAt)
                   then Some expiresAt
                   else Some (math_max expiresAt minExpiresAt)
               end
      | _, _ => None
      end
  end.

Definition resolveExpiresAtMsFromDurationSeconds (value : nval) (nowMs : num)
    (bufferMs minRemainingMs : option num) : option num :=
  match positiveSecondsToSafeMilliseconds value with
  | None => None
  | Some durationMs => resolveExpiresAtMsFromDurationMs (VNum durationMs) nowMs bufferMs minRemainingMs
  end.

Definition resolveExpiresAtMsFromEpochSeconds (value : nval) (bufferMs maxMs : option num)
    : option num :=
  let epochMs :=
    match asFiniteNumber value with
    | Some x => if num_lt (of_Z 0) x then Some (num_mul (math_trunc x) (of_Z 1000))
                else positiveSecondsToSafeMilliseconds value
    | None => positiveSecondsToSafeMilliseconds value
    end in
  match epochMs with
  | None => None
  | Some epochMs =>
      let expiresAt := num_sub epochMs (default (of_Z 0) bufferMs) in
      if negb (isSafeInteger expiresAt) then None
      else if negb (hasIsoString expiresAt) then None
      else match maxMs with
           | None => Some expiresAt
           | Some maxMs => if num_le expiresAt maxMs then Some expiresAt else None
           end
  end.

Definition resolveExpiresAtMsFromDurationOrEpoch (value : nval) (nowMs : num)
    (relativeSecondsThreshold absoluteMillisecondsThreshold : option num) : option num :=
  match parseStrictPositiveInteger value with
  | None => None
  | Some parsed =>
      if num_lt parsed (default (of_Z 1000000000) relativeSecondsThreshold)
      then resolveExpiresAtMsFromDurationSeconds (VNum parsed) nowMs None None
      else if num_lt parsed (default (of_Z 1000000000000) absoluteMillisecondsThreshold)
      then resolveExpiresAtMsFromEpochSeconds (VNum parsed) None None
      else asDateTimestampMs (VNum parsed)
  end.

(** ** Timer bounds *)

(** A delay that Node's timers accept: an integer from 1 to the bound. *)
Definition timer_safe (r : num) : Prop :=
  exists z, r = of_Z z /\ 1 <= z <= MAX_TIMER_TIMEOUT_MS.

Lemma asFiniteNumber_Some v x : asFiniteNumber v = Some x -> exists q, x = Fin q.
Proof. destruct v as [y| |]; simpl; try done. destruct y; simpl; naive_solver. Qed.

Lemma clamp_safe x (min : Z) :
  timer_safe (math_min (math_max (math_floor (Fin x)) (math_max (of_Z 1) (math_floor (of_Z min))))
    (of_Z MAX_TIMER_TIMEOUT_MS)).
Proof.
  cbn [math_floor]. rewrite math_floor_of_Z, !math_max_of_Z, math_min_of_Z.
  eexists. split; [done|]. unfold MAX_TIMER_TIMEOUT_MS. lia.
Qed.

Lemma clampTimerTimeoutMs_safe v min r :
  clampTimerTimeoutMs v (of_Z min) = Some r -> timer_safe r.
Proof.
  unfold clampTimerTimeoutMs. destruct (asFiniteNumber v) as [x|] eqn:E; [|done].
  apply asFiniteNumber_Some in E as [q ->]. intros [= <-]. apply clamp_safe.
Qed.

Lemma clampPositiveTimerTimeoutMs_safe v r : clampPositiveTimerTimeoutMs v = Some r -> timer_safe r.
Proof.
  unfold clampPositiveTimerTimeoutMs. destruct (asFiniteNumber v); [|done].
  destruct (num_le _ _); [done|]. apply clampTimerTimeoutMs_safe.
Qed.

Lemma floor_pos_or_zero x :
  isFinite x = true -> num_le x (of_Z 0) = false -> exists z, math_floor x = of_Z z /\ 0 <= z.
Proof.
  intros [q ->]%isFinite_Fin H. cbn in *. exists (Qfloor q). split; [done|].
  by apply Qfloor_nonneg.
Qed.

(** Every delay these functions compute is an integer between 1 and the
    largest delay Node accepts, whatever was passed in, with one exception:
    [resolveTimerTimeoutMs] may give its minimum, from 0 up, which the others
    never pass below 1. *)
Theorem timer_delays_safe (v : nval) (fallback min : Z) (grace : num) (floorSeconds : bool) :
  (forall r, clampTimerTimeoutMs v (of_Z min) = Some r -> timer_safe r) /\
  (forall r, clampPositiveTimerTimeoutMs v = Some r -> timer_safe r) /\
  timer_safe (resolvePositiveTimerTimeoutMs v (of_Z fallback)) /\
  (forall r, addTimerTimeoutGraceMs v grace = Some r -> timer_safe r) /\
  (forall r, finiteSecondsToTimerSafeMilliseconds v floorSeconds = Some r -> timer_safe r) /\
  exists z, resolveTimerTimeoutMs v (of_Z fallback) (of_Z min) = of_Z z /\
    Z.min (Z.max 0 min) MAX_TIMER_TIMEOUT_MS <= z <= MAX_TIMER_TIMEOUT_MS.
Proof.
  assert (forall v fallback min, exists z, resolveTimerTimeoutMs v (of_Z fallback) (of_Z min) = of_Z z /\
    Z.min (Z.max 0 min) MAX_TIMER_TIMEOUT_MS <= z <= MAX_TIMER_TIMEOUT_MS) as Hres.
  { intros v0 fallback0 min0. unfold resolveTimerTimeoutMs.
    assert (exists q, match asFiniteNumber v0 with Some v => Some v
      | None => asFiniteNumber (VNum (of_Z fallback0)) end = Some (Fin q)) as [q ->].
    { destruct (asFiniteNumber v0) as [x|] eqn:E; [|by eexists].
      apply asFiniteNumber_Some in E as [q ->]. eauto. }
    cbn [math_floor]. rewrite math_floor_of_Z, !math_max_of_Z, math_min_of_Z.
    eexists. split; [done|]. lia. }
  split_and!.
  - apply clampTimerTimeoutMs_safe.
  - apply clampPositiveTimerTimeoutMs_safe.
  - unfold resolvePositiveTimerTimeoutMs. destruct (clampPositiveTimerTimeoutMs v) as [r|] eqn:E.
    { by apply clampPositiveTimerTimeoutMs_safe in E. }
    destruct (Hres (VNum (of_Z fallback)) 1 1) as (z & Hz & Hb). exists z. split; [exact Hz|].
    unfold MAX_TIMER_TIMEOUT_MS in *. lia.
  - intros r. unfold addTimerTimeoutGraceMs. destruct (asFiniteNumber v), (asFiniteNumber (VNum grace));
      try done. destruct (isFinite _); [apply clampTimerTimeoutMs_safe|]. intros [= <-].
    exists MAX_TIMER_TIMEOUT_MS. done.
  - intros r. unfold finiteSecondsToTimerSafeMilliseconds.
    destruct (asFiniteNumber v) as [x|]; [|done]. destruct (num_le x _); [done|].
    destruct (num_mul _ _) as [|s|q]; [done..|]. cbn [math_floor isFinite of_Z negb orb].
    fold (of_Z (Qfloor q)). rewrite num_le_of_Z. destruct (Z.leb_spec (Qfloor q) 0); [done|].
    rewrite math_min_of_Z. intros [= <-]. eexists. split; [done|]. unfold MAX_TIMER_TIMEOUT_MS. lia.
  - apply Hres.
Qed.

(** ** Printed integers *)

Lemma digits_value_app acc a b : digits_value acc (a ++ b) = digits_value (digits_value acc a) b.
Proof. unfold digits_value. by rewrite foldl_app. Qed.

Lemma span_digits_all ds : forallb is_digit ds = true -> span_digits ds = (ds, []).
Proof.
  induction ds as [|c ds IH]; simpl; [done|]. destruct (is_digit c); [|done]. intros H.
  by rewrite IH.
Qed.

Lemma pretty_N_char_digit n : (n < 10)%N ->
  is_digit (pretty_N_char n) = true /\ Z.of_nat (code (pretty_N_char n)) - 48 = Z.of_N n.
Proof.
  intros H. destruct n as [|p]; [done|].
  do 4 (destruct p as [p|p|]; try (split; done); try lia).
Qed.

(** The digits that [pretty_N_go] puts before an accumulator. *)
Lemma pretty_N_go_digits x s : exists ds,
  lit (pretty_N_go x s) = ds ++ lit s /\ forallb is_digit ds = true /\
  digits_value 0 ds = Z.of_N x /\ ((0 < x)%N -> ds <> []).
Proof.
  revert s. induction (N.lt_wf_0 x) as [x _ IH]. intros s.
  destruct (decide (x = 0)%N) as [->|Hne].
  { exists []. by split_and!. }
  rewrite pretty_N_go_step by lia.
  destruct (IH (x `div` 10)%N) with (s := String (pretty_N_char (x `mod` 10)) s)
    as (ds & E & Hd & Hv & _); [apply N.div_lt; lia|].
  destruct (pretty_N_char_digit (x `mod` 10)) as [Hc Hcv]; [apply N.mod_lt; lia|].
  exists (ds ++ [pretty_N_char (x `mod` 10)]). split_and!.
  - rewrite E, <- app_assoc. done.
  - rewrite forallb_app, Hd. simpl. by rewrite Hc.
  - rewrite digits_value_app, Hv. cbn [digits_value foldl]. rewrite Hcv.
    pose proof (N.div_mod x 10). lia.
  - intros _. by destruct ds.
Qed.

Lemma pretty_N_digits x : exists ds,
  lit (pretty x) = ds /\ ds <> [] /\ forallb is_digit ds = true /\ digits_value 0 ds = Z.of_N x.
Proof.
  unfold pretty, pretty_N. destruct (decide (x = 0)%N) as [->|Hne]; [by eexists|].
  destruct (pretty_N_go_digits x "") as (ds & E & Hd & Hv & Hn).
  exists ds. split; [by rewrite E, app_nil_r|]. split_and!; auto. apply Hn. lia.
Qed.

Lemma digit_not_space_sign c : is_digit c = true ->
  is_space c = false /\ is_char c "+"%char = false /\ is_char c "-"%char = false.
Proof. by_bits c. Qed.

Lemma digits_no_space ds : forallb is_digit ds = true -> no_space ds.
Proof.
  unfold no_space. induction ds as [|c ds IH]; simpl; [constructor|].
  intros [Hc H]%andb_true_iff. constructor; [by apply digit_not_space_sign|auto].
Qed.

Lemma integer_token_printed z :
  no_space (js_number_string z) /\ js_number_string z <> [] /\
  integer_token (js_number_string z) = Some z.
Proof.
  unfold js_number_string, pretty, pretty_Z.
  assert (forall ds, ds <> [] -> forallb is_digit ds = true -> integer_token ds =
    Some (digits_value 0 ds)) as Hpos.
  { intros ds Hne Hd. unfold integer_token, split_sign. destruct ds as [|c ds]; [done|].
    pose proof Hd as [Hc _]%andb_true_iff. destruct (digit_not_space_sign c Hc) as (_ & -> & ->).
    rewrite span_digits_all by done. done. }
  destruct z as [|p|p].
  - split_and!; [repeat constructor|done|done].
  - destruct (pretty_N_digits (Npos p)) as (ds & E & Hne & Hd & Hv).
    change (lit (pretty p)) with (lit (pretty (N.pos p))).
    rewrite E. split; [by apply digits_no_space|]. split; [done|].
    rewrite Hpos by done. by rewrite Hv.
  - destruct (pretty_N_digits (Npos p)) as (ds & E & Hne & Hd & Hv).
    change (lit ("-" +:+ pretty p)) with ("-"%char :: lit (pretty (N.pos p))).
    rewrite E. split; [constructor; [done|by apply digits_no_space]|]. split; [done|].
    unfold integer_token. change (split_sign ("-"%char :: ds)) with (true, ds). cbv beta iota.
    rewrite span_digits_all by done. destruct ds; [done|]. f_equal. cbn [signed]. rewrite Hv. done.
Qed.

(** Printing and parsing agree: the decimal form of every safe integer
    parses back to it, and as a number of seconds to its exact milliseconds
    when these are safe, to nothing when they are not. *)
Theorem parse_printed_integer z :
  Z.abs z <= MAX_SAFE_INTEGER ->
  (exists r, parseStrictInteger (VStr (js_number_string z)) = Some r /\ num_eq r (of_Z z)) /\
  (0 < z -> 1000 * z <= MAX_SAFE_INTEGER ->
    exists r, positiveSecondsToSafeMilliseconds (VStr (js_number_string z)) = Some r /\
      num_eq r (of_Z (1000 * z))).
Proof.
  intros Hz. destruct (integer_token_printed z) as (Hs & Hne & Ht).
  assert (exists r, parseStrictInteger (VStr (js_number_string z)) = Some r /\ num_eq r (of_Z z))
    as (r & Hr & Heq).
  { unfold parseStrictInteger, normalizeNumericString. rewrite trim_no_space by done.
    destruct (js_number_string z) as [|c s]; [done|]. cbn [non_empty mbind option_bind].
    rewrite Ht. pose proof (round_of_Z z ltac:(unfold MAX_SAFE_INTEGER in Hz; lia)) as Heq.
    revert Heq. generalize (round (inject_Z z)) as r. intros r Heq. cbv zeta.
    unfold isSafeInteger. rewrite (to_Z_eq _ _ Heq). rewrite (proj2 (Z.leb_le _ _)) by lia. eauto. }
  split; [eauto|]. intros Hpos Hms. unfold positiveSecondsToSafeMilliseconds, parseStrictPositiveInteger.
  rewrite Hr, (num_lt_eq (of_Z 0) r 0 z), (proj2 (Z.ltb_lt _ _)) by done. cbn [secondsToSafeMilliseconds].
  assert (num_eq (num_mul r (of_Z 1000)) (of_Z (1000 * z))) as Hmul.
  { rewrite (num_mul_finite z 1000) by done. rewrite Z.mul_comm.
    apply num_mul_of_Z. unfold MAX_SAFE_INTEGER in Hms. lia. }
  unfold isSafeInteger. rewrite (to_Z_eq _ _ Hmul), (proj2 (Z.leb_le _ _)) by lia. eauto.
Qed.

Lemma parse_printed_integer_witness :
  exists r, positiveSecondsToSafeMilliseconds (VStr (js_number_string 86400)) = Some r /\
    num_eq r (of_Z 86400000).
Proof.
  destruct (parse_printed_integer 86400) as [_ H]; [vm_compute; congruence|].
  apply H; vm_compute; congruence.
Defined.

(** ** Expirations *)

(** A timestamp that [Date] accepts and JavaScript counts exactly. *)
Definition date_safe (r : num) : Prop :=
  exists z, to_Z r = Some z /\ Z.abs z <= MAX_DATE_TIMESTAMP_MS.

Lemma asDateTimestampMs_bounds x r : asDateTimestampMs (VNum x) = Some r ->
  r = x /\ num_lt x (of_Z (- MAX_DATE_TIMESTAMP_MS)) = false /\ num_lt (of_Z MAX_DATE_TIMESTAMP_MS) x = false.
Proof.
  unfold asDateTimestampMs, asFiniteNumberInRange, asFiniteNumber. cbn [rg_min rg_max rg_minExclusive rg_maxExclusive].
  destruct (isFinite x); [|done]. destruct (num_lt x _); [done|].
  destruct (num_lt _ x); [done|]. intros [= ->]. done.
Qed.

Lemma date_safe_intro x :
  isSafeInteger x = true -> hasIsoString x = true -> date_safe x.
Proof.
  unfold isSafeInteger, hasIsoString. destruct (to_Z x) as [z|] eqn:E; [|done]. intros _ H.
  apply bool_decide_eq_true in H as [r Hr]. apply asDateTimestampMs_bounds in Hr as (_ & H1 & H2).
  exists z. split; [done|].
  assert (num_eq x (of_Z z)) as Hx.
  { destruct x as [| |q]; try done. cbn in E. destruct (Z.eqb_spec (Qnum q mod Z.pos (Qden q)) 0);
      [|done]. simplify_eq. cbn. unfold Qeq. cbn. rewrite Z.mul_1_r, Z.mul_comm.
    apply Z.div_exact; done. }
  rewrite (num_lt_eq x _ z (- MAX_DATE_TIMESTAMP_MS)) in H1 by done.
  rewrite (num_lt_eq _ x MAX_DATE_TIMESTAMP_MS z) in H2 by done.
  apply Z.ltb_ge in H1, H2. lia.
Qed.

Lemma math_max_cases a b : math_max a b = a \/ math_max a b = b \/ math_max a b = NaN.
Proof. unfold math_max. destruct a, b; auto; destruct (num_lt _ _); auto. Qed.

Lemma date_safe_max a b : date_safe a -> date_safe b -> date_safe (math_max a b).
Proof.
  intros Ha Hb. destruct (math_max_cases a b) as [->|[->| E]]; [done..|].
  destruct Ha as (za & Ha & _), Hb as (zb & Hb & _). revert E. unfold math_max.
  destruct a, b; try done; destruct (num_lt _ _); done.
Qed.

Lemma durationMs_safe v now buf minr r :
  resolveExpiresAtMsFromDurationMs v now buf minr = Some r -> date_safe r.
Proof.
  unfold resolveExpiresAtMsFromDurationMs. destruct (asPositiveSafeInteger v); [|done].
  destruct (asDateTimestampMs (VNum now)); [|done].
  destruct (asFiniteNumber (VNum (default (of_Z 0) buf))); [|done].
  destruct (isSafeInteger _) eqn:E1; [|done]. destruct (hasIsoString _) eqn:E2; [|done].
  cbn [negb orb]. destruct minr as [m|]; [|intros [= <-]; by apply date_safe_intro].
  destruct (isSafeInteger (num_add _ m)) eqn:E3; [|intros [= <-]; by apply date_safe_intro].
  destruct (hasIsoString (num_add _ m)) eqn:E4; intros [= <-]; [|by apply date_safe_intro].
  apply date_safe_max; by apply date_safe_intro.
Qed.

Lemma epochSeconds_safe v buf max r :
  resolveExpiresAtMsFromEpochSeconds v buf max = Some r -> date_safe r.
Proof.
  unfold resolveExpiresAtMsFromEpochSeconds.
  match goal with |- match ?e with _ => _ end = _ -> _ => destruct e as [x|] end; [|done].
  destruct (isSafeInteger _) eqn:E1; [|done]. destruct (hasIsoString _) eqn:E2; [|done].
  cbn [negb]. destruct max as [m|]; [|intros [= <-]; by apply date_safe_intro].
  destruct (num_le _ m); [|done]. intros [= <-]. by apply date_safe_intro.
Qed.

Lemma parseStrictInteger_safe v r : parseStrictInteger v = Some r -> isSafeInteger r = true.
Proof.
  destruct v as [x|s|]; simpl; [|destruct (_ ≫= _); [|done]|done]; destruct (isSafeInteger _) eqn:E;
    naive_solver.
Qed.

(** Every expiration the resolvers compute, from a duration in milliseconds
    or seconds, from epoch seconds, or from a value whose unit is guessed, is
    an exact integer timestamp that a date can hold, whatever was passed in. *)
Theorem expirations_date_safe v now buf minr max rel abs :
  (forall r, resolveExpiresAtMsFromDurationMs v now buf minr = Some r -> date_safe r) /\
  (forall r, resolveExpiresAtMsFromDurationSeconds v now buf minr = Some r -> date_safe r) /\
  (forall r, resolveExpiresAtMsFromEpochSeconds v buf max = Some r -> date_safe r) /\
  (forall r, resolveExpiresAtMsFromDurationOrEpoch v now rel abs = Some r -> date_safe r).
Proof.
  assert (forall v buf minr r,
    resolveExpiresAtMsFromDurationSeconds v now buf minr = Some r -> date_safe r) as Hsec.
  { intros v0 buf0 minr0 r. unfold resolveExpiresAtMsFromDurationSeconds.
    destruct (positiveSecondsToSafeMilliseconds v0); [|done]. apply durationMs_safe. }
  split_and!.
  - apply durationMs_safe.
  - apply Hsec.
  - apply epochSeconds_safe.
  - intros r. unfold resolveExpiresAtMsFromDurationOrEpoch, parseStrictPositiveInteger.
    destruct (parseStrictInteger v) as [x|] eqn:E; [|done]. apply parseStrictInteger_safe in E.
    destruct (num_lt (of_Z 0) x); [|done]. destruct (num_lt x _); [apply Hsec|].
    destruct (num_lt x _); [apply epochSeconds_safe|]. intros H.
    apply date_safe_intro; [|apply bool_decide_eq_true];
      pose proof (asDateTimestampMs_bounds _ _ H) as (-> & _); [done|eauto].
Qed.

