(* ===== verification/JsDate.v ===== *)
(** * JavaScript dates

    The parts of the language's [Date] that the components use, from the
    language specification: the proleptic Gregorian calendar as day numbers
    from 1970-01-01, time values (milliseconds, or none for an invalid date),
    the UTC getters and setters, and [Date.parse] on the interchange format.
    What [Date.parse] does with other strings is left to the implementation by
    the specification and is a parameter here. *)
From S2P Require Import Prelude JsString JsNumber NumberCoercion.
#[local] Open Scope Z_scope.

(** ** The calendar *)

Definition is_leap (y : Z) : bool :=
  (y mod 4 =? 0) && (negb (y mod 100 =? 0) || (y mod 400 =? 0)).

Definition leap_day (y : Z) : Z := if is_leap y then 1 else 0.

(** The day number of the first of January. *)
Definition day_from_year (y : Z) : Z :=
  365 * (y - 1970) + (y - 1969) / 4 - (y - 1901) / 100 + (y - 1601) / 400.

(** The day of the year on which a month, counted from 0, begins. *)
Definition month_start (leap m : Z) : Z :=
  match m with
  | 1 => 31 | 2 => 59 + leap | 3 => 90 + leap | 4 => 120 + leap | 5 => 151 + leap
  | 6 => 181 + leap | 7 => 212 + leap | 8 => 243 + leap | 9 => 273 + leap | 10 => 304 + leap
  | 11 => 334 + leap | 12 => 365 + leap
  | _ => 0
  end.

Definition days_in_month (y m : Z) : Z :=
  month_start (leap_day y) (m + 1) - month_start (leap_day y) m.

(** [MakeDay]: months past December run into the next years, and days past the
    end of a month into the next ones. *)
Definition make_day (year month date : Z) : Z :=
  let y := year + month / 12 in
  day_from_year y + month_start (leap_day y) (month mod 12) + date - 1.

(** The year of a day: the last one that begins no later. *)
Definition year_from_day (day : Z) : Z :=
  let y := 1970 + day * 400 / 146097 in
  if day <? day_from_year y then y - 1
  else if day_from_year (y + 1) <=? day then y + 1 else y.

(** The last month that begins no later than day [d] of the year. *)
Definition month_search (leap d : Z) : Z :=
  default 0 (find_first (fun m => month_start leap m <=? d) [11; 10; 9; 8; 7; 6; 5; 4; 3; 2; 1]).

Definition month_from_day (day : Z) : Z :=
  let y := year_from_day day in month_search (leap_day y) (day - day_from_year y).

Definition date_from_day (day : Z) : Z :=
  let y := year_from_day day in
  day - day_from_year y - month_start (leap_day y) (month_from_day day) + 1.

(** ** Time values *)

Definition ms_per_day : Z := 86400000.

(** The time value of a [Date]; [None] is the invalid date. *)
Abbreviation date := (option Z).

Definition time_clip (t : Z) : date :=
  if Z.abs t <=? MAX_DATE_TIMESTAMP_MS then Some t else None.

(** [new Date(x)]. *)
Definition new_date (x : num) : date :=
  match math_trunc x with
  | Fin q => time_clip (Qnum q)
  | _ => None
  end.

(** [getTime()]. *)
Definition getTime (d : date) : num := match d with Some t => of_Z t | None => NaN end.

Definition day_of (t : Z) : Z := t / ms_per_day.
Definition time_within_day (t : Z) : Z := t mod ms_per_day.

Definition make_time (hour min sec ms : Z) : Z := hour * 3600000 + min * 60000 + sec * 1000 + ms.
Definition make_date (day time : Z) : Z := day * ms_per_day + time.

Definition setUTCFullYear (d : date) (year month dt : Z) : date :=
  let t := default 0 d in time_clip (make_date (make_day year month dt) (time_within_day t)).

Definition setUTCHours (d : date) (hour min sec ms : Z) : date :=
  t ← d; time_clip (make_date (day_of t) (make_time hour min sec ms)).

Definition getUTCFullYear (d : date) : option Z := t ← d; Some (year_from_day (day_of t)).
Definition getUTCMonth (d : date) : option Z := t ← d; Some (month_from_day (day_of t)).
Definition getUTCDate (d : date) : option Z := t ← d; Some (date_from_day (day_of t)).
Definition getUTCHours (d : date) : option Z := t ← d; Some (time_within_day t / 3600000).
Definition getUTCMinutes (d : date) : option Z := t ← d; Some (time_within_day t / 60000 mod 60).
Definition getUTCSeconds (d : date) : option Z := t ← d; Some (time_within_day t / 1000 mod 60).
Definition getUTCMilliseconds (d : date) : option Z := t ← d; Some (time_within_day t mod 1000).

(** ** Laws *)

Lemma leap_day_cases y : leap_day y = 0 \/ leap_day y = 1.
Proof. unfold leap_day. destruct (is_leap y); auto. Qed.

Lemma year_length y : day_from_year (y + 1) - day_from_year y = 365 + leap_day y.
Proof.
  unfold day_from_year, leap_day, is_leap.
  destruct (Z.eqb_spec (y mod 4) 0), (Z.eqb_spec (y mod 100) 0), (Z.eqb_spec (y mod 400) 0); cbn;
    Z.to_euclidean_division_equations; lia.
Qed.

Lemma day_from_year_bounds y :
  146097 * (y - 1970) - 1000 <= 400 * day_from_year y <= 146097 * (y - 1970) + 1000.
Proof. unfold day_from_year. Z.to_euclidean_division_equations. lia. Qed.

Lemma year_from_day_spec day :
  day_from_year (year_from_day day) <= day < day_from_year (year_from_day day + 1).
Proof.
  unfold year_from_day. set (y := 1970 + day * 400 / 146097).
  assert (146097 * (y - 1970) <= day * 400 < 146097 * (y - 1970) + 146097) as Hy.
  { unfold y. Z.to_euclidean_division_equations. lia. }
  pose proof (day_from_year_bounds (y - 1)). pose proof (day_from_year_bounds (y + 1 + 1)).
  destruct (Z.ltb_spec day (day_from_year y)).
  { replace (y - 1 + 1) with y by lia. lia. }
  destruct (Z.leb_spec (day_from_year (y + 1)) day); lia.
Qed.

Lemma day_from_year_mono y y' : y < y' -> day_from_year (y + 1) <= day_from_year y'.
Proof.
  intros H. replace y' with (y + 1 + (y' - y - 1)) by lia.
  assert (0 <= y' - y - 1) as Hn by lia. revert Hn. generalize (y' - y - 1). clear.
  apply natlike_ind; [by rewrite Z.add_0_r|]. intros n Hn IH.
  pose proof (year_length (y + 1 + n)). destruct (leap_day_cases (y + 1 + n));
    replace (y + 1 + Z.succ n) with (y + 1 + n + 1) by lia; lia.
Qed.

Lemma year_from_day_unique y day :
  day_from_year y <= day < day_from_year (y + 1) -> year_from_day day = y.
Proof.
  intros H. pose proof (year_from_day_spec day).
  destruct (Z.lt_trichotomy (year_from_day day) y) as [L|[->|L]]; [|done|];
    pose proof (day_from_year_mono _ _ L); lia.
Qed.

Ltac is_literal k := lazymatch k with Z0 => idtac | Zpos _ => idtac end.

Ltac literals :=
  repeat match goal with
  | |- context [?k + 1] => is_literal k; let v := eval vm_compute in (k + 1) in change (k + 1) with v
  | H : context [?k + 1] |- _ =>
      is_literal k; let v := eval vm_compute in (k + 1) in change (k + 1) with v in H
  end.

(** Case analysis on a month, with its successor computed. *)
Ltac months m :=
  assert (m = 0 \/ m = 1 \/ m = 2 \/ m = 3 \/ m = 4 \/ m = 5 \/ m = 6 \/ m = 7 \/ m = 8 \/ m = 9
    \/ m = 10 \/ m = 11) as Hmonths by lia;
  repeat (destruct Hmonths as [->|Hmonths]); try subst m; literals.

Lemma month_start_next leap m : leap = 0 \/ leap = 1 -> 0 <= m < 12 ->
  28 <= month_start leap (m + 1) - month_start leap m <= 31.
Proof. intros Hl Hm. months m; cbn; lia. Qed.

Lemma month_start_bounds leap m : leap = 0 \/ leap = 1 -> 0 <= m < 12 ->
  0 <= month_start leap m <= 335.
Proof. intros Hl Hm. months m; cbn; lia. Qed.

Lemma month_search_spec leap d : leap = 0 \/ leap = 1 -> 0 <= d < 365 + leap ->
  0 <= month_search leap d < 12 /\
  month_start leap (month_search leap d) <= d < month_start leap (month_search leap d + 1).
Proof.
  intros Hl Hd. unfold month_search. cbn.
  repeat match goal with |- context [?a <=? d] => destruct (Z.leb_spec a d) end;
    cbn in *; literals; cbn; lia.
Qed.

Lemma month_search_unique leap d m : leap = 0 \/ leap = 1 -> 0 <= m < 12 ->
  month_start leap m <= d < month_start leap (m + 1) -> month_search leap d = m.
Proof.
  intros Hl Hm H. unfold month_search. months m; cbn in H |- *;
    repeat match goal with |- context [?a <=? d] => destruct (Z.leb_spec a d) end; cbn; lia.
Qed.

Lemma day_of_year_bounds day :
  0 <= day - day_from_year (year_from_day day) < 365 + leap_day (year_from_day day).
Proof. pose proof (year_from_day_spec day). pose proof (year_length (year_from_day day)). lia. Qed.

(** Every day is a date of the calendar. *)
Lemma civil_in_range day :
  0 <= month_from_day day < 12 /\
  1 <= date_from_day day <= days_in_month (year_from_day day) (month_from_day day).
Proof.
  pose proof (month_search_spec _ _ (leap_day_cases (year_from_day day)) (day_of_year_bounds day)).
  unfold date_from_day, days_in_month, month_from_day in *. lia.
Qed.

Lemma make_day_civil day :
  make_day (year_from_day day) (month_from_day day) (date_from_day day) = day.
Proof.
  destruct (civil_in_range day) as [Hm _]. unfold make_day.
  rewrite Z.div_small, Z.mod_small by lia. rewrite Z.add_0_r. unfold date_from_day. lia.
Qed.

(** A date of the calendar is the date of its day. *)
Lemma civil_of_make_day y m d : 0 <= m < 12 -> 1 <= d <= days_in_month y m ->
  year_from_day (make_day y m d) = y /\ month_from_day (make_day y m d) = m /\
  date_from_day (make_day y m d) = d.
Proof.
  intros Hm Hd. unfold make_day. rewrite Z.div_small, Z.mod_small, Z.add_0_r by lia.
  unfold days_in_month in Hd. pose proof (leap_day_cases y) as Hl.
  set (day := _ + d - 1).
  assert (0 <= month_start (leap_day y) m /\ month_start (leap_day y) (m + 1) <= 365 + leap_day y).
  { destruct Hl as [-> | ->]; months m; cbn; lia. }
  assert (year_from_day day = y) as Hy.
  { apply year_from_day_unique. pose proof (year_length y). unfold day. lia. }
  assert (month_from_day day = m) as Hmon.
  { unfold month_from_day. rewrite Hy. apply month_search_unique; [done..|]. unfold day. lia. }
  split_and!; [done..|]. unfold date_from_day. rewrite Hmon, Hy. unfold day. lia.
Qed.

(** The setters keep the date exactly when it exists. *)
Lemma civil_exists y m d :
  (year_from_day (make_day y m d) = y /\ month_from_day (make_day y m d) = m /\
   date_from_day (make_day y m d) = d) <-> (0 <= m < 12 /\ 1 <= d <= days_in_month y m).
Proof.
  split.
  - intros (E1 & E2 & E3). pose proof (civil_in_range (make_day y m d)). by rewrite E1, E2, E3 in *.
  - intros [? ?]. by apply civil_of_make_day.
Qed.

(** ** The interchange format *)

(** Exactly [n] digits, and what follows them. *)
Definition take_digits (n : nat) (s : jstr) : option (jstr * jstr) :=
  if (length (take n s) =? n)%nat && forallb is_digit (take n s)
  then Some (take n s, drop n s) else None.

Definition take_char (p : ascii -> bool) (s : jstr) : option jstr :=
  match s with c :: r => if p c then Some r else None | [] => None end.

(** A date [YYYY-MM-DD], and what follows it. *)
Definition take_date (s : jstr) : option (jstr * jstr * jstr * jstr) :=
  '(y, s) ← take_digits 4 s; s ← take_char (is_char "-"%char) s;
  '(m, s) ← take_digits 2 s; s ← take_char (is_char "-"%char) s;
  '(d, s) ← take_digits 2 s; Some (y, m, d, s).

Definition take_hour_minute (s : jstr) : option (jstr * jstr * jstr) :=
  '(h, s) ← take_digits 2 s; s ← take_char (is_char ":"%char) s;
  '(m, s) ← take_digits 2 s; Some (h, m, s).

(** The number digits denote. *)
Definition number (ds : jstr) : Z := digits_value 0 ds.

(** An optional [:ss] with an optional [.sss]. *)
Definition take_seconds (s : jstr) : option (Z * Z * jstr) :=
  match take_char (is_char ":"%char) s with
  | None => Some (0, 0, s)
  | Some s =>
      '(sec, s) ← take_digits 2 s;
      match take_char (is_char "."%char) s with
      | None => Some (number sec, 0, s)
      | Some s => '(ms, s) ← take_digits 3 s; Some (number sec, number ms, s)
      end
  end.

(** The minutes of a zone, [Z] or [+hh:mm]. *)
Definition zone_minutes (s : jstr) : option Z :=
  match s with
  | c :: r =>
      if is_char "Z"%char c then match r with [] => Some 0 | _ => None end
      else if is_char "+"%char c || is_char "-"%char c then
        '(h, m, r) ← take_hour_minute r;
        match r with
        | [] => if (number h <? 24) && (number m <? 60)
                then Some ((if is_char "-"%char c then -1 else 1) * (60 * number h + number m))
                else None
        | _ => None
        end
      else None
  | [] => None
  end.

Definition date_exists (y m d : Z) : bool :=
  (1 <=? m) && (m <=? 12) && (1 <=? d) && (d <=? days_in_month y (m - 1)).

(** A time of the day; midnight may be written as the end of the day before. *)
Definition time_exists (h mi s ms : Z) : bool :=
  (h <? 24) && (mi <? 60) && (s <? 60) || (h =? 24) && (mi =? 0) && (s =? 0) && (ms =? 0).

(** The time of a full date of the interchange format that states its zone (or
    is a date alone, which is in UTC), when its elements are in bounds. *)
Definition parse_iso (s : jstr) : option Z :=
  '(y, m, d, s) ← take_date s;
  if date_exists (number y) (number m) (number d) then
    let day := make_day (number y) (number m - 1) (number d) in
    match s with
    | [] => Some (make_date day 0)
    | _ =>
        s ← take_char (is_char "T"%char) s;
        '(h, mi, s) ← take_hour_minute s;
        '(sec, ms, s) ← take_seconds s;
        offset ← zone_minutes s;
        if time_exists (number h) (number mi) sec ms
        then Some (make_date day (make_time (number h) (number mi) sec ms) - offset * 60000)
        else None
    end
  else None.

(** [Date.parse]. *)
Definition Date_parse (dateParseOther : jstr -> date) (s : jstr) : date :=
  match parse_iso s with Some t => time_clip t | None => dateParseOther s end.

(** ** Printing *)

Definition digit (z : Z) : ascii := Stdlib.Strings.Ascii.ascii_of_nat (48 + Z.to_nat (z mod 10)).

(** [n] decimal digits. *)
Fixpoint pad (n : nat) (z : Z) : jstr :=
  match n with O => [] | S n => pad n (z / 10) ++ [digit z] end.

(** [toISOString] of a date of the years 0 to 9999. *)
Definition toISOString (t : Z) : jstr :=
  let day := day_of t in
  let ms := time_within_day t in
  pad 4 (year_from_day day) ++ lit "-" ++ pad 2 (month_from_day day + 1) ++ lit "-"
  ++ pad 2 (date_from_day day) ++ lit "T" ++ pad 2 (ms / 3600000) ++ lit ":"
  ++ pad 2 (ms / 60000 mod 60) ++ lit ":" ++ pad 2 (ms / 1000 mod 60) ++ lit "."
  ++ pad 3 (ms mod 1000) ++ lit "Z".

Lemma digit_spec z : is_digit (digit z) = true /\ Z.of_nat (code (digit z)) - 48 = z mod 10.
Proof.
  unfold digit. pose proof (Z.mod_pos_bound z 10 ltac:(lia)) as H.
  assert (z mod 10 = 0 \/ z mod 10 = 1 \/ z mod 10 = 2 \/ z mod 10 = 3 \/ z mod 10 = 4 \/
          z mod 10 = 5 \/ z mod 10 = 6 \/ z mod 10 = 7 \/ z mod 10 = 8 \/ z mod 10 = 9) as Hd by lia.
  repeat destruct Hd as [->|Hd]; try rewrite Hd; done.
Qed.

Lemma digit_is_digit z : is_digit (digit z) = true.
Proof. apply digit_spec. Qed.

(** A digit is none of the other characters of the format. *)
Lemma digit_not_char c z : is_digit c = false -> is_char c (digit z) = false.
Proof.
  intros H. apply bool_decide_eq_false. intros ->. by rewrite digit_is_digit in H.
Qed.

Lemma number_pad n z : number (pad n z) = z mod 10 ^ Z.of_nat n.
Proof.
  unfold number. revert z. induction n as [|n IH]; intros z.
  - cbn. by rewrite Z.mod_1_r.
  - cbn [pad]. rewrite digits_value_app, IH. cbn [digits_value foldl].
    rewrite (proj2 (digit_spec z)). rewrite Nat2Z.inj_succ, Z.pow_succ_r by lia.
    assert (0 < 10 ^ Z.of_nat n) by (apply Z.pow_pos_nonneg; lia).
    rewrite Z.rem_mul_r by lia. lia.
Qed.

Lemma number_pad_small n z : 0 <= z < 10 ^ Z.of_nat n -> number (pad n z) = z.
Proof. intros H. by rewrite number_pad, Z.mod_small. Qed.

Lemma pad_length n z : length (pad n z) = n.
Proof. revert z. induction n as [|n IH]; intros z; [done|]. cbn. rewrite length_app, IH. cbn. lia. Qed.

Lemma pad_digits n z : forallb is_digit (pad n z) = true.
Proof.
  revert z. induction n as [|n IH]; intros z; [done|]. cbn [pad].
  rewrite forallb_app, IH. cbn. by rewrite digit_is_digit.
Qed.

Lemma take_digits_pad n z s : take_digits n (pad n z ++ s) = Some (pad n z, s).
Proof.
  unfold take_digits. rewrite take_app_length', drop_app_length' by (by rewrite pad_length).
  by rewrite pad_length, Nat.eqb_refl, pad_digits.
Qed.
