(* ===== verification/CronTime.v ===== *)
(** * Times of cron jobs

    [src/cron/parse.ts]: how the text of a one-shot job becomes a time.  The
    regular expressions are matched by position, since each of them has at most
    one way to match. *)
From S2P Require Import Prelude JsString JsNumber NumberCoercion JsDate.
#[local] Open Scope Z_scope.

(** ** The regular expressions *)

Definition is_z (c : ascii) : bool := is_char "Z"%char c || is_char "z"%char c.
Definition is_t (c : ascii) : bool := is_char "T"%char c || is_char "t"%char c.
Definition is_sign (c : ascii) : bool := is_char "+"%char c || is_char "-"%char c.

(** [[+-]\d{2}:?\d{2}], as a whole. *)
Definition is_offset (s : jstr) : bool :=
  bool_decide (is_Some (
    s ← take_char is_sign s;
    '(_, s) ← take_digits 2 s;
    '(_, s) ← take_digits 2 (default s (take_char (is_char ":"%char) s));
    match s with [] => Some tt | _ => None end)).

(** [/(Z|[+-]\d{2}:?\d{2})$/i]. *)
Definition ISO_TZ_RE (s : jstr) : bool :=
  match last s with Some c => is_z c | None => false end
  || is_offset (drop (length s - 5) s) || is_offset (drop (length s - 6) s).

(** [/^\d{4}-\d{2}-\d{2}$/]. *)
Definition ISO_DATE_RE (s : jstr) : bool :=
  match take_date s with Some (_, _, _, []) => true | _ => false end.

(** [/^\d{4}-\d{2}-\d{2}[Tt]/]. *)
Definition ISO_DATE_TIME_RE (s : jstr) : bool :=
  match take_date s with Some (_, _, _, c :: _) => is_t c | _ => false end.

(** The groups of a match of [ISO_ABSOLUTE_RE]. *)
Record IsoMatch := {
  yearRaw : jstr; monthRaw : jstr; dayRaw : jstr;
  hourRaw : option jstr; minuteRaw : option jstr; secondRaw : option jstr;
  fractionRaw : option jstr;
}.

(** [(?::(\d{2})(\.\d+)?)?]. *)
Definition match_seconds (s : jstr) : option jstr * option jstr * jstr :=
  match take_char (is_char ":"%char) s ≫= take_digits 2 with
  | None => (None, None, s)
  | Some (sec, s) =>
      match s with
      | c :: r =>
          let '(ds, rest) := span_digits r in
          match is_char "."%char c, ds with
          | true, _ :: _ => (Some sec, Some (c :: ds), rest)
          | _, _ => (Some sec, None, s)
          end
      | [] => (Some sec, None, s)
      end
  end.

(** [(?:[Zz]|[+-]\d{2}:?\d{2})?$]. *)
Definition match_zone (s : jstr) : bool :=
  match s with
  | [] => true
  | c :: r => match r with [] => is_z c | _ => is_offset s end
  end.

Definition ISO_ABSOLUTE_RE (s : jstr) : option IsoMatch :=
  '(y, m, d, s) ← take_date s;
  match s with
  | [] => Some {| yearRaw := y; monthRaw := m; dayRaw := d; hourRaw := None; minuteRaw := None;
                  secondRaw := None; fractionRaw := None |}
  | _ =>
      s ← take_char is_t s;
      '(h, mi, s) ← take_hour_minute s;
      let '(sec, frac, s) := match_seconds s in
      if match_zone s
      then Some {| yearRaw := y; monthRaw := m; dayRaw := d; hourRaw := Some h;
                   minuteRaw := Some mi; secondRaw := sec; fractionRaw := frac |}
      else None
  end.

(** ** Functions *)

Definition normalizeUtcIso (raw : jstr) : jstr :=
  if ISO_TZ_RE raw then raw
  else if ISO_DATE_RE raw then raw ++ lit "T00:00:00Z"
  else if ISO_DATE_TIME_RE raw then raw ++ lit "Z"
  else raw.

(** [Number(fractionRaw.slice(1, 4).padEnd(3, "0"))]. *)
Definition fraction_ms (fraction : jstr) : Z :=
  let ds := slice 1 4 fraction in number (ds ++ repeat "0"%char (3 - length ds)).

(** The probe date has the fields it was set to. *)
Definition probe_agrees (year month day hour minute second millisecond : Z) : bool :=
  let isEndOfDay := (hour =? 24) && (minute =? 0) && (second =? 0) && (millisecond =? 0) in
  let probe := setUTCFullYear (new_date (of_Z 0)) year (month - 1) day in
  let probe := setUTCHours probe (if isEndOfDay then 0 else hour) minute second millisecond in
  bool_decide (getUTCFullYear probe = Some year) &&
  bool_decide (getUTCMonth probe = Some (month - 1)) &&
  bool_decide (getUTCDate probe = Some day) &&
  bool_decide (getUTCHours probe = Some (if isEndOfDay then 0 else hour)) &&
  bool_decide (getUTCMinutes probe = Some minute) &&
  bool_decide (getUTCSeconds probe = Some second) &&
  bool_decide (getUTCMilliseconds probe = Some millisecond).

Definition isValidIsoAbsolute (raw : jstr) : bool :=
  match ISO_ABSOLUTE_RE raw with
  | None => false
  | Some g =>
      let year := number (yearRaw g) in
      let month := number (monthRaw g) in
      let day := number (dayRaw g) in
      let hour := number (default (lit "0") (hourRaw g)) in
      let minute := number (default (lit "0") (minuteRaw g)) in
      let second := number (default (lit "0") (secondRaw g)) in
      let millisecond := match fractionRaw g with
                         | Some f => if truthy f then fraction_ms f else 0
                         | None => 0
                         end in
      probe_agrees year month day hour minute second millisecond
  end.

(** [/^\d+$/]. *)
Definition all_digits (s : jstr) : bool := truthy s && forallb is_digit s.

Definition parseAbsoluteTimeMs (dateParseOther : jstr -> date) (input : jstr) : option num :=
  let raw := trim input in
  if negb (truthy raw) then None
  else if all_digits raw then
    match parseStrictPositiveInteger (VStr raw) with
    | Some n => if isFinite (getTime (new_date n)) then Some n else None
    | None => None
    end
  else if negb (isValidIsoAbsolute raw) then None
  else
    let parsed := getTime (Date_parse dateParseOther (normalizeUtcIso raw)) in
    if isFinite parsed then Some parsed else None.

(** ** What the times of jobs mean *)

Inductive IsoZone :=
  | NoZone
  | UtcZone
  | OffsetZone (negative : bool) (hh mm : Z).

(** A text of the interchange format: a date, or a date with a time to the
    minute, second or millisecond and an optional zone. *)
Inductive IsoClock :=
  | ClockMinute (h mi : Z)
  | ClockSecond (h mi s : Z)
  | ClockMilli (h mi s ms : Z).

Record IsoText := {
  it_year : Z; it_month : Z; it_day : Z;
  it_clock : option (IsoClock * IsoZone);
}.

Definition zone_text (z : IsoZone) : jstr :=
  match z with
  | NoZone => []
  | UtcZone => lit "Z"
  | OffsetZone negative hh mm =>
      (if negative then lit "-" else lit "+") ++ pad 2 hh ++ lit ":" ++ pad 2 mm
  end.

Definition clock_text (c : IsoClock) : jstr :=
  match c with
  | ClockMinute h mi => pad 2 h ++ lit ":" ++ pad 2 mi
  | ClockSecond h mi s => pad 2 h ++ lit ":" ++ pad 2 mi ++ lit ":" ++ pad 2 s
  | ClockMilli h mi s ms =>
      pad 2 h ++ lit ":" ++ pad 2 mi ++ lit ":" ++ pad 2 s ++ lit "." ++ pad 3 ms
  end.

Definition iso_text (x : IsoText) : jstr :=
  pad 4 (it_year x) ++ lit "-" ++ pad 2 (it_month x) ++ lit "-" ++ pad 2 (it_day x)
  ++ match it_clock x with
     | None => []
     | Some (c, z) => lit "T" ++ clock_text c ++ zone_text z
     end.

Definition clock_fields (c : IsoClock) : Z * Z * Z * Z :=
  match c with
  | ClockMinute h mi => (h, mi, 0, 0)
  | ClockSecond h mi s => (h, mi, s, 0)
  | ClockMilli h mi s ms => (h, mi, s, ms)
  end.

Definition zone_offset (z : IsoZone) : Z :=
  match z with
  | OffsetZone negative hh mm => (if negative then -1 else 1) * (60 * hh + mm)
  | _ => 0
  end.

(** The date and the time of the day are real ones. *)
Definition iso_exists (x : IsoText) : bool :=
  date_exists (it_year x) (it_month x) (it_day x) &&
  match it_clock x with
  | None => true
  | Some (c, _) => let '(h, mi, s, ms) := clock_fields c in time_exists h mi s ms
  end.

(** The instant, with times that state no zone in UTC. *)
Definition iso_instant (x : IsoText) : Z :=
  let day := make_day (it_year x) (it_month x - 1) (it_day x) in
  match it_clock x with
  | None => make_date day 0
  | Some (c, z) =>
      let '(h, mi, s, ms) := clock_fields c in
      make_date day (make_time h mi s ms) - zone_offset z * 60000
  end.

(** The numbers fit their digits, and offsets are those of the format. *)
Definition iso_wf (x : IsoText) : Prop :=
  0 <= it_year x < 10000 /\ 0 <= it_month x < 100 /\ 0 <= it_day x < 100 /\
  match it_clock x with
  | None => True
  | Some (c, z) =>
      let '(h, mi, s, ms) := clock_fields c in
      (0 <= h < 100 /\ 0 <= mi < 100 /\ 0 <= s < 100 /\ 0 <= ms < 1000) /\
      match z with OffsetZone _ hh mm => 0 <= hh < 24 /\ 0 <= mm < 60 | _ => True end
  end.

(** ** The probe accepts the real dates *)

Lemma make_day_bounds y m d : 0 <= y < 10000 -> -1 <= m < 100 -> 0 <= d < 100 ->
  Z.abs (make_day y m d) <= 3700000.
Proof.
  intros Hy Hm Hd. unfold make_day.
  assert (-1 <= m / 12 <= 8) by (Z.to_euclidean_division_equations; lia).
  pose proof (day_from_year_bounds (y + m / 12)).
  pose proof (month_start_bounds _ _ (leap_day_cases (y + m / 12)) (Z.mod_pos_bound m 12 ltac:(lia))).
  lia.
Qed.

Lemma time_clip_small t : Z.abs t <= MAX_DATE_TIMESTAMP_MS -> time_clip t = Some t.
Proof. intros H. unfold time_clip. by rewrite (proj2 (Z.leb_le _ _)). Qed.

Lemma make_time_fields h mi s ms : 0 <= h < 24 -> 0 <= mi < 60 -> 0 <= s < 60 -> 0 <= ms < 1000 ->
  0 <= make_time h mi s ms < ms_per_day /\ make_time h mi s ms / 3600000 = h /\
  make_time h mi s ms / 60000 mod 60 = mi /\ make_time h mi s ms / 1000 mod 60 = s /\
  make_time h mi s ms mod 1000 = ms.
Proof.
  intros. unfold make_time, ms_per_day. split_and!; Z.to_euclidean_division_equations; lia.
Qed.

Lemma time_fields_range t : let w := time_within_day t in
  0 <= w / 3600000 < 24 /\ 0 <= w / 60000 mod 60 < 60 /\ 0 <= w / 1000 mod 60 < 60 /\
  0 <= w mod 1000 < 1000.
Proof.
  cbv zeta. unfold time_within_day, ms_per_day. split_and!; Z.to_euclidean_division_equations; lia.
Qed.

Lemma make_date_parts day time : 0 <= time < ms_per_day ->
  day_of (make_date day time) = day /\ time_within_day (make_date day time) = time.
Proof.
  unfold make_date, day_of, time_within_day, ms_per_day. intros H.
  split; Z.to_euclidean_division_equations; lia.
Qed.

Lemma date_exists_spec y m d : date_exists y m d = true <->
  0 <= m - 1 < 12 /\ 1 <= d <= days_in_month y (m - 1).
Proof. unfold date_exists. rewrite !andb_true_iff, !Z.leb_le. lia. Qed.

Lemma set_fields year month day hour minute second ms :
  0 <= year < 10000 -> 0 <= month < 100 -> 0 <= day < 100 ->
  0 <= hour < 100 -> 0 <= minute < 100 -> 0 <= second < 100 -> 0 <= ms < 1000 ->
  setUTCHours (setUTCFullYear (new_date (of_Z 0)) year (month - 1) day) hour minute second ms =
  Some (make_date (make_day year (month - 1) day) (make_time hour minute second ms)).
Proof.
  intros. pose proof (make_day_bounds year (month - 1) day ltac:(lia) ltac:(lia) ltac:(lia)).
  assert (new_date (of_Z 0) = Some 0) as -> by done.
  unfold setUTCFullYear. change (time_within_day (default 0 (Some 0))) with 0.
  rewrite time_clip_small by (unfold make_date, ms_per_day, MAX_DATE_TIMESTAMP_MS; lia).
  unfold setUTCHours. cbn [mbind option_bind].
  destruct (make_date_parts (make_day year (month - 1) day) 0) as [-> _]; [done|].
  apply time_clip_small. unfold make_date, make_time, ms_per_day, MAX_DATE_TIMESTAMP_MS. lia.
Qed.

Lemma probe_agrees_spec year month day hour minute second ms :
  0 <= year < 10000 -> 0 <= month < 100 -> 0 <= day < 100 ->
  0 <= hour < 100 -> 0 <= minute < 100 -> 0 <= second < 100 -> 0 <= ms < 1000 ->
  probe_agrees year month day hour minute second ms =
  date_exists year month day && time_exists hour minute second ms.
Proof.
  intros Hy Hmo Hd Hh Hmi Hs Hms. unfold probe_agrees, time_exists.
  set (eod := (hour =? 24) && _ && _ && _).
  set (h' := if eod then 0 else hour). assert (0 <= h' < 100) by (unfold h'; destruct eod; lia).
  rewrite set_fields by lia.
  set (dd := make_day year (month - 1) day). set (w := make_time h' minute second ms).
  assert ((hour <? 24) && (minute <? 60) && (second <? 60) || eod
          = (h' <? 24) && (minute <? 60) && (second <? 60)) as ->.
  { unfold h'. destruct eod eqn:E; [|by rewrite orb_false_r].
    unfold eod in E. rewrite !andb_true_iff, !Z.eqb_eq in E. destruct E as [[[-> ->] ->] ->]. done. }
  cbn [mbind option_bind getUTCFullYear getUTCMonth getUTCDate getUTCHours getUTCMinutes getUTCSeconds
       getUTCMilliseconds].
  apply eq_true_iff_eq. rewrite !andb_true_iff, !bool_decide_eq_true, date_exists_spec, !Z.ltb_lt.
  rewrite !(inj_iff Some). split.
  - intros ((((((E1 & E2) & E3) & E4) & E5) & E6) & E7).
    pose proof (time_fields_range (make_date dd w)) as R. cbv zeta in R. rewrite E4, E5, E6, E7 in R.
    destruct (make_time_fields h' minute second ms) as [B _]; [lia..|].
    destruct (make_date_parts dd w B) as [Ed _]. rewrite Ed in *.
    pose proof (proj1 (civil_exists year (month - 1) day) (conj E1 (conj E2 E3))). lia.
  - intros ([? ?] & [? ?] & ?).
    destruct (make_time_fields h' minute second ms) as (B & T1 & T2 & T3 & T4); [lia..|].
    destruct (make_date_parts dd w B) as [Ed Et]. rewrite Ed, Et.
    destruct (civil_of_make_day year (month - 1) day) as (C1 & C2 & C3); [lia..|].
    fold w in T1, T2, T3, T4. fold dd in C1, C2, C3. by rewrite C1, C2, C3, T1, T2, T3, T4.
Qed.

(** ** Texts of the format *)

#[local] Arguments digit : simpl never.
#[local] Arguments is_char : simpl never.
#[local] Arguments is_digit : simpl never.
#[local] Arguments is_digit : simpl never.

(** Evaluate the tests of characters that are digits or known. *)
Ltac char_tests :=
  repeat match goal with
  | |- context [is_digit (digit ?z)] => rewrite (digit_is_digit z)
  | |- context [is_char ?c (digit ?z)] => rewrite (digit_not_char c z) by reflexivity
  | |- context [is_char ?c ?d] => let v := eval vm_compute in (is_char c d) in change (is_char c d) with v
  | |- context [is_digit ?d] => let v := eval vm_compute in (is_digit d) in change (is_digit d) with v
  end.

(** A number fits its digits. *)
Ltac by_digits :=
  match goal with |- 0 <= _ < ?p => let v := eval vm_compute in p in change p with v end; lia.

(** Evaluate functions on texts. *)
Ltac eval_text := cbn; repeat (progress char_tests; cbn); try done.

Ltac text_cases x :=
  destruct x as [y m d [[[h mi|h mi s|h mi s ms] [| |[] hh mm]]|]].

Definition iso_rest (x : IsoText) : jstr :=
  match it_clock x with
  | None => []
  | Some (c, z) => lit "T" ++ clock_text c ++ zone_text z
  end.

Lemma take_date_text x s : take_date (iso_text x ++ s) =
  Some (pad 4 (it_year x), pad 2 (it_month x), pad 2 (it_day x), iso_rest x ++ s).
Proof.
  assert (forall r, take_char (is_char "-"%char) (lit "-" ++ r) = Some r) as Hdash by done.
  unfold take_date, iso_text. rewrite <- !app_assoc.
  rewrite take_digits_pad; cbn [mbind option_bind]. rewrite Hdash; cbn [mbind option_bind].
  rewrite take_digits_pad; cbn [mbind option_bind]. rewrite Hdash; cbn [mbind option_bind].
  by rewrite take_digits_pad.
Qed.

Lemma text_not_digits x : all_digits (iso_text x) = false.
Proof. unfold all_digits, iso_text. cbn. char_tests. by rewrite !andb_false_r. Qed.

Lemma ISO_TZ_RE_text x :
  ISO_TZ_RE (iso_text x) = match it_clock x with Some (_, (UtcZone | OffsetZone _ _ _)) => true | _ => false end.
Proof.
  text_cases x; unfold ISO_TZ_RE, is_offset, is_z, is_sign, take_digits, iso_text; eval_text.
Qed.

Definition iso_match (x : IsoText) : IsoMatch :=
  {| yearRaw := pad 4 (it_year x); monthRaw := pad 2 (it_month x); dayRaw := pad 2 (it_day x);
     hourRaw := '(c, _) ← it_clock x; let '(h, _, _, _) := clock_fields c in Some (pad 2 h);
     minuteRaw := '(c, _) ← it_clock x; let '(_, mi, _, _) := clock_fields c in Some (pad 2 mi);
     secondRaw := '(c, _) ← it_clock x;
                  match c with ClockMinute _ _ => None | ClockSecond _ _ s | ClockMilli _ _ s _ => Some (pad 2 s) end;
     fractionRaw := '(c, _) ← it_clock x;
                    match c with ClockMilli _ _ _ ms => Some (lit "." ++ pad 3 ms) | _ => None end |}.

Lemma ISO_ABSOLUTE_RE_text x : ISO_ABSOLUTE_RE (iso_text x) = Some (iso_match x).
Proof.
  unfold ISO_ABSOLUTE_RE. rewrite <- (app_nil_r (iso_text x)), take_date_text, app_nil_r.
  text_cases x; unfold iso_match, iso_rest, is_t, take_hour_minute, match_seconds, match_zone, is_offset, is_z,
    is_sign, take_digits; eval_text.
Qed.

Lemma isValidIsoAbsolute_text x : iso_wf x -> isValidIsoAbsolute (iso_text x) = iso_exists x.
Proof.
  intros (Hy & Hm & Hd & Hc). unfold isValidIsoAbsolute. rewrite ISO_ABSOLUTE_RE_text.
  unfold iso_exists. destruct x as [y m d [[c z]|]]; cbn [it_year it_month it_day it_clock] in *.
  2:{ unfold iso_match. cbn -[number pad lit].
      change (number (lit "0")) with 0. rewrite !number_pad_small by by_digits.
      by rewrite probe_agrees_spec by lia. }
  assert (forall ms, (if truthy (lit "." ++ pad 3 ms) then fraction_ms (lit "." ++ pad 3 ms) else 0)
                     = number (pad 3 ms)) as Hf by done.
  destruct c; cbn [clock_fields] in Hc |- *; destruct Hc as [Hc _]; unfold iso_match;
    cbn -[number pad lit fraction_ms truthy]; rewrite ?Hf; change (number (lit "0")) with 0;
    rewrite ?number_pad_small by by_digits; by rewrite probe_agrees_spec by lia.
Qed.

(** Texts without a zone are read in UTC. *)
Definition in_utc (x : IsoText) : IsoText :=
  {| it_year := it_year x; it_month := it_month x; it_day := it_day x;
     it_clock := match it_clock x with
                 | None => Some (ClockSecond 0 0 0, UtcZone)
                 | Some (c, NoZone) => Some (c, UtcZone)
                 | o => o
                 end |}.

Lemma normalizeUtcIso_text x : normalizeUtcIso (iso_text x) = iso_text (in_utc x).
Proof.
  unfold normalizeUtcIso. rewrite ISO_TZ_RE_text. unfold ISO_DATE_RE, ISO_DATE_TIME_RE.
  rewrite <- (app_nil_r (iso_text x)), take_date_text, app_nil_r.
  text_cases x; unfold iso_rest, iso_text, is_t; eval_text.
Qed.

Lemma in_utc_same x : iso_exists (in_utc x) = iso_exists x /\ iso_instant (in_utc x) = iso_instant x.
Proof.
  destruct x as [y m d [[c [| |]]|]]; cbn; try done. unfold iso_exists, iso_instant. cbn.
  rewrite andb_true_r. split; [done|]. unfold make_date, make_time. lia.
Qed.

Lemma in_utc_wf x : iso_wf x -> iso_wf (in_utc x).
Proof. unfold iso_wf. destruct x as [y m d [[c [| |]]|]]; cbn; try done. lia. Qed.

Lemma take_hour_minute_pad h mi r :
  take_hour_minute (pad 2 h ++ lit ":" ++ pad 2 mi ++ r) = Some (pad 2 h, pad 2 mi, r).
Proof.
  assert (forall r, take_char (is_char ":"%char) (lit ":" ++ r) = Some r) as Hcolon by done.
  unfold take_hour_minute. rewrite take_digits_pad; cbn [mbind option_bind]. rewrite Hcolon.
  cbn [mbind option_bind]. by rewrite take_digits_pad.
Qed.

Lemma zone_minutes_text z : z <> NoZone ->
  match z with OffsetZone _ hh mm => 0 <= hh < 24 /\ 0 <= mm < 60 | _ => True end ->
  zone_minutes (zone_text z) = Some (zone_offset z).
Proof.
  intros Hz Hw. destruct z as [| |neg hh mm]; [done..|].
  assert (zone_text (OffsetZone neg hh mm) =
    (if neg then "-"%char else "+"%char) :: (pad 2 hh ++ lit ":" ++ pad 2 mm ++ [])) as ->.
  { rewrite app_nil_r. by destruct neg. }
  cbn [zone_minutes]. rewrite take_hour_minute_pad. cbn [mbind option_bind].
  rewrite !number_pad_small by by_digits.
  rewrite !(proj2 (Z.ltb_lt _ _)) by lia. by destruct neg.
Qed.

Lemma take_seconds_text (c : IsoClock) z : let '(h, mi, s, ms) := clock_fields c in
  z <> NoZone -> 0 <= s < 100 -> 0 <= ms < 1000 ->
  exists r, clock_text c ++ zone_text z = pad 2 h ++ lit ":" ++ pad 2 mi ++ r /\
    take_seconds r = Some (s, ms, zone_text z).
Proof.
  assert (forall z, z <> NoZone -> take_char (is_char ":"%char) (zone_text z) = None /\
                    take_char (is_char "."%char) (zone_text z) = None) as Hz by (by intros [| |[]]).
  assert (forall r, take_char (is_char ":"%char) (lit ":" ++ r) = Some r) as Hcolon by done.
  assert (forall r, take_char (is_char "."%char) (lit "." ++ r) = Some r) as Hdot by done.
  destruct c as [h mi|h mi s|h mi s ms]; cbn [clock_fields clock_text]; intros Hne Hs Hms;
    (eexists; split; [rewrite <- !app_assoc; reflexivity|]); unfold take_seconds.
  - by rewrite (proj1 (Hz z Hne)).
  - rewrite Hcolon, take_digits_pad. cbn [mbind option_bind].
    by rewrite (proj2 (Hz z Hne)), number_pad_small by by_digits.
  - rewrite Hcolon, take_digits_pad. cbn [mbind option_bind].
    rewrite Hdot, take_digits_pad. cbn [mbind option_bind].
    by rewrite !number_pad_small by by_digits.
Qed.

Lemma parse_iso_text x c z : it_clock x = Some (c, z) -> z <> NoZone -> iso_wf x ->
  parse_iso (iso_text x) = if iso_exists x then Some (iso_instant x) else None.
Proof.
  intros Ec Hz (Hy & Hm & Hd & Hc). unfold parse_iso.
  rewrite <- (app_nil_r (iso_text x)), take_date_text. cbn [mbind option_bind].
  rewrite !number_pad_small by by_digits. unfold iso_exists, iso_instant, iso_rest.
  rewrite Ec in Hc |- *. rewrite app_nil_r.
  destruct (date_exists _ _ _); [|done]. cbn [andb].
  pose proof (take_seconds_text c z) as Hs. destruct (clock_fields c) as [[[h mi] s] ms].
  destruct Hc as [Hc Hw]. destruct (Hs Hz) as (r & -> & Hr); [lia..|].
  change (lit "T" ++ ?u) with ("T"%char :: u). cbn [take_char mbind option_bind].
  change (is_char "T"%char "T"%char) with true. cbn [mbind option_bind].
  rewrite take_hour_minute_pad. cbn [mbind option_bind]. rewrite Hr. cbn [mbind option_bind].
  rewrite zone_minutes_text by done. cbn [mbind option_bind].
  by rewrite !number_pad_small by by_digits.
Qed.

Lemma iso_instant_bounds x : iso_wf x -> Z.abs (iso_instant x) <= MAX_DATE_TIMESTAMP_MS.
Proof.
  intros (Hy & Hm & Hd & Hc).
  pose proof (make_day_bounds (it_year x) (it_month x - 1) (it_day x) ltac:(lia) ltac:(lia) ltac:(lia)).
  unfold iso_instant, make_date, make_time, ms_per_day, MAX_DATE_TIMESTAMP_MS in *.
  destruct (it_clock x) as [[c z]|]; [|lia].
  destruct (clock_fields c) as [[[h mi] s] ms]. destruct Hc as [Hc Hw].
  destruct z as [| |[] hh mm]; cbn [zone_offset]; lia.
Qed.

(** The text of a one-shot time in the interchange format, with or without
    clock, seconds, milliseconds and zone, is accepted exactly when its date
    exists in the Gregorian calendar and its time of day is one, and is then
    the instant it writes, in UTC when it states no zone.  No text of this kind
    depends on what the implementation of [Date.parse] does with other strings. *)
Theorem absolute_times_are_real_dates (other : jstr -> date) (input : jstr) (x : IsoText) :
  iso_wf x -> trim input = iso_text x ->
  parseAbsoluteTimeMs other input = if iso_exists x then Some (of_Z (iso_instant x)) else None.
Proof.
  intros Hwf Hin. unfold parseAbsoluteTimeMs. rewrite Hin, text_not_digits.
  assert (truthy (iso_text x) = true) as -> by done. cbn [negb].
  rewrite isValidIsoAbsolute_text by done. destruct (iso_exists x) eqn:Ex; [|done]. cbn [negb].
  rewrite normalizeUtcIso_text. destruct (in_utc_same x) as [Ee Ei]. unfold Date_parse.
  assert (exists c z, it_clock (in_utc x) = Some (c, z) /\ z <> NoZone) as (c & z & Ec & Hz).
  { destruct x as [y m d [[c [| |]]|]]; cbn; eauto. }
  rewrite (parse_iso_text _ c z Ec Hz (in_utc_wf x Hwf)), Ee, Ex, Ei.
  by rewrite time_clip_small by (by apply iso_instant_bounds).
Qed.

Definition noon_in_delhi : IsoText :=
  {| it_year := 2024; it_month := 2; it_day := 29;
     it_clock := Some (ClockMinute 12 0, OffsetZone false 5 30) |}.

Lemma absolute_times_are_real_dates_witness :
  parseAbsoluteTimeMs (fun _ => None) (lit " 2024-02-29T12:00+05:30") = Some (of_Z 1709188200000).
Proof.
  refine (absolute_times_are_real_dates (fun _ => None) (lit " 2024-02-29T12:00+05:30") noon_in_delhi _ _).
  - unfold iso_wf. cbn. lia.
  - vm_compute. reflexivity.
Defined.
