(* ===== verification/CronSchedule.v ===== *)
(** * Schedules of cron jobs

    [src/cron/schedule.ts], [schedule-number.ts] and [stagger.ts]: the next and
    the previous time of a schedule, with the cache of parsed cron expressions,
    and the stagger window of recurring jobs.

    Cron expressions are evaluated by the package croner, which is the class
    [CronEngine]: an expression and a time zone give an evaluator or throw, and
    an evaluator gives the next run after a date and the runs before one. *)
From S2P Require Import Prelude JsString JsMap JsNumber NumberCoercion Normalization JsDate CronTime.
#[local] Open Scope Z_scope.

(** ** Exceptions *)

(** What a function does: it returns or throws. *)
Inductive outcome (A : Type) :=
  | Returns (a : A)
  | Throws (error : jstr).
Arguments Returns {_} _.
Arguments Throws {_} _.

#[export] Instance outcome_ret : MRet outcome := fun A a => Returns a.
#[export] Instance outcome_bind : MBind outcome := fun A B f o =>
  match o with Returns a => f a | Throws e => Throws e end.

(** ** The environment *)

Class CronEngine := {
  Cron : Type;
  (** [new Cron(expr, { timezone, catch: false })]. *)
  new_Cron : jstr -> jstr -> outcome Cron;
  (** [cron.nextRun(date)] and [cron.previousRuns(n, date)]. *)
  nextRun : Cron -> date -> outcome (option date);
  previousRuns : Cron -> nat -> date -> outcome (list date);
  (** [Intl.DateTimeFormat().resolvedOptions().timeZone]. *)
  localTimeZone : jstr;
  (** [Date.parse] on strings outside the interchange format. *)
  dateParseOther : jstr -> date;
  (** The first four bytes of the SHA-256 digest, big-endian. *)
  sha256_uint32 : jstr -> Z;
}.

(** What the components rely on: croner returns valid dates, its runs before a
    date are those asked for at most, the local zone is a zone name, and a word
    of a digest has 32 bits. *)
Definition valid_date (d : date) : Prop :=
  exists t, d = Some t /\ Z.abs t <= MAX_DATE_TIMESTAMP_MS.

Class CronEngineLaws `{CronEngine} : Prop := {
  nextRun_valid c d r : nextRun c d = Returns (Some r) -> valid_date r;
  previousRuns_valid c n d rs : previousRuns c n d = Returns rs -> Forall valid_date rs;
  localTimeZone_name : free_of "000"%char localTimeZone;
  sha256_uint32_range s : 0 <= sha256_uint32 s < 2 ^ 32;
}.

(** [schedule.everyMs] and its like are read as [unknown]; [expr] is [None]
    when it is no string.  The command of an on-exit schedule is not used. *)
Inductive CronSchedule :=
  | ScheduleAt (at_ : jstr)
  | ScheduleEvery (everyMs anchorMs : nval)
  | ScheduleCron (expr tz : option jstr) (staggerMs : nval)
  | ScheduleOnExit.

Definition math_abs (x : num) : num := if num_negative x then num_neg x else x.

Definition coerceFiniteScheduleNumber (value : nval) : option num :=
  match parseStrictFiniteNumber value with
  | Some parsed => if num_le (math_abs parsed) (of_Z MAX_SAFE_INTEGER) then Some parsed else None
  | None => None
  end.

(** [setUTCHours(24, 0, 0, 0)] returns the new time. *)
Definition start_of_tomorrow (nowMs : num) : num :=
  getTime (setUTCHours (new_date nowMs) 24 0 0 0).

Section schedule.
  Context `{CronEngine}.

  (** ** The cache of parsed expressions *)

Definition CRON_EVAL_CACHE_MAX : nat := 512.

  Abbreviation cron_cache := (list (jstr * Cron)).

Definition resolveCronTimezone (tz : option jstr) : jstr :=
    let trimmed := default [] (normalizeOptionalString (of_opt tz)) in
    if truthy trimmed then trimmed else localTimeZone.

Definition cron_key (expr timezone : jstr) : jstr := timezone ++ "000"%char :: expr.

Definition resolveCachedCron (cache : cron_cache) (expr timezone : jstr) : outcome Cron * cron_cache :=
    let key := cron_key expr timezone in
    match jm_get key cache with
    | Some cached => (Returns cached, jm_set key cached (jm_delete key cache))
    | None =>
        let cache := if (CRON_EVAL_CACHE_MAX <=? length cache)%nat
                     then match jm_oldest cache with
                          | Some oldest => if truthy oldest then jm_delete oldest cache else cache
                          | None => cache
                          end
                     else cache in
        match new_Cron expr timezone with
        | Returns next => (Returns next, jm_set key next cache)
        | Throws e => (Throws e, cache)
        end
    end.

Definition resolveCronFromSchedule (cache : cron_cache) (expr tz : option jstr)
      : outcome (option Cron) * cron_cache :=
    match expr with
    | None => (Throws (lit "Error: invalid cron schedule: expr is required"), cache)
    | Some expr =>
        let expr := trim expr in
        if negb (truthy expr) then (Returns None, cache)
        else let '(r, cache) := resolveCachedCron cache expr (resolveCronTimezone tz) in
             (cron ← r; Returns (Some cron), cache)
    end.

  (** ** The next run *)

  (** [cron.nextRun(new Date(ms))?.getTime()]. *)
Definition next_run_ms (cron : Cron) (ms : num) : outcome (option num) :=
    r ← nextRun cron (new_date ms); Returns (fmap (M:=option) getTime r).

(** The last attempt, from the start of tomorrow. *)
Definition retry_tomorrow (cron : Cron) (nowMs : num) : outcome (option num) :=
    retry2 ← next_run_ms cron (start_of_tomorrow nowMs);
    Returns match retry2 with
            | Some retry2Ms => if num_lt nowMs retry2Ms then Some retry2Ms else None
            | None => None
            end.

Definition cron_next (cron : Cron) (nowMs : num) : outcome (option num) :=
    r ← next_run_ms cron nowMs;
    match r with
    | None => Returns None
    | Some nextMs =>
        if num_le nextMs nowMs then
          let nextSecondMs :=
            num_add (num_mul (math_floor (num_div nowMs (of_Z 1000))) (of_Z 1000)) (of_Z 1000) in
          retry ← next_run_ms cron nextSecondMs;
          match retry with
          | Some retryMs => if num_lt nowMs retryMs then Returns (Some retryMs)
                            else retry_tomorrow cron nowMs
          | None => retry_tomorrow cron nowMs
          end
        else Returns (Some nextMs)
    end.

Definition every_next (everyMs anchorMs : nval) (nowMs : num) : option num :=
    match coerceFiniteScheduleNumber everyMs with
    | None => None
    | Some everyMsRaw =>
        let everyMs := math_max (of_Z 1) (math_floor everyMsRaw) in
        let anchorRaw := coerceFiniteScheduleNumber anchorMs in
        let anchor := math_max (of_Z 0) (math_floor (default nowMs anchorRaw)) in
        if num_lt nowMs anchor then Some anchor
        else
          let elapsed := num_sub nowMs anchor in
          let steps := num_add (math_floor (num_div elapsed everyMs)) (of_Z 1) in
          Some (num_add anchor (num_mul steps everyMs))
    end.

Definition computeNextRunAtMs (cache : cron_cache) (schedule : CronSchedule) (nowMs : num)
      : outcome (option num) * cron_cache :=
    match schedule with
    | ScheduleAt at_ =>
        (Returns match parseAbsoluteTimeMs dateParseOther at_ with
                 | None => None
                 | Some atMs => if num_lt nowMs atMs then Some atMs else None
                 end, cache)
    | ScheduleEvery everyMs anchorMs => (Returns (every_next everyMs anchorMs nowMs), cache)
    | ScheduleOnExit => (Returns None, cache)
    | ScheduleCron expr tz _ =>
        let '(cron, cache) := resolveCronFromSchedule cache expr tz in
        (cron ← cron;
         match cron with None => Returns None | Some cron => cron_next cron nowMs end, cache)
    end.

Definition computePreviousRunAtMs (cache : cron_cache) (schedule : CronSchedule) (nowMs : num)
      : outcome (option num) * cron_cache :=
    match schedule with
    | ScheduleCron expr tz _ =>
        let '(cron, cache) := resolveCronFromSchedule cache expr tz in
        (cron ← cron;
         match cron with
         | None => Returns None
         | Some cron =>
             runs ← previousRuns cron 1 (new_date nowMs);
             Returns match fmap (M:=option) getTime (head runs) with
                     | None => None
                     | Some previousMs => if num_le nowMs previousMs then None else Some previousMs
                     end
         end, cache)
    | _ => (Returns None, cache)
    end.

  (** What the functions compute, whatever the cache holds
      ([cron_cache_transparent]); the other components use these. *)
Definition nextRunAt (schedule : CronSchedule) (nowMs : num) : outcome (option num) :=
    (computeNextRunAtMs [] schedule nowMs).1.
Definition previousRunAt (schedule : CronSchedule) (nowMs : num) : outcome (option num) :=
    (computePreviousRunAtMs [] schedule nowMs).1.

End schedule.

(** ** Stagger windows *)

Definition DEFAULT_TOP_OF_HOUR_STAGGER_MS : Z := 5 * 60 * 1000.

(** Splitting at single white-space characters gives the fields of
    [split(/\s+/)] and empty strings, which the filter drops. *)
Fixpoint split_spaces (s : jstr) : list jstr :=
  match s with
  | [] => [[]]
  | c :: r =>
      if is_space c then [] :: split_spaces r
      else match split_spaces r with
           | w :: ws => (c :: w) :: ws
           | [] => [[c]]
           end
  end.

Definition parseCronFields (expr : jstr) : list jstr :=
  List.filter truthy (split_spaces (trim expr)).

(** [\d+] at the start, and the rest. *)
Definition take_number (s : jstr) : option jstr :=
  match span_digits s with (_ :: _, r) => Some r | _ => None end.

(** [(?:\/\d+)?$]. *)
Definition step_end (s : jstr) : bool :=
  match s with
  | [] => true
  | c :: r => is_char "/"%char c && bool_decide (take_number r = Some [])
  end.

(** [/^(?:\d+|\d+-\d+)(?:\/\d+)?$|^[*?](?:\/\d+)?$/]. *)
Definition HOUR_LIST_PART (s : jstr) : bool :=
  match take_number s with
  | Some r =>
      step_end r ||
      match take_char (is_char "-"%char) r ≫= take_number with
      | Some r => step_end r
      | None => false
      end
  | None =>
      match s with
      | c :: r => (is_char "*"%char c || is_char "?"%char c) && step_end r
      | [] => false
      end
  end.

Definition hasRecurringWildcardHour (field : jstr) : bool :=
  let parts := split_on ","%char field in
  forallb HOUR_LIST_PART parts &&
  existsb (fun part => starts_with (lit "*") part || starts_with (lit "?") part) parts.

Definition isRecurringTopOfHourCronExpr (expr : jstr) : bool :=
  match parseCronFields expr with
  | [minuteField; hourField; _; _; _] =>
      bool_decide (minuteField = lit "0") && hasRecurringWildcardHour hourField
  | [secondField; minuteField; hourField; _; _; _] =>
      bool_decide (secondField = lit "0") && bool_decide (minuteField = lit "0")
      && hasRecurringWildcardHour hourField
  | _ => false
  end.

Definition normalizeCronStaggerMs (raw : nval) : option num :=
  let numeric := match raw with
                 | VNum x => x
                 | VStr s => if truthy (trim s) then default NaN (parseStrictNonNegativeInteger raw) else NaN
                 | VOther => NaN
                 end in
  if negb (isFinite numeric) then None
  else
    let normalized := math_max (of_Z 0) (math_floor numeric) in
    if isSafeInteger normalized then Some normalized else None.

Definition resolveDefaultCronStaggerMs (expr : jstr) : option num :=
  if isRecurringTopOfHourCronExpr expr then Some (of_Z DEFAULT_TOP_OF_HOUR_STAGGER_MS) else None.

(** Of the schedule's [expr] and [staggerMs]. *)
Definition resolveCronStaggerMs (expr : option jstr) (staggerMs : nval) : num :=
  match normalizeCronStaggerMs staggerMs with
  | Some explicit => explicit
  | None => default (of_Z 0) (resolveDefaultCronStaggerMs (default [] expr))
  end.

(** ** Coerced numbers *)

Lemma math_abs_of_Z z : math_abs (of_Z z) = of_Z (Z.abs z).
Proof.
  unfold math_abs. cbn. destruct (Z.ltb_spec z 0); [|rewrite Z.abs_eq by lia; done].
  rewrite Z.abs_neq by lia. done.
Qed.

Lemma coerce_safe z : Z.abs z <= MAX_SAFE_INTEGER ->
  coerceFiniteScheduleNumber (VNum (of_Z z)) = Some (of_Z z).
Proof.
  intros H. unfold coerceFiniteScheduleNumber. cbn [parseStrictFiniteNumber of_Z isFinite].
  fold (of_Z z). by rewrite math_abs_of_Z, num_le_of_Z, (proj2 (Z.leb_le _ _)).
Qed.

(** ** Every schedules *)

(** The times of an every schedule after [n], in integers. *)
Lemma every_next_exact e a n : 1 <= e -> 0 <= a <= MAX_SAFE_INTEGER -> 0 <= n ->
  n + e <= MAX_SAFE_INTEGER ->
  every_next (VNum (of_Z e)) (VNum (of_Z a)) (of_Z n) =
  Some (of_Z (if n <? a then a else a + ((n - a) / e + 1) * e)).
Proof.
  intros He Ha Hn Hne. unfold every_next. rewrite !coerce_safe by lia. cbn [default from_option id].
  rewrite !math_floor_of_Z, !math_max_of_Z, num_lt_of_Z.
  rewrite (Z.max_r 1 e), (Z.max_r 0 a) by lia. unfold MAX_SAFE_INTEGER in *.
  destruct (Z.ltb_spec n a) as [L|L]; [done|].
  assert ((n - a) / e * e <= n - a) by (rewrite Z.mul_comm; apply Z.mul_div_le; lia).
  assert (0 <= (n - a) / e) by (apply Z.div_pos; lia).
  assert ((n - a) / e <= n - a) by (apply Z.div_le_upper_bound; nia).
  rewrite sub_exact, floor_div_exact, add_exact, mul_exact, add_exact
    by (unfold MAX_SAFE_INTEGER; lia || nia). done.
Qed.

Lemma every_next_least e a n :
  1 <= e -> 0 <= a <= MAX_SAFE_INTEGER -> 0 <= n -> n + e <= MAX_SAFE_INTEGER ->
  exists r, every_next (VNum (of_Z e)) (VNum (of_Z a)) (of_Z n) = Some (of_Z r) /\
    n < r /\ (exists k, 0 <= k /\ r = a + k * e) /\
    forall k, 0 <= k -> n < a + k * e -> r <= a + k * e.
Proof.
  intros He Ha Hn Hne. rewrite every_next_exact by done.
  eexists. split; [done|]. destruct (Z.ltb_spec n a) as [L|L].
  - split_and!; [done| |nia]. exists 0. lia.
  - set (q := (n - a) / e). assert (n - a = e * q + (n - a) mod e) as Hq by (apply Z.div_mod; lia).
    pose proof (Z.mod_pos_bound (n - a) e ltac:(lia)).
    assert (0 <= q) by (apply Z.div_pos; lia).
    split_and!; [nia|exists (q + 1); lia|]. intros k Hk Hlt.
    assert (q < k) by nia. nia.
Qed.

(** The next run of an every schedule is the least time after now of the
    form anchor + k * everyMs with k >= 0, while now + everyMs is a safe integer. *)
Theorem every_next_run_least `{CronEngine} cache (e a n : Z) :
  1 <= e -> 0 <= a <= MAX_SAFE_INTEGER -> 0 <= n -> n + e <= MAX_SAFE_INTEGER ->
  exists r, computeNextRunAtMs cache (ScheduleEvery (VNum (of_Z e)) (VNum (of_Z a))) (of_Z n)
            = (Returns (Some (of_Z r)), cache) /\
    n < r /\ (exists k, 0 <= k /\ r = a + k * e) /\
    forall k, 0 <= k -> n < a + k * e -> r <= a + k * e.
Proof.
  intros He Ha Hn Hne. destruct (every_next_least e a n) as (r & E & Hr); [done..|].
  exists r. split; [|done]. cbn [computeNextRunAtMs]. by rewrite E.
Qed.

(** ** The next run is in the future *)

Lemma num_lt_not_le a b : num_le (Fin b) (Fin a) = false -> num_lt (Fin a) (Fin b) = true.
Proof. unfold num_lt, num_le. by intros ->. Qed.

Section next.
  Context `{CronEngineLaws}.

Lemma next_run_ms_valid cron ms r : next_run_ms cron ms = Returns (Some r) ->
    exists z, r = of_Z z /\ Z.abs z <= MAX_DATE_TIMESTAMP_MS.
  Proof.
    unfold next_run_ms. destruct (nextRun cron (new_date ms)) as [[d|]|] eqn:E; try done.
    intros [= <-]. destruct (nextRun_valid _ _ _ E) as (z & -> & Hz). by exists z.
  Qed.

Lemma retry_tomorrow_future cron now r :
    retry_tomorrow cron now = Returns (Some r) -> num_lt now r = true.
  Proof.
    unfold retry_tomorrow. destruct (next_run_ms _ _) as [[z|]|]; try done. cbn.
    destruct (num_lt now z) eqn:E; [|done]. by intros [= <-].
  Qed.

Lemma cron_next_future cron n r :
    cron_next cron (of_Z n) = Returns (Some r) ->
    exists z, r = of_Z z /\ n < z /\ Z.abs z <= MAX_DATE_TIMESTAMP_MS.
  Proof.
    unfold cron_next. destruct (next_run_ms cron (of_Z n)) as [[next|]|] eqn:E; try done.
    cbn [mbind outcome_bind]. destruct (next_run_ms_valid _ _ _ E) as (z & -> & Hz).
    assert (forall r, retry_tomorrow cron (of_Z n) = Returns (Some r) ->
              exists z, r = of_Z z /\ n < z /\ Z.abs z <= MAX_DATE_TIMESTAMP_MS) as Hlast.
    { intros r' Hr. pose proof (retry_tomorrow_future _ _ _ Hr) as Hlt.
      unfold retry_tomorrow in Hr. destruct (next_run_ms _ (start_of_tomorrow _)) as [[t|]|] eqn:Et; try done.
      destruct (next_run_ms_valid _ _ _ Et) as (z' & -> & ?). cbn [mbind outcome_bind] in Hr.
      destruct (num_lt (of_Z n) (of_Z z')); [|done]. injection Hr as <-.
      rewrite num_lt_of_Z, Z.ltb_lt in Hlt. eauto. }
    destruct (num_le (of_Z z) (of_Z n)) eqn:Ele.
    - destruct (next_run_ms _ (num_add _ _)) as [[t|]|] eqn:Et; try done; cbn [mbind outcome_bind].
      + destruct (num_lt (of_Z n) t) eqn:Elt; [|apply Hlast].
        destruct (next_run_ms_valid _ _ _ Et) as (z' & -> & ?). intros [= <-].
        rewrite num_lt_of_Z, Z.ltb_lt in Elt. eauto.
      + apply Hlast.
    - intros [= <-]. apply num_lt_not_le in Ele. fold (of_Z n) (of_Z z) in Ele.
      rewrite num_lt_of_Z, Z.ltb_lt in Ele. eauto.
  Qed.

  (** Every schedules are read as integers that leave room after now. *)
Definition every_fits (schedule : CronSchedule) (n : Z) : Prop :=
    match schedule with
    | ScheduleEvery everyMs anchorMs =>
        exists e a, everyMs = VNum (of_Z e) /\ anchorMs = VNum (of_Z a) /\ 1 <= e /\
          0 <= a <= MAX_SAFE_INTEGER /\ n + e <= MAX_SAFE_INTEGER
    | _ => True
    end.

  (** A next run, of any schedule and with any behaviour of croner, is
      later than now: the workaround for runs that croner reports in the past
      never passes one on. *)
Theorem next_run_in_future cache schedule n r cache' :
    0 <= n -> every_fits schedule n ->
    computeNextRunAtMs cache schedule (of_Z n) = (Returns (Some r), cache') ->
    num_lt (of_Z n) r = true.
  Proof.
    intros Hn Hfit. destruct schedule as [at_|e a|expr tz st|]; cbn [computeNextRunAtMs].
    - destruct (parseAbsoluteTimeMs _ _) as [t|]; [|done].
      destruct (num_lt _ t) eqn:E; [|done]. by intros [= <- _].
    - destruct Hfit as (e' & a' & -> & -> & He & Ha & Hne). intros [= E _].
      destruct (every_next_least e' a' n) as (r' & E' & Hr); [done..|].
      rewrite E in E'. injection E' as ->. rewrite num_lt_of_Z. apply Z.ltb_lt, Hr.
    - destruct (resolveCronFromSchedule _ _ _) as [[[cron|]|] c']; cbn [mbind outcome_bind]; try done.
      intros [= E _]. apply cron_next_future in E as (z & -> & Hz & _).
      by rewrite num_lt_of_Z, Z.ltb_lt.
    - done.
  Qed.

End next.

(** ** The cache of parsed expressions *)

Lemma cron_key_inj expr tz expr' tz' :
  free_of "000"%char tz -> free_of "000"%char tz' -> cron_key expr tz = cron_key expr' tz' ->
  expr = expr' /\ tz = tz'.
Proof.
  unfold cron_key. intros Hf Hf' E. assert (tz = tz') as <-.
  { pose proof (split_on_app _ _ expr Hf) as S1. rewrite E in S1.
    rewrite (split_on_app _ _ expr' Hf') in S1. by injection S1. }
  apply app_inv_head in E. by injection E as ->.
Qed.

Section cache.
  Context `{CronEngineLaws}.

Record cron_cache_ok (cache : list (jstr * Cron)) : Prop := {
    cc_keys : jm_wf cache;
    cc_size : (length cache <= CRON_EVAL_CACHE_MAX)%nat;
    cc_values : jm_all (fun k c => exists expr tz, free_of "000"%char tz /\ k = cron_key expr tz /\
                          new_Cron expr tz = Returns c) cache;
  }.

Lemma cron_cache_ok_empty : cron_cache_ok [].
  Proof. split; [constructor|simpl; lia|apply jm_all_nil]. Qed.

  (** Room is made for one entry. *)
Lemma evict_cron_ok cache : cron_cache_ok cache ->
    let cache' := if (CRON_EVAL_CACHE_MAX <=? length cache)%nat
                  then match jm_oldest cache with
                       | Some oldest => if truthy oldest then jm_delete oldest cache else cache
                       | None => cache
                       end
                  else cache in
    cron_cache_ok cache' /\ (length cache' < CRON_EVAL_CACHE_MAX)%nat.
  Proof.
    intros [Hk Hs Hv]. cbv zeta. destruct (Nat.leb_spec CRON_EVAL_CACHE_MAX (length cache)) as [L|L];
      [|by split].
    destruct cache as [|[k c] cache']; [unfold CRON_EVAL_CACHE_MAX in L; cbn in L; lia|]. cbn [jm_oldest head fmap option_fmap option_map fst].
    destruct (Hv k c) as (expr & tz & _ & Ek & _); [set_solver|].
    assert (truthy k = true) as ->.
    { apply truthy_spec. rewrite Ek. unfold cron_key. by destruct tz. }
    pose proof (jm_length_delete_oldest k ((k, c) :: cache') eq_refl). split; [split|]; try lia.
    - by apply jm_wf_delete.
    - by apply jm_all_delete.
  Qed.

Lemma resolveCachedCron_ok cache expr tz : cron_cache_ok cache -> free_of "000"%char tz ->
    (resolveCachedCron cache expr tz).1 = new_Cron expr tz /\
    cron_cache_ok (resolveCachedCron cache expr tz).2.
  Proof.
    intros Hok Hf. unfold resolveCachedCron. destruct (jm_get (cron_key expr tz) cache) as [c|] eqn:E.
    - cbn [fst snd]. pose proof Hok as [Hk Hs Hv]. pose proof (jm_all_get _ _ _ _ Hv E) as Hc.
      destruct Hc as (expr' & tz' & Hf' & Ek & Ec).
      destruct (cron_key_inj _ _ _ _ Hf Hf' Ek) as [<- <-]. split; [done|].
      pose proof (jm_length_delete _ _ _ E).
      pose proof (jm_length_set_le (cron_key expr tz) c (jm_delete (cron_key expr tz) cache)). split.
      + by apply jm_wf_set, jm_wf_delete.
      + lia.
      + apply jm_all_set; [by apply jm_all_delete|]. eauto.
    - destruct (evict_cron_ok cache Hok) as [[Hk Hs Hv] Hlt]. cbv zeta in *.
      set (cache' := if (CRON_EVAL_CACHE_MAX <=? length cache)%nat then _ else cache) in *.
      destruct (new_Cron expr tz) as [c|e] eqn:Ec; cbn [fst snd]; (split; [done|]); [|done].
      pose proof (jm_length_set_le (cron_key expr tz) c cache'). split.
      + by apply jm_wf_set.
      + lia.
      + apply jm_all_set; [done|]. eauto.
  Qed.

  (** The zone a schedule states is a zone name. *)
Definition zone_named (schedule : CronSchedule) : Prop :=
    match schedule with ScheduleCron _ (Some tz) _ => free_of "000"%char tz | _ => True end.

Lemma resolveCronTimezone_name tz :
    match tz with Some tz => free_of "000"%char tz | None => True end ->
    free_of "000"%char (resolveCronTimezone tz).
  Proof.
    intros Ht. unfold resolveCronTimezone. destruct tz as [tz|]; cbn [of_opt].
    - rewrite normalizeOptionalString_string. destruct (trim tz) eqn:E; cbn.
      + apply localTimeZone_name.
      + rewrite <- E. by apply free_of_trim.
    - apply localTimeZone_name.
  Qed.

Lemma resolveCronFromSchedule_ok cache cache0 expr tz :
    cron_cache_ok cache -> cron_cache_ok cache0 ->
    match tz with Some tz => free_of "000"%char tz | None => True end ->
    (resolveCronFromSchedule cache expr tz).1 = (resolveCronFromSchedule cache0 expr tz).1 /\
    cron_cache_ok (resolveCronFromSchedule cache expr tz).2.
  Proof.
    intros Hok Hok0 Ht%resolveCronTimezone_name. unfold resolveCronFromSchedule.
    destruct expr as [expr|]; [|done]. destruct (truthy (trim expr)); [|done]. cbn [negb].
    destruct (resolveCachedCron_ok cache (trim expr) _ Hok Ht) as [E Hok'].
    destruct (resolveCachedCron_ok cache0 (trim expr) _ Hok0 Ht) as [E0 _].
    destruct (resolveCachedCron cache _ _), (resolveCachedCron cache0 _ _). cbn in *. by subst.
  Qed.

  (** *** Calls of the module *)

Inductive ScheduleCall :=
    | CallNext (schedule : CronSchedule) (nowMs : num)
    | CallPrevious (schedule : CronSchedule) (nowMs : num).

Definition call_schedule (call : ScheduleCall) : CronSchedule :=
    match call with CallNext s _ | CallPrevious s _ => s end.

Definition schedule_call (cache : list (jstr * Cron)) (call : ScheduleCall)
      : outcome (option num) * list (jstr * Cron) :=
    match call with
    | CallNext s now => computeNextRunAtMs cache s now
    | CallPrevious s now => computePreviousRunAtMs cache s now
    end.

Fixpoint schedule_calls (cache : list (jstr * Cron)) (calls : list ScheduleCall)
      : list (outcome (option num)) * list (jstr * Cron) :=
    match calls with
    | [] => ([], cache)
    | call :: calls =>
        let '(r, cache) := schedule_call cache call in
        let '(rs, cache) := schedule_calls cache calls in (r :: rs, cache)
    end.

Lemma schedule_call_ok cache call : cron_cache_ok cache -> zone_named (call_schedule call) ->
    (schedule_call cache call).1 = (schedule_call [] call).1 /\
    cron_cache_ok (schedule_call cache call).2.
  Proof.
    intros Hok Hz. destruct call as [s now|s now]; destruct s as [a|e a|expr tz st|]; try done;
      cbn [schedule_call computeNextRunAtMs computePreviousRunAtMs];
      destruct (resolveCronFromSchedule_ok cache [] expr tz Hok cron_cache_ok_empty Hz) as [E Hok'];
      destruct (resolveCronFromSchedule cache expr tz), (resolveCronFromSchedule [] expr tz);
      cbn [fst snd] in *; by subst.
  Qed.

  (** The cache of parsed cron expressions is transparent and bounded: any
      sequence of calls gets the answers each call would get from an empty
      cache, and the cache never holds more than its bound. *)
Theorem cron_cache_transparent calls :
    Forall (fun call => zone_named (call_schedule call)) calls ->
    (schedule_calls [] calls).1 = (fun call => (schedule_call [] call).1) <$> calls /\
    (length (schedule_calls [] calls).2 <= CRON_EVAL_CACHE_MAX)%nat.
  Proof.
    assert (forall cache, cron_cache_ok cache ->
      Forall (fun call => zone_named (call_schedule call)) calls ->
      (schedule_calls cache calls).1 = (fun call => (schedule_call [] call).1) <$> calls /\
      cron_cache_ok (schedule_calls cache calls).2) as Hrun.
    { induction calls as [|call calls IH]; intros cache Hok Hz; [done|].
      apply Forall_cons in Hz as [Hz Hzs]. destruct (schedule_call_ok cache call Hok Hz) as [E Hok'].
      cbn [schedule_calls]. destruct (schedule_call cache call) as [r cache'].
      destruct (IH cache' Hok' Hzs) as [E' Hok'']. destruct (schedule_calls cache' calls) as [rs cache''].
      cbn [fst snd] in *. split; [|done]. by rewrite fmap_cons, <- E, <- E'. }
    intros Hz. destruct (Hrun [] cron_cache_ok_empty Hz) as [E Hok]. split; [done|apply Hok].
  Qed.

End cache.

(** ** Stagger windows are safe integers *)

Lemma normalizeCronStaggerMs_safe raw x : normalizeCronStaggerMs raw = Some x ->
  exists z, x = of_Z z /\ 0 <= z <= MAX_SAFE_INTEGER.
Proof.
  unfold normalizeCronStaggerMs. set (numeric := match raw with VNum x => x | _ => _ end).
  destruct numeric as [| |q]; try done. cbn [isFinite negb math_floor].
  rewrite math_max_of_Z, isSafeInteger_of_Z.
  destruct (Z.leb_spec (Z.abs (Z.max 0 (Qfloor q))) MAX_SAFE_INTEGER); [|done].
  intros [= <-]. eexists. split; [done|]. lia.
Qed.

Lemma resolveCronStaggerMs_safe expr raw :
  exists z, resolveCronStaggerMs expr raw = of_Z z /\ 0 <= z <= MAX_SAFE_INTEGER.
Proof.
  unfold resolveCronStaggerMs. destruct (normalizeCronStaggerMs raw) as [x|] eqn:E.
  - by apply normalizeCronStaggerMs_safe in E.
  - unfold resolveDefaultCronStaggerMs. destruct (isRecurringTopOfHourCronExpr _).
    + by exists DEFAULT_TOP_OF_HOUR_STAGGER_MS.
    + by exists 0.
Qed.

(** ** A concrete engine *)

(** An engine of the one expression that runs every minute. *)
Definition minutely : CronEngine := {|
  Cron := unit;
  new_Cron expr _ := if decide (expr = lit "* * * * *") then Returns tt else Throws (lit "Error: pattern");
  nextRun _ d := Returns match d with
                         | Some t => if Z.abs t <=? 8000000000000000
                                     then Some (Some ((t / 60000 + 1) * 60000)) else None
                         | None => None
                         end;
  previousRuns _ _ d := Returns match d with
                                | Some t => if Z.abs t <=? 8000000000000000
                                            then [Some ((t - 1) / 60000 * 60000)] else []
                                | None => []
                                end;
  localTimeZone := lit "UTC";
  dateParseOther _ := None;
  sha256_uint32 _ := 123456789;
|}.

Lemma minutely_laws : @CronEngineLaws minutely.
Proof.
  split.
  - intros [] [t|] r; cbn; [|done]. destruct (Z.leb_spec (Z.abs t) 8000000000000000); [|done].
    intros [= <-]. eexists. split; [done|]. unfold MAX_DATE_TIMESTAMP_MS.
    Z.to_euclidean_division_equations. lia.
  - intros [] n [t|] rs; cbn; [|intros [= <-]; constructor].
    destruct (Z.leb_spec (Z.abs t) 8000000000000000); intros [= <-]; constructor; [|constructor].
    eexists. split; [done|]. unfold MAX_DATE_TIMESTAMP_MS. Z.to_euclidean_division_equations. lia.
  - by apply (bool_decide_eq_true_1 _).
  - intros s. cbn. lia.
Qed.

Definition every_minute : CronSchedule := ScheduleCron (Some (lit " * * * * * ")) (Some (lit "UTC")) VOther.

Lemma every_next_run_least_witness :
  exists r, @computeNextRunAtMs minutely [] (ScheduleEvery (VNum (of_Z 60000)) (VNum (of_Z 1500)))
              (of_Z 1700000000000) = (Returns (Some (of_Z r)), []) /\ r = 1700000041500.
Proof.
  destruct (@every_next_run_least minutely [] 60000 1500 1700000000000) as (r & E & H1 & (k & _ & ->) & H3).
  - lia.
  - by vm_compute.
  - lia.
  - by vm_compute.
  - exists (1500 + k * 60000). split; [exact E|].
    specialize (H3 28333334 ltac:(lia) ltac:(lia)). lia.
Defined.

Lemma next_run_in_future_witness :
  @computeNextRunAtMs minutely [] every_minute (of_Z 1700000000000)
    = (Returns (Some (of_Z 1700000040000)), [(lit "UTC" ++ "000"%char :: lit "* * * * *", tt)]) /\
  num_lt (of_Z 1700000000000) (of_Z 1700000040000) = true.
Proof.
  assert (@computeNextRunAtMs minutely [] every_minute (of_Z 1700000000000)
    = (Returns (Some (of_Z 1700000040000)), [(lit "UTC" ++ "000"%char :: lit "* * * * *", tt)])) as E
    by (vm_compute; reflexivity).
  split; [exact E|].
  refine (@next_run_in_future minutely minutely_laws [] every_minute 1700000000000 _ _ _ I E). lia.
Defined.

Lemma cron_cache_transparent_witness :
  let calls := [@CallNext every_minute (of_Z 0); CallPrevious every_minute (of_Z 90000)] in
  (@schedule_calls minutely [] calls).1 = [Returns (Some (of_Z 60000)); Returns (Some (of_Z 60000))] /\
  (length (@schedule_calls minutely [] calls).2 <= CRON_EVAL_CACHE_MAX)%nat.
Proof.
  cbv zeta.
  destruct (@cron_cache_transparent minutely minutely_laws
              [CallNext every_minute (of_Z 0); CallPrevious every_minute (of_Z 90000)]) as [E Hlen].
  - repeat constructor; by apply (bool_decide_eq_true_1 _).
  - split; [|exact Hlen]. etransitivity; [exact E|]. vm_compute. reflexivity.
Defined.
