(* ===== verification/CronJobs.v ===== *)
(** * Cron jobs

    The scheduling half of [src/cron/service/jobs.ts]: error backoff, the stable
    offset of staggered jobs, the next and previous run of a job, what a
    scheduler tick repairs in the stored jobs, and the next wake of the timer.

    Functions that change a job return the changed job; the messages they send
    are events.  Every loaded job has a state.  Counts of errors are integers
    and the configured backoff list is not empty, as the configuration schema
    demands. *)
From coqutil Require Import Datatypes.RecordSettersUsingExistingGetters.
From S2P Require Import Prelude JsString JsMap JsNumber NumberCoercion Normalization JsDate CronTime CronSchedule.
#[local] Open Scope Z_scope.
#[local] Arguments RecordSettersUsingExistingGetters.const {_} _ _ /.

(** ** Data *)

Inductive CronRunStatus := StatusOk | StatusError | StatusSkipped.

#[export] Instance CronRunStatus_eq_dec : EqDecision CronRunStatus.
Proof. solve_decision. Defined.

Record CronJobState := {
  nextRunAtMs : option num;
  runningAtMs : option num;
  lastRunAtMs : option num;
  lastRunStatus : option CronRunStatus;
  lastStatus : option CronRunStatus;
  lastError : option jstr;
  lastErrorReason : option jstr;
  lastDurationMs : option num;
  consecutiveErrors : option Z;
  consecutiveSkipped : option Z;
  lastFailureAlertAtMs : option num;
  scheduleErrorCount : option Z;
  lastTriggerEvalAtMs : option num;
  triggerEvalCount : option Z;
  lastTriggerFireAtMs : option num;
  triggerState : option jstr;
}.

Inductive PayloadKind := SystemEvent | AgentTurn | Command.
Inductive CronSessionTarget := TargetMain | TargetIsolated | TargetCurrent | TargetSession (id : jstr).
Inductive CronWakeMode := NextHeartbeat | WakeNow.

#[export] Instance PayloadKind_eq_dec : EqDecision PayloadKind.
Proof. solve_decision. Defined.
#[export] Instance CronSessionTarget_eq_dec : EqDecision CronSessionTarget.
Proof. solve_decision. Defined.
#[export] Instance CronWakeMode_eq_dec : EqDecision CronWakeMode.
Proof. solve_decision. Defined.

(** What an alert configuration, of a job or global, says of when to alert. *)
Record FailureAlertConfig := {
  fa_enabled : option bool;
  fa_after : option num;
  fa_cooldownMs : option num;
  fa_includeSkipped : option bool;
}.

Record CronJob := {
  job_id : jstr;
  job_enabled : option bool;
  job_schedule : CronSchedule;
  job_createdAtMs : num;
  job_updatedAtMs : num;
  job_payload : PayloadKind;
  job_sessionTarget : CronSessionTarget;
  job_wakeMode : CronWakeMode;
  job_deleteAfterRun : option bool;
  (** A trigger, with its [once]. *)
  job_trigger : option (option bool);
  (** [false], or a configuration; where alerts go is not modelled. *)
  job_failureAlert : option (option FailureAlertConfig);
  (** [delivery?.bestEffort === true]. *)
  job_bestEffort : bool;
  job_state : CronJobState;
}.

Inductive CronRetryOn := RateLimit | Overloaded | Network | Timeout | ServerError.

#[export] Instance CronRetryOn_eq_dec : EqDecision CronRetryOn.
Proof. solve_decision. Defined.

(** A list of delays that is not empty. *)
Record BackoffSchedule := { bo_first : num; bo_rest : list num }.

Definition delays (s : BackoffSchedule) : list num := bo_first s :: bo_rest s.

Record CronConfig := {
  retry_maxAttempts : option num;
  retry_backoffMs : option BackoffSchedule;
  retry_retryOn : option (list CronRetryOn);
  triggers_minIntervalMs : option num;
  cron_failureAlert : option FailureAlertConfig;
}.

Definition DEFAULT_ERROR_BACKOFF_SCHEDULE_MS : BackoffSchedule :=
  {| bo_first := of_Z 30000;
     bo_rest := [of_Z 60000; of_Z (5 * 60000); of_Z (15 * 60000); of_Z (60 * 60000)] |}.

(** [retry?.backoffMs ?? DEFAULT_ERROR_BACKOFF_SCHEDULE_MS]. *)
Definition backoff_of (cfg : CronConfig) : BackoffSchedule :=
  default DEFAULT_ERROR_BACKOFF_SCHEDULE_MS (retry_backoffMs cfg).

(** What the functions tell other components. *)
Inductive CronNotice :=
  | AutoDisabled (jobId : jstr) (errorCount : Z)
  | UnresolvedNextRun (jobId : jstr)
  | FailureAlert (jobId : jstr) (consecutiveCount : Z).

(** ** Small helpers *)

(** [a === b] on numbers; NaN is not equal to itself. *)
Definition num_eqb (x y : num) : bool :=
  match x, y with
  | Fin a, Fin b => Qeq_bool a b
  | Inf s, Inf t => Bool.eqb s t
  | _, _ => false
  end.

Definition opt_num_eqb (x y : option num) : bool :=
  match x, y with
  | Some x, Some y => num_eqb x y
  | None, None => true
  | _, _ => false
  end.

Definition isFiniteTimestamp (value : option num) : option num :=
  match value with Some x => if isFinite x then Some x else None | None => None end.

(** A stored next run that is finite and positive. *)
Definition hasScheduledNextRunAtMs (value : option num) : option num :=
  match isFiniteTimestamp value with
  | Some x => if num_lt (of_Z 0) x then Some x else None
  | None => None
  end.

Definition resolveJobLastRunStatus (job : CronJob) : option CronRunStatus :=
  match lastRunStatus (job_state job) with
  | Some s => Some s
  | None => lastStatus (job_state job)
  end.

Definition isJobEnabled (job : CronJob) : bool := default true (job_enabled job).

Definition errorBackoffMs (consecutiveErrors : Z) (scheduleMs : BackoffSchedule) : num :=
  let idx := Z.min (consecutiveErrors - 1) (Z.of_nat (length (delays scheduleMs)) - 1) in
  nth (Z.to_nat (Z.max 0 idx)) (delays scheduleMs) (bo_first DEFAULT_ERROR_BACKOFF_SCHEDULE_MS).

Definition resolveJobErrorBackoffUntilMs (job : CronJob) (scheduleMs : BackoffSchedule) : option num :=
  if decide (resolveJobLastRunStatus job = Some StatusError) then
    match isFiniteTimestamp (lastRunAtMs (job_state job)) with
    | None => None
    | Some lastRunAtMs =>
        let consecutiveErrors := match consecutiveErrors (job_state job) with
                                 | Some n => Z.max 1 n
                                 | None => 1
                                 end in
        let lastDurationMs := match isFiniteTimestamp (lastDurationMs (job_state job)) with
                              | Some d => math_max (of_Z 0) (math_floor d)
                              | None => of_Z 0
                              end in
        let lastEndedAtMs := num_add lastRunAtMs lastDurationMs in
        Some (num_add lastEndedAtMs (errorBackoffMs consecutiveErrors scheduleMs))
    end
  else None.

Definition on_state (f : CronJobState -> CronJobState) (job : CronJob) : CronJob :=
  job <| job_state := f (job_state job) |>.

Definition set_nextRunAtMs (v : option num) : CronJob -> CronJob :=
  on_state (fun s => s <| nextRunAtMs := v |>).

Definition set_runningAtMs (v : option num) : CronJob -> CronJob :=
  on_state (fun s => s <| runningAtMs := v |>).

(** ** Stable offsets *)

Definition STAGGER_OFFSET_CACHE_MAX : nat := 4096.

(** The text of an integer in a template. *)
Definition integer_text (x : num) : jstr := js_number_string (default 0 (to_Z x)).

(** [[cache]] is [staggerOffsetCache]. *)
Definition resolveStableCronOffsetMs `{CronEngine} (cache : list (jstr * num)) (jobId : jstr)
    (staggerMs : num) : num * list (jstr * num) :=
  if num_le staggerMs (of_Z 1) then (of_Z 0, cache)
  else
    let cacheKey := integer_text staggerMs ++ ":"%char :: jobId in
    match jm_get cacheKey cache with
    | Some cached => (cached, cache)
    | None =>
        let offset := num_mod (of_Z (sha256_uint32 jobId)) staggerMs in
        let cache := if (STAGGER_OFFSET_CACHE_MAX <=? length cache)%nat
                     then match jm_oldest cache with
                          | Some first => jm_delete first cache
                          | None => cache
                          end
                     else cache in
        (offset, jm_set cacheKey offset cache)
    end.

(** ** The runs of a job *)

Section runs.
  Context `{CronEngine}.

  (** The offset, whatever the cache holds ([stable_offset_transparent]). *)
Definition stableCronOffsetMs (jobId : jstr) (staggerMs : num) : num :=
    (resolveStableCronOffsetMs [] jobId staggerMs).1.

Definition job_offset (job : CronJob) : num :=
    match job_schedule job with
    | ScheduleCron expr _ staggerMs => stableCronOffsetMs (job_id job) (resolveCronStaggerMs expr staggerMs)
    | _ => of_Z 0
    end.

  (** The loop of [computeStaggeredCronNextRunAtMs]. *)
Fixpoint staggered_next (attempts : nat) (schedule : CronSchedule) (offsetMs nowMs cursorMs : num)
      : outcome (option num) :=
    match attempts with
    | O => Returns None
    | S attempts =>
        baseNext ← nextRunAt schedule cursorMs;
        match baseNext with
        | None => Returns None
        | Some baseNext =>
            let shifted := num_add baseNext offsetMs in
            if num_lt nowMs shifted then Returns (Some shifted)
            else
              let cursorMs := math_max (num_add cursorMs (of_Z 1)) (num_add baseNext (of_Z 1000)) in
              staggered_next attempts schedule offsetMs nowMs cursorMs
        end
    end.

Definition computeStaggeredCronNextRunAtMs (job : CronJob) (nowMs : num) : outcome (option num) :=
    match job_schedule job with
    | ScheduleCron _ _ _ =>
        let offsetMs := job_offset job in
        if num_le offsetMs (of_Z 0) then nextRunAt (job_schedule job) nowMs
        else staggered_next 4 (job_schedule job) offsetMs nowMs
               (math_max (of_Z 0) (num_sub nowMs offsetMs))
    | _ => nextRunAt (job_schedule job) nowMs
    end.

  (** The loop of [computeStaggeredCronPreviousRunAtMs]. *)
Fixpoint staggered_previous (attempts : nat) (schedule : CronSchedule) (offsetMs nowMs cursorMs : num)
      : outcome (option num) :=
    match attempts with
    | O => Returns None
    | S attempts =>
        basePrevious ← previousRunAt schedule cursorMs;
        match basePrevious with
        | None => Returns None
        | Some basePrevious =>
            let shifted := num_add basePrevious offsetMs in
            if num_le shifted nowMs then Returns (Some shifted)
            else
              let cursorMs := math_max (of_Z 0) (num_sub basePrevious (of_Z 1000)) in
              staggered_previous attempts schedule offsetMs nowMs cursorMs
        end
    end.

Definition computeStaggeredCronPreviousRunAtMs (job : CronJob) (nowMs : num) : outcome (option num) :=
    match job_schedule job with
    | ScheduleCron _ _ _ =>
        let offsetMs := job_offset job in
        if num_le offsetMs (of_Z 0) then previousRunAt (job_schedule job) nowMs
        else staggered_previous 4 (job_schedule job) offsetMs nowMs
               (math_max (of_Z 0) (num_sub nowMs offsetMs))
    | _ => Returns None
    end.

Definition isStaggeredCronRunAtMs (job : CronJob) (runAtMs : num) : outcome bool :=
    match job_schedule job with
    | ScheduleCron _ _ _ =>
        if isFinite runAtMs then
          previous ← computeStaggeredCronPreviousRunAtMs job (num_add runAtMs (of_Z 1000));
          Returns (opt_num_eqb previous (Some runAtMs))
        else Returns false
    | _ => Returns false
    end.

Definition resolveEveryAnchorMs (anchorMs : nval) (fallbackAnchorMs : num) : num :=
    match coerceFiniteScheduleNumber anchorMs with
    | Some coerced => math_max (of_Z 0) (math_floor coerced)
    | None => if isFinite fallbackAnchorMs then math_max (of_Z 0) (math_floor fallbackAnchorMs)
              else of_Z 0
    end.

  (** [isFiniteTimestamp(job.createdAtMs) ? job.createdAtMs : nowMs]. *)
Definition fallback_anchor (job : CronJob) (nowMs : num) : num :=
    if isFinite (job_createdAtMs job) then job_createdAtMs job else nowMs.

Definition computeJobNextRunAtMs (job : CronJob) (nowMs : num) : outcome (option num) :=
    if negb (isJobEnabled job) then Returns None
    else match job_schedule job with
    | ScheduleEvery everyMsRaw anchorRaw =>
        match coerceFiniteScheduleNumber everyMsRaw with
        | None => Returns None
        | Some everyMsRaw =>
            let everyMs := math_max (of_Z 1) (math_floor everyMsRaw) in
            let from_anchor :=
              let anchorMs := resolveEveryAnchorMs anchorRaw (fallback_anchor job nowMs) in
              next ← nextRunAt (ScheduleEvery (VNum everyMs) (VNum anchorMs)) nowMs;
              Returns (isFiniteTimestamp next) in
            match isFiniteTimestamp (lastRunAtMs (job_state job)) with
            | Some lastRunAtMs =>
                let nextFromLastRun := num_add (math_floor lastRunAtMs) everyMs in
                if num_lt nowMs nextFromLastRun then Returns (Some nextFromLastRun) else from_anchor
            | None => from_anchor
            end
        end
    | ScheduleAt at_ =>
        let atMs := isFiniteTimestamp (parseAbsoluteTimeMs dateParseOther at_) in
        match resolveJobLastRunStatus job, lastRunAtMs (job_state job) with
        | Some StatusOk, Some lastRunAtMs =>
            if num_zero lastRunAtMs || match lastRunAtMs with NaN => true | _ => false end
            then Returns atMs
            else Returns match atMs with
                         | Some t => if num_lt lastRunAtMs t then Some t else None
                         | None => None
                         end
        | _, _ => Returns atMs
        end
    | ScheduleCron _ _ _ =>
        next ← computeStaggeredCronNextRunAtMs job nowMs;
        match next with
        | None =>
            let nextSecondMs :=
              num_add (num_mul (math_floor (num_div nowMs (of_Z 1000))) (of_Z 1000)) (of_Z 1000) in
            computeStaggeredCronNextRunAtMs job nextSecondMs
        | Some _ => Returns (isFiniteTimestamp next)
        end
    | ScheduleOnExit =>
        next ← computeStaggeredCronNextRunAtMs job nowMs; Returns (isFiniteTimestamp next)
    end.

Definition computeJobPreviousRunAtMs (job : CronJob) (nowMs : num) : outcome (option num) :=
    match isJobEnabled job, job_schedule job with
    | true, ScheduleCron _ _ _ =>
        previous ← computeStaggeredCronPreviousRunAtMs job nowMs; Returns (isFiniteTimestamp previous)
    | _, _ => Returns None
    end.

  (** ** Repair of future slots *)

Definition isPendingErrorBackoffSlot (cfg : CronConfig) (job : CronJob) (nextRunAtMs nowMs : num) : bool :=
    match resolveJobErrorBackoffUntilMs job (backoff_of cfg) with
    | Some backoffUntilMs => num_lt nowMs backoffUntilMs && num_le nextRunAtMs backoffUntilMs
    | None => false
    end.

  (** [try { ... } catch { return false; }] and the test that follows. *)
Definition or_false {A} (o : outcome A) (f : A -> bool) : bool :=
    match o with Returns a => f a | Throws _ => false end.

Definition shouldRepairFutureCronNextRunAtMs (cfg : CronConfig) (job : CronJob) (nowMs : num) : bool :=
    match job_schedule job, hasScheduledNextRunAtMs (nextRunAtMs (job_state job)),
          runningAtMs (job_state job) with
    | ScheduleCron _ _ _, Some nextRun, None =>
        if num_le nextRun nowMs then false
        else if isPendingErrorBackoffSlot cfg job nextRun nowMs then false
        else or_false (computeStaggeredCronNextRunAtMs job nowMs) (fun naturalNext =>
          match isFiniteTimestamp naturalNext with
          | None => false
          | Some naturalNext =>
              or_false (isStaggeredCronRunAtMs job nextRun) (fun isScheduledSlot =>
                if isScheduledSlot then false
                else if num_lt nextRun naturalNext then negb (bool_decide (job_payload job = AgentTurn))
                else if num_eqb nextRun naturalNext then false
                else or_false (computeStaggeredCronNextRunAtMs job naturalNext) (fun following =>
                  match isFiniteTimestamp following with
                  | None => false
                  | Some following =>
                      let naturalIntervalMs := num_sub following naturalNext in
                      num_lt (of_Z 0) naturalIntervalMs &&
                      num_le (num_add following naturalIntervalMs) nextRun
                  end))
          end)
    | _, _, _ => false
    end.

End runs.

(** ** What a tick repairs *)

Definition MAX_SCHEDULE_ERRORS : Z := 3.
Definition STUCK_RUN_MS : Z := 2 * 60 * 60 * 1000.

Definition recordScheduleComputeError (job : CronJob) (err : jstr) : CronJob * list CronNotice :=
  let errorCount := default 0 (scheduleErrorCount (job_state job)) + 1 in
  let job := on_state (fun s => s <| scheduleErrorCount := Some errorCount |> <| nextRunAtMs := None |>
                                  <| lastError := Some (lit "schedule error: " ++ err) |>) job in
  if MAX_SCHEDULE_ERRORS <=? errorCount
  then (job <| job_enabled := Some false |>, [AutoDisabled (job_id job) errorCount])
  else (job, []).

(** The anchor of an every schedule is stored as the number it is read as. *)
Definition anchored_schedule (job : CronJob) (nowMs : num) : CronSchedule * bool :=
  match job_schedule job with
  | ScheduleEvery everyMs anchorMs =>
      let normalizedAnchorMs := resolveEveryAnchorMs anchorMs (fallback_anchor job nowMs) in
      match anchorMs with
      | VNum x => if num_eqb x normalizedAnchorMs then (job_schedule job, false)
                  else (ScheduleEvery everyMs (VNum normalizedAnchorMs), true)
      | _ => (ScheduleEvery everyMs (VNum normalizedAnchorMs), true)
      end
  | s => (s, false)
  end.

Record TickState := { tick_changed : bool; tick_skip : bool }.

Definition normalizeJobTickState (job : CronJob) (nowMs : num) : CronJob * TickState :=
  let '(schedule, changed) := anchored_schedule job nowMs in
  let job := job <| job_schedule := schedule |> in
  if negb (isJobEnabled job) then
    (set_runningAtMs None (set_nextRunAtMs None job),
     {| tick_changed := changed || bool_decide (is_Some (nextRunAtMs (job_state job)))
                        || bool_decide (is_Some (runningAtMs (job_state job)));
        tick_skip := true |})
  else
    let stale := bool_decide (is_Some (nextRunAtMs (job_state job))) &&
                 bool_decide (hasScheduledNextRunAtMs (nextRunAtMs (job_state job)) = None) in
    let job := if stale then set_nextRunAtMs None job else job in
    let changed := changed || stale in
    let stuck := match runningAtMs (job_state job) with
                 | Some runningAt => num_lt (of_Z STUCK_RUN_MS) (num_sub nowMs runningAt)
                 | None => false
                 end in
    if stuck then
      let alreadyExecutedSlot :=
        match hasScheduledNextRunAtMs (nextRunAtMs (job_state job)),
              isFiniteTimestamp (lastRunAtMs (job_state job)) with
        | Some nextRun, Some lastRun => num_le nextRun lastRun
        | _, _ => false
        end in
      (set_runningAtMs None job, {| tick_changed := true; tick_skip := negb alreadyExecutedSlot |})
    else (job, {| tick_changed := changed; tick_skip := false |}).

Section recompute.
  Context `{CronEngine} (cfg : CronConfig).

Definition recomputeJobNextRunAtMs (job : CronJob) (nowMs : num) : CronJob * bool * list CronNotice :=
    match computeJobNextRunAtMs job nowMs with
    | Returns newNext =>
        let is_at := match job_schedule job with ScheduleAt _ => true | _ => false end in
        let newNext :=
          if negb is_at && bool_decide (resolveJobLastRunStatus job = Some StatusError) &&
             bool_decide (is_Some (isFiniteTimestamp (lastRunAtMs (job_state job)))) then
            match newNext, resolveJobErrorBackoffUntilMs job (backoff_of cfg) with
            | Some next, Some backoffFloor => Some (math_max next backoffFloor)
            | _, _ => newNext
            end
          else newNext in
        let changed := negb (opt_num_eqb (nextRunAtMs (job_state job)) newNext) in
        let job := if changed then set_nextRunAtMs newNext job else job in
        let counted := negb (default 0 (scheduleErrorCount (job_state job)) =? 0) in
        let job := if counted then on_state (fun s => s <| scheduleErrorCount := None |>) job else job in
        (job, changed || counted, [])
    | Throws err =>
        let '(job, notices) := recordScheduleComputeError job err in (job, true, notices)
    end.

  (** What a walk hands from job to job: the deferral markers and the notices. *)
Record Walk := { wk_deferrals : list jstr; wk_notices : list CronNotice; wk_changed : bool }.

Fixpoint walkSchedulableJobs (fn : Walk -> CronJob -> Walk * CronJob) (nowMs : num) (w : Walk)
      (jobs : list CronJob) : Walk * list CronJob :=
    match jobs with
    | [] => (w, [])
    | job :: jobs =>
        let '(job, tick) := normalizeJobTickState job nowMs in
        let w := w <| wk_changed := wk_changed w || tick_changed tick |> in
        let '(w, job) := if tick_skip tick then (w, job) else fn w job in
        let '(w, jobs) := walkSchedulableJobs fn nowMs w jobs in
        (w, job :: jobs)
    end.

Definition recompute_in_walk (nowMs : num) (w : Walk) (job : CronJob) : Walk * CronJob :=
    let '(job, changed, notices) := recomputeJobNextRunAtMs job nowMs in
    (w <| wk_changed := wk_changed w || changed |> <| wk_notices := wk_notices w ++ notices |>, job).

Definition recomputeNextRuns (nowMs : num) (w : Walk) (jobs : list CronJob) : Walk * list CronJob :=
    walkSchedulableJobs (fun w job =>
      let isDueOrMissing := match hasScheduledNextRunAtMs (nextRunAtMs (job_state job)) with
                            | Some nextRun => num_le nextRun nowMs
                            | None => true
                            end in
      if isDueOrMissing || shouldRepairFutureCronNextRunAtMs cfg job nowMs
      then recompute_in_walk nowMs w job else (w, job)) nowMs w jobs.

  (** Markers of jobs that are gone or disabled. *)
Definition drop_stale_deferrals (jobs : list CronJob) (deferrals : list jstr) : list jstr :=
    List.filter (fun id => bool_decide (id ∈ job_id <$> List.filter isJobEnabled jobs)) deferrals.

  (** The slot of a job that is past due was executed, or lies inside a backoff
      that was computed later. *)
Definition expired_slot_done (job : CronJob) (nextRun nowMs : num) : bool :=
    let alreadyExecutedSlot := match isFiniteTimestamp (lastRunAtMs (job_state job)) with
                               | Some lastRun => num_le nextRun lastRun
                               | None => false
                               end in
    let isStaleBackoffSlot := match resolveJobErrorBackoffUntilMs job (backoff_of cfg) with
                              | Some backoffUntilMs => num_lt nowMs backoffUntilMs && num_lt nextRun backoffUntilMs
                              | None => false
                              end in
    alreadyExecutedSlot || isStaleBackoffSlot.

Definition maintain_job (recomputeExpired repairFuture : bool) (nowMs : num) (w : Walk) (job : CronJob)
      : Walk * CronJob :=
    let next := hasScheduledNextRunAtMs (nextRunAtMs (job_state job)) in
    let w := if bool_decide (job_id job ∈ wk_deferrals w) &&
                match next with Some nextRun => num_le nextRun nowMs | None => false end
             then w <| wk_deferrals := List.filter (fun id => negb (bool_decide (id = job_id job))) (wk_deferrals w) |>
                    <| wk_changed := true |>
             else w in
    match next with
    | None => recompute_in_walk nowMs w job
    | Some nextRun =>
        if repairFuture && negb (bool_decide (job_id job ∈ wk_deferrals w)) &&
           shouldRepairFutureCronNextRunAtMs cfg job nowMs
        then recompute_in_walk nowMs w job
        else if recomputeExpired && num_le nextRun nowMs &&
                bool_decide (runningAtMs (job_state job) = None) && expired_slot_done job nextRun nowMs
        then recompute_in_walk nowMs w job
        else (w, job)
    end.

Definition recomputeNextRunsForMaintenance (recomputeExpired repairFuture : bool) (nowMs : num)
      (w : Walk) (jobs : list CronJob) : Walk * list CronJob :=
    let w := w <| wk_deferrals := drop_stale_deferrals jobs (wk_deferrals w) |> in
    walkSchedulableJobs (maintain_job recomputeExpired repairFuture nowMs) nowMs w jobs.

End recompute.

(** ** The next wake *)

(** The reduction over the enabled jobs with a scheduled run. *)
Definition nextWakeAtMs (jobs : list CronJob) : option num :=
  let nexts := omap (fun j => if isJobEnabled j then hasScheduledNextRunAtMs (nextRunAtMs (job_state j))
                              else None) jobs in
  match nexts with
  | [] => None
  | first :: _ => Some (foldl math_min first nexts)
  end.

(** ** Stable offsets *)

Lemma span_digits_spec s : s = (span_digits s).1 ++ (span_digits s).2 /\
  forallb is_digit (span_digits s).1 = true.
Proof.
  induction s as [|c s [E H]]; [done|]. cbn [span_digits]. destruct (is_digit c) eqn:Ec; [|done].
  destruct (span_digits s) as [d t]. cbn in *. rewrite Ec. split; [congruence|done].
Qed.

Lemma digits_free_of c ds : is_digit c = false -> forallb is_digit ds = true -> free_of c ds.
Proof.
  intros Hc. induction ds as [|d ds IH]; [constructor|]. cbn. intros [Hd H]%andb_true_iff.
  constructor; [|by apply IH]. intros ->. congruence.
Qed.

(** Printed integers hold no separator and are told apart. *)
Lemma integer_text_free z : free_of ":"%char (integer_text (of_Z z)).
Proof.
  unfold integer_text. rewrite to_Z_of_Z. cbn [default from_option id].
  destruct (integer_token_printed z) as (_ & _ & H). revert H. generalize (js_number_string z).
  intros s. unfold integer_token. destruct (split_sign s) as [neg r] eqn:E.
  assert (s = r \/ exists c, s = c :: r /\ c <> ":"%char) as Hs.
  { unfold split_sign in E. destruct s as [|c s]; [by left; injection E|].
    destruct (is_char c "+"%char) eqn:E1; [|destruct (is_char c "-"%char) eqn:E2];
      injection E as <- <-; try (by left); right; eexists; split; try done;
      apply bool_decide_eq_true in E1 || apply bool_decide_eq_true in E2; by subst. }
  destruct (span_digits_spec r) as [Er Hd]. destruct (span_digits r) as [ds rest]. cbn in Er, Hd.
  destruct ds as [|d ds], rest; try done. intros _. rewrite app_nil_r in Er. subst r.
  assert (free_of ":"%char (d :: ds)) by (by apply digits_free_of).
  destruct Hs as [->|(c & -> & Hc)]; [done|by constructor].
Qed.

Lemma integer_text_inj a b : integer_text (of_Z a) = integer_text (of_Z b) -> a = b.
Proof.
  unfold integer_text. rewrite !to_Z_of_Z. cbn [default from_option id]. intros E.
  destruct (integer_token_printed a) as (_ & _ & Ha), (integer_token_printed b) as (_ & _ & Hb).
  rewrite E in Ha. congruence.
Qed.

Lemma offset_key_inj a b i j :
  integer_text (of_Z a) ++ ":"%char :: i = integer_text (of_Z b) ++ ":"%char :: j -> a = b /\ i = j.
Proof.
  intros E. assert (integer_text (of_Z a) = integer_text (of_Z b)) as Et.
  { pose proof (split_on_app _ _ i (integer_text_free a)) as S1. rewrite E in S1.
    rewrite (split_on_app _ _ j (integer_text_free b)) in S1. by injection S1. }
  split; [by apply integer_text_inj|]. rewrite Et in E. apply app_inv_head in E. by injection E.
Qed.

Section offsets.
  Context `{CronEngineLaws}.

  (** An offset lies in the stagger window. *)
Lemma stable_offset_range jobId z : 0 <= z ->
    exists o, stableCronOffsetMs jobId (of_Z z) = of_Z o /\ 0 <= o < Z.max 1 z /\ o < 2 ^ 32.
  Proof.
    intros Hz. unfold stableCronOffsetMs, resolveStableCronOffsetMs. rewrite num_le_of_Z.
    destruct (Z.leb_spec z 1); [exists 0; cbn [fst]; split; [done|lia]|]. cbn [jm_get fst].
    pose proof (sha256_uint32_range jobId). rewrite mod_exact by lia.
    exists (sha256_uint32 jobId mod z). split; [done|].
    pose proof (Z.mod_pos_bound (sha256_uint32 jobId) z ltac:(lia)).
    assert (sha256_uint32 jobId mod z <= sha256_uint32 jobId) by (apply Z.mod_le; lia). lia.
  Qed.

  (** What the cache of offsets may hold. *)
Definition offset_cache_ok (cache : list (jstr * num)) : Prop :=
    jm_wf cache /\ (length cache <= STAGGER_OFFSET_CACHE_MAX)%nat /\
    jm_all (fun k v => exists z jobId, k = integer_text (of_Z z) ++ ":"%char :: jobId /\ 1 < z /\
              v = num_mod (of_Z (sha256_uint32 jobId)) (of_Z z)) cache.

Lemma stable_offset_transparent cache jobId z : offset_cache_ok cache ->
    (resolveStableCronOffsetMs cache jobId (of_Z z)).1 = stableCronOffsetMs jobId (of_Z z) /\
    offset_cache_ok (resolveStableCronOffsetMs cache jobId (of_Z z)).2.
  Proof.
    intros Hok. unfold stableCronOffsetMs, resolveStableCronOffsetMs. rewrite num_le_of_Z.
    destruct (Z.leb_spec z 1) as [|Hz]; [done|]. cbn [jm_get].
    set (key := integer_text (of_Z z) ++ ":"%char :: jobId).
    destruct Hok as (Hk & Hs & Hv). destruct (jm_get key cache) as [v|] eqn:E; cbn [fst snd].
    - split; [|done]. destruct (jm_all_get _ _ _ _ Hv E) as (z' & jobId' & Ek & _ & ->).
      by destruct (offset_key_inj _ _ _ _ Ek) as [<- <-].
    - split; [done|]. set (cache' := if (_ <=? _)%nat then _ else cache).
      assert (jm_wf cache' /\ (length cache' < STAGGER_OFFSET_CACHE_MAX)%nat /\
              jm_all (fun k v => exists z jobId, k = integer_text (of_Z z) ++ ":"%char :: jobId /\ 1 < z /\
                        v = num_mod (of_Z (sha256_uint32 jobId)) (of_Z z)) cache') as (Hk' & Hs' & Hv').
      { unfold cache'. destruct (Nat.leb_spec STAGGER_OFFSET_CACHE_MAX (length cache)); [|done].
        destruct (jm_oldest cache) as [k|] eqn:Eo.
        - pose proof (jm_length_delete_oldest _ _ Eo).
          split; [by apply jm_wf_delete|]. split; [lia|by apply jm_all_delete].
        - destruct cache; [unfold STAGGER_OFFSET_CACHE_MAX in *; cbn in *; lia|done]. }
      split; [by apply jm_wf_set|]. split.
      + pose proof (jm_length_set_le key (num_mod (of_Z (sha256_uint32 jobId)) (of_Z z)) cache'). lia.
      + apply jm_all_set; [done|]. exists z, jobId. done.
  Qed.

End offsets.

(** ** Next runs *)

(** The longest interval that can be added to any date. *)
Definition MAX_INTERVAL_MS : Z := MAX_SAFE_INTEGER - MAX_DATE_TIMESTAMP_MS.

Lemma floor_bounds x b : isFinite x = true -> num_le x (of_Z b) = true ->
  exists z, math_floor x = of_Z z /\ z <= b.
Proof.
  destruct x as [| |q]; try done. intros _ Hle. cbn. exists (Qfloor q). split; [done|].
  apply Qle_bool_iff in Hle. rewrite <- (Qfloor_Z b). by apply Qfloor_resp_le.
Qed.

Lemma coerce_finite v x : coerceFiniteScheduleNumber v = Some x ->
  isFinite x = true /\ num_le x (of_Z MAX_SAFE_INTEGER) = true.
Proof.
  unfold coerceFiniteScheduleNumber. destruct (parseStrictFiniteNumber v) as [y|]; [|done].
  destruct (num_le (math_abs y) _) eqn:E; [|done]. intros [= <-].
  destruct y as [|[]|q]; try done. split; [done|].
  unfold math_abs, num_negative in E. cbn [num_neg] in E. apply Qle_bool_iff.
  destruct (Z.ltb_spec (Qnum q) 0) as [Hq|Hq]; [|by apply Qle_bool_iff in E].
  apply (Qle_trans _ 0); [|done]. destruct q as [m d]. unfold Qle. cbn in *. lia.
Qed.

Lemma resolveEveryAnchorMs_integer v fallback c : fallback = of_Z c -> c <= MAX_SAFE_INTEGER ->
  exists a, resolveEveryAnchorMs v fallback = of_Z a /\ 0 <= a <= MAX_SAFE_INTEGER.
Proof.
  intros -> Hc. unfold resolveEveryAnchorMs. destruct (coerceFiniteScheduleNumber v) as [x|] eqn:E.
  - apply coerce_finite in E as [Hf Hle]. destruct (floor_bounds _ _ Hf Hle) as (z & -> & Hz).
    rewrite math_max_of_Z. eexists. split; [done|]. unfold MAX_SAFE_INTEGER in *. lia.
  - cbn [of_Z isFinite]. fold (of_Z c). rewrite math_floor_of_Z, math_max_of_Z. eexists. split; [done|].
    unfold MAX_SAFE_INTEGER in *. lia.
Qed.

(** An every schedule is read as integers. *)
Lemma every_next_read everyMs anchorMs x n : coerceFiniteScheduleNumber everyMs = Some x ->
  num_le x (of_Z MAX_INTERVAL_MS) = true -> 0 <= n <= MAX_DATE_TIMESTAMP_MS ->
  exists e a, 1 <= e <= Z.max 1 MAX_INTERVAL_MS /\ 0 <= a <= MAX_SAFE_INTEGER /\
    every_next everyMs anchorMs (of_Z n) = every_next (VNum (of_Z e)) (VNum (of_Z a)) (of_Z n).
Proof.
  intros Ex Hle Hn. pose proof (coerce_finite _ _ Ex) as [Hf _].
  destruct (floor_bounds _ _ Hf Hle) as (z & Ez & Hz).
  assert (n <= MAX_SAFE_INTEGER) as Hn' by (unfold MAX_SAFE_INTEGER, MAX_DATE_TIMESTAMP_MS in *; lia).
  assert (exists a, math_floor (default (of_Z n) (coerceFiniteScheduleNumber anchorMs)) = of_Z a /\
            a <= MAX_SAFE_INTEGER) as (a & Ea & Ha).
  { destruct (coerceFiniteScheduleNumber anchorMs) as [y|] eqn:Ey; cbn [default from_option id].
    - apply coerce_finite in Ey as [Hfy Hy]. by destruct (floor_bounds _ _ Hfy Hy) as (a & ? & ?); exists a.
    - exists n. by rewrite math_floor_of_Z. }
  exists (Z.max 1 z), (Z.max 0 a). split; [lia|]. split; [unfold MAX_SAFE_INTEGER in *; lia|].
  unfold every_next. rewrite Ex, !coerce_safe
    by (unfold MAX_INTERVAL_MS, MAX_SAFE_INTEGER, MAX_DATE_TIMESTAMP_MS in *; lia).
  cbn [default from_option id]. rewrite Ez, Ea, !math_floor_of_Z, !math_max_of_Z.
  by rewrite !Z.max_assoc, !Z.max_id.
Qed.

Section next_runs.
  Context `{CronEngineLaws}.

Lemma nextRunAt_cron expr tz st c r : nextRunAt (ScheduleCron expr tz st) (of_Z c) = Returns (Some r) ->
    exists b, r = of_Z b /\ c < b /\ Z.abs b <= MAX_DATE_TIMESTAMP_MS.
  Proof.
    unfold nextRunAt, computeNextRunAtMs.
    destruct (resolveCronFromSchedule _ _ _) as [[[cron|]|] c']; cbn [fst mbind outcome_bind]; try done.
    apply cron_next_future.
  Qed.

  (** A run of a cron schedule moved by the offset of the job. *)
Definition staggered_run (schedule : CronSchedule) (o n : Z) (r : num) : Prop :=
    exists b cursor, nextRunAt schedule (of_Z cursor) = Returns (Some (of_Z b)) /\
      r = of_Z (b + o) /\ n < b + o.

Lemma staggered_next_spec attempts expr tz st o n c r :
    0 < o < 2 ^ 32 -> 0 <= n <= MAX_DATE_TIMESTAMP_MS -> 0 <= c ->
    (attempts <= 4)%nat -> c + 1000 * Z.of_nat attempts <= MAX_DATE_TIMESTAMP_MS + 4000 ->
    staggered_next attempts (ScheduleCron expr tz st) (of_Z o) (of_Z n) (of_Z c) = Returns (Some r) ->
    staggered_run (ScheduleCron expr tz st) o n r.
  Proof.
    intros Ho Hn. revert c. unfold MAX_DATE_TIMESTAMP_MS in *.
    induction attempts as [|k IH]; intros c Hc Hk Hb; [done|]. cbn [staggered_next].
    destruct (nextRunAt _ (of_Z c)) as [[base|]|] eqn:E; try done. cbn [mbind outcome_bind].
    destruct (nextRunAt_cron _ _ _ _ _ E) as (b & -> & Hcb & Habs). unfold MAX_DATE_TIMESTAMP_MS in *.
    rewrite add_exact by lia. rewrite num_lt_of_Z. destruct (Z.ltb_spec n (b + o)) as [L|L].
    - intros [= <-]. by exists b, c.
    - rewrite !add_exact, math_max_of_Z by lia. apply IH; lia.
  Qed.

Lemma computeStaggeredCronNextRunAtMs_spec job expr tz st n r :
    job_schedule job = ScheduleCron expr tz st -> 0 <= n <= MAX_DATE_TIMESTAMP_MS ->
    computeStaggeredCronNextRunAtMs job (of_Z n) = Returns (Some r) ->
    exists o z, resolveCronStaggerMs expr st = of_Z z /\ 0 <= o < Z.max 1 z /\ job_offset job = of_Z o /\
      staggered_run (job_schedule job) o n r.
  Proof.
    intros Es Hn. unfold computeStaggeredCronNextRunAtMs, job_offset. rewrite Es.
    destruct (resolveCronStaggerMs_safe expr st) as (z & -> & Hz).
    destruct (stable_offset_range (job_id job) z) as (o & -> & Ho & Ho32); [lia|].
    rewrite num_le_of_Z. destruct (Z.leb_spec o 0) as [L|L]; intros E; exists o, z;
      (split_and!; [done|lia|lia|done|]).
    - destruct (nextRunAt_cron _ _ _ _ _ E) as (b & -> & Hb & _). exists b, n.
      replace o with 0 by lia. rewrite Z.add_0_r. done.
    - unfold MAX_DATE_TIMESTAMP_MS in *. rewrite sub_exact, math_max_of_Z in E by lia.
      eapply staggered_next_spec in E; unfold MAX_DATE_TIMESTAMP_MS; try done; lia.
  Qed.

Lemma next_second_exact n : 0 <= n <= MAX_DATE_TIMESTAMP_MS ->
    num_add (num_mul (math_floor (num_div (of_Z n) (of_Z 1000))) (of_Z 1000)) (of_Z 1000)
    = of_Z (n / 1000 * 1000 + 1000) /\ n < n / 1000 * 1000 + 1000 <= n + 1000.
  Proof.
    intros Hn. unfold MAX_DATE_TIMESTAMP_MS in Hn.
    assert (n / 1000 * 1000 <= n < n / 1000 * 1000 + 1000) by (Z.to_euclidean_division_equations; lia).
    rewrite floor_div_exact, mul_exact, add_exact by (unfold MAX_SAFE_INTEGER; lia).
    split; [done|lia].
  Qed.

  (** Numbers of a recurring job whose sums are exact. *)
Definition recurring_fits (job : CronJob) : Prop :=
    match job_schedule job with
    | ScheduleEvery everyMs _ =>
        (forall x, coerceFiniteScheduleNumber everyMs = Some x -> num_le x (of_Z MAX_INTERVAL_MS) = true) /\
        exists c, job_createdAtMs job = of_Z c /\ c <= MAX_DATE_TIMESTAMP_MS
    | ScheduleCron _ _ _ => True
    | _ => False
    end.

Lemma every_next_future job everyMs anchorMs n r :
    job_schedule job = ScheduleEvery everyMs anchorMs -> recurring_fits job ->
    0 <= n <= MAX_DATE_TIMESTAMP_MS ->
    nextRunAt (job_schedule job) (of_Z n) = Returns (Some r) -> num_lt (of_Z n) r = true.
  Proof.
    intros Es Hfit Hn. unfold recurring_fits in Hfit. rewrite Es in *. destruct Hfit as (He & _).
    unfold nextRunAt, computeNextRunAtMs. cbn [fst]. intros [= E].
    destruct (coerceFiniteScheduleNumber everyMs) as [x|] eqn:Ex;
      [|by unfold every_next in E; rewrite Ex in E].
    destruct (every_next_read _ anchorMs _ n Ex (He x eq_refl) Hn) as (e & a & He' & Ha & Er).
    destruct (every_next_least e a n) as (r' & E' & Hlt & _);
      [lia|done|lia|unfold MAX_INTERVAL_MS, MAX_SAFE_INTEGER, MAX_DATE_TIMESTAMP_MS in *; lia|].
    rewrite E, E' in Er. injection Er as ->. by rewrite num_lt_of_Z, Z.ltb_lt.
  Qed.

Lemma every_job_next_future job everyMs anchorMs n r :
    job_schedule job = ScheduleEvery everyMs anchorMs -> recurring_fits job ->
    0 <= n <= MAX_DATE_TIMESTAMP_MS ->
    computeJobNextRunAtMs job (of_Z n) = Returns (Some r) -> num_lt (of_Z n) r = true.
  Proof.
    intros Es Hfit Hn. unfold recurring_fits in Hfit. rewrite Es in Hfit.
    destruct Hfit as (He & c & Ec & Hc). unfold computeJobNextRunAtMs. rewrite Es.
    destruct (negb _); [done|]. destruct (coerceFiniteScheduleNumber everyMs) as [x|] eqn:Ex; [|done].
    specialize (He x eq_refl). apply coerce_finite in Ex as [Hf _].
    destruct (floor_bounds _ _ Hf He) as (z & -> & Hz). rewrite math_max_of_Z.
    unfold fallback_anchor. rewrite Ec. cbn [of_Z isFinite]. fold (of_Z c).
    assert (c <= MAX_SAFE_INTEGER) as Hc' by (unfold MAX_SAFE_INTEGER, MAX_DATE_TIMESTAMP_MS in *; lia).
    destruct (resolveEveryAnchorMs_integer anchorMs (of_Z c) c eq_refl Hc') as (a & -> & Ha).
    destruct (every_next_least (Z.max 1 z) a n) as (r' & E' & Hlt & _);
      [lia|done|lia|unfold MAX_INTERVAL_MS, MAX_SAFE_INTEGER, MAX_DATE_TIMESTAMP_MS in *; lia|].
    assert (forall o, (next ← nextRunAt (ScheduleEvery (VNum (of_Z (Z.max 1 z))) (VNum (of_Z a))) (of_Z n);
                       Returns (isFiniteTimestamp next)) = Returns (Some o) -> num_lt (of_Z n) o = true) as Hanchor.
    { intros o. unfold nextRunAt, computeNextRunAtMs. cbn [fst mbind outcome_bind]. rewrite E'.
      cbn [isFiniteTimestamp isFinite of_Z]. intros [= <-]. fold (of_Z n) (of_Z r').
      by rewrite num_lt_of_Z, Z.ltb_lt. }
    destruct (isFiniteTimestamp (lastRunAtMs (job_state job))) as [l|]; [|apply Hanchor].
    destruct (num_lt (of_Z n) (num_add _ _)) eqn:El; [|apply Hanchor]. by intros [= <-].
  Qed.

  (** A run of a cron job is found at the time that is asked for, or at the next
      second. *)
Lemma cron_job_next job expr tz st n r : job_schedule job = ScheduleCron expr tz st ->
    0 <= n -> n + 1000 <= MAX_DATE_TIMESTAMP_MS ->
    computeJobNextRunAtMs job (of_Z n) = Returns (Some r) ->
    exists o z, resolveCronStaggerMs expr st = of_Z z /\ 0 <= o < Z.max 1 z /\ job_offset job = of_Z o /\
      staggered_run (job_schedule job) o n r.
  Proof.
    intros Es Hn Hn'. unfold computeJobNextRunAtMs. rewrite Es. destruct (negb _); [done|].
    assert (forall m, n <= m <= n + 1000 -> computeStaggeredCronNextRunAtMs job (of_Z m) = Returns (Some r) ->
      exists o z, resolveCronStaggerMs expr st = of_Z z /\ 0 <= o < Z.max 1 z /\ job_offset job = of_Z o /\
        staggered_run (job_schedule job) o n r) as Hrun.
    { intros m Hm E. destruct (computeStaggeredCronNextRunAtMs_spec job expr tz st m r Es ltac:(lia) E)
        as (o & z & Hz & Ho & Eo & b & cur & Eb & -> & Hlt).
      exists o, z. split_and!; [done|lia|lia|done|]. exists b, cur. split_and!; [done|done|lia]. }
    rewrite Es in Hrun. destruct (computeStaggeredCronNextRunAtMs job (of_Z n)) as [[next|]|] eqn:E;
      cbn [mbind outcome_bind]; [|..|done].
    - unfold isFiniteTimestamp. destruct (isFinite next); [|done]. intros [= ->].
      by apply (Hrun n); [lia|].
    - destruct (next_second_exact n ltac:(lia)) as [-> Hs]. apply Hrun. lia.
  Qed.

Lemma staggered_run_future schedule o n r : staggered_run schedule o n r -> num_lt (of_Z n) r = true.
  Proof. intros (b & cur & _ & -> & Hlt). by rewrite num_lt_of_Z, Z.ltb_lt. Qed.

Lemma recurring_job_next_future job n r : recurring_fits job -> 0 <= n -> n + 1000 <= MAX_DATE_TIMESTAMP_MS ->
    computeJobNextRunAtMs job (of_Z n) = Returns (Some r) -> num_lt (of_Z n) r = true.
  Proof.
    intros Hfit Hn Hn' E. destruct (job_schedule job) as [a|e a|expr tz st|] eqn:Es.
    2:{ eapply every_job_next_future; eauto. lia. }
    2:{ destruct (cron_job_next _ _ _ _ _ _ Es Hn Hn' E) as (o & z & _ & _ & _ & Hr).
        by apply staggered_run_future in Hr. }
    all: by unfold recurring_fits in Hfit; rewrite Es in Hfit.
  Qed.

  (** The next run of a recurring job lies in the future, and that of a
      cron job is a run of its expression moved by the stable offset of the job,
      which is smaller than its stagger window: staggering spreads jobs without
      changing their cadence. *)
Theorem recurring_next_run_staggered job n r :
    recurring_fits job -> 0 <= n -> n + 1000 <= MAX_DATE_TIMESTAMP_MS ->
    computeJobNextRunAtMs job (of_Z n) = Returns (Some r) ->
    num_lt (of_Z n) r = true /\
    match job_schedule job with
    | ScheduleCron expr _ st =>
        exists o z, resolveCronStaggerMs expr st = of_Z z /\ 0 <= o < Z.max 1 z /\
          job_offset job = of_Z o /\ staggered_run (job_schedule job) o n r
    | _ => True
    end.
  Proof.
    intros Hfit Hn Hn' E. split; [by apply (recurring_job_next_future job)|].
    destruct (job_schedule job) eqn:Es; try done. rewrite <- Es. by eapply cron_job_next.
  Qed.

End next_runs.

(** ** Walks over the jobs *)

(** What a walk does to one job. *)
Definition walk_one (fn : Walk -> CronJob -> Walk * CronJob) (nowMs : num) (w : Walk) (job : CronJob)
    : Walk * CronJob :=
  let '(job, tick) := normalizeJobTickState job nowMs in
  let w := w <| wk_changed := wk_changed w || tick_changed tick |> in
  if tick_skip tick then (w, job) else fn w job.

Lemma walk_cons fn nowMs w job jobs :
  walkSchedulableJobs fn nowMs w (job :: jobs) =
  let '(w, job) := walk_one fn nowMs w job in
  let '(w, jobs) := walkSchedulableJobs fn nowMs w jobs in (w, job :: jobs).
Proof.
  cbn [walkSchedulableJobs]. unfold walk_one. destruct (normalizeJobTickState job nowMs) as [job' tick].
  by destruct (tick_skip tick).
Qed.

(** Each job is changed on its own, in some state of the walk. *)
Lemma walk_lookup fn nowMs w jobs i job : jobs !! i = Some job ->
  exists w', (walkSchedulableJobs fn nowMs w jobs).2 !! i = Some (walk_one fn nowMs w' job).2.
Proof.
  revert w i. induction jobs as [|j jobs IH]; intros w i; [done|]. rewrite walk_cons.
  destruct (walk_one fn nowMs w j) as [w' j'] eqn:E. destruct i as [|i]; cbn [lookup list_lookup].
  - intros [= ->]. exists w. destruct (walkSchedulableJobs fn nowMs w' jobs). cbn. by rewrite E.
  - intros Hi. destruct (IH w' i Hi) as [w'' Hw]. exists w''.
    destruct (walkSchedulableJobs fn nowMs w' jobs). done.
Qed.

Lemma walk_length fn nowMs w jobs : length (walkSchedulableJobs fn nowMs w jobs).2 = length jobs.
Proof.
  revert w. induction jobs as [|j jobs IH]; intros w; [done|]. rewrite walk_cons.
  destruct (walk_one fn nowMs w j) as [w' j']. specialize (IH w').
  destruct (walkSchedulableJobs fn nowMs w' jobs). cbn in *. by rewrite IH.
Qed.

(** ** Due slots survive maintenance *)

(** A slot that has come and was neither executed nor overtaken by a backoff. *)
Definition slot_due (cfg : CronConfig) (job : CronJob) (nowMs : num) : Prop :=
  isJobEnabled job = true /\ runningAtMs (job_state job) = None /\
  exists t, hasScheduledNextRunAtMs (nextRunAtMs (job_state job)) = Some t /\ num_le t nowMs = true /\
    expired_slot_done cfg job t nowMs = false.

Lemma hasScheduledNextRunAtMs_Some v t : hasScheduledNextRunAtMs v = Some t ->
  v = Some t /\ isFinite t = true /\ num_lt (of_Z 0) t = true.
Proof.
  unfold hasScheduledNextRunAtMs, isFiniteTimestamp. destruct v as [x|]; [|done].
  destruct (isFinite x) eqn:Ef; [|done]. destruct (num_lt (of_Z 0) x) eqn:El; [|done].
  intros [= <-]. done.
Qed.

Lemma normalize_due cfg job nowMs : slot_due cfg job nowMs ->
  exists c, normalizeJobTickState job nowMs =
    (job <| job_schedule := (anchored_schedule job nowMs).1 |>, {| tick_changed := c; tick_skip := false |}).
Proof.
  intros (He & Hr & t & Ht & _). unfold normalizeJobTickState.
  destruct (anchored_schedule job nowMs) as [schedule changed]. cbn [fst].
  set (job' := job <| job_schedule := schedule |>).
  assert (job_state job' = job_state job) as Es by done.
  assert (isJobEnabled job' = true) as -> by (by rewrite <- He). cbn [negb]. rewrite Es, Ht.
  rewrite (bool_decide_eq_false_2 (Some t = None)) by done. rewrite andb_false_r, Es, Hr. eauto.
Qed.

Section maintenance.
  Context `{CronEngine} (cfg : CronConfig).

  (** Maintenance, the tick that runs no job, never moves or clears a slot
      that has come and was not executed: it may normalise the anchor of the
      schedule and leaves everything else of the job as it was, whatever the
      other jobs and the markers are. *)
Theorem due_slot_survives_maintenance recomputeExpired repairFuture nowMs w jobs i job :
    jobs !! i = Some job -> slot_due cfg job nowMs ->
    (recomputeNextRunsForMaintenance cfg recomputeExpired repairFuture nowMs w jobs).2 !! i
      = Some (job <| job_schedule := (anchored_schedule job nowMs).1 |>).
  Proof.
    intros Hi Hdue. unfold recomputeNextRunsForMaintenance.
    destruct (walk_lookup (maintain_job cfg recomputeExpired repairFuture nowMs) nowMs
                (w <| wk_deferrals := drop_stale_deferrals jobs (wk_deferrals w) |>) jobs i job Hi) as [w' ->].
    unfold walk_one. destruct (normalize_due _ _ _ Hdue) as [c ->].
    destruct Hdue as (He & Hr & t & Ht & Hle & Hdone).
    set (job' := job <| job_schedule := _ |>). assert (job_state job' = job_state job) as Es by done.
    cbn [tick_skip tick_changed]. unfold maintain_job. rewrite Es, Ht.
    assert (shouldRepairFutureCronNextRunAtMs cfg job' nowMs = false) as ->.
    { unfold shouldRepairFutureCronNextRunAtMs. rewrite Es, Ht, Hr, Hle.
      by destruct (job_schedule job'). }
    assert (expired_slot_done cfg job' t nowMs = false) as -> by (by rewrite <- Hdone).
    rewrite !andb_false_r. done.
  Qed.

End maintenance.

(** ** The next wake *)

(** The scheduled run of an enabled job. *)
Definition job_wake (job : CronJob) : option num :=
  if isJobEnabled job then hasScheduledNextRunAtMs (nextRunAtMs (job_state job)) else None.

Lemma math_min_finite a b : isFinite a = true -> isFinite b = true ->
  (math_min a b = a \/ math_min a b = b) /\ num_le (math_min a b) a = true /\
  num_le (math_min a b) b = true.
Proof.
  destruct a as [| |p], b as [| |q]; try done. intros _ _. unfold math_min.
  assert (forall x, num_le (Fin x) (Fin x) = true) as Hrefl by (intros; apply Qle_bool_iff, Qle_refl).
  destruct (num_lt (Fin q) (Fin p)) eqn:E; (split_and!; [by auto|..]); try apply Hrefl.
  - cbn in E |- *. apply negb_true_iff in E. apply Qle_bool_iff, Qlt_le_weak, Qnot_le_lt.
    intros Hle. apply Qle_bool_iff in Hle. congruence.
  - cbn in E |- *. by apply negb_false_iff in E.
Qed.

Lemma num_le_trans a b c : num_le a b = true -> num_le b c = true -> num_le a c = true.
Proof.
  destruct a as [|[]|p], b as [|[]|q], c as [|[]|r]; try done. cbn.
  rewrite !Qle_bool_iff. apply Qle_trans.
Qed.

Lemma foldl_min_spec l first : isFinite first = true -> Forall (fun x => isFinite x = true) l ->
  (foldl math_min first l = first \/ foldl math_min first l ∈ l) /\
  num_le (foldl math_min first l) first = true /\
  Forall (fun x => num_le (foldl math_min first l) x = true) l.
Proof.
  revert first. induction l as [|x l IH]; intros first Hf Hl.
  - destruct first as [| |q]; try done. cbn. split_and!; [by left|by apply Qle_bool_iff, Qle_refl|done].
  - apply Forall_cons in Hl as [Hx Hl]. cbn [foldl].
    destruct (math_min_finite first x Hf Hx) as (Hm & Hm1 & Hm2).
    assert (isFinite (math_min first x) = true) as Hfm by (by destruct Hm as [-> | ->]).
    destruct (IH _ Hfm Hl) as (Hin & Hle & Hall). split_and!.
    + destruct Hin as [->|Hin]; [|right; set_solver]. destruct Hm as [->|Hm]; [by left|right; set_solver].
    + by eapply num_le_trans.
    + constructor; [by eapply num_le_trans|done].
Qed.

(** The next wake is the least scheduled run of an enabled job, and there is
    none exactly when no enabled job has a scheduled run. *)
Lemma nextWakeAtMs_least jobs :
  match nextWakeAtMs jobs with
  | Some w => (exists job, job ∈ jobs /\ job_wake job = Some w) /\
      forall job t, job ∈ jobs -> job_wake job = Some t -> num_le w t = true
  | None => forall job, job ∈ jobs -> job_wake job = None
  end.
Proof.
  unfold nextWakeAtMs. fold job_wake. set (nexts := omap job_wake jobs).
  assert (forall x, x ∈ nexts <-> exists job, job ∈ jobs /\ job_wake job = Some x) as Hin.
  { intros x. unfold nexts. by rewrite list_elem_of_omap. }
  assert (Forall (fun x => isFinite x = true) nexts) as Hfin.
  { apply Forall_forall. intros x (job & _ & Hj)%Hin. unfold job_wake in Hj.
    destruct (isJobEnabled job); [|done]. apply hasScheduledNextRunAtMs_Some in Hj as (_ & Hf & _). done. }
  destruct nexts as [|first nexts'] eqn:En.
  - intros job Hj. destruct (job_wake job) as [x|] eqn:Ex; [|done].
    exfalso. assert (x ∈ (@nil num)) by (apply Hin; eauto). set_solver.
  - destruct (foldl_min_spec (first :: nexts') first) as (Hm & _ & Hall);
      [by apply Forall_cons in Hfin as []|done|].
    split.
    + apply Hin. destruct Hm as [->|]; [set_solver|done].
    + intros job t Hj Ht. rewrite Forall_forall in Hall. apply Hall, Hin. eauto.
Qed.

(** ** Schedules that cannot be evaluated *)

Section invalid.
  Context `{CronEngine} (cfg : CronConfig).

  (** A cron schedule whose expression croner rejects. *)
Definition rejected_schedule (schedule : CronSchedule) (err : jstr) : Prop :=
    match schedule with
    | ScheduleCron (Some expr) tz _ =>
        truthy (trim expr) = true /\ new_Cron (trim expr) (resolveCronTimezone tz) = Throws err
    | _ => False
    end.

Lemma rejected_nextRunAt schedule err now : rejected_schedule schedule err ->
    nextRunAt schedule now = Throws err.
  Proof.
    destruct schedule as [| |[expr|] tz st|]; try done. intros [Ht Hc].
    unfold nextRunAt, computeNextRunAtMs, resolveCronFromSchedule. rewrite Ht. cbn [negb].
    unfold resolveCachedCron. cbn [jm_get]. by rewrite Hc.
  Qed.

Lemma rejected_staggered job err now : rejected_schedule (job_schedule job) err ->
    computeStaggeredCronNextRunAtMs job now = Throws err.
  Proof.
    intros Hr. unfold computeStaggeredCronNextRunAtMs.
    assert (forall now, nextRunAt (job_schedule job) now = Throws err) as Hthrow
      by (intros; by apply rejected_nextRunAt).
    destruct (job_schedule job) as [| |expr tz st|]; try done.
    destruct (num_le _ _); [apply Hthrow|]. cbn [staggered_next].
    by rewrite (Hthrow (math_max _ _)).
  Qed.

Lemma rejected_job job err now : rejected_schedule (job_schedule job) err -> isJobEnabled job = true ->
    computeJobNextRunAtMs job now = Throws err.
  Proof.
    intros Hr He. unfold computeJobNextRunAtMs. rewrite He. cbn [negb].
    pose proof (rejected_staggered job err now Hr) as Hs.
    destruct (job_schedule job); try done. by rewrite Hs.
  Qed.

  (** The job after [k] failures, three of which disable it. *)
Record rejected_after (job0 job : CronJob) (k : nat) : Prop := {
    ra_id : job_id job = job_id job0;
    ra_schedule : job_schedule job = job_schedule job0;
    ra_next : nextRunAtMs (job_state job) = None;
    ra_running : runningAtMs (job_state job) = None;
    ra_count : default 0 (scheduleErrorCount (job_state job)) = Z.of_nat k;
    ra_enabled : isJobEnabled job = bool_decide (k < 3)%nat;
  }.

Lemma normalize_rejected job0 err job k now : rejected_schedule (job_schedule job0) err ->
    rejected_after job0 job k ->
    exists job1 c, normalizeJobTickState job now = (job1, {| tick_changed := c; tick_skip := bool_decide (3 <= k)%nat |})
      /\ rejected_after job0 job1 k.
  Proof.
    intros Hr Hk. pose proof Hk as [Hid Hs Hn Hrun Hc He]. unfold normalizeJobTickState.
    assert (anchored_schedule job now = (job_schedule job, false)) as ->.
    { unfold anchored_schedule. rewrite Hs. by destruct (job_schedule job0). }
    set (job1 := job <| job_schedule := job_schedule job |>).
    assert (isJobEnabled job1 = bool_decide (k < 3)%nat) as -> by (by rewrite <- He).
    assert (job_state job1 = job_state job) as Es by done. rewrite Es, Hn.
    destruct (decide (k < 3)%nat) as [L|L].
    - rewrite (bool_decide_eq_true_2 (k < 3)%nat), (bool_decide_eq_false_2 (3 <= k)%nat) by lia. cbn [negb].
      rewrite (bool_decide_eq_false_2 (is_Some None)) by (by intros []). cbn [andb]. rewrite Es, Hrun.
      eexists _, _. split; [done|]. by destruct Hk; split.
    - rewrite (bool_decide_eq_false_2 (k < 3)%nat), (bool_decide_eq_true_2 (3 <= k)%nat) by lia. cbn [negb].
      eexists _, _. split; [done|]. split; try done; by destruct Hk.
  Qed.

Definition maintenance_tick recomputeExpired repairFuture (r : Walk * list CronJob) (nowMs : num)
      : Walk * list CronJob :=
    recomputeNextRunsForMaintenance cfg recomputeExpired repairFuture nowMs r.1 r.2.

Lemma rejected_tick job0 err job k now w rec rep : rejected_schedule (job_schedule job0) err ->
    rejected_after job0 job k -> (k <= 3)%nat ->
    exists w' job', maintenance_tick rec rep (w, [job]) now = (w', [job']) /\
      rejected_after job0 job' (Nat.min (S k) 3) /\
      wk_notices w' = wk_notices w ++ if decide (k = 2%nat) then [AutoDisabled (job_id job0) 3] else [].
  Proof.
    intros Hr Hk Hk3. unfold maintenance_tick, recomputeNextRunsForMaintenance. cbn [fst snd].
    rewrite walk_cons. unfold walk_one.
    destruct (normalize_rejected _ _ _ _ now Hr Hk) as (job1 & c & -> & Hk1). cbn [tick_skip tick_changed].
    destruct (decide (k < 3)%nat) as [L|L].
    - rewrite (bool_decide_eq_false_2 (3 <= k)%nat) by lia. pose proof Hk1 as [Hid Hs Hn Hrun Hc He].
      rewrite bool_decide_eq_true_2 in He by done.
      unfold maintain_job. rewrite Hn. cbn [hasScheduledNextRunAtMs isFiniteTimestamp].
      rewrite andb_false_r. unfold recompute_in_walk, recomputeJobNextRunAtMs.
      rewrite (rejected_job job1 err now) by (by rewrite ?Hs). unfold recordScheduleComputeError.
      rewrite Hc. destruct (Z.leb_spec MAX_SCHEDULE_ERRORS (Z.of_nat k + 1)) as [L3|L3];
        unfold MAX_SCHEDULE_ERRORS in L3; eexists _, _; (split; [done|]); cbn [wk_notices].
      + assert (k = 2%nat) as -> by lia. split; [split; try done|].
        rewrite decide_True by done. rewrite <- Hid. done.
      + rewrite (decide_False (P := k = 2%nat)) by lia. split; [|done]. rewrite Nat.min_l by lia.
        split; try done; cbn [job_state].
        * unfold on_state. cbn. lia.
        * rewrite bool_decide_eq_true_2 by lia. done.
    - rewrite (bool_decide_eq_true_2 (3 <= k)%nat) by lia. eexists _, _. split; [done|].
      rewrite decide_False by lia. rewrite app_nil_r. split; [|done].
      replace (Nat.min (S k) 3) with k by lia. done.
  Qed.

  (** A job whose expression croner rejects is disabled by the third tick
      that evaluates it, with one notice then and none before or after, and it
      never gets a next run: a bad expression cannot keep the scheduler busy. *)
Theorem rejected_schedule_disabled_once job err nows w rec rep :
    rejected_schedule (job_schedule job) err -> isJobEnabled job = true ->
    nextRunAtMs (job_state job) = None -> runningAtMs (job_state job) = None ->
    scheduleErrorCount (job_state job) = None ->
    exists w' job', foldl (maintenance_tick rec rep) (w, [job]) nows = (w', [job']) /\
      isJobEnabled job' = bool_decide (length nows < 3)%nat /\
      nextRunAtMs (job_state job') = None /\
      wk_notices w' = wk_notices w ++
        if decide (3 <= length nows)%nat then [AutoDisabled (job_id job) 3] else [].
  Proof.
    intros Hr He Hn Hrun Hc.
    assert (exists w' job', foldl (maintenance_tick rec rep) (w, [job]) nows = (w', [job']) /\
      rejected_after job job' (Nat.min (length nows) 3) /\
      wk_notices w' = wk_notices w ++
        if decide (3 <= length nows)%nat then [AutoDisabled (job_id job) 3] else [])
      as (w' & job' & E & Hk & Hw).
    { induction nows as [|now nows IH] using rev_ind.
      - exists w, job. split_and!; [done| |by rewrite app_nil_r]. split; try done.
        all: by rewrite ?Hc, ?bool_decide_eq_true_2 by (cbn; lia).
      - destruct IH as (w' & job' & E & Hk & Hw). rewrite foldl_app, E. cbn [foldl].
        destruct (rejected_tick job err job' _ now w' rec rep Hr Hk ltac:(lia))
          as (w'' & job'' & E' & Hk' & Hw'). exists w'', job''. split; [done|].
        rewrite length_app. cbn [length]. split.
        + replace (Nat.min (length nows + 1) 3) with (Nat.min (S (Nat.min (length nows) 3)) 3) by lia. done.
        + rewrite Hw', Hw. repeat case_decide; try lia; by rewrite ?app_nil_r. }
    exists w', job'. split; [done|]. split_and!; [|apply Hk|done].
    rewrite (ra_enabled _ _ _ Hk). apply bool_decide_ext. lia.
  Qed.

End invalid.

(** ** Concrete jobs *)

Definition fresh_state : CronJobState := {|
  nextRunAtMs := None; runningAtMs := None; lastRunAtMs := None; lastRunStatus := None;
  lastStatus := None; lastError := None; lastErrorReason := None; lastDurationMs := None;
  consecutiveErrors := None; consecutiveSkipped := None; lastFailureAlertAtMs := None;
  scheduleErrorCount := None; lastTriggerEvalAtMs := None; triggerEvalCount := None;
  lastTriggerFireAtMs := None; triggerState := None |}.

Definition sample_job (schedule : CronSchedule) : CronJob := {|
  job_id := lit "job-1"; job_enabled := Some true; job_schedule := schedule;
  job_createdAtMs := of_Z 1700000000000; job_updatedAtMs := of_Z 1700000000000;
  job_payload := AgentTurn; job_sessionTarget := TargetIsolated; job_wakeMode := WakeNow;
  job_deleteAfterRun := None; job_trigger := None; job_failureAlert := None; job_bestEffort := false; job_state := fresh_state |}.

Definition plain_config : CronConfig :=
  {| retry_maxAttempts := None; retry_backoffMs := None; retry_retryOn := None; triggers_minIntervalMs := None;
     cron_failureAlert := None |}.

Definition fresh_walk : Walk := {| wk_deferrals := []; wk_notices := []; wk_changed := false |}.

Definition staggered_minute : CronSchedule :=
  ScheduleCron (Some (lit "* * * * *")) None (VNum (of_Z 30000)).

Lemma recurring_next_run_staggered_witness :
  @computeJobNextRunAtMs minutely (sample_job staggered_minute) (of_Z 1700000000000)
    = Returns (Some (of_Z 1700000046789)) /\
  exists o z, resolveCronStaggerMs (Some (lit "* * * * *")) (VNum (of_Z 30000)) = of_Z z /\
    0 <= o < Z.max 1 z /\ @job_offset minutely (sample_job staggered_minute) = of_Z o.
Proof.
  assert (@computeJobNextRunAtMs minutely (sample_job staggered_minute) (of_Z 1700000000000)
    = Returns (Some (of_Z 1700000046789))) as E by (vm_compute; reflexivity).
  split; [exact E|].
  destruct (@recurring_next_run_staggered minutely minutely_laws (sample_job staggered_minute)
              1700000000000 _ I ltac:(lia) ltac:(by vm_compute) E) as [_ (o & z & Hz & Ho & Eo & _)].
  exists o, z. split; [exact Hz|]. split; [exact Ho|exact Eo].
Defined.

Definition due_job : CronJob := set_nextRunAtMs (Some (of_Z 1699999999000)) (sample_job every_minute).

Lemma due_slot_survives_maintenance_witness :
  (@recomputeNextRunsForMaintenance minutely plain_config true true (of_Z 1700000000000) fresh_walk
     [sample_job every_minute; due_job]).2 !! 1%nat = Some due_job.
Proof.
  refine (@due_slot_survives_maintenance minutely plain_config true true (of_Z 1700000000000) fresh_walk
            [sample_job every_minute; due_job] 1 due_job eq_refl _).
  split; [done|]. split; [done|]. exists (of_Z 1699999999000). split_and!; by vm_compute.
Defined.

Lemma rejected_schedule_disabled_once_witness :
  let bad := sample_job (ScheduleCron (Some (lit "bogus")) None VOther) in
  exists w' job', foldl (@maintenance_tick minutely plain_config true true) (fresh_walk, [bad])
      [of_Z 1; of_Z 2; of_Z 3; of_Z 4] = (w', [job']) /\
    isJobEnabled job' = false /\ wk_notices w' = [AutoDisabled (lit "job-1") 3].
Proof.
  cbv zeta.
  destruct (@rejected_schedule_disabled_once minutely plain_config
    (sample_job (ScheduleCron (Some (lit "bogus")) None VOther)) (lit "Error: pattern")
    [of_Z 1; of_Z 2; of_Z 3; of_Z 4] fresh_walk true true (conj eq_refl eq_refl) eq_refl eq_refl eq_refl eq_refl)
    as (w' & job' & E & He & _ & Hw).
  exists w', job'. split; [exact E|]. split; [exact He|exact Hw].
Defined.
