(* ===== verification/CronPolicy.v ===== *)
(** * Retry and alert policy of cron jobs

    [src/cron/retry-hint.ts] (which errors are worth a retry), the retry
    decisions of [src/cron/service/timer.ts], the alert policy of
    [src/cron/service/failure-alerts.ts] (when an alert is sent, not its text or
    destination) and [src/config/cron-limits.ts]. *)
From coqutil Require Import Datatypes.RecordSettersUsingExistingGetters.
From S2P Require Import Prelude JsString JsRegExp JsNumber NumberCoercion CronSchedule CronJobs.
#[local] Open Scope Z_scope.
#[local] Arguments RecordSettersUsingExistingGetters.const {_} _ _ /.

(** ** Errors worth a retry *)

(** One of the characters of a string. *)
Definition re_any (cs : jstr) : regexp := RChar (fun c => bool_decide (c ∈ cs)).
Definition re_word (w : jstr) : regexp := re_seqs [RWordBoundary; re_lit_i w; RWordBoundary].

(** [5\d{2}]. *)
Definition re_5dd : regexp := re_seqs [re_lit (lit "5"); re_digit; re_digit].

(** [gateway time-?out]. *)
Definition re_gateway_timeout : regexp :=
  re_seqs [re_lit_i (lit "gateway time"); re_opt (re_lit (lit "-")); re_lit_i (lit "out")].

Definition quote : ascii := "034"%char.

Definition SERVER_ERROR_PATTERN : regexp :=
  re_alts [
    re_seqs [
      RWordBoundary;
      re_alts [
        RSeq (re_lit_i (lit "http")) (re_opt (re_lit_i (lit "s")));
        RSeq (re_lit_i (lit "status")) (re_opt (RSeq (re_any (lit " _")) (re_lit_i (lit "code"))));
        RSeq (re_lit_i (lit "response")) (re_opt (RSeq (re_any (lit " _")) (re_lit_i (lit "code"))));
        RSeq (re_lit_i (lit "http")) (re_opt (RSeq (re_any (lit " _")) (re_lit_i (lit "status"))))];
      RWordBoundary;
      re_upto 4 (re_class_or_space (quote :: lit ":=#'"));
      re_5dd; RWordBoundary];
    re_seqs [
      RWordBoundary; re_5dd; RWordBoundary;
      RStar (re_class_or_space (lit ":)].,-"));
      re_alts [re_lit_i (lit "internal server error"); re_lit_i (lit "server error");
               re_lit_i (lit "bad gateway"); re_lit_i (lit "service unavailable"); re_gateway_timeout];
      RWordBoundary];
    re_word (lit "internal server error");
    re_word (lit "bad gateway");
    re_word (lit "service unavailable");
    re_seqs [RWordBoundary; re_gateway_timeout; RWordBoundary];
    re_word (lit "5xx");
    re_seqs [RStart; RStar re_space; re_5dd; RStar re_space; REnd]].

Definition SESSION_LIFECYCLE_CLAIM_ERROR_PATTERN : regexp :=
  re_seqs [
    RStart;
    re_opt (RSeq (RAlt (re_lit (lit "CronSessionLifecycleClaimError")) (re_lit (lit "Error"))) (re_lit (lit ": ")));
    re_lit (lit "Session " ++ [quote]);
    re_plus (RChar (fun c => negb (is_char quote c) && negb (is_char "010"%char c)));
    re_lit (quote :: lit " ");
    RAlt (re_lit (lit "changed")) (re_lit (lit "was deleted"));
    re_lit (lit " while starting work. Retry.");
    REnd].

Definition TRANSIENT_PATTERNS (key : CronRetryOn) : regexp :=
  match key with
  | RateLimit =>
      re_alts [re_seqs [re_lit_i (lit "rate"); re_any (lit "_ "); re_lit_i (lit "limit")];
               re_lit_i (lit "too many requests"); re_lit_i (lit "429");
               re_lit_i (lit "resource has been exhausted"); re_lit_i (lit "cloudflare");
               re_lit_i (lit "tokens per day")]
  | Overloaded =>
      re_alts [re_word (lit "529");
               re_seqs [RWordBoundary; re_lit_i (lit "overloaded"); re_opt (re_lit_i (lit "_error")); RWordBoundary];
               re_lit_i (lit "high demand");
               re_seqs [re_lit_i (lit "temporar"); RAlt (re_lit_i (lit "ily")) (re_lit_i (lit "y"));
                        re_lit_i (lit " overloaded")];
               re_lit_i (lit "capacity exceeded")]
  | Network =>
      re_alts (re_lit_i <$> [lit "network"; lit "fetch failed"; lit "socket"; lit "econnreset";
                             lit "econnrefused"; lit "eai_again"; lit "enetdown"; lit "ehostunreach";
                             lit "ehostdown"; lit "enetreset"; lit "enetunreach"; lit "epipe"])
  | Timeout =>
      re_alts (re_lit_i <$> [lit "timeout"; lit "timed out"; lit "stalled before execution start";
                             lit "etimedout"])
  | ServerError => SERVER_ERROR_PATTERN
  end.

(** [Object.keys(TRANSIENT_PATTERNS)]. *)
Definition all_retry_keys : list CronRetryOn := [RateLimit; Overloaded; Network; Timeout; ServerError].

Definition retry_key_name (key : CronRetryOn) : jstr :=
  match key with
  | RateLimit => lit "rate_limit"
  | Overloaded => lit "overloaded"
  | Network => lit "network"
  | Timeout => lit "timeout"
  | ServerError => lit "server_error"
  end.

Record CronRetryHint := { hint_retryable : bool; hint_category : option CronRetryOn }.

Definition resolveCronExecutionRetryHint (error : option jstr) (retryOn : option (list CronRetryOn))
    (classifiedReason : option jstr) : CronRetryHint :=
  match error with
  | None | Some [] => {| hint_retryable := false; hint_category := None |}
  | Some error =>
      if test SESSION_LIFECYCLE_CLAIM_ERROR_PATTERN error
      then {| hint_retryable := true; hint_category := None |}
      else
        let keys := match retryOn with Some ((_ :: _) as ks) => ks | _ => all_retry_keys end in
        let classified := match classifiedReason with
                          | Some ((_ :: _) as c) => find_first (fun k => bool_decide (retry_key_name k = c)) keys
                          | _ => None
                          end in
        match classified with
        | Some k => {| hint_retryable := true; hint_category := Some k |}
        | None =>
            match find_first (fun k => test (TRANSIENT_PATTERNS k) error) keys with
            | Some k => {| hint_retryable := true; hint_category := Some k |}
            | None => {| hint_retryable := false; hint_category := None |}
            end
        end
  end.

(** ** Retry decisions *)

Definition DEFAULT_MAX_TRANSIENT_RETRIES : Z := 3.

Record RetryConfig := { rc_maxAttempts : num; rc_backoffMs : BackoffSchedule; rc_retryOn : option (list CronRetryOn) }.

Definition resolveRetryConfig (cfg : CronConfig) : RetryConfig := {|
  rc_maxAttempts := default (of_Z DEFAULT_MAX_TRANSIENT_RETRIES) (retry_maxAttempts cfg);
  rc_backoffMs :=
    default {| bo_first := bo_first DEFAULT_ERROR_BACKOFF_SCHEDULE_MS;
               bo_rest := take 2 (bo_rest DEFAULT_ERROR_BACKOFF_SCHEDULE_MS) |} (retry_backoffMs cfg);
  rc_retryOn := match retry_retryOn cfg with Some ((_ :: _) as ks) => Some ks | _ => None end;
|}.

Inductive RetryReason := TransientRetry | MaxRetriesExhausted | PermanentError.

Record TransientCronRetryDecision := {
  rd_retryable : bool;
  rd_backoffMs : option num;
  rd_reason : RetryReason;
}.

Definition resolveTransientCronRetryDecision (cfg : CronConfig) (error lastErrorReason : option jstr)
    (consecutiveErrors : option Z) : TransientCronRetryDecision :=
  let retryConfig := resolveRetryConfig cfg in
  let retryHint := resolveCronExecutionRetryHint error (rc_retryOn retryConfig) lastErrorReason in
  let consecutiveErrors := default 0 consecutiveErrors in
  if negb (hint_retryable retryHint)
  then {| rd_retryable := false; rd_backoffMs := None; rd_reason := PermanentError |}
  else if num_lt (rc_maxAttempts retryConfig) (of_Z consecutiveErrors)
  then {| rd_retryable := false; rd_backoffMs := None; rd_reason := MaxRetriesExhausted |}
  else {| rd_retryable := true;
          rd_backoffMs := Some (errorBackoffMs consecutiveErrors (rc_backoffMs retryConfig));
          rd_reason := TransientRetry |}.

(** The delay of a retry, or none. *)
Definition resolveDisabledHeartbeatOneShotRetryDecision (cfg : CronConfig) (consecutiveSkipped : option Z)
    : option num :=
  let retryConfig := resolveRetryConfig cfg in
  let consecutiveSkipped := default 0 consecutiveSkipped in
  if num_lt (rc_maxAttempts retryConfig) (of_Z consecutiveSkipped) then None
  else Some (errorBackoffMs consecutiveSkipped (rc_backoffMs retryConfig)).

(** [resolveCronTriggerMinIntervalMs]. *)
Definition DEFAULT_CRON_TRIGGER_MIN_INTERVAL_MS : Z := 30000.

Definition resolveCronTriggerMinIntervalMs (cfg : CronConfig) : num :=
  match isFiniteTimestamp (triggers_minIntervalMs cfg) with
  | Some raw => math_max (of_Z 1) (math_floor raw)
  | None => of_Z DEFAULT_CRON_TRIGGER_MIN_INTERVAL_MS
  end.

(** ** Failure alerts *)

Definition DEFAULT_FAILURE_ALERT_AFTER : Z := 2.
Definition DEFAULT_FAILURE_ALERT_COOLDOWN_MS : Z := 60 * 60000.

Definition clampPositiveInt (value : option num) (fallback : num) : num :=
  match isFiniteTimestamp value with
  | Some v => if num_le (of_Z 1) (math_floor v) then math_floor v else fallback
  | None => fallback
  end.

Definition clampNonNegativeInt (value : option num) (fallback : num) : num :=
  match isFiniteTimestamp value with
  | Some v => if num_le (of_Z 0) (math_floor v) then math_floor v else fallback
  | None => fallback
  end.

Record ResolvedFailureAlert := { al_after : num; al_cooldownMs : num; al_includeSkipped : bool }.

(** [a ?? b]. *)
Definition or_else {A} (a b : option A) : option A := match a with Some _ => a | None => b end.

Definition resolveFailureAlert (cfg : CronConfig) (job : CronJob) : option ResolvedFailureAlert :=
  match job_failureAlert job with
  | Some None => None
  | alert =>
      let jobConfig := match alert with Some c => c | None => None end in
      let globalConfig := cron_failureAlert cfg in
      if bool_decide (jobConfig = None) && negb (bool_decide ((globalConfig ≫= fa_enabled) = Some true))
      then None
      else Some {|
        al_after := clampPositiveInt (or_else (jobConfig ≫= fa_after) (globalConfig ≫= fa_after))
                      (of_Z DEFAULT_FAILURE_ALERT_AFTER);
        al_cooldownMs := clampNonNegativeInt (or_else (jobConfig ≫= fa_cooldownMs) (globalConfig ≫= fa_cooldownMs))
                           (of_Z DEFAULT_FAILURE_ALERT_COOLDOWN_MS);
        al_includeSkipped := default false (or_else (jobConfig ≫= fa_includeSkipped)
                                             (globalConfig ≫= fa_includeSkipped));
      |}
  end.

(** [record_only] replays an alert of an earlier process: the time is recorded,
    nothing is sent. *)
Definition maybeEmitFailureAlert (alertConfig : option ResolvedFailureAlert) (job : CronJob)
    (consecutiveCount : Z) (record_only : bool) (now : num) : CronJob * list CronNotice :=
  match alertConfig with
  | None => (job, [])
  | Some alert =>
      if num_lt (of_Z consecutiveCount) (al_after alert) then (job, [])
      else if job_bestEffort job then (job, [])
      else
        let inCooldown := match lastFailureAlertAtMs (job_state job) with
                          | Some lastAlert => num_lt (num_sub now lastAlert) (math_max (of_Z 0) (al_cooldownMs alert))
                          | None => false
                          end in
        if inCooldown then (job, [])
        else (on_state (fun s => s <| lastFailureAlertAtMs := Some now |>) job,
              if record_only then [] else [FailureAlert (job_id job) consecutiveCount])
  end.

(** ** What is retried *)

(** Some part of the error matches an expression. *)
Definition occurs (r : regexp) (s : jstr) : Prop := exists i j, (i <= length s)%nat /\ matches s r i j.

(** The categories that may be retried. *)
Definition allowed_keys (retryOn : option (list CronRetryOn)) : list CronRetryOn :=
  match retryOn with Some ((_ :: _) as ks) => ks | _ => all_retry_keys end.

Lemma retry_key_name_not_nil k : retry_key_name k <> [].
Proof. by destruct k. Qed.

(** An error is worth a retry exactly when a session claim lost its race, or
    the provider's classification or the error's text puts it in an allowed
    category; the category that is named is an allowed one, and the
    classification wins over the text. *)
Theorem retry_hint_spec error retryOn reason :
  let hint := resolveCronExecutionRetryHint error retryOn reason in
  (hint_retryable hint = true <-> exists e, error = Some e /\ e <> [] /\
    (occurs SESSION_LIFECYCLE_CLAIM_ERROR_PATTERN e \/
     exists k, k ∈ allowed_keys retryOn /\
       (reason = Some (retry_key_name k) \/ occurs (TRANSIENT_PATTERNS k) e))) /\
  (forall k, hint_category hint = Some k -> k ∈ allowed_keys retryOn) /\
  (forall k e, k ∈ allowed_keys retryOn -> reason = Some (retry_key_name k) -> error = Some e ->
     e <> [] -> ~ occurs SESSION_LIFECYCLE_CLAIM_ERROR_PATTERN e -> hint_category hint = Some k).
Proof.
  cbv zeta. unfold resolveCronExecutionRetryHint. destruct error as [[|c e]|].
  { cbn. split_and!; [|done|].
    - split; [done|]. by intros (? & [= <-] & ? & _).
    - by intros k ? _ _ [= <-]. }
  2:{ cbn. split_and!; [|done|done]. split; [done|]. by intros (? & ? & _). }
  set (e' := c :: e). fold (allowed_keys retryOn). set (keys := allowed_keys retryOn).
  pose proof (test_spec SESSION_LIFECYCLE_CLAIM_ERROR_PATTERN e') as Hclaim.
  fold (occurs SESSION_LIFECYCLE_CLAIM_ERROR_PATTERN e') in Hclaim.
  destruct (test SESSION_LIFECYCLE_CLAIM_ERROR_PATTERN e') eqn:Et.
  { assert (occurs SESSION_LIFECYCLE_CLAIM_ERROR_PATTERN e') as Ho by (by apply Hclaim).
    cbn. split_and!; [|done|].
    - split; [intros _; exists e'; split_and!; [done..|by left]|done].
    - intros k ? _ _ [= <-] _ Hn. done. }
  assert (~ occurs SESSION_LIFECYCLE_CLAIM_ERROR_PATTERN e') as Hno by (intros H%Hclaim; done).
  set (classified := match reason with Some ((_ :: _) as c) => _ | _ => None end).
  assert (forall k, classified = Some k -> k ∈ keys /\ reason = Some (retry_key_name k)) as Hcl.
  { intros k Hk. unfold classified in Hk. destruct reason as [[|r rs]|]; try done.
    apply find_first_elem in Hk as [? Hn%bool_decide_eq_true]. split; [done|].
    congruence. }
  assert (classified = None -> forall k, k ∈ keys -> reason <> Some (retry_key_name k)) as Hncl.
  { intros Hk k Hin ->. unfold classified in Hk. destruct (retry_key_name k) as [|r rs] eqn:Ek;
      [by apply retry_key_name_not_nil in Ek|].
    rewrite find_first_None, Forall_forall in Hk. specialize (Hk k Hin). cbn in Hk.
    rewrite Ek in Hk. by apply bool_decide_eq_false in Hk. }
  assert (forall k1 k2, retry_key_name k1 = retry_key_name k2 -> k1 = k2) as Hinj by (by intros [] []).
  destruct classified as [k|] eqn:Ec.
  { destruct (Hcl k eq_refl) as [Hin Hr]. cbn. split_and!.
    - split; [intros _; exists e'; split_and!; [done..|right; by eauto]|done].
    - by intros ? [= <-].
    - intros k' e'' _ Hr' _ _ _. f_equal. apply Hinj. congruence. }
  specialize (Hncl eq_refl).
  destruct (find_first (fun k => test (TRANSIENT_PATTERNS k) e') keys) as [k|] eqn:Ef; cbn.
  - apply find_first_elem in Ef as [Hin Hm%test_spec]. split_and!.
    + split; [intros _; exists e'; split_and!; [done..|right; by eauto]|done].
    + by intros ? [= <-].
    + intros k' e'' Hk' Hr' _ _ _. by destruct (Hncl k' Hk').
  - rewrite find_first_None, Forall_forall in Ef. split_and!; [|done|].
    + split; [done|]. intros (e0 & [= <-] & _ & [Ho|(k & Hin & [Hr|Ho])]); [done|by destruct (Hncl k Hin)|].
      specialize (Ef k Hin). cbv beta in Ef. apply test_spec in Ho. congruence.
    + intros k' e'' Hk' Hr' _ _ _. by destruct (Hncl k' Hk').
Qed.
