(* ===== verification/CronResults.v ===== *)
(** * The results of cron runs

    What [src/cron/service/timer.ts] does to a job when a run of it ends:
    counters, alerts, retries and backoff, the next run, removal, and the state
    of triggers.

    A run is an event from outside; its result is a value.  The classification
    of errors by provider is a parameter; the delivery trace and the diagnostics
    of a run are left out. *)
From coqutil Require Import Datatypes.RecordSettersUsingExistingGetters.
From S2P Require Import Prelude JsString JsNumber NumberCoercion JsDate CronSchedule CronJobs CronPolicy.
#[local] Open Scope Z_scope.
#[local] Arguments RecordSettersUsingExistingGetters.const {_} _ _ /.

Definition MIN_REFIRE_GAP_MS : Z := 2000.
Definition HEARTBEAT_SKIP_DISABLED : jstr := lit "disabled".

(** ** Data *)

Record CronTriggerEvalOutcome := {
  te_fired : bool;
  te_stateChanged : bool;
  te_state : option jstr;
  te_busy : bool;
}.

(** The result of a run. *)
Record CronRunOutcome := {
  out_status : CronRunStatus;
  out_error : option jstr;
  out_startedAt : num;
  out_endedAt : num;
  out_triggerEval : option CronTriggerEvalOutcome;
}.

(** [opts] of [applyJobResult]. *)
Record ApplyOptions := { ao_preserveSchedule : bool; ao_replayFailureAlertAtMs : option num }.

Definition no_options : ApplyOptions :=
  {| ao_preserveSchedule := false; ao_replayFailureAlertAtMs := None |}.

(** ** The result of a run *)

(** The next run, no earlier than a bound; unresolved runs clear the schedule. *)
Definition resolveCronNextRunWithLowerBound (job : CronJob) (naturalNext : option num) (lowerBoundMs : num)
    : option num * list CronNotice :=
  match naturalNext with
  | None => (None, [UnresolvedNextRun (job_id job)])
  | Some naturalNext => (Some (math_max naturalNext lowerBoundMs), [])
  end.

Definition is_at (s : CronSchedule) : bool := match s with ScheduleAt _ => true | _ => false end.
Definition is_every (s : CronSchedule) : bool := match s with ScheduleEvery _ _ => true | _ => false end.
Definition is_cron (s : CronSchedule) : bool := match s with ScheduleCron _ _ _ => true | _ => false end.
Definition is_on_exit (s : CronSchedule) : bool := match s with ScheduleOnExit => true | _ => false end.

Definition shouldRetryDisabledHeartbeatOneShot (job : CronJob) (result : CronRunOutcome) : bool :=
  is_at (job_schedule job) && bool_decide (job_sessionTarget job = TargetMain) &&
  bool_decide (job_wakeMode job = WakeNow) && bool_decide (out_status result = StatusSkipped) &&
  bool_decide (out_error result = Some HEARTBEAT_SKIP_DISABLED).

Section results.
  Context `{CronEngine} (cfg : CronConfig).
  (** [resolveFailoverReasonFromError]. *)
  Context (resolveFailoverReason : jstr -> option jstr).

  (** The fields every result writes. *)
Definition record_result (result : CronRunOutcome) (job : CronJob) : CronJob :=
    on_state (fun s => s <| runningAtMs := None |> <| lastRunAtMs := Some (out_startedAt result) |>
        <| lastRunStatus := Some (out_status result) |> <| lastStatus := Some (out_status result) |>
        <| lastDurationMs := Some (math_max (of_Z 0) (num_sub (out_endedAt result) (out_startedAt result))) |>
        <| lastError := out_error result |>
        <| lastErrorReason := match out_status result with
                              | StatusError => out_error result ≫= resolveFailoverReason
                              | _ => None
                              end |>) job <| job_updatedAtMs := out_endedAt result |>.

  (** The counters of consecutive errors and skips, and the alerts they cause. *)
Definition count_result (result : CronRunOutcome) (opts : ApplyOptions) (nowMs : num) (job : CronJob)
      : CronJob * list CronNotice :=
    let alertConfig := resolveFailureAlert cfg job in
    let record_only := bool_decide (is_Some (ao_replayFailureAlertAtMs opts)) in
    let now := default nowMs (ao_replayFailureAlertAtMs opts) in
    match out_status result with
    | StatusError =>
        let count := default 0 (consecutiveErrors (job_state job)) + 1 in
        let job := on_state (fun s => s <| consecutiveErrors := Some count |> <| consecutiveSkipped := Some 0 |>) job in
        maybeEmitFailureAlert alertConfig job count record_only now
    | StatusSkipped =>
        let count := default 0 (consecutiveSkipped (job_state job)) + 1 in
        let job := on_state (fun s => s <| consecutiveErrors := Some 0 |> <| consecutiveSkipped := Some count |>) job in
        if match alertConfig with Some a => al_includeSkipped a | None => false end
        then maybeEmitFailureAlert alertConfig job count record_only now
        else (on_state (fun s => s <| lastFailureAlertAtMs := None |>) job, [])
    | StatusOk =>
        (on_state (fun s => s <| consecutiveErrors := Some 0 |> <| consecutiveSkipped := Some 0 |>
                              <| lastFailureAlertAtMs := None |>) job, [])
    end.

  (** A one-shot is disarmed, or armed again after a delay. *)
Definition disable_one_shot (job : CronJob) : CronJob :=
    set_nextRunAtMs None (job <| job_enabled := Some false |>).

Definition one_shot_after (result : CronRunOutcome) (job : CronJob) : CronJob :=
    if shouldRetryDisabledHeartbeatOneShot job result then
      match resolveDisabledHeartbeatOneShotRetryDecision cfg (consecutiveSkipped (job_state job)) with
      | Some backoffMs =>
          set_nextRunAtMs (Some (num_add (out_endedAt result) backoffMs)) (job <| job_enabled := Some true |>)
      | None => disable_one_shot job
      end
    else match out_status result with
    | StatusOk | StatusSkipped => disable_one_shot job
    | StatusError =>
        let retryDecision := resolveTransientCronRetryDecision cfg (out_error result)
                               (lastErrorReason (job_state job)) (consecutiveErrors (job_state job)) in
        match rd_retryable retryDecision, rd_backoffMs retryDecision with
        | true, Some backoffMs => set_nextRunAtMs (Some (num_add (out_endedAt result) backoffMs)) job
        | _, _ => disable_one_shot job
        end
    end.

  (** The natural next run of a recurring job after a result; a schedule that
      throws is recorded on the job. *)
Definition natural_next (result : CronRunOutcome) (opts : ApplyOptions) (prevLastRunAtMs : option num)
      (from_schedule : bool) (job : CronJob) : CronJob * option num * list CronNotice :=
    let computed :=
      if ao_preserveSchedule opts && is_every (job_schedule job) then
        computeJobNextRunAtMs (on_state (fun s => s <| lastRunAtMs := prevLastRunAtMs |>) job) (out_endedAt result)
      else if from_schedule && is_every (job_schedule job) then
        nextRunAt (job_schedule job) (out_endedAt result)
      else computeJobNextRunAtMs job (out_endedAt result) in
    match computed with
    | Returns next => (job, next, [])
    | Throws err => let '(job, notices) := recordScheduleComputeError job err in (job, None, notices)
    end.

  (** After an error: a short retry when it is transient and comes before the
      natural next run, the error backoff otherwise. *)
Definition recurring_after_error (result : CronRunOutcome) (opts : ApplyOptions) (prevLastRunAtMs : option num)
      (previousConsecutiveErrors : Z) (job : CronJob) : CronJob * list CronNotice :=
    let retryDecision := resolveTransientCronRetryDecision cfg (out_error result)
                           (lastErrorReason (job_state job)) (consecutiveErrors (job_state job)) in
    let '(job, normalNext, notices) :=
      natural_next result opts prevLastRunAtMs
        (rd_retryable retryDecision || (0 <? previousConsecutiveErrors)) job in
    let retryNextRunAtMs :=
      match ao_preserveSchedule opts, rd_retryable retryDecision, rd_backoffMs retryDecision, normalNext with
      | false, true, Some backoffMs, Some normalNext =>
          let retryNextRunAtMs := num_add (out_endedAt result) backoffMs in
          if num_lt retryNextRunAtMs normalNext then Some retryNextRunAtMs else None
      | _, _, _, _ => None
      end in
    match retryNextRunAtMs with
    | Some retryNextRunAtMs => (set_nextRunAtMs (Some retryNextRunAtMs) job, notices)
    | None =>
        let backoff := errorBackoffMs (default 1 (consecutiveErrors (job_state job))) (backoff_of cfg) in
        let backoffNext := num_add (out_endedAt result) backoff in
        if is_cron (job_schedule job) then
          let '(next, more) := resolveCronNextRunWithLowerBound job normalNext backoffNext in
          (set_nextRunAtMs next job, notices ++ more)
        else
          (set_nextRunAtMs (Some match normalNext with
                                 | Some normalNext => math_max normalNext backoffNext
                                 | None => backoffNext
                                 end) job, notices)
    end.

Definition recurring_after_success (result : CronRunOutcome) (opts : ApplyOptions) (prevLastRunAtMs : option num)
      (previousConsecutiveErrors : Z) (job : CronJob) : CronJob * list CronNotice :=
    let '(job, naturalNext, notices) :=
      natural_next result opts prevLastRunAtMs (0 <? previousConsecutiveErrors) job in
    if is_cron (job_schedule job) then
      let minNext :=
        num_add (out_endedAt result)
          (math_max (of_Z MIN_REFIRE_GAP_MS)
             (if bool_decide (is_Some (job_trigger job)) then resolveCronTriggerMinIntervalMs cfg else of_Z 0)) in
      let '(next, more) := resolveCronNextRunWithLowerBound job naturalNext minNext in
      (set_nextRunAtMs next job, notices ++ more)
    else
      (set_nextRunAtMs
         match naturalNext, job_trigger job with
         | Some naturalNext, Some _ =>
             Some (math_max naturalNext (num_add (out_endedAt result) (resolveCronTriggerMinIntervalMs cfg)))
         | _, _ => naturalNext
         end job, notices).

  (** Whether the job is to be deleted, the job, and the notices. *)
Definition applyJobResult (result : CronRunOutcome) (opts : ApplyOptions) (nowMs : num) (job : CronJob)
      : bool * CronJob * list CronNotice :=
    let prevLastRunAtMs := lastRunAtMs (job_state job) in
    let job := record_result result job in
    let previousConsecutiveErrors := default 0 (consecutiveErrors (job_state job)) in
    let '(job, alerts) := count_result result opts nowMs job in
    let isOneShotSchedule := is_at (job_schedule job) || is_on_exit (job_schedule job) in
    let shouldDelete := isOneShotSchedule && bool_decide (job_deleteAfterRun job = Some true) &&
                        bool_decide (out_status result = StatusOk) in
    if shouldDelete then (true, job, alerts)
    else
      let '(job, notices) :=
        if is_at (job_schedule job) then (one_shot_after result job, [])
        else if bool_decide (out_status result = StatusError) && isJobEnabled job then
          recurring_after_error result opts prevLastRunAtMs previousConsecutiveErrors job
        else if isJobEnabled job then
          recurring_after_success result opts prevLastRunAtMs previousConsecutiveErrors job
        else (set_nextRunAtMs None job, []) in
      (false, job, alerts ++ notices).

  (** ** Triggers *)

Definition applyTriggerEvaluationState (triggerEval : CronTriggerEvalOutcome) (evaluatedAtMs : num)
      (job : CronJob) : CronJob :=
    if te_busy triggerEval then job
    else on_state (fun s =>
      s <| lastTriggerEvalAtMs := Some evaluatedAtMs |>
        <| triggerEvalCount := Some (default 0 (triggerEvalCount s) + 1) |>
        <| triggerState := if te_stateChanged triggerEval then te_state triggerEval else triggerState s |>
        <| lastTriggerFireAtMs := if te_fired triggerEval then Some evaluatedAtMs else lastTriggerFireAtMs s |>) job.

Definition applyTriggerRunResult (result : CronRunOutcome) (job : CronJob) : CronJob :=
    match out_triggerEval result with
    | None => job
    | Some triggerEval =>
        let ok := bool_decide (out_status result = StatusOk) in
        let persistedEval := if ok then triggerEval
                             else triggerEval <| te_stateChanged := false |> <| te_state := None |> in
        let job := applyTriggerEvaluationState persistedEval (out_endedAt result) job in
        if te_fired triggerEval && bool_decide (job_trigger job = Some (Some true)) && ok
        then disable_one_shot job else job
    end.

Definition applyTriggerNoFireResult (result : CronRunOutcome) (triggerEval : CronTriggerEvalOutcome)
      (job : CronJob) : CronJob * list CronNotice :=
    let job := set_runningAtMs None job <| job_updatedAtMs := out_endedAt result |> in
    let job := if te_busy triggerEval then job
               else applyTriggerEvaluationState triggerEval (out_endedAt result)
                      (on_state (fun s => s <| consecutiveErrors := Some 0 |> <| scheduleErrorCount := Some 0 |>
                                            <| lastFailureAlertAtMs := None |>) job) in
    match computeJobNextRunAtMs job (out_endedAt result) with
    | Returns naturalNext =>
        let floorMs := math_max (of_Z MIN_REFIRE_GAP_MS) (resolveCronTriggerMinIntervalMs cfg) in
        (set_nextRunAtMs ((fun n => math_max n (num_add (out_endedAt result) floorMs)) <$> naturalNext) job, [])
    | Throws err => recordScheduleComputeError job err
    end.

End results.

(** ** Delays *)

(** The configured delays are integers that can be added to any date, as the
    configuration schema and the clock demand. *)
Definition backoff_fits (cfg : CronConfig) : Prop :=
  forall b, retry_backoffMs cfg = Some b ->
    Forall (fun d => exists z, d = of_Z z /\ 0 <= z <= MAX_INTERVAL_MS) (delays b).

(** So does the interval of triggers. *)
Definition interval_fits (cfg : CronConfig) : Prop :=
  exists z, resolveCronTriggerMinIntervalMs cfg = of_Z z /\ 0 <= z <= MAX_INTERVAL_MS.

Lemma errorBackoffMs_elem count b : errorBackoffMs count b ∈ delays b.
Proof.
  unfold errorBackoffMs. apply list_elem_of_In, nth_In. cbn [delays length]. lia.
Qed.

Lemma backoff_of_fits cfg count : backoff_fits cfg ->
  exists z, errorBackoffMs count (backoff_of cfg) = of_Z z /\ 0 <= z <= MAX_INTERVAL_MS.
Proof.
  intros Hfit. pose proof (errorBackoffMs_elem count (backoff_of cfg)) as Hin.
  unfold backoff_of in *. destruct (retry_backoffMs cfg) as [b|] eqn:E; cbn [default from_option id] in *.
  - specialize (Hfit b E). rewrite Forall_forall in Hfit. by apply Hfit.
  - revert Hin. cbn. intros Hin. repeat (apply elem_of_cons in Hin as [->|Hin]; [by eexists|]).
    by apply elem_of_nil in Hin.
Qed.

Lemma retry_backoff_fits cfg count : backoff_fits cfg ->
  exists z, errorBackoffMs count (rc_backoffMs (resolveRetryConfig cfg)) = of_Z z /\ 0 <= z <= MAX_INTERVAL_MS.
Proof.
  intros Hfit. pose proof (errorBackoffMs_elem count (rc_backoffMs (resolveRetryConfig cfg))) as Hin.
  unfold resolveRetryConfig in *. cbn [rc_backoffMs] in *.
  destruct (retry_backoffMs cfg) as [b|] eqn:E; cbn [default from_option id] in *.
  - specialize (Hfit b E). rewrite Forall_forall in Hfit. by apply Hfit.
  - revert Hin. cbn. intros Hin. repeat (apply elem_of_cons in Hin as [->|Hin]; [by eexists|]).
    by apply elem_of_nil in Hin.
Qed.

(** ** Retry decisions *)

(** An error is transient: its text or its classification say so. *)
Definition transient (cfg : CronConfig) (error reason : option jstr) : bool :=
  hint_retryable (resolveCronExecutionRetryHint error (rc_retryOn (resolveRetryConfig cfg)) reason).

Lemma retryable_eq cfg error reason errors :
  rd_retryable (resolveTransientCronRetryDecision cfg error reason errors) =
  transient cfg error reason && negb (num_lt (rc_maxAttempts (resolveRetryConfig cfg)) (of_Z (default 0 errors))).
Proof.
  unfold resolveTransientCronRetryDecision, transient. destruct (hint_retryable _); [|done].
  by destruct (num_lt _ _).
Qed.

Lemma retry_backoff_eq cfg error reason errors :
  rd_backoffMs (resolveTransientCronRetryDecision cfg error reason errors) =
  if rd_retryable (resolveTransientCronRetryDecision cfg error reason errors)
  then Some (errorBackoffMs (default 0 errors) (rc_backoffMs (resolveRetryConfig cfg))) else None.
Proof.
  unfold resolveTransientCronRetryDecision. destruct (hint_retryable _); [|done].
  by destruct (num_lt _ _).
Qed.

(** ** What a result writes *)

(** The counter of consecutive errors after a result. *)
Definition errors_after (result : CronRunOutcome) (errors : option Z) : Z :=
  match out_status result with StatusError => default 0 errors + 1 | _ => 0 end.

Definition skips_after (result : CronRunOutcome) (skips : option Z) : Z :=
  match out_status result with StatusSkipped => default 0 skips + 1 | _ => 0 end.

(** The state with counters and the time of the last alert. *)
Definition counted (errors skips : Z) (alert : option num) (job : CronJob) : CronJob :=
  on_state (fun s => s <| consecutiveErrors := Some errors |> <| consecutiveSkipped := Some skips |>
                       <| lastFailureAlertAtMs := alert |>) job.

Lemma counted_same errors skips job :
  consecutiveErrors (job_state job) = Some errors -> consecutiveSkipped (job_state job) = Some skips ->
  counted errors skips (lastFailureAlertAtMs (job_state job)) job = job.
Proof. destruct job as [? ? ? ? ? ? ? ? ? ? ? ? []]. cbn. by intros -> ->. Qed.

Lemma maybeEmitFailureAlert_frame alertConfig job count record_only now errors skips :
  consecutiveErrors (job_state job) = Some errors -> consecutiveSkipped (job_state job) = Some skips ->
  exists alert, (maybeEmitFailureAlert alertConfig job count record_only now).1 = counted errors skips alert job.
Proof.
  intros He Hs. unfold maybeEmitFailureAlert. pose proof (counted_same _ _ _ He Hs) as E.
  repeat case_match; cbn [fst]; try by (eexists; rewrite E).
  all: exists (Some now); destruct job as [? ? ? ? ? ? ? ? ? ? ? ? []]; cbn in *; by subst.
Qed.

Ltac alert_frame :=
  match goal with
  | |- context [maybeEmitFailureAlert ?a ?j ?c ?r ?n] =>
      let alert := fresh "alert" in let E := fresh "E" in
      destruct (maybeEmitFailureAlert_frame a j c r n _ _ eq_refl eq_refl) as [alert E]; exists alert; by rewrite E
  end.

Lemma count_result_frame cfg result opts now job :
  exists alert, (count_result cfg result opts now job).1 =
    counted (errors_after result (consecutiveErrors (job_state job)))
            (skips_after result (consecutiveSkipped (job_state job))) alert job.
Proof.
  unfold count_result, errors_after, skips_after. destruct (out_status result).
  - by eexists.
  - alert_frame.
  - case_match; [alert_frame|by eexists].
Qed.

(** ** Recurring jobs *)

Section recurring.
  Context `{CronEngineLaws} (cfg : CronConfig) (resolveFailoverReason : jstr -> option jstr).

  (** The natural next run lies after the end of the run. *)
Lemma natural_next_spec result opts prev from job e j next notices :
    recurring_fits job -> out_endedAt result = of_Z e -> 0 <= e -> e + 1000 <= MAX_DATE_TIMESTAMP_MS ->
    natural_next result opts prev from job = (j, next, notices) ->
    job_schedule j = job_schedule job /\ job_trigger j = job_trigger job /\
    consecutiveErrors (job_state j) = consecutiveErrors (job_state job) /\
    forall n, next = Some n -> num_lt (of_Z e) n = true.
  Proof.
    intros Hfit Ee He He'. unfold natural_next. rewrite Ee. cbv zeta.
    match goal with |- context [match ?o with Returns _ => _ | Throws _ => _ end] => set (computed := o) end.
    assert (forall n, computed = Returns (Some n) -> num_lt (of_Z e) n = true) as Hc.
    { intros n. unfold computed. case_match eqn:E1; [|case_match eqn:E2].
      - by apply recurring_job_next_future.
      - apply andb_true_iff in E2 as [_ E2]. unfold is_every in E2.
        destruct (job_schedule job) as [|ev a| |] eqn:Es; try done. rewrite <- Es.
        eapply every_next_future; eauto. lia.
      - by apply recurring_job_next_future. }
    clearbody computed. destruct computed as [next'|err].
    - intros [= <- <- <-]. split_and!; try done. intros n ->. by apply Hc.
    - destruct (recordScheduleComputeError job err) as [j' ns] eqn:Ej. intros [= <- <- <-].
      apply (f_equal fst) in Ej. cbn [fst] in Ej. subst j'. unfold recordScheduleComputeError.
      split_and!; [by destruct (_ <=? _)..|by intros ? [=]].
  Qed.

  (** The next run of a job that did not fail: after the run, for cron jobs the
      refire gap after it, and with a trigger its interval after it. *)
Definition success_gap (job : CronJob) (e : Z) (n : num) : Prop :=
    num_lt (of_Z e) n = true /\
    (is_cron (job_schedule job) = true -> num_le (of_Z (e + MIN_REFIRE_GAP_MS)) n = true) /\
    (job_trigger job <> None -> num_le (num_add (of_Z e) (resolveCronTriggerMinIntervalMs cfg)) n = true).

  (** An error that may be retried early: it is transient, and no more than
      [maxAttempts] errors came in a row. *)
Definition retries_left (result : CronRunOutcome) (errors : Z) : bool :=
    transient cfg (out_error result) (out_error result ≫= resolveFailoverReason) &&
    negb (num_lt (rc_maxAttempts (resolveRetryConfig cfg)) (of_Z errors)).

  (** The time of the early retry, when there is one before the natural next run. *)
Definition early_retry (result : CronRunOutcome) (opts : ApplyOptions) (e errors : Z) (natural : option num)
      : option num :=
    let retryAt := num_add (of_Z e) (errorBackoffMs errors (rc_backoffMs (resolveRetryConfig cfg))) in
    match natural with
    | Some natural => if retries_left result errors && negb (ao_preserveSchedule opts) && num_lt retryAt natural
                      then Some retryAt else None
    | None => None
    end.

  (** What the code promises of the next run after a result, when the schedule
      would run the job again at [natural]. *)
Definition next_run_after (result : CronRunOutcome) (opts : ApplyOptions) (job : CronJob) (e : Z) (errors : Z)
      (natural : option num) (n : num) : Prop :=
    match out_status result, early_retry result opts e errors natural with
    | StatusError, Some retryAt => n = retryAt
    | StatusError, None =>
        num_le (num_add (of_Z e) (errorBackoffMs errors (backoff_of cfg))) n = true /\
        forall m, natural = Some m -> num_le m n = true
    | _, _ => success_gap job e n /\ forall m, natural = Some m -> num_le m n = true
    end.

Lemma after_error_spec result opts prev prevErrors job e n errors :
    recurring_fits job -> backoff_fits cfg -> out_status result = StatusError ->
    out_endedAt result = of_Z e -> 0 <= e -> e + 1000 <= MAX_DATE_TIMESTAMP_MS ->
    consecutiveErrors (job_state job) = Some errors ->
    lastErrorReason (job_state job) = out_error result ≫= resolveFailoverReason ->
    nextRunAtMs (job_state (recurring_after_error cfg result opts prev prevErrors job).1) = Some n ->
    next_run_after result opts job e errors
      (natural_next result opts prev (retries_left result errors || (0 <? prevErrors)) job).1.2 n.
  Proof.
    intros Hfit Hb Est Ee He He' Herr Hreason. unfold recurring_after_error, next_run_after. rewrite Est, Herr, Hreason.
    rewrite retry_backoff_eq, retryable_eq. cbn [default from_option id].
    fold (retries_left result errors).
    destruct (natural_next _ _ _ _ _) as [[j next] notices] eqn:En. cbn [fst snd].
    destruct (natural_next_spec _ _ _ _ _ _ _ _ _ Hfit Ee He He' En) as (Es & Et & Ec & Hnext).
    rewrite Ee, Ec, Es, Herr. cbn [default from_option id].
    destruct (backoff_of_fits cfg errors Hb) as (z & Ez & Hz).
    assert (num_add (of_Z e) (errorBackoffMs errors (backoff_of cfg)) <> NaN) as Hnan
      by (rewrite Ez; by apply num_add_not_nan).
    set (backoffNext := num_add (of_Z e) (errorBackoffMs errors (backoff_of cfg))) in *. clearbody backoffNext.
    assert (forall m, next = Some m -> num_le backoffNext (math_max m backoffNext) = true /\
              num_le m (math_max m backoffNext) = true) as Hmax.
    { intros m Em. destruct (num_lt_not_nan _ _ (Hnext m Em)). split; [by apply math_max_r|by apply math_max_l]. }
    assert ((match ao_preserveSchedule opts, retries_left result errors,
               (if retries_left result errors then Some (errorBackoffMs errors (rc_backoffMs (resolveRetryConfig cfg)))
                else None), next with
             | false, true, Some backoffMs, Some normalNext =>
                 if num_lt (num_add (of_Z e) backoffMs) normalNext then Some (num_add (of_Z e) backoffMs) else None
             | _, _, _, _ => None
             end) = early_retry result opts e errors next) as ->.
    { unfold early_retry. by destruct (ao_preserveSchedule opts), (retries_left result errors), next. }
    destruct (early_retry result opts e errors next) as [retryAt|]; [by intros [= <-]|].
    pose proof (num_le_refl _ Hnan) as Hrefl.
    destruct (is_cron (job_schedule job)), next as [next|]; cbn; intros [= <-]; try (by split);
      (split; [|intros m [= <-]]; by apply Hmax).
  Qed.

Lemma after_success_spec result opts prev prevErrors job e n errors :
    recurring_fits job -> interval_fits cfg -> out_status result <> StatusError ->
    out_endedAt result = of_Z e -> 0 <= e -> e + 1000 <= MAX_DATE_TIMESTAMP_MS ->
    nextRunAtMs (job_state (recurring_after_success cfg result opts prev prevErrors job).1) = Some n ->
    next_run_after result opts job e errors (natural_next result opts prev (0 <? prevErrors) job).1.2 n.
  Proof.
    intros Hfit Hcfg Est Ee He He'. unfold recurring_after_success, next_run_after.
    destruct (natural_next _ _ _ _ _) as [[j next] notices] eqn:En. cbn [fst snd].
    destruct (natural_next_spec _ _ _ _ _ _ _ _ _ Hfit Ee He He' En) as (Es & Et & _ & Hnext).
    rewrite Ee, Es, Et. intros Hn.
    cut (success_gap job e n /\ forall m, next = Some m -> num_le m n = true); [by destruct (out_status result)|].
    unfold success_gap.
    destruct Hcfg as (k & Ek & Hk). rewrite Ek in *.
    assert (num_add (of_Z e) (of_Z k) = of_Z (e + k)) as Hadd.
    { apply add_exact. unfold MAX_INTERVAL_MS, MAX_SAFE_INTEGER, MAX_DATE_TIMESTAMP_MS in *. lia. }
    assert (forall m x, next = Some m -> x <> NaN -> num_lt (of_Z e) (math_max m x) = true /\
              num_le x (math_max m x) = true /\ num_le m (math_max m x) = true) as Hmax.
    { intros m x Em Hx. pose proof (Hnext m Em) as Hlt. pose proof (num_lt_not_nan _ _ Hlt) as [_ Hm].
      split_and!; [eapply num_lt_le_trans; [done|by apply math_max_l]|by apply math_max_r|by apply math_max_l]. }
    destruct next as [next|]; [|by destruct (is_cron _)].
    destruct (is_cron (job_schedule job)).
    - assert (exists x, num_add (of_Z e) (math_max (of_Z MIN_REFIRE_GAP_MS)
                (if bool_decide (is_Some (job_trigger job)) then of_Z k else of_Z 0)) = of_Z x /\
              e + MIN_REFIRE_GAP_MS <= x /\ (job_trigger job <> None -> e + k <= x)) as (x & Ex & Hx & Hxk).
      { unfold MAX_INTERVAL_MS, MAX_SAFE_INTEGER, MAX_DATE_TIMESTAMP_MS, MIN_REFIRE_GAP_MS in *.
        case_bool_decide as Htr; rewrite math_max_of_Z, add_exact by lia; eexists; (split; [done|]); split; try lia.
        intros Hno. destruct (job_trigger job); [by destruct Htr|done]. }
      rewrite Ex in Hn. cbn in Hn. fold (of_Z x) in Hn. injection Hn as <-.
      destruct (Hmax next (of_Z x) eq_refl) as (Hlt & Hle & Hm); [done|].
      split; [|by intros m [= <-]]. split_and!; [done|intros ?..]; [|rewrite Hadd];
        (eapply num_le_trans; [|exact Hle]); rewrite num_le_of_Z, Z.leb_le; auto.
    - cbn in Hn. pose proof (num_lt_not_nan _ _ (Hnext next eq_refl)) as [_ Hnn].
      destruct (job_trigger job) as [tr|]; simplify_eq.
      + destruct (Hmax next (num_add (of_Z e) (of_Z k)) eq_refl) as (Hlt & Hle & Hm); [by apply num_add_not_nan|].
        split; [by split_and!|by intros m [= <-]].
      + split; [split_and!; [by apply Hnext|done..]|]. intros m [= <-]. by apply num_le_refl.
  Qed.

  (** The run that the schedule asks for after a result, given the state that
      records it; early retries and errors in a row start from the schedule. *)
Definition natural_run (result : CronRunOutcome) (opts : ApplyOptions) (now : num) (job : CronJob) : option num :=
    let errors := errors_after result (consecutiveErrors (job_state job)) in
    let recorded := (count_result cfg result opts now (record_result resolveFailoverReason result job)).1 in
    (natural_next result opts (lastRunAtMs (job_state job))
       (bool_decide (out_status result = StatusError) && retries_left result errors ||
        (0 <? default 0 (consecutiveErrors (job_state job)))) recorded).1.2.

  (** C33. The next run of an enabled recurring job after a result, when it has
      one, for schedules, delays and instants within the range of dates.  After an error that is transient, with no more than [maxAttempts]
      errors in a row, on a schedule that need not be preserved, it is the early
      retry, the delay of the number of errors after the end of the run, exactly
      when that comes before the natural next run.  After every other error it is
      no earlier than the error backoff of that number, and no earlier than the
      natural next run.  After a success or a skipped run it is later than the end
      of the run and no earlier than the natural next run, for cron expressions
      two seconds later at least, and with a trigger the interval of triggers at
      least.  A recurring job is never deleted. *)
Theorem recurring_result_leaves_gap result opts now job e :
    recurring_fits job -> backoff_fits cfg -> interval_fits cfg -> isJobEnabled job = true ->
    out_endedAt result = of_Z e -> 0 <= e -> e + 1000 <= MAX_DATE_TIMESTAMP_MS ->
    let '(deleted, job', _) := applyJobResult cfg resolveFailoverReason result opts now job in
    deleted = false /\ forall n, nextRunAtMs (job_state job') = Some n ->
      next_run_after result opts job e (errors_after result (consecutiveErrors (job_state job)))
        (natural_run result opts now job) n.
  Proof.
    intros Hfit Hb Hi Hen Ee He He'. unfold applyJobResult, natural_run. cbv zeta.
    destruct (count_result_frame cfg result opts now (record_result resolveFailoverReason result job)) as [alert Ec].
    destruct (count_result _ _ _ _ _) as [job' alerts]. cbn [fst] in Ec |- *. subst job'.
    set (job' := counted _ _ _ _).
    assert (job_schedule job' = job_schedule job) as Es by done.
    assert (job_trigger job' = job_trigger job) as Et by done.
    assert (isJobEnabled job' = true) as Hen' by done.
    assert (recurring_fits job') as Hfit' by exact Hfit.
    assert (is_at (job_schedule job') = false /\ is_on_exit (job_schedule job') = false) as [-> ->].
    { rewrite Es. unfold recurring_fits in Hfit. by destruct (job_schedule job). }
    rewrite Hen'. cbn [orb andb]. rewrite andb_true_r.
    set (errors := errors_after _ _).
    assert (consecutiveErrors (job_state (record_result resolveFailoverReason result job)) =
      consecutiveErrors (job_state job)) as -> by done. set (p := default 0 _).
    assert (consecutiveErrors (job_state job') = Some errors) as Hcount by done.
    assert (out_status result = StatusError ->
      lastErrorReason (job_state job') = out_error result ≫= resolveFailoverReason) as Hreason.
    { intros Est. unfold job'. cbn. by rewrite Est. }
    clearbody job' p. destruct (decide (out_status result = StatusError)) as [Est|Est].
    - rewrite bool_decide_eq_true_2 by done. cbn [andb].
      pose proof (after_error_spec result opts (lastRunAtMs (job_state job)) p job' e) as Hspec.
      destruct (recurring_after_error _ _ _ _ _ _) as [j ns]. split; [done|]. intros n Hn.
      specialize (Hspec n errors Hfit' Hb Est Ee He He' Hcount (Hreason Est) Hn).
      unfold next_run_after in *. by rewrite Est in *.
    - rewrite bool_decide_eq_false_2 by done. cbn [andb orb].
      pose proof (after_success_spec result opts (lastRunAtMs (job_state job)) p job' e) as Hspec.
      destruct (recurring_after_success _ _ _ _ _ _) as [j ns]. split; [done|]. intros n Hn.
      specialize (Hspec n errors Hfit' Hi Est Ee He He' Hn).
      unfold next_run_after, success_gap in *. rewrite Es, Et in Hspec. by destruct (out_status result).
  Qed.

End recurring.

(** ** Counters *)

Section counters.
  Context `{CronEngine} (cfg : CronConfig) (resolveFailoverReason : jstr -> option jstr).

  (** The job after runs with the given results, each applied at its time. *)
Definition after_runs (runs : list (CronRunOutcome * num)) (job : CronJob) : CronJob :=
    foldl (fun job r => (applyJobResult cfg resolveFailoverReason r.1 no_options r.2 job).1.2) job runs.

  (** The counters of the state, and all that the choice of the next run keeps. *)
Definition counters (job : CronJob) : option Z * option Z :=
    (consecutiveErrors (job_state job), consecutiveSkipped (job_state job)).

Definition kept (job : CronJob) : jstr * option num * (option Z * option Z) :=
    (job_id job, runningAtMs (job_state job), counters job).

Lemma recordScheduleComputeError_kept job err : kept (recordScheduleComputeError job err).1 = kept job.
  Proof. unfold recordScheduleComputeError. by destruct (_ <=? _). Qed.

Lemma natural_next_kept result opts prev from job :
    kept (natural_next result opts prev from job).1.1 = kept job.
  Proof.
    unfold natural_next. cbv zeta.
    match goal with |- context [match ?o with Returns _ => _ | Throws _ => _ end] => destruct o as [next|err] end;
      [done|].
    pose proof (recordScheduleComputeError_kept job err) as Hc.
    by destruct (recordScheduleComputeError job err).
  Qed.

Lemma after_error_kept result opts prev p job :
    kept (recurring_after_error cfg result opts prev p job).1 = kept job.
  Proof.
    unfold recurring_after_error. cbv zeta. match goal with |- context [natural_next ?a ?b ?c ?d ?e] =>
      pose proof (natural_next_kept a b c d e) as Hc; destruct (natural_next a b c d e) as [[j next] ns] end.
    cbn [fst] in Hc. rewrite <- Hc.
    match goal with |- context [match ?r with Some m => (set_nextRunAtMs (Some m) j, ns) | None => _ end] =>
      destruct r as [m|] end; [done|].
    destruct (is_cron _), next; done.
  Qed.

Lemma after_success_kept result opts prev p job :
    kept (recurring_after_success cfg result opts prev p job).1 = kept job.
  Proof.
    unfold recurring_after_success. cbv zeta. match goal with |- context [natural_next ?a ?b ?c ?d ?e] =>
      pose proof (natural_next_kept a b c d e) as Hc; destruct (natural_next a b c d e) as [[j next] ns] end.
    cbn [fst] in Hc. rewrite <- Hc. destruct (is_cron _), next; done.
  Qed.

Lemma one_shot_kept result job : kept (one_shot_after cfg result job) = kept job.
  Proof.
    unfold one_shot_after. cbv zeta. destruct (shouldRetryDisabledHeartbeatOneShot _ _).
    - by destruct (resolveDisabledHeartbeatOneShotRetryDecision _ _).
    - destruct (out_status result); [done| |done].
      generalize (resolveTransientCronRetryDecision cfg (out_error result)
        (lastErrorReason (job_state job)) (consecutiveErrors (job_state job))) as d.
      intros [r b ?]. by destruct r, b.
  Qed.

Lemma applyJobResult_kept result opts now job :
    kept (applyJobResult cfg resolveFailoverReason result opts now job).1.2 =
      (job_id job, None, (Some (errors_after result (consecutiveErrors (job_state job))),
       Some (skips_after result (consecutiveSkipped (job_state job))))).
  Proof.
    unfold applyJobResult. cbv zeta.
    destruct (count_result_frame cfg result opts now (record_result resolveFailoverReason result job)) as [alert Ec].
    destruct (count_result _ _ _ _ _) as [job' alerts]. cbn [fst] in Ec.
    assert (kept job' = (job_id job, None, (Some (errors_after result (consecutiveErrors (job_state job))),
       Some (skips_after result (consecutiveSkipped (job_state job)))))) as <- by (by rewrite Ec).
    destruct (_ && _ && _); [done|]. destruct (is_at _); [apply one_shot_kept|].
    destruct (_ && isJobEnabled job'); [|destruct (isJobEnabled job'); [|done]].
    - by pose proof (after_error_kept result opts (lastRunAtMs (job_state job)) (default 0
        (consecutiveErrors (job_state (record_result resolveFailoverReason result job)))) job') as Hc;
      destruct (recurring_after_error _ _ _ _ _ _).
    - by pose proof (after_success_kept result opts (lastRunAtMs (job_state job)) (default 0
        (consecutiveErrors (job_state (record_result resolveFailoverReason result job)))) job') as Hc;
      destruct (recurring_after_success _ _ _ _ _ _).
  Qed.

Lemma applyJobResult_counters result opts now job :
    counters (applyJobResult cfg resolveFailoverReason result opts now job).1.2 =
      (Some (errors_after result (consecutiveErrors (job_state job))),
       Some (skips_after result (consecutiveSkipped (job_state job)))).
  Proof. pose proof (applyJobResult_kept result opts now job) as E. apply (f_equal snd) in E. exact E. Qed.

  (** Results of one kind in a row. *)
Lemma runs_counters rs job :
    (Forall (fun r => out_status r.1 = StatusError) rs -> rs <> [] ->
       counters (after_runs rs job) = (Some (default 0 (consecutiveErrors (job_state job)) + Z.of_nat (length rs)), Some 0)) /\
    (Forall (fun r => out_status r.1 = StatusSkipped) rs -> rs <> [] ->
       counters (after_runs rs job) = (Some 0, Some (default 0 (consecutiveSkipped (job_state job)) + Z.of_nat (length rs)))).
  Proof.
    unfold after_runs. revert job. induction rs as [|r rs IH]; intros job; [by split|]. cbn [foldl].
    set (job1 := (applyJobResult _ _ _ _ _ _).1.2).
    pose proof (applyJobResult_counters r.1 no_options r.2 job) as E1. fold job1 in E1. clearbody job1.
    pose proof E1 as [= He Hs]. destruct (IH job1) as [IHe IHs].
    split; intros [Hr Hrs]%Forall_cons _; destruct rs as [|r' rs].
    - cbn [foldl length]. rewrite E1. unfold errors_after, skips_after. by rewrite Hr.
    - rewrite IHe, He by done. unfold errors_after. rewrite Hr. cbn [default from_option id length]. do 2 f_equal. lia.
    - cbn [foldl length]. rewrite E1. unfold errors_after, skips_after. by rewrite Hr.
    - rewrite IHs, Hs by done. unfold skips_after. rewrite Hr. cbn [default from_option id length]. do 2 f_equal. lia.
  Qed.

  (** The counters of a job count its last results: after any history, [n]
      errors in a row that follow a result of another kind leave the error
      counter at [n] and the skip counter at 0, and [n] skips in a row leave them
      the other way round.  A skipped run thus ends a series of errors. *)
Theorem counters_count_runs_in_a_row runs last rs n job : length rs = S n ->
    (out_status last.1 <> StatusError -> Forall (fun r => out_status r.1 = StatusError) rs ->
       counters (after_runs (runs ++ last :: rs) job) = (Some (Z.of_nat (S n)), Some 0)) /\
    (out_status last.1 <> StatusSkipped -> Forall (fun r => out_status r.1 = StatusSkipped) rs ->
       counters (after_runs (runs ++ last :: rs) job) = (Some 0, Some (Z.of_nat (S n)))).
  Proof.
    intros Hlen. assert (rs <> []) by (by intros ->).
    unfold after_runs. rewrite foldl_app. cbn [foldl]. fold (after_runs runs job).
    generalize (after_runs runs job) as job0. intros job0.
    set (job1 := (applyJobResult _ _ _ _ _ _).1.2).
    pose proof (applyJobResult_counters last.1 no_options last.2 job0) as E1. fold job1 in E1. clearbody job1.
    injection E1 as He Hs. fold (after_runs rs job1).
    split; intros Hlast Hrs.
    - destruct (runs_counters rs job1) as [Herr _]. rewrite Herr by done.
      rewrite He, Hlen. unfold errors_after. by destruct (out_status last.1).
    - destruct (runs_counters rs job1) as [_ Hskip]. rewrite Hskip by done.
      rewrite Hs, Hlen. unfold skips_after. by destruct (out_status last.1).
  Qed.

End counters.

(** ** One-shot jobs *)

Section one_shot.
  Context `{CronEngine} (cfg : CronConfig) (resolveFailoverReason : jstr -> option jstr).

  (** The timer will run the job again. *)
Definition armed (job : CronJob) : Prop := isJobEnabled job = true /\ nextRunAtMs (job_state job) <> None.

Definition transient_error (result : CronRunOutcome) : Prop :=
    out_status result = StatusError /\
    transient cfg (out_error result) (out_error result ≫= resolveFailoverReason) = true.

Definition retry_delay (count : Z) : num := errorBackoffMs count (rc_backoffMs (resolveRetryConfig cfg)).

  (** The result of a one-shot job that is kept. *)
Lemma apply_one_shot result now job :
    is_at (job_schedule job) = true -> out_status result <> StatusOk ->
    exists alert, (applyJobResult cfg resolveFailoverReason result no_options now job).1 =
      (false, one_shot_after cfg result
         (counted (errors_after result (consecutiveErrors (job_state job)))
                  (skips_after result (consecutiveSkipped (job_state job))) alert
                  (record_result resolveFailoverReason result job))).
  Proof.
    intros Hat Hno. unfold applyJobResult. cbv zeta.
    destruct (count_result_frame cfg result no_options now (record_result resolveFailoverReason result job)) as [alert Ec].
    destruct (count_result _ _ _ _ _) as [job' alerts]. cbn [fst] in Ec. subst job'. exists alert.
    set (job' := counted _ _ _ _). assert (is_at (job_schedule job') = true) as -> by exact Hat.
    rewrite (bool_decide_eq_false_2 (out_status result = StatusOk)), andb_false_r by done. done.
  Qed.

  (** An error arms the job again, or disables it. *)
Definition retried (result : CronRunOutcome) (count : Z) : bool :=
    transient cfg (out_error result) (out_error result ≫= resolveFailoverReason) &&
    negb (num_lt (rc_maxAttempts (resolveRetryConfig cfg)) (of_Z count)).

Lemma one_shot_after_error result job count :
    out_status result = StatusError -> consecutiveErrors (job_state job) = Some count ->
    lastErrorReason (job_state job) = (out_error result ≫= resolveFailoverReason) ->
    one_shot_after cfg result job =
      if retried result count then set_nextRunAtMs (Some (num_add (out_endedAt result) (retry_delay count))) job
      else disable_one_shot job.
  Proof.
    intros Est Hc Hr. unfold one_shot_after, shouldRetryDisabledHeartbeatOneShot, retried, retry_delay.
    rewrite Est, Hc, Hr, (bool_decide_eq_false_2 (StatusError = StatusSkipped)) by done.
    rewrite andb_false_r. cbn [andb]. rewrite retry_backoff_eq, retryable_eq. cbn [default from_option id].
    by destruct (_ && _).
  Qed.

Lemma counted_reason result job alert errors skips : out_status result = StatusError ->
    lastErrorReason (job_state (counted errors skips alert (record_result resolveFailoverReason result job))) =
      (out_error result ≫= resolveFailoverReason).
  Proof. intros Est. unfold record_result. by rewrite Est. Qed.

  (** A one-shot job after an error that was counted. *)
Definition errored (result : CronRunOutcome) (job job' : CronJob) : Prop :=
    let count := default 0 (consecutiveErrors (job_state job)) + 1 in
    is_at (job_schedule job') = true /\ consecutiveErrors (job_state job') = Some count /\
    isJobEnabled job' = isJobEnabled job && retried result count /\
    nextRunAtMs (job_state job') =
      if retried result count then Some (num_add (out_endedAt result) (retry_delay count)) else None.

Lemma one_shot_after_errored result job job' :
    out_status result = StatusError -> is_at (job_schedule job') = true -> isJobEnabled job' = isJobEnabled job ->
    consecutiveErrors (job_state job') = Some (default 0 (consecutiveErrors (job_state job)) + 1) ->
    lastErrorReason (job_state job') = (out_error result ≫= resolveFailoverReason) ->
    errored result job (one_shot_after cfg result job').
  Proof.
    intros Est Hat Hen Hc Hr. unfold errored. cbv zeta. rewrite (one_shot_after_error _ _ _ Est Hc Hr), <- Hen.
    destruct (retried result _); rewrite ?andb_true_r, ?andb_false_r; done.
  Qed.

Lemma apply_one_shot_error result now job :
    is_at (job_schedule job) = true -> out_status result = StatusError ->
    errored result job (applyJobResult cfg resolveFailoverReason result no_options now job).1.2.
  Proof.
    intros Hat Est. destruct (apply_one_shot result now job Hat) as [alert ->]; [by rewrite Est|].
    cbn [snd]. apply one_shot_after_errored; [done|exact Hat|done| |by apply counted_reason].
    unfold errors_after. by rewrite Est.
  Qed.

  (** Errors in a row only count up, and never enable a job. *)
Lemma errors_in_a_row runs job :
    is_at (job_schedule job) = true -> default 0 (consecutiveErrors (job_state job)) = 0 -> isJobEnabled job = true ->
    Forall (fun r => out_status r.1 = StatusError) runs ->
    let job' := after_runs cfg resolveFailoverReason runs job in
    is_at (job_schedule job') = true /\
    default 0 (consecutiveErrors (job_state job')) = Z.of_nat (length runs) /\
    (isJobEnabled job' = true <-> Forall (fun r => transient_error r.1) runs /\
       (runs = [] \/ num_lt (rc_maxAttempts (resolveRetryConfig cfg)) (of_Z (Z.of_nat (length runs))) = false)).
  Proof.
    intros Hat Hzero Hen. cbv zeta. induction runs as [|r runs IH] using rev_ind; intros Hruns.
    - cbn. split_and!; [done..|]. split; [|done]. intros _. split; [constructor|by left].
    - apply Forall_app in Hruns as [Hruns Hr]. apply Forall_inv in Hr.
      destruct (IH Hruns) as (Hat' & Hcount & Hiff). unfold after_runs. rewrite foldl_app. cbn [foldl].
      fold (after_runs cfg resolveFailoverReason runs job). set (job' := after_runs cfg resolveFailoverReason runs job) in *.
      destruct (apply_one_shot_error r.1 r.2 job' Hat' Hr) as (H1 & H2 & H3 & _). clearbody job'.
      rewrite Hcount in *. split; [exact H1|]. rewrite H2, H3. cbn [default from_option id].
      rewrite length_app. cbn [length].
      replace (Z.of_nat (length runs) + 1) with (Z.of_nat (length runs + 1)) in * by lia.
      split; [done|]. unfold retried. rewrite Forall_app, Forall_singleton, !andb_true_iff, negb_true_iff, Hiff.
      unfold transient_error at 3. split.
      + intros [[Ht _] [Hr1 Hr2]]. split; [done|]. by right.
      + intros [[Ht [_ Hr1]] [Hnil|Hlt]]; [by destruct runs|]. split; [split; [done|]|done].
        right. apply not_true_is_false. intros Hm. rewrite (num_lt_le_trans _ _ _ Hm) in Hlt; [done|].
        rewrite num_le_of_Z, Z.leb_le. lia.
  Qed.

  (** C34. A one-shot job whose runs fail is run again only while its errors are
      transient and their number is at most [retry.maxAttempts]: it is armed
      after exactly these sequences of errors, for the delay that belongs to
      their number, and disabled after every other. *)
Theorem one_shot_retries_bounded runs r job :
    is_at (job_schedule job) = true -> isJobEnabled job = true ->
    default 0 (consecutiveErrors (job_state job)) = 0 ->
    Forall (fun r => out_status r.1 = StatusError) (runs ++ [r]) ->
    let job' := after_runs cfg resolveFailoverReason (runs ++ [r]) job in
    let count := Z.of_nat (S (length runs)) in
    (armed job' <-> Forall (fun r => transient_error r.1) (runs ++ [r]) /\
       num_lt (rc_maxAttempts (resolveRetryConfig cfg)) (of_Z count) = false) /\
    (armed job' -> nextRunAtMs (job_state job') = Some (num_add (out_endedAt r.1) (retry_delay count))) /\
    (~ armed job' -> isJobEnabled job' = false).
  Proof.
    intros Hat Hen Hzero Herr. cbv zeta.
    destruct (errors_in_a_row _ _ Hat Hzero Hen Herr) as (_ & _ & Hiff).
    apply Forall_app in Herr as [Hruns Hr]. apply Forall_inv in Hr.
    destruct (errors_in_a_row _ _ Hat Hzero Hen Hruns) as (Hat' & Hcount & _).
    rewrite length_app, Nat.add_1_r in Hiff. unfold after_runs in *. rewrite foldl_app in *. cbn [foldl] in *.
    fold (after_runs cfg resolveFailoverReason runs job) in *. set (job' := after_runs cfg resolveFailoverReason runs job) in *. clearbody job'.
    destruct (apply_one_shot_error r.1 r.2 job' Hat' Hr) as (_ & _ & He & Hn).
    rewrite Hcount in He, Hn. rewrite Nat2Z.inj_succ in *. unfold Z.succ in *.
    set (job'' := (applyJobResult _ _ _ _ _ _).1.2) in *. clearbody job''. unfold armed.
    destruct (isJobEnabled job' && retried r.1 (Z.of_nat (length runs) + 1)) eqn:E.
    - apply andb_true_iff in E as [_ E]. rewrite E in Hn. rewrite Hn, He in *. destruct runs; naive_solver.
    - rewrite He in *. destruct runs; naive_solver.
  Qed.

  (** A job that wakes the main session, and the result that its heartbeat is
      disabled. *)
Definition wakes_main (job : CronJob) : Prop :=
    is_at (job_schedule job) = true /\ job_sessionTarget job = TargetMain /\ job_wakeMode job = WakeNow.

Definition heartbeat_disabled (result : CronRunOutcome) : Prop :=
    out_status result = StatusSkipped /\ out_error result = Some HEARTBEAT_SKIP_DISABLED.

Lemma one_shot_after_skip result job count :
    wakes_main job -> heartbeat_disabled result -> consecutiveSkipped (job_state job) = Some count ->
    num_lt (rc_maxAttempts (resolveRetryConfig cfg)) (of_Z count) = false ->
    one_shot_after cfg result job =
      set_nextRunAtMs (Some (num_add (out_endedAt result) (retry_delay count))) (job <| job_enabled := Some true |>).
  Proof.
    intros (Hat & Ht & Hw) [Es Ee] Hc Hm.
    unfold one_shot_after, shouldRetryDisabledHeartbeatOneShot. rewrite Hat, Ht, Hw, Es, Ee, Hc.
    rewrite !bool_decide_eq_true_2 by done. cbn [andb].
    unfold resolveDisabledHeartbeatOneShotRetryDecision. cbn [default from_option id]. by rewrite Hm.
  Qed.

Lemma error_keeps_wakes_main result count job : wakes_main job -> out_status result = StatusError ->
    consecutiveErrors (job_state job) = Some count ->
    lastErrorReason (job_state job) = (out_error result ≫= resolveFailoverReason) ->
    wakes_main (one_shot_after cfg result job) /\
    consecutiveSkipped (job_state (one_shot_after cfg result job)) = consecutiveSkipped (job_state job).
  Proof. intros Hj Est Hc Hr. rewrite (one_shot_after_error _ _ _ Est Hc Hr). by destruct (retried result count). Qed.

Lemma counted_wakes_main result job alert errors skips : wakes_main job ->
    wakes_main (counted errors skips alert (record_result resolveFailoverReason result job)).
  Proof. done. Qed.

Lemma error_keeps_target result now job : wakes_main job -> out_status result = StatusError ->
    wakes_main (applyJobResult cfg resolveFailoverReason result no_options now job).1.2 /\
    consecutiveSkipped (job_state (applyJobResult cfg resolveFailoverReason result no_options now job).1.2) = Some 0.
  Proof.
    intros Hj Est. destruct (apply_one_shot result now job) as [alert ->]; [by destruct Hj|by rewrite Est|].
    cbn [snd]. edestruct error_keeps_wakes_main as [Hj' ->];
      [by apply counted_wakes_main|done|done|by apply counted_reason|].
    split; [exact Hj'|]. unfold skips_after. by rewrite Est.
  Qed.

Lemma skip_rearms result now job :
    wakes_main job -> heartbeat_disabled result -> consecutiveSkipped (job_state job) = Some 0 ->
    num_lt (rc_maxAttempts (resolveRetryConfig cfg)) (of_Z 1) = false ->
    let job' := (applyJobResult cfg resolveFailoverReason result no_options now job).1.2 in
    wakes_main job' /\ armed job'.
  Proof.
    intros Hj Hd Hs Hm. cbv zeta. pose proof Hd as [Es Ee].
    destruct (apply_one_shot result now job) as [alert ->]; [by destruct Hj|by rewrite Es|].
    cbn [snd]. rewrite (one_shot_after_skip _ _ 1); [|by apply counted_wakes_main|done| |done].
    - done.
    - unfold skips_after. by rewrite Es, Hs.
  Qed.

  (** Two alternating failures reset each other's counter: a one-shot job whose
      transient errors alternate with skips of its disabled heartbeat is armed
      again after every pair, whatever [retry.maxAttempts] is, from 1 on. *)
Theorem alternating_failures_retry_forever error skip now now' job n :
    wakes_main job -> armed job -> transient_error error -> heartbeat_disabled skip ->
    num_lt (rc_maxAttempts (resolveRetryConfig cfg)) (of_Z 1) = false ->
    armed (after_runs cfg resolveFailoverReason (concat (replicate n [(error, now); (skip, now')])) job).
  Proof.
    intros Hj Ha [Est _] Hd Hm.
    assert (wakes_main (after_runs cfg resolveFailoverReason (concat (replicate n [(error, now); (skip, now')])) job) /\
            armed (after_runs cfg resolveFailoverReason (concat (replicate n [(error, now); (skip, now')])) job)) as [_ Hn]; [|done].
    induction n as [|n IH]; [done|]. rewrite replicate_S_end, concat_app. unfold after_runs in *.
    rewrite foldl_app. set (job' := foldl _ job _) in *. clearbody job'. cbn [concat app foldl fst snd].
    destruct IH as [Hj' _]. destruct (error_keeps_target error now job' Hj' Est) as [Hj1 Hs1].
    destruct (skip_rearms skip now' _ Hj1 Hd Hs1 Hm) as [Hj2 Ha2]. by split.
  Qed.

End one_shot.

(** ** Concrete runs *)

Definition a_run (status : CronRunStatus) (error : option jstr) : CronRunOutcome :=
  {| out_status := status; out_error := error; out_startedAt := of_Z 1700000000000;
     out_endedAt := of_Z 1700000001000; out_triggerEval := None |}.

Definition timed_out : CronRunOutcome := a_run StatusError (Some (lit "request timed out")).
Definition not_awake : CronRunOutcome := a_run StatusSkipped (Some HEARTBEAT_SKIP_DISABLED).

Definition no_reason : jstr -> option jstr := fun _ => None.

Definition reminder : CronJob :=
  set_nextRunAtMs (Some (of_Z 1700000000000))
    ((sample_job (ScheduleAt (lit "2023-11-14T22:13:20Z"))) <| job_sessionTarget := TargetMain |>).

Lemma plain_backoff_fits : backoff_fits plain_config.
Proof. done. Qed.

Lemma plain_interval_fits : interval_fits plain_config.
Proof. exists 30000. split; [done|]. unfold MAX_INTERVAL_MS, MAX_SAFE_INTEGER, MAX_DATE_TIMESTAMP_MS. lia. Qed.

Lemma timed_out_transient : transient_error plain_config no_reason timed_out.
Proof. split; [done|]. vm_compute. reflexivity. Qed.

Lemma recurring_result_leaves_gap_witness :
  exists n, nextRunAtMs (job_state (@applyJobResult minutely plain_config no_reason (a_run StatusOk None) no_options
              (of_Z 1700000001000) (sample_job every_minute)).1.2) = Some n /\
    num_le (of_Z 1700000003000) n = true.
Proof.
  pose proof (@recurring_result_leaves_gap minutely minutely_laws plain_config no_reason (a_run StatusOk None) no_options
    (of_Z 1700000001000) (sample_job every_minute) 1700000001000 I plain_backoff_fits plain_interval_fits
    eq_refl eq_refl ltac:(lia) ltac:(by vm_compute)) as Hgap.
  assert (nextRunAtMs (job_state (@applyJobResult minutely plain_config no_reason (a_run StatusOk None) no_options
    (of_Z 1700000001000) (sample_job every_minute)).1.2) = Some (of_Z 1700000040000)) as E by (vm_compute; reflexivity).
  exists (of_Z 1700000040000). split; [exact E|].
  destruct (@applyJobResult _ _ _ _ _ _ _) as [[deleted job'] ns]. destruct Hgap as [_ Hgap].
  destruct (Hgap _ E) as [(_ & Hcron & _) _]. exact (Hcron eq_refl).
Defined.

Lemma one_shot_retries_bounded_witness :
  armed (@after_runs minutely plain_config no_reason [(timed_out, of_Z 0); (timed_out, of_Z 0); (timed_out, of_Z 0)] reminder) /\
  ~ armed (@after_runs minutely plain_config no_reason
             [(timed_out, of_Z 0); (timed_out, of_Z 0); (timed_out, of_Z 0); (timed_out, of_Z 0)] reminder).
Proof.
  pose proof timed_out_transient as Ht. pose proof Ht as [Hs _]. split.
  - apply (@one_shot_retries_bounded minutely plain_config no_reason [(timed_out, of_Z 0); (timed_out, of_Z 0)]
      (timed_out, of_Z 0) reminder eq_refl eq_refl eq_refl); [by repeat constructor|].
    split; [by repeat constructor|reflexivity].
  - destruct (@one_shot_retries_bounded minutely plain_config no_reason
      [(timed_out, of_Z 0); (timed_out, of_Z 0); (timed_out, of_Z 0)]
      (timed_out, of_Z 0) reminder eq_refl eq_refl eq_refl ltac:(by repeat constructor)) as [Hiff _].
    intros [_ Hm]%Hiff. discriminate Hm.
Defined.

Lemma counters_count_runs_in_a_row_witness :
  counters (@after_runs minutely plain_config no_reason
    ([(timed_out, of_Z 0); (timed_out, of_Z 0)] ++ (a_run StatusSkipped None, of_Z 0) :: [(timed_out, of_Z 0)])
    (sample_job every_minute)) = (Some 1, Some 0).
Proof.
  apply (@counters_count_runs_in_a_row minutely plain_config no_reason [(timed_out, of_Z 0); (timed_out, of_Z 0)]
    (a_run StatusSkipped None, of_Z 0) [(timed_out, of_Z 0)] 0 (sample_job every_minute) eq_refl);
    [done|by repeat constructor].
Defined.

Lemma alternating_failures_retry_forever_witness :
  armed (@after_runs minutely plain_config no_reason
    (concat (replicate 100 [(timed_out, of_Z 0); (not_awake, of_Z 0)])) reminder).
Proof.
  apply alternating_failures_retry_forever; [by split| |exact timed_out_transient|by split|reflexivity].
  split; [reflexivity|discriminate].
Defined.
