(* ===== verification/CronActiveJobs.v ===== *)
(** * The jobs that are being executed

    The process-wide register of [src/cron/active-jobs.ts]: every run holds a
    marker, which is retired when the run ends, when another run of the job
    replaces it, or when the process starts a new generation of its life cycle;
    the result of a run whose marker is retired is thrown away.

    The set [activeJobIds] mirrors the keys of the map for older copies of the
    module: every operation of this one changes both alike, so its merge on
    access changes nothing, and it is left out.  The waiters for an empty
    register are left out too. *)
From S2P Require Import Prelude JsString JsMap.
#[local] Open Scope Z_scope.

(** ** Data *)

Record CronActiveJobMarker := {
  am_jobId : jstr;
  am_generation : Z;
  am_token : Z;
  am_preserveAcrossGenerationAdvance : bool;
}.

Record CronActiveJobState := {
  aj_activeJobs : list (jstr * CronActiveJobMarker);
  aj_generation : Z;
  aj_nextToken : Z;
}.

Definition no_active_jobs : CronActiveJobState :=
  {| aj_activeJobs := []; aj_generation := 0; aj_nextToken := 1 |}.

(** ** Operations *)

Definition isMarkerActiveInGeneration (marker : CronActiveJobMarker) (generation : Z) : bool :=
  (am_generation marker =? generation) || am_preserveAcrossGenerationAdvance marker.

Definition markCronJobActive (jobId : jstr) (preserve : bool) (s : CronActiveJobState)
    : option CronActiveJobMarker * CronActiveJobState :=
  if bool_decide (jobId = []) then (None, s)
  else
    let marker := {| am_jobId := jobId; am_generation := aj_generation s; am_token := aj_nextToken s;
                     am_preserveAcrossGenerationAdvance := preserve |} in
    (Some marker, {| aj_activeJobs := jm_set jobId marker (aj_activeJobs s); aj_generation := aj_generation s;
                     aj_nextToken := aj_nextToken s + 1 |}).

Definition clearCronJobActive (jobId : jstr) (marker : option CronActiveJobMarker) (s : CronActiveJobState)
    : CronActiveJobState :=
  if bool_decide (jobId = []) then s
  else match jm_get jobId (aj_activeJobs s) with
  | None => s
  | Some activeMarker =>
      if match marker with
         | None => true
         | Some marker => bool_decide (am_jobId marker = jobId) && (am_token marker =? am_token activeMarker)
         end
      then {| aj_activeJobs := jm_delete jobId (aj_activeJobs s); aj_generation := aj_generation s;
              aj_nextToken := aj_nextToken s |}
      else s
  end.

Definition isCronJobActive (jobId : jstr) (s : CronActiveJobState) : bool :=
  if bool_decide (jobId = []) then false
  else match jm_get jobId (aj_activeJobs s) with
  | Some marker => isMarkerActiveInGeneration marker (aj_generation s)
  | None => false
  end.

Definition isCronActiveJobMarkerCurrent (marker : option CronActiveJobMarker) (s : CronActiveJobState) : bool :=
  match marker with
  | None => true
  | Some marker =>
      match jm_get (am_jobId marker) (aj_activeJobs s) with
      | Some activeMarker =>
          (am_token activeMarker =? am_token marker) && isMarkerActiveInGeneration marker (aj_generation s)
      | None => false
      end
  end.

Definition getActiveCronJobCount (s : CronActiveJobState) : nat :=
  length (List.filter (fun e => isMarkerActiveInGeneration e.2 (aj_generation s)) (aj_activeJobs s)).

Definition hasActiveCronJobs (s : CronActiveJobState) : bool := (0 <? getActiveCronJobCount s)%nat.

Definition advanceCronActiveJobGeneration (s : CronActiveJobState) : CronActiveJobState :=
  let generation := aj_generation s + 1 in
  {| aj_activeJobs :=
       jm_filter_map (fun marker =>
         if am_preserveAcrossGenerationAdvance marker then Some marker
         else if am_generation marker <? generation - 1 then None else Some marker) (aj_activeJobs s);
     aj_generation := generation; aj_nextToken := aj_nextToken s |}.

Definition resetCronActiveJobs (s : CronActiveJobState) : CronActiveJobState :=
  {| aj_activeJobs := []; aj_generation := aj_generation s + 1; aj_nextToken := aj_nextToken s |}.

(** ** Histories *)

Inductive ActiveOp :=
  | MarkActive (jobId : jstr) (preserve : bool)
  | ClearActive (jobId : jstr) (marker : option CronActiveJobMarker)
  | AdvanceGeneration
  | ResetActive.

Definition active_step (s : CronActiveJobState) (op : ActiveOp) : CronActiveJobState :=
  match op with
  | MarkActive jobId preserve => (markCronJobActive jobId preserve s).2
  | ClearActive jobId marker => clearCronJobActive jobId marker s
  | AdvanceGeneration => advanceCronActiveJobGeneration s
  | ResetActive => resetCronActiveJobs s
  end.

Definition active_run (s : CronActiveJobState) (ops : list ActiveOp) : CronActiveJobState := foldl active_step s ops.

(** Whether an operation retires a marker. *)
Definition retires (marker : CronActiveJobMarker) (op : ActiveOp) : bool :=
  match op with
  | MarkActive jobId _ => bool_decide (jobId = am_jobId marker)
  | ClearActive jobId cleared =>
      bool_decide (jobId = am_jobId marker) &&
      match cleared with
      | None => true
      | Some cleared => bool_decide (am_jobId cleared = jobId) && (am_token cleared =? am_token marker)
      end
  | AdvanceGeneration => negb (am_preserveAcrossGenerationAdvance marker)
  | ResetActive => true
  end.

(** A register is sound: markers lie under their jobs, and later runs have
    greater tokens and generations. *)
Record active_wf (s : CronActiveJobState) : Prop := {
  aw_keys : jm_wf (aj_activeJobs s);
  aw_markers : jm_all (fun jobId m => am_jobId m = jobId /\ jobId <> [] /\ am_token m < aj_nextToken s /\
                         am_generation m <= aj_generation s) (aj_activeJobs s);
}.

Lemma active_step_wf s op : active_wf s -> active_wf (active_step s op).
Proof.
  intros [Hk Hm]. destruct op as [jobId preserve|jobId marker| |]; cbn [active_step].
  - unfold markCronJobActive. case_bool_decide as Hid; [by constructor|]. constructor; cbn.
    + by apply jm_wf_set.
    + apply jm_all_set; [|split_and!; [done|done|cbn; lia|cbn; lia]].
      intros k v Hin. destruct (Hm k v Hin) as (? & ? & ? & ?). split_and!; [done|done|cbn; lia|done].
  - unfold clearCronJobActive. case_bool_decide as Hid; [by constructor|].
    destruct (jm_get jobId _) as [m|]; [|by constructor]. destruct (match marker with None => _ | Some _ => _ end); [|by constructor].
    constructor; cbn; [by apply jm_wf_delete|by apply jm_all_delete].
  - constructor; cbn; [by apply jm_wf_filter_map|].
    apply jm_all_filter_map.
    + intros k m m' Hin. destruct (am_preserveAcrossGenerationAdvance m); [|destruct (_ <? _)]; by intros [= <-].
    + intros k m Hin. destruct (Hm k m Hin) as (? & ? & ? & ?). split_and!; try done; cbn; lia.
  - constructor; cbn; [by constructor|by intros ? ? ?%elem_of_nil].
Qed.

Lemma active_run_wf s ops : active_wf s -> active_wf (active_run s ops).
Proof. revert s. induction ops as [|op ops IH]; intros s Hs; [done|]. by apply IH, active_step_wf. Qed.

Lemma no_active_jobs_wf : active_wf no_active_jobs.
Proof. constructor; cbn; [by constructor|by intros ? ? ?%elem_of_nil]. Qed.

(** ** The life of a marker *)

(** The register holds the marker, and its generation counts. *)
Definition held (m : CronActiveJobMarker) (s : CronActiveJobState) : Prop :=
  jm_get (am_jobId m) (aj_activeJobs s) = Some m /\ isMarkerActiveInGeneration m (aj_generation s) = true.

(** The marker was given out and is gone for good. *)
Definition gone (m : CronActiveJobMarker) (s : CronActiveJobState) : Prop :=
  am_token m < aj_nextToken s /\
  ((forall m', jm_get (am_jobId m) (aj_activeJobs s) = Some m' -> am_token m' <> am_token m) \/
   (am_generation m < aj_generation s /\ am_preserveAcrossGenerationAdvance m = false)).

Lemma held_current m s : held m s -> isCronActiveJobMarkerCurrent (Some m) s = true.
Proof. intros [Hg Ha]. cbn. by rewrite Hg, Z.eqb_refl, Ha. Qed.

Lemma gone_not_current m s : gone m s -> isCronActiveJobMarkerCurrent (Some m) s = false.
Proof.
  intros [_ [Hg|[Hlt Hp]]]; cbn; destruct (jm_get _ _) as [m'|]; try done.
  - specialize (Hg m' eq_refl). by rewrite (proj2 (Z.eqb_neq _ _) Hg).
  - unfold isMarkerActiveInGeneration. rewrite Hp, orb_false_r. rewrite (proj2 (Z.eqb_neq (am_generation m) _)) by lia. apply andb_false_r.
Qed.

(** A marker that is held is kept by every operation that does not retire it. *)
Lemma held_step m s op : active_wf s -> am_jobId m <> [] -> held m s -> retires m op = false ->
  held m (active_step s op).
Proof.
  intros Hs Hid [Hg Ha] Hr. destruct op as [jobId preserve|jobId cleared| |]; cbn [active_step retires] in *.
  - apply bool_decide_eq_false in Hr. unfold markCronJobActive. case_bool_decide; [done|].
    split; [|done]. cbn. by rewrite jm_get_set_ne.
  - unfold clearCronJobActive. destruct (decide (jobId = am_jobId m)) as [->|E].
    + rewrite bool_decide_eq_false_2, Hg by done. rewrite bool_decide_eq_true_2 in Hr by done. cbn [andb] in Hr. destruct cleared as [cleared|]; [|done]. rewrite Hr. by split.
    + clear Hr. case_bool_decide; [by split|]. destruct (jm_get jobId _) as [m'|]; [|by split].
      destruct (match cleared with None => _ | Some _ => _ end); [|by split]. split; [|done]. cbn. by rewrite jm_get_delete_ne.
  - apply negb_false_iff in Hr. split; cbn.
    + rewrite jm_get_filter_map by apply Hs. rewrite Hg. cbn. by rewrite Hr.
    + unfold isMarkerActiveInGeneration. by rewrite Hr, orb_true_r.
  - done.
Qed.

Lemma held_retired m s op : active_wf s -> am_jobId m <> [] -> held m s -> retires m op = true ->
  gone m (active_step s op).
Proof.
  intros Hs Hid [Hg Ha] Hr. pose proof (jm_all_get _ _ _ _ (aw_markers _ Hs) Hg) as (_ & _ & Ht & Hgen).
  destruct op as [jobId preserve|jobId cleared| |]; cbn [active_step retires] in *.
  - apply bool_decide_eq_true in Hr as ->. unfold markCronJobActive. case_bool_decide; [done|].
    split; cbn; [lia|left]. rewrite jm_get_set_eq. intros m' [= <-]. cbn. lia.
  - apply andb_true_iff in Hr as [->%bool_decide_eq_true Hr]. unfold clearCronJobActive.
    case_bool_decide; [done|]. rewrite Hg. destruct cleared as [cleared|]; [rewrite Hr|];
      (split; cbn; [lia|left; by rewrite jm_get_delete_eq by apply Hs]).
  - split; cbn; [lia|right]. split; [lia|by apply negb_true_iff].
  - split; cbn; [lia|by left].
Qed.

Lemma gone_step m s op : active_wf s -> am_jobId m <> [] -> gone m s -> gone m (active_step s op).
Proof.
  intros Hs Hid [Ht Hg]. destruct op as [jobId preserve|jobId cleared| |]; cbn [active_step].
  - unfold markCronJobActive. case_bool_decide; [by split|]. split; cbn; [lia|].
    destruct Hg as [Hg|Hg]; [left|by right]. intros m'. destruct (decide (am_jobId m = jobId)) as [->|Hne].
    + rewrite jm_get_set_eq. intros [= <-]. cbn. lia.
    + rewrite jm_get_set_ne by done. apply Hg.
  - unfold clearCronJobActive. case_bool_decide; [by split|]. destruct (jm_get jobId _) as [m0|]; [|by split].
    destruct (match cleared with None => _ | Some _ => _ end); [|by split]. split; cbn; [done|].
    destruct Hg as [Hg|Hg]; [left|by right]. intros m' Hm'. apply Hg.
    by apply jm_get_delete_Some in Hm' as [_ ?]; [|apply Hs].
  - split; cbn; [done|]. destruct Hg as [Hg|[Hlt Hp]]; [left|right; split; [lia|done]].
    intros m'. rewrite jm_get_filter_map by apply Hs. destruct (jm_get _ _) as [m0|]; [cbn|done].
    intros E. apply Hg. f_equal. destruct (am_preserveAcrossGenerationAdvance m0); [congruence|].
    destruct (_ <? _); congruence.
  - split; cbn; [done|by left].
Qed.

Lemma gone_run m ops s : active_wf s -> am_jobId m <> [] -> gone m s -> gone m (active_run s ops).
Proof.
  revert s. induction ops as [|op ops IH]; intros s Hs Hid Hg; [done|].
  apply IH; [by apply active_step_wf|done|by apply gone_step].
Qed.

(** C40. The marker of a run is current exactly until the first operation that
    retires it, whatever is done to the register: another run of the same job, a
    clearing of the job or of this marker, a reset, or, unless the marker is
    preserved, a new generation.  A retired marker is never current again. *)
Theorem marker_current_until_retired before jobId preserve m s ops :
  markCronJobActive jobId preserve (active_run no_active_jobs before) = (Some m, s) ->
  isCronActiveJobMarkerCurrent (Some m) (active_run s ops) = negb (existsb (retires m) ops).
Proof.
  intros E. pose proof (active_run_wf _ before no_active_jobs_wf) as Hwf.
  assert (active_wf s) as Hs by (pose proof (active_step_wf _ (MarkActive jobId preserve) Hwf) as Hs;
    cbn [active_step] in Hs; by rewrite E in Hs).
  assert (am_jobId m <> [] /\ held m s) as [Hid Hh].
  { unfold markCronJobActive in E. case_bool_decide as Hid; [done|]. injection E as <- <-. split; [done|].
    split; cbn; [apply jm_get_set_eq|]. unfold isMarkerActiveInGeneration. cbn. by rewrite Z.eqb_refl. }
  clear E Hwf. revert s Hs Hh. induction ops as [|op ops IH]; intros s Hs Hh; [by apply held_current|].
  cbn [existsb active_run foldl]. destruct (retires m op) eqn:Er; cbn [orb].
  - apply gone_not_current, gone_run; [by apply active_step_wf|done|by apply held_retired].
  - apply IH; [by apply active_step_wf|by apply held_step].
Qed.

Lemma marker_current_until_retired_witness :
  exists m s, markCronJobActive (lit "job-1") false no_active_jobs = (Some m, s) /\
    isCronActiveJobMarkerCurrent (Some m) (active_run s [MarkActive (lit "job-2") true; AdvanceGeneration]) = false.
Proof.
  refine (ex_intro _ _ (ex_intro _ _ (conj eq_refl _))).
  refine (eq_trans (marker_current_until_retired [] (lit "job-1") false _ _ [MarkActive (lit "job-2") true; AdvanceGeneration]
    eq_refl) _).
  vm_compute. reflexivity.
Defined.
