(* ===== verification/CronTimer.v ===== *)
(** * The timer of cron jobs

    The scheduler of [src/cron/service/timer.ts]: arming of the timer, which jobs
    are due, the reservation of due jobs by a tick, what happens to them when
    their runs end, and catching up on missed jobs after a restart.

    The jobs of a store have distinct ids.  Each locked part of the code is one
    operation; the store is the one that was loaded last.  Where results are
    applied, the register of active jobs is taken as the code finds it at each of
    its looks, since other runs change it in between, and a failed write is rolled
    back; the other writes of the store succeed, and the service is not stopped while
    a reservation is being written.  Task records, events and the
    session reaper are left out. *)
From coqutil Require Import Datatypes.RecordSettersUsingExistingGetters.
From S2P Require Import Prelude JsString JsNumber NumberCoercion CronSchedule CronJobs CronPolicy CronResults CronActiveJobs.
#[local] Open Scope Z_scope.
#[local] Arguments RecordSettersUsingExistingGetters.const {_} _ _ /.

Definition MAX_TIMER_DELAY_MS : Z := 60000.

(** ** Data *)

Record CronServiceState := {
  cs_store : option (list CronJob);
  (** The delay of the armed timer. *)
  cs_timer : option num;
  cs_running : bool;
  cs_stopped : bool;
  cs_schedulingPaused : bool;
  cs_restartRecoveryPending : bool;
  cs_deferrals : list jstr;
  cs_notices : list CronNotice;
}.

(** The options of the service that the scheduler reads. *)
Record CronServiceDeps := {
  dep_cronEnabled : bool;
  dep_cronConfig : CronConfig;
  dep_missedJobStaggerMs : option num;
  dep_maxMissedJobsPerRestart : option Z;
  dep_startupDeferredMissedAgentJobDelayMs : option num;
}.

Definition DEFAULT_MISSED_JOB_STAGGER_MS : Z := 5000.
Definition DEFAULT_MAX_MISSED_JOBS_PER_RESTART : Z := 5.
Definition DEFAULT_STARTUP_DEFERRED_MISSED_AGENT_JOB_DELAY_MS : Z := 2 * 60000.

Definition jobs_of (st : CronServiceState) : list CronJob := default [] (cs_store st).

Definition armRunningRecheckTimer (st : CronServiceState) : CronServiceState :=
  if cs_stopped st || cs_schedulingPaused st then st
  else st <| cs_timer := Some (of_Z MAX_TIMER_DELAY_MS) |>.

Definition armTimer (deps : CronServiceDeps) (nowMs : num) (st : CronServiceState) : CronServiceState :=
  let st := st <| cs_timer := None |> in
  if cs_stopped st || cs_schedulingPaused st then st
  else if negb (dep_cronEnabled deps) then st
  else if cs_restartRecoveryPending st then st
  else match nextWakeAtMs (jobs_of st) with
  | None =>
      let enabledCount := length (List.filter (fun j => bool_decide (job_enabled j = Some true)) (jobs_of st)) in
      if (0 <? enabledCount)%nat then armRunningRecheckTimer st else st
  | Some nextAt =>
      let delay := math_max (num_sub nextAt nowMs) (of_Z 0) in
      let flooredDelay := if num_eqb delay (of_Z 0) then of_Z MIN_REFIRE_GAP_MS else delay in
      st <| cs_timer := Some (math_min flooredDelay (of_Z MAX_TIMER_DELAY_MS)) |>
  end.

Section scheduler.
  Context `{CronEngine} (deps : CronServiceDeps).
  Context (resolveFailoverReason : jstr -> option jstr).

  Abbreviation cfg := (dep_cronConfig deps).

  (** A maintenance pass over the store. *)
Definition maintain (recomputeExpired repairFuture : bool) (nowMs : num) (st : CronServiceState)
      : bool * CronServiceState :=
    match cs_store st with
    | None => (false, st)
    | Some jobs =>
        let '(w, jobs) := recomputeNextRunsForMaintenance cfg recomputeExpired repairFuture nowMs
          {| wk_deferrals := cs_deferrals st; wk_notices := cs_notices st; wk_changed := false |} jobs in
        (wk_changed w, st <| cs_store := Some jobs |> <| cs_deferrals := wk_deferrals w |>
                          <| cs_notices := wk_notices w |>)
    end.

  (** *** Due jobs *)

Definition isScheduledTerminalOneShotRetry (job : CronJob) (lastRunStatus : CronRunStatus) : bool :=
    match lastRunAtMs (job_state job), nextRunAtMs (job_state job) with
    | Some lastRun, Some nextRun =>
        if negb (isJobEnabled job) || num_le nextRun lastRun then false
        else match lastRunStatus with
             | StatusError => true
             | StatusSkipped =>
                 bool_decide (job_sessionTarget job = TargetMain) && bool_decide (job_wakeMode job = WakeNow) &&
                 bool_decide (lastError (job_state job) = Some HEARTBEAT_SKIP_DISABLED)
             | StatusOk => false
             end
    | _, _ => false
    end.

Definition isErrorBackoffPending (job : CronJob) (nowMs : num) : bool :=
    if is_at (job_schedule job) || negb (bool_decide (resolveJobLastRunStatus job = Some StatusError)) then false
    else match resolveJobErrorBackoffUntilMs job (backoff_of cfg) with
         | Some backoffUntilMs => num_lt nowMs backoffUntilMs
         | None => false
         end.

Record CollectOptions := {
    co_skipJobIds : list jstr;
    co_skipAtIfAlreadyRan : bool;
    co_allowCronMissedRunByLastRun : bool;
  }.

Definition tick_options : CollectOptions :=
    {| co_skipJobIds := []; co_skipAtIfAlreadyRan := false; co_allowCronMissedRunByLastRun := false |}.

  (** The part of [isRunnableJob] after the question of one-shot jobs. *)
Definition runnable_by_slot (opts : CollectOptions) (nowMs : num) (job : CronJob) : bool :=
    if isErrorBackoffPending job nowMs then false
    else if match hasScheduledNextRunAtMs (nextRunAtMs (job_state job)) with
            | Some next => num_le next nowMs
            | None => false
            end then true
    else if negb (co_allowCronMissedRunByLastRun opts) || negb (is_cron (job_schedule job)) then false
    else or_false (computeJobPreviousRunAtMs job nowMs) (fun previousRunAtMs =>
      match isFiniteTimestamp previousRunAtMs, isFiniteTimestamp (lastRunAtMs (job_state job)) with
      | Some previousRunAtMs, Some lastRunAtMs => num_lt lastRunAtMs previousRunAtMs
      | _, _ => false
      end).

Definition isRunnableJob (opts : CollectOptions) (nowMs : num) (job : CronJob) : bool :=
    if negb (isJobEnabled job) then false
    else if bool_decide (job_id job ∈ co_skipJobIds opts) then false
    else if bool_decide (is_Some (runningAtMs (job_state job))) then false
    else match co_skipAtIfAlreadyRan opts && is_at (job_schedule job), resolveJobLastRunStatus job with
    | true, Some lastRunStatus =>
        if isScheduledTerminalOneShotRetry job lastRunStatus
        then match nextRunAtMs (job_state job) with
             | Some nextRun => num_le nextRun nowMs
             | None => false
             end
        else false
    | _, _ => runnable_by_slot opts nowMs job
    end.

Definition collectRunnableJobs (opts : CollectOptions) (nowMs : num) (jobs : list CronJob) : list CronJob :=
    List.filter (isRunnableJob opts nowMs) jobs.

  (** *** A tick *)

Record DueJob := { due_id : jstr; due_reservedAtMs : num }.

  (** The locked part of [onAdmittedTimer]: due jobs are reserved by their
      running marker, or the store is maintained when there are none. *)
Definition reserveDueJobs (nowMs : num) (st : CronServiceState) : list DueJob * CronServiceState :=
    if cs_stopped st || cs_restartRecoveryPending st then ([], st)
    else match cs_store st with
    | None => ([], (maintain true true nowMs st).2)
    | Some jobs =>
        match collectRunnableJobs tick_options nowMs jobs with
        | [] => ([], (maintain true true nowMs st).2)
        | due =>
            ((fun job => {| due_id := job_id job; due_reservedAtMs := nowMs |}) <$> due,
             st <| cs_store := Some ((fun job => if isRunnableJob tick_options nowMs job
                                                 then set_runningAtMs (Some nowMs) job else job) <$> jobs) |>)
        end
    end.

  (** The start of [onAdmittedTimer]: the due jobs, or nothing when another tick
      is running or the scheduler is off. *)
Definition onAdmittedTimer (nowMs : num) (st : CronServiceState) : list DueJob * CronServiceState :=
    if cs_stopped st || cs_schedulingPaused st then ([], st)
    else if cs_restartRecoveryPending st then ([], st)
    else if cs_running st then ([], armRunningRecheckTimer st)
    else reserveDueJobs nowMs (armRunningRecheckTimer (st <| cs_running := true |>)).

  (** Its [finally]. *)
Definition finishTick (nowMs : num) (st : CronServiceState) : CronServiceState :=
    armTimer deps nowMs (st <| cs_running := false |>).

  (** The first job with an id is changed or removed. *)
Fixpoint update_job (id : jstr) (f : CronJob -> option CronJob) (jobs : list CronJob) : list CronJob :=
    match jobs with
    | [] => []
    | job :: jobs =>
        if bool_decide (job_id job = id) then match f job with Some job => job :: jobs | None => jobs end
        else job :: update_job id f jobs
    end.

  (** Reservations of jobs that were not started are taken back; the flag tells
      whether there were any. *)
Fixpoint release_reservations (dues : list DueJob) (jobs : list CronJob) : bool * list CronJob :=
    match dues with
    | [] => (false, jobs)
    | due :: dues =>
        let held := match find_first (fun j => bool_decide (job_id j = due_id due)) jobs with
                    | Some job => opt_num_eqb (runningAtMs (job_state job)) (Some (due_reservedAtMs due))
                    | None => false
                    end in
        let jobs := if held then update_job (due_id due) (fun job => Some (set_runningAtMs None job)) jobs
                    else jobs in
        let '(released, jobs) := release_reservations dues jobs in
        (held || released, jobs)
    end.

Definition releaseUnclaimedDueJobReservations (unclaimed : list DueJob) (nowMs : num) (st : CronServiceState)
      : CronServiceState :=
    match unclaimed with
    | [] => st
    | _ => (maintain false true nowMs
              (st <| cs_store := fmap (M:=option) (fun jobs => (release_reservations unclaimed jobs).2)
                                   (cs_store st) |>)).2
    end.

Definition drop_deferral (id : jstr) (st : CronServiceState) : CronServiceState :=
    st <| cs_deferrals := List.filter (fun x => negb (bool_decide (x = id))) (cs_deferrals st) |>.

(** A run that has ended: its job as it was executed, its marker and its result. *)
Record TimedCronRunOutcome := {
  to_jobId : jstr;
  to_job : CronJob;
  to_activeJobMarker : option CronActiveJobMarker;
  to_result : CronRunOutcome;
}.

  (** A successful run of a job that is gone is noted, and nothing else. *)
Definition applyOutcomeToStoredJob (outcome : TimedCronRunOutcome) (nowMs : num) (st : CronServiceState)
      : CronServiceState :=
    let id := to_jobId outcome in
    let result := to_result outcome in
    match cs_store st with
    | None => st
    | Some jobs =>
        match find_first (fun j => bool_decide (job_id j = id)) jobs with
        | None =>
            match out_status result, out_triggerEval result with
            | StatusOk, Some {| te_fired := false |} => st
            | StatusOk, _ =>
                let '(_, _, notices) :=
                  applyJobResult cfg resolveFailoverReason result no_options nowMs (to_job outcome) in
                st <| cs_notices := cs_notices st ++ notices |>
            | _, _ => st
            end
        | Some job =>
            match out_status result, out_triggerEval result with
            | StatusOk, Some ({| te_fired := false |} as triggerEval) =>
                let '(job, notices) := applyTriggerNoFireResult cfg result triggerEval job in
                drop_deferral id (st <| cs_store := Some (update_job id (fun _ => Some job) jobs) |>
                                     <| cs_notices := cs_notices st ++ notices |>)
            | _, _ =>
                let '(shouldDelete, job, notices) :=
                  applyJobResult cfg resolveFailoverReason result no_options nowMs job in
                let job := applyTriggerRunResult result job in
                let jobs := if shouldDelete
                            then List.filter (fun j => negb (bool_decide (job_id j = id))) jobs
                            else update_job id (fun _ => Some job) jobs in
                drop_deferral id (st <| cs_store := Some jobs |> <| cs_notices := cs_notices st ++ notices |>)
            end
        end
    end.

Definition apply_outcomes (outcomes : list TimedCronRunOutcome) (nowMs : num) (st : CronServiceState)
      : CronServiceState :=
    foldl (fun st outcome => applyOutcomeToStoredJob outcome nowMs st) st outcomes.

(** Results of runs whose marker is retired are thrown away. *)
Definition filterCurrentCronRunOutcomes (active : CronActiveJobState) (outcomes : list TimedCronRunOutcome)
    : list TimedCronRunOutcome :=
  List.filter (fun outcome => isCronActiveJobMarkerCurrent (to_activeJobMarker outcome) active) outcomes.

Definition clearActiveMarkersForOutcomes (outcomes : list TimedCronRunOutcome) (active : CronActiveJobState)
    : CronActiveJobState :=
  foldl (fun active outcome => clearCronJobActive (to_jobId outcome) (to_activeJobMarker outcome) active) active outcomes.

(** The register of active jobs when the results come in, when the store is
    locked, and when its write is over. *)
Record ActiveMoments := {
  when_completed : CronActiveJobState;
  when_locked : CronActiveJobState;
  when_written : CronActiveJobState;
}.

(** [persistOrRestore]: [None] when the write of the store failed, which is
    thrown after the store and the deferrals are back to the snapshot. *)
Definition persistOrRestore (persisted : bool) (snapshot : CronServiceState)
    (finalized : list TimedCronRunOutcome) (st : CronServiceState)
    : option (list TimedCronRunOutcome) * CronServiceState :=
  if persisted then (Some finalized, st)
  else (None, st <| cs_store := cs_store snapshot |> <| cs_deferrals := cs_deferrals snapshot |>).

  (** The results of runs with a current marker are applied in order, then the
      store is maintained.  The markers are cleared at the end, after a failure
      only when [clearOnFailure] says so. *)
Definition finalizeCompletedResults (persisted clearOnFailure : bool) (active : ActiveMoments)
      (completedResults : list TimedCronRunOutcome) (nowMs : num) (st : CronServiceState)
      : option (list TimedCronRunOutcome) * CronServiceState * CronActiveJobState :=
    let unfinished active := if clearOnFailure then clearActiveMarkersForOutcomes completedResults active
                             else active in
    match completedResults with
    | [] => (Some [], st, when_completed active)
    | _ =>
        match filterCurrentCronRunOutcomes (when_completed active) completedResults with
        | [] => (Some [], st, unfinished (when_completed active))
        | currentResults =>
            match filterCurrentCronRunOutcomes (when_locked active) currentResults with
            | [] => (Some [], st, unfinished (when_locked active))
            | finalizedResults =>
                let '(finalized, st) :=
                  persistOrRestore persisted st finalizedResults
                    (maintain false true nowMs (apply_outcomes finalizedResults nowMs st)).2 in
                (finalized, st,
                 if persisted then clearActiveMarkersForOutcomes completedResults (when_written active)
                 else unfinished (when_written active))
            end
        end
    end.

  (** ** Missed jobs after a restart *)

Record StartupDeferredJob := { sd_jobId : jstr; sd_delayMs : option num }.

Record StartupCatchupPlan := { sp_candidates : list DueJob; sp_deferredJobs : list StartupDeferredJob }.

  (** A cron job whose slot passed inside its error backoff runs when that ends. *)
Definition defer_backoff_slot (skipJobIds : list jstr) (nowMs : num) (job : CronJob) : CronJob * bool :=
    if negb (isJobEnabled job) || negb (is_cron (job_schedule job)) || bool_decide (job_id job ∈ skipJobIds) ||
       bool_decide (is_Some (runningAtMs (job_state job))) then (job, false)
    else match resolveJobErrorBackoffUntilMs job (backoff_of cfg) with
    | None => (job, false)
    | Some backoffUntilMs =>
        if num_le backoffUntilMs nowMs then (job, false)
        else match computeJobPreviousRunAtMs job nowMs with
        | Throws _ => (job, false)
        | Returns previous =>
            match isFiniteTimestamp previous, isFiniteTimestamp (lastRunAtMs (job_state job)) with
            | Some previousRunAtMs, Some lastRunAtMs =>
                if num_le previousRunAtMs lastRunAtMs then (job, false)
                else if opt_num_eqb (nextRunAtMs (job_state job)) (Some backoffUntilMs) then (job, false)
                else (set_nextRunAtMs (Some backoffUntilMs) job, true)
            | _, _ => (job, false)
            end
        end
    end.

  (** [toSorted] by next run is stable; missing next runs count as 0. *)
Definition next_or_zero (job : CronJob) : num := default (of_Z 0) (nextRunAtMs (job_state job)).

Fixpoint insert_by_next (job : CronJob) (jobs : list CronJob) : list CronJob :=
    match jobs with
    | [] => [job]
    | j :: js => if num_lt (of_Z 0) (num_sub (next_or_zero job) (next_or_zero j))
                 then j :: insert_by_next job js else job :: jobs
    end.

Definition sort_by_next (jobs : list CronJob) : list CronJob := foldr insert_by_next [] jobs.

Definition is_agent_turn (job : CronJob) : bool := bool_decide (job_payload job = AgentTurn).

Definition startup_eligible (deferAgentTurnJobs : bool) (sorted : list CronJob) : list CronJob :=
    if deferAgentTurnJobs then List.filter (fun j => negb (is_agent_turn j)) sorted else sorted.

Definition deferred_agents (deferAgentTurnJobs : bool) (sorted : list CronJob) : list CronJob :=
    if deferAgentTurnJobs then List.filter is_agent_turn sorted else [].

Definition planStartupCatchup (skipJobIds : list jstr) (deferAgentTurnJobs : bool) (nowMs : num)
      (st : CronServiceState) : StartupCatchupPlan * CronServiceState :=
    let maxImmediate := Z.max 0 (default DEFAULT_MAX_MISSED_JOBS_PER_RESTART (dep_maxMissedJobsPerRestart deps)) in
    let nothing := {| sp_candidates := []; sp_deferredJobs := [] |} in
    match cs_stopped st, cs_store st with
    | true, _ | _, None => (nothing, st)
    | false, Some jobs =>
        let jobs := (fun job => (defer_backoff_slot skipJobIds nowMs job).1) <$> jobs in
        let missed := collectRunnableJobs {| co_skipJobIds := skipJobIds; co_skipAtIfAlreadyRan := true;
                                             co_allowCronMissedRunByLastRun := true |} nowMs jobs in
        let sorted := sort_by_next missed in
        let eligible := startup_eligible deferAgentTurnJobs sorted in
        let candidates := take (Z.to_nat maxImmediate) eligible in
        let overflow := drop (Z.to_nat maxImmediate) eligible in
        let deferredAgentDelayMs :=
          math_max (of_Z 0) (default (of_Z DEFAULT_STARTUP_DEFERRED_MISSED_AGENT_JOB_DELAY_MS)
                               (dep_startupDeferredMissedAgentJobDelayMs deps)) in
        ({| sp_candidates := (fun j => {| due_id := job_id j; due_reservedAtMs := nowMs |}) <$> candidates;
            sp_deferredJobs :=
              ((fun j => {| sd_jobId := job_id j; sd_delayMs := None |}) <$> overflow) ++
              ((fun j => {| sd_jobId := job_id j; sd_delayMs := Some deferredAgentDelayMs |})
                 <$> deferred_agents deferAgentTurnJobs sorted) |},
         st <| cs_store := Some ((fun job => if bool_decide (job_id job ∈ job_id <$> candidates)
                                             then on_state (fun s => s <| runningAtMs := Some nowMs |>
                                                                       <| lastError := None |>) job
                                             else job) <$> jobs) |>)
    end.

  (** The deferred jobs of the plan get slots that lie [staggerMs] apart. *)
Fixpoint apply_deferrals (staggerMs baseNow offset : num) (deferred : list StartupDeferredJob)
      (st : CronServiceState) : CronServiceState :=
    match deferred with
    | [] => st
    | d :: deferred =>
        match find_first (fun j => bool_decide (job_id j = sd_jobId d)) (jobs_of st) with
        | Some job =>
            if isJobEnabled job then
              let next := match sd_delayMs d with
                          | Some delayMs => num_sub (num_add (num_add baseNow delayMs) offset) staggerMs
                          | None => num_add baseNow offset
                          end in
              apply_deferrals staggerMs baseNow (num_add offset staggerMs) deferred
                (st <| cs_store := fmap (M:=option)
                         (update_job (sd_jobId d) (fun j => Some (set_nextRunAtMs (Some next) j))) (cs_store st) |>
                    <| cs_deferrals := if bool_decide (sd_jobId d ∈ cs_deferrals st) then cs_deferrals st
                                       else cs_deferrals st ++ [sd_jobId d] |>)
            else apply_deferrals staggerMs baseNow offset deferred st
        | None => apply_deferrals staggerMs baseNow offset deferred st
        end
    end.

  (** Candidates of the plan that were not started lose their reservation. *)
Definition unstarted (plan : StartupCatchupPlan) (outcomes : list TimedCronRunOutcome) : list DueJob :=
    List.filter (fun d => negb (bool_decide (due_id d ∈ to_jobId <$> outcomes))) (sp_candidates plan).

Definition releaseUnstartedStartupCatchupReservations (plan : StartupCatchupPlan)
      (outcomes : list TimedCronRunOutcome) (st : CronServiceState) : bool * CronServiceState :=
    match cs_store st with
    | None => (false, st)
    | Some jobs =>
        let '(changed, jobs) := release_reservations (unstarted plan outcomes) jobs in
        (changed, st <| cs_store := Some jobs |>)
    end.

  (** What is left to do when no result is applied and no job deferred. *)
Definition persist_released (persisted released : bool) (nowMs : num) (snapshot st : CronServiceState)
      : option (list TimedCronRunOutcome) * CronServiceState :=
    if released then persistOrRestore persisted snapshot [] (maintain false false nowMs st).2 else (Some [], st).

  (** The results are dropped when the service was stopped in the meantime. *)
Definition finalizeStartupCatchup (persisted : bool) (active : ActiveMoments) (plan : StartupCatchupPlan)
      (outcomes : list TimedCronRunOutcome) (nowMs : num) (st : CronServiceState)
      : option (list TimedCronRunOutcome) * CronServiceState :=
    let staggerMs := math_max (of_Z 0) (default (of_Z DEFAULT_MISSED_JOB_STAGGER_MS) (dep_missedJobStaggerMs deps)) in
    let currentOutcomes := filterCurrentCronRunOutcomes (when_completed active) outcomes in
    match cs_store st with
    | None => (Some [], st)
    | Some _ =>
        let '(released, st') := releaseUnstartedStartupCatchupReservations plan outcomes st in
        if cs_stopped st then persist_released persisted released nowMs st st'
        else
          let finalizedOutcomes := filterCurrentCronRunOutcomes (when_locked active) currentOutcomes in
          let st' := apply_outcomes finalizedOutcomes nowMs st' in
          match finalizedOutcomes, sp_deferredJobs plan with
          | [], [] => persist_released persisted released nowMs st st'
          | _, deferred =>
              persistOrRestore persisted st finalizedOutcomes
                (maintain false false nowMs (apply_deferrals staggerMs nowMs staggerMs deferred st')).2
          end
    end.

Definition applyStartupCatchupOutcomes (persisted : bool) (active : ActiveMoments) (plan : StartupCatchupPlan)
      (outcomes : list TimedCronRunOutcome) (nowMs : num) (st : CronServiceState)
      : option (list TimedCronRunOutcome) * CronServiceState * CronActiveJobState :=
    (finalizeStartupCatchup persisted active plan outcomes nowMs st,
     clearActiveMarkersForOutcomes outcomes (when_written active)).

End scheduler.

(** ** The timer *)

(** The clock and the stored runs are dates. *)
Definition wakes_fit (jobs : list CronJob) : Prop :=
  Forall (fun j => forall t, job_wake j = Some t -> exists z, t = of_Z z /\ 0 < z <= MAX_DATE_TIMESTAMP_MS) jobs.

Definition scheduler_on (deps : CronServiceDeps) (st : CronServiceState) : Prop :=
  cs_stopped st = false /\ cs_schedulingPaused st = false /\ cs_restartRecoveryPending st = false /\
  dep_cronEnabled deps = true.

(** While the scheduler is on the timer is armed for a time of up to a
    minute, and fires no later than the next run of any job, or two seconds
    from now when that is past due; only a store without a scheduled run and
    without an enabled job leaves it off. *)
Theorem timer_fires_in_time deps n st :
  scheduler_on deps st -> wakes_fit (jobs_of st) -> 0 <= n <= MAX_DATE_TIMESTAMP_MS ->
  match cs_timer (armTimer deps (of_Z n) st) with
  | Some delay => exists d, delay = of_Z d /\ 0 < d <= MAX_TIMER_DELAY_MS /\
      forall job t, job ∈ jobs_of st -> job_wake job = Some (of_Z t) -> n + d <= Z.max t (n + MIN_REFIRE_GAP_MS)
  | None => forall job, job ∈ jobs_of st -> job_enabled job <> Some true /\ job_wake job = None
  end.
Proof.
  intros (Hs & Hp & Hr & He) Hfit Hn. unfold armTimer. set (st0 := st <| cs_timer := None |>).
  assert (cs_stopped st0 = false) as Hs0 by done. assert (cs_schedulingPaused st0 = false) as Hp0 by done.
  assert (cs_restartRecoveryPending st0 = false) as Hr0 by done.
  assert (cs_timer st0 = None) as Ht0 by done. cbv zeta. rewrite Hs0, Hp0, Hr0, He. cbn [orb negb].
  change (jobs_of st0) with (jobs_of st). clearbody st0.
  pose proof (nextWakeAtMs_least (jobs_of st)) as Hw. destruct (nextWakeAtMs (jobs_of st)) as [w|].
  - destruct Hw as [(job & Hj & Ej) Hleast]. unfold wakes_fit in Hfit. rewrite Forall_forall in Hfit.
    destruct (Hfit job Hj w Ej) as (z & -> & Hz). cbn [cs_timer RecordSettersUsingExistingGetters.set].
    unfold MAX_DATE_TIMESTAMP_MS in *. rewrite sub_exact, math_max_of_Z by lia.
    exists (Z.min (if Z.max (z - n) 0 =? 0 then MIN_REFIRE_GAP_MS else Z.max (z - n) 0) MAX_TIMER_DELAY_MS).
    assert (num_eqb (of_Z (Z.max (z - n) 0)) (of_Z 0) = (Z.max (z - n) 0 =? 0)) as ->.
    { cbn. unfold Qeq_bool. cbn. rewrite Z.mul_1_r. apply eq_true_iff_eq. rewrite Z.eqb_eq, <- Zeq_is_eq_bool. lia. }
    split; [|split].
    + destruct (_ =? _); by rewrite math_min_of_Z.
    + unfold MIN_REFIRE_GAP_MS, MAX_TIMER_DELAY_MS. destruct (Z.eqb_spec (Z.max (z - n) 0) 0); lia.
    + intros job' t Hj' Et. pose proof (Hleast _ _ Hj' Et) as Hle. rewrite num_le_of_Z, Z.leb_le in Hle.
      unfold MIN_REFIRE_GAP_MS, MAX_TIMER_DELAY_MS. destruct (Z.eqb_spec (Z.max (z - n) 0) 0); lia.
  - destruct (0 <? _)%nat eqn:E.
    + unfold armRunningRecheckTimer. rewrite Hs0, Hp0. exists MAX_TIMER_DELAY_MS.
      split; [done|]. split; [unfold MAX_TIMER_DELAY_MS; lia|]. intros job t Hj Et. by rewrite Hw in Et.
    + rewrite Ht0. intros job Hj. split; [|by apply Hw]. intros Hen. apply Nat.ltb_ge in E.
      assert (job ∈ List.filter (fun j => bool_decide (job_enabled j = Some true)) (jobs_of st)) as Hin.
      { apply list_elem_of_In, filter_In. rewrite <- list_elem_of_In, bool_decide_eq_true. done. }
      destruct (List.filter _ _); [by apply elem_of_nil in Hin|]. cbn in E. lia.
Qed.

(** ** Reservations *)

Section reservations.
  Context `{CronEngine} (deps : CronServiceDeps).
  Abbreviation cfg := (dep_cronConfig deps).

  (** A tick may look at the store. *)
Definition tick_open (st : CronServiceState) : Prop :=
    cs_stopped st = false /\ cs_schedulingPaused st = false /\ cs_restartRecoveryPending st = false /\
    cs_running st = false.

Definition reserve (nowMs : num) (job : CronJob) : CronJob :=
    if isRunnableJob deps tick_options nowMs job then set_runningAtMs (Some nowMs) job else job.

Lemma running_not_runnable opts nowMs job : runningAtMs (job_state job) <> None ->
    isRunnableJob deps opts nowMs job = false.
  Proof.
    intros Hr. unfold isRunnableJob. destruct (negb _); [done|]. destruct (bool_decide (_ ∈ _)); [done|].
    destruct (runningAtMs (job_state job)) as [t|]; [|done]. by rewrite bool_decide_eq_true_2.
  Qed.

Lemma reserve_not_runnable opts nowMs nowMs' job : isRunnableJob deps tick_options nowMs job = true ->
    isRunnableJob deps opts nowMs' (reserve nowMs job) = false.
  Proof. intros Hr. unfold reserve. rewrite Hr. by apply running_not_runnable. Qed.

  (** What a tick that may look at the store does with due jobs. *)
Definition reserved (nowMs : num) (jobs : list CronJob) (st' : CronServiceState) : Prop :=
    cs_store st' = Some (reserve nowMs <$> jobs) /\ cs_running st' = true /\ cs_stopped st' = false /\
    cs_schedulingPaused st' = false /\ cs_restartRecoveryPending st' = false /\
    cs_timer st' = Some (of_Z MAX_TIMER_DELAY_MS).

  (** An open tick looks at the store with the recheck armed. *)
Definition ticking (st st1 : CronServiceState) : Prop :=
    cs_store st1 = cs_store st /\ cs_running st1 = true /\ cs_stopped st1 = false /\
    cs_schedulingPaused st1 = false /\ cs_restartRecoveryPending st1 = false /\
    cs_timer st1 = Some (of_Z MAX_TIMER_DELAY_MS).

Lemma onAdmittedTimer_open nowMs st : tick_open st ->
    exists st1, onAdmittedTimer deps nowMs st = reserveDueJobs deps nowMs st1 /\ ticking st st1.
  Proof.
    intros (Hs & Hp & Hr & Hrun). unfold onAdmittedTimer. rewrite Hs, Hp, Hr, Hrun. cbn [orb].
    eexists. split; [done|]. unfold armRunningRecheckTimer. set (st2 := st <| cs_running := true |>).
    assert (cs_stopped st2 = false) as -> by done. assert (cs_schedulingPaused st2 = false) as -> by done. done.
  Qed.

Lemma onAdmittedTimer_reserves nowMs st jobs :
    tick_open st -> cs_store st = Some jobs -> collectRunnableJobs deps tick_options nowMs jobs <> [] ->
    exists st', onAdmittedTimer deps nowMs st =
      ((fun job => {| due_id := job_id job; due_reservedAtMs := nowMs |})
         <$> collectRunnableJobs deps tick_options nowMs jobs, st') /\ reserved nowMs jobs st'.
  Proof.
    intros Hopen Hst Hdue.
    destruct (onAdmittedTimer_open nowMs st Hopen) as (st1 & -> & Hst1 & Hrun1 & Hs1 & Hp1 & Hr1 & Ht1).
    unfold reserveDueJobs. rewrite Hs1, Hr1, Hst1, Hst. cbn [orb].
    destruct (collectRunnableJobs deps tick_options nowMs jobs) as [|d due] eqn:Ed; [done|].
    eexists. split; [done|]. by split_and!.
  Qed.

  (** A tick reserves exactly the runnable jobs, in the order of the store:
      each of them gets the time of the tick as its running marker, no other job
      changes, and no reserved job is runnable again at any time while it holds
      the marker.  Another tick in the meantime reserves nothing and leaves the
      store alone, and a recheck is armed. *)
Theorem tick_reserves_due_jobs nowMs nowMs' st jobs :
    tick_open st -> cs_store st = Some jobs -> collectRunnableJobs deps tick_options nowMs jobs <> [] ->
    exists st', onAdmittedTimer deps nowMs st =
      ((fun job => {| due_id := job_id job; due_reservedAtMs := nowMs |})
         <$> collectRunnableJobs deps tick_options nowMs jobs, st') /\
    cs_store st' = Some (reserve nowMs <$> jobs) /\
    (forall job opts later, job ∈ jobs -> isRunnableJob deps tick_options nowMs job = true ->
       isRunnableJob deps opts later (reserve nowMs job) = false) /\
    (onAdmittedTimer deps nowMs' st').1 = [] /\ jobs_of (onAdmittedTimer deps nowMs' st').2 = reserve nowMs <$> jobs /\
    cs_timer st' = Some (of_Z MAX_TIMER_DELAY_MS).
  Proof.
    intros Hopen Hst Hdue.
    destruct (onAdmittedTimer_reserves nowMs st jobs Hopen Hst Hdue) as (st' & -> & Hst' & Hrun & Hs & Hp & Hr & Ht).
    exists st'. split; [done|]. split; [done|]. split; [intros; by apply reserve_not_runnable|].
    unfold onAdmittedTimer. rewrite Hrun, Hs, Hp, Hr. cbn [orb fst snd]. split; [done|]. split; [|done].
    unfold armRunningRecheckTimer, jobs_of. rewrite Hs, Hp. cbn [orb]. cbn. by rewrite Hst'.
  Qed.

  (** A due slot makes its job runnable. *)
Lemma slot_due_runnable job nowMs : slot_due cfg job nowMs -> isRunnableJob deps tick_options nowMs job = true.
  Proof.
    intros (He & Hr & t & Ht & Hle & Hdone). unfold isRunnableJob. rewrite He, Hr. cbn [negb].
    rewrite (bool_decide_eq_false_2 (_ ∈ _)) by apply not_elem_of_nil. rewrite bool_decide_eq_false_2 by (by intros []).
    cbn [co_skipAtIfAlreadyRan tick_options andb]. unfold runnable_by_slot. rewrite Ht, Hle.
    assert (isErrorBackoffPending deps job nowMs = false) as ->; [|done].
    unfold expired_slot_done in Hdone. apply orb_false_iff in Hdone as [_ Hdone].
    unfold isErrorBackoffPending. destruct (_ || _); [done|].
    destruct (resolveJobErrorBackoffUntilMs _ _) as [b|]; [|done].
    destruct (num_lt nowMs b) eqn:Eb; [|done]. cbn [andb] in Hdone. exfalso.
    rewrite (num_le_lt_trans t nowMs b Hle Eb) in Hdone. done.
  Qed.

Lemma slot_due_later job nowMs nowMs' : slot_due cfg job nowMs -> num_le nowMs nowMs' = true ->
    slot_due cfg job nowMs'.
  Proof.
    intros (He & Hr & t & Ht & Hle & Hdone) Hlater. split; [done|]. split; [done|]. exists t. split; [done|].
    split; [by eapply num_le_trans|]. unfold expired_slot_done in *.
    apply orb_false_iff in Hdone as [Hd1 Hd2]. apply orb_false_iff. split; [done|].
    destruct (resolveJobErrorBackoffUntilMs _ _) as [b|]; [|done]. destruct (num_lt t b) eqn:Et; [|by rewrite andb_false_r].
    rewrite andb_true_r in *. apply not_true_is_false. intros Hb.
    by rewrite (num_le_lt_trans _ _ _ Hlater Hb) in Hd2.
  Qed.

  (** C35. A job whose slot has come - not executed yet and not overtaken by a
      backoff - is reserved by the next tick that may look at the store, even
      when maintenance at an earlier time [nowMs] came in between. *)
Theorem due_job_reserved_by_next_tick nowMs nowMs' recomputeExpired repairFuture w st jobs i job :
    tick_open st -> jobs !! i = Some job -> slot_due cfg job nowMs -> num_le nowMs nowMs' = true ->
    cs_store st = Some (recomputeNextRunsForMaintenance cfg recomputeExpired repairFuture nowMs w jobs).2 ->
    {| due_id := job_id job; due_reservedAtMs := nowMs' |} ∈ (onAdmittedTimer deps nowMs' st).1.
  Proof.
    intros Hopen Hi Hdue Hle Hst.
    pose proof (due_slot_survives_maintenance cfg recomputeExpired repairFuture nowMs w jobs i job Hi Hdue) as Hi'.
    set (jobs' := (recomputeNextRunsForMaintenance _ _ _ _ _ _).2) in *. clearbody jobs'.
    set (job' := job <| job_schedule := _ |>) in Hi'.
    assert (isRunnableJob deps tick_options nowMs' job' = true) as Hrun.
    { apply slot_due_runnable. apply (slot_due_later _ nowMs); [exact Hdue|done]. }
    assert (job' ∈ collectRunnableJobs deps tick_options nowMs' jobs') as Hin.
    { apply list_elem_of_In, filter_In. split; [|done]. apply list_elem_of_In. by eapply list_elem_of_lookup_2. }
    destruct (onAdmittedTimer_reserves nowMs' st jobs' Hopen Hst) as (st' & -> & _);
      [by intros E; rewrite E in Hin; apply elem_of_nil in Hin|].
    apply list_elem_of_fmap. by exists job'.
  Qed.

End reservations.

(** ** Reservations end *)

Lemma armTimer_store deps nowMs st : cs_store (armTimer deps nowMs st) = cs_store st.
Proof.
  unfold armTimer, armRunningRecheckTimer. cbv zeta. repeat first [done | case_match]; done.
Qed.

Lemma armTimer_running deps nowMs st : cs_running (armTimer deps nowMs st) = cs_running st.
Proof.
  unfold armTimer, armRunningRecheckTimer. cbv zeta. repeat first [done | case_match]; done.
Qed.


(** What identifies the holder of a running marker. *)
Definition marker (job : CronJob) : jstr * option num := (job_id job, runningAtMs (job_state job)).

(** Maintenance keeps a marker or takes it away. *)
Definition marker_kept (job job' : CronJob) : Prop :=
  job_id job' = job_id job /\
  (runningAtMs (job_state job') = None \/ runningAtMs (job_state job') = runningAtMs (job_state job)).

Lemma marker_kept_same job job' : marker job' = marker job -> marker_kept job job'.
Proof. intros [= E1 E2]. split; [done|by right]. Qed.

Lemma marker_kept_trans a b c : marker_kept a b -> marker_kept b c -> marker_kept a c.
Proof. intros [E1 H1] [E2 H2]. split; [congruence|]. destruct H2 as [->| ->]; auto. Qed.

Section markers.
  Context `{CronEngine} (deps : CronServiceDeps) (resolveFailoverReason : jstr -> option jstr).
  Abbreviation cfg := (dep_cronConfig deps).

Lemma recompute_marker job nowMs : marker (recomputeJobNextRunAtMs cfg job nowMs).1.1 = marker job.
  Proof.
    unfold recomputeJobNextRunAtMs. destruct (computeJobNextRunAtMs job nowMs) as [next|err].
    - cbv zeta. cbn [fst]. destruct (negb (opt_num_eqb _ _)), (negb (_ =? _)); done.
    - pose proof (recordScheduleComputeError_kept job err) as E.
      destruct (recordScheduleComputeError job err) as [job' ns]. cbn [fst] in *.
      injection E as E1 E2 _ _. unfold marker. by rewrite E1, E2.
  Qed.

Lemma maintain_job_marker rec rep nowMs w job : marker (maintain_job cfg rec rep nowMs w job).2 = marker job.
  Proof.
    unfold maintain_job. cbv zeta.
    assert (forall w, marker (recompute_in_walk cfg nowMs w job).2 = marker job) as Hr.
    { intros w'. unfold recompute_in_walk. pose proof (recompute_marker job nowMs) as E.
      by destruct (recomputeJobNextRunAtMs cfg job nowMs) as [[job' c] ns]. }
    destruct (hasScheduledNextRunAtMs _); [|apply Hr]. destruct (_ && _ && shouldRepairFutureCronNextRunAtMs _ _ _); [apply Hr|].
    destruct (_ && _ && _ && _); [apply Hr|done].
  Qed.

Lemma normalize_marker job nowMs : marker_kept job (normalizeJobTickState job nowMs).1.
  Proof.
    unfold normalizeJobTickState. destruct (anchored_schedule job nowMs) as [schedule changed].
    cbv zeta. destruct (negb _); [split; [done|by left]|]. destruct (_ && _).
    all: match goal with |- context [if ?b then _ else _] => destruct b end;
      [split; [done|by left]|split; [done|by right]].
  Qed.

Lemma walk_markers fn nowMs w jobs : (forall w job, marker (fn w job).2 = marker job) ->
    Forall2 marker_kept jobs (walkSchedulableJobs fn nowMs w jobs).2.
  Proof.
    intros Hfn. revert w. induction jobs as [|job jobs IH]; intros w; [constructor|]. rewrite walk_cons.
    assert (marker_kept job (walk_one fn nowMs w job).2) as Hjob.
    { unfold walk_one. pose proof (normalize_marker job nowMs) as Hn.
      destruct (normalizeJobTickState job nowMs) as [job' tick]. cbn [fst] in Hn.
      destruct (tick_skip tick); [done|]. eapply marker_kept_trans; [done|]. by apply marker_kept_same. }
    destruct (walk_one fn nowMs w job) as [w' job']. specialize (IH w').
    destruct (walkSchedulableJobs fn nowMs w' jobs) as [w'' jobs']. by constructor.
  Qed.

Lemma maintain_markers rec rep nowMs st :
    match cs_store st, cs_store (maintain deps rec rep nowMs st).2 with
    | Some jobs, Some jobs' => Forall2 marker_kept jobs jobs'
    | None, None => True
    | _, _ => False
    end.
  Proof.
    unfold maintain. destruct (cs_store st) as [jobs|] eqn:E; [|by cbn; rewrite E].
    unfold recomputeNextRunsForMaintenance.
    match goal with |- context [walkSchedulableJobs ?f ?n ?w ?js] =>
      pose proof (walk_markers f n w js (maintain_job_marker rec rep nowMs)) as Hw;
      destruct (walkSchedulableJobs f n w js) as [w' jobs'] end. done.
  Qed.

  (** ** Who holds a marker *)

  (** A marker is that of an older run, or of a pending reservation at [nowMs]. *)
Definition accounted (jobs0 : list CronJob) (pending : list jstr) (nowMs : num) (job : CronJob) : Prop :=
    runningAtMs (job_state job) = None \/ marker job ∈ marker <$> jobs0 \/
    (job_id job ∈ pending /\ runningAtMs (job_state job) = Some nowMs).

Definition all_accounted (jobs0 : list CronJob) (pending : list jstr) (nowMs : num) (jobs : list CronJob) : Prop :=
    NoDup (job_id <$> jobs) /\ Forall (accounted jobs0 pending nowMs) jobs.

Lemma kept_ids jobs jobs' : Forall2 marker_kept jobs jobs' -> job_id <$> jobs' = job_id <$> jobs.
  Proof. induction 1 as [|j j' js js' [E _]]; [done|]. rewrite !fmap_cons. congruence. Qed.

Lemma accounted_kept jobs0 pending nowMs jobs jobs' : Forall2 marker_kept jobs jobs' ->
    all_accounted jobs0 pending nowMs jobs -> all_accounted jobs0 pending nowMs jobs'.
  Proof.
    intros Hk [Hnd Hall]. split; [by rewrite (kept_ids _ _ Hk)|]. clear Hnd.
    induction Hk as [|j j' js js' [Eid Hr] _ IH]; [done|].
    apply Forall_cons in Hall as [Hj Hall]. constructor; [|by apply IH].
    destruct Hr as [Hr|Hr]; [by left|]. unfold accounted, marker in *. by rewrite Eid, Hr.
  Qed.

  (** A job is updated, or removed, and no other job has its id. *)
Lemma update_job_forall (P Q : CronJob -> Prop) id f jobs :
    NoDup (job_id <$> jobs) -> Forall P jobs ->
    (forall j, P j -> job_id j <> id -> Q j) ->
    (forall j j', P j -> job_id j = id -> f j = Some j' -> Q j' /\ job_id j' = id) ->
    NoDup (job_id <$> update_job id f jobs) /\ Forall Q (update_job id f jobs) /\
    (forall x, x ∈ job_id <$> update_job id f jobs -> x ∈ job_id <$> jobs).
  Proof.
    intros Hnd Hall Hother Hsame. induction jobs as [|j jobs IH]; [by split_and!|].
    rewrite fmap_cons, NoDup_cons in Hnd. destruct Hnd as [Hni Hnd]. apply Forall_cons in Hall as [Hj Hall].
    cbn [update_job]. case_bool_decide as Eid.
    - assert (Forall Q jobs) as HQ.
      { apply Forall_forall. intros x Hx. rewrite Forall_forall in Hall. apply Hother; [by apply Hall|].
        intros Ex. apply Hni. rewrite Eid, <- Ex. by apply list_elem_of_fmap_2. }
      destruct (f j) as [j'|] eqn:Ef.
      + destruct (Hsame _ _ Hj Eid Ef) as [HQj Eid']. rewrite !fmap_cons, Eid', <- Eid.
        split_and!; [by constructor|by constructor|done].
      + split_and!; [done|done|]. intros x Hx. rewrite fmap_cons. by right.
    - destruct (IH Hnd Hall) as (H1 & H2 & H3). rewrite !fmap_cons. split_and!.
      + constructor; [|done]. intros Hin. by apply Hni, H3.
      + constructor; [by apply Hother|done].
      + intros x [->|Hx]%elem_of_cons; [by left|right; auto].
  Qed.

Lemma accounted_weaken jobs0 pending nowMs id job :
    accounted jobs0 pending nowMs job -> job_id job <> id ->
    accounted jobs0 (List.filter (fun x => negb (bool_decide (x = id))) pending) nowMs job.
  Proof.
    intros [Hr|[Hr|[Hin Hr]]] Hne; [by left|by right; left|]. right. right. split; [|done].
    apply list_elem_of_In, filter_In. rewrite <- list_elem_of_In. split; [done|]. by rewrite bool_decide_eq_false_2.
  Qed.

  (** An update of the job [id] that ends its run settles the reservation. *)
Lemma update_settles jobs0 pending nowMs id f jobs :
    (forall j j', job_id j = id -> f j = Some j' -> job_id j' = id /\ runningAtMs (job_state j') = None) ->
    all_accounted jobs0 pending nowMs jobs ->
    all_accounted jobs0 (List.filter (fun x => negb (bool_decide (x = id))) pending) nowMs (update_job id f jobs).
  Proof.
    intros Hf [Hnd Hall].
    destruct (update_job_forall (accounted jobs0 pending nowMs)
      (accounted jobs0 (List.filter (fun x => negb (bool_decide (x = id))) pending) nowMs) id f jobs Hnd Hall)
      as (H1 & H2 & _); [by intros; apply accounted_weaken| |by split].
    intros j j' _ Eid Ef. destruct (Hf _ _ Eid Ef) as [Eid' Hr]. split; [by left|done].
  Qed.

  (** Nothing to settle when the first job [id] does not hold the reservation. *)
Lemma unheld_settles jobs0 pending nowMs id jobs :
    (forall job, job ∈ jobs -> job_id job = id -> runningAtMs (job_state job) <> Some nowMs) ->
    all_accounted jobs0 pending nowMs jobs ->
    all_accounted jobs0 (List.filter (fun x => negb (bool_decide (x = id))) pending) nowMs jobs.
  Proof.
    intros Hun [Hnd Hall]. split; [done|]. rewrite Forall_forall in Hall |- *. intros job Hj.
    destruct (decide (job_id job = id)) as [Eid|Hne]; [|by apply accounted_weaken; [apply Hall|]].
    destruct (Hall job Hj) as [Hr|[Hr|[_ Hr]]]; [by left|by right; left|]. by destruct (Hun job Hj Eid).
  Qed.

Lemma filter_settles jobs0 pending nowMs id jobs : all_accounted jobs0 pending nowMs jobs ->
    all_accounted jobs0 (List.filter (fun x => negb (bool_decide (x = id))) pending) nowMs
      (List.filter (fun j => negb (bool_decide (job_id j = id))) jobs).
  Proof.
    intros [Hnd Hall]. induction jobs as [|j jobs IH]; [by split|].
    rewrite fmap_cons, NoDup_cons in Hnd. destruct Hnd as [Hni Hnd]. apply Forall_cons in Hall as [Hj Hall].
    destruct (IH Hnd Hall) as [H1 H2]. cbn [List.filter]. case_bool_decide as Eid; cbn [negb]; [by split|].
    split; [|constructor; [by apply accounted_weaken|done]]. rewrite fmap_cons. constructor; [|done].
    intros (j' & Ej & [Hj' _]%list_elem_of_In%filter_In)%list_elem_of_fmap. apply Hni. rewrite Ej.
    apply list_elem_of_fmap_2. by apply list_elem_of_In.
  Qed.

Lemma find_first_unique id jobs job : NoDup (job_id <$> jobs) -> job ∈ jobs -> job_id job = id ->
    find_first (fun j => bool_decide (job_id j = id)) jobs = Some job.
  Proof.
    intros Hnd Hin Eid. induction jobs as [|j jobs IH]; [by apply elem_of_nil in Hin|].
    rewrite fmap_cons, NoDup_cons in Hnd. destruct Hnd as [Hni Hnd]. cbn [find_first].
    apply elem_of_cons in Hin as [->|Hin]; [by rewrite bool_decide_eq_true_2|].
    rewrite bool_decide_eq_false_2; [by apply IH|]. intros Ej. apply Hni. rewrite Ej, <- Eid.
    by apply list_elem_of_fmap_2.
  Qed.

Definition settled (ids pending : list jstr) : list jstr :=
    foldl (fun pending id => List.filter (fun x => negb (bool_decide (x = id))) pending) pending ids.

Lemma settled_elem ids pending x : x ∈ settled ids pending <-> x ∈ pending /\ x ∉ ids.
  Proof.
    unfold settled. revert pending. induction ids as [|id ids IH]; intros pending; cbn [foldl]; [set_solver|].
    rewrite IH, !list_elem_of_In, filter_In, <- !list_elem_of_In, negb_true_iff, bool_decide_eq_false. set_solver.
  Qed.

Lemma release_settles jobs0 nowMs dues jobs pending : nowMs <> NaN ->
    Forall (fun d => due_reservedAtMs d = nowMs) dues ->
    all_accounted jobs0 pending nowMs jobs ->
    all_accounted jobs0 (settled (due_id <$> dues) pending) nowMs (release_reservations dues jobs).2.
  Proof.
    intros Hnan Hd. revert jobs pending. induction dues as [|d dues IH]; intros jobs pending Ha; [done|].
    apply Forall_cons in Hd as [Ed Hd]. cbn [release_reservations]. cbv zeta.
    set (held := match find_first _ _ with Some _ => _ | None => _ end).
    assert (all_accounted jobs0 (List.filter (fun x => negb (bool_decide (x = due_id d))) pending) nowMs
      (if held then update_job (due_id d) (fun job => Some (set_runningAtMs None job)) jobs else jobs)) as Ha'.
    { destruct held eqn:Eh.
      - apply update_settles; [|done]. by intros j j' Eid [= <-].
      - apply unheld_settles; [|done]. intros job Hj Eid Hr. unfold held in Eh.
        rewrite (find_first_unique _ _ _ (proj1 Ha) Hj Eid), Hr, Ed in Eh. cbn in Eh.
        destruct nowMs as [|[]|q]; try done. cbn in Eh. by rewrite (proj2 (Qeq_bool_iff q q) (Qeq_refl q)) in Eh. }
    specialize (IH Hd _ _ Ha'). by destruct (release_reservations dues _).
  Qed.

Lemma drop_deferral_store id st : cs_store (drop_deferral id st) = cs_store st.
  Proof. done. Qed.

Lemma applyJobResult_marker result nowMs job :
    job_id (applyJobResult cfg resolveFailoverReason result no_options nowMs job).1.2 = job_id job /\
    runningAtMs (job_state (applyJobResult cfg resolveFailoverReason result no_options nowMs job).1.2) = None.
  Proof.
    pose proof (applyJobResult_kept cfg resolveFailoverReason result no_options nowMs job) as E.
    by injection E as E1 E2 _ _.
  Qed.

Lemma trigger_run_marker result job : marker (applyTriggerRunResult result job) = marker job.
  Proof.
    unfold applyTriggerRunResult. destruct (out_triggerEval result) as [te|]; [|done]. cbv zeta.
    assert (forall te, marker (applyTriggerEvaluationState te (out_endedAt result) job) = marker job) as Hm.
    { intros te'. unfold applyTriggerEvaluationState. by destruct (te_busy te'). }
    destruct (_ && _ && _); [|apply Hm]. unfold disable_one_shot. exact (Hm _).
  Qed.

Lemma no_fire_marker result te job : marker (applyTriggerNoFireResult cfg result te job).1 = (job_id job, None).
  Proof.
    unfold applyTriggerNoFireResult. cbv zeta.
    match goal with |- context [computeJobNextRunAtMs ?j _] => set (job' := j) end.
    assert (marker job' = (job_id job, None)) as Hm.
    { unfold job', applyTriggerEvaluationState. by destruct (te_busy te). }
    clearbody job'. destruct (computeJobNextRunAtMs job' _) as [next|err]; [exact Hm|].
    pose proof (recordScheduleComputeError_kept job' err) as E. injection E as E1 E2 _ _.
    rewrite <- Hm. unfold marker. by rewrite E1, E2.
  Qed.

  (** The result of a run reaches its job and ends its reservation. *)
Lemma outcome_settles jobs0 pending nowMs outcome t st jobs :
    cs_store st = Some jobs -> all_accounted jobs0 pending nowMs jobs ->
    exists jobs', cs_store (applyOutcomeToStoredJob deps resolveFailoverReason outcome t st) = Some jobs' /\
      all_accounted jobs0 (List.filter (fun x => negb (bool_decide (x = to_jobId outcome))) pending) nowMs jobs'.
  Proof.
    intros Hst Ha. unfold applyOutcomeToStoredJob. rewrite Hst.
    set (id := to_jobId outcome). set (result := to_result outcome).
    destruct (find_first _ jobs) as [job|] eqn:Ef.
    2:{ exists jobs. split.
        { destruct (out_status result); [|done..]. destruct (applyJobResult _ _ _ _ _ _) as [[? ?] ?].
          destruct (out_triggerEval result) as [[[] ? ? ?]|]; done. }
        apply unheld_settles; [|done]. intros job Hj Eid.
        rewrite find_first_None, Forall_forall in Ef. specialize (Ef job Hj). cbv beta in Ef.
        by rewrite bool_decide_eq_true_2 in Ef. }
    apply find_first_elem in Ef as [_ Eid%bool_decide_eq_true].
    destruct (applyJobResult_marker result t job) as [E1 E2].
    assert (exists jobs', cs_store (let '(shouldDelete, job, notices) :=
                  applyJobResult cfg resolveFailoverReason result no_options t job in
                let job := applyTriggerRunResult result job in
                let jobs := if shouldDelete
                            then List.filter (fun j => negb (bool_decide (job_id j = id))) jobs
                            else update_job id (fun _ => Some job) jobs in
                drop_deferral id (st <| cs_store := Some jobs |> <| cs_notices := cs_notices st ++ notices |>)) = Some jobs' /\
      all_accounted jobs0 (List.filter (fun x => negb (bool_decide (x = id))) pending) nowMs jobs') as Hrun.
    { destruct (applyJobResult _ _ _ _ _ _) as [[del job'] ns]. cbn [fst snd] in *. cbv zeta.
      eexists. split; [done|]. destruct del.
      - apply filter_settles. done.
      - apply update_settles; [|done]. intros j j' _ [= <-].
        pose proof (trigger_run_marker result job') as [= -> ->]. by rewrite E1. }
    destruct (out_status result); [|done..]. destruct (out_triggerEval result) as [[[] ? ? ?]|]; [done| |done].
    set (te := Build_CronTriggerEvalOutcome _ _ _ _).
    pose proof (no_fire_marker result te job) as Hm. destruct (applyTriggerNoFireResult _ _ _ _) as [job' ns].
    eexists. split; [done|]. apply update_settles; [|done]. intros j j' _ [= <-]. injection Hm as -> ->. by rewrite Eid.
  Qed.

  (** The store of the service, accounted for. *)
Definition store_accounted (jobs0 : list CronJob) (pending : list jstr) (nowMs : num) (st : CronServiceState) : Prop :=
    exists jobs, cs_store st = Some jobs /\ all_accounted jobs0 pending nowMs jobs.

Lemma maintain_accounted jobs0 pending nowMs rec rep t st : store_accounted jobs0 pending nowMs st ->
    store_accounted jobs0 pending nowMs (maintain deps rec rep t st).2.
  Proof.
    intros (jobs & Hst & Ha). pose proof (maintain_markers rec rep t st) as Hm. rewrite Hst in Hm.
    destruct (cs_store (maintain deps rec rep t st).2) as [jobs'|] eqn:E; [|done].
    exists jobs'. split; [done|]. by eapply accounted_kept.
  Qed.

Lemma release_accounted jobs0 pending nowMs dues t st : nowMs <> NaN ->
    Forall (fun d => due_reservedAtMs d = nowMs) dues -> store_accounted jobs0 pending nowMs st ->
    store_accounted jobs0 (settled (due_id <$> dues) pending) nowMs (releaseUnclaimedDueJobReservations deps dues t st).
  Proof.
    intros Hnan Hd (jobs & Hst & Ha). unfold releaseUnclaimedDueJobReservations.
    destruct dues as [|d dues]; [by exists jobs|]. apply maintain_accounted.
    eexists. split; [cbn [cs_store]; by rewrite Hst|]. by apply release_settles.
  Qed.

Lemma outcomes_accounted jobs0 pending nowMs outcomes t st : store_accounted jobs0 pending nowMs st ->
    store_accounted jobs0 (settled (to_jobId <$> outcomes) pending) nowMs
      (apply_outcomes deps resolveFailoverReason outcomes t st).
  Proof.
    revert pending st. induction outcomes as [|o outcomes IH]; intros pending st Ha; [done|].
    unfold apply_outcomes. cbn [foldl]. rewrite fmap_cons. apply IH. destruct Ha as (jobs & Hst & Ha).
    destruct (outcome_settles _ _ _ o t st jobs Hst Ha) as (jobs' & Hst' & Ha'). by exists jobs'.
  Qed.

  (** The results that are applied: their markers were current at both looks. *)
Definition surviving (active : ActiveMoments) (results : list TimedCronRunOutcome) : list TimedCronRunOutcome :=
    filterCurrentCronRunOutcomes (when_locked active) (filterCurrentCronRunOutcomes (when_completed active) results).

Definition retired_run (active : ActiveMoments) (r : TimedCronRunOutcome) : Prop :=
    isCronActiveJobMarkerCurrent (to_activeJobMarker r) (when_completed active) = false \/
    isCronActiveJobMarkerCurrent (to_activeJobMarker r) (when_locked active) = false.

Lemma surviving_elem active results r : r ∈ surviving active results <-> r ∈ results /\ ~ retired_run active r.
  Proof.
    unfold surviving, filterCurrentCronRunOutcomes, retired_run.
    rewrite !list_elem_of_In, !filter_In, <- list_elem_of_In.
    destruct (isCronActiveJobMarkerCurrent _ (when_completed active)), (isCronActiveJobMarkerCurrent _ (when_locked active));
      naive_solver.
  Qed.

Lemma finalize_cases persisted clearOnFailure active results t st :
    let '(finalized, st', _) :=
      finalizeCompletedResults deps resolveFailoverReason persisted clearOnFailure active results t st in
    (finalized = Some [] /\ surviving active results = [] /\ st' = st) \/
    (persisted = true /\ finalized = Some (surviving active results) /\ surviving active results <> [] /\
     st' = (maintain deps false true t (apply_outcomes deps resolveFailoverReason (surviving active results) t st)).2) \/
    (persisted = false /\ finalized = None /\ cs_store st' = cs_store st /\ cs_deferrals st' = cs_deferrals st).
  Proof.
    unfold finalizeCompletedResults, surviving. destruct results as [|r rs]; [by left|].
    destruct (filterCurrentCronRunOutcomes (when_completed active) (r :: rs)) as [|c cs]; [by left|].
    destruct (filterCurrentCronRunOutcomes (when_locked active) (c :: cs)) as [|f fs]; [by left|].
    destruct persisted; cbn [persistOrRestore]; [right; left; by split_and!|by right; right].
  Qed.

Lemma reserve_marker nowMs job : job_id (reserve deps nowMs job) = job_id job.
  Proof. unfold reserve. by destruct (isRunnableJob _ _ _ _). Qed.

Lemma reserved_accounted nowMs jobs : NoDup (job_id <$> jobs) ->
    all_accounted jobs (job_id <$> collectRunnableJobs deps tick_options nowMs jobs) nowMs (reserve deps nowMs <$> jobs).
  Proof.
    intros Hnd. split.
    - rewrite <- list_fmap_compose. erewrite list_fmap_ext; [exact Hnd|]. intros i job _. apply reserve_marker.
    - apply Forall_forall. intros x (job & -> & Hj)%list_elem_of_fmap. unfold accounted.
      rewrite reserve_marker. unfold reserve. destruct (isRunnableJob deps tick_options nowMs job) eqn:Er.
      + right. right. split; [|done]. apply list_elem_of_fmap_2. apply list_elem_of_In, filter_In.
        by rewrite <- list_elem_of_In.
      + right. left. by apply list_elem_of_fmap_2.
  Qed.

  (** A tick reserves its due jobs, and nothing else is marked. *)
Lemma tick_accounted nowMs st jobs : tick_open st -> cs_store st = Some jobs -> NoDup (job_id <$> jobs) ->
    exists dues st1, onAdmittedTimer deps nowMs st = (dues, st1) /\
      Forall (fun d => due_reservedAtMs d = nowMs) dues /\ store_accounted jobs (due_id <$> dues) nowMs st1.
  Proof.
    intros Hopen Hst Hnd.
    destruct (decide (collectRunnableJobs deps tick_options nowMs jobs = [])) as [Enil|Hdue].
    - destruct (onAdmittedTimer_open deps nowMs st Hopen) as (st1 & -> & Hst1 & _ & Hs1 & _ & Hr1 & _).
      unfold reserveDueJobs. rewrite Hs1, Hr1, Hst1, Hst, Enil. cbn [orb]. eexists [], _. split; [done|].
      split; [done|]. apply maintain_accounted. exists jobs. rewrite Hst1. split; [done|]. split; [done|].
      apply Forall_forall. intros job Hj. right. left. by apply list_elem_of_fmap_2.
    - destruct (onAdmittedTimer_reserves deps nowMs st jobs Hopen Hst Hdue) as (st1 & -> & Hst1 & _).
      eexists _, st1. split; [done|]. split; [apply Forall_fmap, Forall_true; done|].
      exists (reserve deps nowMs <$> jobs). split; [done|].
      rewrite <- list_fmap_compose. by apply reserved_accounted.
  Qed.

  (** No marker of a run is left but those of retired runs. *)
Definition only_retired_marked (jobs0 : list CronJob) (active : ActiveMoments) (results : list TimedCronRunOutcome)
      (job : CronJob) : Prop :=
    runningAtMs (job_state job) = None \/ marker job ∈ marker <$> jobs0 \/
    (job_id job ∈ to_jobId <$> results /\ forall r, r ∈ results -> to_jobId r = job_id job -> retired_run active r).

  (** When the reserved jobs that have no result were handed back. *)
Lemma accounted_retired jobs0 active results dues nowMs job :
    accounted jobs0 (settled (to_jobId <$> surviving active results)
      (settled (due_id <$> List.filter (fun d => negb (bool_decide (due_id d ∈ to_jobId <$> results))) dues)
         (due_id <$> dues))) nowMs job ->
    only_retired_marked jobs0 active results job.
  Proof.
    intros [Hr|[Hr|[Hin _]]]; [by left|by right; left|]. right. right.
    rewrite !settled_elem in Hin. destruct Hin as [[Hin Hnu] Hnr].
    apply list_elem_of_fmap in Hin as (d & Ed & Hin). split.
    - destruct (decide (job_id job ∈ to_jobId <$> results)) as [|Hni]; [done|]. exfalso. apply Hnu. rewrite Ed.
      apply list_elem_of_fmap_2. apply list_elem_of_In, filter_In. rewrite <- list_elem_of_In. split; [done|].
      rewrite <- Ed. by rewrite bool_decide_eq_false_2.
    - intros r Hr Eid. assert (r ∉ surviving active results) as Hs.
      { intros Hs. destruct Hnr. rewrite <- Eid. by apply list_elem_of_fmap_2. }
      rewrite surviving_elem in Hs. unfold retired_run in *.
      destruct (isCronActiveJobMarkerCurrent _ (when_completed active)); [|by left].
      destruct (isCronActiveJobMarkerCurrent _ (when_locked active)); [|by right]. naive_solver.
  Qed.

  (** C31. A tick that may look at the store, whose jobs have distinct ids, leaves no
      reservation of a live run behind: every reserved job is either run, with one result or several in any order, or handed back, and
      then each running marker of the store is one that was there before the tick,
      or that of a job all of whose results came with a retired marker.  Exactly
      those results are thrown away; when no other is left, or when the write of
      the store fails, the store is what it was before the results.  In each case
      the service is ready for the next tick. *)
Theorem no_reservation_leaks nowMs t1 t2 t3 persisted clearOnFailure active results st jobs :
    tick_open st -> cs_store st = Some jobs -> NoDup (job_id <$> jobs) -> nowMs <> NaN ->
    let '(dues, st1) := onAdmittedTimer deps nowMs st in
    let unclaimed := List.filter (fun d => negb (bool_decide (due_id d ∈ to_jobId <$> results))) dues in
    let st2 := releaseUnclaimedDueJobReservations deps unclaimed t1 st1 in
    let '(finalized, st3, _) :=
      finalizeCompletedResults deps resolveFailoverReason persisted clearOnFailure active results t2 st2 in
    cs_running (finishTick deps t3 st3) = false /\
    match finalized with
    | Some applied =>
        applied = surviving active results /\ (applied = [] -> jobs_of (finishTick deps t3 st3) = jobs_of st2) /\
        forall job, job ∈ jobs_of (finishTick deps t3 st3) -> only_retired_marked jobs active results job
    | None => persisted = false /\ jobs_of (finishTick deps t3 st3) = jobs_of st2
    end.
  Proof.
    intros Hopen Hst Hnd Hnan. destruct (tick_accounted nowMs st jobs Hopen Hst Hnd) as (dues & st1 & -> & Hd & Ha1).
    set (unclaimed := List.filter _ dues). cbv zeta.
    assert (Forall (fun d => due_reservedAtMs d = nowMs) unclaimed) as Hu.
    { apply Forall_forall. intros d [Hin _]%list_elem_of_In%filter_In. rewrite Forall_forall in Hd.
      apply Hd. by apply list_elem_of_In. }
    pose proof (release_accounted _ _ _ _ t1 _ Hnan Hu Ha1) as Ha2.
    set (st2 := releaseUnclaimedDueJobReservations _ _ _ _) in *.
    pose proof (finalize_cases persisted clearOnFailure active results t2 st2) as Hf.
    destruct (finalizeCompletedResults _ _ _ _ _ _ _ _) as [[finalized st3] active'].
    split; [apply armTimer_running|].
    assert (jobs_of (finishTick deps t3 st3) = jobs_of st3) as ->.
    { unfold jobs_of, finishTick. by rewrite armTimer_store. }
    assert (finalized = None \/ (finalized = Some (surviving active results) /\
      (surviving active results = [] -> st3 = st2) /\ store_accounted jobs (settled (to_jobId <$> surviving active results) (settled (due_id <$> unclaimed) (due_id <$> dues)))
        nowMs st3)) as [->|(-> & Hsame & jobs3 & Hst3 & _ & Hall)].
    { destruct Hf as [(-> & E & ->)|[(-> & -> & Hne & ->)|(-> & -> & _)]]; [right; by rewrite E| |by left].
      right. split; [done|]. split; [done|]. by apply maintain_accounted, outcomes_accounted. }
    - destruct Hf as [(? & _)|[(_ & ? & _)|(-> & _ & E & _)]]; [done..|]. unfold jobs_of. by rewrite E.
    - split; [done|]. split; [by intros ->%Hsame|].
      intros job. unfold jobs_of. rewrite Hst3. rewrite Forall_forall in Hall. intros Hj.
      by eapply accounted_retired, Hall.
  Qed.

End markers.

(** ** Missed jobs *)

Section startup.
  Context `{CronEngine} (deps : CronServiceDeps).
  Abbreviation cfg := (dep_cronConfig deps).

Lemma insert_by_next_perm job jobs : insert_by_next job jobs ≡ₚ job :: jobs.
  Proof.
    induction jobs as [|j js IH]; [done|]. cbn [insert_by_next]. destruct (num_lt _ _); [|done].
    rewrite IH. apply Permutation_swap.
  Qed.

Lemma sort_by_next_perm jobs : sort_by_next jobs ≡ₚ jobs.
  Proof.
    induction jobs as [|j js IH]; [done|]. unfold sort_by_next in *. cbn [foldr].
    by rewrite insert_by_next_perm, IH.
  Qed.

  (** The jobs that catching up takes for missed. *)
Definition missed_jobs (skipJobIds : list jstr) (nowMs : num) (jobs : list CronJob) : list CronJob :=
    collectRunnableJobs deps {| co_skipJobIds := skipJobIds; co_skipAtIfAlreadyRan := true;
                                co_allowCronMissedRunByLastRun := true |} nowMs
      ((fun job => (defer_backoff_slot deps skipJobIds nowMs job).1) <$> jobs).

Definition max_immediate : nat :=
    Z.to_nat (Z.max 0 (default DEFAULT_MAX_MISSED_JOBS_PER_RESTART (dep_maxMissedJobsPerRestart deps))).

  (** A job that waits for the startup delay. *)
Definition late (d : StartupDeferredJob) : bool := bool_decide (is_Some (sd_delayMs d)).

  (** After a restart every missed job is planned exactly once: at most
      [maxMissedJobsPerRestart] of them run at once and are reserved, the others
      are deferred; nothing is deferred for lack of room while there is room, and
      when agent turns are to wait, exactly they get the startup delay. *)
Theorem startup_plans_every_missed_job skipJobIds deferAgents nowMs st jobs :
    cs_stopped st = false -> cs_store st = Some jobs ->
    let '(plan, st') := planStartupCatchup deps skipJobIds deferAgents nowMs st in
    let missed := missed_jobs skipJobIds nowMs jobs in
    (due_id <$> sp_candidates plan) ++ (sd_jobId <$> sp_deferredJobs plan) ≡ₚ job_id <$> missed /\
    (length (sp_candidates plan) <= max_immediate)%nat /\
    (length (sp_candidates plan) < max_immediate ->
       List.filter (fun d => negb (late d)) (sp_deferredJobs plan) = [])%nat /\
    sd_jobId <$> List.filter late (sp_deferredJobs plan) ≡ₚ
      (if deferAgents then job_id <$> List.filter is_agent_turn missed else []) /\
    (forall job', job' ∈ jobs_of st' -> job_id job' ∈ due_id <$> sp_candidates plan ->
       runningAtMs (job_state job') = Some nowMs).
  Proof.
    intros Hs Hst. unfold planStartupCatchup. rewrite Hs, Hst. cbv zeta.
    change (collectRunnableJobs deps _ nowMs _) with (missed_jobs skipJobIds nowMs jobs).
    set (missed := missed_jobs skipJobIds nowMs jobs).
    pose proof (sort_by_next_perm missed) as Hsort. set (sorted := sort_by_next missed) in *.
    fold max_immediate. cbn [sp_candidates sp_deferredJobs].
    assert (startup_eligible deferAgents sorted ++ deferred_agents deferAgents sorted ≡ₚ missed) as Hsplit.
    { rewrite <- Hsort. destruct deferAgents; [apply filter_split_perm|by rewrite app_nil_r]. }
    assert (job_id <$> deferred_agents deferAgents sorted ≡ₚ
      if deferAgents then job_id <$> List.filter is_agent_turn missed else []) as Hagents.
    { destruct deferAgents; [|done]. by apply fmap_Permutation, filter_perm. }
    clearbody sorted. set (eligible := startup_eligible deferAgents sorted) in *. clearbody eligible.
    set (agents := deferred_agents deferAgents sorted) in *. clearbody agents.
    rewrite !List.filter_app.
    rewrite (filter_fmap_none late) by done.
    rewrite (filter_fmap_all late) by done.
    rewrite (filter_fmap_none (fun d => negb (late d)) (fun j => {| sd_jobId := job_id j; sd_delayMs := Some _ |})) by done.
    rewrite app_nil_r, app_nil_l.
    rewrite !fmap_app, <- !list_fmap_compose, length_fmap, length_take. unfold compose. cbn [due_id sd_jobId].
    split_and!.
    - rewrite app_assoc, <- fmap_app, take_drop, <- fmap_app. by apply fmap_Permutation.
    - lia.
    - intros Hlt. rewrite drop_ge by lia. done.
    - exact Hagents.
    - intros job' Hin Hid. cbn [jobs_of cs_store default from_option id] in Hin.
      apply list_elem_of_fmap in Hin as (job & -> & _).
      revert Hid. generalize (defer_backoff_slot deps skipJobIds nowMs job).1 as job0. intros job0.
      case_bool_decide as E; [done|]. intros Hid. by destruct E.
  Qed.

End startup.

(** ** Catching up leaves no reservation *)

Section catchup.
  Context `{CronEngine} (deps : CronServiceDeps) (resolveFailoverReason : jstr -> option jstr).
  Abbreviation cfg := (dep_cronConfig deps).

Lemma defer_backoff_slot_marker skipJobIds nowMs job : marker (defer_backoff_slot deps skipJobIds nowMs job).1 = marker job.
  Proof.
    unfold defer_backoff_slot. destruct (_ || _ || _ || _); [done|]. destruct (resolveJobErrorBackoffUntilMs _ _); [|done].
    destruct (num_le _ _); [done|]. destruct (computeJobPreviousRunAtMs _ _) as [previous|]; [|done].
    destruct (isFiniteTimestamp previous), (isFiniteTimestamp (lastRunAtMs (job_state job))); try done.
    destruct (num_le _ _); [done|]. by destruct (opt_num_eqb _ _).
  Qed.

  (** The plan reserves its candidates, and nothing else is marked. *)
Lemma plan_accounted skipJobIds deferAgents nowMs st jobs :
    cs_stopped st = false -> cs_store st = Some jobs -> NoDup (job_id <$> jobs) ->
    let '(plan, st') := planStartupCatchup deps skipJobIds deferAgents nowMs st in
    Forall (fun d => due_reservedAtMs d = nowMs) (sp_candidates plan) /\ cs_stopped st' = false /\
    store_accounted jobs (due_id <$> sp_candidates plan) nowMs st'.
  Proof.
    intros Hs Hst Hnd. unfold planStartupCatchup. rewrite Hs, Hst. cbv zeta. cbn [sp_candidates].
    set (candidates := take _ _). clearbody candidates. split; [by apply Forall_fmap, Forall_true|].
    split; [done|]. eexists. split; [done|]. split.
    - rewrite <- !list_fmap_compose. erewrite list_fmap_ext; [exact Hnd|]. intros i job _. cbn.
      pose proof (defer_backoff_slot_marker skipJobIds nowMs job) as [= E _].
      by destruct (bool_decide (job_id _ ∈ _)).
    - apply Forall_forall. intros x (job1 & -> & (job & -> & Hj)%list_elem_of_fmap)%list_elem_of_fmap.
      pose proof (defer_backoff_slot_marker skipJobIds nowMs job) as Hm.
      destruct (bool_decide (job_id (defer_backoff_slot _ _ _ _).1 ∈ _)) eqn:E.
      + right. right. apply bool_decide_eq_true in E. split; [|done]. rewrite <- list_fmap_compose. exact E.
      + right. left. rewrite Hm. by apply list_elem_of_fmap_2.
  Qed.

Lemma update_job_kept id f jobs : (forall j j', f j = Some j' -> marker_kept j j') -> (forall j, is_Some (f j)) ->
    Forall2 marker_kept jobs (update_job id f jobs).
  Proof.
    intros Hf Hsome. assert (forall js, Forall2 marker_kept js js) as Hrefl.
    { induction js; constructor; [by apply marker_kept_same|done]. }
    induction jobs as [|j jobs IH]; [constructor|]. cbn [update_job]. case_bool_decide.
    - destruct (f j) as [j'|] eqn:E; [by constructor; [apply Hf|]|]. destruct (Hsome j). congruence.
    - by constructor; [apply marker_kept_same|].
  Qed.

Lemma deferrals_accounted jobs0 pending nowMs stagger base offset deferred st :
    store_accounted jobs0 pending nowMs st ->
    store_accounted jobs0 pending nowMs (apply_deferrals stagger base offset deferred st).
  Proof.
    revert offset st. induction deferred as [|d deferred IH]; intros offset st Ha; [done|]. cbn [apply_deferrals].
    destruct (find_first _ _) as [job|]; [|by apply IH]. destruct (isJobEnabled job); [|by apply IH].
    apply IH. destruct Ha as (jobs & Hst & Ha). eexists. split; [cbn [cs_store]; by rewrite Hst|].
    eapply accounted_kept; [|exact Ha]. apply update_job_kept; [|by eexists].
    intros j j' [= <-]. by apply marker_kept_same.
  Qed.

Lemma released_accounted jobs0 pending nowMs plan outcomes st : nowMs <> NaN ->
    Forall (fun d => due_reservedAtMs d = nowMs) (sp_candidates plan) -> store_accounted jobs0 pending nowMs st ->
    let '(_, st') := releaseUnstartedStartupCatchupReservations plan outcomes st in
    cs_stopped st' = cs_stopped st /\
    store_accounted jobs0 (settled (due_id <$> unstarted plan outcomes) pending) nowMs st'.
  Proof.
    intros Hnan Hd (jobs & Hst & Ha). unfold releaseUnstartedStartupCatchupReservations. rewrite Hst.
    assert (Forall (fun d => due_reservedAtMs d = nowMs) (unstarted plan outcomes)) as Hu.
    { apply Forall_forall. intros d [Hin _]%list_elem_of_In%filter_In. rewrite Forall_forall in Hd.
      apply Hd. by apply list_elem_of_In. }
    pose proof (release_settles _ _ _ _ _ Hnan Hu Ha) as Hr.
    destruct (release_reservations _ _) as [changed jobs']. by split; [|exists jobs'].
  Qed.

Lemma persist_cases persisted snapshot finalized st :
    let '(res, st') := persistOrRestore persisted snapshot finalized st in
    (res = Some finalized /\ st' = st) \/ (persisted = false /\ res = None /\ cs_store st' = cs_store snapshot).
  Proof. destruct persisted; [by left|by right]. Qed.

  (** C32. Catching up after a restart leaves no reservation behind either, when the
      jobs have distinct ids and the service is not stopped: whatever results come of the planned runs, once they are applied and the
      candidates without one are handed back, each running marker of the store is
      one that was there before the plan, or that of a job all of whose results
      came with a retired marker; exactly those are thrown away.  When the write of the
      store fails instead, the store is what the plan left. *)
Theorem catchup_leaves_no_reservation skipJobIds deferAgents nowMs t persisted active outcomes st jobs :
    cs_stopped st = false -> cs_store st = Some jobs -> NoDup (job_id <$> jobs) -> nowMs <> NaN ->
    let '(plan, st1) := planStartupCatchup deps skipJobIds deferAgents nowMs st in
    let '(finalized, st2, _) :=
      applyStartupCatchupOutcomes deps resolveFailoverReason persisted active plan outcomes t st1 in
    match finalized with
    | Some applied => applied = surviving active outcomes /\
        forall job, job ∈ jobs_of st2 -> only_retired_marked jobs active outcomes job
    | None => persisted = false /\ jobs_of st2 = jobs_of st1
    end.
  Proof.
    intros Hs Hst Hnd Hnan. pose proof (plan_accounted skipJobIds deferAgents nowMs st jobs Hs Hst Hnd) as Hplan.
    destruct (planStartupCatchup _ _ _ _ _) as [plan st1]. destruct Hplan as (Hd & Hs1 & Ha1).
    unfold applyStartupCatchupOutcomes, finalizeStartupCatchup.
    destruct Ha1 as (jobs1 & Hst1 & Hall1). rewrite Hst1.
    pose proof (released_accounted _ _ _ plan outcomes st1 Hnan Hd (ex_intro _ jobs1 (conj Hst1 Hall1))) as Hrel.
    destruct (releaseUnstartedStartupCatchupReservations plan outcomes st1) as [released st1'].
    destruct Hrel as [_ Hrel]. rewrite Hs1. cbv zeta.
    change (filterCurrentCronRunOutcomes (when_locked active) _) with (surviving active outcomes).
    pose proof (outcomes_accounted deps resolveFailoverReason _ _ _ (surviving active outcomes) t _ Hrel) as Hout.
    assert (forall st', store_accounted jobs
        (settled (to_jobId <$> surviving active outcomes)
           (settled (due_id <$> unstarted plan outcomes) (due_id <$> sp_candidates plan))) nowMs st' ->
      let '(res, st2) := persistOrRestore persisted st1 (surviving active outcomes) st' in
      match res with
      | Some applied => applied = surviving active outcomes /\
          forall job, job ∈ jobs_of st2 -> only_retired_marked jobs active outcomes job
      | None => persisted = false /\ jobs_of st2 = jobs_of st1
      end) as Hend.
    { intros st' (jobs' & Hst' & _ & Hall). pose proof (persist_cases persisted st1 (surviving active outcomes) st') as Hp.
      destruct (persistOrRestore _ _ _ _) as [res st2]. destruct Hp as [[-> ->]|(-> & -> & E)].
      - split; [done|]. unfold jobs_of. rewrite Hst'. intros job Hj. rewrite Forall_forall in Hall. by eapply accounted_retired, Hall.
      - split; [done|]. unfold jobs_of. by rewrite E. }
    assert (surviving active outcomes = [] -> let '(res, st2) := persist_released deps persisted released t st1
        (apply_outcomes deps resolveFailoverReason (surviving active outcomes) t st1') in
      match res with
      | Some applied => applied = surviving active outcomes /\
          forall job, job ∈ jobs_of st2 -> only_retired_marked jobs active outcomes job
      | None => persisted = false /\ jobs_of st2 = jobs_of st1
      end) as Hidle.
    { intros Enil. unfold persist_released.
      destruct released; [pose proof (Hend _ (maintain_accounted deps _ _ _ false false t _ Hout)) as He; by rewrite Enil in *|].
      destruct Hout as (jobs' & Hst' & _ & Hall). split; [by rewrite Enil|]. unfold jobs_of. rewrite Hst'. intros job Hj.
      rewrite Forall_forall in Hall. by eapply accounted_retired, Hall. }
    destruct (surviving active outcomes) as [|o os] eqn:Eo, (sp_deferredJobs plan) as [|d ds].
    1: exact (Hidle eq_refl).
    all: apply Hend, maintain_accounted, deferrals_accounted, Hout.
  Qed.
End catchup.

(** ** A concrete store *)

Definition a_scheduler : CronServiceDeps := {|
  dep_cronEnabled := true; dep_cronConfig := plain_config; dep_missedJobStaggerMs := None;
  dep_maxMissedJobsPerRestart := Some 1; dep_startupDeferredMissedAgentJobDelayMs := None |}.

Definition store_of (jobs : list CronJob) : CronServiceState := {|
  cs_store := Some jobs; cs_timer := None; cs_running := false; cs_stopped := false;
  cs_schedulingPaused := false; cs_restartRecoveryPending := false; cs_deferrals := []; cs_notices := [] |}.

Definition later_job : CronJob :=
  set_nextRunAtMs (Some (of_Z 1700000030000)) ((sample_job every_minute) <| job_id := lit "job-2" |>).

Definition two_jobs : list CronJob := [due_job; later_job].

Definition a_date : Z := 1700000000000.

Lemma timer_fires_in_time_witness :
  cs_timer (armTimer a_scheduler (of_Z a_date) (store_of [later_job])) = Some (of_Z 30000) /\
  match cs_timer (armTimer a_scheduler (of_Z a_date) (store_of [later_job])) with
  | Some delay => exists d, delay = of_Z d /\ 0 < d <= MAX_TIMER_DELAY_MS /\
      forall job t, job ∈ [later_job] -> job_wake job = Some (of_Z t) -> a_date + d <= Z.max t (a_date + MIN_REFIRE_GAP_MS)
  | None => forall job, job ∈ [later_job] -> job_enabled job <> Some true /\ job_wake job = None
  end.
Proof.
  split; [vm_compute; reflexivity|].
  apply (timer_fires_in_time a_scheduler a_date (store_of [later_job])); [done| |by vm_compute].
  constructor; [|constructor]. intros t [= <-]. exists 1700000030000. split; [done|by vm_compute].
Defined.

Lemma two_jobs_due : @collectRunnableJobs minutely a_scheduler tick_options (of_Z a_date) two_jobs = [due_job].
Proof. vm_compute. reflexivity. Qed.

Lemma tick_reserves_due_jobs_witness :
  exists st', @onAdmittedTimer minutely a_scheduler (of_Z a_date) (store_of two_jobs) =
    ([{| due_id := lit "job-1"; due_reservedAtMs := of_Z a_date |}], st') /\
  (@onAdmittedTimer minutely a_scheduler (of_Z (a_date + 60000)) st').1 = [].
Proof.
  destruct (@tick_reserves_due_jobs minutely a_scheduler (of_Z a_date) (of_Z (a_date + 60000)) (store_of two_jobs) two_jobs)
    as (st' & E & _ & _ & Hnone & _); [done|done|by rewrite two_jobs_due|].
  rewrite two_jobs_due in E. exists st'. split; [exact E|exact Hnone].
Defined.

Lemma due_job_reserved_by_next_tick_witness :
  {| due_id := lit "job-1"; due_reservedAtMs := of_Z (a_date + 60000) |} ∈
    (@onAdmittedTimer minutely a_scheduler (of_Z (a_date + 60000))
       (store_of (@recomputeNextRunsForMaintenance minutely plain_config true true (of_Z a_date) fresh_walk two_jobs).2)).1.
Proof.
  refine (@due_job_reserved_by_next_tick minutely a_scheduler (of_Z a_date) (of_Z (a_date + 60000)) true true fresh_walk
    (store_of (@recomputeNextRunsForMaintenance minutely plain_config true true (of_Z a_date) fresh_walk two_jobs).2)
    two_jobs 0 due_job _ eq_refl _ eq_refl eq_refl); [by split_and!|].
  split; [done|]. split; [done|]. exists (of_Z 1699999999000). split_and!; by vm_compute.
Defined.

(** One run whose marker stays current. *)
Definition live_run (id : jstr) (result : CronRunOutcome) (active : CronActiveJobState) : TimedCronRunOutcome := {|
  to_jobId := id; to_job := due_job; to_activeJobMarker := (markCronJobActive id false active).1; to_result := result |}.

Definition still_active (id : jstr) : ActiveMoments :=
  let active := (markCronJobActive id false no_active_jobs).2 in
  {| when_completed := active; when_locked := active; when_written := active |}.

Lemma no_reservation_leaks_witness :
  let runs := [live_run (lit "job-1") (a_run StatusOk None) no_active_jobs] in
  let st1 := (@onAdmittedTimer minutely a_scheduler (of_Z a_date) (store_of two_jobs)).2 in
  let '(finalized, st2, _) := @finalizeCompletedResults minutely a_scheduler no_reason true true
               (still_active (lit "job-1")) runs (of_Z (a_date + 1000)) st1 in
  finalized = Some runs /\
  forall job, job ∈ jobs_of (@finishTick a_scheduler (of_Z (a_date + 2000)) st2) ->
    only_retired_marked two_jobs (still_active (lit "job-1")) runs job.
Proof.
  cbv zeta. set (runs := [live_run _ _ _]).
  pose proof (@no_reservation_leaks minutely a_scheduler no_reason (of_Z a_date) (of_Z a_date) (of_Z (a_date + 1000))
    (of_Z (a_date + 2000)) true true (still_active (lit "job-1")) runs (store_of two_jobs) two_jobs) as Hleak.
  assert ((@onAdmittedTimer minutely a_scheduler (of_Z a_date) (store_of two_jobs)).1 =
    [{| due_id := lit "job-1"; due_reservedAtMs := of_Z a_date |}]) as E by (vm_compute; reflexivity).
  assert ((@finalizeCompletedResults minutely a_scheduler no_reason true true (still_active (lit "job-1")) runs
    (of_Z (a_date + 1000)) (@onAdmittedTimer minutely a_scheduler (of_Z a_date) (store_of two_jobs)).2).1.1 = Some runs)
    as Ef by (vm_compute; reflexivity).
  destruct (@onAdmittedTimer _ _ _ _) as [dues st1]. cbn [fst snd] in *. subst dues.
  specialize (Hleak ltac:(by split_and!) eq_refl ltac:(by apply (bool_decide_eq_true_1 _)) ltac:(done)).
  cbn [List.filter] in Hleak. rewrite bool_decide_eq_true_2 in Hleak by (cbn; set_solver).
  cbn [negb releaseUnclaimedDueJobReservations] in Hleak.
  destruct (@finalizeCompletedResults _ _ _ _ _ _ _ _ _) as [[finalized st2] active]. cbn [fst] in Ef. subst finalized.
  split; [done|]. apply Hleak.
Defined.

Lemma startup_plans_every_missed_job_witness :
  let missed_two := [due_job; due_job <| job_id := lit "job-3" |>] in
  let plan := (@planStartupCatchup minutely a_scheduler [] false (of_Z a_date) (store_of missed_two)).1 in
  (due_id <$> sp_candidates plan) ++ (sd_jobId <$> sp_deferredJobs plan) ≡ₚ [lit "job-1"; lit "job-3"].
Proof.
  cbv zeta. set (missed_two := [due_job; due_job <| job_id := lit "job-3" |>]).
  pose proof (@startup_plans_every_missed_job minutely a_scheduler [] false (of_Z a_date) (store_of missed_two) missed_two
    eq_refl eq_refl) as Hplan.
  destruct (@planStartupCatchup _ _ _ _ _ _) as [plan st']. destruct Hplan as [Hplan _]. cbn [fst].
  rewrite Hplan. vm_compute. reflexivity.
Defined.

Lemma catchup_leaves_no_reservation_witness :
  let missed_two := [due_job; due_job <| job_id := lit "job-3" |>] in
  let runs := [live_run (lit "job-1") (a_run StatusOk None) no_active_jobs] in
  let '(plan, st1) := @planStartupCatchup minutely a_scheduler [] false (of_Z a_date) (store_of missed_two) in
  let '(finalized, st2, _) := @applyStartupCatchupOutcomes minutely a_scheduler no_reason true
    (still_active (lit "job-1")) plan runs (of_Z (a_date + 1000)) st1 in
  finalized = Some runs /\
  forall job, job ∈ jobs_of st2 -> only_retired_marked missed_two (still_active (lit "job-1")) runs job.
Proof.
  cbv zeta. set (missed_two := [due_job; due_job <| job_id := lit "job-3" |>]). set (runs := [live_run _ _ _]).
  pose proof (@catchup_leaves_no_reservation minutely a_scheduler no_reason [] false (of_Z a_date) (of_Z (a_date + 1000))
    true (still_active (lit "job-1")) runs (store_of missed_two) missed_two eq_refl eq_refl
    ltac:(by apply (bool_decide_eq_true_1 _)) ltac:(done)) as Hcatch.
  assert (let '(plan, st1) := @planStartupCatchup minutely a_scheduler [] false (of_Z a_date) (store_of missed_two) in
    (@applyStartupCatchupOutcomes minutely a_scheduler no_reason true (still_active (lit "job-1")) plan runs
       (of_Z (a_date + 1000)) st1).1.1 = Some runs) as Ef by (vm_compute; reflexivity).
  destruct (@planStartupCatchup _ _ _ _ _ _) as [plan st1].
  destruct (@applyStartupCatchupOutcomes _ _ _ _ _ _ _ _ _) as [[finalized st2] active]. cbn [fst] in Ef. subst finalized.
  split; [done|]. exact (proj2 Hcatch).
Defined.
