(* ===== verification/WorkAdmission.v ===== *)
(** * Gateway work admission

    [src/process/gateway-work-admission.ts]: the process-wide fence that root
    work (requests, timers) passes before it starts, closed by a restart signal,
    by the one-way restart drain and by host suspension.

    The state is the singleton with its heap of root records and of release
    closures; an operation takes the root record of the calling async chain
    (the [AsyncLocalStorage] store) as [current].  Promise resolutions, the
    suspension callback and log lines are output events: resolutions run in
    later microtasks, and the callback is the last thing its operation does. *)
From S2P Require Import Prelude JsNumber.

(** ** State *)

Inductive GatewaySuspendAdmissionPhase := Accepting | Preparing | Prepared.

#[global] Instance phase_eq_dec : EqDecision GatewaySuspendAdmissionPhase.
Proof. solve_decision. Defined.

Inductive AdmissionReason := RestartSignalFence | RestartDrain | SuspendPhase.

Inductive AdmissionEvent :=
  | AdmissionClosed (reason : AdmissionReason)
  | AdmissionReopened (reason : AdmissionReason)
  | WaiterResolved (waiter : nat)
  | DrainWaiterResolved (waiter : nat)
  | SuspendInvalidated (callback : nat).

(** [{ references, released }]. *)
Record GatewayRootWorkAdmission := { references : Z; released : bool }.

(** A release closure: its record and its [leaseReleased]. *)
Record ReleaseClosure := { rc_root : nat; rc_leaseReleased : bool }.

Record GatewayWorkAdmissionState := {
  restartDraining : bool;
  restartSignalPending : bool;
  restartSignalGeneration : nat;
  suspendPhase : GatewaySuspendAdmissionPhase;
  suspendGeneration : nat;
  suspendInvalidated : option nat;
  activeRootWork : list nat;
  rootDrainWaiters : list nat;
  suspendOpenWaiters : list nat;
  roots : list GatewayRootWorkAdmission;
  closures : list ReleaseClosure;
}.

Definition initial_admission : GatewayWorkAdmissionState :=
  {| restartDraining := false; restartSignalPending := false; restartSignalGeneration := 0;
     suspendPhase := Accepting; suspendGeneration := 0; suspendInvalidated := None;
     activeRootWork := []; rootDrainWaiters := []; suspendOpenWaiters := [];
     roots := []; closures := [] |}.

(** Field updates. *)
Definition set_restart (draining pending : bool) (generation : nat) s :=
  {| restartDraining := draining; restartSignalPending := pending;
     restartSignalGeneration := generation; suspendPhase := suspendPhase s;
     suspendGeneration := suspendGeneration s; suspendInvalidated := suspendInvalidated s;
     activeRootWork := activeRootWork s; rootDrainWaiters := rootDrainWaiters s;
     suspendOpenWaiters := suspendOpenWaiters s; roots := roots s; closures := closures s |}.

Definition set_suspend (phase : GatewaySuspendAdmissionPhase) (generation : nat)
    (callback : option nat) s :=
  {| restartDraining := restartDraining s; restartSignalPending := restartSignalPending s;
     restartSignalGeneration := restartSignalGeneration s; suspendPhase := phase;
     suspendGeneration := generation; suspendInvalidated := callback;
     activeRootWork := activeRootWork s; rootDrainWaiters := rootDrainWaiters s;
     suspendOpenWaiters := suspendOpenWaiters s; roots := roots s; closures := closures s |}.

Definition set_roots (active : list nat) roots' closures' s :=
  {| restartDraining := restartDraining s; restartSignalPending := restartSignalPending s;
     restartSignalGeneration := restartSignalGeneration s; suspendPhase := suspendPhase s;
     suspendGeneration := suspendGeneration s; suspendInvalidated := suspendInvalidated s;
     activeRootWork := active; rootDrainWaiters := rootDrainWaiters s;
     suspendOpenWaiters := suspendOpenWaiters s; roots := roots'; closures := closures' |}.

Definition set_waiters (drain open : list nat) s :=
  {| restartDraining := restartDraining s; restartSignalPending := restartSignalPending s;
     restartSignalGeneration := restartSignalGeneration s; suspendPhase := suspendPhase s;
     suspendGeneration := suspendGeneration s; suspendInvalidated := suspendInvalidated s;
     activeRootWork := activeRootWork s; rootDrainWaiters := drain;
     suspendOpenWaiters := open; roots := roots s; closures := closures s |}.

(** An operation's new state and its events, in order. *)
Notation outcome := (GatewayWorkAdmissionState * list AdmissionEvent)%type.

Definition then_ (o : outcome) (f : GatewayWorkAdmissionState -> outcome) : outcome :=
  let '(s, ev) := o in let '(s, ev') := f s in (s, ev ++ ev').

Definition emit (ev : AdmissionEvent) (s : GatewayWorkAdmissionState) : outcome := (s, [ev]).

(** ** Waiters *)

Definition resolveRootDrainWaiters s : outcome :=
  (set_waiters [] (suspendOpenWaiters s) s, DrainWaiterResolved <$> rootDrainWaiters s).

Definition resolveSuspendOpenWaiters s : outcome :=
  (set_waiters (rootDrainWaiters s) [] s, WaiterResolved <$> suspendOpenWaiters s).

(** ** Roots *)

Definition live (s : GatewayWorkAdmissionState) (current : option nat) : bool :=
  match current ≫= fun r => roots s !! r with
  | Some root => negb (released root)
  | None => false
  end.

(** The new record and its release closure. *)
Definition createGatewayRootWorkAdmission s : (nat * nat) * GatewayWorkAdmissionState :=
  let root := length (roots s) in
  let closure := length (closures s) in
  ((root, closure),
   set_roots (activeRootWork s ++ [root])
     (roots s ++ [{| references := 1; released := false |}])
     (closures s ++ [{| rc_root := root; rc_leaseReleased := false |}]) s).

(** Calling a release closure. *)
Definition releaseRootWork (closure : nat) s : outcome :=
  match closures s !! closure with
  | None => (s, [])
  | Some c =>
      match roots s !! rc_root c with
      | None => (s, [])
      | Some root =>
          if rc_leaseReleased c || released root then (s, [])
          else
            let closures' :=
              <[closure := {| rc_root := rc_root c; rc_leaseReleased := true |}]> (closures s) in
            let refs := (references root - 1)%Z in
            if bool_decide (0 < refs)%Z then
              (set_roots (activeRootWork s)
                 (<[rc_root c := {| references := refs; released := released root |}]> (roots s))
                 closures' s, [])
            else
              let s :=
                set_roots (List.filter (fun r => negb (bool_decide (r = rc_root c))) (activeRootWork s))
                  (<[rc_root c := {| references := refs; released := true |}]> (roots s))
                  closures' s in
              if bool_decide (activeRootWork s = []) then resolveRootDrainWaiters s else (s, [])
      end
  end.

(** ** Fences *)

Definition invalidateSuspendAdmission s : outcome :=
  let callback := suspendInvalidated s in
  let wasClosed := negb (bool_decide (suspendPhase s = Accepting)) in
  let s := set_suspend Accepting (S (suspendGeneration s)) None s in
  then_ (resolveSuspendOpenWaiters s) (fun s =>
  then_ (if wasClosed && negb (restartDraining s)
         then emit (AdmissionReopened SuspendPhase) s else (s, [])) (fun s =>
  match callback with
  | Some cb => emit (SuspendInvalidated cb) s
  | None => (s, [])
  end)).

Definition clearRestartSignalFence s : bool * outcome :=
  if restartDraining s || negb (restartSignalPending s) then (false, (s, []))
  else
    (true,
     then_ (resolveSuspendOpenWaiters
              (set_restart (restartDraining s) false (S (restartSignalGeneration s)) s))
       (emit (AdmissionReopened RestartSignalFence))).

Definition isGatewayWorkAdmissionClosed s : bool :=
  restartDraining s || restartSignalPending s || negb (bool_decide (suspendPhase s = Accepting)).

(** A current record, released or not, decides; without one the phase does. *)
Definition isGatewaySubordinateWorkAdmissionClosed s (current : option nat) : bool :=
  if restartDraining s || restartSignalPending s then true
  else match current ≫= fun r => roots s !! r with
       | Some root => released root
       | None => negb (bool_decide (suspendPhase s = Accepting))
       end.

Definition isGatewayRestartDraining s : bool := restartDraining s || restartSignalPending s.

Definition markGatewayRestartDraining s : outcome :=
  if restartDraining s then (s, [])
  else
    then_ (resolveSuspendOpenWaiters (set_restart true false (S (restartSignalGeneration s)) s))
      (fun s => then_ (emit (AdmissionClosed RestartDrain) s)
      (fun s => if negb (bool_decide (suspendPhase s = Accepting))
                then invalidateSuspendAdmission s else (s, []))).

(** The lease is its generation. *)
Definition beginGatewayRestartSignalAdmission s : option nat * outcome :=
  if restartDraining s || restartSignalPending s then (None, (s, []))
  else
    let generation := S (restartSignalGeneration s) in
    (Some generation,
     emit (AdmissionClosed RestartSignalFence) (set_restart (restartDraining s) true generation s)).

Definition rollbackRestartSignal (generation : nat) s : bool * outcome :=
  if negb (restartSignalPending s) || negb (bool_decide (restartSignalGeneration s = generation))
  then (false, (s, []))
  else clearRestartSignalFence s.

Definition rollbackGatewayRestartSignalFence s : bool * outcome := clearRestartSignalFence s.

(** ** Admission *)

Inductive Lease :=
  | JoinsRoot
  | OwnsRoot (root closure : nat).

Definition tryBeginGatewayRootWorkAdmission (current : option nat) s
    : option Lease * GatewayWorkAdmissionState :=
  if live s current then (Some JoinsRoot, s)
  else if restartDraining s || restartSignalPending s
          || negb (bool_decide (suspendPhase s = Accepting)) then (None, s)
  else
    let '((root, closure), s) := createGatewayRootWorkAdmission s in
    (Some (OwnsRoot root closure), s).

Definition tryBeginGatewayIndependentRootWorkAdmission s
    : option Lease * GatewayWorkAdmissionState :=
  if restartDraining s || restartSignalPending s
     || negb (bool_decide (suspendPhase s = Accepting)) then (None, s)
  else
    let '((root, closure), s) := createGatewayRootWorkAdmission s in
    (Some (OwnsRoot root closure), s).

(** One turn of the waiting loops: an error, an admission, or another wait on a
    new promise. *)
Inductive WaitTurn := DrainingError | Granted (lease : Lease) | Waiting.

Definition waitTurn (waiter : nat) (try : GatewayWorkAdmissionState -> option Lease * GatewayWorkAdmissionState)
    s : WaitTurn * GatewayWorkAdmissionState :=
  if restartDraining s then (DrainingError, s)
  else match try s with
       | (Some lease, s) => (Granted lease, s)
       | (None, s) => (Waiting, set_waiters (rootDrainWaiters s) (suspendOpenWaiters s ++ [waiter]) s)
       end.

Definition beginGatewayRootWorkAdmissionWhenOpen (current : option nat) (waiter : nat) s :=
  waitTurn waiter (tryBeginGatewayRootWorkAdmission current) s.

Definition runWithGatewayIndependentRootWorkAdmission (waiter : nat) s :=
  waitTurn waiter tryBeginGatewayIndependentRootWorkAdmission s.

Definition runWithGatewayIndependentRootWorkContinuation (current : option nat) (waiter : nat) s
    : WaitTurn * GatewayWorkAdmissionState :=
  if negb (live s current) then runWithGatewayIndependentRootWorkAdmission waiter s
  else
    let '((root, closure), s) := createGatewayRootWorkAdmission s in
    (Granted (OwnsRoot root closure), s).

(** The new release closure. *)
Definition retainGatewayRootWorkAdmissionContinuation (current : option nat) s
    : option nat * GatewayWorkAdmissionState :=
  match current with
  | None => (None, s)
  | Some r =>
      match roots s !! r with
      | None => (None, s)
      | Some root =>
          if released root then (None, s)
          else
            (Some (length (closures s)),
             set_roots (activeRootWork s)
               (<[r := {| references := references root + 1; released := released root |}]> (roots s))
               (closures s ++ [{| rc_root := r; rc_leaseReleased := false |}]) s)
      end
  end.

Definition getActiveGatewayRootWorkCount (excludeCurrent : bool) (current : option nat) s : nat :=
  let count := length (activeRootWork s) in
  match current with
  | Some r =>
      if excludeCurrent && live s current && bool_decide (r ∈ activeRootWork s)
      then (count - 1)%nat else count
  | None => count
  end.

(** ** Waiting for roots *)

(** Either an answer at once, or a wait on a new promise (and a timer). *)
Definition waitForActiveGatewayRootWork (timeoutMs : option num) (waiter : nat) s
    : option (bool * nat) * GatewayWorkAdmissionState :=
  if bool_decide (activeRootWork s = []) then (Some (true, 0%nat), s)
  else
    let timeout :=
      match timeoutMs with
      | Some t => if isFinite t then Some (math_max (of_Z 0) (math_floor t)) else None
      | None => None
      end in
    if match timeout with Some t => num_zero t | None => false end then (Some (false, length (activeRootWork s)), s)
    else (None, set_waiters (rootDrainWaiters s ++ [waiter]) (suspendOpenWaiters s) s).

(** The wait over, by resolution or by the timer. *)
Definition finishWaitForRootWork (waiter : nat) s : (bool * nat) * GatewayWorkAdmissionState :=
  let s :=
    set_waiters (List.filter (fun w => negb (bool_decide (w = waiter))) (rootDrainWaiters s))
      (suspendOpenWaiters s) s in
  let active := length (activeRootWork s) in
  ((bool_decide (active = 0%nat), active), s).

(** ** Suspension *)

(** The lease is its generation. *)
Definition tryBeginGatewaySuspendAdmission (onInvalidated : nat) s : option nat * outcome :=
  if restartDraining s || restartSignalPending s
     || negb (bool_decide (suspendPhase s = Accepting)) then (None, (s, []))
  else
    let generation := S (suspendGeneration s) in
    (Some generation,
     emit (AdmissionClosed SuspendPhase) (set_suspend Preparing generation (Some onInvalidated) s)).

Definition transition (generation : nat) (expected next : GatewaySuspendAdmissionPhase) s
    : bool * outcome :=
  if negb (bool_decide (suspendGeneration s = generation))
     || negb (bool_decide (suspendPhase s = expected)) then (false, (s, []))
  else
    let s := set_suspend next (suspendGeneration s) (suspendInvalidated s) s in
    if bool_decide (next = Accepting) then
      (true,
       then_ (resolveSuspendOpenWaiters (set_suspend next (suspendGeneration s) None s))
         (emit (AdmissionReopened SuspendPhase)))
    else (true, (s, [])).

Definition suspend_commit (generation : nat) s := transition generation Preparing Prepared s.
Definition suspend_rollback (generation : nat) s := transition generation Preparing Accepting s.
Definition suspend_release (generation : nat) s := transition generation Prepared Accepting s.

(** ** Reset *)

(** Retiring the active records in place. *)
Definition retire (rs : list GatewayRootWorkAdmission) (active : list nat) :=
  foldl (fun rs r => <[r := {| references := 0; released := true |}]> rs) rs active.

Definition resetGatewayWorkAdmission s : outcome :=
  let s := set_roots [] (retire (roots s) (activeRootWork s)) (closures s) s in
  then_ (resolveRootDrainWaiters s) (fun s =>
  let s := set_restart false false (S (restartSignalGeneration s)) s in
  then_ (if negb (bool_decide (suspendPhase s = Accepting)) then invalidateSuspendAdmission s
         else (set_suspend (suspendPhase s) (S (suspendGeneration s)) None s, [])) (fun s =>
  resolveSuspendOpenWaiters s)).

(** ** Runs *)

Inductive AdmissionOp :=
  | TryRoot (current : option nat)
  | TryIndependent
  | WhenOpen (current : option nat) (waiter : nat)
  | IndependentWhenOpen (waiter : nat)
  | Continuation (current : option nat) (waiter : nat)
  | Retain (current : option nat)
  | Release (closure : nat)
  | WaitForRoots (timeoutMs : option num) (waiter : nat)
  | FinishWait (waiter : nat)
  | BeginRestartSignal
  | RollbackRestartSignal (generation : nat)
  | ForceRollbackRestartSignal
  | DrainForRestart
  | BeginSuspend (onInvalidated : nat)
  | CommitSuspend (generation : nat)
  | RollbackSuspend (generation : nat)
  | ReleaseSuspend (generation : nat)
  | Reset.

Definition quiet (s : GatewayWorkAdmissionState) : outcome := (s, []).

Definition step (op : AdmissionOp) (s : GatewayWorkAdmissionState) : outcome :=
  match op with
  | TryRoot c => quiet (tryBeginGatewayRootWorkAdmission c s).2
  | TryIndependent => quiet (tryBeginGatewayIndependentRootWorkAdmission s).2
  | WhenOpen c w => quiet (beginGatewayRootWorkAdmissionWhenOpen c w s).2
  | IndependentWhenOpen w => quiet (runWithGatewayIndependentRootWorkAdmission w s).2
  | Continuation c w => quiet (runWithGatewayIndependentRootWorkContinuation c w s).2
  | Retain c => quiet (retainGatewayRootWorkAdmissionContinuation c s).2
  | Release i => releaseRootWork i s
  | WaitForRoots t w => quiet (waitForActiveGatewayRootWork t w s).2
  | FinishWait w => quiet (finishWaitForRootWork w s).2
  | BeginRestartSignal => (beginGatewayRestartSignalAdmission s).2
  | RollbackRestartSignal g => (rollbackRestartSignal g s).2
  | ForceRollbackRestartSignal => (rollbackGatewayRestartSignalFence s).2
  | DrainForRestart => markGatewayRestartDraining s
  | BeginSuspend cb => (tryBeginGatewaySuspendAdmission cb s).2
  | CommitSuspend g => (suspend_commit g s).2
  | RollbackSuspend g => (suspend_rollback g s).2
  | ReleaseSuspend g => (suspend_release g s).2
  | Reset => resetGatewayWorkAdmission s
  end.

Definition run (ops : list AdmissionOp) (s : GatewayWorkAdmissionState)
    : GatewayWorkAdmissionState := foldl (fun s op => (step op s).1) s ops.

(** The states of a process. *)
Inductive reachable : GatewayWorkAdmissionState -> Prop :=
  | reachable_initial : reachable initial_admission
  | reachable_step s op : reachable s -> reachable (step op s).1.

(** ** The invariant *)

Definition is_open_closure (r : nat) (c : ReleaseClosure) : bool :=
  bool_decide (rc_root c = r) && negb (rc_leaseReleased c).

(** The release closures of a record that have not been called. *)
Definition open_closures (r : nat) (s : GatewayWorkAdmissionState) : nat :=
  length (List.filter (is_open_closure r) (closures s)).

Record FenceInv (s : GatewayWorkAdmissionState) : Prop := {
  fi_drain : restartDraining s = true ->
    restartSignalPending s = false /\ suspendPhase s = Accepting /\ suspendOpenWaiters s = [];
  fi_callback : suspendInvalidated s = None <-> suspendPhase s = Accepting;
  fi_open : isGatewayWorkAdmissionClosed s = false -> suspendOpenWaiters s = [];
}.

Record RootCore (s : GatewayWorkAdmissionState) : Prop := {
  ri_active : forall r, r ∈ activeRootWork s <->
    exists root, roots s !! r = Some root /\ released root = false;
  ri_nodup : NoDup (activeRootWork s);
  ri_refs : forall r root, roots s !! r = Some root -> released root = false ->
    references root = Z.of_nat (open_closures r s) /\ (0 < references root)%Z;
  ri_closures : forall i c, closures s !! i = Some c -> (rc_root c < length (roots s))%nat;
}.

Record RootInv (s : GatewayWorkAdmissionState) : Prop := {
  ri_core : RootCore s;
  ri_waiters : activeRootWork s = [] -> rootDrainWaiters s = [];
}.

Lemma RootCore_ext s s' :
  activeRootWork s' = activeRootWork s -> roots s' = roots s -> closures s' = closures s ->
  RootCore s -> RootCore s'.
Proof.
  intros E1 E2 E3 [H1 H2 H3 H4]. split; unfold open_closures in *; rewrite ?E1, ?E2, ?E3; auto.
Qed.

Lemma RootInv_ext s s' :
  activeRootWork s' = activeRootWork s -> roots s' = roots s -> closures s' = closures s ->
  rootDrainWaiters s' = rootDrainWaiters s -> RootInv s -> RootInv s'.
Proof.
  intros E1 E2 E3 E4 [H1 H2]. split; [by apply (RootCore_ext s)|by rewrite E1, E4].
Qed.

Lemma FenceInv_ext s s' :
  restartDraining s' = restartDraining s -> restartSignalPending s' = restartSignalPending s ->
  suspendPhase s' = suspendPhase s -> suspendInvalidated s' = suspendInvalidated s ->
  suspendOpenWaiters s' = suspendOpenWaiters s -> FenceInv s -> FenceInv s'.
Proof.
  intros E1 E2 E3 E4 E5 [H1 H2 H3]. unfold isGatewayWorkAdmissionClosed in *.
  split; unfold isGatewayWorkAdmissionClosed; rewrite ?E1, ?E2, ?E3, ?E4, ?E5; auto.
Qed.

Lemma invalidateSuspendAdmission_eq s :
  (invalidateSuspendAdmission s).1 =
  set_waiters (rootDrainWaiters s) [] (set_suspend Accepting (S (suspendGeneration s)) None s).
Proof.
  unfold invalidateSuspendAdmission. cbn [then_ resolveSuspendOpenWaiters].
  by destruct (negb (bool_decide (suspendPhase s = Accepting)) && _), (suspendInvalidated s).
Qed.

Lemma clearRestartSignalFence_eq s :
  (clearRestartSignalFence s).2.1 =
  if restartDraining s || negb (restartSignalPending s) then s
  else set_waiters (rootDrainWaiters s) []
         (set_restart (restartDraining s) false (S (restartSignalGeneration s)) s).
Proof. unfold clearRestartSignalFence. by destruct (_ || _). Qed.

Lemma markGatewayRestartDraining_eq s :
  (markGatewayRestartDraining s).1 =
  if restartDraining s then s
  else
    let s := set_waiters (rootDrainWaiters s) [] (set_restart true false (S (restartSignalGeneration s)) s) in
    if bool_decide (suspendPhase s = Accepting) then s else (invalidateSuspendAdmission s).1.
Proof.
  unfold markGatewayRestartDraining. destruct (restartDraining s); [done|].
  cbv zeta. cbn [then_ resolveSuspendOpenWaiters emit].
  set (s1 := set_waiters _ [] _).
  destruct (bool_decide (suspendPhase s1 = Accepting)); cbn [negb]; [done|].
  by destruct (invalidateSuspendAdmission s1).
Qed.

Lemma transition_eq g e n s :
  (transition g e n s).2.1 =
  if negb (bool_decide (suspendGeneration s = g)) || negb (bool_decide (suspendPhase s = e)) then s
  else if bool_decide (n = Accepting)
       then set_waiters (rootDrainWaiters s) [] (set_suspend n (suspendGeneration s) None s)
       else set_suspend n (suspendGeneration s) (suspendInvalidated s) s.
Proof.
  unfold transition. destruct (negb (bool_decide (suspendGeneration s = g)) || _); [done|].
  by destruct (bool_decide (n = Accepting)).
Qed.

Lemma resetGatewayWorkAdmission_eq s :
  (resetGatewayWorkAdmission s).1 =
  set_waiters [] [] (set_suspend Accepting (S (suspendGeneration s)) None
    (set_restart false false (S (restartSignalGeneration s))
       (set_roots [] (retire (roots s) (activeRootWork s)) (closures s) s))).
Proof.
  unfold resetGatewayWorkAdmission. cbn [then_ resolveRootDrainWaiters].
  case_bool_decide as H; cbn [negb].
  - cbn in H |- *. rewrite H. done.
  - match goal with |- context [invalidateSuspendAdmission ?x] =>
      pose proof (invalidateSuspendAdmission_eq x) as E; destruct (invalidateSuspendAdmission x) end.
    cbn in E |- *. by subst.
Qed.

(** *** Fences *)

Lemma FenceInv_closed_phase s :
  isGatewayWorkAdmissionClosed s = false <->
  restartDraining s = false /\ restartSignalPending s = false /\ suspendPhase s = Accepting.
Proof.
  unfold isGatewayWorkAdmissionClosed. rewrite !orb_false_iff, negb_false_iff, bool_decide_eq_true.
  tauto.
Qed.

(** With the suspension over and nobody waiting, the callback must be gone. *)
Lemma FenceInv_accepting s :
  suspendPhase s = Accepting -> suspendInvalidated s = None -> suspendOpenWaiters s = [] ->
  (restartDraining s = true -> restartSignalPending s = false) -> FenceInv s.
Proof. intros. split; [auto|tauto|auto]. Qed.

Lemma tryRoot_fence c s : FenceInv s -> FenceInv (tryBeginGatewayRootWorkAdmission c s).2.
Proof.
  intros H. unfold tryBeginGatewayRootWorkAdmission.
  destruct (live s c); [done|]. destruct (_ || _ || _); [done|]. by apply (FenceInv_ext s).
Qed.

Lemma tryIndependent_fence s : FenceInv s -> FenceInv (tryBeginGatewayIndependentRootWorkAdmission s).2.
Proof.
  intros H. unfold tryBeginGatewayIndependentRootWorkAdmission.
  destruct (_ || _ || _); [done|]. by apply (FenceInv_ext s).
Qed.

(** A waiter is only added behind a closed fence. *)
Lemma waitTurn_fence w try s :
  (forall s, FenceInv s -> FenceInv (try s).2) ->
  (forall s, (try s).1 = None -> (try s).2 = s /\ isGatewayWorkAdmissionClosed s = true) ->
  FenceInv s -> FenceInv (waitTurn w try s).2.
Proof.
  intros Htry Hnone H. unfold waitTurn. destruct (restartDraining s) eqn:Hd; [done|].
  specialize (Htry s H). specialize (Hnone s). destruct (try s) as [[lease|] s'] eqn:E; [done|].
  cbn [fst snd] in *. destruct (Hnone eq_refl) as [-> Hc]. destruct H as [H1 H2 H3].
  split; cbn; [congruence|done|]. unfold isGatewayWorkAdmissionClosed in *. cbn. congruence.
Qed.

Lemma tryRoot_none c s :
  (tryBeginGatewayRootWorkAdmission c s).1 = None ->
  (tryBeginGatewayRootWorkAdmission c s).2 = s /\ isGatewayWorkAdmissionClosed s = true.
Proof.
  unfold tryBeginGatewayRootWorkAdmission, isGatewayWorkAdmissionClosed.
  destruct (live s c); [done|]. by destruct (_ || _ || _).
Qed.

Lemma tryIndependent_none s :
  (tryBeginGatewayIndependentRootWorkAdmission s).1 = None ->
  (tryBeginGatewayIndependentRootWorkAdmission s).2 = s /\ isGatewayWorkAdmissionClosed s = true.
Proof.
  unfold tryBeginGatewayIndependentRootWorkAdmission, isGatewayWorkAdmissionClosed.
  by destruct (_ || _ || _).
Qed.

Lemma independent_fence w s :
  FenceInv s -> FenceInv (runWithGatewayIndependentRootWorkAdmission w s).2.
Proof. apply waitTurn_fence; auto using tryIndependent_fence, tryIndependent_none. Qed.

Lemma releaseRootWork_fence i s : FenceInv s -> FenceInv (releaseRootWork i s).1.
Proof.
  intros H. unfold releaseRootWork. destruct (closures s !! i) as [c|]; [|done].
  destruct (roots s !! rc_root c) as [root|]; [|done]. destruct (_ || _); [done|].
  destruct (bool_decide (0 < _)%Z); [by apply (FenceInv_ext s)|].
  destruct (bool_decide (activeRootWork _ = [])); by apply (FenceInv_ext s).
Qed.

Lemma invalidate_fence s :
  FenceInv (set_waiters (rootDrainWaiters s) [] (set_suspend Accepting (S (suspendGeneration s)) None s))
  <-> (restartDraining s = true -> restartSignalPending s = false).
Proof. split; [intros [H _ _] Hd; by apply H|intros H; by apply FenceInv_accepting]. Qed.

Lemma clearRestart_fence s : FenceInv s -> FenceInv (clearRestartSignalFence s).2.1.
Proof.
  intros [H1 H2 H3]. rewrite clearRestartSignalFence_eq. case_match; [by split|].
  bool_to_prop. split; cbn; try done. congruence.
Qed.

Lemma transition_fence g e n s :
  FenceInv s -> (e <> Accepting) -> FenceInv (transition g e n s).2.1.
Proof.
  intros H He. rewrite transition_eq. destruct H as [H1 H2 H3]. case_match; [by split|]. bool_to_prop.
  assert (restartDraining s = false) as Hd.
  { destruct (restartDraining s); [|done]. destruct H1 as (_ & ? & _); congruence. }
  case_bool_decide as Hn; [by apply FenceInv_accepting; cbn; congruence|].
  assert (suspendPhase s <> Accepting) by congruence.
  split; cbn; [congruence| |].
  - split; [tauto|done].
  - intros [_ [_ ?]]%FenceInv_closed_phase. done.
Qed.

Lemma step_fence op s : FenceInv s -> FenceInv (step op s).1.
Proof.
  intros H. destruct op; cbn [step quiet fst].
  - by apply tryRoot_fence.
  - by apply tryIndependent_fence.
  - apply waitTurn_fence; auto using tryRoot_fence, tryRoot_none.
  - by apply independent_fence.
  - unfold runWithGatewayIndependentRootWorkContinuation. destruct (live s current); cbn [negb].
    + by apply (FenceInv_ext s).
    + by apply independent_fence.
  - unfold retainGatewayRootWorkAdmissionContinuation.
    repeat case_match; try done; by apply (FenceInv_ext s).
  - by apply releaseRootWork_fence.
  - unfold waitForActiveGatewayRootWork. repeat case_match; try done; by apply (FenceInv_ext s).
  - by apply (FenceInv_ext s).
  - unfold beginGatewayRestartSignalAdmission. destruct H as [H1 H2 H3].
    destruct (_ || _) eqn:E; [by split|]. bool_to_prop. split; cbn; [congruence|done|].
    unfold isGatewayWorkAdmissionClosed. cbn. by rewrite orb_true_r.
  - unfold rollbackRestartSignal. destruct (_ || _); [done|]. by apply clearRestart_fence.
  - by apply clearRestart_fence.
  - rewrite markGatewayRestartDraining_eq. destruct (restartDraining s) eqn:Hd; [done|].
    cbv zeta. case_bool_decide as Hp.
    + apply FenceInv_accepting; try done. by apply H.
    + rewrite invalidateSuspendAdmission_eq. by apply invalidate_fence.
  - unfold tryBeginGatewaySuspendAdmission. destruct (_ || _ || _) eqn:E; [done|].
    apply FenceInv_closed_phase in E as (E1 & E2 & E3). destruct H as [H1 H2 H3].
    split; cbn; [congruence|done|]. by intros [_ [_ ?]]%FenceInv_closed_phase.
  - by apply transition_fence.
  - by apply transition_fence.
  - by apply transition_fence.
  - rewrite resetGatewayWorkAdmission_eq. by apply FenceInv_accepting.
Qed.

(** *** Roots *)

Lemma length_filter_insert {A} (p : A -> bool) (l : list A) i x y :
  l !! i = Some x ->
  (length (List.filter p (<[i:=y]> l)) + (if p x then 1 else 0) =
   length (List.filter p l) + (if p y then 1 else 0))%nat.
Proof.
  revert i. induction l as [|z l IH]; intros [|i]; simpl; try done.
  - intros [= ->]. destruct (p x), (p y); simpl; lia.
  - intros H%IH. destruct (p z); simpl; lia.
Qed.

Lemma length_filter_snoc {A} (p : A -> bool) (l : list A) x :
  length (List.filter p (l ++ [x])) = (length (List.filter p l) + if p x then 1 else 0)%nat.
Proof. induction l as [|y l IH]; simpl; [by destruct (p x)|]. destruct (p y); simpl; lia. Qed.

Lemma filter_length_pos {A} (p : A -> bool) (l : list A) i x :
  l !! i = Some x -> p x = true -> (0 < length (List.filter p l))%nat.
Proof.
  revert i. induction l as [|z l IH]; intros [|i]; simpl; try done.
  - intros [= ->] ->. simpl. lia.
  - intros H Hp. specialize (IH i H Hp). destruct (p z); simpl; lia.
Qed.

Lemma open_closures_insert s i c r :
  closures s !! i = Some c -> rc_leaseReleased c = false ->
  (length (List.filter (is_open_closure r)
     (<[i := {| rc_root := rc_root c; rc_leaseReleased := true |}]> (closures s))) +
   (if decide (rc_root c = r) then 1 else 0))%nat = open_closures r s.
Proof.
  intros Hc Hl. pose proof (length_filter_insert (is_open_closure r) (closures s) i c
    {| rc_root := rc_root c; rc_leaseReleased := true |} Hc) as H.
  unfold is_open_closure in H at 2 4. cbn in H. rewrite Hl, andb_false_r in H. cbn in H.
  rewrite andb_true_r in H. unfold open_closures.
  destruct (decide (rc_root c = r)) as [E|E].
  - rewrite bool_decide_eq_true_2 in H by done. lia.
  - rewrite bool_decide_eq_false_2 in H by done. lia.
Qed.

Lemma create_root s : RootInv s -> RootInv (createGatewayRootWorkAdmission s).2.
Proof.
  intros [[H1 H2 H3 H4] H5]. unfold createGatewayRootWorkAdmission. cbn [snd].
  assert (length (roots s) ∉ activeRootWork s) as Hfresh.
  { intros (root & Hl & _)%H1. apply lookup_lt_Some in Hl. lia. }
  split; [split|]; cbn.
  - intros r. rewrite elem_of_app, list_elem_of_singleton, H1. split.
    + intros [(root & Hl & Hr)| ->].
      * exists root. split; [|done]. by apply lookup_app_l_Some.
      * exists {| references := 1; released := false |}.
        by rewrite list_lookup_middle.
    + intros (root & Hl & Hr). apply lookup_app_Some in Hl as [Hl|[Hge Hl]]; [eauto|].
      right. apply list_lookup_singleton_Some in Hl as [? _]. lia.
  - apply NoDup_app. split; [done|]. split; [|apply NoDup_singleton].
    intros r Hr ->%list_elem_of_singleton. done.
  - intros r root Hl Hr. unfold open_closures. cbn. rewrite length_filter_snoc.
    apply lookup_app_Some in Hl as [Hl|[Hge Hl]].
    + destruct (H3 r root Hl Hr) as [-> Hpos]. unfold is_open_closure at 2. cbn.
      rewrite bool_decide_eq_false_2; [|apply lookup_lt_Some in Hl; lia].
      unfold open_closures in *. cbn. split; [f_equal; lia|done].
    + apply list_lookup_singleton_Some in Hl as [Hz <-].
      assert (r = length (roots s)) as -> by lia.
      assert (List.filter (is_open_closure (length (roots s))) (closures s) = []) as ->.
      { destruct (List.filter _ _) as [|c cs] eqn:E; [done|].
        assert (c ∈ List.filter (is_open_closure (length (roots s))) (closures s)) as Hc
          by (rewrite E; left).
        apply list_elem_of_In, List.filter_In in Hc as [Hc Ho].
        apply list_elem_of_In, list_elem_of_lookup_1 in Hc as [i Hi]. apply H4 in Hi.
        unfold is_open_closure in Ho. bool_to_prop. lia. }
      unfold is_open_closure. cbn. rewrite bool_decide_eq_true_2 by done. cbn. lia.
  - intros i c Hc. rewrite length_app. cbn. apply lookup_app_Some in Hc as [Hc|[_ Hc]].
    + apply H4 in Hc. lia.
    + apply list_lookup_singleton_Some in Hc as [_ <-]. cbn. lia.
  - intros E. by apply app_nil in E as [_ ?].
Qed.

Lemma retain_root c s : RootInv s -> RootInv (retainGatewayRootWorkAdmissionContinuation c s).2.
Proof.
  intros H. unfold retainGatewayRootWorkAdmissionContinuation.
  destruct c as [r0|]; [|done]. destruct (roots s !! r0) as [root0|] eqn:E0; [|done].
  destruct (released root0) eqn:Er0; [done|]. destruct H as [[H1 H2 H3 H4] H5].
  split; [split|done]; cbn; [|done| |].
  - intros r. rewrite H1. destruct (decide (r = r0)) as [->|Hne].
    + rewrite list_lookup_insert_eq by by eapply lookup_lt_Some. split; [|naive_solver].
      intros _. eexists. split; [done|]. done.
    + by rewrite list_lookup_insert_ne by done.
  - intros r root Hl Hr. unfold open_closures. cbn. rewrite length_filter_snoc.
    unfold is_open_closure at 2. cbn. rewrite andb_true_r.
    destruct (decide (r = r0)) as [->|Hne].
    + rewrite list_lookup_insert_eq in Hl by by eapply lookup_lt_Some. simplify_eq. cbn.
      destruct (H3 r0 root0 E0 Er0) as [-> Hpos]. rewrite bool_decide_eq_true_2 by done.
      unfold open_closures in *. lia.
    + rewrite list_lookup_insert_ne in Hl by done. rewrite bool_decide_eq_false_2 by congruence.
      destruct (H3 r root Hl Hr) as [-> Hpos]. unfold open_closures in *. lia.
  - intros i c Hc. rewrite length_insert. apply lookup_app_Some in Hc as [Hc|[_ Hc]]; [eauto|].
    apply list_lookup_singleton_Some in Hc as [_ <-]. cbn. by eapply lookup_lt_Some.
Qed.

(** A closure that still counts: not called, on a live record. *)
Definition closure_live (i : nat) s : Prop :=
  exists c root, closures s !! i = Some c /\ rc_leaseReleased c = false /\
    roots s !! rc_root c = Some root /\ released root = false.

(** The effect of a counting release, by how many closures are open. *)
Lemma releaseRootWork_live i s c root :
  RootInv s ->
  closures s !! i = Some c -> rc_leaseReleased c = false ->
  roots s !! rc_root c = Some root -> released root = false ->
  let closures' := <[i := {| rc_root := rc_root c; rc_leaseReleased := true |}]> (closures s) in
  let refs := (references root - 1)%Z in
  releaseRootWork i s =
  if decide (1 < open_closures (rc_root c) s)%nat then
    (set_roots (activeRootWork s)
       (<[rc_root c := {| references := refs; released := false |}]> (roots s)) closures' s, [])
  else
    let active := List.filter (fun r => negb (bool_decide (r = rc_root c))) (activeRootWork s) in
    let s' := set_roots active (<[rc_root c := {| references := refs; released := true |}]> (roots s))
      closures' s in
    if bool_decide (active = []) then resolveRootDrainWaiters s' else (s', []).
Proof.
  intros Hinv Hc Hl Hr Hrel. unfold releaseRootWork. rewrite Hc, Hr, Hl, Hrel. cbn [orb].
  destruct (ri_refs _ (ri_core _ Hinv) _ _ Hr Hrel) as [Href _].
  case_bool_decide as Hb; case_decide as Hd; try done; lia.
Qed.

Lemma releaseRootWork_dead i s : ~ closure_live i s -> releaseRootWork i s = (s, []).
Proof.
  intros H. unfold releaseRootWork. destruct (closures s !! i) as [c|] eqn:Hc; [|done].
  destruct (roots s !! rc_root c) as [root|] eqn:Hr; [|done].
  destruct (rc_leaseReleased c) eqn:Hl; [done|]. destruct (released root) eqn:Hrel; [done|].
  exfalso. apply H. by exists c, root.
Qed.

Lemma closure_live_dec i s : closure_live i s \/ ~ closure_live i s.
Proof.
  unfold closure_live. destruct (closures s !! i) as [c|]; [|right; intros (?&?&?&?&?&?); simplify_eq; congruence].
  destruct (rc_leaseReleased c) eqn:Hl; [right; intros (?&?&?&?&?&?); simplify_eq; congruence|].
  destruct (roots s !! rc_root c) as [root|] eqn:Hr; [|right; intros (?&?&?&?&?&?); simplify_eq; congruence].
  destruct (released root) eqn:Hrel; [right; intros (?&?&?&?&?&?); simplify_eq; congruence|]. left. eauto 10.
Qed.

Lemma retire_lookup rs active r :
  retire rs active !! r =
  if decide (r ∈ active)
  then (fun _ => {| references := 0; released := true |}) <$> rs !! r else rs !! r.
Proof.
  revert rs. induction active as [|x active IH]; intros rs; cbn [retire foldl].
  { by rewrite decide_False by set_solver. }
  fold (retire (<[x:={| references := 0; released := true |}]> rs) active). rewrite IH.
  destruct (decide (x = r)) as [->|Hne].
  - rewrite (decide_True (P := r ∈ r :: active)) by set_solver. rewrite list_lookup_insert.
    case_decide; destruct (decide (r < length rs)%nat) as [Hlt|Hge].
    1,3: rewrite decide_True by done; apply lookup_lt_is_Some in Hlt as [y ->]; done.
    all: rewrite decide_False by tauto; rewrite lookup_ge_None_2 by lia; done.
  - rewrite list_lookup_insert_ne by done. destruct (decide (r ∈ active)).
    + by rewrite decide_True by set_solver.
    + by rewrite decide_False by set_solver.
Qed.

Lemma reset_root s : RootInv s -> RootInv (resetGatewayWorkAdmission s).1.
Proof.
  intros [[H1 H2 H3 H4] H5]. rewrite resetGatewayWorkAdmission_eq.
  assert (forall r root, retire (roots s) (activeRootWork s) !! r = Some root ->
    released root = true) as Hall.
  { intros r root. rewrite retire_lookup. case_decide as Hr.
    - destruct (roots s !! r); simpl; [by intros [= <-]|done].
    - intros Hl. destruct (released root) eqn:E; [done|]. exfalso. apply Hr, H1. eauto. }
  split; [split|done]; cbn.
  - intros r. split; [set_solver|]. intros (root & Hl%Hall & Hr). congruence.
  - constructor.
  - intros r root Hl%Hall. congruence.
  - intros i c Hc%H4. unfold retire. clear -Hc. revert Hc. generalize (roots s).
    induction (activeRootWork s) as [|x l IH]; intros rs Hc; cbn [foldl]; [done|].
    apply IH. by rewrite length_insert.
Qed.

Lemma release_core i s c root :
  RootInv s -> closures s !! i = Some c -> rc_leaseReleased c = false ->
  roots s !! rc_root c = Some root -> released root = false ->
  let last := bool_decide (open_closures (rc_root c) s <= 1)%nat in
  RootCore (set_roots
    (if last then List.filter (fun r => negb (bool_decide (r = rc_root c))) (activeRootWork s)
     else activeRootWork s)
    (<[rc_root c := {| references := references root - 1; released := last |}]> (roots s))
    (<[i := {| rc_root := rc_root c; rc_leaseReleased := true |}]> (closures s)) s).
Proof.
  intros Hinv Hc Hl Hr Hrel last. pose proof Hinv as [[H1 H2 H3 H4] H5]. set (r0 := rc_root c) in *.
  pose proof (fun r => open_closures_insert s i c r Hc Hl) as Hopen. fold r0 in Hopen.
  destruct (H3 r0 root Hr Hrel) as [Href Hpos].
  assert (r0 < length (roots s))%nat as Hlt by by eapply lookup_lt_Some.
  split; cbn.
  - intros r. trans (r ∈ activeRootWork s /\ (last = true -> r <> r0)).
    { destruct last; [|naive_solver].
      rewrite list_elem_of_In, List.filter_In, <- list_elem_of_In, negb_true_iff, bool_decide_eq_false.
      naive_solver. }
    rewrite H1. destruct (decide (r = r0)) as [->|Hne].
    + rewrite list_lookup_insert_eq by done. split.
      * intros [_ Hlast]. eexists. split; [done|]. cbn. apply not_true_is_false.
        intros E. by apply Hlast.
      * intros (? & [= <-] & Hlast). cbn in Hlast. split; [eauto|]. by rewrite Hlast.
    + rewrite list_lookup_insert_ne by done. naive_solver.
  - destruct last; [|done]. by apply NoDup_ListNoDup, List.NoDup_filter, NoDup_ListNoDup.
  - intros r root' Hl' Hr'. specialize (Hopen r). unfold open_closures in *. cbn.
    destruct (decide (r = r0)) as [->|Hne].
    + rewrite list_lookup_insert_eq in Hl' by done. simplify_eq. cbn in *.
      apply bool_decide_eq_false in Hr'. rewrite decide_True in Hopen by done. lia.
    + rewrite list_lookup_insert_ne in Hl' by done. rewrite decide_False in Hopen by congruence.
      destruct (H3 r root' Hl' Hr') as [-> ?]. lia.
  - intros j cj. rewrite length_insert.
    intros [(-> & <- & _)|[_ Hj]]%list_lookup_insert_Some; [done|eauto].
Qed.

Lemma release_root i s : RootInv s -> RootInv (releaseRootWork i s).1.
Proof.
  intros Hinv. destruct (closure_live_dec i s) as [(c & root & Hc & Hl & Hr & Hrel)|Hd];
    [|by rewrite releaseRootWork_dead].
  pose proof (release_core i s c root Hinv Hc Hl Hr Hrel) as Hcore. cbv zeta in Hcore.
  rewrite (releaseRootWork_live i s c root) by done. cbv zeta.
  destruct (decide (1 < open_closures (rc_root c) s)%nat) as [Hgt|Hle].
  - rewrite bool_decide_eq_false_2 in Hcore by lia. split; [done|]. apply Hinv.
  - rewrite bool_decide_eq_true_2 in Hcore by lia. case_bool_decide as Ha.
    + split; [|done]. by eapply RootCore_ext; [..|exact Hcore].
    + split; [done|]. intros ?. done.
Qed.

Lemma tryRoot_root c s : RootInv s -> RootInv (tryBeginGatewayRootWorkAdmission c s).2.
Proof.
  intros H. unfold tryBeginGatewayRootWorkAdmission.
  destruct (live s c); [done|]. destruct (_ || _ || _); [done|]. by apply create_root.
Qed.

Lemma tryIndependent_root s : RootInv s -> RootInv (tryBeginGatewayIndependentRootWorkAdmission s).2.
Proof.
  intros H. unfold tryBeginGatewayIndependentRootWorkAdmission.
  destruct (_ || _ || _); [done|]. by apply create_root.
Qed.

Lemma waitTurn_root w try s :
  (forall s, RootInv s -> RootInv (try s).2) -> RootInv s -> RootInv (waitTurn w try s).2.
Proof.
  intros Htry H. unfold waitTurn. destruct (restartDraining s); [done|].
  specialize (Htry s H). destruct (try s) as [[lease|] s']; [done|]. by apply (RootInv_ext s').
Qed.

Lemma step_root op s : RootInv s -> RootInv (step op s).1.
Proof.
  intros H. destruct op; cbn [step quiet fst].
  - by apply tryRoot_root.
  - by apply tryIndependent_root.
  - apply waitTurn_root; auto using tryRoot_root.
  - apply waitTurn_root; auto using tryIndependent_root.
  - unfold runWithGatewayIndependentRootWorkContinuation. destruct (live s current); cbn [negb].
    + by apply create_root.
    + apply waitTurn_root; auto using tryIndependent_root.
  - by apply retain_root.
  - by apply release_root.
  - unfold waitForActiveGatewayRootWork. case_bool_decide; [done|].
    cbv zeta. destruct (match _ with Some _ => num_zero _ | None => _ end); [done|].
    split; [by apply (RootCore_ext s), H|done].
  - split; [by apply (RootCore_ext s), H|]. cbn. intros E. by rewrite (ri_waiters _ H E).
  - unfold beginGatewayRestartSignalAdmission. destruct (_ || _); [done|]. by apply (RootInv_ext s).
  - unfold rollbackRestartSignal. destruct (_ || _); [done|]. rewrite clearRestartSignalFence_eq.
    destruct (_ || _); [done|]. by apply (RootInv_ext s).
  - unfold rollbackGatewayRestartSignalFence. rewrite clearRestartSignalFence_eq.
    destruct (_ || _); [done|]. by apply (RootInv_ext s).
  - rewrite markGatewayRestartDraining_eq. destruct (restartDraining s); [done|]. cbv zeta.
    case_bool_decide; [by apply (RootInv_ext s)|].
    rewrite invalidateSuspendAdmission_eq. by apply (RootInv_ext s).
  - unfold tryBeginGatewaySuspendAdmission. destruct (_ || _ || _); [done|]. by apply (RootInv_ext s).
  - unfold suspend_commit. rewrite transition_eq. destruct (_ || _); [done|]. by apply (RootInv_ext s).
  - unfold suspend_rollback. rewrite transition_eq. destruct (_ || _); [done|]. by apply (RootInv_ext s).
  - unfold suspend_release. rewrite transition_eq. destruct (_ || _); [done|]. by apply (RootInv_ext s).
  - by apply reset_root.
Qed.

Lemma reachable_inv s : reachable s -> FenceInv s /\ RootInv s.
Proof.
  induction 1 as [|s op _ [IHf IHr]].
  - split; [by apply FenceInv_accepting|]. split; [|done].
    split; cbn; try done; [|constructor]. intros r. split; [set_solver|]. by intros (? & ? & _).
  - split; [by apply step_fence|by apply step_root].
Qed.

(** ** What the fence promises *)

(** The generation of a fence grows whenever the fence closes or is lifted, so the
    leases of earlier closings are stale; only the lease of the current suspension
    moves its phase without a new generation. *)
Definition generations_advance (op : AdmissionOp) (s s' : GatewayWorkAdmissionState) : Prop :=
  (restartSignalGeneration s <= restartSignalGeneration s')%nat /\
  (suspendGeneration s <= suspendGeneration s')%nat /\
  ((restartDraining s', restartSignalPending s') <> (restartDraining s, restartSignalPending s) \/ op = Reset ->
    (restartSignalGeneration s < restartSignalGeneration s')%nat) /\
  (suspendPhase s' <> suspendPhase s \/ op = Reset ->
    (suspendGeneration s < suspendGeneration s')%nat \/
    op = CommitSuspend (suspendGeneration s) /\ suspendPhase s = Preparing /\ suspendPhase s' = Prepared \/
    op = RollbackSuspend (suspendGeneration s) /\ suspendPhase s = Preparing /\ suspendPhase s' = Accepting \/
    op = ReleaseSuspend (suspendGeneration s) /\ suspendPhase s = Prepared /\ suspendPhase s' = Accepting).

(** The fields that the clauses speak of. *)
Definition fence_fields (s : GatewayWorkAdmissionState) :=
  (restartDraining s, restartSignalPending s, restartSignalGeneration s, suspendPhase s, suspendGeneration s).

Lemma same_fences op s s' : fence_fields s' = fence_fields s -> op <> Reset -> generations_advance op s s'.
Proof.
  intros [= E1 E2 E3 E4 E5] Hop. unfold generations_advance. rewrite E1, E2, E3, E4, E5.
  split_and!; [done|done| |]; by intros [?|?].
Qed.

Lemma tryRoot_fences c s : fence_fields (tryBeginGatewayRootWorkAdmission c s).2 = fence_fields s.
Proof. unfold tryBeginGatewayRootWorkAdmission. destruct (live s c); [done|]. by destruct (_ || _ || _). Qed.

Lemma tryIndependent_fences s : fence_fields (tryBeginGatewayIndependentRootWorkAdmission s).2 = fence_fields s.
Proof. unfold tryBeginGatewayIndependentRootWorkAdmission. by destruct (_ || _ || _). Qed.

Lemma waitTurn_fences w try s : (forall s, fence_fields (try s).2 = fence_fields s) ->
  fence_fields (waitTurn w try s).2 = fence_fields s.
Proof.
  intros Htry. unfold waitTurn. destruct (restartDraining s); [done|]. specialize (Htry s).
  by destruct (try s) as [[lease|] s'].
Qed.

Lemma clearRestart_generations op s : op <> Reset -> generations_advance op s (clearRestartSignalFence s).2.1.
Proof.
  intros Hop. rewrite clearRestartSignalFence_eq. destruct (_ || _); [by apply same_fences|].
  unfold generations_advance. cbn. split_and!; [lia|done|lia|by intros [?|?]].
Qed.

Lemma transition_generations op g e n s : op <> Reset ->
  (suspendGeneration s = g -> suspendPhase s = e -> n <> e ->
    op = CommitSuspend g /\ e = Preparing /\ n = Prepared \/ op = RollbackSuspend g /\ e = Preparing /\ n = Accepting \/
    op = ReleaseSuspend g /\ e = Prepared /\ n = Accepting) ->
  generations_advance op s (transition g e n s).2.1.
Proof.
  intros Hop Hmove. rewrite transition_eq. destruct (_ || _) eqn:E; [by apply same_fences|]. bool_to_prop.
  assert (forall s', restartDraining s' = restartDraining s -> restartSignalPending s' = restartSignalPending s ->
    restartSignalGeneration s' = restartSignalGeneration s -> suspendGeneration s' = suspendGeneration s ->
    suspendPhase s' = n -> generations_advance op s s') as Hgen.
  { intros s' E1 E2 E3 E4 E5. unfold generations_advance. rewrite E1, E2, E3, E4, E5.
    split_and!; [done|done|by intros [?|?]|]. intros [Hne|?]; [|done]. right.
    destruct (Hmove ltac:(done) ltac:(done) ltac:(congruence)) as [(-> & -> & ->)|[(-> & -> & ->)|(-> & -> & ->)]]; naive_solver. }
  case_bool_decide; by apply Hgen.
Qed.

Lemma step_generations op s : generations_advance op s (step op s).1.
Proof.
  destruct op; cbn [step quiet fst].
  - apply same_fences; [apply tryRoot_fences|done].
  - apply same_fences; [apply tryIndependent_fences|done].
  - apply same_fences; [|done]. apply waitTurn_fences. apply tryRoot_fences.
  - apply same_fences; [|done]. apply waitTurn_fences. apply tryIndependent_fences.
  - apply same_fences; [|done]. unfold runWithGatewayIndependentRootWorkContinuation.
    destruct (live s current); cbn [negb]; [done|]. apply waitTurn_fences. apply tryIndependent_fences.
  - apply same_fences; [|done]. unfold retainGatewayRootWorkAdmissionContinuation. by repeat case_match.
  - apply same_fences; [|done]. unfold releaseRootWork. destruct (closures s !! closure) as [c|]; [|done].
    destruct (roots s !! rc_root c) as [root|]; [|done]. destruct (_ || _); [done|].
    destruct (bool_decide (0 < _)%Z); [done|]. by destruct (bool_decide (activeRootWork _ = [])).
  - apply same_fences; [|done]. unfold waitForActiveGatewayRootWork. by repeat case_match.
  - by apply same_fences.
  - unfold beginGatewayRestartSignalAdmission. destruct (_ || _); [by apply same_fences|].
    unfold generations_advance. cbn. split_and!; [lia|done|lia|by intros [?|?]].
  - unfold rollbackRestartSignal. destruct (_ || _); [by apply same_fences|by apply clearRestart_generations].
  - by apply clearRestart_generations.
  - rewrite markGatewayRestartDraining_eq. destruct (restartDraining s) eqn:Ed; [by apply same_fences|]. cbv zeta.
    case_bool_decide as Ep; rewrite ?invalidateSuspendAdmission_eq; unfold generations_advance; cbn.
    + split_and!; [lia|done|lia|by intros [?|?]].
    + split_and!; [lia|lia|lia|by left; lia].
  - unfold tryBeginGatewaySuspendAdmission. destruct (_ || _ || _); [by apply same_fences|].
    unfold generations_advance. cbn. split_and!; [done|lia|by intros [?|?]|by left; lia].
  - apply transition_generations; [done|]. naive_solver.
  - apply transition_generations; [done|]. naive_solver.
  - apply transition_generations; [done|]. naive_solver.
  - rewrite resetGatewayWorkAdmission_eq. unfold generations_advance. cbn. split_and!; [lia|lia|lia|by left; lia].
Qed.

(** C12. In every state of the process: the active set is exactly the records
    that were not released, each held by as many release closures as its
    reference count says (at least one); a drain excludes suspension and the
    signal fence; the suspension callback is armed exactly while suspension is
    not accepting; nobody waits at an open fence or for an empty set; and no
    operation takes a generation back, each change of the restart fence takes a
    new one, and each change of the suspension takes a new one or is that of the
    lease of the current generation. *)
Theorem work_admission_invariant s :
  reachable s ->
  (forall r, r ∈ activeRootWork s <-> live s (Some r) = true) /\ NoDup (activeRootWork s) /\
  (forall r root, roots s !! r = Some root -> released root = false ->
    references root = Z.of_nat (open_closures r s) /\ (0 < references root)%Z) /\
  (restartDraining s = true -> restartSignalPending s = false /\ suspendPhase s = Accepting) /\
  (suspendInvalidated s = None <-> suspendPhase s = Accepting) /\
  (isGatewayWorkAdmissionClosed s = false \/ restartDraining s = true ->
    suspendOpenWaiters s = []) /\
  (activeRootWork s = [] -> rootDrainWaiters s = []) /\
  (forall op, generations_advance op s (step op s).1).
Proof.
  intros [[Hd Hc Ho] [[H1 H2 H3 H4] H5]]%reachable_inv.
  split_and!; try done.
  - intros r. rewrite H1. unfold live. cbn. destruct (roots s !! r) as [root|]; [|naive_solver].
    rewrite negb_true_iff. split; [by intros (? & [= <-] & ?)|eauto].
  - intros E. split; by apply Hd.
  - intros [E|E]; [by apply Ho|by apply Hd].
  - intros op. apply step_generations.
Qed.

Lemma work_admission_invariant_witness :
  let s := run [TryRoot None; Retain (Some 0%nat); Release 0; BeginSuspend 5; WhenOpen None 9]
             initial_admission in
  suspendOpenWaiters s = [9%nat] /\ (0%nat ∈ activeRootWork s <-> live s (Some 0%nat) = true).
Proof.
  cbv zeta. split; [by vm_compute|]. apply work_admission_invariant.
  unfold run. cbn [foldl]. repeat apply reachable_step. apply reachable_initial.
Defined.

(** A closed fence admits no new root and an open one admits exactly one:
    closed, a caller outside live root work is refused without any change, or
    fails when the process drains, or is queued once more; open, the caller
    gets a fresh live record that joins the active set. *)
Theorem root_admission s current waiter :
  reachable s -> live s current = false ->
  (isGatewayWorkAdmissionClosed s = true ->
    tryBeginGatewayRootWorkAdmission current s = (None, s) /\
    tryBeginGatewayIndependentRootWorkAdmission s = (None, s) /\
    beginGatewayRootWorkAdmissionWhenOpen current waiter s =
      (if restartDraining s then (DrainingError, s)
       else (Waiting, set_waiters (rootDrainWaiters s) (suspendOpenWaiters s ++ [waiter]) s)) /\
    runWithGatewayIndependentRootWorkContinuation current waiter s =
      runWithGatewayIndependentRootWorkAdmission waiter s) /\
  (isGatewayWorkAdmissionClosed s = false ->
    exists root closure s',
      tryBeginGatewayRootWorkAdmission current s = (Some (OwnsRoot root closure), s') /\
      tryBeginGatewayIndependentRootWorkAdmission s = (Some (OwnsRoot root closure), s') /\
      beginGatewayRootWorkAdmissionWhenOpen current waiter s = (Granted (OwnsRoot root closure), s') /\
      (root ∉ activeRootWork s) /\ activeRootWork s' = activeRootWork s ++ [root] /\
      live s' (Some root) = true /\ closure_live closure s').
Proof.
  intros [_ [[H1 _ _ _] _]]%reachable_inv Hlive. unfold isGatewayWorkAdmissionClosed.
  unfold beginGatewayRootWorkAdmissionWhenOpen, waitTurn, tryBeginGatewayRootWorkAdmission,
    tryBeginGatewayIndependentRootWorkAdmission, runWithGatewayIndependentRootWorkContinuation.
  rewrite Hlive. split; intros Hc; rewrite Hc.
  - by split_and!.
  - assert (restartDraining s = false) as -> by by destruct (restartDraining s).
    cbn [createGatewayRootWorkAdmission]. eexists _, _, _. split_and!; try done.
    + intros (root & Hl & _)%H1. apply lookup_lt_Some in Hl. lia.
    + unfold live. cbn. by rewrite list_lookup_middle.
    + exists {| rc_root := length (roots s); rc_leaseReleased := false |},
        {| references := 1; released := false |}.
      cbn. by rewrite !list_lookup_middle.
Qed.

Lemma root_admission_witness :
  let s := run [BeginSuspend 5] initial_admission in
  tryBeginGatewayRootWorkAdmission None s = (None, s) /\
  exists root closure s', tryBeginGatewayRootWorkAdmission None initial_admission
    = (Some (OwnsRoot root closure), s').
Proof.
  cbv zeta. split.
  - apply (root_admission _ None 0); [|done..]. apply (reachable_step _ (BeginSuspend 5) reachable_initial).
  - destruct (root_admission initial_admission None 0 reachable_initial) as [_ H]; [done|].
    destruct H as (root & closure & s' & H & _); [done|]. eauto.
Defined.

(** *** Waking up *)

Lemma resolve_open_waiters w s : w ∈ suspendOpenWaiters s ->
  WaiterResolved w ∈ (resolveSuspendOpenWaiters s).2.
Proof. intros H. cbn. apply list_elem_of_fmap. eauto. Qed.

Lemma invalidate_wakes w s : w ∈ suspendOpenWaiters s ->
  WaiterResolved w ∈ (invalidateSuspendAdmission s).2.
Proof.
  intros H. unfold invalidateSuspendAdmission. cbn [then_ resolveSuspendOpenWaiters].
  destruct (negb (bool_decide (suspendPhase s = Accepting)) && _), (suspendInvalidated s); cbn;
    rewrite elem_of_app; left; apply list_elem_of_fmap; eauto.
Qed.

Lemma clear_wakes w s : w ∈ suspendOpenWaiters s ->
  w ∈ suspendOpenWaiters (clearRestartSignalFence s).2.1 \/
  WaiterResolved w ∈ (clearRestartSignalFence s).2.2.
Proof.
  intros H. unfold clearRestartSignalFence. destruct (_ || _); [by left|]. right. cbn.
  rewrite elem_of_app. left. apply list_elem_of_fmap. eauto.
Qed.

Lemma waitTurn_keeps w v try s :
  (forall s, suspendOpenWaiters (try s).2 = suspendOpenWaiters s) ->
  w ∈ suspendOpenWaiters s -> w ∈ suspendOpenWaiters (waitTurn v try s).2.
Proof.
  intros Ht H. unfold waitTurn. destruct (restartDraining s); [done|].
  specialize (Ht s). destruct (try s) as [[l|] s']; cbn in *; rewrite Ht; [done|]. set_solver.
Qed.

Lemma try_keeps current s :
  suspendOpenWaiters (tryBeginGatewayRootWorkAdmission current s).2 = suspendOpenWaiters s /\
  suspendOpenWaiters (tryBeginGatewayIndependentRootWorkAdmission s).2 = suspendOpenWaiters s.
Proof.
  unfold tryBeginGatewayRootWorkAdmission, tryBeginGatewayIndependentRootWorkAdmission.
  destruct (live s current), (_ || _ || _); done.
Qed.

Lemma try_drain current s :
  rootDrainWaiters (tryBeginGatewayRootWorkAdmission current s).2 = rootDrainWaiters s /\
  rootDrainWaiters (tryBeginGatewayIndependentRootWorkAdmission s).2 = rootDrainWaiters s.
Proof.
  unfold tryBeginGatewayRootWorkAdmission, tryBeginGatewayIndependentRootWorkAdmission.
  destruct (live s current), (_ || _ || _); done.
Qed.

Lemma waitTurn_drain v try s :
  (forall s, rootDrainWaiters (try s).2 = rootDrainWaiters s) ->
  rootDrainWaiters (waitTurn v try s).2 = rootDrainWaiters s.
Proof.
  intros Ht. unfold waitTurn. destruct (restartDraining s); [done|].
  specialize (Ht s). by destruct (try s) as [[l|] s'].
Qed.

Lemma transition_wakes w g e n s : w ∈ suspendOpenWaiters s ->
  w ∈ suspendOpenWaiters (transition g e n s).2.1 \/ WaiterResolved w ∈ (transition g e n s).2.2.
Proof.
  intros H. unfold transition. destruct (_ || _); [by left|].
  destruct (bool_decide (n = Accepting)); [|by left]. right. cbn. rewrite elem_of_app. left.
  apply list_elem_of_fmap. eauto.
Qed.

(** Nobody leaves the open waiters without being resolved. *)
Lemma step_wakes w op s : w ∈ suspendOpenWaiters s ->
  w ∈ suspendOpenWaiters (step op s).1 \/ WaiterResolved w ∈ (step op s).2.
Proof.
  intros H. destruct op; cbn [step quiet fst snd].
  - left. by rewrite (proj1 (try_keeps _ _)).
  - left. by rewrite (proj2 (try_keeps None _)).
  - left. apply waitTurn_keeps; [intros; apply try_keeps|done].
  - left. apply waitTurn_keeps; [intros; apply (try_keeps None)|done].
  - left. unfold runWithGatewayIndependentRootWorkContinuation. destruct (live s current); cbn [negb];
      [done|]. apply waitTurn_keeps; [intros; apply (try_keeps None)|done].
  - left. unfold retainGatewayRootWorkAdmissionContinuation. by repeat case_match.
  - left. unfold releaseRootWork. destruct (closures s !! closure) as [c|]; [|done].
    destruct (roots s !! rc_root c) as [root|]; [|done]. destruct (_ || _); [done|].
    destruct (bool_decide (0 < _)%Z); [done|]. by destruct (bool_decide (activeRootWork _ = [])).
  - left. unfold waitForActiveGatewayRootWork. by repeat case_match.
  - by left.
  - left. unfold beginGatewayRestartSignalAdmission. by destruct (_ || _).
  - unfold rollbackRestartSignal. destruct (_ || _); [by left|]. by apply clear_wakes.
  - by apply clear_wakes.
  - unfold markGatewayRestartDraining. destruct (restartDraining s); [by left|]. right.
    apply (resolve_open_waiters w (set_restart true false (S (restartSignalGeneration s)) s)) in H.
    cbn [resolveSuspendOpenWaiters snd then_] in *. cbv zeta.
    destruct (then_ (emit _ _) _) as [s' ev]. cbn. rewrite elem_of_app. by left.
  - left. unfold tryBeginGatewaySuspendAdmission. by destruct (_ || _ || _).
  - by apply transition_wakes.
  - by apply transition_wakes.
  - by apply transition_wakes.
  - unfold resetGatewayWorkAdmission. cbn [then_ resolveRootDrainWaiters]. right.
    match goal with |- context [negb (bool_decide (suspendPhase ?x = Accepting))] => set (s1 := x) end.
    destruct (negb (bool_decide (suspendPhase s1 = Accepting))).
    + pose proof (invalidate_wakes w s1 H) as Hw.
      destruct (invalidateSuspendAdmission s1) as [s2 ev]. cbn in *. rewrite !elem_of_app. tauto.
    + cbn. rewrite !elem_of_app. right. apply list_elem_of_fmap. eauto.
Qed.

(** Nobody leaves the drain waiters without being resolved, but by the end of the
    wait itself. *)
Lemma step_drain_wakes w op s : w ∈ rootDrainWaiters s ->
  w ∈ rootDrainWaiters (step op s).1 \/ DrainWaiterResolved w ∈ (step op s).2 \/ op = FinishWait w.
Proof.
  intros H. destruct op; cbn [step quiet fst snd].
  - left. unfold tryBeginGatewayRootWorkAdmission. destruct (live s current); [done|]. by destruct (_ || _ || _).
  - left. unfold tryBeginGatewayIndependentRootWorkAdmission. by destruct (_ || _ || _).
  - left. unfold beginGatewayRootWorkAdmissionWhenOpen. by rewrite waitTurn_drain by (intros; apply try_drain).
  - left. unfold runWithGatewayIndependentRootWorkAdmission. by rewrite waitTurn_drain by (intros; apply (try_drain None)).
  - left. unfold runWithGatewayIndependentRootWorkContinuation. destruct (live s current); cbn [negb]; [done|].
    unfold runWithGatewayIndependentRootWorkAdmission. by rewrite waitTurn_drain by (intros; apply (try_drain None)).
  - left. unfold retainGatewayRootWorkAdmissionContinuation. by repeat case_match.
  - unfold releaseRootWork. destruct (closures s !! closure) as [c|]; [|by left].
    destruct (roots s !! rc_root c) as [root|]; [|by left]. destruct (_ || _); [by left|].
    destruct (bool_decide (0 < _)%Z); [by left|]. destruct (bool_decide (activeRootWork _ = [])); [|by left].
    right. left. cbn. apply list_elem_of_fmap. eauto.
  - left. unfold waitForActiveGatewayRootWork. repeat case_match; try done; cbn; apply elem_of_app; by left.
  - destruct (decide (waiter = w)) as [->|Hne]; [by right; right|]. left. cbn.
    apply elem_of_filter_bool. split; [done|]. by rewrite bool_decide_eq_false_2.
  - left. unfold beginGatewayRestartSignalAdmission. by destruct (_ || _).
  - left. unfold rollbackRestartSignal. destruct (_ || _); [done|]. rewrite clearRestartSignalFence_eq. by destruct (_ || _).
  - left. unfold rollbackGatewayRestartSignalFence. rewrite clearRestartSignalFence_eq. by destruct (_ || _).
  - left. rewrite markGatewayRestartDraining_eq. destruct (restartDraining s); [done|]. cbv zeta.
    case_bool_decide; [done|]. by rewrite invalidateSuspendAdmission_eq.
  - left. unfold tryBeginGatewaySuspendAdmission. by destruct (_ || _ || _).
  - left. unfold suspend_commit. rewrite transition_eq. by destruct (_ || _).
  - left. unfold suspend_rollback. rewrite transition_eq. by destruct (_ || _).
  - left. unfold suspend_release. rewrite transition_eq. by destruct (_ || _).
  - right. left. unfold resetGatewayWorkAdmission. cbn [then_ resolveRootDrainWaiters].
    match goal with |- context [if ?b then _ else _] => destruct b end.
    + match goal with |- context [invalidateSuspendAdmission ?x] => destruct (invalidateSuspendAdmission x) as [s2 ev] end.
      cbn. rewrite !elem_of_app. left. apply list_elem_of_fmap. eauto.
    + cbn. rewrite !elem_of_app. left. apply list_elem_of_fmap. eauto.
Qed.

(** C13. No wake-up is lost.  Whoever waits for the fence stays queued until the
    operation that resolves it, and the operation that opens the fence or turns
    to draining resolves everyone who waits.  Whoever waits for the active roots
    stays queued until it is resolved or its own wait ends (by its timer), and
    the operation that empties the active set resolves everyone who waits. *)
Theorem no_lost_wakeup s op w :
  reachable s ->
  (w ∈ suspendOpenWaiters s ->
    (w ∈ suspendOpenWaiters (step op s).1 \/ WaiterResolved w ∈ (step op s).2) /\
    (isGatewayWorkAdmissionClosed (step op s).1 = false \/ restartDraining (step op s).1 = true ->
      WaiterResolved w ∈ (step op s).2)) /\
  (w ∈ rootDrainWaiters s ->
    (w ∈ rootDrainWaiters (step op s).1 \/ DrainWaiterResolved w ∈ (step op s).2 \/ op = FinishWait w) /\
    (activeRootWork (step op s).1 = [] -> DrainWaiterResolved w ∈ (step op s).2)).
Proof.
  intros Hr. destruct (reachable_inv _ (reachable_step s op Hr)) as [[Hd _ Hc] Hroot].
  split; intros Hw.
  - pose proof (step_wakes w op s Hw) as H. split; [done|]. intros Ho.
    destruct H as [H|H]; [|done]. destruct Ho as [Ho|Ho].
    + rewrite (Hc Ho) in H. set_solver.
    + destruct (Hd Ho) as (_ & _ & E). rewrite E in H. set_solver.
  - pose proof (step_drain_wakes w op s Hw) as H. split; [done|]. intros Ha.
    destruct H as [H|[H| ->]]; [|done|].
    + rewrite (ri_waiters _ Hroot Ha) in H. by apply elem_of_nil in H.
    + destruct (reachable_inv _ Hr) as [_ Hroot']. rewrite (ri_waiters _ Hroot' Ha) in Hw. by apply elem_of_nil in Hw.
Qed.

Lemma no_lost_wakeup_witness :
  let s := run [BeginSuspend 5; CommitSuspend 1; WhenOpen None 9] initial_admission in
  let s' := run [TryRoot None; WaitForRoots None 7] initial_admission in
  WaiterResolved 9 ∈ (step (ReleaseSuspend 1) s).2 /\ DrainWaiterResolved 7 ∈ (step (Release 0) s').2.
Proof.
  cbv zeta. split.
  - apply no_lost_wakeup; [|by left|].
    + unfold run. cbn [foldl]. repeat apply reachable_step. apply reachable_initial.
    + apply (bool_decide_unpack _). by vm_compute.
  - apply no_lost_wakeup; [|by left|by vm_compute].
    unfold run. cbn [foldl]. repeat apply reachable_step. apply reachable_initial.
Defined.

(** *** Releases *)

(** A release counts exactly once: calling a live closure keeps its record
    active if and only if another closure of the record is still open, leaves
    the other records alone, and wakes the drain waiters exactly when the
    active set becomes empty; calling it again does nothing. *)
Theorem release_exactly_once s i c root :
  reachable s ->
  closures s !! i = Some c -> rc_leaseReleased c = false ->
  roots s !! rc_root c = Some root -> released root = false ->
  let s' := (releaseRootWork i s).1 in
  (rc_root c ∈ activeRootWork s' <-> (1 < open_closures (rc_root c) s)%nat) /\
  (forall r, r <> rc_root c -> r ∈ activeRootWork s' <-> r ∈ activeRootWork s) /\
  releaseRootWork i s' = (s', []) /\
  (releaseRootWork i s).2 =
    (if decide (activeRootWork s' = []) then DrainWaiterResolved <$> rootDrainWaiters s else []).
Proof.
  intros [_ Hinv]%reachable_inv Hc Hl Hr Hrel.
  assert (rc_root c ∈ activeRootWork s) as Hin.
  { apply (ri_active _ (ri_core _ Hinv)). eauto. }
  assert (i < length (closures s))%nat as Hi by by eapply lookup_lt_Some.
  assert (forall s', closures s' = <[i:={| rc_root := rc_root c; rc_leaseReleased := true |}]> (closures s)
    -> releaseRootWork i s' = (s', [])) as Hagain.
  { intros s' E. apply releaseRootWork_dead. intros (c' & root' & Hc' & Hl' & _).
    rewrite E, list_lookup_insert_eq in Hc' by done. by simplify_eq. }
  rewrite (releaseRootWork_live i s c root) by done. cbv zeta.
  destruct (decide (1 < open_closures (rc_root c) s)%nat) as [Hgt|Hle].
  - cbn [fst snd]. rewrite decide_False by (cbn; intros E; by rewrite E in Hin; apply elem_of_nil in Hin).
    split_and!; try done. by apply Hagain.
  - set (active := List.filter _ _).
    assert (forall r, r ∈ active <-> r ∈ activeRootWork s /\ r <> rc_root c) as Ha.
    { intros r. unfold active. rewrite !list_elem_of_In, List.filter_In, negb_true_iff.
      by rewrite bool_decide_eq_false. }
    case_bool_decide as He; cbn [fst snd resolveRootDrainWaiters].
    + rewrite decide_True by done. cbn.
      split_and!; [rewrite Ha; naive_solver|intros r ?; rewrite Ha; tauto|by apply Hagain|done].
    + rewrite decide_False by done. cbn.
      split_and!; [rewrite Ha; naive_solver|intros r ?; rewrite Ha; tauto|by apply Hagain|done].
Qed.

Lemma release_exactly_once_witness :
  let s := run [TryRoot None; Retain (Some 0%nat); WaitForRoots None 4; Release 0] initial_admission in
  (releaseRootWork 1 s).2 = [DrainWaiterResolved 4] /\
  releaseRootWork 1 (releaseRootWork 1 s).1 = ((releaseRootWork 1 s).1, []).
Proof.
  cbv zeta. set (s := run _ _).
  assert (reachable s) as Hr.
  { unfold s, run. cbn [foldl]. repeat apply reachable_step. apply reachable_initial. }
  destruct (release_exactly_once s 1 {| rc_root := 0; rc_leaseReleased := false |}
    {| references := 1; released := false |}) as (_ & _ & H & ->); try done; by vm_compute.
Defined.

(** *** The drain *)

Definition is_reset (op : AdmissionOp) : bool := match op with Reset => true | _ => false end.
Definition is_continuation (op : AdmissionOp) : bool :=
  match op with Continuation _ _ => true | _ => false end.

Lemma draining_refuses s current :
  restartDraining s = true ->
  (tryBeginGatewayRootWorkAdmission current s).2 = s /\
  tryBeginGatewayIndependentRootWorkAdmission s = (None, s).
Proof.
  intros H. unfold tryBeginGatewayRootWorkAdmission, tryBeginGatewayIndependentRootWorkAdmission.
  rewrite H. by destruct (live s current).
Qed.

Lemma waitTurn_draining w try s : restartDraining s = true -> waitTurn w try s = (DrainingError, s).
Proof. unfold waitTurn. by intros ->. Qed.

Lemma release_active i s :
  restartDraining (releaseRootWork i s).1 = restartDraining s /\
  activeRootWork (releaseRootWork i s).1 ⊆ activeRootWork s.
Proof.
  unfold releaseRootWork. destruct (closures s !! i) as [c|]; [|done].
  destruct (roots s !! rc_root c) as [root|]; [|done]. destruct (_ || _); [done|].
  destruct (bool_decide (0 < _)%Z); [done|].
  assert (List.filter (fun r => negb (bool_decide (r = rc_root c))) (activeRootWork s)
            ⊆ activeRootWork s) as H.
  { intros r Hr. apply list_elem_of_In, List.filter_In in Hr as [Hr _]. by apply list_elem_of_In. }
  by destruct (bool_decide (activeRootWork _ = [])).
Qed.

Lemma draining_step op s :
  reachable s -> restartDraining s = true -> is_reset op = false ->
  restartDraining (step op s).1 = true /\
  (is_continuation op = false -> activeRootWork (step op s).1 ⊆ activeRootWork s).
Proof.
  intros [Hf _]%reachable_inv Hd Hop. destruct (fi_drain _ Hf Hd) as (Hp & Hph & _).
  destruct op; try done; cbn [step quiet fst is_continuation].
  - by rewrite (proj1 (draining_refuses s current Hd)).
  - by rewrite (proj2 (draining_refuses s None Hd)).
  - unfold beginGatewayRootWorkAdmissionWhenOpen. by rewrite waitTurn_draining.
  - unfold runWithGatewayIndependentRootWorkAdmission. by rewrite waitTurn_draining.
  - unfold runWithGatewayIndependentRootWorkContinuation, runWithGatewayIndependentRootWorkAdmission.
    rewrite waitTurn_draining by done. by destruct (live s current).
  - unfold retainGatewayRootWorkAdmissionContinuation. by repeat case_match.
  - by rewrite (proj1 (release_active closure s)); split; [|intros _; apply release_active].
  - unfold waitForActiveGatewayRootWork. by repeat case_match.
  - unfold beginGatewayRestartSignalAdmission. by rewrite Hd.
  - unfold rollbackRestartSignal. by rewrite Hp.
  - unfold rollbackGatewayRestartSignalFence, clearRestartSignalFence. by rewrite Hd.
  - unfold markGatewayRestartDraining. by rewrite Hd.
  - unfold tryBeginGatewaySuspendAdmission. by rewrite Hd.
  - unfold suspend_commit, transition. rewrite Hph. by rewrite orb_true_r.
  - unfold suspend_rollback, transition. rewrite Hph. by rewrite orb_true_r.
  - unfold suspend_release, transition. rewrite Hph. by rewrite orb_true_r.
Qed.

(** The restart drain is one-way: until the process is reset it stays on,
    every admission of a caller outside live root work fails, and the active
    set only shrinks, except for the follow-up that live root work detaches. *)
Theorem drain_one_way s ops :
  reachable s -> restartDraining s = true -> forallb (fun op => negb (is_reset op)) ops = true ->
  restartDraining (run ops s) = true /\
  (forall current waiter, live (run ops s) current = false ->
    runWithGatewayIndependentRootWorkContinuation current waiter (run ops s) =
    (DrainingError, run ops s)) /\
  (forallb (fun op => negb (is_continuation op)) ops = true ->
    activeRootWork (run ops s) ⊆ activeRootWork s).
Proof.
  revert s. induction ops as [|op ops IH]; intros s Hr Hd Hops.
  - split; [done|]. split; [|done]. intros current waiter Hlive.
    unfold runWithGatewayIndependentRootWorkContinuation. rewrite Hlive.
    by apply waitTurn_draining.
  - cbn [forallb run foldl] in *. apply andb_true_iff in Hops as [Hop%negb_true_iff Hops].
    destruct (draining_step op s Hr Hd Hop) as [Hd' Ha].
    destruct (IH (step op s).1 (reachable_step s op Hr) Hd' Hops) as (H1 & H2 & H3).
    split; [done|]. split; [done|]. intros [Hc%negb_true_iff Hcs]%andb_true_iff.
    etrans; [by apply H3|by apply Ha].
Qed.

Lemma drain_one_way_witness :
  let s := run [TryRoot None; DrainForRestart] initial_admission in
  activeRootWork (run [BeginSuspend 3; WhenOpen None 8; RollbackRestartSignal 1; TryRoot None] s)
    ⊆ activeRootWork s.
Proof.
  cbv zeta. apply drain_one_way; try by vm_compute.
  unfold run. cbn [foldl]. repeat apply reachable_step. apply reachable_initial.
Defined.

(** *** Leases *)

Lemma generations_mono op s :
  (suspendGeneration s <= suspendGeneration (step op s).1)%nat /\
  (restartSignalGeneration s <= restartSignalGeneration (step op s).1)%nat.
Proof.
  assert (forall current s, suspendGeneration (tryBeginGatewayRootWorkAdmission current s).2 =
      suspendGeneration s /\ restartSignalGeneration (tryBeginGatewayRootWorkAdmission current s).2 =
      restartSignalGeneration s) as Htry.
  { intros c s0. unfold tryBeginGatewayRootWorkAdmission.
    destruct (live s0 c); [done|]. by destruct (_ || _ || _). }
  assert (forall s, suspendGeneration (tryBeginGatewayIndependentRootWorkAdmission s).2 =
      suspendGeneration s /\ restartSignalGeneration (tryBeginGatewayIndependentRootWorkAdmission s).2 =
      restartSignalGeneration s) as Hind.
  { intros s0. unfold tryBeginGatewayIndependentRootWorkAdmission. by destruct (_ || _ || _). }
  assert (forall w try s, (forall s, suspendGeneration (try s).2 = suspendGeneration s /\
      restartSignalGeneration (try s).2 = restartSignalGeneration s) ->
      suspendGeneration (waitTurn w try s).2 = suspendGeneration s /\
      restartSignalGeneration (waitTurn w try s).2 = restartSignalGeneration s) as Hwait.
  { intros w try s0 Ht. unfold waitTurn. destruct (restartDraining s0); [done|].
    specialize (Ht s0). by destruct (try s0) as [[l|] s']. }
  destruct op; cbn [step quiet fst].
  - destruct (Htry current s) as [-> ->]. lia.
  - destruct (Hind s) as [-> ->]. lia.
  - destruct (Hwait waiter _ s (Htry current)) as [H1 H2].
    unfold beginGatewayRootWorkAdmissionWhenOpen. rewrite H1, H2. lia.
  - destruct (Hwait waiter _ s Hind) as [H1 H2].
    unfold runWithGatewayIndependentRootWorkAdmission. rewrite H1, H2. lia.
  - unfold runWithGatewayIndependentRootWorkContinuation. destruct (live s current); cbn [negb]; [done|].
    destruct (Hwait waiter _ s Hind) as [H1 H2].
    unfold runWithGatewayIndependentRootWorkAdmission. rewrite H1, H2. lia.
  - unfold retainGatewayRootWorkAdmissionContinuation. by repeat case_match.
  - unfold releaseRootWork. destruct (closures s !! closure) as [c|]; [|done].
    destruct (roots s !! rc_root c) as [root|]; [|done]. destruct (_ || _); [done|].
    destruct (bool_decide (0 < _)%Z); [done|]. by destruct (bool_decide (activeRootWork _ = [])).
  - unfold waitForActiveGatewayRootWork. by repeat case_match.
  - done.
  - unfold beginGatewayRestartSignalAdmission. destruct (_ || _); cbn; lia.
  - unfold rollbackRestartSignal. destruct (_ || _); [done|]. rewrite clearRestartSignalFence_eq.
    destruct (_ || _); cbn; lia.
  - unfold rollbackGatewayRestartSignalFence. rewrite clearRestartSignalFence_eq.
    destruct (_ || _); cbn; lia.
  - rewrite markGatewayRestartDraining_eq. destruct (restartDraining s); [done|]. cbv zeta.
    case_bool_decide; [cbn; lia|]. rewrite invalidateSuspendAdmission_eq. cbn. lia.
  - unfold tryBeginGatewaySuspendAdmission. destruct (_ || _ || _); cbn; lia.
  - unfold suspend_commit. rewrite transition_eq. repeat case_match; cbn; lia.
  - unfold suspend_rollback. rewrite transition_eq. repeat case_match; cbn; lia.
  - unfold suspend_release. rewrite transition_eq. repeat case_match; cbn; lia.
  - rewrite resetGatewayWorkAdmission_eq. cbn. lia.
Qed.

Lemma run_generations_mono ops s :
  (suspendGeneration s <= suspendGeneration (run ops s))%nat /\
  (restartSignalGeneration s <= restartSignalGeneration (run ops s))%nat.
Proof.
  revert s. induction ops as [|op ops IH]; intros s; [done|]. cbn [run foldl].
  pose proof (generations_mono op s). specialize (IH (step op s).1). unfold run in IH. lia.
Qed.

(** A lease that lost its fence stays dead: once the suspension a lease was
    given for has been invalidated (by a drain or a reset) or replaced, commit,
    rollback and release of the old lease answer [false] and change nothing,
    whatever happens in between; the same holds for the rollback of a restart
    signal. *)
Theorem stale_leases_inert s ops suspendLease restartLease :
  (suspendLease < suspendGeneration s)%nat ->
  (restartLease < restartSignalGeneration s)%nat ->
  let s' := run ops s in
  suspend_commit suspendLease s' = (false, (s', [])) /\
  suspend_rollback suspendLease s' = (false, (s', [])) /\
  suspend_release suspendLease s' = (false, (s', [])) /\
  rollbackRestartSignal restartLease s' = (false, (s', [])).
Proof.
  intros H1 H2 s'. destruct (run_generations_mono ops s) as [H3 H4]. fold s' in H3, H4.
  unfold suspend_commit, suspend_rollback, suspend_release, transition, rollbackRestartSignal.
  rewrite !(bool_decide_eq_false_2 (suspendGeneration s' = suspendLease)) by lia.
  rewrite !(bool_decide_eq_false_2 (restartSignalGeneration s' = restartLease)) by lia.
  by rewrite orb_true_r.
Qed.

Lemma stale_leases_inert_witness :
  let s := run [BeginSuspend 3; BeginRestartSignal; DrainForRestart; Reset] initial_admission in
  let s' := run [BeginSuspend 4] s in
  suspend_commit 1 s' = (false, (s', [])) /\ (suspend_commit 4 s').1 = true.
Proof.
  cbv zeta. split; [|by vm_compute].
  destruct (stale_leases_inert (run [BeginSuspend 3; BeginRestartSignal; DrainForRestart; Reset]
    initial_admission) [BeginSuspend 4] 1 0) as [H _]; [vm_compute; lia|vm_compute; lia|exact H].
Defined.

(** ** The interface to the command queue *)

(** What the command queue uses of the admission module, and relies on. *)
Class AdmissionInterface (A : Type) := {
  ai_subordinateClosed : A -> option nat -> bool;
  ai_workClosed : A -> bool;
  ai_markDraining : A -> A;
  ai_reset : A -> A;
  ai_draining_closes : forall a current, ai_subordinateClosed (ai_markDraining a) current = true;
  ai_draining_closes_work : forall a, ai_workClosed (ai_markDraining a) = true;
  ai_open_subordinate : forall a, ai_workClosed a = false -> ai_subordinateClosed a None = false;
  ai_reset_opens : forall a, ai_workClosed (ai_reset a) = false;
}.

Lemma invalidate_restart s :
  restartDraining (invalidateSuspendAdmission s).1 = restartDraining s.
Proof. by rewrite invalidateSuspendAdmission_eq. Qed.

Lemma mark_draining_on s : restartDraining (markGatewayRestartDraining s).1 = true.
Proof.
  rewrite markGatewayRestartDraining_eq. destruct (restartDraining s) eqn:E; [done|]. cbv zeta.
  case_bool_decide; [done|]. by rewrite invalidate_restart.
Qed.

#[global] Instance gateway_admission : AdmissionInterface GatewayWorkAdmissionState.
Proof.
  refine {| ai_subordinateClosed := isGatewaySubordinateWorkAdmissionClosed;
            ai_workClosed := isGatewayWorkAdmissionClosed;
            ai_markDraining := fun s => (markGatewayRestartDraining s).1;
            ai_reset := fun s => (resetGatewayWorkAdmission s).1 |}.
  - intros s current. unfold isGatewaySubordinateWorkAdmissionClosed. by rewrite mark_draining_on.
  - intros s. unfold isGatewayWorkAdmissionClosed. by rewrite mark_draining_on.
  - intros s [Hd H]%orb_false_iff. apply orb_false_iff in Hd.
    unfold isGatewaySubordinateWorkAdmissionClosed. destruct Hd as [-> ->]. exact H.
  - intros s. by rewrite resetGatewayWorkAdmission_eq.
Defined.
