(* ===== verification/CommandQueue.v ===== *)
(** * The command queue

    [src/process/command-queue.ts]: lanes that queue tasks by priority and run
    up to a number of them at once, with generations that fence the completions
    of abandoned tasks and waiters for the tasks that are running.

    The state is the singleton with the promises of the started tasks that have
    not settled ([qs_running]).  A promise settles in a later turn of the event
    loop, which is the operation [taskSettled]; what an operation does to the
    outside (settling callers, waking waiters, calling [onWait]) is a list of
    events.  Callbacks do not call back into the queue.  The migration of state
    objects made by older versions is left out: entries have all their fields. *)
From S2P Require Import Prelude JsString JsMap JsNumber NumberCoercion WorkAdmission.
#[local] Open Scope nat_scope.

(** ** Data *)

(** The task and the promise of an entry are named by its sequence number; the
    progress callback and the signals of its timeout are in [TaskTimeout]. *)
Record QueueEntry := {
  qe_sequence : nat;
  qe_enqueuedAt : Z;
  qe_priority : Z;
  qe_warnAfterMs : num;
  qe_queuedAheadAtEnqueue : nat;
  qe_activeAheadAtEnqueue : nat;
  qe_taskTimeoutMs : option num;
  qe_taskTimeoutAbortGraceMs : option num;
  qe_onWait : bool;
}.

Record LaneState := {
  ls_lane : jstr;
  ls_queue : list QueueEntry;
  ls_activeTaskIds : list nat;
  ls_maxConcurrent : num;
  ls_draining : bool;
  ls_generation : nat;
}.

Record CommandLaneSnapshot := {
  sn_lane : jstr;
  sn_queuedCount : nat;
  sn_activeCount : nat;
  sn_maxConcurrent : num;
  sn_draining : bool;
  sn_generation : nat;
}.

Record ActiveTaskWaiter := { aw_id : nat; aw_activeTaskIds : list nat; aw_timeout : bool }.

(** A started task whose promise is pending. *)
Record Running := {
  rn_task : nat;
  rn_lane : jstr;
  rn_generation : nat;
  rn_entry : QueueEntry;
}.

Record QueueState := {
  qs_lanes : list (jstr * LaneState);
  qs_activeTaskWaiters : list ActiveTaskWaiter;
  qs_nextTaskId : nat;
  qs_nextQueueSequence : nat;
  qs_nextWaiter : nat;
  qs_running : list Running;
}.

Inductive Settlement := Fulfilled | RejectedByTask | RejectedCleared (lane : jstr).

Inductive QueueEvent :=
  | EnqueueRejectedDraining
  | OnWait (sequence : nat) (waitMs : Z) (queuedAhead : nat)
  | Started (task : nat) (sequence : nat)
  | Settled (sequence : nat) (how : Settlement)
  | WaiterResolvedTasks (waiter : nat) (drained : bool).

Definition initial_queue : QueueState :=
  {| qs_lanes := []; qs_activeTaskWaiters := []; qs_nextTaskId := 1; qs_nextQueueSequence := 1;
     qs_nextWaiter := 0; qs_running := [] |}.

Notation queue_outcome := (QueueState * list QueueEvent)%type.

(** Field updates. *)
Definition with_lane_queue (s : LaneState) queue : LaneState :=
  {| ls_lane := ls_lane s; ls_queue := queue; ls_activeTaskIds := ls_activeTaskIds s;
     ls_maxConcurrent := ls_maxConcurrent s; ls_draining := ls_draining s;
     ls_generation := ls_generation s |}.
Definition with_active (s : LaneState) active : LaneState :=
  {| ls_lane := ls_lane s; ls_queue := ls_queue s; ls_activeTaskIds := active;
     ls_maxConcurrent := ls_maxConcurrent s; ls_draining := ls_draining s;
     ls_generation := ls_generation s |}.
Definition with_maxConcurrent (s : LaneState) max : LaneState :=
  {| ls_lane := ls_lane s; ls_queue := ls_queue s; ls_activeTaskIds := ls_activeTaskIds s;
     ls_maxConcurrent := max; ls_draining := ls_draining s; ls_generation := ls_generation s |}.
Definition with_draining (s : LaneState) draining : LaneState :=
  {| ls_lane := ls_lane s; ls_queue := ls_queue s; ls_activeTaskIds := ls_activeTaskIds s;
     ls_maxConcurrent := ls_maxConcurrent s; ls_draining := draining;
     ls_generation := ls_generation s |}.
Definition reset_lane_state (s : LaneState) : LaneState :=
  {| ls_lane := ls_lane s; ls_queue := ls_queue s; ls_activeTaskIds := [];
     ls_maxConcurrent := ls_maxConcurrent s; ls_draining := false;
     ls_generation := S (ls_generation s) |}.

Definition with_lanes (st : QueueState) lanes : QueueState :=
  {| qs_lanes := lanes; qs_activeTaskWaiters := qs_activeTaskWaiters st;
     qs_nextTaskId := qs_nextTaskId st; qs_nextQueueSequence := qs_nextQueueSequence st;
     qs_nextWaiter := qs_nextWaiter st; qs_running := qs_running st |}.
Definition with_waiters (st : QueueState) waiters : QueueState :=
  {| qs_lanes := qs_lanes st; qs_activeTaskWaiters := waiters;
     qs_nextTaskId := qs_nextTaskId st; qs_nextQueueSequence := qs_nextQueueSequence st;
     qs_nextWaiter := qs_nextWaiter st; qs_running := qs_running st |}.
Definition with_running (st : QueueState) running : QueueState :=
  {| qs_lanes := qs_lanes st; qs_activeTaskWaiters := qs_activeTaskWaiters st;
     qs_nextTaskId := qs_nextTaskId st; qs_nextQueueSequence := qs_nextQueueSequence st;
     qs_nextWaiter := qs_nextWaiter st; qs_running := running |}.
Definition put_lane (st : QueueState) (lane : jstr) (s : LaneState) : QueueState :=
  with_lanes st (jm_set lane s (qs_lanes st)).

(** ** Helpers *)

Definition MAIN_LANE : jstr := lit "main".

Definition normalizeLane (lane : jstr) : jstr := str_or (trim lane) MAIN_LANE.

Definition isQuietProbeLane (lane : jstr) : bool :=
  starts_with (lit "auth-probe:") lane || starts_with (lit "session:probe-") lane
  || starts_with (lit "session:temp:setup-inference:probe-setup-inference-") lane.

Definition getLaneDepth (s : LaneState) : nat := length (ls_queue s) + length (ls_activeTaskIds s).

Definition createCommandLaneSnapshot (s : LaneState) : CommandLaneSnapshot :=
  {| sn_lane := ls_lane s; sn_queuedCount := length (ls_queue s);
     sn_activeCount := length (ls_activeTaskIds s); sn_maxConcurrent := ls_maxConcurrent s;
     sn_draining := ls_draining s; sn_generation := ls_generation s |}.

Definition new_lane (lane : jstr) : LaneState :=
  {| ls_lane := lane; ls_queue := []; ls_activeTaskIds := []; ls_maxConcurrent := of_Z 1;
     ls_draining := false; ls_generation := 0 |}.

Definition getLaneState (lane : jstr) (st : QueueState) : LaneState * QueueState :=
  match jm_get lane (qs_lanes st) with
  | Some existing => (existing, st)
  | None => (new_lane lane, put_lane st lane (new_lane lane))
  end.

(** [state.activeTaskIds.size < state.maxConcurrent]. *)
Definition below_limit (active : list nat) (max : num) : bool :=
  num_lt (of_Z (Z.of_nat (length active))) max.

Definition completeTask (s : LaneState) (taskId taskGeneration : nat) : bool * LaneState :=
  if negb (taskGeneration =? ls_generation s) then (false, s)
  else (true, with_active s (List.filter (fun id => negb (id =? taskId)) (ls_activeTaskIds s))).

Definition hasPendingActiveTasks (taskIds : list nat) (st : QueueState) : bool :=
  existsb (fun kv => existsb (fun id => includes id taskIds) (ls_activeTaskIds kv.2)) (qs_lanes st).

Definition resolveActiveTaskWaiter (waiter : nat) (drained : bool) (st : QueueState)
    : queue_outcome :=
  if existsb (fun w => aw_id w =? waiter) (qs_activeTaskWaiters st) then
    (with_waiters st (List.filter (fun w => negb (aw_id w =? waiter)) (qs_activeTaskWaiters st)),
     [WaiterResolvedTasks waiter drained])
  else (st, []).

Definition notifyActiveTaskWaiters (st : QueueState) : queue_outcome :=
  foldl (fun '(st, ev) w =>
    if bool_decide (aw_activeTaskIds w = []) || negb (hasPendingActiveTasks (aw_activeTaskIds w) st)
    then let '(st, ev') := resolveActiveTaskWaiter (aw_id w) true st in (st, ev ++ ev')
    else (st, ev)) (st, []) (qs_activeTaskWaiters st).

Definition normalizeTaskTimeoutMs (value : option num) : option num :=
  match value with
  | None => None
  | Some v => if negb (isFinite v) || num_le v (of_Z 0) then None
              else clampPositiveTimerTimeoutMs (VNum v)
  end.

Inductive QueuePriority := Foreground | Normal | Background.

Definition resolveQueuePriority (priority : option QueuePriority) : Z :=
  match priority with
  | Some Foreground => 1
  | Some Background => -1
  | _ => 0
  end.

(** The index of the first entry the new one goes before. *)
Fixpoint find_index {A} (p : A -> bool) (l : list A) : option nat :=
  match l with
  | [] => None
  | x :: l => if p x then Some 0 else S <$> find_index p l
  end.

Definition goes_before (entry queued : QueueEntry) : bool :=
  (qe_priority queued <? qe_priority entry)%Z
  || ((qe_priority queued =? qe_priority entry)%Z && (qe_sequence entry <? qe_sequence queued)).

Definition with_ahead (e : QueueEntry) (queued active : nat) : QueueEntry :=
  {| qe_sequence := qe_sequence e; qe_enqueuedAt := qe_enqueuedAt e; qe_priority := qe_priority e;
     qe_warnAfterMs := qe_warnAfterMs e; qe_queuedAheadAtEnqueue := queued;
     qe_activeAheadAtEnqueue := active; qe_taskTimeoutMs := qe_taskTimeoutMs e;
     qe_taskTimeoutAbortGraceMs := qe_taskTimeoutAbortGraceMs e; qe_onWait := qe_onWait e |}.

Definition enqueueLaneEntry (s : LaneState) (entry : QueueEntry) : LaneState :=
  let insertAt := find_index (goes_before entry) (ls_queue s) in
  let entry :=
    with_ahead entry (default (length (ls_queue s)) insertAt) (length (ls_activeTaskIds s)) in
  match insertAt with
  | None => with_lane_queue s (ls_queue s ++ [entry])
  | Some i => with_lane_queue s (take i (ls_queue s) ++ entry :: drop i (ls_queue s))
  end.

(** ** The pump *)

(** The loop of [pump]: the queue that is left, the active ids, the next task
    id, the started tasks and the events. *)
Fixpoint pump_loop (now : Z) (lane : jstr) (generation : nat) (max : num)
    (queue : list QueueEntry) (active : list nat) (next : nat)
    : list QueueEntry * list nat * nat * list Running * list QueueEvent :=
  match queue with
  | [] => ([], active, next, [], [])
  | entry :: rest =>
      if below_limit active max then
        let waitedMs := (now - qe_enqueuedAt entry)%Z in
        let waited :=
          if num_le (qe_warnAfterMs entry) (of_Z waitedMs) && qe_onWait entry
          then [OnWait (qe_sequence entry) waitedMs (qe_queuedAheadAtEnqueue entry)] else [] in
        let '(rest, active, next', started, ev) :=
          pump_loop now lane generation max rest (js_add next active) (S next) in
        (rest, active, next',
         {| rn_task := next; rn_lane := lane; rn_generation := generation; rn_entry := entry |} :: started,
         waited ++ Started next (qe_sequence entry) :: ev)
      else (queue, active, next, [], [])
  end.

(** [pump], with its [finally]. *)
Definition pump (now : Z) (lane : jstr) (s : LaneState) (st : QueueState) : queue_outcome :=
  let '(queue, active, next, started, ev) :=
    pump_loop now (ls_lane s) (ls_generation s) (ls_maxConcurrent s) (ls_queue s)
      (ls_activeTaskIds s) (qs_nextTaskId st) in
  let s := with_draining (with_active (with_lane_queue s queue) active) false in
  let st := put_lane st lane s in
  ({| qs_lanes := qs_lanes st; qs_activeTaskWaiters := qs_activeTaskWaiters st;
      qs_nextTaskId := next; qs_nextQueueSequence := qs_nextQueueSequence st;
      qs_nextWaiter := qs_nextWaiter st; qs_running := qs_running st ++ started |}, ev).

Definition drainLane (now : Z) (lane : jstr) (st : QueueState) : queue_outcome :=
  let '(s, st) := getLaneState lane st in
  if ls_draining s then (st, [])
  else pump now lane (with_draining s true) st.

(** A started task's promise settles. *)
Definition taskSettled (now : Z) (taskId : nat) (ok : bool) (st : QueueState) : queue_outcome :=
  match find_first (fun r => rn_task r =? taskId) (qs_running st) with
  | None => (st, [])
  | Some r =>
      let st :=
        with_running st (List.filter (fun r => negb (rn_task r =? taskId)) (qs_running st)) in
      let settled := [Settled (qe_sequence (rn_entry r)) (if ok then Fulfilled else RejectedByTask)] in
      match jm_get (rn_lane r) (qs_lanes st) with
      | None => (st, settled)
      | Some s =>
          let '(current, s) := completeTask s taskId (rn_generation r) in
          let st := put_lane st (rn_lane r) s in
          if current then
            let '(st, ev1) := notifyActiveTaskWaiters st in
            let '(st, ev2) := pump now (rn_lane r) s st in
            (st, ev1 ++ ev2 ++ settled)
          else (st, settled)
      end
  end.

(** ** Operations *)

Definition setCommandLaneConcurrency (now : Z) (lane : jstr) (maxConcurrent : num) (st : QueueState)
    : queue_outcome :=
  let cleaned := normalizeLane lane in
  let '(s, st) := getLaneState cleaned st in
  let minConcurrent := if isQuietProbeLane cleaned then of_Z 1 else of_Z 0 in
  let max := math_max minConcurrent (math_floor maxConcurrent) in
  let st := put_lane st cleaned (with_maxConcurrent s max) in
  if num_lt (of_Z 0) max then drainLane now cleaned st else (st, []).

Record CommandQueueEnqueueOptions := {
  eo_warnAfterMs : option num;
  eo_onWait : bool;
  eo_taskTimeoutMs : option num;
  eo_taskTimeoutAbortGraceMs : option num;
  eo_priority : option QueuePriority;
}.

Section admission.
Context {A : Type} `{!AdmissionInterface A}.

Definition enqueueCommandInLane (admission : A) (current : option nat) (now : Z) (lane : jstr)
    (opts : CommandQueueEnqueueOptions) (st : QueueState) : queue_outcome :=
  if ai_subordinateClosed admission current then (st, [EnqueueRejectedDraining])
  else
    let cleaned := normalizeLane lane in
    let '(s, st) := getLaneState cleaned st in
    let entry :=
      {| qe_sequence := qs_nextQueueSequence st; qe_enqueuedAt := now;
         qe_priority := resolveQueuePriority (eo_priority opts);
         qe_warnAfterMs := default (of_Z 2000) (eo_warnAfterMs opts);
         qe_queuedAheadAtEnqueue := 0; qe_activeAheadAtEnqueue := 0;
         qe_taskTimeoutMs := normalizeTaskTimeoutMs (eo_taskTimeoutMs opts);
         qe_taskTimeoutAbortGraceMs := normalizeTaskTimeoutMs (eo_taskTimeoutAbortGraceMs opts);
         qe_onWait := eo_onWait opts |} in
    let st := put_lane st cleaned (enqueueLaneEntry s entry) in
    let st :=
      {| qs_lanes := qs_lanes st; qs_activeTaskWaiters := qs_activeTaskWaiters st;
         qs_nextTaskId := qs_nextTaskId st; qs_nextQueueSequence := S (qs_nextQueueSequence st);
         qs_nextWaiter := qs_nextWaiter st; qs_running := qs_running st |} in
    drainLane now cleaned st.

Definition markGatewayDraining (admission : A) : A := ai_markDraining admission.
Definition isGatewayDraining (admission : A) : bool := ai_workClosed admission.
End admission.

Definition getQueueSize (lane : jstr) (st : QueueState) : nat :=
  default 0 (getLaneDepth <$> jm_get (normalizeLane lane) (qs_lanes st)).

Definition getCommandLaneSnapshot (lane : jstr) (st : QueueState) : CommandLaneSnapshot :=
  let resolved := normalizeLane lane in
  match jm_get resolved (qs_lanes st) with
  | None => {| sn_lane := resolved; sn_queuedCount := 0; sn_activeCount := 0;
               sn_maxConcurrent := of_Z 1; sn_draining := false; sn_generation := 0 |}
  | Some s => createCommandLaneSnapshot s
  end.

Definition getCommandLaneActiveTaskIds (lane : jstr) (st : QueueState) : list nat :=
  default [] (ls_activeTaskIds <$> jm_get (normalizeLane lane) (qs_lanes st)).

Definition getTotalQueueSize (st : QueueState) : nat :=
  foldl (fun total kv => total + getLaneDepth kv.2) 0 (qs_lanes st).

Definition getActiveTaskCount (st : QueueState) : nat :=
  foldl (fun total kv => total + length (ls_activeTaskIds kv.2)) 0 (qs_lanes st).

Definition clearCommandLane (lane : jstr) (st : QueueState) : nat * queue_outcome :=
  let cleaned := normalizeLane lane in
  match jm_get cleaned (qs_lanes st) with
  | None => (0, (st, []))
  | Some s =>
      (length (ls_queue s),
       (put_lane st cleaned (with_lane_queue s []),
        (fun e => Settled (qe_sequence e) (RejectedCleared cleaned)) <$> ls_queue s))
  end.

Definition resetCommandLane (now : Z) (lane : jstr) (st : QueueState) : nat * queue_outcome :=
  let cleaned := normalizeLane lane in
  match jm_get cleaned (qs_lanes st) with
  | None => (0, (st, []))
  | Some s =>
      let released := length (ls_activeTaskIds s) in
      let st := put_lane st cleaned (reset_lane_state s) in
      let '(st, ev1) :=
        if bool_decide (ls_queue s = []) then (st, []) else drainLane now cleaned st in
      let '(st, ev2) := notifyActiveTaskWaiters st in
      (released, (st, ev1 ++ ev2))
  end.

Definition drain_all (now : Z) (lanes : list jstr) (st : QueueState) : queue_outcome :=
  foldl (fun '(st, ev) lane => let '(st, ev') := drainLane now lane st in (st, ev ++ ev'))
    (st, []) lanes.

(** The admission module is reset by the same call: see [resetAllLanes]. *)
Definition resetLanes (now : Z) (st : QueueState) : queue_outcome :=
  let lanes := (fun kv => (kv.1, reset_lane_state kv.2)) <$> qs_lanes st in
  let lanesToDrain :=
    (fun kv => ls_lane kv.2) <$>
      List.filter (fun kv => negb (bool_decide (ls_queue kv.2 = []))) lanes in
  let '(st, ev1) := drain_all now lanesToDrain (with_lanes st lanes) in
  let '(st, ev2) := notifyActiveTaskWaiters st in
  (st, ev1 ++ ev2).

Definition resetAllLanes `{!AdmissionInterface A} (now : Z) (admission : A) (st : QueueState)
    : A * queue_outcome :=
  (ai_reset admission, resetLanes now st).

(** The answer at once, or a new waiter object ([qs_nextWaiter] is its
    identity). *)
Definition waitForActiveTasks (timeoutMs : option num) (st : QueueState)
    : option bool * queue_outcome :=
  let activeAtStart := js_set (qs_lanes st ≫= fun kv => ls_activeTaskIds kv.2) in
  if bool_decide (activeAtStart = []) then (Some true, (st, []))
  else if match timeoutMs with Some t => num_le t (of_Z 0) | None => false end
  then (Some false, (st, []))
  else
    (None,
     notifyActiveTaskWaiters
       {| qs_lanes := qs_lanes st;
          qs_activeTaskWaiters := qs_activeTaskWaiters st ++
            [{| aw_id := qs_nextWaiter st; aw_activeTaskIds := activeAtStart;
                aw_timeout := bool_decide (is_Some timeoutMs) |}];
          qs_nextTaskId := qs_nextTaskId st; qs_nextQueueSequence := qs_nextQueueSequence st;
          qs_nextWaiter := S (qs_nextWaiter st); qs_running := qs_running st |}).

Definition waiterTimeout (waiter : nat) (st : QueueState) : queue_outcome :=
  resolveActiveTaskWaiter waiter false st.

(** ** Runs *)

Section runs.
Context {A : Type} `{!AdmissionInterface A}.

(** The calls of the module; an enqueue sees the admission state of its time. *)
Inductive QueueOp :=
  | Enqueue (admission : A) (current : option nat) (now : Z) (lane : jstr)
      (opts : CommandQueueEnqueueOptions)
  | Settle (now : Z) (task : nat) (ok : bool)
  | SetConcurrency (now : Z) (lane : jstr) (max : num)
  | ClearLane (lane : jstr)
  | ResetLane (now : Z) (lane : jstr)
  | ResetAll (now : Z)
  | WaitTasks (timeoutMs : option num)
  | WaiterTimeout (waiter : nat).

Definition queue_step (op : QueueOp) (st : QueueState) : queue_outcome :=
  match op with
  | Enqueue a c now lane opts => enqueueCommandInLane a c now lane opts st
  | Settle now task ok => taskSettled now task ok st
  | SetConcurrency now lane max => setCommandLaneConcurrency now lane max st
  | ClearLane lane => (clearCommandLane lane st).2
  | ResetLane now lane => (resetCommandLane now lane st).2
  | ResetAll now => resetLanes now st
  | WaitTasks t => (waitForActiveTasks t st).2
  | WaiterTimeout w => waiterTimeout w st
  end.

Definition queue_run (ops : list QueueOp) (st : QueueState) : queue_outcome :=
  foldl (fun '(st, ev) op => let '(st, ev') := queue_step op st in (st, ev ++ ev')) (st, []) ops.
End runs.
Arguments QueueOp : clear implicits.

(** ** Order and insertion *)

(** Higher priority first, then older first. *)
Definition entry_before (a b : QueueEntry) : Prop :=
  (qe_priority b < qe_priority a)%Z \/
  (qe_priority a = qe_priority b /\ qe_sequence a < qe_sequence b).

Definition sorted_queue (q : list QueueEntry) : Prop := StronglySorted entry_before q.

Fixpoint insert_entry (e e' : QueueEntry) (q : list QueueEntry) : list QueueEntry :=
  match q with
  | [] => [e']
  | x :: q => if goes_before e x then e' :: x :: q else x :: insert_entry e e' q
  end.

Lemma enqueueLaneEntry_queue s e : exists e',
  qe_sequence e' = qe_sequence e /\ qe_priority e' = qe_priority e /\
  enqueueLaneEntry s e = with_lane_queue s (insert_entry e e' (ls_queue s)).
Proof.
  unfold enqueueLaneEntry. set (e' := with_ahead e _ _). exists e'. split; [done|]. split; [done|].
  clearbody e'.
  assert (forall q, (match find_index (goes_before e) q with
    | None => q ++ [e'] | Some i => take i q ++ e' :: drop i q end) = insert_entry e e' q) as H.
  { induction q as [|x q IH]; simpl; [done|]. destruct (goes_before e x); [done|].
    rewrite <- IH. by destruct (find_index _ q). }
  rewrite <- H. by destruct (find_index _ _).
Qed.

Lemma goes_before_true e x : goes_before e x = true -> entry_before e x.
Proof.
  unfold goes_before, entry_before. intros [H%Z.ltb_lt|[H1 H2]%andb_true_iff]%orb_true_iff; [by left|].
  right. apply Z.eqb_eq in H1. apply Nat.ltb_lt in H2. done.
Qed.

Lemma goes_before_false e x :
  goes_before e x = false -> qe_sequence x <> qe_sequence e -> entry_before x e.
Proof.
  unfold goes_before, entry_before. intros [H1%Z.ltb_ge H2]%orb_false_iff Hne.
  destruct (Z.eqb_spec (qe_priority x) (qe_priority e)) as [E|E]; simpl in H2.
  - apply Nat.ltb_ge in H2. right. lia.
  - left. lia.
Qed.

Lemma entry_before_trans a b c : entry_before a b -> entry_before b c -> entry_before a c.
Proof. unfold entry_before. lia. Qed.

Lemma insert_entry_Permutation e e' q : insert_entry e e' q ≡ₚ e' :: q.
Proof.
  induction q as [|x q IH]; simpl; [done|]. destruct (goes_before e x); [done|].
  rewrite IH. apply Permutation_swap.
Qed.

Lemma insert_entry_sorted e e' q :
  qe_sequence e' = qe_sequence e -> qe_priority e' = qe_priority e ->
  Forall (fun x => qe_sequence x <> qe_sequence e) q ->
  sorted_queue q -> sorted_queue (insert_entry e e' q).
Proof.
  intros Hs Hp Hne. unfold sorted_queue.
  assert (forall x, entry_before e x -> entry_before e' x) as Hl by by (unfold entry_before; rewrite Hs, Hp).
  assert (forall x, entry_before x e -> entry_before x e') as Hr by by (unfold entry_before; rewrite Hs, Hp).
  induction 1 as [|x q Hq IH Hx]; simpl; [repeat constructor|].
  apply Forall_cons in Hne as [Hx' Hne]. destruct (goes_before e x) eqn:E.
  - apply goes_before_true, Hl in E. constructor; [by constructor|]. constructor; [done|].
    eapply Forall_impl; [exact Hx|]. intros y Hy. by eapply entry_before_trans.
  - apply goes_before_false, Hr in E; [|done]. constructor; [auto|].
    rewrite insert_entry_Permutation. by constructor.
Qed.

(** ** The pump loop *)

Lemma pump_loop_spec now lane gen max queue : forall active next,
  Forall (fun id => id < next) active ->
  let '(rest, active', next', started, ev) := pump_loop now lane gen max queue active next in
  queue = (rn_entry <$> started) ++ rest /\
  active' = active ++ seq next (length started) /\
  next' = next + length started /\
  rn_task <$> started = seq next (length started) /\
  Forall (fun r => rn_lane r = lane /\ rn_generation r = gen) started /\
  (rest = [] \/ below_limit active' max = false) /\
  (started = [] \/ num_lt (of_Z (Z.of_nat (length active' - 1))) max = true) /\
  (forall q how, Settled q how ∉ ev) /\ (forall w d, WaiterResolvedTasks w d ∉ ev) /\
  (forall task q, Started task q ∈ ev <->
    exists r, r ∈ started /\ rn_task r = task /\ qe_sequence (rn_entry r) = q).
Proof.
  induction queue as [|e queue IH]; intros active next Hlt; cbn [pump_loop].
  { split_and!; auto; try (by rewrite app_nil_r); try (intros; apply not_elem_of_nil).
    intros task q. split; [by intros ?%elem_of_nil|]. by intros (r & Hr%elem_of_nil & _). }
  destruct (below_limit active max) eqn:Hb.
  2:{ split_and!; auto; try (by rewrite app_nil_r); try (intros; apply not_elem_of_nil).
    intros task q. split; [by intros ?%elem_of_nil|]. by intros (r & Hr%elem_of_nil & _). }
  assert (js_add next active = active ++ [next]) as ->.
  { unfold js_add. rewrite decide_False; [done|]. intros Hin. rewrite Forall_forall in Hlt.
    apply Hlt in Hin. lia. }
  specialize (IH (active ++ [next]) (S next)).
  destruct (pump_loop _ _ _ _ _ _ _) as [[[[rest active'] next'] started] ev].
  destruct IH as (H1 & H2 & H3 & H4 & H5 & H6 & H7 & H8 & Hw & H9).
  { apply Forall_app. split; [eapply Forall_impl; [exact Hlt|]; simpl; lia|].
    constructor; [lia|constructor]. }
  rewrite !fmap_cons. cbn [length rn_entry rn_task]. split_and!.
  - by rewrite H1.
  - rewrite H2, <- app_assoc. done.
  - lia.
  - by rewrite H4.
  - by constructor.
  - done.
  - right. destruct H7 as [->|H7]; [|done]. rewrite H2. cbn [length seq]. rewrite app_nil_r.
    rewrite length_app. cbn [length]. by replace (length active + 1 - 1) with (length active) by lia.
  - intros q how. destruct (_ && _); set_solver.
  - intros w d. destruct (_ && _); set_solver.
  - intros task q. rewrite elem_of_app, elem_of_cons, H9. split.
    + intros [Hin|[[= -> ->]|(r & Hr & Ht & Hq)]].
      * destruct (_ && _); set_solver.
      * eexists. split; [left|done].
      * exists r. split; [by right|done].
    + intros (r & [->|Hr]%elem_of_cons & <- & <-); [right; by left|].
      right. right. exists r. done.
Qed.

(** ** The invariant *)

Definition lane_seqs (kv : jstr * LaneState) : list nat := qe_sequence <$> ls_queue kv.2.

Definition queued_seqs (st : QueueState) : list nat := qs_lanes st ≫= lane_seqs.

Definition running_seqs (st : QueueState) : list nat := (qe_sequence ∘ rn_entry) <$> qs_running st.

Definition settled_seqs (ev : list QueueEvent) : list nat :=
  omap (fun e => match e with Settled q _ => Some q | _ => None end) ev.

(** A lane, among the started tasks. *)
Record LaneInv (running : list Running) (k : jstr) (s : LaneState) : Prop := {
  li_lane : ls_lane s = k;
  li_sorted : sorted_queue (ls_queue s);
  li_nodup : NoDup (ls_activeTaskIds s);
  li_active : forall id, id ∈ ls_activeTaskIds s <->
    exists r, r ∈ running /\ rn_task r = id /\ rn_lane r = k /\ rn_generation r = ls_generation s;
  li_generation : forall r, r ∈ running -> rn_lane r = k -> rn_generation r <= ls_generation s;
}.

(** A lane at rest: pumped as far as its limit allows. *)
Definition lane_rest (s : LaneState) : Prop :=
  ls_draining s = false /\
  (ls_queue s = [] \/ below_limit (ls_activeTaskIds s) (ls_maxConcurrent s) = false).

(** What holds inside operations too; [settled] are the entries settled so far. *)
Record QueueCore (st : QueueState) (settled : list nat) : Prop := {
  qc_wf : jm_wf (qs_lanes st);
  qc_lanes : jm_all (LaneInv (qs_running st)) (qs_lanes st);
  qc_tasks : NoDup (rn_task <$> qs_running st);
  qc_task_lt : Forall (fun r => rn_task r < qs_nextTaskId st) (qs_running st);
  qc_running : Forall (fun r => is_Some (jm_get (rn_lane r) (qs_lanes st))) (qs_running st);
  qc_next : 1 <= qs_nextQueueSequence st;
  qc_conserved :
    queued_seqs st ++ running_seqs st ++ settled ≡ₚ seq 1 (qs_nextQueueSequence st - 1);
  qc_waiters : NoDup (aw_id <$> qs_activeTaskWaiters st);
  qc_waiter_lt : Forall (fun w => aw_id w < qs_nextWaiter st) (qs_activeTaskWaiters st);
  qc_waiter_ids : Forall (fun w => Forall (fun id => id < qs_nextTaskId st) (aw_activeTaskIds w))
    (qs_activeTaskWaiters st);
}.

(** Every waiter still has something to wait for. *)
Definition waiters_pending (st : QueueState) : Prop :=
  Forall (fun w => hasPendingActiveTasks (aw_activeTaskIds w) st = true) (qs_activeTaskWaiters st).

Record QueueInv (st : QueueState) (settled : list nat) : Prop := {
  qi_core : QueueCore st settled;
  qi_rest : jm_all (fun _ => lane_rest) (qs_lanes st);
  qi_waiters : waiters_pending st;
}.

(** *** Maps of lanes *)

Lemma jm_set_flat_Some (k : jstr) (v v0 : LaneState) m :
  jm_get k m = Some v0 ->
  (jm_set k v m ≫= lane_seqs) ++ lane_seqs (k, v0) ≡ₚ (m ≫= lane_seqs) ++ lane_seqs (k, v).
Proof.
  induction m as [|[k1 v1] m IH]; cbn [jm_get jm_set]; [done|].
  destruct (decide (k = k1)) as [->|Hne].
  - intros [= ->]. cbn [mbind list_bind].
    rewrite (Permutation_app_comm (lane_seqs (k1, v))), (Permutation_app_comm (lane_seqs (k1, v0))).
    rewrite <- !app_assoc. apply Permutation_app_head, Permutation_app_comm.
  - intros H. cbn [mbind list_bind]. rewrite <- !app_assoc. apply Permutation_app_head. by apply IH.
Qed.

Lemma jm_set_flat_None (k : jstr) (v : LaneState) m :
  jm_get k m = None -> jm_set k v m ≫= lane_seqs = (m ≫= lane_seqs) ++ lane_seqs (k, v).
Proof.
  induction m as [|[k1 v1] m IH]; cbn [jm_get jm_set].
  - intros _. cbn. by rewrite app_nil_r.
  - destruct (decide (k = k1)) as [->|Hne]; [done|]. intros H.
    cbn [mbind list_bind]. by rewrite <- app_assoc, <- IH.
Qed.

Lemma jm_all_set_inv {V} (P Q : jstr -> V -> Prop) k v m :
  jm_wf m -> (forall k' v', k' <> k -> jm_get k' m = Some v' -> P k' v' -> Q k' v') ->
  jm_all P m -> Q k v -> jm_all Q (jm_set k v m).
Proof.
  intros Hwf HPQ HP HQ k' v' Hin. apply jm_elem_get in Hin; [|auto with js].
  rewrite jm_get_set in Hin. case_decide as Hk; simplify_eq; [done|].
  apply HPQ; [done..|]. by eapply jm_all_get.
Qed.

Lemma QueueCore_seq_lt st settled q :
  QueueCore st settled -> q ∈ queued_seqs st -> q < qs_nextQueueSequence st.
Proof.
  intros H Hq. assert (q ∈ seq 1 (qs_nextQueueSequence st - 1)) as Hin.
  { rewrite <- (qc_conserved _ _ H), !elem_of_app. by left. }
  apply elem_of_seq in Hin. lia.
Qed.

(** Replacing a lane by one with the same task ids and generation. *)
Lemma put_lane_core st settled lane s s' settled' next' :
  QueueCore st settled -> jm_get lane (qs_lanes st) = Some s ->
  ls_lane s' = ls_lane s -> ls_activeTaskIds s' = ls_activeTaskIds s ->
  ls_generation s' = ls_generation s -> sorted_queue (ls_queue s') ->
  qs_nextQueueSequence st <= next' ->
  (lane_seqs (lane, s') ++ settled' ≡ₚ
   lane_seqs (lane, s) ++ settled ++ seq (qs_nextQueueSequence st) (next' - qs_nextQueueSequence st)) ->
  QueueCore
    {| qs_lanes := jm_set lane s' (qs_lanes st); qs_activeTaskWaiters := qs_activeTaskWaiters st;
       qs_nextTaskId := qs_nextTaskId st; qs_nextQueueSequence := next';
       qs_nextWaiter := qs_nextWaiter st; qs_running := qs_running st |} settled'.
Proof.
  intros H Hg Hl Ha Hgen Hs Hn Hp. pose proof H as [H1 H2 H3 H4 H5 H6 H7 H8 H9 H10].
  pose proof (jm_all_get _ _ _ _ H2 Hg) as [L1 L2 L3 L4 L5].
  split; cbn; try done.
  - by apply jm_wf_set.
  - eapply jm_all_set; [done|]. split; rewrite ?Hl, ?Ha, ?Hgen; done.
  - eapply Forall_impl; [exact H5|]. intros r Hr. cbn. rewrite jm_get_set. case_decide; [eauto|done].
  - lia.
  - unfold queued_seqs, running_seqs in *. cbn.
    pose proof (jm_set_flat_Some lane s' s (qs_lanes st) Hg) as Hflat.
    replace (next' - 1) with ((qs_nextQueueSequence st - 1) + (next' - qs_nextQueueSequence st)) by lia.
    rewrite seq_app, <- H7. replace (1 + (qs_nextQueueSequence st - 1)) with (qs_nextQueueSequence st) by lia.
    apply (Permutation_app_inv_l (lane_seqs (lane, s))).
    rewrite !(Permutation_app_comm (lane_seqs (lane, s))). 
    set (X := jm_set lane s' (qs_lanes st) ≫= lane_seqs) in *.
    set (Y := qs_lanes st ≫= lane_seqs) in *. set (R := (qe_sequence ∘ rn_entry) <$> qs_running st).
    set (N := seq _ (next' - _)) in *.
    trans ((X ++ lane_seqs (lane, s)) ++ R ++ settled').
    { solve_Permutation. }
    rewrite Hflat. trans (Y ++ R ++ (lane_seqs (lane, s') ++ settled')); [solve_Permutation|].
    rewrite Hp. solve_Permutation.
Qed.

(** *** Pumping *)

(** What a pump of a lane does. *)
Record Pumped (now : Z) (lane : jstr) (s : LaneState) (st : QueueState) (started : list Running)
    (s' : LaneState) (out : queue_outcome) : Prop := {
  pu_state : out.1 =
    {| qs_lanes := jm_set lane s' (qs_lanes st); qs_activeTaskWaiters := qs_activeTaskWaiters st;
       qs_nextTaskId := qs_nextTaskId st + length started;
       qs_nextQueueSequence := qs_nextQueueSequence st; qs_nextWaiter := qs_nextWaiter st;
       qs_running := qs_running st ++ started |};
  pu_queue : ls_queue s = (rn_entry <$> started) ++ ls_queue s';
  pu_active : ls_activeTaskIds s' = ls_activeTaskIds s ++ seq (qs_nextTaskId st) (length started);
  pu_same : ls_lane s' = ls_lane s /\ ls_generation s' = ls_generation s /\
    ls_maxConcurrent s' = ls_maxConcurrent s;
  pu_rest : lane_rest s';
  pu_tasks : rn_task <$> started = seq (qs_nextTaskId st) (length started);
  pu_started : Forall (fun r => rn_lane r = ls_lane s /\ rn_generation r = ls_generation s) started;
  pu_limit : started = [] \/
    num_lt (of_Z (Z.of_nat (length (ls_activeTaskIds s') - 1))) (ls_maxConcurrent s') = true;
  pu_no_settle : forall q how, Settled q how ∉ out.2;
  pu_no_wake : forall w d, WaiterResolvedTasks w d ∉ out.2;
  pu_events : forall task q, Started task q ∈ out.2 <->
    exists r, r ∈ started /\ rn_task r = task /\ qe_sequence (rn_entry r) = q;
}.

Lemma pump_spec now lane s st :
  Forall (fun id => id < qs_nextTaskId st) (ls_activeTaskIds s) ->
  exists started s', Pumped now lane s st started s' (pump now lane s st).
Proof.
  intros Hlt. unfold pump.
  pose proof (pump_loop_spec now (ls_lane s) (ls_generation s) (ls_maxConcurrent s) (ls_queue s)
    (ls_activeTaskIds s) (qs_nextTaskId st) Hlt) as H.
  destruct (pump_loop _ _ _ _ _ _ _) as [[[[rest active'] next'] started] ev].
  destruct H as (H1 & H2 & H3 & H4 & H5 & H6 & H7 & H8 & Hw & H9).
  exists started, (with_draining (with_active (with_lane_queue s rest) active') false).
  subst next'. by split.
Qed.

Lemma pumped_flat (lane : jstr) (s s' : LaneState) m started :
  jm_get lane m = Some s -> ls_queue s = (rn_entry <$> started) ++ ls_queue s' ->
  (jm_set lane s' m ≫= lane_seqs) ++ ((qe_sequence ∘ rn_entry) <$> started) ≡ₚ m ≫= lane_seqs.
Proof.
  intros Hg Hq. pose proof (jm_set_flat_Some lane s' s m Hg) as Hflat.
  assert (lane_seqs (lane, s) = ((qe_sequence ∘ rn_entry) <$> started) ++ lane_seqs (lane, s')) as E.
  { unfold lane_seqs. cbn [snd]. by rewrite Hq, fmap_app, <- list_fmap_compose. }
  apply (Permutation_app_inv_r (lane_seqs (lane, s'))). rewrite <- Hflat, E. solve_Permutation.
Qed.

Lemma same_queue_flat (lane : jstr) (s s' : LaneState) m :
  jm_get lane m = Some s -> ls_queue s' = ls_queue s ->
  jm_set lane s' m ≫= lane_seqs ≡ₚ m ≫= lane_seqs.
Proof.
  intros Hg Hq. rewrite <- (pumped_flat lane s s' m [] Hg) by by rewrite Hq. cbn.
  by rewrite app_nil_r.
Qed.

Lemma pump_core now lane s0 b st settled started s' out :
  QueueCore st settled -> jm_get lane (qs_lanes st) = Some s0 ->
  Pumped now lane (with_draining s0 b) st started s' out ->
  QueueCore out.1 settled.
Proof.
  intros H Hg [Hst Hq Ha (Hl & Hgen & _) _ Ht Hstd _ _ _ _]. cbn in Hq, Ha, Hl, Hgen, Hstd.
  rewrite Hst. pose proof H as [H1 H2 H3 H4 H5 H6 H7 H8 H9 H10].
  pose proof (jm_all_get _ _ _ _ H2 Hg) as [L1 L2 L3 L4 L5].
  assert (forall r, r ∈ started -> rn_lane r = lane /\ rn_generation r = ls_generation s0) as Hstd'.
  { intros r Hr. rewrite Forall_forall in Hstd. rewrite <- L1. by apply Hstd. }
  assert (forall id, id ∈ seq (qs_nextTaskId st) (length started) <->
    exists r, r ∈ started /\ rn_task r = id) as Hids.
  { intros id. rewrite <- Ht, list_elem_of_fmap. naive_solver. }
  split; cbn; try done.
  - by apply jm_wf_set.
  - eapply jm_all_set_inv; [done| |exact H2|].
    + intros k v Hk Hv [K1 K2 K3 K4 K5]. split; try done.
      * intros id. rewrite K4. setoid_rewrite elem_of_app. split; [naive_solver|].
        intros (r & [Hr|Hr] & Hid & Hrl & Hrg); [naive_solver|].
        destruct (Hstd' r Hr). congruence.
      * intros r [Hr|Hr]%elem_of_app; [auto|]. intros E. destruct (Hstd' r Hr). congruence.
    + split.
      * congruence.
      * rewrite Hq in L2. unfold sorted_queue in *. by apply StronglySorted_app in L2 as (_ & _ & ?).
      * rewrite Ha. apply NoDup_app. split; [done|]. split; [|apply NoDup_seq].
        intros id (r & Hr & <- & _)%L4 [Hin _]%elem_of_seq. rewrite Forall_forall in H4.
        apply H4 in Hr. lia.
      * intros id. rewrite Ha, elem_of_app, L4, Hids, Hgen. setoid_rewrite elem_of_app. split.
        -- intros [(r & ? & ? & ? & ?)|(r & Hr & ?)]; [naive_solver|].
           exists r. destruct (Hstd' r Hr). auto.
        -- intros (r & [Hr|Hr] & ? & ? & ?); naive_solver.
      * intros r [Hr|Hr]%elem_of_app Hrl; rewrite Hgen; [auto|]. by destruct (Hstd' r Hr) as [_ ->].
  - rewrite fmap_app, Ht. apply NoDup_app. split; [done|]. split; [|apply NoDup_seq].
    intros id (r & -> & Hr)%list_elem_of_fmap [Hin _]%elem_of_seq. rewrite Forall_forall in H4.
    apply H4 in Hr. lia.
  - apply Forall_app. split; [eapply Forall_impl; [exact H4|]; simpl; lia|].
    apply Forall_forall. intros r Hr. assert (rn_task r ∈ seq (qs_nextTaskId st) (length started)) as Hin
      by (apply Hids; eauto). apply elem_of_seq in Hin. lia.
  - apply Forall_app. split.
    + eapply Forall_impl; [exact H5|]. intros r Hr. cbn. rewrite jm_get_set. case_decide; [eauto|done].
    + apply Forall_forall. intros r Hr. destruct (Hstd' r Hr) as [-> _]. rewrite jm_get_set_eq. eauto.
  - unfold queued_seqs, running_seqs in *. cbn. rewrite <- H7, fmap_app.
    rewrite <- (pumped_flat _ _ _ _ _ Hg Hq). solve_Permutation.
  - eapply Forall_impl; [exact H10|]. intros w Hw. eapply Forall_impl; [exact Hw|]. simpl. lia.
Qed.

(** *** Waiters *)

Definition waiter_done (st : QueueState) (w : ActiveTaskWaiter) : bool :=
  bool_decide (aw_activeTaskIds w = []) || negb (hasPendingActiveTasks (aw_activeTaskIds w) st).

Lemma resolve_present waiter drained st :
  waiter ∈ aw_id <$> qs_activeTaskWaiters st ->
  resolveActiveTaskWaiter waiter drained st =
    (with_waiters st (List.filter (fun w => negb (aw_id w =? waiter)) (qs_activeTaskWaiters st)),
     [WaiterResolvedTasks waiter drained]).
Proof.
  intros (w & -> & Hw)%list_elem_of_fmap. unfold resolveActiveTaskWaiter.
  rewrite (proj2 (List.existsb_exists _ _)); [done|].
  exists w. split; [by apply list_elem_of_In|apply Nat.eqb_refl].
Qed.

(** Notifying resolves the finished waiters, in order, and keeps the others. *)
Lemma notify_eq st :
  NoDup (aw_id <$> qs_activeTaskWaiters st) ->
  notifyActiveTaskWaiters st =
    (with_waiters st (List.filter (fun w => negb (waiter_done st w)) (qs_activeTaskWaiters st)),
     (fun w => WaiterResolvedTasks (aw_id w) true) <$>
       List.filter (waiter_done st) (qs_activeTaskWaiters st)).
Proof.
  intros Hnd. unfold notifyActiveTaskWaiters.
  set (W := qs_activeTaskWaiters st) in *.
  set (f := fun _ : queue_outcome => _).
  assert (forall pre l, W = pre ++ l ->
    foldl f (with_waiters st (List.filter (fun w => negb (waiter_done st w)) pre ++ l),
      (fun w => WaiterResolvedTasks (aw_id w) true) <$> List.filter (waiter_done st) pre) l =
    (with_waiters st (List.filter (fun w => negb (waiter_done st w)) (pre ++ l)),
     (fun w => WaiterResolvedTasks (aw_id w) true) <$> List.filter (waiter_done st) (pre ++ l))) as H.
  { intros pre l. revert pre. induction l as [|w l IH]; intros pre HW; cbn [foldl].
    { by rewrite !app_nil_r. }
    specialize (IH (pre ++ [w])). rewrite <- app_assoc in IH. specialize (IH HW).
    change ([w] ++ l) with (w :: l) in IH. rewrite <- IH. f_equal. unfold f at 1.
    change (hasPendingActiveTasks (aw_activeTaskIds w)
      (with_waiters st (List.filter (fun w => negb (waiter_done st w)) pre ++ w :: l)))
      with (hasPendingActiveTasks (aw_activeTaskIds w) st).
    fold (waiter_done st w). rewrite !List.filter_app. cbn [List.filter].
    destruct (waiter_done st w) eqn:Hd; cbn [negb].
    - rewrite resolve_present.
      2:{ cbn. rewrite fmap_app, elem_of_app, fmap_cons. right. left. }
      cbn [qs_activeTaskWaiters with_waiters]. rewrite fmap_app. f_equal.
      unfold with_waiters at 1. cbn. unfold with_waiters. f_equal.
      rewrite List.filter_app. cbn [List.filter]. rewrite Nat.eqb_refl. cbn [negb].
      rewrite HW, fmap_app, fmap_cons in Hnd. apply NoDup_app in Hnd as (_ & Hpre & Hl).
      apply NoDup_cons in Hl as [Hl _]. rewrite app_nil_r. f_equal.
      + rewrite filter_filter. apply filter_ext_in. intros x Hx.
        destruct (Nat.eqb_spec (aw_id x) (aw_id w)) as [E|E]; [|by rewrite andb_true_r].
        exfalso. apply (Hpre (aw_id x)); [by apply list_elem_of_fmap_2|rewrite E; left].
      + apply filter_all. intros y Hy. destruct (Nat.eqb_spec (aw_id y) (aw_id w)) as [E|E]; [|done].
        exfalso. apply Hl. rewrite <- E. by apply list_elem_of_fmap_2.
    - by rewrite app_nil_r, <- app_assoc. }
  specialize (H [] W eq_refl). cbn in H. rewrite <- H. f_equal. unfold W. by destruct st.
Qed.

Lemma QueueCore_settled st settled settled' :
  settled ≡ₚ settled' -> QueueCore st settled -> QueueCore st settled'.
Proof. intros E []. split; try done. by rewrite <- E. Qed.

Lemma settled_seqs_app ev1 ev2 : settled_seqs (ev1 ++ ev2) = settled_seqs ev1 ++ settled_seqs ev2.
Proof. apply omap_app. Qed.

Lemma settled_seqs_none ev : (forall q how, Settled q how ∉ ev) -> settled_seqs ev = [].
Proof.
  unfold settled_seqs. induction ev as [|e ev IH]; intros H; [done|].
  specialize (IH (fun q how Hin => H q how (list_elem_of_further _ _ _ Hin))).
  destruct e; try exact IH. exfalso. eapply H. left.
Qed.

Lemma QueueCore_waiters st settled ws :
  QueueCore st settled -> NoDup (aw_id <$> ws) ->
  Forall (fun w => aw_id w < qs_nextWaiter st) ws ->
  Forall (fun w => Forall (fun id => id < qs_nextTaskId st) (aw_activeTaskIds w)) ws ->
  QueueCore (with_waiters st ws) settled.
Proof. intros [] ???. by split. Qed.

Lemma sublist_filter_ids p (ws : list ActiveTaskWaiter) :
  NoDup (aw_id <$> ws) -> NoDup (aw_id <$> List.filter p ws).
Proof.
  induction ws as [|w ws IH]; cbn [List.filter]; [done|]. rewrite fmap_cons, NoDup_cons.
  intros [Hw Hnd]. destruct (p w); [|auto]. rewrite fmap_cons, NoDup_cons. split; [|auto].
  intros (x & Hx & Hin)%list_elem_of_fmap. apply Hw, list_elem_of_fmap. exists x.
  split; [done|]. apply list_elem_of_In, List.filter_In in Hin as [Hin _]. by apply list_elem_of_In.
Qed.

Lemma notify_core st settled :
  QueueCore st settled ->
  let out := notifyActiveTaskWaiters st in
  QueueCore out.1 settled /\ waiters_pending out.1 /\ qs_lanes out.1 = qs_lanes st /\
  qs_running out.1 = qs_running st /\ qs_nextTaskId out.1 = qs_nextTaskId st /\
  (forall q how, Settled q how ∉ out.2) /\ (forall t q, Started t q ∉ out.2).
Proof.
  intros H out. unfold out. rewrite notify_eq by apply H. cbn [fst snd]. split_and!; try done.
  - apply QueueCore_waiters; [done|apply sublist_filter_ids, H|apply Forall_filter_list, H..].
  - apply Forall_forall. cbn. intros w Hw.
    apply list_elem_of_In, List.filter_In in Hw as [_ Hw]. unfold waiter_done in Hw.
    rewrite negb_orb, negb_involutive in Hw. by apply andb_true_iff in Hw as [_ ?].
  - intros q how (w & Hw & _)%list_elem_of_fmap. done.
  - intros t q (w & Hw & _)%list_elem_of_fmap. done.
Qed.

Lemma hasPending_spec ids st :
  hasPendingActiveTasks ids st = true <->
  exists k s id, (k, s) ∈ qs_lanes st /\ id ∈ ls_activeTaskIds s /\ id ∈ ids.
Proof.
  unfold hasPendingActiveTasks. rewrite List.existsb_exists. split.
  - intros ([k s] & Hin%list_elem_of_In & (id & Hid%list_elem_of_In & Hi)%List.existsb_exists).
    apply includes_spec in Hi. eauto 10.
  - intros (k & s & id & Hin & Hid & Hi). exists (k, s). split; [by apply list_elem_of_In|].
    apply List.existsb_exists. exists id. split; [by apply list_elem_of_In|by apply includes_spec].
Qed.

Lemma hasPending_grow ids st st' :
  (forall k s, (k, s) ∈ qs_lanes st -> exists s', (k, s') ∈ qs_lanes st' /\
    ls_activeTaskIds s ⊆ ls_activeTaskIds s') ->
  hasPendingActiveTasks ids st = true -> hasPendingActiveTasks ids st' = true.
Proof.
  rewrite !hasPending_spec. intros H (k & s & id & Hin & Hid & Hi).
  destruct (H k s Hin) as (s' & Hin' & Hsub). exists k, s', id. auto.
Qed.

Lemma jm_get_in {V} (k : jstr) (v : V) m : jm_get k m = Some v -> (k, v) ∈ m.
Proof. apply jm_get_elem. Qed.

Lemma put_grow (lanes : list (jstr * LaneState)) lane s0 s' :
  jm_wf lanes -> jm_get lane lanes = Some s0 -> ls_activeTaskIds s0 ⊆ ls_activeTaskIds s' ->
  forall k s, (k, s) ∈ lanes -> exists s1, (k, s1) ∈ jm_set lane s' lanes /\
    ls_activeTaskIds s ⊆ ls_activeTaskIds s1.
Proof.
  intros Hwf Hg Hsub k s Hin. apply jm_elem_get in Hin; [|done].
  destruct (decide (k = lane)) as [->|Hne].
  - exists s'. split; [apply jm_get_in, jm_get_set_eq|]. by simplify_eq.
  - exists s. split; [|done]. apply jm_get_in. by rewrite jm_get_set_ne.
Qed.

Lemma active_lt st settled lane s :
  QueueCore st settled -> jm_get lane (qs_lanes st) = Some s ->
  Forall (fun id => id < qs_nextTaskId st) (ls_activeTaskIds s).
Proof.
  intros H Hg. destruct (jm_all_get _ _ _ _ (qc_lanes _ _ H) Hg) as [_ _ _ L4 _].
  apply Forall_forall. intros id (r & Hr & <- & _)%L4.
  pose proof (qc_task_lt _ _ H) as Hlt. rewrite Forall_forall in Hlt. by apply Hlt.
Qed.

(** Every lane but one at rest. *)
Definition rest_but (lane : jstr) (st : QueueState) : Prop :=
  jm_all (fun k s => k <> lane -> lane_rest s) (qs_lanes st).

Definition no_settled (ev : list QueueEvent) : Prop := forall q how, Settled q how ∉ ev.

Lemma no_settled_app ev1 ev2 : no_settled ev1 -> no_settled ev2 -> no_settled (ev1 ++ ev2).
Proof. intros H1 H2 q how [H|H]%elem_of_app; [by eapply H1|by eapply H2]. Qed.

Lemma no_settled_nil : no_settled [].
Proof. intros q how ?%elem_of_nil. done. Qed.

Definition no_woken (ev : list QueueEvent) : Prop := forall w d, WaiterResolvedTasks w d ∉ ev.

Lemma no_woken_app ev1 ev2 : no_woken ev1 -> no_woken ev2 -> no_woken (ev1 ++ ev2).
Proof. intros H1 H2 w d [H|H]%elem_of_app; [by eapply H1|by eapply H2]. Qed.

Lemma no_woken_nil : no_woken [].
Proof. intros w d ?%elem_of_nil. done. Qed.
#[local] Hint Resolve no_settled_nil no_woken_nil no_settled_app no_woken_app : core.

(** The tasks started since [old]: they belong to the current generation of
    their lane, go before everything it still queues, and found room. *)
Definition starts_ok (old : list Running) (st : QueueState) : Prop :=
  forall r, r ∈ qs_running st -> r ∉ old -> exists s,
    jm_get (rn_lane r) (qs_lanes st) = Some s /\ rn_generation r = ls_generation s /\
    Forall (entry_before (rn_entry r)) (ls_queue s) /\
    num_lt (of_Z (Z.of_nat (length (ls_activeTaskIds s) - 1))) (ls_maxConcurrent s) = true.

Lemma starts_ok_sub old st : qs_running st ⊆ old -> starts_ok old st.
Proof. intros H r Hr Hn. by destruct Hn; apply H. Qed.

(** What a pump keeps and establishes. *)
Record pump_facts (lane : jstr) (old : list Running) (st : QueueState) (settled : list nat)
    (out : queue_outcome) : Prop := {
  pf_core : QueueCore out.1 settled;
  pf_lanes : exists s s', jm_get lane (qs_lanes st) = Some s /\
    qs_lanes out.1 = jm_set lane s' (qs_lanes st) /\ lane_rest s' /\ ls_generation s' = ls_generation s;
  pf_running : qs_running st ⊆ qs_running out.1;
  pf_waiters : waiters_pending st -> waiters_pending out.1;
  pf_settled : no_settled out.2;
  pf_starts : starts_ok old st -> starts_ok old out.1;
  pf_waiters_same : qs_activeTaskWaiters out.1 = qs_activeTaskWaiters st;
  pf_pending : forall ids, Forall (fun id => id < qs_nextTaskId st) ids ->
    hasPendingActiveTasks ids out.1 = hasPendingActiveTasks ids st;
  pf_no_wake : no_woken out.2;
}.

Lemma pump_starts now lane s0 b st old settled started s' out :
  QueueCore st settled -> jm_get lane (qs_lanes st) = Some s0 ->
  Pumped now lane (with_draining s0 b) st started s' out ->
  starts_ok old st -> starts_ok old out.1.
Proof.
  intros H Hg [Hst Hq Ha (Hl & Hgen & Hmax) _ Ht Hstd Hlim _ _ _] Hok.
  cbn in Hq, Ha, Hl, Hgen, Hstd, Hmax. rewrite Hst.
  pose proof (jm_all_get _ _ _ _ (qc_lanes _ _ H) Hg) as [L1 L2 _ _ _].
  rewrite Hq in L2. apply StronglySorted_app in L2 as (Hbefore & _ & _).
  intros r Hr Hn. cbn [qs_running qs_lanes] in *. apply elem_of_app in Hr as [Hr|Hr].
  - destruct (Hok r Hr Hn) as (s & Hs & Hsg & Hsq & Hsm). destruct (decide (rn_lane r = lane)) as [E|E].
    + rewrite E in Hs. rewrite Hg in Hs. simplify_eq. exists s'. rewrite E, jm_get_set_eq.
      split; [done|]. split; [congruence|]. rewrite Hq in Hsq. apply Forall_app in Hsq as [_ Hsq].
      split; [done|]. destruct Hlim as [->|Hlim]; [|done].
      cbn in Ha. rewrite app_nil_r in Ha. by rewrite Ha, Hmax.
    + exists s. by rewrite jm_get_set_ne.
  - rewrite Forall_forall in Hstd. destruct (Hstd r Hr) as [Hrl Hrg].
    exists s'. rewrite Hrl, L1, jm_get_set_eq. split; [done|]. split; [congruence|]. split.
    + apply Forall_forall. intros e He. apply Hbefore; [|done]. by apply list_elem_of_fmap_2.
    + destruct Hlim as [->|Hlim]; [by apply elem_of_nil in Hr|done].
Qed.

Lemma hasPending_pumped ids next lanes st st' s s' lane n :
  jm_wf (qs_lanes st) -> qs_lanes st = lanes -> jm_get lane lanes = Some s ->
  qs_lanes st' = jm_set lane s' lanes ->
  ls_activeTaskIds s' = ls_activeTaskIds s ++ seq next n -> Forall (fun id => id < next) ids ->
  hasPendingActiveTasks ids st' = hasPendingActiveTasks ids st.
Proof.
  intros Hwf <- Hg Hst Ha Hids. apply eq_true_iff_eq. split.
  - rewrite !hasPending_spec, Hst. intros (k & s1 & id & Hin & Hid & Hi).
    apply jm_elem_get in Hin; [|by apply jm_wf_set]. destruct (decide (k = lane)) as [->|Hk].
    + rewrite jm_get_set_eq in Hin. simplify_eq. rewrite Ha in Hid.
      apply elem_of_app in Hid as [Hid|[Hid _]%elem_of_seq].
      * exists lane, s, id. split; [by apply jm_get_in|done].
      * rewrite Forall_forall in Hids. apply Hids in Hi. lia.
    + rewrite jm_get_set_ne in Hin by done. exists k, s1, id. split; [by apply jm_get_in|done].
  - apply hasPending_grow. rewrite Hst. apply (put_grow _ _ s); [done..|]. rewrite Ha.
    intros id Hid. apply elem_of_app. by left.
Qed.

(** Pumping a lane brings it to rest. *)
Lemma pump_inv now lane s b old st settled :
  QueueCore st settled -> jm_get lane (qs_lanes st) = Some s ->
  pump_facts lane old st settled (pump now lane (with_draining s b) st).
Proof.
  intros H Hg. set (out := pump _ _ _ _).
  destruct (pump_spec now lane (with_draining s b) st) as (started & s' & Hp).
  { cbn. by eapply active_lt. }
  fold out in Hp. pose proof (pump_core _ _ _ _ _ _ _ _ _ H Hg Hp) as Hcore.
  pose proof (pump_starts _ _ _ _ _ old _ _ _ _ H Hg Hp) as Hstarts.
  destruct Hp as [Hst Hq Ha (_ & Hl & _) Hr _ _ _ Hns Hnw _]. cbn in Ha.
  assert (forall ids, Forall (fun id => id < qs_nextTaskId st) ids ->
    hasPendingActiveTasks ids out.1 = hasPendingActiveTasks ids st) as Hpend.
  { intros ids Hids. eapply hasPending_pumped; [apply H|done|exact Hg|by rewrite Hst|exact Ha|done]. }
  split; try done.
  - exists s, s'. split; [done|]. split; [by rewrite Hst|]. split; [done|].
    exact Hl.
  - rewrite Hst. intros r Hin. apply elem_of_app. by left.
  - unfold waiters_pending. rewrite Hst. cbn [qs_activeTaskWaiters]. rewrite <- Hst.
    rewrite !Forall_forall. intros Hw w Hin. rewrite Hpend; [by apply Hw|].
    pose proof (qc_waiter_ids _ _ H) as Hf. rewrite Forall_forall in Hf. by apply Hf.
  - by rewrite Hst.
Qed.

Lemma drain_inv now lane s old st settled :
  QueueCore st settled -> jm_get lane (qs_lanes st) = Some s -> ls_draining s = false ->
  pump_facts lane old st settled (drainLane now lane st).
Proof.
  intros H Hg Hd. unfold drainLane, getLaneState. rewrite Hg, Hd. by apply pump_inv.
Qed.

Lemma pump_facts_rest lane old st settled out :
  QueueCore st settled -> rest_but lane st -> pump_facts lane old st settled out ->
  jm_all (fun _ => lane_rest) (qs_lanes out.1).
Proof.
  intros H Hrest Hp. destruct (pf_lanes _ _ _ _ _ Hp) as (s & s' & _ & -> & Hr & _).
  eapply jm_all_set_inv; [apply H| |exact Hrest|done]. intros k v Hk Hv Hx. by apply Hx.
Qed.

(** *** The operations keep the invariant *)

(** What becomes of a waiter: it stays and is not told anything, it is told that
    its tasks are done when none of them is active, or it timed out. *)
Definition waiter_fate (timed : option nat) (w : ActiveTaskWaiter) (out : queue_outcome) : Prop :=
  (w ∈ qs_activeTaskWaiters out.1 /\ forall d, WaiterResolvedTasks (aw_id w) d ∉ out.2) \/
  ((aw_id w ∉ (aw_id <$> qs_activeTaskWaiters out.1)) /\ (WaiterResolvedTasks (aw_id w) true ∈ out.2) /\
   hasPendingActiveTasks (aw_activeTaskIds w) out.1 = false) \/
  (timed = Some (aw_id w) /\ (aw_id w ∉ (aw_id <$> qs_activeTaskWaiters out.1)) /\
   WaiterResolvedTasks (aw_id w) false ∈ out.2).

Definition waiters_fate (st : QueueState) (timed : option nat) (out : queue_outcome) : Prop :=
  forall w, w ∈ qs_activeTaskWaiters st -> waiter_fate timed w out.

Lemma fate_quiet st out :
  qs_activeTaskWaiters st ⊆ qs_activeTaskWaiters out.1 -> no_woken out.2 -> waiters_fate st None out.
Proof. intros Hs Hn w Hw. left. split; [by apply Hs|]. intros d. apply Hn. Qed.

Lemma fate_notify st st1 settled ev :
  QueueCore st1 settled -> qs_activeTaskWaiters st ⊆ qs_activeTaskWaiters st1 -> no_woken ev ->
  waiters_fate st None (let '(st, ev2) := notifyActiveTaskWaiters st1 in (st, ev ++ ev2)).
Proof.
  intros Hc Hs Hn w Hw. pose proof (qc_waiters _ _ Hc) as Hnd. rewrite notify_eq by done.
  unfold waiter_fate. cbn [fst snd with_waiters qs_activeTaskWaiters].
  destruct (waiter_done st1 w) eqn:Hd; [right; left|left].
  - split; [|split].
    + intros (w' & E & [Hw' Hd']%list_elem_of_In%List.filter_In)%list_elem_of_fmap.
      apply list_elem_of_In in Hw'. assert (w' = w) as ->.
      { apply (NoDup_fmap_eq aw_id (qs_activeTaskWaiters st1)); auto. }
      by rewrite Hd in Hd'.
    + apply elem_of_app. right. apply list_elem_of_fmap. exists w. split; [done|].
      apply list_elem_of_In, List.filter_In. split; [|done]. by apply list_elem_of_In, Hs.
    + unfold waiter_done in Hd. apply orb_true_iff in Hd as [Hd%bool_decide_eq_true|Hd%negb_true_iff];
        [|exact Hd]. rewrite Hd. apply not_true_iff_false. rewrite hasPending_spec.
      intros (k & s & id & _ & _ & ?%elem_of_nil). done.
  - split.
    + apply list_elem_of_In, List.filter_In. rewrite Hd. split; [|done]. by apply list_elem_of_In, Hs.
    + intros d [H|(w' & [= E ->] & [Hw' Hd']%list_elem_of_In%List.filter_In)%list_elem_of_fmap]%elem_of_app;
        [by eapply Hn|]. apply list_elem_of_In in Hw'. assert (w' = w) as ->.
      { apply (NoDup_fmap_eq aw_id (qs_activeTaskWaiters st1)); auto. }
      by rewrite Hd in Hd'.
Qed.

(** What every operation guarantees; [timed] is the waiter whose timer fired. *)
Record op_ok (timed : option nat) (st : QueueState) (settled : list nat) (out : queue_outcome)
    : Prop := {
  ok_inv : QueueInv out.1 (settled ++ settled_seqs out.2);
  ok_starts : starts_ok (qs_running st) out.1;
  ok_waiters : waiters_fate st timed out;
}.

Lemma op_ok_quiet timed st settled out :
  QueueInv out.1 settled -> no_settled out.2 -> starts_ok (qs_running st) out.1 ->
  waiters_fate st timed out -> op_ok timed st settled out.
Proof.
  intros H Hn Hs Hw. split; [|done..]. rewrite settled_seqs_none by exact Hn. by rewrite app_nil_r.
Qed.

Lemma op_ok_none timed st settled : QueueInv st settled -> op_ok timed st settled (st, []).
Proof.
  intros H. apply op_ok_quiet; [done..|by apply starts_ok_sub|].
  intros w Hw. left. split; [done|]. intros d. by apply no_woken_nil.
Qed.

Lemma waiters_pending_put st st' lane s s' :
  jm_wf (qs_lanes st) -> jm_get lane (qs_lanes st) = Some s ->
  ls_activeTaskIds s ⊆ ls_activeTaskIds s' ->
  qs_lanes st' = jm_set lane s' (qs_lanes st) ->
  qs_activeTaskWaiters st' = qs_activeTaskWaiters st ->
  waiters_pending st -> waiters_pending st'.
Proof.
  intros Hwf Hg Hsub Hl Hws. unfold waiters_pending. rewrite Hws. intros Hw.
  eapply Forall_impl; [exact Hw|]. intros w. apply hasPending_grow. rewrite Hl. by apply (put_grow _ _ s).
Qed.

Lemma getLaneState_inv lane st settled :
  QueueInv st settled ->
  let '(s, st1) := getLaneState lane st in
  QueueInv st1 settled /\ jm_get lane (qs_lanes st1) = Some s /\ lane_rest s /\
  qs_activeTaskWaiters st1 = qs_activeTaskWaiters st /\ qs_running st1 = qs_running st.
Proof.
  intros [H Hr Hw]. unfold getLaneState. destruct (jm_get lane (qs_lanes st)) as [s|] eqn:E.
  { split; [done|]. split; [done|]. split; [by apply (jm_all_get _ _ _ _ Hr E)|done]. }
  pose proof H as [H1 H2 H3 H4 H5 H6 H7 H8 H9 H10].
  assert (lane_rest (new_lane lane)) as Hnew by (split; [done|by left]).
  split; [|split; [apply jm_get_set_eq|done]].
  assert (forall r, r ∈ qs_running st -> rn_lane r <> lane) as Hno.
  { intros r Hin Hl. rewrite Forall_forall in H5. destruct (H5 r Hin) as [x Hx]. congruence. }
  split; [split; cbn|..]; try done.
  - by apply jm_wf_set.
  - apply jm_all_set; [done|]. split; cbn; try done; [constructor|constructor| |].
    + intros id. split; [by intros ?%elem_of_nil|]. intros (r & Hin & _ & Hl & _). by destruct (Hno r).
    + intros r Hin Hl. by destruct (Hno r).
  - eapply Forall_impl; [exact H5|]. intros r Hin. cbn. rewrite jm_get_set. case_decide; [eauto|done].
  - unfold queued_seqs in *. cbn. rewrite jm_set_flat_None by done. cbn. by rewrite app_nil_r.
  - by apply jm_all_set.
  - unfold waiters_pending in *. cbn [put_lane with_lanes qs_activeTaskWaiters].
    eapply Forall_impl; [exact Hw|]. intros w. apply hasPending_grow. cbn [put_lane with_lanes qs_lanes].
    intros k s Hin. exists s. split; [|done]. apply jm_elem_get in Hin; [|done].
    apply jm_get_in. rewrite jm_get_set_ne; [done|]. intros ->. congruence.
Qed.

(** Draining one lane of a state that is otherwise at rest. *)
Lemma drain_ok now lane s0 s st st1 settled :
  QueueInv st settled -> jm_get lane (qs_lanes st) = Some s0 ->
  qs_lanes st1 = jm_set lane s (qs_lanes st) -> QueueCore st1 settled -> waiters_pending st1 ->
  ls_draining s = false -> qs_running st1 = qs_running st ->
  qs_activeTaskWaiters st1 = qs_activeTaskWaiters st ->
  op_ok None st settled (drainLane now lane st1).
Proof.
  intros Hi Hg0 Hl Hc Hw Hd Hrun Hws.
  assert (jm_get lane (qs_lanes st1) = Some s) as Hg by by rewrite Hl, jm_get_set_eq.
  pose proof (drain_inv now lane s (qs_running st) st1 settled Hc Hg Hd) as Hp.
  apply op_ok_quiet; [split|..].
  - apply Hp.
  - eapply pump_facts_rest; [exact Hc| |exact Hp]. intros k v Hin Hk.
    apply jm_elem_get in Hin; [|apply Hc]. rewrite Hl, jm_get_set_ne in Hin by done.
    apply (jm_all_get _ _ _ _ (qi_rest _ _ Hi) Hin).
  - by apply Hp.
  - apply Hp.
  - apply Hp. apply starts_ok_sub. by rewrite Hrun.
  - apply fate_quiet; [|apply Hp]. by rewrite (pf_waiters_same _ _ _ _ _ Hp), Hws.
Qed.

Lemma nonpositive_limit active m :
  num_lt (of_Z 0) m = false -> below_limit active m = false.
Proof.
  unfold below_limit. destruct m as [|neg|q]; [done|by destruct neg|]. cbn.
  intros Hm. apply negb_false_iff, Qle_bool_iff in Hm. apply negb_false_iff, Qle_bool_iff.
  eapply Qle_trans; [exact Hm|]. change 0%Q with (inject_Z 0). rewrite <- Zle_Qle. lia.
Qed.

Lemma set_inv now lane max st settled :
  QueueInv st settled -> op_ok None st settled (setCommandLaneConcurrency now lane max st).
Proof.
  intros H. unfold setCommandLaneConcurrency.
  pose proof (getLaneState_inv (normalizeLane lane) st settled H) as Hg.
  destruct (getLaneState (normalizeLane lane) st) as [s st1]. destruct Hg as (Hi & Hg & Hrs & Hws & Hrun).
  set (m := math_max _ (math_floor max)). set (s1 := with_maxConcurrent s m).
  set (st2 := put_lane st1 (normalizeLane lane) s1).
  assert (QueueCore st2 settled) as Hc2.
  { eapply (put_lane_core st1 settled (normalizeLane lane) s s1 settled (qs_nextQueueSequence st1));
      try done; [apply Hi| |].
    - by destruct (jm_all_get _ _ _ _ (qc_lanes _ _ (qi_core _ _ Hi)) Hg) as [_ ? _ _ _].
    - rewrite Nat.sub_diag. by rewrite app_nil_r. }
  assert (waiters_pending st2) as Hw2 by (apply (waiters_pending_put st1 _ (normalizeLane lane) s s1); try done; apply Hi).
  destruct (num_lt (of_Z 0) m) eqn:Hm; cbv zeta.
  - destruct (drain_ok now (normalizeLane lane) s s1 st1 st2 settled) as [D1 D2 D3]; try done.
    { apply Hrs. } split; [done|by rewrite <- Hrun|]. unfold waiters_fate. by rewrite <- Hws.
  - apply op_ok_quiet; [split; [done| |done]|done|by apply starts_ok_sub; cbn; rewrite Hrun|].
    2:{ apply fate_quiet; [|done]. cbn. by rewrite Hws. }
    cbn [fst]. apply jm_all_set; [apply Hi|]. split; [apply Hrs|]. right. by apply nonpositive_limit.
Qed.

Lemma enqueue_inv `{!AdmissionInterface A} (a : A) c now lane opts st settled :
  QueueInv st settled -> op_ok None st settled (enqueueCommandInLane a c now lane opts st).
Proof.
  intros H. unfold enqueueCommandInLane. destruct (ai_subordinateClosed a c).
  { apply op_ok_quiet; [done| |by apply starts_ok_sub|apply fate_quiet; [done|]];
      intros q how Hin; cbn in Hin; set_solver. }
  pose proof (getLaneState_inv (normalizeLane lane) st settled H) as Hg.
  destruct (getLaneState (normalizeLane lane) st) as [s st1]. destruct Hg as (Hi & Hg & Hrs & Hws & Hrun).
  set (e := {| qe_sequence := _ |}).
  destruct (enqueueLaneEntry_queue s e) as (e' & Hs' & Hp' & Heq). rewrite Heq.
  pose proof (jm_all_get _ _ _ _ (qc_lanes _ _ (qi_core _ _ Hi)) Hg) as [_ L2 _ _ _].
  set (s1 := with_lane_queue s _).
  assert (QueueCore {| qs_lanes := jm_set (normalizeLane lane) s1 (qs_lanes st1);
    qs_activeTaskWaiters := qs_activeTaskWaiters st1; qs_nextTaskId := qs_nextTaskId st1;
    qs_nextQueueSequence := S (qs_nextQueueSequence st1); qs_nextWaiter := qs_nextWaiter st1;
    qs_running := qs_running st1 |} settled) as Hc.
  { eapply (put_lane_core st1 settled (normalizeLane lane) s s1); try done; [apply Hi| |lia|].
    - apply insert_entry_sorted; try done. apply Forall_forall. intros x Hx Hsx.
      enough (qe_sequence x < qs_nextQueueSequence st1) by (cbn in Hsx; lia).
      eapply QueueCore_seq_lt; [apply Hi|]. unfold queued_seqs.
      apply list_elem_of_bind. exists (normalizeLane lane, s). split; [|by apply jm_get_in].
      by apply list_elem_of_fmap_2.
    - replace (S (qs_nextQueueSequence st1) - qs_nextQueueSequence st1) with 1 by lia.
      unfold lane_seqs. cbn [snd s1 with_lane_queue ls_queue]. rewrite insert_entry_Permutation.
      cbn [fmap list_fmap]. rewrite Hs'. cbn [qe_sequence e seq]. solve_Permutation. }
  cbv zeta. destruct (drain_ok now (normalizeLane lane) s s1 st1
    {| qs_lanes := jm_set (normalizeLane lane) s1 (qs_lanes st1);
    qs_activeTaskWaiters := qs_activeTaskWaiters st1; qs_nextTaskId := qs_nextTaskId st1;
    qs_nextQueueSequence := S (qs_nextQueueSequence st1); qs_nextWaiter := qs_nextWaiter st1;
    qs_running := qs_running st1 |} settled) as [D1 D2 D3]; try done.
  - apply (waiters_pending_put st1 _ (normalizeLane lane) s s1); try done; apply Hi.
  - apply Hrs.
  - split; [exact D1|rewrite <- Hrun; exact D2|]. unfold waiters_fate. rewrite <- Hws. exact D3.
Qed.

Lemma put_same lane s st : jm_get lane (qs_lanes st) = Some s -> put_lane st lane s = st.
Proof.
  intros H. unfold put_lane, with_lanes. destruct st as [lanes]. cbn in *. f_equal.
  induction lanes as [|[k v] lanes IH]; cbn in *; [done|].
  destruct (decide (lane = k)) as [->|]; [by simplify_eq|]. by rewrite IH.
Qed.

Lemma filter_task_perm (run : list Running) r :
  NoDup (rn_task <$> run) -> r ∈ run ->
  run ≡ₚ r :: List.filter (fun r' => negb (rn_task r' =? rn_task r)) run.
Proof.
  induction run as [|x run IH]; intros Hnd Hr; [by apply elem_of_nil in Hr|].
  rewrite fmap_cons, NoDup_cons in Hnd. destruct Hnd as [Hx Hnd]. cbn [List.filter].
  apply elem_of_cons in Hr as [->|Hr].
  - rewrite Nat.eqb_refl. cbn [negb]. rewrite filter_all; [done|].
    intros y Hy. destruct (Nat.eqb_spec (rn_task y) (rn_task x)) as [E|E]; [|done].
    destruct Hx. rewrite <- E. by apply list_elem_of_fmap_2.
  - destruct (Nat.eqb_spec (rn_task x) (rn_task r)) as [E|E]; cbn [negb].
    + destruct Hx. rewrite E. by apply list_elem_of_fmap_2.
    + rewrite Permutation_swap. constructor. by apply IH.
Qed.

Lemma elem_of_filter_task (run : list Running) t r :
  r ∈ List.filter (fun r' => negb (rn_task r' =? t)) run <-> r ∈ run /\ rn_task r <> t.
Proof.
  rewrite list_elem_of_In, List.filter_In, <- list_elem_of_In, negb_true_iff, Nat.eqb_neq. done.
Qed.

(** A settled task leaves its lane's active ids, if it still is one of them. *)
Lemma complete_core st settled r s :
  QueueCore st settled -> r ∈ qs_running st -> jm_get (rn_lane r) (qs_lanes st) = Some s ->
  let run := List.filter (fun r' => negb (rn_task r' =? rn_task r)) (qs_running st) in
  let s' := (completeTask s (rn_task r) (rn_generation r)).2 in
  QueueCore (put_lane (with_running st run) (rn_lane r) s')
    (settled ++ [qe_sequence (rn_entry r)]).
Proof.
  intros H Hr Hg run s'. pose proof H as [H1 H2 H3 H4 H5 H6 H7 H8 H9 H10].
  pose proof (filter_task_perm _ _ H3 Hr) as Hperm. fold run in Hperm.
  assert (forall r', r' ∈ run <-> r' ∈ qs_running st /\ rn_task r' <> rn_task r) as Hrun
    by apply elem_of_filter_task.
  assert (forall r', r' ∈ qs_running st -> rn_task r' = rn_task r -> r' = r) as Huniq.
  { intros r' Hr' E. assert (r' ∈ r :: run) as Hin by by rewrite <- Hperm.
    apply elem_of_cons in Hin as [?|Hin]; [done|]. by apply Hrun in Hin as [_ ?]. }
  assert (ls_lane s' = ls_lane s /\ ls_queue s' = ls_queue s /\ ls_generation s' = ls_generation s)
    as (El & Eq & Eg) by by (unfold s', completeTask; destruct (negb _)).
  split; cbn [put_lane with_lanes with_running qs_lanes qs_running qs_nextTaskId
    qs_nextQueueSequence qs_activeTaskWaiters qs_nextWaiter]; try done.
  - by apply jm_wf_set.
  - eapply jm_all_set_inv; [done| |exact H2|].
    + intros k v Hk Hv [K1 K2 K3 K4 K5]. split; try done.
      * intros id. rewrite K4. split; intros (r' & Hr' & Hid & Hl & Hgen); exists r'.
        -- split; [|done]. apply Hrun. split; [done|]. intros E. apply Huniq in E; [|done]. congruence.
        -- apply Hrun in Hr' as [? _]. done.
      * intros r' [Hr' _]%Hrun. by apply K5.
    + pose proof (jm_all_get _ _ _ _ H2 Hg) as [L1 L2 L3 L4 L5]. split.
      * by rewrite El.
      * by rewrite Eq.
      * unfold s', completeTask. destruct (negb _); [done|]. by apply NoDup_ListNoDup, List.NoDup_filter, NoDup_ListNoDup.
      * intros id. rewrite Eg. unfold s', completeTask.
        destruct (Nat.eqb_spec (rn_generation r) (ls_generation s)) as [E|E]; cbn [negb snd].
        -- cbn [with_active ls_activeTaskIds].
           rewrite list_elem_of_In, List.filter_In, <- list_elem_of_In, L4, negb_true_iff, Nat.eqb_neq.
           split; [intros [(r' & Hr' & <- & ?) Hne]; exists r'; rewrite Hrun; done|].
           intros (r' & [Hr' Hne]%Hrun & <- & ?). split; [by exists r'|done].
        -- rewrite L4. split; intros (r' & Hr' & Hid & Hl & Hgen); exists r'.
           ++ split; [|done]. apply Hrun. split; [done|]. intros E'. apply Huniq in E'; [|done].
              congruence.
           ++ apply Hrun in Hr' as [? _]. done.
      * intros r' [Hr' _]%Hrun. rewrite Eg. by apply L5.
  - rewrite Hperm in H3. rewrite fmap_cons in H3. by apply NoDup_cons in H3 as [_ ?].
  - apply Forall_filter_list. exact H4.
  - apply Forall_filter_list. eapply Forall_impl; [exact H5|]. intros r' Hr'. cbn beta.
    rewrite jm_get_set. case_decide; [eauto|done].
  - unfold queued_seqs, running_seqs in *. cbn [put_lane with_lanes with_running qs_lanes qs_running].
    rewrite (same_queue_flat _ _ _ _ Hg Eq), <- H7, Hperm, fmap_cons. cbn [compose].
    solve_Permutation.
Qed.

Lemma with_draining_id s : s = with_draining s (ls_draining s).
Proof. by destruct s. Qed.

(** A pump after a notification changes nobody's fate. *)
Lemma fate_pump st out0 out st2 ev2 ev3 :
  out = (out0.1, [] ++ out0.2) ->
  waiters_fate st None out ->
  Forall (fun w => Forall (fun id => id < qs_nextTaskId out0.1) (aw_activeTaskIds w))
    (qs_activeTaskWaiters st) ->
  qs_activeTaskWaiters st2 = qs_activeTaskWaiters out0.1 ->
  (forall ids, Forall (fun id => id < qs_nextTaskId out0.1) ids ->
    hasPendingActiveTasks ids st2 = hasPendingActiveTasks ids out0.1) ->
  no_woken ev2 -> no_woken ev3 -> waiters_fate st None (st2, out0.2 ++ ev2 ++ ev3).
Proof.
  intros -> Hf Hids Hws Hp Hn2 Hn3 w Hw. unfold waiter_fate. cbn [fst snd].
  assert (forall d, WaiterResolvedTasks (aw_id w) d ∈ out0.2 ++ ev2 ++ ev3 <->
    WaiterResolvedTasks (aw_id w) d ∈ out0.2) as E.
  { intros d. rewrite !elem_of_app. split; [|auto].
    intros [?|[?%Hn2|?%Hn3]]; done. }
  rewrite Hws. rewrite Forall_forall in Hids. specialize (Hids w Hw). rewrite Hp by done.
  setoid_rewrite E. by apply Hf.
Qed.

Lemma settled_inv now task ok st settled :
  QueueInv st settled -> op_ok None st settled (taskSettled now task ok st).
Proof.
  intros H. unfold taskSettled. destruct (find_first _ _) as [r|] eqn:Hf; [|by apply op_ok_none].
  apply find_first_elem in Hf as [Hr <-%Nat.eqb_eq].
  set (run := List.filter _ _). set (how := if ok then _ else _).
  destruct (jm_get (rn_lane r) (qs_lanes (with_running st run))) as [s|] eqn:Hg.
  2:{ pose proof (qc_running _ _ (qi_core _ _ H)) as Hf. rewrite Forall_forall in Hf.
      destruct (Hf r Hr) as [x Hx]. cbn in Hg. congruence. }
  cbn in Hg. pose proof (complete_core st settled r s (qi_core _ _ H) Hr Hg) as Hc. cbv zeta in Hc.
  destruct (completeTask s (rn_task r) (rn_generation r)) as [cur s'] eqn:Ec. fold run in Hc.
  cbn [snd] in Hc. set (st1 := put_lane _ _ _) in *.
  assert (run ⊆ qs_running st) as Hsub by (intros x [? _]%elem_of_filter_task; done).
  unfold completeTask in Ec. destruct (negb _); injection Ec as <- <-.
  - assert (st1 = with_running st run) as E by by apply put_same.
    rewrite E in *. split; [split; [exact Hc|apply H..]|by apply starts_ok_sub|].
    apply fate_quiet; [done|]. intros w d Hin. cbn in Hin. set_solver.
  - pose proof (fate_notify st st1 _ [] Hc (reflexivity _) no_woken_nil) as Hfate.
    assert (Forall (fun w => Forall (fun id => id < qs_nextTaskId st1) (aw_activeTaskIds w))
      (qs_activeTaskWaiters st)) as Hids by apply (qc_waiter_ids _ _ (qi_core _ _ H)).
    destruct (notify_core st1 _ Hc) as (N1 & N2 & N3 & N4 & N5 & N6 & _).
    destruct (notifyActiveTaskWaiters st1) as [st2 ev1]. cbn [fst snd] in *.
    set (s1 := with_active s _) in *.
    assert (jm_get (rn_lane r) (qs_lanes st2) = Some s1) as Hg2 by by rewrite N3; cbn; rewrite jm_get_set_eq.
    rewrite (with_draining_id s1).
    pose proof (pump_inv now (rn_lane r) s1 (ls_draining s1) (qs_running st) st2 _ N1 Hg2) as Hp.
    assert (rest_but (rn_lane r) st2) as Hrest.
    { intros k v Hin Hk. apply jm_elem_get in Hin; [|apply N1]. rewrite N3 in Hin. cbn in Hin.
      rewrite jm_get_set_ne in Hin by done. apply (jm_all_get _ _ _ _ (qi_rest _ _ H) Hin). }
    pose proof (pump_facts_rest _ _ _ _ _ N1 Hrest Hp) as Hall.
    destruct (pump _ _ _ st2) as [st3 ev2]. destruct Hp as [P1 _ _ P3 P4 P5 P6 P7 P8]. cbn [fst snd] in *.
    assert (settled_seqs (ev1 ++ ev2 ++ [Settled (qe_sequence (rn_entry r)) how]) =
      [qe_sequence (rn_entry r)]) as Es.
    { rewrite !settled_seqs_app, (settled_seqs_none ev1), (settled_seqs_none ev2); done. }
    split; cbn [fst snd].
    + rewrite Es. split; auto.
    + apply P5, starts_ok_sub. rewrite N4. exact Hsub.
    + apply (fate_pump st (st2, ev1) (st2, [] ++ ev1) st3 ev2 [_]); try done;
        [cbn [fst]; rewrite N5; exact Hids|]. intros w d Hin%list_elem_of_singleton. done.
Qed.

Lemma clear_inv lane st settled :
  QueueInv st settled -> op_ok None st settled (clearCommandLane lane st).2.
Proof.
  intros H. unfold clearCommandLane.
  destruct (jm_get (normalizeLane lane) (qs_lanes st)) as [s|] eqn:Hg; [|by apply op_ok_none].
  cbn [snd]. split; [|by apply starts_ok_sub|].
  2:{ apply fate_quiet; [done|]. intros w d (e & He & _)%list_elem_of_fmap. done. }
  cbn [fst snd].
  assert (settled_seqs ((fun e => Settled (qe_sequence e) (RejectedCleared (normalizeLane lane))) <$>
    ls_queue s) = lane_seqs (normalizeLane lane, s)) as ->.
  { unfold settled_seqs, lane_seqs. cbn [snd]. induction (ls_queue s) as [|e q IH]; [done|].
    cbn in *. by rewrite IH. }
  split.
  - eapply (put_lane_core st settled _ s _ _ (qs_nextQueueSequence st)); try done; [apply H|constructor|].
    rewrite Nat.sub_diag. cbn. rewrite app_nil_r. solve_Permutation.
  - apply jm_all_set; [apply H|]. split; [|by left].
    apply (jm_all_get _ _ _ _ (qi_rest _ _ H) Hg).
  - apply (waiters_pending_put st _ (normalizeLane lane) s (with_lane_queue s [])); try done; apply H.
Qed.

(** Some lanes reset. *)
Definition lanes_reset : list (jstr * LaneState) -> list (jstr * LaneState) -> Prop :=
  Forall2 (fun kv kv' => kv'.1 = kv.1 /\ (kv'.2 = kv.2 \/ kv'.2 = reset_lane_state kv.2)).

Lemma lanes_reset_refl m : lanes_reset m m.
Proof. induction m; constructor; auto. Qed.

Lemma lanes_reset_one lane s m :
  jm_get lane m = Some s -> lanes_reset m (jm_set lane (reset_lane_state s) m).
Proof.
  induction m as [|[k v] m IH]; cbn; [done|]. destruct (decide (lane = k)) as [->|].
  - intros [= ->]. constructor; [auto|apply lanes_reset_refl].
  - intros H. constructor; [auto|by apply IH].
Qed.

Lemma lanes_reset_all m : lanes_reset m ((fun kv => (kv.1, reset_lane_state kv.2)) <$> m).
Proof. induction m; constructor; auto. Qed.

Lemma lanes_reset_keys m m' : lanes_reset m m' -> m'.*1 = m.*1.
Proof. induction 1 as [|?? ?? [E _] _ IH]; [done|]. rewrite !fmap_cons. by f_equal. Qed.

Lemma lanes_reset_in m m' k s' :
  lanes_reset m m' -> (k, s') ∈ m' ->
  exists s, (k, s) ∈ m /\ (s' = s \/ s' = reset_lane_state s).
Proof.
  induction 1 as [|[k1 v1] [k2 v2] ?? [E Hv] _ IH]; [by intros ?%elem_of_nil|].
  cbn in E, Hv. subst. intros [[= <- <-]|Hin]%elem_of_cons.
  - exists v1. split; [left|done].
  - destruct (IH Hin) as (s & ? & ?). exists s. split; [by right|done].
Qed.

Lemma reset_core st settled lanes :
  QueueCore st settled -> lanes_reset (qs_lanes st) lanes ->
  QueueCore (with_lanes st lanes) settled.
Proof.
  intros [H1 H2 H3 H4 H5 H6 H7 H8 H9 H10] Hr. pose proof (lanes_reset_keys _ _ Hr) as Hk.
  split; cbn; try done.
  - unfold jm_wf. by rewrite Hk.
  - intros k s' Hin. destruct (lanes_reset_in _ _ _ _ Hr Hin) as (s & Hs & Hcase).
    pose proof (H2 _ _ Hs) as HL. destruct Hcase as [->| ->]; [done|].
    destruct HL as [L1 L2 L3 L4 L5]. split; cbn; try done; [constructor| |].
    + intros id. split; [by intros ?%elem_of_nil|]. intros (r & Hrr & _ & Hl & Hg).
      specialize (L5 r Hrr Hl). lia.
    + intros r Hrr Hl. specialize (L5 r Hrr Hl). lia.
  - eapply Forall_impl; [exact H5|]. cbn. intros r Hx.
    destruct (jm_get (rn_lane r) lanes) eqn:E; [eauto|]. apply jm_get_None in E. rewrite Hk in E.
    apply jm_get_None in E. rewrite E in Hx. by destruct Hx.
  - unfold queued_seqs, running_seqs in *. cbn. rewrite <- H7. apply reflexive_eq. f_equal.
    clear -Hr. induction Hr as [|[k1 v1] [k2 v2] ?? [E Hv] _ IH]; [done|].
    cbn in *. rewrite IH. f_equal. unfold lane_seqs. cbn. by destruct Hv as [->| ->].
Qed.

Lemma notify_ok st0 st settled ev :
  QueueCore st settled -> jm_all (fun _ => lane_rest) (qs_lanes st) -> no_settled ev ->
  starts_ok (qs_running st0) st ->
  qs_activeTaskWaiters st0 ⊆ qs_activeTaskWaiters st -> no_woken ev ->
  op_ok None st0 settled (let '(st, ev2) := notifyActiveTaskWaiters st in (st, ev ++ ev2)).
Proof.
  intros Hc Hr Hev Hs Hsub Hw. pose proof (fate_notify st0 st settled ev Hc Hsub Hw) as Hfate.
  destruct (notify_core st _ Hc) as (N1 & N2 & N3 & N4 & _ & N6 & _).
  destruct (notifyActiveTaskWaiters st) as [st2 ev2]. cbn [fst snd] in *.
  apply op_ok_quiet; cbn [fst snd].
  - split; [done|by rewrite N3|done].
  - by apply no_settled_app.
  - unfold starts_ok. by rewrite N3, N4.
  - done.
Qed.

Lemma reset_lane_inv now lane st settled :
  QueueInv st settled -> op_ok None st settled (resetCommandLane now lane st).2.
Proof.
  intros H. unfold resetCommandLane. set (cleaned := normalizeLane lane).
  destruct (jm_get cleaned (qs_lanes st)) as [s|] eqn:Hg; [|by apply op_ok_none].
  set (st1 := put_lane st cleaned (reset_lane_state s)).
  assert (QueueCore st1 settled) as Hc.
  { apply reset_core; [apply H|]. by apply lanes_reset_one. }
  assert (rest_but cleaned st1) as Hrest.
  { intros k v Hin Hk. apply jm_elem_get in Hin; [|apply Hc]. cbn in Hin.
    rewrite jm_get_set_ne in Hin by done. apply (jm_all_get _ _ _ _ (qi_rest _ _ H) Hin). }
  case_bool_decide as Hq.
  - pose proof (notify_ok st st1 settled [] Hc) as Hn.
    destruct (notifyActiveTaskWaiters st1) as [st2 ev2]. cbn [snd]. apply Hn.
    + apply jm_all_set; [apply H|]. split; [done|by left].
    + done.
    + by apply starts_ok_sub.
    + done.
    + done.
  - pose proof (drain_inv now cleaned (reset_lane_state s) (qs_running st) st1 settled Hc
      (jm_get_set_eq _ _ _) eq_refl) as Hp.
    pose proof (pump_facts_rest _ _ _ _ _ Hc Hrest Hp) as Hall.
    destruct (drainLane now cleaned st1) as [st2 ev1]. destruct Hp as [P1 _ _ _ P4 P5 P6 _ P8].
    cbn [fst snd] in *. pose proof (notify_ok st st2 settled ev1 P1 Hall P4) as Hn.
    destruct (notifyActiveTaskWaiters st2) as [st3 ev3]. cbn [snd]. apply Hn; [|by rewrite P6|done].
    apply P5. by apply starts_ok_sub.
Qed.

(** Draining the lanes of a list brings them to rest one by one. *)
Lemma drain_all_inv now old lanes : forall st ev settled,
  QueueCore st settled -> no_settled ev -> no_woken ev -> starts_ok old st ->
  (forall k, k ∈ lanes -> is_Some (jm_get k (qs_lanes st))) ->
  jm_all (fun k s => ls_draining s = false /\ (lane_rest s \/ k ∈ lanes)) (qs_lanes st) ->
  let out := foldl (fun '(st, ev) lane => let '(st, ev') := drainLane now lane st in (st, ev ++ ev'))
    (st, ev) lanes in
  QueueCore out.1 settled /\ no_settled out.2 /\ starts_ok old out.1 /\
  jm_all (fun _ => lane_rest) (qs_lanes out.1) /\ no_woken out.2 /\
  qs_activeTaskWaiters out.1 = qs_activeTaskWaiters st.
Proof.
  induction lanes as [|lane lanes IH]; intros st ev settled Hc Hev Hw Hs Hin Hall; cbn [foldl].
  { split; [done|]. split; [done|]. split; [done|]. split; [|done]. intros k s Hks.
    by destruct (Hall k s Hks) as [_ [?|?%elem_of_nil]]. }
  destruct (Hin lane) as [s Hg]; [left|].
  destruct (jm_all_get _ _ _ _ Hall Hg) as [Hd _].
  pose proof (drain_inv now lane s old st settled Hc Hg Hd) as Hp.
  destruct (drainLane now lane st) as [st1 ev1]. destruct Hp as [P1 P2 _ _ P4 P5 P6 _ P8].
  cbn [fst snd] in *. destruct P2 as (s0 & s' & _ & Hl & Hr & _). rewrite <- P6. apply IH; auto.
  - intros k Hk. rewrite Hl, jm_get_set. case_decide; [eauto|]. apply Hin. by right.
  - rewrite Hl. eapply jm_all_set_inv; [apply Hc| |exact Hall|].
    + intros k v Hk Hv [Hd' [Hr'|Hk']]; split; auto. apply elem_of_cons in Hk' as [?|?]; [done|auto].
    + split; [apply Hr|auto].
Qed.

Lemma reset_all_inv now st settled :
  QueueInv st settled -> op_ok None st settled (resetLanes now st).
Proof.
  intros H. unfold resetLanes, drain_all. set (lanes := (fun kv => _) <$> qs_lanes st).
  set (todo := _ <$> List.filter _ lanes).
  assert (QueueCore (with_lanes st lanes) settled) as Hc
    by (apply reset_core; [apply H|apply lanes_reset_all]).
  assert (forall k, k ∈ todo -> is_Some (jm_get k lanes)) as Hin.
  { intros k ([k1 s] & -> & [Hks _]%list_elem_of_In%List.filter_In)%list_elem_of_fmap.
    apply list_elem_of_In in Hks. cbn [fst snd]. pose proof (qc_lanes _ _ Hc _ _ Hks) as [-> _ _ _ _].
    exists s. by apply jm_elem_get; [apply Hc|]. }
  assert (jm_all (fun k s => ls_draining s = false /\ (lane_rest s \/ k ∈ todo)) lanes) as Hall.
  { intros k s Hks. pose proof (qc_lanes _ _ Hc _ _ Hks) as [Hl _ _ _ _].
    pose proof Hks as Hks'. apply list_elem_of_fmap in Hks as ([k0 s0] & [= -> ->] & _).
    split; [done|]. destruct (decide (ls_queue s0 = [])) as [E|E]; [left; split; [done|by left]|].
    right. apply list_elem_of_fmap. exists (k0, reset_lane_state s0). split; [done|].
    apply list_elem_of_In, List.filter_In. split; [by apply list_elem_of_In|].
    cbn. by rewrite bool_decide_eq_false_2. }
  destruct (drain_all_inv now (qs_running st) todo (with_lanes st lanes) [] settled Hc
    no_settled_nil no_woken_nil (starts_ok_sub _ _ (reflexivity _)) Hin Hall)
    as (D1 & D2 & D3 & D4 & D5 & D6).
  destruct (foldl _ _ todo) as [st1 ev1]. cbn [fst snd] in *.
  pose proof (notify_ok st st1 settled ev1 D1 D4 D2 D3) as Hn. rewrite D6 in Hn.
  destruct (notifyActiveTaskWaiters st1). by apply Hn.
Qed.

Lemma js_set_lt (n : nat) l : Forall (fun id => id < n) l -> Forall (fun id => id < n) (js_set l).
Proof. rewrite !Forall_forall. intros H x Hx. apply H. by rewrite elem_of_js_set in Hx. Qed.

Lemma wait_inv t st settled : QueueInv st settled -> op_ok None st settled (waitForActiveTasks t st).2.
Proof.
  intros H. unfold waitForActiveTasks. set (ids := js_set _).
  case_bool_decide as He; [by apply op_ok_none|]. destruct (match t with Some _ => _ | None => _ end);
    [by apply op_ok_none|]. cbn [snd]. set (st1 := {| qs_lanes := _ |}).
  assert (QueueCore st1 settled) as Hc.
  { destruct (qi_core _ _ H) as [H1 H2 H3 H4 H5 H6 H7 H8 H9 H10]. split; cbn; try done.
    - rewrite fmap_app. apply NoDup_app. split; [done|]. split; [|apply NoDup_singleton].
      intros id (w & -> & Hw)%list_elem_of_fmap Hin. cbn in Hin. rewrite Forall_forall in H9.
      apply H9 in Hw. apply list_elem_of_singleton in Hin. lia.
    - apply Forall_app. split; [eapply Forall_impl; [exact H9|]; simpl; lia|].
      constructor; [cbn; lia|constructor].
    - apply Forall_app. split; [done|]. constructor; [|constructor]. cbn. apply js_set_lt.
      apply Forall_forall. intros id ([k s] & Hid & Hin)%list_elem_of_bind. cbn in Hid.
      pose proof (active_lt st settled k s (qi_core _ _ H)) as Hlt. rewrite Forall_forall in Hlt.
      apply Hlt; [|done]. by apply jm_elem_get. }
  pose proof (notify_ok st st1 settled [] Hc (qi_rest _ _ H) no_settled_nil) as Hn.
  destruct (notifyActiveTaskWaiters st1) as [st2 ev]. apply Hn; [by apply starts_ok_sub| |done].
  intros w Hw. apply elem_of_app. by left.
Qed.

Lemma timeout_inv w st settled :
  QueueInv st settled -> op_ok (Some w) st settled (waiterTimeout w st).
Proof.
  intros H. unfold waiterTimeout, resolveActiveTaskWaiter. destruct (existsb _ _); [|by apply op_ok_none].
  apply op_ok_quiet; [|intros q how Hin; cbn in Hin; set_solver|by apply starts_ok_sub|].
  2:{ intros w' Hw'. unfold waiter_fate. cbn [fst snd with_waiters qs_activeTaskWaiters].
      destruct (Nat.eqb_spec (aw_id w') w) as [<-|E].
      - right; right. split; [done|]. split; [|left].
        intros (x & Hx & [_ Hin]%list_elem_of_In%List.filter_In)%list_elem_of_fmap.
        by rewrite <- Hx, Nat.eqb_refl in Hin.
      - left. split.
        + apply list_elem_of_In, List.filter_In. split; [by apply list_elem_of_In|].
          by apply negb_true_iff, Nat.eqb_neq.
        + intros d Hd%list_elem_of_singleton. congruence. }
  destruct H as [Hc Hr Hw]. split; [|done|by apply Forall_filter_list].
  apply QueueCore_waiters; [done|apply sublist_filter_ids, Hc|apply Forall_filter_list, Hc..].
Qed.

(** *** Runs *)

Lemma initial_inv : QueueInv initial_queue [].
Proof.
  assert (forall P : jstr -> LaneState -> Prop, jm_all P []) as Hno by (intros P k s ?%elem_of_nil; done).
  split; [split|..]; cbn; try done; constructor.
Qed.

Lemma queue_step_ok `{!AdmissionInterface A} (op : QueueOp A) st settled :
  QueueInv st settled ->
  op_ok (match op with WaiterTimeout w => Some w | _ => None end) st settled (queue_step op st).
Proof.
  intros H. destruct op; cbn [queue_step].
  - by apply enqueue_inv.
  - by apply settled_inv.
  - by apply set_inv.
  - by apply clear_inv.
  - by apply reset_lane_inv.
  - by apply reset_all_inv.
  - by apply wait_inv.
  - by apply timeout_inv.
Qed.

Lemma queue_run_inv `{!AdmissionInterface A} (ops : list (QueueOp A)) :
  QueueInv (queue_run ops initial_queue).1 (settled_seqs (queue_run ops initial_queue).2).
Proof.
  unfold queue_run. set (f := fun _ : queue_outcome => _).
  assert (forall st ev, QueueInv st (settled_seqs ev) ->
    QueueInv (foldl f (st, ev) ops).1 (settled_seqs (foldl f (st, ev) ops).2)) as H.
  { induction ops as [|op ops IH]; intros st ev Hi; cbn [foldl]; [done|].
    pose proof (queue_step_ok op st _ Hi) as [Hs _ _]. unfold f at 2 4.
    destruct (queue_step op st) as [st1 ev1]. apply IH. by rewrite settled_seqs_app. }
  apply H, initial_inv.
Qed.

(** *** Fences *)

Lemma pump_loop_accepts now lane gen max queue : forall active next,
  EnqueueRejectedDraining ∉ (pump_loop now lane gen max queue active next).2.
Proof.
  induction queue as [|e queue IH]; intros active next; cbn [pump_loop].
  { apply not_elem_of_nil. }
  destruct (below_limit active max); [|apply not_elem_of_nil].
  specialize (IH (js_add next active) (S next)).
  destruct (pump_loop _ _ _ _ _ _ _) as [[[[rest active'] next'] started] ev]. cbn [snd] in *.
  rewrite elem_of_app, elem_of_cons. intros [Hin|[?|?]]; [|done..].
  destruct (_ && _); [|by apply elem_of_nil in Hin]. by apply list_elem_of_singleton in Hin.
Qed.

Lemma drainLane_accepts now lane st :
  (EnqueueRejectedDraining ∉ (drainLane now lane st).2) /\
  qs_nextQueueSequence (drainLane now lane st).1 = qs_nextQueueSequence st.
Proof.
  unfold drainLane. destruct (getLaneState lane st) as [s st1] eqn:E.
  assert (qs_nextQueueSequence st1 = qs_nextQueueSequence st) as En.
  { unfold getLaneState in E. destruct (jm_get _ _); by simplify_eq. }
  destruct (ls_draining s); [split; [apply not_elem_of_nil|done]|]. unfold pump.
  match goal with |- context [pump_loop ?a ?b ?c ?d ?e ?f ?g] =>
    pose proof (pump_loop_accepts a b c d e f g) as H;
    destruct (pump_loop a b c d e f g) as [[[[rest active] next] started] ev] end.
  split; [exact H|exact En].
Qed.


(** The completion of a task of an old generation. *)
Lemma stale_fence now st settled r s ok :
  QueueInv st settled -> r ∈ qs_running st -> jm_get (rn_lane r) (qs_lanes st) = Some s ->
  rn_generation r <> ls_generation s ->
  taskSettled now (rn_task r) ok st =
    (with_running st (List.filter (fun r' => negb (rn_task r' =? rn_task r)) (qs_running st)),
     [Settled (qe_sequence (rn_entry r)) (if ok then Fulfilled else RejectedByTask)]).
Proof.
  intros H Hr Hg Hne. unfold taskSettled. destruct (find_first _ _) as [r'|] eqn:Hf.
  - apply find_first_elem in Hf as [Hr' E%Nat.eqb_eq].
    assert (r' = r) as -> by by apply (NoDup_fmap_eq rn_task (qs_running st)); [apply H|..].
    cbn [with_running qs_lanes]. rewrite Hg. unfold completeTask.
    rewrite (proj2 (Nat.eqb_neq _ _)) by done. cbn [negb]. by rewrite put_same.
  - exfalso. clear -Hf Hr. induction (qs_running st) as [|x l IH]; [by apply elem_of_nil in Hr|].
    cbn in Hf. apply elem_of_cons in Hr as [->|Hr].
    + by rewrite Nat.eqb_refl in Hf.
    + destruct (_ =? _); [done|auto].
Qed.

(** Resetting a lane keeps the pending promises and bumps its generation. *)
Lemma reset_lane_moved now st settled lane s :
  QueueInv st settled -> jm_get lane (qs_lanes st) = Some s ->
  let st1 := put_lane st lane (reset_lane_state s) in
  let out := if bool_decide (ls_queue s = []) then (st1, []) else drainLane now lane st1 in
  let st' := (notifyActiveTaskWaiters out.1).1 in
  qs_running st ⊆ qs_running st' /\
  exists s', jm_get lane (qs_lanes st') = Some s' /\ ls_generation s' = S (ls_generation s).
Proof.
  intros H Hg st1 out st'.
  assert (QueueCore st1 settled) as Hc by (apply reset_core; [apply H|by apply lanes_reset_one]).
  assert (QueueCore out.1 settled /\ qs_running st ⊆ qs_running out.1 /\
    exists s', jm_get lane (qs_lanes out.1) = Some s' /\ ls_generation s' = S (ls_generation s))
    as (Hc' & Hsub & s' & Hs' & Hgen).
  { unfold out. case_bool_decide.
    - split; [done|]. split; [done|]. exists (reset_lane_state s). split; [apply jm_get_set_eq|done].
    - pose proof (drain_inv now lane (reset_lane_state s) [] st1 settled Hc (jm_get_set_eq _ _ _) eq_refl)
        as [P1 (s0 & s' & Hs0 & Hl & _ & Hgen) P3 _ _ _ _ _ _].
      split; [done|]. split; [exact P3|]. exists s'. rewrite Hl, jm_get_set_eq. split; [done|].
      cbn in Hs0. rewrite jm_get_set_eq in Hs0. injection Hs0 as <-. exact Hgen. }
  destruct (notify_core out.1 _ Hc') as (_ & _ & N3 & N4 & _).
  unfold st'. rewrite N3, N4. eauto.
Qed.

(** Lanes with nothing queued and nothing active. *)
Lemma idle_lanes_empty (m : list (jstr * LaneState)) :
  (forall k s, (k, s) ∈ m -> ls_queue s = [] /\ ls_activeTaskIds s = []) ->
  foldl (fun total kv => total + getLaneDepth kv.2) 0 m = 0 /\ m ≫= lane_seqs = [].
Proof.
  induction m as [|[k s] m IH]; intros H; [done|].
  destruct (H k s) as [E1 E2]; [left|]. destruct IH as [I1 I2]; [intros k' s' ?; apply (H k'); by right|].
  cbn [foldl mbind list_bind]. rewrite I2. unfold getLaneDepth at 2, lane_seqs. cbn [snd].
  rewrite E1, E2. done.
Qed.

(** ** Properties *)

Section properties.
Context {A : Type} `{!AdmissionInterface A}.
Implicit Types (ops : list (QueueOp A)) (op : QueueOp A).

(** C11. After any sequence of calls and task completions, the queue is in good
    order: every lane is sorted by priority and then by age, its active ids
    are exactly the pending tasks of its current generation, it is pumped as
    far as its limit allows, and every registered waiter waits for a task that
    is active. *)
Theorem command_queue_invariant ops :
  QueueInv (queue_run ops initial_queue).1 (settled_seqs (queue_run ops initial_queue).2).
Proof. apply queue_run_inv. Qed.

(** C3. No command is lost or answered twice: at any time the sequence numbers
    handed out so far are, each exactly once, queued, running or settled;
    lane clears and resets included. *)
Theorem settled_exactly_once ops :
  let '(st, ev) := queue_run ops initial_queue in
  queued_seqs st ++ running_seqs st ++ settled_seqs ev ≡ₚ seq 1 (qs_nextQueueSequence st - 1).
Proof.
  pose proof (queue_run_inv ops) as [H _ _]. destruct (queue_run _ _) as [st ev]. apply H.
Qed.

(** Nothing is stuck: when no started task is pending and every lane has a
    positive limit, every accepted command has been answered. *)
Theorem idle_queue_is_done ops :
  let '(st, ev) := queue_run ops initial_queue in
  qs_running st = [] ->
  jm_all (fun _ s => num_lt (of_Z 0) (ls_maxConcurrent s) = true) (qs_lanes st) ->
  getTotalQueueSize st = 0 /\ settled_seqs ev ≡ₚ seq 1 (qs_nextQueueSequence st - 1).
Proof.
  pose proof (queue_run_inv ops) as [H Hr _]. destruct (queue_run _ _) as [st ev].
  cbn [fst snd] in *. intros Hrun Hmax.
  assert (forall k s, (k, s) ∈ qs_lanes st -> ls_queue s = [] /\ ls_activeTaskIds s = []) as Hidle.
  { intros k s Hin. assert (ls_activeTaskIds s = []) as Ha.
    { destruct (ls_activeTaskIds s) as [|id l] eqn:E; [done|].
      destruct (qc_lanes _ _ H k s Hin) as [_ _ _ L4 _].
      destruct (proj1 (L4 id)) as (r & Hx & _); [rewrite E; left|]. rewrite Hrun in Hx.
      by apply elem_of_nil in Hx. }
    split; [|done]. destruct (Hr k s Hin) as [_ [?|Hb]]; [done|]. rewrite Ha in Hb.
    unfold below_limit in Hb. pose proof (Hmax k s Hin) as Hm. cbn beta in Hm. change (Z.of_nat (length [])) with 0%Z in Hb. congruence. }
  split; [by apply idle_lanes_empty|].
  pose proof (qc_conserved _ _ H) as Hc. unfold running_seqs in Hc. rewrite Hrun in Hc.
  unfold queued_seqs in Hc. by rewrite (proj2 (idle_lanes_empty _ Hidle)) in Hc.
Qed.

(** C27. Tasks start in order and only when there is room: a task that a call
    starts has a higher priority than every entry its lane still queues, or the
    same priority and a smaller sequence number, and without it the lane was
    below its limit. *)
Theorem tasks_start_in_order ops op r :
  let st := (queue_run ops initial_queue).1 in
  let st' := (queue_step op st).1 in
  r ∈ qs_running st' -> r ∉ qs_running st ->
  exists s, jm_get (rn_lane r) (qs_lanes st') = Some s /\ rn_generation r = ls_generation s /\
    Forall (entry_before (rn_entry r)) (ls_queue s) /\
    num_lt (of_Z (Z.of_nat (length (ls_activeTaskIds s) - 1))) (ls_maxConcurrent s) = true.
Proof.
  intros st st' Hr Hn. destruct (queue_step_ok op st _ (queue_run_inv ops)) as [_ H _].
  by apply H.
Qed.

(** A waiter of [waitForActiveTasks] is answered once and correctly: a call
    leaves it registered, or answers it [drained: true] when none of the tasks
    it captured is active any more, or answers it [drained: false], which only
    its own timer does. *)
Theorem waiters_answered_correctly ops op w :
  let st := (queue_run ops initial_queue).1 in
  let out := queue_step op st in
  w ∈ qs_activeTaskWaiters st ->
  (w ∈ qs_activeTaskWaiters out.1 /\
   hasPendingActiveTasks (aw_activeTaskIds w) out.1 = true /\
   forall d, WaiterResolvedTasks (aw_id w) d ∉ out.2) \/
  ((aw_id w ∉ (aw_id <$> qs_activeTaskWaiters out.1)) /\
   ((WaiterResolvedTasks (aw_id w) true ∈ out.2 /\
     hasPendingActiveTasks (aw_activeTaskIds w) out.1 = false) \/
    (op = WaiterTimeout (aw_id w) /\ WaiterResolvedTasks (aw_id w) false ∈ out.2))).
Proof.
  intros st out Hw. destruct (queue_step_ok op st _ (queue_run_inv ops)) as [Hi _ H].
  destruct (H w Hw) as [[Hin Hn]|[(Hn & He & Hp)|(Ht & Hn & He)]].
  - left. split; [done|]. split; [|done]. pose proof (qi_waiters _ _ Hi) as Hpend.
    unfold waiters_pending in Hpend. rewrite Forall_forall in Hpend. by apply Hpend.
  - right. auto.
  - right. split; [done|]. right. split; [|done]. destruct op; congruence.
Qed.

(** Resetting a lane abandons its running tasks: it reports how many ids it
    released, and when one of the abandoned tasks settles afterwards, its
    caller is answered but no lane, waiter or start is affected. *)
Theorem reset_fences_old_tasks ops now now' lane r ok :
  let st := (queue_run ops initial_queue).1 in
  let '(released, (st', _)) := resetCommandLane now lane st in
  r ∈ qs_running st -> rn_lane r = normalizeLane lane ->
  released = length (getCommandLaneActiveTaskIds lane st) /\
  taskSettled now' (rn_task r) ok st' =
    (with_running st' (List.filter (fun r' => negb (rn_task r' =? rn_task r)) (qs_running st')),
     [Settled (qe_sequence (rn_entry r)) (if ok then Fulfilled else RejectedByTask)]).
Proof.
  intros st. pose proof (queue_run_inv ops) as H. fold st in H. unfold resetCommandLane.
  set (cleaned := normalizeLane lane). destruct (jm_get cleaned (qs_lanes st)) as [s|] eqn:Hg.
  2:{ intros Hr Hl. pose proof (qc_running _ _ (qi_core _ _ H)) as Hf. rewrite Forall_forall in Hf.
      destruct (Hf r Hr) as [x Hx]. congruence. }
  pose proof (reset_lane_inv now lane st _ H) as [Hi _ _]. unfold resetCommandLane in Hi.
  fold cleaned in Hi. rewrite Hg in Hi. cbv zeta in *.
  pose proof (reset_lane_moved now st _ cleaned s H Hg) as Hm. cbv zeta in Hm.
  destruct (if bool_decide _ then _ else _) as [st1 ev1]. cbn [fst snd] in *.
  destruct (notifyActiveTaskWaiters st1) as [st2 ev2]. cbn [fst snd] in *.
  destruct Hm as [Hrun (s' & Hs' & Hgen)]. intros Hr Hl. split.
  { unfold getCommandLaneActiveTaskIds. fold cleaned. by rewrite Hg. }
  eapply stale_fence; [exact Hi|by apply Hrun|by rewrite Hl|].
  pose proof (jm_all_get _ _ _ _ (qc_lanes _ _ (qi_core _ _ H)) Hg) as [_ _ _ _ L5].
  specialize (L5 r Hr Hl). lia.
Qed.

(** Draining for a restart turns every new command away without touching
    the queue, and the reset that follows the restart takes commands again. *)
Theorem draining_rejects_enqueues (admission : A) current now lane opts st :
  enqueueCommandInLane (markGatewayDraining admission) current now lane opts st =
    (st, [EnqueueRejectedDraining]) /\
  let '(admission', (st', _)) := resetAllLanes now admission st in
  let out := enqueueCommandInLane admission' None now lane opts st' in
  (EnqueueRejectedDraining ∉ out.2) /\
  qs_nextQueueSequence out.1 = S (qs_nextQueueSequence st').
Proof.
  split.
  { unfold enqueueCommandInLane, markGatewayDraining. by rewrite ai_draining_closes. }
  unfold resetAllLanes. destruct (resetLanes now st) as [st' ev]. cbv zeta.
  unfold enqueueCommandInLane. rewrite ai_open_subordinate by apply ai_reset_opens.
  destruct (getLaneState (normalizeLane lane) st') as [s st1] eqn:E.
  assert (qs_nextQueueSequence st1 = qs_nextQueueSequence st') as En.
  { unfold getLaneState in E. destruct (jm_get _ _); by simplify_eq. }
  cbv zeta. set (st2 := {| qs_lanes := qs_lanes (put_lane _ _ _) |}).
  destruct (drainLane_accepts now (normalizeLane lane) st2) as [H1 H2].
  rewrite H2. split; [exact H1|]. cbn. by rewrite En.
Qed.
End properties.

(** ** Witnesses *)

Definition example_options (priority : option QueuePriority) : CommandQueueEnqueueOptions :=
  {| eo_warnAfterMs := None; eo_onWait := false; eo_taskTimeoutMs := None;
     eo_taskTimeoutAbortGraceMs := None; eo_priority := priority |}.

(** One task runs, a foreground and a normal command wait, and a waiter waits
    for the running one. *)
Definition example_run : list (QueueOp GatewayWorkAdmissionState) :=
  [Enqueue initial_admission None 0%Z (lit "main") (example_options None);
   Enqueue initial_admission None 1%Z (lit "main") (example_options None);
   Enqueue initial_admission None 2%Z (lit " ") (example_options (Some Foreground));
   WaitTasks None].

Definition example_all_done : list (QueueOp GatewayWorkAdmissionState) :=
  example_run ++ [Settle 5%Z 1 true; Settle 6%Z 2 false; Settle 7%Z 3 true].

Definition example_running (task sequence : nat) (at_ priority : Z) (ahead active : nat) : Running :=
  {| rn_task := task; rn_lane := lit "main"; rn_generation := 0;
     rn_entry := {| qe_sequence := sequence; qe_enqueuedAt := at_; qe_priority := priority;
                    qe_warnAfterMs := of_Z 2000; qe_queuedAheadAtEnqueue := ahead;
                    qe_activeAheadAtEnqueue := active; qe_taskTimeoutMs := None;
                    qe_taskTimeoutAbortGraceMs := None; qe_onWait := false |} |}.

Lemma idle_queue_is_done_witness :
  let '(st, ev) := queue_run example_all_done initial_queue in
  getTotalQueueSize st = 0 /\ settled_seqs ev = [1; 3; 2] /\
  settled_seqs ev ≡ₚ seq 1 (qs_nextQueueSequence st - 1).
Proof.
  pose proof (idle_queue_is_done example_all_done) as H.
  destruct (queue_run example_all_done initial_queue) as [st ev] eqn:E.
  vm_compute in E. injection E as <- <-. destruct H as [H1 H2].
  - reflexivity.
  - intros k s Hin%list_elem_of_singleton. injection Hin as -> ->. vm_compute. reflexivity.
  - split; [exact H1|]. split; [vm_compute; reflexivity|exact H2].
Defined.

Lemma tasks_start_in_order_witness :
  let st := (queue_run example_run initial_queue).1 in
  exists s, jm_get (lit "main") (qs_lanes (queue_step (Settle 5%Z 1 true) st).1) = Some s /\
    Forall (entry_before (rn_entry (example_running 2 3 2 1 0 1))) (ls_queue s) /\
    (qe_sequence <$> ls_queue s) = [2].
Proof.
  destruct (tasks_start_in_order example_run (Settle 5%Z 1 true) (example_running 2 3 2 1 0 1))
    as (s & H1 & _ & H3 & _).
  - vm_compute. left.
  - vm_compute. intros [Hin|Hin%elem_of_nil]%elem_of_cons; [|exact Hin]. discriminate Hin.
  - exists s. split; [exact H1|]. split; [exact H3|]. vm_compute in H1. injection H1 as <-. reflexivity.
Defined.

Lemma waiters_answered_correctly_witness :
  let st := (queue_run example_run initial_queue).1 in
  let out := queue_step (Settle 5%Z 1 true) st in
  (aw_id <$> qs_activeTaskWaiters st) = [0] /\ (WaiterResolvedTasks 0 true ∈ out.2).
Proof.
  cbv zeta. split; [vm_compute; reflexivity|].
  destruct (waiters_answered_correctly example_run (Settle 5%Z 1 true)
    {| aw_id := 0; aw_activeTaskIds := [1]; aw_timeout := false |}) as [H|H].
  - vm_compute. left.
  - destruct H as (H & _). vm_compute in H. by apply elem_of_nil in H.
  - destruct H as (_ & [[H _]|[H _]]); [exact H|discriminate H].
Defined.

Lemma reset_fences_old_tasks_witness :
  let st := (queue_run example_run initial_queue).1 in
  let '(released, (st', _)) := resetCommandLane 9%Z (lit "main") st in
  released = 1 /\ (rn_task <$> qs_running st') = [1; 2] /\
  (taskSettled 10%Z 1 true st').2 = [Settled 1 Fulfilled].
Proof.
  pose proof (reset_fences_old_tasks example_run 9%Z 10%Z (lit "main")
    (example_running 1 1 0 0 0 0) true) as H.
  cbv zeta in *.
  destruct (resetCommandLane 9%Z (lit "main") (queue_run example_run initial_queue).1)
    as [released [st' ev]] eqn:E.
  destruct H as [H1 H2].
  - vm_compute. left.
  - vm_compute. reflexivity.
  - split; [rewrite H1; vm_compute; reflexivity|]. split.
    + vm_compute in E. injection E as <- <- <-. reflexivity.
    + cbn [rn_task example_running] in H2. rewrite H2. reflexivity.
Defined.
