(* ===== verification/TaskTimeout.v ===== *)
(** * The timeout of a queued task

    [runQueueEntryTask] of [src/process/command-queue.ts]: a task races a
    timeout that is pushed back while the task reports progress, that becomes a
    fixed grace period once its abort signal fires, and that a release signal
    ends at once.

    A run is its timer, its two listeners and its result; the task settling,
    the timer firing and the signals are the events.  The result and the
    [finally] that clears the timer and removes the listeners are one step.
    Clocks are integers of milliseconds, what the progress callback returns is
    any number, or nothing when it is missing, throws or returns no number. *)
From S2P Require Import Prelude JsNumber NumberCoercion CommandQueue.
#[local] Open Scope Z_scope.

(** ** Data *)

Inductive TaskResult := TaskFulfilled | TaskRejected | TaskTimedOut.

(** The callback of the armed timer. *)
Inductive TimerCallback := ArmProgressTimeout | RejectForTimeout.

Record TaskRun := {
  tr_taskTimeoutMs : num;
  tr_graceMs : num;
  tr_startedAtMs : Z;
  tr_timer : option (num * TimerCallback);
  tr_abortListener : bool;
  tr_releaseListener : bool;
  tr_result : option TaskResult;
}.

(** A signal that is passed, with [aborted]. *)
Notation signal := (option bool).

Inductive TimeoutEvent :=
  | TaskPromise (ok : bool)
  | TimerFired (now : Z) (progress : option num)
  | AbortSignal
  | ReleaseSignal.

Definition with_timer (timer : option (num * TimerCallback)) (s : TaskRun) : TaskRun :=
  {| tr_taskTimeoutMs := tr_taskTimeoutMs s; tr_graceMs := tr_graceMs s;
     tr_startedAtMs := tr_startedAtMs s; tr_timer := timer;
     tr_abortListener := tr_abortListener s; tr_releaseListener := tr_releaseListener s;
     tr_result := tr_result s |}.

Definition with_listeners (abort release : bool) (s : TaskRun) : TaskRun :=
  {| tr_taskTimeoutMs := tr_taskTimeoutMs s; tr_graceMs := tr_graceMs s;
     tr_startedAtMs := tr_startedAtMs s; tr_timer := tr_timer s;
     tr_abortListener := abort; tr_releaseListener := release; tr_result := tr_result s |}.

(** The race is decided and the [finally] block runs. *)
Definition settle (result : TaskResult) (s : TaskRun) : TaskRun :=
  {| tr_taskTimeoutMs := tr_taskTimeoutMs s; tr_graceMs := tr_graceMs s;
     tr_startedAtMs := tr_startedAtMs s; tr_timer := None;
     tr_abortListener := false; tr_releaseListener := false; tr_result := Some result |}.

(** ** Operations *)

Definition readLastProgressAtMs (startedAtMs : Z) (progress : option num) : num :=
  match progress with
  | Some value =>
      if isFinite value && num_lt (of_Z 0) value
      then math_max (of_Z startedAtMs) (math_floor value) else of_Z startedAtMs
  | None => of_Z startedAtMs
  end.

Definition rejectForTimeout (s : TaskRun) : TaskRun := settle TaskTimedOut s.

Definition armTimer (delayMs : num) (onTimeout : TimerCallback) (run : TaskRun -> TaskRun)
    (s : TaskRun) : TaskRun :=
  if num_le delayMs (of_Z 0) then run (with_timer None s)
  else with_timer (Some (delayMs, onTimeout)) s.

Definition armProgressTimeout (now : Z) (progress : option num) (s : TaskRun) : TaskRun :=
  let elapsedMs :=
    math_max (of_Z 0) (num_sub (of_Z now) (readLastProgressAtMs (tr_startedAtMs s) progress)) in
  let remainingMs := num_sub (tr_taskTimeoutMs s) elapsedMs in
  if num_le remainingMs (of_Z 0) then rejectForTimeout s
  else armTimer remainingMs ArmProgressTimeout (fun s => s) s.

Definition armAbortTimeout (s : TaskRun) : TaskRun :=
  armTimer (tr_graceMs s) RejectForTimeout rejectForTimeout s.

(** The executor of the timeout promise: [startedAtMs] is the first reading of
    the clock and [now] the one of the first check. *)
Definition startTimeout (timeoutMs graceMs : num) (startedAtMs now : Z) (progress : option num)
    (abort release : signal) : TaskRun :=
  let s :=
    {| tr_taskTimeoutMs := timeoutMs; tr_graceMs := graceMs; tr_startedAtMs := startedAtMs;
       tr_timer := None; tr_abortListener := false; tr_releaseListener := false;
       tr_result := None |} in
  match release with
  | Some true => rejectForTimeout s
  | _ =>
      match abort with
      | Some true => armAbortTimeout s
      | _ =>
          let s := armProgressTimeout now progress s in
          match tr_result s with
          | Some _ => s
          | None => with_listeners (bool_decide (is_Some abort)) (bool_decide (is_Some release)) s
          end
      end
  end.

(** Without a timeout the task alone decides. *)
Definition runQueueEntryTask (entry : QueueEntry) (startedAtMs now : Z) (progress : option num)
    (abort release : signal) : option TaskRun :=
  match normalizeTaskTimeoutMs (qe_taskTimeoutMs entry) with
  | None => None
  | Some taskTimeoutMs =>
      let taskTimeoutAbortGraceMs :=
        default taskTimeoutMs (normalizeTaskTimeoutMs (qe_taskTimeoutAbortGraceMs entry)) in
      Some (startTimeout taskTimeoutMs taskTimeoutAbortGraceMs startedAtMs now progress abort release)
  end.

Definition timeout_step (e : TimeoutEvent) (s : TaskRun) : TaskRun :=
  match tr_result s, e with
  | Some _, _ => s
  | None, TaskPromise ok => settle (if ok then TaskFulfilled else TaskRejected) s
  | None, TimerFired now progress =>
      match tr_timer s with
      | None => s
      | Some (_, ArmProgressTimeout) => armProgressTimeout now progress s
      | Some (_, RejectForTimeout) => rejectForTimeout s
      end
  | None, AbortSignal =>
      if tr_abortListener s
      then armAbortTimeout (with_listeners false (tr_releaseListener s) s) else s
  | None, ReleaseSignal =>
      if tr_releaseListener s
      then rejectForTimeout (with_listeners (tr_abortListener s) false s) else s
  end.

Definition timeout_run (events : list TimeoutEvent) (s : TaskRun) : TaskRun :=
  foldl (fun s e => timeout_step e s) s events.

(** ** Progress on integer clocks *)

(** The last progress as an integer. *)
Definition progress_at (startedAtMs : Z) (progress : option num) : Z :=
  match progress with
  | Some (Fin q) => if num_lt (of_Z 0) (Fin q) then Z.max startedAtMs (Qfloor q) else startedAtMs
  | _ => startedAtMs
  end.

Lemma readLastProgress_at started p : readLastProgressAtMs started p = of_Z (progress_at started p).
Proof.
  destruct p as [[| |q]|]; try done. cbn [readLastProgressAtMs isFinite andb progress_at].
  destruct (num_lt _ _); [|done]. cbn [math_floor]. by rewrite math_max_of_Z.
Qed.

Lemma progress_at_ge started p : started <= progress_at started p.
Proof. unfold progress_at. destruct p as [[| |q]|]; try lia. destruct (num_lt _ _); lia. Qed.

(** A moment a [Date] can show. *)
Definition clock (t : Z) : Prop := 0 <= t <= MAX_DATE_TIMESTAMP_MS.

(** How long ago the last progress was. *)
Definition idle_ms (s : TaskRun) (now : Z) (progress : option num) : Z :=
  Z.max 0 (now - progress_at (tr_startedAtMs s) progress).

(** Arming the progress timeout, on integers. *)
Lemma armProgressTimeout_eq now p s T :
  tr_taskTimeoutMs s = of_Z T -> 0 < T <= MAX_TIMER_TIMEOUT_MS -> clock now ->
  0 <= tr_startedAtMs s ->
  (T <= idle_ms s now p -> armProgressTimeout now p s = rejectForTimeout s) /\
  (idle_ms s now p < T -> exists d, num_eq d (of_Z (T - idle_ms s now p)) /\
    armProgressTimeout now p s = with_timer (Some (d, ArmProgressTimeout)) s).
Proof.
  intros HT Hb Hc Hs. unfold clock, MAX_DATE_TIMESTAMP_MS, MAX_TIMER_TIMEOUT_MS in *.
  pose proof (progress_at_ge (tr_startedAtMs s) p) as Hp.
  assert (num_eq (num_sub (tr_taskTimeoutMs s) (math_max (of_Z 0)
    (num_sub (of_Z now) (readLastProgressAtMs (tr_startedAtMs s) p)))) (of_Z (T - idle_ms s now p)))
    as E.
  { rewrite readLastProgress_at, HT. rewrite <- num_sub_of_Z by (unfold idle_ms; lia).
    apply num_sub_proper; [done|]. apply max_zero_sub; lia. }
  unfold armProgressTimeout. set (d := num_sub _ _) in *. clearbody d.
  rewrite (num_le_proper _ _ E _ _ (reflexivity (of_Z 0))), num_le_of_Z.
  unfold armTimer. rewrite (num_le_proper _ _ E _ _ (reflexivity (of_Z 0))), num_le_of_Z.
  destruct (Z.leb_spec (T - idle_ms s now p) 0); split; intros; try lia; [done|].
  by exists d.
Qed.

(** ** The invariant of a run *)

Lemma normalizeTaskTimeoutMs_safe v t : normalizeTaskTimeoutMs v = Some t -> timer_safe t.
Proof.
  unfold normalizeTaskTimeoutMs. destruct v as [v|]; [|done]. destruct (_ || _); [done|].
  apply clampPositiveTimerTimeoutMs_safe.
Qed.

(** A decided run has nothing armed; an undecided one has a timer: the progress
    timer with a delay of at most the timeout, or the grace period, which only
    an abort starts. *)
Record TimeoutInv (aborted : bool) (s : TaskRun) : Prop := {
  ti_timeout : timer_safe (tr_taskTimeoutMs s);
  ti_grace : timer_safe (tr_graceMs s);
  ti_started : 0 <= tr_startedAtMs s;
  ti_decided : tr_result s <> None ->
    tr_timer s = None /\ tr_abortListener s = false /\ tr_releaseListener s = false;
  ti_armed : tr_result s = None ->
    (exists d k, tr_timer s = Some (d, ArmProgressTimeout) /\ num_eq d (of_Z k) /\
      0 < k /\ num_le (of_Z k) (tr_taskTimeoutMs s) = true) \/
    (tr_timer s = Some (tr_graceMs s, RejectForTimeout) /\ aborted = true /\
      tr_abortListener s = false);
}.

Definition event_ok (e : TimeoutEvent) : Prop :=
  match e with TimerFired now _ => clock now | _ => True end.

Definition is_abort (e : TimeoutEvent) : bool := match e with AbortSignal => true | _ => false end.
Definition is_release (e : TimeoutEvent) : bool := match e with ReleaseSignal => true | _ => false end.

Lemma settle_inv aborted result s : TimeoutInv aborted s -> TimeoutInv aborted (settle result s).
Proof. intros []. by split. Qed.

Lemma armProgressTimeout_inv aborted now p s :
  timer_safe (tr_taskTimeoutMs s) -> timer_safe (tr_graceMs s) -> 0 <= tr_startedAtMs s ->
  tr_result s = None -> clock now -> TimeoutInv aborted (armProgressTimeout now p s).
Proof.
  intros (T & HT & Hb) Hg Hs Hr Hc.
  destruct (armProgressTimeout_eq now p s T) as [H1 H2]; [done|lia|done..|].
  destruct (Z.le_gt_cases T (idle_ms s now p)) as [H|H].
  - rewrite H1 by done. split; try done. by exists T.
  - destruct (H2 H) as (d & Hd & ->). split; try done;
      cbn [with_timer tr_taskTimeoutMs tr_timer tr_result]; [by exists T|].
    intros _. left. exists d, (T - idle_ms s now p). split; [done|]. split; [done|].
    split; [lia|]. rewrite HT, num_le_of_Z. apply Z.leb_le. unfold idle_ms. lia.
Qed.

Lemma armAbortTimeout_eq s :
  timer_safe (tr_graceMs s) ->
  armAbortTimeout s = with_timer (Some (tr_graceMs s, RejectForTimeout)) s.
Proof.
  intros (g & Hg & Hb). unfold armAbortTimeout, armTimer. rewrite Hg, num_le_of_Z.
  by rewrite (proj2 (Z.leb_gt _ _)) by lia.
Qed.

Lemma timeout_step_inv aborted e s :
  TimeoutInv aborted s -> event_ok e -> TimeoutInv (aborted || is_abort e) (timeout_step e s).
Proof.
  intros H He. assert (TimeoutInv (aborted || is_abort e) s) as H'.
  { destruct H as [H1 H2 H3 H4 H5]. split; try done. intros Hr.
    destruct (H5 Hr) as [Hl|(Ht & -> & Ha)]; [by left|by right]. }
  clear H. destruct H' as [H1 H2 H3 H4 H5] eqn:EH. clear EH.
  assert (TimeoutInv (aborted || is_abort e) s) as H by by split.
  unfold timeout_step. destruct (tr_result s) as [r|] eqn:Er; [done|].
  destruct e as [ok|now p| |]; cbn [is_abort] in *.
  - by apply settle_inv.
  - destruct (tr_timer s) as [[d []]|]; [by apply armProgressTimeout_inv|by apply settle_inv|done].
  - destruct (tr_abortListener s) eqn:Ea; [|done]. rewrite armAbortTimeout_eq by done.
    rewrite orb_true_r. split; try done; cbn; intros _. by right.
  - destruct (tr_releaseListener s); [|done]. by apply (settle_inv _ TaskTimedOut s).
Qed.

Lemma startTimeout_inv t g started now p abort release :
  timer_safe t -> timer_safe g -> 0 <= started -> clock now ->
  TimeoutInv (bool_decide (abort = Some true))
    (startTimeout t g started now p abort release).
Proof.
  intros Ht Hg Hs Hc. unfold startTimeout. set (s := {| tr_taskTimeoutMs := t |}).
  assert (TimeoutInv (bool_decide (abort = Some true)) (rejectForTimeout s)) as Hrej by by split.
  destruct (bool_decide (release = Some true)) eqn:Er.
  { apply bool_decide_eq_true in Er as ->. done. }
  apply bool_decide_eq_false in Er.
  assert (TimeoutInv (bool_decide (abort = Some true))
    match abort with
    | Some true => armAbortTimeout s
    | _ => let s := armProgressTimeout now p s in
      match tr_result s with Some _ => s
      | None => with_listeners (bool_decide (is_Some abort)) (bool_decide (is_Some release)) s end
    end) as H.
  { assert (forall b a r, TimeoutInv b (let s := armProgressTimeout now p s in
      match tr_result s with Some _ => s | None => with_listeners a r s end)) as Hp.
    { intros b a r. pose proof (armProgressTimeout_inv false now p s Ht Hg Hs eq_refl Hc) as Hi.
      cbv zeta. destruct Hi as [I1 I2 I3 I4 I5]. destruct (tr_result (armProgressTimeout now p s)) eqn:E.
      - split; try done; rewrite E in *; [by intros; apply I4|done].
      - split; try done; cbn; rewrite ?E in *; intros _.
        destruct (I5 eq_refl) as [Hl|(_ & ? & _)]; [by left|done]. }
    destruct abort as [[]|]; [|apply Hp..]. rewrite armAbortTimeout_eq by done.
    split; try done; cbn; intros _. by right. }
  destruct release as [[]|]; [congruence|exact H..].
Qed.

Lemma timeout_run_inv aborted events s :
  TimeoutInv aborted s -> Forall event_ok events ->
  TimeoutInv (aborted || existsb is_abort events) (timeout_run events s).
Proof.
  revert aborted s. induction events as [|e events IH]; intros aborted s H Hok; cbn.
  - by rewrite orb_false_r.
  - apply Forall_cons in Hok as [He Hok]. rewrite orb_assoc. apply IH; [|done].
    by apply timeout_step_inv.
Qed.

Lemma timeout_run_decided events s r : tr_result s = Some r -> timeout_run events s = s.
Proof.
  intros H. induction events as [|e events IH]; cbn; [done|].
  assert (timeout_step e s = s) as -> by (unfold timeout_step; by rewrite H). done.
Qed.

Lemma timeout_run_app events events' s :
  timeout_run (events ++ events') s = timeout_run events' (timeout_run events s).
Proof. apply foldl_app. Qed.

Lemma runQueueEntryTask_start entry started now p abort release s :
  runQueueEntryTask entry started now p abort release = Some s ->
  exists t g, timer_safe t /\ timer_safe g /\ s = startTimeout t g started now p abort release.
Proof.
  unfold runQueueEntryTask. destruct (normalizeTaskTimeoutMs (qe_taskTimeoutMs entry)) as [t|] eqn:Et;
    [|done]. intros [= <-]. apply normalizeTaskTimeoutMs_safe in Et. eexists t, _.
  split; [done|]. split; [|done].
  destruct (normalizeTaskTimeoutMs (qe_taskTimeoutAbortGraceMs entry)) eqn:Eg; [|done].
  by apply normalizeTaskTimeoutMs_safe in Eg.
Qed.

Lemma runQueueEntryTask_inv entry started now p abort release s :
  runQueueEntryTask entry started now p abort release = Some s -> 0 <= started -> clock now ->
  TimeoutInv (bool_decide (abort = Some true)) s.
Proof. intros (t & g & ? & ? & ->)%runQueueEntryTask_start ??. by apply startTimeout_inv. Qed.

(** ** Why a run times out *)

(** A check that found no progress for the whole timeout. *)
Definition idle_check (s : TaskRun) (now : Z) (p : option num) : Prop :=
  num_le (tr_taskTimeoutMs s) (of_Z (idle_ms s now p)) = true.

Definition timeout_cause (s : TaskRun) (abort : bool) (events : list TimeoutEvent) : Prop :=
  ReleaseSignal ∈ events \/
  ((abort = true \/ AbortSignal ∈ events) /\ exists now p, TimerFired now p ∈ events) \/
  exists now p, TimerFired now p ∈ events /\ idle_check s now p.

Lemma armProgressTimeout_result aborted now p s :
  TimeoutInv aborted s -> clock now -> tr_result s = None ->
  (tr_result (armProgressTimeout now p s) = Some TaskTimedOut /\ idle_check s now p) \/
  tr_result (armProgressTimeout now p s) = None.
Proof.
  intros [(T & HT & Hb) _ Hs _ _] Hc Hr.
  destruct (armProgressTimeout_eq now p s T) as [H1 H2]; [done|lia|done..|].
  destruct (Z.le_gt_cases T (idle_ms s now p)) as [H|H].
  - left. rewrite H1 by done. split; [done|]. unfold idle_check. rewrite HT, num_le_of_Z. lia.
  - right. by destruct (H2 H) as (d & _ & ->).
Qed.

Lemma timeout_step_config e s :
  tr_taskTimeoutMs (timeout_step e s) = tr_taskTimeoutMs s /\
  tr_startedAtMs (timeout_step e s) = tr_startedAtMs s.
Proof.
  unfold timeout_step, armAbortTimeout, armTimer, armProgressTimeout, armTimer.
  repeat case_match; done.
Qed.

Lemma timeout_run_config events s :
  tr_taskTimeoutMs (timeout_run events s) = tr_taskTimeoutMs s /\
  tr_startedAtMs (timeout_run events s) = tr_startedAtMs s.
Proof.
  revert s. induction events as [|e events IH]; intros s; [done|].
  change (timeout_run (e :: events) s) with (timeout_run events (timeout_step e s)).
  destruct (IH (timeout_step e s)) as [-> ->]. apply timeout_step_config.
Qed.

Lemma abort_seen events : existsb is_abort events = true -> AbortSignal ∈ events.
Proof.
  intros (e & He & Ha)%List.existsb_exists. destruct e; try done. by apply list_elem_of_In.
Qed.

Lemma timeout_run_cause abort events s :
  TimeoutInv abort s -> tr_result s = None -> Forall event_ok events ->
  tr_result (timeout_run events s) = Some TaskTimedOut -> timeout_cause s abort events.
Proof.
  intros H Hr. induction events as [|e events IH] using rev_ind; intros Hok Ht.
  { cbn in Ht. congruence. }
  apply Forall_app in Hok as [Hok [He _]%Forall_cons].
  rewrite timeout_run_app in Ht. cbn in Ht.
  pose proof (timeout_run_inv _ events _ H Hok) as Hi.
  destruct (timeout_run_config events s) as [C1 C2].
  set (s1 := timeout_run events s) in *. unfold timeout_cause in *. setoid_rewrite elem_of_app.
  destruct (tr_result s1) as [r|] eqn:Er.
  { unfold timeout_step in Ht. rewrite Er in Ht. specialize (IH Hok ltac:(congruence)).
    destruct IH as [?|[(? & now & p & ?)|(now & p & ? & ?)]]; [by left; left|right; left|right; right].
    - split; [tauto|]. eauto.
    - eauto. }
  unfold timeout_step in Ht. rewrite Er in Ht. destruct e as [ok|now p| |].
  - by destruct ok.
  - destruct (ti_armed _ _ Hi Er) as [(d & k & Htm & _)|(Htm & Hab & _)]; rewrite Htm in Ht.
    + destruct (armProgressTimeout_result _ now p s1 Hi He Er) as [[_ Hc]|Hn]; [|congruence].
      right; right. exists now, p. split; [right; left|]. unfold idle_check, idle_ms in *.
      by rewrite C1, C2 in Hc.
    + right; left. split; [|exists now, p; right; left].
      apply orb_true_iff in Hab as [?|?%abort_seen]; [by left|auto].
  - destruct (tr_abortListener s1); [|congruence].
    rewrite armAbortTimeout_eq in Ht by apply Hi. cbn in Ht. congruence.
  - left. right. left.
Qed.

Lemma startTimeout_result t g started now p abort release :
  timer_safe t -> timer_safe g -> 0 <= started -> clock now ->
  let s := startTimeout t g started now p abort release in
  tr_taskTimeoutMs s = t /\ tr_startedAtMs s = started /\
  (tr_result s = None \/
   tr_result s = Some TaskTimedOut /\ (release = Some true \/ idle_check s now p)).
Proof.
  intros Ht Hg Hs Hc s. unfold s, startTimeout. set (s0 := {| tr_taskTimeoutMs := t |}).
  destruct (bool_decide (release = Some true)) eqn:Er.
  { apply bool_decide_eq_true in Er as ->. auto 10. }
  apply bool_decide_eq_false in Er.
  set (arm := let s := armProgressTimeout now p s0 in
      match tr_result s with Some _ => s | None =>
        with_listeners (bool_decide (is_Some abort)) (bool_decide (is_Some release)) s end).
  assert (tr_taskTimeoutMs arm = t /\ tr_startedAtMs arm = started /\
    (tr_result arm = None \/ tr_result arm = Some TaskTimedOut /\ idle_check arm now p)) as Harm.
  { destruct Ht as (T & HT & Hb). subst arm. cbv zeta.
    destruct (armProgressTimeout_eq now p s0 T) as [H1 H2]; [done|lia|done..|].
    destruct (Z.le_gt_cases T (idle_ms s0 now p)) as [H|H].
    - rewrite H1 by done. cbn. split; [done|]. split; [done|]. right. split; [done|].
      unfold idle_check. cbn. rewrite HT. fold (of_Z T). rewrite num_le_of_Z. apply Z.leb_le. exact H.
    - destruct (H2 H) as (d & _ & ->). cbn. auto. }
  destruct release as [[]|]; [congruence|..]; (destruct abort as [[]|];
    [by rewrite armAbortTimeout_eq by done; cbn; auto|..]);
    destruct Harm as (A1 & A2 & A3); (split; [exact A1|]); (split; [exact A2|]); tauto.
Qed.

(** ** Properties *)

(** A task with a timeout is never left untimed: while its race is
    undecided a timer is armed, of at most the timeout while it may report
    progress or of the grace period after an abort; once decided, the timer
    and the listeners are gone and no later event changes anything. *)
Theorem undecided_task_is_timed entry started now p abort release events s0 :
  runQueueEntryTask entry started now p abort release = Some s0 ->
  0 <= started -> clock now -> Forall event_ok events ->
  let s := timeout_run events s0 in
  (tr_result s = None ->
    (exists d k, tr_timer s = Some (d, ArmProgressTimeout) /\ num_eq d (of_Z k) /\ 0 < k /\
      num_le (of_Z k) (tr_taskTimeoutMs s) = true) \/
    (tr_timer s = Some (tr_graceMs s, RejectForTimeout) /\
     (abort = Some true \/ AbortSignal ∈ events))) /\
  (forall r, tr_result s = Some r ->
    tr_timer s = None /\ tr_abortListener s = false /\ tr_releaseListener s = false /\
    forall events', timeout_run (events ++ events') s0 = s).
Proof.
  intros H0 Hs Hc Hok s. pose proof (runQueueEntryTask_inv _ _ _ _ _ _ _ H0 Hs Hc) as Hi.
  pose proof (timeout_run_inv _ events _ Hi Hok) as Hr. fold s in Hr. split.
  - intros E. destruct (ti_armed _ _ Hr E) as [?|(Ht & Ha & _)]; [by left|right].
    split; [done|]. apply orb_true_iff in Ha as [?%bool_decide_eq_true|?%abort_seen]; auto.
  - intros r E. destruct (ti_decided _ _ Hr) as (? & ? & ?); [congruence|].
    split_and!; try done. intros events'. rewrite timeout_run_app. by eapply timeout_run_decided.
Qed.

(** A task is only timed out for a reason: it was released, or it was
    aborted and its grace period ran out, or a check found that it had reported
    no progress for the whole timeout. *)
Theorem timeout_has_a_cause entry started now p abort release events s0 :
  runQueueEntryTask entry started now p abort release = Some s0 ->
  0 <= started -> clock now -> Forall event_ok events ->
  tr_result (timeout_run events s0) = Some TaskTimedOut ->
  release = Some true \/ idle_check s0 now p \/
  timeout_cause s0 (bool_decide (abort = Some true)) events.
Proof.
  intros H0 Hs Hc Hok Ht. pose proof (runQueueEntryTask_inv _ _ _ _ _ _ _ H0 Hs Hc) as Hi.
  destruct (tr_result s0) as [r|] eqn:Er; [|right; right; by apply timeout_run_cause].
  apply runQueueEntryTask_start in H0 as (t & g & Hst & Hsg & ->).
  destruct (startTimeout_result t g started now p abort release Hst Hsg Hs Hc) as (_ & _ & H).
  destruct H as [H|[_ H]]; [congruence|tauto].
Qed.

(** C37. A silent task does time out: after a check that leaves the progress
    timer armed, the timer's delay is exactly what is left of the timeout since
    the last progress, and when it fires that much later without newer
    progress, the task is timed out; after an abort, the timer that fires at
    the end of the grace period ends it whatever progress it reports. *)
Theorem silent_task_times_out entry started now0 p0 abort release events s0 now p now' p' T :
  runQueueEntryTask entry started now0 p0 abort release = Some s0 ->
  0 <= started -> clock now0 -> Forall event_ok events ->
  clock now -> clock now' -> tr_taskTimeoutMs s0 = of_Z T ->
  let s := timeout_run events s0 in
  let s1 := timeout_step (TimerFired now p) s in
  let s2 := timeout_step AbortSignal s in
  (tr_result s1 = None ->
    (exists d, tr_timer s1 = Some (d, ArmProgressTimeout) /\ num_eq d (of_Z (T - idle_ms s now p))) /\
    (progress_at started p' <= progress_at started p <= now ->
     now + (T - idle_ms s now p) <= now' ->
     tr_result (timeout_step (TimerFired now' p') s1) = Some TaskTimedOut)) /\
  (tr_result s = None -> tr_abortListener s = true ->
    tr_timer s2 = Some (tr_graceMs s, RejectForTimeout) /\
    tr_result (timeout_step (TimerFired now' p') s2) = Some TaskTimedOut).
Proof.
  intros H0 Hs Hc0 Hok Hc Hc' HT s s1 s2.
  pose proof (timeout_run_inv _ events _ (runQueueEntryTask_inv _ _ _ _ _ _ _ H0 Hs Hc0) Hok) as Hi.
  destruct (timeout_run_config events s0) as [C1 C2]. fold s in Hi, C1, C2.
  assert (tr_startedAtMs s = started) as Est.
  { rewrite C2. apply runQueueEntryTask_start in H0 as (t & g & ? & ? & ->).
    by apply startTimeout_result. }
  rewrite HT in C1. assert (0 < T <= MAX_TIMER_TIMEOUT_MS) as Hb.
  { destruct (ti_timeout _ _ Hi) as (T' & E & ?). rewrite C1 in E. injection E as ->. lia. }
  split.
  - intros E1. unfold s1, timeout_step in E1 |- *. destruct (tr_result s) eqn:Er; [congruence|].
    destruct (ti_armed _ _ Hi Er) as [(d & k & Htm & _)|(Htm & _)]; rewrite Htm in *; [|done].
    destruct (armProgressTimeout_eq now p s T) as [A1 A2]; [done..|by rewrite Est|].
    destruct (Z.le_gt_cases T (idle_ms s now p)) as [H|H]; [rewrite A1 in E1 by done; done|].
    destruct (A2 H) as (d' & Hd' & ->). split; [by exists d'|]. intros Hp Hn.
    cbn [with_timer tr_result tr_timer]. rewrite Er.
    destruct (armProgressTimeout_eq now' p' (with_timer (Some (d', ArmProgressTimeout)) s) T)
      as [B1 _]; [done..|by cbn; rewrite Est|]. rewrite B1; [done|].
    unfold idle_ms in *. cbn [with_timer tr_startedAtMs] in *. rewrite Est in *. lia.
  - intros Er Ha. unfold s2, timeout_step. rewrite Er, Ha.
    rewrite armAbortTimeout_eq by apply Hi. cbn. by rewrite Er.
Qed.

(** A release signal ends an aborted task at once, unless the abort came
    before the task started: then the release is not listened to, and only the
    grace period or the task itself ends the run. *)
Theorem release_after_abort entry started now p abort s0 :
  runQueueEntryTask entry started now p (Some abort) (Some false) = Some s0 ->
  0 <= started -> clock now -> tr_result s0 = None ->
  let s1 := if abort then s0 else timeout_step AbortSignal s0 in
  tr_timer s1 = Some (tr_graceMs s0, RejectForTimeout) /\
  (if abort then timeout_step ReleaseSignal s1 = s1
   else tr_result (timeout_step ReleaseSignal s1) = Some TaskTimedOut).
Proof.
  intros (t & g & Ht & Hg & ->)%runQueueEntryTask_start Hs Hc Hr s1. unfold startTimeout in *.
  destruct abort; subst s1; cbv zeta in *.
  - rewrite armAbortTimeout_eq in * by done. done.
  - set (s := armProgressTimeout now p _) in *.
    assert (timer_safe (tr_graceMs s)) as Hg'.
    { eapply (ti_grace false), armProgressTimeout_inv; try done. }
    destruct (tr_result s) eqn:E; [congruence|]. unfold timeout_step.
    cbn [with_listeners tr_result tr_abortListener tr_releaseListener bool_decide is_Some]. rewrite E.
    rewrite !bool_decide_eq_true_2 by by eexists. rewrite armAbortTimeout_eq by done. cbn. by rewrite E.
Qed.

(** ** Witnesses *)

Definition example_entry : QueueEntry :=
  {| qe_sequence := 1; qe_enqueuedAt := 0; qe_priority := 0; qe_warnAfterMs := of_Z 2000;
     qe_queuedAheadAtEnqueue := 0; qe_activeAheadAtEnqueue := 0; qe_taskTimeoutMs := Some (of_Z 100);
     qe_taskTimeoutAbortGraceMs := Some (of_Z 30); qe_onWait := false |}.

(** Started at 1000 with a signal for aborting and one for releasing. *)
Definition example_start : TaskRun :=
  startTimeout (of_Z 100) (of_Z 30) 1000 1000 None (Some false) (Some false).

Definition example_progress : list TimeoutEvent := [TimerFired 1100 (Some (of_Z 1060))].

Lemma undecided_task_is_timed_witness :
  let s := timeout_run example_progress example_start in
  tr_result s = None /\ exists d k, tr_timer s = Some (d, ArmProgressTimeout) /\ num_eq d (of_Z k).
Proof.
  destruct (undecided_task_is_timed example_entry 1000 1000 None (Some false) (Some false)
    example_progress example_start) as [H _].
  - vm_compute. reflexivity.
  - lia.
  - by vm_compute.
  - repeat constructor; by vm_compute.
  - assert (tr_result (timeout_run example_progress example_start) = None) as E by by vm_compute.
    split; [exact E|]. destruct (H E) as [(d & k & Ht & Hd & _)|(Ht & _)]; [exists d, k; exact (conj Ht Hd)|].
    vm_compute in Ht. discriminate Ht.
Defined.

Lemma timeout_has_a_cause_witness :
  timeout_cause example_start false (example_progress ++ [TimerFired 1160 None]).
Proof.
  destruct (timeout_has_a_cause example_entry 1000 1000 None (Some false) (Some false)
    (example_progress ++ [TimerFired 1160 None]) example_start) as [H|[H|H]].
  - vm_compute. reflexivity.
  - lia.
  - by vm_compute.
  - repeat constructor; by vm_compute.
  - vm_compute. reflexivity.
  - discriminate H.
  - vm_compute in H. discriminate H.
  - exact H.
Defined.

Lemma silent_task_times_out_witness :
  let s := timeout_run example_progress example_start in
  tr_result (timeout_step (TimerFired 1260 None) (timeout_step (TimerFired 1160 (Some (of_Z 1100))) s))
    = Some TaskTimedOut /\
  tr_result (timeout_step (TimerFired 1260 None) (timeout_step AbortSignal s)) = Some TaskTimedOut.
Proof.
  destruct (silent_task_times_out example_entry 1000 1000 None (Some false) (Some false)
    example_progress example_start 1160 (Some (of_Z 1100)) 1260 None 100) as [H1 H2].
  - vm_compute. reflexivity.
  - lia.
  - by vm_compute.
  - repeat constructor; by vm_compute.
  - by vm_compute.
  - by vm_compute.
  - vm_compute. reflexivity.
  - split.
    + apply H1; [vm_compute; reflexivity|vm_compute; split; discriminate|vm_compute; discriminate].
    + apply H2; vm_compute; reflexivity.
Defined.

Lemma release_after_abort_witness :
  let s := startTimeout (of_Z 100) (of_Z 30) 1000 1000 None (Some true) (Some false) in
  timeout_step ReleaseSignal s = s /\
  tr_result (timeout_step ReleaseSignal (timeout_step AbortSignal example_start)) = Some TaskTimedOut.
Proof.
  destruct (release_after_abort example_entry 1000 1000 None true
    (startTimeout (of_Z 100) (of_Z 30) 1000 1000 None (Some true) (Some false))) as [_ H1].
  - vm_compute. reflexivity.
  - lia.
  - by vm_compute.
  - vm_compute. reflexivity.
  - destruct (release_after_abort example_entry 1000 1000 None false example_start) as [_ H2].
    + vm_compute. reflexivity.
    + lia.
    + by vm_compute.
    + vm_compute. reflexivity.
    + exact (conj H1 H2).
Defined.
