(* ===== verification/StoreWriterQueue.v ===== *)
(** * Store writer queues

    [src/shared/store-writer-queue.ts]: one first-in first-out queue per path
    that runs asynchronous writes one after the other, with a reentrancy context
    that lets a write enter its own lane again.

    A family of queues is the constant [Q] (the code has one [Map] per client)
    and an address is a family with a path.  A task is a value of [T], the name
    its client gives to the function.  [ActiveStoreWriter] objects are a heap of
    records addressed by their position.  An asynchronous context holds the
    innermost writer and, as a value of [X], the other async-local stores.  The
    drain loop of a queue keeps the context it was started in, so a task runs in
    the context of whoever started the drain, not in that of its own caller.

    A promise that settles is an operation: [fnSettled] when the function of the
    running task settles, [drainContinues] when the loop takes notice of it.
    The helpers that clear queues between tests are left out. *)
From S2P Require Import Prelude JsString.
#[local] Open Scope nat_scope.

(** ** Data *)

Record AsyncContext {X : Type} := { ctx_writer : option nat; ctx_stores : X }.
Arguments AsyncContext X : clear implicits.

Record ActiveStoreWriter {Q : Type} := {
  active : bool;
  parent : option nat;
  queues : Q;
  storePath : jstr;
}.
Arguments ActiveStoreWriter Q : clear implicits.

(** The drain loop in flight: the context it runs in, the task whose function it
    awaits, that function's writer, and how the function settled once it did. *)
Record Drain {X T : Type} := {
  dr_context : AsyncContext X;
  dr_task : T;
  dr_writer : nat;
  dr_settled : option bool;
}.
Arguments Drain X T : clear implicits.

Record StoreWriterQueue {X T : Type} := {
  running : bool;
  pending : list T;
  drainPromise : option (Drain X T);
}.
Arguments StoreWriterQueue X T : clear implicits.

Record StoreWriters {Q X T : Type} `{Countable Q} := {
  sw_heap : list (ActiveStoreWriter Q);
  sw_queues : gmap (Q * jstr) (StoreWriterQueue X T);
}.
Arguments StoreWriters Q X T {_ _}.

(** What a submission does at once: the function runs in the caller's context,
    it runs in a new context, or it waits. *)
Inductive Submitted {X : Type} := Reentered | Started (ctx : AsyncContext X) | Queued.
Arguments Submitted X : clear implicits.

(** ** Operations *)

Section operations.
  Context {Q X T : Type} `{Countable Q}.
  Implicit Types (s : StoreWriters Q X T) (a : Q * jstr) (ctx : AsyncContext X).

  (** The address a writer holds. *)
Definition writer_addr (w : ActiveStoreWriter Q) : Q * jstr := (queues w, storePath w).

  (** The loop of [isActiveStoreWriter] along the parents. *)
Fixpoint walk_writers (fuel : nat) (heap : list (ActiveStoreWriter Q)) (cur : option nat) a : bool :=
    match fuel, cur with
    | S n, Some i =>
        match heap !! i with
        | Some w =>
            (active w && bool_decide (writer_addr w = a)) || walk_writers n heap (parent w) a
        | None => false
        end
    | _, _ => false
    end.

Definition isActiveStoreWriter s ctx a : bool :=
    walk_writers (S (length (sw_heap s))) (sw_heap s) (ctx_writer ctx) a.

Definition runActiveStoreWriter s ctx a : StoreWriters Q X T * AsyncContext X :=
    ({| sw_heap := sw_heap s ++
          [{| active := true; parent := ctx_writer ctx; queues := a.1; storePath := a.2 |}];
        sw_queues := sw_queues s |},
     {| ctx_writer := Some (length (sw_heap s)); ctx_stores := ctx_stores ctx |}).

Definition set_queue a (q : StoreWriterQueue X T) s : StoreWriters Q X T :=
    {| sw_heap := sw_heap s; sw_queues := <[a := q]> (sw_queues s) |}.

Definition getOrCreateStoreWriterQueue s a : StoreWriterQueue X T :=
    match sw_queues s !! a with
    | Some existing => existing
    | None => {| running := false; pending := []; drainPromise := None |}
    end.

  (** [task.fn()] in the drain loop of context [ctx], with [rest] left behind. *)
Definition start_task s a ctx (t : T) (rest : list T) : StoreWriters Q X T * AsyncContext X :=
    let '(s', ctx') := runActiveStoreWriter s ctx a in
    (set_queue a
       {| running := true; pending := rest;
          drainPromise := Some {| dr_context := ctx; dr_task := t;
                                  dr_writer := length (sw_heap s); dr_settled := None |} |} s',
     ctx').

  (** One turn of the drain loop: the next task starts, or the loop ends with
      nothing pending and removes its queue. *)
Definition drain_turn s a ctx (q : StoreWriterQueue X T) :
      StoreWriters Q X T * option (T * AsyncContext X) :=
    match pending q with
    | [] => ({| sw_heap := sw_heap s; sw_queues := delete a (sw_queues s) |}, None)
    | t :: rest => let '(s', ctx') := start_task s a ctx t rest in (s', Some (t, ctx'))
    end.

Definition drainStoreWriterQueue s a ctx : StoreWriters Q X T * option (T * AsyncContext X) :=
    match sw_queues s !! a with
    | None => (s, None)
    | Some q =>
        match drainPromise q with
        | Some _ => (s, None)
        | None => drain_turn s a ctx q
        end
    end.

  (** [None] is the exception for an empty path. *)
Definition runQueuedStoreWrite s ctx a (reentrant : bool) (t : T) :
      option (StoreWriters Q X T * Submitted X) :=
    if negb (truthy a.2) then None
    else if reentrant && isActiveStoreWriter s ctx a then Some (s, Reentered)
    else
      let q := getOrCreateStoreWriterQueue s a in
      let s1 := set_queue a {| running := running q; pending := pending q ++ [t];
                               drainPromise := drainPromise q |} s in
      let '(s2, started) := drainStoreWriterQueue s1 a ctx in
      Some (s2, match started with Some (_, ctx') => Started ctx' | None => Queued end).

  (** The function of the running task settles: its writer ends.  [None] when no
      function is running there. *)
Definition fnSettled s a (ok : bool) : option (StoreWriters Q X T) :=
    match sw_queues s !! a with
    | Some ({| drainPromise := Some d |} as q) =>
        match dr_settled d, sw_heap s !! dr_writer d with
        | None, Some w =>
            Some {| sw_heap := <[dr_writer d :=
                      {| active := false; parent := parent w; queues := queues w;
                         storePath := storePath w |}]> (sw_heap s);
                    sw_queues := <[a := {| running := running q; pending := pending q;
                      drainPromise := Some {| dr_context := dr_context d; dr_task := dr_task d;
                        dr_writer := dr_writer d; dr_settled := Some ok |} |}]> (sw_queues s) |}
        | _, _ => None
        end
    | _ => None
    end.

  (** The loop goes on: the caller of the settled task is answered and the next
      task starts in the context of the loop. *)
Definition drainContinues s a :
      option (StoreWriters Q X T * (T * bool) * option (T * AsyncContext X)) :=
    match sw_queues s !! a with
    | Some ({| drainPromise := Some d |} as q) =>
        match dr_settled d with
        | Some ok =>
            let '(s', started) := drain_turn s a (dr_context d) q in
            Some (s', (dr_task d, ok), started)
        | None => None
        end
    | _ => None
    end.
End operations.

Definition no_writers {Q X T : Type} `{Countable Q} : StoreWriters Q X T :=
  {| sw_heap := []; sw_queues := ∅ |}.

(** ** The invariant *)

Section invariant.
  Context {Q X T : Type} `{Countable Q}.
  Implicit Types (s : StoreWriters Q X T) (a : Q * jstr) (ctx : AsyncContext X).

  (** The writers from [cur] upwards. *)
Inductive on_chain (heap : list (ActiveStoreWriter Q)) : option nat -> nat -> Prop :=
  | chain_here i w : heap !! i = Some w -> on_chain heap (Some i) i
  | chain_up i w j : heap !! i = Some w -> on_chain heap (parent w) j -> on_chain heap (Some i) j.

Definition ctx_ok s ctx : Prop := forall i, ctx_writer ctx = Some i -> i < length (sw_heap s).

  (** Every queue is drained by a loop whose writer is active until its function
      settles, and only those writers are active. *)
Record WriterInv s : Prop := {
    wi_parent : forall i w p, sw_heap s !! i = Some w -> parent w = Some p -> p < i;
    wi_drain : forall a q, sw_queues s !! a = Some q ->
      running q = true /\
      exists d, drainPromise q = Some d /\ ctx_ok s (dr_context d) /\
        exists w, sw_heap s !! dr_writer d = Some w /\ writer_addr w = a /\
          active w = bool_decide (dr_settled d = None) /\ parent w = ctx_writer (dr_context d);
    wi_active : forall i w, sw_heap s !! i = Some w -> active w = true ->
      exists q d, sw_queues s !! writer_addr w = Some q /\ drainPromise q = Some d /\
        dr_writer d = i /\ dr_settled d = None;
  }.

Lemma no_writers_inv : WriterInv no_writers.
  Proof. split; intros ??; simpl; by rewrite ?lookup_nil, ?lookup_empty. Qed.

Lemma on_chain_snoc heap w cur j :
    (forall i, cur = Some i -> i < length heap) ->
    (forall i x p, heap !! i = Some x -> parent x = Some p -> p < i) ->
    on_chain (heap ++ [w]) cur j <-> on_chain heap cur j.
  Proof.
    intros Hc Hp. split.
    - intros Hj. induction Hj as [i x Hx|i x j Hx Hj IH].
      + rewrite lookup_app_l in Hx by auto. by econstructor.
      + rewrite lookup_app_l in Hx by auto. eapply chain_up; [done|]. apply IH.
        intros p Hpx. pose proof (Hp _ _ _ Hx Hpx). apply lookup_lt_Some in Hx. lia.
    - intros Hj. clear Hc. induction Hj as [i x Hx|i x j Hx Hj IH].
      + eapply chain_here. by apply lookup_app_l_Some.
      + eapply chain_up; [|done]. by apply lookup_app_l_Some.
  Qed.

  (** Retiring a writer leaves every chain as it is. *)
Lemma on_chain_insert heap k w w' cur j :
    heap !! k = Some w -> parent w' = parent w ->
    on_chain (<[k := w']> heap) cur j <-> on_chain heap cur j.
  Proof.
    intros Hk Hp.
    assert (Hl : forall i x, <[k := w']> heap !! i = Some x ->
      exists y, heap !! i = Some y /\ parent x = parent y).
    { intros i x. destruct (decide (i = k)) as [->|Hne].
      - rewrite list_lookup_insert_eq by (by eapply lookup_lt_Some). intros [= <-]. eauto.
      - rewrite list_lookup_insert_ne by done. eauto. }
    assert (Hr : forall i x, heap !! i = Some x ->
      exists y, <[k := w']> heap !! i = Some y /\ parent x = parent y).
    { intros i x Hx. destruct (decide (i = k)) as [->|Hne].
      - rewrite list_lookup_insert_eq by (by eapply lookup_lt_Some). naive_solver.
      - rewrite list_lookup_insert_ne by done. eauto. }
    split; intros Hj; induction Hj as [i x Hx|i x j Hx Hj IH].
    - apply Hl in Hx as (y & Hy & _). by econstructor.
    - apply Hl in Hx as (y & Hy & E). rewrite E in IH. by eapply chain_up.
    - apply Hr in Hx as (y & Hy & _). by econstructor.
    - apply Hr in Hx as (y & Hy & E). rewrite E in IH. by eapply chain_up.
  Qed.

Lemma walk_writers_spec heap n cur a :
    (forall i w p, heap !! i = Some w -> parent w = Some p -> p < i) ->
    (forall i, cur = Some i -> i < n) ->
    walk_writers n heap cur a = true <->
    exists i w, on_chain heap cur i /\ heap !! i = Some w /\ active w = true /\ writer_addr w = a.
  Proof.
    intros Hp. revert cur. induction n as [|n IH]; intros cur Hc; simpl.
    - split; [done|]. intros (i & w & Hi & _).
      inversion Hi; subst; specialize (Hc _ eq_refl); lia.
    - destruct cur as [i|]; [|split; [done|]; intros (i & w & Hi & _); inversion Hi].
      destruct (heap !! i) as [w|] eqn:Hi.
      + rewrite orb_true_iff, andb_true_iff, bool_decide_eq_true, IH.
        2:{ intros p E. pose proof (Hp _ _ _ Hi E). specialize (Hc i eq_refl). lia. }
        split.
        * intros [[Ha Hw]|(j & x & Hj & ?)].
          -- exists i, w. split; [by econstructor|done].
          -- exists j, x. split; [by eapply chain_up|done].
        * intros (j & x & Hj & Hx & Hact & Hadd). inversion Hj as [? y Hy|? y ? Hy Hj']; subst.
          -- simplify_eq. auto.
          -- simplify_eq. right. exists j, x. done.
      + split; [done|]. intros (j & x & Hj & _). inversion Hj; simplify_eq.
  Qed.

  (** The walk of [isActiveStoreWriter] ends at the root of the context. *)
Lemma isActiveStoreWriter_spec s ctx a :
    WriterInv s -> ctx_ok s ctx ->
    isActiveStoreWriter s ctx a = true <->
    exists i w, on_chain (sw_heap s) (ctx_writer ctx) i /\ sw_heap s !! i = Some w /\
                active w = true /\ writer_addr w = a.
  Proof.
    intros Hi Hc. apply walk_writers_spec; [apply Hi|].
    intros i E. specialize (Hc i E). lia.
  Qed.
End invariant.

(** ** The invariant is kept *)

Section preservation.
  Context {Q X T : Type} `{Countable Q}.
  Implicit Types (s : StoreWriters Q X T) (a : Q * jstr) (ctx : AsyncContext X).

  (** Nothing is running at [a]: there is no queue, or its task has settled. *)
Definition lane_free s a : Prop :=
    forall q d, sw_queues s !! a = Some q -> drainPromise q = Some d -> dr_settled d <> None.

Lemma ctx_ok_grow s s' ctx :
    length (sw_heap s) <= length (sw_heap s') -> ctx_ok s ctx -> ctx_ok s' ctx.
  Proof. intros Hl Hc i Hi. specialize (Hc i Hi). lia. Qed.

Lemma start_task_inv s a ctx t rest :
    WriterInv s -> ctx_ok s ctx -> lane_free s a -> WriterInv (start_task s a ctx t rest).1.
  Proof.
    intros [Hp Hd Ha] Hc Hf. destruct a as [q0 p0].
    split; simpl.
    - intros i w p Hi E. apply lookup_snoc_Some in Hi as [[? Hi]|[-> <-]]; [by eapply Hp|].
      simpl in E. by apply Hc.
    - intros b q. destruct (decide (b = (q0, p0))) as [->|Hb].
      + rewrite lookup_insert_eq. intros [= <-]. split; [done|]. eexists; split; [done|]. simpl.
        split; [apply (ctx_ok_grow s); [simpl; rewrite length_app; lia|done]|].
        eexists. split; [apply lookup_snoc_Some; right; done|]. done.
      + rewrite lookup_insert_ne by done. intros E.
        destruct (Hd _ _ E) as (? & d & ? & Hcd & w & Hw & ?). split; [done|].
        exists d. split; [done|]. split; [apply (ctx_ok_grow s); [simpl; rewrite length_app; lia|done]|].
        exists w. split; [by apply lookup_app_l_Some|done].
    - intros i w Hi Hw. apply lookup_snoc_Some in Hi as [[? Hi]|[-> <-]].
      + destruct (Ha _ _ Hi Hw) as (q & d & Hq & Hdq & ? & Hs). exists q, d.
        destruct (decide ((q0, p0) = writer_addr w)) as [E|E];
          [|by rewrite lookup_insert_ne by done].
        rewrite <- E in Hq. by destruct (Hf _ _ Hq Hdq).
      + eexists _, _. unfold writer_addr. simpl. by rewrite lookup_insert_eq.
  Qed.

Lemma end_queue_inv s a :
    WriterInv s -> lane_free s a ->
    WriterInv {| sw_heap := sw_heap s; sw_queues := delete a (sw_queues s) |}.
  Proof.
    intros [Hp Hd Ha] Hf. split; simpl; [done| |].
    - intros b q [_ E]%lookup_delete_Some. by destruct (Hd _ _ E) as (? & d & ?); eauto.
    - intros i w Hi Hw. destruct (Ha _ _ Hi Hw) as (q & d & Hq & Hdq & ? & ?).
      exists q, d. rewrite lookup_delete_ne; [done|]. intros ->. by destruct (Hf _ _ Hq Hdq).
  Qed.

Lemma set_pending_inv s a q l :
    WriterInv s -> sw_queues s !! a = Some q ->
    WriterInv (set_queue a {| running := running q; pending := l; drainPromise := drainPromise q |} s).
  Proof.
    intros [Hp Hd Ha] Hq. split; simpl; [done| |].
    - intros b q'. destruct (decide (b = a)) as [->|Hb].
      + rewrite lookup_insert_eq. intros [= <-]. apply (Hd _ _ Hq).
      + rewrite lookup_insert_ne by done. apply Hd.
    - intros i w Hi Hw. destruct (Ha _ _ Hi Hw) as (q' & d & Hq' & ?).
      destruct (decide (a = writer_addr w)) as [->|E].
      + rewrite lookup_insert_eq. simplify_eq. eauto.
      + rewrite lookup_insert_ne by done. eauto.
  Qed.

  (** What a submission does, by the state of its lane. *)
Lemma runQueuedStoreWrite_cases s ctx a re t s' r :
    WriterInv s -> runQueuedStoreWrite s ctx a re t = Some (s', r) ->
    truthy a.2 = true /\
    ((r = Reentered /\ s' = s /\ re = true /\ isActiveStoreWriter s ctx a = true) \/
     (re && isActiveStoreWriter s ctx a = false /\
      ((sw_queues s !! a = None /\
        s' = (start_task s a ctx t []).1 /\ r = Started (start_task s a ctx t []).2) \/
       (exists q, sw_queues s !! a = Some q /\ r = Queued /\
         s' = set_queue a {| running := running q; pending := pending q ++ [t];
                             drainPromise := drainPromise q |} s)))).
  Proof.
    intros Hi. unfold runQueuedStoreWrite. destruct (truthy a.2); [|done]. simpl.
    destruct (re && isActiveStoreWriter s ctx a) eqn:E.
    { intros [= <- <-]. split; [done|]. left. apply andb_true_iff in E as [-> ->]. done. }
    unfold drainStoreWriterQueue, getOrCreateStoreWriterQueue, set_queue. simpl.
    rewrite lookup_insert_eq. simpl.
    destruct (sw_queues s !! a) as [q|] eqn:Hq; simpl.
    - destruct (wi_drain _ Hi _ _ Hq) as (? & d & Hd & _). rewrite Hd.
      intros [= <- <-]. split; [done|]. right. split; [done|]. right. exists q. rewrite Hd. done.
    - intros [= <- <-]. split; [done|]. right. split; [done|]. left.
      unfold start_task, set_queue. simpl. rewrite insert_insert_eq. done.
  Qed.

Lemma drainContinues_cases s a s' t ok started :
    drainContinues s a = Some (s', (t, ok), started) ->
    exists q d, sw_queues s !! a = Some q /\ drainPromise q = Some d /\
      dr_settled d = Some ok /\ dr_task d = t /\
      (s', started) = drain_turn s a (dr_context d) q.
  Proof.
    unfold drainContinues. destruct (sw_queues s !! a) as [[r p [d|]]|]; [|done..].
    destruct (dr_settled d) as [b|] eqn:E; [|done].
    destruct (drain_turn _ _ _ _) as [s1 st] eqn:Ed. intros [= <- <- <- <-].
    eexists _, d. split; [done|]. split; [done|]. split; [done|]. split; [done|]. by rewrite Ed.
  Qed.

Lemma settled_lane_free s a q d ok :
    sw_queues s !! a = Some q -> drainPromise q = Some d -> dr_settled d = Some ok -> lane_free s a.
  Proof. intros Hq Hd Hs q' d' ??. simplify_eq. by rewrite Hs. Qed.

Lemma drain_turn_inv s a ctx q d ok :
    WriterInv s -> ctx_ok s ctx -> sw_queues s !! a = Some q ->
    drainPromise q = Some d -> dr_settled d = Some ok -> WriterInv (drain_turn s a ctx q).1.
  Proof.
    intros Hi Hc Hq Hd Hs. pose proof (settled_lane_free _ _ _ _ _ Hq Hd Hs) as Hf.
    unfold drain_turn. destruct (pending q) as [|t rest]; [by apply end_queue_inv|].
    by apply (start_task_inv s a ctx t rest).
  Qed.

Lemma runQueuedStoreWrite_inv s ctx a re t s' r :
    WriterInv s -> ctx_ok s ctx -> runQueuedStoreWrite s ctx a re t = Some (s', r) -> WriterInv s'.
  Proof.
    intros Hi Hc E. destruct (runQueuedStoreWrite_cases _ _ _ _ _ _ _ Hi E)
      as (_ & [(_ & -> & _)|(_ & [(Hn & -> & _)|(q & Hq & _ & ->)])]); [done| |].
    - apply start_task_inv; [done..|]. intros q d Hq. congruence.
    - by apply set_pending_inv.
  Qed.

Lemma fnSettled_inv s a ok s' : WriterInv s -> fnSettled s a ok = Some s' -> WriterInv s'.
  Proof.
    intros [Hp Hd Ha]. unfold fnSettled.
    destruct (sw_queues s !! a) as [[r p [d|]]|] eqn:Hq; [|done..].
    destruct (dr_settled d) eqn:Hs; [done|].
    destruct (sw_heap s !! dr_writer d) as [w|] eqn:Hw; [|done]. intros [= <-].
    destruct (Hd _ _ Hq) as (Hr & d' & [= <-] & Hcd & w' & Hw' & Haw & Hact & Hpar). simplify_eq.
    assert (Hlt : dr_writer d < length (sw_heap s)) by (by eapply lookup_lt_Some).
    split; simpl.
    - intros i x p' Hi E. apply list_lookup_insert_Some in Hi as [(<- & <- & _)|[_ Hi]];
        [simpl in E; by eapply Hp|by eapply Hp].
    - intros b q. destruct (decide (b = writer_addr w)) as [->|Hb].
      + rewrite lookup_insert_eq. intros [= <-]. split; [done|]. eexists; split; [done|]. simpl.
        split; [apply (ctx_ok_grow s); [simpl; by rewrite length_insert|done]|].
        eexists. split; [by apply list_lookup_insert_eq|]. done.
      + rewrite lookup_insert_ne by done. intros E.
        destruct (Hd _ _ E) as (? & d1 & ? & Hc1 & w1 & Hw1 & Ha1 & ?). split; [done|].
        exists d1. split; [done|].
        split; [apply (ctx_ok_grow s); [simpl; by rewrite length_insert|done]|].
        exists w1. rewrite list_lookup_insert_ne; [done|]. intros E'. rewrite <- E' in Hw1.
        congruence.
    - intros i x Hi Hx. apply list_lookup_insert_Some in Hi as [(<- & <- & _)|[Hne Hi]]; [done|].
      destruct (Ha _ _ Hi Hx) as (q1 & d1 & Hq1 & Hd1 & <- & ?). exists q1, d1.
      rewrite lookup_insert_ne; [done|]. intros E.
      rewrite E, Hq1 in Hq. injection Hq as ->. simpl in Hd1. by injection Hd1 as ->.
  Qed.

Lemma drainContinues_inv s a s' t ok started :
    WriterInv s -> drainContinues s a = Some (s', (t, ok), started) -> WriterInv s'.
  Proof.
    intros Hi E. destruct (drainContinues_cases _ _ _ _ _ _ E) as (q & d & Hq & Hd & Hs & _ & Et).
    destruct (wi_drain _ Hi _ _ Hq) as (_ & d' & Hd' & Hc & _).
    rewrite Hd in Hd'. injection Hd' as <-.
    pose proof (drain_turn_inv s a (dr_context d) q d ok Hi Hc Hq Hd Hs) as Ht.
    by rewrite <- Et in Ht.
  Qed.
End preservation.

#[export] Hint Resolve no_writers_inv runQueuedStoreWrite_inv fnSettled_inv drainContinues_inv : js.

(** ** Runs *)

Section runs.
  Context {Q X T : Type} `{Countable Q}.
  Implicit Types (s : StoreWriters Q X T) (a : Q * jstr) (ctx : AsyncContext X).

Inductive WriterOp :=
  | Submit (ctx : AsyncContext X) (a : Q * jstr) (reentrant : bool) (t : T)
  | FnSettles (a : Q * jstr) (ok : bool)
  | DrainContinues (a : Q * jstr).

  (** The state with what was queued, started and answered so far, in order. *)
Record WriterLog := {
    lg_writers : StoreWriters Q X T;
    lg_queued : list ((Q * jstr) * T);
    lg_started : list ((Q * jstr) * T);
    lg_answered : list ((Q * jstr) * T);
  }.

Definition started_list a (o : option (T * AsyncContext X)) : list ((Q * jstr) * T) :=
    match o with Some (t, _) => [(a, t)] | None => [] end.

Definition ctx_okb s ctx : bool :=
    match ctx_writer ctx with Some i => (i <? length (sw_heap s))%nat | None => true end.

  (** Operations that cannot happen (a context nobody handed out, a function
      that does not run) leave the log as it is. *)
Definition writer_step (l : WriterLog) (op : WriterOp) : WriterLog :=
    let s := lg_writers l in
    match op with
    | Submit ctx a re t =>
        if negb (ctx_okb s ctx) then l else
        match runQueuedStoreWrite s ctx a re t with
        | Some (s', Reentered) => {| lg_writers := s'; lg_queued := lg_queued l;
            lg_started := lg_started l; lg_answered := lg_answered l |}
        | Some (s', Started _) => {| lg_writers := s'; lg_queued := lg_queued l ++ [(a, t)];
            lg_started := lg_started l ++ [(a, t)]; lg_answered := lg_answered l |}
        | Some (s', Queued) => {| lg_writers := s'; lg_queued := lg_queued l ++ [(a, t)];
            lg_started := lg_started l; lg_answered := lg_answered l |}
        | None => l
        end
    | FnSettles a ok =>
        match fnSettled s a ok with
        | Some s' => {| lg_writers := s'; lg_queued := lg_queued l;
            lg_started := lg_started l; lg_answered := lg_answered l |}
        | None => l
        end
    | DrainContinues a =>
        match drainContinues s a with
        | Some (s', (t, _), started) => {| lg_writers := s'; lg_queued := lg_queued l;
            lg_started := lg_started l ++ started_list a started;
            lg_answered := lg_answered l ++ [(a, t)] |}
        | None => l
        end
    end.

Definition writer_run (ops : list WriterOp) : WriterLog :=
    fold_left writer_step ops
      {| lg_writers := no_writers; lg_queued := []; lg_started := []; lg_answered := [] |}.

  (** The entries of a log at an address. *)
Definition at_addr a (l : list ((Q * jstr) * T)) : list T :=
    snd <$> List.filter (fun e => bool_decide (e.1 = a)) l.

Definition in_flight s a : list T :=
    match sw_queues s !! a with
    | Some {| drainPromise := Some d |} => [dr_task d]
    | _ => []
    end.

Definition waiting s a : list T :=
    match sw_queues s !! a with Some q => pending q | None => [] end.

Lemma at_addr_snoc a b l (t : T) :
    at_addr a (l ++ [(b, t)]) = at_addr a l ++ (if bool_decide (b = a) then [t] else []).
  Proof.
    unfold at_addr. rewrite List.filter_app, fmap_app. simpl. by destruct (bool_decide (b = a)).
  Qed.

Lemma ctx_okb_ok s ctx : ctx_okb s ctx = true -> ctx_ok s ctx.
  Proof. unfold ctx_okb, ctx_ok. intros Hb i E. rewrite E in Hb. by apply Nat.ltb_lt. Qed.

Definition LogInv (l : WriterLog) : Prop :=
    WriterInv (lg_writers l) /\
    forall a, at_addr a (lg_queued l) = at_addr a (lg_started l) ++ waiting (lg_writers l) a /\
              at_addr a (lg_started l) = at_addr a (lg_answered l) ++ in_flight (lg_writers l) a.

Lemma start_task_lists s a ctx t rest b :
    waiting (start_task s a ctx t rest).1 b = (if bool_decide (a = b) then rest else waiting s b) /\
    in_flight (start_task s a ctx t rest).1 b =
      (if bool_decide (a = b) then [t] else in_flight s b).
  Proof.
    unfold waiting, in_flight. simpl. case_bool_decide as E.
    - subst. by rewrite lookup_insert_eq.
    - by rewrite lookup_insert_ne.
  Qed.

Lemma drain_turn_lists s a ctx q b :
    let r := drain_turn s a ctx q in
    if bool_decide (a = b) then
      pending q = at_addr a (started_list a r.2) ++ waiting r.1 a /\
      in_flight r.1 a = at_addr a (started_list a r.2)
    else waiting r.1 b = waiting s b /\ in_flight r.1 b = in_flight s b.
  Proof.
    unfold drain_turn. destruct (pending q) as [|t rest]; simpl.
    - unfold waiting, in_flight, at_addr. simpl. case_bool_decide as E.
      + subst. rewrite !lookup_delete_eq. done.
      + rewrite !lookup_delete_ne by done. done.
    - pose proof (start_task_lists s a ctx t rest b) as [Hw Hf].
      unfold start_task in *. simpl in *. rewrite Hw, Hf. case_bool_decide; [|done].
      unfold at_addr. simpl. rewrite bool_decide_eq_true_2 by done. subst. simpl. by rewrite Hw.
  Qed.

Lemma set_pending_lists s a q l b :
    sw_queues s !! a = Some q ->
    let s' := set_queue a {| running := running q; pending := l;
                             drainPromise := drainPromise q |} s in
    waiting s' b = (if bool_decide (a = b) then l else waiting s b) /\
    in_flight s' b = in_flight s b.
  Proof.
    intros Hq. unfold waiting, in_flight. simpl. case_bool_decide as E.
    - subst. rewrite lookup_insert_eq, Hq. by destruct q.
    - by rewrite lookup_insert_ne.
  Qed.

Lemma fnSettled_lists s a ok s' b :
    fnSettled s a ok = Some s' -> waiting s' b = waiting s b /\ in_flight s' b = in_flight s b.
  Proof.
    unfold fnSettled, waiting, in_flight.
    destruct (sw_queues s !! a) as [[r p [d|]]|] eqn:Hq; [|done..].
    destruct (dr_settled d); [done|]. destruct (sw_heap s !! dr_writer d); [|done].
    intros [= <-]. simpl. destruct (decide (a = b)) as [->|E].
    - by rewrite lookup_insert_eq, Hq.
    - by rewrite lookup_insert_ne.
  Qed.

Lemma writer_submit_inv l ctx a re t : LogInv l -> LogInv (writer_step l (Submit ctx a re t)).
  Proof.
    intros [Hi Hl]. unfold writer_step.
    destruct (ctx_okb (lg_writers l) ctx) eqn:Hc; [|done]. apply ctx_okb_ok in Hc. simpl.
    destruct (runQueuedStoreWrite _ _ _ _ _) as [[s' r]|] eqn:E; [|done].
    pose proof (runQueuedStoreWrite_inv _ _ _ _ _ _ _ Hi Hc E) as Hi'.
    destruct (runQueuedStoreWrite_cases _ _ _ _ _ _ _ Hi E)
      as (_ & [(-> & -> & _)|(_ & [(Hn & -> & ->)|(q & Hq & -> & ->)])]); (split; [done|]);
      intros b; destruct (Hl b) as [Hl1 Hl2];
      cbn [lg_queued lg_started lg_answered lg_writers]; [done| |].
    - destruct (start_task_lists (lg_writers l) a ctx t [] b) as [-> ->].
      rewrite !at_addr_snoc. case_bool_decide as Eb; [|by rewrite !app_nil_r].
      subst b. revert Hl1 Hl2. unfold waiting, in_flight. rewrite Hn, !app_nil_r.
      by intros -> ->.
    - destruct (set_pending_lists _ a q (pending q ++ [t]) b Hq) as [-> ->].
      rewrite at_addr_snoc, Hl1. case_bool_decide as Eb; [|by rewrite app_nil_r].
      subst b. unfold waiting. rewrite Hq, app_assoc. done.
  Qed.

Lemma writer_continue_inv l a : LogInv l -> LogInv (writer_step l (DrainContinues a)).
  Proof.
    intros [Hi Hl]. unfold writer_step.
    destruct (drainContinues _ _) as [[[s' [t ok]] started]|] eqn:E; [|done].
    split; [by eapply drainContinues_inv|]. intros b. destruct (Hl b) as [Hl1 Hl2]. simpl.
    destruct (drainContinues_cases _ _ _ _ _ _ E) as (q & d & Hq & Hd & _ & Ht & Et).
    pose proof (drain_turn_lists (lg_writers l) a (dr_context d) q b) as Hb.
    rewrite <- Et in Hb. simpl in Hb. unfold at_addr in *. rewrite !List.filter_app, !fmap_app.
    simpl. destruct (bool_decide (a = b)) eqn:Eb; simpl.
    - apply bool_decide_eq_true in Eb as ->. destruct Hb as [Hp Hf]. rewrite Hl1, Hf.
      assert (in_flight (lg_writers l) b = [t]) as Ei
        by (unfold in_flight; rewrite Hq; destruct q as [? ? [?|]]; simpl in Hd; congruence).
      assert (waiting (lg_writers l) b = pending q) as -> by (unfold waiting; by rewrite Hq).
      rewrite Hl2, Ei, Hp, !app_assoc. done.
    - destruct Hb as [-> ->]. rewrite app_nil_r. destruct started as [[]|]; simpl;
        rewrite ?Eb; simpl; rewrite app_nil_r; done.
  Qed.

Lemma writer_step_inv l op : LogInv l -> LogInv (writer_step l op).
  Proof.
    destruct op as [ctx a re t|a ok|a]; [apply writer_submit_inv| |apply writer_continue_inv].
    intros [Hi Hl]. simpl. destruct (fnSettled _ _ _) as [s'|] eqn:E; [|done].
    split; [by eapply fnSettled_inv|]. intros b. simpl.
    destruct (fnSettled_lists _ _ _ _ b E) as [-> ->]. apply Hl.
  Qed.

Lemma writer_run_inv ops : LogInv (writer_run ops).
  Proof.
    unfold writer_run. apply (fold_left_inv LogInv); [|intros; by apply writer_step_inv].
    split; [apply no_writers_inv|]. intros a. done.
  Qed.
End runs.

(** ** What the queues promise *)

Section promises.
  Context {Q X T : Type} `{Countable Q}.
  Implicit Types (s : StoreWriters Q X T) (a : Q * jstr).

  (** Writes to one path run in the order they were queued, one at a time, and
      each is answered exactly once: at any time the writes queued for a path
      are, in order, those answered, the one in flight (at most one, and always
      one while any is waiting) and those waiting.  A write is in flight exactly
      when the path has a queue, and every active writer of a path is the one of
      its write in flight, whose function has not settled. *)
Theorem writes_in_order (ops : list (@WriterOp Q X T)) a :
    let l := writer_run ops in
    let s := lg_writers l in
    at_addr a (lg_queued l) = at_addr a (lg_answered l) ++ in_flight s a ++ waiting s a /\
    at_addr a (lg_started l) = at_addr a (lg_answered l) ++ in_flight s a /\
    (is_Some (sw_queues s !! a) <-> length (in_flight s a) = 1) /\
    (waiting s a <> [] -> in_flight s a <> []) /\
    (forall i j v w, sw_heap s !! i = Some v -> sw_heap s !! j = Some w ->
       active v = true -> active w = true -> writer_addr v = a -> writer_addr w = a ->
       i = j /\ exists q d, sw_queues s !! a = Some q /\ drainPromise q = Some d /\
                           dr_writer d = i /\ dr_settled d = None).
  Proof.
    destruct (writer_run_inv ops) as [Hi Hl]. simpl. destruct (Hl a) as [Hq Hs].
    assert (Hf : forall q, sw_queues (lg_writers (writer_run ops)) !! a = Some q ->
      exists t, in_flight (lg_writers (writer_run ops)) a = [t]).
    { intros q E. unfold in_flight. rewrite E.
      destruct (wi_drain _ Hi _ _ E) as (_ & d & Hd & _). destruct q. simpl in Hd. subst. eauto. }
    split; [by rewrite Hq, Hs, app_assoc|]. split; [done|]. split_and!.
    - split; [intros [q E]; by destruct (Hf q E) as [t ->]|].
      unfold in_flight. by destruct (sw_queues _ !! a).
    - unfold waiting. destruct (sw_queues _ !! a) as [q|] eqn:E; [|done].
      by destruct (Hf q eq_refl) as [t ->].
    - intros i j v w Hv Hw Av Aw Ev Ew.
      destruct (wi_active _ Hi _ _ Hv Av) as (q & d & Hq1 & Hd1 & <- & Hn1).
      destruct (wi_active _ Hi _ _ Hw Aw) as (q' & d' & Hq2 & Hd2 & <- & Hn2).
      rewrite Ev in Hq1. rewrite Ew, Hq1 in Hq2. injection Hq2 as <-.
      rewrite Hd1 in Hd2. injection Hd2 as <-. eauto 10.
  Qed.
End promises.

(** ** Views for clients *)

Section views.
  Context {Q X T : Type} `{Countable Q}.
  Implicit Types (s : StoreWriters Q X T) (a b : Q * jstr) (ctx : AsyncContext X).

  (** The task in flight at an address, its writer, and how it settled. *)
Definition inflight s a : option (T * nat * option bool) :=
    q ← sw_queues s !! a; d ← drainPromise q; Some (dr_task d, dr_writer d, dr_settled d).

  (** The context the loop of an address runs in. *)
Definition loop_context s a : option (AsyncContext X) :=
    q ← sw_queues s !! a; d ← drainPromise q; Some (dr_context d).

  (** An address on the chain of writers of a context. *)
Definition chain_has s ctx b : Prop :=
    exists i w, on_chain (sw_heap s) (ctx_writer ctx) i /\ sw_heap s !! i = Some w /\ writer_addr w = b.

Lemma inflight_None s a : WriterInv s -> inflight s a = None <-> sw_queues s !! a = None.
  Proof.
    intros Hi. unfold inflight. destruct (sw_queues s !! a) as [q|] eqn:E; [|done].
    destruct (wi_drain _ Hi _ _ E) as (_ & d & Hd & _). simpl. by rewrite Hd.
  Qed.

Lemma waiting_inflight s a : WriterInv s -> inflight s a = None -> waiting s a = [].
  Proof. intros Hi E%inflight_None; [|done]. unfold waiting. by rewrite E. Qed.

Lemma start_task_views s a ctx t rest b :
    let s' := (start_task s a ctx t rest).1 in
    inflight s' b = (if decide (a = b) then Some (t, length (sw_heap s), None) else inflight s b) /\
    waiting s' b = (if decide (a = b) then rest else waiting s b) /\
    loop_context s' b = (if decide (a = b) then Some ctx else loop_context s b).
  Proof.
    unfold inflight, waiting, loop_context. simpl. case_decide as E.
    - subst. by rewrite lookup_insert_eq.
    - by rewrite lookup_insert_ne.
  Qed.

Lemma set_pending_views s a q l b :
    sw_queues s !! a = Some q ->
    let s' := set_queue a {| running := running q; pending := l;
                             drainPromise := drainPromise q |} s in
    inflight s' b = inflight s b /\
    waiting s' b = (if decide (a = b) then l else waiting s b) /\
    loop_context s' b = loop_context s b.
  Proof.
    intros Hq. unfold inflight, waiting, loop_context. simpl. case_decide as E.
    - subst. by rewrite lookup_insert_eq, Hq.
    - by rewrite lookup_insert_ne.
  Qed.

  (** A submission, seen from outside. *)
Lemma submit_views s ctx a re t s' r :
    WriterInv s -> runQueuedStoreWrite s ctx a re t = Some (s', r) ->
    match r with
    | Reentered => s' = s /\ re = true /\ isActiveStoreWriter s ctx a = true
    | Started ctx' => inflight s a = None /\ re && isActiveStoreWriter s ctx a = false /\
        (s', ctx') = start_task s a ctx t []
    | Queued => is_Some (inflight s a) /\ re && isActiveStoreWriter s ctx a = false /\
        sw_heap s' = sw_heap s /\
        forall b, inflight s' b = inflight s b /\ loop_context s' b = loop_context s b /\
          waiting s' b = if decide (a = b) then waiting s a ++ [t] else waiting s b
    end.
  Proof.
    intros Hi E. destruct (runQueuedStoreWrite_cases _ _ _ _ _ _ _ Hi E)
      as (_ & [(-> & -> & -> & Ha)|(Hn & [(Hq & -> & ->)|(q & Hq & -> & ->)])]); [done| |].
    - split; [by apply inflight_None|]. split; [done|]. by destruct (start_task s a ctx t []).
    - split.
      { destruct (inflight s a) eqn:Ef; [done|]. apply inflight_None in Ef; [|done]. congruence. }
      split; [done|]. split; [done|]. intros b.
      destruct (set_pending_views s a q (pending q ++ [t]) b Hq) as (H1 & H2 & H3).
      rewrite H1, H2, H3. split; [done|]. split; [done|].
      case_decide; [|done]. unfold waiting. by rewrite Hq.
  Qed.

Lemma fnSettled_views s a ok s' :
    WriterInv s -> fnSettled s a ok = Some s' ->
    length (sw_heap s') = length (sw_heap s) /\
    exists t w, inflight s a = Some (t, w, None) /\
      forall b, inflight s' b = (if decide (a = b) then Some (t, w, Some ok) else inflight s b) /\
        loop_context s' b = loop_context s b /\ waiting s' b = waiting s b.
  Proof.
    intros Hi. unfold fnSettled, inflight, waiting, loop_context.
    destruct (sw_queues s !! a) as [[r p [d|]]|] eqn:Hq; [|done..].
    destruct (dr_settled d) eqn:Hs; [done|]. destruct (sw_heap s !! dr_writer d); [|done].
    intros [= <-]. simpl. split; [by rewrite length_insert|]. rewrite Hs.
    eexists _, _. split; [done|]. intros b. case_decide as E.
    - subst. by rewrite lookup_insert_eq, Hq.
    - by rewrite lookup_insert_ne.
  Qed.

Lemma fnSettled_enabled s a ok t w :
    WriterInv s -> inflight s a = Some (t, w, None) -> is_Some (fnSettled s a ok).
  Proof.
    intros Hi. unfold inflight, fnSettled. destruct (sw_queues s !! a) as [[r p [d|]]|] eqn:Hq; try done.
    simpl. intros [= <- <- Hs]. rewrite Hs.
    destruct (wi_drain _ Hi _ _ Hq) as (_ & d' & [= <-] & _ & x & -> & _). done.
  Qed.

Lemma drainContinues_enabled s a t w ok :
    inflight s a = Some (t, w, Some ok) -> is_Some (drainContinues s a).
  Proof.
    unfold inflight, drainContinues. destruct (sw_queues s !! a) as [[r p [d|]]|]; try done.
    simpl. intros [= _ _ ->]. by destruct (drain_turn _ _ _ _).
  Qed.

  (** The loop goes on, seen from outside. *)
Lemma drainContinues_views s a s' t ok started :
    drainContinues s a = Some (s', (t, ok), started) ->
    exists w ctx, inflight s a = Some (t, w, Some ok) /\ loop_context s a = Some ctx /\
      match waiting s a with
      | [] => started = None /\ sw_heap s' = sw_heap s /\
          forall b, inflight s' b = (if decide (a = b) then None else inflight s b) /\
            loop_context s' b = (if decide (a = b) then None else loop_context s b) /\
            waiting s' b = waiting s b
      | t' :: rest => exists ctx', started = Some (t', ctx') /\ (s', ctx') = start_task s a ctx t' rest
      end.
  Proof.
    intros E. destruct (drainContinues_cases _ _ _ _ _ _ E) as (q & d & Hq & Hd & Hs & Ht & Et).
    exists (dr_writer d), (dr_context d). unfold inflight, loop_context, waiting. rewrite Hq. simpl.
    rewrite Hd. simpl. rewrite Hs, Ht. split; [done|]. split; [done|].
    unfold drain_turn in Et. destruct (pending q) as [|t' rest] eqn:Ep.
    - injection Et as -> ->. split; [done|]. split; [done|]. intros b. simpl.
      case_decide as Eb; [subst; by rewrite lookup_delete_eq, Hq|by rewrite lookup_delete_ne].
    - destruct (start_task s a (dr_context d) t' rest) as [s1 c1] eqn:Est.
      injection Et as -> ->. eauto.
  Qed.

Lemma start_task_context s a ctx t rest :
    (start_task s a ctx t rest).2 = {| ctx_writer := Some (length (sw_heap s)); ctx_stores := ctx_stores ctx |}.
  Proof. done. Qed.

  (** ** Chains *)

Lemma chain_has_snoc s s' w c b :
    sw_heap s' = sw_heap s ++ [w] -> WriterInv s -> ctx_ok s c -> chain_has s' c b <-> chain_has s c b.
  Proof.
    intros Eh Hi Hc. unfold chain_has. rewrite Eh.
    split; intros (i & x & Hon & Hx & Hb); exists i, x.
    - rewrite on_chain_snoc in Hon by (done || apply Hi). split; [done|]. split; [|done].
      apply lookup_snoc_Some in Hx as [[_ ?]|[-> _]]; [done|]. exfalso.
      assert (forall cur j, on_chain (sw_heap s) cur j -> j < length (sw_heap s)) as Hlt.
      { intros cur j. induction 1; [by eapply lookup_lt_Some|done]. }
      apply Hlt in Hon. lia.
    - rewrite on_chain_snoc by (done || apply Hi). split; [done|]. split; [by apply lookup_app_l_Some|done].
  Qed.

Lemma chain_has_start s a ctx t rest c b :
    WriterInv s -> ctx_ok s c ->
    chain_has (start_task s a ctx t rest).1 c b <-> chain_has s c b.
  Proof. intros. by eapply chain_has_snoc. Qed.

  (** The context of a task that starts: its own lane on top of the loop's chain. *)
Lemma chain_has_new s a ctx t rest b :
    WriterInv s -> ctx_ok s ctx ->
    let '(s', ctx') := start_task s a ctx t rest in
    ctx_ok s' ctx' /\ (chain_has s' ctx' b <-> b = a \/ chain_has s ctx b).
  Proof.
    intros Hi Hc. pose proof (chain_has_start s a ctx t rest ctx b Hi Hc) as Hold.
    unfold start_task in *. simpl in *. split.
    { intros i [= <-]. simpl. rewrite length_app. simpl. lia. }
    rewrite <- Hold. unfold chain_has. simpl.
    assert (Hnew : (sw_heap s ++ [{| active := true; parent := ctx_writer ctx; queues := a.1;
      storePath := a.2 |}]) !! length (sw_heap s) = Some {| active := true; parent := ctx_writer ctx;
        queues := a.1; storePath := a.2 |}) by (apply lookup_snoc_Some; auto).
    destruct a as [q p]. split.
    - intros (i & x & Hon & Hx & Hb). inversion Hon as [? y Hy|? y ? Hy Hon']; subst.
      + left. rewrite Hnew in Hx. by injection Hx as <-.
      + right. rewrite Hnew in Hy. injection Hy as <-. eauto.
    - intros [->|(i & x & Hon & Hx & Hb)].
      + eexists _, _. split; [by eapply chain_here|]. split; [done|]. done.
      + exists i, x. split; [by eapply chain_up|done].
  Qed.

Lemma chain_has_settled s a ok s' c b :
    fnSettled s a ok = Some s' -> chain_has s' c b <-> chain_has s c b.
  Proof.
    unfold fnSettled. destruct (sw_queues s !! a) as [[r p [d|]]|]; [|done..].
    destruct (dr_settled d); [done|]. destruct (sw_heap s !! dr_writer d) as [w|] eqn:Hw; [|done].
    intros [= <-]. unfold chain_has. simpl.
    assert (Hlt : dr_writer d < length (sw_heap s)) by (by eapply lookup_lt_Some).
    split; intros (i & x & Hon & Hx & Hb).
    - rewrite on_chain_insert in Hon by done.
      apply list_lookup_insert_Some in Hx as [(<- & <- & _)|[_ Hx]]; eauto.
    - assert (Hon' : on_chain (<[dr_writer d := {| active := false; parent := parent w;
        queues := queues w; storePath := storePath w |}]> (sw_heap s)) (ctx_writer c) i)
        by (by rewrite (on_chain_insert _ _ w)).
      destruct (decide (i = dr_writer d)) as [->|Hne].
      + rewrite Hw in Hx. injection Hx as <-. eexists _, _. split; [exact Hon'|].
        split; [by apply list_lookup_insert_eq|done].
      + exists i, x. split; [exact Hon'|]. by rewrite list_lookup_insert_ne.
  Qed.

Lemma chain_has_heap s s' c b : sw_heap s' = sw_heap s -> chain_has s' c b <-> chain_has s c b.
  Proof. unfold chain_has. by intros ->. Qed.

Lemma not_reentrant s ctx a :
    WriterInv s -> ctx_ok s ctx -> ~ chain_has s ctx a -> isActiveStoreWriter s ctx a = false.
  Proof.
    intros Hi Hc Hn. apply not_true_iff_false. rewrite isActiveStoreWriter_spec by done.
    intros (i & w & ? & ? & _ & ?). apply Hn. by exists i, w.
  Qed.

Lemma loop_context_ok s a ctx : WriterInv s -> loop_context s a = Some ctx -> ctx_ok s ctx.
  Proof.
    intros Hi. unfold loop_context. destruct (sw_queues s !! a) as [q|] eqn:E; [|done]. simpl.
    destruct (wi_drain _ Hi _ _ E) as (_ & d & Hd & Hc & _). rewrite Hd. by intros [= <-].
  Qed.
End views.
