(* ===== verification/SessionIdentity.v ===== *)
(** * Session identities

    [src/sessions/session-lifecycle-identity.ts]: a session is locked under one
    or more identities of a scope; the key of an identity is the JSON text of
    the pair, and the keys of a call are sorted, so that all calls take their
    locks in the same order.

    [JSON.stringify] is what the language does with an array of two strings.
    [JSON.parse] is the grammar of such an array: every other text either is no
    JSON or is a value that the function turns into [undefined]; escapes [\uXXXX]
    can name any code unit, so a decoded string is a list of numbers. *)
From S2P Require Import Prelude JsString JsMap.
#[local] Open Scope nat_scope.

(** ** JSON text of strings *)

Definition hex_digit (n : nat) : ascii :=
  Stdlib.Strings.Ascii.ascii_of_nat (if n <? 10 then 48 + n else 87 + n).

(** The text of one code unit inside a JSON string. *)
Definition json_char (c : ascii) : jstr :=
  if bool_decide (code c = 34) then lit "\" ++ [c]
  else if bool_decide (code c = 92) then lit "\\"
  else if bool_decide (code c = 8) then lit "\b"
  else if bool_decide (code c = 9) then lit "\t"
  else if bool_decide (code c = 10) then lit "\n"
  else if bool_decide (code c = 12) then lit "\f"
  else if bool_decide (code c = 13) then lit "\r"
  else if code c <? 32 then lit "\u00" ++ [hex_digit (code c / 16); hex_digit (code c mod 16)]
  else [c].

Definition quote : ascii := Stdlib.Strings.Ascii.ascii_of_nat 34.

Definition json_string (s : jstr) : jstr := quote :: flat_map json_char s ++ [quote].

(** [JSON.stringify([scope, identity])]. *)
Definition json_pair (scope identity : jstr) : jstr :=
  lit "[" ++ json_string scope ++ lit "," ++ json_string identity ++ lit "]".

(** ** Parsing *)

Definition hex_value (c : ascii) : option nat :=
  let n := code c in
  if (48 <=? n) && (n <=? 57) then Some (n - 48)
  else if (97 <=? n) && (n <=? 102) then Some (n - 87)
  else if (65 <=? n) && (n <=? 70) then Some (n - 55)
  else None.

(** The character after a backslash, [u] apart. *)
Definition simple_escape (c : ascii) : option nat :=
  let n := code c in
  if bool_decide (n = 34) || bool_decide (n = 92) || bool_decide (n = 47) then Some n
  else if bool_decide (n = 98) then Some 8
  else if bool_decide (n = 102) then Some 12
  else if bool_decide (n = 110) then Some 10
  else if bool_decide (n = 114) then Some 13
  else if bool_decide (n = 116) then Some 9
  else None.

(** The characters of a string after its opening quote, and the rest of the
    text after the closing one. *)
Fixpoint json_chars (s : jstr) : option (list nat * jstr) :=
  match s with
  | [] => None
  | c :: r =>
      if bool_decide (code c = 34) then Some ([], r)
      else if bool_decide (code c = 92) then
        match r with
        | [] => None
        | e :: r1 =>
            if bool_decide (code e = 117) then
              match r1 with
              | h1 :: h2 :: h3 :: h4 :: r2 =>
                  match hex_value h1, hex_value h2, hex_value h3, hex_value h4, json_chars r2 with
                  | Some a, Some b, Some c, Some d, Some (l, rest) =>
                      Some ((((a * 16 + b) * 16 + c) * 16 + d) :: l, rest)
                  | _, _, _, _, _ => None
                  end
              | _ => None
              end
            else
              match simple_escape e, json_chars r1 with
              | Some n, Some (l, rest) => Some (n :: l, rest)
              | _, _ => None
              end
        end
      else if code c <? 32 then None
      else match json_chars r with Some (l, rest) => Some (code c :: l, rest) | None => None end
  end.

Definition is_json_space (c : ascii) : bool :=
  let n := code c in (n =? 9) || (n =? 10) || (n =? 13) || (n =? 32).

Definition skip_space (s : jstr) : jstr := drop_while is_json_space s.

(** A token after white space. *)
Definition json_token (n : nat) (s : jstr) : option jstr :=
  match skip_space s with
  | c :: r => if bool_decide (code c = n) then Some r else None
  | [] => None
  end.

Definition json_value (s : jstr) : option (list nat * jstr) :=
  r ← json_token 34 s; json_chars r.

(** A JSON text that is an array of exactly two strings. *)
Definition parse_pair (s : jstr) : option (list nat * list nat) :=
  r0 ← json_token 91 s;
  '(scope, r1) ← json_value r0;
  r2 ← json_token 44 r1;
  '(identity, r3) ← json_value r2;
  r4 ← json_token 93 r3;
  match skip_space r4 with [] => Some (scope, identity) | _ :: _ => None end.

(** The code units of a string. *)
Definition units (s : jstr) : list nat := code <$> s.

(** ** The two functions *)

(** [Array.from(identities, trim).filter(Boolean)] without duplicates. *)
Definition trimmed_identities (identities : list (option jstr)) : list jstr :=
  js_set (List.filter truthy (omap (fmap trim) identities)).

(** [None] is the exception for an empty scope. *)
Definition normalizeSessionIdentities (scope : jstr) (identities : list (option jstr)) :
    option (list jstr) :=
  let normalizedScope := trim scope in
  if negb (truthy normalizedScope) then None
  else Some (to_sorted (json_pair normalizedScope <$> trimmed_identities identities)).

Definition decodeSessionIdentity (normalizedIdentity : jstr) : option (list nat * list nat) :=
  parse_pair normalizedIdentity.

Example identities_sorted :
  normalizeSessionIdentities (lit " s ") [Some (lit "b"); None; Some (lit " a "); Some (lit "b "); Some (lit " ")]
  = Some [json_pair (lit "s") (lit "a"); json_pair (lit "s") (lit "b")].
Proof. vm_compute. reflexivity. Qed.

(** ** Round trip *)

Lemma json_char_parses c t :
  json_chars (json_char c ++ t) =
  match json_chars t with Some (l, rest) => Some (code c :: l, rest) | None => None end.
Proof. destruct c as [[] [] [] [] [] [] [] []]; reflexivity. Qed.

Lemma json_string_parses s t :
  json_chars (flat_map json_char s ++ quote :: t) = Some (units s, t).
Proof.
  induction s as [|c s IH]; [done|]. cbn [flat_map].
  by rewrite <- app_assoc, json_char_parses, IH.
Qed.

Lemma json_token_here n c r :
  code c = n -> is_json_space c = false -> json_token n (c :: r) = Some r.
Proof.
  intros Hc Hs. unfold json_token, skip_space. simpl. rewrite Hs. by rewrite bool_decide_eq_true_2.
Qed.

Lemma json_value_string s t : json_value (json_string s ++ t) = Some (units s, t).
Proof.
  unfold json_value, json_string. rewrite <- app_comm_cons, json_token_here by done.
  rewrite <- app_assoc. apply json_string_parses.
Qed.

Lemma decode_pair scope identity :
  decodeSessionIdentity (json_pair scope identity) = Some (units scope, units identity).
Proof.
  unfold decodeSessionIdentity, json_pair, parse_pair, lit. cbn [String.list_ascii_of_string app].
  rewrite (json_token_here 91) by done. cbn [mbind option_bind].
  rewrite json_value_string. cbn [mbind option_bind].
  rewrite (json_token_here 44) by done. cbn [mbind option_bind].
  by rewrite json_value_string.
Qed.

Lemma units_inj s t : units s = units t -> s = t.
Proof.
  revert t. induction s as [|x s IH]; intros [|y t]; try done.
  unfold units in *. simpl. intros [= E%code_inj Et]. f_equal; auto.
Qed.

Lemma json_pair_inj s1 i1 s2 i2 : json_pair s1 i1 = json_pair s2 i2 -> s1 = s2 /\ i1 = i2.
Proof.
  intros E. apply (f_equal decodeSessionIdentity) in E. rewrite !decode_pair in E.
  injection E as E1 E2. by split; apply units_inj.
Qed.

(** ** Keys are canonical *)

Lemma elem_of_trimmed x identities :
  x ∈ trimmed_identities identities <->
  truthy x = true /\ exists i, Some i ∈ identities /\ x = trim i.
Proof.
  unfold trimmed_identities. rewrite elem_of_js_set, list_elem_of_In, List.filter_In.
  rewrite <- list_elem_of_In, list_elem_of_omap. split.
  - intros [([i|] & Hi & E) Ht]; simplify_eq/=. eauto.
  - intros (Ht & i & Hi & ->). split; [|done]. by exists (Some i).
Qed.

(** The keys of a call name its identities under its scope, each once. *)
Lemma elem_of_normalized scope identities keys k :
  normalizeSessionIdentities scope identities = Some keys ->
  k ∈ keys <-> exists i, i ∈ trimmed_identities identities /\ k = json_pair (trim scope) i.
Proof.
  unfold normalizeSessionIdentities. destruct (truthy (trim scope)); [|done].
  intros [= <-]. rewrite elem_of_to_sorted, list_elem_of_fmap. naive_solver.
Qed.

Lemma normalized_sorted scope identities keys :
  normalizeSessionIdentities scope identities = Some keys -> StronglySorted str_lt keys.
Proof.
  unfold normalizeSessionIdentities. destruct (truthy (trim scope)); [|done].
  intros [= <-]. apply to_sorted_strict. apply NoDup_fmap_2_strong; [|apply NoDup_js_set].
  by intros x y _ _ [_ ?]%json_pair_inj.
Qed.

(** A key is never the empty string, which the queues refuse. *)
Lemma normalized_truthy scope identities keys :
  normalizeSessionIdentities scope identities = Some keys -> Forall (fun k => truthy k = true) keys.
Proof.
  intros E. apply Forall_forall. intros k Hk.
  by apply (elem_of_normalized _ _ _ _ E) in Hk as (i & _ & ->).
Qed.

(** The keys of a call are strictly increasing in the order of code units, so
    that every call takes its locks in one global order and none twice; each key
    decodes to the trimmed scope and one of the trimmed non-empty identities of
    the call, and every such identity has a key.  Blank identities, duplicates
    and surrounding white space do not matter; an empty scope is an error. *)
Theorem identity_keys_roundtrip scope identities :
  match normalizeSessionIdentities scope identities with
  | None => trim scope = []
  | Some keys =>
      trim scope <> [] /\ StronglySorted str_lt keys /\
      (forall k, k ∈ keys -> exists i, Some i ∈ identities /\ trim i <> [] /\
         decodeSessionIdentity k = Some (units (trim scope), units (trim i))) /\
      (forall i, Some i ∈ identities -> trim i <> [] ->
         exists k, k ∈ keys /\
           decodeSessionIdentity k = Some (units (trim scope), units (trim i)))
  end.
Proof.
  destruct (normalizeSessionIdentities scope identities) as [keys|] eqn:E.
  - split; [|split; [by eapply normalized_sorted|split]].
    + unfold normalizeSessionIdentities in E. by destruct (trim scope).
    + intros k Hk. apply (elem_of_normalized _ _ _ _ E) in Hk as (x & Hx & ->).
      apply elem_of_trimmed in Hx as (Ht & i & Hi & ->). exists i.
      split; [done|]. split; [by destruct (trim i)|apply decode_pair].
    + intros i Hi Hne. exists (json_pair (trim scope) (trim i)). split; [|apply decode_pair].
      apply (elem_of_normalized _ _ _ _ E). exists (trim i). split; [|done].
      apply elem_of_trimmed. split; [by destruct (trim i)|eauto].
  - unfold normalizeSessionIdentities in E. by destruct (trim scope).
Qed.
