(* ===== verification/SessionLifecycle.v ===== *)
(** * Session lifecycle admission

    [src/sessions/session-lifecycle-admission.ts] with
    [src/sessions/session-work-admission-handoff.ts]: work on a session is
    admitted, and lifecycle mutations (reset, delete, compaction) run, under the
    locks of the session's identities.

    A call of [beginSessionWorkAdmission] or of
    [runExclusiveSessionLifecycleMutation] is a record with a program counter:
    where in the function it stands, the locks it holds (innermost first), and
    the asynchronous context its code runs in.  [micro] is one synchronous
    statement of a call and [sync] runs a call until it awaits something.  What
    it can await is an event: the return of a callback of its caller, its turn in
    a queue, an abort, the next turn of the microtask queue.  An event that
    cannot happen in a state is [None].

    Admissions, interrupts and calls are heaps addressed by position.  Callbacks
    are named by numbers and do not enter the module synchronously (their later
    operations are events with the context they hold).  The gateway's own
    admission state is any implementation of [AdmissionInterface]. *)
From S2P Require Import Prelude JsString JsMap WorkAdmission StoreWriterQueue SessionIdentity.
#[local] Open Scope nat_scope.

(** ** Data *)

(** The three queue maps: [SESSION_LIFECYCLE_MUTATION_QUEUES],
    [SESSION_LIFECYCLE_QUEUES], and the [WRITER_QUEUES] of the session store. *)
Inductive LockLane := MutationQueues | LifecycleQueues | StoreQueues.

#[global] Instance LockLane_eq_dec : EqDecision LockLane.
Proof. solve_decision. Defined.

Definition lane_rank (l : LockLane) : nat :=
  match l with MutationQueues => 0 | LifecycleQueues => 1 | StoreQueues => 2 end.

#[global] Instance LockLane_countable : Countable LockLane.
Proof.
  refine (inj_countable' lane_rank (fun n => match n with
    0 => MutationQueues | 1 => LifecycleQueues | _ => StoreQueues end) _).
  by intros [].
Defined.

(** The functions that calls put on queues: the rest of a lock section, and the
    writer barrier of an admission. *)
Inductive LockTask := TLock (call : nat) | TBarrier (call : nat).

(** The async-local stores of this module and of the gateway admission:
    [currentAdmissions] and [currentRootWork]. *)
Record ContextStores := { cs_admissions : list nat; cs_root : option nat }.

Abbreviation Ctx := (AsyncContext ContextStores).
Abbreviation Writers := (StoreWriters LockLane ContextStores LockTask).

Inductive SessionLifecycleMutationKind := Compaction.

#[global] Instance MutationKind_eq_dec : EqDecision SessionLifecycleMutationKind.
Proof. solve_decision. Defined.

(** [SessionWorkAdmission]; [released] is a promise: whether it is resolved. *)
Record SessionWorkAdmission := {
  ad_handoffIds : list jstr;
  ad_identities : list jstr;
  ad_interrupt : option nat;
  ad_interrupted : bool;
  ad_released : bool;
}.

Inductive LifecycleError := InvalidScope | Draining | Aborted | CallbackFailed | InvalidPath.

#[global] Instance LifecycleError_eq_dec : EqDecision LifecycleError.
Proof. solve_decision. Defined.

(** How a lock section or a call ends. *)
Inductive Exit := XOk | XLease (admission : nat) | XBlocked | XErr (e : LifecycleError).

#[global] Instance Exit_eq_dec : EqDecision Exit.
Proof. solve_decision. Defined.

(** The lock sections: the one of an admission; of a mutation, the mutation lock
    around activation, run and cleanup (which keeps the result of the run). *)
Inductive LockSection := SAdmit | SMutation | SActivate | SRun | SCleanup (result : Exit).

Definition section_lane (s : LockSection) : LockLane :=
  match s with SMutation => MutationQueues | _ => LifecycleQueues end.

Inductive ProgramCounter :=
  | PLoop                                            (* the loop of runExclusiveSessionLifecycle *)
  | PTry (s : LockSection) (rest : list jstr)        (* about to take the locks of rest *)
  | PQueued (s : LockSection) (k : jstr) (rest : list jstr)  (* waits for the lock of k *)
  | PWaitIdle (keys : list jstr)                     (* waits until no mutation is active on keys *)
  | PAssert                                          (* assertAllowed runs *)
  | PBarrier (a : nat)                               (* registered; the barrier is queued *)
  | PRevalidate (a : nat) (direct : bool)            (* the barrier's check runs *)
  | PBarrierDone (a : nat) (ok : bool)               (* the barrier's function has settled *)
  | PFailed (a : nat) (e : LifecycleError)           (* the catch block is due *)
  | PPrepare                                         (* prepare runs *)
  | PRun                                             (* run runs, under the locks *)
  | PExit (s : LockSection) (x : Exit)               (* the locks of s are being left *)
  | PExitWait (s : LockSection) (x : Exit)           (* the innermost function has settled *)
  | PDone.

(** A lock that is held: its writer, [None] for a reentrant one, and the context
    outside. *)
Record Frame := { fr_addr : LockLane * jstr; fr_writer : option nat; fr_context : Ctx }.

Inductive CallKind :=
  | BeginAdmission (scope : jstr) (onInterrupt : option nat)
  | RunMutation (kind : option SessionLifecycleMutationKind) (hasPrepare : bool).

Record LifecycleCall := {
  lc_kind : CallKind;
  lc_identities : list jstr;
  lc_context : Ctx;
  lc_hasSignal : bool;
  lc_aborted : bool;
  lc_activated : bool;
  lc_frames : list Frame;
  lc_outer : list Frame;
  lc_here : Ctx;
  lc_pc : ProgramCounter;
  lc_outcome : option Exit;
}.

(** The indexes of admitted work and of handoff tokens. *)
Record WorkIndex := {
  wk_admissions : list SessionWorkAdmission;
  wk_active : gmap jstr (list nat);
  wk_handoffs : gmap jstr nat;
}.

(** The indexes of active mutations; the waiters of an identity are calls. *)
Record MutationIndex := {
  mu_active : gmap jstr Z;
  mu_runs : list nat;
  mu_kinds : gmap jstr (list (SessionLifecycleMutationKind * Z));
  mu_idleWaiters : gmap jstr (list nat);
}.

(** An interrupt in flight; [in_timed]: it has a timeout. *)
Record Interrupt := { in_targets : list nat; in_timed : bool; in_result : option bool }.

Record LifecycleState {A : Type} := {
  st_writers : Writers;
  st_calls : list LifecycleCall;
  st_work : WorkIndex;
  st_mutations : MutationIndex;
  st_interrupts : list Interrupt;
  st_gateway : A;
}.
Arguments LifecycleState A : clear implicits.

(** ** Field updates *)

Definition with_pc (pc : ProgramCounter) (c : LifecycleCall) : LifecycleCall :=
  {| lc_kind := lc_kind c; lc_identities := lc_identities c; lc_context := lc_context c;
     lc_hasSignal := lc_hasSignal c; lc_aborted := lc_aborted c; lc_activated := lc_activated c;
     lc_frames := lc_frames c; lc_outer := lc_outer c; lc_here := lc_here c; lc_pc := pc;
     lc_outcome := lc_outcome c |}.

Definition with_stack (frames outer : list Frame) (here : Ctx) (pc : ProgramCounter)
    (c : LifecycleCall) : LifecycleCall :=
  {| lc_kind := lc_kind c; lc_identities := lc_identities c; lc_context := lc_context c;
     lc_hasSignal := lc_hasSignal c; lc_aborted := lc_aborted c; lc_activated := lc_activated c;
     lc_frames := frames; lc_outer := outer; lc_here := here; lc_pc := pc;
     lc_outcome := lc_outcome c |}.

Definition with_activated (pc : ProgramCounter) (c : LifecycleCall) : LifecycleCall :=
  {| lc_kind := lc_kind c; lc_identities := lc_identities c; lc_context := lc_context c;
     lc_hasSignal := lc_hasSignal c; lc_aborted := lc_aborted c; lc_activated := true;
     lc_frames := lc_frames c; lc_outer := lc_outer c; lc_here := lc_here c; lc_pc := pc;
     lc_outcome := lc_outcome c |}.

Definition with_aborted (pc : ProgramCounter) (outcome : option Exit) (c : LifecycleCall)
    : LifecycleCall :=
  {| lc_kind := lc_kind c; lc_identities := lc_identities c; lc_context := lc_context c;
     lc_hasSignal := lc_hasSignal c; lc_aborted := true; lc_activated := lc_activated c;
     lc_frames := lc_frames c; lc_outer := lc_outer c; lc_here := lc_here c; lc_pc := pc;
     lc_outcome := outcome |}.

(** The promise of a call settles once: an earlier settlement stays. *)
Definition settle_outcome (x : Exit) (o : option Exit) : option Exit :=
  match o with Some y => Some y | None => Some x end.

Definition finish (x : Exit) (c : LifecycleCall) : LifecycleCall :=
  {| lc_kind := lc_kind c; lc_identities := lc_identities c; lc_context := lc_context c;
     lc_hasSignal := lc_hasSignal c; lc_aborted := lc_aborted c; lc_activated := lc_activated c;
     lc_frames := lc_frames c; lc_outer := lc_outer c; lc_here := lc_here c; lc_pc := PDone;
     lc_outcome := settle_outcome x (lc_outcome c) |}.

Section updates.
  Context {A : Type}.
  Implicit Types st : LifecycleState A.

Definition set_writers (w : Writers) st : LifecycleState A :=
    {| st_writers := w; st_calls := st_calls st; st_work := st_work st;
       st_mutations := st_mutations st; st_interrupts := st_interrupts st;
       st_gateway := st_gateway st |}.

Definition set_calls (cs : list LifecycleCall) st : LifecycleState A :=
    {| st_writers := st_writers st; st_calls := cs; st_work := st_work st;
       st_mutations := st_mutations st; st_interrupts := st_interrupts st;
       st_gateway := st_gateway st |}.

Definition set_work (w : WorkIndex) st : LifecycleState A :=
    {| st_writers := st_writers st; st_calls := st_calls st; st_work := w;
       st_mutations := st_mutations st; st_interrupts := st_interrupts st;
       st_gateway := st_gateway st |}.

Definition set_mutations (m : MutationIndex) st : LifecycleState A :=
    {| st_writers := st_writers st; st_calls := st_calls st; st_work := st_work st;
       st_mutations := m; st_interrupts := st_interrupts st; st_gateway := st_gateway st |}.

Definition set_interrupts (l : list Interrupt) st : LifecycleState A :=
    {| st_writers := st_writers st; st_calls := st_calls st; st_work := st_work st;
       st_mutations := st_mutations st; st_interrupts := l; st_gateway := st_gateway st |}.

Definition set_gateway (g : A) st : LifecycleState A :=
    {| st_writers := st_writers st; st_calls := st_calls st; st_work := st_work st;
       st_mutations := st_mutations st; st_interrupts := st_interrupts st; st_gateway := g |}.

Definition set_call (c : nat) (call : LifecycleCall) st : LifecycleState A :=
    set_calls (<[c := call]> (st_calls st)) st.
End updates.

(** ** Active mutations *)

Section operations.
  Context {A : Type} `{AdmissionInterface A}.
  Implicit Types (st : LifecycleState A) (m : MutationIndex) (w : WorkIndex) (call : LifecycleCall).

  (** [ACTIVE_SESSION_LIFECYCLE_MUTATIONS.get(identity) ?? 0]. *)
Definition active_count m (k : jstr) : Z := default 0%Z (mu_active m !! k).

Definition hasActiveSessionLifecycleMutation m (identities : list jstr) : bool :=
    existsb (fun k => (0 <? active_count m k)%Z) identities.

Definition kind_count m (k : jstr) (kind : SessionLifecycleMutationKind) : Z :=
    default 0%Z (kinds ← mu_kinds m !! k; jm_get kind kinds).

  (** The loop with its [foundActiveMutation]. *)
Fixpoint only_kind_loop m (kind : SessionLifecycleMutationKind) (found : bool)
      (identities : list jstr) : bool :=
    match identities with
    | [] => found
    | k :: rest =>
        if (active_count m k =? 0)%Z then only_kind_loop m kind found rest
        else if negb (kind_count m k kind =? active_count m k)%Z then false
        else only_kind_loop m kind true rest
    end.

Definition hasOnlyActiveSessionLifecycleMutationKind m identities kind : bool :=
    only_kind_loop m kind false identities.

  (** Activation of one identity. *)
Definition activate_identity (kind : option SessionLifecycleMutationKind) m (k : jstr)
      : MutationIndex :=
    {| mu_active := <[k := (active_count m k + 1)%Z]> (mu_active m);
       mu_runs := mu_runs m;
       mu_kinds :=
         match kind with
         | Some kd =>
             let kinds := default [] (mu_kinds m !! k) in
             <[k := jm_set kd (default 0 (jm_get kd kinds) + 1)%Z kinds]> (mu_kinds m)
         | None => mu_kinds m
         end;
       mu_idleWaiters := mu_idleWaiters m |}.

Definition activate (run : nat) (kind : option SessionLifecycleMutationKind)
      (identities : list jstr) m : MutationIndex :=
    fold_left (activate_identity kind) identities
      {| mu_active := mu_active m; mu_runs := js_add run (mu_runs m); mu_kinds := mu_kinds m;
         mu_idleWaiters := mu_idleWaiters m |}.

  (** The kind count of one identity goes down; an empty table is removed. *)
Definition drop_kind (kind : option SessionLifecycleMutationKind) (k : jstr)
      (kinds : gmap jstr (list (SessionLifecycleMutationKind * Z))) :=
    match kind with
    | None => kinds
    | Some kd =>
        match kinds !! k with
        | None => kinds
        | Some table =>
            let remaining := (default 1 (jm_get kd table) - 1)%Z in
            if (0 <? remaining)%Z then <[k := jm_set kd remaining table]> kinds
            else
              let table' := jm_delete kd table in
              if bool_decide (table' = []) then delete k kinds else <[k := table']> kinds
        end
    end.

  (** Cleanup of one identity: the index and the waiters it resolves. *)
Definition deactivate_identity (kind : option SessionLifecycleMutationKind)
      (p : MutationIndex * list (jstr * nat)) (k : jstr) : MutationIndex * list (jstr * nat) :=
    let '(m, resolved) := p in
    let kinds := drop_kind kind k (mu_kinds m) in
    let remaining := (default 1 (mu_active m !! k) - 1)%Z in
    if (0 <? remaining)%Z then
      ({| mu_active := <[k := remaining]> (mu_active m); mu_runs := mu_runs m;
          mu_kinds := kinds; mu_idleWaiters := mu_idleWaiters m |}, resolved)
    else
      ({| mu_active := delete k (mu_active m); mu_runs := mu_runs m; mu_kinds := kinds;
          mu_idleWaiters := delete k (mu_idleWaiters m) |},
       resolved ++ ((fun c => (k, c)) <$> default [] (mu_idleWaiters m !! k))).

Definition drop_run (run : nat) m : MutationIndex :=
    {| mu_active := mu_active m; mu_runs := List.filter (fun r => negb (r =? run)) (mu_runs m);
       mu_kinds := mu_kinds m; mu_idleWaiters := mu_idleWaiters m |}.

Definition deactivate (run : nat) (kind : option SessionLifecycleMutationKind)
      (identities : list jstr) m : MutationIndex * list (jstr * nat) :=
    let '(m', resolved) := fold_left (deactivate_identity kind) identities (m, []) in
    (drop_run run m', resolved).

  (** A waiter of identity [k] is resolved: its call waits for one key less. *)
Definition wake (cs : list LifecycleCall) (p : jstr * nat) : list LifecycleCall :=
    let '(k, c) := p in
    match cs !! c with
    | Some call =>
        match lc_pc call with
        | PWaitIdle keys =>
            <[c := with_pc (PWaitIdle (List.filter (fun x => negb (bool_decide (x = k))) keys)) call]> cs
        | _ => cs
        end
    | None => cs
    end.

  (** [waitForNormalizedSessionLifecycleMutationIdle]: the identities that are
      active, with the call among the waiters of each. *)
Definition add_waiter (c : nat) (ws : gmap jstr (list nat)) (k : jstr) : gmap jstr (list nat) :=
    multi_add c ws k.

Definition active_identities m (identities : list jstr) : list jstr :=
    List.filter (fun k => (0 <? active_count m k)%Z) identities.

Definition waitForIdle (c : nat) call st : LifecycleState A :=
    let m := st_mutations st in
    let keys := active_identities m (lc_identities call) in
    match keys with
    | [] => set_call c (with_pc (PWaitIdle []) call) st
    | _ :: _ =>
        if lc_aborted call then set_call c (finish (XErr Aborted) call) st
        else
          set_call c (with_pc (PWaitIdle keys) call)
            (set_mutations {| mu_active := mu_active m; mu_runs := mu_runs m;
               mu_kinds := mu_kinds m;
               mu_idleWaiters := fold_left (add_waiter c) keys (mu_idleWaiters m) |} st)
    end.

  (** ** One synchronous statement of a call *)

Definition call_kind call : option SessionLifecycleMutationKind :=
    match lc_kind call with RunMutation kind _ => kind | BeginAdmission _ _ => None end.

  (** [CURRENT_SESSION_WORK_ADMISSIONS.run(callerAdmissions, ...)]. *)
Definition with_admissions (l : list nat) (ctx : Ctx) : Ctx :=
    {| ctx_writer := ctx_writer ctx;
       ctx_stores := {| cs_admissions := l; cs_root := cs_root (ctx_stores ctx) |} |}.

Definition push_frame (a : LockLane * jstr) (writer : option nat) (here : Ctx)
      (pc : ProgramCounter) call : LifecycleCall :=
    with_stack ({| fr_addr := a; fr_writer := writer; fr_context := lc_here call |} :: lc_frames call)
      (lc_outer call) here pc call.

  (** The next lock of a section: entered at once, reentrantly or not, or queued. *)
Definition take_lock (c : nat) call (s : LockSection) (k : jstr) (rest : list jstr) st
      : LifecycleState A :=
    let a := (section_lane s, k) in
    match runQueuedStoreWrite (st_writers st) (lc_here call) a true (TLock c) with
    | None => set_call c (with_pc (PExit s (XErr InvalidPath)) call) st
    | Some (w, r) =>
        set_call c
          (match r with
           | Reentered => push_frame a None (lc_here call) (PTry s rest) call
           | Started ctx => push_frame a (ctx_writer ctx) ctx (PTry s rest) call
           | Queued => with_pc (PQueued s k rest) call
           end) (set_writers w st)
    end.

  (** The body of a section, once it holds all its locks. *)
Definition section_body (c : nat) call (s : LockSection) st : LifecycleState A :=
    match s with
    | SMutation =>
        set_call c (with_stack [] (lc_frames call)
          (with_admissions (cs_admissions (ctx_stores (lc_context call))) (lc_here call))
          (PTry SActivate (lc_identities call)) call) st
    | SActivate =>
        if lc_aborted call then set_call c (with_pc (PExit SActivate (XErr Aborted)) call) st
        else
          set_call c (with_activated (PExit SActivate XOk) call)
            (set_mutations (activate c (call_kind call) (lc_identities call) (st_mutations st)) st)
    | SRun => set_call c (with_pc PRun call) st
    | SCleanup x =>
        let '(m, resolved) :=
          deactivate c (call_kind call) (lc_identities call) (st_mutations st) in
        set_call c (with_pc (PExit (SCleanup x) x) call)
          (set_calls (fold_left wake resolved (st_calls st)) (set_mutations m st))
    | SAdmit =>
        if lc_aborted call then set_call c (with_pc (PExit SAdmit (XErr Aborted)) call) st
        else if hasActiveSessionLifecycleMutation (st_mutations st) (lc_identities call)
        then set_call c (with_pc (PExit SAdmit XBlocked) call) st
        else set_call c (with_pc PAssert call) st
    end.

  (** [None] when the call awaits an event. *)
Definition micro (c : nat) st : option (LifecycleState A) :=
    match st_calls st !! c with
    | Some call =>
        match lc_pc call with
        | PLoop =>
            Some (if lc_aborted call then set_call c (finish (XErr Aborted) call) st
                  else if hasActiveSessionLifecycleMutation (st_mutations st) (lc_identities call)
                  then waitForIdle c call st
                  else set_call c (with_pc (PTry SAdmit (lc_identities call)) call) st)
        | PTry s (k :: rest) => Some (take_lock c call s k rest st)
        | PTry s [] => Some (section_body c call s st)
        | _ => None
        end
    | None => None
    end.

  (** The statements a call can still run before it awaits. *)
Definition sync_steps call : nat :=
    let n := length (lc_identities call) in
    match lc_pc call with
    | PLoop => 2 + n
    | PTry SMutation rest => 2 + length rest + n
    | PTry _ rest => 1 + length rest
    | _ => 0
    end.

Fixpoint sync_fuel (fuel : nat) (c : nat) st : LifecycleState A :=
    match fuel with
    | 0 => st
    | S n => match micro c st with Some st' => sync_fuel n c st' | None => st end
    end.

  (** A call runs to its next [await]. *)
Definition sync (c : nat) st : LifecycleState A :=
    match st_calls st !! c with
    | Some call => sync_fuel (sync_steps call) c st
    | None => st
    end.
End operations.

(** ** Admissions, leases and handoffs *)

Section admissions.
  Context {A : Type} `{AdmissionInterface A}.
  Implicit Types (st : LifecycleState A) (w : WorkIndex) (ad : SessionWorkAdmission).

Definition with_handoffIds (l : list jstr) ad : SessionWorkAdmission :=
    {| ad_handoffIds := l; ad_identities := ad_identities ad; ad_interrupt := ad_interrupt ad;
       ad_interrupted := ad_interrupted ad; ad_released := ad_released ad |}.

Definition set_admission (a : nat) ad w : WorkIndex :=
    {| wk_admissions := <[a := ad]> (wk_admissions w); wk_active := wk_active w;
       wk_handoffs := wk_handoffs w |}.

  (** [for (const identity of identities) active.add(admission)]. *)
Definition index_admission (a : nat) (active : gmap jstr (list nat)) (k : jstr) :=
    multi_add a active k.

Definition register_admission (identities : list jstr) (interrupt : option nat) w : WorkIndex :=
    let a := length (wk_admissions w) in
    {| wk_admissions := wk_admissions w ++
         [{| ad_handoffIds := []; ad_identities := identities; ad_interrupt := interrupt;
             ad_interrupted := false; ad_released := false |}];
       wk_active := fold_left (index_admission a) identities (wk_active w);
       wk_handoffs := wk_handoffs w |}.

  (** [active?.delete(admission)], and the key when its set is empty. *)
Definition unindex_admission (a : nat) (active : gmap jstr (list nat)) (k : jstr) :=
    let rest := List.filter (fun b => negb (b =? a)) (default [] (active !! k)) in
    match rest with [] => delete k active | _ :: _ => <[k := rest]> active end.

Definition clearSessionWorkAdmissionHandoffs (a : nat) w : WorkIndex :=
    match wk_admissions w !! a with
    | Some ad =>
        {| wk_admissions := <[a := with_handoffIds [] ad]> (wk_admissions w);
           wk_active := wk_active w;
           wk_handoffs := fold_left (fun hs h => delete h hs) (ad_handoffIds ad) (wk_handoffs w) |}
    | None => w
    end.

  (** [lease.release]: [released] and the promise of the same name agree. *)
Definition release (a : nat) w : WorkIndex :=
    match wk_admissions w !! a with
    | Some ad =>
        if ad_released ad then w
        else
          let ad' := {| ad_handoffIds := ad_handoffIds ad; ad_identities := ad_identities ad;
                        ad_interrupt := ad_interrupt ad; ad_interrupted := ad_interrupted ad;
                        ad_released := true |} in
          clearSessionWorkAdmissionHandoffs a
            {| wk_admissions := <[a := ad']> (wk_admissions w);
               wk_active := fold_left (unindex_admission a) (ad_identities ad) (wk_active w);
               wk_handoffs := wk_handoffs w |}
    | None => w
    end.

  (** [lease.run]: the context of the work of a lease. *)
Definition lease_context (a : nat) (ctx : Ctx) : Ctx :=
    with_admissions (js_add a (cs_admissions (ctx_stores ctx))) ctx.

  (** [lease.createHandoff] with the token [randomUUID] returned; [None] is the
      exception for a released lease. *)
Definition createSessionWorkAdmissionHandoff (a : nat) (handoffId : jstr) w : option WorkIndex :=
    match wk_admissions w !! a with
    | Some ad =>
        if ad_released ad then None
        else Some {| wk_admissions := <[a := with_handoffIds (js_add handoffId (ad_handoffIds ad)) ad]>
                                        (wk_admissions w);
                     wk_active := wk_active w;
                     wk_handoffs := <[handoffId := a]> (wk_handoffs w) |}
    | None => None
    end.

Definition drop_token (handoffId : jstr) ad : SessionWorkAdmission :=
    with_handoffIds (List.filter (fun h => negb (bool_decide (h = handoffId))) (ad_handoffIds ad)) ad.

  (** [None] is the exception of an empty scope; the result is the lease and the
      callbacks called. *)
Definition consumeSessionWorkAdmissionHandoff (handoffId scope : jstr)
      (identities : list (option jstr)) (onInterrupt : option nat) w
      : option (WorkIndex * option nat * list nat) :=
    let handoffId := trim handoffId in
    if negb (truthy handoffId) then Some (w, None, []) else
    match wk_handoffs w !! handoffId with
    | None => Some (w, None, [])
    | Some a =>
        match normalizeSessionIdentities scope identities, wk_admissions w !! a with
        | Some keys, Some ad =>
            if bool_decide (keys = []) ||
               existsb (fun k => negb (includes k (ad_identities ad))) keys
            then Some (w, None, [])
            else
              let ad1 := drop_token handoffId ad in
              let ad2 := {| ad_handoffIds := ad_handoffIds ad1; ad_identities := ad_identities ad;
                            ad_interrupt := onInterrupt; ad_interrupted := ad_interrupted ad;
                            ad_released := ad_released ad |} in
              Some ({| wk_admissions := <[a := ad2]> (wk_admissions w);
                       wk_active := wk_active w;
                       wk_handoffs := delete handoffId (wk_handoffs w) |},
                    Some a,
                    if ad_interrupted ad then option_list onInterrupt else [])
        | _, _ => None
        end
    end.

Definition cancelSessionWorkAdmissionHandoff (handoffId : jstr) w : WorkIndex * bool :=
    let handoffId := trim handoffId in
    match wk_handoffs w !! handoffId with
    | None => (w, false)
    | Some a =>
        let w1 := {| wk_admissions := alter (drop_token handoffId) a (wk_admissions w);
                     wk_active := wk_active w;
                     wk_handoffs := delete handoffId (wk_handoffs w) |} in
        (release a w1, true)
    end.

  (** [interruptSessionWorkAdmissions] up to its wait: the admissions it
      interrupts, each with its callback. *)
Definition interrupt_targets (keys : list jstr) (current : list nat) w : list nat :=
    js_set (List.filter (fun a => negb (includes a current))
              (flat_map (fun k => default [] (wk_active w !! k)) keys)).

Definition interrupt_one (ads : list SessionWorkAdmission) (a : nat) : list SessionWorkAdmission :=
    alter (fun ad => {| ad_handoffIds := ad_handoffIds ad; ad_identities := ad_identities ad;
                        ad_interrupt := ad_interrupt ad; ad_interrupted := true;
                        ad_released := ad_released ad |}) a ads.

Definition interrupt_callbacks (targets : list nat) w : list nat :=
    omap (fun a => ad ← wk_admissions w !! a; ad_interrupt ad) targets.

Definition interruptSessionWorkAdmissions (ctx : Ctx) (scope : jstr)
      (identities : list (option jstr)) (timed : bool) st
      : option (LifecycleState A * list nat) :=
    keys ← normalizeSessionIdentities scope identities;
    let w := st_work st in
    let targets := interrupt_targets keys (cs_admissions (ctx_stores ctx)) w in
    Some (set_interrupts (st_interrupts st ++
            [{| in_targets := targets; in_timed := timed; in_result := None |}])
            (set_work {| wk_admissions := fold_left interrupt_one targets (wk_admissions w);
                         wk_active := wk_active w; wk_handoffs := wk_handoffs w |} st),
          interrupt_callbacks targets w).

Definition is_released w (a : nat) : bool :=
    match wk_admissions w !! a with Some ad => ad_released ad | None => false end.

  (** The race of an interrupt: all its targets are released, or its timer
      fires.  [None] when that has not happened or the race is over. *)
Definition interrupt_drained (i : nat) st : option (LifecycleState A) :=
    it ← st_interrupts st !! i;
    if bool_decide (in_result it = None) && forallb (is_released (st_work st)) (in_targets it)
    then Some (set_interrupts (<[i := {| in_targets := in_targets it;
           in_timed := in_timed it; in_result := Some true |}]> (st_interrupts st)) st)
    else None.

Definition interrupt_timer (i : nat) st : option (LifecycleState A) :=
    it ← st_interrupts st !! i;
    if bool_decide (in_result it = None) && in_timed it
    then Some (set_interrupts (<[i := {| in_targets := in_targets it;
           in_timed := in_timed it; in_result := Some false |}]> (st_interrupts st)) st)
    else None.

  (** ** Questions *)

Definition isSessionLifecycleMutationActive (scope : jstr) (identities : list (option jstr)) st
      : option bool :=
    keys ← normalizeSessionIdentities scope identities;
    Some (hasActiveSessionLifecycleMutation (st_mutations st) keys).

Definition hasOnlySessionLifecycleMutationKindActive (scope : jstr)
      (identities : list (option jstr)) (kind : SessionLifecycleMutationKind) st : option bool :=
    keys ← normalizeSessionIdentities scope identities;
    Some (hasOnlyActiveSessionLifecycleMutationKind (st_mutations st) keys kind).

Definition isSessionWorkAdmissionActive (scope : jstr) (identities : list (option jstr)) st
      : option bool :=
    keys ← normalizeSessionIdentities scope identities;
    Some (existsb (fun k => 0 <? length (default [] (wk_active (st_work st) !! k))) keys).

Definition collectActiveSessionWorkAdmissionIdentities (scope : jstr) st
      : option (gset (list nat)) :=
    let normalizedScope := trim scope in
    if negb (truthy normalizedScope) then None
    else Some (list_to_set (omap (fun '(k, admissions) =>
           match admissions, decodeSessionIdentity k with
           | _ :: _, Some (s, identity) =>
               if bool_decide (s = units normalizedScope) then Some identity else None
           | _, _ => None
           end) (map_to_list (wk_active (st_work st))))).

Definition getActiveSessionWorkAdmissionCount st : nat :=
    length (js_set (flat_map snd (map_to_list (wk_active (st_work st))))).

Definition getActiveSessionLifecycleMutationCount st : nat :=
    let runs := length (mu_runs (st_mutations st)) in
    if 0 <? runs then runs
    else if 0 <? size (mu_active (st_mutations st)) then 1 else 0.
End admissions.

(** ** Events *)

Section events.
  Context {A : Type} `{AdmissionInterface A}.
  Implicit Types (st : LifecycleState A) (call : LifecycleCall).

Definition new_call (kind : CallKind) (identities : list jstr) (ctx : Ctx)
      (hasSignal aborted : bool) (pc : ProgramCounter) (outcome : option Exit) : LifecycleCall :=
    {| lc_kind := kind; lc_identities := identities; lc_context := ctx; lc_hasSignal := hasSignal;
       lc_aborted := hasSignal && aborted; lc_activated := false; lc_frames := []; lc_outer := [];
       lc_here := ctx; lc_pc := pc; lc_outcome := outcome |}.

  (** A call starts and runs to its first [await]. *)
Definition add_call call st : LifecycleState A :=
    sync (length (st_calls st)) (set_calls (st_calls st ++ [call]) st).

Definition beginSessionWorkAdmission (ctx : Ctx) (scope : jstr) (identities : list (option jstr))
      (hasSignal aborted : bool) (onInterrupt : option nat) st : LifecycleState A :=
    let kind := BeginAdmission scope onInterrupt in
    if ai_subordinateClosed (st_gateway st) (cs_root (ctx_stores ctx))
    then add_call (new_call kind [] ctx hasSignal aborted PDone (Some (XErr Draining))) st
    else
      match normalizeSessionIdentities scope identities with
      | None => add_call (new_call kind [] ctx hasSignal aborted PDone (Some (XErr InvalidScope))) st
      | Some keys => add_call (new_call kind keys ctx hasSignal aborted PLoop None) st
      end.

Definition runExclusiveSessionLifecycleMutation (ctx : Ctx) (scope : jstr)
      (identities : list (option jstr)) (kind : option SessionLifecycleMutationKind)
      (hasPrepare hasSignal aborted : bool) st : LifecycleState A :=
    let k := RunMutation kind hasPrepare in
    match normalizeSessionIdentities scope identities with
    | None => add_call (new_call k [] ctx hasSignal aborted PDone (Some (XErr InvalidScope))) st
    | Some keys =>
        if hasSignal && aborted
        then add_call (new_call k keys ctx hasSignal aborted PDone (Some (XErr Aborted))) st
        else add_call (new_call k keys ctx hasSignal aborted (PTry SMutation keys) None) st
    end.

Definition barrier_addr call : LockLane * jstr :=
    (StoreQueues, match lc_kind call with BeginAdmission scope _ => scope | _ => [] end).

  (** After [assertAllowed]: the recheck, the registration and the barrier. *)
Definition grantAdmission (c : nat) call st : LifecycleState A :=
    if ai_subordinateClosed (st_gateway st) (cs_root (ctx_stores (lc_here call)))
    then set_call c (with_pc (PExit SAdmit (XErr Draining)) call) st
    else
      let a := length (wk_admissions (st_work st)) in
      let interrupt := match lc_kind call with BeginAdmission _ i => i | _ => None end in
      let st1 := set_work (register_admission (lc_identities call) interrupt (st_work st)) st in
      match runQueuedStoreWrite (st_writers st) (lc_here call) (barrier_addr call) true (TBarrier c) with
      | None => set_call c (with_pc (PFailed a InvalidPath) call) st1
      | Some (w, r) =>
          if lc_aborted call then
            (* the abort listener has already rejected; a barrier that runs throws *)
            let w' := match r with
                      | Started _ => default w (fnSettled w (barrier_addr call) false)
                      | _ => w
                      end in
            set_call c (with_pc (PFailed a Aborted) call) (set_writers w' st1)
          else
            set_call c
              (with_pc (match r with
                        | Reentered => PRevalidate a true
                        | Started _ => PRevalidate a false
                        | Queued => PBarrier a
                        end) call) (set_writers w st1)
      end.

Definition exit_ok (x : Exit) : bool := match x with XErr _ => false | _ => true end.

  (** A callback of the caller returns, or throws. *)
Definition callback (c : nat) (ok : bool) st : option (LifecycleState A) :=
    call ← st_calls st !! c;
    match lc_pc call with
    | PAssert =>
        Some (if ok then grantAdmission c call st
              else set_call c (with_pc (PExit SAdmit (XErr CallbackFailed)) call) st)
    | PRevalidate a true =>
        Some (set_call c (with_pc (if ok then PExit SAdmit (XLease a)
                                   else PFailed a CallbackFailed) call) st)
    | PRevalidate a false =>
        w ← fnSettled (st_writers st) (barrier_addr call) ok;
        Some (set_call c (with_pc (PBarrierDone a ok) call) (set_writers w st))
    | PPrepare =>
        Some (sync c (set_call c
          (with_pc (PTry (if ok then SRun else SCleanup (XErr CallbackFailed))
                         (lc_identities call)) call) st))
    | PRun =>
        Some (set_call c (with_pc (PExit SRun (if ok then XOk else XErr CallbackFailed)) call) st)
    | _ => None
    end.

  (** The signal of a call is aborted. *)
Definition abort (c : nat) st : option (LifecycleState A) :=
    call ← st_calls st !! c;
    if lc_hasSignal call && negb (lc_aborted call) then
      Some (set_call c
        (match lc_kind call, lc_pc call with
         | BeginAdmission _ _, PWaitIdle _ =>
             with_aborted PDone (settle_outcome (XErr Aborted) (lc_outcome call)) call
         | BeginAdmission _ _, PBarrier a => with_aborted (PFailed a Aborted) (lc_outcome call) call
         | RunMutation _ _, pc =>
             with_aborted pc (if lc_activated call then lc_outcome call
                              else settle_outcome (XErr Aborted) (lc_outcome call)) call
         | _, pc => with_aborted pc (lc_outcome call) call
         end) st)
    else None.

  (** The code after a section, whose locks are all left. *)
Definition section_done (c : nat) call (s : LockSection) (x : Exit) st : LifecycleState A :=
    match s with
    | SAdmit =>
        match x with
        | XBlocked => waitForIdle c call st
        | _ => set_call c (finish x call) st
        end
    | SActivate =>
        match x, lc_kind call with
        | XErr _, _ => set_call c (with_stack (lc_outer call) [] (lc_here call) (PExit SMutation x) call) st
        | _, RunMutation _ true => set_call c (with_pc PPrepare call) st
        | _, _ => sync c (set_call c (with_pc (PTry SRun (lc_identities call)) call) st)
        end
    | SRun => sync c (set_call c (with_pc (PTry (SCleanup x) (lc_identities call)) call) st)
    | SCleanup _ =>
        set_call c (with_stack (lc_outer call) [] (lc_here call) (PExit SMutation x) call) st
    | SMutation => set_call c (finish x call) st
    end.

  (** The innermost function of a section that is being left settles. *)
Definition unwind (c : nat) st : option (LifecycleState A) :=
    call ← st_calls st !! c;
    match lc_pc call with
    | PExit s x =>
        match lc_frames call with
        | [] => Some (section_done c call s x st)
        | fr :: rest =>
            match fr_writer fr with
            | None => Some (set_call c (with_stack rest (lc_outer call) (fr_context fr) (PExit s x) call) st)
            | Some _ =>
                w ← fnSettled (st_writers st) (fr_addr fr) (exit_ok x);
                Some (set_call c (with_pc (PExitWait s x) call) (set_writers w st))
            end
        end
    | _ => None
    end.

  (** What a call awaits has come: its identities are idle, or its catch block
      runs. *)
Definition resume (c : nat) st : option (LifecycleState A) :=
    call ← st_calls st !! c;
    match lc_pc call with
    | PWaitIdle [] => Some (sync c (set_call c (with_pc PLoop call) st))
    | PFailed a e =>
        Some (set_call c (with_pc (PExit SAdmit (XErr e)) call)
                (set_work (release a (st_work st)) st))
    | _ => None
    end.

  (** The caller of a task is answered. *)
Definition answer (t : LockTask) (ok : bool) st : LifecycleState A :=
    match t with
    | TLock c =>
        match st_calls st !! c with
        | Some call =>
            match lc_pc call, lc_frames call with
            | PExitWait s x, fr :: rest =>
                set_call c (with_stack rest (lc_outer call) (fr_context fr) (PExit s x) call) st
            | _, _ => st
            end
        | None => st
        end
    | TBarrier c =>
        match st_calls st !! c with
        | Some call =>
            match lc_pc call with
            | PBarrierDone a _ =>
                set_call c (with_pc (if ok then PExit SAdmit (XLease a)
                                     else PFailed a CallbackFailed) call) st
            | _ => st
            end
        | None => st
        end
    end.

  (** A queued task starts in the context of its queue's loop. *)
Definition start (a : LockLane * jstr) (t : LockTask) (ctx : Ctx) st : LifecycleState A :=
    match t with
    | TLock c =>
        match st_calls st !! c with
        | Some call =>
            match lc_pc call with
            | PQueued s _ rest =>
                sync c (set_call c (push_frame a (ctx_writer ctx) ctx (PTry s rest) call) st)
            | _ => st
            end
        | None => st
        end
    | TBarrier c =>
        match st_calls st !! c with
        | Some call =>
            if lc_aborted call
            then set_writers (default (st_writers st) (fnSettled (st_writers st) a false)) st
            else
              match lc_pc call with
              | PBarrier ad => set_call c (with_pc (PRevalidate ad false) call) st
              | _ => st
              end
        | None => st
        end
    end.

  (** The drain loop of a queue goes on. *)
Definition drain_loop (a : LockLane * jstr) st : option (LifecycleState A) :=
    '(w, (t, ok), started) ← drainContinues (st_writers st) a;
    let st1 := answer t ok (set_writers w st) in
    Some (match started with Some (t', ctx) => start a t' ctx st1 | None => st1 end).

Inductive LifecycleEvent :=
  | EvAdmission (ctx : Ctx) (scope : jstr) (identities : list (option jstr))
      (hasSignal aborted : bool) (onInterrupt : option nat)
  | EvMutation (ctx : Ctx) (scope : jstr) (identities : list (option jstr))
      (kind : option SessionLifecycleMutationKind) (hasPrepare hasSignal aborted : bool)
  | EvCallback (c : nat) (ok : bool)
  | EvAbort (c : nat)
  | EvUnwind (c : nat)
  | EvResume (c : nat)
  | EvDrain (a : LockLane * jstr)
  | EvRelease (a : nat)
  | EvHandoff (a : nat) (token : jstr)
  | EvConsume (token scope : jstr) (identities : list (option jstr)) (onInterrupt : option nat)
  | EvCancel (token : jstr)
  | EvInterrupt (ctx : Ctx) (scope : jstr) (identities : list (option jstr)) (timed : bool)
  | EvInterruptDrained (i : nat)
  | EvInterruptTimer (i : nat)
  | EvGateway (g : A).

  (** [randomUUID] gives a token that is in no use and has no blanks around. *)
Definition fresh_token (token : jstr) (w : WorkIndex) : bool :=
    truthy token && bool_decide (trim token = token) && bool_decide (wk_handoffs w !! token = None)
    && forallb (fun ad => negb (includes token (ad_handoffIds ad))) (wk_admissions w).

  (** A lease is in the hands of the caller once its call has returned it. *)
Definition leased (a : nat) st : bool :=
    existsb (fun call => bool_decide (lc_outcome call = Some (XLease a))) (st_calls st).

Definition lifecycle_step (e : LifecycleEvent) st : option (LifecycleState A) :=
    let work w := Some (set_work w st) in
    match e with
    | EvAdmission ctx scope ids sig ab cb =>
        if ctx_okb (st_writers st) ctx then Some (beginSessionWorkAdmission ctx scope ids sig ab cb st)
        else None
    | EvMutation ctx scope ids kind prep sig ab =>
        if ctx_okb (st_writers st) ctx
        then Some (runExclusiveSessionLifecycleMutation ctx scope ids kind prep sig ab st) else None
    | EvCallback c ok => callback c ok st
    | EvAbort c => abort c st
    | EvUnwind c => unwind c st
    | EvResume c => resume c st
    | EvDrain a => drain_loop a st
    | EvRelease a => if leased a st then work (release a (st_work st)) else None
    | EvHandoff a token =>
        if leased a st && fresh_token token (st_work st)
        then w ← createSessionWorkAdmissionHandoff a token (st_work st); work w else None
    | EvConsume token scope ids cb =>
        '(w, _, _) ← consumeSessionWorkAdmissionHandoff token scope ids cb (st_work st); work w
    | EvCancel token => work (cancelSessionWorkAdmissionHandoff token (st_work st)).1
    | EvInterrupt ctx scope ids timed =>
        '(st', _) ← interruptSessionWorkAdmissions ctx scope ids timed st; Some st'
    | EvInterruptDrained i => interrupt_drained i st
    | EvInterruptTimer i => interrupt_timer i st
    | EvGateway g => Some (set_gateway g st)
    end.

  (** A run skips the events that cannot happen. *)
Definition lifecycle_run (events : list LifecycleEvent) st : LifecycleState A :=
    fold_left (fun s e => default s (lifecycle_step e s)) events st.

Definition initial_lifecycle (g : A) : LifecycleState A :=
    {| st_writers := no_writers; st_calls := [];
       st_work := {| wk_admissions := []; wk_active := ∅; wk_handoffs := ∅ |};
       st_mutations := {| mu_active := ∅; mu_runs := []; mu_kinds := ∅; mu_idleWaiters := ∅ |};
       st_interrupts := []; st_gateway := g |}.

Inductive lifecycle_reachable (g : A) : LifecycleState A -> Prop :=
  | lifecycle_start : lifecycle_reachable g (initial_lifecycle g)
  | lifecycle_next st e st' :
      lifecycle_reachable g st -> lifecycle_step e st = Some st' -> lifecycle_reachable g st'.
End events.

(** ** Running calls *)

Section running.
  Context {A : Type} `{AdmissionInterface A}.
  Implicit Types (st : LifecycleState A).

  (** What every statement keeps, running to the next [await] keeps. *)
Lemma sync_inv (P : LifecycleState A -> Prop) c st :
    (forall st st', P st -> micro c st = Some st' -> P st') -> P st -> P (sync c st).
  Proof.
    intros Hm Hp. unfold sync. destruct (st_calls st !! c) as [call|]; [|done].
    generalize (sync_steps call). intros n. revert st Hp.
    induction n as [|n IH]; intros st Hp; simpl; [done|].
    destruct (micro c st) as [st'|] eqn:E; [|done]. apply IH. by eapply Hm.
  Qed.

  (** What every event keeps holds in every reachable state. *)
Lemma lifecycle_inv (P : LifecycleState A -> Prop) g st :
    P (initial_lifecycle g) ->
    (forall st e st', P st -> lifecycle_step e st = Some st' -> P st') ->
    lifecycle_reachable g st -> P st.
  Proof. intros Hi Hs. induction 1; eauto. Qed.

Lemma run_reachable g events st :
    lifecycle_reachable g st -> lifecycle_reachable g (lifecycle_run events st).
  Proof.
    intros Hr. apply (fold_left_inv (lifecycle_reachable g)); [done|].
    intros s e Hs. destruct (lifecycle_step e s) eqn:E; simpl; [|done]. by eapply lifecycle_next.
  Qed.
End running.

(** ** Concrete runs *)

Section runs.
  Implicit Types (events : list (@LifecycleEvent GatewayWorkAdmissionState)).

Definition run_state events : LifecycleState GatewayWorkAdmissionState :=
    lifecycle_run events (initial_lifecycle initial_admission).

Lemma run_state_reachable events : lifecycle_reachable initial_admission (run_state events).
  Proof. apply run_reachable. constructor. Qed.

  (** A context outside of any write and any admission. *)
Definition outside : Ctx :=
    {| ctx_writer := None; ctx_stores := {| cs_admissions := []; cs_root := None |} |}.

Definition begin_work (identity : string) : @LifecycleEvent GatewayWorkAdmissionState :=
    EvAdmission outside (lit "s") [Some (lit identity)] false false (Some 7).

Definition begin_mutation (identities : list string) : @LifecycleEvent GatewayWorkAdmissionState :=
    EvMutation outside (lit "s") ((fun i => Some (lit i)) <$> identities) (Some Compaction) true false false.

  (** The key of an identity in the scope of the runs. *)
Definition run_key (identity : string) : jstr := json_pair (lit "s") (lit identity).

  (** Work on [identity] is admitted, and its lease is returned, as call [c]. *)
Definition admit_work (c : nat) (identity : string) : list (@LifecycleEvent GatewayWorkAdmissionState) :=
    [begin_work identity; EvCallback c true; EvCallback c true; EvDrain (StoreQueues, lit "s");
     EvUnwind c; EvDrain (LifecycleQueues, run_key identity); EvUnwind c].
End runs.
