(* ===== verification/SessionWork.v ===== *)
(** * Admitted session work

    The index of admissions and the handoff tokens of [SessionLifecycle] in every
    reachable state: an admission is indexed under its identities exactly until
    it is released, a token names an admission exactly while that admission holds
    it, interrupts hit the competing admissions. *)
From S2P Require Import Prelude JsString JsMap WorkAdmission StoreWriterQueue SessionIdentity SessionLifecycle.
#[local] Open Scope nat_scope.

(** ** Index updates *)

Lemma index_admission_lookup (a : nat) (ids : list jstr) (act : gmap jstr (list nat)) (k : jstr) :
  fold_left (index_admission a) ids act !! k =
  if bool_decide (k ∈ ids) then Some (js_add a (default [] (act !! k))) else act !! k.
Proof.
  exact (multi_add_lookup a ids act k).
Qed.

Lemma unindex_one_lookup (a : nat) (act : gmap jstr (list nat)) (x k : jstr) :
  unindex_admission a act x !! k =
  if decide (k = x) then
    match List.filter (fun b => negb (b =? a)) (default [] (act !! k)) with
    | [] => None
    | l => Some l
    end
  else act !! k.
Proof.
  unfold unindex_admission. case_decide as E.
  - subst. destruct (List.filter _ _); [by rewrite lookup_delete_eq|by rewrite lookup_insert_eq].
  - destruct (List.filter _ _); [by rewrite lookup_delete_ne|by rewrite lookup_insert_ne].
Qed.

Lemma unindex_admission_lookup (a : nat) (ids : list jstr) (act : gmap jstr (list nat)) (k : jstr) :
  (forall l, act !! k = Some l -> l <> []) ->
  fold_left (unindex_admission a) ids act !! k =
  if bool_decide (k ∈ ids) then
    match List.filter (fun b => negb (b =? a)) (default [] (act !! k)) with
    | [] => None
    | l => Some l
    end
  else act !! k.
Proof.
  revert act. induction ids as [|x ids IH]; intros act Hne; cbn [fold_left].
  { by rewrite bool_decide_eq_false_2 by set_solver. }
  rewrite IH; clear IH; rewrite unindex_one_lookup.
  - destruct (decide (k = x)) as [->|E].
    + rewrite (bool_decide_eq_true_2 (x ∈ x :: ids)) by set_solver.
      destruct (List.filter _ (default [] (act !! x))) as [|y l] eqn:Ef; [by case_bool_decide|].
      assert (List.filter (fun b => negb (b =? a)) (y :: l) = y :: l) as Ey.
      { rewrite <- Ef, filter_filter. apply filter_ext_in. intros z _. by destruct (z =? a). }
      cbn [default from_option id]. rewrite Ey. by case_bool_decide.
    + rewrite (bool_decide_ext (k ∈ x :: ids) (k ∈ ids)) by set_solver. done.
  - intros l. case_decide; [|apply Hne]. by destruct (List.filter _ _); intros [= <-].
Qed.

Lemma elem_of_filter_list {B} (p : B -> bool) l x : x ∈ List.filter p l <-> p x = true /\ x ∈ l.
Proof. rewrite !list_elem_of_In, List.filter_In. tauto. Qed.

Lemma elem_of_remove (a b : nat) l : b ∈ List.filter (fun x => negb (x =? a)) l <-> b <> a /\ b ∈ l.
Proof. rewrite elem_of_filter_list, negb_true_iff, Nat.eqb_neq. done. Qed.

Lemma NoDup_filter_list {B} (p : B -> bool) l : NoDup l -> NoDup (List.filter p l).
Proof.
  induction 1 as [|x l Hx Hl IH]; simpl; [constructor|]. destruct (p x); [|done].
  constructor; [|done]. rewrite elem_of_filter_list. tauto.
Qed.

Lemma delete_tokens_lookup (l : list jstr) (hs : gmap jstr nat) t :
  fold_left (fun m h => delete h m) l hs !! t = if bool_decide (t ∈ l) then None else hs !! t.
Proof.
  revert hs. induction l as [|x l IH]; intros hs; simpl; [done|]. rewrite IH.
  destruct (decide (t = x)) as [->|Hne].
  - rewrite lookup_delete_eq, (bool_decide_eq_true_2 (x ∈ x :: l)) by set_solver.
    by case_bool_decide.
  - rewrite lookup_delete_ne by done. repeat case_bool_decide; set_solver.
Qed.

(** ** The invariant *)

(** An admission that is registered and not released. *)
Definition live_admission (w : WorkIndex) (a : nat) (ad : SessionWorkAdmission) : Prop :=
  wk_admissions w !! a = Some ad /\ ad_released ad = false.

Record WorkInv (w : WorkIndex) : Prop := {
  wv_lists : forall k l, wk_active w !! k = Some l -> l <> [] /\ NoDup l;
  wv_index : forall k a, a ∈ default [] (wk_active w !! k) <->
    exists ad, live_admission w a ad /\ k ∈ ad_identities ad;
  wv_tokens : forall t a, wk_handoffs w !! t = Some a <->
    exists ad, wk_admissions w !! a = Some ad /\ t ∈ ad_handoffIds ad;
  wv_released : forall a ad, wk_admissions w !! a = Some ad -> ad_released ad = true ->
    ad_handoffIds ad = [];
  wv_trimmed : forall t a, wk_handoffs w !! t = Some a -> truthy t = true /\ trim t = t;
}.

Lemma register_inv ids cb w : WorkInv w -> WorkInv (register_admission ids cb w).
Proof.
  intros [Hl Hi Ht Hr Htr].
  assert (Hfresh : forall k, length (wk_admissions w) ∉ default [] (wk_active w !! k)).
  { intros k (ad & [E _] & _)%Hi. apply lookup_lt_Some in E. lia. }
  split; unfold register_admission, live_admission; simpl.
  - intros k l. rewrite index_admission_lookup. case_bool_decide; [|apply Hl].
    intros [= <-]. split.
    + intros E. assert (length (wk_admissions w) ∈ ([] : list nat)) as Hn
        by (rewrite <- E; apply elem_of_js_add; by left). by apply elem_of_nil in Hn.
    + apply NoDup_js_add. destruct (wk_active w !! k) eqn:E; simpl; [by apply (Hl k)|constructor].
  - intros k a. rewrite index_admission_lookup.
    assert (a ∈ default [] (if bool_decide (k ∈ ids) then Some (js_add (length (wk_admissions w))
      (default [] (wk_active w !! k))) else wk_active w !! k) <->
      (a = length (wk_admissions w) /\ k ∈ ids) \/ a ∈ default [] (wk_active w !! k)) as ->.
    { case_bool_decide; simpl; [rewrite elem_of_js_add; tauto|tauto]. }
    rewrite Hi. unfold live_admission. split.
    + intros [[-> Hk]|(ad & [E ?] & ?)].
      * eexists. rewrite lookup_app_r, Nat.sub_diag by lia. done.
      * exists ad. rewrite lookup_app_l by (by eapply lookup_lt_Some). done.
    + intros (ad & [[[? E]|[-> <-]]%lookup_snoc_Some ?] & ?); [|by left].
      right. by exists ad.
  - intros t a. rewrite Ht. split.
    + intros (ad & E & ?). exists ad. rewrite lookup_app_l by (by eapply lookup_lt_Some). done.
    + intros (ad & [[? E]|[-> <-]]%lookup_snoc_Some & Hin); [by exists ad|].
      by apply elem_of_nil in Hin.
  - intros a ad [[? E]|[-> <-]]%lookup_snoc_Some; [by apply (Hr a)|done].
  - done.
Qed.

(** A change of one admission that keeps its identities and its release. *)
Lemma WorkInv_update w a ad ad' hs :
  WorkInv w -> wk_admissions w !! a = Some ad ->
  ad_identities ad' = ad_identities ad -> ad_released ad' = ad_released ad ->
  (ad_released ad = true -> ad_handoffIds ad' = []) ->
  (forall t b, hs !! t = Some b -> truthy t = true /\ trim t = t) ->
  (forall t b, hs !! t = Some b <->
     if bool_decide (b = a) then t ∈ ad_handoffIds ad' else wk_handoffs w !! t = Some b) ->
  WorkInv {| wk_admissions := <[a := ad']> (wk_admissions w); wk_active := wk_active w;
             wk_handoffs := hs |}.
Proof.
  intros [Hl Hi Ht Hr Htr] Ha Eid Erel Hrel Htrim Hhs.
  assert (Hlt : a < length (wk_admissions w)) by (by eapply lookup_lt_Some).
  split; simpl; [done| | | |done].
  - intros k b. rewrite Hi. unfold live_admission. simpl.
    destruct (decide (b = a)) as [->|Hne].
    + rewrite list_lookup_insert_eq by done. split.
      * intros (x & [E ?] & ?). exists ad'. rewrite Eid, Erel. simplify_eq. done.
      * intros (x & [[= <-] ?] & ?). exists ad. rewrite <- Eid, <- Erel. done.
    + rewrite list_lookup_insert_ne by done. done.
  - intros t b. rewrite Hhs. case_bool_decide as E.
    + subst. rewrite list_lookup_insert_eq by done. split; [eauto|]. by intros (x & [= <-] & ?).
    + rewrite list_lookup_insert_ne by done. apply Ht.
  - intros b x. destruct (decide (b = a)) as [->|Hne].
    + rewrite list_lookup_insert_eq by done. intros [= <-] E. apply Hrel. congruence.
    + rewrite list_lookup_insert_ne by done. apply Hr.
Qed.

Lemma clear_handoffs_inv a w ad :
  WorkInv w -> wk_admissions w !! a = Some ad ->
  WorkInv (clearSessionWorkAdmissionHandoffs a w).
Proof.
  intros Hw Ha. unfold clearSessionWorkAdmissionHandoffs. rewrite Ha.
  apply (WorkInv_update _ _ ad); [done..| |].
  - intros t b. rewrite delete_tokens_lookup. case_bool_decide; [done|]. apply (wv_trimmed _ Hw).
  - intros t b. rewrite delete_tokens_lookup. simpl.
    assert (Htok := wv_tokens _ Hw). case_bool_decide as E1; case_bool_decide as E2; subst.
    + split; [done|]. by intros ?%elem_of_nil.
    + split; [done|]. intros E. apply Htok in E as (ad' & Hb & Hin).
      assert (wk_handoffs w !! t = Some a) as E by (apply Htok; eauto).
      assert (wk_handoffs w !! t = Some b) as E' by (apply Htok; eauto). congruence.
    + split; [|by intros ?%elem_of_nil]. intros E. exfalso. apply E1.
      apply Htok in E as (ad' & Hb & Hin). by simplify_eq.
    + done.
Qed.

(** Releasing a live admission, before its tokens are cleared. *)
Lemma release_index_inv a w ad :
  WorkInv w -> live_admission w a ad -> ad_handoffIds ad = [] ->
  WorkInv {| wk_admissions := <[a := {| ad_handoffIds := []; ad_identities := ad_identities ad;
               ad_interrupt := ad_interrupt ad; ad_interrupted := ad_interrupted ad;
               ad_released := true |}]> (wk_admissions w);
             wk_active := fold_left (unindex_admission a) (ad_identities ad) (wk_active w);
             wk_handoffs := wk_handoffs w |}.
Proof.
  intros [Hl Hi Ht Hr Htr] [Ha Hrel] Htok.
  assert (Hlt : a < length (wk_admissions w)) by (by eapply lookup_lt_Some).
  assert (Hne : forall k l, wk_active w !! k = Some l -> l <> []) by (intros k l E; by apply (Hl k)).
  split; simpl; [| | | |done].
  - intros k l. rewrite unindex_admission_lookup by (intros; by eapply Hne).
    case_bool_decide; [|apply Hl].
    destruct (List.filter _ _) as [|y r] eqn:Ef; [done|]. intros [= <-]. split; [done|].
    rewrite <- Ef. apply NoDup_filter_list.
    destruct (wk_active w !! k) eqn:E; simpl; [by apply (Hl k)|constructor].
  - intros k b. rewrite unindex_admission_lookup by (intros; by eapply Hne).
    assert (b ∈ default [] (if bool_decide (k ∈ ad_identities ad) then
      match List.filter (fun b => negb (b =? a)) (default [] (wk_active w !! k)) with
      | [] => None | l => Some l end else wk_active w !! k) <->
      b ∈ default [] (wk_active w !! k) /\ ~ (b = a /\ k ∈ ad_identities ad)) as ->.
    { case_bool_decide; [|tauto]. transitivity (b ∈ List.filter (fun b => negb (b =? a)) (default [] (wk_active w !! k))).
      - destruct (List.filter _ _); done.
      - rewrite elem_of_remove. tauto. }
    rewrite Hi. unfold live_admission. simpl. destruct (decide (b = a)) as [->|Hba].
    + rewrite list_lookup_insert_eq by done. split.
      * intros [(x & [E ?] & ?) Hn]. simplify_eq. tauto.
      * by intros (x & [[= <-] ?] & ?).
    + rewrite list_lookup_insert_ne by done. split; [by intros [? _]|].
      intros (x & [? ?] & ?). split; [eauto|]. by intros [-> _].
  - intros t b. rewrite Ht. destruct (decide (b = a)) as [->|Hba].
    + rewrite list_lookup_insert_eq by done. split; intros (x & E & Hin); simplify_eq/=.
      * rewrite Htok in Hin. by apply elem_of_nil in Hin.
      * by apply elem_of_nil in Hin.
    + by rewrite list_lookup_insert_ne.
  - intros b x. destruct (decide (b = a)) as [->|Hba].
    + rewrite list_lookup_insert_eq by done. by intros [= <-].
    + rewrite list_lookup_insert_ne by done. apply Hr.
Qed.

Lemma release_eq a w ad :
  live_admission w a ad ->
  release a w =
  let w1 := clearSessionWorkAdmissionHandoffs a w in
  {| wk_admissions := <[a := {| ad_handoffIds := []; ad_identities := ad_identities ad;
       ad_interrupt := ad_interrupt ad; ad_interrupted := ad_interrupted ad;
       ad_released := true |}]> (wk_admissions w1);
     wk_active := fold_left (unindex_admission a) (ad_identities ad) (wk_active w1);
     wk_handoffs := wk_handoffs w1 |}.
Proof.
  intros [Ha Hr]. assert (Hlt : a < length (wk_admissions w)) by (by eapply lookup_lt_Some).
  unfold release, clearSessionWorkAdmissionHandoffs. rewrite Ha, Hr. simpl.
  rewrite list_lookup_insert_eq by done. simpl. by rewrite !list_insert_insert_eq.
Qed.

Lemma clear_handoffs_live a w ad :
  live_admission w a ad ->
  live_admission (clearSessionWorkAdmissionHandoffs a w) a (with_handoffIds [] ad).
Proof.
  intros [Ha Hr]. unfold clearSessionWorkAdmissionHandoffs. rewrite Ha. split; [|done].
  simpl. apply list_lookup_insert_eq. by eapply lookup_lt_Some.
Qed.

Lemma live_admission_dec w a :
  (exists ad, live_admission w a ad) \/ release a w = w.
Proof.
  unfold release, live_admission. destruct (wk_admissions w !! a) as [ad|]; [|by right].
  destruct (ad_released ad) eqn:E; [by right|]. left. eauto.
Qed.

Lemma release_inv a w : WorkInv w -> WorkInv (release a w).
Proof.
  intros Hw. destruct (live_admission_dec w a) as [[ad Had]| ->]; [|done].
  rewrite (release_eq a w ad Had). cbv zeta.
  apply (release_index_inv a _ (with_handoffIds [] ad)); [|by apply clear_handoffs_live|done].
  destruct Had as [Ha _]. by apply (clear_handoffs_inv a w ad).
Qed.

Lemma fresh_token_spec t w :
  WorkInv w -> fresh_token t w = true ->
  truthy t = true /\ trim t = t /\ wk_handoffs w !! t = None.
Proof.
  intros _. unfold fresh_token. rewrite !andb_true_iff, !bool_decide_eq_true. tauto.
Qed.

Lemma handoff_inv a t w w' :
  WorkInv w -> fresh_token t w = true ->
  createSessionWorkAdmissionHandoff a t w = Some w' -> WorkInv w'.
Proof.
  intros Hw Hf. destruct (fresh_token_spec _ _ Hw Hf) as (Htr & Htrim & Hnone).
  unfold createSessionWorkAdmissionHandoff.
  destruct (wk_admissions w !! a) as [ad|] eqn:Ha; [|done].
  destruct (ad_released ad) eqn:Hr; [done|]. intros [= <-].
  apply (WorkInv_update _ _ ad); [done..|by rewrite Hr| |].
  - intros u b. destruct (decide (t = u)) as [->|Hne].
    + by rewrite lookup_insert_eq.
    + rewrite lookup_insert_ne by done. apply (wv_trimmed _ Hw).
  - intros u b. simpl. destruct (decide (t = u)) as [->|Hne].
    + rewrite lookup_insert_eq. case_bool_decide as E.
      * subst. rewrite elem_of_js_add. split; [by left|done].
      * rewrite Hnone. split; [intros [= ->]; done|done].
    + rewrite lookup_insert_ne by done. case_bool_decide as E; [|done]. subst.
      rewrite (wv_tokens _ Hw), elem_of_js_add. split.
      * intros (x & E & ?). simplify_eq. by right.
      * intros [->|Hin]; [done|eauto].
Qed.

(** Taking a token away from the admission that holds it. *)
Lemma take_token_inv w t a ad ad' :
  WorkInv w -> wk_handoffs w !! t = Some a -> wk_admissions w !! a = Some ad ->
  ad_identities ad' = ad_identities ad -> ad_released ad' = ad_released ad ->
  ad_handoffIds ad' = ad_handoffIds (drop_token t ad) ->
  WorkInv {| wk_admissions := <[a := ad']> (wk_admissions w); wk_active := wk_active w;
             wk_handoffs := delete t (wk_handoffs w) |}.
Proof.
  intros Hw Ht Ha Eid Erel Etok. assert (Htok := wv_tokens _ Hw).
  assert (Hin : forall u, u ∈ ad_handoffIds ad' <-> u <> t /\ u ∈ ad_handoffIds ad).
  { intros u. rewrite Etok. simpl. rewrite elem_of_filter_list, negb_true_iff, bool_decide_eq_false.
    done. }
  apply (WorkInv_update _ _ ad); [done..| | |].
  - intros Hr. rewrite Etok. simpl. by rewrite (wv_released _ Hw _ _ Ha Hr).
  - intros u b [_ E]%lookup_delete_Some. by apply (wv_trimmed _ Hw u b).
  - intros u b. rewrite lookup_delete_Some. case_bool_decide as E.
    + subst b. rewrite Hin, Htok. split; [intros (? & x & ? & ?); simplify_eq; auto|].
      intros [? ?]. eauto.
    + split; [by intros [_ ?]|]. intros E'. split; [|done]. intros ->. congruence.
Qed.

Lemma consume_inv t scope ids cb w w' r cbs :
  WorkInv w -> consumeSessionWorkAdmissionHandoff t scope ids cb w = Some (w', r, cbs) -> WorkInv w'.
Proof.
  intros Hw. unfold consumeSessionWorkAdmissionHandoff.
  destruct (truthy (trim t)); [|by intros [= <- _ _]]. simpl.
  destruct (wk_handoffs w !! trim t) as [a|] eqn:Ht; [|by intros [= <- _ _]].
  destruct (normalizeSessionIdentities scope ids) as [keys|]; [|done].
  destruct (wk_admissions w !! a) as [ad|] eqn:Ha; [|done].
  destruct (_ || _); [by intros [= <- _ _]|]. intros [= <- _ _].
  by apply (take_token_inv w (trim t) a ad).
Qed.

Lemma cancel_inv t w : WorkInv w -> WorkInv (cancelSessionWorkAdmissionHandoff t w).1.
Proof.
  intros Hw. unfold cancelSessionWorkAdmissionHandoff.
  destruct (wk_handoffs w !! trim t) as [a|] eqn:Ht; [|done]. simpl. apply release_inv.
  destruct (proj1 (wv_tokens _ Hw _ _) Ht) as (ad & Ha & _).
  assert (alter (drop_token (trim t)) a (wk_admissions w) = <[a := drop_token (trim t) ad]> (wk_admissions w)) as ->.
  { apply list_eq. intros i. destruct (decide (i = a)) as [->|Hne].
    - rewrite list_lookup_alter_eq, list_lookup_insert_eq by (by eapply lookup_lt_Some).
      by rewrite Ha.
    - by rewrite list_lookup_alter_ne, list_lookup_insert_ne. }
  by apply (take_token_inv w (trim t) a ad).
Qed.

(** Interrupts change only the flag. *)
Lemma interrupt_one_lookup l a b :
  fold_left interrupt_one l b !! a =
  (fun ad => {| ad_handoffIds := ad_handoffIds ad; ad_identities := ad_identities ad;
     ad_interrupt := ad_interrupt ad;
     ad_interrupted := ad_interrupted ad || includes a l; ad_released := ad_released ad |}) <$> b !! a.
Proof.
  revert b. induction l as [|x l IH]; intros b; simpl.
  - destruct (b !! a) as [[]|]; simpl; [|done]. by rewrite orb_false_r.
  - rewrite IH. unfold interrupt_one. destruct (decide (a = x)) as [->|Hne].
    + rewrite list_lookup_alter_eq. destruct (b !! x) as [[]|]; simpl; [|done].
      unfold includes. rewrite (bool_decide_eq_true_2 (x ∈ x :: l)) by set_solver.
      by rewrite orb_true_r.
    + rewrite list_lookup_alter_ne by done. unfold includes.
      destruct (b !! a); simpl; [|done]. repeat f_equal. apply bool_decide_ext. set_solver.
Qed.

Lemma interrupt_inv l w :
  WorkInv w -> WorkInv {| wk_admissions := fold_left interrupt_one l (wk_admissions w);
                          wk_active := wk_active w; wk_handoffs := wk_handoffs w |}.
Proof.
  intros [Hl Hi Ht Hr Htr]. split; simpl; [done| | | |done].
  - intros k a. rewrite Hi. unfold live_admission. simpl. rewrite interrupt_one_lookup.
    destruct (wk_admissions w !! a) as [ad|]; simpl; [|naive_solver].
    split; intros (x & [[= <-] ?] & ?); eexists; (split; [split; [done|]|]); done.
  - intros t a. rewrite Ht, interrupt_one_lookup.
    destruct (wk_admissions w !! a) as [ad|]; simpl; [|naive_solver].
    split; intros (x & [= <-] & ?); eexists; split; done.
  - intros a ad. rewrite interrupt_one_lookup. destruct (wk_admissions w !! a) as [x|] eqn:E; [|done].
    intros [= <-]. simpl. by apply (Hr a).
Qed.

(** ** Every event keeps it *)

Section reachable.
  Context {A : Type} `{AdmissionInterface A}.
  Implicit Types (st : LifecycleState A).

  (** What the statements of calls leave alone. *)
Definition side st : WorkIndex * list Interrupt := (st_work st, st_interrupts st).

Lemma waitForIdle_side c call st : side (waitForIdle c call st) = side st.
  Proof.
    unfold waitForIdle. destruct (active_identities _ _); [done|]. by destruct (lc_aborted call).
  Qed.

Lemma micro_side c st st' : micro c st = Some st' -> side st' = side st.
  Proof.
    unfold micro. destruct (st_calls st !! c) as [call|]; [|done].
    destruct (lc_pc call) as [|s [|k rest]| | | | | | | | | | | |]; try done; intros [= <-].
    - destruct (lc_aborted call); [done|].
      destruct (hasActiveSessionLifecycleMutation _ _); [apply waitForIdle_side|done].
    - destruct s; simpl; [|done| |done|by destruct (deactivate _ _ _ _)];
        destruct (lc_aborted call); try done. by destruct (hasActiveSessionLifecycleMutation _ _).
    - unfold take_lock. by destruct (runQueuedStoreWrite _ _ _ _ _) as [[? []]|].
  Qed.

Lemma sync_side c st : side (sync c st) = side st.
  Proof.
    apply (sync_inv (fun s => side s = side st)); [|done].
    intros s s' E Hm. rewrite <- E. by eapply micro_side.
  Qed.

  (** How an event changes the index: not at all, or by one operation. *)
Inductive work_move (w : WorkIndex) : WorkIndex -> Prop :=
  | wm_same : work_move w w
  | wm_register ids cb : work_move w (register_admission ids cb w)
  | wm_release a : work_move w (release a w)
  | wm_handoff a t w' : fresh_token t w = true ->
      createSessionWorkAdmissionHandoff a t w = Some w' -> work_move w w'
  | wm_consume t scope ids cb w' r cbs :
      consumeSessionWorkAdmissionHandoff t scope ids cb w = Some (w', r, cbs) -> work_move w w'
  | wm_cancel t : work_move w (cancelSessionWorkAdmissionHandoff t w).1
  | wm_interrupt l :
      work_move w {| wk_admissions := fold_left interrupt_one l (wk_admissions w);
                     wk_active := wk_active w; wk_handoffs := wk_handoffs w |}.

Lemma work_move_inv w w' : WorkInv w -> work_move w w' -> WorkInv w'.
  Proof.
    intros Hw []; eauto using register_inv, release_inv, handoff_inv, consume_inv, cancel_inv,
      interrupt_inv.
  Qed.

  (** How an event changes the interrupts. *)
Inductive interrupts_move st : list Interrupt -> Prop :=
  | im_same : interrupts_move st (st_interrupts st)
  | im_new it : in_result it = None -> interrupts_move st (st_interrupts st ++ [it])
  | im_settle i it r : st_interrupts st !! i = Some it -> in_result it = None ->
      (r = true -> forallb (is_released (st_work st)) (in_targets it) = true) ->
      interrupts_move st (<[i := {| in_targets := in_targets it; in_timed := in_timed it;
                                    in_result := Some r |}]> (st_interrupts st)).

Definition side_move st (p : WorkIndex * list Interrupt) : Prop :=
    work_move (st_work st) p.1 /\ interrupts_move st p.2.

Lemma side_same st s' : side s' = side st -> side_move st (side s').
  Proof. intros ->. split; constructor. Qed.

Lemma side_work st w : work_move (st_work st) w -> side_move st (w, st_interrupts st).
  Proof. intros Hw. split; [done|constructor]. Qed.

Lemma add_call_side call st : side (add_call call st) = side st.
  Proof. unfold add_call. by rewrite sync_side. Qed.

Lemma admit_side c call st : side_move st (side (grantAdmission c call st)).
  Proof.
    unfold grantAdmission. destruct (ai_subordinateClosed _ _); [by apply side_same|].
    destruct (runQueuedStoreWrite _ _ _ _ _) as [[w r]|];
      [destruct (lc_aborted call)|]; apply (side_work st); constructor.
  Qed.

Lemma section_done_side c call s x st : side (section_done c call s x st) = side st.
  Proof.
    destruct s, x; simpl; rewrite ?sync_side, ?waitForIdle_side; try done;
      by destruct (lc_kind call) as [|? []]; rewrite ?sync_side.
  Qed.

Lemma drain_loop_side a st st' : drain_loop a st = Some st' -> side st' = side st.
  Proof.
    unfold drain_loop. destruct (drainContinues _ _) as [[[w [t ok]] started]|]; [|done].
    intros [= <-]. transitivity (side (answer t ok (set_writers w st))).
    - destruct started as [[[d|d] ctx]|]; [| |done]; simpl;
        (destruct (st_calls _ !! d) as [call|]; [|done]).
      + destruct (lc_pc call); rewrite ?sync_side; done.
      + destruct (lc_aborted call); [done|]. by destruct (lc_pc call).
    - destruct t as [d|d]; simpl; (destruct (st_calls _ !! d) as [call|]; [|done]);
        destruct (lc_pc call); try done. by destruct (lc_frames call).
  Qed.

Lemma callback_side c ok st st' : callback c ok st = Some st' -> side_move st (side st').
  Proof.
    unfold callback. destruct (st_calls st !! c) as [call|]; [|done]. simpl.
    destruct (lc_pc call) as [| | | | | |a []| | | | | | |]; try done;
      try (intros [= <-]; by apply side_same).
    - intros [= <-]. destruct ok; [apply admit_side|by apply side_same].
    - destruct (fnSettled _ _ _); [|done]. intros [= <-]. by apply side_same.
    - intros [= <-]. apply side_same. by rewrite sync_side.
  Qed.

Lemma unwind_side c st st' : unwind c st = Some st' -> side st' = side st.
  Proof.
    unfold unwind. destruct (st_calls st !! c) as [call|]; [|done]. simpl.
    destruct (lc_pc call); try done. destruct (lc_frames call) as [|fr rest].
    - intros [= <-]. apply section_done_side.
    - destruct (fr_writer fr); [|by intros [= <-]].
      destruct (fnSettled _ _ _); [|done]. by intros [= <-].
  Qed.

Lemma begin_admission_side ctx scope ids sig ab cb st :
    side (beginSessionWorkAdmission ctx scope ids sig ab cb st) = side st.
  Proof.
    unfold beginSessionWorkAdmission. destruct (ai_subordinateClosed _ _); [apply add_call_side|].
    destruct (normalizeSessionIdentities _ _); apply add_call_side.
  Qed.

Lemma begin_mutation_side ctx scope ids kind prep sig ab st :
    side (runExclusiveSessionLifecycleMutation ctx scope ids kind prep sig ab st) = side st.
  Proof.
    unfold runExclusiveSessionLifecycleMutation.
    destruct (normalizeSessionIdentities _ _); [|apply add_call_side].
    destruct (_ && _); apply add_call_side.
  Qed.

Lemma resume_side c st st' : resume c st = Some st' -> side_move st (side st').
  Proof.
    unfold resume. destruct (st_calls st !! c) as [call|]; [|done]. simpl.
    destruct (lc_pc call) as [| | |[]| | | | | | | | | |]; try done; intros [= <-].
    - apply side_same. by rewrite sync_side.
    - apply (side_work st). constructor.
  Qed.

Lemma interrupt_side e st st' :
    (exists i, e = EvInterruptDrained i \/ e = EvInterruptTimer i) ->
    lifecycle_step e st = Some st' -> side_move st (side st').
  Proof.
    intros [i [-> | ->]]; simpl; unfold interrupt_drained, interrupt_timer;
      (destruct (st_interrupts st !! i) as [it|] eqn:Ei; [|done]); simpl;
      (destruct (_ && _) eqn:Eb; [|done]); intros [= <-];
      apply andb_true_iff in Eb as [Hn%bool_decide_eq_true Hb];
      (split; [constructor|]); by apply im_settle.
  Qed.

Lemma step_side e st st' : lifecycle_step e st = Some st' -> side_move st (side st').
  Proof.
    destruct e; simpl.
    - destruct (ctx_okb _ _); [|done]. intros [= <-]. apply side_same, begin_admission_side.
    - destruct (ctx_okb _ _); [|done]. intros [= <-]. apply side_same, begin_mutation_side.
    - apply callback_side.
    - unfold abort. destruct (st_calls st !! c) as [call|]; [|done]. simpl.
      destruct (_ && _); [|done]. intros [= <-]. by apply side_same.
    - intros E. by apply side_same, (unwind_side c).
    - apply resume_side.
    - intros E. by apply side_same, (drain_loop_side a).
    - destruct (leased _ _); [|done]. intros [= <-]. apply (side_work st). constructor.
    - destruct (leased _ _); [|done]. simpl. destruct (fresh_token _ _) eqn:E; [|done].
      destruct (createSessionWorkAdmissionHandoff _ _ _) eqn:Eh; [|done]. intros [= <-].
      apply (side_work st). by apply (wm_handoff _ a token).
    - destruct (consumeSessionWorkAdmissionHandoff _ _ _ _ _) as [[[w r] cbs]|] eqn:E; [|done].
      intros [= <-]. apply (side_work st). by eapply wm_consume.
    - intros [= <-]. apply (side_work st). constructor.
    - unfold interruptSessionWorkAdmissions. destruct (normalizeSessionIdentities _ _); [|done].
      intros [= <-]. split; [apply wm_interrupt|by constructor].
    - apply (interrupt_side (EvInterruptDrained i)). eauto.
    - apply (interrupt_side (EvInterruptTimer i)). eauto.
    - intros [= <-]. by apply side_same.
  Qed.

  (** Released admissions stay released. *)
Lemma released_release a b w : is_released w b = true -> is_released (release a w) b = true.
  Proof.
    intros Hb. destruct (live_admission_dec w a) as [[ad Had]| ->]; [|done].
    rewrite (release_eq a w ad Had). unfold is_released in *. cbv zeta. simpl.
    destruct Had as [Ha Hr]. unfold clearSessionWorkAdmissionHandoffs. rewrite Ha. simpl.
    destruct (decide (b = a)) as [->|Hne].
    - rewrite list_insert_insert_eq, list_lookup_insert_eq by (by eapply lookup_lt_Some). done.
    - by rewrite !list_lookup_insert_ne.
  Qed.

Lemma released_insert a ad ad' w b :
    wk_admissions w !! a = Some ad -> ad_released ad' = ad_released ad ->
    match <[a := ad']> (wk_admissions w) !! b with Some x => ad_released x | None => false end =
    is_released w b.
  Proof.
    intros Ha Hr. unfold is_released. destruct (decide (b = a)) as [->|Hne].
    - by rewrite list_lookup_insert_eq, Ha, Hr by (by eapply lookup_lt_Some).
    - by rewrite list_lookup_insert_ne.
  Qed.

Lemma work_move_released w w' b :
    WorkInv w -> work_move w w' -> is_released w b = true -> is_released w' b = true.
  Proof.
    intros Hw [|ids cb|a|a t w1 _ E|t scope ids cb w1 r cbs E|t|l] Hb; [done| | | | | |].
    - unfold is_released in *. simpl. destruct (wk_admissions w !! b) as [ad|] eqn:Eb; [|done].
      by rewrite (lookup_app_l_Some _ _ _ _ Eb).
    - by apply released_release.
    - unfold createSessionWorkAdmissionHandoff in E. destruct (wk_admissions w !! a) as [ad|] eqn:Ha; [|done].
      destruct (ad_released ad) eqn:Hr; [done|]. injection E as <-. unfold is_released. simpl.
      by rewrite (released_insert a ad).
    - unfold consumeSessionWorkAdmissionHandoff in E. destruct (truthy _); simpl in E; [|by injection E as <-].
      destruct (wk_handoffs w !! trim t) as [a|]; [|by injection E as <-].
      destruct (normalizeSessionIdentities scope ids); [|done].
      destruct (wk_admissions w !! a) as [ad|] eqn:Ha; [|done].
      destruct (_ || _); injection E as <-; [done|]. unfold is_released. simpl.
      by rewrite (released_insert a ad).
    - unfold cancelSessionWorkAdmissionHandoff. destruct (wk_handoffs w !! trim t) as [a|] eqn:Ht; [|done].
      simpl. apply released_release. unfold is_released in *. simpl.
      destruct (decide (b = a)) as [->|Hne].
      + rewrite list_lookup_alter_eq. by destruct (wk_admissions w !! a) as [[]|].
      + by rewrite list_lookup_alter_ne.
    - unfold is_released in *. simpl. rewrite interrupt_one_lookup.
      by destruct (wk_admissions w !! b).
  Qed.

Definition InterruptsInv st : Prop :=
    Forall (fun it => in_result it = Some true ->
      forall a, a ∈ in_targets it -> is_released (st_work st) a = true) (st_interrupts st).

Lemma side_step_inv st p :
    WorkInv (st_work st) -> InterruptsInv st -> side_move st p ->
    WorkInv p.1 /\ Forall (fun it => in_result it = Some true ->
      forall a, a ∈ in_targets it -> is_released p.1 a = true) p.2.
  Proof.
    intros Hw Hi [Hm Hint]. split; [by eapply work_move_inv|].
    assert (Hold : Forall (fun it => in_result it = Some true ->
      forall a, a ∈ in_targets it -> is_released p.1 a = true) (st_interrupts st)).
    { eapply Forall_impl; [exact Hi|]. intros it Hit Hr a Ha.
      eapply work_move_released; [done|done|]. by apply Hit. }
    destruct Hint as [|it Hr|i it r E Hn Hr]; [done| |].
    - apply Forall_app. split; [done|]. constructor; [|done]. by rewrite Hr.
    - apply Forall_insert; [done|]. simpl. intros [= ->] a Ha.
      eapply work_move_released; [done|done|].
      specialize (Hr eq_refl). rewrite forallb_forall in Hr. apply Hr. by apply list_elem_of_In.
  Qed.

Lemma reachable_work g st :
    lifecycle_reachable g st -> WorkInv (st_work st) /\ InterruptsInv st.
  Proof.
    apply (lifecycle_inv (fun s => WorkInv (st_work s) /\ InterruptsInv s)).
    - split; [|constructor]. split; simpl; try done.
      + intros k a. rewrite lookup_empty. split; [by intros ?%elem_of_nil|].
        by intros (ad & [? _] & _).
      + intros t a. rewrite lookup_empty. split; [done|]. by intros (ad & ? & _).
    - intros s e s' [Hs Hi] E. apply (side_step_inv s (side s')); [done..|]. by eapply step_side.
  Qed.
End reachable.

(** ** What the index promises *)

Section promises.
  Context {A : Type} `{AdmissionInterface A}.
  Implicit Types (st : LifecycleState A).

Lemma includes_false_iff (keys ids : list jstr) :
    existsb (fun k => negb (includes k ids)) keys = false <-> Forall (fun k => k ∈ ids) keys.
  Proof.
    induction keys as [|x keys IH]; simpl; [by split|].
    by rewrite orb_false_iff, negb_false_iff, includes_spec, IH, Forall_cons.
  Qed.

  (** The index of admitted work is exact in every reachable state.  A session
      has active work if and only if an unreleased admission shares one of its
      identities; the count is the number of distinct unreleased admissions that
      have an identity; the identities collected for a scope are those of the
      unreleased admissions under that scope. *)
Theorem admission_index_exact g st (Hr : lifecycle_reachable g st) :
    (forall scope ids keys, normalizeSessionIdentities scope ids = Some keys ->
       isSessionWorkAdmissionActive scope ids st = Some true <->
       exists a ad k, live_admission (st_work st) a ad /\ k ∈ ad_identities ad /\ k ∈ keys) /\
    (exists l, NoDup l /\ getActiveSessionWorkAdmissionCount st = length l /\
       forall a, a ∈ l <-> exists ad, live_admission (st_work st) a ad /\ ad_identities ad <> []) /\
    (forall scope found i, collectActiveSessionWorkAdmissionIdentities scope st = Some found ->
       i ∈ found <-> exists a ad k, live_admission (st_work st) a ad /\ k ∈ ad_identities ad /\
                       decodeSessionIdentity k = Some (units (trim scope), i)).
  Proof.
    destruct (reachable_work g st Hr) as [Hw _].
    assert (Hk : forall k, default [] (wk_active (st_work st) !! k) <> [] <->
      exists a ad, live_admission (st_work st) a ad /\ k ∈ ad_identities ad).
    { intros k. split.
      - destruct (default [] _) as [|a l] eqn:E; [done|]. intros _. exists a.
        apply (wv_index _ Hw). rewrite E. by left.
      - intros (a & Ha). apply (wv_index _ Hw) in Ha. intros E. rewrite E in Ha.
        by apply elem_of_nil in Ha. }
    split_and!.
    - intros scope ids keys E. unfold isSessionWorkAdmissionActive. rewrite E. simpl.
      assert (forall b, Some b = Some true <-> b = true) as -> by (intros []; split; congruence).
      rewrite existsb_exists. split.
      + intros (k & Hin%list_elem_of_In & Hl%Nat.ltb_lt).
        destruct (proj1 (Hk k)) as (a & ad & ? & ?); [by intros E'; rewrite E' in Hl; inversion Hl|]. eauto 10.
      + intros (a & ad & k & Ha & Hka & Hin). exists k. rewrite <- list_elem_of_In. split; [done|].
        apply Nat.ltb_lt. destruct (default [] (wk_active (st_work st) !! k)) eqn:E'; [|simpl; lia].
        exfalso. apply (proj2 (Hk k)); eauto.
    - eexists. split; [apply NoDup_js_set|]. split; [done|]. intros a.
      rewrite elem_of_js_set, list_elem_of_In, in_flat_map. split.
      + intros ([k l] & Hin & Ha). apply list_elem_of_In, elem_of_map_to_list in Hin.
        destruct (proj1 (wv_index _ Hw k a)) as (ad & Had & Hka).
        { rewrite Hin. by apply list_elem_of_In. }
        exists ad. split; [done|]. intros E. rewrite E in Hka. by apply elem_of_nil in Hka.
      + intros (ad & Had & Hne). destruct (ad_identities ad) as [|k r] eqn:E; [done|].
        assert (a ∈ default [] (wk_active (st_work st) !! k)) as Hin.
        { apply (wv_index _ Hw). exists ad. split; [done|]. rewrite E. by left. }
        destruct (wk_active (st_work st) !! k) as [l|] eqn:El; [|by apply elem_of_nil in Hin].
        exists (k, l). split; [|by apply list_elem_of_In].
        by apply list_elem_of_In, elem_of_map_to_list.
    - intros scope found i. unfold collectActiveSessionWorkAdmissionIdentities.
      destruct (truthy (trim scope)); [|done]. intros [= <-].
      rewrite elem_of_list_to_set, list_elem_of_omap. split.
      + intros ([k l] & Hin%elem_of_map_to_list & E).
        destruct l as [|a l]; [done|]. destruct (decodeSessionIdentity k) as [[s i']|] eqn:Ed; [|done].
        case_bool_decide; [|done]. injection E as <-. subst s.
        destruct (proj1 (wv_index _ Hw k a)) as (ad & Had & Hka); [rewrite Hin; by left|]. eauto 10.
      + intros (a & ad & k & Had & Hka & Ed).
        assert (a ∈ default [] (wk_active (st_work st) !! k)) as Hin by (apply (wv_index _ Hw); eauto).
        destruct (wk_active (st_work st) !! k) as [l|] eqn:El; [|by apply elem_of_nil in Hin].
        exists (k, l). split; [by apply elem_of_map_to_list|]. destruct l; [by apply elem_of_nil in Hin|].
        rewrite Ed. by rewrite bool_decide_eq_true_2.
  Qed.

Lemma token_live g st t a :
    lifecycle_reachable g st -> wk_handoffs (st_work st) !! t = Some a ->
    exists ad, live_admission (st_work st) a ad /\ t ∈ ad_handoffIds ad /\ truthy t = true /\ trim t = t.
  Proof.
    intros Hr Ht. destruct (reachable_work g st Hr) as [Hw _].
    destruct (proj1 (wv_tokens _ Hw _ _) Ht) as (ad & Ha & Hin). exists ad. split; [split; [done|]|].
    - destruct (ad_released ad) eqn:E; [|done].
      rewrite (wv_released _ Hw _ _ Ha E) in Hin. by apply elem_of_nil in Hin.
    - split; [done|]. by apply (wv_trimmed _ Hw t a).
  Qed.

Lemma consume_unknown t scope ids cb (w : WorkIndex) :
    wk_handoffs w !! trim t = None ->
    consumeSessionWorkAdmissionHandoff t scope ids cb w = Some (w, None, []) /\
    cancelSessionWorkAdmissionHandoff t w = (w, false).
  Proof.
    intros E. unfold consumeSessionWorkAdmissionHandoff, cancelSessionWorkAdmissionHandoff.
    rewrite E. by destruct (truthy _).
  Qed.

  (** A handoff token is single-use and is bound to its lease: in every
      reachable state a token names an unreleased admission.  Consuming it for
      identities that the admission covers (at least one) hands out that lease,
      installs the new interrupt callback, calls it at once when the admission
      was interrupted before, and uses the token up; for any other identities
      nothing happens.  A used token gives no lease and cannot be cancelled, and
      the release of the lease ends all its tokens. *)
Theorem handoff_consumed_once g st t a scope ids keys cb
      (Hr : lifecycle_reachable g st) (Ht : wk_handoffs (st_work st) !! t = Some a)
      (Hk : normalizeSessionIdentities scope ids = Some keys) :
    let w := st_work st in
    exists ad, live_admission w a ad /\
      (if bool_decide (keys <> [] /\ Forall (fun k => k ∈ ad_identities ad) keys) then
         exists w' ad', consumeSessionWorkAdmissionHandoff t scope ids cb w =
           Some (w', Some a, if ad_interrupted ad then option_list cb else []) /\
         live_admission w' a ad' /\ ad_interrupt ad' = cb /\ ad_identities ad' = ad_identities ad /\
         forall scope' ids' cb',
           consumeSessionWorkAdmissionHandoff t scope' ids' cb' w' = Some (w', None, []) /\
           cancelSessionWorkAdmissionHandoff t w' = (w', false)
       else consumeSessionWorkAdmissionHandoff t scope ids cb w = Some (w, None, [])) /\
      (forall u, wk_handoffs (release a w) !! u <> Some a).
  Proof.
    cbv zeta. destruct (token_live g st t a Hr Ht) as (ad & Had & Hin & Htr & Htrim).
    destruct (reachable_work g st Hr) as [Hw _]. exists ad. split; [done|]. split.
    - pose proof Had as [Ha Hrel].
      assert (bool_decide (keys = []) || existsb (fun k => negb (includes k (ad_identities ad))) keys =
        negb (bool_decide (keys <> [] /\ Forall (fun k => k ∈ ad_identities ad) keys))) as E.
      { pose proof (includes_false_iff keys (ad_identities ad)) as Hin'.
        destruct (existsb _ keys); case_bool_decide; case_bool_decide; simpl; try done; naive_solver. }
      revert E. destruct (bool_decide (keys <> [] /\ _)); simpl; intros E.
      2:{ unfold consumeSessionWorkAdmissionHandoff. by rewrite Htrim, Htr, Ht, Hk, Ha, E. }
      unfold consumeSessionWorkAdmissionHandoff at 1. rewrite Htrim, Htr, Ht, Hk, Ha, E. simpl.
      eexists _, _. split; [done|]. split; [split; [apply list_lookup_insert_eq; by eapply lookup_lt_Some|done]|].
      split; [done|]. split; [done|]. intros scope' ids' cb'. apply consume_unknown. simpl.
      by rewrite Htrim, lookup_delete_eq.
    - intros u E. destruct Had as [Ha Hrel].
      pose proof (release_inv a _ Hw) as Hw'.
      destruct (proj1 (wv_tokens _ Hw' _ _) E) as (ad' & Ha' & Hin').
      assert (is_released (release a (st_work st)) a = true) as Hr'.
      { rewrite (release_eq a (st_work st) ad (conj Ha Hrel)). unfold is_released. cbv zeta. simpl.
        rewrite list_lookup_insert_eq; [done|]. unfold clearSessionWorkAdmissionHandoffs.
        rewrite Ha. simpl. rewrite length_insert. by eapply lookup_lt_Some. }
      unfold is_released in Hr'. rewrite Ha' in Hr'.
      rewrite (wv_released _ Hw' _ _ Ha' Hr') in Hin'. by apply elem_of_nil in Hin'.
  Qed.

  (** An interrupt hits exactly the competing work: the unreleased admissions
      that share an identity with it and are not among the caller's own.  They are
      marked (an earlier mark stays) and nothing else changes; and whenever an
      interrupt has answered [true], every admission it hit has been released. *)
Theorem interrupt_hits_competitors g st ctx scope ids keys timed st' cbs
      (Hr : lifecycle_reachable g st) (Hk : normalizeSessionIdentities scope ids = Some keys)
      (Hs : interruptSessionWorkAdmissions ctx scope ids timed st = Some (st', cbs)) :
    exists it, st_interrupts st' = st_interrupts st ++ [it] /\ in_result it = None /\
      NoDup (in_targets it) /\
      (forall a, a ∈ in_targets it <->
         a ∉ cs_admissions (ctx_stores ctx) /\
         exists ad k, live_admission (st_work st) a ad /\ k ∈ ad_identities ad /\ k ∈ keys) /\
      (forall a, ad_interrupted <$> wk_admissions (st_work st') !! a =
         (fun ad => ad_interrupted ad || includes a (in_targets it)) <$> wk_admissions (st_work st) !! a) /\
      (forall events i it', let s := lifecycle_run events st' in
         st_interrupts s !! i = Some it' -> in_result it' = Some true ->
         forall a, a ∈ in_targets it' -> is_released (st_work s) a = true).
  Proof.
    destruct (reachable_work g st Hr) as [Hw _].
    assert (lifecycle_step (EvInterrupt ctx scope ids timed) st = Some st') as Hst by (simpl; by rewrite Hs).
    pose proof (lifecycle_next g _ _ _ Hr Hst) as Hr'.
    unfold interruptSessionWorkAdmissions in Hs. rewrite Hk in Hs. injection Hs as <- _.
    eexists. split; [done|]. split; [done|]. split; [apply NoDup_js_set|]. split_and!.
    - intros a. cbn [in_targets]. unfold interrupt_targets.
      rewrite elem_of_js_set, elem_of_filter_list, negb_true_iff.
      assert (includes a (cs_admissions (ctx_stores ctx)) = false <-> a ∉ cs_admissions (ctx_stores ctx)) as ->.
      { rewrite <- not_true_iff_false, includes_spec. done. }
      apply and_iff_compat_l. rewrite list_elem_of_In, in_flat_map. split.
      + intros (k & Hkin%list_elem_of_In & Ha%list_elem_of_In).
        apply (wv_index _ Hw) in Ha as (ad & ? & ?). eauto.
      + intros (ad & k & Had & Hka & Hkin). exists k. rewrite <- !list_elem_of_In.
        split; [done|]. apply (wv_index _ Hw). eauto.
    - intros a. cbn [st_work set_interrupts set_work wk_admissions in_targets].
      rewrite interrupt_one_lookup. by destruct (wk_admissions (st_work st) !! a).
    - intros events i it' s Hi Ht. pose proof (run_reachable g events _ Hr') as Hrs.
      destruct (reachable_work g _ Hrs) as [_ Hint].
      eapply Forall_lookup_1 in Hint; [|exact Hi]. by apply Hint.
  Qed.
End promises.

(** ** Witnesses *)


Lemma admission_index_exact_witness :
  let st := run_state (admit_work 0 "x") in
  isSessionWorkAdmissionActive (lit "s") [Some (lit "x")] st = Some true /\
  isSessionWorkAdmissionActive (lit "s") [Some (lit "y")] st = Some false /\
  exists l, NoDup l /\ getActiveSessionWorkAdmissionCount st = length l /\
    forall a, a ∈ l <-> exists ad, live_admission (st_work st) a ad /\ ad_identities ad <> [].
Proof.
  split; [by vm_compute|]. split; [by vm_compute|].
  apply (admission_index_exact initial_admission (run_state (admit_work 0 "x")) (run_state_reachable _)).
Defined.

Lemma handoff_consumed_once_witness :
  let st := run_state (admit_work 0 "x" ++ [EvHandoff 0 (lit "t")]) in
  let w := st_work st in
  wk_handoffs w !! lit "t" = Some 0 /\
  (exists w', consumeSessionWorkAdmissionHandoff (lit "t") (lit "s") [Some (lit "x")] None w =
     Some (w', Some 0, [])) /\
  forall u, wk_handoffs (release 0 w) !! u <> Some 0.
Proof.
  split; [by vm_compute|]. split; [eexists; by vm_compute|].
  destruct (handoff_consumed_once initial_admission (run_state (admit_work 0 "x" ++ [EvHandoff 0 (lit "t")]))
    (lit "t") 0 (lit "s") [Some (lit "x")] [run_key "x"] None (run_state_reachable _)) as (ad & _ & _ & Hu);
    [by vm_compute|by vm_compute|exact Hu].
Defined.

Lemma interrupt_hits_competitors_witness :
  let st := run_state (admit_work 0 "x") in
  exists st' cbs, interruptSessionWorkAdmissions outside (lit "s") [Some (lit "x")] true st = Some (st', cbs) /\
    cbs = [7] /\ exists it, st_interrupts st' = st_interrupts st ++ [it] /\ NoDup (in_targets it).
Proof.
  cbv zeta. destruct (interruptSessionWorkAdmissions outside (lit "s") [Some (lit "x")] true
    (run_state (admit_work 0 "x"))) as [[st' cbs]|] eqn:E; [|by vm_compute in E].
  exists st', cbs. split; [done|]. split; [vm_compute in E; by injection E as _ <-|].
  destruct (interrupt_hits_competitors initial_admission (run_state (admit_work 0 "x")) outside (lit "s")
    [Some (lit "x")] [run_key "x"] true st' cbs (run_state_reachable _)) as (it & Hi & _ & Hn & _);
    [by vm_compute|exact E|eauto].
Defined.
