(* ===== verification/SessionMutations.v ===== *)
(** * Active lifecycle mutations

    The counts of active mutations and the waiters for their end in every
    reachable state of [SessionLifecycle]: an identity is counted once for each
    mutation between its activation and its cleanup, and whoever waits for an
    identity is registered while a mutation is active on it and is woken by the
    last one. *)
From S2P Require Import Prelude JsString JsMap WorkAdmission StoreWriterQueue SessionIdentity SessionLifecycle.
#[local] Open Scope nat_scope.

(** ** Views of a call *)

(** The mutation of the call is active: activated and not cleaned up. *)
Definition in_run (pc : ProgramCounter) : bool :=
  match pc with
  | PExit SActivate x | PExitWait SActivate x => exit_ok x
  | PPrepare | PRun => true
  | PTry SRun _ | PQueued SRun _ _ | PExit SRun _ | PExitWait SRun _ => true
  | PTry (SCleanup _) _ | PQueued (SCleanup _) _ _ => true
  | _ => false
  end.

Definition idle_keys (pc : ProgramCounter) : list jstr :=
  match pc with PWaitIdle keys => keys | _ => [] end.

(** The keys a section still has to lock. *)
Definition rest_keys (pc : ProgramCounter) : list jstr :=
  match pc with PTry _ rest => rest | PQueued _ k rest => k :: rest | _ => [] end.

Definition is_done (pc : ProgramCounter) : bool := match pc with PDone => true | _ => false end.

Definition has_key (cs : list LifecycleCall) (k : jstr) (c : nat) : bool :=
  match cs !! c with Some call => bool_decide (k ∈ lc_identities call) | None => false end.

Definition has_kind (cs : list LifecycleCall) (k : jstr) (c : nat) : bool :=
  match cs !! c with
  | Some call => bool_decide (k ∈ lc_identities call) && bool_decide (call_kind call = Some Compaction)
  | None => false
  end.

Definition positive_count (n : nat) : option Z := if n =? 0 then None else Some (Z.of_nat n).

Definition count_runs (p : nat -> bool) (runs : list nat) : nat := length (List.filter p runs).

(** A call whose keys can be locked. *)
Definition call_wf (call : LifecycleCall) : Prop :=
  StronglySorted str_lt (lc_identities call) /\
  Forall (fun k => truthy k = true) (lc_identities call) /\
  Forall (fun k => k ∈ lc_identities call) (rest_keys (lc_pc call)).

(** The counts. *)
Record CountInv (m : MutationIndex) (cs : list LifecycleCall) : Prop := {
  ci_wf : forall c call, cs !! c = Some call -> call_wf call;
  ci_nodup : NoDup (mu_runs m);
  ci_runs : forall c, c ∈ mu_runs m <-> exists call, cs !! c = Some call /\ in_run (lc_pc call) = true;
  ci_active : forall k, mu_active m !! k = positive_count (count_runs (has_key cs k) (mu_runs m));
  ci_kinds : forall k, mu_kinds m !! k =
    (fun n => [(Compaction, n)]) <$> positive_count (count_runs (has_kind cs k) (mu_runs m));
}.

(** The waiters. *)
Record WaitInv (m : MutationIndex) (cs : list LifecycleCall) : Prop := {
  wi_waiting : forall k c, c ∈ default [] (mu_idleWaiters m !! k) ->
    (0 < active_count m k)%Z /\
    exists call, cs !! c = Some call /\ (k ∈ idle_keys (lc_pc call) \/ is_done (lc_pc call) = true);
  wi_waiter : forall k c call, cs !! c = Some call -> k ∈ idle_keys (lc_pc call) ->
    c ∈ default [] (mu_idleWaiters m !! k);
}.

Lemma NoDup_sorted (l : list jstr) : StronglySorted str_lt l -> NoDup l.
Proof.
  induction 1 as [|x l Hs IH Hx]; constructor; [|done]. intros Hin.
  apply (irreflexivity str_lt x). by apply (proj1 (Forall_forall _ _) Hx).
Qed.

Lemma default_positive n : default 0%Z (positive_count n) = Z.of_nat n.
Proof. unfold positive_count. destruct (n =? 0) eqn:E; [apply Nat.eqb_eq in E; by subst|done]. Qed.

Lemma active_count_runs m cs k :
  CountInv m cs -> active_count m k = Z.of_nat (count_runs (has_key cs k) (mu_runs m)).
Proof. intros Hm. unfold active_count. by rewrite (ci_active _ _ Hm), default_positive. Qed.

(** ** Calls change and the counts do not *)

Definition count_neutral (call call' : LifecycleCall) : Prop :=
  lc_identities call' = lc_identities call /\ call_kind call' = call_kind call /\
  in_run (lc_pc call') = in_run (lc_pc call) /\
  (forall k, k ∈ rest_keys (lc_pc call') -> k ∈ lc_identities call).

Definition wait_neutral (call call' : LifecycleCall) : Prop :=
  (forall k, k ∈ idle_keys (lc_pc call') -> k ∈ idle_keys (lc_pc call)) /\
  (forall k, k ∈ idle_keys (lc_pc call) -> k ∈ idle_keys (lc_pc call') \/ is_done (lc_pc call') = true) /\
  (is_done (lc_pc call) = true -> is_done (lc_pc call') = true).

(** The flags of a section are functions of the identities and kinds only. *)
Lemma flags_insert cs c call call' k d :
  cs !! c = Some call -> lc_identities call' = lc_identities call -> call_kind call' = call_kind call ->
  has_key (<[c := call']> cs) k d = has_key cs k d /\
  has_kind (<[c := call']> cs) k d = has_kind cs k d.
Proof.
  intros E Hid Hk. unfold has_key, has_kind. destruct (decide (d = c)) as [->|Hne].
  - rewrite list_lookup_insert_eq by (by eapply lookup_lt_Some). by rewrite E, Hid, Hk.
  - by rewrite list_lookup_insert_ne.
Qed.

Lemma call_wf_neutral call call' : call_wf call -> count_neutral call call' -> call_wf call'.
Proof.
  intros (Hs & Ht & _) (Hid & _ & _ & Hrest). unfold call_wf. rewrite Hid.
  split; [done|]. split; [done|]. apply Forall_forall. auto.
Qed.

Lemma CountInv_neutral m cs c call call' :
  CountInv m cs -> cs !! c = Some call -> count_neutral call call' -> CountInv m (<[c := call']> cs).
Proof.
  intros Hm E Hn. assert (Hlt : c < length cs) by (by eapply lookup_lt_Some).
  destruct Hn as (Hid & Hk & Hr & Hrest) eqn:En. clear En.
  split.
  - intros d x [(<- & <- & _)|[_ Ex]]%list_lookup_insert_Some; [|by apply (ci_wf _ _ Hm d)].
    eapply call_wf_neutral; [by apply (ci_wf _ _ Hm c)|done].
  - apply Hm.
  - intros d. rewrite (ci_runs _ _ Hm). destruct (decide (d = c)) as [->|Hne].
    + rewrite list_lookup_insert_eq by done. rewrite E.
      split; intros (x & [= <-] & Hx); eexists; (split; [done|congruence]).
    + by rewrite list_lookup_insert_ne.
  - intros k. rewrite (ci_active _ _ Hm). unfold count_runs. do 2 f_equal.
    apply filter_ext_in. intros d _. symmetry. by apply (flags_insert cs c call call' k d).
  - intros k. rewrite (ci_kinds _ _ Hm). unfold count_runs. do 3 f_equal.
    apply filter_ext_in. intros d _. symmetry. by apply (flags_insert cs c call call' k d).
Qed.

Lemma WaitInv_neutral m cs c call call' :
  WaitInv m cs -> cs !! c = Some call -> wait_neutral call call' -> WaitInv m (<[c := call']> cs).
Proof.
  intros [Hw Hk] E (H1 & H2 & H3). assert (Hlt : c < length cs) by (by eapply lookup_lt_Some).
  split.
  - intros k d Hin. destruct (Hw k d Hin) as (Hp & x & Ex & Hor). split; [done|].
    destruct (decide (d = c)) as [->|Hne].
    + rewrite list_lookup_insert_eq by done. exists call'. split; [done|]. simplify_eq.
      destruct Hor as [Hor|Hor]; auto.
    + rewrite list_lookup_insert_ne by done. eauto.
  - intros k d x [(<- & <- & _)|[_ Ex]]%list_lookup_insert_Some Hin; [|by eapply Hk].
    eapply Hk; eauto.
Qed.

(** A new call that has not done anything. *)
Lemma CountInv_new m cs call :
  CountInv m cs -> call_wf call -> in_run (lc_pc call) = false -> CountInv m (cs ++ [call]).
Proof.
  intros Hm Hwf Hr.
  assert (Hold : forall c, c ∈ mu_runs m -> c < length cs).
  { intros c (x & E & _)%(ci_runs _ _ Hm). by eapply lookup_lt_Some. }
  split; [|apply Hm| | |].
  - intros c x [[_ E]|[_ <-]]%lookup_snoc_Some; [by apply (ci_wf _ _ Hm c)|done].
  - intros c. rewrite (ci_runs _ _ Hm). split.
    + intros (x & E & ?). exists x. split; [by apply lookup_app_l_Some|done].
    + intros (x & [[_ E]|[-> <-]]%lookup_snoc_Some & Hx); [eauto|congruence].
  - intros k. rewrite (ci_active _ _ Hm). unfold count_runs. do 2 f_equal.
    apply filter_ext_in. intros c Hc. unfold has_key. by rewrite lookup_app_l by auto.
  - intros k. rewrite (ci_kinds _ _ Hm). unfold count_runs. do 3 f_equal.
    apply filter_ext_in. intros c Hc. unfold has_kind. by rewrite lookup_app_l by auto.
Qed.

Lemma WaitInv_new m cs call :
  WaitInv m cs -> idle_keys (lc_pc call) = [] -> WaitInv m (cs ++ [call]).
Proof.
  intros [Hw Hk] Hn. split.
  - intros k c Hin. destruct (Hw k c Hin) as (? & x & E & ?). split; [done|].
    exists x. split; [by apply lookup_app_l_Some|done].
  - intros k c x [[_ E]|[-> <-]]%lookup_snoc_Some Hin; [by apply (Hk k c x)|].
    rewrite Hn in Hin. by apply elem_of_nil in Hin.
Qed.

(** ** Waiting *)

Lemma active_identities_spec m ids k :
  k ∈ active_identities m ids <-> k ∈ ids /\ (0 < active_count m k)%Z.
Proof.
  unfold active_identities. rewrite list_elem_of_In, List.filter_In, <- list_elem_of_In, Z.ltb_lt. done.
Qed.

Lemma CountInv_ext m m' cs :
  CountInv m cs -> mu_active m' = mu_active m -> mu_runs m' = mu_runs m -> mu_kinds m' = mu_kinds m ->
  CountInv m' cs.
Proof. intros [? ? ? ? ?] E1 E2 E3. split; rewrite ?E1, ?E2, ?E3; done. Qed.

(** The call stops and joins the waiters of the active ones of its keys. *)
Lemma WaitInv_wait m cs c call keys :
  WaitInv m cs -> cs !! c = Some call -> idle_keys (lc_pc call) = [] -> is_done (lc_pc call) = false ->
  keys = active_identities m (lc_identities call) ->
  WaitInv {| mu_active := mu_active m; mu_runs := mu_runs m; mu_kinds := mu_kinds m;
             mu_idleWaiters := fold_left (add_waiter c) keys (mu_idleWaiters m) |}
    (<[c := with_pc (PWaitIdle keys) call]> cs).
Proof.
  intros [Hw Hk] E Hi Hd Hkeys. assert (Hlt : c < length cs) by (by eapply lookup_lt_Some).
  assert (Hl : forall k d, d ∈ default [] (fold_left (add_waiter c) keys (mu_idleWaiters m) !! k) <->
    (d = c /\ k ∈ keys) \/ d ∈ default [] (mu_idleWaiters m !! k)).
  { intros k d. replace (fold_left (add_waiter c)) with (fold_left (multi_add (K:=jstr) c)) by done.
    rewrite multi_add_lookup. case_bool_decide; simpl; [rewrite elem_of_js_add|]; tauto. }
  split; simpl.
  - intros k d [[-> Hin]|Hin]%Hl.
    + rewrite Hkeys in Hin. apply active_identities_spec in Hin as [Hin Hp]. split; [done|].
      rewrite list_lookup_insert_eq by done. eexists. split; [done|]. left. simpl.
      rewrite Hkeys. by apply active_identities_spec.
    + destruct (Hw k d Hin) as (Hp & x & Ex & Hor). split; [done|].
      destruct (decide (d = c)) as [->|Hne]; [|rewrite list_lookup_insert_ne by done; eauto].
      rewrite list_lookup_insert_eq by done. simplify_eq. rewrite Hi, Hd in Hor.
      destruct Hor as [Hor|Hor]; [by apply elem_of_nil in Hor|done].
  - intros k d x [(<- & <- & _)|[_ Ex]]%list_lookup_insert_Some Hin; apply Hl; [by left|].
    right. by eapply Hk.
Qed.

(** ** Activation *)

Lemma activate_fold kind (ids : list jstr) m :
  NoDup ids ->
  let m' := fold_left (activate_identity kind) ids m in
  mu_runs m' = mu_runs m /\ mu_idleWaiters m' = mu_idleWaiters m /\
  (forall k, mu_active m' !! k =
     if bool_decide (k ∈ ids) then Some (active_count m k + 1)%Z else mu_active m !! k) /\
  (forall k, mu_kinds m' !! k =
     match kind with
     | Some kd => if bool_decide (k ∈ ids)
         then let table := default [] (mu_kinds m !! k) in
              Some (jm_set kd (default 0 (jm_get kd table) + 1)%Z table)
         else mu_kinds m !! k
     | None => mu_kinds m !! k
     end).
Proof.
  revert m. induction ids as [|x ids IH]; intros m Hnd; cbn [fold_left].
  { split_and!; [done..|]. intros k. by destruct kind. }
  apply NoDup_cons in Hnd as [Hx Hnd].
  destruct (IH (activate_identity kind m x) Hnd) as (-> & -> & Ha & Hk). clear IH.
  split_and!; [done..| |]; intros k; rewrite ?Ha, ?Hk; clear Ha Hk; cbn [activate_identity mu_active mu_kinds];
    unfold active_count; cbn [activate_identity mu_active].
  - destruct (decide (k = x)) as [->|Hne].
    + rewrite (bool_decide_eq_false_2 (x ∈ ids)), (bool_decide_eq_true_2 (x ∈ x :: ids)) by set_solver.
      by rewrite lookup_insert_eq.
    + rewrite !lookup_insert_ne by done. by rewrite (bool_decide_ext (k ∈ x :: ids) (k ∈ ids)) by set_solver.
  - destruct kind as [kd|]; [|done]. destruct (decide (k = x)) as [->|Hne].
    + rewrite (bool_decide_eq_false_2 (x ∈ ids)), (bool_decide_eq_true_2 (x ∈ x :: ids)) by set_solver.
      by rewrite lookup_insert_eq.
    + rewrite !lookup_insert_ne by done. by rewrite (bool_decide_ext (k ∈ x :: ids) (k ∈ ids)) by set_solver.
Qed.

Lemma count_runs_snoc p runs c :
  count_runs p (runs ++ [c]) = count_runs p runs + (if p c then 1 else 0).
Proof. unfold count_runs. rewrite List.filter_app, length_app. simpl. by destruct (p c). Qed.

Lemma positive_count_S n : positive_count (n + 1) = Some (default 0 (positive_count n) + 1)%Z.
Proof.
  rewrite default_positive. unfold positive_count.
  destruct (n + 1 =? 0) eqn:E; [apply Nat.eqb_eq in E; lia|]. f_equal. lia.
Qed.

Lemma CountInv_activate m cs c call :
  CountInv m cs -> cs !! c = Some call -> in_run (lc_pc call) = false ->
  CountInv (activate c (call_kind call) (lc_identities call) m)
    (<[c := with_activated (PExit SActivate XOk) call]> cs).
Proof.
  intros Hm E Hr. destruct (ci_wf _ _ Hm _ _ E) as (Hs & Ht & _).
  assert (Hlt : c < length cs) by (by eapply lookup_lt_Some).
  assert (Hc : c ∉ mu_runs m) by (rewrite (ci_runs _ _ Hm); intros (x & ? & ?); congruence).
  unfold activate. pose proof (NoDup_sorted _ Hs) as Hnd.
  destruct (activate_fold (call_kind call) (lc_identities call)
    {| mu_active := mu_active m; mu_runs := js_add c (mu_runs m); mu_kinds := mu_kinds m;
       mu_idleWaiters := mu_idleWaiters m |} Hnd) as (Hruns & _ & Ha & Hk).
  assert (js_add c (mu_runs m) = mu_runs m ++ [c]) as Hadd by (unfold js_add; by rewrite decide_False).
  pose proof (eq_trans Hruns Hadd) as Hruns'. clear Hruns. rename Hruns' into Hruns. cbv zeta in *.
  set (call' := with_activated (PExit SActivate XOk) call).
  assert (Hfl : forall k d, has_key (<[c := call']> cs) k d = has_key cs k d /\
    has_kind (<[c := call']> cs) k d = has_kind cs k d)
    by (intros k d; by apply (flags_insert cs c call)).
  assert (Hck : forall k, has_key cs k c = bool_decide (k ∈ lc_identities call)) by (intros k; unfold has_key; by rewrite E).
  assert (Hckd : forall k, has_kind cs k c = bool_decide (k ∈ lc_identities call) &&
    bool_decide (call_kind call = Some Compaction)) by (intros k; unfold has_kind; by rewrite E).
  split.
  - intros d x [(<- & <- & _)|[_ Ex]]%list_lookup_insert_Some; [|by apply (ci_wf _ _ Hm d)].
    unfold call_wf. simpl. auto.
  - rewrite Hruns. apply NoDup_app. split; [apply Hm|]. split; [set_solver|apply NoDup_singleton].
  - intros d. rewrite Hruns, elem_of_app, list_elem_of_singleton, (ci_runs _ _ Hm).
    destruct (decide (d = c)) as [->|Hne].
    + rewrite list_lookup_insert_eq by done. split; [intros _; by eexists|by right].
    + rewrite list_lookup_insert_ne by done. naive_solver.
  - intros k. rewrite Ha, Hruns. unfold count_runs at 1.
    rewrite (filter_ext_in _ (has_key cs k)) by (intros d _; apply Hfl).
    change (length (List.filter (has_key cs k) (mu_runs m ++ [c]))) with
      (count_runs (has_key cs k) (mu_runs m ++ [c])). rewrite count_runs_snoc, Hck.
    unfold active_count. simpl. rewrite (ci_active _ _ Hm).
    destruct (decide (k ∈ lc_identities call)).
    + rewrite !bool_decide_eq_true_2 by done. by rewrite positive_count_S.
    + rewrite !bool_decide_eq_false_2 by done. by rewrite Nat.add_0_r.
  - intros k. rewrite Hk, Hruns. unfold count_runs at 1.
    rewrite (filter_ext_in _ (has_kind cs k)) by (intros d _; apply Hfl).
    change (length (List.filter (has_kind cs k) (mu_runs m ++ [c]))) with
      (count_runs (has_kind cs k) (mu_runs m ++ [c])). rewrite count_runs_snoc, Hckd. simpl.
    destruct (call_kind call) as [[]|] eqn:Ekd.
    + rewrite (bool_decide_eq_true_2 (Some Compaction = Some Compaction)) by done.
      rewrite andb_true_r, (ci_kinds _ _ Hm). destruct (decide (k ∈ lc_identities call)).
      * rewrite !bool_decide_eq_true_2, positive_count_S by done. by destruct (positive_count _).
      * rewrite !bool_decide_eq_false_2 by done. by rewrite Nat.add_0_r.
    + rewrite andb_false_r, Nat.add_0_r. apply (ci_kinds _ _ Hm).
Qed.

(** ** Cleanup *)

Definition remaining m (k : jstr) : Z := (default 1 (mu_active m !! k) - 1)%Z.

Lemma drop_kind_ne kind k k' kinds : k' <> k -> drop_kind kind k kinds !! k' = kinds !! k'.
Proof.
  intros Hne. destruct kind as [kd|]; [|done]. simpl. destruct (kinds !! k); [|done].
  case_match; [by rewrite lookup_insert_ne|].
  case_bool_decide; [by rewrite lookup_delete_ne|by rewrite lookup_insert_ne].
Qed.

Lemma drop_kind_local kind k kinds kinds' :
  kinds !! k = kinds' !! k -> drop_kind kind k kinds !! k = drop_kind kind k kinds' !! k.
Proof.
  intros E. destruct kind as [kd|]; [|done]. simpl. rewrite <- E.
  destruct (kinds !! k) eqn:Ek; [|congruence].
  case_match; [by rewrite !lookup_insert_eq|].
  case_bool_decide; [by rewrite !lookup_delete_eq|by rewrite !lookup_insert_eq].
Qed.

(** One identity. *)
Lemma deactivate_one kind m acc (x k : jstr) (c : nat) :
  let r := deactivate_identity kind (m, acc) x in
  mu_runs r.1 = mu_runs m /\
  mu_active r.1 !! k =
    (if decide (k = x) then (if (0 <? remaining m k)%Z then Some (remaining m k) else None)
     else mu_active m !! k) /\
  mu_kinds r.1 !! k = (if decide (k = x) then drop_kind kind k (mu_kinds m) !! k else mu_kinds m !! k) /\
  mu_idleWaiters r.1 !! k =
    (if decide (k = x) then (if (0 <? remaining m k)%Z then mu_idleWaiters m !! k else None)
     else mu_idleWaiters m !! k) /\
  ((k, c) ∈ r.2 <-> (k, c) ∈ acc \/
     (k = x /\ (0 <? remaining m k)%Z = false /\ c ∈ default [] (mu_idleWaiters m !! k))).
Proof.
  unfold deactivate_identity. fold (remaining m x).
  destruct (0 <? remaining m x)%Z eqn:E; simpl; case_decide as Ek; try subst k;
    rewrite ?lookup_insert_eq, ?lookup_delete_eq, ?E; split_and!; try done;
    rewrite ?lookup_insert_ne, ?lookup_delete_ne by done; try done;
    try (by apply drop_kind_ne); try naive_solver.
  - rewrite elem_of_app, list_elem_of_fmap. naive_solver.
  - rewrite elem_of_app, list_elem_of_fmap. naive_solver.
Qed.

Lemma deactivate_fold kind (ids : list jstr) m acc :
  NoDup ids ->
  let r := fold_left (deactivate_identity kind) ids (m, acc) in
  mu_runs r.1 = mu_runs m /\
  (forall k, mu_active r.1 !! k =
     if bool_decide (k ∈ ids) then (if (0 <? remaining m k)%Z then Some (remaining m k) else None)
     else mu_active m !! k) /\
  (forall k, mu_kinds r.1 !! k =
     if bool_decide (k ∈ ids) then drop_kind kind k (mu_kinds m) !! k else mu_kinds m !! k) /\
  (forall k, mu_idleWaiters r.1 !! k =
     if bool_decide (k ∈ ids) then (if (0 <? remaining m k)%Z then mu_idleWaiters m !! k else None)
     else mu_idleWaiters m !! k) /\
  (forall k c, (k, c) ∈ r.2 <-> (k, c) ∈ acc \/
     (k ∈ ids /\ (0 <? remaining m k)%Z = false /\ c ∈ default [] (mu_idleWaiters m !! k))).
Proof.
  revert m acc. induction ids as [|x ids IH]; intros m acc Hnd; cbn [fold_left].
  { split_and!; try done. intros k c. split; [by left|]. intros [?|[?%elem_of_nil _]]; done. }
  apply NoDup_cons in Hnd as [Hx Hnd].
  destruct (deactivate_identity kind (m, acc) x) as [m1 acc1] eqn:E1.
  assert (H1 : forall k c, _) by (intros k c; exact (deactivate_one kind m acc x k c)).
  rewrite E1 in H1. simpl in H1. destruct (IH m1 acc1 Hnd) as (-> & Ha & Hk & Hw & Hr). clear IH.
  split; [by destruct (H1 x 0)|].
  assert (Hrem : forall k, k <> x -> remaining m1 k = remaining m k).
  { intros k Hne. destruct (H1 k 0) as (_ & Hact & _). unfold remaining. rewrite Hact.
    by rewrite decide_False. }
  assert (Hcons : forall k, bool_decide (k ∈ x :: ids) = if decide (k = x) then true else bool_decide (k ∈ ids)).
  { intros k. case_decide as Ek; [apply bool_decide_eq_true_2; set_solver|].
    apply bool_decide_ext. set_solver. }
  split_and!.
  - intros k. destruct (H1 k 0) as (_ & Hact & _). rewrite Ha, Hact, Hcons. case_decide as Ek.
    + subst. by rewrite bool_decide_eq_false_2.
    + by rewrite Hrem.
  - intros k. destruct (H1 k 0) as (_ & _ & Hkd & _). rewrite Hk, Hcons. case_decide as Ek.
    + subst. by rewrite bool_decide_eq_false_2.
    + case_bool_decide; [|done]. by apply drop_kind_local.
  - intros k. destruct (H1 k 0) as (_ & _ & _ & Hwt & _). rewrite Hw, Hwt, Hcons. case_decide as Ek.
    + subst. by rewrite bool_decide_eq_false_2.
    + by rewrite Hrem.
  - intros k c. destruct (H1 k c) as (_ & _ & _ & Hwt & Hres). rewrite Hr, Hres, elem_of_cons.
    destruct (decide (k = x)) as [->|Ek].
    + tauto.
    + rewrite Hrem by done. rewrite Hwt. tauto.
Qed.

(** Waking: the keys that were resolved are dropped. *)
Definition woken (resolved : list (jstr * nat)) (c : nat) (call : LifecycleCall) : LifecycleCall :=
  match lc_pc call with
  | PWaitIdle keys =>
      with_pc (PWaitIdle (List.filter (fun x => negb (bool_decide ((x, c) ∈ resolved))) keys)) call
  | _ => call
  end.

Lemma woken_nil c call : woken [] c call = call.
Proof.
  unfold woken. destruct call as [? ? ? ? ? ? ? ? ? pc ?]. simpl. destruct pc; try done.
  unfold with_pc. simpl. by rewrite filter_all.
Qed.

Lemma wake_lookup resolved cs c :
  fold_left wake resolved cs !! c = woken resolved c <$> cs !! c.
Proof.
  revert cs. induction resolved as [|[k d] res IH]; intros cs; cbn [fold_left].
  { destruct (cs !! c); simpl; [by rewrite woken_nil|done]. }
  rewrite IH. clear IH. unfold wake.
  assert (Hsame : forall call, (forall keys, lc_pc call <> PWaitIdle keys) ->
    forall r, woken r c call = call).
  { intros call Hpc r. unfold woken. destruct (lc_pc call) as [| | |keys| | | | | | | | | |]; try done.
    by destruct (Hpc keys). }
  destruct (decide (c = d)) as [->|Hne].
  - destruct (cs !! d) as [call|] eqn:E; [|by rewrite E].
    destruct (lc_pc call) as [| | |keys| | | | | | | | | |] eqn:Epc;
      try (rewrite E; simpl; rewrite !Hsame; [done|intros ?; congruence..]).
    rewrite list_lookup_insert_eq by (by eapply lookup_lt_Some). simpl. f_equal.
    unfold woken. rewrite Epc. simpl. unfold with_pc. simpl. do 2 f_equal.
    rewrite filter_filter. apply filter_ext_in. intros y _.
    rewrite (bool_decide_ext ((y, d) ∈ (k, d) :: res) (y = k \/ (y, d) ∈ res)) by set_solver.
    destruct (decide (y = k)) as [->|Hy].
    + rewrite (bool_decide_eq_true_2 (k = k)), (bool_decide_eq_true_2 (k = k \/ _)) by auto. done.
    + rewrite (bool_decide_eq_false_2 (y = k)) by done. simpl.
      f_equal. apply bool_decide_ext. tauto.
  - assert (forall call, woken ((k, d) :: res) c call = woken res c call) as Hw.
    { intros call. unfold woken. destruct (lc_pc call); try done. do 2 f_equal.
      apply filter_ext_in. intros y _. f_equal. apply bool_decide_ext. set_solver. }
    assert (forall call', <[d := call']> cs !! c = cs !! c) as Hd by (intros; by rewrite list_lookup_insert_ne).
    destruct (cs !! d) as [call|]; [destruct (lc_pc call)|]; rewrite ?Hd;
      by destruct (cs !! c); simpl; rewrite ?Hw.
Qed.

Lemma CountInv_wake m resolved cs : CountInv m cs -> CountInv m (fold_left wake resolved cs).
Proof.
  intros Hm. apply (fold_left_inv (CountInv m)); [done|]. clear cs Hm.
  intros cs [k d] Hm. unfold wake. destruct (cs !! d) as [call|] eqn:E; [|done].
  destruct (lc_pc call) eqn:Epc; try done. apply (CountInv_neutral m cs d call); [done..|].
  unfold count_neutral. simpl. rewrite Epc. split_and!; try done. by intros y ?%elem_of_nil.
Qed.

Lemma count_runs_remove p runs c :
  NoDup runs -> c ∈ runs ->
  count_runs p runs = count_runs p (List.filter (fun r => negb (r =? c)) runs) + (if p c then 1 else 0).
Proof.
  unfold count_runs. induction 1 as [|x l Hx Hl IH]; [by intros ?%elem_of_nil|].
  intros [->|Hin]%elem_of_cons; simpl.
  - rewrite Nat.eqb_refl. simpl. rewrite (filter_all (fun r => negb (r =? x))).
    + destruct (p x); simpl; lia.
    + intros y Hy. apply negb_true_iff, Nat.eqb_neq. by intros ->.
  - destruct (Nat.eqb_spec x c) as [->|Hne]; [done|]. simpl.
    destruct (p x); simpl; rewrite IH by done; lia.
Qed.

Lemma drop_count n table :
  table = (fun n => [(Compaction, n)]) <$> positive_count (n + 1) ->
  forall k (kinds : gmap jstr (list (SessionLifecycleMutationKind * Z))),
  kinds !! k = table ->
  drop_kind (Some Compaction) k kinds !! k = (fun n => [(Compaction, n)]) <$> positive_count n.
Proof.
  intros -> k kinds E. rewrite positive_count_S, default_positive in E. simpl in E. simpl. rewrite E.
  simpl. replace (Z.of_nat n + 1 - 1)%Z with (Z.of_nat n) by lia.
  unfold positive_count. destruct n as [|n]; simpl.
  - by rewrite lookup_delete_eq.
  - by rewrite lookup_insert_eq.
Qed.

Lemma CountInv_deactivate m cs c call x :
  CountInv m cs -> cs !! c = Some call -> in_run (lc_pc call) = true ->
  CountInv (deactivate c (call_kind call) (lc_identities call) m).1
    (<[c := with_pc (PExit (SCleanup x) x) call]> cs).
Proof.
  intros Hm E Hr. destruct (ci_wf _ _ Hm _ _ E) as (Hs & Ht & _).
  assert (Hlt : c < length cs) by (by eapply lookup_lt_Some).
  assert (Hc : c ∈ mu_runs m) by (rewrite (ci_runs _ _ Hm); eauto).
  pose proof (NoDup_sorted _ Hs) as Hnd. unfold deactivate.
  destruct (deactivate_fold (call_kind call) (lc_identities call) m [] Hnd) as (Hruns & Ha & Hk & _ & _).
  destruct (fold_left _ _ _) as [m' resolved]. simpl in *.
  set (call' := with_pc (PExit (SCleanup x) x) call).
  assert (Hfl : forall k d, has_key (<[c := call']> cs) k d = has_key cs k d /\
    has_kind (<[c := call']> cs) k d = has_kind cs k d) by (intros k d; by apply (flags_insert cs c call)).
  set (runs' := List.filter (fun r => negb (r =? c)) (mu_runs m)).
  assert (Hcount : forall p, count_runs p (mu_runs m) = count_runs p runs' + (if p c then 1 else 0))
    by (intros p; apply count_runs_remove; [apply Hm|done]).
  split; cbn [drop_run mu_active mu_runs mu_kinds]; rewrite ?Hruns; fold runs'.
  - intros d y [(<- & <- & _)|[_ Ex]]%list_lookup_insert_Some; [|by apply (ci_wf _ _ Hm d)].
    unfold call_wf. simpl. auto.
  - unfold runs'. pose proof (ci_nodup _ _ Hm) as Hn. clear -Hn.
    induction Hn as [|y l Hy Hl IH]; simpl; [constructor|]. destruct (negb _); [|done].
    constructor; [|done]. rewrite list_elem_of_In, List.filter_In, <- list_elem_of_In. tauto.
  - intros d. unfold runs'.
    rewrite list_elem_of_In, List.filter_In, <- list_elem_of_In, negb_true_iff, Nat.eqb_neq, (ci_runs _ _ Hm).
    destruct (decide (d = c)) as [->|Hne].
    + rewrite list_lookup_insert_eq by done. split; [by intros [_ ?]|]. by intros (y & [= <-] & ?).
    + rewrite list_lookup_insert_ne by done. naive_solver.
  - intros k. rewrite Ha. unfold count_runs.
    rewrite (filter_ext_in _ (has_key cs k) runs') by (intros d _; apply Hfl).
    fold (count_runs (has_key cs k) runs').
    assert (Hck : has_key cs k c = bool_decide (k ∈ lc_identities call)) by (unfold has_key; by rewrite E).
    unfold remaining. rewrite (ci_active _ _ Hm), Hcount, Hck.
    destruct (decide (k ∈ lc_identities call)).
    + rewrite !bool_decide_eq_true_2 by done. rewrite positive_count_S, default_positive. simpl.
      replace (Z.of_nat (count_runs (has_key cs k) runs') + 1 - 1)%Z
        with (Z.of_nat (count_runs (has_key cs k) runs')) by lia.
      unfold positive_count. by destruct (count_runs _ _).
    + rewrite !bool_decide_eq_false_2 by done. by rewrite Nat.add_0_r.
  - intros k. rewrite Hk. unfold count_runs.
    rewrite (filter_ext_in _ (has_kind cs k) runs') by (intros d _; apply Hfl).
    fold (count_runs (has_kind cs k) runs').
    assert (Hck : has_kind cs k c = bool_decide (k ∈ lc_identities call) &&
      bool_decide (call_kind call = Some Compaction)) by (unfold has_kind; by rewrite E).
    pose proof (ci_kinds _ _ Hm k) as Hkk. rewrite Hcount, Hck in Hkk.
    destruct (decide (k ∈ lc_identities call)).
    + rewrite bool_decide_eq_true_2 by done. rewrite bool_decide_eq_true_2 in Hkk by done.
      destruct (call_kind call) as [[]|]; simpl in Hkk.
      * by eapply drop_count; [|exact Hkk].
      * rewrite Nat.add_0_r in Hkk. done.
    + rewrite bool_decide_eq_false_2 by done. rewrite bool_decide_eq_false_2 in Hkk by done.
      simpl in Hkk. by rewrite Nat.add_0_r in Hkk.
Qed.

Lemma woken_pc resolved c call k :
  k ∈ idle_keys (lc_pc (woken resolved c call)) <->
  k ∈ idle_keys (lc_pc call) /\ (k, c) ∉ resolved.
Proof.
  unfold woken. destruct (lc_pc call) eqn:E; simpl; rewrite ?E; simpl;
    try (split; [by intros ?%elem_of_nil|by intros [?%elem_of_nil _]]).
  rewrite list_elem_of_In, List.filter_In, <- list_elem_of_In, negb_true_iff, bool_decide_eq_false.
  tauto.
Qed.

Lemma woken_done resolved c call : is_done (lc_pc (woken resolved c call)) = is_done (lc_pc call).
Proof. unfold woken. destruct (lc_pc call) eqn:E; rewrite ?E; done. Qed.

Lemma WaitInv_deactivate m cs c call call' kind ids :
  WaitInv m cs -> NoDup ids -> cs !! c = Some call -> (forall keys, lc_pc call <> PWaitIdle keys) ->
  is_done (lc_pc call) = false -> idle_keys (lc_pc call') = [] ->
  let r := deactivate c kind ids m in
  WaitInv r.1 (<[c := call']> (fold_left wake r.2 cs)).
Proof.
  intros [Hw Hk] Hnd E Hpc Hdone Hidle'. unfold deactivate.
  assert (Hidle : idle_keys (lc_pc call) = [])
    by (destruct (lc_pc call) as [| | |keys| | | | | | | | | |] eqn:Epc; try done; by destruct (Hpc keys)).
  destruct (deactivate_fold kind ids m [] Hnd) as (_ & Ha & _ & Hwt & Hres).
  destruct (fold_left _ ids _) as [m' resolved]. simpl in *.
  assert (Hres' : forall k d, (k, d) ∈ resolved <->
    k ∈ ids /\ (0 <? remaining m k)%Z = false /\ d ∈ default [] (mu_idleWaiters m !! k)).
  { intros k d. rewrite Hres. split; [by intros [?%elem_of_nil|?]|by right]. }
  assert (Hcc : fold_left wake resolved cs !! c = Some call).
  { rewrite wake_lookup, E. simpl. unfold woken.
    destruct (lc_pc call) as [| | |keys| | | | | | | | | |]; try done. by destruct (Hpc keys). }
  assert (Hlt : c < length (fold_left wake resolved cs)) by (by eapply lookup_lt_Some).
  split; cbn [drop_run mu_idleWaiters].
  - intros k d Hin. rewrite Hwt in Hin.
    assert (d ∈ default [] (mu_idleWaiters m !! k) /\ ~ (k ∈ ids /\ (0 <? remaining m k)%Z = false))
      as [Hin' Hn].
    { case_bool_decide as Ei; [|tauto]. destruct (0 <? remaining m k)%Z eqn:Er; [split; [done|]; by intros [_ ?]|].
      by apply elem_of_nil in Hin. }
    destruct (Hw k d Hin') as (Hp & x & Ex & Hor). split.
    + unfold active_count. cbn [drop_run mu_active]. rewrite Ha. case_bool_decide as Ei; [|done].
      destruct (0 <? remaining m k)%Z eqn:Er; simpl; [by apply Z.ltb_lt|tauto].
    + destruct (decide (d = c)) as [->|Hne].
      * simplify_eq. rewrite Hidle, Hdone in Hor. destruct Hor as [Hor|Hor]; [by apply elem_of_nil in Hor|done].
      * rewrite list_lookup_insert_ne by done. rewrite wake_lookup, Ex. simpl. eexists. split; [done|].
        rewrite woken_done. destruct Hor as [Hor|Hor]; [left|by right].
        apply woken_pc. split; [done|]. rewrite Hres'. tauto.
  - intros k d x [(<- & <- & _)|[Hne Ex]]%list_lookup_insert_Some Hin.
    { rewrite Hidle' in Hin. by apply elem_of_nil in Hin. }
    rewrite wake_lookup in Ex. destruct (cs !! d) as [y|] eqn:Ey; [|done]. injection Ex as <-.
    apply woken_pc in Hin as [Hin Hnr]. pose proof (Hk k d y Ey Hin) as Hd.
    rewrite Hwt. case_bool_decide as Ei; [|done].
    destruct (0 <? remaining m k)%Z eqn:Er; [done|]. exfalso. apply Hnr, Hres'. auto.
Qed.

Lemma WaitInv_activate m cs c call :
  WaitInv m cs -> NoDup (lc_identities call) -> cs !! c = Some call ->
  idle_keys (lc_pc call) = [] -> is_done (lc_pc call) = false ->
  WaitInv (activate c (call_kind call) (lc_identities call) m)
    (<[c := with_activated (PExit SActivate XOk) call]> cs).
Proof.
  intros Hw Hnd E Hi Hd. unfold activate.
  destruct (activate_fold (call_kind call) (lc_identities call)
    {| mu_active := mu_active m; mu_runs := js_add c (mu_runs m); mu_kinds := mu_kinds m;
       mu_idleWaiters := mu_idleWaiters m |} Hnd) as (_ & Hwt & Ha & _).
  assert (WaitInv m (<[c := with_activated (PExit SActivate XOk) call]> cs)) as [Hw1 Hw2].
  { apply (WaitInv_neutral m cs c call); [done..|]. unfold wait_neutral. rewrite Hi, Hd. simpl.
    split_and!; try done; by intros k ?%elem_of_nil. }
  split.
  - intros k d Hin. rewrite Hwt in Hin. destruct (Hw1 k d Hin) as [Hp Hx]. split; [|done].
    unfold active_count at 1. rewrite Ha. unfold active_count in *. simpl.
    case_bool_decide; simpl; [lia|done].
  - intros k d x Ex Hin. rewrite Hwt. by eapply Hw2.
Qed.

(** ** Every event keeps both *)

Section reachable.
  Context {A : Type} `{AdmissionInterface A}.
  Implicit Types (st : LifecycleState A).

Definition MutInv st : Prop :=
    CountInv (st_mutations st) (st_calls st) /\ WaitInv (st_mutations st) (st_calls st).

Lemma MutInv_same st st' :
    MutInv st -> st_mutations st' = st_mutations st -> st_calls st' = st_calls st -> MutInv st'.
  Proof. unfold MutInv. by intros ? -> ->. Qed.

Lemma MutInv_set_call st c call call' :
    MutInv st -> st_calls st !! c = Some call -> count_neutral call call' -> wait_neutral call call' ->
    MutInv (set_call c call' st).
  Proof.
    intros [Hc Hw] E Hn Hn'. split; [by eapply CountInv_neutral|by eapply WaitInv_neutral].
  Qed.

Lemma call_wf_rest st c call :
    MutInv st -> st_calls st !! c = Some call ->
    Forall (fun k => k ∈ lc_identities call) (rest_keys (lc_pc call)).
  Proof. intros [Hc _] E. by apply (ci_wf _ _ Hc c). Qed.

Lemma MutInv_waitForIdle st c call :
    MutInv st -> st_calls st !! c = Some call -> in_run (lc_pc call) = false ->
    idle_keys (lc_pc call) = [] -> is_done (lc_pc call) = false ->
    MutInv (waitForIdle c call st).
  Proof.
    intros Hm E Hr Hi Hd. unfold waitForIdle.
    assert (Hcount : forall pc, in_run pc = false -> rest_keys pc = [] -> count_neutral call (with_pc pc call)).
    { intros pc Hpc Hrest. unfold count_neutral. simpl. rewrite Hrest. split_and!; try done; [congruence|].
      by intros k ?%elem_of_nil. }
    destruct (active_identities _ _) as [|k keys] eqn:Ea.
    - apply (MutInv_set_call st c call); [done..|by apply Hcount|].
      unfold wait_neutral. rewrite Hi, Hd. simpl. split_and!; try done; by intros ? ?%elem_of_nil.
    - destruct (lc_aborted call).
      + apply (MutInv_set_call st c call); [done..| |].
        * apply (Hcount PDone); done.
        * unfold wait_neutral. rewrite Hi, Hd. simpl. split_and!; try done; by intros ? ?%elem_of_nil.
      + rewrite <- Ea. destruct Hm as [Hc Hw]. split; simpl.
        * eapply CountInv_ext; [eapply (CountInv_neutral _ _ c call)|..]; [exact Hc|done| |done..].
          by apply Hcount.
        * by apply WaitInv_wait.
  Qed.
End reachable.

(** Solve the side conditions of a neutral change, the program counter known. *)
Ltac solve_neutral :=
  unfold count_neutral, wait_neutral; cbn;
  repeat match goal with E : lc_pc _ = _ |- _ => rewrite E; clear E end; cbn;
  split_and!; try done; try congruence; try (by intros ? ?%elem_of_nil); try (by auto).

Section micro.
  Context {A : Type} `{AdmissionInterface A}.
  Implicit Types (st : LifecycleState A).

Lemma take_lock_mut st c call s k rest :
    MutInv st -> st_calls st !! c = Some call -> lc_pc call = PTry s (k :: rest) ->
    MutInv (take_lock c call s k rest st).
  Proof.
    intros Hm E Epc. pose proof (call_wf_rest _ _ _ Hm E) as Hrest. rewrite Epc in Hrest.
    assert (Htr : truthy k = true).
    { destruct Hm as [Hc _]. destruct (ci_wf _ _ Hc _ _ E) as (_ & Ht & _).
      simpl in Hrest. apply Forall_cons in Hrest as [Hk _]. by apply (proj1 (Forall_forall _ _) Ht). }
    simpl in Hrest. rewrite Forall_forall in Hrest.
    assert (Hsub : forall x, x ∈ rest -> x ∈ lc_identities call) by (intros; apply Hrest; by right).
    unfold take_lock, runQueuedStoreWrite. simpl. rewrite Htr. simpl.
    destruct (isActiveStoreWriter _ _ _).
    - apply (MutInv_set_call _ _ call); [done..| |]; solve_neutral.
    - destruct (drainStoreWriterQueue _ _ _) as [w [[t ctx]|]];
        apply (MutInv_set_call _ _ call); try done; solve_neutral.
  Qed.

Lemma section_body_mut st c call s :
    MutInv st -> st_calls st !! c = Some call -> lc_pc call = PTry s [] ->
    MutInv (section_body c call s st).
  Proof.
    intros Hm E Epc. destruct s; simpl.
    - destruct (lc_aborted call); [|destruct (hasActiveSessionLifecycleMutation _ _)];
        apply (MutInv_set_call _ _ call); try done; solve_neutral.
    - apply (MutInv_set_call _ _ call); [done..| |]; solve_neutral.
    - destruct (lc_aborted call); [apply (MutInv_set_call _ _ call); try done; solve_neutral|].
      destruct Hm as [Hc Hw]. split; simpl.
      + apply CountInv_activate; [done..|]. by rewrite Epc.
      + apply WaitInv_activate; [done| |done|by rewrite Epc..].
        apply NoDup_sorted. by apply (ci_wf _ _ Hc c).
    - apply (MutInv_set_call _ _ call); [done..| |]; solve_neutral.
    - destruct Hm as [Hc Hw].
      assert (NoDup (lc_identities call)) as Hnd by (apply NoDup_sorted; by apply (ci_wf _ _ Hc c)).
      pose proof (WaitInv_deactivate (st_mutations st) (st_calls st) c call
        (with_pc (PExit (SCleanup result) result) call) (call_kind call) _ Hw Hnd E) as Hw'.
      pose proof (CountInv_deactivate (st_mutations st)
        (fold_left wake (deactivate c (call_kind call) (lc_identities call) (st_mutations st)).2 (st_calls st))
        c call result) as Hc'.
      destruct (deactivate _ _ _ _) as [m resolved]. simpl in *. split; simpl.
      + apply Hc'; [by apply CountInv_wake| |by rewrite Epc].
        rewrite wake_lookup, E. simpl. unfold woken. by rewrite Epc.
      + apply Hw'; [by rewrite Epc|by rewrite Epc|done].
  Qed.

Lemma micro_mut c st st' : MutInv st -> micro c st = Some st' -> MutInv st'.
  Proof.
    intros Hm. unfold micro. destruct (st_calls st !! c) as [call|] eqn:E; [|done].
    destruct (lc_pc call) as [|s [|k rest]| | | | | | | | | | | |] eqn:Epc; try done; intros [= <-].
    - destruct (lc_aborted call); [apply (MutInv_set_call _ _ call); try done; solve_neutral|].
      destruct (hasActiveSessionLifecycleMutation _ _).
      + apply MutInv_waitForIdle; [done|done|by rewrite Epc..].
      + apply (MutInv_set_call _ _ call); try done; solve_neutral.
    - by apply section_body_mut.
    - by apply take_lock_mut.
  Qed.

Lemma sync_mut c st : MutInv st -> MutInv (sync c st).
  Proof. apply sync_inv. intros s s' ? ?. by eapply micro_mut. Qed.
End micro.

Section events.
  Context {A : Type} `{AdmissionInterface A}.
  Implicit Types (st : LifecycleState A).

Lemma add_call_mut call st :
    MutInv st -> call_wf call -> in_run (lc_pc call) = false -> idle_keys (lc_pc call) = [] ->
    MutInv (add_call call st).
  Proof.
    intros [Hc Hw] Hwf Hr Hi. unfold add_call. apply sync_mut.
    split; [by apply CountInv_new|by apply WaitInv_new].
  Qed.

Lemma new_call_wf scope ids keys kind ctx sig ab pc o :
    normalizeSessionIdentities scope ids = Some keys -> (forall k, k ∈ rest_keys pc -> k ∈ keys) ->
    call_wf (new_call kind keys ctx sig ab pc o).
  Proof.
    intros E Hr. split; [by eapply normalized_sorted|]. split; [by eapply normalized_truthy|].
    by apply Forall_forall.
  Qed.

Lemma dead_call_wf kind ctx sig ab o : call_wf (new_call kind [] ctx sig ab PDone o).
  Proof. repeat constructor. Qed.

Lemma begin_admission_mut ctx scope ids sig ab cb st :
    MutInv st -> MutInv (beginSessionWorkAdmission ctx scope ids sig ab cb st).
  Proof.
    intros Hm. unfold beginSessionWorkAdmission.
    destruct (ai_subordinateClosed _ _); [by apply add_call_mut; [|apply dead_call_wf|..]|].
    destruct (normalizeSessionIdentities scope ids) as [keys|] eqn:E;
      [|by apply add_call_mut; [|apply dead_call_wf|..]].
    apply add_call_mut; try done. eapply new_call_wf; [done|]. by intros ? ?%elem_of_nil.
  Qed.

Lemma begin_mutation_mut ctx scope ids kind prep sig ab st :
    MutInv st -> MutInv (runExclusiveSessionLifecycleMutation ctx scope ids kind prep sig ab st).
  Proof.
    intros Hm. unfold runExclusiveSessionLifecycleMutation.
    destruct (normalizeSessionIdentities scope ids) as [keys|] eqn:E;
      [|by apply add_call_mut; [|apply dead_call_wf|..]].
    destruct (_ && _); apply add_call_mut; try done; (eapply new_call_wf; [done|]); [by intros ? ?%elem_of_nil|done].
  Qed.

Lemma callback_mut c ok st st' : MutInv st -> callback c ok st = Some st' -> MutInv st'.
  Proof.
    intros Hm. unfold callback. destruct (st_calls st !! c) as [call|] eqn:E; [|done]. simpl.
    destruct (lc_pc call) as [| | | | | |a []| | | | | | |] eqn:Epc; try done.
    - intros [= <-]. destruct ok.
      + unfold grantAdmission. destruct (ai_subordinateClosed _ _);
          [apply (MutInv_set_call _ _ call); try done; solve_neutral|].
        destruct (runQueuedStoreWrite _ _ _ _ _) as [[w []]|]; [destruct (lc_aborted call)..|];
          apply (MutInv_set_call _ _ call); try done; solve_neutral.
      + apply (MutInv_set_call _ _ call); try done; solve_neutral.
    - intros [= <-]. destruct ok; apply (MutInv_set_call _ _ call); try done; solve_neutral.
    - destruct (fnSettled _ _ _); [|done]. intros [= <-].
      apply (MutInv_set_call _ _ call); try done; solve_neutral.
    - intros [= <-]. apply sync_mut.
      destruct ok; apply (MutInv_set_call _ _ call); try done; solve_neutral.
    - intros [= <-]. apply (MutInv_set_call _ _ call); try done; solve_neutral.
  Qed.

Lemma abort_mut c st st' : MutInv st -> abort c st = Some st' -> MutInv st'.
  Proof.
    intros Hm. unfold abort. destruct (st_calls st !! c) as [call|] eqn:E; [|done]. simpl.
    destruct (_ && _); [|done]. intros [= <-].
    pose proof (call_wf_rest _ _ _ Hm E) as Hrest. rewrite Forall_forall in Hrest.
    apply (MutInv_set_call _ _ call); try done.
    - destruct (lc_kind call) eqn:Ek, (lc_pc call) eqn:Epc; rewrite ?Epc in Hrest;
        unfold count_neutral, call_kind; cbn; rewrite ?Epc, ?Ek; split_and!; try done; auto;
        try (by intros ? ?%elem_of_nil).
    - destruct (lc_kind call) eqn:Ek, (lc_pc call) eqn:Epc; unfold wait_neutral; cbn; rewrite ?Epc;
        split_and!; try done; auto; try (by intros ? ?%elem_of_nil).
  Qed.

Lemma section_done_mut c call s x st :
    MutInv st -> st_calls st !! c = Some call -> lc_pc call = PExit s x ->
    MutInv (section_done c call s x st).
  Proof.
    intros Hm E Epc. destruct s; simpl.
    - destruct x; [..|apply (MutInv_set_call _ _ call); try done; solve_neutral];
        try (apply MutInv_waitForIdle; [done|done|by rewrite Epc..]);
        apply (MutInv_set_call _ _ call); try done; solve_neutral.
    - apply (MutInv_set_call _ _ call); try done; solve_neutral.
    - destruct x; [..|apply (MutInv_set_call _ _ call); try done; solve_neutral];
        (destruct (lc_kind call) as [|? []] eqn:Ek;
          [apply sync_mut| |apply sync_mut]; apply (MutInv_set_call _ _ call); try done; solve_neutral).
    - apply sync_mut. apply (MutInv_set_call _ _ call); try done; solve_neutral.
    - apply (MutInv_set_call _ _ call); try done; solve_neutral.
  Qed.

Lemma unwind_mut c st st' : MutInv st -> unwind c st = Some st' -> MutInv st'.
  Proof.
    intros Hm. unfold unwind. destruct (st_calls st !! c) as [call|] eqn:E; [|done]. simpl.
    destruct (lc_pc call) as [| | | | | | | | | | |s x| |] eqn:Epc; try done.
    destruct (lc_frames call) as [|fr rest].
    - intros [= <-]. by apply section_done_mut.
    - destruct (fr_writer fr).
      + destruct (fnSettled _ _ _); [|done]. intros [= <-].
        apply (MutInv_set_call _ _ call); try done; solve_neutral; by destruct s.
      + intros [= <-]. apply (MutInv_set_call _ _ call); try done; solve_neutral; by destruct s.
  Qed.

Lemma resume_mut c st st' : MutInv st -> resume c st = Some st' -> MutInv st'.
  Proof.
    intros Hm. unfold resume. destruct (st_calls st !! c) as [call|] eqn:E; [|done]. simpl.
    destruct (lc_pc call) as [| | |[]| | | | | | | | | |] eqn:Epc; try done; intros [= <-].
    - apply sync_mut. apply (MutInv_set_call _ _ call); try done; solve_neutral.
    - apply (MutInv_set_call _ _ call); try done; solve_neutral.
  Qed.

Lemma answer_mut t ok st : MutInv st -> MutInv (answer t ok st).
  Proof.
    intros Hm. destruct t as [c|c]; simpl; (destruct (st_calls st !! c) as [call|] eqn:E; [|done]);
      destruct (lc_pc call) eqn:Epc; try done.
    - destruct (lc_frames call); [done|].
      apply (MutInv_set_call _ _ call); try done; solve_neutral; by destruct s.
    - destruct ok; apply (MutInv_set_call _ _ call); try done; solve_neutral.
  Qed.

Lemma start_mut a t ctx st : MutInv st -> MutInv (start a t ctx st).
  Proof.
    intros Hm. destruct t as [c|c]; simpl; (destruct (st_calls st !! c) as [call|] eqn:E; [|done]).
    - pose proof (call_wf_rest _ _ _ Hm E) as Hrest. rewrite Forall_forall in Hrest.
      destruct (lc_pc call) as [| |s k rest| | | | | | | | | | |] eqn:Epc; try done.
      apply sync_mut. simpl in Hrest. apply (MutInv_set_call _ _ call); try done; solve_neutral.
      intros k' Hk'. apply Hrest. by right.
    - destruct (lc_aborted call); [done|]. destruct (lc_pc call) eqn:Epc; try done.
      apply (MutInv_set_call _ _ call); try done; solve_neutral.
  Qed.

Lemma drain_loop_mut a st st' : MutInv st -> drain_loop a st = Some st' -> MutInv st'.
  Proof.
    intros Hm. unfold drain_loop. destruct (drainContinues _ _) as [[[w [t ok]] started]|]; [|done].
    intros [= <-]. assert (MutInv (answer t ok (set_writers w st))) as Ha by (by apply answer_mut).
    destruct started as [[t' ctx]|]; [by apply start_mut|done].
  Qed.

Lemma step_mut e st st' : MutInv st -> lifecycle_step e st = Some st' -> MutInv st'.
  Proof.
    intros Hm. destruct e; simpl.
    - destruct (ctx_okb _ _); [|done]. intros [= <-]. by apply begin_admission_mut.
    - destruct (ctx_okb _ _); [|done]. intros [= <-]. by apply begin_mutation_mut.
    - by apply callback_mut.
    - by apply abort_mut.
    - by apply unwind_mut.
    - by apply resume_mut.
    - by apply drain_loop_mut.
    - destruct (leased _ _); [|done]. by intros [= <-].
    - destruct (_ && _); [|done]. destruct (createSessionWorkAdmissionHandoff _ _ _); [|done].
      by intros [= <-].
    - destruct (consumeSessionWorkAdmissionHandoff _ _ _ _ _) as [[[? ?] ?]|]; [|done]. by intros [= <-].
    - by intros [= <-].
    - unfold interruptSessionWorkAdmissions. destruct (normalizeSessionIdentities _ _); [|done].
      by intros [= <-].
    - unfold interrupt_drained. destruct (_ !! i) as [it|]; [|done]. simpl.
      destruct (_ && _); [|done]. by intros [= <-].
    - unfold interrupt_timer. destruct (_ !! i) as [it|]; [|done]. simpl.
      destruct (_ && _); [|done]. by intros [= <-].
    - by intros [= <-].
  Qed.

Lemma reachable_mut g st : lifecycle_reachable g st -> MutInv st.
  Proof.
    apply lifecycle_inv.
    - split; split; simpl; try done; try (by intros ? ? ?%elem_of_nil).
      + constructor.
      + intros c. split; [by intros ?%elem_of_nil|]. by intros (? & ? & ?).
    - intros s e s'. apply step_mut.
  Qed.
End events.

(** ** What the counts promise *)

Section promises.
  Context {A : Type} `{AdmissionInterface A}.
  Implicit Types (st : LifecycleState A).

  (** A mutation that is active: activated, and its cleanup not done. *)
Definition active_mutation st (c : nat) (call : LifecycleCall) : Prop :=
    st_calls st !! c = Some call /\ in_run (lc_pc call) = true.

Lemma active_on st k :
    MutInv st ->
    (0 < active_count (st_mutations st) k)%Z <->
    exists c call, active_mutation st c call /\ k ∈ lc_identities call.
  Proof.
    intros [Hc _]. rewrite (active_count_runs _ _ _ Hc). unfold count_runs. split.
    - intros Hp. destruct (List.filter _ _) as [|c l] eqn:E; [simpl in Hp; lia|].
      assert (In c (c :: l)) as Hin by (by left). rewrite <- E in Hin.
      apply List.filter_In in Hin as [Hin Hk]. unfold has_key in Hk.
      apply list_elem_of_In, (ci_runs _ _ Hc) in Hin as (call & Ecall & Hr).
      rewrite Ecall in Hk. apply bool_decide_eq_true in Hk. exists c, call. by split.
    - intros (c & call & [Ecall Hr] & Hk).
      assert (In c (List.filter (has_key (st_calls st) k) (mu_runs (st_mutations st)))) as Hin.
      { apply List.filter_In. split; [apply list_elem_of_In, (ci_runs _ _ Hc); eauto|].
        unfold has_key. rewrite Ecall. by apply bool_decide_eq_true. }
      destruct (List.filter _ _); [done|simpl; lia].
  Qed.

Lemma hasActive_spec m keys :
    hasActiveSessionLifecycleMutation m keys = true <-> exists k, k ∈ keys /\ (0 < active_count m k)%Z.
  Proof.
    unfold hasActiveSessionLifecycleMutation. rewrite existsb_exists.
    split; intros (k & Hk & Hp); exists k; [rewrite list_elem_of_In|rewrite <- list_elem_of_In];
      (split; [done|]); by apply Z.ltb_lt.
  Qed.

Lemma kind_count_runs m cs k :
    CountInv m cs -> kind_count m k Compaction = Z.of_nat (count_runs (has_kind cs k) (mu_runs m)).
  Proof.
    intros Hc. unfold kind_count. rewrite (ci_kinds _ _ Hc). unfold positive_count.
    destruct (count_runs _ _); done.
  Qed.

Lemma count_runs_eq p q runs :
    (forall c, p c = true -> q c = true) ->
    count_runs p runs = count_runs q runs <-> (forall c, c ∈ runs -> q c = true -> p c = true).
  Proof.
    intros Hpq. unfold count_runs.
    assert (Hle : forall l, length (List.filter p l) <= length (List.filter q l)).
    { induction l as [|x l IH]; simpl; [lia|]. specialize (Hpq x).
      destruct (p x); [rewrite Hpq by done; simpl; lia|]. destruct (q x); simpl; lia. }
    induction runs as [|x l IH]; simpl; [split; [by intros _ ? ?%elem_of_nil|done]|].
    specialize (Hle l). specialize (Hpq x).
    assert (Hcons : (forall c, c ∈ x :: l -> q c = true -> p c = true) <->
      (q x = true -> p x = true) /\ (forall c, c ∈ l -> q c = true -> p c = true)).
    { split; [intros Hf; split; [|intros c ?]; apply Hf; set_solver|].
      intros [Hx Hl] c [->|?]%elem_of_cons; auto. }
    rewrite Hcons, <- IH. destruct (p x), (q x); simpl; try naive_solver lia.
  Qed.

Lemma only_kind_loop_spec m found keys :
    only_kind_loop m Compaction found keys = true <->
    (found = true \/ exists k, k ∈ keys /\ active_count m k <> 0%Z) /\
    (forall k, k ∈ keys -> active_count m k <> 0%Z -> kind_count m k Compaction = active_count m k).
  Proof.
    revert found. induction keys as [|x keys IH]; intros found; simpl.
    { split; [intros ->; split; [by left|]; by intros ? ?%elem_of_nil|].
      intros [[?|(k & ?%elem_of_nil & _)] _]; done. }
    destruct (Z.eqb_spec (active_count m x) 0) as [E|E].
    - rewrite IH. set_solver.
    - destruct (Z.eqb_spec (kind_count m x Compaction) (active_count m x)) as [E'|E']; simpl.
      + rewrite IH. set_solver.
      + split; [done|]. intros [_ Hf]. destruct E'. apply Hf; [set_solver|done].
  Qed.

  (** The bookkeeping of active mutations is exact in every reachable state:
      an identity is counted once per active mutation on it; a session is under
      mutation if and only if an active mutation shares one of its identities; it
      is under compaction only if and only if there is one and every active
      mutation on its identities is a compaction; and the number of active
      mutations is the number of distinct ones. *)
Theorem mutations_counted g st (Hr : lifecycle_reachable g st) :
    (forall k, exists l, NoDup l /\ active_count (st_mutations st) k = Z.of_nat (length l) /\
       forall c, c ∈ l <-> exists call, active_mutation st c call /\ k ∈ lc_identities call) /\
    (forall scope ids keys, normalizeSessionIdentities scope ids = Some keys ->
       (isSessionLifecycleMutationActive scope ids st = Some true <->
        exists c call k, active_mutation st c call /\ k ∈ lc_identities call /\ k ∈ keys) /\
       (hasOnlySessionLifecycleMutationKindActive scope ids Compaction st = Some true <->
        (exists c call k, active_mutation st c call /\ k ∈ lc_identities call /\ k ∈ keys) /\
        (forall c call k, active_mutation st c call -> k ∈ lc_identities call -> k ∈ keys ->
           call_kind call = Some Compaction))) /\
    (exists l, NoDup l /\ getActiveSessionLifecycleMutationCount st = length l /\
       forall c, c ∈ l <-> exists call, active_mutation st c call).
  Proof.
    pose proof (reachable_mut g st Hr) as Hm. pose proof Hm as [Hc _].
    assert (Hsome : forall b, Some b = Some true <-> b = true) by (intros []; split; congruence).
    split; [|split].
    - intros k. exists (List.filter (has_key (st_calls st) k) (mu_runs (st_mutations st))).
      split; [apply NoDup_ListNoDup, List.NoDup_filter, NoDup_ListNoDup, Hc|].
      split; [by apply active_count_runs|]. intros c.
      rewrite list_elem_of_In, List.filter_In, <- list_elem_of_In, (ci_runs _ _ Hc).
      unfold has_key, active_mutation. split.
      + intros [(call & E & ?) Hk]. rewrite E in Hk. apply bool_decide_eq_true in Hk. eauto.
      + intros (call & [E ?] & ?). split; [eauto|]. rewrite E. by apply bool_decide_eq_true.
    - intros scope ids keys E. split.
      + unfold isSessionLifecycleMutationActive. rewrite E. simpl. rewrite Hsome, hasActive_spec.
        split; [intros (k & Hk & Hp); apply active_on in Hp as (c & call & ? & ?); eauto 10|].
        intros (c & call & k & ? & ? & ?). exists k. split; [done|]. apply active_on; eauto.
      + unfold hasOnlySessionLifecycleMutationKindActive, hasOnlyActiveSessionLifecycleMutationKind.
        rewrite E. simpl. rewrite Hsome, only_kind_loop_spec.
        assert (Hpos : forall k, active_count (st_mutations st) k <> 0%Z <->
          (0 < active_count (st_mutations st) k)%Z)
          by (intros k; rewrite (active_count_runs _ _ _ Hc); lia).
        apply Morphisms_Prop.and_iff_morphism.
        * split.
          -- intros [?|(k & Hk & Hp)]; [done|]. apply Hpos, active_on in Hp as (c & call & ? & ?); eauto 10.
          -- intros (c & call & k & ? & ? & ?). right. exists k. split; [done|].
             apply Hpos, active_on; eauto.
        * assert (Hk : forall k, kind_count (st_mutations st) k Compaction = active_count (st_mutations st) k <->
            (forall c call, active_mutation st c call -> k ∈ lc_identities call ->
               call_kind call = Some Compaction)).
          { intros k. rewrite (kind_count_runs _ _ _ Hc), (active_count_runs _ _ _ Hc), Nat2Z.inj_iff.
            rewrite count_runs_eq.
            - split.
              + intros Hf c call [Ecall Hrun] Hk. specialize (Hf c). unfold has_key, has_kind in Hf.
                rewrite Ecall, (bool_decide_eq_true_2 (k ∈ _)) in Hf by done.
                apply andb_true_iff in Hf as [_ Hf%bool_decide_eq_true]; [done| |done].
                apply (ci_runs _ _ Hc). eauto.
              + intros Hf c Hin Hkey. apply (ci_runs _ _ Hc) in Hin as (call & Ecall & Hrun).
                unfold has_key, has_kind in *. rewrite Ecall in *. rewrite Hkey. simpl.
                apply bool_decide_eq_true in Hkey. apply bool_decide_eq_true. by apply (Hf c call).
            - intros c. unfold has_key, has_kind. destruct (st_calls st !! c); [|done].
              by intros [? _]%andb_true_iff. }
          split.
          -- intros Hf c call k Hac Hkc Hkk. apply (proj1 (Hk k)) with c; [|done..].
             apply Hf; [done|]. apply Hpos, active_on; eauto.
          -- intros Hf k Hkk Hp. apply Hk. intros c call ? ?. by apply (Hf c call k).
    - exists (mu_runs (st_mutations st)). split; [apply Hc|]. split.
      + unfold getActiveSessionLifecycleMutationCount. destruct (mu_runs (st_mutations st)) as [|r l] eqn:Er; [|done].
        simpl. assert (mu_active (st_mutations st) = ∅) as ->; [|done].
        apply map_eq. intros k. by rewrite (ci_active _ _ Hc), Er, lookup_empty.
      + intros c. rewrite (ci_runs _ _ Hc). done.
  Qed.

  (** No wake-up is lost: a call that waits for identities to become idle waits
      only for identities with an active mutation and is among the waiters of each
      of them, which that mutation's cleanup resolves; when nothing is left to
      wait for, the call goes on.  An identity without active mutation has no
      live waiter. *)
Theorem idle_waiters_woken g st (Hr : lifecycle_reachable g st) :
    (forall c call keys, st_calls st !! c = Some call -> lc_pc call = PWaitIdle keys ->
       (forall k, k ∈ keys -> c ∈ default [] (mu_idleWaiters (st_mutations st) !! k) /\
          exists d mutation, active_mutation st d mutation /\ k ∈ lc_identities mutation) /\
       (keys = [] -> is_Some (resume c st))) /\
    (forall k c, c ∈ default [] (mu_idleWaiters (st_mutations st) !! k) ->
       exists d mutation, active_mutation st d mutation /\ k ∈ lc_identities mutation).
  Proof.
    pose proof (reachable_mut g st Hr) as Hm. pose proof Hm as [_ Hw]. split.
    - intros c call keys E Epc. split.
      + intros k Hk. assert (k ∈ idle_keys (lc_pc call)) as Hik by (by rewrite Epc).
        pose proof (wi_waiter _ _ Hw k c call E Hik) as Hin. split; [done|].
        apply active_on; [done|]. by apply (wi_waiting _ _ Hw k c).
      + intros ->. unfold resume. rewrite E. simpl. by rewrite Epc.
    - intros k c Hin. apply active_on; [done|]. by apply (wi_waiting _ _ Hw k c).
  Qed.
End promises.

(** ** Witnesses *)

Lemma mutations_counted_witness :
  let st := run_state [begin_mutation ["x"]] in
  hasOnlySessionLifecycleMutationKindActive (lit "s") [Some (lit "x")] Compaction st = Some true /\
  exists l, NoDup l /\ getActiveSessionLifecycleMutationCount st = length l /\
    forall c, c ∈ l <-> exists call, active_mutation st c call.
Proof.
  split; [by vm_compute|].
  apply (mutations_counted initial_admission (run_state [begin_mutation ["x"]]) (run_state_reachable _)).
Defined.

(** Work that starts during a mutation waits for it. *)
Lemma idle_waiters_woken_witness :
  let st := run_state [begin_mutation ["x"]; begin_work "x"] in
  1 ∈ default [] (mu_idleWaiters (st_mutations st) !! run_key "x") /\
  exists d mutation, active_mutation st d mutation /\ run_key "x" ∈ lc_identities mutation.
Proof.
  assert (1 ∈ default [] (mu_idleWaiters (st_mutations (run_state [begin_mutation ["x"]; begin_work "x"]))
    !! run_key "x")) as Hin by (refine (bool_decide_eq_true_1 _ _); by vm_compute).
  split; [exact Hin|].
  destruct (idle_waiters_woken initial_admission (run_state [begin_mutation ["x"]; begin_work "x"])
    (run_state_reachable _)) as [_ Hw].
  exact (Hw _ _ Hin).
Defined.
