(* ===== verification/SessionMoves.v ===== *)
(** * Moves of the calls on sessions

    Every event of [SessionLifecycle] is a sequence of small moves of the queues
    and the calls: one call changes, a lock is asked for or left, a queue's loop
    goes on.  An invariant of queues and calls is kept by events when it is kept
    by moves.  A call runs to its next [await] in finitely many statements. *)
From S2P Require Import Prelude JsString JsMap WorkAdmission StoreWriterQueue SessionIdentity SessionLifecycle SessionMutations.
#[local] Open Scope nat_scope.

(** ** Moves *)

(** A task that was taken off its queue and whose call has not been resumed yet. *)
Abbreviation Started_task := (option ((LockLane * jstr) * LockTask)).

Definition owner (t : LockTask) : nat := match t with TLock c => c | TBarrier c => c end.

Definition pending_start (a : LockLane * jstr) (started : option (LockTask * Ctx)) : Started_task :=
  '(t, _) ← started; Some (a, t).

(** Where the loop of an admission goes on. *)
Definition at_loop (call : LifecycleCall) : Prop :=
  lc_pc call = PLoop \/ (lc_pc call = PExit SAdmit XBlocked /\ lc_frames call = []).

(** The program counters a call goes through on its own. *)
Inductive pc_move (call : LifecycleCall) : ProgramCounter -> ProgramCounter -> Prop :=
  | pm_try : pc_move call PLoop (PTry SAdmit (lc_identities call))
  | pm_invalid s k rest : pc_move call (PTry s (k :: rest)) (PExit s (XErr InvalidPath))
  | pm_abort s : s <> SMutation -> pc_move call (PTry s []) (PExit s (XErr Aborted))
  | pm_blocked : pc_move call (PTry SAdmit []) (PExit SAdmit XBlocked)
  | pm_run : pc_move call (PTry SRun []) PRun
  | pm_cleaned x : pc_move call (PTry (SCleanup x) []) (PExit (SCleanup x) x)
  | pm_refused e : pc_move call PAssert (PExit SAdmit (XErr e))
  | pm_no_path a : pc_move call PAssert (PFailed a InvalidPath)
  | pm_direct a : pc_move call (PRevalidate a true) (PExit SAdmit (XLease a))
  | pm_rejected a : pc_move call (PRevalidate a true) (PFailed a CallbackFailed)
  | pm_prepared : pc_move call PPrepare (PTry SRun (lc_identities call))
  | pm_unprepared x : pc_move call PPrepare (PTry (SCleanup x) (lc_identities call))
  | pm_ran x : pc_move call PRun (PExit SRun x)
  | pm_prepare x : lc_frames call = [] -> exit_ok x = true -> pc_move call (PExit SActivate x) PPrepare
  | pm_activated x : lc_frames call = [] -> exit_ok x = true ->
      pc_move call (PExit SActivate x) (PTry SRun (lc_identities call))
  | pm_cleanup x : lc_frames call = [] ->
      pc_move call (PExit SRun x) (PTry (SCleanup x) (lc_identities call))
  | pm_idle : pc_move call (PWaitIdle []) PLoop
  | pm_caught a e : pc_move call (PFailed a e) (PExit SAdmit (XErr e)).

(** Where an abort takes a call. *)
Definition abort_pc (call : LifecycleCall) : ProgramCounter :=
  match lc_kind call, lc_pc call with
  | BeginAdmission _ _, PWaitIdle _ => PDone
  | BeginAdmission _ _, PBarrier a => PFailed a Aborted
  | _, pc => pc
  end.

(** What a call does without the queues. *)
Inductive call_move : LifecycleCall -> LifecycleCall -> Prop :=
  | cm_pc call pc : pc_move call (lc_pc call) pc -> call_move call (with_pc pc call)
  | cm_wait call keys : at_loop call -> call_move call (with_pc (PWaitIdle keys) call)
  | cm_give_up call x : at_loop call -> call_move call (finish x call)
  | cm_finish call s x : lc_pc call = PExit s x -> s = SAdmit \/ s = SMutation ->
      lc_frames call = [] -> call_move call (finish x call)
  | cm_nested call l : lc_pc call = PTry SMutation [] ->
      call_move call (with_stack [] (lc_frames call) (with_admissions l (lc_here call))
        (PTry SActivate (lc_identities call)) call)
  | cm_activate call : lc_pc call = PTry SActivate [] ->
      call_move call (with_activated (PExit SActivate XOk) call)
  | cm_outer call s x : lc_pc call = PExit s x -> s <> SAdmit -> s <> SMutation ->
      lc_frames call = [] ->
      call_move call (with_stack (lc_outer call) [] (lc_here call) (PExit SMutation x) call)
  | cm_pop call s x fr rest : lc_pc call = PExit s x -> lc_frames call = fr :: rest ->
      fr_writer fr = None ->
      call_move call (with_stack rest (lc_outer call) (fr_context fr) (PExit s x) call)
  | cm_abort call o : lc_aborted call = false -> call_move call (with_aborted (abort_pc call) o call).

(** The call of a lock that was asked for. *)
Definition locked (a : LockLane * jstr) (s : LockSection) (k : jstr) (rest : list jstr)
    (r : Submitted ContextStores) (call : LifecycleCall) : LifecycleCall :=
  match r with
  | Reentered => push_frame a None (lc_here call) (PTry s rest) call
  | Started ctx => push_frame a (ctx_writer ctx) ctx (PTry s rest) call
  | Queued => with_pc (PQueued s k rest) call
  end.

(** The queues and the call of a barrier that was submitted. *)
Definition barrier_writers (call : LifecycleCall) (w : Writers) (r : Submitted ContextStores)
    : Writers :=
  match r with
  | Started _ => if lc_aborted call then default w (fnSettled w (barrier_addr call) false) else w
  | _ => w
  end.

Definition barrier_pc (a : nat) (call : LifecycleCall) (r : Submitted ContextStores)
    : ProgramCounter :=
  if lc_aborted call then PFailed a Aborted
  else match r with
       | Reentered => PRevalidate a true
       | Started _ => PRevalidate a false
       | Queued => PBarrier a
       end.

(** The call of a task that is answered. *)
Definition answer_call (t : LockTask) (ok : bool) (call : LifecycleCall) : LifecycleCall :=
  match t, lc_pc call, lc_frames call with
  | TLock _, PExitWait s x, fr :: rest =>
      with_stack rest (lc_outer call) (fr_context fr) (PExit s x) call
  | TBarrier _, PBarrierDone a _, _ =>
      with_pc (if ok then PExit SAdmit (XLease a) else PFailed a CallbackFailed) call
  | _, _, _ => call
  end.

(** The call of a task that starts without being aborted. *)
Definition task_waits (t : LockTask) (call : LifecycleCall) : bool :=
  match t, lc_pc call with
  | TLock _, PQueued _ _ _ => true
  | TBarrier _, PBarrier _ => true
  | TBarrier _, _ => lc_aborted call
  | _, _ => false
  end.

(** How a call starts. *)
Definition fresh_call (w : Writers) (call : LifecycleCall) : Prop :=
  ctx_ok w (lc_here call) /\ lc_context call = lc_here call /\ lc_frames call = [] /\
  lc_outer call = [] /\ StronglySorted str_lt (lc_identities call) /\
  match lc_kind call, lc_pc call with
  | _, PDone => True
  | BeginAdmission _ _, PLoop => True
  | RunMutation _ _, PTry SMutation rest => rest = lc_identities call
  | _, _ => False
  end.

Definition LockView : Type := Started_task * Writers * list LifecycleCall.

(** No active mutation shares an identity with the call. *)
Definition unopposed (cs : list LifecycleCall) (call : LifecycleCall) : Prop :=
  forall d mutation k, cs !! d = Some mutation -> in_run (lc_pc mutation) = true ->
    k ∈ lc_identities call -> k ∉ lc_identities mutation.

Inductive lock_move : LockView -> LockView -> Prop :=
  | mv_call w cs c call call' : cs !! c = Some call -> call_move call call' ->
      lock_move (None, w, cs) (None, w, <[c := call']> cs)
  | mv_assert w cs c call : cs !! c = Some call -> lc_pc call = PTry SAdmit [] -> unopposed cs call ->
      lock_move (None, w, cs) (None, w, <[c := with_pc PAssert call]> cs)
  | mv_wake w cs resolved : lock_move (None, w, cs) (None, w, fold_left wake resolved cs)
  | mv_new w cs call : fresh_call w call -> lock_move (None, w, cs) (None, w, cs ++ [call])
  | mv_lock w cs c call s k rest w' r : cs !! c = Some call -> lc_pc call = PTry s (k :: rest) ->
      runQueuedStoreWrite w (lc_here call) (section_lane s, k) true (TLock c) = Some (w', r) ->
      lock_move (None, w, cs) (None, w', <[c := locked (section_lane s, k) s k rest r call]> cs)
  | mv_leave w cs c call s x fr rest w' : cs !! c = Some call -> lc_pc call = PExit s x ->
      lc_frames call = fr :: rest -> is_Some (fr_writer fr) ->
      fnSettled w (fr_addr fr) (exit_ok x) = Some w' ->
      lock_move (None, w, cs) (None, w', <[c := with_pc (PExitWait s x) call]> cs)
  | mv_barrier w cs c call a w' r : cs !! c = Some call -> lc_pc call = PAssert ->
      runQueuedStoreWrite w (lc_here call) (barrier_addr call) true (TBarrier c) = Some (w', r) ->
      lock_move (None, w, cs) (None, barrier_writers call w' r, <[c := with_pc (barrier_pc a call r) call]> cs)
  | mv_checked w cs c call a ok w' : cs !! c = Some call -> lc_pc call = PRevalidate a false ->
      fnSettled w (barrier_addr call) ok = Some w' ->
      lock_move (None, w, cs) (None, w', <[c := with_pc (PBarrierDone a ok) call]> cs)
  | mv_drain w cs a t ok started w' : drainContinues w a = Some (w', (t, ok), started) ->
      lock_move (None, w, cs) (pending_start a started, w', alter (answer_call t ok) (owner t) cs)
  | mv_enter w cs a c call s k rest x ctx : cs !! c = Some call -> lc_pc call = PQueued s k rest ->
      inflight w a = Some (TLock c, x, None) -> loop_context w a = Some ctx ->
      lock_move (Some (a, TLock c), w, cs)
        (None, w, <[c := push_frame a (Some x) {| ctx_writer := Some x; ctx_stores := ctx_stores ctx |}
                           (PTry s rest) call]> cs)
  | mv_check w cs a c call ad : cs !! c = Some call -> lc_aborted call = false -> lc_pc call = PBarrier ad ->
      lock_move (Some (a, TBarrier c), w, cs) (None, w, <[c := with_pc (PRevalidate ad false) call]> cs)
  | mv_drop w cs a c call : cs !! c = Some call -> lc_aborted call = true ->
      lock_move (Some (a, TBarrier c), w, cs) (None, default w (fnSettled w a false), cs)
  | mv_lost w cs a t : (forall call, cs !! owner t = Some call -> task_waits t call = false) ->
      lock_move (Some (a, t), w, cs) (None, w, cs).

(** ** Events are sequences of moves *)

Section moves.
  Context {A : Type} `{AdmissionInterface A}.
  Implicit Types (st : LifecycleState A) (v : LockView).

Definition view st : LockView := (None, st_writers st, st_calls st).

  (** The moves from [v] reach [st]. *)
Definition moves_to v st : Prop := rtc lock_move v (view st).

Lemma moves_refl st : moves_to (view st) st.
  Proof. apply rtc_refl. Qed.
#[local] Hint Resolve moves_refl : core.

Lemma moves_call v st c call call' :
    moves_to v st -> st_calls st !! c = Some call -> call_move call call' ->
    moves_to v (set_call c call' st).
  Proof. intros Hv E Hm. eapply rtc_r; [done|]. by eapply mv_call. Qed.

Lemma moves_pc v st c call pc :
    moves_to v st -> st_calls st !! c = Some call -> pc_move call (lc_pc call) pc ->
    moves_to v (set_call c (with_pc pc call) st).
  Proof. intros. by eapply moves_call, cm_pc. Qed.

  (** The other parts of the state do not matter. *)
Lemma moves_same v st st' :
    st_writers st' = st_writers st -> st_calls st' = st_calls st -> moves_to v st -> moves_to v st'.
  Proof. unfold moves_to, view. by intros -> ->. Qed.

Lemma waitForIdle_moves v st c call :
    moves_to v st -> st_calls st !! c = Some call -> at_loop call -> moves_to v (waitForIdle c call st).
  Proof.
    intros Hv E Hl. unfold waitForIdle. destruct (active_identities _ _) as [|k keys].
    - eapply moves_call; [done..|]. by apply cm_wait.
    - destruct (lc_aborted call); [eapply moves_call; [done..|]; by apply cm_give_up|].
      eapply moves_same; [| |eapply (moves_call v st c call _ Hv E (cm_wait _ (k :: keys) Hl))]; done.
  Qed.

Lemma idle_unopposed st call :
    MutInv st -> hasActiveSessionLifecycleMutation (st_mutations st) (lc_identities call) = false ->
    unopposed (st_calls st) call.
  Proof.
    intros Hm Hf d mutation k Ed Hr Hk Hk'. apply not_true_iff_false in Hf. apply Hf, hasActive_spec.
    exists k. split; [done|]. apply active_on; [done|]. by exists d, mutation.
  Qed.

Lemma section_body_moves v st c call s :
    MutInv st -> moves_to v st -> st_calls st !! c = Some call -> lc_pc call = PTry s [] ->
    moves_to v (section_body c call s st).
  Proof.
    intros Hmu Hv E Epc. destruct s; simpl.
    - destruct (lc_aborted call); [|destruct (hasActiveSessionLifecycleMutation _ _) eqn:Ea];
        try (eapply moves_pc; [done..|]; rewrite Epc; by constructor).
      eapply rtc_r; [done|]. apply mv_assert; [done..|]. by apply idle_unopposed.
    - eapply moves_call; [done..|]. by apply cm_nested.
    - destruct (lc_aborted call).
      + eapply moves_pc; [done..|]. rewrite Epc. by constructor.
      + eapply moves_same; [| |eapply (moves_call v st c call _ Hv E (cm_activate _ Epc))]; done.
    - eapply moves_pc; [done..|]. rewrite Epc. constructor.
    - destruct (deactivate _ _ _ _) as [m resolved].
      assert (moves_to v (set_calls (fold_left wake resolved (st_calls st)) st)) as Hv'.
      { eapply rtc_r; [done|]. apply mv_wake. }
      pose proof (moves_pc v _ c call (PExit (SCleanup result) result) Hv') as Hm.
      eapply moves_same; [| |apply Hm]; [done..| |rewrite Epc; constructor].
      (* the call itself is not woken *)
      clear -E Epc. simpl. revert E. generalize (st_calls st). clear st.
      induction resolved as [|[k d] res IH]; intros cs E; simpl; [done|]. apply IH.
      destruct (decide (d = c)) as [->|Hne]; [by rewrite E, Epc|].
      destruct (cs !! d) as [x|]; [|done]. destruct (lc_pc x); try done. by rewrite list_lookup_insert_ne.
  Qed.

Lemma take_lock_moves v st c call s k rest :
    moves_to v st -> st_calls st !! c = Some call -> lc_pc call = PTry s (k :: rest) ->
    moves_to v (take_lock c call s k rest st).
  Proof.
    intros Hv E Epc. unfold take_lock. destruct (runQueuedStoreWrite _ _ _ _ _) as [[w r]|] eqn:Er.
    - eapply rtc_r; [done|]. eapply (mv_lock _ _ c call s k rest w r); done.
    - eapply moves_pc; [done..|]. rewrite Epc. constructor.
  Qed.

Lemma micro_moves v c st st' : MutInv st -> moves_to v st -> micro c st = Some st' -> moves_to v st'.
  Proof.
    intros Hmu Hv. unfold micro. destruct (st_calls st !! c) as [call|] eqn:E; [|done].
    destruct (lc_pc call) as [|s [|k rest]| | | | | | | | | | | |] eqn:Epc; try done; intros [= <-].
    - destruct (lc_aborted call); [eapply moves_call; [done..|]; apply cm_give_up; by left|].
      destruct (hasActiveSessionLifecycleMutation _ _); [apply waitForIdle_moves; [done..|by left]|].
      eapply moves_pc; [done..|]. rewrite Epc. constructor.
    - by apply section_body_moves.
    - by apply take_lock_moves.
  Qed.

Lemma sync_moves v c st : MutInv st -> moves_to v st -> moves_to v (sync c st).
  Proof.
    intros Hmu Hv. apply (sync_inv (fun s => MutInv s /\ moves_to v s)); [|done].
    intros s s' [Hmu' Hv'] Em. split; [by eapply micro_mut|by eapply micro_moves].
  Qed.

Lemma add_call_moves st kind keys ctx sig ab pc o :
    let call := new_call kind keys ctx sig ab pc o in
    MutInv st -> call_wf call -> ctx_ok (st_writers st) ctx ->
    match kind, pc with
    | _, PDone => True
    | BeginAdmission _ _, PLoop => True
    | RunMutation _ _, PTry SMutation rest => rest = keys
    | _, _ => False
    end -> moves_to (view st) (add_call call st).
  Proof.
    intros call [Hc Hw] Hwf Hctx Hk.
    apply sync_moves; [|apply rtc_once, mv_new; repeat (split; [done|]); split; [apply Hwf|done]].
    assert (in_run (lc_pc call) = false /\ idle_keys (lc_pc call) = []) as [? ?].
    { simpl. destruct kind, pc; try done. by destruct s. }
    split; [by apply CountInv_new|by apply WaitInv_new].
  Qed.

Lemma begin_admission_moves ctx scope ids sig ab cb st :
    MutInv st -> ctx_ok (st_writers st) ctx ->
    moves_to (view st) (beginSessionWorkAdmission ctx scope ids sig ab cb st).
  Proof.
    intros Hm Hc. unfold beginSessionWorkAdmission.
    destruct (ai_subordinateClosed _ _); [by apply add_call_moves; [|apply dead_call_wf|..]|].
    destruct (normalizeSessionIdentities _ _) eqn:E; [|by apply add_call_moves; [|apply dead_call_wf|..]].
    apply add_call_moves; [done| |done..]. eapply new_call_wf; [done|]. by intros ? ?%elem_of_nil.
  Qed.

Lemma begin_mutation_moves ctx scope ids kind prep sig ab st :
    MutInv st -> ctx_ok (st_writers st) ctx ->
    moves_to (view st) (runExclusiveSessionLifecycleMutation ctx scope ids kind prep sig ab st).
  Proof.
    intros Hm Hc. unfold runExclusiveSessionLifecycleMutation.
    destruct (normalizeSessionIdentities _ _) eqn:E; [|by apply add_call_moves; [|apply dead_call_wf|..]].
    destruct (_ && _); apply add_call_moves; try done; (eapply new_call_wf; [done|]); [by intros ? ?%elem_of_nil|done].
  Qed.

Lemma admit_moves c call st :
    st_calls st !! c = Some call -> lc_pc call = PAssert -> moves_to (view st) (grantAdmission c call st).
  Proof.
    intros E Epc. unfold grantAdmission.
    destruct (ai_subordinateClosed _ _); [eapply moves_pc; [done..|]; rewrite Epc; constructor|].
    destruct (runQueuedStoreWrite _ _ _ _ _) as [[w r]|] eqn:Er.
    - pose proof (mv_barrier _ _ c call (length (wk_admissions (st_work st))) w r E Epc Er) as Hm.
      apply rtc_once. unfold view in *. unfold barrier_writers, barrier_pc in Hm.
      destruct (lc_aborted call); [by destruct r|]. by destruct r.
    - eapply moves_same; [| |eapply (moves_pc (view st) st c call); [done..|]]; [done..|].
      rewrite Epc. constructor.
  Qed.

Lemma callback_moves c ok st st' : MutInv st -> callback c ok st = Some st' -> moves_to (view st) st'.
  Proof.
    intros Hmu. unfold callback. destruct (st_calls st !! c) as [call|] eqn:E; [|done]. simpl.
    destruct (lc_pc call) as [| | | | | |a []| | | | | | |] eqn:Epc; try done.
    - intros [= <-]. destruct ok; [by apply admit_moves|].
      eapply moves_pc; [done..|]. rewrite Epc. constructor.
    - intros [= <-]. eapply moves_pc; [done..|]. rewrite Epc. destruct ok; constructor.
    - destruct (fnSettled _ _ _) as [w|] eqn:Es; [|done]. intros [= <-]. apply rtc_once.
      by eapply (mv_checked _ _ c call a ok w).
    - intros [= <-]. apply sync_moves; [destruct ok; apply (MutInv_set_call _ _ call); try done; solve_neutral|].
      eapply moves_pc; [done..|]. rewrite Epc. destruct ok; constructor.
    - intros [= <-]. eapply moves_pc; [done..|]. rewrite Epc. constructor.
  Qed.

Lemma abort_moves c st st' : abort c st = Some st' -> moves_to (view st) st'.
  Proof.
    unfold abort. destruct (st_calls st !! c) as [call|] eqn:E; [|done]. simpl.
    destruct (lc_hasSignal call && negb (lc_aborted call)) eqn:Ea; [|done]. intros [= <-].
    apply andb_true_iff in Ea as [_ Ea%negb_true_iff].
    eapply moves_call; [done..|].
    pose proof (fun o => cm_abort call o Ea) as Hm. unfold abort_pc in Hm.
    destruct (lc_kind call), (lc_pc call); apply Hm.
  Qed.

Lemma section_done_moves c call s x st :
    MutInv st -> st_calls st !! c = Some call -> lc_pc call = PExit s x -> lc_frames call = [] ->
    moves_to (view st) (section_done c call s x st).
  Proof.
    intros Hmu E Epc Ef.
    assert (Hd : s = SAdmit \/ s = SMutation -> moves_to (view st) (set_call c (finish x call) st)).
    { intros Hs. eapply moves_call; [done..|]. by eapply cm_finish. }
    assert (Ho : s <> SAdmit -> s <> SMutation -> moves_to (view st)
      (set_call c (with_stack (lc_outer call) [] (lc_here call) (PExit SMutation x) call) st)).
    { intros ? ?. eapply moves_call; [done..|]. by eapply cm_outer. }
    assert (Hp : forall pc, pc_move call (PExit s x) pc -> moves_to (view st) (set_call c (with_pc pc call) st)).
    { intros pc Hm. eapply moves_pc; [done..|]. by rewrite Epc. }
    destruct s; simpl.
    - destruct x; try (apply Hd; by left). apply waitForIdle_moves; [done..|]. by right.
    - apply Hd. by right.
    - destruct x; [..|by apply Ho]; (destruct (lc_kind call) as [|? []] eqn:Ek;
        [apply sync_moves| |apply sync_moves]); try (apply Hp; by constructor);
        apply (MutInv_set_call _ _ call); try done; solve_neutral.
    - apply sync_moves; [|apply Hp; by constructor]. apply (MutInv_set_call _ _ call); try done; solve_neutral.
    - by apply Ho.
  Qed.

Lemma unwind_moves c st st' : MutInv st -> unwind c st = Some st' -> moves_to (view st) st'.
  Proof.
    intros Hmu. unfold unwind. destruct (st_calls st !! c) as [call|] eqn:E; [|done]. simpl.
    destruct (lc_pc call) as [| | | | | | | | | | |s x| |] eqn:Epc; try done.
    destruct (lc_frames call) as [|fr rest] eqn:Ef.
    - intros [= <-]. by apply section_done_moves.
    - destruct (fr_writer fr) eqn:Ew.
      + destruct (fnSettled _ _ _) as [w|] eqn:Es; [|done]. intros [= <-]. apply rtc_once.
        by eapply (mv_leave _ _ c call s x fr rest w).
      + intros [= <-]. eapply moves_call; [done..|]. by eapply cm_pop.
  Qed.

Lemma resume_moves c st st' : MutInv st -> resume c st = Some st' -> moves_to (view st) st'.
  Proof.
    intros Hmu. unfold resume. destruct (st_calls st !! c) as [call|] eqn:E; [|done]. simpl.
    destruct (lc_pc call) as [| | |[]| | | | | | | | | |] eqn:Epc; try done; intros [= <-].
    - apply sync_moves; [apply (MutInv_set_call _ _ call); try done; solve_neutral|].
      eapply moves_pc; [done..|]. rewrite Epc. constructor.
    - eapply moves_same; [| |eapply (moves_pc (view st) st c call); [done..|rewrite Epc; constructor]]; done.
  Qed.

Lemma alter_lookup (f : LifecycleCall -> LifecycleCall) (c : nat) (cs : list LifecycleCall) :
    alter f c cs = match cs !! c with Some x => <[c := f x]> cs | None => cs end.
  Proof.
    destruct (cs !! c) as [x|] eqn:E; apply list_eq; intros i.
    - destruct (decide (c = i)) as [<-|Hne].
      + rewrite list_lookup_alter_eq, E, list_lookup_insert_eq; [done|by eapply lookup_lt_Some].
      + by rewrite list_lookup_alter_ne, list_lookup_insert_ne.
    - destruct (decide (c = i)) as [<-|Hne]; [by rewrite list_lookup_alter_eq, E|].
      by rewrite list_lookup_alter_ne.
  Qed.

Lemma answer_calls t ok st : st_calls (answer t ok st) = alter (answer_call t ok) (owner t) (st_calls st).
  Proof.
    rewrite alter_lookup.
    destruct t as [c|c]; simpl; (destruct (st_calls st !! c) as [call|] eqn:E; [|done]);
      destruct (lc_pc call); try done; try (symmetry; by apply list_insert_id).
    destruct (lc_frames call); [symmetry; by apply list_insert_id|done].
  Qed.

Lemma answer_writers t ok st : st_writers (answer t ok st) = st_writers st.
  Proof.
    destruct t as [c|c]; simpl; (destruct (st_calls st !! c) as [call|]; [|done]);
      destruct (lc_pc call); try done. by destruct (lc_frames call).
  Qed.

Lemma start_moves v st a t x ctx :
    MutInv st -> rtc lock_move v (Some (a, t), st_writers st, st_calls st) ->
    inflight (st_writers st) a = Some (t, x, None) -> loop_context (st_writers st) a = Some ctx ->
    moves_to v (start a t {| ctx_writer := Some x; ctx_stores := ctx_stores ctx |} st).
  Proof.
    intros Hmu Hv Hi Hc.
    assert (Hlost : (forall call, st_calls st !! owner t = Some call -> task_waits t call = false) ->
      moves_to v st) by (intros; eapply rtc_r; [done|]; by apply mv_lost).
    destruct t as [c|c]; simpl in *; (destruct (st_calls st !! c) as [call|] eqn:E; [|by apply Hlost]).
    - destruct (lc_pc call) as [| |s k rest| | | | | | | | | | |] eqn:Epc;
        try (apply Hlost; intros y [= <-]; by rewrite Epc).
      apply sync_moves; [|eapply rtc_r; [done|]; by eapply mv_enter].
      pose proof (call_wf_rest _ _ _ Hmu E) as Hrest. rewrite Epc, Forall_forall in Hrest. simpl in Hrest.
      apply (MutInv_set_call _ _ call); try done; solve_neutral.
      intros k' Hk'. apply Hrest. by right.
    - destruct (lc_aborted call) eqn:Ea; [eapply rtc_r; [done|]; by eapply mv_drop|].
      destruct (lc_pc call) eqn:Epc; try (apply Hlost; intros y [= <-]; by rewrite Epc).
      eapply rtc_r; [done|]. by eapply mv_check.
  Qed.

Lemma drain_loop_moves a st st' : MutInv st -> drain_loop a st = Some st' -> moves_to (view st) st'.
  Proof.
    intros Hmu. unfold drain_loop. destruct (drainContinues _ _) as [[[w [t ok]] started]|] eqn:E; [|done].
    intros [= <-]. destruct (drainContinues_views _ _ _ _ _ _ E) as (x & ctx & _ & _ & Hm).
    pose proof (mv_drain (st_writers st) (st_calls st) a t ok started w E) as Hd.
    set (st1 := answer t ok (set_writers w st)).
    assert (Hw : st_writers st1 = w) by apply answer_writers.
    assert (Hc : st_calls st1 = alter (answer_call t ok) (owner t) (st_calls st)) by (exact (answer_calls t ok (set_writers w st))).
    apply rtc_once in Hd. rewrite <- Hw, <- Hc in Hd.
    destruct started as [[t' ctx']|]; [|done].
    destruct (waiting (st_writers st) a) as [|t2 rest]; [by destruct Hm|].
    destruct Hm as (ctx2 & [= <- <-] & Es).
    pose proof (start_task_views (st_writers st) a ctx t' rest a) as Hv. cbv zeta in Hv.
    pose proof (start_task_context (st_writers st) a ctx t' rest) as Hx. rewrite <- Es in Hv, Hx.
    simpl in Hv, Hx. rewrite Hx. destruct Hv as (Hi & _ & Hl).
    rewrite decide_True in Hi by done. rewrite decide_True in Hl by done.
    apply start_moves; rewrite ?Hw; [by apply answer_mut|by rewrite <- Hw|done..].
  Qed.

Lemma step_moves e st st' : MutInv st -> lifecycle_step e st = Some st' -> moves_to (view st) st'.
  Proof.
    intros Hmu. assert (Hs : forall s, st_writers s = st_writers st -> st_calls s = st_calls st -> moves_to (view st) s).
    { intros s Hw Hc. by eapply moves_same. }
    destruct e; simpl.
    - destruct (ctx_okb _ _) eqn:Ec; [|done]. intros [= <-]. by apply begin_admission_moves, ctx_okb_ok.
    - destruct (ctx_okb _ _) eqn:Ec; [|done]. intros [= <-]. by apply begin_mutation_moves, ctx_okb_ok.
    - by apply callback_moves.
    - by apply abort_moves.
    - by apply unwind_moves.
    - by apply resume_moves.
    - by apply drain_loop_moves.
    - destruct (leased _ _); [|done]. intros [= <-]. by apply Hs.
    - destruct (_ && _); [|done]. destruct (createSessionWorkAdmissionHandoff _ _ _); [|done].
      intros [= <-]. by apply Hs.
    - destruct (consumeSessionWorkAdmissionHandoff _ _ _ _ _) as [[[? ?] ?]|]; [|done].
      intros [= <-]. by apply Hs.
    - intros [= <-]. by apply Hs.
    - unfold interruptSessionWorkAdmissions. destruct (normalizeSessionIdentities _ _); [|done].
      intros [= <-]. by apply Hs.
    - unfold interrupt_drained. destruct (_ !! i) as [it|]; [|done]. simpl.
      destruct (_ && _); [|done]. intros [= <-]. by apply Hs.
    - unfold interrupt_timer. destruct (_ !! i) as [it|]; [|done]. simpl.
      destruct (_ && _); [|done]. intros [= <-]. by apply Hs.
    - intros [= <-]. by apply Hs.
  Qed.

  (** What every move keeps holds in every reachable state. *)
Lemma reachable_moves (P : LockView -> Prop) g st :
    P (None, no_writers, []) -> (forall v v', P v -> lock_move v v' -> P v') ->
    lifecycle_reachable g st -> P (view st).
  Proof.
    intros Hi Hm. induction 1 as [|s e s' Hr IH Hs]; [done|].
    apply step_moves in Hs; [|by eapply reachable_mut]. unfold moves_to in Hs. revert IH.
    induction Hs as [|x y z Hxy _ IH]; [done|]. intros Hx. apply IH. by eapply Hm.
  Qed.
End moves.
