(* ===== verification/SessionShape.v ===== *)
(** * The shape of calls on sessions

    In every reachable state the locks a call holds are the ones its program
    counter says: the keys locked so far, outermost first, under the mutation
    locks of all its keys inside a mutation.  And a call never stands where it
    could go on by itself. *)
From S2P Require Import Prelude JsString JsMap WorkAdmission StoreWriterQueue SessionIdentity SessionLifecycle SessionMutations SessionMoves.
#[local] Open Scope nat_scope.

(** ** Running to an await *)

Section stable.
  Context {A : Type} `{AdmissionInterface A}.
  Implicit Types (st : LifecycleState A).

Lemma sync_steps_zero call st c :
    st_calls st !! c = Some call -> sync_steps call = 0 -> micro c st = None.
  Proof.
    intros E. unfold micro, sync_steps. rewrite E. destruct (lc_pc call) as [|[] ?| | | | | | | | | | | |]; done || lia.
  Qed.

Lemma set_call_lookup c call st : c < length (st_calls st) -> st_calls (set_call c call st) !! c = Some call.
  Proof. intros Hl. simpl. by rewrite list_lookup_insert_eq. Qed.

Ltac settles :=
    eexists; split; [by apply set_call_lookup|unfold sync_steps at 1; simpl; lia].

  (** One statement brings a call nearer to its next [await]. *)
Lemma micro_steps c st st' call :
    st_calls st !! c = Some call -> micro c st = Some st' ->
    exists call', st_calls st' !! c = Some call' /\ sync_steps call' < sync_steps call.
  Proof.
    intros E. assert (Hl : c < length (st_calls st)) by (by eapply lookup_lt_Some).
    unfold micro. rewrite E. destruct (lc_pc call) as [|s [|k rest]| | | | | | | | | | | |] eqn:Epc; try done; intros [= <-].
    - assert (Hn : 1 + length (lc_identities call) < sync_steps call) by (unfold sync_steps; rewrite Epc; lia).
      destruct (lc_aborted call) eqn:Ea; [settles|].
      destruct (hasActiveSessionLifecycleMutation _ _).
      + unfold waitForIdle. rewrite Ea.
        destruct (active_identities _ _); settles.
      + settles.
    - assert (Hn : (if s is SMutation then 1 + length (lc_identities call) else 0) < sync_steps call)
        by (unfold sync_steps; rewrite Epc; destruct s; simpl; lia).
      destruct s; simpl in Hn |- *.
      + destruct (lc_aborted call); [|destruct (hasActiveSessionLifecycleMutation _ _)];
          settles.
      + settles.
      + destruct (lc_aborted call); settles.
      + settles.
      + destruct (deactivate _ _ _ _) as [m resolved]. eexists. split.
        * apply set_call_lookup. simpl. clear -Hl. revert Hl. generalize (st_calls st).
          induction resolved as [|p res IH]; intros cs Hl; simpl; [done|]. apply IH. unfold wake.
          destruct p as [k d]. destruct (cs !! d) as [x|]; [|done]. destruct (lc_pc x); try done.
          by rewrite length_insert.
        * unfold sync_steps at 1. simpl. lia.
    - assert (Hn : (if s is SMutation then 2 + length rest + length (lc_identities call)
        else 1 + length rest) < sync_steps call)
        by (unfold sync_steps; rewrite Epc; destruct s; simpl; lia).
      unfold take_lock. destruct (runQueuedStoreWrite _ _ _ _ _) as [[w r]|].
      + eexists. split; [by apply set_call_lookup|].
        destruct r; unfold sync_steps at 1; simpl; destruct s; simpl in *; lia.
      + destruct s; simpl in Hn; settles.
  Qed.

Lemma sync_fuel_settles n c st call :
    st_calls st !! c = Some call -> sync_steps call <= n -> micro c (sync_fuel n c st) = None.
  Proof.
    revert st call. induction n as [|n IH]; intros st call E Hn; simpl.
    - eapply sync_steps_zero; [done|lia].
    - destruct (micro c st) as [st'|] eqn:Em; [|done].
      destruct (micro_steps _ _ _ _ E Em) as (call' & E' & Hlt). eapply IH; [done|lia].
  Qed.

Lemma sync_fuel_runs n c st :
    exists m, m <= n /\ nsteps (fun s s' => micro c s = Some s') m st (sync_fuel n c st).
  Proof.
    revert st. induction n as [|n IH]; intros st; simpl.
    - exists 0. split; [done|constructor].
    - destruct (micro c st) as [st'|] eqn:Em; [|exists 0; split; [lia|constructor]].
      destruct (IH st') as (m & Hm & Hr). exists (S m). split; [lia|]. by econstructor.
  Qed.

Lemma sync_micro c st : micro c (sync c st) = None.
  Proof.
    unfold sync. destruct (st_calls st !! c) as [call|] eqn:E; [by eapply sync_fuel_settles|].
    unfold micro. by rewrite E.
  Qed.

  (** A call that runs comes to an [await], or to its end, after finitely many
      statements: [sync] runs all of them, and their number is bounded by the keys
      the call has still to lock. *)
Theorem calls_reach_an_await c st :
    micro c (sync c st) = None /\
    exists n, nsteps (fun s s' => micro c s = Some s') n st (sync c st) /\
      n <= match st_calls st !! c with Some call => sync_steps call | None => 0 end.
  Proof.
    split; [apply sync_micro|]. unfold sync. destruct (st_calls st !! c) as [call|] eqn:E.
    - destruct (sync_fuel_runs (sync_steps call) c st) as (m & ? & ?). eauto.
    - exists 0. split; [constructor|done].
  Qed.
End stable.

(** ** Locks by program counter *)

Definition lane_addrs (lane : LockLane) (keys : list jstr) : list (LockLane * jstr) :=
  (fun k => (lane, k)) <$> keys.

(** The section belongs to the function that was called. *)
Definition section_of (kind : CallKind) (s : LockSection) : Prop :=
  match kind, s with
  | BeginAdmission _ _, SAdmit => True
  | RunMutation _ _, SMutation | RunMutation _ _, SActivate => True
  | RunMutation _ _, SRun | RunMutation _ _, SCleanup _ => True
  | _, _ => False
  end.

(** The call is in a section with [rest] still to lock. *)
Definition in_section (call : LifecycleCall) (s : LockSection) (rest : list jstr) : Prop :=
  section_of (lc_kind call) s /\
  (exists locked, lc_identities call = locked ++ rest /\
     fr_addr <$> lc_frames call = lane_addrs (section_lane s) (rev locked)) /\
  fr_addr <$> lc_outer call =
    match s with
    | SAdmit | SMutation => []
    | _ => lane_addrs MutationQueues (rev (lc_identities call))
    end.

Definition is_admission (call : LifecycleCall) : Prop :=
  match lc_kind call with BeginAdmission _ _ => True | _ => False end.

Definition shape (call : LifecycleCall) : Prop :=
  match lc_pc call with
  | PLoop | PWaitIdle _ => is_admission call /\ lc_frames call = [] /\ lc_outer call = []
  | PTry s rest => in_section call s rest
  | PQueued s k rest => in_section call s (k :: rest)
  | PAssert | PRevalidate _ _ | PBarrierDone _ _ | PFailed _ _ => in_section call SAdmit []
  | PBarrier _ => in_section call SAdmit [] /\ lc_aborted call = false
  | PPrepare => in_section call SRun (lc_identities call)
  | PRun => in_section call SRun []
  | PExit s _ | PExitWait s _ => exists rest, in_section call s rest
  | PDone => lc_frames call = [] /\ lc_outer call = []
  end.

Lemma in_section_same call call' s rest :
  lc_kind call' = lc_kind call -> lc_identities call' = lc_identities call ->
  lc_frames call' = lc_frames call -> lc_outer call' = lc_outer call ->
  in_section call s rest -> in_section call' s rest.
Proof. unfold in_section. by intros -> -> -> ->. Qed.

Lemma in_section_start call s :
  section_of (lc_kind call) s -> lc_frames call = [] ->
  fr_addr <$> lc_outer call =
    match s with SAdmit | SMutation => [] | _ => lane_addrs MutationQueues (rev (lc_identities call)) end ->
  in_section call s (lc_identities call).
Proof. intros Hs Hf Ho. split; [done|]. split; [|done]. exists []. by rewrite Hf. Qed.

Lemma in_section_pc call pc s rest : in_section call s rest -> in_section (with_pc pc call) s rest.
Proof. done. Qed.

Lemma in_section_take call s k rest a writer ctx here pc :
  in_section call s (k :: rest) -> a = (section_lane s, k) ->
  in_section (push_frame a writer here pc call) s rest /\ 
  in_section (with_stack ({| fr_addr := a; fr_writer := writer; fr_context := ctx |} :: lc_frames call)
    (lc_outer call) here pc call) s rest.
Proof.
  intros (Hs & (locked & Hid & Hf) & Ho) ->.
  assert (Hl : lc_identities call = (locked ++ [k]) ++ rest) by (by rewrite <- app_assoc).
  split; (split; [done|]; split; [|done]; exists (locked ++ [k]); split; [done|];
    rewrite rev_app_distr; cbn [rev app push_frame with_stack lc_frames];
    unfold lane_addrs in *; rewrite !fmap_cons, Hf; done).
Qed.

Lemma in_section_pop call s rest fr frames here pc :
  in_section call s rest -> lc_frames call = fr :: frames ->
  exists k, fr_addr fr = (section_lane s, k) /\
    in_section (with_stack frames (lc_outer call) here pc call) s (k :: rest).
Proof.
  intros (Hs & (locked & Hid & Hf) & Ho) E. rewrite E in Hf.
  destruct locked as [|k locked _] using rev_ind; [done|].
  rewrite rev_app_distr in Hf. simpl in Hf. injection Hf as Ha Hf. exists k. split; [done|].
  split; [done|]. split; [|done]. exists locked. split; [cbn; by rewrite Hid, <- app_assoc|done].
Qed.

Lemma section_admission call s : is_admission call -> section_of (lc_kind call) s -> s = SAdmit.
Proof. unfold is_admission, section_of. destruct (lc_kind call), s; done. Qed.

Lemma section_inner call s rest :
  in_section call s rest -> s <> SAdmit -> s <> SMutation ->
  (forall s', s' <> SAdmit -> s' <> SMutation -> section_of (lc_kind call) s') /\
  fr_addr <$> lc_outer call = lane_addrs MutationQueues (rev (lc_identities call)).
Proof.
  intros (Hs & _ & Ho) H1 H2. unfold section_of in *. split.
  - intros s' ? ?. destruct (lc_kind call), s, s'; done.
  - by destruct s.
Qed.

Lemma section_outer call s rest :
  in_section call s rest -> s = SAdmit \/ s = SMutation -> lc_outer call = [].
Proof. intros (_ & _ & Ho) [->| ->]; eapply fmap_nil_inv; exact Ho. Qed.

(** ** Every move keeps the shape *)

Section preserved.

Lemma pc_move_shape call pc : shape call -> pc_move call (lc_pc call) pc -> shape (with_pc pc call).
  Proof.
    intros Hs Hm. unfold shape in Hs |- *. simpl.
    remember (lc_pc call) as pc0 eqn:Epc. destruct Hm; simpl in Hs |- *;
      try (by eapply in_section_same); try (by eexists; eapply in_section_same).
    - destruct Hs as (Hk & Hf & Ho). apply in_section_pc, in_section_start; [|done|by rewrite Ho].
      unfold is_admission in Hk. by destruct (lc_kind call).
    - destruct Hs as [rest Hs]. destruct (section_inner _ _ _ Hs) as [Hk Ho]; [done..|].
      by apply in_section_pc, in_section_start; [apply Hk| |].
    - destruct Hs as [rest Hs]. destruct (section_inner _ _ _ Hs) as [Hk Ho]; [done..|].
      by apply in_section_pc, in_section_start; [apply Hk| |].
    - destruct Hs as [rest Hs]. destruct (section_inner _ _ _ Hs) as [Hk Ho]; [done..|].
      by apply in_section_pc, in_section_start; [apply Hk| |].
    - done.
  Qed.

Lemma call_move_shape call call' : shape call -> call_move call call' -> shape call'.
  Proof.
    intros Hs Hm. destruct Hm as [call pc Hm|call keys Hl|call x Hl|call s x Epc Hor Hf|call l Epc|call Epc
      |call s x Epc H1 H2 Hf|call s x fr rest Epc Hf Hw|call o Ha].
    - by apply pc_move_shape.
    - unfold shape in *. simpl. destruct Hl as [Epc|[Epc Hf]]; rewrite Epc in Hs; [done|].
      destruct Hs as [rest Hs]. split; [|split; [done|eapply section_outer; [done|by left]]].
      destruct Hs as (Hk & _). unfold is_admission, section_of in *. simpl. by destruct (lc_kind call).
    - unfold shape in *. simpl. destruct Hl as [Epc|[Epc Hf]]; rewrite Epc in Hs; [tauto|].
      destruct Hs as [rest Hs]. split; [done|eapply section_outer; [done|by left]].
    - unfold shape in *. simpl. rewrite Epc in Hs. destruct Hs as [rest Hs].
      split; [done|by eapply section_outer].
    - unfold shape in *. simpl. rewrite Epc in Hs. destruct Hs as (Hk & (l' & Hid & Hf) & _).
      rewrite app_nil_r in Hid. split; [|split].
      + simpl. unfold section_of in *. by destruct (lc_kind call).
      + exists []. done.
      + simpl. by rewrite Hid.
    - unfold shape in *. simpl. rewrite Epc in Hs. eexists. by eapply in_section_same.
    - unfold shape in *. simpl. rewrite Epc in Hs. destruct Hs as [rest Hs].
      destruct (section_inner _ _ _ Hs) as [_ Ho]; [done..|]. exists [].
      destruct Hs as (Hk & _). split; [|split; [|done]].
      + simpl. unfold section_of in *. by destruct (lc_kind call), s.
      + exists (lc_identities call). split; [by rewrite app_nil_r|done].
    - unfold shape in *. simpl. rewrite Epc in Hs. destruct Hs as [rest' Hs].
      destruct (in_section_pop _ _ _ _ _ (fr_context fr) (PExit s x) Hs Hf) as (k & _ & Hs'). eauto.
    - unfold shape, abort_pc in *. simpl.
      destruct (lc_kind call) eqn:Ek, (lc_pc call) eqn:Epc; simpl in *;
        try (by eapply in_section_same); try (by destruct Hs as [rest Hs]; eexists; eapply in_section_same);
        try (by destruct Hs as [Hs _]; eapply in_section_same).
      all: try exact Hs; try tauto.
      destruct Hs as [(Hk & _) _]. unfold section_of in Hk. by rewrite Ek in Hk.
  Qed.

Lemma locked_shape call a s k rest r :
    shape call -> lc_pc call = PTry s (k :: rest) -> a = (section_lane s, k) ->
    shape (locked a s k rest r call).
  Proof.
    intros Hs Epc Ha. unfold shape in Hs. rewrite Epc in Hs. unfold locked.
    destruct r; unfold shape; simpl.
    - by apply (in_section_take call s k rest a None (lc_here call)).
    - by apply (in_section_take call s k rest a (ctx_writer ctx) (lc_here call)).
    - by eapply in_section_same.
  Qed.

Lemma answer_call_shape t ok call : shape call -> shape (answer_call t ok call).
  Proof.
    intros Hs. unfold answer_call. destruct t as [c|c], (lc_pc call) eqn:Epc; try done.
    - destruct (lc_frames call) as [|fr rest] eqn:Ef; [done|]. unfold shape in *. rewrite Epc in Hs.
      destruct Hs as [rest' Hs]. simpl.
      destruct (in_section_pop _ _ _ _ _ (fr_context fr) (PExit s x) Hs Ef) as (k & _ & Hs'). eauto.
    - unfold shape in *. rewrite Epc in Hs. destruct ok; simpl; [eexists|]; by eapply in_section_same.
  Qed.

Lemma fresh_shape w call : fresh_call w call -> shape call.
  Proof.
    intros (_ & _ & Hf & Ho & _ & Hm). unfold shape.
    destruct (lc_kind call) eqn:Ek, (lc_pc call) eqn:Epc; try done.
    - unfold is_admission. by rewrite Ek.
    - destruct s; try done. subst. apply in_section_start; [by rewrite Ek|done|by rewrite Ho].
  Qed.

Definition Shapes (v : LockView) : Prop := forall c call, v.2 !! c = Some call -> shape call.

Lemma Shapes_insert p w cs p' w' c call :
    Shapes (p, w, cs) -> shape call -> Shapes (p', w', <[c := call]> cs).
  Proof.
    intros Hs Hc d x [(<- & <- & _)|[_ Ex]]%list_lookup_insert_Some; [done|]. by eapply (Hs d).
  Qed.

Lemma move_shapes v v' :
    Shapes v -> lock_move v v' ->
    (forall a c call s k rest, v.1.1 = Some (a, TLock c) -> v.2 !! c = Some call ->
       lc_pc call = PQueued s k rest -> a = (section_lane s, k)) ->
    Shapes v'.
  Proof.
    intros Hs Hm He.
    assert (Hc : forall c call, v.2 !! c = Some call -> shape call) by done.
    destruct Hm; simpl in Hc; try (by intros d x; apply Hc).
    - eapply Shapes_insert; [exact Hs|]. eapply call_move_shape; [by eapply Hc|done].
    - eapply Shapes_insert; [exact Hs|]. pose proof (Hc _ _ H) as Hx. unfold shape in *.
      rewrite H0 in Hx. by eapply in_section_same.
    - intros d x. simpl. rewrite wake_lookup. destruct (cs !! d) as [y|] eqn:E; [|done]. intros [= <-].
      specialize (Hc d y E). unfold woken, shape in *. destruct (lc_pc y) eqn:Ey; simpl; by rewrite ?Ey.
    - intros d x [[_ E]|[_ <-]]%lookup_snoc_Some; [by eapply Hc|by eapply fresh_shape].
    - eapply Shapes_insert; [exact Hs|]. apply locked_shape; [by eapply Hc|done|done].
    - eapply Shapes_insert; [exact Hs|]. pose proof (Hc _ _ H) as Hx. unfold shape in *.
      rewrite H0 in Hx. destruct Hx as [r Hx]. exists r. by eapply in_section_same.
    - eapply Shapes_insert; [exact Hs|]. pose proof (Hc _ _ H) as Hx. unfold shape, barrier_pc in *.
      rewrite H0 in Hx. destruct (lc_aborted call) eqn:Ea; [|destruct r]; simpl;
        try split; try done; by eapply in_section_same.
    - eapply Shapes_insert; [exact Hs|]. pose proof (Hc _ _ H) as Hx. unfold shape in *.
      rewrite H0 in Hx. by eapply in_section_same.
    - intros d x. simpl. rewrite list_lookup_alter. case_decide as E.
      + destruct (cs !! owner t) as [y|] eqn:Ey; [|done]. intros [= <-]. by eapply answer_call_shape, Hc.
      + by apply Hc.
    - eapply Shapes_insert; [exact Hs|]. pose proof (Hc _ _ H) as Hx. unfold shape in *.
      rewrite H0 in Hx. eapply in_section_take; [exact Hx|]. by eapply He.
    - eapply Shapes_insert; [exact Hs|]. pose proof (Hc _ _ H) as Hx. unfold shape in *.
      rewrite H1 in Hx. destruct Hx as [Hx _]. by eapply in_section_same.
  Qed.
End preserved.
