(* ===== verification/SessionLocks.v ===== *)
(** * The locks of sessions

    How the calls of [SessionLifecycle] and the queues of [StoreWriterQueue] fit
    together in every reachable state: a task waits in a queue exactly while its
    call waits for it, and a lock is held by the call whose task is in flight. *)
From S2P Require Import Prelude JsString JsMap WorkAdmission StoreWriterQueue SessionIdentity SessionLifecycle SessionMutations SessionMoves SessionShape.
#[local] Open Scope nat_scope.

(** ** Views of a call *)

Inductive LockPhase :=
  | LFree | LQueued (a : LockLane * jstr) | LBarrier | LChecking | LChecked (ok : bool) | LExitWait.

Definition phase_of (pc : ProgramCounter) : LockPhase :=
  match pc with
  | PQueued s k _ => LQueued (section_lane s, k)
  | PBarrier _ => LBarrier
  | PRevalidate _ false => LChecking
  | PBarrierDone _ ok => LChecked ok
  | PExitWait _ _ => LExitWait
  | _ => LFree
  end.

Definition phase (call : LifecycleCall) : LockPhase := phase_of (lc_pc call).

Definition held (call : LifecycleCall) : list Frame := lc_frames call ++ lc_outer call.

(** The locks that were taken through a queue. *)
Definition is_queued_frame (fr : Frame) : bool := bool_decide (is_Some (fr_writer fr)).

Definition qheld (call : LifecycleCall) : list Frame := List.filter is_queued_frame (held call).

(** The call left its barrier behind: it was aborted while the barrier was queued
    or running. *)
Definition gone (call : LifecycleCall) : bool :=
  lc_aborted call &&
  match lc_pc call with
  | PFailed _ _ | PExit SAdmit (XErr _) | PExitWait SAdmit (XErr _) | PDone => true
  | _ => false
  end.

(** The call waits for its task at an address. *)
Definition waits_call (call : LifecycleCall) (t : LockTask) (a : LockLane * jstr) : Prop :=
  match t with
  | TLock _ => phase call = LQueued a
  | TBarrier _ => barrier_addr call = a /\ (phase call = LBarrier \/ gone call = true)
  end.

(** The innermost lock is being left. *)
Definition leaving (call : LifecycleCall) (fr : Frame) : Prop :=
  phase call = LExitWait /\ head (lc_frames call) = Some fr.

(** The call runs in its task at an address. *)
Definition owns_call (call : LifecycleCall) (a : LockLane * jstr) (t : LockTask) (x : nat)
    (o : option bool) : Prop :=
  match t with
  | TLock _ => exists fr, fr ∈ qheld call /\ fr_addr fr = a /\ fr_writer fr = Some x /\
                 (is_Some o <-> leaving call fr)
  | TBarrier _ => barrier_addr call = a /\
      match o with
      | None => phase call = LChecking
      | Some ok => phase call = LChecked ok \/ gone call = true
      end
  end.

Section invariant.
  Implicit Types (p : Started_task) (w : Writers) (cs : list LifecycleCall).

  (** What the state of a call says about the queues. *)
Record claims p w (c : nat) (call : LifecycleCall) : Prop := {
    cl_queued : forall a, phase call = LQueued a -> TLock c ∈ waiting w a \/ p = Some (a, TLock c);
    cl_barrier : phase call = LBarrier ->
      TBarrier c ∈ waiting w (barrier_addr call) \/ p = Some (barrier_addr call, TBarrier c);
    cl_held : forall fr x, fr ∈ qheld call -> fr_writer fr = Some x ->
      exists o, inflight w (fr_addr fr) = Some (TLock c, x, o) /\ (is_Some o <-> leaving call fr);
    cl_nodup : NoDup (fr_addr <$> qheld call);
    cl_exit : phase call = LExitWait ->
      exists fr, head (lc_frames call) = Some fr /\ is_Some (fr_writer fr);
    cl_checking : phase call = LChecking ->
      exists x, inflight w (barrier_addr call) = Some (TBarrier c, x, None);
    cl_checked : forall ok, phase call = LChecked ok ->
      exists x, inflight w (barrier_addr call) = Some (TBarrier c, x, Some ok);
    cl_free : forall a t, p = Some (a, t) -> forall fr, fr ∈ qheld call -> fr_addr fr <> a;
  }.

  (** What a queue says about the calls. *)
Record contents p w cs (a : LockLane * jstr) : Prop := {
    co_nodup : NoDup (waiting w a);
    co_waiting : forall t, t ∈ waiting w a -> exists call, cs !! owner t = Some call /\ waits_call call t a;
    co_inflight : forall t x o, inflight w a = Some (t, x, o) ->
      p = Some (a, t) \/ exists call, cs !! owner t = Some call /\ owns_call call a t x o;
    co_pending : forall t, p = Some (a, t) ->
      (exists call, cs !! owner t = Some call /\ waits_call call t a) /\
      t ∉ waiting w a /\ exists x, inflight w a = Some (t, x, None);
  }.

  (** The contexts a call holds were handed out. *)
Definition contexts_ok w (call : LifecycleCall) : Prop :=
    ctx_ok w (lc_here call) /\ Forall (fun fr => ctx_ok w (fr_context fr)) (held call).

Record LockInv p w cs : Prop := {
    lk_writers : WriterInv w;
    lk_contexts : forall c call, cs !! c = Some call -> contexts_ok w call;
    lk_claims : forall c call, cs !! c = Some call -> claims p w c call;
    lk_contents : forall a, contents p w cs a;
  }.

Lemma contexts_grow w w' call :
    length (sw_heap w) <= length (sw_heap w') -> contexts_ok w call -> contexts_ok w' call.
  Proof.
    intros Hl [Hh Hf]. split; [by eapply ctx_ok_grow|].
    eapply Forall_impl; [exact Hf|]. intros fr. by apply ctx_ok_grow.
  Qed.

  (** A step that changes one call and the queue of one address. *)
Lemma lock_update p p' w w' cs c call call' a :
    LockInv p w cs -> cs !! c = Some call ->
    WriterInv w' -> length (sw_heap w) <= length (sw_heap w') ->
    (forall b, b <> a -> inflight w' b = inflight w b /\ waiting w' b = waiting w b) ->
    (forall b t, b <> a -> p <> Some (b, t) /\ p' <> Some (b, t)) ->
    contexts_ok w' call' ->
    claims p' w' c call' ->
    contents p' w' (<[c := call']> cs) a ->
    (forall t, owner t <> c -> t ∈ waiting w a \/ p = Some (a, t) ->
       t ∈ waiting w' a \/ p' = Some (a, t)) ->
    (forall t x o, owner t <> c -> inflight w a = Some (t, x, o) -> inflight w' a = Some (t, x, o)) ->
    (forall b t, b <> a -> owner t = c -> waits_call call t b -> waits_call call' t b) ->
    (forall b t x o, b <> a -> owner t = c -> owns_call call b t x o -> owns_call call' b t x o) ->
    (forall d x t, d <> c -> cs !! d = Some x -> p' = Some (a, t) ->
       forall fr, fr ∈ qheld x -> fr_addr fr <> a) ->
    LockInv p' w' (<[c := call']> cs).
  Proof.
    intros [Hw Hctx Hcl Hco] Ec Hw' Hlen Hb Hp Hctx' Hcl' Hco' Hwa Hia Hwc Hoc Hfree.
    assert (Hlt : c < length cs) by (by eapply lookup_lt_Some).
    split; [done| | |].
    - intros d x [(<- & <- & _)|[_ Ex]]%list_lookup_insert_Some; [done|].
      eapply contexts_grow; [done|]. by eapply Hctx.
    - intros d x [(<- & <- & _)|[Hne Ex]]%list_lookup_insert_Some; [done|].
      destruct (Hcl d x Ex) as [H1 H2 H3 H4 H5 H6 H7 H8].
      assert (Hin : forall b t y o, owner t = d -> inflight w b = Some (t, y, o) ->
        inflight w' b = Some (t, y, o)).
      { intros b t y o Ho E. destruct (decide (b = a)) as [->|Hba].
        - apply Hia; [congruence|done].
        - by destruct (Hb b Hba) as [-> _]. }
      assert (Hwt : forall b t, owner t = d -> t ∈ waiting w b \/ p = Some (b, t) ->
        t ∈ waiting w' b \/ p' = Some (b, t)).
      { intros b t Ho E. destruct (decide (b = a)) as [->|Hba].
        - apply Hwa; [congruence|done].
        - destruct (Hb b Hba) as [_ ->]. destruct E as [?|E]; [by left|].
          by destruct (Hp b t Hba). }
      split; try done.
      + intros b E. apply Hwt; [done|]. by apply H1.
      + intros E. apply Hwt; [done|]. by apply H2.
      + intros fr y Hfr Hy. destruct (H3 fr y Hfr Hy) as (o & Ho & Hl). exists o.
        split; [by apply Hin|done].
      + intros E. destruct (H6 E) as [y Hy]. exists y. by apply Hin.
      + intros ok E. destruct (H7 ok E) as [y Hy]. exists y. by apply Hin.
      + intros b t E. destruct (decide (b = a)) as [->|Hba]; [|by destruct (Hp b t Hba)].
        by eapply Hfree.
    - intros b. destruct (decide (b = a)) as [->|Hba]; [done|].
      destruct (Hb b Hba) as [Ei Ew]. destruct (Hco b) as [Hnd Hwt Hif _]. split; rewrite ?Ei, ?Ew.
      + done.
      + intros t Ht. destruct (Hwt t Ht) as (x & Ex & Hx).
        destruct (decide (owner t = c)) as [Eo|Eo].
        * rewrite Eo in *. rewrite list_lookup_insert_eq by done. exists call'. split; [done|].
          simplify_eq. by apply Hwc.
        * rewrite list_lookup_insert_ne by done. eauto.
      + intros t x o E. destruct (Hif t x o E) as [E'|(y & Ey & Hy)]; [by destruct (Hp b t Hba)|].
        right. destruct (decide (owner t = c)) as [Eo|Eo].
        * rewrite Eo in *. rewrite list_lookup_insert_eq by done. exists call'. split; [done|].
          simplify_eq. by apply Hoc.
        * rewrite list_lookup_insert_ne by done. eauto.
      + intros t E. by destruct (Hp b t Hba).
  Qed.

  (** A change of a call that the queues do not see: its phase and its queued locks
      stay, or it gives up a barrier because it was aborted. *)
Definition lock_neutral (call call' : LifecycleCall) : Prop :=
    barrier_addr call' = barrier_addr call /\ qheld call' = qheld call /\
    (gone call = true -> gone call' = true) /\
    (phase call = LExitWait -> head (lc_frames call') = head (lc_frames call)) /\
    (phase call' = phase call \/
     (phase call = LBarrier /\ phase call' = LFree /\ gone call' = true)).

Lemma leaving_neutral call call' fr :
    lock_neutral call call' -> leaving call' fr <-> leaving call fr.
  Proof.
    intros (_ & _ & _ & Hh & [Hp|(E1 & E2 & _)]); unfold leaving.
    - rewrite Hp. split; intros [? ?]; (split; [done|]); [by rewrite <- Hh|by rewrite Hh].
    - rewrite E1, E2. split; by intros [? _].
  Qed.

Lemma owns_neutral call call' b t x o :
    lock_neutral call call' -> owns_call call b t x o -> owns_call call' b t x o.
  Proof.
    intros Hn. pose proof Hn as (Hb & Hq & Ha & _ & Hp). destruct t; simpl.
    - intros (fr & ? & ? & ? & ?). exists fr. rewrite Hq. rewrite (leaving_neutral call call') by done. done.
    - intros [? Ho]. rewrite Hb. split; [done|]. destruct o as [ok|].
      + destruct Ho as [Ho|Ho]; [|auto]. destruct Hp as [->|(E & _)]; [by left|congruence].
      + destruct Hp as [->|(E & _)]; [done|congruence].
  Qed.

Lemma waits_neutral call call' t b :
    lock_neutral call call' -> waits_call call t b -> waits_call call' t b.
  Proof.
    intros (Hb & Hq & Ha & _ & Hp). destruct t; simpl.
    - intros E. destruct Hp as [->|(E' & _)]; [done|congruence].
    - intros [? Ho]. rewrite Hb. split; [done|]. destruct Ho as [Ho|Ho]; [|auto].
      destruct Hp as [->|(E & _ & ?)]; auto.
  Qed.

Lemma claims_neutral p w c call call' :
    lock_neutral call call' -> claims p w c call -> claims p w c call'.
  Proof.
    intros Hn [H1 H2 H3 H4 H5 H6 H7 H8]. pose proof Hn as (Hb & Hq & Ha & Hh & Hp).
    split; rewrite ?Hb, ?Hq; try done;
      try (destruct Hp as [->|(E1 & E2 & _)]; [done|rewrite E2; done]).
    - intros fr x Hfr Hx. destruct (H3 fr x Hfr Hx) as (o & ? & Hl). exists o.
      rewrite (leaving_neutral call call') by done. done.
    - destruct Hp as [Hp|(E1 & E2 & _)]; [|by rewrite E2]. rewrite Hp. intros E.
      rewrite Hh by done. auto.
  Qed.

Lemma LockInv_neutral p w cs c call call' :
    LockInv p w cs -> cs !! c = Some call -> lock_neutral call call' -> contexts_ok w call' ->
    LockInv p w (<[c := call']> cs).
  Proof.
    intros [Hw Hctx Hcl Hco] Ec Hn Hctx'. assert (Hlt : c < length cs) by (by eapply lookup_lt_Some).
    split; [done| | |].
    - intros d x [(<- & <- & _)|[_ Ex]]%list_lookup_insert_Some; [done|by eapply Hctx].
    - intros d x [(<- & <- & _)|[_ Ex]]%list_lookup_insert_Some; [|by apply Hcl].
      eapply claims_neutral; [done|]. by apply Hcl.
    - assert (Hwait : forall t a, (exists x, cs !! owner t = Some x /\ waits_call x t a) ->
        exists x, <[c := call']> cs !! owner t = Some x /\ waits_call x t a).
      { intros t a (x & Ex & Hx). destruct (decide (owner t = c)) as [Eo|Eo].
        - rewrite Eo in *. rewrite list_lookup_insert_eq by done. exists call'. split; [done|].
          simplify_eq. by eapply waits_neutral.
        - rewrite list_lookup_insert_ne by done. eauto. }
      intros a. destruct (Hco a) as [Hnd Hwt Hif Hpe]. split; [done| | |].
      + intros t Ht. by apply Hwait, Hwt.
      + intros t x o E. destruct (Hif t x o E) as [?|(y & Ey & Hy)]; [by left|right].
        destruct (decide (owner t = c)) as [Eo|Eo].
        * rewrite Eo in *. rewrite list_lookup_insert_eq by done. exists call'. split; [done|].
          simplify_eq. by eapply owns_neutral.
        * rewrite list_lookup_insert_ne by done. eauto.
      + intros t E. destruct (Hpe t E) as (? & ? & ?). split; [by apply Hwait|done].
  Qed.

Lemma LockInv_new w cs call :
    LockInv None w cs -> phase call = LFree -> held call = [] -> ctx_ok w (lc_here call) ->
    LockInv None w (cs ++ [call]).
  Proof.
    intros [Hw Hctx Hcl Hco] Hp Hh Hc. assert (Hq : qheld call = []) by (unfold qheld; by rewrite Hh).
    split; [done| | |].
    - intros c x [[_ E]|[_ <-]]%lookup_snoc_Some; [by eapply Hctx|]. split; [done|]. by rewrite Hh.
    - intros c x [[_ E]|[_ <-]]%lookup_snoc_Some; [by apply Hcl|].
      split; rewrite ?Hp, ?Hq; try done; [by intros ? ? ?%elem_of_nil|constructor].
    - intros a. destruct (Hco a) as [Hnd Hwt Hif Hpe]. split; [done| | |done].
      + intros t Ht. destruct (Hwt t Ht) as (x & Ex & Hx). exists x.
        split; [by apply lookup_app_l_Some|done].
      + intros t x o E. destruct (Hif t x o E) as [?|(y & Ey & Hy)]; [by left|right]. exists y.
        split; [by apply lookup_app_l_Some|done].
  Qed.
End invariant.

(** ** Lock steps *)

#[local] Ltac keep_tasks :=
  try done; try congruence;
  try (match goal with H : lc_pc ?c = _ |- gone ?c = true -> _ => unfold gone; rewrite H; done end).

Section steps.
  Implicit Types (w : Writers) (cs : list LifecycleCall).

  (** What a call that is not waiting keeps of its tasks. *)
Lemma free_waits call call' t b :
    phase call = LFree -> barrier_addr call' = barrier_addr call -> (gone call = true -> gone call' = true) ->
    waits_call call t b -> waits_call call' t b.
  Proof.
    intros Hp Hb Ha. destruct t; simpl; [congruence|].
    intros [? [?|?]]; [congruence|]. rewrite Hb. auto.
  Qed.

Lemma free_owns call call' t b x o :
    phase call = LFree -> barrier_addr call' = barrier_addr call -> (gone call = true -> gone call' = true) ->
    (forall fr, fr ∈ qheld call -> fr_addr fr = b -> fr ∈ qheld call' /\ ~ leaving call' fr) ->
    owns_call call b t x o -> owns_call call' b t x o.
  Proof.
    intros Hp Hb Ha Hf. destruct t; simpl.
    - intros (fr & Hin & Ea & Ew & Hl). destruct (Hf fr Hin Ea) as [Hin' Hn]. exists fr.
      split_and!; try done. rewrite Hl. unfold leaving at 1. rewrite Hp. split; [by intros [? _]|done].
    - intros [? Ho]. rewrite Hb. split; [done|].
      destruct o; [destruct Ho as [?|?]; [congruence|auto]|congruence].
  Qed.

Lemma no_leaving call fr : phase call <> LExitWait -> ~ leaving call fr.
  Proof. intros Hp [? _]. done. Qed.

Lemma lock_started w cs c call call' a s rest :
    LockInv None w cs -> cs !! c = Some call -> phase call = LFree -> gone call = false ->
    inflight w a = None ->
    call' = push_frame a (ctx_writer (start_task w a (lc_here call) (TLock c) []).2)
              (start_task w a (lc_here call) (TLock c) []).2 (PTry s rest) call ->
    LockInv None (start_task w a (lc_here call) (TLock c) []).1 (<[c := call']> cs).
  Proof.
    intros Hl Ec Hp Hg Hi ->. destruct (lk_contexts _ _ _ Hl c call Ec) as [Hh Hf].
    pose proof (lk_claims _ _ _ Hl c call Ec) as Hcl. pose proof (lk_writers _ _ _ Hl) as Hw.
    assert (Hwt : waiting w a = []) by (by apply waiting_inflight).
    assert (Hna : forall fr, fr ∈ qheld call -> fr_addr fr <> a).
    { intros fr Hin E. pose proof Hin as Hin'. unfold qheld in Hin'.
      apply list_elem_of_In, List.filter_In in Hin' as [_ [x Hx]%bool_decide_eq_true].
      destruct (cl_held _ _ _ _ Hcl fr x Hin Hx) as (o & Ho & _). rewrite E in Ho. congruence. }
    set (call' := push_frame _ _ _ _ _).
    set (fr := {| fr_addr := a; fr_writer := Some (length (sw_heap w)); fr_context := lc_here call |}).
    assert (Hq : qheld call' = fr :: qheld call) by done.
    assert (Hp' : phase call' = LFree) by done.
    pose proof (fun b => start_task_views w a (lc_here call) (TLock c) [] b) as Hv. cbv zeta in Hv.
    apply (lock_update None None w _ cs c call call' a); try done.
    - apply start_task_inv; [done..|]. intros q d Eq. apply inflight_None in Hi; [|done]. congruence.
    - simpl. rewrite length_app. lia.
    - intros b Hb. destruct (Hv b) as (-> & -> & _). by rewrite !decide_False by done.
    - pose proof (chain_has_new w a (lc_here call) (TLock c) [] a Hw Hh) as Hnew.
      destruct (start_task w a (lc_here call) (TLock c) []) as [w' ctx'] eqn:Es.
      destruct Hnew as [Hnew _]. split; [done|]. constructor.
      + eapply ctx_ok_grow; [|exact Hh]. injection Es as <- <-. simpl. rewrite length_app. lia.
      + eapply Forall_impl; [exact Hf|]. intros fr'. apply ctx_ok_grow.
        injection Es as <- <-. simpl. rewrite length_app. lia.
    - split; rewrite ?Hp', ?Hq; try done.
      + intros fr' x [->|Hin]%elem_of_cons Hx.
        * destruct (Hv a) as (Hv1 & _). rewrite decide_True in Hv1 by done.
          change (fr_addr fr) with a. rewrite Hv1.
          injection Hx as <-. exists None. split; [done|]. split; [by intros []|]. by intros [? _].
        * destruct (Hv (fr_addr fr')) as (Hv1 & _). rewrite Hv1.
          rewrite decide_False by (intros E; by apply (Hna fr')).
          destruct (cl_held _ _ _ _ Hcl fr' x Hin Hx) as (o & ? & Hlv). exists o. split; [done|].
          rewrite Hlv. split; intros Hb; exfalso; revert Hb; apply no_leaving; congruence.
      + rewrite fmap_cons. constructor; [|apply Hcl]. intros (fr' & E & Hin)%list_elem_of_fmap.
        by apply (Hna fr').
    - destruct (Hv a) as (Hv1 & Hv2 & _). rewrite decide_True in Hv1 by done.
      rewrite decide_True in Hv2 by done. split; rewrite ?Hv1, ?Hv2; [| | |done].
      + constructor.
      + by intros ? ?%elem_of_nil.
      + intros t x o [= <- <- <-]. right. exists call'. simpl.
        rewrite list_lookup_insert_eq by (by eapply lookup_lt_Some). split; [done|].
        exists fr. rewrite Hq. split; [by left|]. split; [done|]. split; [done|].
        split; [by intros []|]. by intros [? _].
    - intros t _ [Ht|?]; [|done]. rewrite Hwt in Ht. by apply elem_of_nil in Ht.
    - intros t x o _ E. congruence.
    - intros b t _ _. apply free_waits; keep_tasks.
    - intros b t x o Hb _. apply free_owns; keep_tasks. intros fr' Hin _. rewrite Hq.
      split; [by right|]. by apply no_leaving.
  Qed.

Lemma lock_queued w w' cs c call a s k rest :
    LockInv None w cs -> cs !! c = Some call -> phase call = LFree -> gone call = false ->
    a = (section_lane s, k) -> WriterInv w' -> sw_heap w' = sw_heap w ->
    (forall b, inflight w' b = inflight w b /\
       waiting w' b = if decide (a = b) then waiting w a ++ [TLock c] else waiting w b) ->
    LockInv None w' (<[c := with_pc (PQueued s k rest) call]> cs).
  Proof.
    intros Hl Ec Hp Hg Ea Hw' Hh Hv. set (call' := with_pc _ _).
    pose proof (lk_claims _ _ _ Hl c call Ec) as Hcl.
    assert (Hp' : phase call' = LQueued a) by (by subst).
    assert (Hq : qheld call' = qheld call) by done.
    destruct (Hv a) as [Hva Hwa]. rewrite decide_True in Hwa by done.
    destruct (lk_contents _ _ _ Hl a) as [Hnd Hwt Hif _].
    apply (lock_update None None w _ cs c call call' a); try done.
    - by rewrite Hh.
    - intros b Hb. destruct (Hv b) as [-> ->]. by rewrite decide_False.
    - eapply contexts_grow; [|exact (lk_contexts _ _ _ Hl c call Ec)]. by rewrite Hh.
    - split; rewrite ?Hp', ?Hq; try done.
      + intros b [= <-]. left. rewrite Hwa. set_solver.
      + intros fr x Hin Hx. destruct (Hv (fr_addr fr)) as [-> _].
        destruct (cl_held _ _ _ _ Hcl fr x Hin Hx) as (o & ? & Hlv). exists o. split; [done|].
        rewrite Hlv. split; intros Hb; exfalso; revert Hb; apply no_leaving; congruence.
      + apply Hcl.
    - assert (Hlt : c < length cs) by (by eapply lookup_lt_Some).
      split; rewrite ?Hva, ?Hwa; [| | |done].
      + apply NoDup_app. split; [done|]. split; [|apply NoDup_singleton].
        intros t Ht ->%list_elem_of_singleton. destruct (Hwt _ Ht) as (x & Ex & Hx).
        simpl in Ex, Hx. simplify_eq. congruence.
      + intros t [Ht| ->%list_elem_of_singleton]%elem_of_app.
        * destruct (Hwt t Ht) as (x & Ex & Hx). destruct (decide (owner t = c)) as [Eo|Eo].
          -- rewrite Eo in *. rewrite list_lookup_insert_eq by done. exists call'. split; [done|].
             simplify_eq. eapply free_waits; [..|done]; keep_tasks.
          -- rewrite list_lookup_insert_ne by done. eauto.
        * simpl. rewrite list_lookup_insert_eq by done. by exists call'.
      + intros t x o E. destruct (Hif t x o E) as [?|(y & Ey & Hy)]; [done|]. right.
        destruct (decide (owner t = c)) as [Eo|Eo].
        * rewrite Eo in *. rewrite list_lookup_insert_eq by done. exists call'. split; [done|].
          simplify_eq. eapply free_owns; keep_tasks. intros fr Hin _. split; [done|].
          apply no_leaving. congruence.
        * rewrite list_lookup_insert_ne by done. eauto.
    - intros t _ [Ht|?]; [|done]. left. rewrite Hwa. set_solver.
    - intros t x o _ E. by rewrite Hva.
    - intros b t _ _. apply free_waits; keep_tasks.
    - intros b t x o Hb _. apply free_owns; keep_tasks. intros fr' Hin _. split; [done|].
      apply no_leaving. congruence.
  Qed.
End steps.

Section more_steps.
  Implicit Types (w : Writers) (cs : list LifecycleCall).

Lemma call_contexts_heap w w' call :
    length (sw_heap w') = length (sw_heap w) -> contexts_ok w call -> contexts_ok w' call.
  Proof. intros Hl. apply contexts_grow. lia. Qed.

  (** The innermost lock of a call settles: its function returned. *)
Lemma lock_settled w w' cs c call fr rest s x ok :
    LockInv None w cs -> cs !! c = Some call -> lc_pc call = PExit s x ->
    lc_frames call = fr :: rest -> is_Some (fr_writer fr) ->
    fnSettled w (fr_addr fr) ok = Some w' ->
    LockInv None w' (<[c := with_pc (PExitWait s x) call]> cs).
  Proof.
    intros Hl Ec Epc Hfr [y Hy] Hs. set (call' := with_pc _ _). set (a := fr_addr fr) in *.
    assert (Hp : phase call = LFree) by (unfold phase; by rewrite Epc).
    assert (Hp' : phase call' = LExitWait) by done.
    assert (Hq : qheld call' = qheld call) by done.
    pose proof (lk_claims _ _ _ Hl c call Ec) as Hcl. pose proof (lk_writers _ _ _ Hl) as Hw.
    destruct (fnSettled_views _ _ _ _ Hw Hs) as (Hlen & t & z & Hi & Hv).
    assert (Hin : fr ∈ qheld call).
    { unfold qheld, held. rewrite Hfr. apply list_elem_of_In, List.filter_In. split; [by left|].
      by apply bool_decide_eq_true. }
    destruct (cl_held _ _ _ _ Hcl fr y Hin Hy) as (o & Ho & _). fold a in Ho.
    rewrite Ho in Hi. injection Hi as <- <- ->.
    assert (Hleave : forall fr', fr' ∈ qheld call -> leaving call' fr' <-> fr_addr fr' = a).
    { intros fr' Hin'. unfold leaving. rewrite Hp'. simpl. rewrite Hfr. simpl. split.
      - by intros [_ [= ->]].
      - intros E. split; [done|]. f_equal. symmetry.
        eapply (NoDup_fmap_eq fr_addr); [apply Hcl|done..]. }
    destruct (lk_contents _ _ _ Hl a) as [Hnd Hwt Hif _].
    assert (Hlt : c < length cs) by (by eapply lookup_lt_Some).
    apply (lock_update None None w _ cs c call call' a); try done.
    - by eapply fnSettled_inv.
    - lia.
    - intros b Hb. destruct (Hv b) as (-> & _ & ->). by rewrite decide_False.
    - apply (call_contexts_heap w); [done|exact (lk_contexts _ _ _ Hl c call Ec)].
    - split; rewrite ?Hp', ?Hq; try done; [|apply Hcl|].
      + intros fr' x' Hin' Hx'. destruct (cl_held _ _ _ _ Hcl fr' x' Hin' Hx') as (o & Ho' & Hlv).
        destruct (Hv (fr_addr fr')) as (-> & _). pose proof (Hleave fr' Hin') as Hlv'.
        case_decide as E.
        * rewrite <- E, Ho in Ho'. injection Ho' as <- <-. exists (Some ok). split; [done|].
          rewrite Hlv'. split; [done|]. by intros _.
        * exists o. split; [done|]. rewrite Hlv, Hlv'. split; [|done].
          intros Hb. exfalso. revert Hb. apply no_leaving. congruence.
      + intros _. exists fr. simpl. by rewrite Hfr.
    - destruct (Hv a) as (Hva & _ & Hwa). rewrite decide_True in Hva by done.
      split; rewrite ?Hva, ?Hwa; [done| | |done].
      + intros t Ht. destruct (Hwt t Ht) as (x' & Ex & Hx). destruct (decide (owner t = c)) as [Eo|Eo].
        * rewrite Eo in *. rewrite list_lookup_insert_eq by done. exists call'. split; [done|].
          simplify_eq. eapply free_waits; [..|done]; keep_tasks.
        * rewrite list_lookup_insert_ne by done. eauto.
      + intros t x' o [= <- <- <-]. right. simpl. rewrite list_lookup_insert_eq by done.
        exists call'. split; [done|]. exists fr. rewrite Hq.
        split; [done|]. split; [done|]. split; [done|]. rewrite (Hleave fr Hin). done.
    - intros t _ [Ht|?]; [|done]. left. by destruct (Hv a) as (_ & _ & ->).
    - intros t x' o Hne E. rewrite Ho in E. by injection E as <-.
    - intros b t _ _. apply free_waits; keep_tasks.
    - intros b t x' o Hb _. apply free_owns; keep_tasks. intros fr' Hin' E. split; [done|].
      rewrite Hleave by done. congruence.
  Qed.

  (** The barrier of an admission is submitted; [call'] is the call after it. *)
Lemma barrier_started w cs c call call' a ctx :
    LockInv None w cs -> cs !! c = Some call -> phase call = LFree -> a = barrier_addr call ->
    ctx_ok w ctx -> inflight w a = None ->
    barrier_addr call' = barrier_addr call -> (gone call = true -> gone call' = true) ->
    qheld call' = qheld call -> contexts_ok w call' -> phase call' = LChecking ->
    LockInv None (start_task w a ctx (TBarrier c) []).1 (<[c := call']> cs).
  Proof.
    intros Hl Ec Hp Ea Hc Hi Hb Hab Hq Hctx Hp'.
    pose proof (lk_claims _ _ _ Hl c call Ec) as Hcl. pose proof (lk_writers _ _ _ Hl) as Hw.
    assert (Hwt : waiting w a = []) by (by apply waiting_inflight).
    assert (Hna : forall fr, fr ∈ qheld call -> fr_addr fr <> a).
    { intros fr Hin E. pose proof Hin as Hin'. unfold qheld in Hin'.
      apply list_elem_of_In, List.filter_In in Hin' as [_ [x Hx]%bool_decide_eq_true].
      destruct (cl_held _ _ _ _ Hcl fr x Hin Hx) as (o & Ho & _). rewrite E in Ho. congruence. }
    pose proof (fun b => start_task_views w a ctx (TBarrier c) [] b) as Hv. cbv zeta in Hv.
    destruct (Hv a) as (Hva & Hwa & _). rewrite decide_True in Hva by done.
    rewrite decide_True in Hwa by done.
    apply (lock_update None None w _ cs c call call' a); try done.
    - apply start_task_inv; [done..|]. intros q d Eq. apply inflight_None in Hi; [|done]. congruence.
    - simpl. rewrite length_app. lia.
    - intros b Hb'. destruct (Hv b) as (-> & -> & _). by rewrite !decide_False by done.
    - eapply contexts_grow; [|done]. simpl. rewrite length_app. lia.
    - split; rewrite ?Hp', ?Hq, ?Hb; try done; [| apply Hcl|].
      + intros fr x Hin Hx. destruct (Hv (fr_addr fr)) as (-> & _).
        rewrite decide_False by (intros E; by apply (Hna fr)).
        destruct (cl_held _ _ _ _ Hcl fr x Hin Hx) as (o & ? & Hlv). exists o. split; [done|].
        rewrite Hlv. split; intros Hb'; exfalso; revert Hb'; apply no_leaving; congruence.
      + intros _. rewrite <- Ea, Hva. eauto.
    - split; rewrite ?Hva, ?Hwa; [constructor|by intros ? ?%elem_of_nil| |done].
      intros t x o [= <- <- <-]. right. simpl. rewrite list_lookup_insert_eq by (by eapply lookup_lt_Some).
      exists call'. split; [done|]. split; [congruence|done].
    - intros t _ [Ht|?]; [|done]. rewrite Hwt in Ht. by apply elem_of_nil in Ht.
    - intros t x o _ E. congruence.
    - intros b t _ _. apply free_waits; keep_tasks.
    - intros b t x o Hb' _. apply free_owns; keep_tasks. intros fr' Hin _. rewrite Hq.
      split; [done|]. apply no_leaving. congruence.
  Qed.

Lemma barrier_queued w w' cs c call call' a :
    LockInv None w cs -> cs !! c = Some call -> phase call = LFree -> a = barrier_addr call ->
    TBarrier c ∉ waiting w a -> WriterInv w' -> sw_heap w' = sw_heap w ->
    (forall b, inflight w' b = inflight w b /\
       waiting w' b = if decide (a = b) then waiting w a ++ [TBarrier c] else waiting w b) ->
    barrier_addr call' = barrier_addr call -> (gone call = true -> gone call' = true) ->
    qheld call' = qheld call -> contexts_ok w call' ->
    phase call' = LBarrier \/ (phase call' = LFree /\ gone call' = true) ->
    LockInv None w' (<[c := call']> cs).
  Proof.
    intros Hl Ec Hp Ea Hnin Hw' Hh Hv Hb Hab Hq Hctx Hp'.
    pose proof (lk_claims _ _ _ Hl c call Ec) as Hcl.
    destruct (Hv a) as [Hva Hwa]. rewrite decide_True in Hwa by done.
    destruct (lk_contents _ _ _ Hl a) as [Hnd Hwt Hif _].
    assert (Hlt : c < length cs) by (by eapply lookup_lt_Some).
    assert (Hne : phase call' <> LExitWait) by (destruct Hp' as [->|[-> _]]; done).
    apply (lock_update None None w _ cs c call call' a); try done.
    - by rewrite Hh.
    - intros b Hb'. destruct (Hv b) as [-> ->]. by rewrite decide_False.
    - eapply contexts_grow; [|done]. by rewrite Hh.
    - split; rewrite ?Hq, ?Hb; try done; try (by destruct Hp' as [->|[-> _]]); [| |apply Hcl].
      + intros _. left. rewrite <- Ea, Hwa. set_solver.
      + intros fr x Hin Hx. destruct (Hv (fr_addr fr)) as [-> _].
        destruct (cl_held _ _ _ _ Hcl fr x Hin Hx) as (o & ? & Hlv). exists o. split; [done|].
        rewrite Hlv. split; intros Hb'; exfalso; revert Hb'; apply no_leaving; congruence.
    - split; rewrite ?Hva, ?Hwa; [| | |done].
      + apply NoDup_app. split; [done|]. split; [|apply NoDup_singleton].
        intros t Ht ->%list_elem_of_singleton. done.
      + intros t [Ht| ->%list_elem_of_singleton]%elem_of_app.
        * destruct (Hwt t Ht) as (x & Ex & Hx). destruct (decide (owner t = c)) as [Eo|Eo].
          -- rewrite Eo in *. rewrite list_lookup_insert_eq by done. exists call'. split; [done|].
             rewrite Ec in Ex. injection Ex as <-. eapply free_waits; [..|done]; keep_tasks.
          -- rewrite list_lookup_insert_ne by done. eauto.
        * simpl. rewrite list_lookup_insert_eq by done. exists call'. split; [done|].
          split; [congruence|]. destruct Hp' as [?|[_ ?]]; auto.
      + intros t x o E. destruct (Hif t x o E) as [?|(y & Ey & Hy)]; [done|]. right.
        destruct (decide (owner t = c)) as [Eo|Eo].
        * rewrite Eo in *. rewrite list_lookup_insert_eq by done. exists call'. split; [done|].
          rewrite Ec in Ey. injection Ey as <-. eapply free_owns; keep_tasks. intros fr Hin _. rewrite Hq. split; [done|].
          by apply no_leaving.
        * rewrite list_lookup_insert_ne by done. eauto.
    - intros t _ [Ht|?]; [|done]. left. rewrite Hwa. set_solver.
    - intros t x o _ E. by rewrite Hva.
    - intros b t _ _. apply free_waits; keep_tasks.
    - intros b t x o Hb' _. apply free_owns; keep_tasks. intros fr' Hin _. rewrite Hq. split; [done|].
      by apply no_leaving.
  Qed.

  (** The barrier's function settles: its check is done, or the call was aborted. *)
Lemma barrier_settled w w' cs c call call' a ok :
    LockInv None w cs -> cs !! c = Some call -> phase call = LChecking -> a = barrier_addr call ->
    fnSettled w a ok = Some w' ->
    barrier_addr call' = barrier_addr call -> (gone call = true -> gone call' = true) ->
    qheld call' = qheld call -> contexts_ok w call' ->
    phase call' = LChecked ok \/ (phase call' = LFree /\ gone call' = true) ->
    LockInv None w' (<[c := call']> cs).
  Proof.
    intros Hl Ec Hp Ea Hs Hb Hab Hq Hctx Hp'.
    pose proof (lk_claims _ _ _ Hl c call Ec) as Hcl. pose proof (lk_writers _ _ _ Hl) as Hw.
    destruct (fnSettled_views _ _ _ _ Hw Hs) as (Hlen & t & z & Hi & Hv).
    destruct (cl_checking _ _ _ _ Hcl Hp) as [y Hy]. rewrite <- Ea, Hi in Hy. injection Hy as -> ->.
    destruct (lk_contents _ _ _ Hl a) as [Hnd Hwt Hif _].
    assert (Hlt : c < length cs) by (by eapply lookup_lt_Some).
    assert (Hne : phase call' <> LExitWait) by (destruct Hp' as [->|[-> _]]; done).
    assert (Hw1 : forall t b, waits_call call t b -> waits_call call' t b).
    { intros [d|d] b; simpl; [congruence|]. intros [? [?|?]]; [congruence|]. rewrite Hb. auto. }
    destruct (Hv a) as (Hva & _ & Hwa). rewrite decide_True in Hva by done.
    apply (lock_update None None w _ cs c call call' a); try done.
    - by eapply fnSettled_inv.
    - lia.
    - intros b Hb'. destruct (Hv b) as (-> & _ & ->). by rewrite decide_False.
    - by apply (call_contexts_heap w).
    - split; rewrite ?Hq, ?Hb; try done; try (by destruct Hp' as [->|[-> _]]); [|apply Hcl|].
      + intros fr x Hin Hx. destruct (cl_held _ _ _ _ Hcl fr x Hin Hx) as (o & Ho & Hlv).
        destruct (Hv (fr_addr fr)) as (-> & _). case_decide as E; [rewrite <- E, Hi in Ho; done|].
        exists o. split; [done|].
        rewrite Hlv. split; intros Hb'; exfalso; revert Hb'; apply no_leaving; congruence.
      + intros ok' E. destruct Hp' as [Hp'|[Hp' _]]; rewrite Hp' in E; [injection E as <-|done].
        rewrite <- Ea, Hva. eauto.
    - split; rewrite ?Hva, ?Hwa; [done| | |done].
      + intros t Ht. destruct (Hwt t Ht) as (x' & Ex & Hx). destruct (decide (owner t = c)) as [Eo|Eo].
        * rewrite Eo in *. rewrite list_lookup_insert_eq by done. exists call'. split; [done|].
          rewrite Ec in Ex. injection Ex as <-. by apply Hw1.
        * rewrite list_lookup_insert_ne by done. eauto.
      + intros t x' o [= <- <- <-]. right. simpl. rewrite list_lookup_insert_eq by done.
        exists call'. split; [done|]. split; [congruence|]. destruct Hp' as [?|[_ ?]]; auto.
    - intros t _ [Ht|?]; [|done]. left. by rewrite Hwa.
    - intros t x' o Hne' E. rewrite Hi in E. by injection E as <-.
    - intros b t _ _. apply Hw1.
    - intros b t x' o Hb' _. destruct t as [d|d]; simpl.
      + intros (fr & Hin & E & Ew & Hlv). exists fr. rewrite Hq. split_and!; try done.
        rewrite Hlv. split; intros Hl'; exfalso; revert Hl'; apply no_leaving; congruence.
      + intros [E _]. congruence.
  Qed.
End more_steps.

(** ** Drain steps *)

Section drains.
  Implicit Types (w : Writers) (cs : list LifecycleCall).

  (** The loop of a queue goes on, seen from the calls. *)
Lemma drain_views w a w' t ok started :
    WriterInv w -> drainContinues w a = Some (w', (t, ok), started) ->
    exists x, inflight w a = Some (t, x, Some ok) /\ WriterInv w' /\
      length (sw_heap w) <= length (sw_heap w') /\
      (forall b, b <> a -> inflight w' b = inflight w b /\ waiting w' b = waiting w b) /\
      match started with
      | None => waiting w a = [] /\ inflight w' a = None /\ waiting w' a = []
      | Some (t', ctx') => waiting w a = t' :: waiting w' a /\ ctx_ok w' ctx' /\
          ctx_writer ctx' = Some (length (sw_heap w)) /\
          inflight w' a = Some (t', length (sw_heap w), None)
      end.
  Proof.
    intros Hw E. destruct (drainContinues_views _ _ _ _ _ _ E) as (x & ctx & Hi & Hlc & Hm).
    exists x. split; [done|]. split; [by eapply drainContinues_inv|].
    destruct (waiting w a) as [|t' rest] eqn:Ew.
    - destruct Hm as (-> & -> & Hv). split; [done|]. split.
      + intros b Hb. destruct (Hv b) as (-> & _ & ->). by rewrite decide_False.
      + destruct (Hv a) as (-> & _ & ->). by rewrite decide_True.
    - destruct Hm as (ctx' & -> & Es). pose proof (loop_context_ok _ _ _ Hw Hlc) as Hc.
      pose proof (fun b => start_task_views w a ctx t' rest b) as Hv. cbv zeta in Hv.
      pose proof (chain_has_new w a ctx t' rest a Hw Hc) as Hn.
      rewrite <- Es in Hn, Hv. destruct Hn as [Hn _]. simpl in Hv.
      destruct (Hv a) as (Ha1 & Ha2 & _). rewrite decide_True in Ha1 by done. rewrite decide_True in Ha2 by done.
      injection Es as -> ->. split; [simpl; rewrite length_app; lia|]. split.
      + intros b Hb. destruct (Hv b) as (-> & -> & _). by rewrite !decide_False by done.
      + rewrite Ha2. done.
  Qed.

  (** What a queue holds after its loop went on: the next task is off the queue. *)
Lemma drained_contents w w' cs cs' a t x ok started :
    LockInv None w cs -> inflight w a = Some (t, x, Some ok) ->
    (forall u b, (exists y, cs !! owner u = Some y /\ waits_call y u b) ->
       exists y, cs' !! owner u = Some y /\ waits_call y u b) ->
    match started with
    | None => waiting w a = [] /\ inflight w' a = None /\ waiting w' a = []
    | Some (t', ctx') => waiting w a = t' :: waiting w' a /\ ctx_ok w' ctx' /\
        ctx_writer ctx' = Some (length (sw_heap w)) /\
        inflight w' a = Some (t', length (sw_heap w), None)
    end ->
    contents (pending_start a started) w' cs' a /\
    (forall u, u ∈ waiting w a -> u ∈ waiting w' a \/ pending_start a started = Some (a, u)).
  Proof.
    intros Hl Hi Hwc Hm. destruct (lk_contents _ _ _ Hl a) as [Hnd Hwt _ _].
    destruct started as [[t' ctx']|]; simpl.
    - destruct Hm as (Ew & _ & _ & Ei). rewrite Ew in Hnd, Hwt |- *. apply NoDup_cons in Hnd as [Hn Hnd]. split.
      + split; [done| | |].
        * intros u Hu. apply Hwc, Hwt. by right.
        * intros u y o E. rewrite Ei in E. injection E as <- _ _. by left.
        * intros u [= <-]. split; [|split; [done|by eexists]]. apply Hwc, Hwt. by left.
      + intros u [->|Hu]%elem_of_cons; auto.
    - destruct Hm as (Ew & Ei & Ew'). rewrite Ew. split.
      + split; rewrite ?Ew', ?Ei; try done; [constructor|by intros ? ?%elem_of_nil].
      + by intros u ?%elem_of_nil.
  Qed.

  (** The caller of the settled task goes on as [call'], out of the lock at [a]. *)
Lemma drained_update w w' cs c call call' a t ok started :
    LockInv None w cs -> cs !! c = Some call -> owner t = c ->
    drainContinues w a = Some (w', (t, ok), started) ->
    barrier_addr call' = barrier_addr call -> (gone call = true -> gone call' = true) ->
    contexts_ok w call' ->
    (forall fr, fr ∈ qheld call' <-> fr ∈ qheld call /\ fr_addr fr <> a) ->
    NoDup (fr_addr <$> qheld call') ->
    (forall fr, fr ∈ qheld call' -> leaving call' fr <-> leaving call fr) ->
    (phase call = LExitWait \/ phase call = LChecked ok /\ barrier_addr call = a) /\ phase call' = LFree \/
      call' = call /\ (phase call = LFree \/ phase call = LExitWait) ->
    LockInv (pending_start a started) w' (<[c := call']> cs).
  Proof.
    intros Hl Ec Eo Ed Hb Hg Hctx Hq Hnd Hlv Hph.
    pose proof (lk_claims _ _ _ Hl c call Ec) as Hcl. pose proof (lk_writers _ _ _ Hl) as Hw.
    destruct (drain_views _ _ _ _ _ _ Hw Ed) as (x & Hi & Hw' & Hlen & Hv & Hm).
    assert (Hlt : c < length cs) by (by eapply lookup_lt_Some).
    assert (Hwk : forall u b, waits_call call u b -> waits_call call' u b).
    { intros [d|d] b; simpl; [intuition congruence|]. rewrite Hb. intros [? [?|?]]; [intuition congruence|auto]. }
    assert (Hwc : forall u b, (exists y, cs !! owner u = Some y /\ waits_call y u b) ->
      exists y, <[c := call']> cs !! owner u = Some y /\ waits_call y u b).
    { intros u b (y & Ey & Hy). destruct (decide (owner u = c)) as [E|E].
      - rewrite E in *. rewrite list_lookup_insert_eq by done. exists call'. split; [done|].
        rewrite Ec in Ey. injection Ey as <-. by apply Hwk.
      - rewrite list_lookup_insert_ne by done. eauto. }
    destruct (drained_contents w w' cs _ a t x ok started Hl Hi Hwc Hm) as [Hco Hwa].
    assert (Hp' : forall ph, phase call' = ph -> ph = LFree \/ ph = LExitWait /\ call' = call).
    { intros ph <-. intuition congruence. }
    apply (lock_update None _ w w' cs c call call' a); try done.
    - intros b u Hne. split; [done|]. destruct started as [[u' cu]|]; simpl; [|done]. intros [= E _]. by apply Hne.
    - by eapply contexts_grow.
    - split; try done.
      + intros b E. by destruct (Hp' _ E) as [?|[? _]].
      + intros E. by destruct (Hp' _ E) as [?|[? _]].
      + intros fr y Hin Hy. destruct (proj1 (Hq fr) Hin) as [Hin' Hne].
        destruct (Hv (fr_addr fr) Hne) as [-> _].
        destruct (cl_held _ _ _ _ Hcl fr y Hin' Hy) as (o & Ho & Hlo). exists o. split; [done|].
        by rewrite Hlo, Hlv.
      + intros E. destruct (Hp' _ E) as [?|[_ ->]]; [done|]. by apply Hcl.
      + intros E. by destruct (Hp' _ E) as [?|[? _]].
      + intros ok' E. by destruct (Hp' _ E) as [?|[? _]].
      + intros b u E fr Hin. destruct started as [[u' cu]|]; [|done]. injection E as <- <-.
        by apply Hq.
    - intros u _ [Hu|?]; [auto|done].
    - intros u y o Hne E. congruence.
    - intros b u _ _. apply Hwk.
    - intros b u y o Hne Hu. destruct u as [d|d]; simpl.
      + intros (fr & Hin & E & Ew & Hlo). assert (Hin' : fr ∈ qheld call') by (apply Hq; split; congruence).
        exists fr. split_and!; try done. by rewrite Hlo, Hlv.
      + intros [E Ho]. rewrite Hb. split; [done|]. destruct o as [ok'|]; [|intuition congruence].
        destruct Ho as [Ho|Ho]; [|auto]. intuition congruence.
    - intros d y u Hne Ey Hu fr Hin E. destruct started as [[u' cu]|]; [|done].
      pose proof Hin as Hin'. unfold qheld in Hin'.
      apply list_elem_of_In, List.filter_In in Hin' as [_ [z Hz]%bool_decide_eq_true].
      destruct (cl_held _ _ _ _ (lk_claims _ _ _ Hl d y Ey) fr z Hin Hz) as (o & Ho & _).
      rewrite E, Hi in Ho. injection Ho as -> _ _. simpl in Eo. congruence.
  Qed.

Lemma qheld_pop fr call rest :
    lc_frames call = fr :: rest -> is_Some (fr_writer fr) ->
    qheld call = fr :: List.filter is_queued_frame (rest ++ lc_outer call).
  Proof.
    intros Ef Hs. unfold qheld, held. rewrite Ef. simpl. unfold is_queued_frame at 1.
    by rewrite bool_decide_eq_true_2.
  Qed.

  (** The caller of a settled task is answered. *)
Lemma answer_locks w cs w' a t ok started :
    LockInv None w cs -> drainContinues w a = Some (w', (t, ok), started) ->
    LockInv (pending_start a started) w' (alter (answer_call t ok) (owner t) cs).
  Proof.
    intros Hl Ed. rewrite alter_lookup.
    pose proof (lk_writers _ _ _ Hl) as Hw.
    destruct (drain_views _ _ _ _ _ _ Hw Ed) as (x & Hi & _ & Hlen & _).
    destruct (co_inflight _ _ _ _ (lk_contents _ _ _ Hl a) t x (Some ok) Hi) as [?|(call & Ec & Ho)]; [done|].
    pose proof (lk_claims _ _ _ Hl _ call Ec) as Hcl.
    pose proof (lk_contexts _ _ _ Hl _ call Ec) as Hctx.
    destruct t as [c|c]; simpl in Ec; unfold answer_call; cbn [owner]; rewrite Ec.
    - destruct Ho as (fr & Hin & Ea & Ew & Hlv). destruct (proj1 Hlv ltac:(eauto)) as [Hp Hh].
      unfold phase, phase_of in Hp. destruct (lc_pc call) as [| | | | | | | | | | | |s y|] eqn:Epc; try done.
      { by destruct direct. }
      destruct (lc_frames call) as [|fr' rest] eqn:Ef; [done|]. injection Hh as ->.
      pose proof (qheld_pop fr call rest Ef ltac:(eauto)) as Eq.
      set (call' := with_stack _ _ _ _ _).
      assert (Eq' : qheld call' = List.filter is_queued_frame (rest ++ lc_outer call)) by done.
      pose proof (cl_nodup _ _ _ _ Hcl) as Hnd. rewrite Eq, fmap_cons in Hnd.
      apply NoDup_cons in Hnd as [Hn Hnd].
      assert (Hq : forall f, f ∈ qheld call' <-> f ∈ qheld call /\ fr_addr f <> a).
      { intros f. rewrite Eq, Eq', elem_of_cons. split.
        - intros Hf. split; [by right|]. intros E. apply Hn. rewrite Ea, <- E. by apply list_elem_of_fmap_2.
        - by intros [[->|?] ?]. }
      apply (drained_update w w' cs c call call' a (TLock c) ok started); try done.
      + unfold gone. by rewrite Epc.
      + destruct Hctx as [_ Hf]. unfold held in Hf. rewrite Ef in Hf. exact (proj1 (Forall_cons _ _ _) Hf).
      + intros f Hf. unfold leaving at 1. simpl. split; [by intros [? _]|].
        intros [_ E]. rewrite Ef in E. injection E as <-. apply Hq in Hf as [_ ?]. done.
      + left. split; [|done]. left. unfold phase. by rewrite Epc.
    - destruct Ho as [Eb Ho].
      assert (Hq : forall f, f ∈ qheld call -> fr_addr f <> a).
      { intros f Hf E. pose proof Hf as Hf'. unfold qheld in Hf'.
        apply list_elem_of_In, List.filter_In in Hf' as [_ [z Hz]%bool_decide_eq_true].
        destruct (cl_held _ _ _ _ Hcl f z Hf Hz) as (o & Hi' & _). congruence. }
      destruct Ho as [Hp|Hg].
      + unfold phase, phase_of in Hp.
        destruct (lc_pc call) as [| | | | | |? []| ad ok'| | | | | |] eqn:Epc; try done. injection Hp as ->.
        apply (drained_update w w' cs c call _ a (TBarrier c) ok started); try done.
        * unfold gone. rewrite Epc. by rewrite andb_comm.
        * split; [|by intros [? _]]. intros Hf. split; [done|]. by apply Hq.
        * apply Hcl.
        * intros f Hf. unfold leaving, phase. rewrite Epc. simpl. split; [|by intros [? _]].
          intros [E _]. by destruct ok.
        * left. unfold phase. rewrite Epc. split; [by right|]. by destruct ok.
      + assert (Hpc : phase call = LFree \/ phase call = LExitWait).
        { unfold gone in Hg. apply andb_true_iff in Hg as [_ Hg]. unfold phase.
          destruct (lc_pc call); try done; auto. }
        assert (E : answer_call (TBarrier c) ok call = call).
        { unfold gone in Hg. apply andb_true_iff in Hg as [_ Hg]. unfold answer_call. by destruct (lc_pc call). }
        unfold answer_call in E. rewrite E.
        apply (drained_update w w' cs c call call a (TBarrier c) ok started); try done.
        * split; [|by intros [? _]]. intros Hf. split; [done|]. by apply Hq.
        * apply Hcl.
        * by right.
  Qed.
End drains.

(** ** Tasks that start *)

Section starts.
  Implicit Types (w : Writers) (cs : list LifecycleCall).

  (** A queued lock section starts: its call holds the lock. *)
Lemma lock_entered w cs a c call s k rest x ctx :
    LockInv (Some (a, TLock c)) w cs -> cs !! c = Some call -> lc_pc call = PQueued s k rest ->
    inflight w a = Some (TLock c, x, None) -> loop_context w a = Some ctx ->
    LockInv None w (<[c := push_frame a (Some x)
      {| ctx_writer := Some x; ctx_stores := ctx_stores ctx |} (PTry s rest) call]> cs).
  Proof.
    intros Hl Ec Epc Hi Hlc. set (call' := push_frame _ _ _ _ _).
    set (fr := {| fr_addr := a; fr_writer := Some x; fr_context := lc_here call |}).
    pose proof (lk_claims _ _ _ Hl c call Ec) as Hcl. pose proof (lk_writers _ _ _ Hl) as Hw.
    destruct (lk_contexts _ _ _ Hl c call Ec) as [Hh Hf].
    destruct (lk_contents _ _ _ Hl a) as [Hnd Hwt Hif Hpe].
    destruct (Hpe _ eq_refl) as ((z & Ez & Hz) & Hnin & _).
    simpl in Ez, Hz. rewrite Ec in Ez. injection Ez as <-.
    assert (Hq : qheld call' = fr :: qheld call) by done.
    assert (Hp : phase call = LQueued (section_lane s, k)) by (unfold phase; by rewrite Epc).
    assert (Hp' : phase call' = LFree) by done.
    assert (Hg : gone call = false) by (unfold gone; rewrite Epc; apply andb_false_r).
    assert (Hlt : c < length cs) by (by eapply lookup_lt_Some).
    assert (Hwk : forall b d, waits_call call (TBarrier d) b -> False).
    { intros b d [_ [E|E]]; congruence. }
    apply (lock_update (Some (a, TLock c)) None w w cs c call call' a); try done.
    - intros b t Hb. split; [|done]. intros [= E _]. by apply Hb.
    - split; [|constructor; [done|exact Hf]].
      intros i [= <-]. unfold inflight in Hi. destruct (sw_queues w !! a) as [q|] eqn:Eq; [|done].
      destruct (wi_drain _ Hw _ _ Eq) as (_ & d & Hd & _ & y & Hy & _). simpl in Hi. rewrite Hd in Hi.
      injection Hi as _ <- _. by eapply lookup_lt_Some.
    - split; rewrite ?Hp', ?Hq; try done.
      + intros fr' y [->|Hin]%elem_of_cons Hy.
        * injection Hy as <-. exists None. split; [done|]. split; [by intros []|]. by intros [? _].
        * destruct (cl_held _ _ _ _ Hcl fr' y Hin Hy) as (o & ? & Hlv). exists o. split; [done|].
          rewrite Hlv. split; intros Hb; exfalso; revert Hb; apply no_leaving; congruence.
      + rewrite fmap_cons. constructor; [|apply Hcl]. intros (fr' & E & Hin)%list_elem_of_fmap.
        by apply (cl_free _ _ _ _ Hcl a (TLock c) eq_refl fr').
    - split; [done| | |done].
      + intros t Ht. destruct (Hwt t Ht) as (y & Ey & Hy). destruct (decide (owner t = c)) as [Eo|Eo].
        * destruct t as [d|d]; simpl in Eo; subst d; [by destruct Hnin|]. simpl in Ey. rewrite Ec in Ey.
          injection Ey as <-. by destruct (Hwk _ _ Hy).
        * rewrite list_lookup_insert_ne by done. eauto.
      + intros t y o E. rewrite Hi in E. injection E as <- <- <-. right. exists call'. simpl.
        rewrite list_lookup_insert_eq by done. split; [done|].
        exists fr. rewrite Hq. split; [by left|]. split; [done|]. split; [done|].
        split; [by intros []|]. by intros [? _].
    - intros t Hne [?|[= <-]]; [by left|done].
    - intros b [d|d] Hb Ho Hx; [|by destruct (Hwk _ _ Hx)]. simpl in *.
      congruence.
    - intros b [d|d] y o Hb Ho; simpl.
      + intros (fr' & Hin & E & Ew & Hlv). exists fr'. rewrite Hq. split_and!; [by right|done..|].
        rewrite Hlv. split; intros Hx; exfalso; revert Hx; apply no_leaving; congruence.
      + intros [E Hx]. destruct o as [ok|]; [|congruence]. exfalso. destruct Hx; congruence.
  Qed.

  (** A queued barrier starts: its check runs. *)
Lemma barrier_entered w cs a c call ad :
    LockInv (Some (a, TBarrier c)) w cs -> cs !! c = Some call -> lc_aborted call = false ->
    lc_pc call = PBarrier ad -> LockInv None w (<[c := with_pc (PRevalidate ad false) call]> cs).
  Proof.
    intros Hl Ec Ea Epc. set (call' := with_pc _ _). pose proof (lk_writers _ _ _ Hl) as Hw.
    pose proof (lk_claims _ _ _ Hl c call Ec) as Hcl.
    destruct (lk_contents _ _ _ Hl a) as [Hnd Hwt Hif Hpe].
    destruct (Hpe _ eq_refl) as ((z & Ez & Hz) & Hnin & x & Hi).
    simpl in Ez, Hz. rewrite Ec in Ez. injection Ez as <-. destruct Hz as [Eb _].
    assert (Hp : phase call = LBarrier) by (unfold phase; by rewrite Epc).
    assert (Hp' : phase call' = LChecking) by done.
    assert (Hg : gone call = false) by (unfold gone; rewrite Epc; apply andb_false_r).
    assert (Hlt : c < length cs) by (by eapply lookup_lt_Some).
    assert (Hwk : forall t b, owner t = c -> waits_call call t b -> t = TBarrier c /\ b = a).
    { intros [d|d] b; simpl; [congruence|]. intros -> [? _]. split; congruence. }
    apply (lock_update (Some (a, TBarrier c)) None w w cs c call call' a); try done.
    - intros b t Hb. split; [|done]. intros [= E _]. by apply Hb.
    - apply (lk_contexts _ _ _ Hl c call Ec).
    - split; rewrite ?Hp'; try done; [|apply Hcl|].
      + intros fr' y Hin Hy. destruct (cl_held _ _ _ _ Hcl fr' y Hin Hy) as (o & ? & Hlv).
        exists o. split; [done|].
        rewrite Hlv. split; intros Hb; exfalso; revert Hb; apply no_leaving; congruence.
      + intros _. exists x. by rewrite <- Hi, <- Eb.
    - split; [done| | |done].
      + intros t Ht. destruct (Hwt t Ht) as (y & Ey & Hy). destruct (decide (owner t = c)) as [Eo|Eo].
        * rewrite Eo in Ey. rewrite Ec in Ey. injection Ey as <-.
          destruct (Hwk _ _ Eo Hy) as [-> _]. by destruct Hnin.
        * rewrite list_lookup_insert_ne by done. eauto.
      + intros t y o E. rewrite Hi in E. injection E as <- <- <-. right. exists call'. simpl.
        by rewrite list_lookup_insert_eq.
    - intros t Hne [?|[= <-]]; [by left|done].
    - intros b t Hb Ho Hx. destruct (Hwk _ _ Ho Hx). congruence.
    - intros b [d|d] y o Hb Ho; simpl.
      + intros (fr' & Hin & E & Ew & Hlv). exists fr'. split_and!; [done..|].
        rewrite Hlv. split; intros Hx; exfalso; revert Hx; apply no_leaving; congruence.
      + intros [E Hx]. congruence.
  Qed.

  (** A queued barrier starts after its call was aborted: it throws at once. *)
Lemma barrier_dropped w cs a c call :
    LockInv (Some (a, TBarrier c)) w cs -> cs !! c = Some call -> gone call = true ->
    LockInv None (default w (fnSettled w a false)) cs.
  Proof.
    intros Hl Ec Hg. pose proof (lk_writers _ _ _ Hl) as Hw.
    destruct (lk_contents _ _ _ Hl a) as [Hnd Hwt Hif Hpe].
    destruct (Hpe _ eq_refl) as ((z & Ez & Hz) & Hnin & x & Hi).
    simpl in Ez, Hz. rewrite Ec in Ez. injection Ez as <-. destruct Hz as [Eb _].
    destruct (fnSettled_enabled w a false _ _ Hw Hi) as [w' Hs]. rewrite Hs. simpl.
    destruct (fnSettled_views _ _ _ _ Hw Hs) as (Hlen & t & y & Hi' & Hv).
    rewrite Hi in Hi'. injection Hi' as <- <-.
    destruct (Hv a) as (Hva & _ & Hwa). rewrite decide_True in Hva by done.
    pose proof (lk_claims _ _ _ Hl c call Ec) as Hcl.
    assert (Hph : phase call = LFree \/ phase call = LExitWait).
    { unfold gone in Hg. apply andb_true_iff in Hg as [_ Hg]. unfold phase.
      destruct (lc_pc call); try done; auto. }
    rewrite <- (list_insert_id cs c call Ec).
    apply (lock_update (Some (a, TBarrier c)) None w w' cs c call call a); try done.
    - by eapply fnSettled_inv.
    - lia.
    - intros b Hb. destruct (Hv b) as (-> & _ & ->). by rewrite decide_False.
    - intros b t Hb. split; [|done]. intros [= E _]. by apply Hb.
    - apply (call_contexts_heap w); [done|]. apply (lk_contexts _ _ _ Hl c call Ec).
    - split; try (by destruct Hph as [->| ->]); try apply Hcl; try done.
      intros fr' z Hin Hz. destruct (Hv (fr_addr fr')) as (-> & _).
      destruct (cl_held _ _ _ _ Hcl fr' z Hin Hz) as (o & Ho & Hlv).
      rewrite decide_False; [by exists o|]. intros E. rewrite <- E, Hi in Ho. done.
    - rewrite (list_insert_id cs c call Ec). split; rewrite ?Hva, ?Hwa; [done|done| |done].
      intros t z o [= <- <- <-]. right. exists call. simpl. split; [done|]. split; [done|by right].
    - intros t Hne [?|[= <-]]; [left; by rewrite Hwa|done].
    - intros t z o Hne E. rewrite Hi in E. by injection E as <- <- <-.
  Qed.
End starts.

(** ** Every move keeps the locks in order *)

Section moves.
  Implicit Types (w : Writers) (cs : list LifecycleCall).

  (** The queues and the calls fit together. *)
Definition LocksFit (v : LockView) : Prop := LockInv v.1.1 v.1.2 v.2 /\ Shapes v.

Lemma held_outer call s rest :
    in_section call s rest -> s = SAdmit \/ s = SMutation -> held call = lc_frames call.
  Proof. intros Hs Ho. unfold held. by rewrite (section_outer _ _ _ Hs Ho), app_nil_r. Qed.

Lemma pc_move_neutral call pc :
    pc_move call (lc_pc call) pc -> lock_neutral call (with_pc pc call).
  Proof.
    intros Hm. split; [done|]. split; [done|].
    assert (Hp : phase call = LFree /\ phase (with_pc pc call) = LFree /\
      (gone call = true -> gone (with_pc pc call) = true)).
    { unfold phase, gone. remember (lc_pc call) as pc0. destruct Hm; simpl; rewrite ?andb_false_r; split_and!; done. }
    destruct Hp as (Hp & Hp' & Hg). split; [done|]. split; [by rewrite Hp|]. left. congruence.
  Qed.

Lemma call_move_neutral w call call' :
    shape call -> call_move call call' -> contexts_ok w call ->
    lock_neutral call call' /\ contexts_ok w call'.
  Proof.
    intros Hs Hm [Hh Hf]. unfold shape in Hs.
    destruct Hm as [call pc Hm|call keys Hl|call x Hl|call s x Epc Hor Hfr|call l Epc|call Epc
      |call s x Epc H1 H2 Hfr|call s x fr rest Epc Hfr Hw|call o Ha].
    - split; [by apply pc_move_neutral|done].
    - split; [|done]. unfold lock_neutral, phase, gone.
      destruct Hl as [-> |[-> _]]; simpl; rewrite andb_false_r; split_and!; try done; auto.
    - split; [|done]. unfold lock_neutral, phase, gone.
      destruct Hl as [-> |[-> _]]; simpl; rewrite andb_false_r; split_and!; try done; auto.
    - split; [|done]. unfold lock_neutral, phase, gone. rewrite Epc. simpl.
      split_and!; try done; auto. rewrite !andb_true_iff. tauto.
    - rewrite Epc in Hs. pose proof (held_outer _ _ _ Hs ltac:(by right)) as Hho. split.
      + unfold lock_neutral, phase, gone. rewrite Epc. simpl. rewrite andb_false_r. split_and!; try done; auto.
        unfold qheld. by rewrite Hho.
      + split; [exact Hh|]. by rewrite Hho in Hf.
    - split; [|done]. unfold lock_neutral, phase, gone. rewrite Epc. simpl. rewrite andb_false_r. split_and!; try done; auto.
    - assert (Ho : held call = lc_outer call) by (unfold held; by rewrite Hfr).
      split.
      + unfold lock_neutral, phase, gone. rewrite Epc. simpl. split_and!; try done; auto.
        * unfold qheld. rewrite Ho. unfold held. simpl. by rewrite app_nil_r.
        * destruct s; try done; by rewrite andb_false_r.
      + split; [done|]. unfold held. simpl. rewrite app_nil_r. by rewrite Ho in Hf.
    - unfold held in Hf. rewrite Hfr in Hf. simpl in Hf. apply Forall_cons in Hf as [Hc Hf]. split.
      + unfold lock_neutral, phase, gone. rewrite Epc. simpl. split_and!; try done; auto.
        unfold qheld, held. rewrite Hfr. simpl. unfold is_queued_frame at 2. rewrite Hw.
        by rewrite bool_decide_eq_false_2 by (by intros []).
      + split; done.
    - split; [|done]. unfold lock_neutral, phase, gone. simpl. rewrite Ha. simpl. split_and!; try done; auto.
      unfold abort_pc. destruct (lc_kind call), (lc_pc call); auto; right; done.
  Qed.

Lemma wake_neutral w k c cs :
    LockInv None w cs -> LockInv None w (wake cs (k, c)).
  Proof.
    intros Hl. unfold wake. destruct (cs !! c) as [call|] eqn:E; [|done].
    destruct (lc_pc call) eqn:Epc; try done. eapply LockInv_neutral; [done..| |].
    - unfold lock_neutral, phase, gone. rewrite Epc. simpl. rewrite andb_false_r. split_and!; try done; auto.
    - apply (lk_contexts _ _ _ Hl c call E).
  Qed.

Lemma push_reentrant w call a pc :
    contexts_ok w call -> phase call = LFree -> phase_of pc = LFree -> gone call = false ->
    lock_neutral call (push_frame a None (lc_here call) pc call) /\
    contexts_ok w (push_frame a None (lc_here call) pc call).
  Proof.
    intros [Hh Hf] Hp Hp' Hg. split; [|split; [done|by constructor]].
    split; [done|]. split; [done|]. split; [by rewrite Hg|]. split; [congruence|].
    left. rewrite Hp. exact Hp'.
  Qed.

Lemma locked_fits w cs c call s k rest w' r :
    LockInv None w cs -> cs !! c = Some call -> lc_pc call = PTry s (k :: rest) ->
    runQueuedStoreWrite w (lc_here call) (section_lane s, k) true (TLock c) = Some (w', r) ->
    LockInv None w' (<[c := locked (section_lane s, k) s k rest r call]> cs).
  Proof.
    intros Hl Ec Epc Er. pose proof (lk_writers _ _ _ Hl) as Hw.
    pose proof (lk_contexts _ _ _ Hl c call Ec) as Hctx.
    assert (Hp : phase call = LFree) by (unfold phase; by rewrite Epc).
    assert (Hg : gone call = false) by (unfold gone; rewrite Epc; apply andb_false_r).
    pose proof (submit_views _ _ _ _ _ _ _ Hw Er) as Hv. destruct r as [|ctx'|]; simpl.
    - destruct Hv as (-> & _). destruct (push_reentrant w call (section_lane s, k) (PTry s rest) Hctx Hp) as [? ?];
        [done..|]. by eapply LockInv_neutral.
    - destruct Hv as (Hi & _ & Es). rewrite <- (surjective_pairing (start_task _ _ _ _ _)) in Es || idtac.
      pose proof (lock_started w cs c call _ (section_lane s, k) s rest Hl Ec Hp Hg Hi eq_refl) as Hn.
      by rewrite <- Es in Hn.
    - destruct Hv as (_ & _ & Hh & Hv). eapply lock_queued; try done.
      + eapply runQueuedStoreWrite_inv; [done| |exact Er]. apply Hctx.
      + intros b. destruct (Hv b) as (? & _ & ?). done.
  Qed.

  (** No barrier of a call is queued before it is admitted. *)
Lemma barrier_unqueued w cs c call a :
    LockInv None w cs -> cs !! c = Some call -> lc_pc call = PAssert -> TBarrier c ∉ waiting w a.
  Proof.
    intros Hl Ec Epc Hin. destruct (co_waiting _ _ _ _ (lk_contents _ _ _ Hl a) _ Hin) as (y & Ey & Hy).
    simpl in Ey. rewrite Ec in Ey. injection Ey as <-. destruct Hy as [_ [Hy|Hy]].
    - unfold phase in Hy. by rewrite Epc in Hy.
    - unfold gone in Hy. rewrite Epc, andb_false_r in Hy. done.
  Qed.

Lemma barrier_fits w cs c call a w' r :
    LockInv None w cs -> cs !! c = Some call -> lc_pc call = PAssert ->
    runQueuedStoreWrite w (lc_here call) (barrier_addr call) true (TBarrier c) = Some (w', r) ->
    LockInv None (barrier_writers call w' r) (<[c := with_pc (barrier_pc a call r) call]> cs).
  Proof.
    intros Hl Ec Epc Er. pose proof (lk_writers _ _ _ Hl) as Hw.
    pose proof (lk_contexts _ _ _ Hl c call Ec) as Hctx.
    assert (Hp : phase call = LFree) by (unfold phase; by rewrite Epc).
    assert (Hg : gone call = false) by (unfold gone; rewrite Epc; apply andb_false_r).
    pose proof (submit_views _ _ _ _ _ _ _ Hw Er) as Hv. unfold barrier_pc, barrier_writers.
    destruct r as [|ctx'|].
    - destruct Hv as (-> & _). eapply LockInv_neutral; [done..| |done].
      split; [done|]. split; [done|]. split; [by rewrite Hg|]. split; [congruence|]. left.
      rewrite Hp. unfold phase. simpl. by destruct (lc_aborted call).
    - destruct Hv as (Hi & _ & Es).
      pose proof (barrier_started w cs c call (with_pc (PRevalidate a false) call) _ (lc_here call)
        Hl Ec Hp eq_refl (proj1 Hctx) Hi eq_refl ltac:(by rewrite Hg) eq_refl Hctx eq_refl) as Hb.
      rewrite <- Es in Hb. simpl in Hb. destruct (lc_aborted call) eqn:Ea; [|done].
      (* the barrier of an aborted call throws at once *)
      set (cs1 := <[c:=with_pc (PRevalidate a false) call]> cs) in *.
      assert (Ec1 : cs1 !! c = Some (with_pc (PRevalidate a false) call))
        by (apply list_lookup_insert_eq; by eapply lookup_lt_Some).
      destruct (cl_checking _ _ _ _ (lk_claims _ _ _ Hb c _ Ec1) eq_refl) as [x Hx].
      destruct (fnSettled_enabled w' (barrier_addr call) false _ _ (lk_writers _ _ _ Hb) Hx) as [w2 Hs].
      rewrite Hs. simpl.
      replace (<[c := with_pc (PFailed a Aborted) call]> cs)
        with (<[c := with_pc (PFailed a Aborted) call]> cs1) by apply list_insert_insert_eq.
      eapply (barrier_settled w' w2 cs1 c _ (with_pc (PFailed a Aborted) call)); try done.
      + unfold gone at 1. simpl. by rewrite andb_false_r.
      + apply (call_contexts_heap w'); [|exact (lk_contexts _ _ _ Hb c _ Ec1)]. 
        by destruct (fnSettled_views _ _ _ _ (lk_writers _ _ _ Hb) Hs).
      + right. split; [done|]. unfold gone. simpl. by rewrite Ea.
    - destruct Hv as (_ & _ & Hh & Hv).
      eapply (barrier_queued w w' cs c call _ (barrier_addr call)); try done.
      + by eapply barrier_unqueued.
      + eapply runQueuedStoreWrite_inv; [done| |exact Er]. apply Hctx.
      + intros b. destruct (Hv b) as (? & _ & ?). done.
      + by rewrite Hg.
      + destruct (lc_aborted call) eqn:Ea; [right|by left]. split; [done|]. unfold gone. simpl. by rewrite Ea.
  Qed.

  (** The call of a task that starts waits for it. *)
Lemma pending_waits w cs a t :
    LockInv (Some (a, t)) w cs -> Shapes (Some (a, t), w, cs) ->
    exists call, cs !! owner t = Some call /\ waits_call call t a /\ task_waits t call = true /\
      (lc_aborted call = true -> match t with TBarrier _ => gone call = true | _ => True end).
  Proof.
    intros Hl Hs. destruct (co_pending _ _ _ _ (lk_contents _ _ _ Hl a) t eq_refl) as ((call & E & Hw) & _).
    exists call. split; [done|]. split; [done|]. pose proof (Hs _ call E) as Hsh.
    unfold waits_call, task_waits, phase, phase_of, shape in *.
    destruct t as [c|c]; destruct (lc_pc call) as [| | | | | |? []| | | | | | |] eqn:Epc;
      try (by destruct Hw); try (destruct Hw as [_ [?|Hg]]; [done|]); try done;
      try (pose proof Hg as Hg'; unfold gone in Hg'; apply andb_true_iff in Hg' as [Ha _]; done).
    split; [done|]. destruct Hsh as [_ ->]. done.
  Qed.

Lemma move_fits v v' : LocksFit v -> lock_move v v' -> LocksFit v'.
  Proof.
    intros [Hl Hs] Hm. split.
    2:{ eapply move_shapes; [done..|]. intros a c call s k rest Ep Ec Epc.
        destruct v as [[p w] cs]. simpl in *. subst p.
        destruct (pending_waits w cs a (TLock c) Hl Hs) as (y & Ey & Hy & _). simpl in Ey, Hy.
        rewrite Ec in Ey. injection Ey as <-. unfold phase in Hy. rewrite Epc in Hy. by injection Hy. }
    destruct Hm as [w cs c call call' Ec Hm|w cs c call Ec Epc _|w cs resolved|w cs call Hf|w cs c call s k rest w' r Ec Epc Er
      |w cs c call s x fr rest w' Ec Epc Efr Hw Hset|w cs c call a w' r Ec Epc Er
      |w cs c call a ok w' Ec Epc Hset|w cs a t ok started w' Ed
      |w cs a c call s k rest x ctx Ec Epc Hi Hlc|w cs a c call ad Ec Ea Epc|w cs a c call Ec Ea|w cs a t Hno];
      cbn [fst snd] in *.
    - destruct (call_move_neutral w call call') as [Hn Hc]; [by eapply (Hs c)|done|by eapply lk_contexts|].
      by eapply LockInv_neutral.
    - eapply LockInv_neutral; [done..| |exact (lk_contexts _ _ _ Hl c call Ec)].
      unfold lock_neutral, phase, gone. rewrite Epc. simpl. rewrite andb_false_r. split_and!; try done; auto.
    - apply (fold_left_inv (LockInv None w)); [done|]. intros cs' [k c] Hl'. by apply wake_neutral.
    - destruct Hf as (Hc & _ & Hf & Ho & _ & Hk). apply LockInv_new; try done.
      + unfold phase. destruct (lc_kind call), (lc_pc call); try done.
      + unfold held. by rewrite Hf, Ho.
    - by apply locked_fits with w.
    - by eapply lock_settled.
    - by eapply barrier_fits.
    - eapply (barrier_settled w w' cs c call); try done.
      + unfold phase. by rewrite Epc.
      + unfold gone. by rewrite Epc, andb_false_r.
      + apply (call_contexts_heap w); [|exact (lk_contexts _ _ _ Hl c call Ec)].
        by destruct (fnSettled_views _ _ _ _ (lk_writers _ _ _ Hl) Hset).
      + by left.
    - by apply answer_locks with w.
    - by eapply lock_entered.
    - by eapply barrier_entered.
    - destruct (pending_waits w cs a (TBarrier c) Hl Hs) as (y & Ey & _ & _ & Hg). simpl in Ey, Hg.
      rewrite Ec in Ey. injection Ey as <-. by eapply barrier_dropped; [..|apply Hg].
    - destruct (pending_waits w cs a t Hl Hs) as (y & Ey & _ & Ht & _). by rewrite (Hno y Ey) in Ht.
  Qed.

Lemma reachable_fits {A} `{AdmissionInterface A} (g : A) st : lifecycle_reachable g st -> LocksFit (view st).
  Proof.
    apply reachable_moves; [|apply move_fits]. split; [|by intros c call].
    split; simpl; [apply no_writers_inv|by intros c call|by intros c call|].
    intros a. split; unfold waiting, inflight; simpl; rewrite ?lookup_empty; try done; [constructor|].
    by intros t ?%elem_of_nil.
  Qed.
End moves.

(** ** The calls and the queues are well formed *)

Section promises.
  Context {A : Type} `{AdmissionInterface A}.
  Implicit Types (st : LifecycleState A).

  (** C30. In every reachable state a call is well formed and fits the queues: the
      locks it holds are those of the keys locked so far in the section its
      program counter names (inside a mutation, above the mutation locks of all
      its keys); each lock it took through a queue is the task in flight there;
      a lock it waits for has its task in that queue, once; and whatever waits in
      a queue is the task of a call that waits for it or gave it up. *)
Theorem calls_fit_queues g st (Hr : lifecycle_reachable g st) :
    (forall c call, st_calls st !! c = Some call -> shape call /\
       (forall fr x, fr ∈ held call -> fr_writer fr = Some x ->
          exists o, inflight (st_writers st) (fr_addr fr) = Some (TLock c, x, o)) /\
       (forall s k rest, lc_pc call = PQueued s k rest ->
          TLock c ∈ waiting (st_writers st) (section_lane s, k))) /\
    (forall a, NoDup (waiting (st_writers st) a) /\
       forall t, t ∈ waiting (st_writers st) a ->
         exists call, st_calls st !! owner t = Some call /\ waits_call call t a).
  Proof.
    destruct (reachable_fits g st Hr) as [Hl Hsh]. simpl in Hl. split.
    - intros c call Ec. pose proof (lk_claims _ _ _ Hl c call Ec) as Hcl.
      split; [by apply (Hsh c)|]. split.
      + intros fr x Hin Hx. destruct (cl_held _ _ _ _ Hcl fr x) as (o & Ho & _); [|done|eauto].
        unfold qheld. apply list_elem_of_In, List.filter_In. split; [by apply list_elem_of_In|].
        apply bool_decide_eq_true. by eexists.
      + intros s k rest Epc. destruct (cl_queued _ _ _ _ Hcl (section_lane s, k)) as [?|?]; [|done..].
        unfold phase. by rewrite Epc.
    - intros a. destruct (lk_contents _ _ _ Hl a) as [Hnd Hwt _ _]. done.
  Qed.
End promises.

(** ** Witness *)

(** A mutation waits for the lock that the admission of work holds. *)
Lemma calls_fit_queues_witness :
  let st := run_state [begin_work "x"; begin_mutation ["x"]] in
  waiting (st_writers st) (LifecycleQueues, run_key "x") = [TLock 1] /\
  forall c call, st_calls st !! c = Some call -> shape call.
Proof.
  split; [by vm_compute|].
  intros c call Ec.
  apply (proj1 (calls_fit_queues initial_admission (run_state [begin_work "x"; begin_mutation ["x"]])
    (run_state_reachable _)) c call Ec).
Defined.
