(* ===== verification/SessionOrder.v ===== *)
(** * The order of the locks of sessions

    Calls made from outside of any store write take their locks in one order, so
    a lock is never entered again by reentrancy: what a call holds it holds alone.
    With that, sections of calls that share an identity exclude each other, and no
    admission is granted on an identity under mutation.  Whatever contexts calls
    are made in, some call can always go on. *)
From S2P Require Import Prelude JsString JsMap WorkAdmission StoreWriterQueue SessionIdentity SessionLifecycle SessionMutations SessionMoves SessionShape SessionLocks.
#[local] Open Scope nat_scope.

(** ** The order *)

Definition addr_lt (a b : LockLane * jstr) : Prop :=
  lane_rank a.1 < lane_rank b.1 \/ a.1 = b.1 /\ str_lt a.2 b.2.

#[export] Instance addr_lt_strict : StrictOrder addr_lt.
Proof.
  split.
  - intros a [?|[_ Hl]]; [lia|]. by apply (irreflexivity str_lt) in Hl.
  - intros a b c [H1|[E1 H1]] [H2|[E2 H2]].
    + left. lia.
    + left. by rewrite <- E2.
    + left. by rewrite E1.
    + right. split; [congruence|]. by transitivity b.2.
Qed.

Lemma addr_lt_total a b : addr_lt a b \/ a = b \/ addr_lt b a.
Proof.
  destruct a as [l1 k1], b as [l2 k2]. unfold addr_lt. simpl.
  destruct (decide (l1 = l2)) as [->|Hne].
  - destruct (str_lt_total k1 k2) as [?|[->|?]]; auto.
  - assert (lane_rank l1 <> lane_rank l2) by (intros E; apply Hne; by destruct l1, l2).
    destruct (Nat.lt_trichotomy (lane_rank l1) (lane_rank l2)) as [?|[?|?]]; auto; lia.
Qed.

Section order.
  Implicit Types (w : Writers) (cs : list LifecycleCall) (ctx : Ctx).

  (** The chain of a context is below an address, or up to it. *)
Definition below w ctx (a : LockLane * jstr) : Prop := forall b, chain_has w ctx b -> addr_lt b a.

Definition up_to w ctx (a : LockLane * jstr) : Prop := forall b, chain_has w ctx b -> b = a \/ addr_lt b a.

  (** The contexts of the locks a call holds, from the innermost: every lock came
      from a queue, and the chain of the context inside it does not go past it. *)
Fixpoint stack_ok w ctx (frames : list Frame) : Prop :=
    match frames with
    | [] => forall b, ~ chain_has w ctx b
    | fr :: rest => up_to w ctx (fr_addr fr) /\ is_Some (fr_writer fr) /\ stack_ok w (fr_context fr) rest
    end.

Definition outermost cs : Prop := forall c call, cs !! c = Some call -> ctx_writer (lc_context call) = None.

Definition outermostb cs : bool :=
    forallb (fun call => bool_decide (ctx_writer (lc_context call) = None)) cs.

Lemma outermostb_ok cs : outermostb cs = true -> outermost cs.
  Proof.
    intros Hb c call E. apply (bool_decide_eq_true_1 (ctx_writer (lc_context call) = None)).
    apply (proj1 (forallb_forall _ _) Hb call), list_elem_of_In. by eapply list_elem_of_lookup_2.
  Qed.

Record Ordered w cs : Prop := {
    or_loops : forall a ctx, loop_context w a = Some ctx -> below w ctx a;
    or_stacks : forall c call, cs !! c = Some call -> stack_ok w (lc_here call) (held call);
    or_sorted : forall c call, cs !! c = Some call -> StronglySorted str_lt (lc_identities call);
  }.

  (** The chains of the contexts handed out stay as they are. *)
Definition same_chains w w' : Prop :=
    forall ctx b, ctx_ok w ctx -> chain_has w' ctx b <-> chain_has w ctx b.

Lemma stack_ok_same w w' ctx frames :
    same_chains w w' -> ctx_ok w ctx -> Forall (fun fr => ctx_ok w (fr_context fr)) frames ->
    stack_ok w ctx frames -> stack_ok w' ctx frames.
  Proof.
    intros Hs. revert ctx. induction frames as [|fr rest IH]; intros ctx Hc Hf; simpl.
    - intros Hn b Hb. apply (Hn b). by apply Hs.
    - apply Forall_cons in Hf as [Hcf Hf]. intros (Hu & Hw & Hr). split; [|split; [done|by apply IH]].
      intros b Hb. apply Hu. by apply Hs.
  Qed.

Lemma stack_ok_writer w ctx ctx' frames :
    ctx_writer ctx' = ctx_writer ctx -> stack_ok w ctx frames -> stack_ok w ctx' frames.
  Proof. intros E. destruct frames; simpl; unfold up_to, chain_has; by rewrite E. Qed.

  (** What a call may lock next is above everything on its chain. *)
Lemma stack_below w ctx frames a :
    stack_ok w ctx frames -> (forall fr, head frames = Some fr -> addr_lt (fr_addr fr) a) -> below w ctx a.
  Proof.
    destruct frames as [|fr rest]; simpl.
    - intros Hn _ b Hb. by destruct (Hn b).
    - intros (Hu & _) Hf b Hb. specialize (Hf fr eq_refl). destruct (Hu b Hb) as [->|?]; [done|].
      by transitivity (fr_addr fr).
  Qed.

Lemma lane_head call s rest k :
    in_section call s (k :: rest) -> StronglySorted str_lt (lc_identities call) ->
    forall fr, head (held call) = Some fr -> addr_lt (fr_addr fr) (section_lane s, k).
  Proof.
    intros (Hsec & (l & Hid & Hf) & Ho) Hsort fr Hh. unfold held in Hh.
    destruct (lc_frames call) as [|f frames].
    - destruct (lc_outer call) as [|f outer]; [done|]. injection Hh as ->.
      destruct s; try done; left;
        (destruct (rev (lc_identities call)); [done|injection Ho as -> _]; simpl; lia).
    - injection Hh as ->. destruct l as [|x l _] using rev_ind; [done|].
      rewrite rev_app_distr in Hf. injection Hf as Hf _. right. rewrite Hf. split; [done|]. simpl.
      rewrite Hid, <- app_assoc in Hsort. clear -Hsort. induction l as [|y l IH]; simpl in Hsort.
      + apply StronglySorted_inv in Hsort as [_ Hs]. by apply Forall_cons in Hs as [? _].
      + apply StronglySorted_inv in Hsort as [Hs _]. by apply IH.
  Qed.

  (** The barrier is above all locks. *)
Lemma barrier_head call (rest : list jstr) :
    in_section call SAdmit rest -> forall fr, head (held call) = Some fr -> addr_lt (fr_addr fr) (barrier_addr call).
  Proof.
    intros (Hsec & (l & Hid & Hf) & Ho) fr Hh. unfold held in Hh.
    destruct (lc_outer call); [|done]. rewrite app_nil_r in Hh.
    destruct (lc_frames call) as [|f frames]; [done|]. injection Hh as ->.
    destruct (rev l); [done|]. injection Hf as -> _. left. simpl. lia.
  Qed.

  (** Every move leaves the contexts calls were made in. *)
Lemma move_context v v' :
    lock_move v v' -> forall c call, v.2 !! c = Some call ->
    exists call', v'.2 !! c = Some call' /\ lc_context call' = lc_context call /\
      lc_identities call' = lc_identities call /\ lc_kind call' = lc_kind call.
  Proof.
    intros Hm d x Ed.
    assert (Hins : forall cs c call call', cs !! c = Some call -> cs !! d = Some x ->
      lc_context call' = lc_context call -> lc_identities call' = lc_identities call ->
      lc_kind call' = lc_kind call ->
      exists y, <[c := call']> cs !! d = Some y /\ lc_context y = lc_context x /\
        lc_identities y = lc_identities x /\ lc_kind y = lc_kind x).
    { intros cs c call call' Ec Ex E1 E2 E3. destruct (decide (c = d)) as [->|Hne].
      - rewrite list_lookup_insert_eq by (by eapply lookup_lt_Some). exists call'. split; [done|].
        split_and!; congruence.
      - rewrite list_lookup_insert_ne by done. eauto. }
    destruct Hm; cbn [fst snd] in *; try (by eapply Hins); try (by exists x).
    - by destruct H0; eapply Hins.
    - rewrite wake_lookup, Ed. simpl. eexists. split; [done|]. unfold woken. by destruct (lc_pc x).
    - exists x. split; [by apply lookup_app_l_Some|done].
    - eapply Hins; [done..| | |]; by destruct r.
    - rewrite list_lookup_alter. case_decide as E.
      + subst. rewrite Ed. simpl. eexists. split; [done|].
        unfold answer_call. destruct t, (lc_pc x); try done. by destruct (lc_frames x).
      + eauto.
  Qed.
End order.

(** ** Every move keeps the order *)

Section preserved.
  Implicit Types (w : Writers) (cs : list LifecycleCall) (ctx : Ctx).

Lemma Ordered_insert w cs c call call' :
    Ordered w cs -> cs !! c = Some call -> lc_identities call' = lc_identities call ->
    stack_ok w (lc_here call') (held call') -> Ordered w (<[c := call']> cs).
  Proof.
    intros [Hl Hs Ho] Ec Ei Hk. split; [done| |].
    - intros d x [(<- & <- & _)|[_ Ex]]%list_lookup_insert_Some; [done|by eapply Hs].
    - intros d x [(<- & <- & _)|[_ Ex]]%list_lookup_insert_Some; [rewrite Ei|]; by eapply Ho.
  Qed.

Lemma Ordered_same w w' cs :
    Ordered w cs -> same_chains w w' -> (forall c call, cs !! c = Some call -> contexts_ok w call) ->
    (forall a ctx, loop_context w' a = Some ctx -> below w' ctx a) -> Ordered w' cs.
  Proof.
    intros [Hl Hs Ho] Hsame Hc Hl'. split; [done| |done].
    intros c call Ec. destruct (Hc c call Ec) as [Hh Hf]. eapply stack_ok_same; [done..|]. by eapply Hs.
  Qed.

Lemma below_same w w' ctx a : same_chains w w' -> ctx_ok w ctx -> below w ctx a -> below w' ctx a.
  Proof. intros Hs Hc Hb b Hx. apply Hb. by apply Hs. Qed.

Lemma same_chains_heap w w' : sw_heap w' = sw_heap w -> same_chains w w'.
  Proof. intros E ctx b _. by apply chain_has_heap. Qed.

  (** The contexts that calls hold were handed out. *)
Definition Handed w cs : Prop :=
    WriterInv w /\ forall c call, cs !! c = Some call -> contexts_ok w call.

Lemma Handed_fits p w cs : LockInv p w cs -> Handed w cs.
  Proof. intros Hl. split; apply Hl. Qed.

  (** The loop of a queue starts, or goes on, below its address. *)
Lemma Ordered_start w cs a ctx t rest :
    Handed w cs -> Ordered w cs -> ctx_ok w ctx -> below w ctx a ->
    let '(w', ctx') := start_task w a ctx t rest in
    same_chains w w' /\ Ordered w' cs /\ up_to w' ctx' a.
  Proof.
    intros [Hw Hl] Ho Hc Hb.
    pose proof (fun c b => chain_has_start w a ctx t rest c b Hw) as Hsame.
    pose proof (fun b => chain_has_new w a ctx t rest b Hw Hc) as Hnew.
    pose proof (fun b => start_task_views w a ctx t rest b) as Hv. cbv zeta in Hv.
    destruct (start_task w a ctx t rest) as [w' ctx']. simpl in *.
    assert (Hs : same_chains w w') by (intros c b Hcb; by apply Hsame).
    split; [done|]. split.
    - eapply Ordered_same; [done..|]. intros b x Hx.
      destruct (Hv b) as (_ & _ & E). rewrite E in Hx. case_decide as Eb.
      + injection Hx as <-. subst b. by eapply below_same.
      + eapply below_same; [done|by eapply loop_context_ok|by apply Ho].
    - intros b Hx. destruct (Hnew b) as [_ Hn]. apply Hn in Hx as [->|Hx]; [by left|right; by apply Hb].
  Qed.

Lemma Ordered_settled w w' cs a ok :
    Handed w cs -> Ordered w cs -> fnSettled w a ok = Some w' -> same_chains w w' /\ Ordered w' cs.
  Proof.
    intros [Hw Hl] Ho Hs.
    assert (Hsame : same_chains w w') by (intros c b _; by eapply chain_has_settled).
    split; [done|]. eapply Ordered_same; [done..|]. intros b x Hx.
    destruct (fnSettled_views _ _ _ _ Hw Hs) as (_ & t & y & _ & Hv).
    destruct (Hv b) as (_ & E & _). rewrite E in Hx.
    eapply below_same; [done|by eapply loop_context_ok|by apply Ho].
  Qed.

Lemma Ordered_queued w w' cs :
    Handed w cs -> Ordered w cs -> sw_heap w' = sw_heap w ->
    (forall b, loop_context w' b = loop_context w b) -> Ordered w' cs.
  Proof.
    intros [Hw Hl] Ho Hh Hv. eapply Ordered_same; [done|by apply same_chains_heap|done|].
    intros b x Hx. rewrite Hv in Hx.
    eapply below_same; [by apply same_chains_heap|by eapply loop_context_ok|by apply Ho].
  Qed.

Lemma call_move_stack w call call' :
    shape call -> call_move call call' -> stack_ok w (lc_here call) (held call) ->
    stack_ok w (lc_here call') (held call').
  Proof.
    intros Hs Hm Hk. unfold shape in Hs.
    destruct Hm as [call pc Hm|call keys Hl|call x Hl|call s x Epc Hor Hfr|call l Epc|call Epc
      |call s x Epc H1 H2 Hfr|call s x fr rest Epc Hfr Hw|call o Ha]; try done.
    - rewrite Epc in Hs. rewrite (held_outer _ _ _ Hs) in Hk by (by right).
      by apply (stack_ok_writer w (lc_here call)).
    - unfold held in *. rewrite Hfr in Hk. simpl in *. by rewrite app_nil_r.
    - unfold held in *. rewrite Hfr in Hk. destruct Hk as (_ & [? E] & _). congruence.
  Qed.

Lemma fresh_stack w call : fresh_call w call -> ctx_writer (lc_context call) = None -> stack_ok w (lc_here call) (held call).
  Proof.
    intros (_ & E & Hf & Ho & _) Hn. unfold held. rewrite Hf, Ho. simpl.
    intros b (i & x & Hon & _). rewrite <- E, Hn in Hon. inversion Hon.
  Qed.

Lemma locked_ordered w cs c call s k rest w' r :
    LocksFit (None, w, cs) -> Ordered w cs -> cs !! c = Some call -> lc_pc call = PTry s (k :: rest) ->
    runQueuedStoreWrite w (lc_here call) (section_lane s, k) true (TLock c) = Some (w', r) ->
    Ordered w' (<[c := locked (section_lane s, k) s k rest r call]> cs).
  Proof.
    intros [Hl Hsh] Ho Ec Epc Er. simpl in Hl. pose proof (lk_writers _ _ _ Hl) as Hw.
    destruct (lk_contexts _ _ _ Hl c call Ec) as [Hh Hf].
    pose proof (Hsh c call Ec) as Hs. unfold shape in Hs. rewrite Epc in Hs.
    pose proof (or_stacks _ _ Ho c call Ec) as Hk.
    assert (Hb : below w (lc_here call) (section_lane s, k)).
    { eapply stack_below; [done|]. apply (lane_head call s rest k Hs). by apply (or_sorted _ _ Ho c). }
    assert (Hna : isActiveStoreWriter w (lc_here call) (section_lane s, k) = false).
    { apply not_reentrant; [done..|]. intros Hx. apply Hb in Hx. by apply (irreflexivity addr_lt) in Hx. }
    pose proof (submit_views _ _ _ _ _ _ _ Hw Er) as Hv. destruct r as [|ctx'|].
    - destruct Hv as (_ & _ & Hx). congruence.
    - destruct Hv as (_ & _ & Es).
      pose proof (Ordered_start w cs (section_lane s, k) (lc_here call) (TLock c) [] (Handed_fits _ _ _ Hl) Ho Hh Hb) as Hst.
      pose proof (start_task_context w (section_lane s, k) (lc_here call) (TLock c) []) as Hx.
      rewrite <- Es in Hst, Hx. simpl in Hx. destruct Hst as (Hsame & Ho' & Hu).
      eapply Ordered_insert; [done..|]. simpl. split; [done|]. split; [by rewrite Hx|].
      by eapply stack_ok_same.
    - destruct Hv as (_ & _ & Hh' & Hv).
      eapply Ordered_insert; [|done..|].
      + eapply Ordered_queued; [by eapply Handed_fits|done..|]. intros b. by destruct (Hv b) as (_ & ? & _).
      + eapply (stack_ok_same w w'); [by apply same_chains_heap|done..].
  Qed.

Lemma barrier_ordered w cs c call a w' r :
    LocksFit (None, w, cs) -> Ordered w cs -> cs !! c = Some call -> lc_pc call = PAssert ->
    runQueuedStoreWrite w (lc_here call) (barrier_addr call) true (TBarrier c) = Some (w', r) ->
    Ordered (barrier_writers call w' r) (<[c := with_pc (barrier_pc a call r) call]> cs).
  Proof.
    intros [Hl Hsh] Ho Ec Epc Er. simpl in Hl. pose proof (lk_writers _ _ _ Hl) as Hw.
    destruct (lk_contexts _ _ _ Hl c call Ec) as [Hh Hf].
    pose proof (Hsh c call Ec) as Hs. unfold shape in Hs. rewrite Epc in Hs.
    pose proof (or_stacks _ _ Ho c call Ec) as Hk.
    assert (Hb : below w (lc_here call) (barrier_addr call)).
    { eapply stack_below; [done|]. by eapply barrier_head. }
    assert (Hna : isActiveStoreWriter w (lc_here call) (barrier_addr call) = false).
    { apply not_reentrant; [done..|]. intros Hx. apply Hb in Hx. by apply (irreflexivity addr_lt) in Hx. }
    pose proof (submit_views _ _ _ _ _ _ _ Hw Er) as Hv. destruct r as [|ctx'|].
    - destruct Hv as (_ & _ & Hx). congruence.
    - destruct Hv as (Hi & _ & Es).
      pose proof (Ordered_start w cs (barrier_addr call) (lc_here call) (TBarrier c) [] (Handed_fits _ _ _ Hl) Ho Hh Hb) as Hst.
      rewrite <- Es in Hst. destruct Hst as (Hsame & Ho' & Hu). simpl.
      assert (Hw' : WriterInv w') by (eapply runQueuedStoreWrite_inv; [done|exact Hh|exact Er]).
      assert (Hlen : length (sw_heap w) <= length (sw_heap w'))
        by (injection Es as -> _; simpl; rewrite length_app; lia).
      assert (Hd : Handed w' cs) by (split; [done|]; intros d x Ex; eapply contexts_grow; [done|by apply (lk_contexts _ _ _ Hl d)]).
      assert (Hgo : forall w2 pc, same_chains w' w2 -> Ordered w2 cs -> Ordered w2 (<[c := with_pc pc call]> cs)).
      { intros w2 pc Hs2 Ho2. eapply Ordered_insert; [done..|]. exact (or_stacks _ _ Ho2 c call Ec). }
      destruct (lc_aborted call); [|by apply (Hgo w')].
      destruct (fnSettled w' (barrier_addr call) false) as [w2|] eqn:Eset; simpl; [|by apply (Hgo w')].
      destruct (Ordered_settled w' w2 cs (barrier_addr call) false Hd Ho' Eset) as [Hs2 Ho2]. by apply Hgo.
    - destruct Hv as (_ & _ & Hh' & Hv).
      eapply Ordered_insert; [|done..|].
      + eapply Ordered_queued; [by eapply Handed_fits|done..|]. intros b. by destruct (Hv b) as (_ & ? & _).
      + eapply (stack_ok_same w w'); [by apply same_chains_heap|done..].
  Qed.

Lemma alter_insert (f : LifecycleCall -> LifecycleCall) (c : nat) cs call :
    cs !! c = Some call -> alter f c cs = <[c := f call]> cs.
  Proof. intros E. by rewrite alter_lookup, E. Qed.

Lemma answer_stack w t ok call :
    stack_ok w (lc_here call) (held call) ->
    stack_ok w (lc_here (answer_call t ok call)) (held (answer_call t ok call)).
  Proof.
    intros Hk. unfold answer_call. destruct t, (lc_pc call); try done.
    destruct (lc_frames call) as [|fr rest] eqn:Ef; [done|].
    unfold held in *. rewrite Ef in Hk. simpl. by destruct Hk as (_ & _ & Hk).
  Qed.

Lemma drain_ordered w cs a t ok started w' :
    LockInv None w cs -> Ordered w cs -> drainContinues w a = Some (w', (t, ok), started) ->
    Ordered w' (alter (answer_call t ok) (owner t) cs).
  Proof.
    intros Hl Ho Ed. pose proof (Handed_fits _ _ _ Hl) as Hd. pose proof (lk_writers _ _ _ Hl) as Hw.
    assert (Ho' : Ordered w' cs).
    { destruct (drainContinues_views _ _ _ _ _ _ Ed) as (x & ctx & _ & Hlc & Hm).
      destruct (waiting w a) as [|t' rest].
      - destruct Hm as (_ & Hh & Hv). eapply Ordered_same; [done|by apply same_chains_heap|by apply Hl|].
        intros b y Hy. destruct (Hv b) as (_ & E & _). rewrite E in Hy. case_decide; [done|].
        eapply below_same; [by apply same_chains_heap|by eapply loop_context_ok|by apply Ho].
      - destruct Hm as (ctx' & _ & Es).
        pose proof (Ordered_start w cs a ctx t' rest Hd Ho (loop_context_ok _ _ _ Hw Hlc) (or_loops _ _ Ho _ _ Hlc)) as Hst.
        rewrite <- Es in Hst. by destruct Hst as (_ & ? & _). }
    rewrite alter_lookup. destruct (cs !! owner t) as [call|] eqn:Ec; [|done].
    eapply Ordered_insert; [done..| |].
    - unfold answer_call. destruct t, (lc_pc call); try done. by destruct (lc_frames call).
    - apply answer_stack. by apply (or_stacks _ _ Ho' (owner t)).
  Qed.

Lemma enter_ordered w cs a c call s (rest : list jstr) x ctx :
    LockInv (Some (a, TLock c)) w cs -> Ordered w cs -> cs !! c = Some call ->
    inflight w a = Some (TLock c, x, None) -> loop_context w a = Some ctx ->
    Ordered w (<[c := push_frame a (Some x) {| ctx_writer := Some x; ctx_stores := ctx_stores ctx |}
                        (PTry s rest) call]> cs).
  Proof.
    intros Hl Ho Ec Hi Hlc. eapply Ordered_insert; [done..|]. simpl.
    split; [|split; [done|by apply (or_stacks _ _ Ho c)]].
    intros b (i & y & Hon & Hy & Hb). unfold inflight, loop_context in Hi, Hlc.
    destruct (sw_queues w !! a) as [q|] eqn:Eq; [|done]. simpl in Hi, Hlc.
    destruct (wi_drain _ (lk_writers _ _ _ Hl) _ _ Eq) as (_ & d & Hd & _ & z & Hz & Hza & _ & Hp).
    rewrite Hd in Hi, Hlc. injection Hi as _ <- _. injection Hlc as <-. simpl in Hon.
    inversion Hon as [? u Hu|? u ? Hu Hon']; subst.
    - rewrite Hz in Hy. injection Hy as <-. by left.
    - rewrite Hz in Hu. injection Hu as <-. right.
      apply (or_loops _ _ Ho (writer_addr z) (dr_context d)); [unfold loop_context; rewrite Eq; simpl; by rewrite Hd|].
      exists i, y. split; [by rewrite <- Hp|done].
  Qed.

Definition OrderFits (v : LockView) : Prop := LocksFit v /\ (outermost v.2 -> Ordered v.1.2 v.2).

Lemma move_ordered v v' : OrderFits v -> lock_move v v' -> OrderFits v'.
  Proof.
    intros [Hf Ho] Hm. split; [by eapply move_fits|]. intros Hout'.
    assert (Hout : outermost v.2).
    { intros c call Ec. destruct (move_context _ _ Hm c call Ec) as (call' & Ec' & <- & _). by eapply Hout'. }
    specialize (Ho Hout). pose proof Hf as [Hl Hsh].
    destruct Hm as [w cs c call call' Ec Hm|w cs c call Ec Epc _|w cs resolved|w cs call Hn|w cs c call s k rest w' r Ec Epc Er
      |w cs c call s x fr rest w' Ec Epc Efr Hw Hset|w cs c call a w' r Ec Epc Er
      |w cs c call a ok w' Ec Epc Hset|w cs a t ok started w' Ed
      |w cs a c call s k rest x ctx Ec Epc Hi Hlc|w cs a c call ad Ec Ea Epc|w cs a c call Ec Ea|w cs a t Hno];
      cbn [fst snd] in *.
    - eapply Ordered_insert; [done..| |].
      + by destruct Hm.
      + eapply call_move_stack; [by eapply (Hsh c)|done|by apply (or_stacks _ _ Ho c)].
    - eapply Ordered_insert; [done..|]. exact (or_stacks _ _ Ho c call Ec).
    - apply (fold_left_inv (Ordered w)); [done|]. intros cs' [k c] Ho'. unfold wake.
      destruct (cs' !! c) as [call|] eqn:E; [|done]. destruct (lc_pc call); try done.
      eapply Ordered_insert; [done..|]. exact (or_stacks _ _ Ho' c call E).
    - split; [apply Ho| |].
      + intros c x [[_ E]|[-> <-]]%lookup_snoc_Some; [by eapply or_stacks|].
        eapply fresh_stack; [done|]. apply (Hout' (length cs)). by apply lookup_snoc_Some; right.
      + intros c x [[_ E]|[_ <-]]%lookup_snoc_Some; [by eapply or_sorted|]. apply Hn.
    - by eapply locked_ordered.
    - destruct (Ordered_settled w w' cs _ _ (Handed_fits _ _ _ Hl) Ho Hset) as [_ Ho'].
      eapply Ordered_insert; [done..|]. exact (or_stacks _ _ Ho' c call Ec).
    - by eapply barrier_ordered.
    - destruct (Ordered_settled w w' cs _ _ (Handed_fits _ _ _ Hl) Ho Hset) as [_ Ho'].
      eapply Ordered_insert; [done..|]. exact (or_stacks _ _ Ho' c call Ec).
    - by eapply drain_ordered.
    - by eapply enter_ordered.
    - eapply Ordered_insert; [done..|]. exact (or_stacks _ _ Ho c call Ec).
    - destruct (fnSettled w a false) as [w'|] eqn:Hset; [|done].
      by apply (Ordered_settled w w' cs _ _ (Handed_fits _ _ _ Hl) Ho Hset).
    - done.
  Qed.

Lemma reachable_ordered {A} `{AdmissionInterface A} (g : A) st :
    lifecycle_reachable g st -> OrderFits (view st).
  Proof.
    apply reachable_moves; [|apply move_ordered]. split.
    - apply (reachable_fits g (initial_lifecycle g)). constructor.
    - intros _. split; simpl; [|by intros c call..]. intros a ctx. unfold loop_context. simpl.
      by rewrite lookup_empty.
  Qed.
End preserved.
