(* ===== verification/SessionExclusion.v ===== *)
(** * Exclusion between calls on sessions

    What the locks of [SessionLifecycle] are for: calls from outside of any store
    write that share an identity do not overlap in their locked parts, and an
    admission is granted only while no mutation is active on its identities. *)
From S2P Require Import Prelude JsString JsMap WorkAdmission StoreWriterQueue SessionIdentity SessionLifecycle SessionMutations SessionMoves SessionShape SessionLocks SessionOrder.
#[local] Open Scope nat_scope.

(** An admission whose check of active mutations was passed, under its locks. *)
Definition checked (pc : ProgramCounter) : bool :=
  match pc with
  | PAssert | PBarrier _ | PRevalidate _ _ | PBarrierDone _ _ => true
  | _ => false
  end.

(** All lifecycle locks of the identities are held: an admission past its check,
    or the [run] of a mutation. *)
Definition in_lifecycle (pc : ProgramCounter) : bool :=
  match pc with PFailed _ _ | PRun => true | _ => checked pc end.

(** Inside the mutation locks: from the activation to the end of the cleanup. *)
Definition inner (s : LockSection) : bool := match s with SAdmit | SMutation => false | _ => true end.

Definition in_mutation (pc : ProgramCounter) : bool :=
  match pc with
  | PPrepare | PRun => true
  | PTry s _ | PQueued s _ _ | PExit s _ | PExitWait s _ => inner s
  | _ => false
  end.

Section exclusion.
  Implicit Types (w : Writers) (cs : list LifecycleCall).

Lemma stack_writers w ctx frames fr : stack_ok w ctx frames -> fr ∈ frames -> is_Some (fr_writer fr).
  Proof.
    revert ctx. induction frames as [|f rest IH]; intros ctx; simpl; [by intros _ ?%elem_of_nil|].
    intros (_ & Hw & Hr) [->|Hin]%elem_of_cons; [done|]. by eapply IH.
  Qed.

  (** Two calls never hold the same lock. *)
Lemma held_disjoint w cs c d call other fr fr' :
    LockInv None w cs -> Ordered w cs -> cs !! c = Some call -> cs !! d = Some other ->
    fr ∈ held call -> fr' ∈ held other -> fr_addr fr = fr_addr fr' -> c = d.
  Proof.
    intros Hl Ho Ec Ed Hin Hin' Ea.
    assert (Hq : forall e x f, cs !! e = Some x -> f ∈ held x ->
      exists y o, inflight w (fr_addr f) = Some (TLock e, y, o)).
    { intros e x f Ex Hf. destruct (stack_writers _ _ _ _ (or_stacks _ _ Ho e x Ex) Hf) as [y Hy].
      destruct (cl_held _ _ _ _ (lk_claims _ _ _ Hl e x Ex) f y) as (o & Hi & _); [|done|eauto].
      unfold qheld. apply list_elem_of_In, List.filter_In. split; [by apply list_elem_of_In|].
      apply bool_decide_eq_true. by eexists. }
    destruct (Hq c call fr Ec Hin) as (y & o & Hi). destruct (Hq d other fr' Ed Hin') as (y' & o' & Hi').
    rewrite Ea, Hi' in Hi. by injection Hi.
  Qed.

Lemma in_addrs lane (k : jstr) keys frames :
    fr_addr <$> frames = lane_addrs lane keys -> k ∈ keys ->
    exists fr, fr ∈ frames /\ fr_addr fr = (lane, k).
  Proof.
    intros E Hk. assert ((lane, k) ∈ fr_addr <$> frames) as Hin by (rewrite E; by apply list_elem_of_fmap_2).
    apply list_elem_of_fmap in Hin as (fr & -> & Hin). eauto.
  Qed.

Lemma holds_section call s (k : jstr) :
    in_section call s [] -> k ∈ lc_identities call ->
    exists fr, fr ∈ held call /\ fr_addr fr = (section_lane s, k).
  Proof.
    intros (_ & (l & Hid & Hf) & _) Hk. rewrite app_nil_r in Hid. subst l.
    destruct (in_addrs _ k _ _ Hf) as (fr & Hin & E).
    - rewrite list_elem_of_In, <- in_rev, <- list_elem_of_In. done.
    - exists fr. split; [|done]. unfold held. set_solver.
  Qed.

Lemma holds_lifecycle call (k : jstr) :
    shape call -> in_lifecycle (lc_pc call) = true -> k ∈ lc_identities call ->
    exists fr, fr ∈ held call /\ fr_addr fr = (LifecycleQueues, k).
  Proof.
    unfold shape. intros Hs Hp Hk.
    destruct (lc_pc call); try done; try (by apply (holds_section call SAdmit)).
    - destruct Hs as [Hs _]. by apply (holds_section call SAdmit).
    - by apply (holds_section call SRun).
  Qed.

Lemma holds_mutation call (k : jstr) :
    shape call -> in_mutation (lc_pc call) = true -> k ∈ lc_identities call ->
    exists fr, fr ∈ held call /\ fr_addr fr = (MutationQueues, k).
  Proof.
    intros Hs Hp Hk. assert (Ho : fr_addr <$> lc_outer call = lane_addrs MutationQueues (rev (lc_identities call))).
    { unfold shape in Hs. destruct (lc_pc call) as [|s ?|s ? ?| | | | | | | | |s ?|s ?|]; try done;
        try (match type of Hs with ex _ => destruct Hs as [? Hs] end); destruct Hs as (_ & _ & Ho); done || (by destruct s). }
    destruct (in_addrs _ k _ _ Ho) as (fr & Hin & E).
    - rewrite list_elem_of_In, <- in_rev, <- list_elem_of_In. done.
    - exists fr. split; [|done]. unfold held. set_solver.
  Qed.

  (** ** Admissions and active mutations *)

Definition Separate cs : Prop :=
    forall c d call mutation k, cs !! c = Some call -> cs !! d = Some mutation ->
      checked (lc_pc call) = true -> in_run (lc_pc mutation) = true ->
      k ∈ lc_identities call -> k ∉ lc_identities mutation.

  (** A change of one call that enters neither side. *)
Lemma Separate_insert cs c call call' :
    Separate cs -> cs !! c = Some call -> lc_identities call' = lc_identities call ->
    (checked (lc_pc call') = true -> checked (lc_pc call) = true) ->
    (in_run (lc_pc call') = true -> in_run (lc_pc call) = true) -> Separate (<[c := call']> cs).
  Proof.
    intros Hs Ec Ei Hc Hr.
    assert (Hold : forall e x, <[c := call']> cs !! e = Some x -> exists y, cs !! e = Some y /\
      lc_identities x = lc_identities y /\ (checked (lc_pc x) = true -> checked (lc_pc y) = true) /\
      (in_run (lc_pc x) = true -> in_run (lc_pc y) = true)).
    { intros e x [(<- & <- & _)|[_ Ex]]%list_lookup_insert_Some; eauto 10. }
    intros e d x y k Ex Ey Hx Hy.
    destruct (Hold e x Ex) as (x' & Ex' & -> & Hcx & _). destruct (Hold d y Ey) as (y' & Ey' & -> & _ & Hry).
    eapply Hs; eauto.
  Qed.

Lemma call_move_flags call call' :
    call_move call call' ->
    lc_identities call' = lc_identities call /\
    (checked (lc_pc call') = true -> checked (lc_pc call) = true) /\
    (in_run (lc_pc call') = true -> in_run (lc_pc call) = true \/
       (lc_pc call = PTry SActivate [] /\ call' = with_activated (PExit SActivate XOk) call)).
  Proof.
    intros Hm. split; [by destruct Hm|].
    destruct Hm as [call pc Hm|call keys Hl|call x Hl|call s x Epc Hor Hfr|call l Epc|call Epc
      |call s x Epc H1 H2 Hfr|call s x fr rest Epc Hfr Hw|call o Ha]; simpl; try rewrite Epc; try done; auto.
    - remember (lc_pc call) as pc0. destruct Hm; try (by auto).
      all: split; [by destruct s|destruct s; try done; auto].
    - unfold abort_pc. destruct (lc_kind call), (lc_pc call); auto.
  Qed.

Lemma answer_flags t ok call :
    lc_identities (answer_call t ok call) = lc_identities call /\
    (checked (lc_pc (answer_call t ok call)) = true -> checked (lc_pc call) = true) /\
    (in_run (lc_pc (answer_call t ok call)) = true -> in_run (lc_pc call) = true).
  Proof.
    unfold answer_call. destruct t, (lc_pc call) eqn:Epc; rewrite ?Epc; try done.
    - destruct (lc_frames call); simpl; rewrite ?Epc; done.
    - by destruct ok.
  Qed.

Lemma Separate_alter f (c : nat) cs :
    Separate cs -> (forall call, lc_identities (f call) = lc_identities call /\
      (checked (lc_pc (f call)) = true -> checked (lc_pc call) = true) /\
      (in_run (lc_pc (f call)) = true -> in_run (lc_pc call) = true)) -> Separate (alter f c cs).
  Proof.
    intros Hs Hf. rewrite alter_lookup. destruct (cs !! c) as [call|] eqn:E; [|done].
    destruct (Hf call) as (? & ? & ?). by eapply Separate_insert.
  Qed.

  (** An activation holds the lifecycle locks that a checked admission holds. *)
Lemma activate_separate w cs c call :
    LockInv None w cs -> (forall d x, cs !! d = Some x -> shape x) -> Ordered w cs -> Separate cs ->
    cs !! c = Some call -> lc_pc call = PTry SActivate [] ->
    Separate (<[c := with_activated (PExit SActivate XOk) call]> cs).
  Proof.
    intros Hl Hsh Ho Hs Ec Epc e d x y k [(<- & <- & _)|[_ Ex]]%list_lookup_insert_Some; [done|].
    intros [(<- & <- & _)|[Hne Ey]]%list_lookup_insert_Some Hx Hy Hk; [|by eapply (Hs e d)].
    simpl. intros Hk'. pose proof (Hsh c call Ec) as Hc. unfold shape in Hc. rewrite Epc in Hc.
    destruct (holds_section call SActivate k Hc Hk') as (fr & Hin & E).
    destruct (holds_lifecycle x k) as (fr' & Hin' & E'); [by eapply Hsh| |done|].
    { unfold in_lifecycle. rewrite Hx. by destruct (lc_pc x). }
    assert (c = e) as -> by (apply (held_disjoint w cs c e call x fr fr'); try done; by rewrite E, E').
    rewrite Ec in Ex. injection Ex as <-. by rewrite Epc in Hx.
  Qed.

Lemma move_separate v v' :
    OrderFits v -> (outermost v.2 -> Separate v.2) -> lock_move v v' -> outermost v'.2 -> Separate v'.2.
  Proof.
    intros [[Hl Hsh] Ho] Hs Hm Hout'.
    assert (Hout : outermost v.2).
    { intros c call Ec. destruct (move_context _ _ Hm c call Ec) as (call' & Ec' & <- & _). by eapply Hout'. }
    specialize (Ho Hout). specialize (Hs Hout).
    destruct Hm as [w cs c call call' Ec Hm|w cs c call Ec Epc Hu|w cs resolved|w cs call Hn|w cs c call s k rest w' r Ec Epc Er
      |w cs c call s x fr rest w' Ec Epc Efr Hw Hset|w cs c call a w' r Ec Epc Er
      |w cs c call a ok w' Ec Epc Hset|w cs a t ok started w' Ed
      |w cs a c call s k rest x ctx Ec Epc Hi Hlc|w cs a c call ad Ec Ea Epc|w cs a c call Ec Ea|w cs a t Hno];
      cbn [fst snd] in *; try done.
    - destruct (call_move_flags _ _ Hm) as (Ei & Hc & Hr).
      destruct (in_run (lc_pc call')) eqn:Er; [destruct (Hr eq_refl) as [Hr'|[Epc ->]]|].
      + by eapply Separate_insert.
      + eapply activate_separate; done.
      + eapply Separate_insert; [done..|]. by rewrite Er.
    - intros e d x y k [(<- & <- & _)|[_ Ex]]%list_lookup_insert_Some
        [(<- & <- & _)|[_ Ey]]%list_lookup_insert_Some; try done.
      + intros _ Hy. by apply (Hu d y).
      + by apply (Hs e d).
    - apply (fold_left_inv Separate); [done|]. intros cs' [k c] Hs'. unfold wake.
      destruct (cs' !! c) as [call|] eqn:E; [|done]. destruct (lc_pc call) eqn:Epc; try done.
      by eapply Separate_insert.
    - intros e d x y k [[_ Ex]|[-> <-]]%lookup_snoc_Some [[_ Ey]|[-> <-]]%lookup_snoc_Some; [by apply (Hs e d)|..];
        destruct Hn as (_ & _ & _ & _ & _ & Hk); 
        (by destruct (lc_kind call), (lc_pc call) as [|[] ?| | | | | | | | | | | |]).
    - eapply (Separate_insert cs c call); [done..| | |]; destruct r; simpl; rewrite ?Epc; done.
    - eapply Separate_insert; [done..| |]; rewrite Epc; [done|]. by destruct s.
    - eapply Separate_insert; [done..| |]; rewrite Epc; [done|]. unfold barrier_pc. simpl.
      destruct (lc_aborted call); [|destruct r]; done.
    - eapply Separate_insert; [done..| |]; by rewrite Epc.
    - apply Separate_alter; [done|]. apply answer_flags.
    - eapply Separate_insert; [done..| |]; by rewrite Epc.
    - eapply Separate_insert; [done..| |]; by rewrite Epc.
  Qed.

Lemma reachable_separate {A} `{AdmissionInterface A} (g : A) st :
    lifecycle_reachable g st -> outermost (st_calls st) -> Separate (st_calls st).
  Proof.
    intros Hr. apply (reachable_moves (fun v => OrderFits v /\ (outermost v.2 -> Separate v.2)) g st); [| |done].
    - split; [|by intros _ c d ? ? ? ?]. apply (reachable_ordered g (initial_lifecycle g)). constructor.
    - intros v v' [Ho Hs] Hm. split; [by eapply move_ordered|by eapply move_separate].
  Qed.
End exclusion.

(** ** What the locks promise *)

Section promises.
  Context {A : Type} `{AdmissionInterface A}.
  Implicit Types (st : LifecycleState A).

  (** C2. In every reachable state all of whose calls were made from outside of any
      store write ([outermost]), two calls that share an identity exclude each
      other: they are not both inside their mutation locks (from activation to
      cleanup), nor both under their lifecycle locks (an admission past its check,
      the run of a mutation), and while an admission is past its check no mutation
      is active on its identities.  One call from inside a write is enough to
      break this ([leaked_context_breaks_exclusion]). *)
Theorem calls_exclude_each_other g st c d call other k
      (Hr : lifecycle_reachable g st) (Ho : outermost (st_calls st))
      (Hc : st_calls st !! c = Some call) (Hd : st_calls st !! d = Some other) (Hne : c <> d)
      (Hk : k ∈ lc_identities call) (Hk' : k ∈ lc_identities other) :
    ~ (in_mutation (lc_pc call) = true /\ in_mutation (lc_pc other) = true) /\
    ~ (in_lifecycle (lc_pc call) = true /\ in_lifecycle (lc_pc other) = true) /\
    (checked (lc_pc call) = true ->
     hasActiveSessionLifecycleMutation (st_mutations st) (lc_identities call) = false).
  Proof.
    pose proof (reachable_ordered g st Hr) as [[Hl Hsh] Hord]. specialize (Hord Ho). simpl in *.
    pose proof (reachable_separate g st Hr Ho) as Hs.
    split; [|split]; [intros [H1 H2]..|].
    - destruct (holds_mutation call k (Hsh c call Hc) H1 Hk) as (fr & Hin & E).
      destruct (holds_mutation other k (Hsh d other Hd) H2 Hk') as (fr' & Hin' & E').
      apply Hne. apply (held_disjoint (st_writers st) (st_calls st) c d call other fr fr'); try done. by rewrite E, E'.
    - destruct (holds_lifecycle call k (Hsh c call Hc) H1 Hk) as (fr & Hin & E).
      destruct (holds_lifecycle other k (Hsh d other Hd) H2 Hk') as (fr' & Hin' & E').
      apply Hne. apply (held_disjoint (st_writers st) (st_calls st) c d call other fr fr'); try done. by rewrite E, E'.
    - intros Hp. apply not_true_iff_false. intros (k' & Hin & Ha)%hasActive_spec.
      apply (active_on st k' (reachable_mut g st Hr)) in Ha as (e & x & [Ex Hx] & Hin').
      by apply (Hs c e call x k').
  Qed.
End promises.

(** ** Witnesses *)

(** Work on a session is being admitted while a mutation of it waits. *)
Lemma calls_exclude_each_other_witness :
  let st := run_state [begin_work "x"; begin_mutation ["x"]] in
  exists call other, st_calls st !! 0 = Some call /\ st_calls st !! 1 = Some other /\
    checked (lc_pc call) = true /\ in_mutation (lc_pc other) = true /\
    hasActiveSessionLifecycleMutation (st_mutations st) (lc_identities call) = false.
Proof.
  cbv zeta.
  destruct (st_calls (run_state [begin_work "x"; begin_mutation ["x"]]) !! 0) as [call|] eqn:Ec;
    [|by vm_compute in Ec].
  destruct (st_calls (run_state [begin_work "x"; begin_mutation ["x"]]) !! 1) as [other|] eqn:Ed;
    [|by vm_compute in Ed].
  exists call, other. split; [done|]. split; [done|].
  assert (Hp : checked (lc_pc call) = true) by (vm_compute in Ec; by injection Ec as <-).
  split; [exact Hp|]. split; [vm_compute in Ed; by injection Ed as <-|].
  refine (proj2 (proj2 (calls_exclude_each_other initial_admission
    (run_state [begin_work "x"; begin_mutation ["x"]]) 0 1 call other (run_key "x")
    (run_state_reachable _) _ Ec Ed _ _ _)) Hp).
  - apply outermostb_ok. by vm_compute.
  - done.
  - refine (bool_decide_eq_true_1 _ _). vm_compute in Ec. injection Ec as <-. by vm_compute.
  - refine (bool_decide_eq_true_1 _ _). vm_compute in Ed. injection Ed as <-. by vm_compute.
Defined.

(** ** A context that leaks *)

Definition mutate (ctx : Ctx) (identities : list string) : @LifecycleEvent GatewayWorkAdmissionState :=
  EvMutation ctx (lit "s") ((fun i => Some (lit i)) <$> identities) None false false false.

Definition drain_lifecycle (identity : string) : @LifecycleEvent GatewayWorkAdmissionState :=
  EvDrain (LifecycleQueues, run_key identity).

(** A mutation of [y] runs. *)
Definition mutation_runs : list (@LifecycleEvent GatewayWorkAdmissionState) :=
  [mutate outside ["y"]; EvUnwind 0; drain_lifecycle "y"; EvUnwind 0].

(** The context its [run] has. *)
Definition running_context : Ctx :=
  match st_calls (run_state mutation_runs) !! 0 with Some call => lc_here call | None => outside end.

(** Inside it a mutation of [w] is made; behind that one, from outside, a mutation
    of [w] and [y] is queued, and gets its turn. *)
Definition outsider_runs : list (@LifecycleEvent GatewayWorkAdmissionState) :=
  mutation_runs ++
  [mutate running_context ["w"]; mutate outside ["w"; "y"];
   EvUnwind 1; drain_lifecycle "w"; EvUnwind 1; EvCallback 1 true;
   EvUnwind 1; drain_lifecycle "w"; EvUnwind 1; EvUnwind 1; drain_lifecycle "w"; EvUnwind 1;
   EvUnwind 1; EvDrain (MutationQueues, run_key "w");
   EvUnwind 2; EvUnwind 2; drain_lifecycle "w"; EvUnwind 2].

(** C36. Exclusion fails for calls made inside a mutation: the loop of a queue runs
    its tasks in the context of the call that started it, so a mutation from
    outside that was queued behind a mutation made inside another one enters the
    locks of that other one.  Both run on the identity [y] at the same time. *)
Theorem leaked_context_breaks_exclusion :
  let st := run_state outsider_runs in
  exists call other, st_calls st !! 0 = Some call /\ st_calls st !! 2 = Some other /\
    lc_context call = outside /\ lc_context other = outside /\
    lc_pc call = PRun /\ lc_pc other = PRun /\
    run_key "y" ∈ lc_identities call /\ run_key "y" ∈ lc_identities other.
Proof.
  cbv zeta.
  destruct (st_calls (run_state outsider_runs) !! 0) as [call|] eqn:Ec; [|by vm_compute in Ec].
  destruct (st_calls (run_state outsider_runs) !! 2) as [other|] eqn:Ed; [|by vm_compute in Ed].
  exists call, other. split; [done|]. split; [done|].
  vm_compute in Ec. injection Ec as <-. vm_compute in Ed. injection Ed as <-.
  repeat (split; [done|]). split; (refine (bool_decide_eq_true_1 _ _); by vm_compute).
Qed.
