(* ===== verification/SessionProgress.v ===== *)
(** * Progress of the calls on sessions

    No reachable state is stuck: while a call is not done, the module waits for a
    callback of a caller to return, or an event of its own can happen. *)
From S2P Require Import Prelude JsString JsMap WorkAdmission StoreWriterQueue SessionIdentity SessionLifecycle SessionMutations SessionMoves SessionShape SessionLocks SessionOrder.
#[local] Open Scope nat_scope.

(** ** Calls wait where they can wait *)

Definition awaiting (pc : ProgramCounter) : bool :=
  match pc with PLoop | PTry _ _ => false | _ => true end.

Section stable.
  Context {A : Type} `{AdmissionInterface A}.
  Implicit Types (st : LifecycleState A).

Definition others_await (c : nat) (cs : list LifecycleCall) : Prop :=
    forall d call, d <> c -> cs !! d = Some call -> awaiting (lc_pc call) = true.

Definition Stable (cs : list LifecycleCall) : Prop :=
    forall d call, cs !! d = Some call -> awaiting (lc_pc call) = true.

Lemma others_insert c cs call : others_await c cs -> others_await c (<[c := call]> cs).
  Proof.
    intros Ho d x Hne [(E & _ & _)|[_ Ex]]%list_lookup_insert_Some; [congruence|by eapply Ho].
  Qed.

Lemma Stable_others c cs : Stable cs -> others_await c cs.
  Proof. intros Hs d call _. apply Hs. Qed.

Lemma Stable_insert c cs call :
    others_await c cs -> awaiting (lc_pc call) = true -> Stable (<[c := call]> cs).
  Proof.
    intros Hs Hp d x [(<- & <- & _)|[Hne Ex]]%list_lookup_insert_Some; [done|by eapply Hs].
  Qed.

Lemma others_wake c resolved cs : others_await c cs -> others_await c (fold_left wake resolved cs).
  Proof.
    intros Ho d x Hne. rewrite wake_lookup. destruct (cs !! d) as [y|] eqn:E; [|done]. intros [= <-].
    specialize (Ho d y Hne E). unfold woken. destruct (lc_pc y) eqn:Ey; simpl; by rewrite ?Ey.
  Qed.

Lemma waitForIdle_others c call st :
    others_await c (st_calls st) -> others_await c (st_calls (waitForIdle c call st)).
  Proof.
    intros Ho. unfold waitForIdle. destruct (active_identities _ _); [by apply others_insert|].
    destruct (lc_aborted call); by apply others_insert.
  Qed.

Lemma micro_others c st st' :
    others_await c (st_calls st) -> micro c st = Some st' -> others_await c (st_calls st').
  Proof.
    intros Ho. unfold micro. destruct (st_calls st !! c) as [call|]; [|done].
    destruct (lc_pc call) as [|s [|k rest]| | | | | | | | | | | |]; try done; intros [= <-].
    - destruct (lc_aborted call); [by apply others_insert|].
      destruct (hasActiveSessionLifecycleMutation _ _); [by apply waitForIdle_others|by apply others_insert].
    - destruct s; simpl; try by apply others_insert.
      + destruct (lc_aborted call); [|destruct (hasActiveSessionLifecycleMutation _ _)]; by apply others_insert.
      + destruct (lc_aborted call); by apply others_insert.
      + destruct (deactivate _ _ _ _) as [m resolved]. by apply others_insert, others_wake.
    - unfold take_lock. destruct (runQueuedStoreWrite _ _ _ _ _) as [[w r]|]; by apply others_insert.
  Qed.

  (** A call that runs comes to wait. *)
Lemma sync_stable c st : others_await c (st_calls st) -> Stable (st_calls (sync c st)).
  Proof.
    intros Ho. assert (others_await c (st_calls (sync c st))) as Ho'.
    { apply (sync_inv (fun s => others_await c (st_calls s))); [|done]. intros s s'. apply micro_others. }
    pose proof (sync_micro c st) as Hn. unfold micro in Hn.
    intros d call Ed. destruct (decide (d = c)) as [->|Hne]; [|by eapply Ho'].
    rewrite Ed in Hn. by destruct (lc_pc call) as [|? []| | | | | | | | | | | |].
  Qed.

Lemma set_call_stable c call st :
    Stable (st_calls st) -> awaiting (lc_pc call) = true -> Stable (st_calls (set_call c call st)).
  Proof. intros Hs. apply Stable_insert. by apply Stable_others. Qed.

Lemma set_sync_stable c call st :
    Stable (st_calls st) -> Stable (st_calls (sync c (set_call c call st))).
  Proof. intros Hs. apply sync_stable. simpl. by apply others_insert, Stable_others. Qed.

Lemma add_call_stable call st : Stable (st_calls st) -> Stable (st_calls (add_call call st)).
  Proof.
    intros Hs. apply sync_stable. simpl. intros d x Hne [[_ E]|[-> _]]%lookup_snoc_Some; [by eapply Hs|done].
  Qed.

Lemma waitForIdle_stable c call st :
    Stable (st_calls st) -> Stable (st_calls (waitForIdle c call st)).
  Proof.
    intros Hs. unfold waitForIdle. destruct (active_identities _ _); [by apply set_call_stable|].
    destruct (lc_aborted call); by apply set_call_stable.
  Qed.

Lemma callback_stable c ok st st' :
    Stable (st_calls st) -> callback c ok st = Some st' -> Stable (st_calls st').
  Proof.
    intros Hs. unfold callback. destruct (st_calls st !! c) as [call|]; [|done]. simpl.
    destruct (lc_pc call) as [| | | | | |a []| | | | | | |]; try done.
    - intros [= <-]. destruct ok; [|by apply set_call_stable]. unfold grantAdmission.
      destruct (ai_subordinateClosed _ _); [by apply set_call_stable|].
      destruct (runQueuedStoreWrite _ _ _ _ _) as [[w r]|]; [|by apply set_call_stable].
      destruct (lc_aborted call); apply set_call_stable; try done. by destruct r.
    - intros [= <-]. by destruct ok; apply set_call_stable.
    - destruct (fnSettled _ _ _); [|done]. intros [= <-]. by apply set_call_stable.
    - intros [= <-]. by apply set_sync_stable.
    - intros [= <-]. by apply set_call_stable.
  Qed.

Lemma section_done_stable c call s x st :
    Stable (st_calls st) -> Stable (st_calls (section_done c call s x st)).
  Proof.
    intros Hs. destruct s; simpl; try by apply set_call_stable.
    - destruct x; try (by apply set_call_stable). by apply waitForIdle_stable.
    - destruct x; try (by apply set_call_stable);
        (destruct (lc_kind call) as [|? []]; [by apply set_sync_stable|by apply set_call_stable|by apply set_sync_stable]).
    - by apply set_sync_stable.
  Qed.

Lemma drain_loop_stable a st st' :
    Stable (st_calls st) -> drain_loop a st = Some st' -> Stable (st_calls st').
  Proof.
    intros Hs. unfold drain_loop. destruct (drainContinues _ _) as [[[w [t ok]] started]|]; [|done].
    intros [= <-].
    assert (Ha : Stable (st_calls (answer t ok (set_writers w st)))).
    { destruct t as [c|c]; simpl; (destruct (st_calls st !! c) as [call|]; [|done]);
        destruct (lc_pc call); try done.
      - destruct (lc_frames call); [done|]. by apply set_call_stable.
      - by destruct ok; apply set_call_stable. }
    destruct started as [[t' ctx]|]; [|done]. revert Ha. generalize (answer t ok (set_writers w st)).
    intros st1 Ha. destruct t' as [c|c]; simpl; (destruct (st_calls st1 !! c) as [call|]; [|done]).
    - destruct (lc_pc call); try done. by apply set_sync_stable.
    - destruct (lc_aborted call); [done|]. destruct (lc_pc call); try done. by apply set_call_stable.
  Qed.

Lemma step_stable e st st' :
    Stable (st_calls st) -> lifecycle_step e st = Some st' -> Stable (st_calls st').
  Proof.
    intros Hs. destruct e; simpl.
    - destruct (ctx_okb _ _); [|done]. intros [= <-]. unfold beginSessionWorkAdmission.
      destruct (ai_subordinateClosed _ _); [|destruct (normalizeSessionIdentities _ _)]; by apply add_call_stable.
    - destruct (ctx_okb _ _); [|done]. intros [= <-]. unfold runExclusiveSessionLifecycleMutation.
      destruct (normalizeSessionIdentities _ _); [destruct (_ && _)|]; by apply add_call_stable.
    - by apply callback_stable.
    - unfold abort. destruct (st_calls st !! c) as [call|] eqn:E; [|done]. simpl.
      destruct (_ && _); [|done]. intros [= <-]. apply set_call_stable; [done|].
      specialize (Hs c call E). destruct (lc_kind call), (lc_pc call); done.
    - unfold unwind. destruct (st_calls st !! c) as [call|]; [|done]. simpl.
      destruct (lc_pc call); try done. destruct (lc_frames call) as [|fr rest].
      + intros [= <-]. by apply section_done_stable.
      + destruct (fr_writer fr); [|intros [= <-]; by apply set_call_stable].
        destruct (fnSettled _ _ _); [|done]. intros [= <-]. by apply set_call_stable.
    - unfold resume. destruct (st_calls st !! c) as [call|]; [|done]. simpl.
      destruct (lc_pc call) as [| | |[]| | | | | | | | | |]; try done; intros [= <-];
        [by apply set_sync_stable|by apply set_call_stable].
    - by apply drain_loop_stable.
    - destruct (leased _ _); [|done]. by intros [= <-].
    - destruct (_ && _); [|done]. destruct (createSessionWorkAdmissionHandoff _ _ _); [|done].
      by intros [= <-].
    - destruct (consumeSessionWorkAdmissionHandoff _ _ _ _ _) as [[[? ?] ?]|]; [|done]. by intros [= <-].
    - by intros [= <-].
    - unfold interruptSessionWorkAdmissions. destruct (normalizeSessionIdentities _ _); [|done].
      by intros [= <-].
    - unfold interrupt_drained. destruct (_ !! i) as [it|]; [|done]. simpl.
      destruct (_ && _); [|done]. by intros [= <-].
    - unfold interrupt_timer. destruct (_ !! i) as [it|]; [|done]. simpl.
      destruct (_ && _); [|done]. by intros [= <-].
    - by intros [= <-].
  Qed.

Lemma reachable_stable g st : lifecycle_reachable g st -> Stable (st_calls st).
  Proof.
    apply (lifecycle_inv (fun s => Stable (st_calls s))); [by intros d call|].
    intros s e s'. apply step_stable.
  Qed.
End stable.

(** ** Some event can happen *)

Section progress.
  Context {A : Type} `{AdmissionInterface A}.
  Implicit Types (st : LifecycleState A) (w : Writers).

  (** The events the module and its callers owe: a callback returns, a lock is
      left, a wait ends, a queue goes on. *)
Definition owed (e : @LifecycleEvent A) : Prop :=
    match e with EvCallback _ _ | EvUnwind _ | EvResume _ | EvDrain _ => True | _ => False end.

Definition can_go_on st : Prop := exists e, owed e /\ is_Some (lifecycle_step e st).

Lemma go_drain st a t x ok : inflight (st_writers st) a = Some (t, x, Some ok) -> can_go_on st.
  Proof.
    intros Hi. exists (EvDrain a). split; [done|]. simpl. unfold drain_loop.
    destruct (drainContinues_enabled _ _ _ _ _ Hi) as [[[w [t' ok']] started] ->]. simpl. by eexists.
  Qed.

  (** The locks a call holds are below the one it asks for. *)
Lemma held_below call s rest (k : jstr) fr :
    in_section call s (k :: rest) -> StronglySorted str_lt (lc_identities call) ->
    fr ∈ held call -> addr_lt (fr_addr fr) (section_lane s, k).
  Proof.
    intros (Hsec & (l & Hid & Hf) & Ho) Hsort [Hin|Hin]%elem_of_app;
      apply (list_elem_of_fmap_2 fr_addr) in Hin.
    - rewrite Hf in Hin. apply list_elem_of_fmap in Hin as (x & -> & Hx). right. split; [done|]. simpl.
      rewrite list_elem_of_In, <- in_rev, <- list_elem_of_In in Hx. rewrite Hid in Hsort. clear -Hx Hsort.
      induction l as [|y l IH]; [by apply elem_of_nil in Hx|]. simpl in Hsort.
      apply StronglySorted_inv in Hsort as [Hs Hy]. apply elem_of_cons in Hx as [->|Hx]; [|by apply IH].
      rewrite Forall_forall in Hy. apply Hy. set_solver.
    - rewrite Ho in Hin. left. destruct s; try (by apply elem_of_nil in Hin);
        (apply list_elem_of_fmap in Hin as (x & -> & _); simpl; lia).
  Qed.

Lemma held_lane call fr : shape call -> fr ∈ held call -> (fr_addr fr).1 <> StoreQueues.
  Proof.
    intros Hs Hin. apply (list_elem_of_fmap_2 fr_addr) in Hin. unfold held in Hin.
    assert (Hgo : forall s rest, in_section call s rest -> (fr_addr fr).1 <> StoreQueues).
    { intros s rest (_ & (l & _ & Hf) & Ho). rewrite fmap_app, Hf, Ho in Hin.
      apply elem_of_app in Hin as [Hin|Hin].
      - apply list_elem_of_fmap in Hin as (x & -> & _). by destruct s.
      - by destruct s; try (by apply elem_of_nil in Hin); apply list_elem_of_fmap in Hin as (x & -> & _). }
    unfold shape in Hs.
    destruct (lc_pc call); try (by eapply Hgo); try (by destruct Hs as [rest Hs]; eapply Hgo);
      try (destruct Hs as (_ & Hf & Ho); rewrite Hf, Ho in Hin; by apply elem_of_nil in Hin).
    - destruct Hs as [Hf Ho]. rewrite Hf, Ho in Hin. by apply elem_of_nil in Hin.
  Qed.

  (** A call that waits for nothing of another call. *)
Definition waits_for_others (pc : ProgramCounter) : bool :=
    match pc with PQueued _ _ _ | PBarrier _ | PWaitIdle (_ :: _) | PDone => true | _ => false end.

Lemma call_goes_on st c call :
    LocksFit (view st) -> Stable (st_calls st) -> st_calls st !! c = Some call ->
    waits_for_others (lc_pc call) = false -> can_go_on st.
  Proof.
    intros [Hl Hsh] Hst Ec Hp. simpl in Hl. pose proof (Hst c call Ec) as Ha.
    pose proof (lk_claims _ _ _ Hl c call Ec) as Hcl. pose proof (lk_writers _ _ _ Hl) as Hw.
    destruct (lc_pc call) as [| | |[]| | |a []|a ok| | | |s x|s x|] eqn:Epc; try done.
    - exists (EvResume c). split; [done|]. simpl. unfold resume. rewrite Ec. simpl. rewrite Epc. by eexists.
    - exists (EvCallback c false). split; [done|]. simpl. unfold callback. rewrite Ec. simpl. rewrite Epc. by eexists.
    - exists (EvCallback c false). split; [done|]. simpl. unfold callback. rewrite Ec. simpl. rewrite Epc. by eexists.
    - destruct (cl_checking _ _ _ _ Hcl) as [x Hx]; [unfold phase; by rewrite Epc|].
      destruct (fnSettled_enabled _ (barrier_addr call) true _ _ Hw Hx) as [w Es].
      exists (EvCallback c true). split; [done|]. simpl. unfold callback. rewrite Ec. simpl. rewrite Epc, Es. by eexists.
    - destruct (cl_checked _ _ _ _ Hcl ok) as [x Hx]; [unfold phase; by rewrite Epc|]. by eapply go_drain.
    - exists (EvResume c). split; [done|]. simpl. unfold resume. rewrite Ec. simpl. rewrite Epc. by eexists.
    - exists (EvCallback c false). split; [done|]. simpl. unfold callback. rewrite Ec. simpl. rewrite Epc. by eexists.
    - exists (EvCallback c false). split; [done|]. simpl. unfold callback. rewrite Ec. simpl. rewrite Epc. by eexists.
    - exists (EvUnwind c). split; [done|]. simpl. unfold unwind. rewrite Ec. simpl. rewrite Epc.
      destruct (lc_frames call) as [|fr rest] eqn:Ef; [by eexists|].
      destruct (fr_writer fr) as [y|] eqn:Ew; [|by eexists].
      destruct (cl_held _ _ _ _ Hcl fr y) as (o & Hi & Hlv); [|done|].
      { rewrite (qheld_pop fr call rest Ef) by (by rewrite Ew). by left. }
      destruct o as [ok|].
      + exfalso. destruct (proj1 Hlv ltac:(eauto)) as [Hp' _]. unfold phase in Hp'. by rewrite Epc in Hp'.
      + destruct (fnSettled_enabled _ _ (exit_ok x) _ _ Hw Hi) as [w Es]. rewrite Es. by eexists.
    - destruct (cl_exit _ _ _ _ Hcl) as (fr & Hh & [y Hy]); [unfold phase; by rewrite Epc|].
      destruct (lc_frames call) as [|fr' rest] eqn:Ef; [done|]. injection Hh as ->.
      destruct (cl_held _ _ _ _ Hcl fr y) as (o & Hi & Hlv); [|done|].
      { rewrite (qheld_pop fr call rest Ef) by (by rewrite Hy). by left. }
      assert (is_Some o) as [ok ->].
      { apply Hlv. unfold leaving, phase. by rewrite Epc, Ef. }
      by eapply go_drain.
  Qed.

  (** Whatever a queued task waits for goes on, or is a call that holds the lock. *)
Lemma queue_goes_on st a t :
    LocksFit (view st) -> Stable (st_calls st) -> t ∈ waiting (st_writers st) a ->
    can_go_on st \/ exists d other fr, st_calls st !! d = Some other /\ fr ∈ held other /\ fr_addr fr = a.
  Proof.
    intros Hf Hst Ht. pose proof Hf as [Hl Hsh]. simpl in Hl.
    destruct (inflight (st_writers st) a) as [[[u x] o]|] eqn:Hi.
    - destruct o as [ok|]; [left; by eapply go_drain|].
      destruct (co_inflight _ _ _ _ (lk_contents _ _ _ Hl a) u x None Hi) as [?|(other & Ed & Ho)]; [done|].
      destruct u as [d|d]; simpl in Ed, Ho.
      + destruct Ho as (fr & Hin & Ea & _). right. exists d, other, fr. split; [done|]. split; [|done].
        unfold qheld in Hin. apply list_elem_of_In, List.filter_In in Hin as [Hin _]. by apply list_elem_of_In.
      + destruct Ho as [_ Hp]. left. eapply (call_goes_on st d other); try done.
        unfold phase, phase_of in Hp. by destruct (lc_pc other).
    - rewrite (waiting_inflight _ _ (lk_writers _ _ _ Hl) Hi) in Ht. by apply elem_of_nil in Ht.
  Qed.

Lemma barrier_goes_on st c call a :
    LocksFit (view st) -> Stable (st_calls st) -> st_calls st !! c = Some call -> lc_pc call = PBarrier a ->
    can_go_on st.
  Proof.
    intros Hf Hst Ec Epc. pose proof Hf as [Hl Hsh]. simpl in Hl.
    destruct (cl_barrier _ _ _ _ (lk_claims _ _ _ Hl c call Ec)) as [Ht|?]; [unfold phase; by rewrite Epc| |done].
    destruct (queue_goes_on st _ _ Hf Hst Ht) as [?|(d & other & fr & Ed & Hin & Ea)]; [done|].
    exfalso. apply (held_lane other fr (Hsh d other Ed) Hin). by rewrite Ea.
  Qed.

Lemma maximal_addr (l : list (LockLane * jstr)) :
    l <> [] -> exists a, a ∈ l /\ forall b, b ∈ l -> ~ addr_lt a b.
  Proof.
    induction l as [|x l IH]; [done|]. intros _. destruct l as [|y l].
    - exists x. split; [by left|]. intros b ->%list_elem_of_singleton. apply (irreflexivity addr_lt).
    - destruct IH as (a & Ha & Hmax); [done|]. destruct (addr_lt_total a x) as [Hlt|Hge].
      + exists x. split; [by left|]. intros b [->|Hb]%elem_of_cons; [apply (irreflexivity addr_lt)|].
        intros Hxb. apply (Hmax b Hb). by transitivity x.
      + exists a. split; [by right|]. intros b [->|Hb]%elem_of_cons; [|by apply Hmax].
        intros Hax. destruct Hge as [->|Hxa]; [by apply (irreflexivity addr_lt) in Hax|].
        apply (irreflexivity addr_lt a). by transitivity x.
  Qed.

Definition queued_addr (call : LifecycleCall) : option (LockLane * jstr) :=
    match lc_pc call with PQueued s k _ => Some (section_lane s, k) | _ => None end.

  (** Among the calls that wait for locks, one waits for the greatest lock; its
      holder does not wait for a lock. *)
Lemma queued_goes_on st c call a :
    LocksFit (view st) -> Stable (st_calls st) -> MutInv st ->
    st_calls st !! c = Some call -> queued_addr call = Some a -> can_go_on st.
  Proof.
    intros Hf Hst Hm Ec Eq. pose proof Hf as [Hl Hsh]. simpl in Hl.
    destruct (maximal_addr (omap queued_addr (st_calls st))) as (b & Hb & Hmax).
    { intros E. assert (a ∈ omap queued_addr (st_calls st)) as Hin.
      { apply list_elem_of_omap. exists call. split; [by eapply list_elem_of_lookup_2|done]. }
      rewrite E in Hin. by apply elem_of_nil in Hin. }
    apply list_elem_of_omap in Hb as (x & [e Ex]%list_elem_of_lookup_1 & Ebx).
    assert (Hp : phase x = LQueued b).
    { unfold queued_addr in Ebx. unfold phase. destruct (lc_pc x); try done. simpl. by injection Ebx as ->. }
    destruct (cl_queued _ _ _ _ (lk_claims _ _ _ Hl e x Ex) b Hp) as [Ht|?]; [|done].
    destruct (queue_goes_on st b _ Hf Hst Ht) as [?|(d & other & fr & Ed & Hin & Ea)]; [done|].
    destruct (waits_for_others (lc_pc other)) eqn:Ewo; [|by eapply call_goes_on].
    pose proof (Hsh d other Ed) as Hs. unfold shape in Hs.
    destruct (lc_pc other) as [| |s k rest|keys| |ad| | | | | | | |] eqn:Epc; try done.
    - exfalso. apply (Hmax (section_lane s, k)).
      + apply list_elem_of_omap. exists other. split; [by eapply list_elem_of_lookup_2|].
        unfold queued_addr. by rewrite Epc.
      + rewrite <- Ea. eapply held_below; [done| |done]. destruct Hm as [Hc _]. by apply (ci_wf _ _ Hc d).
    - destruct Hs as (_ & Hfr & Ho). unfold held in Hin. rewrite Hfr, Ho in Hin. by apply elem_of_nil in Hin.
    - by eapply barrier_goes_on.
    - destruct Hs as (Hfr & Ho). unfold held in Hin. rewrite Hfr, Ho in Hin. by apply elem_of_nil in Hin.
  Qed.

  (** C4. No deadlock: in every reachable state, whatever contexts the calls were
      made in, if some call is not done then a callback of a caller is out, or a
      lock is being left, or a wait is over, or a queue can go on. *)
Theorem never_stuck g st c call
      (Hr : lifecycle_reachable g st) (Hc : st_calls st !! c = Some call) (Hp : lc_pc call <> PDone) :
    exists e, owed e /\ is_Some (lifecycle_step e st).
  Proof.
    pose proof (reachable_fits g st Hr) as Hf. pose proof (reachable_stable g st Hr) as Hst.
    pose proof (reachable_mut g st Hr) as Hm. change (can_go_on st).
    destruct (waits_for_others (lc_pc call)) eqn:Ew; [|by eapply call_goes_on].
    destruct (lc_pc call) as [| |s k rest|[|k keys]| |ad| | | | | | | |] eqn:Epc; try done.
    - eapply queued_goes_on; try done. unfold queued_addr. by rewrite Epc.
    - destruct Hm as [Hcnt Hwt]. assert (Hk : k ∈ idle_keys (lc_pc call)) by (rewrite Epc; by left).
      destruct (wi_waiting _ _ Hwt k c (wi_waiter _ _ Hwt k c call Hc Hk)) as [Hpos _].
      apply (active_on st k (conj Hcnt Hwt)) in Hpos as (d & mutation & [Ed Hrun] & _).
      destruct (waits_for_others (lc_pc mutation)) eqn:Ew'; [|by eapply call_goes_on].
      destruct (lc_pc mutation) as [| |s' k' rest'|[]| | | | | | | | | |] eqn:Epc'; try done.
      eapply queued_goes_on; try done. unfold queued_addr. by rewrite Epc'.
    - by eapply barrier_goes_on.
  Qed.
End progress.

(** ** Witness *)

(** Work waits for a mutation, which can go on. *)
Lemma never_stuck_witness :
  let st := run_state [begin_mutation ["x"]; begin_work "x"] in
  exists call, st_calls st !! 1 = Some call /\ lc_pc call = PWaitIdle [run_key "x"] /\
    exists e, owed e /\ is_Some (lifecycle_step e st).
Proof.
  cbv zeta.
  destruct (st_calls (run_state [begin_mutation ["x"]; begin_work "x"]) !! 1) as [call|] eqn:Ec;
    [|by vm_compute in Ec].
  assert (Hp : lc_pc call = PWaitIdle [run_key "x"]) by (vm_compute in Ec; by injection Ec as <-).
  exists call. split; [done|]. split; [exact Hp|].
  refine (never_stuck initial_admission (run_state [begin_mutation ["x"]; begin_work "x"]) 1 call
    (run_state_reachable _) Ec _). by rewrite Hp.
Defined.
