(* ===== verification/ToolCatalog.v ===== *)
(** * The core tool catalog

    [src/agents/tool-catalog.ts]: the built-in tools with their section and
    profiles, the groups and profile policies computed from them.  The label of
    every tool is its id; descriptions are texts for the model and the UI and
    are left out. *)
From S2P Require Import Prelude JsString JsMap.
#[local] Open Scope nat_scope.

(** ** Data *)

Inductive ToolProfileId := Minimal | Coding | Messaging | Full.

#[global] Instance ToolProfileId_eq_dec : EqDecision ToolProfileId.
Proof. solve_decision. Defined.

(** [allow] and [deny] lists, [undefined] or not. *)
Record ToolPolicy := { tp_allow : option (list jstr); tp_deny : option (list jstr) }.

Record CoreToolDefinition := {
  ct_id : jstr;
  ct_sectionId : jstr;
  ct_profiles : list ToolProfileId;
  ct_includeInOpenClawGroup : bool;
}.

Definition tool (id sectionId : string) (profiles : list ToolProfileId) (include : bool)
    : CoreToolDefinition :=
  {| ct_id := lit id; ct_sectionId := lit sectionId; ct_profiles := profiles;
     ct_includeInOpenClawGroup := include |}.

Definition CORE_TOOL_SECTION_ORDER : list (jstr * jstr) :=
  [(lit "fs", lit "Files"); (lit "runtime", lit "Runtime"); (lit "web", lit "Web");
   (lit "memory", lit "Memory"); (lit "sessions", lit "Sessions"); (lit "ui", lit "UI");
   (lit "messaging", lit "Messaging"); (lit "automation", lit "Automation");
   (lit "nodes", lit "Nodes"); (lit "agents", lit "Agents"); (lit "media", lit "Media")].

(** The three stretches of [CORE_TOOL_DEFINITIONS]. *)
Definition file_and_web_tools : list CoreToolDefinition :=
  [tool "read" "fs" [Coding] false;
   tool "write" "fs" [Coding] false;
   tool "edit" "fs" [Coding] false;
   tool "apply_patch" "fs" [Coding] false;
   tool "exec" "runtime" [Coding] false;
   tool "process" "runtime" [Coding] false;
   tool "code_execution" "runtime" [Coding] true;
   tool "web_search" "web" [Coding] true;
   tool "web_fetch" "web" [Coding] true;
   tool "x_search" "web" [Coding] true;
   tool "memory_search" "memory" [Coding] true;
   tool "memory_get" "memory" [Coding] true].

Definition session_tools : list CoreToolDefinition :=
  [tool "sessions" "sessions" [Coding; Messaging] true;
   tool "sessions_list" "sessions" [Coding; Messaging] true;
   tool "sessions_history" "sessions" [Coding; Messaging] true;
   tool "sessions_search" "sessions" [Coding; Messaging] true;
   tool "sessions_send" "sessions" [Coding; Messaging] true;
   tool "sessions_spawn" "sessions" [Coding] true;
   tool "sessions_yield" "sessions" [Coding] true;
   tool "subagents" "sessions" [Coding] true;
   tool "session_status" "sessions" [Minimal; Coding; Messaging] true;
   tool "spawn_task" "sessions" [Coding] true;
   tool "dismiss_task" "sessions" [Coding] true;
   tool "browser" "ui" [] true;
   tool "canvas" "ui" [] false;
   tool "message" "messaging" [Messaging] true].

Definition platform_tools : list CoreToolDefinition :=
  [tool "heartbeat_respond" "automation" [] true;
   tool "cron" "automation" [Coding] true;
   tool "gateway" "automation" [] true;
   tool "nodes" "nodes" [] true;
   tool "computer" "nodes" [] true;
   tool "agents_list" "agents" [] true;
   tool "get_goal" "agents" [Coding] true;
   tool "create_goal" "agents" [Coding] true;
   tool "update_goal" "agents" [Coding] true;
   tool "update_plan" "agents" [Coding] true;
   tool "skill_workshop" "agents" [Coding] true;
   tool "image" "media" [Coding] true;
   tool "image_generate" "media" [Coding] true;
   tool "music_generate" "media" [Coding] true;
   tool "video_generate" "media" [Coding] true;
   tool "tts" "media" [] true].

Definition CORE_TOOL_DEFINITIONS : list CoreToolDefinition :=
  file_and_web_tools ++ session_tools ++ platform_tools.

(** ** Lookups *)

Definition CORE_TOOL_BY_ID : list (jstr * CoreToolDefinition) :=
  foldl (fun m t => jm_set (ct_id t) t m) [] CORE_TOOL_DEFINITIONS.

Definition listCoreToolIdsForProfile (profile : ToolProfileId) : list jstr :=
  ct_id <$> List.filter (fun t => includes profile (ct_profiles t)) CORE_TOOL_DEFINITIONS.

Definition CORE_TOOL_PROFILES (profile : ToolProfileId) : ToolPolicy :=
  {| tp_allow := Some
       match profile with
       | Minimal => listCoreToolIdsForProfile Minimal
       | Coding => listCoreToolIdsForProfile Coding ++ [lit "bundle-mcp"]
       | Messaging => listCoreToolIdsForProfile Messaging ++ [lit "bundle-mcp"]
       | Full => [lit "*"]
       end;
     tp_deny := None |}.

Definition profile_of_name (profile : jstr) : option ToolProfileId :=
  if decide (profile = lit "minimal") then Some Minimal
  else if decide (profile = lit "coding") then Some Coding
  else if decide (profile = lit "messaging") then Some Messaging
  else if decide (profile = lit "full") then Some Full
  else None.

Definition group_id (sectionId : jstr) : jstr := lit "group:" ++ sectionId.

Definition buildCoreToolGroupMap : list (jstr * list jstr) :=
  let sectionToolMap :=
    foldl (fun m t =>
      let groupId := group_id (ct_sectionId t) in
      jm_set groupId (default [] (jm_get groupId m) ++ [ct_id t]) m) [] CORE_TOOL_DEFINITIONS in
  let openclawTools :=
    ct_id <$> List.filter ct_includeInOpenClawGroup CORE_TOOL_DEFINITIONS in
  foldl (fun m kv => jm_set kv.1 kv.2 m) [(lit "group:openclaw", openclawTools)] sectionToolMap.

Definition CORE_TOOL_GROUPS : list (jstr * list jstr) := buildCoreToolGroupMap.

(** A name that is no profile gives [undefined]; so does one that is a member
    of every object, which has neither list. *)
Definition resolveCoreToolProfilePolicy (profile : option jstr) : option ToolPolicy :=
  match profile with
  | None => None
  | Some name =>
      if negb (truthy name) then None
      else
        match profile_of_name name with
        | None => None
        | Some p =>
            let resolved := CORE_TOOL_PROFILES p in
            match tp_allow resolved, tp_deny resolved with
            | None, None => None
            | allow, deny => Some {| tp_allow := allow; tp_deny := deny |}
            end
        end
  end.

Definition listCoreToolSections : list (jstr * jstr * list jstr) :=
  List.filter (fun '(_, _, tools) => negb (bool_decide (tools = [])))
    ((fun '(id, label) =>
        (id, label, ct_id <$> List.filter (fun t => bool_decide (ct_sectionId t = id))
                                CORE_TOOL_DEFINITIONS)) <$> CORE_TOOL_SECTION_ORDER).

Definition resolveCoreToolProfiles (toolId : jstr) : list ToolProfileId :=
  match jm_get toolId CORE_TOOL_BY_ID with None => [] | Some t => ct_profiles t end.

Definition isKnownCoreToolId (toolId : jstr) : bool := jm_has toolId CORE_TOOL_BY_ID.

(** ** Facts *)

(** Tool ids are distinct, so the catalog and the map by id say the same. *)
Lemma core_tool_ids_NoDup : NoDup (ct_id <$> CORE_TOOL_DEFINITIONS).
Proof. apply (bool_decide_unpack _). by vm_compute. Qed.

(** Every tool is in the section list, under its own section and no other. *)
Lemma sections_partition :
  (listCoreToolSections ≫= fun s => s.2) ≡ₚ ct_id <$> CORE_TOOL_DEFINITIONS.
Proof. apply (bool_decide_unpack _). by vm_compute. Qed.
