(* ===== verification/ToolPolicy.v ===== *)
(** * Tool policies

    [src/agents/tool-policy-shared.ts], [tool-policy.ts], [glob-pattern.ts],
    [tool-policy-match.ts] and [sandbox-tool-policy.ts]: the names of tools, the
    patterns of allow and deny lists and the decision they give.

    The alias table is a plain object, so looking a name up in it also finds the
    members of every object: of the lower case names, [constructor] and
    [__proto__].  Such a name is not replaced by a string; [TProto] keeps the
    text it prints as.  An exception is [None]. *)
From S2P Require Import Prelude JsString JsMap Normalization ToolCatalog.
#[local] Open Scope nat_scope.

(** ** Tool names *)

Inductive tool_name := TStr (s : jstr) | TProto (text : jstr).

#[global] Instance tool_name_eq_dec : EqDecision tool_name.
Proof. solve_decision. Defined.

(** [String(name)]. *)
Definition name_text (name : tool_name) : jstr := match name with TStr s | TProto s => s end.

Definition truthy_name (name : tool_name) : bool :=
  match name with TStr s => truthy s | TProto _ => true end.

Definition TOOL_NAME_ALIASES : list (jstr * jstr) :=
  [(lit "bash", lit "exec"); (lit "apply-patch", lit "apply_patch")].

(** The lower case members that every object inherits. *)
Definition inherited_members : list (jstr * jstr) :=
  [(lit "constructor", lit "function Object() { [native code] }");
   (lit "__proto__", lit "[object Object]")].

Definition name_value (name : tool_name) : jsval :=
  match name with TStr s => VString s | TProto _ => VObject end.

Definition normalizeToolName (name : tool_name) : tool_name :=
  let normalized := normalizeLowercaseStringOrEmpty (name_value name) in
  match jm_get normalized TOOL_NAME_ALIASES with
  | Some alias => TStr alias
  | None =>
      match jm_get normalized inherited_members with
      | Some text => TProto text
      | None => TStr normalized
      end
  end.

Definition normalizeToolList (names : option (list jstr)) : list tool_name :=
  List.filter truthy_name ((fun s => normalizeToolName (TStr s)) <$> default [] names).

Definition TOOL_GROUPS : list (jstr * list jstr) := CORE_TOOL_GROUPS.

Definition group_of (name : jstr) : option (list jstr) := jm_get name TOOL_GROUPS.

(** The tables are compared by name, not by content. *)
#[local] Strategy expand [group_of].
#[local] Strategy opaque [TOOL_GROUPS CORE_TOOL_GROUPS].

Definition expand_group (value : tool_name) : list tool_name :=
  match group_of (name_text value) with
  | Some group => TStr <$> group
  | None => [value]
  end.

Definition expandToolGroups (names : option (list jstr)) : list tool_name :=
  js_set (normalizeToolList names ≫= expand_group).

(** ** Prefixes of tool names *)

(** The first loop: an answer, an exception, or the set [allowed]. *)
Fixpoint scan_allowed (normalizedPrefix : jstr) (names : list jstr) (allowed : list tool_name)
    : option (bool + list tool_name) :=
  match names with
  | [] => Some (inr allowed)
  | toolName :: names =>
      let normalizedToolName := normalizeToolName (TStr toolName) in
      let foldedToolName := normalizeLowercaseStringOrEmpty (VString toolName) in
      let allowed :=
        if truthy_name normalizedToolName then js_add normalizedToolName allowed else allowed in
      let allowed := if truthy foldedToolName then js_add (TStr foldedToolName) allowed else allowed in
      match normalizedToolName with
      | TProto _ => None
      | TStr s =>
          if starts_with normalizedPrefix s || starts_with normalizedPrefix foldedToolName
          then Some (inl true) else scan_allowed normalizedPrefix names allowed
      end
  end.

Definition couldNormalizeToolNamePrefixToAllowedTool (prefix : jstr) (allowedToolNames : list jstr)
    : option bool :=
  let normalizedPrefix := normalizeLowercaseStringOrEmpty (VString prefix) in
  if negb (truthy normalizedPrefix) then Some false
  else
    match scan_allowed normalizedPrefix allowedToolNames [] with
    | None => None
    | Some (inl answer) => Some answer
    | Some (inr allowed) =>
        let resolvedPrefix := normalizeToolName (TStr normalizedPrefix) in
        if negb (bool_decide (resolvedPrefix = TStr normalizedPrefix))
           && existsb (fun t => starts_with (name_text resolvedPrefix) (name_text t)) allowed
        then Some true
        else
          Some (existsb (fun '(alias, toolName) =>
            starts_with normalizedPrefix alias && includes (TStr toolName) allowed)
            TOOL_NAME_ALIASES)
    end.

(** ** Glob patterns *)

Inductive CompiledGlobPattern :=
  | PAll
  | PExact (value : jstr)
  | PRegex (pattern : jstr).

Definition star : ascii := "*"%char.

(** A normalised pattern that is no string has no [includes]. *)
Definition compileGlobPattern (normalize : tool_name -> tool_name) (raw : tool_name)
    : option CompiledGlobPattern :=
  match normalize raw with
  | TProto _ => None
  | TStr normalized =>
      Some
        (if negb (truthy normalized) then PExact []
         else if bool_decide (normalized = [star]) then PAll
         else if negb (str_includes [star] normalized) then PExact normalized
         else PRegex normalized)
  end.

Definition keeps_pattern (pattern : CompiledGlobPattern) : bool :=
  match pattern with PExact value => truthy value | _ => true end.

Definition compileGlobPatterns (normalize : tool_name -> tool_name) (raw : list tool_name)
    : option (list CompiledGlobPattern) :=
  patterns ← mapM (compileGlobPattern normalize) raw;
  Some (List.filter keeps_pattern patterns).

(** What [.] does not match, of Latin-1. *)
Definition is_line_terminator (c : ascii) : bool := (code c =? 10) || (code c =? 13).

(** [.*] followed by the rest of the expression. *)
Fixpoint any_then (rest : jstr -> bool) (s : jstr) : bool :=
  rest s ||
  match s with
  | [] => false
  | c :: s => negb (is_line_terminator c) && any_then rest s
  end.

(** The expression for a pattern, every character but [*] escaped, between
    anchors. *)
Fixpoint regex_test (pattern s : jstr) : bool :=
  match pattern with
  | [] => negb (truthy s)
  | c :: pattern =>
      if bool_decide (c = star) then any_then (regex_test pattern) s
      else match s with
           | [] => false
           | x :: s => bool_decide (x = c) && regex_test pattern s
           end
  end.

Definition matches_pattern (value : tool_name) (pattern : CompiledGlobPattern) : bool :=
  match pattern with
  | PAll => true
  | PExact s => bool_decide (value = TStr s)
  | PRegex p => regex_test p (name_text value)
  end.

Definition matchesAnyGlobPattern (value : tool_name) (patterns : list CompiledGlobPattern) : bool :=
  existsb (matches_pattern value) patterns.

(** ** The decision *)

Definition makeToolPolicyMatcher (policy : ToolPolicy) : option (jstr -> bool) :=
  deny ← compileGlobPatterns normalizeToolName (expandToolGroups (Some (default [] (tp_deny policy))));
  allow ← compileGlobPatterns normalizeToolName (expandToolGroups (Some (default [] (tp_allow policy))));
  Some (fun name =>
    let normalized := normalizeToolName (TStr name) in
    if matchesAnyGlobPattern normalized deny then false
    else if bool_decide (length allow = 0) then true
    else if matchesAnyGlobPattern normalized allow then true
    else bool_decide (normalized = TStr (lit "apply_patch"))
         && matchesAnyGlobPattern (TStr (lit "write")) allow).

Definition isToolAllowedByPolicyName (name : jstr) (policy : option ToolPolicy) : option bool :=
  match policy with
  | None => Some true
  | Some policy => matcher ← makeToolPolicyMatcher policy; Some (matcher name)
  end.

Fixpoint isToolAllowedByPolicies (name : jstr) (policies : list (option ToolPolicy)) : option bool :=
  match policies with
  | [] => Some true
  | policy :: policies =>
      allowed ← isToolAllowedByPolicyName name policy;
      if (allowed : bool) then isToolAllowedByPolicies name policies else Some false
  end.

(** ** Policies from configuration *)

(** A policy with the marker of an implicit [*]. *)
Record ToolPolicyLike := { pl_policy : ToolPolicy; pl_implicitAllowAll : bool }.

Record SandboxToolPolicyConfig := {
  sc_allow : option (list jstr);
  sc_alsoAllow : option (list jstr);
  sc_deny : option (list jstr);
}.

Definition unionAllow (base extra : option (list jstr)) : option (list jstr) :=
  match extra with
  | None | Some [] => base
  | Some extra =>
      match base with
      | None | Some [] => Some (js_set ([star] :: extra))
      | Some base => Some (js_set (base ++ extra))
      end
  end.

Definition hasExplicitAllowAll (names : option (list jstr)) : bool :=
  match names with
  | None => false
  | Some names => existsb (fun entry => bool_decide (trim entry = [star])) names
  end.

Definition pickSandboxToolPolicy (config : option SandboxToolPolicyConfig) : option ToolPolicyLike :=
  match config with
  | None => None
  | Some config =>
      let hasAlso := match sc_alsoAllow config with Some (_ :: _) => true | _ => false end in
      let allowFromAlsoAllowOnly :=
        bool_decide (sc_allow config = None) && hasAlso
        && negb (hasExplicitAllowAll (sc_alsoAllow config)) in
      let allow :=
        match sc_allow config with
        | Some _ => unionAllow (sc_allow config) (sc_alsoAllow config)
        | None => if hasAlso then unionAllow None (sc_alsoAllow config) else None
        end in
      match allow, sc_deny config with
      | None, None => None
      | allow, deny =>
          Some {| pl_policy := {| tp_allow := allow; tp_deny := deny |};
                  pl_implicitAllowAll := allowFromAlsoAllowOnly |}
      end
  end.

Definition DEFAULT_PLUGIN_TOOLS_ALLOWLIST_ENTRY : jstr := lit "__openclaw_default_plugin_tools__".

Definition hasRestrictiveAllowPolicy (policy : option ToolPolicy) : bool :=
  match policy ≫= tp_allow with
  | None => false
  | Some allow =>
      existsb (fun entry =>
        let normalized := normalizeToolName (TStr entry) in
        truthy_name normalized && negb (bool_decide (normalized = TStr [star]))
        && negb (bool_decide (normalized = TStr DEFAULT_PLUGIN_TOOLS_ALLOWLIST_ENTRY))) allow
  end.

Definition replaceWithEffectiveToolAllowlist (tools : list jstr) : list tool_name :=
  js_set (List.filter truthy_name ((fun name => normalizeToolName (TStr name)) <$> tools)).

Definition collectExplicitAllowlist (policies : list (option ToolPolicyLike)) : list jstr :=
  js_set (policies ≫= fun policy =>
    match policy with
    | None => []
    | Some policy =>
        match tp_allow (pl_policy policy) with
        | None => []
        | Some allow =>
            List.filter (fun trimmed =>
              negb (bool_decide (trimmed = [star]) && pl_implicitAllowAll policy) && truthy trimmed)
              (trim <$> allow) ++
            (if pl_implicitAllowAll policy then [DEFAULT_PLUGIN_TOOLS_ALLOWLIST_ENTRY] else [])
        end
    end).

Definition collectExplicitDenylist (policies : list (option ToolPolicyLike)) : list jstr :=
  policies ≫= fun policy =>
    match policy ≫= fun p => tp_deny (pl_policy p) with
    | None => []
    | Some deny => List.filter truthy (trim <$> deny)
    end.

(** A tool with the id of its plugin, when [toolMeta] knows it. *)
Record PluginToolGroups := { pg_all : list tool_name; pg_byPlugin : list (jstr * list tool_name) }.

Definition buildPluginToolGroups (tools : list (jstr * option jstr)) : PluginToolGroups :=
  foldl (fun groups '(name, meta) =>
    match meta with
    | None => groups
    | Some pluginId =>
        let name := normalizeToolName (TStr name) in
        {| pg_all := pg_all groups ++ [name];
           pg_byPlugin :=
             match normalizeOptionalLowercaseString (VString pluginId) with
             | None => pg_byPlugin groups
             | Some pluginId =>
                 jm_set pluginId (default [] (jm_get pluginId (pg_byPlugin groups)) ++ [name])
                   (pg_byPlugin groups)
             end |}
    end) {| pg_all := []; pg_byPlugin := [] |} tools.

Definition expand_plugin_entry (groups : PluginToolGroups) (entry : jstr) : list tool_name :=
  let normalized := normalizeToolName (TStr entry) in
  if bool_decide (normalized = TStr (lit "group:plugins")) then
    match pg_all groups with [] => [normalized] | all => all end
  else
    match normalized with
    | TProto _ => [normalized]
    | TStr key =>
        match jm_get key (pg_byPlugin groups) with
        | None | Some [] => [normalized]
        | Some tools => tools
        end
    end.

Definition expandPluginGroups (names : option (list jstr)) (groups : PluginToolGroups)
    : option (list tool_name) :=
  match names with
  | None => None
  | Some names => Some (js_set (names ≫= expand_plugin_entry groups))
  end.

Definition expandPolicyWithPluginGroups (policy : option ToolPolicy) (groups : PluginToolGroups)
    : option (option (list tool_name) * option (list tool_name)) :=
  match policy with
  | None => None
  | Some policy =>
      Some (expandPluginGroups (tp_allow policy) groups, expandPluginGroups (tp_deny policy) groups)
  end.

Definition mergeAlsoAllowPolicy (policy : option ToolPolicy) (alsoAllow : option (list jstr))
    : option ToolPolicy :=
  match policy, alsoAllow with
  | Some {| tp_allow := Some allow; tp_deny := deny |}, Some ((_ :: _) as alsoAllow) =>
      Some {| tp_allow := Some (js_set (allow ++ alsoAllow)); tp_deny := deny |}
  | _, _ => policy
  end.

(** ** Globs *)

(** The strings a pattern stands for: a star is any run within a line. *)
Inductive glob : jstr -> jstr -> Prop :=
  | glob_nil : glob [] []
  | glob_char c p s : c <> star -> glob p s -> glob (c :: p) (c :: s)
  | glob_star p s1 s2 :
      Forall (fun c => is_line_terminator c = false) s1 -> glob p s2 -> glob (star :: p) (s1 ++ s2).

Lemma any_then_spec rest s :
  any_then rest s = true <->
  exists s1 s2, s = s1 ++ s2 /\ Forall (fun c => is_line_terminator c = false) s1 /\ rest s2 = true.
Proof.
  induction s as [|c s IH]; cbn [any_then].
  - rewrite orb_false_r. split.
    + intros H. exists [], []. auto.
    + intros (s1 & s2 & E & _ & H). by destruct s1, s2.
  - rewrite orb_true_iff, andb_true_iff, negb_true_iff, IH. split.
    + intros [H|(Hc & s1 & s2 & -> & Hs & Hr)]; [by exists [], (c :: s)|].
      exists (c :: s1), s2. split; [done|]. split; [by constructor|done].
    + intros (s1 & s2 & E & Hs & Hr). destruct s1 as [|x s1]; [left; by rewrite E|].
      injection E as -> ->. apply Forall_cons in Hs as [Hx Hs]. right. eauto 10.
Qed.

Lemma regex_test_glob p s : regex_test p s = true <-> glob p s.
Proof.
  revert s. induction p as [|c p IH]; intros s; cbn [regex_test].
  - split; [destruct s; [constructor|done]|by inversion 1].
  - case_bool_decide as Hc.
    + subst. rewrite any_then_spec. split.
      * intros (s1 & s2 & -> & Hs & Hr). constructor; [done|by apply IH].
      * inversion 1 as [|? ? ? Hne|? s1 s2 Hs Hg]; subst; [done|].
        exists s1, s2. by rewrite IH.
    + destruct s as [|x s]; [split; [done|by inversion 1]|].
      rewrite andb_true_iff, bool_decide_eq_true, IH. split.
      * intros [-> Hg]. by constructor.
      * inversion 1; subst; done.
Qed.

Lemma str_includes_elem c s : str_includes [c] s = true <-> c ∈ s.
Proof.
  unfold str_includes. rewrite bool_decide_eq_true. induction s as [|x s IH]; cbn [index_of].
  - split; [by intros [? ?]|by intros ?%elem_of_nil].
  - cbn [starts_with]. unfold is_char. rewrite andb_true_r. case_bool_decide as Hx.
    + subst. split; [left|by eexists].
    + rewrite fmap_is_Some, IH, elem_of_cons. naive_solver.
Qed.

(** ** Normal names *)

Definition name_normal (s : jstr) : Prop := normalizeToolName (TStr s) = TStr s.

#[global] Instance name_normal_dec s : Decision (name_normal s).
Proof. unfold name_normal. apply _. Defined.

Lemma normalizeToolName_normal x s : normalizeToolName x = TStr s -> name_normal s.
Proof.
  unfold normalizeToolName. set (n := normalizeLowercaseStringOrEmpty (name_value x)).
  assert (normalizeLowercaseStringOrEmpty (VString n) = n) as Hn.
  { unfold n. destruct x as [t|t]; [|done]. cbn [name_value].
    rewrite !normalizeLowercaseStringOrEmpty_string. apply fold_str_idem. }
  clearbody n. destruct (jm_get n TOOL_NAME_ALIASES) as [alias|] eqn:Ea.
  - intros [= <-]. apply jm_get_elem in Ea. unfold TOOL_NAME_ALIASES in Ea.
    assert (Forall (fun kv => name_normal kv.2) TOOL_NAME_ALIASES) as Hall
      by (apply (bool_decide_unpack _); by vm_compute).
    rewrite Forall_forall in Hall. by apply (Hall (n, alias)).
  - destruct (jm_get n inherited_members) eqn:Ei; [done|]. intros [= <-].
    unfold name_normal, normalizeToolName. cbn [name_value]. by rewrite Hn, Ea, Ei.
Qed.

(** What the groups hold. *)
Lemma groups_normal key g :
  group_of key = Some g ->
  g <> [] /\ Forall (fun t => name_normal t /\ t <> [] /\ (star ∉ t)) g.
Proof.
  intros Hg%jm_get_elem.
  assert (Forall (fun kv : jstr * list jstr =>
    kv.2 <> [] /\ Forall (fun t => name_normal t /\ t <> [] /\ (star ∉ t)) kv.2) TOOL_GROUPS) as H
    by (apply (bool_decide_unpack _); by vm_compute).
  rewrite Forall_forall in H. by apply (H (key, g)).
Qed.

Lemma inherited_no_group : Forall (fun kv => group_of kv.2 = None) inherited_members.
Proof. apply (bool_decide_unpack _). by vm_compute. Qed.

(** A raw pattern that the matcher compiles. *)
Definition raw_ok (v : tool_name) : Prop :=
  match v with TStr s => name_normal s /\ s <> [] | TProto _ => True end.

Lemma expand_group_ok x v : v ∈ expand_group x -> truthy_name x = true ->
  (exists y, x = normalizeToolName y) -> raw_ok v.
Proof.
  unfold expand_group. destruct (group_of (name_text x)) as [g|] eqn:E.
  - intros (t & -> & Ht)%list_elem_of_fmap _ _. apply groups_normal in E as [_ Hg].
    rewrite Forall_forall in Hg. by destruct (Hg t Ht) as (? & ? & _).
  - intros ->%list_elem_of_singleton Ht [y Hy]. destruct x as [s|]; [|done].
    split; [by eapply normalizeToolName_normal|]. by apply truthy_spec in Ht.
Qed.

Lemma elem_of_expandToolGroups v names :
  v ∈ expandToolGroups (Some names) <->
  exists e, e ∈ names /\ truthy_name (normalizeToolName (TStr e)) = true /\
    v ∈ expand_group (normalizeToolName (TStr e)).
Proof.
  unfold expandToolGroups, normalizeToolList. rewrite elem_of_js_set, list_elem_of_bind.
  cbn [default]. split.
  - intros (x & Hv & [Hx Ht]%list_elem_of_In%List.filter_In). apply list_elem_of_In in Hx.
    apply list_elem_of_fmap in Hx as (e & -> & He). eauto.
  - intros (e & He & Ht & Hv). exists (normalizeToolName (TStr e)). split; [done|].
    apply list_elem_of_In, List.filter_In. split; [|done].
    apply list_elem_of_In, list_elem_of_fmap. eauto.
Qed.

Lemma expandToolGroups_ok names : Forall raw_ok (expandToolGroups (Some names)).
Proof.
  apply Forall_forall. intros v (e & _ & Ht & Hv)%elem_of_expandToolGroups.
  eapply expand_group_ok; eauto.
Qed.

(** ** Compiled patterns *)

Definition pattern_of (v : tool_name) : CompiledGlobPattern :=
  match v with
  | TProto _ => PExact []
  | TStr s =>
      if bool_decide (s = [star]) then PAll
      else if negb (str_includes [star] s) then PExact s else PRegex s
  end.

Lemma compileGlobPattern_ok v :
  raw_ok v -> compileGlobPattern normalizeToolName v = Some (pattern_of v).
Proof.
  unfold compileGlobPattern. destruct v as [s|t]; cbn [raw_ok].
  - intros [-> Hs]. cbn. by rewrite (proj2 (truthy_spec s)).
  - intros _. done.
Qed.

Lemma compileGlobPatterns_ok raw :
  Forall raw_ok raw ->
  compileGlobPatterns normalizeToolName raw = Some (List.filter keeps_pattern (pattern_of <$> raw)).
Proof.
  intros H. unfold compileGlobPatterns.
  assert (mapM (compileGlobPattern normalizeToolName) raw = Some (pattern_of <$> raw)) as ->; [|done].
  induction H as [|v raw Hv _ IH]; [done|]. cbn. rewrite compileGlobPattern_ok, IH by done. done.
Qed.

(** A pattern matches a name. *)
Definition pattern_covers (n : jstr) (name : tool_name) : Prop :=
  n = [star] \/ ((star ∉ n) /\ name = TStr n) \/ (star ∈ n /\ glob n (name_text name)).

Lemma matches_pattern_of s name :
  matches_pattern name (pattern_of (TStr s)) = true <-> pattern_covers s name.
Proof.
  unfold pattern_of, pattern_covers. case_bool_decide as Hs; [cbn; naive_solver|].
  pose proof (str_includes_elem star s) as Hi. destruct (str_includes [star] s); cbn [negb].
  - assert (star ∈ s) by by apply Hi. cbn. rewrite regex_test_glob. naive_solver.
  - assert (star ∉ s) by (intros ?%Hi; done). cbn. rewrite bool_decide_eq_true. naive_solver.
Qed.

(** ** What a list covers *)

Definition entry_covers (entry : jstr) (name : tool_name) : Prop :=
  exists n, normalizeToolName (TStr entry) = TStr n /\ n <> [] /\
    match group_of n with
    | Some group => exists t, t ∈ group /\ name = TStr t
    | None => pattern_covers n name
    end.

Definition list_covers (names : list jstr) (name : tool_name) : Prop :=
  exists e, e ∈ names /\ entry_covers e name.

(** An entry that compiles to no pattern: blank, or named like a member of
    every object. *)
Definition inert_entry (entry : jstr) : Prop :=
  forall n, normalizeToolName (TStr entry) = TStr n -> n = [].

Definition patterns_of (names : list jstr) : list CompiledGlobPattern :=
  List.filter keeps_pattern (pattern_of <$> expandToolGroups (Some names)).

Lemma keeps_pattern_of s : s <> [] -> keeps_pattern (pattern_of (TStr s)) = true.
Proof.
  intros H%truthy_spec. unfold pattern_of. case_bool_decide; [done|]. by destruct (negb _).
Qed.

Lemma expand_group_proto text v :
  normalizeToolName v = TProto text -> expand_group (TProto text) = [TProto text].
Proof.
  unfold normalizeToolName. destruct (jm_get _ TOOL_NAME_ALIASES); [done|].
  destruct (jm_get _ inherited_members) as [t|] eqn:E; [|done]. intros [= ->].
  apply jm_get_elem in E. unfold expand_group. cbn [name_text].
  pose proof inherited_no_group as H. rewrite Forall_forall in H. specialize (H _ E). cbn [snd] in H. by rewrite H.
Qed.

Lemma group_exact t value :
  (star ∉ t) -> matches_pattern value (pattern_of (TStr t)) = true <-> value = TStr t.
Proof.
  intros Ht. rewrite matches_pattern_of. unfold pattern_covers. split; [|by right; left].
  intros [->|[[_ ?]|[? _]]]; [|done..]. exfalso. apply Ht. left.
Qed.

Lemma patterns_of_match names value :
  matchesAnyGlobPattern value (patterns_of names) = true <-> list_covers names value.
Proof.
  unfold matchesAnyGlobPattern, patterns_of, list_covers. rewrite List.existsb_exists. split.
  - intros (p & [Hp Hk]%List.filter_In & Hm). apply list_elem_of_In in Hp.
    apply list_elem_of_fmap in Hp as (v & -> & Hv).
    apply elem_of_expandToolGroups in Hv as (e & He & Ht & Hv). exists e. split; [done|].
    unfold entry_covers. destruct (normalizeToolName (TStr e)) as [n|text] eqn:En.
    + exists n. split; [done|]. split; [by apply truthy_spec|]. unfold expand_group in Hv.
      cbn [name_text] in Hv. destruct (group_of n) as [g|] eqn:Eg.
      * apply list_elem_of_fmap in Hv as (t & -> & Hin). exists t. split; [done|].
        apply groups_normal in Eg as [_ Hg]. rewrite Forall_forall in Hg.
        by apply group_exact in Hm; [|apply (Hg t)].
      * apply list_elem_of_singleton in Hv as ->. by apply matches_pattern_of.
    + rewrite (expand_group_proto _ _ En) in Hv. by apply list_elem_of_singleton in Hv as ->.
  - intros (e & He & n & En & Hn & Hc).
    assert (forall v, v ∈ expand_group (TStr n) -> v ∈ expandToolGroups (Some names)) as Hin.
    { intros v Hv. apply elem_of_expandToolGroups. exists e. rewrite En. split; [done|].
      split; [by apply truthy_spec|done]. }
    assert (exists s, s <> [] /\ TStr s ∈ expand_group (TStr n) /\
      matches_pattern value (pattern_of (TStr s)) = true) as (s & Hs & Hv & Hm).
    { unfold expand_group. cbn [name_text]. destruct (group_of n) as [g|] eqn:Eg.
      - destruct Hc as (t & Ht & ->). apply groups_normal in Eg as [_ Hg]. rewrite Forall_forall in Hg.
        destruct (Hg t Ht) as (_ & ? & ?). exists t. split; [done|].
        split; [by apply list_elem_of_fmap_2|by apply group_exact].
      - exists n. split; [done|]. split; [left|by apply matches_pattern_of]. }
    exists (pattern_of (TStr s)). split; [|done]. apply List.filter_In.
    split; [|by apply keeps_pattern_of]. by apply list_elem_of_In, list_elem_of_fmap_2, Hin.
Qed.

Lemma patterns_of_nil names : patterns_of names = [] <-> Forall inert_entry names.
Proof.
  unfold patterns_of. rewrite Forall_forall. split.
  - intros Hf e He n En. destruct (decide (n = [])) as [|Hn]; [done|exfalso].
    assert (exists s, s <> [] /\ TStr s ∈ expand_group (TStr n)) as (s & Hs & Hv).
    { unfold expand_group. cbn [name_text]. destruct (group_of n) as [g|] eqn:Eg.
      - apply groups_normal in Eg as [Hne Hg]. destruct g as [|t g]; [done|].
        apply Forall_cons in Hg as [(_ & ? & _) _]. exists t. split; [done|left].
      - exists n. split; [done|left]. }
    assert (pattern_of (TStr s) ∈ ([] : list CompiledGlobPattern)) as []%elem_of_nil.
    rewrite <- Hf. apply list_elem_of_In, List.filter_In. split; [|by apply keeps_pattern_of].
    apply list_elem_of_In, list_elem_of_fmap_2, elem_of_expandToolGroups. exists e. rewrite En.
    split; [done|]. split; [by apply truthy_spec|done].
  - intros H. destruct (List.filter _ _) as [|p l] eqn:E; [done|exfalso].
    assert (In p (p :: l)) as Hp by by left. rewrite <- E in Hp.
    apply List.filter_In in Hp as [Hp Hk]. apply list_elem_of_In in Hp.
    apply list_elem_of_fmap in Hp as (v & -> & Hv).
    apply elem_of_expandToolGroups in Hv as (e & He & Ht & Hv).
    destruct (normalizeToolName (TStr e)) as [n|text] eqn:En.
    + rewrite (H e He n En) in Ht. done.
    + rewrite (expand_group_proto _ _ En) in Hv. by apply list_elem_of_singleton in Hv as ->.
Qed.

(** ** What a policy allows *)

Definition policy_allows (policy : ToolPolicy) (name : tool_name) : Prop :=
  ~ list_covers (default [] (tp_deny policy)) name /\
  (Forall inert_entry (default [] (tp_allow policy)) \/
   list_covers (default [] (tp_allow policy)) name \/
   (name = TStr (lit "apply_patch") /\
    list_covers (default [] (tp_allow policy)) (TStr (lit "write")))).

Lemma isToolAllowedByPolicyName_spec name policy :
  exists b, isToolAllowedByPolicyName name (Some policy) = Some b /\
    (b = true <-> policy_allows policy (normalizeToolName (TStr name))).
Proof.
  unfold isToolAllowedByPolicyName, makeToolPolicyMatcher.
  rewrite !compileGlobPatterns_ok by apply expandToolGroups_ok.
  fold (patterns_of (default [] (tp_deny policy))) (patterns_of (default [] (tp_allow policy))).
  cbn [mbind option_bind]. eexists. split; [done|]. unfold policy_allows.
  set (n := normalizeToolName (TStr name)). rewrite <- !patterns_of_match, <- patterns_of_nil.
  destruct (matchesAnyGlobPattern n (patterns_of (default [] (tp_deny policy)))); [naive_solver|].
  set (allow := patterns_of (default [] (tp_allow policy))).
  case_bool_decide as Hl; [apply nil_length_inv in Hl; naive_solver|].
  assert (allow <> []) by (intros E; by rewrite E in Hl).
  destruct (matchesAnyGlobPattern n allow); [naive_solver|].
  rewrite andb_true_iff, bool_decide_eq_true. naive_solver.
Qed.

(** ** Properties *)

(** An allow list that says something: it is empty or has an entry that compiles to
    a pattern. *)
Definition allow_list_speaks (policy : ToolPolicy) : Prop :=
  default [] (tp_allow policy) = [] \/ ~ Forall inert_entry (default [] (tp_allow policy)).

(** What the guide promises: deny wins, and a non-empty allow list blocks all that
    it does not cover, where [write] covers [apply_patch] too. *)
Definition documented_allows (policy : ToolPolicy) (name : tool_name) : Prop :=
  ~ list_covers (default [] (tp_deny policy)) name /\
  (default [] (tp_allow policy) = [] \/ list_covers (default [] (tp_allow policy)) name \/
   name = TStr (lit "apply_patch") /\ list_covers (default [] (tp_allow policy)) (TStr (lit "write"))).

Lemma speaking_policy policy name : allow_list_speaks policy ->
  policy_allows policy name <-> documented_allows policy name.
Proof.
  unfold allow_list_speaks, policy_allows, documented_allows. intros [E|Hne].
  2:{ split; intros [Hd Ha]; (split; [exact Hd|]); [tauto|]. destruct Ha as [E|Ha]; [|tauto].
      rewrite E in Hne. destruct Hne. constructor. }
  rewrite E. split; intros [Hd _]; (split; [exact Hd|left]); [done|constructor].
Qed.

(** C39. The decision on a tool never fails.  Where every allow list is empty or
    has an entry that is neither blank nor named like a member of every object, it
    is the meet of the policies: a policy allows a name exactly when no deny entry
    covers it, and its allow list is empty, or an entry covers the name, or covers
    [write] when the name is [apply_patch].  An entry covers the members of the
    group it names, or what its pattern stands for. *)
Theorem tool_policies_decide name policies :
  Forall (fun policy => match policy with None => True | Some policy => allow_list_speaks policy end) policies ->
  exists b, isToolAllowedByPolicies name policies = Some b /\
    (b = true <-> Forall (fun policy => match policy with
       | None => True
       | Some policy => documented_allows policy (normalizeToolName (TStr name))
       end) policies).
Proof.
  induction 1 as [|[policy|] policies Hs _ (b & IH & Hb)]; cbn [isToolAllowedByPolicies].
  - exists true. split; [done|]. split; [constructor|done].
  - destruct (isToolAllowedByPolicyName_spec name policy) as (b' & -> & Hb'). cbn.
    rewrite (speaking_policy _ _ Hs) in Hb'. setoid_rewrite Forall_cons. destruct b'.
    + exists b. rewrite IH. naive_solver.
    + exists false. naive_solver.
  - exists b. cbn. rewrite IH, Forall_cons. naive_solver.
Qed.

(** An entry that names a tool covers that tool only. *)
Definition plain_entry (e : jstr) : Prop :=
  name_normal e /\ e <> [] /\ (star ∉ e) /\ group_of e = None.

Lemma plain_entry_covers e name : plain_entry e -> entry_covers e name <-> name = TStr e.
Proof.
  intros (Hn & He & Hs & Hg). unfold entry_covers. rewrite Hn. split.
  - intros (n & [= <-] & _ & Hc). rewrite Hg in Hc.
    destruct Hc as [->|[[_ ?]|[? _]]]; [|assumption|contradiction]. exfalso. apply Hs. left.
  - intros ->. exists e. rewrite Hg. split; [reflexivity|]. split; [exact He|].
    right; left. split; [exact Hs|reflexivity].
Qed.

Definition profile_entries (p : ToolProfileId) : list jstr :=
  default [] (tp_allow (CORE_TOOL_PROFILES p)).

Lemma profile_entries_plain p : p <> Full -> Forall plain_entry (profile_entries p).
Proof.
  intros Hp. unfold plain_entry. destruct p; [..|done];
    apply (bool_decide_unpack _); by vm_compute.
Qed.

Definition profile_name (p : ToolProfileId) : jstr :=
  match p with
  | Minimal => lit "minimal" | Coding => lit "coding"
  | Messaging => lit "messaging" | Full => lit "full"
  end.

Lemma profile_policy_named p :
  resolveCoreToolProfilePolicy (Some (profile_name p)) = Some (CORE_TOOL_PROFILES p).
Proof. by destruct p. Qed.

Lemma profile_entries_in p n : p <> Full ->
  (exists e, e ∈ profile_entries p /\ n = TStr e) <->
  (exists t, t ∈ CORE_TOOL_DEFINITIONS /\ p ∈ ct_profiles t /\ n = TStr (ct_id t)) \/
  (p = Coding \/ p = Messaging) /\ n = TStr (lit "bundle-mcp").
Proof.
  intros Hp.
  assert (forall e, e ∈ listCoreToolIdsForProfile p <->
    exists t, t ∈ CORE_TOOL_DEFINITIONS /\ p ∈ ct_profiles t /\ e = ct_id t) as Hl.
  { intros e. unfold listCoreToolIdsForProfile. rewrite list_elem_of_fmap. split.
    - intros (t & -> & [Ht Hi]%list_elem_of_In%List.filter_In). exists t.
      split; [by apply list_elem_of_In|]. split; [by apply includes_spec|done].
    - intros (t & Ht & Hi & ->). exists t. split; [done|]. apply list_elem_of_In, List.filter_In.
      split; [by apply list_elem_of_In|by apply includes_spec]. }
  assert (forall e, e ∈ profile_entries p <-> e ∈ listCoreToolIdsForProfile p \/
    (p = Coding \/ p = Messaging) /\ e = lit "bundle-mcp") as Hin.
  { intros e. destruct p; [|..|done].
    - change (profile_entries Minimal) with (listCoreToolIdsForProfile Minimal).
      split; [by left|by intros [?|[[?|?] _]]].
    - change (profile_entries Coding) with (listCoreToolIdsForProfile Coding ++ [lit "bundle-mcp"]).
      rewrite elem_of_app, list_elem_of_singleton. tauto.
    - change (profile_entries Messaging)
        with (listCoreToolIdsForProfile Messaging ++ [lit "bundle-mcp"]).
      rewrite elem_of_app, list_elem_of_singleton. tauto. }
  split.
  - intros (e & [(t & Ht & Hi & ->)%Hl|[Hc ->]]%Hin & ->); [left; eauto|by right].
  - intros [(t & Ht & Hi & ->)|[Hc ->]].
    + exists (ct_id t). split; [|done]. apply Hin. left. apply Hl. eauto.
    + exists (lit "bundle-mcp"). split; [|done]. apply Hin. by right.
Qed.

(** A built-in profile allows exactly the tools that list it: [full]
    allows every name, the others the names that resolve to a tool of theirs,
    and the coding and messaging profiles the bundled MCP tools. *)
Theorem profile_allows_its_tools p name :
  exists b, isToolAllowedByPolicyName name (resolveCoreToolProfilePolicy (Some (profile_name p))) = Some b /\
    (b = true <->
     p = Full \/
     (exists t, t ∈ CORE_TOOL_DEFINITIONS /\ p ∈ ct_profiles t /\
        normalizeToolName (TStr name) = TStr (ct_id t)) \/
     ((p = Coding \/ p = Messaging) /\ normalizeToolName (TStr name) = TStr (lit "bundle-mcp"))).
Proof.
  rewrite profile_policy_named.
  destruct (isToolAllowedByPolicyName_spec name (CORE_TOOL_PROFILES p)) as (b & -> & Hb).
  exists b. split; [done|]. rewrite Hb. clear Hb b. set (n := normalizeToolName (TStr name)).
  clearbody n. unfold policy_allows.
  assert (~ list_covers (default [] (tp_deny (CORE_TOOL_PROFILES p))) n) as Hdeny
    by (destruct p; intros (e & ?%elem_of_nil & _); done).
  fold (profile_entries p). destruct (decide (p = Full)) as [->|Hp].
  { split; [by left|]. intros _. split; [done|]. right; left. exists [star]. split; [left|].
    exists [star]. split; [by vm_compute|]. split; [done|].
    assert (group_of [star] = None) as -> by by vm_compute. by left. }
  pose proof (profile_entries_plain p Hp) as Hplain. rewrite Forall_forall in Hplain.
  assert (forall v, list_covers (profile_entries p) v <-> exists e, e ∈ profile_entries p /\ v = TStr e)
    as Hcov.
  { intros v. unfold list_covers. split; intros (e & He & Hv); exists e; split; try done;
      by apply plain_entry_covers; auto. }
  assert (~ Forall inert_entry (profile_entries p)) as Hinert.
  { intros Hall. rewrite Forall_forall in Hall.
    assert (lit "session_status" ∈ profile_entries p) as Hin
      by (destruct p; [..|done]; apply (bool_decide_unpack _); by vm_compute).
    destruct (Hplain _ Hin) as (Hn & Hne & _). by apply Hne, (Hall _ Hin). }
  assert (lit "write" ∈ profile_entries p -> lit "apply_patch" ∈ profile_entries p) as Hw.
  { destruct p; [..|done]; apply (bool_decide_unpack _); by vm_compute. }
  rewrite !Hcov.
  assert ((exists e, e ∈ profile_entries p /\ n = TStr e) <->
    (exists t, t ∈ CORE_TOOL_DEFINITIONS /\ p ∈ ct_profiles t /\ n = TStr (ct_id t)) \/
    (p = Coding \/ p = Messaging) /\ n = TStr (lit "bundle-mcp")) as Hlist by by apply profile_entries_in.
  rewrite <- Hlist. split.
  - intros (_ & [?|[?|(-> & e & He & [= <-])]]); [done|auto|]. right. eauto.
  - intros [?|H]; [done|auto].
Qed.

(** ** Prefixes *)

Lemma fold_str_prefix prefix suffix :
  fold_str prefix <> [] -> starts_with (fold_str prefix) (fold_str (prefix ++ suffix)) = true.
Proof.
  intros Hne. assert (exists r, trim (prefix ++ suffix) = trim prefix ++ r) as [r Hr].
  { unfold trim. rewrite drop_while_app. destruct (drop_while is_space prefix) as [|c l] eqn:E.
    - exfalso. apply Hne. unfold fold_str, trim. by rewrite E.
    - apply drop_while_end_app. }
  unfold fold_str. rewrite Hr, lower_app. apply starts_with_app.
Qed.

Lemma scan_allowed_spec np names : forall allowed,
  (forall t, t ∈ names -> exists s, normalizeToolName (TStr t) = TStr s) ->
  scan_allowed np names allowed = Some (inl true) \/
  exists allowed', scan_allowed np names allowed = Some (inr allowed') /\ allowed ⊆ allowed' /\
    forall t s, t ∈ names -> normalizeToolName (TStr t) = TStr s ->
      starts_with np s = false /\ (s <> [] -> TStr s ∈ allowed').
Proof.
  induction names as [|x names IH]; intros allowed H; cbn [scan_allowed].
  { right. exists allowed. split; [done|]. split; [done|]. by intros t s ?%elem_of_nil. }
  destruct (H x) as [s Hs]; [left|]. rewrite Hs. set (folded := normalizeLowercaseStringOrEmpty _).
  destruct (starts_with np s) eqn:E1; cbn [orb]; [by left|].
  destruct (starts_with np folded) eqn:E2; [by left|].
  set (allowed1 := if truthy_name (TStr s) then _ else _).
  set (allowed2 := if truthy folded then _ else _).
  assert (allowed ⊆ allowed2) as Hsub.
  { intros v Hv. subst allowed2 allowed1. destruct (truthy folded), (truthy_name (TStr s));
      rewrite ?elem_of_js_add; auto. }
  assert (s <> [] -> TStr s ∈ allowed2) as Hin.
  { intros Hne%truthy_spec. subst allowed2 allowed1. cbn [truthy_name]. rewrite Hne.
    destruct (truthy folded); rewrite !elem_of_js_add; auto. }
  destruct (IH allowed2) as [->|(allowed' & -> & Hsub' & Hall)]; [|by left|].
  { intros t Ht. apply H. by right. }
  right. exists allowed'. split; [done|]. split; [by etrans|].
  intros t s' [->|Ht]%elem_of_cons Hts; [|exact (Hall t s' Ht Hts)].
  rewrite Hs in Hts. injection Hts as <-. split; [done|]. intros Hne. apply Hsub', Hin, Hne.
Qed.

(** No prefix of an allowed tool is turned away: if some continuation of
    what has been written so far resolves, aliases included, to an allowed
    tool, the prefix is accepted. *)
Theorem allowed_prefix_accepted prefix suffix tool allowed :
  tool ∈ allowed ->
  (forall t, t ∈ allowed -> exists s, normalizeToolName (TStr t) = TStr s) ->
  fold_str prefix <> [] ->
  normalizeToolName (TStr (prefix ++ suffix)) = normalizeToolName (TStr tool) ->
  couldNormalizeToolNamePrefixToAllowedTool prefix allowed = Some true.
Proof.
  intros Htool Hall Hne Hfull. unfold couldNormalizeToolNamePrefixToAllowedTool.
  rewrite normalizeLowercaseStringOrEmpty_string, (proj2 (truthy_spec _)) by done. cbn [negb].
  destruct (scan_allowed_spec (fold_str prefix) allowed [] Hall) as [->|(allowed' & -> & _ & Hs)];
    [done|].
  destruct (negb _ && _); [done|]. f_equal.
  destruct (Hall tool Htool) as [s Es]. destruct (Hs tool s Htool Es) as [Hstart Hin].
  rewrite Es in Hfull. pose proof (fold_str_prefix prefix suffix Hne) as Hp.
  unfold normalizeToolName in Hfull. cbn [name_value] in Hfull.
  rewrite normalizeLowercaseStringOrEmpty_string in Hfull.
  set (F := fold_str (prefix ++ suffix)) in *.
  destruct (jm_get F TOOL_NAME_ALIASES) as [alias|] eqn:Ea.
  - injection Hfull as ->. apply jm_get_elem in Ea. apply List.existsb_exists. exists (F, s).
    split; [by apply list_elem_of_In|]. rewrite Hp. cbn [andb]. apply includes_spec, Hin.
    assert (Forall (fun kv : jstr * jstr => kv.2 <> []) TOOL_NAME_ALIASES) as Hal
      by (apply (bool_decide_unpack _); by vm_compute).
    rewrite Forall_forall in Hal. exact (Hal (F, s) Ea).
  - destruct (jm_get F inherited_members); [done|]. injection Hfull as <-. congruence.
Qed.

(** ** [alsoAllow] *)

Lemma list_covers_set names name : list_covers (js_set names) name <-> list_covers names name.
Proof. unfold list_covers. by setoid_rewrite elem_of_js_set. Qed.

Lemma inert_set names : Forall inert_entry (js_set names) <-> Forall inert_entry names.
Proof. rewrite !Forall_forall. by setoid_rewrite elem_of_js_set. Qed.

Lemma star_covers name : entry_covers [star] name.
Proof.
  exists [star]. split; [by vm_compute|]. split; [done|].
  assert (group_of [star] = None) as -> by by vm_compute. by left.
Qed.

Definition policy_of (allow alsoAllow deny : option (list jstr)) : option ToolPolicy :=
  pl_policy <$> pickSandboxToolPolicy
    (Some {| sc_allow := allow; sc_alsoAllow := alsoAllow; sc_deny := deny |}).

(** The allow list that [alsoAllow] makes. *)
Lemma policy_of_also allow extra deny :
  extra <> [] ->
  policy_of allow (Some extra) deny =
    Some {| tp_allow := Some (js_set (match allow with
              | None | Some [] => [[star]] ++ extra | Some allow => allow ++ extra end));
            tp_deny := deny |}.
Proof.
  intros He. destruct extra as [|x extra]; [done|]. unfold policy_of, pickSandboxToolPolicy, unionAllow.
  cbn [sc_allow sc_alsoAllow sc_deny]. by destruct allow as [[|a allow]|], deny.
Qed.

Lemma policy_of_base allow deny name :
  isToolAllowedByPolicyName name (policy_of allow None deny) = Some true ->
  let n := normalizeToolName (TStr name) in
  ~ list_covers (default [] deny) n /\
  (Forall inert_entry (default [] allow) \/ list_covers (default [] allow) n \/
   (n = TStr (lit "apply_patch") /\ list_covers (default [] allow) (TStr (lit "write")))).
Proof.
  intros H n. unfold policy_of, pickSandboxToolPolicy in H. cbn [sc_allow sc_alsoAllow sc_deny] in H.
  assert (allow = None /\ deny = None \/
    isToolAllowedByPolicyName name (Some {| tp_allow := allow; tp_deny := deny |}) = Some true) as Hc.
  { destruct allow as [[|a allow]|], deny; try (by right); by left. }
  destruct Hc as [[-> ->]|Hc].
  - split; [by intros (e & ?%elem_of_nil & _)|]. left. constructor.
  - destruct (isToolAllowedByPolicyName_spec name {| tp_allow := allow; tp_deny := deny |})
      as (b & E & Hb). rewrite E in Hc. injection Hc as ->. by apply Hb.
Qed.

(** [alsoAllow] only adds: next to no allow list, an empty one, or one with
    an effective entry, every tool that was allowed stays allowed, and a tool
    that an added entry covers is allowed unless it is denied. *)
Theorem also_allow_only_adds allow extra deny name :
  extra <> [] ->
  match allow with
  | None | Some [] => True
  | Some allow => exists e, e ∈ allow /\ ~ inert_entry e
  end ->
  (isToolAllowedByPolicyName name (policy_of allow None deny) = Some true ->
   isToolAllowedByPolicyName name (policy_of allow (Some extra) deny) = Some true) /\
  (list_covers extra (normalizeToolName (TStr name)) ->
   ~ list_covers (default [] deny) (normalizeToolName (TStr name)) ->
   isToolAllowedByPolicyName name (policy_of allow (Some extra) deny) = Some true).
Proof.
  intros He Heff. rewrite policy_of_also by done.
  set (wide := {| tp_allow := Some _; tp_deny := deny |}).
  destruct (isToolAllowedByPolicyName_spec name wide) as (b & -> & Hb).
  set (n := normalizeToolName (TStr name)) in *.
  assert (policy_allows wide n <-> ~ list_covers (default [] deny) n /\
    (match allow with None | Some [] => True | Some allow =>
       list_covers (allow ++ extra) n \/
       (n = TStr (lit "apply_patch") /\ list_covers (allow ++ extra) (TStr (lit "write"))) end)) as Hw.
  { clearbody n. unfold policy_allows, wide. cbn [tp_allow tp_deny from_option id]. rewrite inert_set, !list_covers_set.
    assert (forall l v, list_covers ([[star]] ++ l) v) as Hstar
      by (intros l v; exists [star]; split; [left|apply star_covers]).
    destruct allow as [[|a allow]|]; [naive_solver| |naive_solver].
    destruct Heff as (e & Hin & Hne). split; [|naive_solver]. intros (Hd & [Hi|?]); [|done].
    exfalso. apply Hne. rewrite Forall_forall in Hi. apply Hi, elem_of_app. by left. }
  assert (forall l v, list_covers l v -> list_covers (l ++ extra) v) as Hmono.
  { intros l v (e & Hin & Hc). exists e. split; [|done]. apply elem_of_app. by left. }
  split; [intros Hbase%policy_of_base|intros Hc Hd]; f_equal; apply Hb, Hw.
  - cbv zeta in Hbase. fold n in Hbase. destruct Hbase as [Hd Hbase]. split; [exact Hd|]. cbn [from_option id] in Hbase.
    destruct allow as [[|a allow]|]; [done| |done]. destruct Heff as (e & Hin & Hne).
    destruct Hbase as [Hi|[Hc|[-> Hc]]]; [|by left; apply Hmono|right; auto].
    exfalso. apply Hne. rewrite Forall_forall in Hi. by apply Hi.
  - split; [done|]. destruct allow as [[|a allow]|]; [done| |done]. left.
    destruct Hc as (e & Hin & Hc). exists e. split; [|done]. apply elem_of_app. by right.
Qed.

(** An allow list of blank entries allows everything, until [alsoAllow] adds an
    entry: then only what that covers is allowed. *)
Example blank_allow_list_narrows :
  isToolAllowedByPolicyName (lit "exec") (policy_of (Some [lit " "]) None None) = Some true /\
  isToolAllowedByPolicyName (lit "exec") (policy_of (Some [lit " "]) (Some [lit "read"]) None)
    = Some false.
Proof. by vm_compute. Qed.

(** ** Witnesses *)

Lemma allowed_prefix_accepted_witness :
  couldNormalizeToolNamePrefixToAllowedTool (lit " Ba") [lit "read"; lit "exec"] = Some true.
Proof.
  apply (allowed_prefix_accepted (lit " Ba") (lit "SH ") (lit "exec")).
  - right. left.
  - intros t [->|[->|?%elem_of_nil]%elem_of_cons]%elem_of_cons; [| |done];
      eexists; vm_compute; reflexivity.
  - by vm_compute.
  - vm_compute. reflexivity.
Defined.

Lemma also_allow_only_adds_witness :
  isToolAllowedByPolicyName (lit "Bash") (policy_of (Some [lit "group:fs"]) (Some [lit "exec*"])
    (Some [lit "write"])) = Some true.
Proof.
  destruct (also_allow_only_adds (Some [lit "group:fs"]) [lit "exec*"] (Some [lit "write"]) (lit "Bash"))
    as [_ H].
  - done.
  - exists (lit "group:fs"). split; [left|]. intros Hi.
    assert (normalizeToolName (TStr (lit "group:fs")) = TStr (lit "group:fs")) as E
      by (vm_compute; reflexivity).
    discriminate (Hi _ E).
  - apply H.
    + exists (lit "exec*"). split; [left|]. exists (lit "exec*").
      split; [vm_compute; reflexivity|]. split; [done|].
      assert (group_of (lit "exec*") = None) as -> by (vm_compute; reflexivity).
      right; right. split; [by apply (bool_decide_unpack _); vm_compute|].
      apply regex_test_glob. vm_compute. reflexivity.
    + intros (e & ->%list_elem_of_singleton & n & En & _ & Hc).
      assert (n = lit "write") as ->.
      { assert (normalizeToolName (TStr (lit "write")) = TStr (lit "write")) as E
          by (vm_compute; reflexivity).
        rewrite E in En. injection En as <-. reflexivity. }
      assert (group_of (lit "write") = None) as Eg by (vm_compute; reflexivity). rewrite Eg in Hc.
      destruct Hc as [Hc|[[_ Hc]|[Hc _]]]; [vm_compute in Hc; discriminate Hc..|].
      revert Hc. apply (bool_decide_unpack _). by vm_compute.
Defined.

Lemma tool_policies_decide_witness :
  let files := {| tp_allow := Some [lit "group:fs"]; tp_deny := Some [lit "edit"] |} in
  let shell := {| tp_allow := None; tp_deny := Some [lit "exec"] |} in
  isToolAllowedByPolicies (lit "Read") [Some files; None; Some shell] = Some true /\
  documented_allows files (normalizeToolName (TStr (lit "Read"))) /\
  documented_allows shell (normalizeToolName (TStr (lit "Read"))).
Proof.
  intros files shell.
  assert (isToolAllowedByPolicies (lit "Read") [Some files; None; Some shell] = Some true) as E by (vm_compute; reflexivity).
  destruct (tool_policies_decide (lit "Read") [Some files; None; Some shell]) as (b & Eb & Hb).
  - constructor; [|constructor; [done|constructor; [by left|constructor]]]. right. intros Hi.
    apply Forall_inv in Hi. assert (normalizeToolName (TStr (lit "group:fs")) = TStr (lit "group:fs")) as En
      by (vm_compute; reflexivity).
    discriminate (Hi _ En).
  - rewrite E in Eb. injection Eb as <-. destruct Hb as [Hb _].
    destruct (Forall_cons_1 _ _ _ (Hb eq_refl)) as [H1 H2]. apply Forall_inv_tail, Forall_inv in H2. auto.
Defined.
