(* ===== verification/AllowFrom.v ===== *)
(** * Allow lists of senders

    [packages/normalization-core/src/string-normalization.ts] (section 1),
    [src/channels/allow-from.ts] (section 2) and, of
    [src/channels/message-access/], [effective-allow-from.ts],
    [store-allow-from.ts] and [dm-allow-state.ts] (section 3).

    The entries of a configured list are strings or numbers; numbers are
    integral ones.  The file store of paired senders is a parameter: a read
    returns its entries, or [None] when it fails. *)
From S2P Require Import Prelude JsString JsMap Normalization.
#[local] Open Scope nat_scope.

(** ** 1. Lists of strings *)

(** [string | number]. *)
Inductive list_entry := EText (s : jstr) | ENumber (n : Z).

#[global] Instance list_entry_eq_dec : EqDecision list_entry.
Proof. solve_decision. Defined.

(** [String(x)] on the types whose lists are normalised. *)
Class ToText (A : Type) := text_of : A -> jstr.

#[global] Instance text_of_string : ToText jstr := fun s => s.

#[global] Instance text_of_entry : ToText list_entry := fun e =>
  match e with EText s => s | ENumber n => js_number_string n end.

Definition normalizeStringEntries `{ToText A} (entries : list A) : list jstr :=
  List.filter truthy ((fun entry => default [] (normalizeOptionalString (VString (text_of entry)))) <$> entries).

Definition normalizeStringEntriesLower `{ToText A} (entries : list A) : list jstr :=
  (fun entry => default [] (normalizeOptionalLowercaseString (VString entry))) <$> normalizeStringEntries entries.

Definition uniqueStrings (values : list jstr) : list jstr := js_set values.

Definition sortUniqueStrings (values : list jstr) : list jstr := to_sorted (uniqueStrings values).

Definition normalizeUniqueStringEntries `{ToText A} (values : list A) : list jstr :=
  uniqueStrings (normalizeStringEntries values).

Definition normalizeUniqueStringEntriesLower `{ToText A} (values : list A) : list jstr :=
  uniqueStrings (List.filter truthy (normalizeStringEntriesLower values)).

Definition normalizeSortedUniqueStringEntries `{ToText A} (values : list A) : list jstr :=
  sortUniqueStrings (normalizeUniqueStringEntries values).

(** ** 2. Allow lists *)

Definition ACCESS_GROUP_ALLOW_FROM_PREFIX : jstr := lit "accessGroup:".

Definition parseAccessGroupAllowFromEntry (entry : jstr) : option jstr :=
  let trimmed := trim entry in
  if negb (starts_with ACCESS_GROUP_ALLOW_FROM_PREFIX trimmed) then None
  else
    let name := trim (drop (length ACCESS_GROUP_ALLOW_FROM_PREFIX) trimmed) in
    if truthy name then Some name else None.

(** Policies that do not read the store of paired senders. *)
Definition store_unused (dmPolicy : option jstr) : bool :=
  bool_decide (dmPolicy = Some (lit "allowlist")) || bool_decide (dmPolicy = Some (lit "open")).

Definition mergeDmAllowFromSources `{ToText A} (allowFrom storeAllowFrom : option (list A))
    (dmPolicy : option jstr) : list jstr :=
  let storeEntries := if store_unused dmPolicy then [] else default [] storeAllowFrom in
  normalizeStringEntries (default [] allowFrom ++ storeEntries).

Definition resolveGroupAllowFromSources `{ToText A} (allowFrom groupAllowFrom : option (list A))
    (fallbackToAllowFrom : option bool) : list jstr :=
  let scoped :=
    match groupAllowFrom with
    | Some (e :: l) => e :: l
    | _ => if bool_decide (fallbackToAllowFrom = Some false) then [] else default [] allowFrom
    end in
  normalizeStringEntries scoped.

Fixpoint firstDefined {T} (values : list (option T)) : option T :=
  match values with
  | [] => None
  | Some value :: _ => Some value
  | None :: values => firstDefined values
  end.

Record SenderAllow := { sa_entries : list jstr; sa_hasWildcard : bool; sa_hasEntries : bool }.

Definition isSenderIdAllowed (allow : SenderAllow) (senderId : option jstr) (allowWhenEmpty : bool) : bool :=
  if negb (sa_hasEntries allow) then allowWhenEmpty
  else if sa_hasWildcard allow then true
  else match senderId with
       | None | Some [] => false
       | Some senderId => includes senderId (sa_entries allow)
       end.

(** ** 3. Effective lists *)

Record EffectiveAllowFrom := { effectiveAllowFrom : list jstr; effectiveGroupAllowFrom : list jstr }.

Definition resolveChannelIngressEffectiveAllowFromLists `{ToText A}
    (allowFrom groupAllowFrom storeAllowFrom : option (list A)) (dmPolicy : option jstr)
    (groupAllowFromFallbackToAllowFrom : option bool) : EffectiveAllowFrom :=
  {| effectiveAllowFrom :=
       normalizeStringEntries (mergeDmAllowFromSources allowFrom storeAllowFrom dmPolicy);
     effectiveGroupAllowFrom :=
       normalizeStringEntries
         (resolveGroupAllowFromSources allowFrom groupAllowFrom groupAllowFromFallbackToAllowFrom) |}.

Section store.
  (** The pairing store on disk. *)
  Context (readChannelAllowFromStore : jstr -> jstr -> option (list jstr)).

Definition readChannelIngressStoreAllowFromForDmPolicy (provider accountId : jstr) (dmPolicy : option jstr)
      (shouldRead : option bool) (readStore : option (jstr -> jstr -> option (list jstr))) : list jstr :=
    if bool_decide (shouldRead = Some false) || store_unused dmPolicy then []
    else default [] (default readChannelAllowFromStore readStore provider accountId).

Record DmAllowAuditState := {
    as_configAllowFrom : list jstr;
    as_hasWildcard : bool;
    as_allowCount : nat;
    as_isMultiUserDm : bool;
  }.

Definition resolveDmAllowAuditState `{ToText A} (provider accountId : jstr) (allowFrom : option (list A))
      (dmPolicy : option jstr) (normalizeEntry : option (jstr -> jstr))
      (readStore : option (jstr -> jstr -> option (list jstr))) : DmAllowAuditState :=
    let configAllowFrom := normalizeStringEntries (default [] allowFrom) in
    let hasWildcard := includes (lit "*") configAllowFrom in
    let storeAllowFrom :=
      readChannelIngressStoreAllowFromForDmPolicy provider accountId dmPolicy None readStore in
    let normalizeEntry := default (fun value => value) normalizeEntry in
    let normalizedCfg :=
      normalizeStringEntries
        (normalizeEntry <$> List.filter (fun value => negb (bool_decide (value = lit "*"))) configAllowFrom) in
    let normalizedStore := normalizeStringEntries (normalizeEntry <$> storeAllowFrom) in
    let allowCount := length (js_set (normalizedCfg ++ normalizedStore)) in
    {| as_configAllowFrom := configAllowFrom;
       as_hasWildcard := hasWildcard;
       as_allowCount := allowCount;
       as_isMultiUserDm := hasWildcard || (1 <? allowCount) |}.
End store.

(** ** Laws *)

(** An entry that normalisation leaves alone. *)
Definition normal_entry (s : jstr) : Prop := trim s = s /\ s <> [].

Lemma normalized_text s : default [] (normalizeOptionalString (VString s)) = trim s.
Proof. cbn. by destruct (trim s). Qed.

Lemma elem_of_normalizeStringEntries `{ToText A} (l : list A) s :
  s ∈ normalizeStringEntries l <-> exists e, e ∈ l /\ s = trim (text_of e) /\ s <> [].
Proof.
  unfold normalizeStringEntries. rewrite list_elem_of_In, filter_In, <- list_elem_of_In, list_elem_of_fmap.
  rewrite truthy_spec. split.
  - intros [(e & -> & He) Hne]. rewrite normalized_text in *. by exists e.
  - intros (e & He & -> & Hne). split; [|done]. exists e. by rewrite normalized_text.
Qed.

Lemma normalizeStringEntries_normal `{ToText A} (l : list A) : Forall normal_entry (normalizeStringEntries l).
Proof.
  apply Forall_forall. intros s (e & _ & -> & Hne)%elem_of_normalizeStringEntries.
  split; [apply trim_idem|done].
Qed.

Lemma normalizeStringEntries_id (l : list jstr) : Forall normal_entry l -> normalizeStringEntries l = l.
Proof.
  induction 1 as [|s l [Hs Hne] _ IH]; [done|]. unfold normalizeStringEntries in *.
  rewrite fmap_cons, normalized_text. cbn [List.filter]. unfold text_of at 1, text_of_string.
  rewrite Hs, (proj2 (truthy_spec s) Hne). by f_equal.
Qed.

(** Normalising a second time changes nothing. *)
Lemma normalizeStringEntries_idem `{ToText A} (l : list A) :
  normalizeStringEntries (normalizeStringEntries l) = normalizeStringEntries l.
Proof. apply normalizeStringEntries_id, normalizeStringEntries_normal. Qed.

Lemma normalizeStringEntries_app `{ToText A} (l k : list A) :
  normalizeStringEntries (l ++ k) = normalizeStringEntries l ++ normalizeStringEntries k.
Proof. unfold normalizeStringEntries. by rewrite fmap_app, List.filter_app. Qed.

Lemma elem_of_uniqueStrings s l : s ∈ uniqueStrings l <-> s ∈ l.
Proof. apply elem_of_js_set. Qed.

Lemma uniqueStrings_nil l : uniqueStrings l = [] <-> l = [].
Proof.
  split; [|by intros ->]. destruct l as [|x l]; [done|]. intros E.
  assert (x ∈ uniqueStrings (x :: l)) as H by (apply elem_of_uniqueStrings; by left).
  rewrite E in H. by apply not_elem_of_nil in H.
Qed.

#[export] Hint Rewrite @normalizeStringEntries_idem : js.

(** A reference parses to the name it was written with, and nothing else
    parses. *)
Lemma parse_access_group_spec entry name :
  parseAccessGroupAllowFromEntry entry = Some name <->
  exists rest, trim entry = ACCESS_GROUP_ALLOW_FROM_PREFIX ++ rest /\ name = trim rest /\ name <> [].
Proof.
  unfold parseAccessGroupAllowFromEntry. set (t := trim entry). clearbody t.
  destruct (starts_with ACCESS_GROUP_ALLOW_FROM_PREFIX t) eqn:E; cbn [negb].
  - apply starts_with_spec in E as [rest ->]. rewrite drop_app_length.
    destruct (truthy (trim rest)) eqn:Ht.
    + apply truthy_spec in Ht. split.
      * intros [= <-]. by exists rest.
      * intros (r & Hr%app_inv_head & -> & _). by subst.
    + split; [done|]. intros (r & Hr%app_inv_head & -> & Hne). subst.
      by rewrite (proj2 (truthy_spec _) Hne) in Ht.
  - split; [done|]. intros (rest & -> & _). by rewrite starts_with_app in E.
Qed.

(** The store of paired senders matters to the pairing policy only. *)
Lemma mergeDm_store_unused `{ToText A} (allowFrom s1 s2 : option (list A)) dmPolicy :
  store_unused dmPolicy = true ->
  mergeDmAllowFromSources allowFrom s1 dmPolicy = mergeDmAllowFromSources allowFrom s2 dmPolicy.
Proof. unfold mergeDmAllowFromSources. by intros ->. Qed.
