(* ===== verification/MentionGating.v ===== *)
(** * Commands and mentions

    [src/channels/command-gating.ts] (section 1) and
    [src/channels/mention-gating.ts] (section 2): whether a sender may give a
    control command, and whether a message of a group is meant for the agent. *)
From S2P Require Import Prelude JsMap.
#[local] Open Scope nat_scope.

(** ** 1. Commands *)

Record CommandAuthorizer := { ca_configured : bool; ca_allowed : bool }.

Inductive CommandGatingModeWhenAccessGroupsOff := ModeAllow | ModeDeny | ModeConfigured.

#[global] Instance command_mode_eq_dec : EqDecision CommandGatingModeWhenAccessGroupsOff.
Proof. solve_decision. Defined.

Definition any_authorizes (authorizers : list CommandAuthorizer) : bool :=
  existsb (fun entry => ca_configured entry && ca_allowed entry) authorizers.

Definition resolveCommandAuthorizedFromAuthorizers (useAccessGroups : bool)
    (authorizers : list CommandAuthorizer)
    (modeWhenAccessGroupsOff : option CommandGatingModeWhenAccessGroupsOff) : bool :=
  let mode := default ModeAllow modeWhenAccessGroupsOff in
  if negb useAccessGroups then
    match mode with
    | ModeAllow => true
    | ModeDeny => false
    | ModeConfigured =>
        let anyConfigured := existsb ca_configured authorizers in
        if negb anyConfigured then true else any_authorizes authorizers
    end
  else any_authorizes authorizers.

Record ControlCommandGate := { cg_commandAuthorized : bool; cg_shouldBlock : bool }.

Definition resolveControlCommandGate (useAccessGroups : bool) (authorizers : list CommandAuthorizer)
    (allowTextCommands hasControlCommand : bool)
    (modeWhenAccessGroupsOff : option CommandGatingModeWhenAccessGroupsOff) : ControlCommandGate :=
  let commandAuthorized :=
    resolveCommandAuthorizedFromAuthorizers useAccessGroups authorizers modeWhenAccessGroupsOff in
  {| cg_commandAuthorized := commandAuthorized;
     cg_shouldBlock := allowTextCommands && hasControlCommand && negb commandAuthorized |}.

Definition resolveDualTextControlCommandGate
    (useAccessGroups primaryConfigured primaryAllowed secondaryConfigured secondaryAllowed hasControlCommand : bool)
    (modeWhenAccessGroupsOff : option CommandGatingModeWhenAccessGroupsOff) : ControlCommandGate :=
  resolveControlCommandGate useAccessGroups
    [{| ca_configured := primaryConfigured; ca_allowed := primaryAllowed |};
     {| ca_configured := secondaryConfigured; ca_allowed := secondaryAllowed |}]
    true hasControlCommand modeWhenAccessGroupsOff.

(** ** 2. Mentions *)

Inductive InboundImplicitMentionKind := ReplyToBot | QuotedBot | BotThreadParticipant | Native.

#[global] Instance mention_kind_eq_dec : EqDecision InboundImplicitMentionKind.
Proof. solve_decision. Defined.

Record InboundMentionFacts := {
  mf_canDetectMention : bool;
  mf_wasMentioned : bool;
  mf_hasAnyMention : option bool;
  mf_implicitMentionKinds : option (list InboundImplicitMentionKind);
}.

Record InboundMentionPolicy := {
  mp_isGroup : bool;
  mp_requireMention : bool;
  mp_allowedImplicitMentionKinds : option (list InboundImplicitMentionKind);
  mp_allowTextCommands : bool;
  mp_hasControlCommand : bool;
  mp_commandAuthorized : bool;
}.

Record InboundMentionDecision := {
  md_implicitMention : bool;
  md_matchedImplicitMentionKinds : list InboundImplicitMentionKind;
  md_effectiveWasMentioned : bool;
  md_shouldBypassMention : bool;
  md_shouldSkip : bool;
}.

Definition implicitMentionKindWhen (kind : InboundImplicitMentionKind) (enabled : bool)
    : list InboundImplicitMentionKind :=
  if enabled then [kind] else [].

(** The loop over [inputKinds], with [matched] as accumulator. *)
Fixpoint match_kinds (allowedKinds : option (list InboundImplicitMentionKind))
    (inputKinds matched : list InboundImplicitMentionKind) : list InboundImplicitMentionKind :=
  match inputKinds with
  | [] => matched
  | kind :: inputKinds =>
      let skip := match allowedKinds with Some allowed => negb (includes kind allowed) | None => false end in
      if skip then match_kinds allowedKinds inputKinds matched
      else match_kinds allowedKinds inputKinds
             (if includes kind matched then matched else matched ++ [kind])
  end.

Definition resolveMatchedImplicitMentionKinds
    (implicitMentionKinds allowedImplicitMentionKinds : option (list InboundImplicitMentionKind))
    : list InboundImplicitMentionKind :=
  match_kinds (js_set <$> allowedImplicitMentionKinds) (default [] implicitMentionKinds) [].

Definition resolveMentionDecisionCore (requireMention canDetectMention wasMentioned : bool)
    (implicitMentionKinds allowedImplicitMentionKinds : option (list InboundImplicitMentionKind))
    (shouldBypassMention : bool) : InboundMentionDecision :=
  let matchedImplicitMentionKinds :=
    resolveMatchedImplicitMentionKinds implicitMentionKinds allowedImplicitMentionKinds in
  let implicitMention := 0 <? length matchedImplicitMentionKinds in
  let effectiveWasMentioned := wasMentioned || implicitMention || shouldBypassMention in
  {| md_implicitMention := implicitMention;
     md_matchedImplicitMentionKinds := matchedImplicitMentionKinds;
     md_effectiveWasMentioned := effectiveWasMentioned;
     md_shouldBypassMention := shouldBypassMention;
     md_shouldSkip := requireMention && canDetectMention && negb effectiveWasMentioned |}.

Definition resolveInboundMentionDecision (facts : InboundMentionFacts) (policy : InboundMentionPolicy)
    : InboundMentionDecision :=
  let shouldBypassMention :=
    mp_isGroup policy && mp_requireMention policy && negb (mf_wasMentioned facts) &&
    negb (default false (mf_hasAnyMention facts)) && mp_allowTextCommands policy &&
    mp_commandAuthorized policy && mp_hasControlCommand policy in
  resolveMentionDecisionCore (mp_requireMention policy) (mf_canDetectMention facts) (mf_wasMentioned facts)
    (mf_implicitMentionKinds facts) (mp_allowedImplicitMentionKinds policy) shouldBypassMention.

Record MentionGateResult := { mg_effectiveWasMentioned : bool; mg_shouldSkip : bool }.

Definition resolveMentionGating (requireMention canDetectMention wasMentioned : bool)
    (implicitMention shouldBypassMention : option bool) : MentionGateResult :=
  let result :=
    resolveMentionDecisionCore requireMention canDetectMention wasMentioned
      (Some (implicitMentionKindWhen Native (bool_decide (implicitMention = Some true)))) None
      (bool_decide (shouldBypassMention = Some true)) in
  {| mg_effectiveWasMentioned := md_effectiveWasMentioned result; mg_shouldSkip := md_shouldSkip result |}.

Definition resolveMentionGatingWithBypass
    (isGroup requireMention canDetectMention wasMentioned : bool) (implicitMention hasAnyMention : option bool)
    (allowTextCommands hasControlCommand commandAuthorized : bool) : MentionGateResult * bool :=
  let result :=
    resolveInboundMentionDecision
      {| mf_canDetectMention := canDetectMention; mf_wasMentioned := wasMentioned;
         mf_hasAnyMention := hasAnyMention;
         mf_implicitMentionKinds :=
           Some (implicitMentionKindWhen Native (bool_decide (implicitMention = Some true))) |}
      {| mp_isGroup := isGroup; mp_requireMention := requireMention; mp_allowedImplicitMentionKinds := None;
         mp_allowTextCommands := allowTextCommands; mp_hasControlCommand := hasControlCommand;
         mp_commandAuthorized := commandAuthorized |} in
  ({| mg_effectiveWasMentioned := md_effectiveWasMentioned result; mg_shouldSkip := md_shouldSkip result |},
   md_shouldBypassMention result).

(** ** Laws *)

Lemma elem_of_match_kinds allowed kinds matched k :
  k ∈ match_kinds allowed kinds matched <->
  k ∈ matched \/ (k ∈ kinds /\ match allowed with Some a => k ∈ a | None => True end).
Proof.
  revert matched. induction kinds as [|x kinds IH]; intros matched; cbn [match_kinds]; [set_solver|].
  assert (forall (a : list InboundImplicitMentionKind), includes x a = true <-> x ∈ a) as Hin by (intros; apply includes_spec).
  assert (k ∈ (if includes x matched then matched else matched ++ [x]) <-> k ∈ matched \/ k = x) as Hx.
  { destruct (includes x matched) eqn:E; [apply Hin in E|]; set_solver. }
  destruct allowed as [a|].
  - destruct (includes x a) eqn:E; cbn [negb]; rewrite IH, ?Hx; [apply Hin in E; set_solver|].
    assert (x ∉ a) by (rewrite <- Hin; congruence). set_solver.
  - rewrite IH, Hx. set_solver.
Qed.

(** The implicit mentions of a message that the policy lets count. *)
Definition counts_as_mention (facts : InboundMentionFacts) (policy : InboundMentionPolicy)
    (k : InboundImplicitMentionKind) : Prop :=
  k ∈ default [] (mf_implicitMentionKinds facts) /\
  match mp_allowedImplicitMentionKinds policy with Some allowed => k ∈ allowed | None => True end.

Lemma matched_kinds_spec facts policy k :
  k ∈ resolveMatchedImplicitMentionKinds (mf_implicitMentionKinds facts) (mp_allowedImplicitMentionKinds policy)
  <-> counts_as_mention facts policy k.
Proof.
  unfold resolveMatchedImplicitMentionKinds, counts_as_mention. rewrite elem_of_match_kinds.
  destruct (mp_allowedImplicitMentionKinds policy) as [a|]; cbn; rewrite ?elem_of_js_set; set_solver.
Qed.

Lemma implicit_mention_spec facts policy :
  (0 <? length (resolveMatchedImplicitMentionKinds (mf_implicitMentionKinds facts)
                  (mp_allowedImplicitMentionKinds policy))) = true <->
  exists k, counts_as_mention facts policy k.
Proof.
  rewrite Nat.ltb_lt. split.
  - intros H. destruct (resolveMatchedImplicitMentionKinds _ _) as [|k l] eqn:E; [cbn in H; lia|].
    exists k. apply matched_kinds_spec. rewrite E. by left.
  - intros [k Hk%matched_kinds_spec]. destruct (resolveMatchedImplicitMentionKinds _ _); [set_solver|cbn; lia].
Qed.

(** The message is ignored exactly when a mention is required, can be detected
    and is missing: neither written, nor implied by an allowed kind, nor
    replaced by a control command. *)
Theorem mention_skip_spec facts policy :
  md_shouldSkip (resolveInboundMentionDecision facts policy) = true <->
  mp_requireMention policy = true /\ mf_canDetectMention facts = true /\
  mf_wasMentioned facts = false /\ ~ (exists k, counts_as_mention facts policy k) /\
  ~ (mp_isGroup policy = true /\ mf_hasAnyMention facts <> Some true /\
     mp_allowTextCommands policy = true /\ mp_commandAuthorized policy = true /\
     mp_hasControlCommand policy = true).
Proof.
  rewrite <- implicit_mention_spec. unfold resolveInboundMentionDecision, resolveMentionDecisionCore.
  set (implied := 0 <? length (resolveMatchedImplicitMentionKinds (mf_implicitMentionKinds facts)
                                (mp_allowedImplicitMentionKinds policy))).
  clearbody implied. cbn.
  destruct implied, (mp_requireMention policy), (mf_canDetectMention facts), (mf_wasMentioned facts),
    (mp_isGroup policy), (mp_allowTextCommands policy), (mp_commandAuthorized policy),
    (mp_hasControlCommand policy), (mf_hasAnyMention facts) as [[]|]; cbn; naive_solver.
Qed.

(** An implied mention is no reported bypass. *)
Lemma implied_mention_is_no_bypass facts policy :
  mp_hasControlCommand policy = false ->
  md_shouldBypassMention (resolveInboundMentionDecision facts policy) = false.
Proof. intros E. cbn. rewrite E. by rewrite andb_false_r. Qed.
