(* ===== verification/IngressState.v ===== *)
(** * The state of an inbound event

    [src/channels/message-access/types.ts] (section 1) and [state.ts]
    (sections 2 and 3): the allow lists, access groups, routes and origin of an
    event, normalised and matched against its sender.

    A channel normalises entries and matches senders through an adapter, the
    class [IngressAdapter].  The functions are asynchronous in the code; an
    adapter is a function, so that the order in which the parts resolve does not
    matter, and one that rejects is out of scope.  Identifiers are strings, and
    precedences integers; [localeCompare] is a parameter. *)
From S2P Require Import Prelude JsString JsMap AllowFrom MentionGating.
#[local] Open Scope nat_scope.

(** ** 1. Data *)

Inductive Sensitivity := SensitivityNormal | SensitivityPii.

(** Raw identity material of a sender. *)
Record InternalMatchMaterial := {
  im_opaqueId : jstr;
  im_kind : jstr;
  im_dangerous : option bool;
  im_sensitivity : option Sensitivity;
  im_value : jstr;
}.

Record InternalChannelIngressSubject := { sub_identifiers : list InternalMatchMaterial }.

(** A normalised entry of an allow list, without its value. *)
Record ChannelIngressNormalizedEntry := {
  ne_opaqueEntryId : jstr;
  ne_kind : jstr;
  ne_dangerous : option bool;
  ne_sensitivity : option Sensitivity;
}.

Record InternalNormalizedEntry := { ie_entry : ChannelIngressNormalizedEntry; ie_value : jstr }.

Inductive IngressReasonCode :=
  | Allowed | RouteBlocked | RouteSenderEmpty
  | DmPolicyDisabled | DmPolicyOpen | DmPolicyAllowlisted | DmPolicyPairingRequired | DmPolicyNotAllowlisted
  | GroupPolicyDisabled | GroupPolicyOpen | GroupPolicyAllowed | GroupPolicyEmptyAllowlist
  | GroupPolicyNotAllowlisted
  | CommandAuthorized | ControlCommandUnauthorized
  | EventAuthorized | EventUnauthorized | EventPairingNotAllowed
  | SenderNotRequired | OriginSubjectMissing | OriginSubjectNotMatched
  | ActivationAllowed | ActivationSkipped
  | AccessGroupMissing | AccessGroupUnsupported | AccessGroupFailed
  | MutableIdentifierDisabled | NoPolicyMatch.

#[global] Instance reason_code_eq_dec : EqDecision IngressReasonCode.
Proof. solve_decision. Defined.

Record IngressEntryDiagnostic := { ed_opaqueEntryId : option jstr; ed_reasonCode : IngressReasonCode }.

Record IngressMatch := { matched : bool; matchedEntryIds : list jstr }.

Record NormalizeResult := {
  nr_matchable : list InternalNormalizedEntry;
  nr_invalid : list IngressEntryDiagnostic;
  nr_disabled : list IngressEntryDiagnostic;
}.

Inductive MatchContext := DmContext | GroupContext | RouteContext | CommandContext.

(** What a channel gives. *)
Class IngressAdapter := {
  normalizeEntries : list jstr -> MatchContext -> jstr -> NormalizeResult;
  matchSubject : InternalChannelIngressSubject -> list InternalNormalizedEntry -> MatchContext -> IngressMatch;
}.

(** What a channel promises: entries are normalised one by one, and a match
    names the entries that hit. *)
Class IngressAdapterSpec (A : IngressAdapter) := {
  entry_of : jstr -> InternalNormalizedEntry -> Prop;
  entry_hits : InternalChannelIngressSubject -> InternalNormalizedEntry -> MatchContext -> bool;
  normalizeEntries_of entries context accountId e :
    e ∈ nr_matchable (normalizeEntries entries context accountId) -> exists raw, raw ∈ entries /\ entry_of raw e;
  matchSubject_hits subject entries context :
    let ids := (fun e => ne_opaqueEntryId (ie_entry e)) <$> List.filter (fun e => entry_hits subject e context) entries in
    matchSubject subject entries context = {| matched := 0 <? length ids; matchedEntryIds := ids |};
}.

Inductive MembershipSource := Static | Dynamic.
Inductive MembershipFailure := MembershipMissing | MembershipUnsupported | MembershipFailed.

(** [AccessGroupMembershipFact]. *)
Inductive MembershipOutcome :=
  | MembershipMatched (matchedEntryIds : list jstr)
  | MembershipNotMatched
  | MembershipUnknown (kind : MembershipFailure) (reasonCode : IngressReasonCode) (diagnosticId : option jstr).

Record AccessGroupMembershipFact := {
  fact_groupName : jstr;
  fact_source : MembershipSource;
  fact_outcome : MembershipOutcome;
}.

Record ReferencedGroups := {
  ag_referenced : list jstr;
  ag_matched : list jstr;
  ag_missing : list jstr;
  ag_unsupported : list jstr;
  ag_failed : list jstr;
}.

Record ResolvedIngressAllowlist := {
  al_rawEntryCount : nat;
  al_normalizedEntries : list ChannelIngressNormalizedEntry;
  al_invalidEntries : list IngressEntryDiagnostic;
  al_disabledEntries : list IngressEntryDiagnostic;
  al_matchedEntryIds : list jstr;
  al_hasConfiguredEntries : bool;
  al_hasMatchableEntries : bool;
  al_hasWildcard : bool;
  al_accessGroups : ReferencedGroups;
  al_match : IngressMatch;
}.

Inductive RouteKind := KRoute | KRouteSender | KMembership | KOwnerAllowlist | KNestedAllowlist.
Inductive RouteGateState := RouteNotConfigured | RouteMatched | RouteNotMatched | RouteDisabled | RouteLookupFailed.
Inductive RouteEffect := RouteAllow | RouteBlockDispatch | RouteIgnore.
Inductive RouteSenderPolicy := Inherit | Replace | DenyWhenEmpty.
Inductive RouteSenderAllowlistSource := EffectiveDm | EffectiveGroup.

#[global] Instance route_gate_state_eq_dec : EqDecision RouteGateState.
Proof. solve_decision. Defined.

#[global] Instance route_sender_policy_eq_dec : EqDecision RouteSenderPolicy.
Proof. solve_decision. Defined.

Record RouteGateFacts := {
  rf_id : jstr;
  rf_kind : RouteKind;
  rf_gate : RouteGateState;
  rf_effect : RouteEffect;
  rf_precedence : Z;
  rf_senderPolicy : RouteSenderPolicy;
  rf_senderAllowFrom : option (list list_entry);
  rf_senderAllowFromSource : option RouteSenderAllowlistSource;
  rf_match : option IngressMatch;
}.

Record ResolvedRouteGateFacts := {
  rr_id : jstr;
  rr_kind : RouteKind;
  rr_gate : RouteGateState;
  rr_effect : RouteEffect;
  rr_precedence : Z;
  rr_senderPolicy : RouteSenderPolicy;
  rr_match : option IngressMatch;
  rr_senderAllowlist : option ResolvedIngressAllowlist;
}.

Inductive EventKind := EvMessage | EvReaction | EvButton | EvPostback | EvNativeCommand | EvSlashCommand | EvSystem.
Inductive EventAuthMode := AuthInbound | AuthCommand | AuthOriginSubject | AuthRouteOnly | AuthNone.

#[global] Instance auth_mode_eq_dec : EqDecision EventAuthMode.
Proof. solve_decision. Defined.

Record ChannelIngressEventInput := {
  ei_kind : EventKind;
  ei_authMode : EventAuthMode;
  ei_mayPair : bool;
  ei_originSubject : option InternalChannelIngressSubject;
}.

Record RedactedChannelIngressEvent := {
  ev_kind : EventKind;
  ev_authMode : EventAuthMode;
  ev_mayPair : bool;
  ev_hasOriginSubject : bool;
  ev_originSubjectMatched : bool;
}.

(** [src/config/types.access-groups.ts]. *)
Inductive AccessGroupConfig :=
  | DiscordChannelAudience (guildId channelId : jstr)
  | MessageSenders (members : list (jstr * list jstr)).

Inductive ConversationKind := Direct | Group | Channel.

#[global] Instance conversation_kind_eq_dec : EqDecision ConversationKind.
Proof. solve_decision. Defined.

Record IngressAllowlistsInput := {
  in_dm : option (list list_entry);
  in_group : option (list list_entry);
  in_commandOwner : option (list list_entry);
  in_commandGroup : option (list list_entry);
  in_pairingStore : option (list list_entry);
}.

Record ChannelIngressStateInput := {
  si_channelId : jstr;
  si_accountId : jstr;
  si_subject : InternalChannelIngressSubject;
  si_conversationKind : ConversationKind;
  si_accessGroups : option (list (jstr * AccessGroupConfig));
  si_accessGroupMembership : option (list AccessGroupMembershipFact);
  si_routeFacts : option (list RouteGateFacts);
  si_mentionFacts : option InboundMentionFacts;
  si_event : ChannelIngressEventInput;
  si_allowlists : IngressAllowlistsInput;
}.

Record IngressAllowlists := {
  als_dm : ResolvedIngressAllowlist;
  als_pairingStore : ResolvedIngressAllowlist;
  als_group : ResolvedIngressAllowlist;
  als_commandOwner : ResolvedIngressAllowlist;
  als_commandGroup : ResolvedIngressAllowlist;
}.

Record ChannelIngressState := {
  st_channelId : jstr;
  st_accountId : jstr;
  st_conversationKind : ConversationKind;
  st_event : RedactedChannelIngressEvent;
  st_mentionFacts : option InboundMentionFacts;
  st_routeFacts : list ResolvedRouteGateFacts;
  st_allowlists : IngressAllowlists;
}.

(** ** 2. Allow lists *)

Definition redactedEntries (entries : list InternalNormalizedEntry) : list ChannelIngressNormalizedEntry :=
  ie_entry <$> entries.

Definition emptyMatch : IngressMatch := {| matched := false; matchedEntryIds := [] |}.

Definition mergeMatches (matches : list IngressMatch) : IngressMatch :=
  let ids := uniqueStrings (matches ≫= matchedEntryIds) in
  {| matched := existsb matched matches || (0 <? length ids); matchedEntryIds := ids |}.

Definition mergeDiagnostics (groups : list (option (list IngressEntryDiagnostic))) : list IngressEntryDiagnostic :=
  groups ≫= default [].

Definition accessGroupFactByName (facts : option (list AccessGroupMembershipFact))
    : list (jstr * AccessGroupMembershipFact) :=
  fold_left (fun m fact => jm_set (fact_groupName fact) fact m) (default [] facts) [].

Definition referencedAccessGroups (entries : list jstr) : list jstr :=
  js_set (omap parseAccessGroupAllowFromEntry entries).

Definition directAllowlistEntries (entries : list jstr) : list jstr :=
  List.filter (fun entry => bool_decide (parseAccessGroupAllowFromEntry entry = None)) entries.

(** The configuration of groups is a plain object: it also has the members that
    every object inherits, which are groups of no type.  (Channel ids are no
    such names.) *)
Inductive group_value := ConfiguredGroup (group : AccessGroupConfig) | InheritedMember.

Definition access_group (accessGroups : option (list (jstr * AccessGroupConfig))) (name : jstr)
    : option group_value :=
  match accessGroups with
  | None => None
  | Some groups =>
      match jm_get name groups with
      | Some group => Some (ConfiguredGroup group)
      | None => if includes name object_members then Some InheritedMember else None
      end
  end.

Definition group_members (channelId : jstr) (group : option group_value) : list jstr :=
  match group with
  | Some (ConfiguredGroup (MessageSenders members)) =>
      normalizeStringEntries (default [] (jm_get (lit "*") members) ++ default [] (jm_get channelId members))
  | _ => []
  end.

Definition groupSenderEntries (groupName : jstr) (input : ChannelIngressStateInput) : list jstr :=
  group_members (si_channelId input) (access_group (si_accessGroups input) groupName).

Definition eventSubjectMatchContext (input : ChannelIngressStateInput) : MatchContext :=
  if bool_decide (si_conversationKind input = Direct) then DmContext else GroupContext.

(** The result of [normalizeAndMatch], and of the loop over groups. *)
Record NormalizedMatch := {
  nm_normalizedEntries : list ChannelIngressNormalizedEntry;
  nm_invalidEntries : list IngressEntryDiagnostic;
  nm_disabledEntries : list IngressEntryDiagnostic;
  nm_match : IngressMatch;
}.

Record GroupScan := {
  gs_normalizedEntries : list ChannelIngressNormalizedEntry;
  gs_invalidEntries : list IngressEntryDiagnostic;
  gs_disabledEntries : list IngressEntryDiagnostic;
  gs_matches : list IngressMatch;
  gs_accessGroups : ReferencedGroups;
}.

Definition push_matched (name : jstr) (g : ReferencedGroups) : ReferencedGroups :=
  {| ag_referenced := ag_referenced g; ag_matched := ag_matched g ++ [name]; ag_missing := ag_missing g;
     ag_unsupported := ag_unsupported g; ag_failed := ag_failed g |}.

(** [accessGroups[fact.kind].push(groupName)]. *)
Definition push_unknown (kind : MembershipFailure) (name : jstr) (g : ReferencedGroups) : ReferencedGroups :=
  {| ag_referenced := ag_referenced g; ag_matched := ag_matched g;
     ag_missing := ag_missing g ++ (if kind is MembershipMissing then [name] else []);
     ag_unsupported := ag_unsupported g ++ (if kind is MembershipUnsupported then [name] else []);
     ag_failed := ag_failed g ++ (if kind is MembershipFailed then [name] else []) |}.

Section state.
  Context {A : IngressAdapter}.
  Context (localeCompare : jstr -> jstr -> Z).

Definition normalizeAndMatch (subject : InternalChannelIngressSubject) (accountId : jstr)
      (entries : list jstr) (context : MatchContext) : NormalizedMatch :=
    match entries with
    | [] => {| nm_normalizedEntries := []; nm_invalidEntries := []; nm_disabledEntries := [];
               nm_match := emptyMatch |}
    | _ =>
        let normalized := normalizeEntries entries context accountId in
        let m := match nr_matchable normalized with
                 | [] => emptyMatch
                 | matchable => matchSubject subject matchable context
                 end in
        {| nm_normalizedEntries := redactedEntries (nr_matchable normalized);
           nm_invalidEntries := nr_invalid normalized;
           nm_disabledEntries := nr_disabled normalized;
           nm_match := m |}
    end.

  (** One turn of the loop of [resolveAccessGroupEntries]. *)
Definition scan_group (input : ChannelIngressStateInput) (context : MatchContext)
      (factByName : list (jstr * AccessGroupMembershipFact)) (scan : GroupScan) (groupName : jstr) : GroupScan :=
    let on_groups f m :=
      {| gs_normalizedEntries := gs_normalizedEntries scan; gs_invalidEntries := gs_invalidEntries scan;
         gs_disabledEntries := gs_disabledEntries scan; gs_matches := gs_matches scan ++ m;
         gs_accessGroups := f (gs_accessGroups scan) |} in
    match fact_outcome <$> jm_get groupName factByName with
    | Some (MembershipMatched ids) =>
        on_groups (push_matched groupName) [{| matched := true; matchedEntryIds := ids |}]
    | Some (MembershipUnknown kind _ _) => on_groups (push_unknown kind groupName) []
    | Some MembershipNotMatched => scan
    | None =>
        match access_group (si_accessGroups input) groupName with
        | None => on_groups (push_unknown MembershipMissing groupName) []
        | Some (ConfiguredGroup (MessageSenders _)) =>
            let resolved :=
              normalizeAndMatch (si_subject input) (si_accountId input) (groupSenderEntries groupName input)
                context in
            let hit := matched (nm_match resolved) in
            {| gs_normalizedEntries := gs_normalizedEntries scan ++ nm_normalizedEntries resolved;
               gs_invalidEntries := gs_invalidEntries scan ++ nm_invalidEntries resolved;
               gs_disabledEntries := gs_disabledEntries scan ++ nm_disabledEntries resolved;
               gs_matches := gs_matches scan ++ (if hit then [nm_match resolved] else []);
               gs_accessGroups :=
                 if hit then push_matched groupName (gs_accessGroups scan) else gs_accessGroups scan |}
        | Some _ => on_groups (push_unknown MembershipUnsupported groupName) []
        end
    end.

Definition start_scan (referenced : list jstr) : GroupScan :=
    {| gs_normalizedEntries := []; gs_invalidEntries := []; gs_disabledEntries := []; gs_matches := [];
       gs_accessGroups := {| ag_referenced := referenced; ag_matched := []; ag_missing := [];
                             ag_unsupported := []; ag_failed := [] |} |}.

Definition resolveAccessGroupEntries (input : ChannelIngressStateInput) (context : MatchContext)
      (referenced : list jstr) : GroupScan :=
    let factByName := accessGroupFactByName (si_accessGroupMembership input) in
    fold_left (scan_group input context factByName) referenced (start_scan referenced).

Definition resolveIngressAllowlist (input : ChannelIngressStateInput) (rawEntries : option (list list_entry))
      (context : MatchContext) : ResolvedIngressAllowlist :=
    let entries := normalizeStringEntries (default [] rawEntries) in
    let referenced := referencedAccessGroups entries in
    let directEntries := directAllowlistEntries entries in
    let direct := normalizeAndMatch (si_subject input) (si_accountId input) directEntries context in
    let groups := resolveAccessGroupEntries input context referenced in
    let m := mergeMatches (nm_match direct :: gs_matches groups) in
    {| al_rawEntryCount := length entries;
       al_normalizedEntries := nm_normalizedEntries direct ++ gs_normalizedEntries groups;
       al_invalidEntries := mergeDiagnostics [Some (nm_invalidEntries direct); Some (gs_invalidEntries groups)];
       al_disabledEntries := mergeDiagnostics [Some (nm_disabledEntries direct); Some (gs_disabledEntries groups)];
       al_matchedEntryIds := matchedEntryIds m;
       al_hasConfiguredEntries := 0 <? length entries;
       al_hasMatchableEntries :=
         (0 <? length (nm_normalizedEntries direct)) || (0 <? length (gs_normalizedEntries groups));
       al_hasWildcard := includes (lit "*") directEntries;
       al_accessGroups := gs_accessGroups groups;
       al_match := m |}.

  (** ** 3. The state *)

Definition normalizeSubjectIdentifiersForMatch (input : ChannelIngressStateInput)
      (subject : InternalChannelIngressSubject) (context : MatchContext) (opaquePrefix : jstr)
      : list InternalNormalizedEntry :=
    mjoin (imap (fun identifierIndex identifier =>
      let entries := normalizeEntries [im_value identifier] context (si_accountId input) in
      let own := List.filter (fun entry =>
        bool_decide (ne_kind (ie_entry entry) = im_kind identifier) &&
        negb (bool_decide (ie_value entry = lit "*"))) (nr_matchable entries) in
      imap (fun entryIndex entry =>
        {| ie_entry :=
             {| ne_opaqueEntryId :=
                  opaquePrefix ++ lit "-" ++ Normalization.js_number_string (Z.of_nat (identifierIndex + 1)) ++
                  lit ":" ++ Normalization.js_number_string (Z.of_nat (entryIndex + 1));
                ne_kind := ne_kind (ie_entry entry); ne_dangerous := ne_dangerous (ie_entry entry);
                ne_sensitivity := ne_sensitivity (ie_entry entry) |};
           ie_value := ie_value entry |}) own) (sub_identifiers subject)).

Definition same_identifier (a b : InternalMatchMaterial) : bool :=
    bool_decide (im_kind a = im_kind b) && bool_decide (im_value a = im_value b).

Definition originSubjectMatched (input : ChannelIngressStateInput) : bool :=
    match ei_originSubject (si_event input) with
    | None => false
    | Some origin =>
        if existsb (fun identifier =>
             existsb (fun current => same_identifier current identifier) (sub_identifiers (si_subject input)))
             (sub_identifiers origin)
        then true
        else
          let context := eventSubjectMatchContext input in
          let originEntries := normalizeSubjectIdentifiersForMatch input origin context (lit "origin") in
          let currentMatch :=
            match originEntries with
            | [] => false
            | _ => matched (matchSubject (si_subject input) originEntries context)
            end in
          if currentMatch then true
          else
            match normalizeSubjectIdentifiersForMatch input (si_subject input) context (lit "current") with
            | [] => false
            | currentEntries => matched (matchSubject origin currentEntries context)
            end
    end.

(** [left.precedence - right.precedence || left.id.localeCompare(right.id)]. *)
Definition route_before (left right : RouteGateFacts) : bool :=
    let d := (rf_precedence left - rf_precedence right)%Z in
    if (d =? 0)%Z then (localeCompare (rf_id left) (rf_id right) <=? 0)%Z else (d <=? 0)%Z.

Definition route_sender_entries (input : ChannelIngressStateInput) (route : RouteGateFacts)
      : option (list list_entry) :=
    match rf_senderAllowFrom route with
    | Some entries => Some entries
    | None =>
        match rf_senderAllowFromSource route with
        | Some EffectiveDm => in_dm (si_allowlists input)
        | Some EffectiveGroup => in_group (si_allowlists input)
        | None => None
        end
    end.

Definition resolve_route_fact (input : ChannelIngressStateInput) (route : RouteGateFacts)
      : ResolvedRouteGateFacts :=
    {| rr_id := rf_id route; rr_kind := rf_kind route; rr_gate := rf_gate route; rr_effect := rf_effect route;
       rr_precedence := rf_precedence route; rr_senderPolicy := rf_senderPolicy route;
       rr_match := rf_match route;
       rr_senderAllowlist :=
         (fun senderAllowFrom => resolveIngressAllowlist input (Some senderAllowFrom) RouteContext)
           <$> route_sender_entries input route |}.

Definition resolveRouteFacts (input : ChannelIngressStateInput) : list ResolvedRouteGateFacts :=
    resolve_route_fact input <$> stable_sort route_before (default [] (si_routeFacts input)).

Definition resolveChannelIngressState (input : ChannelIngressStateInput) : ChannelIngressState :=
    let lists := si_allowlists input in
    let event := si_event input in
    {| st_channelId := si_channelId input;
       st_accountId := si_accountId input;
       st_conversationKind := si_conversationKind input;
       st_event :=
         {| ev_kind := ei_kind event; ev_authMode := ei_authMode event; ev_mayPair := ei_mayPair event;
            ev_hasOriginSubject := bool_decide (is_Some (ei_originSubject event));
            ev_originSubjectMatched := originSubjectMatched input |};
       st_mentionFacts := si_mentionFacts input;
       st_routeFacts := resolveRouteFacts input;
       st_allowlists :=
         {| als_dm := resolveIngressAllowlist input (in_dm lists) DmContext;
            als_pairingStore := resolveIngressAllowlist input (in_pairingStore lists) DmContext;
            als_group := resolveIngressAllowlist input (in_group lists) GroupContext;
            als_commandOwner := resolveIngressAllowlist input (in_commandOwner lists) CommandContext;
            als_commandGroup := resolveIngressAllowlist input (in_commandGroup lists) CommandContext |} |}.
End state.

(** ** Laws *)

Lemma mergeMatches_ids id matches :
  id ∈ matchedEntryIds (mergeMatches matches) <-> exists m, m ∈ matches /\ id ∈ matchedEntryIds m.
Proof. cbn. rewrite elem_of_uniqueStrings, list_elem_of_bind. naive_solver. Qed.

Lemma mergeMatches_matched matches :
  matched (mergeMatches matches) = true <->
  exists m, m ∈ matches /\ (matched m = true \/ matchedEntryIds m <> []).
Proof.
  unfold mergeMatches. cbn [matched]. rewrite orb_true_iff, existsb_exists, Nat.ltb_lt. split.
  - intros [(m & Hm & E)|H].
    + exists m. rewrite list_elem_of_In. auto.
    + destruct (uniqueStrings (matches ≫= matchedEntryIds)) as [|id l] eqn:E; [cbn in H; lia|].
      assert (id ∈ uniqueStrings (matches ≫= matchedEntryIds)) as Hid by (rewrite E; by left).
      rewrite elem_of_uniqueStrings, list_elem_of_bind in Hid. destruct Hid as (m & Hid & Hm).
      exists m. split; [done|]. right. by intros E'; rewrite E' in Hid; apply not_elem_of_nil in Hid.
  - intros (m & Hm & [E|E]); [left; exists m; by rewrite <- list_elem_of_In|]. right.
    destruct (uniqueStrings (matches ≫= matchedEntryIds)) as [|id l] eqn:Eu; [|cbn; lia].
    apply (proj1 (uniqueStrings_nil _)) in Eu. destruct (matchedEntryIds m) as [|id l] eqn:Em; [done|].
    assert (id ∈ matches ≫= matchedEntryIds) as H by (apply list_elem_of_bind; exists m; split; [|done]; rewrite Em; by left).
    rewrite Eu in H. by apply not_elem_of_nil in H.
Qed.

Lemma elem_of_referenced entries name :
  name ∈ referencedAccessGroups entries <->
  exists entry, entry ∈ entries /\ parseAccessGroupAllowFromEntry entry = Some name.
Proof. unfold referencedAccessGroups. by rewrite elem_of_js_set, list_elem_of_omap. Qed.

Lemma elem_of_direct entries entry :
  entry ∈ directAllowlistEntries entries <-> entry ∈ entries /\ parseAccessGroupAllowFromEntry entry = None.
Proof.
  unfold directAllowlistEntries. by rewrite list_elem_of_In, filter_In, <- list_elem_of_In, bool_decide_eq_true.
Qed.

Section laws.
  Context {A : IngressAdapter}.

  (** What a group adds: its match, and its normalised entries. *)
Definition group_resolved (input : ChannelIngressStateInput) (context : MatchContext) (name : jstr)
      : NormalizedMatch :=
    normalizeAndMatch (si_subject input) (si_accountId input) (groupSenderEntries name input) context.

Definition static_group (input : ChannelIngressStateInput) (name : jstr) : bool :=
    match jm_get name (accessGroupFactByName (si_accessGroupMembership input)) with
    | Some _ => false
    | None => match access_group (si_accessGroups input) name with
              | Some (ConfiguredGroup (MessageSenders _)) => true
              | _ => false
              end
    end.

Definition group_match (input : ChannelIngressStateInput) (context : MatchContext) (name : jstr)
      : option IngressMatch :=
    match fact_outcome <$> jm_get name (accessGroupFactByName (si_accessGroupMembership input)) with
    | Some (MembershipMatched ids) => Some {| matched := true; matchedEntryIds := ids |}
    | _ =>
        if static_group input name && matched (nm_match (group_resolved input context name))
        then Some (nm_match (group_resolved input context name)) else None
    end.

Definition group_entries (input : ChannelIngressStateInput) (context : MatchContext) (name : jstr)
      : list ChannelIngressNormalizedEntry :=
    if static_group input name then nm_normalizedEntries (group_resolved input context name) else [].

Lemma scan_group_adds input context scan name :
    let scan' := scan_group input context (accessGroupFactByName (si_accessGroupMembership input)) scan name in
    gs_matches scan' = gs_matches scan ++ option_list (group_match input context name) /\
    gs_normalizedEntries scan' = gs_normalizedEntries scan ++ group_entries input context name /\
    ag_matched (gs_accessGroups scan') = ag_matched (gs_accessGroups scan) ++
      (if bool_decide (is_Some (group_match input context name)) then [name] else []).
  Proof.
    unfold scan_group, group_match, group_entries, group_resolved, static_group. cbv zeta.
    destruct (jm_get name _) as [[n src [ids| |kind r d]]|]; cbn.
    - by rewrite app_nil_r.
    - by rewrite !app_nil_r.
    - by rewrite !app_nil_r.
    - destruct (access_group _ name) as [[[g c|ms]|]|]; cbn; rewrite ?app_nil_r; [done| |done..].
      destruct (matched _); cbn; by rewrite ?app_nil_r.
  Qed.

Lemma scan_groups_add input context names scan :
    let scan' :=
      fold_left (scan_group input context (accessGroupFactByName (si_accessGroupMembership input))) names scan in
    gs_matches scan' = gs_matches scan ++ omap (group_match input context) names /\
    gs_normalizedEntries scan' = gs_normalizedEntries scan ++ (names ≫= group_entries input context) /\
    ag_matched (gs_accessGroups scan') = ag_matched (gs_accessGroups scan) ++
      List.filter (fun name => bool_decide (is_Some (group_match input context name))) names.
  Proof.
    revert scan. induction names as [|name names IH]; intros scan; cbv zeta; cbn [fold_left].
    - by rewrite !app_nil_r.
    - destruct (IH (scan_group input context (accessGroupFactByName (si_accessGroupMembership input)) scan name))
        as (-> & -> & ->).
      destruct (scan_group_adds input context scan name) as (-> & -> & ->).
      rewrite <- !app_assoc. cbn. destruct (group_match input context name); cbn; by rewrite ?app_nil_r.
  Qed.
End laws.

(** ** What an allow list lets in *)

Section grounds.
  Context {A : IngressAdapter} {S : IngressAdapterSpec A}.

  (** Why a list lets a sender in: a normalised entry, or the membership in a
      group. *)
Inductive ground := ByEntry (e : InternalNormalizedEntry) | ByMembership (name : jstr) (ids : list jstr).

Definition ground_ids (g : ground) : list jstr :=
    match g with ByEntry e => [ne_opaqueEntryId (ie_entry e)] | ByMembership _ ids => ids end.

  (** The lists of strings that an allow list stands for: its direct entries and
      the members of each static group it references. *)
Definition listed (input : ChannelIngressStateInput) (rawEntries : option (list list_entry))
      (strings : list jstr) : Prop :=
    let entries := normalizeStringEntries (default [] rawEntries) in
    strings = directAllowlistEntries entries \/
    exists name, name ∈ referencedAccessGroups entries /\ static_group input name = true /\
                 strings = groupSenderEntries name input.

Definition grounded (input : ChannelIngressStateInput) (context : MatchContext)
      (rawEntries : option (list list_entry)) (g : ground) : Prop :=
    match g with
    | ByEntry e =>
        entry_hits (si_subject input) e context = true /\
        exists strings, listed input rawEntries strings /\
          e ∈ nr_matchable (normalizeEntries strings context (si_accountId input))
    | ByMembership name ids =>
        name ∈ referencedAccessGroups (normalizeStringEntries (default [] rawEntries)) /\
        fact_outcome <$> jm_get name (accessGroupFactByName (si_accessGroupMembership input)) =
          Some (MembershipMatched ids)
    end.

Lemma no_strings_no_entries context accountId : nr_matchable (normalizeEntries [] context accountId) = [].
  Proof.
    destruct (nr_matchable (normalizeEntries [] context accountId)) as [|e es] eqn:E; [done|].
    destruct (normalizeEntries_of [] context accountId e) as (raw & Hr & _); [rewrite E; by left|].
    by apply not_elem_of_nil in Hr.
  Qed.

Lemma normalized_entries_spec subject accountId entries context :
    nm_normalizedEntries (normalizeAndMatch subject accountId entries context) =
      ie_entry <$> nr_matchable (normalizeEntries entries context accountId).
  Proof. destruct entries as [|r l]; [|done]. by rewrite no_strings_no_entries. Qed.

Definition hit_ids (subject : InternalChannelIngressSubject) (context : MatchContext)
      (es : list InternalNormalizedEntry) : list jstr :=
    (fun e => ne_opaqueEntryId (ie_entry e)) <$> List.filter (fun e => entry_hits subject e context) es.

Lemma elem_of_hit_ids subject context es id :
    id ∈ hit_ids subject context es <->
    exists e, e ∈ es /\ entry_hits subject e context = true /\ id = ne_opaqueEntryId (ie_entry e).
  Proof.
    unfold hit_ids. rewrite list_elem_of_fmap. setoid_rewrite list_elem_of_In. setoid_rewrite filter_In.
    naive_solver.
  Qed.

Lemma normalized_match_spec subject accountId entries context :
    nm_match (normalizeAndMatch subject accountId entries context) =
      let ids := hit_ids subject context (nr_matchable (normalizeEntries entries context accountId)) in
      {| matched := 0 <? length ids; matchedEntryIds := ids |}.
  Proof.
    destruct entries as [|r l]; [by rewrite no_strings_no_entries|]. cbn [normalizeAndMatch nm_match].
    destruct (nr_matchable _) as [|e es]; [done|]. apply matchSubject_hits.
  Qed.

Lemma normalized_match_ids subject accountId entries context id :
    id ∈ matchedEntryIds (nm_match (normalizeAndMatch subject accountId entries context)) <->
    exists e, e ∈ nr_matchable (normalizeEntries entries context accountId) /\
              entry_hits subject e context = true /\ id = ne_opaqueEntryId (ie_entry e).
  Proof. rewrite normalized_match_spec. apply elem_of_hit_ids. Qed.

  (** A match is a match of some entry. *)
Lemma normalized_match_matched subject accountId entries context :
    matched (nm_match (normalizeAndMatch subject accountId entries context)) = true <->
    exists id, id ∈ matchedEntryIds (nm_match (normalizeAndMatch subject accountId entries context)).
  Proof.
    rewrite normalized_match_spec. cbn [matched matchedEntryIds]. rewrite Nat.ltb_lt.
    destruct (hit_ids _ _ _) as [|id ids]; cbn; [split; [lia|by intros [id []%not_elem_of_nil]]|].
    split; [|lia]. intros _. exists id. by left.
  Qed.

  (** The grounds of a list account for all it reports. *)
Record explains (P : ground -> Prop) (al : ResolvedIngressAllowlist) : Prop := {
    explains_matched : matched (al_match al) = true <-> exists g, P g;
    explains_ids id : id ∈ al_matchedEntryIds al <-> exists g, P g /\ id ∈ ground_ids g;
    explains_match_ids : matchedEntryIds (al_match al) = al_matchedEntryIds al;
    explains_entries e : P (ByEntry e) -> ie_entry e ∈ al_normalizedEntries al;
  }.

Lemma static_group_no_fact input name ids :
    static_group input name = true ->
    fact_outcome <$> jm_get name (accessGroupFactByName (si_accessGroupMembership input)) <>
      Some (MembershipMatched ids).
  Proof. unfold static_group. by destruct (jm_get name _). Qed.

  (** The grounds that a referenced group gives. *)
Lemma group_match_grounds input context name id :
    (exists m, group_match input context name = Some m /\ id ∈ matchedEntryIds m) <->
    (exists e, static_group input name = true /\ entry_hits (si_subject input) e context = true /\
       e ∈ nr_matchable (normalizeEntries (groupSenderEntries name input) context (si_accountId input)) /\
       id = ne_opaqueEntryId (ie_entry e)) \/
    (exists ids, fact_outcome <$> jm_get name (accessGroupFactByName (si_accessGroupMembership input)) =
       Some (MembershipMatched ids) /\ id ∈ ids).
  Proof.
    unfold group_match.
    destruct (static_group input name) eqn:Es.
    - pose proof (static_group_no_fact input name) as Hno.
      assert (forall m, match fact_outcome <$> jm_get name (accessGroupFactByName (si_accessGroupMembership input)) with
        | Some (MembershipMatched ids) => Some {| matched := true; matchedEntryIds := ids |}
        | _ => m end = m) as -> by (intros m; destruct (fact_outcome <$> _) as [[ids| |]|] eqn:E; [by destruct (Hno ids)|done..]).
      cbn [andb]. fold (group_resolved input context name).
      destruct (matched (nm_match (group_resolved input context name))) eqn:Em.
      + unfold group_resolved. setoid_rewrite (inj_iff Some).
        split; [intros (m & <- & (e & He)%normalized_match_ids); naive_solver|].
        intros [(e & _ & He)|(ids & E & _)]; [|by destruct (Hno ids)].
        eexists. split; [done|]. apply normalized_match_ids. naive_solver.
      + apply not_true_iff_false in Em. unfold group_resolved in Em. rewrite normalized_match_matched in Em.
        split; [naive_solver|]. intros [(e & _ & He)|(ids & E & _)]; [|by destruct (Hno ids)].
        destruct Em. exists id. apply normalized_match_ids. naive_solver.
    - destruct (fact_outcome <$> _) as [[]|]; cbn; naive_solver.
  Qed.

  (** Whether a group matched, in the same terms. *)
Lemma group_match_some input context name :
    is_Some (group_match input context name) <->
    (exists e, static_group input name = true /\ entry_hits (si_subject input) e context = true /\
       e ∈ nr_matchable (normalizeEntries (groupSenderEntries name input) context (si_accountId input))) \/
    (exists ids, fact_outcome <$> jm_get name (accessGroupFactByName (si_accessGroupMembership input)) =
       Some (MembershipMatched ids)).
  Proof.
    split.
    - intros [m Hm]. unfold group_match in Hm.
      destruct (static_group input name && matched (nm_match (group_resolved input context name))) eqn:E.
      + apply andb_true_iff in E as [Hs [id (e & He)%normalized_match_ids]%normalized_match_matched]. left. naive_solver.
      + destruct (fact_outcome <$> _) as [[ids| |]|]; [|done..]. right. by exists ids.
    - intros [(e & He)|[ids E]].
      + destruct (proj2 (group_match_grounds input context name (ne_opaqueEntryId (ie_entry e)))) as (m & -> & _);
          [left; naive_solver|done].
      + unfold group_match. rewrite E. done.
  Qed.

Lemma group_match_is_matched input context name m :
    group_match input context name = Some m -> matched m = true.
  Proof.
    unfold group_match. destruct (fact_outcome <$> _) as [[ids| |]|]; [by intros [= <-]|..];
      destruct (static_group input name && matched _) eqn:E; intros [= <-]; by apply andb_true_iff in E as [_ ->].
  Qed.

Lemma resolved_parts input rawEntries context :
    let entries := normalizeStringEntries (default [] rawEntries) in
    let direct := normalizeAndMatch (si_subject input) (si_accountId input) (directAllowlistEntries entries) context in
    let al := resolveIngressAllowlist input rawEntries context in
    al_match al = mergeMatches (nm_match direct :: omap (group_match input context) (referencedAccessGroups entries)) /\
    al_normalizedEntries al =
      nm_normalizedEntries direct ++ (referencedAccessGroups entries ≫= group_entries input context) /\
    ag_matched (al_accessGroups al) =
      List.filter (fun name => bool_decide (is_Some (group_match input context name))) (referencedAccessGroups entries).
  Proof.
    cbv zeta. unfold resolveIngressAllowlist, resolveAccessGroupEntries. cbn [al_match al_normalizedEntries al_accessGroups].
    destruct (scan_groups_add input context (referencedAccessGroups (normalizeStringEntries (default [] rawEntries)))
      (start_scan (referencedAccessGroups (normalizeStringEntries (default [] rawEntries))))) as (-> & -> & ->).
    done.
  Qed.

Lemma grounds_by_source input context rawEntries (Q : ground -> Prop) :
    (exists g, grounded input context rawEntries g /\ Q g) <->
    let entries := normalizeStringEntries (default [] rawEntries) in
    (exists e, entry_hits (si_subject input) e context = true /\
       e ∈ nr_matchable (normalizeEntries (directAllowlistEntries entries) context (si_accountId input)) /\ Q (ByEntry e)) \/
    exists name, name ∈ referencedAccessGroups entries /\
      ((exists e, static_group input name = true /\ entry_hits (si_subject input) e context = true /\
          e ∈ nr_matchable (normalizeEntries (groupSenderEntries name input) context (si_accountId input)) /\
          Q (ByEntry e)) \/
       (exists ids, fact_outcome <$> jm_get name (accessGroupFactByName (si_accessGroupMembership input)) =
          Some (MembershipMatched ids) /\ Q (ByMembership name ids))).
  Proof.
    cbv zeta. split.
    - intros ([e|name ids] & Hg & HQ).
      + destruct Hg as (Hh & strings & [->|(name & Hn & Hs & ->)] & He); [left|right]; naive_solver.
      + destruct Hg as [Hn Hf]. right. exists name. naive_solver.
    - intros [(e & Hh & He & HQ)|(name & Hn & [(e & Hs & Hh & He & HQ)|(ids & Hf & HQ)])].
      + exists (ByEntry e). split; [|done]. split; [done|]. eexists. split; [by left|done].
      + exists (ByEntry e). split; [|done]. split; [done|]. eexists. split; [right; by exists name|done].
      + by exists (ByMembership name ids).
  Qed.

  (** A resolved list matches for a ground, reports the ids of its grounds and
      shows their entries. *)
Theorem resolved_list_explained input rawEntries context :
    explains (grounded input context rawEntries) (resolveIngressAllowlist input rawEntries context).
  Proof.
    destruct (resolved_parts input rawEntries context) as (Hm & Hn & _). cbv zeta in Hm, Hn.
    set (entries := normalizeStringEntries (default [] rawEntries)) in *.
    split.
    - rewrite Hm, mergeMatches_matched.
      transitivity (exists g, grounded input context rawEntries g /\ True); [|naive_solver].
      rewrite (grounds_by_source input context rawEntries (fun _ => True)). cbv zeta. fold entries. split.
      + intros (m & [->|(name & Hname & Hg)%list_elem_of_omap]%elem_of_cons & H).
        * left. assert (exists id, id ∈ matchedEntryIds (nm_match (normalizeAndMatch (si_subject input)
            (si_accountId input) (directAllowlistEntries entries) context))) as [id (e & ?)%normalized_match_ids].
          { destruct H as [H%normalized_match_matched|H]; [done|]. destruct (matchedEntryIds _) as [|id l]; [done|].
            exists id. by left. }
          naive_solver.
        * right. exists name. split; [done|].
          destruct (proj1 (group_match_some input context name)) as [(e & ?)|[ids ?]]; naive_solver.
      + intros [(e & Hh & He & _)|(name & Hname & Hg)].
        * eexists. split; [by left|]. left. apply normalized_match_matched. eexists.
          apply normalized_match_ids. by exists e.
        * destruct (proj2 (group_match_some input context name)) as [m Hgm]; [naive_solver|].
          exists m. split; [right; apply list_elem_of_omap; by exists name|]. left. by eapply group_match_is_matched.
    - intros id. change (al_matchedEntryIds _) with (matchedEntryIds (al_match (resolveIngressAllowlist input rawEntries context))).
      rewrite Hm, mergeMatches_ids, (grounds_by_source input context rawEntries (fun g => id ∈ ground_ids g)).
      cbv zeta. fold entries. cbn [ground_ids]. setoid_rewrite list_elem_of_singleton. split.
      + intros (m & [->|(name & Hname & Hg)%list_elem_of_omap]%elem_of_cons & Hid).
        * apply normalized_match_ids in Hid. naive_solver.
        * right. exists name. split; [done|].
          destruct (proj1 (group_match_grounds input context name id)) as [(e & ?)|[ids ?]]; naive_solver.
      + intros [(e & Hh & He & ->)|(name & Hname & Hg)].
        * eexists. split; [by left|]. apply normalized_match_ids. by exists e.
        * destruct (proj2 (group_match_grounds input context name id)) as (m & Hgm & Hid); [naive_solver|].
          exists m. split; [right; apply list_elem_of_omap; by exists name|done].
    - done.
    - intros e (Hh & strings & Hl & He). rewrite Hn, elem_of_app.
      destruct Hl as [->|(name & Hname & Hs & ->)].
      + left. rewrite normalized_entries_spec. by apply list_elem_of_fmap_2.
      + right. apply list_elem_of_bind. exists name. split; [|done].
        unfold group_entries. rewrite Hs. unfold group_resolved. rewrite normalized_entries_spec.
        by apply list_elem_of_fmap_2.
  Qed.
End grounds.
