(* ===== verification/IngressAllowlist.v ===== *)
(** * Policies and the allow lists of senders

    [src/channels/message-access/allowlist.ts] with the policy type of
    [types.ts]: diagnostics, the merge of lists, the treatment of mutable
    identifiers, and the list that counts for a group. *)
From S2P Require Import Prelude JsString JsMap AllowFrom MentionGating IngressState.
#[local] Open Scope nat_scope.

(** ** Policies *)

Inductive DmPolicy := DmPairing | DmAllowlist | DmOpen | DmDisabled.
Inductive GroupPolicy := GroupAllowlist | GroupOpen | GroupDisabled.
Inductive MutableIdentifierMatching := MutableDisabled | MutableEnabled.
Inductive ActivationOrder := BeforeSender | AfterCommand.

#[global] Instance dm_policy_eq_dec : EqDecision DmPolicy.
Proof. solve_decision. Defined.

#[global] Instance mutable_matching_eq_dec : EqDecision MutableIdentifierMatching.
Proof. solve_decision. Defined.

#[global] Instance activation_order_eq_dec : EqDecision ActivationOrder.
Proof. solve_decision. Defined.

Record ActivationPolicy := {
  ap_requireMention : bool;
  ap_allowTextCommands : bool;
  ap_allowedImplicitMentionKinds : option (list InboundImplicitMentionKind);
  ap_order : option ActivationOrder;
}.

Record CommandPolicy := {
  cp_useAccessGroups : option bool;
  cp_allowTextCommands : bool;
  cp_hasControlCommand : bool;
  cp_modeWhenAccessGroupsOff : option CommandGatingModeWhenAccessGroupsOff;
}.

Record ChannelIngressPolicyInput := {
  pl_dmPolicy : DmPolicy;
  pl_groupPolicy : GroupPolicy;
  pl_groupAllowFromFallbackToAllowFrom : option bool;
  pl_mutableIdentifierMatching : option MutableIdentifierMatching;
  pl_activation : option ActivationPolicy;
  pl_command : option CommandPolicy;
}.

(** ** Diagnostics *)

Definition allowlistFailureReason (allowlist : ResolvedIngressAllowlist) : option IngressReasonCode :=
  if 0 <? length (ag_failed (al_accessGroups allowlist)) then Some AccessGroupFailed
  else if 0 <? length (ag_unsupported (al_accessGroups allowlist)) then Some AccessGroupUnsupported
  else if 0 <? length (ag_missing (al_accessGroups allowlist)) then Some AccessGroupMissing
  else None.

Record RedactedIngressAllowlistFacts := {
  fa_configured : bool;
  fa_matched : bool;
  fa_reasonCode : IngressReasonCode;
  fa_matchedEntryIds : list jstr;
  fa_invalidEntryCount : nat;
  fa_disabledEntryCount : nat;
  fa_accessGroups : ReferencedGroups;
}.

Definition redactedAllowlistDiagnostics (allowlist : ResolvedIngressAllowlist) (reasonCode : IngressReasonCode)
    : RedactedIngressAllowlistFacts :=
  {| fa_configured := al_hasConfiguredEntries allowlist;
     fa_matched := matched (al_match allowlist);
     fa_reasonCode := reasonCode;
     fa_matchedEntryIds := al_matchedEntryIds allowlist;
     fa_invalidEntryCount := length (al_invalidEntries allowlist);
     fa_disabledEntryCount := length (al_disabledEntries allowlist);
     fa_accessGroups := al_accessGroups allowlist |}.

(** ** Merging *)

Definition mergeResolvedAllowlists (allowlists : list ResolvedIngressAllowlist) : ResolvedIngressAllowlist :=
  let matches := al_match <$> allowlists in
  let ids := uniqueStrings (allowlists ≫= al_matchedEntryIds) in
  let groups f := uniqueStrings (allowlists ≫= (fun allowlist => f (al_accessGroups allowlist))) in
  {| al_rawEntryCount := fold_left (fun sum allowlist => sum + al_rawEntryCount allowlist) allowlists 0;
     al_normalizedEntries := allowlists ≫= al_normalizedEntries;
     al_invalidEntries := allowlists ≫= al_invalidEntries;
     al_disabledEntries := allowlists ≫= al_disabledEntries;
     al_matchedEntryIds := ids;
     al_hasConfiguredEntries := existsb al_hasConfiguredEntries allowlists;
     al_hasMatchableEntries := existsb al_hasMatchableEntries allowlists;
     al_hasWildcard := existsb al_hasWildcard allowlists;
     al_accessGroups :=
       {| ag_referenced := groups ag_referenced; ag_matched := groups ag_matched;
          ag_missing := groups ag_missing; ag_unsupported := groups ag_unsupported;
          ag_failed := groups ag_failed |};
     al_match := {| matched := existsb matched matches || (0 <? length ids); matchedEntryIds := ids |} |}.

(** ** Mutable identifiers *)

(** [entry.dangerous] as a condition. *)
Definition entry_dangerous (entry : ChannelIngressNormalizedEntry) : bool := default false (ne_dangerous entry).

Definition applyMutableIdentifierPolicy (allowlist : ResolvedIngressAllowlist) (policy : ChannelIngressPolicyInput)
    : ResolvedIngressAllowlist :=
  if bool_decide (pl_mutableIdentifierMatching policy = Some MutableEnabled) then allowlist
  else
    let dangerous := List.filter entry_dangerous (al_normalizedEntries allowlist) in
    let dangerousEntryIds := js_set (ne_opaqueEntryId <$> dangerous) in
    if length dangerousEntryIds =? 0 then allowlist
    else
      let ids := List.filter (fun id => negb (includes id dangerousEntryIds)) (al_matchedEntryIds allowlist) in
      {| al_rawEntryCount := al_rawEntryCount allowlist;
         al_normalizedEntries := al_normalizedEntries allowlist;
         al_invalidEntries := al_invalidEntries allowlist;
         al_disabledEntries :=
           al_disabledEntries allowlist ++
           ((fun entry => {| ed_opaqueEntryId := Some (ne_opaqueEntryId entry);
                             ed_reasonCode := MutableIdentifierDisabled |}) <$> dangerous);
         al_matchedEntryIds := ids;
         al_hasConfiguredEntries := al_hasConfiguredEntries allowlist;
         al_hasMatchableEntries := existsb (fun entry => negb (entry_dangerous entry)) (al_normalizedEntries allowlist);
         al_hasWildcard := al_hasWildcard allowlist;
         al_accessGroups := al_accessGroups allowlist;
         al_match := {| matched := 0 <? length ids; matchedEntryIds := ids |} |}.

(** ** The list of a group *)

Definition fold_route (effective : ResolvedIngressAllowlist) (route : ResolvedRouteGateFacts)
    : ResolvedIngressAllowlist :=
  match rr_senderAllowlist route with
  | Some senderAllowlist =>
      if negb (bool_decide (rr_gate route = RouteMatched)) then effective
      else if bool_decide (rr_senderPolicy route = Inherit)
      then mergeResolvedAllowlists [effective; senderAllowlist]
      else senderAllowlist
  | None => effective
  end.

Definition base_group_list (state : ChannelIngressState) (policy : ChannelIngressPolicyInput)
    : ResolvedIngressAllowlist :=
  if default false (pl_groupAllowFromFallbackToAllowFrom policy) &&
     negb (al_hasConfiguredEntries (als_group (st_allowlists state)))
  then als_dm (st_allowlists state) else als_group (st_allowlists state).

Definition effectiveGroupSenderAllowlist (state : ChannelIngressState) (policy : ChannelIngressPolicyInput)
    : ResolvedIngressAllowlist :=
  applyMutableIdentifierPolicy (fold_left fold_route (st_routeFacts state) (base_group_list state policy)) policy.

(** ** Laws *)

(** A ground that is no mutable identifier. *)
Definition safe_ground (g : ground) : bool :=
  match g with ByEntry e => negb (entry_dangerous (ie_entry e)) | ByMembership _ _ => true end.

Definition mutable_enabled (policy : ChannelIngressPolicyInput) : bool :=
  bool_decide (pl_mutableIdentifierMatching policy = Some MutableEnabled).

Lemma elem_of_dangerous_ids id (entries : list ChannelIngressNormalizedEntry) :
  id ∈ js_set (ne_opaqueEntryId <$> List.filter entry_dangerous entries) <->
  exists entry, entry ∈ entries /\ entry_dangerous entry = true /\ id = ne_opaqueEntryId entry.
Proof.
  rewrite elem_of_js_set, list_elem_of_fmap. setoid_rewrite list_elem_of_In. setoid_rewrite filter_In. naive_solver.
Qed.

(** Under a policy that does not enable them, mutable identifiers let nobody
    in. *)
Lemma policy_match_safe P allowlist policy :
  explains P allowlist ->
  matched (al_match (applyMutableIdentifierPolicy allowlist policy)) = true ->
  exists g, P g /\ (mutable_enabled policy = false -> safe_ground g = true).
Proof.
  intros HP. unfold applyMutableIdentifierPolicy. fold (mutable_enabled policy).
  destruct (mutable_enabled policy).
  { rewrite (explains_matched _ _ HP). intros [g Hg]. by exists g. }
  set (ids := js_set _). assert (forall e, P (ByEntry e) -> entry_dangerous (ie_entry e) = true ->
    ne_opaqueEntryId (ie_entry e) ∈ ids) as Hin.
  { intros e He Hd. apply elem_of_dangerous_ids. eexists. split; [by eapply explains_entries|done]. }
  clearbody ids. destruct (length ids =? 0) eqn:E.
  - apply Nat.eqb_eq in E. destruct ids; [|done]. rewrite (explains_matched _ _ HP). intros [g Hg].
    exists g. split; [done|]. intros _. destruct g as [e|]; [|done]. cbn. destruct (entry_dangerous _) eqn:Ed; [|done].
    by destruct (not_elem_of_nil _ (Hin e Hg Ed)).
  - cbn [al_match matched]. rewrite Nat.ltb_lt. destruct (List.filter _ _) as [|id l] eqn:Ef; [cbn; lia|]. intros _.
    assert (id ∈ List.filter (fun id => negb (includes id ids)) (al_matchedEntryIds allowlist)) as Hid by (rewrite Ef; by left).
    rewrite list_elem_of_In, filter_In, <- list_elem_of_In in Hid. destruct Hid as [Hid Hno].
    apply (explains_ids _ _ HP) in Hid as (g & Hg & Hid). exists g. split; [done|]. intros _.
    destruct g as [e|]; [|done]. cbn in *. apply list_elem_of_singleton in Hid as ->.
    destruct (entry_dangerous _) eqn:Ed; [|done]. specialize (Hin e Hg Ed).
    apply negb_true_iff, not_true_iff_false in Hno. by rewrite includes_spec in Hno.
Qed.

(** A ground whose ids no mutable identifier has lets its sender in. *)
Lemma policy_match_complete P allowlist policy g id :
  explains P allowlist -> P g -> id ∈ ground_ids g ->
  (mutable_enabled policy = false ->
   forall entry, entry ∈ al_normalizedEntries allowlist -> entry_dangerous entry = true -> ne_opaqueEntryId entry <> id) ->
  matched (al_match (applyMutableIdentifierPolicy allowlist policy)) = true.
Proof.
  intros HP Hg Hid Hno. unfold applyMutableIdentifierPolicy. fold (mutable_enabled policy).
  assert (matched (al_match allowlist) = true) as Hm by (apply (explains_matched _ _ HP); by exists g).
  destruct (mutable_enabled policy); [done|]. destruct (length _ =? 0); [done|]. cbn [al_match matched].
  set (ids := List.filter _ _). assert (id ∈ ids) as H.
  { apply list_elem_of_In, filter_In. rewrite <- list_elem_of_In. split; [apply (explains_ids _ _ HP); by exists g|].
    apply negb_true_iff, not_true_iff_false. rewrite includes_spec, elem_of_dangerous_ids.
    intros (entry & He & Hd & ->). by eapply Hno. }
  clearbody ids. destruct ids; [by apply not_elem_of_nil in H|done].
Qed.

Lemma explains_merge P Q a b :
  explains P a -> explains Q b -> explains (fun g => P g \/ Q g) (mergeResolvedAllowlists [a; b]).
Proof.
  intros HP HQ. split.
  - unfold mergeResolvedAllowlists. cbn [al_match matched].
    set (ids := uniqueStrings _). assert (forall id, id ∈ ids -> exists g, P g \/ Q g) as Hids.
    { intros id. unfold ids. rewrite elem_of_uniqueStrings. cbn. rewrite app_nil_r, elem_of_app,
        (explains_ids _ _ HP), (explains_ids _ _ HQ). naive_solver. }
    clearbody ids. cbn [fmap list_fmap existsb]. rewrite orb_false_r, !orb_true_iff, (explains_matched _ _ HP), (explains_matched _ _ HQ), Nat.ltb_lt.
    split; [|naive_solver]. intros [[[g ?]|[g ?]]|H]; [exists g; auto..|].
    destruct ids as [|id ids]; [cbn in H; lia|]. apply (Hids id). by left.
  - intros id. cbn [mergeResolvedAllowlists al_matchedEntryIds]. rewrite elem_of_uniqueStrings. cbn.
    rewrite app_nil_r, elem_of_app, (explains_ids _ _ HP), (explains_ids _ _ HQ). naive_solver.
  - done.
  - intros e He. cbn. rewrite app_nil_r, elem_of_app. destruct He as [He|He]; [left|right]; by eapply explains_entries.
Qed.

#[export] Instance explains_proper : Proper (pointwise_relation ground iff ==> eq ==> iff) explains.
Proof.
  assert (forall P Q al, pointwise_relation ground iff P Q -> explains P al -> explains Q al) as H.
  { intros P Q al HPQ [Hm Hi Hmi He]. split; [| |done|].
    - rewrite Hm. by setoid_rewrite HPQ.
    - intros id. rewrite Hi. by setoid_rewrite HPQ.
    - intros e Hq. apply He. by apply HPQ. }
  intros P Q HPQ al ? <-. split; apply H; [done|]. intros g. symmetry. apply HPQ.
Qed.

(** ** The lists that count for a group *)

Section sources.
  Context {A : IngressAdapter} {S : IngressAdapterSpec A}.
  Context (localeCompare : jstr -> jstr -> Z).

  (** A configured list and the context it is matched in. *)
Abbreviation source := (option (list list_entry) * MatchContext)%type.

Definition from_sources (input : ChannelIngressStateInput) (sources : list source) (g : ground) : Prop :=
    exists s, s ∈ sources /\ grounded input s.2 s.1 g.

Definition has_entries (rawEntries : option (list list_entry)) : bool :=
    0 <? length (normalizeStringEntries (default [] rawEntries)).

Definition base_source (input : ChannelIngressStateInput) (policy : ChannelIngressPolicyInput) : source :=
    let lists := si_allowlists input in
    if default false (pl_groupAllowFromFallbackToAllowFrom policy) && negb (has_entries (in_group lists))
    then (in_dm lists, DmContext) else (in_group lists, GroupContext).

  (** A matched route with senders of its own adds them or replaces the list. *)
Definition add_source (input : ChannelIngressStateInput) (sources : list source) (route : RouteGateFacts)
      : list source :=
    match route_sender_entries input route, rf_gate route with
    | Some entries, RouteMatched =>
        match rf_senderPolicy route with
        | Inherit => sources ++ [(Some entries, RouteContext)]
        | _ => [(Some entries, RouteContext)]
        end
    | _, _ => sources
    end.

Definition group_sources (input : ChannelIngressStateInput) (policy : ChannelIngressPolicyInput) : list source :=
    fold_left (add_source input) (stable_sort (route_before localeCompare) (default [] (si_routeFacts input)))
      [base_source input policy].

Lemma from_one_source input rawEntries context :
    pointwise_relation ground iff (from_sources input [(rawEntries, context)]) (grounded input context rawEntries).
  Proof.
    intros g. unfold from_sources. split.
    - by intros (s & ->%list_elem_of_singleton & Hg).
    - intros Hg. eexists. split; [by apply list_elem_of_singleton|done].
  Qed.

Lemma explains_route input sources al route :
    explains (from_sources input sources) al ->
    explains (from_sources input (add_source input sources route)) (fold_route al (resolve_route_fact input route)).
  Proof.
    intros HP. unfold add_source, fold_route. cbn [resolve_route_fact rr_senderAllowlist rr_gate rr_senderPolicy].
    destruct (route_sender_entries input route) as [entries|]; [|done]. cbn [fmap option_fmap option_map].
    pose proof (resolved_list_explained input (Some entries) RouteContext) as HQ.
    destruct (rf_gate route); try done. cbn [bool_decide decide negb].
    rewrite bool_decide_true by done. cbn [negb].
    destruct (rf_senderPolicy route); cbn.
    - rewrite bool_decide_true by done.
      eapply explains_proper; [|reflexivity|exact (explains_merge _ _ _ _ HP HQ)].
      intros g. unfold from_sources. setoid_rewrite elem_of_app. setoid_rewrite list_elem_of_singleton. naive_solver.
    - rewrite bool_decide_false by done. by rewrite from_one_source.
    - rewrite bool_decide_false by done. by rewrite from_one_source.
  Qed.

  (** The list that counts for a group is explained by its sources. *)
Lemma group_list_explained input policy :
    let state := resolveChannelIngressState localeCompare input in
    explains (from_sources input (group_sources input policy))
      (fold_left fold_route (st_routeFacts state) (base_group_list state policy)).
  Proof.
    cbv zeta. unfold group_sources. cbn [resolveChannelIngressState st_routeFacts]. unfold resolveRouteFacts.
    assert (explains (from_sources input [base_source input policy])
      (base_group_list (resolveChannelIngressState localeCompare input) policy)) as Hbase.
    { unfold base_source, base_group_list, has_entries.
      cbn [resolveChannelIngressState st_allowlists als_group als_dm].
      change (al_hasConfiguredEntries (resolveIngressAllowlist input (in_group (si_allowlists input)) GroupContext))
        with (0 <? length (normalizeStringEntries (default [] (in_group (si_allowlists input))))).
      destruct (default false _ && _); rewrite from_one_source; apply resolved_list_explained. }
    revert Hbase. generalize [base_source input policy], (base_group_list (resolveChannelIngressState localeCompare input) policy).
    induction (stable_sort _ _) as [|route routes IH]; intros sources al Hal; [done|].
    cbn [fmap list_fmap fold_left]. by apply IH, explains_route.
  Qed.
End sources.
