(* ===== verification/IngressDecision.v ===== *)
(** * The decision on an inbound event

    [src/channels/message-access/sender-gates.ts] (section 1) and
    [decision.ts] (section 2): routes, sender, command, event and activation are
    gates of a graph that the decision is read off. *)
From S2P Require Import Prelude JsString JsMap AllowFrom MentionGating IngressState IngressAllowlist.
#[local] Open Scope nat_scope.

(** ** Gates *)

Inductive IngressGatePhase := PhaseRoute | PhaseSender | PhaseCommand | PhaseEvent | PhaseActivation.

Inductive IngressGateKind :=
  | GateRoute (kind : RouteKind) | GateDmSender | GateGroupSender | GateCommand | GateEvent | GateMention.

Inductive IngressGateEffect := Allow | BlockDispatch | BlockCommand | Skip | Observe | Ignore.

#[global] Instance gate_phase_eq_dec : EqDecision IngressGatePhase.
Proof. solve_decision. Defined.

#[global] Instance route_kind_eq_dec : EqDecision RouteKind.
Proof. solve_decision. Defined.

#[global] Instance gate_kind_eq_dec : EqDecision IngressGateKind.
Proof. solve_decision. Defined.

#[global] Instance gate_effect_eq_dec : EqDecision IngressGateEffect.
Proof. solve_decision. Defined.

Record CommandGateFacts := {
  cf_useAccessGroups : bool;
  cf_allowTextCommands : bool;
  cf_modeWhenAccessGroupsOff : option CommandGatingModeWhenAccessGroupsOff;
  cf_shouldBlockControlCommand : bool;
}.

Record ActivationFacts := {
  af_hasMentionFacts : bool;
  af_requireMention : bool;
  af_allowTextCommands : bool;
  af_allowedImplicitMentionKinds : option (list InboundImplicitMentionKind);
  af_order : option ActivationOrder;
  af_shouldSkip : bool;
  af_canDetectMention : option bool;
  af_wasMentioned : option bool;
  af_hasAnyMention : option bool;
  af_implicitMentionKinds : option (list InboundImplicitMentionKind);
  af_effectiveWasMentioned : option bool;
  af_shouldBypassMention : option bool;
}.

Record AccessGraphGate := {
  g_id : jstr;
  g_phase : IngressGatePhase;
  g_kind : IngressGateKind;
  g_effect : IngressGateEffect;
  g_allowed : bool;
  g_reasonCode : IngressReasonCode;
  g_match : option IngressMatch;
  g_allowlist : option RedactedIngressAllowlistFacts;
  g_sender : option (DmPolicy + GroupPolicy);
  g_command : option CommandGateFacts;
  g_event : option RedactedChannelIngressEvent;
  g_activation : option ActivationFacts;
}.

(** ** 1. Senders *)

Definition senderGate (id : jstr) (kind : IngressGateKind) (effect : IngressGateEffect) (allowed : bool)
    (reasonCode : IngressReasonCode) (m : IngressMatch) (policy : DmPolicy + GroupPolicy)
    (allowlistSource : ResolvedIngressAllowlist) : AccessGraphGate :=
  {| g_id := id; g_phase := PhaseSender; g_kind := kind; g_effect := effect; g_allowed := allowed;
     g_reasonCode := reasonCode; g_match := Some m;
     g_allowlist := Some (redactedAllowlistDiagnostics allowlistSource reasonCode);
     g_sender := Some policy; g_command := None; g_event := None; g_activation := None |}.

Definition senderGateForDirect (state : ChannelIngressState) (policy : ChannelIngressPolicyInput)
    : AccessGraphGate :=
  let dm := applyMutableIdentifierPolicy (als_dm (st_allowlists state)) policy in
  let pairingStore := applyMutableIdentifierPolicy (als_pairingStore (st_allowlists state)) policy in
  let allow reasonCode :=
    senderGate (lit "sender:dm") GateDmSender Allow true reasonCode (al_match dm) (inl (pl_dmPolicy policy)) dm in
  let block reasonCode :=
    senderGate (lit "sender:dm") GateDmSender BlockDispatch false reasonCode (al_match dm)
      (inl (pl_dmPolicy policy)) dm in
  if bool_decide (pl_dmPolicy policy = DmDisabled) then block DmPolicyDisabled
  else if bool_decide (pl_dmPolicy policy = DmOpen) then
    if al_hasWildcard dm then allow DmPolicyOpen
    else if matched (al_match dm) then allow DmPolicyAllowlisted
    else block DmPolicyNotAllowlisted
  else if matched (al_match dm) then allow DmPolicyAllowlisted
  else if bool_decide (pl_dmPolicy policy = DmPairing) && matched (al_match pairingStore) then
    senderGate (lit "sender:dm") GateDmSender Allow true DmPolicyAllowlisted (al_match pairingStore)
      (inl (pl_dmPolicy policy)) pairingStore
  else if bool_decide (pl_dmPolicy policy = DmPairing) && ev_mayPair (st_event state) then
    block DmPolicyPairingRequired
  else
    block (if bool_decide (pl_dmPolicy policy = DmPairing) then EventPairingNotAllowed
           else default DmPolicyNotAllowlisted (allowlistFailureReason dm)).

Definition senderGateForGroup (localState : ChannelIngressState) (policy : ChannelIngressPolicyInput)
    : AccessGraphGate :=
  let group := effectiveGroupSenderAllowlist localState policy in
  let allow reasonCode :=
    senderGate (lit "sender:group") GateGroupSender Allow true reasonCode (al_match group)
      (inr (pl_groupPolicy policy)) group in
  let block reasonCode :=
    senderGate (lit "sender:group") GateGroupSender BlockDispatch false reasonCode (al_match group)
      (inr (pl_groupPolicy policy)) group in
  match pl_groupPolicy policy with
  | GroupDisabled => block GroupPolicyDisabled
  | GroupOpen => allow GroupPolicyOpen
  | GroupAllowlist =>
      if negb (al_hasConfiguredEntries group) then block GroupPolicyEmptyAllowlist
      else if matched (al_match group) then allow GroupPolicyAllowed
      else block (default GroupPolicyNotAllowlisted (allowlistFailureReason group))
  end.

Definition with_reason (reasonCode : IngressReasonCode) (facts : RedactedIngressAllowlistFacts)
    : RedactedIngressAllowlistFacts :=
  {| fa_configured := fa_configured facts; fa_matched := fa_matched facts; fa_reasonCode := reasonCode;
     fa_matchedEntryIds := fa_matchedEntryIds facts; fa_invalidEntryCount := fa_invalidEntryCount facts;
     fa_disabledEntryCount := fa_disabledEntryCount facts; fa_accessGroups := fa_accessGroups facts |}.

Definition applyEventAuthModeToSenderGate (state : ChannelIngressState) (gate : AccessGraphGate)
    : AccessGraphGate :=
  if bool_decide (ev_authMode (st_event state) = AuthInbound) || g_allowed gate then gate
  else
    {| g_id := g_id gate; g_phase := g_phase gate; g_kind := g_kind gate; g_effect := Ignore;
       g_allowed := true; g_reasonCode := SenderNotRequired; g_match := g_match gate;
       g_allowlist := with_reason SenderNotRequired <$> g_allowlist gate;
       g_sender := g_sender gate; g_command := g_command gate; g_event := g_event gate;
       g_activation := g_activation gate |}.

(** ** 2. Decisions *)

Inductive ChannelIngressAdmission := Dispatch | ObserveOnly | SkipEvent | Drop | PairingRequired.
Inductive IngressVerdict := VerdictAllow | VerdictBlock | VerdictPairing.

#[global] Instance admission_eq_dec : EqDecision ChannelIngressAdmission.
Proof. solve_decision. Defined.

#[global] Instance verdict_eq_dec : EqDecision IngressVerdict.
Proof. solve_decision. Defined.

Record ChannelIngressDecision := {
  de_admission : ChannelIngressAdmission;
  de_decision : IngressVerdict;
  de_decisiveGateId : jstr;
  de_reasonCode : IngressReasonCode;
  de_gates : list AccessGraphGate;
}.

Definition decisiveDecision (admission : ChannelIngressAdmission) (decision : IngressVerdict)
    (gate : AccessGraphGate) (gates : list AccessGraphGate) : ChannelIngressDecision :=
  {| de_admission := admission; de_decision := decision; de_decisiveGateId := g_id gate;
     de_reasonCode := g_reasonCode gate; de_gates := gates |}.

Definition route_effect (effect : RouteEffect) : IngressGateEffect :=
  match effect with RouteAllow => Allow | RouteBlockDispatch => BlockDispatch | RouteIgnore => Ignore end.

Definition route_gate (route : ResolvedRouteGateFacts) : AccessGraphGate :=
  let blocks := if rr_effect route is RouteBlockDispatch then true else false in
  {| g_id := rr_id route; g_phase := PhaseRoute; g_kind := GateRoute (rr_kind route);
     g_effect := route_effect (rr_effect route); g_allowed := negb blocks;
     g_reasonCode := if blocks then RouteBlocked else Allowed;
     g_match := rr_match route; g_allowlist := None; g_sender := None; g_command := None; g_event := None;
     g_activation := None |}.

Definition routeGates (state : ChannelIngressState) : list AccessGraphGate := route_gate <$> st_routeFacts state.

Definition route_sender_empty (fact : ResolvedRouteGateFacts) : bool :=
  bool_decide (rr_senderPolicy fact = DenyWhenEmpty) && bool_decide (rr_gate fact = RouteMatched) &&
  negb (default false (al_hasConfiguredEntries <$> rr_senderAllowlist fact)).

Definition routeSenderEmptyGate (state : ChannelIngressState) : option AccessGraphGate :=
  match find_first route_sender_empty (st_routeFacts state) with
  | None => None
  | Some route =>
      Some {| g_id := rr_id route ++ lit ":sender"; g_phase := PhaseRoute; g_kind := GateRoute KRouteSender;
              g_effect := BlockDispatch; g_allowed := false; g_reasonCode := RouteSenderEmpty;
              g_match := rr_match route;
              g_allowlist :=
                (fun list => redactedAllowlistDiagnostics list RouteSenderEmpty) <$> rr_senderAllowlist route;
              g_sender := None; g_command := None; g_event := None; g_activation := None |}
  end.

Definition mergeCommandMatch (owner group : IngressMatch) : IngressMatch :=
  let ids := uniqueStrings (matchedEntryIds owner ++ matchedEntryIds group) in
  {| matched := matched owner || matched group || (0 <? length ids); matchedEntryIds := ids |}.

Definition command_gate_of (effect : IngressGateEffect) (allowed : bool) (reasonCode : IngressReasonCode)
    (m : option IngressMatch) (command : option CommandGateFacts) : AccessGraphGate :=
  {| g_id := lit "command"; g_phase := PhaseCommand; g_kind := GateCommand; g_effect := effect;
     g_allowed := allowed; g_reasonCode := reasonCode; g_match := m; g_allowlist := None; g_sender := None;
     g_command := command; g_event := None; g_activation := None |}.

Definition commandGate (state : ChannelIngressState) (policy : ChannelIngressPolicyInput) : AccessGraphGate :=
  match pl_command policy with
  | None => command_gate_of Allow true CommandAuthorized None None
  | Some command =>
      let useAccessGroups := default true (cp_useAccessGroups command) in
      let owner := applyMutableIdentifierPolicy (als_commandOwner (st_allowlists state)) policy in
      let group := applyMutableIdentifierPolicy (als_commandGroup (st_allowlists state)) policy in
      let authorized :=
        resolveCommandAuthorizedFromAuthorizers useAccessGroups
          [{| ca_configured := al_hasConfiguredEntries owner; ca_allowed := matched (al_match owner) |};
           {| ca_configured := al_hasConfiguredEntries group; ca_allowed := matched (al_match group) |}]
          (cp_modeWhenAccessGroupsOff command) in
      let shouldBlock := cp_allowTextCommands command && cp_hasControlCommand command && negb authorized in
      command_gate_of (if shouldBlock then BlockCommand else Allow) authorized
        (if shouldBlock then ControlCommandUnauthorized else CommandAuthorized)
        (Some (mergeCommandMatch (al_match owner) (al_match group)))
        (Some {| cf_useAccessGroups := useAccessGroups; cf_allowTextCommands := cp_allowTextCommands command;
                 cf_modeWhenAccessGroupsOff := cp_modeWhenAccessGroupsOff command;
                 cf_shouldBlockControlCommand := shouldBlock |})
  end.

Definition event_result (event : RedactedChannelIngressEvent) (allowed : bool) (reasonCode : IngressReasonCode)
    : AccessGraphGate :=
  {| g_id := lit "event"; g_phase := PhaseEvent; g_kind := GateEvent;
     g_effect := if allowed then Allow else BlockDispatch; g_allowed := allowed; g_reasonCode := reasonCode;
     g_match := None; g_allowlist := None; g_sender := None; g_command := None; g_event := Some event;
     g_activation := None |}.

Definition eventGate (state : ChannelIngressState) (sender command : AccessGraphGate) : AccessGraphGate :=
  let event := st_event state in
  match ev_authMode event with
  | AuthNone | AuthRouteOnly => event_result event true EventAuthorized
  | AuthCommand =>
      event_result event (g_allowed command) (if g_allowed command then EventAuthorized else EventUnauthorized)
  | AuthOriginSubject =>
      if negb (ev_hasOriginSubject event) then event_result event false OriginSubjectMissing
      else
        let m := ev_originSubjectMatched event in
        event_result event m (if m then EventAuthorized else OriginSubjectNotMatched)
  | AuthInbound =>
      event_result event (g_allowed sender) (if g_allowed sender then EventAuthorized else EventUnauthorized)
  end.

Definition activationMetadata (activation : option ActivationPolicy) (mentionFacts : option InboundMentionFacts)
    (shouldSkip : bool) (effectiveWasMentioned shouldBypassMention : option bool) : ActivationFacts :=
  {| af_hasMentionFacts := bool_decide (is_Some mentionFacts);
     af_requireMention := default false (ap_requireMention <$> activation);
     af_allowTextCommands := default false (ap_allowTextCommands <$> activation);
     af_allowedImplicitMentionKinds := activation ≫= ap_allowedImplicitMentionKinds;
     af_order := activation ≫= ap_order;
     af_shouldSkip := shouldSkip;
     af_canDetectMention := mf_canDetectMention <$> mentionFacts;
     af_wasMentioned := mf_wasMentioned <$> mentionFacts;
     af_hasAnyMention := mentionFacts ≫= mf_hasAnyMention;
     af_implicitMentionKinds := mentionFacts ≫= mf_implicitMentionKinds;
     af_effectiveWasMentioned := effectiveWasMentioned;
     af_shouldBypassMention := shouldBypassMention |}.

Definition activation_result (activation : option ActivationPolicy) (mentionFacts : option InboundMentionFacts)
    (shouldSkip : bool) (effectiveWasMentioned shouldBypassMention : option bool) : AccessGraphGate :=
  {| g_id := lit "activation"; g_phase := PhaseActivation; g_kind := GateMention;
     g_effect := if shouldSkip then Skip else Allow; g_allowed := negb shouldSkip;
     g_reasonCode := if shouldSkip then ActivationSkipped else ActivationAllowed;
     g_match := None; g_allowlist := None; g_sender := None; g_command := None; g_event := None;
     g_activation :=
       Some (activationMetadata activation mentionFacts shouldSkip effectiveWasMentioned shouldBypassMention) |}.

Definition mention_policy (state : ChannelIngressState) (policy : ChannelIngressPolicyInput)
    (activation : ActivationPolicy) (commandAuthorized : bool) : InboundMentionPolicy :=
  {| mp_isGroup := negb (bool_decide (st_conversationKind state = Direct));
     mp_requireMention := ap_requireMention activation;
     mp_allowedImplicitMentionKinds := ap_allowedImplicitMentionKinds activation;
     mp_allowTextCommands := ap_allowTextCommands activation;
     mp_hasControlCommand := default false (cp_hasControlCommand <$> pl_command policy);
     mp_commandAuthorized := commandAuthorized |}.

Definition activationGate (state : ChannelIngressState) (policy : ChannelIngressPolicyInput)
    (command : AccessGraphGate) : AccessGraphGate :=
  match pl_activation policy, st_mentionFacts state with
  | Some activation, Some mentionFacts =>
      let result :=
        resolveInboundMentionDecision mentionFacts (mention_policy state policy activation (g_allowed command)) in
      activation_result (Some activation) (Some mentionFacts) (md_shouldSkip result)
        (Some (md_effectiveWasMentioned result)) (Some (md_shouldBypassMention result))
  | activation, mentionFacts =>
      activation_result activation mentionFacts false
        ((fun facts => mf_wasMentioned facts ||
                       (0 <? length (default [] (mf_implicitMentionKinds facts)))) <$> mentionFacts)
        None
  end.

Definition without_command (policy : ChannelIngressPolicyInput) : ChannelIngressPolicyInput :=
  {| pl_dmPolicy := pl_dmPolicy policy; pl_groupPolicy := pl_groupPolicy policy;
     pl_groupAllowFromFallbackToAllowFrom := pl_groupAllowFromFallbackToAllowFrom policy;
     pl_mutableIdentifierMatching := pl_mutableIdentifierMatching policy;
     pl_activation := pl_activation policy; pl_command := None |}.

Definition activation_before_sender (state : ChannelIngressState) (policy : ChannelIngressPolicyInput)
    : option AccessGraphGate :=
  match pl_activation policy with
  | Some activation =>
      if bool_decide (ap_order activation = Some BeforeSender) && negb (ap_allowTextCommands activation)
      then Some (activationGate state policy (commandGate state (without_command policy)))
      else None
  | None => None
  end.

Definition effect_is (effect : IngressGateEffect) (gate : AccessGraphGate) : bool :=
  bool_decide (g_effect gate = effect).

(** From the command gate on. *)
Definition decide_after_sender (state : ChannelIngressState) (policy : ChannelIngressPolicyInput)
    (activationBeforeSender : option AccessGraphGate) (sender : AccessGraphGate) (gates : list AccessGraphGate)
    : ChannelIngressDecision :=
  let command := commandGate state policy in
  let gates := gates ++ [command] in
  if effect_is BlockCommand command then decisiveDecision Drop VerdictBlock command gates
  else
    let event := eventGate state sender command in
    let gates := gates ++ [event] in
    if negb (g_allowed event) then decisiveDecision Drop VerdictBlock event gates
    else
      let activation := default (activationGate state policy command) activationBeforeSender in
      let gates := match activationBeforeSender with Some _ => gates | None => gates ++ [activation] end in
      if effect_is Skip activation then decisiveDecision SkipEvent VerdictAllow activation gates
      else if effect_is Observe activation then decisiveDecision ObserveOnly VerdictAllow activation gates
      else decisiveDecision Dispatch VerdictAllow activation gates.

(** From the sender gate on. *)
Definition decide_sender (state : ChannelIngressState) (policy : ChannelIngressPolicyInput)
    (activationBeforeSender : option AccessGraphGate) (gates : list AccessGraphGate) : ChannelIngressDecision :=
  let sender :=
    if bool_decide (st_conversationKind state = Direct) then senderGateForDirect state policy
    else senderGateForGroup state policy in
  let eventModeSender := applyEventAuthModeToSenderGate state sender in
  let gates := gates ++ [eventModeSender] in
  if negb (g_allowed eventModeSender) then
    if bool_decide (g_reasonCode eventModeSender = DmPolicyPairingRequired)
    then decisiveDecision PairingRequired VerdictPairing eventModeSender gates
    else decisiveDecision Drop VerdictBlock eventModeSender gates
  else decide_after_sender state policy activationBeforeSender eventModeSender gates.

Definition decideChannelIngress (state : ChannelIngressState) (policy : ChannelIngressPolicyInput)
    : ChannelIngressDecision :=
  let gates := routeGates state ++ option_list (routeSenderEmptyGate state) in
  match find_first (effect_is BlockDispatch) gates with
  | Some routeBlock => decisiveDecision Drop VerdictBlock routeBlock gates
  | None =>
      match activation_before_sender state policy with
      | Some activation =>
          let gates := gates ++ [activation] in
          if effect_is Skip activation then decisiveDecision SkipEvent VerdictAllow activation gates
          else decide_sender state policy (Some activation) gates
      | None => decide_sender state policy None gates
      end
  end.

(** ** Laws: gates *)

(** What the sender gate asks for. *)
Definition list_matches (policy : ChannelIngressPolicyInput) (allowlist : ResolvedIngressAllowlist) : Prop :=
  matched (al_match (applyMutableIdentifierPolicy allowlist policy)) = true.

Definition sender_admits (state : ChannelIngressState) (policy : ChannelIngressPolicyInput) : Prop :=
  let lists := st_allowlists state in
  if bool_decide (st_conversationKind state = Direct) then
    match pl_dmPolicy policy with
    | DmDisabled => False
    | DmOpen => al_hasWildcard (als_dm lists) = true \/ list_matches policy (als_dm lists)
    | DmAllowlist => list_matches policy (als_dm lists)
    | DmPairing => list_matches policy (als_dm lists) \/ list_matches policy (als_pairingStore lists)
    end
  else
    match pl_groupPolicy policy with
    | GroupDisabled => False
    | GroupOpen => True
    | GroupAllowlist =>
        let group := effectiveGroupSenderAllowlist state policy in
        al_hasConfiguredEntries group = true /\ matched (al_match group) = true
    end.

(** When an unknown sender is offered to pair. *)
Definition pairing_offered (state : ChannelIngressState) (policy : ChannelIngressPolicyInput) : Prop :=
  st_conversationKind state = Direct /\ pl_dmPolicy policy = DmPairing /\ ev_mayPair (st_event state) = true /\
  ~ sender_admits state policy.

Definition sender_gate (state : ChannelIngressState) (policy : ChannelIngressPolicyInput) : AccessGraphGate :=
  if bool_decide (st_conversationKind state = Direct) then senderGateForDirect state policy
  else senderGateForGroup state policy.

Lemma policy_keeps_wildcard allowlist policy :
  al_hasWildcard (applyMutableIdentifierPolicy allowlist policy) = al_hasWildcard allowlist.
Proof. unfold applyMutableIdentifierPolicy. by repeat case_inner. Qed.

Lemma policy_keeps_configured allowlist policy :
  al_hasConfiguredEntries (applyMutableIdentifierPolicy allowlist policy) = al_hasConfiguredEntries allowlist.
Proof. unfold applyMutableIdentifierPolicy. by repeat case_inner. Qed.

Lemma sender_gate_spec state policy :
  (g_allowed (sender_gate state policy) = true <-> sender_admits state policy) /\
  g_effect (sender_gate state policy) = (if g_allowed (sender_gate state policy) then Allow else BlockDispatch) /\
  (g_reasonCode (sender_gate state policy) = DmPolicyPairingRequired <-> pairing_offered state policy).
Proof.
  unfold pairing_offered, sender_admits, sender_gate, list_matches. destruct (st_conversationKind state) eqn:Ek;
    first [rewrite bool_decide_true by done | rewrite bool_decide_false by done].
  1: { unfold senderGateForDirect. rewrite policy_keeps_wildcard.
    set (dm := matched _). set (store := matched _). clearbody dm store.
    destruct (pl_dmPolicy policy) eqn:Ep; cbn.
    - destruct dm, store, (ev_mayPair (st_event state)); cbn; naive_solver.
    - destruct dm; cbn; [naive_solver|]. unfold allowlistFailureReason. repeat case_inner; cbn; naive_solver.
    - destruct (al_hasWildcard _), dm; cbn; naive_solver.
    - naive_solver. }
  all: unfold senderGateForGroup; set (group := effectiveGroupSenderAllowlist state policy); clearbody group.
  all: destruct (pl_groupPolicy policy); cbn; [|naive_solver..].
  all: destruct (al_hasConfiguredEntries group), (matched (al_match group)); cbn; unfold allowlistFailureReason;
    repeat case_inner; cbn; naive_solver.
Qed.

(** Who may give commands. *)
Definition command_listed (state : ChannelIngressState) (policy : ChannelIngressPolicyInput) : Prop :=
  exists allowlist, allowlist ∈ [als_commandOwner (st_allowlists state); als_commandGroup (st_allowlists state)] /\
    al_hasConfiguredEntries allowlist = true /\ list_matches policy allowlist.

Definition command_authorized (state : ChannelIngressState) (policy : ChannelIngressPolicyInput) : Prop :=
  match pl_command policy with
  | None => True
  | Some command =>
      match default true (cp_useAccessGroups command), default ModeAllow (cp_modeWhenAccessGroupsOff command) with
      | true, _ => command_listed state policy
      | false, ModeAllow => True
      | false, ModeDeny => False
      | false, ModeConfigured =>
          command_listed state policy \/
          al_hasConfiguredEntries (als_commandOwner (st_allowlists state)) = false /\
          al_hasConfiguredEntries (als_commandGroup (st_allowlists state)) = false
      end
  end.

(** A control command in text from a sender who may not give it. *)
Definition command_blocked (state : ChannelIngressState) (policy : ChannelIngressPolicyInput) : Prop :=
  (exists command, pl_command policy = Some command /\ cp_allowTextCommands command = true /\
     cp_hasControlCommand command = true) /\ ~ command_authorized state policy.

Lemma command_gate_spec state policy :
  (g_allowed (commandGate state policy) = true <-> command_authorized state policy) /\
  (effect_is BlockCommand (commandGate state policy) = true <-> command_blocked state policy) /\
  (g_effect (commandGate state policy) = Allow \/ g_effect (commandGate state policy) = BlockCommand).
Proof.
  assert (g_allowed (commandGate state policy) = true <-> command_authorized state policy) as Ha.
  { unfold commandGate, command_authorized. destruct (pl_command policy) as [command|]; [|done].
    cbn [command_gate_of g_allowed]. rewrite !policy_keeps_configured.
    unfold resolveCommandAuthorizedFromAuthorizers, any_authorizes. cbn [existsb ca_configured ca_allowed].
    set (owner := matched _). set (group := matched _).
    assert (command_listed state policy <->
      al_hasConfiguredEntries (als_commandOwner (st_allowlists state)) && owner = true \/
      al_hasConfiguredEntries (als_commandGroup (st_allowlists state)) && group = true) as Hl.
    { unfold command_listed, list_matches. setoid_rewrite elem_of_cons. setoid_rewrite list_elem_of_singleton.
      rewrite !andb_true_iff. unfold owner, group. naive_solver. }
    clearbody owner group. destruct (cp_useAccessGroups command) as [[]|], (cp_modeWhenAccessGroupsOff command) as [[]|];
      cbn; rewrite ?Hl; destruct (al_hasConfiguredEntries (als_commandOwner (st_allowlists state))),
      (al_hasConfiguredEntries (als_commandGroup (st_allowlists state))), owner, group; cbn; naive_solver. }
  split; [done|]. unfold command_blocked. rewrite <- Ha. unfold commandGate, effect_is.
  destruct (pl_command policy) as [command|]; cbn; [|naive_solver].
  set (authorized := resolveCommandAuthorizedFromAuthorizers _ _ _). clearbody authorized.
  destruct (cp_allowTextCommands command) eqn:E1, (cp_hasControlCommand command) eqn:E2, authorized; cbn; naive_solver.
Qed.

(** An event that is tied to a command or to an earlier subject has to fit it. *)
Definition event_authorized (state : ChannelIngressState) (policy : ChannelIngressPolicyInput) : Prop :=
  match ev_authMode (st_event state) with
  | AuthCommand => command_authorized state policy
  | AuthOriginSubject => ev_hasOriginSubject (st_event state) = true /\ ev_originSubjectMatched (st_event state) = true
  | AuthInbound | AuthRouteOnly | AuthNone => True
  end.

Lemma event_gate_spec state policy sender :
  g_allowed sender = true ->
  (g_allowed (eventGate state sender (commandGate state policy)) = true <-> event_authorized state policy) /\
  g_effect (eventGate state sender (commandGate state policy)) =
    (if g_allowed (eventGate state sender (commandGate state policy)) then Allow else BlockDispatch).
Proof.
  intros Hs. unfold eventGate, event_authorized. destruct (ev_authMode (st_event state)); cbn.
  - by rewrite Hs.
  - split; [apply command_gate_spec|done].
  - destruct (ev_hasOriginSubject _), (ev_originSubjectMatched _); cbn; naive_solver.
  - done.
  - done.
Qed.

(** The message is not meant for the agent. *)
Definition unaddressed (state : ChannelIngressState) (policy : ChannelIngressPolicyInput) (commandAuthorized : bool)
    : bool :=
  match pl_activation policy, st_mentionFacts state with
  | Some activation, Some facts =>
      md_shouldSkip (resolveInboundMentionDecision facts (mention_policy state policy activation commandAuthorized))
  | _, _ => false
  end.

Lemma activation_gate_effect state policy command :
  g_effect (activationGate state policy command) = if unaddressed state policy (g_allowed command) then Skip else Allow.
Proof. unfold activationGate, unaddressed. by destruct (pl_activation policy), (st_mentionFacts state). Qed.

(** Before the sender gate no command can stand in for a mention. *)
Lemma early_activation_effect state policy gate command :
  activation_before_sender state policy = Some gate ->
  g_effect gate = if unaddressed state policy command then Skip else Allow.
Proof.
  unfold activation_before_sender. destruct (pl_activation policy) as [a|] eqn:Ea; [|done].
  destruct (bool_decide (ap_order a = Some BeforeSender) && negb (ap_allowTextCommands a)) eqn:E; [|done].
  apply andb_true_iff in E as [_ Ht%negb_true_iff]. intros [= <-]. rewrite activation_gate_effect.
  unfold unaddressed. rewrite Ea. destruct (st_mentionFacts state) as [facts|]; [|done].
  unfold resolveInboundMentionDecision, mention_policy. cbn [mp_allowTextCommands]. by rewrite Ht, !andb_false_r.
Qed.

(** A route that closes the conversation. *)
Definition route_denied (state : ChannelIngressState) : Prop :=
  exists route, route ∈ st_routeFacts state /\
    (rr_effect route = RouteBlockDispatch \/ route_sender_empty route = true).

Lemma route_gates_spec state :
  is_Some (find_first (effect_is BlockDispatch) (routeGates state ++ option_list (routeSenderEmptyGate state))) <->
  route_denied state.
Proof.
  rewrite find_first_app. unfold routeSenderEmptyGate, routeGates, route_denied.
  destruct (find_first (effect_is BlockDispatch) (route_gate <$> st_routeFacts state)) as [g|] eqn:E1.
  - split; [|done]. intros _. apply find_first_elem in E1 as [(r & -> & Hr)%list_elem_of_fmap He].
    exists r. split; [done|]. left. unfold effect_is in He. cbn in He. by destruct (rr_effect r).
  - rewrite find_first_None, Forall_fmap, Forall_forall in E1.
    destruct (find_first route_sender_empty (st_routeFacts state)) as [r|] eqn:E2.
    + split; [|done]. intros _. apply find_first_elem in E2. exists r. naive_solver.
    + rewrite find_first_None, Forall_forall in E2. split; [by intros []|].
      intros (r & Hr & [He|He]); [|by rewrite E2 in He]. specialize (E1 r Hr). cbn in E1. unfold effect_is in E1. cbn in E1.
      by rewrite He in E1.
Qed.

(** ** Laws: decisions *)

(** The effects that keep an event from being dispatched. *)
Definition refuses (gate : AccessGraphGate) : bool :=
  effect_is BlockDispatch gate || effect_is BlockCommand gate || effect_is Skip gate.

(** What a refusing gate makes of the event. *)
Definition refusal (gate : AccessGraphGate) : ChannelIngressAdmission * IngressVerdict :=
  if effect_is Skip gate then (SkipEvent, VerdictAllow)
  else if bool_decide (g_reasonCode gate = DmPolicyPairingRequired) then (PairingRequired, VerdictPairing)
  else (Drop, VerdictBlock).

(** The decision that a list of gates stands for. *)
Definition reads_off (d : ChannelIngressDecision) : Prop :=
  match find_first refuses (de_gates d) with
  | Some gate =>
      de_decisiveGateId d = g_id gate /\ de_reasonCode d = g_reasonCode gate /\
      (de_admission d, de_decision d) = refusal gate
  | None => de_admission d = Dispatch /\ de_decision d = VerdictAllow /\
            exists gate, gate ∈ de_gates d /\ g_phase gate = PhaseActivation /\
                         de_decisiveGateId d = g_id gate /\ de_reasonCode d = g_reasonCode gate
  end.

Lemma reads_off_refusal admission decision gate gates :
  find_first refuses gates = None -> refuses gate = true -> (admission, decision) = refusal gate ->
  reads_off (decisiveDecision admission decision gate (gates ++ [gate])).
Proof. intros Hg Hr E. unfold reads_off. cbn [de_gates decisiveDecision]. rewrite find_first_app, Hg. cbn. by rewrite Hr. Qed.

Lemma find_first_snoc_allowed gates gate :
  find_first refuses gates = None -> refuses gate = false -> find_first refuses (gates ++ [gate]) = None.
Proof. intros Hg Hr. rewrite find_first_app, Hg. cbn. by rewrite Hr. Qed.

Lemma activation_gate_phase state policy command : g_phase (activationGate state policy command) = PhaseActivation.
Proof. unfold activationGate. by destruct (pl_activation policy), (st_mentionFacts state). Qed.

Lemma early_activation_phase state policy gate :
  activation_before_sender state policy = Some gate -> g_phase gate = PhaseActivation.
Proof.
  unfold activation_before_sender. destruct (pl_activation policy); [|done]. destruct (_ && _); [|done].
  intros [= <-]. apply activation_gate_phase.
Qed.

(** Only the sender gate asks for pairing. *)
Lemma command_gate_reason state policy : g_reasonCode (commandGate state policy) <> DmPolicyPairingRequired.
Proof. unfold commandGate. destruct (pl_command policy); [|done]. cbn. by case_inner. Qed.

Lemma event_gate_reason state sender command : g_reasonCode (eventGate state sender command) <> DmPolicyPairingRequired.
Proof. unfold eventGate. repeat case_inner; cbn; by repeat case_inner. Qed.

Lemma refusal_drop gate :
  g_effect gate <> Skip -> g_reasonCode gate <> DmPolicyPairingRequired -> refusal gate = (Drop, VerdictBlock).
Proof. intros He Hr. unfold refusal, effect_is. by rewrite !bool_decide_false by done. Qed.

Lemma refuses_effect gate :
  refuses gate = match g_effect gate with BlockDispatch | BlockCommand | Skip => true | _ => false end.
Proof. unfold refuses, effect_is. by destruct (g_effect gate). Qed.

(** The end of the decision: the activation gate, looked at before or now. *)
Lemma decide_activation state policy early command gates :
  find_first refuses gates = None ->
  (forall gate, early = Some gate -> gate ∈ gates /\ activation_before_sender state policy = Some gate /\
                                     g_effect gate = Allow) ->
  let activation := default (activationGate state policy command) early in
  let gates := match early with Some _ => gates | None => gates ++ [activation] end in
  let d := if effect_is Skip activation then decisiveDecision SkipEvent VerdictAllow activation gates
           else if effect_is Observe activation then decisiveDecision ObserveOnly VerdictAllow activation gates
           else decisiveDecision Dispatch VerdictAllow activation gates in
  reads_off d /\ de_admission d <> PairingRequired /\
  (de_admission d = Dispatch <-> unaddressed state policy (g_allowed command) = false).
Proof.
  intros Hg Hearly. cbv zeta. destruct early as [gate|]; cbn [default from_option id].
  - destruct (Hearly gate eq_refl) as (Hin & Hgate & He). unfold effect_is. rewrite !He, !bool_decide_false by done.
    pose proof (early_activation_effect _ _ _ (g_allowed command) Hgate) as Hu. rewrite He in Hu.
    split; [|split; [done|by destruct (unaddressed _ _ _)]].
    unfold reads_off. cbn [de_gates decisiveDecision]. rewrite Hg. split_and!; [done..|].
    exists gate. by rewrite (early_activation_phase _ _ _ Hgate).
  - pose proof (activation_gate_effect state policy command) as He. pose proof (activation_gate_phase state policy command) as Hp.
    set (gate := activationGate state policy command) in *. clearbody gate. unfold effect_is. rewrite !He.
    destruct (unaddressed state policy (g_allowed command)).
    + rewrite bool_decide_true by done. cbv iota. split; [|split; [done|naive_solver]]. apply reads_off_refusal; [done|by rewrite refuses_effect, He|]. unfold refusal, effect_is. by rewrite He.
    + rewrite !bool_decide_false by done. cbv iota. split; [|split; [done|naive_solver]]. unfold reads_off. cbn [de_gates decisiveDecision].
      rewrite find_first_snoc_allowed by (done || by rewrite refuses_effect, He). split_and!; [done..|].
      exists gate. split; [|done]. apply elem_of_app. right. by left.
Qed.

(** The end of the decision, from the command gate on. *)
Lemma decide_after_sender_spec state policy early sender gates :
  g_allowed sender = true -> find_first refuses gates = None ->
  (forall gate, early = Some gate -> gate ∈ gates /\ activation_before_sender state policy = Some gate /\
                                     g_effect gate = Allow) ->
  let d := decide_after_sender state policy early sender gates in
  reads_off d /\ de_admission d <> PairingRequired /\
  (de_admission d = Dispatch <->
    ~ command_blocked state policy /\ event_authorized state policy /\
    unaddressed state policy (g_allowed (commandGate state policy)) = false).
Proof.
  intros Hs Hg Hearly. cbv zeta. unfold decide_after_sender.
  destruct (command_gate_spec state policy) as (_ & Hb & He), (event_gate_spec state policy sender Hs) as [Hea Hee].
  pose proof (command_gate_reason state policy) as Hcr.
  pose proof (event_gate_reason state sender (commandGate state policy)) as Her.
  set (command := commandGate state policy) in *. clearbody command.
  set (event := eventGate state sender command) in *. clearbody event.
  destruct (effect_is BlockCommand command) eqn:Ec.
  { unfold effect_is in Ec. apply bool_decide_eq_true in Ec. split; [|split; [done|naive_solver]].
    apply reads_off_refusal; [done|by rewrite refuses_effect, Ec|]. rewrite refusal_drop by congruence. done. }
  assert (refuses command = false) as Hrc.
  { rewrite refuses_effect. destruct He as [->|E]; [done|]. unfold effect_is in Ec. by rewrite E in Ec. }
  pose proof (find_first_snoc_allowed _ _ Hg Hrc) as Hg1.
  destruct (g_allowed event) eqn:Eev; cbn [negb].
  - assert (refuses event = false) as Hre by (by rewrite refuses_effect, Hee).
    edestruct (decide_activation state policy early command _ (find_first_snoc_allowed _ _ Hg1 Hre)) as (H1 & H2 & H3).
    { intros gate E. destruct (Hearly gate E) as (Hin & ?). split; [|done]. by rewrite !elem_of_app; left; left. }
    split; [exact H1|]. split; [exact H2|]. etransitivity; [exact H3|]. naive_solver.
  - split; [|split; [done|naive_solver]].
    apply reads_off_refusal; [done|by rewrite refuses_effect, Hee|]. rewrite refusal_drop by congruence. done.
Qed.

(** The middle: the sender gate, as far as the event asks for it. *)
Lemma decide_sender_spec state policy early gates :
  find_first refuses gates = None ->
  (forall gate, early = Some gate -> gate ∈ gates /\ activation_before_sender state policy = Some gate /\
                                     g_effect gate = Allow) ->
  let d := decide_sender state policy early gates in
  reads_off d /\
  (de_admission d = PairingRequired <->
    ev_authMode (st_event state) = AuthInbound /\ pairing_offered state policy) /\
  (de_admission d = Dispatch <->
    (ev_authMode (st_event state) = AuthInbound -> sender_admits state policy) /\
    ~ command_blocked state policy /\ event_authorized state policy /\
    unaddressed state policy (g_allowed (commandGate state policy)) = false).
Proof.
  intros Hg Hearly. cbv zeta. unfold decide_sender. fold (sender_gate state policy).
  destruct (sender_gate_spec state policy) as (Ha & He & Hr).
  assert (pairing_offered state policy -> ~ sender_admits state policy) as Hno by (by intros (_ & _ & _ & ?)).
  set (sender := sender_gate state policy) in *. clearbody sender.
  unfold applyEventAuthModeToSenderGate.
  assert (forall gate, g_allowed gate = true -> refuses gate = false ->
    (ev_authMode (st_event state) = AuthInbound -> sender_admits state policy) ->
    let d := decide_after_sender state policy early gate (gates ++ [gate]) in
    reads_off d /\
    (de_admission d = PairingRequired <-> ev_authMode (st_event state) = AuthInbound /\ pairing_offered state policy) /\
    (de_admission d = Dispatch <->
      (ev_authMode (st_event state) = AuthInbound -> sender_admits state policy) /\
      ~ command_blocked state policy /\ event_authorized state policy /\
      unaddressed state policy (g_allowed (commandGate state policy)) = false)) as Hrest.
  { intros gate Hgate Href Hin. cbv zeta.
    edestruct (decide_after_sender_spec state policy early gate _ Hgate (find_first_snoc_allowed _ _ Hg Href)) as (H1 & H2 & H3).
    { intros g E. destruct (Hearly g E) as (? & ?). split; [|done]. rewrite elem_of_app. by left. }
    split; [exact H1|]. split; [naive_solver|]. rewrite H3. naive_solver. }
  destruct (g_allowed sender) eqn:Es.
  - rewrite orb_true_r. rewrite Es. cbn [negb]. apply Hrest; [done|by rewrite refuses_effect, He|naive_solver].
  - rewrite orb_false_r. destruct (bool_decide (ev_authMode (st_event state) = AuthInbound)) eqn:Em.
    + apply bool_decide_eq_true in Em. rewrite Es. cbn [negb].
      destruct (bool_decide (g_reasonCode sender = DmPolicyPairingRequired)) eqn:Ep.
      * pose proof Ep as Ep'. apply bool_decide_eq_true in Ep'. split; [|split; naive_solver].
        apply reads_off_refusal; [done|by rewrite refuses_effect, He|]. unfold refusal, effect_is. by rewrite He, Ep.
      * apply bool_decide_eq_false in Ep. split; [|split; naive_solver].
        apply reads_off_refusal; [done|by rewrite refuses_effect, He|]. rewrite refusal_drop by congruence. done.
    + apply bool_decide_eq_false in Em. cbn [g_allowed negb]. apply Hrest; [done..|naive_solver].
Qed.

(** The gates of the routes. *)
Definition route_gates (state : ChannelIngressState) : list AccessGraphGate :=
  routeGates state ++ option_list (routeSenderEmptyGate state).

Lemma route_gate_shape state gate :
  gate ∈ route_gates state ->
  refuses gate = effect_is BlockDispatch gate /\ g_reasonCode gate <> DmPolicyPairingRequired.
Proof.
  unfold route_gates, routeGates, routeSenderEmptyGate. rewrite elem_of_app, list_elem_of_fmap.
  intros [(r & -> & _)|Hg].
  - unfold refuses, effect_is. cbn. by destruct (rr_effect r).
  - destruct (find_first _ _) as [r|]; cbn in Hg; [|by apply not_elem_of_nil in Hg].
    by apply list_elem_of_singleton in Hg as ->.
Qed.

(** What keeps the event from its sender gate: a route, or a missing mention
    where mentions are looked at first. *)
Definition early_skip (state : ChannelIngressState) (policy : ChannelIngressPolicyInput) : bool :=
  match activation_before_sender state policy with
  | Some _ => unaddressed state policy true
  | None => false
  end.

Lemma decide_spec state policy :
  let d := decideChannelIngress state policy in
  reads_off d /\
  (de_admission d = PairingRequired <->
    ~ route_denied state /\ early_skip state policy = false /\
    ev_authMode (st_event state) = AuthInbound /\ pairing_offered state policy) /\
  (de_admission d = Dispatch <->
    ~ route_denied state /\
    (ev_authMode (st_event state) = AuthInbound -> sender_admits state policy) /\
    ~ command_blocked state policy /\ event_authorized state policy /\
    unaddressed state policy (g_allowed (commandGate state policy)) = false).
Proof.
  cbv zeta. unfold decideChannelIngress. fold (route_gates state).
  pose proof (route_gates_spec state) as Hroute. fold (route_gates state) in Hroute.
  pose proof (find_first_ext refuses (effect_is BlockDispatch) (route_gates state)
    (fun g Hg => proj1 (route_gate_shape state g Hg))) as Href.
  destruct (find_first (effect_is BlockDispatch) (route_gates state)) as [gate|] eqn:Eb.
  { assert (route_denied state) as Hd by (by apply Hroute).
    split; [|split; naive_solver]. unfold reads_off. cbn [de_gates decisiveDecision]. rewrite Href. split_and!; [done..|].
    apply find_first_elem in Eb as [Hin Hbl]. unfold effect_is in Hbl. apply bool_decide_eq_true in Hbl.
    rewrite refusal_drop; [done|congruence|]. by apply (route_gate_shape state). }
  assert (~ route_denied state) as Hnd by (rewrite <- Hroute; by intros []). clear Hroute Eb.
  unfold early_skip. destruct (activation_before_sender state policy) as [gate|] eqn:Ea.
  - pose proof (fun c => early_activation_effect state policy gate c Ea) as Hgate.
    assert (unaddressed state policy true = unaddressed state policy (g_allowed (commandGate state policy))) as Hsame.
    { pose proof (Hgate true) as H1. rewrite (Hgate (g_allowed (commandGate state policy))) in H1.
      by destruct (unaddressed state policy true), (unaddressed state policy _). }
    specialize (Hgate true). unfold effect_is at 1 2 3. rewrite Hgate.
    destruct (unaddressed state policy true) eqn:Eu.
    + rewrite bool_decide_true by done. cbv iota. rewrite <- Hsame. split; [|split; naive_solver].
      apply reads_off_refusal; [done|by rewrite refuses_effect, Hgate|]. unfold refusal, effect_is. by rewrite Hgate.
    + rewrite bool_decide_false by done. cbv iota.
      edestruct (decide_sender_spec state policy (Some gate) (route_gates state ++ [gate])) as (H1 & H2 & H3).
      { apply find_first_snoc_allowed; [done|by rewrite refuses_effect, Hgate]. }
      { intros g [= <-]. split; [apply elem_of_app; right; by left|done]. }
      split; [exact H1|]. split; [rewrite H2|rewrite H3]; naive_solver.
  - edestruct (decide_sender_spec state policy None (route_gates state)) as (H1 & H2 & H3); [done..|].
    split; [exact H1|]. split; [rewrite H2|rewrite H3]; naive_solver.
Qed.

(** The decision can be read off its graph: it is that of the first gate that
    refuses, and without one the event is dispatched.  In particular no event
    is merely observed. *)
Theorem decision_read_off_graph state policy :
  let d := decideChannelIngress state policy in
  match find_first refuses (de_gates d) with
  | Some gate =>
      de_decisiveGateId d = g_id gate /\ de_reasonCode d = g_reasonCode gate /\
      (de_admission d, de_decision d) = refusal gate
  | None => de_admission d = Dispatch /\ de_decision d = VerdictAllow /\
            exists gate, gate ∈ de_gates d /\ g_phase gate = PhaseActivation /\
                         de_decisiveGateId d = g_id gate /\ de_reasonCode d = g_reasonCode gate
  end.
Proof. apply (decide_spec state policy). Qed.

(** C10. An inbound event, a command or an event of an original subject is
    dispatched exactly when no route denies it, its sender is admitted (for
    inbound events), it is no control command of someone who may not give it, its
    mode authorises it, and it is meant for the agent.  When mentions are looked
    at does not matter.  (The two trusted modes are left out: the guide says that
    they pass by gates at which the code still refuses them.) *)
Theorem dispatched_iff state policy :
  ev_authMode (st_event state) ∈ [AuthInbound; AuthCommand; AuthOriginSubject] ->
  de_admission (decideChannelIngress state policy) = Dispatch <->
  ~ route_denied state /\
  (ev_authMode (st_event state) = AuthInbound -> sender_admits state policy) /\
  ~ command_blocked state policy /\ event_authorized state policy /\
  unaddressed state policy (g_allowed (commandGate state policy)) = false.
Proof. intros _. apply (decide_spec state policy). Qed.

(** An unknown sender is offered to pair exactly in a direct conversation under
    the pairing policy, for an inbound event that may pair and whose sender is
    in neither list. *)
Theorem pairing_required_iff state policy :
  de_admission (decideChannelIngress state policy) = PairingRequired <->
  ~ route_denied state /\ early_skip state policy = false /\
  ev_authMode (st_event state) = AuthInbound /\ st_conversationKind state = Direct /\
  pl_dmPolicy policy = DmPairing /\ ev_mayPair (st_event state) = true /\
  ~ list_matches policy (als_dm (st_allowlists state)) /\
  ~ list_matches policy (als_pairingStore (st_allowlists state)).
Proof.
  destruct (decide_spec state policy) as (_ & -> & _). unfold pairing_offered, sender_admits.
  split; intros (H1 & H2 & H3 & H4 & H5 & H6 & H7); repeat (split; [done|]); revert H7;
    rewrite bool_decide_true by done; rewrite H5; tauto.
Qed.

(** ** The sender gate of the graph *)

Lemma decide_after_sender_gates state policy early sender gates :
  gates `prefix_of` de_gates (decide_after_sender state policy early sender gates).
Proof.
  unfold decide_after_sender.
  repeat (case_inner; cbn [decisiveDecision de_gates]); rewrite <- ?app_assoc; by apply prefix_app_r.
Qed.

Lemma decide_sender_gates state policy early gates :
  gates ++ [applyEventAuthModeToSenderGate state (sender_gate state policy)] `prefix_of`
    de_gates (decide_sender state policy early gates).
Proof.
  unfold decide_sender. fold (sender_gate state policy). destruct (g_allowed _); cbn [negb].
  - apply decide_after_sender_gates.
  - by case_inner.
Qed.

(** The sender gate, wherever an event gets that far. *)
Definition evaluated_sender (state : ChannelIngressState) (policy : ChannelIngressPolicyInput)
    : option AccessGraphGate :=
  match find_first (effect_is BlockDispatch) (route_gates state) with
  | Some _ => None
  | None => if early_skip state policy then None
            else Some (applyEventAuthModeToSenderGate state (sender_gate state policy))
  end.

Lemma find_sender_prefix (p : AccessGraphGate -> bool) before sender gates :
  Forall (fun g => p g = false) before -> p sender = true -> before ++ [sender] `prefix_of` gates ->
  find_first p gates = Some sender.
Proof.
  intros Hb Hs [rest ->]. rewrite <- app_assoc, find_first_app, (proj2 (find_first_None _ _) Hb). cbn. by rewrite Hs.
Qed.

(** Gates of the sender phase are looked for by a test that holds of the sender
    gate and of no route or activation gate. *)
Lemma graph_sender_gate state policy (p : AccessGraphGate -> bool) :
  (forall g, g_phase g <> PhaseSender -> p g = false) ->
  p (applyEventAuthModeToSenderGate state (sender_gate state policy)) = true ->
  find_first p (de_gates (decideChannelIngress state policy)) = evaluated_sender state policy.
Proof.
  intros Hp Hs.
  assert (Forall (fun g => p g = false) (route_gates state)) as Hroute.
  { apply Forall_forall. intros g Hg. apply Hp. unfold route_gates, routeGates, routeSenderEmptyGate in Hg.
    apply elem_of_app in Hg as [(r & -> & _)%list_elem_of_fmap|Hg]; [done|].
    destruct (find_first _ _); cbn in Hg; [by apply list_elem_of_singleton in Hg as ->|by apply not_elem_of_nil in Hg]. }
  unfold decideChannelIngress, evaluated_sender, early_skip. fold (route_gates state).
  destruct (find_first (effect_is BlockDispatch) (route_gates state)) as [g|]; [by apply find_first_None|].
  destruct (activation_before_sender state policy) as [gate|] eqn:Ea.
  - assert (Forall (fun g => p g = false) (route_gates state ++ [gate])) as Hb.
    { apply Forall_app. split; [done|]. constructor; [|done]. apply Hp. by rewrite (early_activation_phase _ _ _ Ea). }
    unfold effect_is at 1. rewrite (early_activation_effect _ _ _ true Ea). destruct (unaddressed state policy true).
    + rewrite bool_decide_true by done. cbv iota. by apply find_first_None.
    + rewrite bool_decide_false by done. cbv iota. apply (find_sender_prefix _ _ _ _ Hb Hs). apply decide_sender_gates.
  - apply (find_sender_prefix _ _ _ _ Hroute Hs). apply decide_sender_gates.
Qed.

Lemma event_mode_keeps_kind state gate :
  g_phase (applyEventAuthModeToSenderGate state gate) = g_phase gate /\
  g_kind (applyEventAuthModeToSenderGate state gate) = g_kind gate.
Proof. unfold applyEventAuthModeToSenderGate. by destruct (_ || _). Qed.

Lemma sender_gate_kind state policy :
  g_phase (sender_gate state policy) = PhaseSender /\
  g_kind (sender_gate state policy) =
    (if bool_decide (st_conversationKind state = Direct) then GateDmSender else GateGroupSender).
Proof.
  unfold sender_gate, senderGateForDirect, senderGateForGroup. cbv zeta. repeat case_inner; done.
Qed.

Lemma event_mode_allowed state policy :
  (g_allowed (applyEventAuthModeToSenderGate state (sender_gate state policy)) = true <->
     (ev_authMode (st_event state) = AuthInbound -> sender_admits state policy)) /\
  (g_reasonCode (applyEventAuthModeToSenderGate state (sender_gate state policy)) = DmPolicyPairingRequired <->
     ev_authMode (st_event state) = AuthInbound /\ pairing_offered state policy).
Proof.
  destruct (sender_gate_spec state policy) as (Ha & _ & Hr).
  assert (pairing_offered state policy -> ~ sender_admits state policy) as Hno by (by intros (_ & _ & _ & ?)).
  unfold applyEventAuthModeToSenderGate. case_bool_decide as Hm; cbn [orb].
  - rewrite Ha, Hr. naive_solver.
  - destruct (g_allowed (sender_gate state policy)) eqn:E; cbn; [|naive_solver]. rewrite E, Hr. naive_solver.
Qed.

Lemma evaluated_sender_spec state policy :
  evaluated_sender state policy =
    if bool_decide (is_Some (find_first (effect_is BlockDispatch) (route_gates state))) || early_skip state policy
    then None else Some (applyEventAuthModeToSenderGate state (sender_gate state policy)).
Proof. unfold evaluated_sender. destruct (find_first _ _); by destruct (early_skip _ _). Qed.

Lemma activation_reason state policy command : g_reasonCode (activationGate state policy command) <> DmPolicyPairingRequired.
Proof. unfold activationGate. repeat case_inner; unfold activation_result; cbn; by repeat case_inner. Qed.

Lemma early_activation_reason state policy gate :
  activation_before_sender state policy = Some gate -> g_reasonCode gate <> DmPolicyPairingRequired.
Proof.
  unfold activation_before_sender. destruct (pl_activation policy); [|done]. destruct (_ && _); [|done].
  intros [= <-]. apply activation_reason.
Qed.

(** An event that does not get to its sender gate is not offered to pair. *)
Lemma unevaluated_reason state policy :
  evaluated_sender state policy = None -> de_reasonCode (decideChannelIngress state policy) <> DmPolicyPairingRequired.
Proof.
  unfold evaluated_sender, decideChannelIngress, early_skip. fold (route_gates state).
  destruct (find_first (effect_is BlockDispatch) (route_gates state)) as [g|] eqn:Eb.
  - intros _. apply find_first_elem in Eb as [Hin _]. by apply (route_gate_shape state).
  - destruct (activation_before_sender state policy) as [gate|] eqn:Ea; [|done].
    destruct (unaddressed state policy true) eqn:Eu; [|done]. intros _.
    unfold effect_is at 1. rewrite (early_activation_effect _ _ _ true Ea), Eu, bool_decide_true by done.
    by apply (early_activation_reason state policy).
Qed.

Lemma early_skip_unaddressed state policy command :
  early_skip state policy = true -> unaddressed state policy command = true.
Proof.
  unfold early_skip. destruct (activation_before_sender state policy) as [gate|] eqn:Ea; [|done]. intros Eu.
  pose proof (early_activation_effect _ _ _ true Ea) as H1. rewrite Eu, (early_activation_effect _ _ _ command Ea) in H1.
  by destruct (unaddressed state policy command).
Qed.

(** ** Who gets through *)

Section admission.
  Context {A : IngressAdapter} {S : IngressAdapterSpec A}.
  Context (localeCompare : jstr -> jstr -> Z).

  (** The configured lists that may admit the sender. *)
Definition sender_sources (input : ChannelIngressStateInput) (policy : ChannelIngressPolicyInput)
      : list (option (list list_entry) * MatchContext) :=
    let lists := si_allowlists input in
    if bool_decide (si_conversationKind input = Direct) then
      (in_dm lists, DmContext) ::
      (if bool_decide (pl_dmPolicy policy = DmPairing) then [(in_pairingStore lists, DmContext)] else [])
    else group_sources localeCompare input policy.

Lemma list_match_source input policy rawEntries context :
    list_matches policy (resolveIngressAllowlist input rawEntries context) ->
    exists g, grounded input context rawEntries g /\ (mutable_enabled policy = false -> safe_ground g = true).
  Proof. apply policy_match_safe, resolved_list_explained. Qed.

  (** An inbound event that is dispatched has a sender whom the policy admits:
      anybody under an open policy with a wildcard, or else a sender with a
      ground in the lists that count, which is no mutable identifier unless the
      policy enables these. *)
Theorem dispatched_sender_has_ground input policy :
    ei_authMode (si_event input) = AuthInbound ->
    de_admission (decideChannelIngress (resolveChannelIngressState localeCompare input) policy) = Dispatch ->
    (if bool_decide (si_conversationKind input = Direct)
     then pl_dmPolicy policy = DmOpen /\ al_hasWildcard (resolveIngressAllowlist input (in_dm (si_allowlists input)) DmContext) = true
     else pl_groupPolicy policy = GroupOpen) \/
    exists g, from_sources input (sender_sources input policy) g /\
              (mutable_enabled policy = false -> safe_ground g = true).
  Proof.
    intros Hm Hd. apply (decide_spec _ policy) in Hd as (_ & Hs & _). specialize (Hs Hm).
    unfold sender_admits, sender_sources in *. cbn [resolveChannelIngressState st_conversationKind st_allowlists als_dm als_pairingStore] in Hs.
    assert (forall rawEntries rest, list_matches policy (resolveIngressAllowlist input rawEntries DmContext) ->
      (rawEntries, DmContext) ∈ rest ->
      exists g, from_sources input rest g /\ (mutable_enabled policy = false -> safe_ground g = true)) as Hlist.
    { intros rawEntries rest (g & Hg & Hsafe)%list_match_source Hin. exists g. split; [|done]. by exists (rawEntries, DmContext). }
    case_bool_decide.
    - destruct (pl_dmPolicy policy) eqn:Ep.
      + right. destruct Hs as [Hs|Hs]; apply (Hlist _ _ Hs); set_solver.
      + right. apply (Hlist _ _ Hs). set_solver.
      + destruct Hs as [Hs|Hs]; [by left|]. right. apply (Hlist _ _ Hs). set_solver.
      + done.
    - destruct (pl_groupPolicy policy); [right|by left|done].
      destruct Hs as [_ Hs]. unfold effectiveGroupSenderAllowlist in Hs.
      eapply policy_match_safe; [apply group_list_explained|done].
  Qed.
End admission.

(** The store of paired senders counts under the pairing policy, in direct
    conversations, and nowhere else. *)
Definition with_pairing_store (state : ChannelIngressState) (pairingStore : ResolvedIngressAllowlist)
    : ChannelIngressState :=
  {| st_channelId := st_channelId state; st_accountId := st_accountId state;
     st_conversationKind := st_conversationKind state; st_event := st_event state;
     st_mentionFacts := st_mentionFacts state; st_routeFacts := st_routeFacts state;
     st_allowlists :=
       {| als_dm := als_dm (st_allowlists state); als_pairingStore := pairingStore;
          als_group := als_group (st_allowlists state);
          als_commandOwner := als_commandOwner (st_allowlists state);
          als_commandGroup := als_commandGroup (st_allowlists state) |} |}.

Lemma sender_gate_store state policy store :
  st_conversationKind state <> Direct \/ pl_dmPolicy policy <> DmPairing ->
  sender_gate (with_pairing_store state store) policy = sender_gate state policy.
Proof.
  intros H. unfold sender_gate. cbn [with_pairing_store st_conversationKind].
  case_bool_decide as Hk; [|done]. assert (pl_dmPolicy policy <> DmPairing) as Hp by naive_solver.
  unfold senderGateForDirect. by rewrite !(bool_decide_false (pl_dmPolicy policy = DmPairing)).
Qed.

Theorem pairing_store_only_for_pairing state policy store :
  st_conversationKind state <> Direct \/ pl_dmPolicy policy <> DmPairing ->
  decideChannelIngress (with_pairing_store state store) policy = decideChannelIngress state policy.
Proof.
  intros H. unfold decideChannelIngress, decide_sender.
  fold (sender_gate state policy) (sender_gate (with_pairing_store state store) policy).
  rewrite !(sender_gate_store _ _ _ H). done.
Qed.

(** ** A dispatched message *)

(** An open direct conversation. *)
Definition wildcard_list : ResolvedIngressAllowlist := {|
  al_rawEntryCount := 1; al_normalizedEntries := []; al_invalidEntries := []; al_disabledEntries := [];
  al_matchedEntryIds := []; al_hasConfiguredEntries := true; al_hasMatchableEntries := false; al_hasWildcard := true;
  al_accessGroups := {| ag_referenced := []; ag_matched := []; ag_missing := []; ag_unsupported := []; ag_failed := [] |};
  al_match := {| matched := false; matchedEntryIds := [] |} |}.

Definition open_state : ChannelIngressState := {|
  st_channelId := lit "test"; st_accountId := lit "main"; st_conversationKind := Direct;
  st_event := {| ev_kind := EvMessage; ev_authMode := AuthInbound; ev_mayPair := true; ev_hasOriginSubject := false;
                 ev_originSubjectMatched := false |};
  st_mentionFacts := None; st_routeFacts := [];
  st_allowlists := {| als_dm := wildcard_list; als_pairingStore := wildcard_list; als_group := wildcard_list;
                      als_commandOwner := wildcard_list; als_commandGroup := wildcard_list |} |}.

Definition open_policy (dmPolicy : DmPolicy) : ChannelIngressPolicyInput := {|
  pl_dmPolicy := dmPolicy; pl_groupPolicy := GroupDisabled; pl_groupAllowFromFallbackToAllowFrom := None;
  pl_mutableIdentifierMatching := None; pl_activation := None; pl_command := None |}.

Lemma dispatched_iff_witness :
  sender_admits open_state (open_policy DmOpen) /\ ~ route_denied open_state /\
  de_admission (decideChannelIngress open_state (open_policy DmDisabled)) <> Dispatch.
Proof.
  assert (ev_authMode (st_event open_state) ∈ [AuthInbound; AuthCommand; AuthOriginSubject]) as Hmode by (by left).
  assert (de_admission (decideChannelIngress open_state (open_policy DmOpen)) = Dispatch) as Hd by (vm_compute; reflexivity).
  apply (dispatched_iff _ _ Hmode) in Hd as (Hroute & Hsender & _).
  split; [by apply Hsender|]. split; [exact Hroute|]. vm_compute. discriminate.
Defined.
