(* ===== verification/IngressIdentity.v ===== *)
(** * Identities of senders

    [src/channels/message-access/runtime-identity.ts]: the identity fields of a
    channel, the adapter they give, which is an instance of [IngressAdapter]
    with its specification, and the subject of an event.

    Normalisers and hooks are functions that a channel supplies.  (Keys of
    aliases are no names of members that every object inherits.) *)
From S2P Require Import Prelude JsString JsMap Normalization AllowFrom MentionGating IngressState IngressAllowlist IngressDecision.
#[local] Open Scope nat_scope.

(** ** Descriptors *)

(** [boolean | ((value) => boolean | undefined)]. *)
Inductive DangerousMark := DangerousFlag (b : bool) | DangerousWhen (f : jstr -> option bool).

Record ChannelIngressIdentityField := {
  fd_key : option jstr;
  fd_kind : option jstr;
  fd_normalize : option (jstr -> option jstr);
  fd_normalizeEntry : option (jstr -> option jstr);
  fd_normalizeSubject : option (jstr -> option jstr);
  fd_dangerous : option DangerousMark;
  fd_sensitivity : option Sensitivity;
}.

Record ResolvedIdentityField := { rif_key : jstr; rif_kind : jstr; rif_field : ChannelIngressIdentityField }.

Record EntryIdParams := { eip_entry : jstr; eip_entryIndex : nat; eip_fieldKey : jstr; eip_fieldIndex : nat }.

Record ChannelIngressIdentityDescriptor := {
  id_primary : ChannelIngressIdentityField;
  id_aliases : option (list (jstr * ChannelIngressIdentityField));
  id_isWildcardEntry : option (jstr -> bool);
  id_matchEntry : option (InternalChannelIngressSubject -> InternalNormalizedEntry -> MatchContext -> option bool);
  id_resolveEntryId : option (EntryIdParams -> jstr);
}.

(** The parameters of [defineStableChannelIngressIdentity]. *)
Record StableChannelIngressIdentityParams := {
  sp_primary : ChannelIngressIdentityField;
  sp_aliases : option (list (jstr * ChannelIngressIdentityField));
  sp_isWildcardEntry : option (jstr -> bool);
  sp_matchEntry : option (InternalChannelIngressSubject -> InternalNormalizedEntry -> MatchContext -> option bool);
  sp_entryIdPrefix : option jstr;
  sp_resolveEntryId : option (EntryIdParams -> jstr);
}.

Definition number_text (n : nat) : jstr := js_number_string (Z.of_nat n).

Definition defineStableChannelIngressIdentity (params : StableChannelIngressIdentityParams)
    : ChannelIngressIdentityDescriptor :=
  {| id_primary := sp_primary params;
     id_aliases := sp_aliases params;
     id_isWildcardEntry := sp_isWildcardEntry params;
     id_matchEntry := sp_matchEntry params;
     id_resolveEntryId :=
       match sp_resolveEntryId params with
       | Some resolve => Some resolve
       | None =>
           (fun prefix entry => prefix ++ lit "-" ++ number_text (eip_entryIndex entry + 1))
             <$> (sp_entryIdPrefix params ≫= non_empty)
       end |}.

(** ** Fields *)

Inductive NormalizeMode := EntryMode | SubjectMode.

Definition normalizeFieldValue (field : ResolvedIdentityField) (value : jstr) (mode : NormalizeMode) : option jstr :=
  let f := rif_field field in
  let shared := default Some (fd_normalize f) in
  let normalize :=
    match mode with
    | EntryMode => default shared (fd_normalizeEntry f)
    | SubjectMode => default shared (fd_normalizeSubject f)
    end in
  normalize value ≫= (fun normalized => non_empty (trim normalized)).

Definition fieldDangerous (field : ResolvedIdentityField) (value : jstr) : option bool :=
  match fd_dangerous (rif_field field) with
  | Some (DangerousWhen f) => f value
  | Some (DangerousFlag b) => Some b
  | None => None
  end.

Definition primary_field (identity : ChannelIngressIdentityDescriptor) : ResolvedIdentityField :=
  let f := id_primary identity in
  {| rif_key := default (lit "stableId") (fd_key f); rif_kind := default (lit "stable-id") (fd_kind f);
     rif_field := f |}.

Definition alias_field (alias : jstr * ChannelIngressIdentityField) : ResolvedIdentityField :=
  {| rif_key := alias.1; rif_kind := default (lit "plugin:" ++ alias.1) (fd_kind alias.2); rif_field := alias.2 |}.

Definition identityFields (identity : ChannelIngressIdentityDescriptor) : list ResolvedIdentityField :=
  primary_field identity :: (alias_field <$> default [] (id_aliases identity)).

Definition identityMatchKey (kind value : jstr) : jstr := kind ++ lit ":" ++ value.

(** ** The adapter *)

Definition adapterEntry (identity : ChannelIngressIdentityDescriptor) (field : ResolvedIdentityField)
    (fieldIndex : nat) (entry : jstr) (entryIndex : nat) (value : jstr) (fallbackSuffix : option jstr)
    : InternalNormalizedEntry :=
  {| ie_entry :=
       {| ne_opaqueEntryId :=
            match id_resolveEntryId identity with
            | Some resolve =>
                resolve {| eip_entry := entry; eip_entryIndex := entryIndex; eip_fieldKey := rif_key field;
                           eip_fieldIndex := fieldIndex |}
            | None => lit "entry-" ++ number_text (entryIndex + 1) ++ lit ":" ++ default (rif_key field) fallbackSuffix
            end;
          ne_kind := rif_kind field;
          ne_dangerous := fieldDangerous field entry;
          ne_sensitivity := fd_sensitivity (rif_field field) |};
     ie_value := value |}.

Definition is_wildcard_entry (identity : ChannelIngressIdentityDescriptor) (entry : jstr) : bool :=
  match id_isWildcardEntry identity with
  | Some isWildcardEntry => isWildcardEntry entry
  | None => bool_decide (entry = lit "*")
  end.

(** The entries that one string gives. *)
Definition normalize_entry (identity : ChannelIngressIdentityDescriptor) (entryIndex : nat) (entry : jstr)
    : list InternalNormalizedEntry :=
  if is_wildcard_entry identity entry then
    [adapterEntry identity (primary_field identity) 0 entry entryIndex (lit "*") (Some (lit "wildcard"))]
  else
    mjoin (imap (fun fieldIndex field =>
      match normalizeFieldValue field entry EntryMode with
      | None => []
      | Some value => [adapterEntry identity field fieldIndex entry entryIndex value None]
      end) (identityFields identity)).

Definition subject_keys (identity : ChannelIngressIdentityDescriptor) (subject : InternalChannelIngressSubject)
    : list jstr :=
  js_set (sub_identifiers subject ≫= (fun identifier =>
    match find_first (fun candidate => bool_decide (rif_kind candidate = im_kind identifier)) (identityFields identity) with
    | None => []
    | Some field =>
        match normalizeFieldValue field (im_value identifier) SubjectMode with
        | None => []
        | Some value => [identityMatchKey (im_kind identifier) value]
        end
    end)).

Definition identity_entry_hits (identity : ChannelIngressIdentityDescriptor)
    (subject : InternalChannelIngressSubject) (entry : InternalNormalizedEntry) (context : MatchContext) : bool :=
  let fallback :=
    bool_decide (ie_value entry = lit "*") ||
    includes (identityMatchKey (ne_kind (ie_entry entry)) (ie_value entry)) (subject_keys identity subject) in
  default fallback (id_matchEntry identity ≫= (fun matchEntry => matchEntry subject entry context)).

#[export] Instance createIdentityAdapter (identity : ChannelIngressIdentityDescriptor) : IngressAdapter := {|
  normalizeEntries entries _ _ :=
    {| nr_matchable := mjoin (imap (normalize_entry identity) entries); nr_invalid := []; nr_disabled := [] |};
  matchSubject subject entries context :=
    let ids := (fun entry => ne_opaqueEntryId (ie_entry entry)) <$>
      List.filter (fun entry => identity_entry_hits identity subject entry context) entries in
    {| matched := 0 <? length ids; matchedEntryIds := ids |};
|}.

(** ** Subjects *)

Record ChannelIngressIdentitySubjectInput := {
  sbi_stableId : option list_entry;
  sbi_aliases : option (list (jstr * option list_entry));
}.

Definition createIdentitySubject (identity : ChannelIngressIdentityDescriptor)
    (input : ChannelIngressIdentitySubjectInput) : InternalChannelIngressSubject :=
  {| sub_identifiers :=
       mjoin (imap (fun index field =>
         let rawValue :=
           if index =? 0 then sbi_stableId input
           else mjoin (jm_get (rif_key field) (default [] (sbi_aliases input))) in
         match rawValue with
         | None => []
         | Some rawValue =>
             let value := text_of rawValue in
             [{| im_opaqueId := rif_key field; im_kind := rif_kind field;
                 im_dangerous := fieldDangerous field value;
                 im_sensitivity := fd_sensitivity (rif_field field); im_value := value |}]
         end) (identityFields identity)) |}.

(** ** The adapter meets its specification *)

(** What a string becomes: a wildcard, or its value as some field. *)
Definition identity_entry_of (identity : ChannelIngressIdentityDescriptor) (raw : jstr) (e : InternalNormalizedEntry)
    : Prop :=
  exists field, field ∈ identityFields identity /\
    ne_kind (ie_entry e) = rif_kind field /\ ne_dangerous (ie_entry e) = fieldDangerous field raw /\
    if is_wildcard_entry identity raw then ie_value e = lit "*"
    else normalizeFieldValue field raw EntryMode = Some (ie_value e).

Lemma elem_of_mjoin_imap {X Y} (f : nat -> X -> list Y) (l : list X) y :
  y ∈ mjoin (imap f l) <-> exists i x, l !! i = Some x /\ y ∈ f i x.
Proof.
  rewrite list_elem_of_join. split.
  - intros (k & Hy & Hk). apply list_elem_of_lookup in Hk as [i Hi]. rewrite list_lookup_imap in Hi.
    destruct (l !! i) as [x|] eqn:E; [|done]. injection Hi as <-. by exists i, x.
  - intros (i & x & Hx & Hy). exists (f i x). split; [done|]. apply list_elem_of_lookup. exists i.
    by rewrite list_lookup_imap, Hx.
Qed.

Lemma identity_normalizeEntries_of identity (entries : list jstr) e :
  e ∈ mjoin (imap (normalize_entry identity) entries) -> exists raw, raw ∈ entries /\ identity_entry_of identity raw e.
Proof.
  intros (i & raw & Hraw & He)%elem_of_mjoin_imap. exists raw. split; [by eapply list_elem_of_lookup_2|].
  unfold normalize_entry, identity_entry_of in *. destruct (is_wildcard_entry identity raw).
  - apply list_elem_of_singleton in He as ->. exists (primary_field identity). split; [by left|done].
  - apply elem_of_mjoin_imap in He as (j & field & Hf & He). exists field.
    split; [by eapply list_elem_of_lookup_2|].
    destruct (normalizeFieldValue field raw EntryMode); [|by apply not_elem_of_nil in He].
    by apply list_elem_of_singleton in He as ->.
Qed.

#[export] Instance identity_adapter_spec identity : IngressAdapterSpec (createIdentityAdapter identity).
Proof.
  refine {| entry_of := identity_entry_of identity; entry_hits := identity_entry_hits identity |}.
  - intros entries context accountId e. apply identity_normalizeEntries_of.
  - done.
Defined.

(** The keys of a sender are the values of its identifiers, as the first field
    of their kind normalises them. *)
Definition has_identity (identity : ChannelIngressIdentityDescriptor) (subject : InternalChannelIngressSubject)
    (kind value : jstr) : Prop :=
  exists identifier field, identifier ∈ sub_identifiers subject /\ im_kind identifier = kind /\
    find_first (fun candidate => bool_decide (rif_kind candidate = kind)) (identityFields identity) = Some field /\
    normalizeFieldValue field (im_value identifier) SubjectMode = Some value.

Lemma elem_of_subject_keys identity subject key :
  key ∈ subject_keys identity subject <->
  exists kind value, has_identity identity subject kind value /\ key = identityMatchKey kind value.
Proof.
  unfold subject_keys, has_identity. rewrite elem_of_js_set, list_elem_of_bind. split.
  - intros (identifier & Hk & Hin). destruct (find_first _ _) as [field|] eqn:Ef; [|by apply not_elem_of_nil in Hk].
    destruct (normalizeFieldValue _ _ _) as [value|] eqn:Ev; [|by apply not_elem_of_nil in Hk].
    apply list_elem_of_singleton in Hk as ->. exists (im_kind identifier), value. split; [|done].
    exists identifier, field. naive_solver.
  - intros (kind & value & (identifier & field & Hin & <- & Ef & Ev) & ->). exists identifier. split; [|done].
    rewrite Ef, Ev. by apply list_elem_of_singleton.
Qed.

(** ** Match keys *)

(** The kinds a channel may use: a plain name, or [plugin:] with one. *)
Definition plain_kind (kind : jstr) : Prop :=
  (free_of ":"%char kind /\ kind <> lit "plugin") \/
  exists key, kind = lit "plugin:" ++ key /\ free_of ":"%char key.

Lemma split_match_key kind value :
  free_of ":"%char kind -> split_on ":"%char (identityMatchKey kind value) = kind :: split_on ":"%char value.
Proof. intros H. unfold identityMatchKey. exact (split_on_app ":"%char kind value H). Qed.

(** Match keys of plain kinds are injective. *)
Lemma match_key_inj k1 v1 k2 v2 :
  plain_kind k1 -> plain_kind k2 -> identityMatchKey k1 v1 = identityMatchKey k2 v2 -> k1 = k2 /\ v1 = v2.
Proof.
  assert (forall key v, free_of ":"%char key ->
    split_on ":"%char (identityMatchKey (lit "plugin:" ++ key) v) = lit "plugin" :: key :: split_on ":"%char v) as Hp.
  { intros key v Hk. unfold identityMatchKey. rewrite <- !app_assoc.
    change (lit "plugin:" ++ key ++ lit ":" ++ v) with (lit "plugin" ++ ":"%char :: (key ++ ":"%char :: v)).
    rewrite split_on_app by (vm_compute; repeat constructor; congruence). f_equal. by apply split_on_app. }
  assert (k1 = k2 -> identityMatchKey k1 v1 = identityMatchKey k2 v2 -> k1 = k2 /\ v1 = v2) as Hsame.
  { intros -> E. unfold identityMatchKey in E. by apply app_inv_head, app_inv_head in E. }
  intros [[H1 N1]|(r1 & -> & H1)] [[H2 N2]|(r2 & -> & H2)] E; pose proof (f_equal (split_on ":"%char) E) as Es;
    rewrite ?(split_match_key k1), ?(split_match_key k2), ?Hp in Es by done;
    injection Es; intros; first [congruence | apply Hsame; [congruence|done]].
Qed.
