(* ===== verification/IngressRuntime.v ===== *)
(** * Access of inbound events

    [src/channels/message-access/runtime-access-groups.ts] (section 1) and
    [runtime.ts] with the types of [runtime-types.ts] (sections 2 to 4): the raw
    lists of a channel account become the state and the policy of an event, and
    its decision is projected for the handlers of the channel.

    Callbacks are functions: the reader of the pairing store and the resolver of
    dynamic groups return [None] when they reject.  An option of a
    configuration object that is set to [undefined] counts as absent.  [None] as
    the result is the exception for an empty channel id. *)
From S2P Require Import Prelude JsString JsMap AllowFrom MentionGating IngressState IngressAllowlist IngressDecision IngressIdentity.
#[local] Open Scope nat_scope.

(** ** Inputs *)

Inductive GroupOwnerAllowFrom := OwnersConfigured | OwnersNone.
Inductive DirectGroupAllowFrom := GroupEffective | GroupNone.

#[global] Instance group_owner_eq_dec : EqDecision GroupOwnerAllowFrom.
Proof. solve_decision. Defined.

#[global] Instance direct_group_eq_dec : EqDecision DirectGroupAllowFrom.
Proof. solve_decision. Defined.

Record ChannelMessageIngressCommandInput := {
  ci_policy : CommandPolicy;
  ci_commandOwnerAllowFrom : option (list list_entry);
  ci_groupOwnerAllowFrom : option GroupOwnerAllowFrom;
  ci_directGroupAllowFrom : option DirectGroupAllowFrom;
  ci_commandGroupAllowFromFallbackToAllowFrom : option bool;
}.

Record ChannelIngressRouteDescriptor := {
  rd_id : jstr;
  rd_kind : option RouteKind;
  rd_configured : option bool;
  rd_matched : option bool;
  rd_allowed : option bool;
  rd_enabled : option bool;
  rd_precedence : option Z;
  rd_senderPolicy : option RouteSenderPolicy;
  rd_senderAllowFrom : option (list list_entry);
  rd_senderAllowFromSource : option RouteSenderAllowlistSource;
  rd_matchId : option jstr;
  rd_blockReason : option jstr;
}.

Inductive RouteInput := NoRoute | OneRoute (route : ChannelIngressRouteDescriptor)
  | ManyRoutes (routes : list ChannelIngressRouteDescriptor).

(** Reads the store: outer [None] when it rejects, inner for no list. *)
Definition StoreReader : Type := jstr -> jstr -> DmPolicy -> option (option (list list_entry)).

(** [name], [group], [channelId], [accountId], [subject]. *)
Definition MembershipResolver : Type :=
  jstr -> group_value -> jstr -> jstr -> ChannelIngressIdentitySubjectInput -> option bool.

Record ResolveChannelMessageIngressParams := {
  pr_channelId : jstr;
  pr_accountId : jstr;
  pr_identity : ChannelIngressIdentityDescriptor;
  pr_subject : ChannelIngressIdentitySubjectInput;
  pr_conversationKind : ConversationKind;
  pr_event : ChannelIngressEventInput;
  pr_policy : ChannelIngressPolicyInput;
  pr_allowFrom : option (list list_entry);
  pr_groupAllowFrom : option (list list_entry);
  pr_route : RouteInput;
  pr_routeFacts : option (list RouteGateFacts);
  pr_accessGroups : option (list (jstr * AccessGroupConfig));
  pr_accessGroupMembership : option (list AccessGroupMembershipFact);
  pr_resolveAccessGroupMembership : option MembershipResolver;
  pr_accessGroupMatchedAllowFromEntry : option list_entry;
  pr_providerMissingFallbackApplied : option bool;
  pr_mentionFacts : option InboundMentionFacts;
  pr_readStoreAllowFrom : option StoreReader;
  pr_useDefaultPairingStore : option bool;
  pr_command : option ChannelMessageIngressCommandInput;
}.

(** ** 1. Access groups *)

Definition accessGroupNames (entries : list list_entry) : list jstr :=
  uniqueStrings (omap (fun entry => parseAccessGroupAllowFromEntry (text_of entry)) entries).

Definition allReferencedAccessGroupNames (entries : list (list list_entry)) : list jstr :=
  uniqueStrings (entries ≫= accessGroupNames).

Definition normalizeEffectiveEntries (identity : ChannelIngressIdentityDescriptor) (accountId : jstr)
    (entries : list jstr) (context : MatchContext) : list jstr :=
  let rawEntries := normalizeStringEntries entries in
  let is_reference entry := bool_decide (is_Some (parseAccessGroupAllowFromEntry entry)) in
  let accessGroupEntries := List.filter is_reference rawEntries in
  let directEntries := List.filter (fun entry => negb (is_reference entry)) rawEntries in
  match directEntries with
  | [] => accessGroupEntries
  | _ =>
      let normalized := normalizeEntries (IngressAdapter := createIdentityAdapter identity) directEntries context accountId in
      uniqueStrings (accessGroupEntries ++ (ie_value <$> nr_matchable normalized))
  end.

Definition membership_fact (name : jstr) (result : option bool) : AccessGroupMembershipFact :=
  {| fact_groupName := name; fact_source := Dynamic;
     fact_outcome :=
       match result with
       | Some true => MembershipMatched [lit "access-group:" ++ name]
       | Some false => MembershipNotMatched
       | None => MembershipUnknown MembershipFailed AccessGroupFailed (Some (lit "access-group:" ++ name))
       end |}.

(** The groups that a hook decides. *)
Definition dynamic_group (group : option group_value) : option group_value :=
  match group with
  | Some (ConfiguredGroup (MessageSenders _)) | None => None
  | Some group => Some group
  end.

Definition resolveRuntimeAccessGroupMembershipFacts (input : ResolveChannelMessageIngressParams)
    (channelId : jstr) (names : list jstr) : list AccessGroupMembershipFact :=
  match pr_resolveAccessGroupMembership input with
  | None => []
  | Some resolve =>
      omap (fun name =>
        (fun group => membership_fact name (resolve name group channelId (pr_accountId input) (pr_subject input)))
          <$> dynamic_group (access_group (pr_accessGroups input) name)) names
  end.

(** ** 2. The pieces of a resolution *)

Definition dm_policy_text (p : DmPolicy) : jstr :=
  match p with
  | DmPairing => lit "pairing" | DmAllowlist => lit "allowlist" | DmOpen => lit "open" | DmDisabled => lit "disabled"
  end.

Definition shouldReadStore (conversationKind : ConversationKind) (dmPolicy : DmPolicy) : bool :=
  bool_decide (conversationKind = Direct) && negb (bool_decide (dmPolicy = DmAllowlist)) &&
  negb (bool_decide (dmPolicy = DmOpen)).

Definition normalizeChannelId (id : jstr) : option jstr := non_empty (trim id).

Definition routeDescriptors (route : RouteInput) : list ChannelIngressRouteDescriptor :=
  match route with NoRoute => [] | OneRoute route => [route] | ManyRoutes routes => routes end.

(** [false], [null] and [undefined] are dropped. *)
Definition channelIngressRoutes (routes : list (option ChannelIngressRouteDescriptor))
    : list ChannelIngressRouteDescriptor := omap (fun route => route) routes.

Definition routeDescriptorMatch (descriptor : ChannelIngressRouteDescriptor) : IngressMatch :=
  let m :=
    match rd_matched descriptor, rd_allowed descriptor with
    | Some matched, _ => matched
    | None, Some allowed => allowed
    | None, None => negb (bool_decide (rd_enabled descriptor = Some false))
    end in
  {| matched := m;
     matchedEntryIds := if m then option_list (rd_matchId descriptor ≫= non_empty) else [] |}.

(** [routeFact] on the defaults of a descriptor. *)
Definition routeFact (descriptor : ChannelIngressRouteDescriptor) (kind : option RouteKind) (gate : RouteGateState)
    (effect : RouteEffect) (senderPolicy : option RouteSenderPolicy) : RouteGateFacts :=
  {| rf_id := rd_id descriptor;
     rf_kind := default KRoute kind;
     rf_gate := gate;
     rf_effect := effect;
     rf_precedence := default 0%Z (rd_precedence descriptor);
     rf_senderPolicy := default Inherit senderPolicy;
     rf_senderAllowFrom := rd_senderAllowFrom descriptor;
     rf_senderAllowFromSource := rd_senderAllowFromSource descriptor;
     rf_match := Some (routeDescriptorMatch descriptor) |}.

Definition route_descriptor_facts (descriptor : ChannelIngressRouteDescriptor) : list RouteGateFacts :=
  let kind := rd_kind descriptor in
  let policy := rd_senderPolicy descriptor in
  if bool_decide (rd_configured descriptor = Some false) then []
  else if bool_decide (rd_enabled descriptor = Some false) then
    [routeFact descriptor kind RouteDisabled RouteBlockDispatch policy]
  else
    match rd_allowed descriptor with
    | Some allowed =>
        [routeFact descriptor kind (if allowed then RouteMatched else RouteNotMatched)
           (if allowed then RouteAllow else RouteBlockDispatch) policy]
    | None =>
        let deny := bool_decide (policy = Some DenyWhenEmpty) in
        if negb deny && bool_decide (rd_senderAllowFrom descriptor = None) &&
           (if rd_senderAllowFromSource descriptor is None then true else false)
        then []
        else [routeFact descriptor (if deny then kind else Some KRouteSender) RouteMatched RouteAllow
                (if deny then Some DenyWhenEmpty else policy)]
    end.

Definition routeFactsFromDescriptors (route : RouteInput) : list RouteGateFacts :=
  routeDescriptors route ≫= route_descriptor_facts.

Definition commandOwnerAllowFrom (command : option ChannelMessageIngressCommandInput) (isGroup : bool)
    (configuredAllowFrom effectiveAllowFrom : list jstr) : list list_entry :=
  match command ≫= ci_commandOwnerAllowFrom with
  | Some entries => entries
  | None =>
      EText <$> (if negb isGroup then effectiveAllowFrom
                 else if bool_decide (command ≫= ci_groupOwnerAllowFrom = Some OwnersNone) then []
                 else configuredAllowFrom)
  end.

Definition commandGroupAllowFrom (command : option ChannelMessageIngressCommandInput) (isGroup : bool)
    (effectiveCommandGroupAllowFrom : list jstr) : list jstr :=
  if isGroup then effectiveCommandGroupAllowFrom
  else if bool_decide (command ≫= ci_directGroupAllowFrom = Some GroupEffective)
  then effectiveCommandGroupAllowFrom else [].

Definition accessGroupMatchedEntry (params : ResolveChannelMessageIngressParams) : option jstr :=
  text_of <$> match pr_accessGroupMatchedAllowFromEntry params with
              | Some entry => Some entry
              | None => sbi_stableId (pr_subject params)
              end.

Definition appendAccessGroupMatchedEntry (entries : list jstr) (allowlist : ResolvedIngressAllowlist)
    (matchedEntry : option jstr) : list jstr :=
  match matchedEntry ≫= non_empty with
  | Some entry =>
      if 0 <? length (ag_matched (al_accessGroups allowlist)) then uniqueStrings (entries ++ [entry]) else entries
  | None => entries
  end.

(** ** 3. Projections *)

Record ChannelIngressSenderAccess := {
  sx_allowed : bool;
  sx_decision : IngressVerdict;
  sx_reasonCode : IngressReasonCode;
  sx_gate : option AccessGraphGate;
  sx_effectiveAllowFrom : list jstr;
  sx_effectiveGroupAllowFrom : list jstr;
  sx_providerMissingFallbackApplied : bool;
}.

Record ChannelIngressRouteAccess := {
  rx_allowed : bool;
  rx_reasonCode : option IngressReasonCode;
  rx_reason : option jstr;
  rx_gate : option AccessGraphGate;
}.

Record ChannelIngressCommandAccess := {
  cx_requested : bool;
  cx_authorized : bool;
  cx_shouldBlockControlCommand : bool;
  cx_reasonCode : IngressReasonCode;
  cx_gate : option AccessGraphGate;
}.

Record ChannelIngressActivationAccess := {
  ax_ran : bool;
  ax_allowed : bool;
  ax_shouldSkip : bool;
  ax_reasonCode : IngressReasonCode;
  ax_effectiveWasMentioned : option bool;
  ax_shouldBypassMention : option bool;
  ax_gate : option AccessGraphGate;
}.

Definition findIngressGate (ingress : ChannelIngressDecision) (phase : IngressGatePhase) (kind : IngressGateKind)
    : option AccessGraphGate :=
  find_first (fun gate => bool_decide (g_phase gate = phase) && bool_decide (g_kind gate = kind)) (de_gates ingress).

Definition findSenderGate (ingress : ChannelIngressDecision) (isGroup : bool) : option AccessGraphGate :=
  findIngressGate ingress PhaseSender (if isGroup then GateGroupSender else GateDmSender).

Definition gate_in (phase : IngressGatePhase) (gate : AccessGraphGate) : bool := bool_decide (g_phase gate = phase).

Definition sender_suffix : jstr := lit ":sender".

Definition strip_sender_suffix (id : jstr) : jstr :=
  if starts_with (rev sender_suffix) (rev id) then take (length id - length sender_suffix) id else id.

Definition routeDescriptorForGate (descriptors : list ChannelIngressRouteDescriptor) (gate : AccessGraphGate)
    : option ChannelIngressRouteDescriptor :=
  find_first (fun descriptor =>
    bool_decide (rd_id descriptor = g_id gate) || bool_decide (rd_id descriptor = strip_sender_suffix (g_id gate)))
    descriptors.

Definition replaces_with_reason (descriptor : ChannelIngressRouteDescriptor) : bool :=
  bool_decide (rd_senderPolicy descriptor = Some Replace) && truthy_opt (rd_blockReason descriptor).

Definition projectRouteAccess (ingress : ChannelIngressDecision) (route : RouteInput) : ChannelIngressRouteAccess :=
  let descriptors := routeDescriptors route in
  let blocked phase := find_first (fun entry => gate_in phase entry && effect_is BlockDispatch entry) (de_gates ingress) in
  match blocked PhaseRoute with
  | Some routeBlock =>
      {| rx_allowed := g_allowed routeBlock;
         rx_reasonCode := Some (g_reasonCode routeBlock);
         rx_reason := (routeDescriptorForGate descriptors routeBlock ≫= rd_blockReason) ≫= non_empty;
         rx_gate := Some routeBlock |}
  | None =>
      match find_first replaces_with_reason descriptors, blocked PhaseSender with
      | Some routeSenderReplacement, Some senderBlock =>
          {| rx_allowed := false; rx_reasonCode := Some (g_reasonCode senderBlock);
             rx_reason := rd_blockReason routeSenderReplacement; rx_gate := Some senderBlock |}
      | _, _ =>
          match find_first (gate_in PhaseRoute) (de_gates ingress) with
          | Some gate =>
              {| rx_allowed := g_allowed gate; rx_reasonCode := Some (g_reasonCode gate); rx_reason := None;
                 rx_gate := Some gate |}
          | None => {| rx_allowed := true; rx_reasonCode := None; rx_reason := None; rx_gate := None |}
          end
      end
  end.

Definition projectSenderAccess (ingress : ChannelIngressDecision) (isGroup : bool)
    (effectiveAllowFrom effectiveGroupAllowFrom : list jstr) (providerMissingFallbackApplied : option bool)
    : ChannelIngressSenderAccess :=
  let gate := findSenderGate ingress isGroup in
  let reasonCode :=
    match gate with
    | Some gate => g_reasonCode gate
    | None =>
        if isGroup && bool_decide (de_reasonCode ingress = RouteSenderEmpty) &&
           (length effectiveGroupAllowFrom =? 0)
        then GroupPolicyEmptyAllowlist else de_reasonCode ingress
    end in
  let decision :=
    if bool_decide (reasonCode = DmPolicyPairingRequired) then VerdictPairing
    else if default false (g_allowed <$> gate) then VerdictAllow else VerdictBlock in
  {| sx_allowed := bool_decide (decision = VerdictAllow);
     sx_decision := decision;
     sx_reasonCode := reasonCode;
     sx_gate := gate;
     sx_effectiveAllowFrom := effectiveAllowFrom;
     sx_effectiveGroupAllowFrom := effectiveGroupAllowFrom;
     sx_providerMissingFallbackApplied := default false providerMissingFallbackApplied |}.

Definition projectCommandAccess (ingress : ChannelIngressDecision) (policy : ChannelIngressPolicyInput)
    : ChannelIngressCommandAccess :=
  let gate := findIngressGate ingress PhaseCommand GateCommand in
  let requested := bool_decide (is_Some (pl_command policy)) in
  {| cx_requested := requested;
     cx_authorized := requested && default false (g_allowed <$> gate);
     cx_shouldBlockControlCommand := default false (cf_shouldBlockControlCommand <$> (gate ≫= g_command));
     cx_reasonCode := default (de_reasonCode ingress) (g_reasonCode <$> gate);
     cx_gate := gate |}.

Definition projectActivationAccess (ingress : ChannelIngressDecision) : ChannelIngressActivationAccess :=
  let gate := findIngressGate ingress PhaseActivation GateMention in
  {| ax_ran := bool_decide (is_Some gate);
     ax_allowed := default false (g_allowed <$> gate);
     ax_shouldSkip := default false (af_shouldSkip <$> (gate ≫= g_activation));
     ax_reasonCode := default (de_reasonCode ingress) (g_reasonCode <$> gate);
     ax_effectiveWasMentioned := (gate ≫= g_activation) ≫= af_effectiveWasMentioned;
     ax_shouldBypassMention := (gate ≫= g_activation) ≫= af_shouldBypassMention;
     ax_gate := gate |}.

(** ** 4. The resolution *)

Record ResolvedChannelMessageIngress := {
  rs_state : ChannelIngressState;
  rs_ingress : ChannelIngressDecision;
  rs_senderAccess : ChannelIngressSenderAccess;
  rs_routeAccess : ChannelIngressRouteAccess;
  rs_commandAccess : ChannelIngressCommandAccess;
  rs_activationAccess : ChannelIngressActivationAccess;
}.

Section runtime.
  Context (localeCompare : jstr -> jstr -> Z).
  (** The pairing store on disk. *)
  Context (readChannelAllowFromStore : jstr -> jstr -> option (list jstr)).

Definition readStoreAllowFrom (params : ResolveChannelMessageIngressParams) (channelId : jstr) : list list_entry :=
    let dmPolicy := pl_dmPolicy (pr_policy params) in
    if negb (shouldReadStore (pr_conversationKind params) dmPolicy) then []
    else
      match pr_readStoreAllowFrom params with
      | Some read => default [] (mjoin (read channelId (pr_accountId params) dmPolicy))
      | None =>
          if default false (pr_useDefaultPairingStore params)
          then EText <$> readChannelIngressStoreAllowFromForDmPolicy readChannelAllowFromStore channelId
                           (pr_accountId params) (Some (dm_policy_text dmPolicy)) None None
          else []
      end.

  (** The lists before and after the adapter has normalised them. *)
Definition raw_effective (params : ResolveChannelMessageIngressParams) (storeAllowFrom : list jstr)
      : EffectiveAllowFrom :=
    resolveChannelIngressEffectiveAllowFromLists
      (Some (normalizeStringEntries (default [] (pr_allowFrom params))))
      (Some (normalizeStringEntries (default [] (pr_groupAllowFrom params))))
      (Some storeAllowFrom) (Some (dm_policy_text (pl_dmPolicy (pr_policy params))))
      (pl_groupAllowFromFallbackToAllowFrom (pr_policy params)).

Definition base_effective (params : ResolveChannelMessageIngressParams) (storeAllowFrom : list jstr)
      : EffectiveAllowFrom :=
    let normalizeEffective entries context :=
      normalizeEffectiveEntries (pr_identity params) (pr_accountId params) entries context in
    resolveChannelIngressEffectiveAllowFromLists
      (Some (normalizeEffective (normalizeStringEntries (default [] (pr_allowFrom params))) DmContext))
      (Some (normalizeEffective (normalizeStringEntries (default [] (pr_groupAllowFrom params))) GroupContext))
      (Some (normalizeEffective storeAllowFrom DmContext))
      (Some (dm_policy_text (pl_dmPolicy (pr_policy params))))
      (pl_groupAllowFromFallbackToAllowFrom (pr_policy params)).

Definition raw_command_group (params : ResolveChannelMessageIngressParams) : list jstr :=
    effectiveGroupAllowFrom
      (resolveChannelIngressEffectiveAllowFromLists
         (Some (normalizeStringEntries (default [] (pr_allowFrom params))))
         (Some (normalizeStringEntries (default [] (pr_groupAllowFrom params))))
         None (Some (dm_policy_text (pl_dmPolicy (pr_policy params))))
         match pr_command params ≫= ci_commandGroupAllowFromFallbackToAllowFrom with
         | Some fallback => Some fallback
         | None => pl_groupAllowFromFallbackToAllowFrom (pr_policy params)
         end).

Definition is_group (params : ResolveChannelMessageIngressParams) : bool :=
    negb (bool_decide (pr_conversationKind params = Direct)).

Definition ingress_policy (params : ResolveChannelMessageIngressParams) : ChannelIngressPolicyInput :=
    let policy := pr_policy params in
    {| pl_dmPolicy := pl_dmPolicy policy; pl_groupPolicy := pl_groupPolicy policy;
       pl_groupAllowFromFallbackToAllowFrom := pl_groupAllowFromFallbackToAllowFrom policy;
       pl_mutableIdentifierMatching := pl_mutableIdentifierMatching policy;
       pl_activation := pl_activation policy;
       pl_command := match pr_command params with Some command => Some (ci_policy command) | None => pl_command policy end |}.

Definition all_route_facts (params : ResolveChannelMessageIngressParams) : list RouteGateFacts :=
    routeFactsFromDescriptors (pr_route params) ++ default [] (pr_routeFacts params).

Definition referenced_names (params : ResolveChannelMessageIngressParams) (storeAllowFrom : list jstr) : list jstr :=
    allReferencedAccessGroupNames
      ([EText <$> normalizeStringEntries (default [] (pr_allowFrom params));
        EText <$> normalizeStringEntries (default [] (pr_groupAllowFrom params));
        EText <$> storeAllowFrom;
        default [] (pr_command params ≫= ci_commandOwnerAllowFrom)] ++
       ((fun route => default [] (rf_senderAllowFrom route)) <$> all_route_facts params)).

  (** The argument of [resolveChannelIngressState]. *)
Definition state_input (params : ResolveChannelMessageIngressParams) (channelId : jstr)
      : ChannelIngressStateInput :=
    let rawStoreAllowFrom := normalizeStringEntries (readStoreAllowFrom params channelId) in
    let rawAllowFrom := normalizeStringEntries (default [] (pr_allowFrom params)) in
    let rawEffective := raw_effective params rawStoreAllowFrom in
    let runtimeAccessGroupMembership :=
      resolveRuntimeAccessGroupMembershipFacts params channelId (referenced_names params rawStoreAllowFrom) in
    {| si_channelId := channelId;
       si_accountId := pr_accountId params;
       si_subject := createIdentitySubject (pr_identity params) (pr_subject params);
       si_conversationKind := pr_conversationKind params;
       si_accessGroups := pr_accessGroups params;
       si_accessGroupMembership := Some (runtimeAccessGroupMembership ++ default [] (pr_accessGroupMembership params));
       si_routeFacts := Some (all_route_facts params);
       si_mentionFacts := pr_mentionFacts params;
       si_event := pr_event params;
       si_allowlists :=
         {| in_dm := Some (EText <$> rawAllowFrom);
            in_group := Some (EText <$> effectiveGroupAllowFrom rawEffective);
            in_pairingStore := Some (EText <$> rawStoreAllowFrom);
            in_commandOwner :=
              Some (commandOwnerAllowFrom (pr_command params) (is_group params) rawAllowFrom
                      (effectiveAllowFrom rawEffective));
            in_commandGroup :=
              Some (EText <$> commandGroupAllowFrom (pr_command params) (is_group params) (raw_command_group params)) |} |}.

Definition resolveChannelMessageIngress (params : ResolveChannelMessageIngressParams)
      : option ResolvedChannelMessageIngress :=
    channelId ← normalizeChannelId (pr_channelId params);
    let rawStoreAllowFrom := normalizeStringEntries (readStoreAllowFrom params channelId) in
    let baseEffective := base_effective params rawStoreAllowFrom in
    let policy := ingress_policy params in
    let state :=
      resolveChannelIngressState (A := createIdentityAdapter (pr_identity params)) localeCompare
        (state_input params channelId) in
    let ingress := decideChannelIngress state policy in
    let matchedAccessGroupEntry := accessGroupMatchedEntry params in
    let effectiveAllow :=
      appendAccessGroupMatchedEntry (effectiveAllowFrom baseEffective) (als_dm (st_allowlists state))
        matchedAccessGroupEntry in
    let effectiveGroupAllow :=
      appendAccessGroupMatchedEntry (effectiveGroupAllowFrom baseEffective) (als_group (st_allowlists state))
        matchedAccessGroupEntry in
    Some {| rs_state := state;
            rs_ingress := ingress;
            rs_senderAccess :=
              projectSenderAccess ingress (is_group params) effectiveAllow effectiveGroupAllow
                (pr_providerMissingFallbackApplied params);
            rs_routeAccess := projectRouteAccess ingress (pr_route params);
            rs_commandAccess := projectCommandAccess ingress policy;
            rs_activationAccess := projectActivationAccess ingress |}.

  (** ** 5. Resolvers of an account *)

Record ChannelIngressConfigInput := {
    cfg_accessGroups : option (list (jstr * AccessGroupConfig));
    cfg_useAccessGroups : option bool;
  }.

Record ChannelIngressCommandPresetInput := {
    cpi_requested : option bool;
    cpi_useAccessGroups : option bool;
    cpi_allowTextCommands : option bool;
    cpi_hasControlCommand : option bool;
    cpi_modeWhenAccessGroupsOff : option CommandGatingModeWhenAccessGroupsOff;
    cpi_commandOwnerAllowFrom : option (list list_entry);
    cpi_groupOwnerAllowFrom : option GroupOwnerAllowFrom;
    cpi_directGroupAllowFrom : option DirectGroupAllowFrom;
    cpi_commandGroupAllowFromFallbackToAllowFrom : option bool;
    cpi_cfg : option ChannelIngressConfigInput;
  }.

Record ChannelIngressEventPresetInput := {
    epi_kind : option EventKind;
    epi_authMode : option EventAuthMode;
    epi_mayPair : option bool;
    epi_originSubject : option InternalChannelIngressSubject;
    epi_isGroup : option bool;
  }.

Definition no_event_preset : ChannelIngressEventPresetInput :=
    {| epi_kind := None; epi_authMode := None; epi_mayPair := None; epi_originSubject := None; epi_isGroup := None |}.

  (** The policy fields of a message. *)
Record MessagePolicyInput := {
    mpi_groupAllowFromFallbackToAllowFrom : option bool;
    mpi_mutableIdentifierMatching : option MutableIdentifierMatching;
    mpi_activation : option ActivationPolicy;
  }.

Record CreateChannelIngressResolverParams := {
    cr_channelId : jstr;
    cr_accountId : jstr;
    cr_identity : ChannelIngressIdentityDescriptor;
    cr_accessGroups : option (list (jstr * AccessGroupConfig));
    cr_accessGroupMembership : option (list AccessGroupMembershipFact);
    cr_resolveAccessGroupMembership : option MembershipResolver;
    cr_accessGroupMatchedAllowFromEntry : option list_entry;
    cr_readStoreAllowFrom : option StoreReader;
    cr_useDefaultPairingStore : option bool;
    cr_cfg : option ChannelIngressConfigInput;
    cr_useAccessGroups : option bool;
    cr_defaultDmPolicy : option DmPolicy;
    cr_defaultGroupPolicy : option GroupPolicy;
    cr_groupAllowFromFallbackToAllowFrom : option bool;
    cr_mutableIdentifierMatching : option MutableIdentifierMatching;
  }.

Record ChannelIngressResolverMessageParams := {
    rm_subject : ChannelIngressIdentitySubjectInput;
    rm_conversationKind : ConversationKind;
    rm_event : option ChannelIngressEventPresetInput;
    rm_allowFrom : option (list list_entry);
    rm_groupAllowFrom : option (list list_entry);
    rm_route : RouteInput;
    rm_routeFacts : option (list RouteGateFacts);
    rm_accessGroupMembership : option (list AccessGroupMembershipFact);
    rm_providerMissingFallbackApplied : option bool;
    rm_mentionFacts : option InboundMentionFacts;
    rm_dmPolicy : option DmPolicy;
    rm_groupPolicy : option GroupPolicy;
    rm_policy : option MessagePolicyInput;
    rm_command : option ChannelIngressCommandPresetInput;
  }.

  (** [a ?? b]. *)
Definition or_else {X} (a b : option X) : option X := match a with Some x => Some x | None => b end.

Definition useAccessGroupsFromConfig (useAccessGroups : option bool) (cfg : option ChannelIngressConfigInput) : bool :=
    default (negb (bool_decide (cfg ≫= cfg_useAccessGroups = Some false))) useAccessGroups.

Definition channelIngressCommand (params : ChannelIngressCommandPresetInput)
      : option ChannelMessageIngressCommandInput :=
    if bool_decide (cpi_requested params = Some false) then None
    else
      Some {| ci_policy :=
                {| cp_useAccessGroups := Some (useAccessGroupsFromConfig (cpi_useAccessGroups params) (cpi_cfg params));
                   cp_allowTextCommands := default false (cpi_allowTextCommands params);
                   cp_hasControlCommand := default true (cpi_hasControlCommand params);
                   cp_modeWhenAccessGroupsOff := cpi_modeWhenAccessGroupsOff params |};
              ci_commandOwnerAllowFrom := cpi_commandOwnerAllowFrom params;
              ci_groupOwnerAllowFrom := cpi_groupOwnerAllowFrom params;
              ci_directGroupAllowFrom := cpi_directGroupAllowFrom params;
              ci_commandGroupAllowFromFallbackToAllowFrom := cpi_commandGroupAllowFromFallbackToAllowFrom params |}.

Definition channelIngressEvent (params : ChannelIngressEventPresetInput) : ChannelIngressEventInput :=
    let isGroup := default false (epi_isGroup params) in
    {| ei_kind := default EvMessage (epi_kind params);
       ei_authMode := default AuthInbound (epi_authMode params);
       ei_mayPair := default (negb isGroup) (epi_mayPair params);
       ei_originSubject := epi_originSubject params |}.

  (** [{ ...a, ...b }]. *)
Definition spread_event (a b : ChannelIngressEventPresetInput) : ChannelIngressEventPresetInput :=
    {| epi_kind := or_else (epi_kind b) (epi_kind a); epi_authMode := or_else (epi_authMode b) (epi_authMode a);
       epi_mayPair := or_else (epi_mayPair b) (epi_mayPair a);
       epi_originSubject := or_else (epi_originSubject b) (epi_originSubject a);
       epi_isGroup := or_else (epi_isGroup b) (epi_isGroup a) |}.

  (** [command] is absent or [false] in [None]. *)
Definition resolveCommandInput (command : option ChannelIngressCommandPresetInput) (useAccessGroups : bool)
      : option ChannelMessageIngressCommandInput :=
    match command with
    | None => None
    | Some command =>
        channelIngressCommand
          {| cpi_requested := cpi_requested command;
             cpi_useAccessGroups := or_else (cpi_useAccessGroups command) (Some useAccessGroups);
             cpi_allowTextCommands := cpi_allowTextCommands command;
             cpi_hasControlCommand := cpi_hasControlCommand command;
             cpi_modeWhenAccessGroupsOff := cpi_modeWhenAccessGroupsOff command;
             cpi_commandOwnerAllowFrom := cpi_commandOwnerAllowFrom command;
             cpi_groupOwnerAllowFrom := cpi_groupOwnerAllowFrom command;
             cpi_directGroupAllowFrom := cpi_directGroupAllowFrom command;
             cpi_commandGroupAllowFromFallbackToAllowFrom := cpi_commandGroupAllowFromFallbackToAllowFrom command;
             cpi_cfg := cpi_cfg command |}
    end.

Definition resolveResolverPolicy (base : CreateChannelIngressResolverParams)
      (input : ChannelIngressResolverMessageParams) : ChannelIngressPolicyInput :=
    {| pl_dmPolicy := default DmPairing (or_else (rm_dmPolicy input) (cr_defaultDmPolicy base));
       pl_groupPolicy := default GroupDisabled (or_else (rm_groupPolicy input) (cr_defaultGroupPolicy base));
       pl_groupAllowFromFallbackToAllowFrom :=
         or_else (rm_policy input ≫= mpi_groupAllowFromFallbackToAllowFrom) (cr_groupAllowFromFallbackToAllowFrom base);
       pl_mutableIdentifierMatching :=
         or_else (rm_policy input ≫= mpi_mutableIdentifierMatching) (cr_mutableIdentifierMatching base);
       pl_activation := rm_policy input ≫= mpi_activation;
       pl_command := None |}.

  (** The parameters that a resolver passes on. *)
Definition resolver_params (base : CreateChannelIngressResolverParams)
      (input : ChannelIngressResolverMessageParams) (eventDefaults : ChannelIngressEventPresetInput)
      : ResolveChannelMessageIngressParams :=
    let isGroup := negb (bool_decide (rm_conversationKind input = Direct)) in
    let useAccessGroups := useAccessGroupsFromConfig (cr_useAccessGroups base) (cr_cfg base) in
    let preset :=
      {| epi_kind := None; epi_authMode := None; epi_mayPair := None; epi_originSubject := None;
         epi_isGroup := Some isGroup |} in
    {| pr_channelId := cr_channelId base;
       pr_accountId := cr_accountId base;
       pr_identity := cr_identity base;
       pr_subject := rm_subject input;
       pr_conversationKind := rm_conversationKind input;
       pr_event :=
         channelIngressEvent (spread_event (spread_event preset eventDefaults) (default no_event_preset (rm_event input)));
       pr_policy := resolveResolverPolicy base input;
       pr_allowFrom := rm_allowFrom input;
       pr_groupAllowFrom := rm_groupAllowFrom input;
       pr_route := rm_route input;
       pr_routeFacts := rm_routeFacts input;
       pr_accessGroups := or_else (cr_accessGroups base) (cr_cfg base ≫= cfg_accessGroups);
       pr_accessGroupMembership :=
         Some (default [] (cr_accessGroupMembership base) ++ default [] (rm_accessGroupMembership input));
       pr_resolveAccessGroupMembership := cr_resolveAccessGroupMembership base;
       pr_accessGroupMatchedAllowFromEntry := cr_accessGroupMatchedAllowFromEntry base;
       pr_providerMissingFallbackApplied := rm_providerMissingFallbackApplied input;
       pr_mentionFacts := rm_mentionFacts input;
       pr_readStoreAllowFrom := cr_readStoreAllowFrom base;
       pr_useDefaultPairingStore := cr_useDefaultPairingStore base;
       pr_command := resolveCommandInput (rm_command input) useAccessGroups |}.

Inductive ResolverMethod := ResolveMessage | ResolveCommand | ResolveEvent.

Definition method_defaults (method : ResolverMethod) : ChannelIngressEventPresetInput :=
    {| epi_kind := None;
       epi_authMode := match method with ResolveCommand => Some AuthCommand | _ => None end;
       epi_mayPair := match method with ResolveMessage => None | _ => Some false end;
       epi_originSubject := None; epi_isGroup := None |}.

Definition createChannelIngressResolver (base : CreateChannelIngressResolverParams) (method : ResolverMethod)
      (input : ChannelIngressResolverMessageParams) : option ResolvedChannelMessageIngress :=
    resolveChannelMessageIngress (resolver_params base input (method_defaults method)).

  (** [base] carries every parameter but the identity. *)
Definition resolveStableChannelMessageIngress (identity : StableChannelIngressIdentityParams)
      (base : ChannelIngressIdentityDescriptor -> CreateChannelIngressResolverParams)
      (input : ChannelIngressResolverMessageParams) : option ResolvedChannelMessageIngress :=
    createChannelIngressResolver (base (defineStableChannelIngressIdentity identity)) ResolveMessage input.
End runtime.
