(* ===== verification/IngressAccess.v ===== *)
(** * Who has access

    Theorems about [IngressRuntime]: the admitted senders are listed ones, every
    dynamic group a list references is asked for, the pairing store stays out of
    the other policies, the sender projection says what the sender gate says, and
    examples. *)
From S2P Require Import Prelude JsString JsMap Normalization AllowFrom MentionGating IngressState IngressAllowlist IngressDecision IngressIdentity IngressRuntime.
#[local] Open Scope nat_scope.

(** ** Admitted senders are listed *)

(** A string of an allow list stands for the sender: it is a wildcard, or some
    field makes of it a value that the sender has. *)
Definition stands_for (identity : ChannelIngressIdentityDescriptor) (subject : InternalChannelIngressSubject)
    (field : ResolvedIdentityField) (raw : jstr) : Prop :=
  is_wildcard_entry identity raw = true \/
  exists value, normalizeFieldValue field raw EntryMode = Some value /\
    (value = lit "*" \/ has_identity identity subject (rif_kind field) value).

(** Some configured list has the sender: as a string, mutable only if the
    policy says so, or as the member of a group that it references. *)
Definition sender_listed (identity : ChannelIngressIdentityDescriptor) (input : ChannelIngressStateInput)
    (policy : ChannelIngressPolicyInput) (rawEntries : option (list list_entry)) : Prop :=
  (exists strings raw field, listed input rawEntries strings /\ raw ∈ strings /\ field ∈ identityFields identity /\
     stands_for identity (si_subject input) field raw /\
     (mutable_enabled policy = false -> fieldDangerous field raw <> Some true)) \/
  (exists name ids, name ∈ referencedAccessGroups (normalizeStringEntries (default [] rawEntries)) /\
     fact_outcome <$> jm_get name (accessGroupFactByName (si_accessGroupMembership input)) =
       Some (MembershipMatched ids)).

(** Every kind of field of an identity is plain, and so is every kind of its
    subjects. *)
Definition plain_identity (identity : ChannelIngressIdentityDescriptor) : Prop :=
  Forall (fun field => plain_kind (rif_kind field)) (identityFields identity).

Lemma has_identity_plain identity subject kind value :
  plain_identity identity -> has_identity identity subject kind value -> plain_kind kind.
Proof.
  intros Hp (identifier & field & _ & <- & Hf & _). apply find_first_elem in Hf as [Hin <-%bool_decide_eq_true].
  unfold plain_identity in Hp. rewrite Forall_forall in Hp. by apply Hp.
Qed.

Lemma ground_listed identity input policy rawEntries context g :
  plain_identity identity -> id_matchEntry identity = None ->
  grounded (A := createIdentityAdapter identity) input context rawEntries g ->
  (mutable_enabled policy = false -> safe_ground g = true) -> sender_listed identity input policy rawEntries.
Proof.
  intros Hplain Hm Hg Hsafe. destruct g as [e|name ids]; [left|right; by exists name, ids].
  destruct Hg as (Hh & strings & Hl & He).
  apply identity_normalizeEntries_of in He as (raw & Hraw & field & Hf & Hk & Hd & Hv).
  exists strings, raw, field. split_and!; try done.
  - unfold stands_for. destruct (is_wildcard_entry identity raw) eqn:Ew; [by left|right].
    exists (ie_value e). split; [done|]. cbn in Hh. unfold identity_entry_hits in Hh. rewrite Hm in Hh. cbn in Hh.
    apply orb_true_iff in Hh as [Hh%bool_decide_eq_true|Hh]; [by left|right].
    apply includes_spec, elem_of_subject_keys in Hh as (kind & value & Hid & E).
    apply match_key_inj in E as [<- <-]; [by rewrite <- Hk| |by eapply has_identity_plain].
    rewrite Hk. unfold plain_identity in Hplain. rewrite Forall_forall in Hplain. by apply Hplain.
  - intros E. specialize (Hsafe E). cbn in Hsafe. unfold entry_dangerous in Hsafe. rewrite Hd in Hsafe.
    by intros E'; rewrite E' in Hsafe.
Qed.

(** ** Groups that lists reference *)

Lemma parse_access_group_trim s : parseAccessGroupAllowFromEntry (trim s) = parseAccessGroupAllowFromEntry s.
Proof. unfold parseAccessGroupAllowFromEntry. by rewrite trim_idem. Qed.

Lemma parse_access_group_nil : parseAccessGroupAllowFromEntry [] = None.
Proof. done. Qed.

Lemma referenced_raw (entries : list list_entry) name :
  name ∈ referencedAccessGroups (normalizeStringEntries entries) <->
  exists entry, entry ∈ entries /\ parseAccessGroupAllowFromEntry (text_of entry) = Some name.
Proof.
  rewrite elem_of_referenced. setoid_rewrite elem_of_normalizeStringEntries. split.
  - intros (s & (entry & Hin & -> & _) & Hp). exists entry. by rewrite parse_access_group_trim in Hp.
  - intros (entry & Hin & Hp). exists (trim (text_of entry)). rewrite parse_access_group_trim. split; [|done].
    exists entry. split_and!; [done..|]. intros E. rewrite <- parse_access_group_trim, E in Hp. done.
Qed.

Lemma elem_of_all_names (lists : list (list list_entry)) name :
  name ∈ allReferencedAccessGroupNames lists <->
  exists entries, entries ∈ lists /\ name ∈ referencedAccessGroups (normalizeStringEntries entries).
Proof.
  unfold allReferencedAccessGroupNames, accessGroupNames. rewrite elem_of_uniqueStrings, list_elem_of_bind.
  setoid_rewrite referenced_raw. setoid_rewrite elem_of_uniqueStrings. setoid_rewrite list_elem_of_omap. naive_solver.
Qed.

(** The facts about one group agree. *)
Lemma fact_lookup facts name fact :
  (exists f, f ∈ facts /\ fact_groupName f = name) ->
  (forall f, f ∈ facts -> fact_groupName f = name -> f = fact) ->
  jm_get name (accessGroupFactByName (Some facts)) = Some fact.
Proof.
  unfold accessGroupFactByName. cbn [default from_option id].
  induction facts as [|f facts IH] using rev_ind; intros (g & Hg & Hn) Hall; [by apply not_elem_of_nil in Hg|].
  rewrite fold_left_app. cbn [fold_left]. rewrite jm_get_set. destruct (decide (name = fact_groupName f)) as [E|E].
  - f_equal. apply Hall; [apply elem_of_app; right; by left|done].
  - apply elem_of_app in Hg as [Hg|Hg%list_elem_of_singleton]; [|by subst].
    apply IH; [by exists g|]. intros h Hh. apply Hall. apply elem_of_app. by left.
Qed.

(** The groups of an effective list are those of the lists it is made of. *)
Lemma effective_group_names (allowFrom groupAllowFrom storeAllowFrom : option (list jstr)) dmPolicy fallback s :
  s ∈ effectiveGroupAllowFrom
        (resolveChannelIngressEffectiveAllowFromLists allowFrom groupAllowFrom storeAllowFrom dmPolicy fallback) ->
  s ∈ normalizeStringEntries (default [] allowFrom) \/ s ∈ normalizeStringEntries (default [] groupAllowFrom).
Proof.
  cbn [resolveChannelIngressEffectiveAllowFromLists effectiveGroupAllowFrom]. unfold resolveGroupAllowFromSources.
  rewrite normalizeStringEntries_idem. destruct groupAllowFrom as [[|e l]|]; cbn [default from_option id]; [|by right|].
  all: case_bool_decide; [by intros ?%not_elem_of_nil|by left].
Qed.

Lemma effective_names (allowFrom groupAllowFrom storeAllowFrom : option (list jstr)) dmPolicy fallback s :
  s ∈ effectiveAllowFrom
        (resolveChannelIngressEffectiveAllowFromLists allowFrom groupAllowFrom storeAllowFrom dmPolicy fallback) ->
  s ∈ normalizeStringEntries (default [] allowFrom) \/ s ∈ normalizeStringEntries (default [] storeAllowFrom).
Proof.
  cbn [resolveChannelIngressEffectiveAllowFromLists effectiveAllowFrom]. unfold mergeDmAllowFromSources.
  rewrite normalizeStringEntries_idem, normalizeStringEntries_app, elem_of_app.
  destruct (store_unused dmPolicy); [|done]. intros [?|?%not_elem_of_nil]; [by left|done].
Qed.

(** ** The sender gate in the projection *)

Lemma project_sender_spec state policy direct group missing :
  let d := decideChannelIngress state policy in
  let access := projectSenderAccess d (negb (bool_decide (st_conversationKind state = Direct))) direct group missing in
  (sx_allowed access = true <->
     ~ route_denied state /\ early_skip state policy = false /\
     (ev_authMode (st_event state) = AuthInbound -> sender_admits state policy)) /\
  (sx_decision access = VerdictPairing <-> de_admission d = PairingRequired) /\
  (de_admission d = Dispatch -> sx_allowed access = true).
Proof.
  cbv zeta.
  assert (findSenderGate (decideChannelIngress state policy) (negb (bool_decide (st_conversationKind state = Direct))) =
          evaluated_sender state policy) as E.
  { destruct (sender_gate_kind state policy) as [Hp Hk].
    destruct (event_mode_keeps_kind state (sender_gate state policy)) as [Hp' Hk'].
    apply graph_sender_gate; [intros g Hg; by rewrite bool_decide_false|].
    rewrite Hp', Hp, Hk', Hk. by case_bool_decide. }
  unfold projectSenderAccess. rewrite E. cbv zeta. cbn [sx_allowed sx_decision].
  pose proof (unevaluated_reason state policy) as Hnone. pose proof (early_skip_unaddressed state policy) as Hskip.
  destruct (decide_spec state policy) as (_ & -> & ->), (event_mode_allowed state policy) as [Ha Hr].
  revert Hnone. rewrite evaluated_sender_spec, <- route_gates_spec. fold (route_gates state).
  destruct (bool_decide (is_Some (find_first (effect_is BlockDispatch) (route_gates state)))) eqn:Hroute;
    [apply bool_decide_eq_true in Hroute|apply bool_decide_eq_false in Hroute]; cbn [orb].
  - intros Hnone. specialize (Hnone eq_refl). cbn [fmap option_fmap option_map default from_option].
    repeat case_inner; bool_to_prop; naive_solver.
  - destruct (early_skip state policy) eqn:Ee.
    + intros Hnone. specialize (Hnone eq_refl). specialize (Hskip (g_allowed (commandGate state policy)) eq_refl).
      cbn [fmap option_fmap option_map default from_option].
      repeat case_inner; bool_to_prop; naive_solver.
    + intros _. cbn [fmap option_fmap option_map default from_option id].
      set (gate := applyEventAuthModeToSenderGate state (sender_gate state policy)) in *. clearbody gate.
      destruct (bool_decide (g_reasonCode gate = DmPolicyPairingRequired)) eqn:Ep;
        [apply bool_decide_eq_true in Ep|apply bool_decide_eq_false in Ep]; rewrite Hr in Ep.
      * assert (~ sender_admits state policy) as Hno by (destruct Ep as (_ & _ & _ & _ & H); exact H). naive_solver.
      * destruct (g_allowed gate); cbn; naive_solver.
Qed.

Section access.
  Context (localeCompare : jstr -> jstr -> Z).
  Context (readChannelAllowFromStore : jstr -> jstr -> option (list jstr)).

Abbreviation resolve := (resolveChannelMessageIngress localeCompare readChannelAllowFromStore).
Abbreviation input_of := (state_input readChannelAllowFromStore).

Lemma resolved_ingress params r :
    resolve params = Some r ->
    exists channelId, normalizeChannelId (pr_channelId params) = Some channelId /\
      rs_ingress r =
        decideChannelIngress
          (resolveChannelIngressState (A := createIdentityAdapter (pr_identity params)) localeCompare
             (input_of params channelId))
          (ingress_policy params).
  Proof.
    unfold resolveChannelMessageIngress. destruct (normalizeChannelId _) as [channelId|]; [|done].
    intros [= <-]. by exists channelId.
  Qed.

  (** C8. An inbound event that is dispatched has a sender whom the configuration
      lists, for an identity without a matcher of its own: in the direct list,
      or also in the store under the pairing policy; for a group in the list
      that its policy and routes leave.  The exceptions are the open policies,
      for direct messages only with a wildcard. *)
Theorem admitted_sender_is_listed params r :
    resolve params = Some r -> plain_identity (pr_identity params) -> id_matchEntry (pr_identity params) = None ->
    ei_authMode (pr_event params) = AuthInbound ->
    de_admission (rs_ingress r) = Dispatch ->
    exists channelId, normalizeChannelId (pr_channelId params) = Some channelId /\
      let input := input_of params channelId in
      ((if bool_decide (pr_conversationKind params = Direct)
        then pl_dmPolicy (pr_policy params) = DmOpen /\
             lit "*" ∈ normalizeStringEntries (default [] (pr_allowFrom params))
        else pl_groupPolicy (pr_policy params) = GroupOpen) \/
       exists source, source ∈ sender_sources localeCompare input (ingress_policy params) /\
         sender_listed (pr_identity params) input (ingress_policy params) source.1).
  Proof.
    intros Hr Hplain Hmatch Hauth Hd. destruct (resolved_ingress params r Hr) as (channelId & Hc & E).
    exists channelId. split; [done|]. cbv zeta. rewrite E in Hd.
    apply (dispatched_sender_has_ground (A := createIdentityAdapter (pr_identity params))) in Hd; [|exact Hauth].
    cbn [state_input si_conversationKind] in Hd.
    destruct Hd as [Hopen|(g & (source & Hin & Hg) & Hsafe)].
    - left. destruct (bool_decide _); [|done]. destruct Hopen as [Hp Hw]. split; [done|].
      unfold resolveIngressAllowlist in Hw. cbn [al_hasWildcard state_input si_allowlists in_dm default from_option id] in Hw.
      apply includes_spec, elem_of_direct in Hw as [Hw _].
      apply elem_of_normalizeStringEntries in Hw as (e & (s & -> & Hs)%list_elem_of_fmap & E' & _).
      change (lit "*" = trim s) in E'. pose proof (normalizeStringEntries_normal (default [] (pr_allowFrom params))) as Hn.
      rewrite Forall_forall in Hn. destruct (Hn s Hs) as [Ht _]. rewrite Ht in E'. by rewrite E'.
    - right. exists source. split; [done|]. by eapply ground_listed.
  Qed.

End access.

(** ** Dynamic groups are asked for *)

Section dynamic.
  Context (readChannelAllowFromStore : jstr -> jstr -> option (list jstr)).

Abbreviation input_of := (state_input readChannelAllowFromStore).

  (** The lists that a decision may look at. *)
Definition decision_lists (input : ChannelIngressStateInput) : list (option (list list_entry)) :=
    let lists := si_allowlists input in
    [in_dm lists; in_group lists; in_pairingStore lists; in_commandOwner lists; in_commandGroup lists] ++
    (route_sender_entries input <$> default [] (si_routeFacts input)).

Abbreviation store_of params channelId :=
    (normalizeStringEntries (readStoreAllowFrom readChannelAllowFromStore params channelId)).

  (** A text of one of the raw lists. *)
Definition raw_text (params : ResolveChannelMessageIngressParams) (store : list jstr) (s : jstr) : Prop :=
    s ∈ normalizeStringEntries (default [] (pr_allowFrom params)) \/
    s ∈ normalizeStringEntries (default [] (pr_groupAllowFrom params)) \/ s ∈ store.

Lemma raw_text_names params store texts name :
    (forall s, s ∈ texts -> raw_text params store s) ->
    name ∈ referencedAccessGroups (normalizeStringEntries (EText <$> texts)) -> name ∈ referenced_names params store.
  Proof.
    intros Hin (entry & (s & -> & Hs)%list_elem_of_fmap & Hp)%referenced_raw. unfold referenced_names.
    apply elem_of_all_names.
    assert (forall l, s ∈ l -> name ∈ referencedAccessGroups (normalizeStringEntries (EText <$> l))) as Hl.
    { intros l Hsl. apply referenced_raw. exists (EText s). split; [by apply list_elem_of_fmap_2|done]. }
    destruct (Hin s Hs) as [H|[H|H]]; eexists; (split; [|by apply Hl, H]); set_solver.
  Qed.

Lemma raw_effective_group params store s :
    s ∈ effectiveGroupAllowFrom (raw_effective params store) -> raw_text params store s.
  Proof.
    unfold raw_effective. intros H. apply effective_group_names in H as [H|H]; cbn [default from_option id] in H; rewrite normalizeStringEntries_idem in H;
      [by left|by right; left].
  Qed.

Lemma raw_command_group_text params store s : s ∈ raw_command_group params -> raw_text params store s.
  Proof.
    unfold raw_command_group. intros H. apply effective_group_names in H as [H|H]; cbn [default from_option id] in H; rewrite normalizeStringEntries_idem in H;
      [by left|by right; left].
  Qed.

Lemma raw_effective_direct params (entries : list list_entry) s :
    s ∈ effectiveAllowFrom (raw_effective params (normalizeStringEntries entries)) ->
    raw_text params (normalizeStringEntries entries) s.
  Proof.
    unfold raw_effective. intros H. apply effective_names in H as [H|H]; cbn [default from_option id] in H; rewrite normalizeStringEntries_idem in H;
      [by left|by right; right].
  Qed.

  (** Every group that a list of the event references is among the names that
      are looked up. *)
Lemma decision_lists_covered params channelId rawEntries name :
    rawEntries ∈ decision_lists (input_of params channelId) ->
    name ∈ referencedAccessGroups (normalizeStringEntries (default [] rawEntries)) ->
    name ∈ referenced_names params (store_of params channelId).
  Proof.
    intros Hl Hn.
    assert (forall texts, rawEntries = Some (EText <$> texts) -> (forall s, s ∈ texts -> raw_text params (store_of params channelId) s) ->
      name ∈ referenced_names params (store_of params channelId)) as Htexts.
    { intros texts -> Ht. by eapply raw_text_names. }
    assert (rawEntries = in_dm (si_allowlists (input_of params channelId)) \/
            rawEntries = in_group (si_allowlists (input_of params channelId)) ->
      name ∈ referenced_names params (store_of params channelId)) as Hlists.
    { intros [->| ->]; (eapply Htexts; [done|]); [by left|apply raw_effective_group]. }
    unfold decision_lists in Hl. rewrite elem_of_app, !elem_of_cons, list_elem_of_fmap in Hl.
    destruct Hl as [[H|[H|[H|[H|[H|H]]]]]|(route & H & Hroute)].
    - apply Hlists. by left.
    - apply Hlists. by right.
    - eapply Htexts; [exact H|]. by right; right.
    - cbn [state_input si_allowlists in_commandOwner] in H. unfold commandOwnerAllowFrom in H.
      destruct (pr_command params ≫= ci_commandOwnerAllowFrom) as [owners|] eqn:Eo.
      + subst. apply elem_of_all_names. exists owners. split; [|exact Hn]. rewrite Eo. cbn. set_solver.
      + eapply Htexts; [exact H|]. intros s. destruct (negb (is_group params)); [apply raw_effective_direct|].
        case_bool_decide; [by intros ?%not_elem_of_nil|by left].
    - eapply Htexts; [exact H|]. unfold commandGroupAllowFrom. intros s.
      repeat case_inner; (apply raw_command_group_text || by intros ?%not_elem_of_nil).
    - by apply not_elem_of_nil in H.
    - unfold route_sender_entries in H. destruct (rf_senderAllowFrom route) as [entries|] eqn:Ee.
      + subst. apply elem_of_all_names. exists entries. split; [|exact Hn]. apply elem_of_app. right.
        apply list_elem_of_fmap. exists route. by rewrite Ee.
      + destruct (rf_senderAllowFromSource route) as [[]|]; [apply Hlists; by left|apply Hlists; by right|].
        subst. by apply not_elem_of_nil in Hn.
  Qed.

  (** Every dynamic group that any list of the decision references is put to the
      channel's hook, and what the hook answers (or that it failed) is the fact
      the decision uses, unless the caller brought a fact of its own. *)
Theorem dynamic_groups_asked params channelId rawEntries name group hook :
    rawEntries ∈ decision_lists (input_of params channelId) ->
    name ∈ referencedAccessGroups (normalizeStringEntries (default [] rawEntries)) ->
    dynamic_group (access_group (pr_accessGroups params) name) = Some group ->
    pr_resolveAccessGroupMembership params = Some hook ->
    name ∉ fact_groupName <$> default [] (pr_accessGroupMembership params) ->
    jm_get name (accessGroupFactByName (si_accessGroupMembership (input_of params channelId))) =
      Some (membership_fact name (hook name group channelId (pr_accountId params) (pr_subject params))).
  Proof.
    intros Hl Hn Hg Hhook Hown. pose proof (decision_lists_covered params channelId rawEntries name Hl Hn) as Hname.
    cbn [state_input si_accessGroupMembership]. unfold resolveRuntimeAccessGroupMembershipFacts. rewrite Hhook.
    apply fact_lookup.
    - eexists. split; [|]; [apply elem_of_app; left; apply list_elem_of_omap; exists name; split; [exact Hname|by rewrite Hg]|done].
    - intros f [(n & _ & Hf)%list_elem_of_omap|Hf]%elem_of_app E.
      + destruct (dynamic_group (access_group (pr_accessGroups params) n)) as [g|] eqn:Eg; [|done].
        injection Hf as <-. cbn in E. subst n. by simplify_eq.
      + destruct Hown. rewrite <- E. by apply list_elem_of_fmap_2.
  Qed.

End dynamic.

(** ** The sender projection *)

Section projection.
  Context (localeCompare : jstr -> jstr -> Z).
  Context (readChannelAllowFromStore : jstr -> jstr -> option (list jstr)).

Abbreviation resolve := (resolveChannelMessageIngress localeCompare readChannelAllowFromStore).

  (** The sender access that handlers read says what the sender gate decided:
      the gates after it do not count, so that it may allow an event that the
      ingress decision blocks. *)
Theorem sender_access_is_the_sender_gate params r :
    resolve params = Some r ->
    let state := rs_state r in
    let policy := ingress_policy params in
    (sx_allowed (rs_senderAccess r) = true <->
       ~ route_denied state /\ early_skip state policy = false /\
       (ev_authMode (st_event state) = AuthInbound -> sender_admits state policy)) /\
    (sx_decision (rs_senderAccess r) = VerdictPairing <-> de_admission (rs_ingress r) = PairingRequired) /\
    (de_admission (rs_ingress r) = Dispatch -> sx_allowed (rs_senderAccess r) = true).
  Proof.
    unfold resolveChannelMessageIngress. destruct (normalizeChannelId _) as [channelId|]; [|done].
    cbn [mbind option_bind]. set (state := resolveChannelIngressState _ _).
    assert (is_group params = negb (bool_decide (st_conversationKind state = Direct))) as Hg by done. clearbody state.
    intros [= <-]. cbn [rs_state rs_senderAccess rs_ingress]. cbv zeta. rewrite Hg. apply project_sender_spec.
  Qed.
End projection.

(** ** Examples *)

Section examples.
  (** All ids in one order; no pairing store. *)
Definition no_order (a b : jstr) : Z := 0%Z.
Definition no_store (provider accountId : jstr) : option (list jstr) := Some [].

Definition plain_field : ChannelIngressIdentityField :=
    {| fd_key := None; fd_kind := None; fd_normalize := None; fd_normalizeEntry := None; fd_normalizeSubject := None;
       fd_dangerous := None; fd_sensitivity := None |}.

  (** A display name, which its owner may change. *)
Definition name_field : ChannelIngressIdentityField :=
    {| fd_key := None; fd_kind := None; fd_normalize := None; fd_normalizeEntry := None; fd_normalizeSubject := None;
       fd_dangerous := Some (DangerousFlag true); fd_sensitivity := None |}.

Definition named_identity (entryIdPrefix : option jstr) : ChannelIngressIdentityDescriptor :=
    defineStableChannelIngressIdentity
      {| sp_primary := plain_field; sp_aliases := Some [(lit "name", name_field)]; sp_isWildcardEntry := None;
         sp_matchEntry := None; sp_entryIdPrefix := entryIdPrefix; sp_resolveEntryId := None |}.

Definition example_policy (dmPolicy : DmPolicy) : ChannelIngressPolicyInput :=
    {| pl_dmPolicy := dmPolicy; pl_groupPolicy := GroupAllowlist; pl_groupAllowFromFallbackToAllowFrom := None;
       pl_mutableIdentifierMatching := None; pl_activation := None; pl_command := None |}.

  (** A direct message of the user [u1], called Bob. *)
Definition example_params (entryIdPrefix : option jstr) (dmPolicy : DmPolicy) (allowFrom : list list_entry)
      : ResolveChannelMessageIngressParams :=
    {| pr_channelId := lit "test"; pr_accountId := lit "default"; pr_identity := named_identity entryIdPrefix;
       pr_subject := {| sbi_stableId := Some (EText (lit "u1")); sbi_aliases := Some [(lit "name", Some (EText (lit "Bob")))] |};
       pr_conversationKind := Direct;
       pr_event := {| ei_kind := EvMessage; ei_authMode := AuthInbound; ei_mayPair := true; ei_originSubject := None |};
       pr_policy := example_policy dmPolicy;
       pr_allowFrom := Some allowFrom; pr_groupAllowFrom := None; pr_route := NoRoute; pr_routeFacts := None;
       pr_accessGroups := Some [(lit "ops", DiscordChannelAudience (lit "g") (lit "c"))];
       pr_accessGroupMembership := None;
       pr_resolveAccessGroupMembership := Some (fun _ _ _ _ _ => Some true);
       pr_accessGroupMatchedAllowFromEntry := None; pr_providerMissingFallbackApplied := None;
       pr_mentionFacts := None; pr_readStoreAllowFrom := None; pr_useDefaultPairingStore := None;
       pr_command := None |}.

Definition outcome (entryIdPrefix : option jstr) (dmPolicy : DmPolicy) (allowFrom : list list_entry)
      : option (ChannelIngressAdmission * IngressReasonCode) :=
    (fun r => (de_admission (rs_ingress r), de_reasonCode (rs_ingress r))) <$>
      resolveChannelMessageIngress no_order no_store (example_params entryIdPrefix dmPolicy allowFrom).
End examples.

(** A sender listed by id is admitted, one listed by a name only is not, and an
    unlisted one may pair.  With a prefix for entry ids, the entry of the id and
    the entry of the name that the same string gives share one id, and the
    sender listed by id is refused: the name entry disables both. *)
Theorem prefixed_entry_ids_lock_out :
  outcome None DmAllowlist [EText (lit "u1")] = Some (Dispatch, ActivationAllowed) /\
  outcome None DmAllowlist [EText (lit "Bob")] = Some (Drop, DmPolicyNotAllowlisted) /\
  outcome None DmPairing [EText (lit "u2")] = Some (PairingRequired, DmPolicyPairingRequired) /\
  outcome (Some (lit "user")) DmAllowlist [EText (lit "u1")] = Some (Drop, DmPolicyNotAllowlisted).
Proof. vm_compute. done. Qed.

(** A message that gets through by a dynamic group. *)
Definition ops_params : ResolveChannelMessageIngressParams :=
  example_params None DmAllowlist [EText (lit "accessGroup:ops")].

Lemma ops_params_plain : plain_identity (pr_identity ops_params).
Proof.
  apply Forall_cons. split.
  - left. split; [|done]. apply (bool_decide_eq_true_1 _). by vm_compute.
  - apply Forall_cons. split; [|done]. right. exists (lit "name"). split; [done|].
    apply (bool_decide_eq_true_1 _). by vm_compute.
Qed.

Lemma admitted_sender_is_listed_witness :
  match resolveChannelMessageIngress no_order no_store ops_params with
  | Some r =>
      exists channelId, normalizeChannelId (lit "test") = Some channelId /\
        let input := state_input no_store ops_params channelId in
        ((if bool_decide (Direct = Direct)
          then DmAllowlist = DmOpen /\ lit "*" ∈ normalizeStringEntries [EText (lit "accessGroup:ops")]
          else GroupAllowlist = GroupOpen) \/
         exists source, source ∈ sender_sources no_order input (ingress_policy ops_params) /\
           sender_listed (named_identity None) input (ingress_policy ops_params) source.1)
  | None => False
  end.
Proof.
  destruct (resolveChannelMessageIngress no_order no_store ops_params) as [r|] eqn:E.
  - apply (admitted_sender_is_listed no_order no_store ops_params r E ops_params_plain eq_refl eq_refl).
    assert ((fun r => de_admission (rs_ingress r)) <$> resolveChannelMessageIngress no_order no_store ops_params =
      Some Dispatch) as Hd by (vm_compute; reflexivity).
    rewrite E in Hd. by injection Hd.
  - vm_compute in E. discriminate E.
Defined.

Lemma sender_access_is_the_sender_gate_witness :
  match resolveChannelMessageIngress no_order no_store ops_params with
  | Some r => de_admission (rs_ingress r) = Dispatch -> sx_allowed (rs_senderAccess r) = true
  | None => False
  end.
Proof.
  destruct (resolveChannelMessageIngress no_order no_store ops_params) as [r|] eqn:E.
  - apply (sender_access_is_the_sender_gate no_order no_store ops_params r E).
  - vm_compute in E. discriminate E.
Defined.

Lemma dynamic_groups_asked_witness :
  jm_get (lit "ops") (accessGroupFactByName (si_accessGroupMembership (state_input no_store ops_params (lit "test")))) =
    Some (membership_fact (lit "ops") (Some true)).
Proof.
  apply (dynamic_groups_asked no_store ops_params (lit "test")
    (in_dm (si_allowlists (state_input no_store ops_params (lit "test")))) (lit "ops")
    (ConfiguredGroup (DiscordChannelAudience (lit "g") (lit "c"))) (fun _ _ _ _ _ => Some true)).
  - apply elem_of_app. left. apply list_elem_of_here.
  - apply (bool_decide_eq_true_1 _). by vm_compute.
  - by vm_compute.
  - done.
  - by apply not_elem_of_nil.
Defined.

Abbreviation ops_state :=
  (resolveChannelIngressState (A := createIdentityAdapter (named_identity None)) no_order
     (state_input no_store ops_params (lit "test"))).

Lemma dispatched_sender_has_ground_witness :
  exists g, from_sources (A := createIdentityAdapter (named_identity None)) (state_input no_store ops_params (lit "test"))
              (sender_sources no_order (state_input no_store ops_params (lit "test")) (ingress_policy ops_params)) g /\
            (mutable_enabled (ingress_policy ops_params) = false -> safe_ground g = true).
Proof.
  destruct (dispatched_sender_has_ground (A := createIdentityAdapter (named_identity None)) no_order
    (state_input no_store ops_params (lit "test")) (ingress_policy ops_params)) as [[H _]|H]; [done|by vm_compute|done|exact H].
Defined.

Lemma pairing_store_only_for_pairing_witness :
  decideChannelIngress (with_pairing_store ops_state (als_dm (st_allowlists ops_state))) (ingress_policy ops_params) =
    decideChannelIngress ops_state (ingress_policy ops_params).
Proof. apply pairing_store_only_for_pairing. by right. Defined.

Lemma resolved_list_explained_witness :
  explains (grounded (A := createIdentityAdapter (named_identity None)) (state_input no_store ops_params (lit "test"))
              DmContext (Some [EText (lit "u1")]))
    (resolveIngressAllowlist (A := createIdentityAdapter (named_identity None))
       (state_input no_store ops_params (lit "test")) (Some [EText (lit "u1")]) DmContext).
Proof. apply resolved_list_explained. Defined.
