(* ===== verification/IpAddress.v ===== *)
(** * IP addresses

    [packages/net-policy/src/ip.ts]: literals of IP addresses, their canonical
    text, and the ranges the gateway trusts or refuses.

    The library ipaddr.js and Node's [net.isIP] are the class [NetRuntime].  A
    parser is only called on text that its test has accepted, so it is a total
    function; [parseCIDR] may throw.  (The two string helpers at the top of the file are those of
    [Normalization].) *)
From S2P Require Import Prelude JsString Normalization.
#[local] Open Scope Z_scope.

Inductive IpKind := Ipv4Kind | Ipv6Kind.
#[export] Instance IpKind_eq : EqDecision IpKind.
Proof. solve_decision. Defined.

(** [ipaddr.IPv4 | ipaddr.IPv6], and what is called of them. *)
Class NetRuntime := {
  ParsedIpAddress : Type;
  ip_kind : ParsedIpAddress -> IpKind;
  ip_range : ParsedIpAddress -> jstr;
  ip_toString : ParsedIpAddress -> jstr;
  ip_parts : ParsedIpAddress -> list Z;
  isIPv4MappedAddress : ParsedIpAddress -> bool;
  toIPv4Address : ParsedIpAddress -> ParsedIpAddress;
  ip_match : ParsedIpAddress -> ParsedIpAddress -> Z -> bool;
  isValidFourPartDecimal : jstr -> bool;
  IPv6_isValid : jstr -> bool;
  ipaddr_isValid : jstr -> bool;
  ipaddr_parse : jstr -> ParsedIpAddress;
  ipaddr_parseCIDR : jstr -> option (ParsedIpAddress * Z);
  (** [net.isIP]: 0, 4 or 6. *)
  net_isIP : jstr -> Z;
}.

(** [s.endsWith(p)]. *)
Definition ends_with (p s : jstr) : bool := starts_with (rev p) (rev s).

(** [Set.has] of a literal set of strings. *)
Definition one_of (names : list string) (s : jstr) : bool := bool_decide (s ∈ map lit names).

Section ip.
  Context `{N : NetRuntime}.

  (** ** Ranges *)

Definition BLOCKED_IPV4_SPECIAL_USE_RANGES : list string :=
  ["unspecified"; "broadcast"; "multicast"; "linkLocal"; "loopback"; "carrierGradeNat";
   "private"; "reserved"]%string.

Definition PRIVATE_OR_LOOPBACK_IPV4_RANGES : list string :=
  ["loopback"; "private"; "linkLocal"; "carrierGradeNat"]%string.

Definition BLOCKED_IPV6_SPECIAL_USE_RANGES : list string :=
  ["unspecified"; "loopback"; "linkLocal"; "uniqueLocal"; "multicast"; "reserved";
   "benchmarking"; "discard"; "orchid2"]%string.

Definition RFC2544_BENCHMARK_PREFIX : ParsedIpAddress * Z := (ipaddr_parse (lit "198.18.0.0"), 15).

Definition CLOUD_METADATA_IP_ADDRESSES : list string := ["100.100.100.200"; "fd00:ec2::254"]%string.

  (** The hextets of an IPv6 address; [None] is the error. *)
Definition expectIpv6Hextets (parts : list Z) : option (Z * Z * Z * Z * Z * Z * Z * Z) :=
  match parts with
  | a :: b :: c :: d :: e :: f :: g :: h :: _ => Some (a, b, c, d, e, f, g, h)
  | _ => None
  end.

  (** ** Parsing *)

Definition stripIpv6Brackets (value : jstr) : jstr :=
  if starts_with (lit "[") value && ends_with (lit "]") value
  then slice 1 (length value - 1) value else value.

Definition is_hex (c : ascii) : bool :=
  is_digit c || (let n := code (lowerc c) in ((97 <=? n) && (n <=? 102))%nat).

Definition isNumericIpv4LiteralPart (value : jstr) : bool :=
  (truthy value && forallb is_digit value)
  || match value with
     | z :: x :: (_ :: _) as digits =>
         is_char z "0"%char && is_char (lowerc x) "x"%char && forallb is_hex (drop 2 digits)
     | _ => false
     end.

Definition isIpv4Address (address : ParsedIpAddress) : bool := bool_decide (ip_kind address = Ipv4Kind).
Definition isIpv6Address (address : ParsedIpAddress) : bool := bool_decide (ip_kind address = Ipv6Kind).

Definition normalizeIpv4MappedAddress (address : ParsedIpAddress) : ParsedIpAddress :=
  if negb (isIpv6Address address) then address
  else if negb (isIPv4MappedAddress address) then address
  else toIPv4Address address.

Definition normalizeIpParseInput (raw : option jstr) : option jstr :=
  stripIpv6Brackets <$> normalizeOptionalString (of_opt raw).

  (** The guard [if (!normalized)] also refuses the brackets alone. *)
Definition parseCanonicalIpAddress (raw : option jstr) : option ParsedIpAddress :=
  match normalizeIpParseInput raw ≫= non_empty with
  | None => None
  | Some normalized =>
      if isValidFourPartDecimal normalized || IPv6_isValid normalized
      then Some (ipaddr_parse normalized) else None
  end.

Definition parseLooseIpAddress (raw : option jstr) : option ParsedIpAddress :=
  match normalizeIpParseInput raw ≫= non_empty with
  | None => None
  | Some normalized =>
      if ipaddr_isValid normalized then Some (ipaddr_parse normalized) else None
  end.

Definition ip_text (address : ParsedIpAddress) : jstr := lower (trim (ip_toString address)).

Definition normalizeIpAddress (raw : option jstr) : option jstr :=
  match parseCanonicalIpAddress raw with
  | None => None
  | Some parsed => Some (ip_text (normalizeIpv4MappedAddress parsed))
  end.

Definition isCanonicalDottedDecimalIPv4 (raw : option jstr) : bool :=
  match normalizeIpParseInput raw with
  | Some normalized => isValidFourPartDecimal normalized
  | None => false
  end.

Definition isLegacyIpv4Literal (raw : option jstr) : bool :=
  match normalizeOptionalString (of_opt raw) with
  | None => false
  | Some trimmed =>
      let normalized := stripIpv6Brackets trimmed in
      if negb (truthy normalized) || str_includes (lit ":") normalized then false
      else if isCanonicalDottedDecimalIPv4 (Some normalized) then false
      else
        let parts := split_on "."%char normalized in
        if ((length parts =? 0) || (4 <? length parts))%nat then false
        else if existsb (fun part => negb (truthy part)) parts then false
        else if negb (forallb isNumericIpv4LiteralPart parts) then false
        else true
  end.

  (** ** Classification *)

Definition isLoopbackIpAddress (raw : option jstr) : bool :=
  match parseCanonicalIpAddress raw with
  | None => false
  | Some parsed => bool_decide (ip_range (normalizeIpv4MappedAddress parsed) = lit "loopback")
  end.

Definition js_ushr (x n : Z) : Z := Z.shiftr (x mod 2 ^ 32) n.

  (** [octets.join(".")]. *)
Definition octets_text (octets : list Z) : jstr := join (lit ".") (map js_number_string octets).

Definition decodeIpv4FromHextets (high low : Z) : ParsedIpAddress :=
  ipaddr_parse (octets_text
    [Z.land (js_ushr high 8) 255; Z.land high 255; Z.land (js_ushr low 8) 255; Z.land low 255]).

  (** The outer [None] is the error of [expectIpv6Hextets]. *)
Definition extractEmbeddedIpv4FromIpv6 (address : ParsedIpAddress) : option (option ParsedIpAddress) :=
  match expectIpv6Hextets (ip_parts address) with
  | None => None
  | Some (p0, p1, p2, p3, p4, p5, p6, p7) =>
      let range := ip_range address in
      Some (
        if bool_decide (range = lit "ipv4Mapped") then Some (toIPv4Address address)
        else if one_of ["rfc6145"; "rfc6052"]%string range then Some (decodeIpv4FromHextets p6 p7)
        else if bool_decide (range = lit "6to4") then Some (decodeIpv4FromHextets p1 p2)
        else if bool_decide (range = lit "teredo")
        then Some (decodeIpv4FromHextets (Z.lxor p6 65535) (Z.lxor p7 65535))
        else
          let isIpv4Compatible := forallb (Z.eqb 0) [p0; p1; p2; p3; p4; p5] in
          let isIsatap := (Z.land p4 64767 =? 0) && (p5 =? 24318) in
          if isIpv4Compatible || isIsatap then Some (decodeIpv4FromHextets p6 p7) else None)
  end.

Definition isLinkLocalIpAddress (raw : option jstr) : option bool :=
  match parseLooseIpAddress raw with
  | None => Some false
  | Some parsed =>
      let normalized := normalizeIpv4MappedAddress parsed in
      let link_local a := bool_decide (ip_range a = lit "linkLocal") in
      if isIpv4Address normalized then Some (link_local normalized)
      else match extractEmbeddedIpv4FromIpv6 normalized with
           | None => None
           | Some embeddedIpv4 =>
               if match embeddedIpv4 with Some a => link_local a | None => false end then Some true
               else Some (link_local normalized)
           end
  end.

Definition isCloudMetadataIpAddress (raw : option jstr) : option bool :=
  match parseLooseIpAddress raw with
  | None => Some false
  | Some parsed =>
      let normalized := normalizeIpv4MappedAddress parsed in
      let listed a := one_of CLOUD_METADATA_IP_ADDRESSES (ip_toString a) in
      if isIpv6Address normalized then
        match extractEmbeddedIpv4FromIpv6 normalized with
        | None => None
        | Some (Some embeddedIpv4) =>
            if listed embeddedIpv4 then Some true else Some (listed normalized)
        | Some None => Some (listed normalized)
        end
      else Some (listed normalized)
  end.

  (** [None] is the error of [expectIpv6Hextets]. *)
Definition isBlockedSpecialUseIpv6Address (address : ParsedIpAddress) (allowUniqueLocalRange : bool)
    : option bool :=
  let range := ip_range address in
  if bool_decide (range = lit "uniqueLocal") && allowUniqueLocalRange then Some false
  else if one_of BLOCKED_IPV6_SPECIAL_USE_RANGES range then Some true
  else match expectIpv6Hextets (ip_parts address) with
       | Some (firstPart, _, _, _, _, _, _, _) => Some (Z.land firstPart 65472 =? 65216)
       | None => None
       end.

Definition isPrivateOrLoopbackIpAddress (raw : option jstr) : option bool :=
  match parseCanonicalIpAddress raw with
  | None => Some false
  | Some parsed =>
      let normalized := normalizeIpv4MappedAddress parsed in
      if isIpv4Address normalized
      then Some (one_of PRIVATE_OR_LOOPBACK_IPV4_RANGES (ip_range normalized))
      else isBlockedSpecialUseIpv6Address normalized false
  end.

Definition isRfc1918Ipv4Address (raw : option jstr) : bool :=
  bool_decide (ip_range <$> parseCanonicalIpAddress raw = Some (lit "private")).

Definition isCarrierGradeNatIpv4Address (raw : option jstr) : bool :=
  bool_decide (ip_range <$> parseCanonicalIpAddress raw = Some (lit "carrierGradeNat")).

Definition isBlockedSpecialUseIpv4Address (address : ParsedIpAddress)
    (allowRfc2544BenchmarkRange : bool) : bool :=
  let inRfc2544BenchmarkRange :=
    ip_match address (fst RFC2544_BENCHMARK_PREFIX) (snd RFC2544_BENCHMARK_PREFIX) in
  if inRfc2544BenchmarkRange && allowRfc2544BenchmarkRange then false
  else one_of BLOCKED_IPV4_SPECIAL_USE_RANGES (ip_range address) || inRfc2544BenchmarkRange.

Definition isIpInCidr (ip cidr : jstr) : bool :=
  match parseCanonicalIpAddress (Some ip) with
  | None => false
  | Some normalizedIp =>
      let candidate := trim cidr in
      if negb (truthy candidate) then false
      else
        let comparableIp := normalizeIpv4MappedAddress normalizedIp in
        if negb (str_includes (lit "/") candidate) then
          match parseCanonicalIpAddress (Some candidate) with
          | None => false
          | Some exact =>
              let comparableExact := normalizeIpv4MappedAddress exact in
              bool_decide (ip_kind comparableIp = ip_kind comparableExact)
              && bool_decide (ip_toString comparableIp = ip_toString comparableExact)
          end
        else
          match ipaddr_parseCIDR candidate with
          | None => false
          | Some (baseAddress, prefixLength) =>
              let comparableBase := normalizeIpv4MappedAddress baseAddress in
              bool_decide (ip_kind comparableIp = ip_kind comparableBase)
              && ip_match comparableIp comparableBase prefixLength
          end
  end.
End ip.
