(* ===== verification/ClientIp.v ===== *)
(** * Client addresses and origins

    [src/gateway/net.ts] (addresses of requests, trusted proxies, hosts; without
    the binding of sockets) and [src/gateway/origin-check.ts].

    A request is its remote address and its headers, whose names Node gives in
    lower case.  The URL parser of the platform is the class [UrlRuntime]. *)
From S2P Require Import Prelude JsString JsMap Normalization IpAddress.
#[local] Open Scope Z_scope.

(** [string | string[]]. *)
Inductive HeaderValue := HeaderText (s : jstr) | HeaderList (l : list jstr).

(** What is read of an [IncomingMessage]. *)
Record IncomingMessage := {
  remoteAddress : option jstr;
  headers : list (jstr * HeaderValue);
}.

Definition req_header (name : jstr) (req : IncomingMessage) : option HeaderValue :=
  jm_get name (headers req).

(** The addresses of each interface of the host. *)
Abbreviation NetworkInterfacesSnapshot := (list (list jstr)).

Section net.
  Context `{N : NetRuntime}.

  (** ** Hosts *)

Definition normalizeHostHeader (hostHeader : option jstr) : jstr :=
  normalizeLowercaseStringOrEmpty (of_opt hostHeader).

Definition resolveHostName (hostHeader : option jstr) : jstr :=
  let host := normalizeHostHeader hostHeader in
  let unbracketed :=
    if net_isIP host =? 6 then host else default [] (head (split_on ":"%char host)) in
  if negb (truthy host) then []
  else if starts_with (lit "[") host then
    match index_of (lit "]") host with
    | Some end_ => slice 1 end_ host
    | None => unbracketed
    end
  else unbracketed.

Definition isLoopbackAddress (ip : option jstr) : bool := isLoopbackIpAddress ip.
Definition isPrivateOrLoopbackAddress (ip : option jstr) : option bool := isPrivateOrLoopbackIpAddress ip.
Definition normalizeIp (ip : option jstr) : option jstr := normalizeIpAddress ip.

  (** [None] is an unreadable list of interfaces. *)
Definition resolveLocalInterfaceAddressMatch (ip : option jstr)
    (effectiveSnapshot : option NetworkInterfacesSnapshot) : option bool :=
  match normalizeIp ip ≫= non_empty with
  | None => Some false
  | Some normalized =>
      match effectiveSnapshot with
      | None => None
      | Some snapshot =>
          Some (existsb (existsb (fun address =>
            bool_decide (normalizeIp (Some address) = Some normalized))) snapshot)
      end
  end.

  (** ** Address literals *)

Definition stripOptionalPort (ip : jstr) : jstr :=
  let rest :=
    if negb (net_isIP ip =? 0) then ip
    else match last_index_of (lit ":") ip with
         | Some lastColon =>
             if str_includes (lit ".") ip && bool_decide (index_of (lit ":") ip = Some lastColon) then
               let candidate := slice 0 lastColon ip in
               if net_isIP candidate =? 4 then candidate else ip
             else ip
         | None => ip
         end in
  if starts_with (lit "[") ip then
    match index_of (lit "]") ip with
    | Some end_ => slice 1 end_ ip
    | None => rest
    end
  else rest.

Definition parseIpLiteral (raw : option jstr) : option jstr :=
  match (trim <$> raw) ≫= non_empty with
  | None => None
  | Some trimmed =>
      match normalizeIp (Some (stripOptionalPort trimmed)) ≫= non_empty with
      | None => None
      | Some normalized => if net_isIP normalized =? 0 then None else Some normalized
      end
  end.

Definition parseRealIp (realIp : option jstr) : option jstr := parseIpLiteral realIp.

  (** ** Proxies *)

Definition isTrustedProxyAddress (ip : option jstr) (trustedProxies : option (list jstr)) : bool :=
  match normalizeIp ip ≫= non_empty, trustedProxies with
  | Some normalized, Some proxies =>
      existsb (fun proxy =>
        let candidate := trim proxy in
        if negb (truthy candidate) then false else isIpInCidr normalized candidate) proxies
  | _, _ => false
  end.

  (** The loop over the hops, from the last one. *)
Fixpoint first_untrusted_hop (hops : list jstr) (trustedProxies : option (list jstr)) : option jstr :=
  match hops with
  | [] => None
  | hop :: r =>
      if isLoopbackAddress (Some hop) then first_untrusted_hop r trustedProxies
      else if negb (isTrustedProxyAddress (Some hop) trustedProxies) then Some hop
      else first_untrusted_hop r trustedProxies
  end.

Definition forwarded_chain (forwardedFor : option jstr) : list jstr :=
  omap (fun entry => parseIpLiteral (Some entry))
    (match forwardedFor with Some s => split_on ","%char s | None => [] end).

Definition resolveForwardedClientIp (forwardedFor : option jstr) (trustedProxies : option (list jstr))
    : option jstr :=
  match trustedProxies with
  | None | Some [] => None
  | _ => first_untrusted_hop (rev (forwarded_chain forwardedFor)) trustedProxies
  end.

Record ClientIpParams := {
  cip_remoteAddr : option jstr;
  cip_forwardedFor : option jstr;
  cip_realIp : option jstr;
  cip_trustedProxies : option (list jstr);
  cip_allowRealIpFallback : bool;
}.

Definition resolveClientIp (params : ClientIpParams) : option jstr :=
  match normalizeIp (cip_remoteAddr params) ≫= non_empty with
  | None => None
  | Some remote =>
      if negb (isTrustedProxyAddress (Some remote) (cip_trustedProxies params)) then Some remote
      else match resolveForwardedClientIp (cip_forwardedFor params) (cip_trustedProxies params)
                 ≫= non_empty with
           | Some forwardedIp => Some forwardedIp
           | None => if cip_allowRealIpFallback params then parseRealIp (cip_realIp params) else None
           end
  end.

Definition headerValue (value : option HeaderValue) : option jstr :=
  match value with
  | Some (HeaderText s) => Some s
  | Some (HeaderList l) => head l
  | None => None
  end.

Definition resolveRequestClientIp (req : option IncomingMessage) (trustedProxies : option (list jstr))
    (allowRealIpFallback : bool) : option jstr :=
  match req with
  | None => None
  | Some req =>
      resolveClientIp {|
        cip_remoteAddr := Some (or_empty (remoteAddress req));
        cip_forwardedFor := headerValue (req_header (lit "x-forwarded-for") req);
        cip_realIp := headerValue (req_header (lit "x-real-ip") req);
        cip_trustedProxies := trustedProxies;
        cip_allowRealIpFallback := allowRealIpFallback |}
  end.

  (** ** Local and private hosts *)

Definition isValidIPv4 (host : jstr) : bool := isCanonicalDottedDecimalIPv4 (Some host).

  (** [s.replace(/\.+$/, "")]. *)
Definition strip_dots (s : jstr) : jstr := drop_while_end (is_char "."%char) s.

Definition parseHostForAddressChecks (host : jstr) : option (bool * jstr) :=
  if negb (truthy host) then None
  else
    let normalizedHost := normalizeLowercaseStringOrEmpty (VString host) in
    let canonicalHost := strip_dots normalizedHost in
    if bool_decide (canonicalHost = lit "localhost") then Some (true, canonicalHost)
    else Some (false, stripIpv6Brackets normalizedHost).

Definition isLoopbackHost (host : jstr) : bool :=
  match parseHostForAddressChecks host with
  | None => false
  | Some (isLocalhost, unbracketedHost) =>
      if isLocalhost then true else isLoopbackAddress (Some unbracketedHost)
  end.

Definition isLocalishHost (hostHeader : option jstr) : bool :=
  let host := resolveHostName hostHeader in
  if negb (truthy host) then false else isLoopbackHost host || ends_with (lit ".ts.net") host.

  (** [None] is an error of the address library, here and below. *)
Definition isPrivateOrLoopbackHost (host : jstr) : option bool :=
  match parseHostForAddressChecks host with
  | None => Some false
  | Some (true, _) => Some true
  | Some (false, unbracketedHost) =>
      match normalizeIp (Some unbracketedHost) ≫= non_empty with
      | None => Some false
      | Some normalized =>
          is_private ← isPrivateOrLoopbackAddress (Some normalized);
          Some (
            if negb is_private then false
            else if net_isIP normalized =? 6 then
              if starts_with (lit "ff") normalized then false
              else negb (bool_decide (normalized = lit "::"))
            else true)
      end
  end.

Definition isTrustedPlaintextWebSocketHost (hostname : jstr) : option bool :=
  is_private ← isPrivateOrLoopbackHost hostname;
  let normalized := strip_dots (normalizeLowercaseStringOrEmpty (VString hostname)) in
  Some (is_private || ends_with (lit ".local") normalized || ends_with (lit ".ts.net") normalized).
End net.

(** ** URLs *)

(** What is read of a [URL]. *)
Record UrlParts := {
  url_protocol : jstr; url_username : jstr; url_password : jstr;
  url_host : jstr; url_hostname : jstr; url_origin : jstr;
}.

Class UrlRuntime := { new_URL : jstr -> option UrlParts }.

Section origins.
  Context `{N : NetRuntime} `{U : UrlRuntime}.

Definition isSecureWebSocketUrl (url : jstr) (allowPrivateWs : bool) : option bool :=
  match new_URL url with
  | None => Some false
  | Some parsed =>
      let protocol :=
        if bool_decide (url_protocol parsed = lit "https:") then lit "wss:"
        else if bool_decide (url_protocol parsed = lit "http:") then lit "ws:"
        else url_protocol parsed in
      let hostname := url_hostname parsed in
      if bool_decide (protocol = lit "wss:") then Some true
      else if negb (bool_decide (protocol = lit "ws:")) then Some false
      else if isLoopbackHost hostname then Some true
      else
        trusted ← isTrustedPlaintextWebSocketHost hostname;
        if trusted : bool then Some true
        else if allowPrivateWs then
          is_private ← isPrivateOrLoopbackHost hostname;
          if is_private : bool then Some true
          else Some (net_isIP (stripIpv6Brackets hostname) =? 0)
        else Some false
  end.

  (** ** The Origin header *)

Record ParsedOrigin := { po_origin : jstr; po_host : jstr; po_hostname : jstr }.

Inductive OriginMatch :=
  | AllowlistOrigin | HostHeaderFallback | PrivateSameOrigin | LocalLoopback.

Inductive OriginCheckResult :=
  | OriginOk (matchedBy : OriginMatch)
  | OriginRefused (reason : jstr).

Definition is_scheme_char (c : ascii) : bool :=
  is_az_i c || is_digit c || bool_decide (c ∈ lit "+.-").

  (** [/^[a-z][a-z0-9+.-]*:\/\/[^/?#\\]+\/?$/i]. *)
Definition ORIGIN_RE (s : jstr) : bool :=
  match s with
  | c :: r =>
      let rest := drop_while is_scheme_char r in
      let authority := drop 3 rest in
      let body := if ends_with (lit "/") authority then take (length authority - 1) authority
                  else authority in
      is_az_i c && starts_with (lit "://") rest
      && truthy body && forallb (fun x => negb (bool_decide (x ∈ lit "/?#\"))) body
  | [] => false
  end.

Definition parseOrigin (originRaw : option jstr) : option ParsedOrigin :=
  let trimmed := trim (or_empty originRaw) in
  if negb (truthy trimmed) || bool_decide (trimmed = lit "null") then None
  else if negb (ORIGIN_RE trimmed) then None
  else match new_URL trimmed with
       | None => None
       | Some url =>
           if truthy (url_username url) || truthy (url_password url)
              || negb (truthy (url_protocol url)) || negb (truthy (url_host url)) then None
           else
             let origin :=
               if bool_decide (url_origin url = lit "null")
               then url_protocol url ++ lit "//" ++ url_host url else url_origin url in
             Some {| po_origin := normalizeLowercaseStringOrEmpty (VString origin);
                     po_host := normalizeLowercaseStringOrEmpty (VString (url_host url));
                     po_hostname := normalizeLowercaseStringOrEmpty (VString (url_hostname url)) |}
       end.

Definition isTrustedSameOriginHost (hostHeader : jstr) (isLocalClient : option bool) : option bool :=
  let hostname := resolveHostName (Some hostHeader) in
  if negb (truthy hostname) then Some false
  else if isLoopbackHost hostname then Some (negb (bool_decide (isLocalClient = Some false)))
  else if negb (net_isIP hostname =? 0) then isPrivateOrLoopbackIpAddress (Some hostname)
  else Some (ends_with (lit ".local") hostname || ends_with (lit ".ts.net") hostname).

Record OriginParams := {
  op_requestHost : option jstr;
  op_origin : option jstr;
  op_allowedOrigins : option (list jstr);
  op_allowHostHeaderOriginFallback : bool;
  op_isLocalClient : option bool;
}.

Definition origin_allowlist (allowedOrigins : option (list jstr)) : list jstr :=
  omap (fun value => normalizeOptionalLowercaseString (VString value)) (default [] allowedOrigins).

  (** [None] is an error of the address library. *)
Definition checkBrowserOrigin (params : OriginParams) : option OriginCheckResult :=
  match parseOrigin (op_origin params) with
  | None => Some (OriginRefused (lit "origin missing or invalid"))
  | Some parsedOrigin =>
      let allowlist := origin_allowlist (op_allowedOrigins params) in
      let requestHost := normalizeHostHeader (op_requestHost params) in
      let same_host := truthy requestHost && bool_decide (po_host parsedOrigin = requestHost) in
      if bool_decide (lit "*" ∈ allowlist) || bool_decide (po_origin parsedOrigin ∈ allowlist)
      then Some (OriginOk AllowlistOrigin)
      else if op_allowHostHeaderOriginFallback params && same_host
      then Some (OriginOk HostHeaderFallback)
      else
        same_origin ← (if same_host
                       then isTrustedSameOriginHost requestHost (op_isLocalClient params)
                       else Some false);
        if same_origin : bool then Some (OriginOk PrivateSameOrigin)
        else if bool_decide (op_isLocalClient params = Some true)
                && isLoopbackHost (po_hostname parsedOrigin)
        then Some (OriginOk LocalLoopback)
        else Some (OriginRefused (lit "origin not allowed"))
  end.
End origins.

(** ** Forged headers *)

Section forged.
  Context `{N : NetRuntime}.

(** A hop that stands for a proxy of the gateway or for this host. *)
Definition own_hop (proxies : option (list jstr)) (hop : jstr) : Prop :=
    isLoopbackAddress (Some hop) = true \/ isTrustedProxyAddress (Some hop) proxies = true.

Definition foreign_hop (proxies : option (list jstr)) (hop : jstr) : Prop :=
    isLoopbackAddress (Some hop) = false /\ isTrustedProxyAddress (Some hop) proxies = false.

  (** The nearest hop of a chain that is foreign: only own hops follow it. *)
Definition nearest_foreign (proxies : option (list jstr)) (chain : list jstr) (hop : jstr) : Prop :=
    exists before after, chain = before ++ hop :: after /\ foreign_hop proxies hop /\ Forall (own_hop proxies) after.

Lemma first_untrusted_hop_own hops hops' proxies : Forall (own_hop proxies) hops ->
    first_untrusted_hop (hops ++ hops') proxies = first_untrusted_hop hops' proxies.
  Proof.
    induction 1 as [|hop hops [Hl|Ht] _ IH]; [done|..]; cbn [app first_untrusted_hop].
    - by rewrite Hl.
    - rewrite Ht. by destruct (isLoopbackAddress (Some hop)).
  Qed.

Lemma first_untrusted_hop_iff chain proxies hop :
    first_untrusted_hop (rev chain) proxies = Some hop <-> nearest_foreign proxies chain hop.
  Proof.
    split.
    - induction chain as [|h chain IH] using rev_ind; [done|]. rewrite rev_app_distr. cbn [rev app first_untrusted_hop].
      destruct (isLoopbackAddress (Some h)) eqn:El; [|destruct (isTrustedProxyAddress (Some h) proxies) eqn:Et]; cbn [negb].
      + intros (before & after & -> & Hf & Ha)%IH. exists before, (after ++ [h]). rewrite <- app_assoc. split_and!; [done..|].
        apply Forall_app. split; [done|]. constructor; [by left|done].
      + intros (before & after & -> & Hf & Ha)%IH. exists before, (after ++ [h]). rewrite <- app_assoc. split_and!; [done..|].
        apply Forall_app. split; [done|]. constructor; [by right|done].
      + intros [= <-]. exists chain, []. by split_and!.
    - intros (before & after & -> & [Hl Ht] & Ha). rewrite rev_app_distr. cbn [rev]. rewrite <- app_assoc.
      rewrite first_untrusted_hop_own by by apply Forall_rev. cbn [app first_untrusted_hop]. by rewrite Hl, Ht.
  Qed.

  (** What a proxy appends to the header follows what was there. *)
Lemma forwarded_chain_appended claimed appended :
    forwarded_chain (Some (claimed ++ ","%char :: appended)) =
      forwarded_chain (Some claimed) ++ forwarded_chain (Some appended).
  Proof. unfold forwarded_chain. by rewrite split_on_app_gen, omap_app. Qed.

Lemma nearest_foreign_app proxies claimed chain hop :
    nearest_foreign proxies chain hop -> nearest_foreign proxies (claimed ++ chain) hop.
  Proof.
    intros (before & after & -> & Hf & Ha). exists (claimed ++ before), after. by rewrite <- app_assoc.
  Qed.

Lemma parseIpLiteral_not_empty raw ip : parseIpLiteral raw = Some ip -> non_empty ip = Some ip.
  Proof.
    unfold parseIpLiteral. destruct (_ ≫= non_empty) as [t|]; [|done].
    destruct (normalizeIp _ ≫= non_empty) as [n|] eqn:E; [|done].
    destruct (net_isIP n =? 0); [done|]. intros [= <-].
    destruct (normalizeIp _) as [m|]; [|done]. cbn in E. by destruct m; simplify_eq/=.
  Qed.

  (** C26. The address of a client is not for the client to choose.  Without a
      trusted proxy in front it is the address of the connection, whatever the
      headers say.  Behind one it is the nearest hop of X-Forwarded-For, of those
      that parse, that is neither a loopback address nor a trusted proxy's; as
      soon as there is such a hop in what the proxies append, nothing that the
      header held before counts; and when there is none, and the real-IP header
      may not be used, there is no address. *)
Theorem client_ip_not_forged (params : ClientIpParams) (remote : jstr) :
    normalizeIp (cip_remoteAddr params) ≫= non_empty = Some remote ->
    let proxies := cip_trustedProxies params in
    (isTrustedProxyAddress (Some remote) proxies = false -> resolveClientIp params = Some remote) /\
    (isTrustedProxyAddress (Some remote) proxies = true ->
     (forall ip, nearest_foreign proxies (forwarded_chain (cip_forwardedFor params)) ip ->
        resolveClientIp params = Some ip) /\
     (forall claimed appended ip, cip_forwardedFor params = Some (claimed ++ ","%char :: appended) ->
        nearest_foreign proxies (forwarded_chain (Some appended)) ip -> resolveClientIp params = Some ip) /\
     (forall ip, cip_allowRealIpFallback params = false -> resolveClientIp params = Some ip ->
        nearest_foreign proxies (forwarded_chain (cip_forwardedFor params)) ip)).
  Proof.
    intros Hr proxies. unfold resolveClientIp. rewrite Hr.
    split; intros Ht; fold proxies; rewrite Ht; cbn [negb]; [done|].
    assert (exists p ps, proxies = Some (p :: ps)) as (p & ps & E).
    { unfold isTrustedProxyAddress in Ht. destruct proxies as [[|p ps]|]; [|by eauto|].
      all: by destruct (normalizeIp (Some remote) ≫= non_empty). }
    unfold resolveForwardedClientIp. rewrite E. rewrite <- E.
    assert (forall ip, nearest_foreign proxies (forwarded_chain (cip_forwardedFor params)) ip ->
      first_untrusted_hop (rev (forwarded_chain (cip_forwardedFor params))) proxies = Some ip /\
      non_empty ip = Some ip) as Hnear.
    { intros ip Hip. split; [by apply first_untrusted_hop_iff|].
      destruct Hip as (before & after & Ec & _). assert (ip ∈ forwarded_chain (cip_forwardedFor params)) as Hin
        by (rewrite Ec; set_solver).
      unfold forwarded_chain in Hin. destruct (cip_forwardedFor params); [|by apply elem_of_nil in Hin].
      apply list_elem_of_omap in Hin as (raw & _ & Hip). by eapply parseIpLiteral_not_empty. }
    split_and!.
    - intros ip Hip. destruct (Hnear ip Hip) as [-> Hne]. cbn [mbind option_bind]. by rewrite Hne.
    - intros claimed appended ip Hf Hip. destruct (Hnear ip) as [-> Hne]; [|cbn [mbind option_bind]; by rewrite Hne].
      rewrite Hf, forwarded_chain_appended. by apply nearest_foreign_app.
    - intros ip Hno. rewrite Hno. destruct (first_untrusted_hop _ proxies) as [hop|] eqn:Eh; [|done].
      destruct hop; [done|]. cbn. intros [= <-]. by apply first_untrusted_hop_iff.
  Qed.
End forged.

(** ** A runtime to compute with: dotted quads *)

Definition quad_valid (s : jstr) : bool :=
  let parts := split_on "."%char s in
  (length parts =? 4)%nat && forallb (fun p => truthy p && forallb is_digit p) parts.

Definition dotted_quad : NetRuntime := {|
  ParsedIpAddress := jstr;
  ip_kind := fun _ => Ipv4Kind;
  ip_range := fun a => if starts_with (lit "127.") a then lit "loopback"
                       else if starts_with (lit "10.") a then lit "private" else lit "unicast";
  ip_toString := id;
  ip_parts := fun _ => [];
  isIPv4MappedAddress := fun _ => false;
  toIPv4Address := id;
  ip_match := fun a b bits =>
    let octets s := take (Z.to_nat (bits / 8)) (split_on "."%char s) in
    bool_decide (octets a = octets b);
  isValidFourPartDecimal := quad_valid;
  IPv6_isValid := fun _ => false;
  ipaddr_isValid := quad_valid;
  ipaddr_parse := id;
  ipaddr_parseCIDR := fun s =>
    match split_on "/"%char s with
    | [base; bits] => if quad_valid base && bool_decide (bits = lit "8") then Some (base, 8) else None
    | _ => None
    end;
  net_isIP := fun s => if quad_valid s then 4 else 0;
|}.

(** A client that claims an address, behind two proxies. *)
Lemma client_ip_not_forged_witness :
  let params := {|
    cip_remoteAddr := Some (lit "10.0.0.1");
    cip_forwardedFor := Some (lit "1.2.3.4, 203.0.113.7,10.9.9.9");
    cip_realIp := None; cip_trustedProxies := Some [lit "10.0.0.0/8"];
    cip_allowRealIpFallback := false |} in
  @resolveClientIp dotted_quad params = Some (lit "203.0.113.7").
Proof.
  intros params.
  assert (isTrustedProxyAddress (N := dotted_quad) (Some (lit "10.0.0.1"))
    (cip_trustedProxies params) = true) as H by (by vm_compute).
  pose proof (proj2 (@client_ip_not_forged dotted_quad params (lit "10.0.0.1")
    ltac:(by vm_compute)) H) as (_ & Hlast & _).
  apply (Hlast (lit "1.2.3.4") (lit " 203.0.113.7,10.9.9.9")); [by vm_compute|].
  exists [], [lit "10.9.9.9"]. split; [by vm_compute|]. split; [by vm_compute|].
  constructor; [right; by vm_compute|constructor].
Defined.
