(* ===== verification/AuthRateLimit.v ===== *)
(** * Rate limits of authentication

    [src/gateway/auth-rate-limit.ts]: the limiter of failed attempts per scope
    and client, with its windows, lockouts and its bound on tracked clients.

    Instants ([Date.now()]) and the resolved durations are integers, so that
    sums and differences are exact; [maxAttempts], which the code takes as it
    is, and [remaining] are doubles.  The limiter is its map and its overflow
    lock; the timer that prunes it is an operation. *)
From S2P Require Import Prelude JsString JsMap JsNumber NumberCoercion Normalization IpAddress ClientIp.
#[local] Open Scope Z_scope.

(** ** Configuration *)

Record RateLimitConfig := {
  rl_maxAttempts : option num;
  rl_windowMs : option num;
  rl_lockoutMs : option num;
  rl_exemptLoopback : option bool;
  rl_pruneIntervalMs : option num;
  rl_maxEntries : option num;
}.

Definition AUTH_RATE_LIMIT_SCOPE_DEFAULT : jstr := lit "default".
Definition AUTH_RATE_LIMIT_SCOPE_SHARED_SECRET : jstr := lit "shared-secret".
Definition BROWSER_ORIGIN_RATE_LIMIT_KEY_PREFIX : jstr := lit "browser-origin:".
Definition IDENTITY_RATE_LIMIT_KEY_PREFIX : jstr := lit "identity:".

Definition DEFAULT_MAX_ATTEMPTS : Z := 10.
Definition DEFAULT_WINDOW_MS : Z := 60000.
Definition DEFAULT_LOCKOUT_MS : Z := 300000.
Definition PRUNE_INTERVAL_MS : Z := 60000.
Definition DEFAULT_MAX_ENTRIES : Z := 10000.

(** The constants of one limiter. *)
Record LimiterSettings := {
  maxAttempts : num;
  windowMs : Z;
  lockoutMs : Z;
  exemptLoopback : bool;
  pruneIntervalMs : Z;
  maxEntries : Z;
}.

(** A duration, which [timer_ms_of_Z] shows to be an integer. *)
Definition timer_ms (value : option num) (fallbackMs minMs : Z) : num :=
  resolveTimerTimeoutMs (of_num_opt value) (of_Z fallbackMs) (of_Z minMs).

Definition int_of (x : num) : Z := default 0 (to_Z x).

Definition resolvePruneIntervalMs (value : option num) : Z :=
  match value with
  | None => PRUNE_INTERVAL_MS
  | Some x =>
      if isFinite x && num_le x (of_Z 0) then 0
      else int_of (timer_ms (Some x) PRUNE_INTERVAL_MS 1)
  end.

(** The constants of [createAuthRateLimiter]. *)
Definition limiter_settings (config : RateLimitConfig) : LimiterSettings := {|
  maxAttempts := default (of_Z DEFAULT_MAX_ATTEMPTS) (rl_maxAttempts config);
  windowMs := int_of (timer_ms (rl_windowMs config) DEFAULT_WINDOW_MS 0);
  lockoutMs := int_of (timer_ms (rl_lockoutMs config) DEFAULT_LOCKOUT_MS 0);
  exemptLoopback := default true (rl_exemptLoopback config);
  pruneIntervalMs := resolvePruneIntervalMs (rl_pruneIntervalMs config);
  maxEntries := int_of (resolveIntegerOption (of_num_opt (rl_maxEntries config))
                          (of_Z DEFAULT_MAX_ENTRIES) (Some (of_Z 1)) None);
|}.

(** ** The limiter *)

Record RateLimitEntry := { attempts : list Z; lockedUntil : option Z }.

Record RateLimitCheckResult := { allowed : bool; remaining : num; retryAfterMs : Z }.

Record AuthRateLimiter := {
  entries : list (jstr * RateLimitEntry);
  overflowLockedUntil : option Z;
}.

Definition empty_limiter : AuthRateLimiter := {| entries := []; overflowLockedUntil := None |}.

(** [if (t)], for an optional instant. *)
Definition instant_truthy (t : option Z) : option Z :=
  match t with Some z => if z =? 0 then None else Some z | None => None end.

(** [entry.lockedUntil && now < entry.lockedUntil]: the lock in force. *)
Definition lock_in_force (now : Z) (entry : RateLimitEntry) : option Z :=
  match instant_truthy (lockedUntil entry) with
  | Some t => if now <? t then Some t else None
  | None => None
  end.

(** [entry.lockedUntil && now >= entry.lockedUntil]. *)
Definition lock_expired (now : Z) (entry : RateLimitEntry) : bool :=
  match instant_truthy (lockedUntil entry) with Some t => t <=? now | None => false end.

Definition buildRateLimitIdentityKey (namespace identity : jstr) : jstr :=
  IDENTITY_RATE_LIMIT_KEY_PREFIX ++ namespace ++ lit ":" ++ identity.

(** The scope of the limiter, and of the serialisation of attempts. *)
Definition normalizeScope (scope : option jstr) : jstr :=
  str_or (trim (default AUTH_RATE_LIMIT_SCOPE_DEFAULT scope)) AUTH_RATE_LIMIT_SCOPE_DEFAULT.

Section limiter.
  Context `{N : NetRuntime} (cfg : LimiterSettings).

Definition normalizeRateLimitClientIp (ip : option jstr) : jstr :=
  let resolved :=
    default (lit "unknown") (resolveClientIp {|
      cip_remoteAddr := ip; cip_forwardedFor := None; cip_realIp := None;
      cip_trustedProxies := None; cip_allowRealIpFallback := false |}) in
  match ip with
  | Some s => if starts_with BROWSER_ORIGIN_RATE_LIMIT_KEY_PREFIX s
                 || starts_with IDENTITY_RATE_LIMIT_KEY_PREFIX s then s else resolved
  | None => resolved
  end.

  (** The key and the address. *)
Definition resolveKey (rawIp rawScope : option jstr) : jstr * jstr :=
  let ip := normalizeRateLimitClientIp rawIp in
  (normalizeScope rawScope ++ lit ":" ++ ip, ip).

Definition isExempt (ip : jstr) : bool := exemptLoopback cfg && isLoopbackAddress (Some ip).

Definition slideWindow (entry : RateLimitEntry) (now : Z) : RateLimitEntry :=
  let cutoff := now - windowMs cfg in
  {| attempts := List.filter (fun ts => cutoff <? ts) (attempts entry);
     lockedUntil := lockedUntil entry |}.

  (** What the loop leaves of an entry. *)
Definition prune_entry (now : Z) (entry : RateLimitEntry) : option RateLimitEntry :=
  match lock_in_force now entry with
  | Some _ => Some entry
  | None =>
      let entry := slideWindow entry now in
      match attempts entry with [] => None | _ => Some entry end
  end.

Definition pruneExpiredEntries (now : Z) (s : AuthRateLimiter) : AuthRateLimiter :=
  {| entries := jm_filter_map (prune_entry now) (entries s);
     overflowLockedUntil := overflowLockedUntil s |}.

Definition size (s : AuthRateLimiter) : Z := Z.of_nat (length (entries s)).

Definition with_entries (es : list (jstr * RateLimitEntry)) (s : AuthRateLimiter) : AuthRateLimiter :=
  {| entries := es; overflowLockedUntil := overflowLockedUntil s |}.

Definition with_overflow (t : option Z) (s : AuthRateLimiter) : AuthRateLimiter :=
  {| entries := entries s; overflowLockedUntil := t |}.

Definition checkOverflowLock (now : Z) (s : AuthRateLimiter)
    : AuthRateLimiter * option RateLimitCheckResult :=
  match instant_truthy (overflowLockedUntil s) with
  | None => (s, None)
  | Some until =>
      if until <=? now then (with_overflow None s, None)
      else
        let s := if maxEntries cfg <=? size s then pruneExpiredEntries now s else s in
        if size s <? maxEntries cfg then (with_overflow None s, None)
        else (s, Some {| allowed := false; remaining := of_Z 0; retryAfterMs := until - now |})
  end.

Definition enforceMaxEntries (now : Z) (s : AuthRateLimiter) : AuthRateLimiter * bool :=
  if size s <? maxEntries cfg then (s, true)
  else
    let s := pruneExpiredEntries now s in
    if size s <? maxEntries cfg then (s, true)
    else match find_first (fun '(_, entry) => negb (bool_decide (is_Some (lock_in_force now entry))))
                 (entries s) with
         | Some (entryKey, _) => (with_entries (jm_delete entryKey (entries s)) s, true)
         | None => (s, false)
         end.

Definition check (rawIp rawScope : option jstr) (now : Z) (s : AuthRateLimiter)
    : AuthRateLimiter * RateLimitCheckResult :=
  let '(key, ip) := resolveKey rawIp rawScope in
  let free := {| allowed := true; remaining := maxAttempts cfg; retryAfterMs := 0 |} in
  if isExempt ip then (s, free)
  else match jm_get key (entries s) with
       | None =>
           match checkOverflowLock now s with
           | (s, Some overflowLock) => (s, overflowLock)
           | (s, None) => (s, free)
           end
       | Some entry =>
           match lock_in_force now entry with
           | Some until =>
               (s, {| allowed := false; remaining := of_Z 0; retryAfterMs := until - now |})
           | None =>
               let entry := if lock_expired now entry
                            then {| attempts := []; lockedUntil := None |} else entry in
               let entry := slideWindow entry now in
               let left := math_max (of_Z 0)
                 (num_sub (maxAttempts cfg) (of_Z (Z.of_nat (length (attempts entry))))) in
               (with_entries (jm_set key entry (entries s)) s,
                {| allowed := num_lt (of_Z 0) left; remaining := left; retryAfterMs := 0 |})
           end
       end.

  (** What is done to the entry of a failure. *)
Definition push_failure (now : Z) (entry : RateLimitEntry) : RateLimitEntry :=
  match lock_in_force now entry with
  | Some _ => entry
  | None =>
      let attempts' := attempts (slideWindow entry now) ++ [now] in
      {| attempts := attempts';
         lockedUntil :=
           if num_le (maxAttempts cfg) (of_Z (Z.of_nat (length attempts')))
           then Some (now + lockoutMs cfg) else lockedUntil entry |}
  end.

Definition recordFailure (rawIp rawScope : option jstr) (now : Z) (s : AuthRateLimiter)
    : AuthRateLimiter :=
  let '(key, ip) := resolveKey rawIp rawScope in
  if isExempt ip then s
  else match jm_get key (entries s) with
       | Some entry => with_entries (jm_set key (push_failure now entry) (entries s)) s
       | None =>
           match enforceMaxEntries now s with
           | (s, false) =>
               with_overflow (Some (Z.max (default 0 (overflowLockedUntil s)) (now + lockoutMs cfg))) s
           | (s, true) =>
               let entry := {| attempts := []; lockedUntil := None |} in
               with_entries (jm_set key (push_failure now entry) (entries s)) s
           end
       end.

Definition reset (rawIp rawScope : option jstr) (s : AuthRateLimiter) : AuthRateLimiter :=
  with_entries (jm_delete (fst (resolveKey rawIp rawScope)) (entries s)) s.

Definition prune (now : Z) (s : AuthRateLimiter) : AuthRateLimiter := pruneExpiredEntries now s.

Definition dispose (s : AuthRateLimiter) : AuthRateLimiter := empty_limiter.

  (** ** Runs *)

Inductive limiter_op :=
    | LCheck (ip scope : option jstr)
    | LFailure (ip scope : option jstr)
    | LReset (ip scope : option jstr)
    | LPrune
    | LDispose.

Definition limiter_step (now : Z) (op : limiter_op) (s : AuthRateLimiter) : AuthRateLimiter :=
  match op with
  | LCheck ip scope => fst (check ip scope now s)
  | LFailure ip scope => recordFailure ip scope now s
  | LReset ip scope => reset ip scope s
  | LPrune => prune now s
  | LDispose => dispose s
  end.

Definition limiter_run (ops : list (Z * limiter_op)) (s : AuthRateLimiter) : AuthRateLimiter :=
  fold_left (fun s '(now, op) => limiter_step now op s) ops s.
End limiter.

(** ** Settings *)

Lemma timer_ms_of_Z value fallbackMs minMs :
  exists z, timer_ms value fallbackMs minMs = of_Z z /\
    Z.min (Z.max 0 minMs) MAX_TIMER_TIMEOUT_MS <= z <= MAX_TIMER_TIMEOUT_MS.
Proof.
  unfold timer_ms, resolveTimerTimeoutMs.
  assert (exists q, match asFiniteNumber (of_num_opt value) with Some v => Some v
    | None => asFiniteNumber (VNum (of_Z fallbackMs)) end = Some (Fin q)) as [q ->].
  { destruct (asFiniteNumber _) as [x|] eqn:E; [|by eexists].
    apply asFiniteNumber_Some in E as [q ->]. eauto. }
  cbn [math_floor]. rewrite math_floor_of_Z, !math_max_of_Z, math_min_of_Z.
  eexists. split; [done|]. lia.
Qed.

Lemma limiter_settings_bounds config :
  let cfg := limiter_settings config in
  0 <= windowMs cfg <= MAX_TIMER_TIMEOUT_MS /\ 0 <= lockoutMs cfg <= MAX_TIMER_TIMEOUT_MS /\
  1 <= maxEntries cfg.
Proof.
  cbn [limiter_settings windowMs lockoutMs maxEntries]. unfold int_of.
  destruct (timer_ms_of_Z (rl_windowMs config) DEFAULT_WINDOW_MS 0) as (w & -> & ?).
  destruct (timer_ms_of_Z (rl_lockoutMs config) DEFAULT_LOCKOUT_MS 0) as (l & -> & ?).
  rewrite !to_Z_of_Z. cbn [default from_option id]. unfold MAX_TIMER_TIMEOUT_MS in *.
  split_and!; try lia.
  unfold resolveIntegerOption. destruct (asFiniteNumber _) as [x|] eqn:E; cbn [default from_option id].
  - apply asFiniteNumber_Some in E as [q ->]. cbn [math_floor].
    rewrite math_max_of_Z, to_Z_of_Z. cbn. lia.
  - rewrite math_floor_of_Z, math_max_of_Z, to_Z_of_Z. cbn. lia.
Qed.

(** ** What steps keep *)

Section limiter_laws.
  Context `{N : NetRuntime} (cfg : LimiterSettings).
  Implicit Types (s : AuthRateLimiter) (now : Z).

  (** The clients are distinct and at most [maxEntries]. *)
Definition limiter_ok s : Prop := jm_wf (entries s) /\ size s <= maxEntries cfg.

Lemma prune_size now s : size (pruneExpiredEntries cfg now s) <= size s.
  Proof. unfold size. cbn. pose proof (jm_length_filter_map (prune_entry cfg now) (entries s)). lia. Qed.

Lemma prune_ok now s : limiter_ok s -> limiter_ok (pruneExpiredEntries cfg now s).
  Proof.
    intros [Hwf Hn]. split; [by apply jm_wf_filter_map|]. pose proof (prune_size now s). lia.
  Qed.

Lemma prune_get now s key : jm_wf (entries s) ->
    jm_get key (entries (pruneExpiredEntries cfg now s)) =
    jm_get key (entries s) ≫= prune_entry cfg now.
  Proof. apply jm_get_filter_map. Qed.

Lemma checkOverflowLock_entries now s :
    let s' := fst (checkOverflowLock cfg now s) in
    entries s' = entries s \/ entries s' = entries (pruneExpiredEntries cfg now s).
  Proof.
    unfold checkOverflowLock. destruct (instant_truthy _); [|by left].
    destruct (_ <=? now); [by left|]. destruct (maxEntries cfg <=? size s); cbv zeta;
      destruct (_ <? maxEntries cfg); cbn; auto.
  Qed.

  (** What [enforceMaxEntries] does. *)
Lemma enforceMaxEntries_spec now s : limiter_ok s -> 1 <= maxEntries cfg ->
    let '(s', room) := enforceMaxEntries cfg now s in
    limiter_ok s' /\ overflowLockedUntil s' = overflowLockedUntil s /\
    (forall key entry, jm_get key (entries s) = Some entry -> lock_in_force now entry <> None ->
       jm_get key (entries s') = Some entry) /\
    (room = true -> size s' < maxEntries cfg) /\
    (room = false -> s' = pruneExpiredEntries cfg now s /\ size s' = maxEntries cfg /\
       jm_all (fun _ entry => lock_in_force now entry <> None) (entries s')).
  Proof.
    intros Hok Hmax. unfold enforceMaxEntries.
    destruct (size s <? maxEntries cfg) eqn:E1; [split_and!; try done; lia|].
    pose proof (prune_ok now s Hok) as Hok'.
    assert (forall key entry, jm_get key (entries s) = Some entry -> lock_in_force now entry <> None ->
      jm_get key (entries (pruneExpiredEntries cfg now s)) = Some entry) as Hkeep.
    { intros key entry Hg Hl. rewrite prune_get by apply Hok. rewrite Hg. cbn. unfold prune_entry.
      by destruct (lock_in_force now entry). }
    set (s1 := pruneExpiredEntries cfg now s) in *. cbv zeta.
    destruct (size s1 <? maxEntries cfg) eqn:E2; [split_and!; try done; lia|].
    destruct (find_first _ _) as [[key0 entry0]|] eqn:Ef.
    - apply find_first_Some in Ef as (l1 & l2 & Hes & Hun & _).
      apply negb_true_iff, bool_decide_eq_false in Hun.
      assert (jm_get key0 (entries s1) = Some entry0) as Hg0.
      { apply jm_elem_get; [apply Hok'|]. rewrite Hes. set_solver. }
      pose proof (jm_length_delete _ _ _ Hg0) as Hlen. destruct Hok' as [Hwf Hn]. unfold size in *.
      split_and!; try done.
      + split; unfold size, with_entries; cbn [entries]; [by apply jm_wf_delete|lia].
      + intros key entry Hg Hl. cbn. rewrite jm_get_delete_ne; [by apply Hkeep|].
        intros ->. rewrite (Hkeep _ _ Hg Hl) in Hg0. simplify_eq. apply Hun. by apply not_eq_None_Some.
      + intros _. unfold with_entries. cbn [entries]. lia.
    - split_and!; try done. destruct Hok'. intros _. split_and!; [done|lia|].
      intros key entry Hin. apply find_first_None in Ef. rewrite Forall_forall in Ef.
      apply Ef, negb_false_iff, bool_decide_eq_true in Hin. by apply not_eq_None_Some.
  Qed.

Lemma set_existing_ok key entry entry' s :
    jm_get key (entries s) = Some entry -> limiter_ok s ->
    limiter_ok (with_entries (jm_set key entry' (entries s)) s).
  Proof.
    intros Hg [Hwf Hn]. split; [by apply jm_wf_set|]. unfold size, with_entries in *. cbn [entries].
    rewrite jm_length_set, decide_True; [done|].
    apply list_elem_of_fmap. exists (key, entry). split; [done|]. by apply jm_get_elem.
  Qed.

Lemma set_new_ok key entry' s :
    limiter_ok s -> size s < maxEntries cfg ->
    limiter_ok (with_entries (jm_set key entry' (entries s)) s).
  Proof.
    intros [Hwf _] Hn. split; [by apply jm_wf_set|]. unfold size, with_entries in *. cbn [entries].
    pose proof (jm_length_set_le key entry' (entries s)). lia.
  Qed.

Lemma checkOverflowLock_ok now s : limiter_ok s -> limiter_ok (fst (checkOverflowLock cfg now s)).
  Proof.
    intros Hok. pose proof (checkOverflowLock_entries now s) as H. cbv zeta in H.
    pose proof (prune_ok now s Hok) as Hp. unfold limiter_ok, size in *.
    destruct H as [-> | ->]; done.
  Qed.

Lemma empty_limiter_ok : 1 <= maxEntries cfg -> limiter_ok empty_limiter.
  Proof. intros H. split; [apply NoDup_nil_2|]. unfold size. cbn. lia. Qed.

Lemma limiter_step_ok now op s : 1 <= maxEntries cfg -> limiter_ok s ->
    limiter_ok (limiter_step cfg now op s).
  Proof.
    intros Hmax Hok. destruct op as [ip scope|ip scope|ip scope| |]; cbn [limiter_step].
    - unfold check. destruct (resolveKey ip scope) as [key a]. destruct (isExempt cfg a); [done|].
      destruct (jm_get key (entries s)) as [entry|] eqn:Hg.
      + destruct (lock_in_force now entry); [done|]. by eapply set_existing_ok.
      + pose proof (checkOverflowLock_ok now s Hok).
        by destruct (checkOverflowLock cfg now s) as [s' [r|]].
    - unfold recordFailure. destruct (resolveKey ip scope) as [key a]. destruct (isExempt cfg a); [done|].
      destruct (jm_get key (entries s)) as [entry|] eqn:Hg; [by eapply set_existing_ok|].
      pose proof (enforceMaxEntries_spec now s Hok Hmax) as H.
      destruct (enforceMaxEntries cfg now s) as [s' []]; destruct H as (Hok' & _ & _ & Hroom & _); [|done].
      apply set_new_ok; auto.
    - split; [by apply jm_wf_delete, Hok|]. destruct Hok as [_ Hok]. unfold size, reset, with_entries in *.
      cbn [entries]. destruct (jm_get (fst (resolveKey ip scope)) (entries s)) as [e|] eqn:Hg.
      + pose proof (jm_length_delete _ _ _ Hg). lia.
      + rewrite jm_delete_absent; [done|]. by apply jm_get_None.
    - by apply prune_ok.
    - by apply empty_limiter_ok.
  Qed.

Lemma limiter_run_ok ops s : 1 <= maxEntries cfg -> limiter_ok s -> limiter_ok (limiter_run cfg ops s).
  Proof.
    intros Hmax. revert s. induction ops as [|[now op] ops IH]; intros s Hok; [done|].
    apply IH. by apply limiter_step_ok.
  Qed.

  (** ** Locks that are in force *)

  (** [key] is locked until [until]. *)
Definition locked_until (key : jstr) (until : Z) s : Prop :=
    exists entry, jm_get key (entries s) = Some entry /\ lockedUntil entry = Some until.

Lemma lock_in_force_iff now until entry : lockedUntil entry = Some until -> 0 < until -> now < until ->
    lock_in_force now entry = Some until.
  Proof.
    intros E H0 H. unfold lock_in_force, instant_truthy. rewrite E.
    rewrite (proj2 (Z.eqb_neq until 0)) by lia. by rewrite (proj2 (Z.ltb_lt now until)).
  Qed.

  (** An operation that is not meant for the key. *)
Definition spares (key : jstr) (op : limiter_op) : bool :=
  match op with
  | LReset ip scope => negb (bool_decide (fst (resolveKey ip scope) = key))
  | LDispose => false
  | _ => true
  end.

Lemma limiter_step_keeps_lock now op key until s :
    1 <= maxEntries cfg -> limiter_ok s -> spares key op = true -> 0 < until -> now < until ->
    locked_until key until s -> locked_until key until (limiter_step cfg now op s).
  Proof.
    intros Hmax Hok Hsp H0 Hnow (entry & Hg & Hl).
    pose proof (lock_in_force_iff now until entry Hl H0 Hnow) as Hf. exists entry. split; [|done].
    destruct op as [ip scope|ip scope|ip scope| |]; cbn [limiter_step]; [| | | |done].
    - unfold check. destruct (resolveKey ip scope) as [key' a]. destruct (isExempt cfg a); [done|].
      destruct (jm_get key' (entries s)) as [entry'|] eqn:Hg'.
      + destruct (lock_in_force now entry') eqn:Hf'; [done|]. cbn.
        rewrite jm_get_set_ne; [done|]. intros ->. congruence.
      + pose proof (checkOverflowLock_entries now s) as H. cbv zeta in H.
        assert (jm_get key (entries (fst (checkOverflowLock cfg now s))) = Some entry) as Hs.
        { destruct H as [-> | ->]; [done|]. rewrite prune_get by apply Hok. rewrite Hg. cbn.
          unfold prune_entry. by rewrite Hf. }
        by destruct (checkOverflowLock cfg now s) as [s' [r|]].
    - unfold recordFailure. destruct (resolveKey ip scope) as [key' a]. destruct (isExempt cfg a); [done|].
      destruct (jm_get key' (entries s)) as [entry'|] eqn:Hg'.
      + cbn. rewrite jm_get_set. case_decide; [subst|done]. unfold push_failure. simplify_eq. by rewrite Hf.
      + pose proof (enforceMaxEntries_spec now s Hok Hmax) as H.
        destruct (enforceMaxEntries cfg now s) as [s' []]; destruct H as (_ & _ & Hkeep & _).
        * cbn. rewrite jm_get_set_ne; [apply Hkeep; congruence|]. intros ->. congruence.
        * cbn. apply Hkeep; congruence.
    - cbn. cbn in Hsp. apply negb_true_iff, bool_decide_eq_false in Hsp.
      by rewrite jm_get_delete_ne by done.
    - unfold prune. rewrite prune_get by apply Hok. rewrite Hg. cbn. unfold prune_entry. by rewrite Hf.
  Qed.
End limiter_laws.

(** Whatever is asked of the limiter, it tracks each client once and never
    more than [maxEntries] of them, which is at least one for any
    configuration. *)
Theorem tracked_clients_bounded `{N : NetRuntime} (config : RateLimitConfig)
    (ops : list (Z * limiter_op)) :
  let cfg := limiter_settings config in
  let s := limiter_run cfg ops empty_limiter in
  jm_wf (entries s) /\ size s <= maxEntries cfg /\ 1 <= maxEntries cfg.
Proof.
  intros cfg s. destruct (limiter_settings_bounds config) as (_ & _ & Hmax). fold cfg in Hmax.
  assert (limiter_ok cfg s) as [? ?]; [|done].
  apply limiter_run_ok; [done|]. by apply empty_limiter_ok.
Qed.

(** A lockout lasts.  While it is in force no failure of anyone, no check
    and no pruning ends it, so that a flood of clients cannot evict it: only a
    reset of the key does.  Every check of the key in that time is refused and
    names the time that is left. *)
Theorem lockout_lasts `{N : NetRuntime} (config : RateLimitConfig) (past ops : list (Z * limiter_op))
    (ip scope : option jstr) (until now : Z) :
  let cfg := limiter_settings config in
  let s := limiter_run cfg past empty_limiter in
  let s' := limiter_run cfg ops s in
  let key := fst (resolveKey ip scope) in
  locked_until key until s -> isExempt cfg (snd (resolveKey ip scope)) = false ->
  Forall (fun '(t, op) => t < until /\ spares key op = true) ops -> 0 < until -> now < until ->
  check cfg ip scope now s' =
    (s', {| allowed := false; remaining := of_Z 0; retryAfterMs := until - now |}).
Proof.
  intros cfg s s' key Hl Hex Hops H0 Hnow.
  destruct (limiter_settings_bounds config) as (_ & _ & Hmax). fold cfg in Hmax.
  assert (limiter_ok cfg s) as Hok.
  { apply limiter_run_ok; [done|]. by apply empty_limiter_ok. }
  assert (locked_until key until s') as (entry & Hg & He).
  { unfold s'. clearbody s. induction Hops as [|[t op] ops [Ht Hsp] _ IH] in s, Hok, Hl |- *; [done|].
    apply IH; [by apply limiter_step_keeps_lock|by apply limiter_step_ok]. }
  unfold check. unfold key in *. destruct (resolveKey ip scope) as [k a]. cbn [fst snd] in *.
  rewrite Hex, Hg. by rewrite (lock_in_force_iff now until entry).
Qed.


(** ** A full limiter *)

(** Entries whose locks are in force past [later]. *)
Definition all_locked (later : Z) (s : AuthRateLimiter) : Prop :=
  jm_all (fun _ entry => exists t, lockedUntil entry = Some t /\ later < t) (entries s).

Lemma prune_all_locked cfg now later s : 0 <= now <= later -> all_locked later s ->
  pruneExpiredEntries cfg now s = s.
Proof.
  intros Hn Hall. unfold pruneExpiredEntries. rewrite jm_filter_map_id; [by destruct s|].
  intros key entry Hin. destruct (Hall key entry Hin) as (t & Ht & Hlt).
  unfold prune_entry. by rewrite (lock_in_force_iff now t) by (done || lia).
Qed.

(** A limiter whose entries are all locked fails closed: the failure of a
    further client evicts nobody, and from then on every client it does not know
    is refused, until the locks end or the lockout of that failure would. *)
Theorem full_limiter_fails_closed `{N : NetRuntime} (config : RateLimitConfig)
    (past : list (Z * limiter_op)) (ip scope : option jstr) (now later : Z) :
  let cfg := limiter_settings config in
  let s := limiter_run cfg past empty_limiter in
  let s' := recordFailure cfg ip scope now s in
  size s = maxEntries cfg -> all_locked later s ->
  isExempt cfg (snd (resolveKey ip scope)) = false ->
  jm_get (fst (resolveKey ip scope)) (entries s) = None ->
  0 < now <= later -> later < now + lockoutMs cfg ->
  entries s' = entries s /\
  forall ip' scope', isExempt cfg (snd (resolveKey ip' scope')) = false ->
    jm_get (fst (resolveKey ip' scope')) (entries s) = None ->
    allowed (snd (check cfg ip' scope' later s')) = false.
Proof.
  intros cfg s s' Hfull Hall Hex Hnew Hn Hlater. clearbody s.
  assert (exists u, s' = with_overflow (Some u) s /\ later < u) as (u & -> & Hu).
  { unfold s', recordFailure. destruct (resolveKey ip scope) as [key a]. cbn in Hex, Hnew.
    rewrite Hex, Hnew. unfold enforceMaxEntries. rewrite (proj2 (Z.ltb_ge _ _)) by lia.
    rewrite (prune_all_locked cfg now later) by (done || lia). cbv zeta.
    rewrite (proj2 (Z.ltb_ge _ _)) by lia. rewrite (proj2 (find_first_None _ _)); [eexists; split; [done|lia]|].
    apply Forall_forall. intros [k e] Hin. destruct (Hall k e Hin) as (t & Ht & Hlt).
    rewrite (lock_in_force_iff now t) by (done || lia). by rewrite bool_decide_eq_true_2. }
  split; [done|]. intros ip' scope' Hex' Hnew'. unfold check.
  destruct (resolveKey ip' scope') as [key' a']. cbn in Hex', Hnew'. rewrite Hex'. cbn [entries with_overflow].
  rewrite Hnew'. unfold checkOverflowLock. cbn [overflowLockedUntil with_overflow instant_truthy].
  rewrite (proj2 (Z.eqb_neq u 0)), (proj2 (Z.leb_gt _ _)) by lia.
  assert (size (with_overflow (Some u) s) = maxEntries cfg) as Hs by done. rewrite Hs, Z.leb_refl.
  rewrite (prune_all_locked cfg later later) by (lia || done). cbv zeta. by rewrite Hs, Z.ltb_irrefl.
Qed.
