(* ===== verification/AuthRateWindow.v ===== *)
(** * The limiter is a sliding window

    What [AuthRateLimit] promises, as a reference: of every client the guesses
    that were looked at and the end of its last lockout, kept for ever, without
    pruning, eviction or windows that slide.  The limiter answers as the
    reference does while its room suffices, and so bounds the guesses. *)
From S2P Require Import Prelude JsString JsMap JsNumber IpAddress ClientIp AuthRateLimit.
#[local] Open Scope Z_scope.

(** What a caller does at one instant: an attempt is a check and, when it is
    allowed, a failure for a wrong guess or a reset for a right one. *)
Inductive auth_op :=
  | AAttempt (ip scope : option jstr) (ok : bool)
  | ACheck (ip scope : option jstr)
  | AReset (ip scope : option jstr)
  | APrune.

(** The answers to a list of operations. *)
Fixpoint auth_answers {S : Type} (step : Z -> auth_op -> S -> S * option RateLimitCheckResult)
    (ops : list (Z * auth_op)) (s : S) : list (option RateLimitCheckResult) :=
  match ops with
  | [] => []
  | (now, op) :: ops => let '(s, r) := step now op s in r :: auth_answers step ops s
  end.

(** The time does not run backwards. *)
Fixpoint ascending (last : Z) (ops : list (Z * auth_op)) : Prop :=
  match ops with
  | [] => True
  | (now, _) :: ops => last <= now /\ ascending now ops
  end.

Section steps.
  Context `{N : NetRuntime} (cfg : LimiterSettings) (M : Z).

Definition auth_step (now : Z) (op : auth_op) (s : AuthRateLimiter)
    : AuthRateLimiter * option RateLimitCheckResult :=
  match op with
  | AAttempt ip scope ok =>
      let '(s, r) := check cfg ip scope now s in
      (if allowed r then if ok then reset ip scope s else recordFailure cfg ip scope now s else s,
       Some r)
  | ACheck ip scope => let '(s, r) := check cfg ip scope now s in (s, Some r)
  | AReset ip scope => (reset ip scope s, None)
  | APrune => (prune cfg now s, None)
  end.

  (** ** The reference *)

Record Client := { guesses : list Z; lock : Z }.

Definition new_client : Client := {| guesses := []; lock := 0 |}.

Definition in_window (now : Z) (ts : list Z) : list Z :=
  List.filter (fun t => now - windowMs cfg <? t) ts.

Definition count (ts : list Z) : Z := Z.of_nat (length ts).

Definition client_check (now : Z) (c : Client) : RateLimitCheckResult :=
  if now <? lock c
  then {| allowed := false; remaining := of_Z 0; retryAfterMs := lock c - now |}
  else let left := Z.max 0 (M - count (in_window now (guesses c))) in
       {| allowed := 0 <? left; remaining := of_Z left; retryAfterMs := 0 |}.

Definition client_guess (now : Z) (c : Client) : Client := {|
  guesses := guesses c ++ [now];
  lock := if M <=? count (in_window now (guesses c)) + 1 then now + lockoutMs cfg else lock c |}.

Definition set_client (key : jstr) (c : Client) (sp : jstr -> Client) : jstr -> Client :=
  fun k => if decide (k = key) then c else sp k.

Definition clients_check (ip scope : option jstr) (now : Z) (sp : jstr -> Client)
    : RateLimitCheckResult :=
  let '(key, a) := resolveKey ip scope in
  if isExempt cfg a then {| allowed := true; remaining := of_Z M; retryAfterMs := 0 |}
  else client_check now (sp key).

Definition clients_step (now : Z) (op : auth_op) (sp : jstr -> Client)
    : (jstr -> Client) * option RateLimitCheckResult :=
  match op with
  | AAttempt ip scope ok =>
      let '(key, a) := resolveKey ip scope in
      let r := clients_check ip scope now sp in
      (if allowed r then
         if ok then set_client key new_client sp
         else if isExempt cfg a then sp else set_client key (client_guess now (sp key)) sp
       else sp, Some r)
  | ACheck ip scope => (sp, Some (clients_check ip scope now sp))
  | AReset ip scope => (set_client (fst (resolveKey ip scope)) new_client sp, None)
  | APrune => (sp, None)
  end.

  (** The keys under which wrong guesses may be recorded. *)
Definition guess_key (op : Z * auth_op) : option jstr :=
  match snd op with AAttempt ip scope false => Some (fst (resolveKey ip scope)) | _ => None end.

Definition guess_keys (ops : list (Z * auth_op)) : list jstr := js_set (omap guess_key ops).

  (** ** The simulation *)

  Context (HM : maxAttempts cfg = of_Z M) (HM1 : 1 <= M <= 2 ^ 53)
    (Hwindow : 0 <= windowMs cfg <= lockoutMs cfg) (Hentries : 1 <= maxEntries cfg).

Definition entry_sim (now : Z) (e : option RateLimitEntry) (c : Client) : Prop :=
  match e with
  | None => in_window now (guesses c) = [] /\ lock c <= now
  | Some e =>
      in_window now (attempts e) = in_window now (guesses c) /\ count (attempts e) <= M /\
      Forall (fun t => t <= now) (attempts e) /\
      match lockedUntil e with
      | None => lock c <= now
      | Some t => 0 < t /\ lock c = t /\ Forall (fun x => x <= t - lockoutMs cfg) (attempts e)
      end
  end.

Record sim (room : list jstr) (now : Z) (s : AuthRateLimiter) (sp : jstr -> Client) : Prop := {
  sim_wf : jm_wf (entries s);
  sim_overflow : overflowLockedUntil s = None;
  sim_keys : (entries s).*1 ⊆ room;
  sim_entries : forall key, entry_sim now (jm_get key (entries s)) (sp key);
}.

Lemma in_window_twice last now ts : last <= now -> in_window now (in_window last ts) = in_window now ts.
  Proof.
    intros H. unfold in_window. induction ts as [|t ts IH]; [done|]. cbn.
    destruct (last - windowMs cfg <? t) eqn:E1; cbn; [by rewrite IH|].
    destruct (now - windowMs cfg <? t) eqn:E2; [lia|done].
  Qed.

Lemma in_window_app now ts us : in_window now (ts ++ us) = in_window now ts ++ in_window now us.
  Proof. apply List.filter_app. Qed.

Lemma in_window_length now ts : count (in_window now ts) <= count ts.
  Proof. unfold count, in_window. pose proof (List.filter_length_le (fun t => now - windowMs cfg <? t) ts). lia. Qed.

Lemma in_window_Forall (P : Z -> Prop) now ts : Forall P ts -> Forall P (in_window now ts).
  Proof.
    rewrite !Forall_forall. intros H x Hx. apply H.
    apply list_elem_of_In in Hx. apply list_elem_of_In. by apply List.filter_In in Hx as [? _].
  Qed.

Lemma in_window_old now ts : Forall (fun t => t <= now - windowMs cfg) ts -> in_window now ts = [].
  Proof. induction 1 as [|t ts Ht _ IH]; [done|]. cbn. by rewrite (proj2 (Z.ltb_ge _ _)) by lia. Qed.

Lemma entry_sim_later last now e c : last <= now -> entry_sim last e c -> entry_sim now e c.
  Proof.
    intros H. assert (forall ts us, in_window last ts = in_window last us -> in_window now ts = in_window now us) as Hw.
    { intros ts us E. by rewrite <- (in_window_twice last now ts), E, in_window_twice. }
    destruct e as [e|]; cbn.
    - intros (E & Hn & Hf & Hl). split_and!; [by apply Hw|done| |].
      + eapply Forall_impl; [exact Hf|]. cbn. lia.
      + destruct (lockedUntil e); [done|lia].
    - intros [E Hl]. split; [|lia]. by apply (Hw (guesses c) []).
  Qed.

Lemma sim_later room last now s sp : last <= now -> sim room last s sp -> sim room now s sp.
  Proof. intros H []. split; try done. intros key. by eapply entry_sim_later. Qed.

  (** The answer of a check whose window holds [n] failures. *)
Lemma remaining_exact n : 0 <= n <= M ->
    math_max (of_Z 0) (num_sub (maxAttempts cfg) (of_Z n)) = of_Z (Z.max 0 (M - n)).
  Proof. intros H. rewrite HM, sub_exact by lia. by rewrite math_max_of_Z. Qed.

Lemma entry_sim_set room now s sp key e c :
    sim room now s sp -> key ∈ room -> entry_sim now (Some e) c ->
    sim room now (with_entries (jm_set key e (entries s)) s) (set_client key c sp).
  Proof.
    intros [Hwf Ho Hk He] Hr Hs. split; cbn.
    - by apply jm_wf_set.
    - done.
    - rewrite jm_set_keys. case_decide; set_solver.
    - intros k. unfold set_client. rewrite jm_get_set. by case_decide.
  Qed.

Lemma set_client_id key sp k : set_client key (sp key) sp k = sp k.
  Proof. unfold set_client. by case_decide; subst. Qed.

Lemma sim_ext room now s sp sp' : (forall k, sp k = sp' k) -> sim room now s sp -> sim room now s sp'.
  Proof. intros E []. split; try done. intros k. by rewrite <- E. Qed.

  (** An entry that is looked at when no lock is in force. *)
Lemma looked_at_entry now e c :
    entry_sim now (Some e) c -> lock_in_force now e = None ->
    let e' := slideWindow cfg (if lock_expired now e then {| attempts := []; lockedUntil := None |} else e) now in
    lock c <= now /\ lockedUntil e' = None /\ attempts e' = in_window now (guesses c) /\
    entry_sim now (Some e') c.
  Proof.
    intros (Ew & Hn & Hf & Hl) Hlock e'.
    assert (lock c <= now /\ lockedUntil e' = None /\ attempts e' = in_window now (guesses c)) as (H1 & H2 & H3).
    { unfold e', lock_in_force, lock_expired, instant_truthy in *. destruct (lockedUntil e) as [t|] eqn:El.
      - destruct Hl as (Ht & -> & Hold). rewrite (proj2 (Z.eqb_neq t 0)) in * by lia.
        destruct (now <? t) eqn:Et; [done|]. rewrite (proj2 (Z.leb_le t now)) by lia.
        split_and!; [lia|done|]. cbn. rewrite <- Ew. symmetry. apply in_window_old.
        eapply Forall_impl; [exact Hold|]. cbn. lia.
      - done. }
    split_and!; [done..|]. cbn [entry_sim]. rewrite H2, H3. split_and!; [| | |done].
    - apply (in_window_twice now now). lia.
    - rewrite <- Ew. pose proof (in_window_length now (attempts e)). lia.
    - rewrite <- Ew. by apply in_window_Forall.
  Qed.

Lemma check_sim room now s sp ip scope :
    sim room now s sp ->
    let '(s', r) := check cfg ip scope now s in
    let '(key, a) := resolveKey ip scope in
    r = clients_check ip scope now sp /\ sim room now s' sp /\
    (isExempt cfg a = false -> allowed r = true ->
       lock (sp key) <= now /\ count (in_window now (guesses (sp key))) < M /\
       match jm_get key (entries s') with Some e => lockedUntil e = None | None => True end).
  Proof.
    intros Hsim. unfold check, clients_check. destruct (resolveKey ip scope) as [key a].
    destruct (isExempt cfg a); [by rewrite HM|].
    pose proof (sim_entries _ _ _ _ Hsim key) as He. unfold client_check.
    destruct (jm_get key (entries s)) as [e|] eqn:Hg.
    - destruct (lock_in_force now e) as [t|] eqn:Hlock.
      + destruct He as (_ & _ & _ & Hl). unfold lock_in_force, instant_truthy in Hlock.
        destruct (lockedUntil e) as [t'|]; [|done]. destruct Hl as (_ & -> & _).
        destruct (t' =? 0); [done|]. destruct (now <? t') eqn:Et; [|done]. by simplify_eq.
      + destruct (looked_at_entry now e _ He Hlock) as (H1 & H2 & H3 & H4).
        set (e' := slideWindow cfg _ now) in *. cbv zeta. rewrite H3.
        destruct H4 as (E4 & Hn & Hf & _). rewrite H3 in Hn. fold (count (in_window now (guesses (sp key)))).
        rewrite remaining_exact by (unfold count in *; lia). rewrite (proj2 (Z.ltb_ge _ _) H1), num_lt_of_Z.
        split_and!; [done| |].
        * eapply sim_ext; [apply (set_client_id key)|]. apply entry_sim_set; [done| |].
          { apply (sim_keys _ _ _ _ Hsim), list_elem_of_fmap. exists (key, e). split; [done|]. by apply jm_get_elem. }
          cbn [entry_sim]. by rewrite H2, H3 in *.
        * intros _ Hall. cbn in Hall. cbn [entries with_entries]. rewrite jm_get_set_eq. split_and!; [done| |done].
          unfold count in *. lia.
    - destruct He as [Ew Hl]. unfold checkOverflowLock. rewrite (sim_overflow _ _ _ _ Hsim). cbn [instant_truthy].
      rewrite (proj2 (Z.ltb_ge _ _) Hl), Ew, Hg. cbn [count length Z.of_nat]. rewrite HM.
      rewrite Z.sub_0_r, (Z.max_r 0 M) by lia. rewrite (proj2 (Z.ltb_lt 0 M)) by lia.
      split_and!; [done..|]. intros _ _. split_and!; [lia|unfold count; cbn; lia|done].
  Qed.

Lemma push_sim now e c :
    0 < now -> entry_sim now (Some e) c -> lockedUntil e = None -> lock c <= now ->
    count (in_window now (guesses c)) < M ->
    entry_sim now (Some (push_failure cfg now e)) (client_guess now c).
  Proof.
    intros H0 (Ew & Hn & Hf & _) Hl Hc Hcount. unfold push_failure, lock_in_force. rewrite Hl.
    cbn [instant_truthy slideWindow attempts]. fold (in_window now (attempts e)). rewrite Ew.
    rewrite HM, num_le_of_Z, length_app. cbn [length].
    replace (Z.of_nat (length (in_window now (guesses c)) + 1))
      with (count (in_window now (guesses c)) + 1) by (unfold count; lia).
    assert (Forall (fun t => t <= now) (in_window now (guesses c) ++ [now])) as Hall.
    { apply Forall_app. split; [rewrite <- Ew; by apply in_window_Forall|]. constructor; [lia|done]. }
    cbn [entry_sim client_guess guesses lock attempts lockedUntil]. split_and!.
    - rewrite !in_window_app, in_window_twice by lia. done.
    - unfold count in *. rewrite length_app. cbn [length]. lia.
    - done.
    - destruct (M <=? _); [|done]. split_and!; [lia|done|].
      eapply Forall_impl; [exact Hall|]. cbn. lia.
  Qed.

  (** Room for one more key. *)
Lemma sim_room room now s sp key :
    sim room now s sp -> NoDup room -> Z.of_nat (length room) <= maxEntries cfg ->
    key ∈ room -> jm_get key (entries s) = None -> size s < maxEntries cfg.
  Proof.
    intros [Hwf _ Hk _] Hnd Hn Hkey Hg%jm_get_None. unfold size.
    assert (key :: (entries s).*1 ⊆+ room) as Hsub%submseteq_length.
    { apply NoDup_submseteq; [by apply NoDup_cons|]. set_solver. }
    cbn in Hsub. rewrite length_fmap in Hsub. lia.
  Qed.

Lemma failure_sim room now s sp ip scope :
    NoDup room -> Z.of_nat (length room) <= maxEntries cfg -> 0 < now -> sim room now s sp ->
    let '(key, a) := resolveKey ip scope in
    isExempt cfg a = false -> key ∈ room -> lock (sp key) <= now ->
    count (in_window now (guesses (sp key))) < M ->
    match jm_get key (entries s) with Some e => lockedUntil e = None | None => True end ->
    sim room now (recordFailure cfg ip scope now s) (set_client key (client_guess now (sp key)) sp).
  Proof.
    intros Hnd Hroom H0 Hsim. unfold recordFailure. destruct (resolveKey ip scope) as [key a].
    intros Hex Hkey Hl Hc He. rewrite Hex. pose proof (sim_entries _ _ _ _ Hsim key) as Hs.
    destruct (jm_get key (entries s)) as [e|] eqn:Hg.
    - apply entry_sim_set; [done..|]. by apply push_sim.
    - unfold enforceMaxEntries. rewrite (proj2 (Z.ltb_lt _ _)) by (by eapply sim_room).
      apply entry_sim_set; [done..|]. apply push_sim; try done. cbn [entry_sim attempts lockedUntil].
      destruct Hs as [-> ?]. split_and!; [done|unfold count; cbn; lia|constructor|done].
  Qed.

Lemma reset_sim room now s sp ip scope :
    0 < now -> sim room now s sp ->
    sim room now (reset ip scope s) (set_client (fst (resolveKey ip scope)) new_client sp).
  Proof.
    intros H0 [Hwf Ho Hk He]. set (key := fst _). split; cbn; fold key.
    - by apply jm_wf_delete.
    - done.
    - pose proof (jm_delete_keys key (entries s)). set_solver.
    - intros k. unfold set_client. case_decide as E.
      + subst k. rewrite jm_get_delete_eq by done. cbn. split; [done|lia].
      + by rewrite jm_get_delete_ne.
  Qed.

Lemma prune_sim room now s sp : sim room now s sp -> sim room now (prune cfg now s) sp.
  Proof.
    intros [Hwf Ho Hk He]. split; unfold prune.
    - by apply jm_wf_filter_map.
    - done.
    - cbn. pose proof (sublist_subseteq _ _ (jm_filter_map_keys (prune_entry cfg now) (entries s))). set_solver.
    - intros key. rewrite prune_get by done. specialize (He key).
      destruct (jm_get key (entries s)) as [e|]; cbn [mbind option_bind]; [|done].
      unfold prune_entry. destruct (lock_in_force now e) eqn:Hlock; [done|].
      assert (lock (sp key) <= now) as Hl.
      { by destruct (looked_at_entry now e _ He Hlock) as [? _]. }
      destruct He as (Ew & Hn & Hf & Hlk). unfold slideWindow. fold (in_window now (attempts e)).
      cbn [attempts]. destruct (in_window now (attempts e)) as [|x l] eqn:E.
      + cbn. by rewrite <- Ew.
      + cbn [entry_sim attempts lockedUntil]. rewrite <- E in *. split_and!.
        * rewrite in_window_twice by lia. done.
        * pose proof (in_window_length now (attempts e)). lia.
        * by apply in_window_Forall.
        * destruct (lockedUntil e); [|done]. destruct Hlk as (? & ? & ?). split_and!; [done..|].
          by apply in_window_Forall.
  Qed.

Lemma step_sim room now op s sp :
    NoDup room -> Z.of_nat (length room) <= maxEntries cfg -> 0 < now ->
    (forall key, guess_key (now, op) = Some key -> key ∈ room) -> sim room now s sp ->
    let '(s', r) := auth_step now op s in
    let '(sp', r') := clients_step now op sp in
    r = r' /\ sim room now s' sp'.
  Proof.
    intros Hnd Hroom H0 Hkey Hsim. destruct op as [ip scope ok|ip scope|ip scope|]; cbn [auth_step clients_step].
    - pose proof (check_sim room now s sp ip scope Hsim) as Hc.
      destruct (check cfg ip scope now s) as [s' r]. cbn [guess_key snd] in Hkey.
      pose proof (failure_sim room now s' sp ip scope Hnd Hroom H0) as Hf.
      pose proof (reset_sim room now s' sp ip scope H0) as Hr.
      assert (forall key a, resolveKey ip scope = (key, a) -> isExempt cfg a = true ->
        recordFailure cfg ip scope now s' = s') as Hx.
      { intros key a E Ea. unfold recordFailure. by rewrite E, Ea. }
      destruct (resolveKey ip scope) as [key a]. destruct Hc as (<- & Hs' & Hall). split; [done|].
      destruct (allowed r); [|done]. destruct ok; [by apply Hr|].
      destruct (isExempt cfg a) eqn:Hex; [by rewrite (Hx key a)|].
      destruct Hall as (? & ? & ?); [done..|]. apply Hf; auto.
    - pose proof (check_sim room now s sp ip scope Hsim) as Hc.
      destruct (check cfg ip scope now s) as [s' r], (resolveKey ip scope) as [key a].
      by destruct Hc as (<- & ? & _).
    - split; [done|]. by apply reset_sim.
    - split; [done|]. by apply prune_sim.
  Qed.

Lemma answers_sim room ops last s sp :
    NoDup room -> Z.of_nat (length room) <= maxEntries cfg -> 0 < last -> ascending last ops ->
    (forall op key, op ∈ ops -> guess_key op = Some key -> key ∈ room) -> sim room last s sp ->
    auth_answers auth_step ops s = auth_answers clients_step ops sp.
  Proof.
    intros Hnd Hroom. revert last s sp. induction ops as [|[now op] ops IH]; intros last s sp H0 Hasc Hkeys Hsim; [done|].
    destruct Hasc as [Hle Hasc]. cbn [auth_answers].
    pose proof (step_sim room now op s sp Hnd Hroom ltac:(lia)
      ltac:(intros key; apply (Hkeys (now, op)); set_solver) (sim_later _ _ _ _ _ Hle Hsim)) as Hstep.
    destruct (auth_step now op s) as [s' r], (clients_step now op sp) as [sp' r'].
    destruct Hstep as [-> Hsim']. f_equal. apply (IH now); [lia|done| |done].
    intros op' key Hin. apply Hkeys. set_solver.
  Qed.

Lemma empty_sim room last : 0 < last -> sim room last empty_limiter (fun _ => new_client).
  Proof. intros H. split; cbn; [apply NoDup_nil_2|done|set_solver|]. intros key. split; [done|lia]. Qed.
End steps.

Lemma limiter_reference `{N : NetRuntime} (config : RateLimitConfig) (M first : Z)
    (ops : list (Z * auth_op)) :
  let cfg := limiter_settings config in
  maxAttempts cfg = of_Z M -> 1 <= M <= 2 ^ 53 -> windowMs cfg <= lockoutMs cfg ->
  0 < first -> ascending first ops ->
  Z.of_nat (length (guess_keys ops)) <= maxEntries cfg ->
  auth_answers (auth_step cfg) ops empty_limiter =
    auth_answers (clients_step cfg M) ops (fun _ => new_client).
Proof.
  intros cfg HM HM1 Hw Hfirst Hasc Hroom.
  destruct (limiter_settings_bounds config) as (Hw0 & _ & He0). fold cfg in Hw0, He0.
  eapply answers_sim; [exact HM|done|lia|exact He0|apply NoDup_js_set|exact Hroom|exact Hfirst|done| |].
  - intros op key Hin Hk. apply elem_of_js_set, list_elem_of_omap. by exists op.
  - apply empty_sim; try done; lia.
Qed.

(** C14. While the distinct clients that guess wrongly fit the limiter, and a
    lockout is no shorter than the window, the limiter answers every attempt
    and check as the reference does: pruning, the bound on entries, and windows
    that slide are not seen. *)
Theorem limiter_is_sliding_window `{N : NetRuntime} (config : RateLimitConfig) (M first : Z)
    (ops : list (Z * auth_op)) :
  let cfg := limiter_settings config in
  maxAttempts cfg = of_Z M -> 1 <= M <= 2 ^ 53 -> windowMs cfg <= lockoutMs cfg ->
  0 < first -> ascending first ops ->
  Z.of_nat (length (guess_keys ops)) <= maxEntries cfg ->
  auth_answers (auth_step cfg) ops empty_limiter =
    auth_answers (clients_step cfg M) ops (fun _ => new_client).
Proof. apply limiter_reference. Qed.

(** ** Guesses *)

Section guesses.
  Context `{N : NetRuntime} (cfg : LimiterSettings).

  (** The instant of a wrong guess of the client that was let through. *)
Definition guess_of (key : jstr) (x : (Z * auth_op) * option RateLimitCheckResult) : option Z :=
  match x with
  | ((now, AAttempt ip scope false), Some r) =>
      let '(key', a) := resolveKey ip scope in
      if allowed r && negb (isExempt cfg a) && bool_decide (key' = key) then Some now else None
  | _ => None
  end.

Definition guess_times (key : jstr) (ops : list (Z * auth_op))
    (answers : list (option RateLimitCheckResult)) : list Z :=
  omap (guess_of key) (zip ops answers).

  (** The client neither succeeds nor is reset. *)
Definition never_succeeds (key : jstr) (op : Z * auth_op) : bool :=
  match snd op with
  | AAttempt ip scope true | AReset ip scope => negb (bool_decide (fst (resolveKey ip scope) = key))
  | _ => true
  end.

  (** The instants of a window that ends at [until]. *)
Definition within (until : Z) (ts : list Z) : list Z :=
  List.filter (fun t => (until - windowMs cfg <? t) && (t <=? until)) ts.

Lemma within_app until ts us : within until (ts ++ us) = within until ts ++ within until us.
  Proof. apply List.filter_app. Qed.

Lemma within_in_window until now ts :
    now <= until -> (length (within until ts) <= length (in_window cfg now ts))%nat.
  Proof.
    intros H. unfold within, in_window. induction ts as [|t ts IH]; [done|]. cbn.
    destruct (until - windowMs cfg <? t) eqn:E1, (now - windowMs cfg <? t) eqn:E2,
      (t <=? until) eqn:E3; cbn; lia.
  Qed.

Lemma within_none until now ts : until < now -> within until (ts ++ [now]) = within until ts.
  Proof.
    intros H. rewrite within_app. cbn. rewrite (proj2 (Z.leb_gt now until)) by lia.
    by rewrite andb_false_r, app_nil_r.
  Qed.

  (** One step of the reference, as the client sees it. *)
Lemma clients_step_client M key now op sp :
    1 <= M -> never_succeeds key (now, op) = true ->
    let '(sp', r) := clients_step cfg M now op sp in
    match guess_of key ((now, op), r) with
    | Some t => t = now /\ guesses (sp' key) = guesses (sp key) ++ [now] /\
                count (in_window cfg now (guesses (sp key))) < M
    | None => guesses (sp' key) = guesses (sp key)
    end.
  Proof.
    intros HM Hns. unfold never_succeeds in Hns.
    destruct op as [ip scope [] | ip scope | ip scope |]; cbn [clients_step guess_of snd] in *; try done.
    - destruct (resolveKey ip scope) as [key' a]. cbn in Hns. apply negb_true_iff, bool_decide_eq_false in Hns.
      destruct (allowed _); [|done]. unfold set_client. by rewrite decide_False.
    - unfold clients_check. destruct (resolveKey ip scope) as [key' a].
      destruct (isExempt cfg a); cbn [negb allowed andb]; [done|]. rewrite andb_true_r.
      unfold client_check. destruct (now <? lock (sp key')) eqn:El; [done|]. cbn [allowed].
      destruct (0 <? _) eqn:E; [|done]. cbn [andb]. unfold set_client. case_bool_decide as Hk.
      + subst key'. rewrite decide_True by done. split_and!; [done..|]. lia.
      + by rewrite decide_False.
    - unfold set_client. apply negb_true_iff, bool_decide_eq_false in Hns. by rewrite decide_False.
  Qed.

Lemma reference_bounds M key ops last sp :
    1 <= M -> ascending last ops -> Forall (fun op => never_succeeds key op = true) ops ->
    (forall until, count (within until (guesses (sp key))) <= M) ->
    forall until, count (within until (guesses (sp key) ++
      guess_times key ops (auth_answers (clients_step cfg M) ops sp))) <= M.
  Proof.
    intros HM. revert last sp. induction ops as [|[now op] ops IH]; intros last sp Hasc Hns Hb until.
    { cbn. by rewrite app_nil_r. }
    destruct Hasc as [_ Hasc]. apply Forall_cons in Hns as [Hn Hns].
    pose proof (clients_step_client M key now op sp HM Hn) as Hstep. cbn [auth_answers].
    destruct (clients_step cfg M now op sp) as [sp' r]. unfold guess_times. cbn [zip zip_with omap list_omap].
    destruct (guess_of key ((now, op), r)) as [t|].
    - destruct Hstep as (-> & Hg & Hlt).
      change (now :: omap ?f ?l) with ([now] ++ omap f l). rewrite app_assoc, <- Hg.
      apply (IH now); [done..|]. intros u. rewrite Hg. destruct (Z.lt_ge_cases u now) as [Hu|Hu].
      + rewrite within_none by done. apply Hb.
      + rewrite within_app. pose proof (within_in_window u now (guesses (sp key)) Hu) as Hle.
        unfold count in *. rewrite length_app.
        assert (length (within u [now]) <= 1)%nat by (cbn; by destruct (_ && _); cbn; lia). lia.
    - rewrite <- Hstep. apply (IH now); [done..|]. intros u. rewrite Hstep. apply Hb.
  Qed.
End guesses.

(** Guessing is slow.  A client that never succeeds has at most [maxAttempts] wrong guesses looked at in any window of [windowMs], however
    its attempts, those of others, checks and prunings are interleaved. *)
Lemma guesses_bounded `{N : NetRuntime} (config : RateLimitConfig) (M first : Z)
    (ops : list (Z * auth_op)) (key : jstr) (until : Z) :
  let cfg := limiter_settings config in
  maxAttempts cfg = of_Z M -> 1 <= M <= 2 ^ 53 -> windowMs cfg <= lockoutMs cfg ->
  0 < first -> ascending first ops ->
  Z.of_nat (length (guess_keys ops)) <= maxEntries cfg ->
  Forall (fun op => never_succeeds key op = true) ops ->
  count (within cfg until
    (guess_times cfg key ops (auth_answers (auth_step cfg) ops empty_limiter))) <= M.
Proof.
  intros cfg HM HM1 Hw Hfirst Hasc Hroom Hns.
  unfold cfg. rewrite (limiter_reference config M first ops) by done. fold cfg.
  apply (reference_bounds cfg M key ops first (fun _ => new_client)); [lia|done|done|].
  intros u. cbn. unfold count. cbn. lia.
Qed.

(** ** A limiter of two guesses *)

#[local] Existing Instance dotted_quad.

Definition two_guesses : RateLimitConfig := {|
  rl_maxAttempts := Some (of_Z 2); rl_windowMs := None; rl_lockoutMs := None;
  rl_exemptLoopback := None; rl_pruneIntervalMs := None; rl_maxEntries := Some (of_Z 2) |}.

Definition guesser : option jstr := Some (lit "203.0.113.7").
Definition stranger (n : string) : option jstr := Some (lit "198.51.100." ++ lit n).

(** A client is locked out, and a flood of others follows. *)
Lemma lockout_lasts_witness :
  let cfg := limiter_settings two_guesses in
  let s := limiter_run cfg [(1000, LFailure guesser None); (2000, LFailure guesser None)] empty_limiter in
  let s' := limiter_run cfg [(3000, LFailure (stranger "1") None); (3000, LFailure (stranger "2") None);
    (4000, LFailure (stranger "3") None); (100000, LPrune); (100000, LFailure guesser None)] s in
  check cfg guesser None 200000 s' =
    (s', {| allowed := false; remaining := of_Z 0; retryAfterMs := 102000 |}).
Proof.
  intros cfg s s'. apply (lockout_lasts two_guesses _ _ guesser None 302000 200000); try done.
  - vm_compute. eexists. by split.
  - repeat constructor; done.
Defined.

(** Guesses of one client, with a stranger, a pruning and the lock between. *)
Definition some_attempts : list (Z * auth_op) := [
  (1000, AAttempt guesser None false); (1500, AAttempt (stranger "1") None false);
  (2000, AAttempt guesser None false); (3000, AAttempt guesser None false);
  (70000, APrune); (310000, AAttempt guesser None false); (310000, ACheck guesser None)].

Lemma limiter_is_sliding_window_witness :
  let cfg := limiter_settings two_guesses in
  auth_answers (auth_step cfg) some_attempts empty_limiter =
    auth_answers (clients_step cfg 2) some_attempts (fun _ => new_client).
Proof.
  intros cfg. apply (limiter_is_sliding_window two_guesses 2 1); try done; vm_compute; try done.
Defined.

Lemma guesses_bounded_example :
  let cfg := limiter_settings two_guesses in
  let times := guess_times cfg (fst (resolveKey guesser None)) some_attempts
    (auth_answers (auth_step cfg) some_attempts empty_limiter) in
  times = [1000; 2000; 310000] /\ count (within cfg 2000 times) <= 2.
Proof.
  intros cfg times. split; [by vm_compute|].
  apply (guesses_bounded two_guesses 2 1); try done.
  - repeat constructor; by vm_compute.
Defined.

(** Two guessers fill the limiter; a third is recorded by its overflow lock. *)
Lemma full_limiter_fails_closed_witness :
  let cfg := limiter_settings two_guesses in
  let guess n := (1000, LFailure (stranger n) None) in
  let s := limiter_run cfg [guess "1"; guess "1"; guess "2"; guess "2"]%string empty_limiter in
  let s' := recordFailure cfg guesser None 2000 s in
  entries s' = entries s /\ allowed (snd (check cfg (stranger "9") None 300999 s')) = false.
Proof.
  intros cfg guess s s'.
  assert (all_locked 300999 s) as Hall.
  { intros k e Hin. vm_compute in Hin. repeat (apply elem_of_cons in Hin as [Hin|Hin]; [simplify_eq; vm_compute; by eexists|]).
    by apply not_elem_of_nil in Hin. }
  destruct (full_limiter_fails_closed two_guesses [guess "1"; guess "1"; guess "2"; guess "2"]%string guesser None 2000 300999)
    as [H1 H2]; [by vm_compute|exact Hall|by vm_compute|by vm_compute|lia|by vm_compute|].
  split; [exact H1|]. apply H2; by vm_compute.
Defined.
