(* ===== verification/GatewayAuth.v ===== *)
(** * Authentication of gateway connections

    [src/gateway/auth.ts] and [src/security/secret-equal.ts]: how a request or a
    connection is authorised, by shared secret, trusted proxy, Tailscale
    identity or not at all, and what that does to the rate limiter.

    A turn of the event loop is one instant.  [authorizeGatewayConnectCore] runs
    to its only await, the Tailscale lookup, or to its result; [resumeCore] is
    what follows the await, with the answer of [tailscale whois] as a function
    ([None] is also its failure).  Results are [None] when the address library
    throws.  A string header is text; other values of a header are lists. *)
From S2P Require Import Prelude JsString JsMap JsNumber Normalization IpAddress ClientIp AuthRateLimit AuthRateWindow.
#[local] Open Scope Z_scope.

(** ** Secrets *)

(** [Buffer.from(s, "utf8")]. *)
Definition utf8 (s : jstr) : list Z :=
  flat_map (fun c => let n := Z.of_nat (code c) in
    if n <? 128 then [n] else [192 + n / 64; 128 + n mod 64]) s.

Definition padSecretBytes (bytes : list Z) (length' : nat) : list Z :=
  if (length bytes =? length')%nat then bytes
  else take length' bytes ++ replicate (length' - length bytes) 0.

(** [timingSafeEqual] compares buffers of one length. *)
Definition safeEqualSecret (provided expected : option jstr) : bool :=
  match provided, expected with
  | Some provided, Some expected =>
      let providedBytes := utf8 provided in
      let expectedBytes := utf8 expected in
      let byteLength := Nat.max (length providedBytes) (length expectedBytes) in
      if (byteLength =? 0)%nat then true
      else bool_decide (padSecretBytes providedBytes byteLength = padSecretBytes expectedBytes byteLength)
           && (length providedBytes =? length expectedBytes)%nat
  | _, _ => false
  end.

(** ** Inputs and results *)

Inductive GatewayAuthMode := ModeNone | ModeToken | ModePassword | ModeTrustedProxy.
#[export] Instance GatewayAuthMode_eq : EqDecision GatewayAuthMode.
Proof. solve_decision. Defined.

Record GatewayTrustedProxyConfig := {
  tp_userHeader : jstr;
  tp_requiredHeaders : option (list jstr);
  tp_allowUsers : option (list jstr);
  tp_allowLoopback : option bool;
}.

Record ResolvedGatewayAuth := {
  auth_mode : GatewayAuthMode;
  auth_token : option jstr;
  auth_password : option jstr;
  auth_allowTailscale : bool;
  auth_trustedProxy : option GatewayTrustedProxyConfig;
}.

Inductive AuthMethod :=
  | ByNone | ByToken | ByPassword | ByTailscale | ByDeviceToken | ByBootstrapToken | ByTrustedProxy.
#[export] Instance AuthMethod_eq : EqDecision AuthMethod.
Proof. solve_decision. Defined.

Record GatewayAuthResult := {
  gr_ok : bool;
  gr_method : option AuthMethod;
  gr_user : option jstr;
  gr_reason : option jstr;
  gr_rateLimited : bool;
  gr_retryAfterMs : option Z;
}.

Definition auth_ok (method : AuthMethod) (user : option jstr) : GatewayAuthResult := {|
  gr_ok := true; gr_method := Some method; gr_user := user; gr_reason := None;
  gr_rateLimited := false; gr_retryAfterMs := None |}.

Definition auth_refused (reason : jstr) : GatewayAuthResult := {|
  gr_ok := false; gr_method := None; gr_user := None; gr_reason := Some reason;
  gr_rateLimited := false; gr_retryAfterMs := None |}.

Record ConnectAuth := { ca_token : option jstr; ca_password : option jstr }.

Inductive GatewayAuthSurface := SurfaceHttp | SurfaceWsControlUi.
#[export] Instance GatewayAuthSurface_eq : EqDecision GatewayAuthSurface.
Proof. solve_decision. Defined.

Record BrowserOriginPolicy := {
  bo_requestHost : option jstr;
  bo_origin : option jstr;
  bo_allowedOrigins : option (list jstr);
  bo_allowHostHeaderOriginFallback : bool;
}.

(** The parameters, with the list of interfaces of the host, which
    [resolveLocalInterfaceAddressMatch] reads. *)
Record AuthorizeGatewayConnectParams := {
  ac_auth : ResolvedGatewayAuth;
  ac_connectAuth : option ConnectAuth;
  ac_req : option IncomingMessage;
  ac_trustedProxies : option (list jstr);
  ac_authSurface : GatewayAuthSurface;
  ac_rateLimiter : option LimiterSettings;
  ac_clientIp : option jstr;
  ac_rateLimitScope : option jstr;
  ac_allowRealIpFallback : bool;
  ac_browserOriginPolicy : option BrowserOriginPolicy;
  ac_interfaces : option NetworkInterfacesSnapshot;
}.

Record TailscaleUser := { ts_login : jstr; ts_name : jstr; ts_profilePic : option jstr }.

Record TailscaleWhoisIdentity := { wi_login : jstr; wi_name : option jstr }.

(** A header as a value of type [unknown]. *)
Definition header_value (name : jstr) (req : IncomingMessage) : jsval :=
  match req_header name req with
  | Some (HeaderText s) => VString s
  | Some (HeaderList _) => VObject
  | None => VUndefined
  end.

Definition header_truthy (name : jstr) (req : IncomingMessage) : bool :=
  match req_header name req with
  | Some (HeaderText s) => truthy s
  | Some (HeaderList _) => true
  | None => false
  end.

Section auth.
  Context `{N : NetRuntime} `{U : UrlRuntime}.
  Implicit Types (params : AuthorizeGatewayConnectParams) (s : AuthRateLimiter).

  (** ** Requests *)

Definition hasForwardedRequestHeaders (req : option IncomingMessage) : bool :=
  match req with
  | None => false
  | Some req =>
      header_truthy (lit "forwarded") req || header_truthy (lit "x-real-ip") req
      || existsb (fun '(header, _) =>
           starts_with (lit "x-forwarded-") (normalizeLowercaseStringOrEmpty (VString header)))
           (headers req)
  end.

Definition isLocalDirectRequest (req : option IncomingMessage) : bool :=
  match req with
  | None => false
  | Some r =>
      if negb (hasForwardedRequestHeaders req) then isLoopbackAddress (remoteAddress r) else false
  end.

Record GatewayAuthRequestContext := { cx_ip : option jstr; cx_rateLimitScope : jstr; cx_localDirect : bool }.

Definition resolveGatewayAuthRequestContext params : GatewayAuthRequestContext := {|
  cx_ip :=
    match ac_clientIp params with
    | Some ip => Some ip
    | None =>
        match resolveRequestClientIp (ac_req params) (ac_trustedProxies params)
                (ac_allowRealIpFallback params) with
        | Some ip => Some ip
        | None => ac_req params ≫= remoteAddress
        end
    end;
  cx_rateLimitScope := default AUTH_RATE_LIMIT_SCOPE_SHARED_SECRET (ac_rateLimitScope params);
  cx_localDirect := isLocalDirectRequest (ac_req params) |}.

Definition hasExplicitSharedSecretAuth (connectAuth : option ConnectAuth) : bool :=
  bool_decide (is_Some (normalizeOptionalString (of_opt (connectAuth ≫= ca_token))))
  || bool_decide (is_Some (normalizeOptionalString (of_opt (connectAuth ≫= ca_password)))).

Definition normalizeLogin (login : jstr) : jstr := normalizeLowercaseStringOrEmpty (VString login).

  (** ** Tailscale *)

Definition TAILSCALE_TRUSTED_PROXIES : list jstr := [lit "127.0.0.1"; lit "::1"].

Definition resolveTailscaleClientIp (req : IncomingMessage) : option jstr :=
  resolveClientIp {|
    cip_remoteAddr := Some (or_empty (remoteAddress req));
    cip_forwardedFor := headerValue (req_header (lit "x-forwarded-for") req);
    cip_realIp := None;
    cip_trustedProxies := Some TAILSCALE_TRUSTED_PROXIES;
    cip_allowRealIpFallback := false |}.

Definition getTailscaleUser (req : option IncomingMessage) : option TailscaleUser :=
  match req with
  | None => None
  | Some req =>
      match normalizeOptionalString (header_value (lit "tailscale-user-login") req) with
      | None => None
      | Some login =>
          Some {| ts_login := login;
                  ts_name := default login
                    (normalizeOptionalString (header_value (lit "tailscale-user-name") req));
                  ts_profilePic :=
                    normalizeOptionalString (header_value (lit "tailscale-user-profile-pic") req) |}
      end
  end.

Definition hasTailscaleProxyHeaders (req : IncomingMessage) : bool :=
  header_truthy (lit "x-forwarded-for") req && header_truthy (lit "x-forwarded-proto") req
  && header_truthy (lit "x-forwarded-host") req.

Definition isTailscaleProxyRequest (req : IncomingMessage) : bool :=
  isLoopbackAddress (remoteAddress req) && hasTailscaleProxyHeaders req.

  (** The user, or the reason of the refusal. *)
Definition resolveVerifiedTailscaleUser (req : option IncomingMessage)
    (tailscaleWhois : jstr -> option TailscaleWhoisIdentity) : TailscaleUser + jstr :=
  match getTailscaleUser req, req with
  | Some tailscaleUser, Some r =>
      if negb (isTailscaleProxyRequest r) then inr (lit "tailscale_proxy_missing")
      else match resolveTailscaleClientIp r ≫= non_empty with
           | None => inr (lit "tailscale_whois_failed")
           | Some clientIp =>
               match tailscaleWhois clientIp with
               | None => inr (lit "tailscale_whois_failed")
               | Some whois =>
                   if negb (truthy (wi_login whois)) then inr (lit "tailscale_whois_failed")
                   else if negb (bool_decide
                     (normalizeLogin (wi_login whois) = normalizeLogin (ts_login tailscaleUser)))
                   then inr (lit "tailscale_user_mismatch")
                   else inl {| ts_login := wi_login whois;
                               ts_name := default (ts_name tailscaleUser) (wi_name whois);
                               ts_profilePic := ts_profilePic tailscaleUser |}
               end
           end
  | _, _ => inr (lit "tailscale_user_missing")
  end.

  (** ** Trusted proxies *)

  (** The reason of the refusal of the address of a proxy. *)
Definition proxy_source_refused (remoteAddr : jstr) (trustedProxies : option (list jstr))
    (config : GatewayTrustedProxyConfig) (interfaces : option NetworkInterfacesSnapshot) : option jstr :=
  let remoteIsLoopback := isLoopbackAddress (Some remoteAddr) in
  if negb (truthy remoteAddr) || negb (isTrustedProxyAddress (Some remoteAddr) trustedProxies)
  then Some (lit "trusted_proxy_untrusted_source")
  else if remoteIsLoopback && negb (bool_decide (tp_allowLoopback config = Some true))
  then Some (lit "trusted_proxy_loopback_source")
  else if negb remoteIsLoopback then
    match resolveLocalInterfaceAddressMatch (Some remoteAddr) interfaces with
    | None => Some (lit "trusted_proxy_local_interface_check_failed")
    | Some true => Some (lit "trusted_proxy_local_interface_source")
    | Some false => None
    end
  else None.

Definition config_header (header : jstr) (req : IncomingMessage) : option jstr :=
  headerValue (req_header (normalizeLowercaseStringOrEmpty (VString header)) req).

Definition header_missing (req : IncomingMessage) (header : jstr) : bool :=
  negb (truthy (trim (or_empty (config_header header req)))).

  (** The user, or the reason. *)
Definition authorizeTrustedProxy (req : option IncomingMessage) (trustedProxies : option (list jstr))
    (config : GatewayTrustedProxyConfig) (interfaces : option NetworkInterfacesSnapshot) : jstr + jstr :=
  match req with
  | None => inr (lit "trusted_proxy_no_request")
  | Some req =>
      match proxy_source_refused (or_empty (remoteAddress req)) trustedProxies config interfaces with
      | Some reason => inr reason
      | None =>
          match find_first (header_missing req) (default [] (tp_requiredHeaders config)) with
          | Some header => inr (lit "trusted_proxy_missing_header_" ++ header)
          | None =>
              if header_missing req (tp_userHeader config) then inr (lit "trusted_proxy_user_missing")
              else
                let user := trim (or_empty (config_header (tp_userHeader config) req)) in
                let allowUsers := default [] (tp_allowUsers config) in
                if bool_decide (allowUsers <> []) && negb (bool_decide (user ∈ allowUsers))
                then inr (lit "trusted_proxy_user_not_allowed")
                else inl user
          end
      end
  end.

  (** ** Origins *)

Definition shouldAllowTailscaleHeaderAuth (authSurface : GatewayAuthSurface) : bool :=
  bool_decide (authSurface = SurfaceWsControlUi).

  (** What is asked of [checkBrowserOrigin]. *)
Definition origin_request params (origin : jstr) (isLocalClient : bool) : OriginParams :=
  let policy := ac_browserOriginPolicy params in {|
    op_requestHost := policy ≫= bo_requestHost;
    op_origin := Some origin;
    op_allowedOrigins := policy ≫= bo_allowedOrigins;
    op_allowHostHeaderOriginFallback :=
      match policy with Some p => bo_allowHostHeaderOriginFallback p | None => false end;
    op_isLocalClient := Some isLocalClient |}.

Definition origin_header params : option jstr :=
  (trim <$> (ac_browserOriginPolicy params ≫= bo_origin)) ≫= non_empty.

  (** The refusal, if any. *)
Definition authorizeHttpBrowserOrigin params (isLocalClient : bool) (reason : jstr)
    : option (option GatewayAuthResult) :=
  if negb (bool_decide (ac_authSurface params = SurfaceHttp)) then Some None
  else
    match origin_header params with
    | None => Some None
    | Some origin =>
        originCheck ← checkBrowserOrigin (origin_request params origin isLocalClient);
        Some (match originCheck with OriginOk _ => None | OriginRefused _ => Some (auth_refused reason) end)
    end.

Definition authorizeTrustedProxyBrowserOrigin params : option (option GatewayAuthResult) :=
  authorizeHttpBrowserOrigin params false (lit "trusted_proxy_origin_not_allowed").

  (** ** The limiter *)

Definition limiter_failure params (now : Z) s : AuthRateLimiter :=
  let cx := resolveGatewayAuthRequestContext params in
  match ac_rateLimiter params with
  | Some cfg => recordFailure cfg (cx_ip cx) (Some (cx_rateLimitScope cx)) now s
  | None => s
  end.

Definition limiter_reset params s : AuthRateLimiter :=
  let cx := resolveGatewayAuthRequestContext params in
  match ac_rateLimiter params with
  | Some _ => reset (cx_ip cx) (Some (cx_rateLimitScope cx)) s
  | None => s
  end.

Definition rejectIfRateLimited params (now : Z) s : AuthRateLimiter * option GatewayAuthResult :=
  let cx := resolveGatewayAuthRequestContext params in
  match ac_rateLimiter params with
  | None => (s, None)
  | Some cfg =>
      let '(s, rlCheck) := check cfg (cx_ip cx) (Some (cx_rateLimitScope cx)) now s in
      (s, if allowed rlCheck then None
          else Some {| gr_ok := false; gr_method := None; gr_user := None;
                       gr_reason := Some (lit "rate_limited"); gr_rateLimited := true;
                       gr_retryAfterMs := Some (retryAfterMs rlCheck) |})
  end.

  (** [authorizeTokenAuth] and [authorizePasswordAuth], which differ in their
      names. *)
Definition authorizeSecretAuth (name : string) (method : AuthMethod) (secret connectSecret : option jstr)
    params (now : Z) s : AuthRateLimiter * GatewayAuthResult :=
  match secret ≫= non_empty, connectSecret ≫= non_empty with
  | None, _ => (s, auth_refused (lit name ++ lit "_missing_config"))
  | _, None => (s, auth_refused (lit name ++ lit "_missing"))
  | _, _ =>
      if negb (safeEqualSecret connectSecret secret)
      then (limiter_failure params now s, auth_refused (lit name ++ lit "_mismatch"))
      else (limiter_reset params s, auth_ok method None)
  end.

Definition authorizeTokenAuth params (now : Z) s : AuthRateLimiter * GatewayAuthResult :=
  authorizeSecretAuth "token" ByToken (auth_token (ac_auth params)) (ac_connectAuth params ≫= ca_token)
    params now s.

Definition authorizePasswordAuth params (now : Z) s : AuthRateLimiter * GatewayAuthResult :=
  authorizeSecretAuth "password" ByPassword (auth_password (ac_auth params))
    (ac_connectAuth params ≫= ca_password) params now s.

  (** ** The decision *)

Inductive AuthTurn :=
    | AuthDone (result : GatewayAuthResult)
    | AuthAwaitsTailscale.

  (** The end of the function: the shared secrets. *)
Definition authorize_shared_secret params (now : Z) s : AuthRateLimiter * GatewayAuthResult :=
  match auth_mode (ac_auth params) with
  | ModeToken => authorizeTokenAuth params now s
  | ModePassword => authorizePasswordAuth params now s
  | _ => (limiter_failure params now s, auth_refused (lit "unauthorized"))
  end.

  (** The trusted-proxy mode. *)
Definition authorize_trusted_proxy_mode params (now : Z) s
    : option (AuthRateLimiter * GatewayAuthResult) :=
  let auth := ac_auth params in
  let localDirect := cx_localDirect (resolveGatewayAuthRequestContext params) in
  match auth_trustedProxy auth, ac_trustedProxies params with
  | None, _ => Some (s, auth_refused (lit "trusted_proxy_config_missing"))
  | _, (None | Some []) => Some (s, auth_refused (lit "trusted_proxy_no_proxies_configured"))
  | Some config, proxies =>
      match authorizeTrustedProxy (ac_req params) proxies config (ac_interfaces params) with
      | inl user =>
          originResult ← authorizeTrustedProxyBrowserOrigin params;
          Some (s, match originResult with
                   | Some refused => refused
                   | None => auth_ok ByTrustedProxy (Some user)
                   end)
      | inr reason =>
          if localDirect && truthy_opt (auth_password auth)
             && truthy_opt (ac_connectAuth params ≫= ca_password) then
            match rejectIfRateLimited params now s with
            | (s, Some refused) => Some (s, refused)
            | (s, None) => Some (authorizePasswordAuth params now s)
            end
          else Some (s, auth_refused reason)
      end
  end.

  (** Whether the lookup of the Tailscale user is awaited. *)
Definition tries_tailscale params : bool :=
  shouldAllowTailscaleHeaderAuth (ac_authSurface params) && auth_allowTailscale (ac_auth params)
  && negb (cx_localDirect (resolveGatewayAuthRequestContext params))
  && negb (hasExplicitSharedSecretAuth (ac_connectAuth params)).

Definition authorizeGatewayConnectCore params (now : Z) s : option (AuthRateLimiter * AuthTurn) :=
  match auth_mode (ac_auth params) with
  | ModeTrustedProxy =>
      '(s, result) ← authorize_trusted_proxy_mode params now s; Some (s, AuthDone result)
  | ModeNone =>
      originResult ← authorizeHttpBrowserOrigin params
        (cx_localDirect (resolveGatewayAuthRequestContext params)) (lit "origin_not_allowed");
      Some (s, AuthDone (match originResult with
                         | Some refused => refused
                         | None => auth_ok ByNone None
                         end))
  | _ =>
      match rejectIfRateLimited params now s with
      | (s, Some refused) => Some (s, AuthDone refused)
      | (s, None) =>
          if tries_tailscale params then Some (s, AuthAwaitsTailscale)
          else let '(s, result) := authorize_shared_secret params now s in Some (s, AuthDone result)
      end
  end.

  (** What follows the await. *)
Definition resumeCore params (tailscaleWhois : jstr -> option TailscaleWhoisIdentity) (now : Z) s
    : AuthRateLimiter * GatewayAuthResult :=
  match resolveVerifiedTailscaleUser (ac_req params) tailscaleWhois with
  | inl user => (limiter_reset params s, auth_ok ByTailscale (Some (ts_login user)))
  | inr _ => authorize_shared_secret params now s
  end.

  (** The key under which [authorizeGatewayConnect] serialises the attempt. *)
Definition serialization_key params : option jstr :=
  let cx := resolveGatewayAuthRequestContext params in
  match ac_rateLimiter params with
  | Some _ =>
      if shouldAllowTailscaleHeaderAuth (ac_authSurface params) && auth_allowTailscale (ac_auth params)
         && negb (cx_localDirect cx)
      then Some (fst (resolveKey (cx_ip cx) (Some (cx_rateLimitScope cx)))) else None
  | None => None
  end.

Definition with_surface (surface : GatewayAuthSurface) params : AuthorizeGatewayConnectParams := {|
  ac_auth := ac_auth params; ac_connectAuth := ac_connectAuth params; ac_req := ac_req params;
  ac_trustedProxies := ac_trustedProxies params; ac_authSurface := surface;
  ac_rateLimiter := ac_rateLimiter params; ac_clientIp := ac_clientIp params;
  ac_rateLimitScope := ac_rateLimitScope params; ac_allowRealIpFallback := ac_allowRealIpFallback params;
  ac_browserOriginPolicy := ac_browserOriginPolicy params; ac_interfaces := ac_interfaces params |}.

Definition authorizeHttpGatewayConnect params (now : Z) s : option (AuthRateLimiter * AuthTurn) :=
  authorizeGatewayConnectCore (with_surface SurfaceHttp params) now s.

Definition authorizeWsControlUiGatewayConnect params (now : Z) s : option (AuthRateLimiter * AuthTurn) :=
  authorizeGatewayConnectCore (with_surface SurfaceWsControlUi params) now s.
End auth.

(** ** Comparing secrets *)

Lemma code_bound (c : ascii) : 0 <= Z.of_nat (code c) < 256.
Proof. pose proof (Stdlib.Strings.Ascii.nat_ascii_bounded c). unfold code. lia. Qed.

Lemma utf8_inj a b : utf8 a = utf8 b -> a = b.
Proof.
  revert b. induction a as [|x a IH]; intros [|y b]; cbn; [done| | |].
  { by destruct (Z.of_nat (code y) <? 128). }
  { by destruct (Z.of_nat (code x) <? 128). }
  pose proof (code_bound x) as Hx. pose proof (code_bound y) as Hy.
  intros H. assert (Z.of_nat (code x) = Z.of_nat (code y) /\ utf8 a = utf8 b) as [Hnm Hab].
  { fold (utf8 a) (utf8 b) in H. generalize dependent (Z.of_nat (code y)).
    generalize dependent (Z.of_nat (code x)). intros n Hn m Hm.
    pose proof (Z.div_mod n 64). pose proof (Z.div_mod m 64).
    pose proof (Z.div_pos n 64). pose proof (Z.div_pos m 64).
    destruct (n <? 128) eqn:En, (m <? 128) eqn:Em; cbn; intros H'; injection H'; intros; subst;
      split; try done; lia. }
  f_equal; [|by apply IH]. apply code_inj. lia.
Qed.

Lemma safeEqualSecret_spec a b : safeEqualSecret (Some a) (Some b) = bool_decide (a = b).
Proof.
  unfold safeEqualSecret, padSecretBytes. set (x := utf8 a). set (y := utf8 b).
  apply eq_true_iff_eq. rewrite bool_decide_eq_true.
  assert (x = y <-> a = b) as <- by (split; [apply utf8_inj|by intros ->]).
  destruct (Nat.max (length x) (length y) =? 0)%nat eqn:E0.
  { apply Nat.eqb_eq in E0. split; [|done]. intros _. destruct x, y; cbn in E0; done || lia. }
  rewrite andb_true_iff, bool_decide_eq_true, Nat.eqb_eq. split.
  - intros [Hp Hl]. rewrite <- Hl, Nat.max_id, Nat.eqb_refl in Hp. done.
  - by intros ->.
Qed.

(** ** The grounds of an authorisation *)

Section grounds.
  Context `{N : NetRuntime} `{U : UrlRuntime}.
  Implicit Types (params : AuthorizeGatewayConnectParams) (s : AuthRateLimiter).

  (** A result of the call, before the await or after it, for some times and
      states of the limiter. *)
Definition authorizes_with params (whois : jstr -> option TailscaleWhoisIdentity)
    (result : GatewayAuthResult) : Prop :=
  (exists now s s', authorizeGatewayConnectCore params now s = Some (s', AuthDone result)) \/
  (exists now s s' now' t t', authorizeGatewayConnectCore params now s = Some (s', AuthAwaitsTailscale) /\
     resumeCore params whois now' t = (t', result)).

  (** The client presents the secret that is configured. *)
Definition secret_presented (configured presented : option jstr) : Prop :=
  exists secret, secret <> [] /\ configured = Some secret /\ presented = Some secret.

  (** A browser that names its origin over HTTP has one that is accepted. *)
Definition origin_accepted params (isLocalClient : bool) : Prop :=
  ac_authSurface params = SurfaceHttp -> forall origin, origin_header params = Some origin ->
  exists m, checkBrowserOrigin (origin_request params origin isLocalClient) = Some (OriginOk m).

  (** The peer is a configured proxy, no address of this host, and sends the
      required headers and a user that is let in. *)
Definition proxy_vouches params (user : option jstr) : Prop :=
  exists config req remote name,
    auth_trustedProxy (ac_auth params) = Some config /\ ac_req params = Some req /\
    remoteAddress req = Some remote /\
    isTrustedProxyAddress (Some remote) (ac_trustedProxies params) = true /\
    (isLoopbackAddress (Some remote) = true -> tp_allowLoopback config = Some true) /\
    (isLoopbackAddress (Some remote) = false ->
       resolveLocalInterfaceAddressMatch (Some remote) (ac_interfaces params) = Some false) /\
    Forall (fun header => header_missing req header = false) (default [] (tp_requiredHeaders config)) /\
    user = Some name /\ name <> [] /\ trim <$> config_header (tp_userHeader config) req = Some name /\
    (default [] (tp_allowUsers config) = [] \/ name ∈ default [] (tp_allowUsers config)).

  (** The local Tailscale proxy forwards a user whom whois confirms for the
      forwarded address. *)
Definition tailscale_vouches params (whois : jstr -> option TailscaleWhoisIdentity)
    (user : option jstr) : Prop :=
  exists req ip identity claimed,
    ac_req params = Some req /\ isLoopbackAddress (remoteAddress req) = true /\
    header_truthy (lit "x-forwarded-for") req = true /\
    resolveTailscaleClientIp req = Some ip /\ whois ip = Some identity /\
    user = Some (wi_login identity) /\ wi_login identity <> [] /\
    header_value (lit "tailscale-user-login") req = VString claimed /\
    normalizeLogin (wi_login identity) = normalizeLogin claimed.

  (** The ground of each method. *)
Definition ground params whois (result : GatewayAuthResult) : Prop :=
  let auth := ac_auth params in
  let localDirect := cx_localDirect (resolveGatewayAuthRequestContext params) in
  match gr_method result with
  | Some ByNone => auth_mode auth = ModeNone /\ origin_accepted params localDirect
  | Some ByToken => auth_mode auth = ModeToken /\
      secret_presented (auth_token auth) (ac_connectAuth params ≫= ca_token)
  | Some ByPassword =>
      (auth_mode auth = ModePassword \/ auth_mode auth = ModeTrustedProxy /\ localDirect = true) /\
      secret_presented (auth_password auth) (ac_connectAuth params ≫= ca_password)
  | Some ByTrustedProxy => auth_mode auth = ModeTrustedProxy /\
      proxy_vouches params (gr_user result) /\ origin_accepted params false
  | Some ByTailscale =>
      (auth_mode auth = ModeToken \/ auth_mode auth = ModePassword) /\
      ac_authSurface params = SurfaceWsControlUi /\ auth_allowTailscale auth = true /\
      localDirect = false /\ tailscale_vouches params whois (gr_user result)
  | _ => False
  end.

Lemma authorizeSecretAuth_ok name method secret connectSecret params now s s' result :
    authorizeSecretAuth name method secret connectSecret params now s = (s', result) ->
    gr_ok result = true -> result = auth_ok method None /\ secret_presented secret connectSecret.
  Proof.
    unfold authorizeSecretAuth. destruct secret as [[|c secret]|]; cbn [mbind option_bind non_empty];
      try by intros ? ?; simplify_eq/=.
    destruct connectSecret as [[|d connectSecret]|]; cbn [mbind option_bind non_empty];
      try by intros ? ?; simplify_eq/=.
    rewrite safeEqualSecret_spec. case_bool_decide as E; intros ? ?; simplify_eq/=.
    split; [done|]. by exists (c :: secret).
  Qed.

Lemma rejectIfRateLimited_refuses params now s s' result :
    rejectIfRateLimited params now s = (s', Some result) -> gr_ok result = false.
  Proof.
    unfold rejectIfRateLimited. destruct (ac_rateLimiter params); [|done].
    destruct (check _ _ _ _ _) as [s1 r]. destruct (allowed r); [done|]. intros. by simplify_eq/=.
  Qed.

Lemma authorize_shared_secret_ok params whois now s s' result :
    (auth_mode (ac_auth params) = ModeToken \/ auth_mode (ac_auth params) = ModePassword) ->
    authorize_shared_secret params now s = (s', result) -> gr_ok result = true ->
    ground params whois result.
  Proof.
    intros Hm. unfold authorize_shared_secret, ground.
    destruct Hm as [Hm|Hm]; rewrite Hm; intros E Hok;
      apply authorizeSecretAuth_ok in E as [-> ?]; try done; cbn; auto.
  Qed.

Lemma origin_accepted_None params isLocalClient reason :
    authorizeHttpBrowserOrigin params isLocalClient reason = Some None ->
    origin_accepted params isLocalClient.
  Proof.
    unfold authorizeHttpBrowserOrigin, origin_accepted. intros H Hs origin Ho.
    rewrite bool_decide_eq_true_2 in H by done. cbn [negb] in H. rewrite Ho in H.
    destruct (checkBrowserOrigin _) as [[m|r]|]; cbn in H; simplify_eq. by exists m.
  Qed.

Lemma origin_refusal_refuses params isLocalClient reason refused :
    authorizeHttpBrowserOrigin params isLocalClient reason = Some (Some refused) -> gr_ok refused = false.
  Proof.
    unfold authorizeHttpBrowserOrigin. destruct (negb _); [done|]. destruct (origin_header params); [|done].
    destruct (checkBrowserOrigin _) as [[]|]; cbn; intros; by simplify_eq.
  Qed.

Lemma header_present req header :
    header_missing req header = false ->
    exists v, trim <$> config_header header req = Some v /\ v <> [] /\ trim (or_empty (config_header header req)) = v.
  Proof.
    unfold header_missing, or_empty. intros H%negb_false_iff%truthy_spec.
    destruct (config_header header req) as [v|]; cbn in *; [by exists (trim v)|done].
  Qed.

Lemma authorizeTrustedProxy_ok params config user :
    auth_trustedProxy (ac_auth params) = Some config ->
    authorizeTrustedProxy (ac_req params) (ac_trustedProxies params) config (ac_interfaces params) = inl user ->
    proxy_vouches params (Some user).
  Proof.
    intros Hc. unfold authorizeTrustedProxy. destruct (ac_req params) as [req|] eqn:Hreq; [|done].
    destruct (proxy_source_refused _ _ _ _) as [?|] eqn:Hsrc; [done|].
    destruct (find_first (header_missing req) _) eqn:Hh; [done|].
    destruct (header_missing req (tp_userHeader config)) eqn:Hu; [done|].
    apply header_present in Hu as (v & Hv & Hne & ->).
    unfold proxy_source_refused in Hsrc.
    destruct (remoteAddress req) as [remote|] eqn:Hr; [|by cbn in Hsrc].
    cbn [or_empty default from_option id] in Hsrc.
    destruct (negb (truthy remote) || _) eqn:E1; [done|]. apply orb_false_iff in E1 as [_ E1%negb_false_iff].
    intros Hin. exists config, req, remote, user.
    destruct (bool_decide (_ <> [])) eqn:Ea; [|].
    all: bool_to_prop.
    all: destruct (isLoopbackAddress (Some remote)) eqn:El; cbn [negb andb] in Hsrc.
    all: try (destruct (resolveLocalInterfaceAddressMatch _ _) as [[]|] eqn:Ei; try done).
    all: repeat case_bool_decide; cbn [negb andb] in *; simplify_eq; split_and!; try done.
    all: try (by apply find_first_None).
    all: try (by right). all: left; destruct (default [] (tp_allowUsers config)); [done|exfalso; by apply Ea].
  Qed.

Lemma resolveVerifiedTailscaleUser_ok params whois user :
    resolveVerifiedTailscaleUser (ac_req params) whois = inl user ->
    tailscale_vouches params whois (Some (ts_login user)).
  Proof.
    unfold resolveVerifiedTailscaleUser. destruct (ac_req params) as [req|] eqn:Hreq; [|done].
    unfold getTailscaleUser. destruct (header_value (lit "tailscale-user-login") req) as [| | | |claimed|] eqn:Hh; try done.
    destruct (normalizeOptionalString (VString claimed)) as [login|] eqn:Hl; [|done].
    destruct (isTailscaleProxyRequest req) eqn:Hp; cbn [negb]; [|done].
    destruct (resolveTailscaleClientIp req) as [[|c ip]|] eqn:Hip; cbn [mbind option_bind non_empty]; try done.
    destruct (whois (c :: ip)) as [identity|] eqn:Hw; [|done].
    destruct (truthy (wi_login identity)) eqn:Ht; cbn [negb]; [|done].
    case_bool_decide as Hn; cbn [negb]; [|done]. intros [= <-].
    unfold isTailscaleProxyRequest, hasTailscaleProxyHeaders in Hp. bool_to_prop.
    exists req, (c :: ip), identity, claimed. split_and!; try done; [by apply truthy_spec|].
    rewrite Hn. cbn [ts_login]. unfold normalizeOptionalString, normalizeNullableString in Hl.
    destruct (truthy (trim claimed)); simplify_eq. unfold normalizeLogin, normalizeLowercaseStringOrEmpty,
      normalizeOptionalLowercaseString, normalizeOptionalString, normalizeNullableString. by rewrite trim_idem.
  Qed.

Lemma shared_secret_modes params whois result :
    (auth_mode (ac_auth params) = ModeToken \/ auth_mode (ac_auth params) = ModePassword) ->
    authorizes_with params whois result -> gr_ok result = true -> ground params whois result.
  Proof.
    intros Hm H Hok. unfold authorizes_with, authorizeGatewayConnectCore in H.
    assert (forall now s s' turn,
      match auth_mode (ac_auth params) with
      | ModeTrustedProxy => None
      | ModeNone => None
      | _ => match rejectIfRateLimited params now s with
             | (s, Some refused) => Some (s, AuthDone refused)
             | (s, None) => if tries_tailscale params then Some (s, AuthAwaitsTailscale)
                 else let '(s, result) := authorize_shared_secret params now s in Some (s, AuthDone result)
             end
      end = Some (s', turn) ->
      match turn with
      | AuthDone r => gr_ok r = true -> ground params whois r
      | AuthAwaitsTailscale => tries_tailscale params = true
      end) as Hcore.
    { intros now s s' turn E.
      destruct (rejectIfRateLimited params now s) as [s1 [refused|]] eqn:Erl.
      - destruct Hm as [Hm|Hm]; rewrite Hm in E; simplify_eq; intros Hr;
          by rewrite (rejectIfRateLimited_refuses _ _ _ _ _ Erl) in Hr.
      - destruct (tries_tailscale params) eqn:Et; [destruct Hm as [Hm|Hm]; rewrite Hm in E; by simplify_eq|].
        destruct (authorize_shared_secret params now s1) as [s2 r] eqn:Es.
        destruct Hm as [Hm|Hm]; rewrite Hm in E; simplify_eq; intros Hr;
          eapply authorize_shared_secret_ok; eauto. }
    destruct H as [(now & s & s' & H)|(now & s & s' & now' & t & t' & H & Hres)].
    - apply (Hcore now s s' (AuthDone result)); [|done]. by destruct Hm as [Hm|Hm]; rewrite Hm in *.
    - assert (tries_tailscale params = true) as Ht.
      { apply (Hcore now s s' AuthAwaitsTailscale). by destruct Hm as [Hm|Hm]; rewrite Hm in *. }
      unfold resumeCore in Hres. destruct (resolveVerifiedTailscaleUser _ whois) as [user|] eqn:Hu.
      + simplify_eq. apply resolveVerifiedTailscaleUser_ok in Hu. unfold tries_tailscale,
          shouldAllowTailscaleHeaderAuth in Ht. bool_to_prop. by cbn.
      + by eapply authorize_shared_secret_ok.
  Qed.

Lemma trusted_proxy_mode_ok params whois now s s' result :
    auth_mode (ac_auth params) = ModeTrustedProxy ->
    authorize_trusted_proxy_mode params now s = Some (s', result) -> gr_ok result = true ->
    ground params whois result.
  Proof.
    intros Hm. unfold authorize_trusted_proxy_mode. cbv zeta.
    destruct (auth_trustedProxy (ac_auth params)) as [config|] eqn:Hc; [|intros; by simplify_eq/=].
    destruct (ac_trustedProxies params) as [[|p ps]|] eqn:Hp; try (intros; by simplify_eq/=).
    rewrite <- Hp.
    destruct (authorizeTrustedProxy _ _ _ _) as [user|reason] eqn:Hproxy.
    - apply authorizeTrustedProxy_ok in Hproxy; [|done].
      destruct (authorizeTrustedProxyBrowserOrigin params) as [[refused|]|] eqn:Ho; cbn; intros E Hok; simplify_eq/=.
      + by rewrite (origin_refusal_refuses _ _ _ _ Ho) in Hok.
      + split_and!; [done..|]. by eapply origin_accepted_None.
    - destruct (cx_localDirect _ && _ && _) eqn:Hl; [|intros; by simplify_eq/=].
      destruct (rejectIfRateLimited params now s) as [s1 [refused|]] eqn:Erl; intros E Hok.
      + simplify_eq. by rewrite (rejectIfRateLimited_refuses _ _ _ _ _ Erl) in Hok.
      + injection E as E. bool_to_prop. apply authorizeSecretAuth_ok in E as [-> ?]; [|done]. cbn. auto.
  Qed.

  (** C5. Nobody is authorised without a ground: the configured secret, which
      is not empty; a whois answer for the address that the local Tailscale
      proxy forwards, and only for the control UI's connections; a configured
      proxy that is not this host and vouches for a user; or a configuration
      without authentication and an accepted origin. *)
Theorem authorized_has_ground params whois (result : GatewayAuthResult) :
    authorizes_with params whois result -> gr_ok result = true -> ground params whois result.
  Proof.
    intros H Hok. destruct (auth_mode (ac_auth params)) eqn:Hm.
    2, 3: eapply shared_secret_modes; eauto.
    all: unfold authorizes_with, authorizeGatewayConnectCore in H; rewrite Hm in H.
    - destruct H as [(now & s & s' & H)|(now & s & s' & now' & t & t' & H & _)];
        destruct (authorizeHttpBrowserOrigin _ _ _) as [[refused|]|] eqn:Ho; simplify_eq/=.
      + by rewrite (origin_refusal_refuses _ _ _ _ Ho) in Hok.
      + split; [done|]. by eapply origin_accepted_None.
    - destruct H as [(now & s & s' & H)|(now & s & s' & now' & t & t' & H & _)];
        destruct (authorize_trusted_proxy_mode params now s) as [[s1 r]|] eqn:E; simplify_eq/=.
      by eapply trusted_proxy_mode_ok.
  Qed.
End grounds.

(** ** Guessing the token *)

Section guessing.
  Context `{N : NetRuntime} `{U : UrlRuntime}.
  Implicit Types (params : AuthorizeGatewayConnectParams) (s : AuthRateLimiter).

  (** Requests that reach the gateway one after the other, and their results;
      [None] for a request that throws or awaits. *)
Fixpoint gateway_answers (requests : list (Z * AuthorizeGatewayConnectParams)) s
    : list (option GatewayAuthResult) :=
  match requests with
  | [] => []
  | (now, params) :: requests =>
      match authorizeGatewayConnectCore params now s with
      | Some (s, AuthDone result) => Some result :: gateway_answers requests s
      | Some (s, AuthAwaitsTailscale) => None :: gateway_answers requests s
      | None => None :: gateway_answers requests s
      end
  end.

  (** The limiter's key of a request. *)
Definition request_key params : jstr :=
  let cx := resolveGatewayAuthRequestContext params in
  fst (resolveKey (cx_ip cx) (Some (cx_rateLimitScope cx))).

Definition request_exempt (cfg : LimiterSettings) params : bool :=
  let cx := resolveGatewayAuthRequestContext params in
  isExempt cfg (snd (resolveKey (cx_ip cx) (Some (cx_rateLimitScope cx)))).

  (** The instants at which a token of the client was found wrong. *)
Definition mismatch_of (key : jstr) (x : (Z * AuthorizeGatewayConnectParams) * option GatewayAuthResult)
    : option Z :=
  match x with
  | ((now, params), Some result) =>
      if bool_decide (gr_reason result = Some (lit "token_mismatch"))
         && bool_decide (request_key params = key) then Some now else None
  | _ => None
  end.

Definition mismatch_times (key : jstr) (requests : list (Z * AuthorizeGatewayConnectParams))
    (answers : list (option GatewayAuthResult)) : list Z :=
  omap (mismatch_of key) (zip requests answers).

  (** What a request in token mode is to the limiter. *)
Definition request_op params : auth_op :=
  let cx := resolveGatewayAuthRequestContext params in
  let ip := cx_ip cx in
  let scope := Some (cx_rateLimitScope cx) in
  match auth_token (ac_auth params) ≫= non_empty, (ac_connectAuth params ≫= ca_token) ≫= non_empty with
  | Some secret, Some token => AAttempt ip scope (bool_decide (token = secret))
  | _, _ => ACheck ip scope
  end.

Definition token_request (cfg : LimiterSettings) params : bool :=
  bool_decide (auth_mode (ac_auth params) = ModeToken) && negb (tries_tailscale params).

Lemma non_empty_Some (o : option jstr) x : o ≫= non_empty = Some x -> o = Some x.
  Proof. destruct o as [[|c l]|]; cbn; congruence. Qed.

Lemma token_turn cfg params now s key :
    token_request cfg params = true -> ac_rateLimiter params = Some cfg ->
    (request_key params = key -> request_exempt cfg params = false) ->
    exists result answer, authorizeGatewayConnectCore params now s =
      Some (fst (auth_step cfg now (request_op params) s), AuthDone result) /\
    snd (auth_step cfg now (request_op params) s) = Some answer /\
    mismatch_of key ((now, params), Some result) = guess_of cfg key ((now, request_op params), Some answer).
  Proof.
    unfold token_request, request_key, request_exempt. intros Ht Hcfg Hex. bool_to_prop.
    unfold authorizeGatewayConnectCore, rejectIfRateLimited, request_op. rewrite H, Hcfg, H0.
    set (cx := resolveGatewayAuthRequestContext params) in *. cbv zeta.
    destruct (check cfg (cx_ip cx) (Some (cx_rateLimitScope cx)) now s) as [s1 r] eqn:Ec.
    unfold authorize_shared_secret, authorizeTokenAuth, authorizeSecretAuth, limiter_failure, limiter_reset.
    rewrite H, Hcfg. fold cx. unfold mismatch_of, request_key, guess_of. fold cx. cbv zeta.
    destruct (resolveKey (cx_ip cx) (Some (cx_rateLimitScope cx))) as [k a] eqn:Ek. cbn [fst snd] in *.
    destruct (auth_token (ac_auth params) ≫= non_empty) as [secret|] eqn:Es;
      [destruct ((ac_connectAuth params ≫= ca_token) ≫= non_empty) as [token|] eqn:Etok|];
      cbn [auth_step]; rewrite Ec; cbn [fst snd].
    - apply non_empty_Some in Es, Etok. rewrite Es, Etok, safeEqualSecret_spec.
      destruct (allowed r) eqn:Ea; [|].
      + case_bool_decide as E; cbn [negb]; eexists _, _; split_and!; try reflexivity; cbn [gr_reason auth_ok auth_refused].
        rewrite (bool_decide_eq_true_2 (_ = Some (lit "token_mismatch"))) by done. rewrite Ek, Ea. cbn [fst].
        case_bool_decide as Hk; [by rewrite (Hex Hk)|by rewrite !andb_false_r].
      + eexists _, _; split_and!; try reflexivity. cbn. case_bool_decide; [done|]. cbn.
        destruct (bool_decide _); [done|]. by rewrite Ea.
    - destruct (allowed r); eexists _, _; split_and!; reflexivity.
    - destruct (allowed r); eexists _, _; split_and!; reflexivity.
  Qed.

Definition request_ops (requests : list (Z * AuthorizeGatewayConnectParams)) : list (Z * auth_op) :=
  map (fun '(now, params) => (now, request_op params)) requests.

  (** A request in token mode to one limiter, which does not exempt the client. *)
Definition guards (cfg : LimiterSettings) (key : jstr) (x : Z * AuthorizeGatewayConnectParams) : Prop :=
  token_request cfg (snd x) = true /\ ac_rateLimiter (snd x) = Some cfg /\
  (request_key (snd x) = key -> request_exempt cfg (snd x) = false).

Lemma gateway_as_limiter cfg key requests s :
    Forall (guards cfg key) requests ->
    mismatch_times key requests (gateway_answers requests s) =
    guess_times cfg key (request_ops requests) (auth_answers (auth_step cfg) (request_ops requests) s).
  Proof.
    intros H. revert s. induction H as [|[now params] requests (Ht & Hl & Hex) _ IH]; intros s; [done|].
    destruct (token_turn cfg params now s key Ht Hl Hex) as (result & answer & E & Ea & Em).
    cbn [gateway_answers request_ops map auth_answers snd]. rewrite E.
    destruct (auth_step cfg now (request_op params) s) as [s' a]. cbn [fst snd] in *. subst a.
    unfold mismatch_times, guess_times in *. cbn [zip zip_with omap list_omap]. rewrite Em.
    destruct (guess_of _ _ _); [f_equal|]; apply IH.
  Qed.

Lemma wrong_token_never_succeeds key params now :
    (request_key params = key ->
       ~ secret_presented (auth_token (ac_auth params)) (ac_connectAuth params ≫= ca_token)) ->
    never_succeeds key (now, request_op params) = true.
  Proof.
    intros H. unfold never_succeeds, request_op. cbv zeta. cbn [snd].
    destruct (auth_token (ac_auth params) ≫= non_empty) as [secret|] eqn:Es; [|done].
    destruct ((ac_connectAuth params ≫= ca_token) ≫= non_empty) as [token|] eqn:Et; [|done].
    case_bool_decide; [|done]. subst token. apply negb_true_iff, bool_decide_eq_false. intros Hk.
    apply (H Hk). exists secret. split_and!; [|by apply non_empty_Some..].
    by destruct (auth_token (ac_auth params)) as [[|]|]; simplify_eq/=.
  Qed.

  (** The limiter after the requests. *)
Fixpoint gateway_state (requests : list (Z * AuthorizeGatewayConnectParams)) s : AuthRateLimiter :=
  match requests with
  | [] => s
  | (now, params) :: requests =>
      match authorizeGatewayConnectCore params now s with
      | Some (s, _) => gateway_state requests s
      | None => gateway_state requests s
      end
  end.

  (** The same request with other secrets. *)
Definition presenting (connectAuth : option ConnectAuth) params : AuthorizeGatewayConnectParams := {|
  ac_auth := ac_auth params; ac_connectAuth := connectAuth; ac_req := ac_req params;
  ac_trustedProxies := ac_trustedProxies params; ac_authSurface := ac_authSurface params;
  ac_rateLimiter := ac_rateLimiter params; ac_clientIp := ac_clientIp params;
  ac_rateLimitScope := ac_rateLimitScope params; ac_allowRealIpFallback := ac_allowRealIpFallback params;
  ac_browserOriginPolicy := ac_browserOriginPolicy params; ac_interfaces := ac_interfaces params |}.

  (** A wrong token is found wrong, or there is no token to compare, or the
      limiter refuses, whatever the request presents. *)
Lemma wrong_token_refused params now s s' result :
    auth_mode (ac_auth params) = ModeToken ->
    ~ secret_presented (auth_token (ac_auth params)) (ac_connectAuth params ≫= ca_token) ->
    authorizeGatewayConnectCore params now s = Some (s', AuthDone result) ->
    gr_ok result = false /\
    (gr_reason result = Some (lit "token_mismatch") \/ auth_token (ac_auth params) ≫= non_empty = None \/
     (ac_connectAuth params ≫= ca_token) ≫= non_empty = None \/
     forall connectAuth, authorizeGatewayConnectCore (presenting connectAuth params) now s = Some (s', AuthDone result)).
  Proof.
    intros Hmode Hwrong. unfold authorizeGatewayConnectCore. cbn [presenting ac_auth]. rewrite Hmode.
    destruct (rejectIfRateLimited params now s) as [s1 [refused|]] eqn:Erl.
    - intros [= -> ->]. split; [by eapply rejectIfRateLimited_refuses|]. do 3 right. intros connectAuth.
      assert (rejectIfRateLimited (presenting connectAuth params) now s = rejectIfRateLimited params now s) as -> by done.
      by rewrite Erl.
    - destruct (tries_tailscale params); [done|]. unfold authorize_shared_secret. rewrite Hmode.
      unfold authorizeTokenAuth, authorizeSecretAuth.
      destruct (auth_token (ac_auth params) ≫= non_empty) as [secret|] eqn:Es; [|intros [= <- <-]; auto].
      destruct ((ac_connectAuth params ≫= ca_token) ≫= non_empty) as [token|] eqn:Et; [|intros [= <- <-]; auto].
      assert (secret <> []) as Hne by (by destruct (auth_token (ac_auth params)) as [[|]|]; simplify_eq/=).
      apply non_empty_Some in Es, Et. rewrite Es, Et, safeEqualSecret_spec.
      case_bool_decide as E; cbn [negb]; intros [= <- <-]; [|auto].
      destruct Hwrong. exists secret. subst token. by rewrite Es, Et.
  Qed.

End guessing.

(** ** A gateway with a token *)

#[local] Existing Instance dotted_quad.
#[local] Instance no_urls : UrlRuntime := {| new_URL := fun _ => None |}.

Definition token_mode : ResolvedGatewayAuth := {|
  auth_mode := ModeToken; auth_token := Some (lit "s3cret"); auth_password := None;
  auth_allowTailscale := false; auth_trustedProxy := None |}.

Definition token_params (limiter : option LimiterSettings) (ip token : string) : AuthorizeGatewayConnectParams := {|
  ac_auth := token_mode;
  ac_connectAuth := Some {| ca_token := Some (lit token); ca_password := None |};
  ac_req := Some {| remoteAddress := Some (lit ip); headers := [] |};
  ac_trustedProxies := None; ac_authSurface := SurfaceHttp; ac_rateLimiter := limiter;
  ac_clientIp := None; ac_rateLimitScope := None; ac_allowRealIpFallback := false;
  ac_browserOriginPolicy := None; ac_interfaces := None |}.

Lemma authorized_has_ground_witness :
  let params := token_params None "203.0.113.7" "s3cret" in
  authorizes_with params (fun _ => None) (auth_ok ByToken None) /\
  ground params (fun _ => None) (auth_ok ByToken None).
Proof.
  intros params. assert (authorizes_with params (fun _ => None) (auth_ok ByToken None)) as H.
  { left. exists 0, empty_limiter, empty_limiter. by vm_compute. }
  split; [exact H|]. by apply authorized_has_ground.
Defined.

Definition token_requests : list (Z * AuthorizeGatewayConnectParams) :=
  let cfg := Some (limiter_settings two_guesses) in [
  (1000, token_params cfg "203.0.113.7" "guess1"); (1500, token_params cfg "198.51.100.1" "s3cret");
  (2000, token_params cfg "203.0.113.7" "guess2"); (3000, token_params cfg "203.0.113.7" "guess3");
  (310000, token_params cfg "203.0.113.7" "guess4")].

