(* ===== verification/FixedWindow.v ===== *)
(** * Fixed windows

    [src/infra/fixed-window-rate-limit.ts], the counter that gives each window
    of time a quota, and [src/gateway/control-plane-rate-limit.ts] with
    [control-plane-identity.ts], one such window per client for the writes of
    the control plane.  Instants are integers. *)
From S2P Require Import Prelude JsString JsMap JsNumber NumberCoercion Normalization.
#[local] Open Scope Z_scope.

(** [count] and [windowStartMs]. *)
Record Bucket := { count : Z; windowStartMs : Z }.

Record ConsumeResult := { cr_allowed : bool; cr_retryAfterMs : Z; cr_remaining : Z }.

(** ** A limiter *)

Definition resolveFixedWindowRateLimitInteger (value : option num) (fallback min : Z) : num :=
  let candidate := match value with Some x => if isFinite x then x else of_Z fallback | None => of_Z fallback end in
  math_max (of_Z min) (math_floor candidate).

Record FixedWindowSettings := { fw_maxRequests : Z; fw_windowMs : Z }.

(** The constants of [createFixedWindowRateLimiter]. *)
Definition fixed_window_settings (maxRequests windowMs : option num) : FixedWindowSettings := {|
  fw_maxRequests := default 0 (to_Z (resolveFixedWindowRateLimitInteger maxRequests 1 1));
  fw_windowMs := default 0 (to_Z (resolveFixedWindowRateLimitInteger windowMs 1 1)) |}.

Definition fixed_window_initial : Bucket := {| count := 0; windowStartMs := 0 |}.

Definition fixed_window_consume (cfg : FixedWindowSettings) (nowMs : Z) (b : Bucket) : Bucket * ConsumeResult :=
  let b := if fw_windowMs cfg <=? nowMs - windowStartMs b then {| count := 0; windowStartMs := nowMs |} else b in
  if fw_maxRequests cfg <=? count b
  then (b, {| cr_allowed := false;
              cr_retryAfterMs := Z.max 0 (windowStartMs b + fw_windowMs cfg - nowMs);
              cr_remaining := 0 |})
  else
    let b := {| count := count b + 1; windowStartMs := windowStartMs b |} in
    (b, {| cr_allowed := true; cr_retryAfterMs := 0;
           cr_remaining := Z.max 0 (fw_maxRequests cfg - count b) |}).

Definition fixed_window_reset (b : Bucket) : Bucket := fixed_window_initial.

(** ** The control plane *)

Definition CONTROL_PLANE_RATE_LIMIT_MAX_REQUESTS : Z := 3.
Definition CONTROL_PLANE_RATE_LIMIT_WINDOW_MS : Z := 60000.
Definition CONTROL_PLANE_BUCKET_MAX_STALE_MS : Z := 5 * 60000.
Definition CONTROL_PLANE_BUCKET_MAX_ENTRIES : Z := 10000.

Definition normalizeControlPlaneIdentityPart (value : jsval) (fallback : jstr) : jstr :=
  match value with
  | VString s => let normalized := trim s in if truthy normalized then normalized else fallback
  | _ => fallback
  end.

(** What is read of a [GatewayClient]. *)
Record ControlPlaneClient := { cp_deviceId : jsval; cp_clientIp : jsval; cp_connId : jsval }.

Definition resolveControlPlaneRateLimitKey (client : option ControlPlaneClient) : jstr :=
  let part f fallback := normalizeControlPlaneIdentityPart (match client with Some c => f c | None => VUndefined end) fallback in
  let deviceId := part cp_deviceId (lit "unknown-device") in
  let clientIp := part cp_clientIp (lit "unknown-ip") in
  let connId := part cp_connId [] in
  if bool_decide (deviceId = lit "unknown-device") && bool_decide (clientIp = lit "unknown-ip") && truthy connId
  then deviceId ++ lit "|" ++ clientIp ++ lit "|conn=" ++ connId
  else deviceId ++ lit "|" ++ clientIp.

Abbreviation Buckets := (list (jstr * Bucket)).

(** The hard cap, before a new key is set. *)
Definition make_room (key : jstr) (buckets : Buckets) : Buckets :=
  if negb (jm_has key buckets) && (CONTROL_PLANE_BUCKET_MAX_ENTRIES <=? Z.of_nat (length buckets)) then
    match jm_oldest buckets with Some oldest => jm_delete oldest buckets | None => buckets end
  else buckets.

Definition consumeControlPlaneWriteBudget (client : option ControlPlaneClient) (nowMs : Z)
    (buckets : Buckets) : Buckets * (ConsumeResult * jstr) :=
  let key := resolveControlPlaneRateLimitKey client in
  let fresh :=
    (jm_set key {| count := 1; windowStartMs := nowMs |} (make_room key buckets),
     ({| cr_allowed := true; cr_retryAfterMs := 0;
         cr_remaining := CONTROL_PLANE_RATE_LIMIT_MAX_REQUESTS - 1 |}, key)) in
  match jm_get key buckets with
  | None => fresh
  | Some bucket =>
      if CONTROL_PLANE_RATE_LIMIT_WINDOW_MS <=? nowMs - windowStartMs bucket then fresh
      else if CONTROL_PLANE_RATE_LIMIT_MAX_REQUESTS <=? count bucket then
        (buckets,
         ({| cr_allowed := false;
             cr_retryAfterMs := Z.max 0 (windowStartMs bucket + CONTROL_PLANE_RATE_LIMIT_WINDOW_MS - nowMs);
             cr_remaining := 0 |}, key))
      else
        let bucket := {| count := count bucket + 1; windowStartMs := windowStartMs bucket |} in
        (jm_set key bucket buckets,
         ({| cr_allowed := true; cr_retryAfterMs := 0;
             cr_remaining := Z.max 0 (CONTROL_PLANE_RATE_LIMIT_MAX_REQUESTS - count bucket) |}, key))
  end.

Definition pruneStaleControlPlaneBuckets (nowMs : Z) (buckets : Buckets) : Buckets * Z :=
  let kept := jm_filter_map (fun bucket =>
    if CONTROL_PLANE_BUCKET_MAX_STALE_MS <? nowMs - windowStartMs bucket then None else Some bucket) buckets in
  (kept, Z.of_nat (length buckets) - Z.of_nat (length kept)).

(** Writes and prunings, in order of time. *)
Inductive ControlPlaneOp :=
  | CWrite (client : option ControlPlaneClient)
  | CPrune.

Definition control_step (now : Z) (op : ControlPlaneOp) (buckets : Buckets)
    : Buckets * option (ConsumeResult * jstr) :=
  match op with
  | CWrite client => let '(b, r) := consumeControlPlaneWriteBudget client now buckets in (b, Some r)
  | CPrune => (fst (pruneStaleControlPlaneBuckets now buckets), None)
  end.

(** The instants at which a write of the key was allowed, and the state left. *)
Fixpoint control_writes (key : jstr) (ops : list (Z * ControlPlaneOp)) (buckets : Buckets)
    : list Z * Buckets :=
  match ops with
  | [] => ([], buckets)
  | (now, op) :: ops =>
      let '(buckets, r) := control_step now op buckets in
      let '(ts, buckets) := control_writes key ops buckets in
      (match r with
       | Some (r, key') => if cr_allowed r && bool_decide (key' = key) then now :: ts else ts
       | None => ts
       end, buckets)
  end.

(** ** One window after the other *)

Section window.
  Context (max window : Z) (Hmax : 1 <= max) (Hwindow : 0 < window).

  (** What a write does to the window of a client, if it has one. *)
Definition bucket_step (now : Z) (b : option Bucket) : Bucket * bool :=
  match b with
  | None => ({| count := 1; windowStartMs := now |}, true)
  | Some b =>
      if window <=? now - windowStartMs b then ({| count := 1; windowStartMs := now |}, true)
      else if max <=? count b then (b, false)
      else ({| count := count b + 1; windowStartMs := windowStartMs b |}, true)
  end.

Definition in_last (until : Z) (ts : list Z) : list Z :=
  List.filter (fun t => (until - window <? t) && (t <=? until)) ts.

  (** The writes so far: those of the current window, of the one before it, and
      older ones, which are a window away from the current one. *)
Definition window_inv (last : Z) (b : option Bucket) (ts : list Z) : Prop :=
  (forall until, Z.of_nat (length (in_last until ts)) <= 2 * max - 1) /\
  match b with
  | None => Forall (fun t => t <= last - window) ts
  | Some b =>
      windowStartMs b <= last /\ 1 <= count b <= max /\
      exists older prev rest,
        ts = older ++ prev ++ windowStartMs b :: rest /\
        Forall (fun t => t <= windowStartMs b - window) older /\
        Forall (fun t => t <= windowStartMs b) prev /\
        Z.of_nat (length prev) <= max - 1 /\
        Z.of_nat (S (length rest)) = count b /\ Forall (fun t => t < windowStartMs b + window) rest
  end.

Lemma in_last_app until ts us : in_last until (ts ++ us) = in_last until ts ++ in_last until us.
  Proof. apply List.filter_app. Qed.

Lemma in_last_length until ts : (length (in_last until ts) <= length ts)%nat.
  Proof. apply List.filter_length_le. Qed.

Lemma in_last_old until ts : Forall (fun t => t <= until - window) ts -> in_last until ts = [].
  Proof. induction 1 as [|t ts Ht _ IH]; [done|]. cbn. by rewrite (proj2 (Z.ltb_ge _ _)) by lia. Qed.

Lemma in_last_future until now ts : until < now -> in_last until (ts ++ [now]) = in_last until ts.
  Proof.
    intros H. rewrite in_last_app. cbn. rewrite (proj2 (Z.leb_gt now until)) by lia.
    by rewrite andb_false_r, app_nil_r.
  Qed.

Lemma in_last_one until t : (length (in_last until [t]) <= 1)%nat.
  Proof. apply (in_last_length until [t]). Qed.

  (** The bound, from the shape of the writes. *)
Lemma window_bound older prev rest start until :
    Forall (fun t => t <= start - window) older -> Z.of_nat (length prev) <= max - 1 ->
    Z.of_nat (S (length rest)) <= max -> start <= until ->
    Z.of_nat (length (in_last until (older ++ prev ++ start :: rest))) <= 2 * max - 1.
  Proof.
    intros Ho Hp Hr Hu. rewrite in_last_app, (in_last_old until older).
    2:{ eapply Forall_impl; [exact Ho|]. cbn. lia. }
    cbn [app]. rewrite in_last_app, length_app.
    pose proof (in_last_length until prev). pose proof (in_last_length until (start :: rest)). cbn [length] in *. lia.
  Qed.

Lemma bucket_step_inv last now b ts :
    last <= now -> window_inv last b ts ->
    let '(b', allowed) := bucket_step now b in
    window_inv now (Some b') (if allowed then ts ++ [now] else ts).
  Proof.
    intros Hle [Hb Hs]. unfold bucket_step.
    assert (forall older prev start rest, Forall (fun t => t <= start - window) older ->
      Z.of_nat (length prev) <= max - 1 -> Z.of_nat (S (length rest)) <= max -> start <= now ->
      older ++ prev ++ start :: rest = ts ++ [now] ->
      forall until, Z.of_nat (length (in_last until (ts ++ [now]))) <= 2 * max - 1) as Hbound.
    { intros older prev start rest Ho Hp Hr Hst E until. destruct (Z.lt_ge_cases until now) as [Hu|Hu].
      - by rewrite in_last_future.
      - rewrite <- E. apply window_bound; auto. lia. }
    destruct b as [b|].
    - destruct Hs as (Hst & Hc & older & prev & rest & -> & Ho & Hp & Hpl & Hrl & Hr).
      set (start := windowStartMs b) in *.
      destruct (window <=? now - start) eqn:Ew; [|destruct (max <=? count b) eqn:Em].
      + assert (Forall (fun t => t <= now - window) ((older ++ prev) ++ [start])) as Hold.
        { rewrite !Forall_app. split_and!; [eapply Forall_impl; [exact Ho|]; cbn; lia
            |eapply Forall_impl; [exact Hp|]; cbn; lia|constructor; [lia|done]]. }
        assert (((older ++ prev) ++ [start]) ++ rest ++ now :: [] =
          (older ++ prev ++ start :: rest) ++ [now]) as E by (by rewrite <- !app_assoc).
        split; [eapply (Hbound ((older ++ prev) ++ [start]) rest now []); [exact Hold|lia|cbn; lia|lia|exact E]|].
        cbn [windowStartMs count]. split_and!; [lia..|].
        exists ((older ++ prev) ++ [start]), rest, []. split_and!; try done; [|lia].
        eapply Forall_impl; [exact Hr|]. cbn. lia.
      + split; [done|]. split_and!; [lia..|]. by exists older, prev, rest.
      + assert (older ++ prev ++ start :: (rest ++ [now]) = (older ++ prev ++ start :: rest) ++ [now]) as E.
        { rewrite <- !app_assoc. done. }
        split; [eapply (Hbound older prev start (rest ++ [now])); [exact Ho|done|rewrite length_app; cbn; lia|lia|exact E]|].
        cbn [windowStartMs count]. fold start. split_and!; [lia..|]. exists older, prev, (rest ++ [now]).
        split_and!; try done; [rewrite length_app; cbn; lia|].
        apply Forall_app. split; [eapply Forall_impl; [exact Hr|]; cbn; lia|constructor; [lia|done]].
    - assert (Forall (fun t => t <= now - window) ts) as Hold.
      { eapply Forall_impl; [exact Hs|]. cbn. lia. }
      split; [eapply (Hbound ts [] now []); [exact Hold|cbn; lia|cbn; lia|lia|done]|].
      cbn [windowStartMs count]. split_and!; [lia..|]. exists ts, [], []. split_and!; try done. cbn. lia.
  Qed.

Lemma window_inv_later last now b ts : last <= now -> window_inv last b ts -> window_inv now b ts.
  Proof.
    intros H [Hb Hs]. split; [done|]. destruct b as [b|].
    - destruct Hs as (? & ? & older & prev & rest & ? & ? & ? & ? & ? & Hr). split_and!; [lia..|].
      by exists older, prev, rest.
    - eapply Forall_impl; [exact Hs|]. cbn. lia.
  Qed.

  (** A window that has ended may be forgotten. *)
Lemma window_inv_forget last b ts :
    window_inv last (Some b) ts -> windowStartMs b + 2 * window <= last -> window_inv last None ts.
  Proof.
    intros [Hb (_ & _ & older & prev & rest & -> & Ho & Hp & _ & _ & Hr)] H. split; [done|].
    rewrite !Forall_app, Forall_cons. split_and!.
    - eapply Forall_impl; [exact Ho|]. cbn. lia.
    - eapply Forall_impl; [exact Hp|]. cbn. lia.
    - lia.
    - eapply Forall_impl; [exact Hr|]. cbn. lia.
  Qed.
End window.

(** ** Writes of the control plane *)

Abbreviation max_writes := CONTROL_PLANE_RATE_LIMIT_MAX_REQUESTS.
Abbreviation write_window := CONTROL_PLANE_RATE_LIMIT_WINDOW_MS.

Definition write_key (op : Z * ControlPlaneOp) : option jstr :=
  match snd op with CWrite client => Some (resolveControlPlaneRateLimitKey client) | CPrune => None end.

Definition write_keys (ops : list (Z * ControlPlaneOp)) : list jstr := js_set (omap write_key ops).

Fixpoint ops_ascend (last : Z) (ops : list (Z * ControlPlaneOp)) : Prop :=
  match ops with
  | [] => True
  | (now, _) :: ops => last <= now /\ ops_ascend now ops
  end.

(** What a client is told when its budget is spent. *)
Definition told_to_wait (now : Z) (buckets : Buckets) (client : option ControlPlaneClient) : Prop :=
  let '(buckets', (r, key)) := consumeControlPlaneWriteBudget client now buckets in
  cr_allowed r = false ->
  buckets' = buckets /\ 0 < cr_retryAfterMs r /\
  cr_allowed (fst (snd (consumeControlPlaneWriteBudget client (now + cr_retryAfterMs r) buckets))) = true.

Section writes.
  Context (room : list jstr) (Hnd : NoDup room)
    (Hroom : Z.of_nat (length room) <= CONTROL_PLANE_BUCKET_MAX_ENTRIES).

  (** No key is ever evicted. *)
Lemma make_room_id key (buckets : Buckets) :
    jm_wf buckets -> buckets.*1 ⊆ room -> key ∈ room -> make_room key buckets = buckets.
  Proof.
    intros Hwf Hk Hkey. unfold make_room, jm_has. case_bool_decide as Hh; [done|]. cbn [negb andb].
    apply eq_None_not_Some, jm_get_None in Hh.
    assert (key :: buckets.*1 ⊆+ room) as Hsub%submseteq_length.
    { apply NoDup_submseteq; [by apply NoDup_cons|]. set_solver. }
    cbn in Hsub. rewrite length_fmap in Hsub. by rewrite (proj2 (Z.leb_gt _ _)) by lia.
  Qed.

Lemma write_is_bucket_step client now (buckets : Buckets) :
    jm_wf buckets -> buckets.*1 ⊆ room -> resolveControlPlaneRateLimitKey client ∈ room ->
    let key := resolveControlPlaneRateLimitKey client in
    let '(b', allowed) := bucket_step max_writes write_window now (jm_get key buckets) in
    let '(buckets', (r, key')) := consumeControlPlaneWriteBudget client now buckets in
    key' = key /\ cr_allowed r = allowed /\
    (forall k, jm_get k buckets' = if decide (k = key) then Some b' else jm_get k buckets) /\
    jm_wf buckets' /\ buckets'.*1 ⊆ room.
  Proof.
    intros Hwf Hk Hkey key. unfold consumeControlPlaneWriteBudget, bucket_step. fold key.
    rewrite make_room_id by done.
    assert (forall b, jm_wf (jm_set key b buckets) /\ (jm_set key b buckets).*1 ⊆ room) as Hset.
    { intros b. split; [by apply jm_wf_set|]. rewrite jm_set_keys. case_decide; set_solver. }
    destruct (jm_get key buckets) as [b|] eqn:Hg; [|split_and!; try done; [intros k; apply jm_get_set|apply Hset..]].
    destruct (write_window <=? now - windowStartMs b); [split_and!; try done; [intros k; apply jm_get_set|apply Hset..]|].
    destruct (max_writes <=? count b); [|split_and!; try done; [intros k; apply jm_get_set|apply Hset..]].
    split_and!; [done..| |done|done]. intros k. by case_decide; subst.
  Qed.

Lemma prune_inv last now key buckets ts :
    jm_wf buckets -> last <= now ->
    window_inv max_writes write_window last (jm_get key buckets) ts ->
    window_inv max_writes write_window now
      (jm_get key (fst (pruneStaleControlPlaneBuckets now buckets))) ts.
  Proof.
    intros Hwf Hle Hinv%(window_inv_later max_writes write_window last now); [|done].
    cbn [pruneStaleControlPlaneBuckets fst]. rewrite jm_get_filter_map by done.
    destruct (jm_get key buckets) as [b|]; cbn [mbind option_bind]; [|done].
    destruct (CONTROL_PLANE_BUCKET_MAX_STALE_MS <? now - windowStartMs b) eqn:E; [|done].
    eapply window_inv_forget; [|exact Hinv|]; unfold CONTROL_PLANE_BUCKET_MAX_STALE_MS, write_window in *; lia.
  Qed.

Lemma control_writes_inv key ops last buckets ts :
    jm_wf buckets -> buckets.*1 ⊆ room -> ops_ascend last ops ->
    (forall op k, op ∈ ops -> write_key op = Some k -> k ∈ room) ->
    window_inv max_writes write_window last (jm_get key buckets) ts ->
    forall until, Z.of_nat (length (in_last write_window until
      (ts ++ fst (control_writes key ops buckets)))) <= 2 * max_writes - 1.
  Proof.
    revert last buckets ts. induction ops as [|[now op] ops IH];
      intros last buckets ts Hwf Hk Hasc Hkeys Hinv until; cbn [control_writes].
    { cbn [fst]. rewrite app_nil_r. apply Hinv. }
    destruct Hasc as [Hle Hasc].
    assert (forall op' k, op' ∈ ops -> write_key op' = Some k -> k ∈ room) as Hkeys'.
    { intros op' k Hin. apply Hkeys. set_solver. }
    destruct op as [client|]; cbn [control_step].
    - pose proof (write_is_bucket_step client now buckets Hwf Hk
        ltac:(apply (Hkeys (now, CWrite client)); [set_solver|done])) as Hstep.
      cbv zeta in Hstep. set (key' := resolveControlPlaneRateLimitKey client) in *.
      pose proof (bucket_step_inv max_writes write_window ltac:(done) ltac:(done) last now
        (jm_get key buckets) ts Hle Hinv) as Hb.
      destruct (bucket_step _ _ now (jm_get key' buckets)) as [b' al] eqn:Eb.
      destruct (consumeControlPlaneWriteBudget client now buckets) as [buckets' [r k']].
      destruct Hstep as (-> & Hal & Hget & Hwf' & Hk').
      destruct (control_writes key ops buckets') as [us bs] eqn:Ew. cbn [fst].
      specialize (IH now buckets'). rewrite Ew in IH. cbn [fst] in IH.
      case_bool_decide as Ekey.
      + rewrite Ekey in *. rewrite Eb in Hb. rewrite Hal, andb_true_r.
        destruct al; [rewrite (cons_middle now ts us), app_assoc|]; apply IH; try done;
          rewrite Hget, decide_True by done; exact Hb.
      + rewrite andb_false_r. apply IH; try done. rewrite Hget, decide_False by done.
        by eapply window_inv_later.
    - destruct (control_writes key ops _) as [us bs] eqn:Ew. cbn [fst].
      specialize (IH now (fst (pruneStaleControlPlaneBuckets now buckets))). rewrite Ew in IH. cbn [fst] in IH.
      apply IH; try done.
      + by apply jm_wf_filter_map.
      + cbn. pose proof (sublist_subseteq _ _ (jm_filter_map_keys (fun bucket =>
          if CONTROL_PLANE_BUCKET_MAX_STALE_MS <? now - windowStartMs bucket then None else Some bucket) buckets)).
        set_solver.
      + by eapply prune_inv.
  Qed.
End writes.

Lemma refused_write_waits client now buckets : told_to_wait now buckets client.
Proof.
  unfold told_to_wait, consumeControlPlaneWriteBudget. set (key := resolveControlPlaneRateLimitKey client).
  destruct (jm_get key buckets) as [b|] eqn:Hg; [|done].
  destruct (write_window <=? now - windowStartMs b) eqn:Ew; [done|].
  destruct (max_writes <=? count b) eqn:Em; [|done]. intros _. cbn [cr_retryAfterMs cr_allowed].
  rewrite Z.max_r by lia. split_and!; [done|lia|]. by rewrite (proj2 (Z.leb_le write_window _)) by lia.
Qed.

(** The control plane's writes are limited per client.  While the clients
    fit the cap, however their writes and the prunings are interleaved, at most
    five of a client are allowed in any sixty seconds (two windows of three meet
    there); and one that is refused changes nothing and is told how long to
    wait, after which it is allowed. *)
Theorem control_writes_bounded (ops : list (Z * ControlPlaneOp)) (first until : Z) (key : jstr) :
  ops_ascend first ops ->
  Z.of_nat (length (write_keys ops)) <= CONTROL_PLANE_BUCKET_MAX_ENTRIES ->
  Z.of_nat (length (in_last CONTROL_PLANE_RATE_LIMIT_WINDOW_MS until (fst (control_writes key ops [])))) <=
    2 * CONTROL_PLANE_RATE_LIMIT_MAX_REQUESTS - 1 /\
  forall client now, told_to_wait now (snd (control_writes key ops [])) client.
Proof.
  intros Hasc Hroom. split; [|intros; apply refused_write_waits].
  apply (control_writes_inv (write_keys ops) (NoDup_js_set _) Hroom key ops first [] []);
    [apply NoDup_nil_2|set_solver|done| |].
  - intros op k Hin Hk. apply elem_of_js_set, list_elem_of_omap. by exists op.
  - split; [by intros u; vm_compute|constructor].
Qed.

(** A client that waits for the end of its first window. *)
Definition some_writer : option ControlPlaneClient :=
  Some {| cp_deviceId := VString (lit "dev-1"); cp_clientIp := VUndefined; cp_connId := VUndefined |}.

Definition burst : list (Z * ControlPlaneOp) :=
  map (fun t => (t, CWrite some_writer)) [1000; 60997; 60998; 60999; 61000; 61001; 61002; 61003].

Lemma control_writes_bounded_witness :
  let ts := fst (control_writes (resolveControlPlaneRateLimitKey some_writer) burst []) in
  ts = [1000; 60997; 60998; 61000; 61001; 61002] /\ Z.of_nat (length (in_last 60000 61003 ts)) = 5 /\
  Z.of_nat (length (in_last 60000 61003 ts)) <= 5.
Proof.
  intros ts. split_and!; [by vm_compute..|].
  destruct (control_writes_bounded burst 0 61003 (resolveControlPlaneRateLimitKey some_writer))
    as [H _]; [by repeat split|by vm_compute|exact H].
Defined.

(** ** The shared primitive *)

(** A limiter whose clock is a window past its origin acts on a window as a
    client's bucket does. *)
Lemma fixed_window_is_bucket cfg now b :
  1 <= fw_maxRequests cfg ->
  (fw_windowMs cfg <= now /\ b = fixed_window_initial) \/ 1 <= count b ->
  let '(b', r) := fixed_window_consume cfg now b in
  bucket_step (fw_maxRequests cfg) (fw_windowMs cfg) now
    (if count b =? 0 then None else Some b) = (b', cr_allowed r).
Proof.
  intros Hmax Hb. unfold fixed_window_consume, bucket_step.
  destruct Hb as [[Hnow ->]|Hb]; cbn [fixed_window_initial count windowStartMs].
  - rewrite (proj2 (Z.leb_le (fw_windowMs cfg) _)) by lia. cbn [count windowStartMs].
    by rewrite (proj2 (Z.leb_gt (fw_maxRequests cfg) 0)) by lia.
  - rewrite (proj2 (Z.eqb_neq (count b) 0)) by lia.
    destruct (fw_windowMs cfg <=? now - windowStartMs b); cbn [count windowStartMs].
    + by rewrite (proj2 (Z.leb_gt (fw_maxRequests cfg) 0)) by lia.
    + by destruct (fw_maxRequests cfg <=? count b).
Qed.
