(* ===== verification/GatewayMethods.v ===== *)
(** * Gateway methods and their scopes

    [src/gateway/operator-scopes.ts], [role-policy.ts], [method-scopes.ts],
    [methods/core-descriptors.ts], [methods/descriptor.ts] and
    [methods/registry.ts], and [src/shared/gateway-method-policy.ts]: which scope
    each method of the gateway asks of an operator, how plugins add methods, and
    what a set of scopes allows.

    The state of the loaded plugins is an argument.  An object of parameters is
    its fields. *)
From S2P Require Import Prelude JsString JsMap Normalization IpAddress.

(** ** Scopes *)

Inductive OperatorScope :=
  | AdminScope | ReadScope | WriteScope | ApprovalsScope | PairingScope | TalkSecretsScope.
#[export] Instance OperatorScope_eq : EqDecision OperatorScope.
Proof. solve_decision. Defined.

(** The text of a scope: [ADMIN_SCOPE] and its siblings. *)
Definition scope_text (scope : OperatorScope) : jstr :=
  lit match scope with
  | AdminScope => "operator.admin"
  | ReadScope => "operator.read"
  | WriteScope => "operator.write"
  | ApprovalsScope => "operator.approvals"
  | PairingScope => "operator.pairing"
  | TalkSecretsScope => "operator.talk.secrets"
  end.

Definition KNOWN_OPERATOR_SCOPE_VALUES : list OperatorScope :=
  [AdminScope; ReadScope; WriteScope; ApprovalsScope; PairingScope; TalkSecretsScope].

Definition parse_scope (value : jstr) : option OperatorScope :=
  find_first (fun scope => bool_decide (scope_text scope = value)) KNOWN_OPERATOR_SCOPE_VALUES.

Definition isOperatorScope (value : jstr) : bool := bool_decide (is_Some (parse_scope value)).

Definition normalizeOperatorScopeList (scopes : option (list jstr)) : option (list OperatorScope) :=
  match scopes with
  | None => None
  | Some scopes => Some (js_set (omap parse_scope scopes))
  end.

Definition CLI_DEFAULT_OPERATOR_SCOPES : list OperatorScope :=
  [AdminScope; ReadScope; WriteScope; ApprovalsScope; PairingScope; TalkSecretsScope].

(** [scopes.includes(scope)]. *)
Definition includes (scopes : list jstr) (scope : OperatorScope) : bool :=
  bool_decide (scope_text scope ∈ scopes).

(** ** The core methods *)

Inductive GatewayMethodScope :=
  | OperatorMethod (scope : OperatorScope)
  | NodeMethod
  | DynamicMethod.
#[export] Instance GatewayMethodScope_eq : EqDecision GatewayMethodScope.
Proof. solve_decision. Defined.

Record CoreGatewayMethodSpec := {
  cs_name : jstr;
  cs_scope : GatewayMethodScope;
  cs_advertise : bool;
  cs_startup : bool;
  cs_controlPlaneWrite : bool;
}.

(** The shapes of the rows. *)
Definition method (name : string) (scope : GatewayMethodScope) : CoreGatewayMethodSpec := {|
  cs_name := lit name; cs_scope := scope; cs_advertise := true; cs_startup := false;
  cs_controlPlaneWrite := false |}.
Definition hidden (m : CoreGatewayMethodSpec) : CoreGatewayMethodSpec := {|
  cs_name := cs_name m; cs_scope := cs_scope m; cs_advertise := false; cs_startup := cs_startup m;
  cs_controlPlaneWrite := cs_controlPlaneWrite m |}.
Definition at_startup (m : CoreGatewayMethodSpec) : CoreGatewayMethodSpec := {|
  cs_name := cs_name m; cs_scope := cs_scope m; cs_advertise := cs_advertise m; cs_startup := true;
  cs_controlPlaneWrite := cs_controlPlaneWrite m |}.
Definition control_write (m : CoreGatewayMethodSpec) : CoreGatewayMethodSpec := {|
  cs_name := cs_name m; cs_scope := cs_scope m; cs_advertise := cs_advertise m;
  cs_startup := cs_startup m; cs_controlPlaneWrite := true |}.

Module Export rows.
#[local] Abbreviation admin := (OperatorMethod AdminScope).
#[local] Abbreviation read := (OperatorMethod ReadScope).
#[local] Abbreviation write := (OperatorMethod WriteScope).
#[local] Abbreviation approvals := (OperatorMethod ApprovalsScope).
#[local] Abbreviation pairing := (OperatorMethod PairingScope).
#[local] Abbreviation node := NodeMethod.
#[local] Abbreviation dynamic := DynamicMethod.

Definition CORE_GATEWAY_METHOD_SPECS : list CoreGatewayMethodSpec := [
  method "health" read; method "diagnostics.stability" read; method "doctor.memory.status" read;
  method "doctor.memory.dreamDiary" read; method "doctor.memory.backfillDreamDiary" write;
  method "doctor.memory.resetDreamDiary" write; method "doctor.memory.resetGroundedShortTerm" write;
  method "doctor.memory.repairDreamingArtifacts" write; method "doctor.memory.dedupeDreamDiary" write;
  method "doctor.memory.remHarness" read; method "logs.tail" read; method "channels.status" read;
  method "channels.start" admin; method "channels.stop" admin; method "channels.logout" admin;
  method "status" read; method "usage.status" read; method "usage.cost" read; method "tts.status" read;
  method "tts.providers" read; method "tts.personas" read; method "tts.enable" write;
  method "tts.disable" write; method "tts.convert" write; method "tts.setProvider" write;
  method "tts.setPersona" write; method "config.get" read; method "config.set" admin;
  control_write (method "config.apply" admin); control_write (method "config.patch" admin);
  method "config.schema" admin; method "config.schema.lookup" read; method "exec.approvals.get" admin;
  method "exec.approvals.set" admin; method "exec.approvals.node.get" admin;
  method "exec.approvals.node.set" admin; method "exec.approval.get" approvals;
  method "exec.approval.list" approvals; method "exec.approval.request" approvals;
  method "exec.approval.waitDecision" approvals; method "exec.approval.resolve" approvals;
  method "plugin.approval.list" approvals; method "plugin.approval.request" approvals;
  method "plugin.approval.waitDecision" approvals; method "plugin.approval.resolve" approvals;
  method "plugins.uiDescriptors" read; method "plugins.sessionAction" dynamic;
  method "openclaw.chat" admin; method "openclaw.approval.list" approvals;
  method "openclaw.setup.detect" admin; method "openclaw.setup.activate" admin;
  method "openclaw.setup.auth.start" admin; method "wizard.start" admin; method "wizard.next" admin;
  method "wizard.cancel" admin; method "wizard.status" admin; method "talk.catalog" read;
  method "talk.config" read; method "talk.client.create" write; method "talk.client.toolCall" write;
  method "talk.client.steer" write; method "talk.session.create" write;
  method "talk.session.join" write; method "talk.session.appendAudio" write;
  method "talk.session.startTurn" write; method "talk.session.endTurn" write;
  method "talk.session.cancelTurn" write; method "talk.session.cancelOutput" write;
  method "talk.session.acknowledgeMark" write; method "talk.session.submitToolResult" write;
  method "talk.session.steer" write; method "talk.session.close" write; method "talk.speak" write;
  method "talk.mode" write; method "commands.list" read; at_startup (method "models.list" read);
  method "models.authStatus" read; control_write (method "models.authLogout" admin);
  method "tools.catalog" read; at_startup (method "tools.effective" read); method "tools.invoke" write;
  method "mcp.app.view" read; method "mcp.app.listTools" read; method "mcp.app.listResources" read;
  method "mcp.app.listResourceTemplates" read; method "mcp.app.readResource" read;
  method "mcp.app.callTool" write; method "audit.list" read; method "audit.activity.list" read;
  method "tasks.list" read; method "tasks.get" read; method "tasks.cancel" write;
  method "taskSuggestions.list" read; method "taskSuggestions.create" write;
  method "taskSuggestions.accept" admin; method "taskSuggestions.dismiss" write;
  method "environments.list" read; method "environments.status" read; method "worktrees.list" read;
  method "worktrees.branches" write; method "fs.listDir" admin;
  control_write (method "worktrees.create" admin); control_write (method "worktrees.remove" admin);
  control_write (method "worktrees.restore" admin); control_write (method "worktrees.gc" admin);
  method "agents.list" read; method "agents.create" admin; method "agents.update" admin;
  method "agents.delete" admin; method "agents.files.list" read; method "agents.files.get" read;
  method "agents.files.set" admin; method "sessions.files.list" read; method "sessions.files.get" read;
  method "sessions.files.set" admin; method "artifacts.list" read; method "artifacts.get" read;
  method "artifacts.download" read; method "skills.status" read; method "skills.search" read;
  method "skills.detail" read; method "skills.securityVerdicts" read; method "skills.skillCard" read;
  method "skills.bins" node; method "skills.upload.begin" admin; method "skills.upload.chunk" admin;
  method "skills.upload.commit" admin; method "skills.install" admin; method "skills.update" admin;
  method "skills.curator.status" read; method "skills.curator.pin" admin;
  method "skills.curator.unpin" admin; method "skills.curator.restore" admin;
  method "skills.proposals.list" read; method "skills.proposals.inspect" read;
  method "skills.proposals.historyStatus" read; method "skills.proposals.historyScan" admin;
  method "skills.proposals.create" admin; method "skills.proposals.update" admin;
  method "skills.proposals.revise" admin; method "skills.proposals.requestRevision" admin;
  method "skills.proposals.apply" admin; method "skills.proposals.reject" admin;
  method "skills.proposals.quarantine" admin; method "update.status" admin;
  control_write (method "update.run" admin); method "voicewake.get" read; method "voicewake.set" write;
  method "secrets.reload" admin; method "secrets.resolve" admin; method "voicewake.routing.get" read;
  method "voicewake.routing.set" write; at_startup (method "sessions.list" read);
  method "sessions.subscribe" read; method "sessions.unsubscribe" read;
  method "sessions.messages.subscribe" read; method "sessions.messages.unsubscribe" read;
  method "sessions.preview" read; method "sessions.describe" read;
  method "sessions.compaction.list" read; method "sessions.compaction.get" read;
  method "sessions.compaction.branch" write; method "sessions.compaction.restore" admin;
  at_startup (method "sessions.create" dynamic); at_startup (method "sessions.send" write);
  at_startup (method "sessions.abort" write); method "sessions.patch" dynamic;
  method "sessions.pluginPatch" admin; method "sessions.cleanup" admin; method "sessions.reset" admin;
  method "sessions.delete" dynamic; method "sessions.compact" admin;
  method "sessions.groups.list" read; method "sessions.groups.put" write;
  method "sessions.groups.rename" write; method "sessions.groups.delete" write;
  method "last-heartbeat" read; method "set-heartbeats" admin; method "wake" write;
  method "node.pair.list" pairing; method "node.pair.approve" pairing;
  method "node.pair.reject" pairing; method "node.pair.remove" pairing;
  method "device.pair.list" pairing; method "device.pair.approve" pairing;
  method "device.pair.reject" pairing; method "device.pair.remove" pairing;
  method "device.pair.rename" pairing; method "device.token.rotate" pairing;
  method "device.token.revoke" pairing; hidden (method "device.pair.setupCode" admin);
  method "node.rename" pairing; method "node.list" read; method "node.describe" read;
  method "node.pluginSurface.refresh" node; method "node.pluginTools.update" node;
  method "node.skills.update" node; method "node.pending.drain" node;
  method "node.pending.enqueue" write; method "node.invoke" write; method "node.pending.pull" node;
  method "node.pending.ack" node; method "node.invoke.progress" node; method "node.invoke.result" node;
  method "node.event" node; method "cron.get" read; method "cron.list" read; method "cron.status" read;
  method "cron.add" admin; method "cron.update" admin; method "cron.remove" admin;
  method "cron.run" admin; method "cron.runs" read; method "gateway.identity.get" read;
  method "gateway.restart.preflight" read; control_write (method "gateway.restart.request" admin);
  method "system-presence" read; method "system-event" admin; method "message.action" write;
  method "send" write; method "agent" write; method "agent.identity.get" read;
  at_startup (method "agent.wait" write); at_startup (method "chat.history" read);
  at_startup (method "chat.startup" read); at_startup (method "chat.metadata" read);
  at_startup (method "chat.message.get" read); method "chat.abort" write; method "chat.send" write;
  method "terminal.open" admin; method "terminal.input" admin; method "terminal.resize" admin;
  method "terminal.close" admin; hidden (method "assistant.media.get" read);
  hidden (method "sessions.get" read); hidden (method "sessions.resolve" read);
  hidden (method "sessions.usage" read); hidden (method "sessions.usage.timeseries" read);
  hidden (method "sessions.usage.logs" read); hidden (method "poll" write);
  hidden (method "sessions.steer" write); hidden (method "push.test" write);
  control_write (method "attach.grant" admin); method "attach.revoke" admin;
  hidden (method "push.web.vapidPublicKey" write); hidden (method "push.web.subscribe" write);
  hidden (method "push.web.unsubscribe" write); hidden (method "push.web.test" write);
  hidden (method "config.openFile" admin); hidden (method "connect" admin);
  hidden (method "chat.inject" admin); hidden (method "nativeHook.invoke" admin);
  hidden (method "web.login.start" admin); hidden (method "web.login.wait" admin);
  method "terminal.attach" admin; method "terminal.list" admin; method "terminal.text" admin;
  method "controlUi.githubPreview" read; method "system.info" read;
  method "agents.workspace.list" read; method "agents.workspace.get" read; method "tts.speak" write;
  method "plugins.list" read; method "plugins.search" read;
  control_write (method "plugins.install" admin); control_write (method "plugins.setEnabled" admin);
  control_write (method "plugins.uninstall" admin); method "controlUi.sessionPullRequests" read;
  control_write (at_startup (method "gateway.suspend.prepare" admin));
  method "gateway.suspend.status" read; method "gateway.suspend.resume" admin;
  method "chat.toolTitles" write; method "sessions.diff" read; method "openclaw.setup.verify" admin;
  control_write (at_startup (method "environments.create" admin));
  control_write (at_startup (method "environments.destroy" admin));
  method "sessions.catalog.list" read; method "sessions.catalog.read" read;
  method "terminal.upload" admin; method "sessions.catalog.continue" write;
  method "sessions.catalog.archive" write; method "approval.get" approvals;
  method "approval.resolve" approvals; method "sessions.search" read;
  control_write (at_startup (method "sessions.dispatch" admin));
  control_write (at_startup (method "sessions.reclaim" admin)); method "models.probe" admin;
  method "migrations.memory.plan" admin; control_write (method "migrations.memory.apply" admin)
].
End rows.

Definition CORE_GATEWAY_METHOD_SPEC_BY_NAME : list (jstr * CoreGatewayMethodSpec) :=
  fold_left (fun m spec => jm_set (cs_name spec) spec m) CORE_GATEWAY_METHOD_SPECS [].

Definition STARTUP_UNAVAILABLE_GATEWAY_METHODS : list jstr :=
  map cs_name (List.filter cs_startup CORE_GATEWAY_METHOD_SPECS).

Definition listCoreAdvertisedGatewayMethodNames : list jstr :=
  map cs_name (List.filter cs_advertise CORE_GATEWAY_METHOD_SPECS).

Definition listCoreGatewayMethodNames : list jstr := map cs_name CORE_GATEWAY_METHOD_SPECS.

Definition resolveCoreGatewayMethodScope (method : jstr) : option GatewayMethodScope :=
  cs_scope <$> jm_get method CORE_GATEWAY_METHOD_SPEC_BY_NAME.

(** A scope other than the two sentinels. *)
Definition operator_scope (scope : option GatewayMethodScope) : option OperatorScope :=
  match scope with Some (OperatorMethod s) => Some s | _ => None end.

Definition resolveCoreOperatorGatewayMethodScope (method : jstr) : option OperatorScope :=
  operator_scope (resolveCoreGatewayMethodScope method).

Definition isCoreNodeGatewayMethod (method : jstr) : bool :=
  bool_decide (resolveCoreGatewayMethodScope method = Some NodeMethod).

Definition isDynamicOperatorGatewayMethod (method : jstr) : bool :=
  bool_decide (resolveCoreGatewayMethodScope method = Some DynamicMethod).

Definition isCoreGatewayMethodClassified (method : jstr) : bool :=
  jm_has method CORE_GATEWAY_METHOD_SPEC_BY_NAME.

(** ** Reserved names *)

Definition RESERVED_ADMIN_GATEWAY_METHOD_PREFIXES : list jstr :=
  map lit ["exec.approvals."; "config."; "wizard."; "update."]%string.

Definition isReservedAdminGatewayMethod (method : jstr) : bool :=
  existsb (fun prefix => starts_with prefix method) RESERVED_ADMIN_GATEWAY_METHOD_PREFIXES.

Definition resolveReservedGatewayMethodScope (method : jstr) : option OperatorScope :=
  if isReservedAdminGatewayMethod method then Some AdminScope else None.

(** The scope, and whether it was coerced. *)
Definition normalizePluginGatewayMethodScope (method : jstr) (scope : option OperatorScope)
    : option OperatorScope * bool :=
  match resolveReservedGatewayMethodScope method, scope with
  | Some reservedScope, Some scope =>
      if bool_decide (scope = reservedScope) then (Some scope, false) else (Some reservedScope, true)
  | _, _ => (scope, false)
  end.

(** ** Roles *)

Inductive GatewayRole := OperatorRole | NodeRole.
#[export] Instance GatewayRole_eq : EqDecision GatewayRole.
Proof. solve_decision. Defined.

Definition parseGatewayRole (roleRaw : jstr) : option GatewayRole :=
  if bool_decide (roleRaw = lit "operator") then Some OperatorRole
  else if bool_decide (roleRaw = lit "node") then Some NodeRole else None.

Definition roleCanSkipDeviceIdentity (role : GatewayRole) (sharedAuthOk : bool) : bool :=
  bool_decide (role = OperatorRole) && sharedAuthOk.

Definition isNodeRoleMethod (method : jstr) : bool := isCoreNodeGatewayMethod method.

Definition isRoleAuthorizedForMethod (role : GatewayRole) (method : jstr) : bool :=
  if isNodeRoleMethod method then bool_decide (role = NodeRole) else bool_decide (role = OperatorRole).

(** ** Method scopes *)

(** The parts of the active plugin registry that are read here. *)
Record SessionActionRegistration := {
  sa_pluginId : jstr;
  sa_actionId : jstr;
  sa_requiredScopes : option (list OperatorScope);
}.

Record PluginScopes := {
  ps_methods : list (jstr * GatewayMethodScope);
  ps_sessionActions : list SessionActionRegistration;
}.

Inductive RequestParams :=
  | ParamsObject (fields : list (jstr * jsval))
  | ParamsOther.

Definition params_field (name : string) (fields : list (jstr * jsval)) : jsval :=
  default VUndefined (jm_get (lit name) fields).

Inductive ScopeDecision := ScopeAllowed | ScopeMissing (missingScope : OperatorScope).
#[export] Instance ScopeDecision_eq : EqDecision ScopeDecision.
Proof. solve_decision. Defined.

Section scopes.
  Context (plugins : option PluginScopes).

Definition plugin_method_scope (method : jstr) : option GatewayMethodScope :=
  snd <$> find_first (fun d => bool_decide (fst d = method))
    (match plugins with Some p => ps_methods p | None => [] end).

Definition resolveScopedMethod (method : jstr) : option OperatorScope :=
  match resolveCoreOperatorGatewayMethodScope method with
  | Some explicitScope => Some explicitScope
  | None =>
      match resolveReservedGatewayMethodScope method with
      | Some reservedScope => Some reservedScope
      | None => operator_scope (plugin_method_scope method)
      end
  end.

Definition isApprovalMethod (method : jstr) : bool :=
  bool_decide (resolveScopedMethod method = Some ApprovalsScope).

Definition resolveRequiredOperatorScopeForMethod (method : jstr) : option OperatorScope :=
  resolveScopedMethod method.

Definition SESSIONS_PATCH_WRITE_SCOPE_FIELDS : list string :=
  ["key"; "agentId"; "label"; "category"; "pinned"; "archived"; "unread"]%string.

Definition SESSIONS_DELETE_WRITE_SCOPE_FIELDS : list string :=
  ["key"; "agentId"; "deleteTranscript"; "archivedOnly"]%string.

Definition only_fields (names : list string) (fields : list (jstr * jsval)) : bool :=
  forallb (fun '(key, _) => one_of names key) fields.

Definition resolveSessionsPatchRequiredScopes (params : RequestParams) : list OperatorScope :=
  match params with
  | ParamsOther => [WriteScope]
  | ParamsObject fields =>
      if only_fields SESSIONS_PATCH_WRITE_SCOPE_FIELDS fields then [WriteScope] else [AdminScope]
  end.

Definition resolveSessionsCreateRequiredScopes (params : RequestParams) : list OperatorScope :=
  match params with
  | ParamsOther => [WriteScope]
  | ParamsObject fields =>
      if jm_has (lit "cwd") fields || jm_has (lit "execNode") fields then [AdminScope] else [WriteScope]
  end.

Definition resolveSessionsDeleteRequiredScopes (params : RequestParams) : list OperatorScope :=
  match params with
  | ParamsOther => [AdminScope]
  | ParamsObject fields =>
      match params_field "archivedOnly" fields with
      | VBool true =>
          if only_fields SESSIONS_DELETE_WRITE_SCOPE_FIELDS fields then [WriteScope] else [AdminScope]
      | _ => [AdminScope]
      end
  end.

  (** The plugin and the action that an object names. *)
Definition session_action_ids (fields : list (jstr * jsval)) : option (jstr * jstr) :=
  pluginId ← normalizeOptionalString (params_field "pluginId" fields);
  actionId ← normalizeOptionalString (params_field "actionId" fields);
  Some (pluginId, actionId).

Definition resolveSessionActionRegisteredScopes (params : RequestParams) : option (list OperatorScope) :=
  match params with
  | ParamsOther => None
  | ParamsObject fields =>
      match session_action_ids fields with
      | None => None
      | Some (pluginId, actionId) =>
          registration ← find_first (fun entry =>
            bool_decide (sa_pluginId entry = pluginId) && bool_decide (sa_actionId entry = actionId))
            (match plugins with Some p => ps_sessionActions p | None => [] end);
          Some (match sa_requiredScopes registration with
                | Some (s :: ss) => s :: ss
                | _ => [WriteScope]
                end)
      end
  end.

Definition resolveSessionActionLeastPrivilegeScopes (params : RequestParams) : list OperatorScope :=
  match resolveSessionActionRegisteredScopes params with
  | Some registeredScopes => registeredScopes
  | None =>
      match params with
      | ParamsObject fields =>
          match session_action_ids fields with
          | Some _ => CLI_DEFAULT_OPERATOR_SCOPES
          | None => [WriteScope]
          end
      | ParamsOther => [WriteScope]
      end
  end.

Definition resolveDynamicLeastPrivilegeOperatorScopesForMethod (method : jstr) (params : RequestParams)
    : list OperatorScope :=
  if bool_decide (method = lit "plugins.sessionAction") then resolveSessionActionLeastPrivilegeScopes params
  else if bool_decide (method = lit "sessions.patch") then resolveSessionsPatchRequiredScopes params
  else if bool_decide (method = lit "sessions.create") then resolveSessionsCreateRequiredScopes params
  else if bool_decide (method = lit "sessions.delete") then resolveSessionsDeleteRequiredScopes params
  else [WriteScope].

Definition findMissingOperatorScope (requiredScopes : list OperatorScope) (scopes : list jstr)
    : option OperatorScope :=
  find_first (fun scope => negb (includes scopes scope)
    && negb (bool_decide (scope = ReadScope) && includes scopes WriteScope)) requiredScopes.

Definition resolveLeastPrivilegeOperatorScopesForMethod (method : jstr) (params : RequestParams)
    : list OperatorScope :=
  if isDynamicOperatorGatewayMethod method
  then resolveDynamicLeastPrivilegeOperatorScopesForMethod method params
  else match resolveRequiredOperatorScopeForMethod method with
       | Some requiredScope => [requiredScope]
       | None => []
       end.

Definition authorizeOperatorScopesForRequiredScope (requiredScope : OperatorScope) (scopes : list jstr)
    : ScopeDecision :=
  if includes scopes AdminScope then ScopeAllowed
  else if bool_decide (requiredScope = ReadScope) then
    if includes scopes ReadScope || includes scopes WriteScope then ScopeAllowed
    else ScopeMissing ReadScope
  else if includes scopes requiredScope then ScopeAllowed
  else ScopeMissing requiredScope.

Definition missing_decision (missingScope : option OperatorScope) : ScopeDecision :=
  match missingScope with Some scope => ScopeMissing scope | None => ScopeAllowed end.

  (** The action is not named: the handler reports that. *)
Definition malformed_action (params : RequestParams) : bool :=
  match params with
  | ParamsObject fields => negb (bool_decide (is_Some (session_action_ids fields)))
  | ParamsOther => false
  end.

Definition authorizeOperatorScopesForMethod (method : jstr) (scopes : list jstr) (params : RequestParams)
    : ScopeDecision :=
  let find requiredScopes := missing_decision (findMissingOperatorScope requiredScopes scopes) in
  if includes scopes AdminScope then ScopeAllowed
  else if isDynamicOperatorGatewayMethod method then
    if bool_decide (method = lit "sessions.create") then find (resolveSessionsCreateRequiredScopes params)
    else if bool_decide (method = lit "sessions.patch") then find (resolveSessionsPatchRequiredScopes params)
    else if bool_decide (method = lit "sessions.delete") then find (resolveSessionsDeleteRequiredScopes params)
    else
      let registeredScopes := resolveSessionActionRegisteredScopes params in
      if negb (bool_decide (is_Some registeredScopes)) && malformed_action params then
        if existsb isOperatorScope scopes then ScopeAllowed else ScopeMissing WriteScope
      else find (default [WriteScope] registeredScopes)
  else authorizeOperatorScopesForRequiredScope
         (default AdminScope (resolveRequiredOperatorScopeForMethod method)) scopes.

Definition isGatewayMethodClassified (method : jstr) : bool :=
  if isNodeRoleMethod method then true
  else if isDynamicOperatorGatewayMethod method then true
  else isCoreGatewayMethodClassified method
       || bool_decide (is_Some (resolveRequiredOperatorScopeForMethod method)).
End scopes.

(** ** The registry *)

Inductive GatewayMethodOwner :=
  | CoreOwner (area : jstr)
  | PluginOwner (pluginId : jstr)
  | ChannelOwner (channelId : jstr)
  | AuxOwner (area : jstr).

Record GatewayMethodDescriptor (handler : Type) := {
  gd_name : jstr;
  gd_handler : handler;
  gd_scope : GatewayMethodScope;
  gd_owner : GatewayMethodOwner;
  gd_startup : bool;
  gd_controlPlaneWrite : bool;
  gd_advertise : bool;
}.
Arguments gd_name {handler}. Arguments gd_handler {handler}. Arguments gd_scope {handler}.
Arguments gd_owner {handler}. Arguments gd_startup {handler}. Arguments gd_controlPlaneWrite {handler}.
Arguments gd_advertise {handler}.

Section registry.
  Context {handler : Type}.
  Implicit Types d : GatewayMethodDescriptor handler.

Definition with_name (name : jstr) (scope : GatewayMethodScope) d : GatewayMethodDescriptor handler := {|
  gd_name := name; gd_handler := gd_handler d; gd_scope := scope; gd_owner := gd_owner d;
  gd_startup := gd_startup d; gd_controlPlaneWrite := gd_controlPlaneWrite d;
  gd_advertise := gd_advertise d |}.

  (** [None] is the error of an empty name. *)
Definition normalizeDescriptor d : option (GatewayMethodDescriptor handler) :=
  let name := trim (gd_name d) in
  if negb (truthy name) then None
  else
    let normalizedScope :=
      match gd_scope d, gd_owner d with
      | OperatorMethod scope, PluginOwner _ =>
          OperatorMethod (default scope (fst (normalizePluginGatewayMethodScope name (Some scope))))
      | scope, _ => scope
      end in
    Some (with_name name normalizedScope d).

  (** The map by name; [None] is an error. *)
Definition createGatewayMethodRegistry (inputs : list (GatewayMethodDescriptor handler))
    : option (list (jstr * GatewayMethodDescriptor handler)) :=
  descriptors ← mapM normalizeDescriptor inputs;
  fold_left (fun byName d =>
    m ← byName;
    if jm_has (gd_name d) m then None else Some (jm_set (gd_name d) d m)) descriptors (Some []).

  (** The views of the registry. *)
Abbreviation Registry := (list (jstr * GatewayMethodDescriptor handler)).
Definition getHandler (name : jstr) (r : Registry) : option handler := gd_handler <$> jm_get name r.
Definition listMethods (r : Registry) : list jstr := map (fun '(_, d) => gd_name d) r.
Definition listAdvertisedMethods (r : Registry) : list jstr :=
  map (fun '(_, d) => gd_name d) (List.filter (fun '(_, d) => gd_advertise d) r).
Definition getScope (name : jstr) (r : Registry) : option GatewayMethodScope := gd_scope <$> jm_get name r.
Definition isStartupUnavailable (name : jstr) (r : Registry) : bool :=
  match jm_get name r with Some d => gd_startup d | None => false end.
Definition isControlPlaneWrite (name : jstr) (r : Registry) : bool :=
  match jm_get name r with Some d => gd_controlPlaneWrite d | None => false end.

  (** [None] is the error of a handler without a row. *)
Definition createCoreGatewayMethodDescriptors (handlers : list (jstr * handler))
    : option (list (GatewayMethodDescriptor handler)) :=
  if forallb (fun '(name, _) => bool_decide (name ∈ listCoreGatewayMethodNames)) handlers
  then Some (omap (fun spec =>
    h ← jm_get (cs_name spec) handlers;
    Some {| gd_name := cs_name spec; gd_handler := h; gd_scope := cs_scope spec;
            gd_owner := CoreOwner (lit "gateway"); gd_startup := cs_startup spec;
            gd_controlPlaneWrite := cs_controlPlaneWrite spec; gd_advertise := cs_advertise spec |})
    CORE_GATEWAY_METHOD_SPECS)
  else None.

Definition plain_descriptor (name : jstr) (h : handler) (owner : GatewayMethodOwner)
    (scope : OperatorScope) : GatewayMethodDescriptor handler := {|
  gd_name := name; gd_handler := h; gd_scope := OperatorMethod scope; gd_owner := owner;
  gd_startup := false; gd_controlPlaneWrite := false; gd_advertise := true |}.

Definition createGatewayMethodDescriptorsFromHandlers (handlers : list (jstr * handler))
    (owner : GatewayMethodOwner) (defaultScope : option OperatorScope)
    (scopes : list (jstr * OperatorScope)) : option (list (GatewayMethodDescriptor handler)) :=
  mapM (fun '(name, h) =>
    scope ← (match jm_get name scopes with Some s => Some s | None => defaultScope end);
    Some (plain_descriptor name h owner scope)) handlers.

Definition createPluginGatewayMethodDescriptor (pluginId name : jstr) (h : handler)
    (scope : option OperatorScope) : GatewayMethodDescriptor handler :=
  plain_descriptor name h (PluginOwner pluginId)
    (default AdminScope (fst (normalizePluginGatewayMethodScope name scope))).

  (** The plugins' methods: descriptors, or handlers in the older shape. *)
Record PluginMethods := {
  pm_gatewayHandlers : list (jstr * handler);
  pm_gatewayMethodDescriptors : list (GatewayMethodDescriptor handler);
}.

Definition createPluginGatewayMethodDescriptors (registry : PluginMethods)
    : option (list (GatewayMethodDescriptor handler)) :=
  match pm_gatewayMethodDescriptors registry with
  | [] => createGatewayMethodDescriptorsFromHandlers (pm_gatewayHandlers registry)
            (PluginOwner (lit "unknown")) (Some AdminScope) []
  | descriptors => Some descriptors
  end.

  (** [createRequestGatewayMethodRegistry] of [server-methods.ts]. *)
Definition createRequestGatewayMethodRegistry (coreGatewayHandlers : list (jstr * handler))
    (activePluginRegistry : option PluginMethods) (extraHandlers : list (jstr * handler))
    : option (list (jstr * GatewayMethodDescriptor handler)) :=
  let pluginMethodNames := match activePluginRegistry with Some p => (pm_gatewayHandlers p).*1 | None => [] end in
  let of_plugin name := bool_decide (name ∈ pluginMethodNames) in
  let coreDescriptorHandlers := fold_left (fun m '(name, h) =>
    if negb (of_plugin name) && isCoreGatewayMethodClassified name then jm_set name h m else m)
    extraHandlers coreGatewayHandlers in
  coreDescriptors ← createCoreGatewayMethodDescriptors coreDescriptorHandlers;
  let coreDescriptors := map (fun d =>
    match jm_get (gd_name d) extraHandlers with
    | Some h => if negb (of_plugin (gd_name d)) then
        {| gd_name := gd_name d; gd_handler := h; gd_scope := gd_scope d; gd_owner := gd_owner d;
           gd_startup := gd_startup d; gd_controlPlaneWrite := gd_controlPlaneWrite d;
           gd_advertise := gd_advertise d |} else d
    | None => d
    end) coreDescriptors in
  let auxHandlers := List.filter (fun '(name, _) =>
    negb (of_plugin name) && negb (bool_decide (name ∈ map gd_name coreDescriptors))) extraHandlers in
  pluginDescriptors ← (match activePluginRegistry with
                       | Some p => createPluginGatewayMethodDescriptors p
                       | None => Some []
                       end);
  auxDescriptors ← createGatewayMethodDescriptorsFromHandlers auxHandlers
    (AuxOwner (lit "gateway-extra")) (Some AdminScope) [];
  createGatewayMethodRegistry (coreDescriptors ++ pluginDescriptors ++ auxDescriptors).
End registry.
Arguments PluginMethods handler : clear implicits.
