(* ===== verification/GatewayRequest.v ===== *)
(** * Requests of the gateway

    [authorizeGatewayMethod] and [handleGatewayRequest] of
    [src/gateway/server-methods.ts], with the plugins' [registerGatewayMethod]
    of [src/plugins/registry-registrars-network.ts]: a request is authorised by
    role and scopes ([GatewayMethods]), held back during startup, charged to the
    write budget of its client ([FixedWindow]) and admitted as root work
    ([WorkAdmission]) before its handler runs.

    A request runs to the call of its handler in one turn.  The root that the
    caller already runs in is an argument; log lines are left out. *)
From S2P Require Import Prelude JsString JsMap JsNumber NumberCoercion Normalization IpAddress FixedWindow WorkAdmission GatewayMethods.
#[local] Open Scope Z_scope.

(** ** Plugins *)

Section plugins.
  Context {handler : Type}.

  (** The handler is the adapted one, the error a diagnostic.  The handlers are a
      plain object: it has the members of every object. *)
Definition registerGatewayMethod (coreGatewayMethods : list jstr) (pluginId method : jstr) (h : handler)
    (scope : option OperatorScope) (registry : PluginMethods handler) : PluginMethods handler :=
  let trimmed := trim method in
  if negb (truthy trimmed) then registry
  else if bool_decide (trimmed ∈ coreGatewayMethods) || jm_has trimmed (pm_gatewayHandlers registry)
    || bool_decide (trimmed ∈ object_members)
  then registry
  else {| pm_gatewayHandlers := jm_set trimmed h (pm_gatewayHandlers registry);
          pm_gatewayMethodDescriptors := pm_gatewayMethodDescriptors registry ++
            [createPluginGatewayMethodDescriptor pluginId trimmed h
               (fst (normalizePluginGatewayMethodScope trimmed scope))] |}.
End plugins.

(** ** Clients and requests *)

Record ConnectParams := {
  cn_role : option jstr;
  cn_scopes : option (list jstr);
  cn_deviceId : jsval;
}.

Record GatewayClient := {
  gc_connect : option ConnectParams;
  gc_clientIp : jsval;
  gc_connId : jsval;
}.

Definition control_plane_client (client : GatewayClient) : ControlPlaneClient := {|
  cp_deviceId := match gc_connect client with Some c => cn_deviceId c | None => VUndefined end;
  cp_clientIp := gc_clientIp client;
  cp_connId := gc_connId client |}.

Inductive GatewayReply (handler : Type) :=
  | InvalidRequest (message : jstr)
  | StartupUnavailable
  | BudgetExhausted (retryAfterMs : Z)
  | NestedSuspension
  | AdmissionClosed (restartDraining : bool)
  | Invoked (h : handler) (lease : option Lease).
Arguments InvalidRequest {handler}. Arguments StartupUnavailable {handler}.
Arguments BudgetExhausted {handler}. Arguments NestedSuspension {handler}.
Arguments AdmissionClosed {handler}. Arguments Invoked {handler}.

Record GatewayState := { gs_admission : GatewayWorkAdmissionState; gs_buckets : Buckets }.

Definition SUSPEND_CONTROL_METHODS : list string :=
  ["gateway.suspend.prepare"; "gateway.suspend.status"; "gateway.suspend.resume"]%string.

Definition isGatewayMethodAllowedDuringSuspension (method : jstr) : bool :=
  one_of SUSPEND_CONTROL_METHODS method.

Section requests.
  Context {handler : Type}.
  Abbreviation Registry := (list (jstr * GatewayMethodDescriptor handler)).

  (** The message of the error, if any. *)
Definition authorizeGatewayMethod (plugins : option PluginScopes) (method : jstr)
    (client : option GatewayClient) (params : RequestParams) (methodRegistry : Registry) : option jstr :=
  match client ≫= gc_connect with
  | None => None
  | Some connect =>
      if bool_decide (method = lit "health") then None
      else
        let roleRaw := default (lit "operator") (cn_role connect) in
        match parseGatewayRole roleRaw with
        | None => Some (lit "unauthorized role: " ++ roleRaw)
        | Some role =>
            let scopes := default [] (cn_scopes connect) in
            if negb (isRoleAuthorizedForMethod role method)
            then Some (lit "unauthorized role: " ++ roleRaw)
            else if bool_decide (role = NodeRole) then None
            else if includes scopes AdminScope then None
            else
              let scopeAuth :=
                match getScope method methodRegistry with
                | Some (OperatorMethod registeredScope) =>
                    authorizeOperatorScopesForRequiredScope registeredScope scopes
                | _ => authorizeOperatorScopesForMethod plugins method scopes params
                end in
              match scopeAuth with
              | ScopeAllowed => None
              | ScopeMissing missingScope => Some (lit "missing scope: " ++ scope_text missingScope)
              end
        end
  end.

Record GatewayRequestOptions := {
  go_method : jstr;
  go_params : RequestParams;
  go_client : option GatewayClient;
  go_methodRegistry : option Registry;
  go_extraHandlers : list (jstr * handler);
  go_unavailable : list jstr;
  go_currentRoot : option nat;
}.

Context (coreGatewayHandlers : list (jstr * handler)) (activePlugins : option (PluginMethods handler))
    (plugins : option PluginScopes).

Definition request_registry (opts : GatewayRequestOptions) : option Registry :=
  match go_methodRegistry opts with
  | Some r =>
      match getHandler (go_method opts) r with
      | Some _ => Some r
      | None => createRequestGatewayMethodRegistry coreGatewayHandlers activePlugins (go_extraHandlers opts)
      end
  | None => createRequestGatewayMethodRegistry coreGatewayHandlers activePlugins (go_extraHandlers opts)
  end.

  (** [rejectRateLimitedControlPlaneWrite]: the delay when the write is
      rejected. *)
Definition reject_write (opts : GatewayRequestOptions) (r : Registry) (now : Z) (buckets : Buckets)
    : Buckets * option Z :=
  if negb (isControlPlaneWrite (go_method opts) r) then (buckets, None)
  else
    let '(buckets, (budget, _)) :=
      consumeControlPlaneWriteBudget (control_plane_client <$> go_client opts) now buckets in
    (buckets, if cr_allowed budget then None else Some (cr_retryAfterMs budget)).

Definition release_lease (lease : option Lease) (s : GatewayWorkAdmissionState) : GatewayWorkAdmissionState :=
  match lease with Some (OwnsRoot _ closure) => fst (releaseRootWork closure s) | _ => s end.

  (** From the lookup of the handler on. *)
Definition admit_and_invoke (opts : GatewayRequestOptions) (r : Registry) (now : Z) (s : GatewayState)
    : GatewayState * GatewayReply handler :=
  let isSuspendPrepare := bool_decide (go_method opts = lit "gateway.suspend.prepare") in
  match getHandler (go_method opts) r with
  | None => (s, InvalidRequest (lit "unknown method: " ++ go_method opts))
  | Some h =>
      let '(lease, admission) := tryBeginGatewayRootWorkAdmission (go_currentRoot opts) (gs_admission s) in
      let s := {| gs_admission := admission; gs_buckets := gs_buckets s |} in
      match isSuspendPrepare, lease with
      | true, Some JoinsRoot => (s, NestedSuspension)
      | _, _ =>
          if negb (bool_decide (is_Some lease)) && negb (isGatewayMethodAllowedDuringSuspension (go_method opts))
          then (s, AdmissionClosed (isGatewayRestartDraining (gs_admission s)))
          else
            let '(buckets, rejected) :=
              if isSuspendPrepare then (gs_buckets s, None) else reject_write opts r now (gs_buckets s) in
            match rejected with
            | Some retryAfterMs =>
                ({| gs_admission := release_lease lease (gs_admission s); gs_buckets := buckets |},
                 BudgetExhausted retryAfterMs)
            | None => ({| gs_admission := gs_admission s; gs_buckets := buckets |}, Invoked h lease)
            end
      end
  end.

  (** [None] is an error of the registry. *)
Definition handleGatewayRequest (opts : GatewayRequestOptions) (now : Z) (s : GatewayState)
    : option (GatewayState * GatewayReply handler) :=
  r ← request_registry opts;
  match authorizeGatewayMethod plugins (go_method opts) (go_client opts) (go_params opts) r with
  | Some authError => Some (s, InvalidRequest authError)
  | None =>
      if bool_decide (go_method opts ∈ go_unavailable opts) then Some (s, StartupUnavailable)
      else
        let isSuspendPrepare := bool_decide (go_method opts = lit "gateway.suspend.prepare") in
        let '(buckets, rejected) :=
          if isSuspendPrepare then reject_write opts r now (gs_buckets s) else (gs_buckets s, None) in
        let s := {| gs_admission := gs_admission s; gs_buckets := buckets |} in
        match rejected with
        | Some retryAfterMs => Some (s, BudgetExhausted retryAfterMs)
        | None => Some (admit_and_invoke opts r now s)
        end
  end.

  (** When the handler has settled. *)
Definition finishGatewayRequest (lease : option Lease) (s : GatewayState) : GatewayState :=
  {| gs_admission := release_lease lease (gs_admission s); gs_buckets := gs_buckets s |}.
End requests.
