(* ===== verification/GatewayRegistry.v ===== *)
(** * The registry of gateway methods

    Theorems on the registry that a request is dispatched through: whatever the
    plugins register and the caller adds, it can be built, and it gives every name
    the handler and the scope of a reference table. *)
From S2P Require Import Prelude JsString JsMap Normalization IpAddress GatewayMethods GatewayRequest.

(** ** Descriptors by name *)

Section keyed.
  Context {handler : Type}.
  Implicit Types (d : GatewayMethodDescriptor handler) (ds : list (GatewayMethodDescriptor handler)).

Definition keyed ds : list (jstr * GatewayMethodDescriptor handler) := (fun d => (gd_name d, d)) <$> ds.

Lemma keyed_names ds : (keyed ds).*1 = gd_name <$> ds.
Proof. unfold keyed. rewrite <- list_fmap_compose. by apply list_fmap_ext. Qed.

  (** A descriptor that the registry takes as it is. *)
Definition normal d : Prop := normalizeDescriptor d = Some d.

Lemma registry_of_normal ds : Forall normal ds -> NoDup (gd_name <$> ds) ->
  createGatewayMethodRegistry ds = Some (keyed ds).
Proof.
  intros Hn Hd. unfold createGatewayMethodRegistry.
  assert (mapM normalizeDescriptor ds = Some ds) as ->.
  { apply mapM_Some. by apply Forall_Forall2_diag. }
  cbn [mbind option_bind]. rewrite <- (app_nil_l (keyed ds)).
  change (Some []) with (Some (keyed [])). change [] with (keyed []) at 2.
  assert (forall pre, NoDup (gd_name <$> pre ++ ds) ->
    fold_left (fun byName d => m ← byName;
      if jm_has (gd_name d) m then None else Some (jm_set (gd_name d) d m)) ds (Some (keyed pre)) =
    Some (keyed pre ++ keyed ds)) as H; [|by apply (H [])].
  clear. induction ds as [|d ds IH]; intros pre Hd; [by rewrite app_nil_r|].
  assert (gd_name d ∉ (keyed pre).*1) as Hnew.
  { rewrite keyed_names. rewrite fmap_app in Hd. apply NoDup_app in Hd as (_ & Hd & _).
    intros Hin. apply (Hd _ Hin). by left. }
  cbn [fold_left mbind option_bind]. unfold jm_has. rewrite (proj2 (jm_get_None _ _) Hnew).
  rewrite bool_decide_eq_false_2 by (by intros [? ?]). rewrite jm_set_new by done.
  replace (keyed pre ++ [(gd_name d, d)]) with (keyed (pre ++ [d])) by (unfold keyed; by rewrite fmap_app).
  rewrite IH by (by rewrite <- app_assoc). unfold keyed. rewrite fmap_app, <- app_assoc. done.
Qed.
End keyed.

(** ** The reference table *)

Record Registration (handler : Type) := {
  reg_pluginId : jstr;
  reg_method : jstr;
  reg_handler : handler;
  reg_scope : option OperatorScope;
}.
Arguments reg_pluginId {handler}. Arguments reg_method {handler}.
Arguments reg_handler {handler}. Arguments reg_scope {handler}.

Section table.
  Context {handler : Type}.
  Implicit Types (reg : Registration handler) (regs : list (Registration handler))
    (pm : PluginMethods handler).

Definition register reg pm : PluginMethods handler :=
  registerGatewayMethod listCoreGatewayMethodNames (reg_pluginId reg) (reg_method reg) (reg_handler reg)
    (reg_scope reg) pm.

  (** The plugins' methods after their registrations. *)
Definition load regs : PluginMethods handler :=
  fold_left (fun pm reg => register reg pm) regs
    {| pm_gatewayHandlers := []; pm_gatewayMethodDescriptors := [] |}.

  (** A name that a plugin may take: not empty, not a core method, not a member
      of every object. *)
Definition free_name (name : jstr) : bool :=
  truthy name && negb (bool_decide (name ∈ listCoreGatewayMethodNames))
    && negb (bool_decide (name ∈ object_members)).

  (** The first to register a free name has it. *)
Definition plugin_entry regs (name : jstr) : option (Registration handler) :=
  if free_name name then find_first (fun reg => bool_decide (trim (reg_method reg) = name)) regs else None.

  (** The scope of a plugin's method: admin under a reserved name or by default. *)
Definition plugin_scope (name : jstr) (scope : option OperatorScope) : OperatorScope :=
  if isReservedAdminGatewayMethod name then AdminScope else default AdminScope scope.

Definition plugin_descriptor reg : GatewayMethodDescriptor handler :=
  let name := trim (reg_method reg) in
  plain_descriptor name (reg_handler reg) (PluginOwner (reg_pluginId reg)) (plugin_scope name (reg_scope reg)).

  (** The handler and the scope of a name: a plugin's, then a core method's,
      which an extra handler replaces, then an extra one's. *)
Definition method_table (core extra : list (jstr * handler)) regs (name : jstr)
    : option (handler * GatewayMethodScope) :=
  match plugin_entry regs name with
  | Some reg => Some (reg_handler reg, OperatorMethod (plugin_scope name (reg_scope reg)))
  | None =>
      match resolveCoreGatewayMethodScope name with
      | Some scope =>
          h ← (match jm_get name extra with Some h => Some h | None => jm_get name core end);
          Some (h, scope)
      | None => h ← jm_get name extra; Some (h, OperatorMethod AdminScope)
      end
  end.

Lemma normalize_scope_twice name scope :
  default AdminScope (fst (normalizePluginGatewayMethodScope name
    (fst (normalizePluginGatewayMethodScope name scope)))) = plugin_scope name scope.
Proof.
  unfold plugin_scope, normalizePluginGatewayMethodScope, resolveReservedGatewayMethodScope.
  destruct (isReservedAdminGatewayMethod name); [|done]. destruct scope as [scope|]; [|done].
  case_bool_decide as E; cbn; [|done]. by rewrite bool_decide_eq_true_2.
Qed.

Lemma plugin_scope_normal name scope :
  default (plugin_scope name scope)
    (fst (normalizePluginGatewayMethodScope name (Some (plugin_scope name scope)))) = plugin_scope name scope.
Proof.
  unfold normalizePluginGatewayMethodScope, resolveReservedGatewayMethodScope.
  destruct (isReservedAdminGatewayMethod name) eqn:E; [|done]. by unfold plugin_scope; rewrite E.
Qed.

Lemma register_cases reg pm :
  let name := trim (reg_method reg) in
  register reg pm = if free_name name && negb (jm_has name (pm_gatewayHandlers pm))
    then {| pm_gatewayHandlers := jm_set name (reg_handler reg) (pm_gatewayHandlers pm);
            pm_gatewayMethodDescriptors := pm_gatewayMethodDescriptors pm ++ [plugin_descriptor reg] |}
    else pm.
Proof.
  intros name. unfold register, registerGatewayMethod, free_name. fold name.
  destruct (truthy name); cbn [negb andb]; [|done].
  destruct (bool_decide (name ∈ listCoreGatewayMethodNames)); cbn [negb andb orb]; [done|].
  destruct (jm_has name (pm_gatewayHandlers pm)); cbn [orb negb]; [by rewrite andb_false_r|].
  destruct (bool_decide (name ∈ object_members)); cbn [negb andb]; [done|].
  unfold createPluginGatewayMethodDescriptor, plugin_descriptor. by rewrite normalize_scope_twice.
Qed.

  (** What the registrations leave. *)
Definition loaded regs pm : Prop :=
  (pm_gatewayHandlers pm).*1 = gd_name <$> pm_gatewayMethodDescriptors pm /\ jm_wf (pm_gatewayHandlers pm) /\
  (forall d, d ∈ pm_gatewayMethodDescriptors pm ->
    normal d /\ gd_name d ∉ listCoreGatewayMethodNames /\ trim (gd_name d) = gd_name d) /\
  (forall name, jm_get name (keyed (pm_gatewayMethodDescriptors pm)) = plugin_descriptor <$> plugin_entry regs name).

Lemma plugin_descriptor_name reg : gd_name (plugin_descriptor reg) = trim (reg_method reg).
Proof. done. Qed.

Lemma plugin_descriptor_normal reg : free_name (trim (reg_method reg)) = true -> normal (plugin_descriptor reg).
Proof.
  intros [[Ht _]%andb_true_iff _]%andb_true_iff. unfold normal, normalizeDescriptor.
  rewrite plugin_descriptor_name, trim_idem, Ht. cbn [negb]. unfold plugin_descriptor, plain_descriptor, with_name.
  cbn [gd_scope gd_owner gd_name gd_handler gd_startup gd_controlPlaneWrite gd_advertise].
  by rewrite plugin_scope_normal.
Qed.

Lemma keyed_app (ds1 ds2 : list (GatewayMethodDescriptor handler)) : keyed (ds1 ++ ds2) = keyed ds1 ++ keyed ds2.
Proof. unfold keyed. apply fmap_app. Qed.

Lemma jm_get_keyed name (ds : list (GatewayMethodDescriptor handler)) d :
  jm_get name (keyed ds) = Some d -> d ∈ ds /\ gd_name d = name.
Proof.
  intros H%jm_get_elem. unfold keyed in H. apply list_elem_of_fmap in H as (d' & [= -> ->] & ?). done.
Qed.

Lemma plugin_entry_snoc regs reg name :
  plugin_entry (regs ++ [reg]) name =
    match plugin_entry regs name with
    | Some r => Some r
    | None => if free_name name && bool_decide (trim (reg_method reg) = name) then Some reg else None
    end.
Proof.
  unfold plugin_entry. destruct (free_name name); [|done]. rewrite find_first_app.
  destruct (find_first _ regs); [done|]. cbn. by destruct (bool_decide _).
Qed.

Lemma loaded_has regs pm name : loaded regs pm ->
  name ∈ (pm_gatewayHandlers pm).*1 <-> is_Some (plugin_entry regs name).
Proof.
  intros (Hk & _ & _ & Hg). specialize (Hg name). rewrite Hk, <- keyed_names, is_Some_alt.
  destruct (plugin_entry regs name) eqn:Ep.
  - apply jm_get_elem, (list_elem_of_fmap_2 fst) in Hg. done.
  - by apply jm_get_None in Hg.
Qed.

Lemma jm_has_keys {V} name (m : list (jstr * V)) : jm_has name m = bool_decide (name ∈ m.*1).
Proof.
  apply bool_decide_ext. rewrite is_Some_alt. destruct (jm_get name m) eqn:E.
  - by apply jm_get_elem, (list_elem_of_fmap_2 fst) in E.
  - by apply jm_get_None in E.
Qed.

Lemma load_loaded regs : loaded regs (load regs).
Proof.
  induction regs as [|reg regs IH] using rev_ind.
  { split_and!; [done|apply NoDup_nil_2|by intros d ?%elem_of_nil|].
    intros name. unfold plugin_entry. by destruct (free_name name). }
  unfold load. rewrite fold_left_app. cbn [fold_left]. fold (load regs).
  destruct IH as (Hk & Hw & Hd & Hg). rewrite register_cases. cbv zeta. set (name := trim (reg_method reg)).
  assert (jm_has name (pm_gatewayHandlers (load regs)) = bool_decide (is_Some (plugin_entry regs name))) as ->.
  { rewrite jm_has_keys. by apply bool_decide_ext, loaded_has. }
  destruct (free_name name) eqn:Ef; cbn [andb].
  2: { split_and!; try done. intros n. rewrite Hg, plugin_entry_snoc. fold name. destruct (plugin_entry regs n); [done|].
       destruct (free_name n) eqn:En; cbn [andb]; [|done]. case_bool_decide; [congruence|done]. }
  destruct (plugin_entry regs name) eqn:Ep; cbn [negb].
  { rewrite bool_decide_eq_true_2 by by eexists. cbn [negb].
    split_and!; try done. intros n. rewrite Hg, plugin_entry_snoc. fold name. destruct (plugin_entry regs n) eqn:En; [done|].
    case_bool_decide; [congruence|by rewrite andb_false_r]. }
  rewrite bool_decide_eq_false_2 by (by intros [? ?]). cbn [negb].
  assert (name ∉ (pm_gatewayHandlers (load regs)).*1) as Hnew.
  { rewrite Hk, <- keyed_names. apply jm_get_None. by rewrite Hg, Ep. }
  split_and!; cbn [pm_gatewayHandlers pm_gatewayMethodDescriptors].
  - rewrite jm_set_new, !fmap_app, Hk by done. done.
  - by apply jm_wf_set.
  - intros d [Hin|Heq]%elem_of_app; [by apply Hd|]. apply list_elem_of_singleton in Heq as ->.
    split_and!; [by apply plugin_descriptor_normal| |apply trim_idem].
    rewrite plugin_descriptor_name. fold name. unfold free_name in Ef.
    apply andb_true_iff in Ef as [[_ Ef]%andb_true_iff _]. by apply negb_true_iff, bool_decide_eq_false in Ef.
  - intros n. rewrite keyed_app, jm_get_app, Hg, plugin_entry_snoc. fold name. destruct (plugin_entry regs n) eqn:En; [done|]. cbn.
    change (trim (reg_method reg)) with name. destruct (decide (n = name)) as [->|Hne].
    + by rewrite Ef, bool_decide_eq_true_2.
    + by rewrite (bool_decide_eq_false_2 (name = n)), andb_false_r.
Qed.

(** ** The core methods and the extra ones *)

Lemma core_by_name : CORE_GATEWAY_METHOD_SPEC_BY_NAME = (fun spec => (cs_name spec, spec)) <$> CORE_GATEWAY_METHOD_SPECS.
Proof. by vm_compute. Qed.

Lemma core_names_NoDup : NoDup listCoreGatewayMethodNames.
Proof. apply (bool_decide_eq_true_1 _). by vm_compute. Qed.

Lemma core_names_trimmed name : name ∈ listCoreGatewayMethodNames -> truthy name = true /\ trim name = name.
Proof.
  assert (forallb (fun n => truthy n && bool_decide (trim n = n)) listCoreGatewayMethodNames = true) as H
    by by vm_compute.
  rewrite forallb_forall in H. intros Hin%list_elem_of_In%H.
  apply andb_true_iff in Hin as [? ?%bool_decide_eq_true]. done.
Qed.

#[local] Opaque CORE_GATEWAY_METHOD_SPECS CORE_GATEWAY_METHOD_SPEC_BY_NAME.

Lemma listed_names : (CORE_GATEWAY_METHOD_SPEC_BY_NAME).*1 = listCoreGatewayMethodNames.
Proof. rewrite core_by_name, <- list_fmap_compose. done. Qed.

Lemma classified_listed name :
  isCoreGatewayMethodClassified name = bool_decide (name ∈ listCoreGatewayMethodNames).
Proof. unfold isCoreGatewayMethodClassified. by rewrite jm_has_keys, listed_names. Qed.

Lemma jm_get_omap_keyed (f : CoreGatewayMethodSpec -> option (GatewayMethodDescriptor handler)) specs name :
  (forall spec d, f spec = Some d -> gd_name d = cs_name spec) -> NoDup (cs_name <$> specs) ->
  jm_get name (keyed (omap f specs)) = jm_get name ((fun spec => (cs_name spec, spec)) <$> specs) ≫= f.
Proof.
  intros Hf. induction specs as [|spec specs IH]; [done|]. intros [Hnew Hd]%NoDup_cons. specialize (IH Hd).
  cbn. destruct (f spec) as [d|] eqn:E; cbn.
  - rewrite (Hf _ _ E). case_decide; cbn; [by rewrite E|done].
  - fold (keyed (omap f specs)). rewrite IH. case_decide as En; [|done]. subst name. cbn. rewrite E.
    rewrite (proj2 (jm_get_None _ _)); [done|]. by rewrite <- list_fmap_compose.
Qed.

  (** The handlers of the core methods, with the extra ones that replace them. *)
Lemma override_get (p : jstr -> bool) (core extra : list (jstr * handler)) name :
  jm_wf extra ->
  jm_get name (fold_left (fun m '(n, h) => if p n then jm_set n h m else m) extra core) =
    if p name then match jm_get name extra with Some h => Some h | None => jm_get name core end
    else jm_get name core.
Proof.
  revert core. induction extra as [|[n h] extra IH]; intros core; [by destruct (p name)|].
  intros [Hnew Hd]%NoDup_cons. cbn [fold_left]. rewrite IH by done. cbn. case_decide as E.
  - subst n. rewrite (proj2 (jm_get_None _ _)) by done.
    destruct (p name); [by rewrite jm_get_set_eq|done].
  - destruct (p n); [|done]. by rewrite jm_get_set_ne by done.
Qed.

Lemma override_keys (p : jstr -> bool) (extra core : list (jstr * handler)) names :
  core.*1 ⊆ names -> (forall n, p n = true -> n ∈ names) ->
  (fold_left (fun m '(n, h) => if p n then jm_set n h m else m) extra core).*1 ⊆ names.
Proof.
  intros Hc Hp. revert core Hc. induction extra as [|[n h] extra IH]; intros core Hc; [done|]. cbn [fold_left].
  apply IH. destruct (p n) eqn:E; [|done]. apply Hp in E.
  intros k Hk. rewrite jm_set_keys in Hk. case_match; set_solver.
Qed.

Definition core_descriptor (spec : CoreGatewayMethodSpec) (h : handler) : GatewayMethodDescriptor handler := {|
  gd_name := cs_name spec; gd_handler := h; gd_scope := cs_scope spec;
  gd_owner := CoreOwner (lit "gateway"); gd_startup := cs_startup spec;
  gd_controlPlaneWrite := cs_controlPlaneWrite spec; gd_advertise := cs_advertise spec |}.

Definition core_row (handlers : list (jstr * handler)) (spec : CoreGatewayMethodSpec)
    : option (GatewayMethodDescriptor handler) :=
  core_descriptor spec <$> jm_get (cs_name spec) handlers.

Lemma spec_listed spec : spec ∈ CORE_GATEWAY_METHOD_SPECS -> cs_name spec ∈ listCoreGatewayMethodNames.
Proof. intros Hin. unfold listCoreGatewayMethodNames. exact (list_elem_of_fmap_2 cs_name _ _ Hin). Qed.

  (** The second round of replacements finds the handlers in place. *)
Lemma core_rows_final (free : jstr -> bool) (core extra : list (jstr * handler)) :
  jm_wf extra ->
  let handlers := fold_left (fun m '(n, h) =>
    if free n && isCoreGatewayMethodClassified n then jm_set n h m else m) extra core in
  map (fun d =>
    match jm_get (gd_name d) extra with
    | Some h => if free (gd_name d) then
        {| gd_name := gd_name d; gd_handler := h; gd_scope := gd_scope d; gd_owner := gd_owner d;
           gd_startup := gd_startup d; gd_controlPlaneWrite := gd_controlPlaneWrite d;
           gd_advertise := gd_advertise d |} else d
    | None => d
    end) (omap (core_row handlers) CORE_GATEWAY_METHOD_SPECS) = omap (core_row handlers) CORE_GATEWAY_METHOD_SPECS.
Proof.
  intros Hw handlers. rewrite <- (list_fmap_id (omap _ _)) at 2. apply list_fmap_ext.
  intros i d Hd%list_elem_of_lookup_2. apply list_elem_of_omap in Hd as (spec & Hin & Hd).
  unfold core_row in Hd. apply fmap_Some in Hd as (h & Hh & ->). cbn [core_descriptor gd_name id].
  destruct (jm_get (cs_name spec) extra) as [h'|] eqn:Ee; [|done].
  destruct (free (cs_name spec)) eqn:Ef; [|done]. unfold handlers in Hh.
  rewrite override_get, Ef, classified_listed, Ee in Hh by done.
  rewrite bool_decide_eq_true_2 in Hh; [cbn [andb] in Hh; by simplify_eq|].
  by apply spec_listed.
Qed.

Lemma core_row_get handlers name :
  jm_get name (keyed (omap (core_row handlers) CORE_GATEWAY_METHOD_SPECS)) =
    jm_get name CORE_GATEWAY_METHOD_SPEC_BY_NAME ≫= core_row handlers.
Proof.
  rewrite core_by_name. apply jm_get_omap_keyed; [|exact core_names_NoDup].
  intros spec d Hd. unfold core_row in Hd. by apply fmap_Some in Hd as (h & _ & ->).
Qed.

Lemma core_row_normal handlers d : d ∈ omap (core_row handlers) CORE_GATEWAY_METHOD_SPECS ->
  normal d /\ gd_name d ∈ listCoreGatewayMethodNames.
Proof.
  intros (spec & Hin & Hd)%list_elem_of_omap. unfold core_row in Hd. apply fmap_Some in Hd as (h & _ & ->).
  pose proof (spec_listed _ Hin) as Hn.
  split; [|done]. destruct (core_names_trimmed _ Hn) as [Ht Hs].
  unfold normal, normalizeDescriptor, core_descriptor, with_name.
  cbn [gd_name gd_scope gd_owner gd_handler gd_startup gd_controlPlaneWrite gd_advertise].
  rewrite Hs, Ht. by destruct (cs_scope spec).
Qed.

Lemma core_rows_NoDup handlers :
  NoDup (gd_name <$> omap (core_row handlers) CORE_GATEWAY_METHOD_SPECS).
Proof.
  eapply sublist_NoDup; [exact core_names_NoDup|]. unfold listCoreGatewayMethodNames.
  induction CORE_GATEWAY_METHOD_SPECS as [|spec specs IH]; [done|]. cbn. unfold core_row at 1.
  destruct (jm_get (cs_name spec) handlers); cbn; [by constructor|by apply sublist_cons].
Qed.

Lemma aux_descriptors (handlers : list (jstr * handler)) :
  createGatewayMethodDescriptorsFromHandlers handlers (AuxOwner (lit "gateway-extra")) (Some AdminScope) [] =
    Some ((fun '(n, h) => plain_descriptor n h (AuxOwner (lit "gateway-extra")) AdminScope) <$> handlers).
Proof.
  unfold createGatewayMethodDescriptorsFromHandlers. induction handlers as [|[n h] handlers IH]; [done|].
  cbn [mapM]. by rewrite IH.
Qed.

Lemma aux_get (p : jstr -> bool) (extra : list (jstr * handler)) name :
  jm_get name (keyed ((fun '(n, h) => plain_descriptor n h (AuxOwner (lit "gateway-extra")) AdminScope) <$>
    List.filter (fun '(n, _) => p n) extra)) =
  (fun h => plain_descriptor name h (AuxOwner (lit "gateway-extra")) AdminScope) <$>
    (if p name then jm_get name extra else None).
Proof.
  induction extra as [|[n h] rest IH]; [by destruct (p name)|]. cbn [List.filter jm_get].
  destruct (p n) eqn:Ep; cbn; case_decide as E; try done.
  - subst n. by rewrite Ep.
  - subst n. rewrite Ep in IH |- *. exact IH.
Qed.

(** ** The whole registry *)

Section whole.
  Context (core extra : list (jstr * handler)) (regs : list (Registration handler)).
  Context (Hcore : core.*1 ⊆ listCoreGatewayMethodNames) (Hextra : jm_wf extra).
  Context (Htrim : Forall (fun name => truthy name = true /\ trim name = name) extra.*1).

  (** A name that no plugin has. *)
Definition left_over (name : jstr) : bool :=
  negb (bool_decide (name ∈ (pm_gatewayHandlers (load regs)).*1)).

Definition core_handlers : list (jstr * handler) :=
  fold_left (fun m '(n, h) => if left_over n && isCoreGatewayMethodClassified n then jm_set n h m else m) extra core.

Definition core_descriptors : list (GatewayMethodDescriptor handler) :=
  omap (core_row core_handlers) CORE_GATEWAY_METHOD_SPECS.

Definition aux_handlers : list (jstr * handler) :=
  List.filter (fun '(name, _) => left_over name && negb (bool_decide (name ∈ map gd_name core_descriptors))) extra.

Definition all_descriptors : list (GatewayMethodDescriptor handler) :=
  core_descriptors ++ pm_gatewayMethodDescriptors (load regs) ++
    ((fun '(n, h) => plain_descriptor n h (AuxOwner (lit "gateway-extra")) AdminScope) <$> aux_handlers).

Lemma left_over_entry name : left_over name = negb (bool_decide (is_Some (plugin_entry regs name))).
Proof. unfold left_over. f_equal. apply bool_decide_ext, loaded_has, load_loaded. Qed.

Lemma plugin_not_core name reg : plugin_entry regs name = Some reg -> name ∉ listCoreGatewayMethodNames.
Proof.
  unfold plugin_entry. destruct (free_name name) eqn:Ef; [|done]. intros _. unfold free_name in Ef.
  apply andb_true_iff in Ef as [[_ Ef]%andb_true_iff _]. by apply negb_true_iff, bool_decide_eq_false in Ef.
Qed.

Lemma registry_of_descriptors :
  createRequestGatewayMethodRegistry core (Some (load regs)) extra = createGatewayMethodRegistry all_descriptors.
Proof.
  unfold createRequestGatewayMethodRegistry. cbv zeta.
  match goal with |- context [createCoreGatewayMethodDescriptors ?m] => change m with core_handlers end.
  assert (createCoreGatewayMethodDescriptors core_handlers = Some core_descriptors) as ->.
  { unfold createCoreGatewayMethodDescriptors.
    rewrite (proj2 (forallb_forall _ _)); [done|]. intros [n h] Hin%list_elem_of_In.
    apply bool_decide_eq_true. apply (list_elem_of_fmap_2 fst) in Hin. revert Hin. apply override_keys; [done|].
    intros m [_ Hm]%andb_true_iff. by rewrite classified_listed, bool_decide_eq_true in Hm. }
  cbn [mbind option_bind]. pose proof (core_rows_final left_over core extra Hextra) as Hf. cbv zeta in Hf.
  match goal with |- context [map ?f core_descriptors] =>
    replace (map f core_descriptors) with core_descriptors by (symmetry; exact Hf) end.
  match goal with |- context [createGatewayMethodDescriptorsFromHandlers ?m _ _ _] =>
    change m with aux_handlers end.
  assert (createPluginGatewayMethodDescriptors (load regs) = Some (pm_gatewayMethodDescriptors (load regs))) as ->.
  { unfold createPluginGatewayMethodDescriptors. destruct (load_loaded regs) as [Hk _].
    destruct (pm_gatewayMethodDescriptors (load regs)); [|done].
    by destruct (pm_gatewayHandlers (load regs)). }
  cbn [mbind option_bind]. by rewrite aux_descriptors.
Qed.

Lemma all_normal : Forall normal all_descriptors.
Proof.
  apply Forall_app. split; [apply Forall_forall; intros d Hd; by apply core_row_normal in Hd as [? _]|].
  apply Forall_app. split; [apply Forall_forall; intros d Hd|].
  { destruct (load_loaded regs) as (_ & _ & H & _). by apply H. }
  apply Forall_fmap, Forall_forall. intros [n h] Hin. cbn.
  apply list_elem_of_In, List.filter_In in Hin as [Hin%list_elem_of_In _].
  rewrite Forall_forall in Htrim. destruct (Htrim n) as [Ht Hs]; [by apply (list_elem_of_fmap_2 fst) in Hin|].
  unfold normal, normalizeDescriptor, plain_descriptor, with_name.
  cbn [gd_name gd_scope gd_owner gd_handler gd_startup gd_controlPlaneWrite gd_advertise]. by rewrite Hs, Ht.
Qed.

Lemma aux_left d :
  d ∈ (fun '(n, h) => plain_descriptor n h (AuxOwner (lit "gateway-extra")) AdminScope) <$> aux_handlers ->
  left_over (gd_name d) = true /\ gd_name d ∉ map gd_name core_descriptors.
Proof.
  intros ([n h] & -> & Hin)%list_elem_of_fmap. unfold aux_handlers in Hin.
  apply list_elem_of_In, List.filter_In in Hin as [_ [? Hn]%andb_true_iff].
  by apply negb_true_iff, bool_decide_eq_false in Hn.
Qed.

Lemma all_distinct : NoDup (gd_name <$> all_descriptors).
Proof.
  destruct (load_loaded regs) as (Hk & Hw & Hd & _).
  unfold all_descriptors. rewrite !fmap_app. apply NoDup_app. split_and!; [apply core_rows_NoDup| |].
  - intros name Hin. apply list_elem_of_fmap in Hin as Hin'. destruct Hin' as (c & -> & [_ Hc]%core_row_normal).
    rewrite not_elem_of_app. split.
    + intros (d & E & Hd'%Hd)%list_elem_of_fmap. rewrite E in Hc. naive_solver.
    + intros (d & E & [_ Hn]%aux_left)%list_elem_of_fmap. by rewrite <- E in Hn.
  - apply NoDup_app. split_and!; [by rewrite <- Hk| |].
    + rewrite <- Hk. intros name Hin (d & -> & [Hl _]%aux_left)%list_elem_of_fmap.
      unfold left_over in Hl. by rewrite bool_decide_eq_true_2 in Hl.
    + rewrite <- list_fmap_compose. unfold aux_handlers.
      rewrite (list_fmap_ext _ fst) by (by intros i [n h] _).
      eapply sublist_NoDup; [exact Hextra|]. apply fmap_sublist, filter_sublist.
Qed.

Lemma core_handler name :
  jm_get name core_handlers =
    match plugin_entry regs name, resolveCoreGatewayMethodScope name with
    | None, Some _ => match jm_get name extra with Some h => Some h | None => jm_get name core end
    | _, _ => jm_get name core
    end.
Proof.
  unfold core_handlers. rewrite (override_get (fun n => left_over n && isCoreGatewayMethodClassified n)) by done.
  rewrite left_over_entry. destruct (plugin_entry regs name) eqn:Ep.
  - by rewrite bool_decide_eq_true_2 by by eexists.
  - rewrite bool_decide_eq_false_2 by (by intros [? ?]). cbn [negb andb].
    unfold isCoreGatewayMethodClassified, resolveCoreGatewayMethodScope, jm_has.
    by destruct (jm_get name CORE_GATEWAY_METHOD_SPEC_BY_NAME).
Qed.

Lemma unlisted_core name : name ∉ listCoreGatewayMethodNames -> jm_get name (keyed core_descriptors) = None.
Proof. intros Hn. unfold core_descriptors. rewrite core_row_get, (proj2 (jm_get_None _ _)); [done|]. by rewrite listed_names. Qed.

Lemma table_of_descriptors name :
  (fun d => (gd_handler d, gd_scope d)) <$> jm_get name (keyed all_descriptors) = method_table core extra regs name.
Proof.
  destruct (load_loaded regs) as (_ & _ & _ & Hg).
  unfold all_descriptors, method_table, aux_handlers. rewrite !keyed_app, !jm_get_app, Hg.
  rewrite (aux_get (fun name => left_over name && negb (bool_decide (name ∈ map gd_name core_descriptors)))).
  rewrite left_over_entry. destruct (plugin_entry regs name) as [reg|] eqn:Ep.
  - rewrite unlisted_core by by eapply plugin_not_core. cbn. unfold plugin_entry in Ep.
    destruct (free_name name); [|done]. by apply find_first_elem in Ep as [_ ->%bool_decide_eq_true].
  - cbn [fmap option_fmap option_map]. rewrite bool_decide_eq_false_2 by (by intros [? ?]). cbn [negb andb].
    assert (bool_decide (name ∈ map gd_name core_descriptors) = bool_decide (is_Some (jm_get name (keyed core_descriptors)))) as ->.
    { apply bool_decide_ext. change (map gd_name core_descriptors) with (gd_name <$> core_descriptors).
      rewrite <- keyed_names. rewrite is_Some_alt. destruct (jm_get name (keyed core_descriptors)) eqn:E.
      - by apply jm_get_elem, (list_elem_of_fmap_2 fst) in E.
      - by apply jm_get_None in E. }
    unfold core_descriptors. rewrite core_row_get.
    unfold resolveCoreGatewayMethodScope. destruct (jm_get name CORE_GATEWAY_METHOD_SPEC_BY_NAME) as [spec|] eqn:Es.
    + pose proof Es as Hs. rewrite core_by_name in Hs.
      apply jm_get_elem, list_elem_of_fmap in Hs as (spec' & [= -> ->] & _).
      cbn [mbind option_bind fmap option_fmap option_map]. unfold core_row. rewrite core_handler, Ep.
      unfold resolveCoreGatewayMethodScope. rewrite Es. cbn [fmap option_fmap option_map].
      destruct (jm_get (cs_name spec') extra); [done|]. by destruct (jm_get (cs_name spec') core).
    + cbn [mbind option_bind]. rewrite bool_decide_eq_false_2 by (by intros [? ?]). cbn [negb].
      by destruct (jm_get name extra).
Qed.
End whole.
End table.


(** Two plugins, of which one reaches for reserved and core names. *)
Definition some_regs : list (Registration nat) :=
  [{| reg_pluginId := lit "voice"; reg_method := lit "voice.call"; reg_handler := 10; reg_scope := Some WriteScope |};
   {| reg_pluginId := lit "greedy"; reg_method := lit " config.mine "; reg_handler := 11; reg_scope := Some ReadScope |};
   {| reg_pluginId := lit "greedy"; reg_method := lit "config.get"; reg_handler := 12; reg_scope := Some ReadScope |};
   {| reg_pluginId := lit "greedy"; reg_method := lit "voice.call"; reg_handler := 13; reg_scope := Some ReadScope |};
   {| reg_pluginId := lit "greedy"; reg_method := lit "toString"; reg_handler := 14; reg_scope := None |}].

Definition some_core : list (jstr * nat) := [(lit "config.get", 1); (lit "status", 2)].
Definition some_extra : list (jstr * nat) := [(lit "status", 3); (lit "voice.call", 4); (lit "debug.dump", 5)].

