(* ===== verification/GatewayScopes.v ===== *)
(** * What a client's scopes allow

    Theorems on [GatewayMethods] and [GatewayRequest]: exactly which calls of a
    connected client are authorised, that the scopes the command line asks for
    are enough for the call they are asked for, and that the methods a plugin
    adds keep to their names: neither a core method nor a reserved name can be
    opened to more clients than the core grants it to. *)
From S2P Require Import Prelude JsString JsMap Normalization IpAddress GatewayMethods GatewayRequest.

(** ** Grants *)

(** A scope is granted by itself, by admin, and reading by writing. *)
Definition grants (scopes : list jstr) (scope : OperatorScope) : Prop :=
  scope_text AdminScope ∈ scopes \/ scope_text scope ∈ scopes \/
  (scope = ReadScope /\ scope_text WriteScope ∈ scopes).

#[export] Instance grants_dec scopes scope : Decision (grants scopes scope).
Proof. unfold grants. apply _. Defined.

Lemma includes_true scopes scope : includes scopes scope = true <-> scope_text scope ∈ scopes.
Proof. apply bool_decide_eq_true. Qed.

Lemma includes_false scopes scope : includes scopes scope = false <-> scope_text scope ∉ scopes.
Proof. apply bool_decide_eq_false. Qed.

Lemma parse_scope_text scope : parse_scope (scope_text scope) = Some scope.
Proof. by destruct scope; vm_compute. Qed.

#[export] Instance scope_text_inj : Inj (=) (=) scope_text.
Proof. intros s1 s2 E%(f_equal parse_scope). rewrite !parse_scope_text in E. by injection E. Qed.

Lemma includes_texts scopes scope : includes (map scope_text scopes) scope = bool_decide (scope ∈ scopes).
Proof.
  apply bool_decide_ext. change (map scope_text scopes) with (scope_text <$> scopes).
  rewrite list_elem_of_fmap. split; [intros (s & E%(inj _) & ?); by subst|eauto].
Qed.

Lemma required_scope_grants scope scopes :
  authorizeOperatorScopesForRequiredScope scope scopes = ScopeAllowed <-> grants scopes scope.
Proof.
  unfold authorizeOperatorScopesForRequiredScope, grants. rewrite <- !includes_true.
  case_bool_decide as E; [subst scope|];
    repeat match goal with |- context [includes ?a ?b] => destruct (includes a b) end; cbn; naive_solver.
Qed.

Lemma missing_grants required scopes : scope_text AdminScope ∉ scopes ->
  missing_decision (findMissingOperatorScope required scopes) = ScopeAllowed <->
  Forall (grants scopes) required.
Proof.
  intros Ha.
  assert (missing_decision (findMissingOperatorScope required scopes) = ScopeAllowed <->
    findMissingOperatorScope required scopes = None) as ->.
  { by destruct (findMissingOperatorScope _ _). }
  unfold findMissingOperatorScope. rewrite find_first_None. apply Forall_proper; [|done]. intros scope.
  unfold grants. rewrite andb_false_iff, !negb_false_iff, andb_true_iff, bool_decide_eq_true, !includes_true.
  tauto.
Qed.

(** ** The core table *)

Lemma core_spec_row method spec :
  jm_get method CORE_GATEWAY_METHOD_SPEC_BY_NAME = Some spec -> (method, spec) ∈ CORE_GATEWAY_METHOD_SPEC_BY_NAME.
Proof. apply jm_get_elem. Qed.

(** The methods whose scopes depend on the parameters. *)
Definition dynamic_methods : list jstr :=
  map lit ["plugins.sessionAction"; "sessions.create"; "sessions.patch"; "sessions.delete"]%string.

(** Each row has its own trimmed name; the dynamic ones are the four. *)
Definition row_ok '((name, spec) : jstr * CoreGatewayMethodSpec) : bool :=
  bool_decide (cs_name spec = name) && bool_decide (trim name = name) &&
  implb (bool_decide (cs_scope spec = DynamicMethod)) (bool_decide (name ∈ dynamic_methods)).

Lemma core_rows_ok : forallb row_ok CORE_GATEWAY_METHOD_SPEC_BY_NAME = true.
Proof. by vm_compute. Qed.

Lemma core_row_ok method spec : (method, spec) ∈ CORE_GATEWAY_METHOD_SPEC_BY_NAME ->
  cs_name spec = method /\ trim method = method /\
  (cs_scope spec = DynamicMethod -> method ∈ dynamic_methods).
Proof.
  intros Hin. pose proof core_rows_ok as H. rewrite forallb_forall in H.
  apply list_elem_of_In, H in Hin. unfold row_ok in Hin.
  apply andb_true_iff in Hin as [[H1%bool_decide_eq_true H2%bool_decide_eq_true]%andb_true_iff H3].
  split_and!; try done. intros Hd. rewrite (bool_decide_eq_true_2 _ Hd) in H3.
  by apply bool_decide_eq_true in H3.
Qed.

Lemma dynamic_is_listed method : isDynamicOperatorGatewayMethod method = true -> method ∈ dynamic_methods.
Proof.
  intros H%bool_decide_eq_true. unfold resolveCoreGatewayMethodScope in H.
  apply fmap_Some in H as (spec & Hr%core_spec_row & Hs). by eapply core_row_ok.
Qed.

(** Which of the four a dynamic method is. *)
Lemma dynamic_is_one method : method ∈ dynamic_methods ->
  map (fun name => bool_decide (method = name)) dynamic_methods ∈
    [[true; false; false; false]; [false; true; false; false]; [false; false; true; false];
     [false; false; false; true]].
Proof.
  intros Hl. unfold dynamic_methods in Hl at 1. cbn [map] in Hl.
  repeat (apply elem_of_cons in Hl as [->|Hl]; [apply (bool_decide_eq_true_1 _); by vm_compute|]).
  by apply elem_of_nil in Hl.
Qed.

#[local] Opaque lit isDynamicOperatorGatewayMethod CORE_GATEWAY_METHOD_SPEC_BY_NAME.

(** ** Calls *)

Section calls.
  Context {handler : Type} (plugins : option PluginScopes).

  (** What a method asks of an operator: the scope of its registration, the
      scopes that its parameters select, the scope of its row, and admin when
      nothing is known of it. *)
Definition required_scopes (registered : option GatewayMethodScope) (method : jstr) (params : RequestParams)
    : list OperatorScope :=
  match registered with
  | Some (OperatorMethod scope) => [scope]
  | _ =>
      if isDynamicOperatorGatewayMethod method then
        if bool_decide (method = lit "plugins.sessionAction")
        then default [WriteScope] (resolveSessionActionRegisteredScopes plugins params)
        else resolveDynamicLeastPrivilegeOperatorScopesForMethod plugins method params
      else [default AdminScope (resolveRequiredOperatorScopeForMethod plugins method)]
  end.

  (** A session action that names no action: its handler rejects it. *)
Definition unnamed_action (registered : option GatewayMethodScope) (method : jstr) (params : RequestParams)
    : Prop :=
  match registered with
  | Some (OperatorMethod _) => False
  | _ => isDynamicOperatorGatewayMethod method = true /\ method = lit "plugins.sessionAction" /\
         malformed_action params = true
  end.

Lemma malformed_unregistered params :
  malformed_action params = true -> resolveSessionActionRegisteredScopes plugins params = None.
Proof.
  destruct params as [fields|]; [|done]. cbn. by destruct (session_action_ids fields) as [[? ?]|].
Qed.

Lemma known_scope scopes : existsb isOperatorScope scopes = true <-> exists scope, scope_text scope ∈ scopes.
Proof.
  rewrite existsb_exists. split.
  - intros (text & Hin%list_elem_of_In & Hs). unfold isOperatorScope in Hs. apply bool_decide_eq_true in Hs as [s Hs].
    exists s. unfold parse_scope in Hs. by apply find_first_elem in Hs as [_ <-%bool_decide_eq_true].
  - intros [s Hs]. exists (scope_text s). split; [by apply list_elem_of_In|].
    apply bool_decide_eq_true. rewrite parse_scope_text. by eexists.
Qed.

Lemma method_scopes_grant method scopes params : scope_text AdminScope ∉ scopes ->
  authorizeOperatorScopesForMethod plugins method scopes params = ScopeAllowed <->
  Forall (grants scopes) (required_scopes None method params) \/
  (unnamed_action None method params /\ exists scope, scope_text scope ∈ scopes).
Proof.
  intros Ha. unfold authorizeOperatorScopesForMethod, required_scopes, unnamed_action.
  rewrite (proj2 (includes_false _ _) Ha).
  assert (forall P Q : Prop, ~ Q -> P <-> P \/ Q) as Hor by tauto.
  destruct (isDynamicOperatorGatewayMethod method) eqn:Ed.
  2: { rewrite required_scope_grants, Forall_singleton. apply Hor. intros [([=] & _) _]. }
  pose proof (dynamic_is_one _ (dynamic_is_listed _ Ed)) as Hl. unfold dynamic_methods in Hl. cbn [map] in Hl.
  unfold resolveDynamicLeastPrivilegeOperatorScopesForMethod.
  destruct (bool_decide (method = lit "plugins.sessionAction")) eqn:Ea.
  - assert (bool_decide (method = lit "sessions.create") = false /\
      bool_decide (method = lit "sessions.patch") = false /\
      bool_decide (method = lit "sessions.delete") = false) as (-> & -> & ->).
    { apply elem_of_cons in Hl as [[= -> -> ->]|Hl]; [done|].
      exfalso. repeat (apply elem_of_cons in Hl as [Hl|Hl]; [discriminate Hl|]). by apply elem_of_nil in Hl. }
    destruct (malformed_action params) eqn:Em.
    + rewrite malformed_unregistered by done. cbn [default negb andb].
      rewrite bool_decide_eq_false_2 by (by intros [? ?]). cbn [negb andb].
      destruct (existsb isOperatorScope scopes) eqn:Ee.
      * apply known_scope in Ee. split; [|done]. intros _. right.
        split_and!; try done. by apply bool_decide_eq_true in Ea.
      * split; [done|]. intros [H|[_ H%known_scope]]; [|congruence]. exfalso.
        apply not_true_iff_false in Ee. apply Ee, known_scope.
        apply Forall_singleton in H as [H|[H|[? _]]]; [by exists AdminScope|by exists WriteScope|done].
    + rewrite andb_false_r, missing_grants by done. apply Hor. intros [(_ & _ & [=]) _].
  - apply elem_of_cons in Hl as [[=]|Hl].
    repeat (apply elem_of_cons in Hl as [[= E1 E2 E3]|Hl];
      [rewrite ?E1, ?E2, ?E3, missing_grants by done; apply Hor; intros [(_ & Hm & _) _]; by apply bool_decide_eq_false in Ea|]).
    by apply elem_of_nil in Hl.
Qed.

  (** The grounds on which a call of a connected client is authorised. *)
Definition may_call (connect : ConnectParams) (registered : option GatewayMethodScope) (method : jstr)
    (params : RequestParams) : Prop :=
  let scopes := default [] (cn_scopes connect) in
  (cn_role connect = Some (lit "node") /\ isNodeRoleMethod method = true) \/
  (default (lit "operator") (cn_role connect) = lit "operator" /\ isNodeRoleMethod method = false /\
   (scope_text AdminScope ∈ scopes \/
    Forall (grants scopes) (required_scopes registered method params) \/
    (unnamed_action registered method params /\ exists scope, scope_text scope ∈ scopes))).

Lemma operator_call registered method params scopes :
  scope_text AdminScope ∈ scopes \/
    (match registered with
     | Some (OperatorMethod scope) => authorizeOperatorScopesForRequiredScope scope scopes
     | _ => authorizeOperatorScopesForMethod plugins method scopes params
     end) = ScopeAllowed <->
  scope_text AdminScope ∈ scopes \/
    Forall (grants scopes) (required_scopes registered method params) \/
    (unnamed_action registered method params /\ exists scope, scope_text scope ∈ scopes).
Proof.
  destruct (decide (scope_text AdminScope ∈ scopes)) as [Ha|Ha]; [tauto|].
  assert (forall P Q : Prop, (P <-> Q) ->
    scope_text AdminScope ∈ scopes \/ P <-> scope_text AdminScope ∈ scopes \/ Q) as Hor by tauto.
  apply Hor. destruct registered as [[scope| |]|]; [|by apply method_scopes_grant..].
  cbn. rewrite required_scope_grants, Forall_singleton. tauto.
Qed.
End calls.

Lemma operator_only (A B P R : Prop) : A -> (P <-> R) -> P <-> (B /\ false = true) \/ (A /\ false = false /\ R).
Proof. intros HA ->. split; [by intros HR; right|]. by intros [[_ [=]]|(_ & _ & HR)]. Qed.

(** C7. Exactly which calls are authorised.  A call of a connected client, to a
    method other than [health], passes if and only if the client is a node and
    the method is for nodes, or it is an operator, the method is not for nodes,
    and it has admin, or every scope the method requires for these parameters
    (write standing for read); a session action that names no action passes with
    any known scope, and an unknown method requires admin. *)
Theorem calls_authorized_iff {handler} (plugins : option PluginScopes) method client connect params
    (registry : list (jstr * GatewayMethodDescriptor handler)) :
  gc_connect client = Some connect -> method <> lit "health" ->
  authorizeGatewayMethod plugins method (Some client) params registry = None <->
  may_call plugins connect (getScope method registry) method params.
Proof.
  intros Hc Hm. unfold authorizeGatewayMethod, may_call. cbn [mbind option_bind]. rewrite Hc.
  rewrite bool_decide_eq_false_2 by done. cbv zeta.
  assert (cn_role connect = Some (lit "node") <-> default (lit "operator") (cn_role connect) = lit "node") as ->.
  { destruct (cn_role connect); cbn; [naive_solver|]. split; [done|]. intros E.
    exfalso. revert E. apply (bool_decide_eq_false_1 _). by vm_compute. }
  set (role := default _ (cn_role connect)). unfold parseGatewayRole, isRoleAuthorizedForMethod.
  set (scopes := default [] (cn_scopes connect)).
  case_bool_decide as Eo; [|case_bool_decide as En].
  - assert (role <> lit "node") by (rewrite Eo; apply (bool_decide_eq_false_1 _); by vm_compute).
    rewrite bool_decide_eq_false_2, bool_decide_eq_true_2 by done.
    destruct (isNodeRoleMethod method); cbn [negb].
    { split; [intros [=]|]. intros [[? _]|(_ & [=] & _)]. contradiction. }
    apply (operator_only _ _ _ _ Eo). rewrite <- operator_call.
    destruct (includes scopes AdminScope) eqn:Ea.
    + apply includes_true in Ea. tauto.
    + apply includes_false in Ea.
      destruct (match getScope method registry with Some (OperatorMethod _) => _ | _ => _ end); [tauto|].
      split; [intros [=]|]. by intros [?|[=]].
  - rewrite (bool_decide_eq_true_2 (NodeRole = NodeRole)) by done.
    rewrite (bool_decide_eq_false_2 (NodeRole = OperatorRole)) by done.
    destruct (isNodeRoleMethod method); cbn [negb]; naive_solver.
  - split; [done|]. naive_solver.
Qed.

Definition client_of (role : string) (scopes : list OperatorScope) : GatewayClient := {|
  gc_connect := Some {| cn_role := Some (lit role); cn_scopes := Some (map scope_text scopes);
                        cn_deviceId := VUndefined |};
  gc_clientIp := VUndefined; gc_connId := VUndefined |}.

(** Writing stands for reading; renaming a session needs writing only, and an
    unknown field of its patch admin. *)
Definition some_patch (field : string) : RequestParams := ParamsObject [(lit "key", VString (lit "main")); (lit field, VNull)].

Lemma calls_authorized_iff_witness :
  let call scopes method params :=
    authorizeGatewayMethod (handler := nat) None (lit method) (Some (client_of "operator" scopes)) params [] in
  call [WriteScope] "status"%string ParamsOther = None /\
  call [WriteScope] "sessions.patch"%string (some_patch "label") = None /\
  call [WriteScope] "sessions.patch"%string (some_patch "model") = Some (lit "missing scope: operator.admin") /\
  ~ may_call None {| cn_role := Some (lit "operator"); cn_scopes := Some [scope_text WriteScope];
                     cn_deviceId := VUndefined |} None (lit "sessions.patch") (some_patch "model").
Proof.
  intros call. split_and!.
  - refine (proj2 (calls_authorized_iff None (lit "status") (client_of "operator" [WriteScope]) _ ParamsOther []
      eq_refl _) _); [apply (bool_decide_eq_true_1 _); by vm_compute|].
    right. split_and!; [done|by vm_compute|]. right; left. apply (bool_decide_eq_true_1 _). by vm_compute.
  - by vm_compute.
  - by vm_compute.
  - intros H. apply (calls_authorized_iff (handler := nat) None (lit "sessions.patch")
      (client_of "operator" [WriteScope]) _ (some_patch "model") [] eq_refl) in H;
      [by vm_compute in H|apply (bool_decide_eq_true_1 _); by vm_compute].
Defined.

(** ** The scopes that a client asks for *)

Lemma least_privilege_required plugins method params :
  scope_text AdminScope ∈ map scope_text (resolveLeastPrivilegeOperatorScopesForMethod plugins method params) \/
  resolveLeastPrivilegeOperatorScopesForMethod plugins method params = [] \/
  resolveLeastPrivilegeOperatorScopesForMethod plugins method params = required_scopes plugins None method params.
Proof.
  unfold resolveLeastPrivilegeOperatorScopesForMethod, required_scopes.
  destruct (isDynamicOperatorGatewayMethod method) eqn:Ed.
  - unfold resolveDynamicLeastPrivilegeOperatorScopesForMethod.
    destruct (bool_decide (method = lit "plugins.sessionAction")); [|by right; right].
    unfold resolveSessionActionLeastPrivilegeScopes.
    destruct (resolveSessionActionRegisteredScopes plugins params); [by right; right|]. cbn [default].
    destruct params as [fields|]; [|by right; right].
    destruct (session_action_ids fields); [left|by right; right]. apply elem_of_cons. by left.
  - destruct (resolveRequiredOperatorScopeForMethod plugins method); [by right; right|by right; left].
Qed.

Lemma registered_scopes_nonempty plugins params : resolveSessionActionRegisteredScopes plugins params <> Some [].
Proof.
  destruct params as [fields|]; [|done]. cbn. destruct (session_action_ids fields) as [[? ?]|]; [|done].
  destruct (find_first _ _) as [registration|]; [|done]. cbn.
  by destruct (sa_requiredScopes registration) as [[|]|].
Qed.

Lemma dynamic_least_nonempty plugins method params :
  resolveDynamicLeastPrivilegeOperatorScopesForMethod plugins method params <> [].
Proof.
  unfold resolveDynamicLeastPrivilegeOperatorScopesForMethod, resolveSessionActionLeastPrivilegeScopes.
  pose proof (registered_scopes_nonempty plugins params) as Hne.
  destruct (bool_decide _).
  - destruct (resolveSessionActionRegisteredScopes plugins params); [congruence|].
    destruct params as [fields|]; [|done]. by destruct (session_action_ids fields).
  - unfold resolveSessionsPatchRequiredScopes, resolveSessionsCreateRequiredScopes,
      resolveSessionsDeleteRequiredScopes.
    repeat match goal with |- (if ?b then _ else _) <> _ => destruct b end; try done;
      destruct params as [fields|]; try done; repeat case_match; done.
Qed.

(** The scopes that a client asks for are enough.  The least-privilege
    scopes of a method and its parameters, when there are any, authorise that
    call; a method that has none can only be called with admin. *)
Theorem least_privilege_suffices (plugins : option PluginScopes) method params :
  match resolveLeastPrivilegeOperatorScopesForMethod plugins method params with
  | [] => forall scopes,
      authorizeOperatorScopesForMethod plugins method scopes params = ScopeAllowed <->
      scope_text AdminScope ∈ scopes
  | least => authorizeOperatorScopesForMethod plugins method (map scope_text least) params = ScopeAllowed
  end.
Proof.
  pose proof (least_privilege_required plugins method params) as Hreq.
  destruct (resolveLeastPrivilegeOperatorScopesForMethod plugins method params) as [|s ss] eqn:El.
  - intros scopes. clear Hreq. unfold resolveLeastPrivilegeOperatorScopesForMethod in El.
    destruct (decide (scope_text AdminScope ∈ scopes)) as [Ha|Ha].
    { unfold authorizeOperatorScopesForMethod. by rewrite (proj2 (includes_true _ _) Ha). }
    rewrite method_scopes_grant by done. unfold required_scopes, unnamed_action.
    destruct (isDynamicOperatorGatewayMethod method) eqn:Ed.
    + exfalso. by apply (dynamic_least_nonempty plugins method params).
    + destruct (resolveRequiredOperatorScopeForMethod plugins method); [done|]. cbn [default].
      rewrite Forall_singleton. unfold grants. split; [|tauto]. by intros [[?|[?|[[=] _]]]|[([=] & _) _]].
  - destruct (decide (scope_text AdminScope ∈ map scope_text (s :: ss))) as [Ha|Ha].
    { unfold authorizeOperatorScopesForMethod. by rewrite (proj2 (includes_true _ _) Ha). }
    destruct Hreq as [?|[[=]|Hreq]]; [done|]. apply method_scopes_grant; [done|]. left. rewrite <- Hreq.
    apply Forall_forall. intros scope Hin. right; left.
    change (map scope_text (s :: ss)) with (scope_text <$> (s :: ss)). by apply list_elem_of_fmap_2.
Qed.
