(* ===== verification/GatewayDispatch.v ===== *)
(** * Dispatching requests

    Theorems on [handleGatewayRequest]: a handler runs only past every guard, a
    request that is refused leaves no root work behind and, but for the write
    budget, no trace, and over any sequence of requests the handlers of the
    control plane's writes run a bounded number of times for each client. *)
From S2P Require Import Prelude JsString JsMap Normalization IpAddress FixedWindow WorkAdmission GatewayMethods GatewayRequest.
#[local] Open Scope Z_scope.

(** ** Leases *)

(** A root that is begun and released leaves the work that was active. *)
Lemma release_of_create s : RootInv s ->
  let '((root, closure), s') := createGatewayRootWorkAdmission s in
  activeRootWork (fst (releaseRootWork closure s')) = activeRootWork s.
Proof.
  intros Hinv. unfold createGatewayRootWorkAdmission.
  assert (length (roots s) ∉ activeRootWork s) as Hfresh.
  { intros (root & Hl & _)%(ri_active _ (ri_core _ Hinv)). apply lookup_lt_Some in Hl. lia. }
  unfold releaseRootWork. cbn [closures set_roots roots activeRootWork rc_root].
  rewrite !list_lookup_middle by done. cbn [rc_root rc_leaseReleased released references orb].
  rewrite bool_decide_eq_false_2 by lia.
  assert (List.filter (fun r => negb (bool_decide (r = length (roots s)))) (activeRootWork s ++ [length (roots s)])
    = activeRootWork s) as ->.
  { rewrite List.filter_app. cbn. rewrite bool_decide_eq_true_2 by done. cbn. rewrite app_nil_r.
    apply filter_all. intros r Hr. apply negb_true_iff, bool_decide_eq_false. by intros ->. }
  case_match; done.
Qed.

(** Releasing the lease of an admission. *)
Lemma release_of_begin current s : RootInv s ->
  activeRootWork (release_lease (fst (tryBeginGatewayRootWorkAdmission current s))
    (snd (tryBeginGatewayRootWorkAdmission current s))) = activeRootWork s.
Proof.
  intros Hinv. pose proof (release_of_create s Hinv) as Hrel. unfold tryBeginGatewayRootWorkAdmission.
  destruct (live s current); [done|]. destruct (_ || _ || _); [done|].
  destruct (createGatewayRootWorkAdmission s) as [[root closure] s']. exact Hrel.
Qed.

Lemma release_keeps_inv lease s : RootInv s -> RootInv (release_lease lease s).
Proof. intros Hinv. destruct lease as [[|root closure]|]; [done|by apply release_root|done]. Qed.

(** ** The write budget *)

(** A write that is refused is charged to nobody. *)
Lemma refused_write_free client now buckets :
  cr_allowed (fst (snd (consumeControlPlaneWriteBudget client now buckets))) = false ->
  fst (consumeControlPlaneWriteBudget client now buckets) = buckets.
Proof. unfold consumeControlPlaneWriteBudget. by repeat case_match. Qed.

Section dispatch.
  Context {handler : Type}.
  Context (core : list (jstr * handler)) (active : option (PluginMethods handler)) (plugins : option PluginScopes).
  Implicit Types (opts : GatewayRequestOptions (handler := handler)) (s : GatewayState).

Definition writer opts : option ControlPlaneClient := control_plane_client <$> go_client opts.

Definition is_prepare opts : bool := bool_decide (go_method opts = lit "gateway.suspend.prepare").

  (** The budget after a request whose handler runs. *)
Definition charged opts (r : list (jstr * GatewayMethodDescriptor handler)) (now : Z) (before after : Buckets) : Prop :=
  if isControlPlaneWrite (go_method opts) r
  then consumeControlPlaneWriteBudget (writer opts) now before =
         (after, snd (consumeControlPlaneWriteBudget (writer opts) now before)) /\
       cr_allowed (fst (snd (consumeControlPlaneWriteBudget (writer opts) now before))) = true
  else after = before.

  (** What each reply says of the request and of the state it leaves. *)
Definition reply_spec opts (r : list (jstr * GatewayMethodDescriptor handler)) (now : Z) s s'
    (reply : GatewayReply handler) : Prop :=
  let begun := tryBeginGatewayRootWorkAdmission (go_currentRoot opts) (gs_admission s) in
  match reply with
  | Invoked h lease =>
      authorizeGatewayMethod plugins (go_method opts) (go_client opts) (go_params opts) r = None /\
      go_method opts ∉ go_unavailable opts /\ getHandler (go_method opts) r = Some h /\
      (lease, gs_admission s') = begun /\
      (lease = None -> isGatewayMethodAllowedDuringSuspension (go_method opts) = true) /\
      (is_prepare opts = true -> lease <> Some JoinsRoot) /\
      charged opts r now (gs_buckets s) (gs_buckets s') /\
      activeRootWork (gs_admission (finishGatewayRequest lease s')) = activeRootWork (gs_admission s)
  | BudgetExhausted _ =>
      isControlPlaneWrite (go_method opts) r = true /\ gs_buckets s' = gs_buckets s /\
      activeRootWork (gs_admission s') = activeRootWork (gs_admission s)
  | NestedSuspension =>
      is_prepare opts = true /\ charged opts r now (gs_buckets s) (gs_buckets s') /\
      gs_admission s' = gs_admission s
  | AdmissionClosed _ => fst begun = None /\ s' = s
  | StartupUnavailable => go_method opts ∈ go_unavailable opts /\ s' = s
  | InvalidRequest _ => s' = s
  end.

Lemma reject_write_spec opts r now buckets :
  match snd (reject_write opts r now buckets) with
  | Some _ => isControlPlaneWrite (go_method opts) r = true /\ fst (reject_write opts r now buckets) = buckets
  | None => charged opts r now buckets (fst (reject_write opts r now buckets))
  end.
Proof.
  unfold reject_write, charged. fold (writer opts).
  destruct (isControlPlaneWrite (go_method opts) r); cbn [negb]; [|done].
  pose proof (refused_write_free (writer opts) now buckets) as Hfree.
  destruct (consumeControlPlaneWriteBudget (writer opts) now buckets) as [b [budget key]].
  cbn in *. destruct (cr_allowed budget); cbn; [done|]. split; [done|by apply Hfree].
Qed.

Lemma admit_and_invoke_spec opts r now s s0 reply s' :
  RootInv (gs_admission s) -> gs_admission s0 = gs_admission s ->
  authorizeGatewayMethod plugins (go_method opts) (go_client opts) (go_params opts) r = None ->
  go_method opts ∉ go_unavailable opts ->
  (if is_prepare opts then charged opts r now (gs_buckets s) (gs_buckets s0)
   else gs_buckets s0 = gs_buckets s) ->
  (is_prepare opts = true -> getHandler (go_method opts) r = None -> gs_buckets s0 = gs_buckets s) ->
  admit_and_invoke opts r now s0 = (s', reply) ->
  reply_spec opts r now s s' reply /\ RootInv (gs_admission s').
Proof.
  intros Hinv Hadm Hauth Hun Hb Hnone. unfold admit_and_invoke. fold (is_prepare opts). rewrite Hadm.
  destruct s0 as [adm0 b0]. cbn in Hadm, Hb, Hnone. subst adm0. cbn [gs_buckets].
  destruct (getHandler (go_method opts) r) as [h|] eqn:Eh.
  2: { intros [= <- <-]. split; [|done]. cbn. destruct s as [a b]. cbn in *. f_equal.
       destruct (is_prepare opts); [by apply Hnone|done]. }
  pose proof (release_of_begin (go_currentRoot opts) (gs_admission s) Hinv) as Hrel.
  pose proof (tryRoot_root (go_currentRoot opts) (gs_admission s) Hinv) as Hroot.
  pose proof (tryRoot_none (go_currentRoot opts) (gs_admission s)) as Hnothing.
  destruct (tryBeginGatewayRootWorkAdmission (go_currentRoot opts) (gs_admission s)) as [lease adm] eqn:Et.
  cbn [fst snd] in Hrel, Hroot, Hnothing. cbv zeta. cbn [gs_admission gs_buckets].
  destruct (is_prepare opts) eqn:Ep.
  - assert (isGatewayMethodAllowedDuringSuspension (go_method opts) = true) as Hallow.
    { unfold is_prepare in Ep. apply bool_decide_eq_true in Ep. rewrite Ep. by vm_compute. }
    rewrite Hallow, andb_false_r.
    destruct lease as [[|root closure]|]; intros [= <- <-]; unfold reply_spec; rewrite ?Et;
      (split; [|done]); cbn [gs_admission gs_buckets finishGatewayRequest].
    + split_and!; [done..|]. unfold tryBeginGatewayRootWorkAdmission in Et. destruct (live _ _); [by simplify_eq|].
      destruct (_ || _ || _); [done|]. destruct (createGatewayRootWorkAdmission _) as [[? ?] ?]. by simplify_eq.
    + by split_and!.
    + by split_and!.
  - destruct (negb (bool_decide (is_Some lease)) && negb (isGatewayMethodAllowedDuringSuspension (go_method opts)))
      eqn:Ec.
    { apply andb_true_iff in Ec as [El%negb_true_iff%bool_decide_eq_false%eq_None_not_Some _].
      destruct (Hnothing El) as [-> _]. subst lease. intros [= <- <-]. split; [|done].
      unfold reply_spec. rewrite Et. split; [done|]. destruct s; cbn in *; by subst. }
    pose proof (reject_write_spec opts r now b0) as Hw.
    destruct (reject_write opts r now b0) as [buckets [retry|]]; intros [= <- <-];
      cbn [fst snd] in Hw; unfold reply_spec; rewrite ?Et; cbn [gs_admission gs_buckets finishGatewayRequest].
    + destruct Hw as [? ->]. split; [|by apply release_keeps_inv]. by split_and!.
    + rewrite Hb in Hw. split; [|done]. split_and!; try done; [|by rewrite Ep]. intros ->.
      rewrite bool_decide_eq_false_2 in Ec by (by intros [? ?]).
      by destruct (isGatewayMethodAllowedDuringSuspension (go_method opts)).
Qed.

Lemma request_spec opts now s s' reply :
  RootInv (gs_admission s) ->
  handleGatewayRequest core active plugins opts now s = Some (s', reply) ->
  exists r, request_registry core active opts = Some r /\
    reply_spec opts r now s s' reply /\ RootInv (gs_admission s').
Proof.
  intros Hinv. unfold handleGatewayRequest. destruct (request_registry core active opts) as [r|]; [|done].
  cbn [mbind option_bind]. intros H. exists r. split; [done|].
  destruct (authorizeGatewayMethod _ _ _ _ r) eqn:Ea; [by simplify_eq|].
  case_bool_decide as Eu; [by simplify_eq|]. fold (is_prepare opts) in H. cbv zeta in H.
  pose proof (reject_write_spec opts r now (gs_buckets s)) as Hw.
  destruct (is_prepare opts) eqn:Ep.
  2: { destruct s as [adm b]. cbn [gs_admission gs_buckets] in *. simplify_eq.
       eapply admit_and_invoke_spec; [done|done|done|done| |done|done]. by rewrite Ep. }
  assert (getHandler (go_method opts) r = None -> fst (reject_write opts r now (gs_buckets s)) = gs_buckets s) as Hnone.
  { unfold reject_write, getHandler, isControlPlaneWrite. by destruct (jm_get (go_method opts) r). }
  destruct (reject_write opts r now (gs_buckets s)) as [buckets [retry|]]; cbn [fst snd] in *; simplify_eq.
  - destruct Hw as [? ->]. split; [by split_and!|done].
  - eapply admit_and_invoke_spec; [done| |done|done| | |done]; [done|by rewrite Ep|by intros _].
Qed.
End dispatch.

(** ** Writes over time *)

Section run.
  Context {handler : Type}.
  Context (core : list (jstr * handler)) (active : option (PluginMethods handler)) (plugins : option PluginScopes).
  Implicit Types (opts : GatewayRequestOptions (handler := handler)) (s : GatewayState).

  (** Requests, the ends of their handlers, and prunings. *)
Inductive GatewayEvent :=
  | Serve opts
  | Settle (lease : option Lease)
  | PruneBuckets.

Definition writer_key opts : jstr := resolveControlPlaneRateLimitKey (writer opts).

Definition writes_control opts : bool :=
  match request_registry core active opts with
  | Some r => isControlPlaneWrite (go_method opts) r
  | None => false
  end.

  (** The state after an event, and the client whose write's handler it runs. *)
Definition gateway_step (now : Z) (ev : GatewayEvent) s : GatewayState * option jstr :=
  match ev with
  | Serve opts =>
      match handleGatewayRequest core active plugins opts now s with
      | Some (s', Invoked _ _) => (s', if writes_control opts then Some (writer_key opts) else None)
      | Some (s', _) => (s', None)
      | None => (s, None)
      end
  | Settle lease => (finishGatewayRequest lease s, None)
  | PruneBuckets =>
      ({| gs_admission := gs_admission s; gs_buckets := fst (pruneStaleControlPlaneBuckets now (gs_buckets s)) |},
       None)
  end.

  (** The instants at which handlers of the client's writes ran. *)
Fixpoint write_times (key : jstr) (evs : list (Z * GatewayEvent)) s : list Z :=
    match evs with
    | [] => []
    | (now, ev) :: evs =>
        let '(s, key') := gateway_step now ev s in
        let ts := write_times key evs s in
        if bool_decide (key' = Some key) then now :: ts else ts
    end.

Fixpoint events_ascend (last : Z) (evs : list (Z * GatewayEvent)) : Prop :=
    match evs with
    | [] => True
    | (now, _) :: evs => last <= now /\ events_ascend now evs
    end.

Definition event_key (ev : Z * GatewayEvent) : option jstr :=
  match snd ev with Serve opts => Some (writer_key opts) | _ => None end.

Definition event_keys (evs : list (Z * GatewayEvent)) : list jstr := js_set (omap event_key evs).

  (** The budget sees a request as nothing or as one write. *)
Definition budget_op (now : Z) (ev : GatewayEvent) s : list (Z * ControlPlaneOp) :=
  match ev with
  | Serve opts =>
      match handleGatewayRequest core active plugins opts now s with
      | Some (_, Invoked _ _) | Some (_, NestedSuspension) =>
          if writes_control opts then [(now, CWrite (writer opts))] else []
      | _ => []
      end
  | Settle _ => []
  | PruneBuckets => [(now, CPrune)]
  end.

Fixpoint budget_ops (evs : list (Z * GatewayEvent)) s : list (Z * ControlPlaneOp) :=
    match evs with
    | [] => []
    | (now, ev) :: evs => budget_op now ev s ++ budget_ops evs (fst (gateway_step now ev s))
    end.

Lemma step_root_inv now ev s : RootInv (gs_admission s) -> RootInv (gs_admission (fst (gateway_step now ev s))).
Proof.
  intros Hinv. destruct ev as [opts|lease|]; [|by apply release_keeps_inv|done]. unfold gateway_step.
  destruct (handleGatewayRequest core active plugins opts now s) as [[s' reply]|] eqn:E; [|done].
  destruct (request_spec _ _ _ _ _ _ _ _ Hinv E) as (_ & _ & _ & H). by destruct reply.
Qed.

  (** One event, as the budget sees it. *)
Lemma budget_step key now ev s rest : RootInv (gs_admission s) ->
  let '(s', key') := gateway_step now ev s in
  let '(ts, b) := control_writes key (budget_op now ev s ++ rest) (gs_buckets s) in
  let '(us, b') := control_writes key rest (gs_buckets s') in
  b = b' /\ (ts = us \/ ts = now :: us) /\ (key' = Some key -> ts = now :: us).
Proof.
  intros Hinv. destruct ev as [opts|lease|]; cbn [gateway_step budget_op].
  2: { cbn [app finishGatewayRequest gs_buckets]. destruct (control_writes _ _ _). split_and!; [done|by left|done]. }
  2: { cbn [app control_writes control_step gs_buckets]. destruct (control_writes _ _ _).
       split_and!; [done|by left|done]. }
  destruct (handleGatewayRequest core active plugins opts now s) as [[s' reply]|] eqn:E.
  2: { cbn [app]. destruct (control_writes _ _ _). split_and!; [done|by left|done]. }
  destruct (request_spec _ _ _ _ _ _ _ _ Hinv E) as (r & Hr & Hspec & _).
  assert (forall buckets, buckets = gs_buckets s' -> let '(ts, b) := control_writes key ([] ++ rest) buckets in
    let '(us, b') := control_writes key rest (gs_buckets s') in
    b = b' /\ (ts = us \/ ts = now :: us) /\ (None = Some key -> ts = now :: us)) as Hnone.
  { intros ? ->. cbn [app]. destruct (control_writes _ _ _). split_and!; [done|by left|done]. }
  assert (forall key', (key' = Some key -> writes_control opts = true /\ writer_key opts = key) ->
    charged opts r now (gs_buckets s) (gs_buckets s') ->
    let '(ts, b) := control_writes key
      ((if writes_control opts then [(now, CWrite (writer opts))] else []) ++ rest) (gs_buckets s) in
    let '(us, b') := control_writes key rest (gs_buckets s') in
    b = b' /\ (ts = us \/ ts = now :: us) /\ (key' = Some key -> ts = now :: us)) as Hcharged.
  { intros key' Hkey Hc. unfold charged in Hc. unfold writes_control in *. rewrite Hr in *.
    destruct (isControlPlaneWrite (go_method opts) r).
    - destruct Hc as [Hc Hal]. cbn [app control_writes control_step]. rewrite Hc.
      destruct (consumeControlPlaneWriteBudget (writer opts) now (gs_buckets s)) as [b0 [res k]] eqn:Eb.
      cbn [fst snd] in Hal |- *. rewrite Hal. cbn [andb].
      assert (k = writer_key opts) as ->.
      { unfold writer_key. unfold consumeControlPlaneWriteBudget in Eb. repeat case_match; by simplify_eq. }
      destruct (control_writes key rest (gs_buckets s')) as [us b'].
      case_bool_decide as Ek; split_and!; try done; [by right|by left|]. intros Hk. by apply Hkey in Hk as [_ ?].
    - rewrite <- Hc. cbn [app]. destruct (control_writes _ _ _).
      split_and!; [done|by left|]. intros Hk. by apply Hkey in Hk as [? _]. }
  destruct reply; cbn in Hspec.
  - apply Hnone. by subst.
  - apply Hnone. by destruct Hspec as [_ ->].
  - apply Hnone. by destruct Hspec as (_ & -> & _).
  - apply Hcharged; [done|]. by destruct Hspec as (_ & ? & _).
  - apply Hnone. by destruct Hspec as [_ ->].
  - apply Hcharged; [|by destruct Hspec as (_ & _ & _ & _ & _ & _ & ? & _)].
    destruct (writes_control opts); [|done]. by intros [= ->].
Qed.

  (** The handlers run at some of the instants at which the budget allowed a write. *)
Lemma write_times_allowed key evs s : RootInv (gs_admission s) ->
  write_times key evs s `sublist_of` fst (control_writes key (budget_ops evs s) (gs_buckets s)).
Proof.
  revert s. induction evs as [|[now ev] evs IH]; intros s Hinv; [constructor|]. cbn [write_times budget_ops].
  pose proof (budget_step key now ev s (budget_ops evs (fst (gateway_step now ev s))) Hinv) as Hstep.
  pose proof (step_root_inv now ev s Hinv) as Hinv'.
  destruct (gateway_step now ev s) as [s' key'] eqn:E. cbn [fst] in *. specialize (IH s' Hinv').
  destruct (control_writes key (budget_op now ev s ++ budget_ops evs s') (gs_buckets s)) as [ts b].
  destruct (control_writes key (budget_ops evs s') (gs_buckets s')) as [us b'].
  destruct Hstep as (_ & Hts & Hk). cbn [fst] in *. case_bool_decide as Ek.
  - rewrite (Hk Ek). by constructor.
  - destruct Hts as [->| ->]; [done|by apply sublist_cons].
Qed.

Lemma budget_op_now now ev s op : op ∈ budget_op now ev s ->
  fst op = now /\ forall k, write_key op = Some k -> event_key (now, ev) = Some k.
Proof.
  unfold budget_op. destruct ev as [opts|lease|]; [|by intros ?%elem_of_nil|].
  - destruct (handleGatewayRequest core active plugins opts now s) as [[s' []]|]; try by intros ?%elem_of_nil.
    all: destruct (writes_control opts); [|by intros ?%elem_of_nil].
    all: by intros ->%list_elem_of_singleton.
  - by intros ->%list_elem_of_singleton.
Qed.

Lemma budget_op_ascend now ev s rest : ops_ascend now rest -> ops_ascend now (budget_op now ev s ++ rest).
Proof.
  intros Hr. unfold budget_op. destruct ev as [opts|lease|]; cbn; [|done|done].
  destruct (handleGatewayRequest core active plugins opts now s) as [[s' []]|]; try done;
    destruct (writes_control opts); done.
Qed.

Lemma ops_ascend_le last now ops : last <= now -> ops_ascend now ops -> ops_ascend last ops.
Proof. destruct ops as [|[t op] ops]; [done|]. cbn. intros ? [? ?]. split; [lia|done]. Qed.

Lemma budget_ops_ascend last evs s : events_ascend last evs -> ops_ascend last (budget_ops evs s).
Proof.
  revert last s. induction evs as [|[now ev] evs IH]; intros last s; [done|]. cbn. intros [Hle Hasc].
  eapply ops_ascend_le; [exact Hle|]. by apply budget_op_ascend, IH.
Qed.

Lemma budget_ops_keys evs s op k : op ∈ budget_ops evs s -> write_key op = Some k -> k ∈ event_keys evs.
Proof.
  unfold event_keys. rewrite elem_of_js_set, list_elem_of_omap. revert s.
  induction evs as [|[now ev] evs IH]; intros s Hin Hk; [by apply elem_of_nil in Hin|]. cbn in Hin.
  apply elem_of_app in Hin as [[_ H]%budget_op_now|Hin].
  - exists (now, ev). split; [by left|by apply H].
  - destruct (IH _ Hin Hk) as (ev' & ? & ?). exists ev'. split; [by right|done].
Qed.
End run.

Lemma in_last_sublist window until ts us :
  ts `sublist_of` us -> (length (in_last window until ts) <= length (in_last window until us))%nat.
Proof.
  intros Hs. unfold in_last. induction Hs as [|t ts us _ IH|t ts us _ IH]; [done|..]; cbn;
    destruct ((until - window <? t) && (t <=? until)); cbn; lia.
Qed.

(** C24. The control plane's writes are bounded end to end.  While the clients
    fit the cap, over any requests of a gateway that starts without budgets, with
    handlers ending and budgets pruned in between, the handlers of a client's
    control-plane writes run at most five times in any sixty seconds. *)
Theorem invoked_writes_bounded {handler} (core : list (jstr * handler)) active plugins evs s first until key :
  RootInv (gs_admission s) -> gs_buckets s = [] -> events_ascend first evs ->
  Z.of_nat (length (event_keys evs)) <= CONTROL_PLANE_BUCKET_MAX_ENTRIES ->
  Z.of_nat (length (in_last CONTROL_PLANE_RATE_LIMIT_WINDOW_MS until
    (write_times core active plugins key evs s))) <= 2 * CONTROL_PLANE_RATE_LIMIT_MAX_REQUESTS - 1.
Proof.
  intros Hinv Hb Hasc Hroom.
  pose proof (in_last_sublist CONTROL_PLANE_RATE_LIMIT_WINDOW_MS until _ _
    (write_times_allowed core active plugins key evs s Hinv)) as Hle.
  etransitivity; [apply Nat2Z.inj_le, Hle|]. rewrite Hb.
  apply (control_writes_inv (event_keys evs) (NoDup_js_set _) Hroom key _ first [] []);
    [apply NoDup_nil_2|set_solver|by apply budget_ops_ascend| |].
  - intros op k Hin Hk. by eapply budget_ops_keys.
  - split; [by intros u; vm_compute|constructor].
Qed.

(** C6. Every reply keeps its promise.  Let the root records be consistent.  A
    handler runs only for a request that is authorised, whose method is available
    and registered, which was admitted as root work (or joined the caller's, or
    controls the suspension), and whose write, if it is one of the control
    plane's, fits the budget of its client; when it settles the active work is as
    before.  Any other reply leaves the active work and the budgets as they were,
    suspension apart, which is charged before it is admitted; one that is
    unauthorised, unknown, unavailable or not admitted changes nothing at all. *)
Theorem request_replies {handler} (core : list (jstr * handler)) active plugins opts now s s' reply :
  RootInv (gs_admission s) ->
  handleGatewayRequest core active plugins opts now s = Some (s', reply) ->
  exists r, request_registry core active opts = Some r /\
    reply_spec plugins opts r now s s' reply /\ RootInv (gs_admission s').
Proof. apply request_spec. Qed.

(** An administrator's call of a method. *)
Definition some_call (method : string) : GatewayRequestOptions (handler := nat) := {|
  go_method := lit method; go_params := ParamsOther;
  go_client := Some {| gc_connect := Some {| cn_role := Some (lit "operator");
                                             cn_scopes := Some [scope_text AdminScope];
                                             cn_deviceId := VString (lit "dev-1") |};
                       gc_clientIp := VUndefined; gc_connId := VUndefined |};
  go_methodRegistry := None; go_extraHandlers := []; go_unavailable := [lit "chat.history"];
  go_currentRoot := None |}.

Definition some_handlers : list (jstr * nat) :=
  [(lit "status", 1%nat); (lit "config.apply", 2%nat); (lit "chat.history", 3%nat)].

Definition idle_gateway : GatewayState := {| gs_admission := initial_admission; gs_buckets := [] |}.

Definition suspended_gateway : GatewayState :=
  {| gs_admission := run [BeginSuspend 5] initial_admission; gs_buckets := [] |}.

Lemma request_replies_witness :
  (exists s', handleGatewayRequest some_handlers None None (some_call "status") 7 idle_gateway =
     Some (s', Invoked 1%nat (Some (OwnsRoot 0 0))) /\
     activeRootWork (gs_admission (finishGatewayRequest (Some (OwnsRoot 0 0)) s')) = []) /\
  (exists s', handleGatewayRequest some_handlers None None (some_call "config.apply") 7 suspended_gateway =
     Some (s', AdmissionClosed false) /\ s' = suspended_gateway).
Proof.
  split.
  - destruct (handleGatewayRequest some_handlers None None (some_call "status") 7 idle_gateway)
      as [[s' reply]|] eqn:E; [|by vm_compute in E].
    assert (reply = Invoked 1%nat (Some (OwnsRoot 0 0))) as -> by (vm_compute in E; congruence).
    exists s'. split; [done|].
    destruct (request_replies some_handlers None None (some_call "status") 7 idle_gateway s' _
      (proj2 (reachable_inv _ reachable_initial)) E) as (r & _ & H & _).
    destruct H as (_ & _ & _ & _ & _ & _ & _ & H). exact H.
  - destruct (handleGatewayRequest some_handlers None None (some_call "config.apply") 7 suspended_gateway)
      as [[s' reply]|] eqn:E; [|by vm_compute in E].
    assert (reply = AdmissionClosed false) as -> by (vm_compute in E; congruence).
    exists s'. split; [done|].
    destruct (request_replies some_handlers None None (some_call "config.apply") 7 suspended_gateway s' _
      (proj2 (reachable_inv _ (reachable_step _ (BeginSuspend 5) reachable_initial))) E) as (r & _ & H & _).
    destruct H as [_ H]. exact H.
Defined.

Definition some_writes : list (Z * GatewayEvent (handler := nat)) :=
  (1000, Serve (some_call "config.apply")) :: (2000, Settle (Some (OwnsRoot 0 0))) ::
  (3000, Serve (some_call "status")) :: (4000, PruneBuckets) ::
  map (fun t => (t, Serve (some_call "config.apply"))) [60997; 60998; 60999; 61000; 61001; 61002; 61003].

Lemma invoked_writes_bounded_witness :
  let times := write_times some_handlers None None (writer_key (some_call "config.apply")) some_writes idle_gateway in
  times = [1000; 60997; 60998; 61000; 61001; 61002] /\
  Z.of_nat (length (in_last CONTROL_PLANE_RATE_LIMIT_WINDOW_MS 61003 times)) <= 5.
Proof.
  intros times. split; [by vm_compute|].
  exact (invoked_writes_bounded some_handlers None None some_writes idle_gateway 0 61003
    (writer_key (some_call "config.apply")) (proj2 (reachable_inv _ reachable_initial)) eq_refl
    ltac:(by repeat split) ltac:(by vm_compute)).
Defined.
