(* ===== verification/PairingStore.v ===== *)
(** * The store of paired senders

    [src/pairing/pairing-store.ts], [pairing-store-keys.ts] and
    [pairing-store-sqlite.ts]: requests of unknown senders, the codes that
    approve them, and the lists of approved senders of each account of a channel.

    An operation is one transaction on the tables of the database: [None] is an
    exception, which rolls it back.  The rows of a channel are kept together; the
    metadata of a row is the record its JSON parses to, and [__proto__] is not one
    of its keys.  [Date.parse] outside the interchange format, the adapters of
    channels, locale comparison and the random numbers of a code are arguments;
    an operation reads the clock once, in the years 0 to 9999.  Strings are
    compared by code units, as SQLite compares their bytes. *)
From S2P Require Import Prelude JsString JsMap JsNumber NumberCoercion JsDate Normalization AllowFrom.
#[local] Open Scope Z_scope.

(** ** Keys *)

(** The upper case of a character; of the two whose upper case is outside the
    range, the character itself, which is equal to no other upper case. *)
Definition upperc (c : ascii) : jstr :=
  let n := code c in
  if ((97 <=? n) && (n <=? 122) || (224 <=? n) && (n <=? 254) && negb (n =? 247))%nat
  then [Stdlib.Strings.Ascii.ascii_of_nat (n - 32)]
  else if (n =? 223)%nat then lit "SS" else [c].

Definition toUpperCase (s : jstr) : jstr := concat (map upperc s).

(** The class of characters a key may not have. *)
Definition is_unsafe (c : ascii) : bool :=
  existsb (fun d => is_char d c) (Stdlib.Strings.Ascii.ascii_of_nat 34 :: lit "\/:*?<>|").

(** [.replace(/\.\./g, "_")]. *)
Fixpoint replace_dots (s : jstr) : jstr :=
  match s with
  | c :: r =>
      match r with
      | d :: r' => if is_char "."%char c && is_char "."%char d then "_"%char :: replace_dots r'
                   else c :: replace_dots r
      | [] => [c]
      end
  | [] => []
  end.

Definition normalizePairingKey (value : jstr) : option jstr :=
  let raw := normalizeLowercaseStringOrEmpty (VString value) in
  if negb (truthy raw) then None
  else
    let safe := replace_dots (map (fun c => if is_unsafe c then "_"%char else c) raw) in
    if negb (truthy safe) || bool_decide (safe = lit "_") then None else Some safe.

Definition safeChannelKey (channel : jstr) : option jstr := normalizePairingKey channel.
Definition safeAccountKey (accountId : jstr) : option jstr := normalizePairingKey accountId.

Definition dedupePreserveOrder (entries : list jstr) : list jstr := normalizeUniqueStringEntries entries.

Definition resolveAllowFromAccountId (accountId : option jstr) : jstr :=
  str_or (normalizeLowercaseStringOrEmpty (of_opt accountId)) DEFAULT_ACCOUNT_ID.

(** ** Requests and rows *)

Abbreviation PairingMeta := (list (jstr * jstr)).

Record PairingRequest := {
  pq_id : jstr;
  pq_code : jstr;
  pq_createdAt : jstr;
  pq_lastSeenAt : jstr;
  pq_meta : option PairingMeta;
}.

Record ChannelPairingState := {
  ps_requests : list PairingRequest;
  ps_allowFrom : list (jstr * list jstr);
}.

Record RequestRow := {
  rr_account_id : jstr;
  rr_request_id : jstr;
  rr_code : jstr;
  rr_created_at : jstr;
  rr_last_seen_at : jstr;
  rr_meta : option PairingMeta;
}.

Record AllowRow := { ar_account_id : jstr; ar_entry : jstr; ar_sort_order : nat }.

(** The rows of one channel. *)
Record ChannelRows := { cr_requests : list RequestRow; cr_allow : list AllowRow }.

Definition no_rows : ChannelRows := {| cr_requests := []; cr_allow := [] |}.

Abbreviation PairingTables := (list (jstr * ChannelRows)).

Definition rows_of (channelKey : jstr) (tables : PairingTables) : ChannelRows :=
  default no_rows (jm_get channelKey tables).

Definition accountId_key : jstr := lit "accountId".

Definition meta_account (meta : option PairingMeta) : option jstr := meta ≫= jm_get accountId_key.

Definition normalizePersistedPairingMeta (value : PairingMeta) : option PairingMeta :=
  let out := omap (fun '(key, entry) => (fun e => (key, e)) <$> normalizeOptionalString (VString entry)) value in
  match out with [] => None | _ => Some out end.

Definition resolvePairingRequestAccountId (entry : PairingRequest) : jstr :=
  str_or (resolveAllowFromAccountId (meta_account (pq_meta entry))) DEFAULT_ACCOUNT_ID.

(** Lexicographic order of lists of strings. *)
Fixpoint texts_le (a b : list jstr) : bool :=
  match a, b with
  | [], _ => true
  | _ :: _, [] => false
  | x :: a', y :: b' => if bool_decide (x = y) then texts_le a' b' else jstr_le x y
  end.

Definition request_before (a b : RequestRow) : bool :=
  texts_le [rr_created_at a; rr_account_id a; rr_request_id a]
           [rr_created_at b; rr_account_id b; rr_request_id b].

Definition allow_before (a b : AllowRow) : bool :=
  if bool_decide (ar_account_id a = ar_account_id b) then
    if (ar_sort_order a =? ar_sort_order b)%nat then jstr_le (ar_entry a) (ar_entry b)
    else (ar_sort_order a <? ar_sort_order b)%nat
  else jstr_le (ar_account_id a) (ar_account_id b).

Section store.
  Context (dateParseOther : jstr -> date).

Definition parseTimestamp (value : jstr) : option Z :=
  if truthy value then Date_parse dateParseOther value else None.

Definition normalizePersistedPairingRequest (id code createdAt lastSeenAt : jstr) (meta : option PairingMeta)
    : option PairingRequest :=
  id ← normalizeOptionalString (VString id);
  code ← normalizeOptionalString (VString code);
  createdAt ← normalizeOptionalString (VString createdAt);
  let lastSeenAt := default createdAt (normalizeOptionalString (VString lastSeenAt)) in
  _ ← parseTimestamp createdAt;
  _ ← parseTimestamp lastSeenAt;
  Some {| pq_id := id; pq_code := code; pq_createdAt := createdAt; pq_lastSeenAt := lastSeenAt;
          pq_meta := meta ≫= normalizePersistedPairingMeta |}.

(** ** Reading and writing *)

(** A row as it is read: its column owns the account. *)
Definition read_request (row : RequestRow) : option PairingRequest :=
  let meta := default [] (rr_meta row ≫= normalizePersistedPairingMeta) in
  normalizePersistedPairingRequest (rr_request_id row) (rr_code row) (rr_created_at row) (rr_last_seen_at row)
    (Some (jm_set accountId_key (resolveAllowFromAccountId (Some (rr_account_id row))) meta)).

(** [(allowFrom[accountId] ??= []).push(entry)], which fails on a member every
    object has. *)
Definition push_allow (allowFrom : option (list (jstr * list jstr))) (row : AllowRow)
    : option (list (jstr * list jstr)) :=
  allowFrom ← allowFrom;
  let accountId := resolveAllowFromAccountId (Some (ar_account_id row)) in
  if includes accountId object_members then None
  else Some (jm_set accountId (default [] (jm_get accountId allowFrom) ++ [ar_entry row]) allowFrom).

Definition readChannelPairingStateFromDatabase (tables : PairingTables) (channel : jstr)
    : option ChannelPairingState :=
  channelKey ← safeChannelKey channel;
  let rows := rows_of channelKey tables in
  allowFrom ← fold_left push_allow (stable_sort allow_before (cr_allow rows)) (Some []);
  Some {| ps_requests := omap read_request (stable_sort request_before (cr_requests rows));
          ps_allowFrom := allowFrom |}.

Definition request_row (request : PairingRequest) : RequestRow := {|
  rr_account_id := resolvePairingRequestAccountId request; rr_request_id := pq_id request;
  rr_code := pq_code request; rr_created_at := pq_createdAt request; rr_last_seen_at := pq_lastSeenAt request;
  rr_meta := pq_meta request |}.

(** Insertions fail on a key that is taken. *)
Definition insert_request (rows : option (list RequestRow)) (row : RequestRow) : option (list RequestRow) :=
  rows ← rows;
  if existsb (fun r => bool_decide ((rr_account_id r, rr_request_id r) = (rr_account_id row, rr_request_id row))) rows
  then None else Some (rows ++ [row]).

Definition insert_allow (rows : option (list AllowRow)) (row : AllowRow) : option (list AllowRow) :=
  rows ← rows;
  if existsb (fun r => bool_decide ((ar_account_id r, ar_entry r) = (ar_account_id row, ar_entry row))) rows
  then None else Some (rows ++ [row]).

Definition allow_rows (accountId : jstr) (entries : list jstr) : list AllowRow :=
  let normalizedEntries :=
    dedupePreserveOrder
      (List.filter (fun entry => truthy entry && negb (bool_decide (entry = lit "*")))
         (map (fun entry => default [] (normalizeOptionalString (VString entry))) entries)) in
  imap (fun sortOrder entry => {| ar_account_id := resolveAllowFromAccountId (Some accountId);
                                  ar_entry := entry; ar_sort_order := sortOrder |}) normalizedEntries.

Definition canonical_request (request : PairingRequest) : option PairingRequest :=
  normalizePersistedPairingRequest (pq_id request) (pq_code request) (pq_createdAt request)
    (pq_lastSeenAt request) (pq_meta request).

Definition writeChannelPairingStateToDatabase (tables : PairingTables) (channel : jstr)
    (state : ChannelPairingState) : option PairingTables :=
  channelKey ← safeChannelKey channel;
  requests ← fold_left insert_request (map request_row (omap canonical_request (ps_requests state))) (Some []);
  allow ← fold_left insert_allow
            (concat (map (fun '(accountId, entries) => allow_rows accountId entries) (ps_allowFrom state)))
            (Some []);
  Some (jm_set channelKey {| cr_requests := requests; cr_allow := allow |} tables).

(** ** Pending requests *)

Definition PAIRING_CODE_LENGTH : nat := 8.
Definition PAIRING_CODE_ALPHABET : jstr := lit "ABCDEFGHJKLMNPQRSTUVWXYZ23456789".
Definition PAIRING_CODE_MAX_ATTEMPTS : nat := 500.
Definition PAIRING_PENDING_TTL_MS : Z := 60 * 60 * 1000.
Definition PAIRING_PENDING_MAX : nat := 3.

Definition isExpired (entry : PairingRequest) (nowMs : Z) : bool :=
  match parseTimestamp (pq_createdAt entry) with
  | None => true
  | Some createdAt => PAIRING_PENDING_TTL_MS <? nowMs - createdAt
  end.

(** The requests that are kept, and whether any was removed. *)
Definition pruneExpiredRequests (reqs : list PairingRequest) (nowMs : Z) : list PairingRequest * bool :=
  (List.filter (fun req => negb (isExpired req nowMs)) reqs, existsb (fun req => isExpired req nowMs) reqs).

Definition resolveLastSeenAt (entry : PairingRequest) : Z :=
  match parseTimestamp (pq_lastSeenAt entry) with
  | Some t => t
  | None => default 0 (parseTimestamp (pq_createdAt entry))
  end.

Definition normalizePairingAccountId (accountId : option jstr) : jstr :=
  normalizeLowercaseStringOrEmpty (of_opt accountId).

Definition requestMatchesAccountId (entry : PairingRequest) (normalizedAccountId : jstr) : bool :=
  negb (truthy normalizedAccountId)
    || bool_decide (resolvePairingRequestAccountId entry = normalizedAccountId).

(** The requests of an account beyond [maxPending], the longest unseen first. *)
Definition excess_of (reqs : list (nat * PairingRequest)) (maxPending : nat) (accountId : jstr) : list nat :=
  let entries := List.filter (fun '(_, r) => bool_decide (resolvePairingRequestAccountId r = accountId)) reqs in
  let sorted := stable_sort (fun '(_, a) '(_, b) => resolveLastSeenAt a <=? resolveLastSeenAt b) entries in
  (take (length sorted - maxPending) sorted).*1.

Definition pruneExcessRequestsByAccount (reqs : list PairingRequest) (maxPending : nat)
    : list PairingRequest * bool :=
  if (maxPending =? 0)%nat || (length reqs <=? maxPending)%nat then (reqs, false)
  else
    let indexed := imap pair reqs in
    let accounts := js_set (map resolvePairingRequestAccountId reqs) in
    let droppedIndexes := concat (map (excess_of indexed maxPending) accounts) in
    match droppedIndexes with
    | [] => (reqs, false)
    | _ => ((List.filter (fun '(index, _) => negb (includes index droppedIndexes)) indexed).*2, true)
    end.

(** [randomInt] is the draws of a call, in turn. *)
Definition randomCode (randomInt : nat -> nat) (attempt : nat) : jstr :=
  map (fun i => nth (randomInt (attempt * PAIRING_CODE_LENGTH + i)%nat) PAIRING_CODE_ALPHABET "A"%char)
    (seq 0 PAIRING_CODE_LENGTH).

Definition generateUniqueCode (randomInt : nat -> nat) (existing : list jstr) : option jstr :=
  find_first (fun code => negb (includes code existing))
    (map (randomCode randomInt) (seq 0 PAIRING_CODE_MAX_ATTEMPTS)).

Fixpoint findIndex {A} (p : A -> bool) (l : list A) : option nat :=
  match l with
  | [] => None
  | x :: r => if p x then Some 0%nat else S <$> findIndex p r
  end.

(** ** Allow lists *)

Record ChannelPairingAdapter := {
  pa_normalizeAllowEntry : option (jstr -> jstr);
  pa_resolveApprovalStoreEntry : option (jstr -> option PairingMeta -> option jstr);
}.

  (** [getPairingAdapter]. *)
  Context (getPairingAdapter : jstr -> option ChannelPairingAdapter).

Definition normalizeId (value : list_entry) : jstr := default [] (normalizeOptionalString (VString (text_of value))).

Definition resolvePairingAdapter (channel : jstr) (pairingAdapter : option ChannelPairingAdapter)
    : option ChannelPairingAdapter :=
  match pairingAdapter with Some a => Some a | None => getPairingAdapter channel end.

Definition normalizeAllowEntry (channel entry : jstr) (pairingAdapter : option ChannelPairingAdapter) : jstr :=
  let trimmed := trim entry in
  if negb (truthy trimmed) || bool_decide (trimmed = lit "*") then []
  else
    let normalized :=
      match resolvePairingAdapter channel pairingAdapter ≫= pa_normalizeAllowEntry with
      | Some normalize => normalize trimmed
      | None => trimmed
      end in
    let normalizedEntry := default [] (normalizeOptionalString (VString normalized)) in
    if bool_decide (normalizedEntry = lit "*") then [] else normalizedEntry.

Definition normalizeAllowFromInput (channel : jstr) (entry : list_entry)
    (pairingAdapter : option ChannelPairingAdapter) : jstr :=
  normalizeAllowEntry channel (normalizeId entry) pairingAdapter.

(** [state.allowFrom?.[accountId] ?? []]; a member every object has is no list. *)
Definition allow_list (state : ChannelPairingState) (accountId : jstr) : option (list jstr) :=
  match jm_get accountId (ps_allowFrom state) with
  | Some entries => Some entries
  | None => if includes accountId object_members then None else Some []
  end.

Definition with_requests (requests : list PairingRequest) (state : ChannelPairingState) : ChannelPairingState :=
  {| ps_requests := requests; ps_allowFrom := ps_allowFrom state |}.

Definition with_allow_list (accountId : jstr) (entries : list jstr) (state : ChannelPairingState)
    : ChannelPairingState :=
  {| ps_requests := ps_requests state; ps_allowFrom := jm_set accountId entries (ps_allowFrom state) |}.

(** [readChannelAllowFromStore] and [readChannelAllowFromStoreSync]. *)
Definition readAllowFromState (tables : PairingTables) (channel : jstr) (accountId : option jstr)
    : option (list jstr) :=
  state ← readChannelPairingStateFromDatabase tables channel;
  allow_list state (resolveAllowFromAccountId accountId).

Definition updateAllowFromStoreEntry (tables : PairingTables) (channel : jstr) (entry : list_entry)
    (accountId : option jstr) (pairingAdapter : option ChannelPairingAdapter)
    (apply : list jstr -> jstr -> option (list jstr)) : option (PairingTables * (bool * list jstr)) :=
  let accountId := resolveAllowFromAccountId accountId in
  let normalized := normalizeAllowFromInput channel entry pairingAdapter in
  state ← readChannelPairingStateFromDatabase tables channel;
  current ← allow_list state accountId;
  if negb (truthy normalized) then Some (tables, (false, current))
  else
    match apply current normalized with
    | None => Some (tables, (false, current))
    | Some next =>
        tables ← writeChannelPairingStateToDatabase tables channel (with_allow_list accountId next state);
        Some (tables, (true, next))
    end.

Definition addChannelAllowFromStoreEntry (tables : PairingTables) (channel : jstr) (entry : list_entry)
    (accountId : option jstr) (pairingAdapter : option ChannelPairingAdapter)
    : option (PairingTables * (bool * list jstr)) :=
  updateAllowFromStoreEntry tables channel entry accountId pairingAdapter (fun current normalized =>
    if includes normalized current then None else Some (current ++ [normalized])).

Definition removeChannelAllowFromStoreEntry (tables : PairingTables) (channel : jstr) (entry : list_entry)
    (accountId : option jstr) (pairingAdapter : option ChannelPairingAdapter)
    : option (PairingTables * (bool * list jstr)) :=
  updateAllowFromStoreEntry tables channel entry accountId pairingAdapter (fun current normalized =>
    let next := List.filter (fun entry => negb (bool_decide (entry = normalized))) current in
    if (length next =? length current)%nat then None else Some next).

(** ** Listing, asking, approving *)

Definition listed_before (localeCompare : jstr -> jstr -> Z) (left right : PairingRequest) : bool :=
  let createdOrder := localeCompare (pq_createdAt left) (pq_createdAt right) in
  let accountOrder := localeCompare (resolvePairingRequestAccountId left) (resolvePairingRequestAccountId right) in
  if negb (createdOrder =? 0) then createdOrder <=? 0
  else if negb (accountOrder =? 0) then accountOrder <=? 0
  else localeCompare (pq_id left) (pq_id right) <=? 0.

Definition listChannelPairingRequests (localeCompare : jstr -> jstr -> Z) (tables : PairingTables)
    (channel : jstr) (accountId : option jstr) (now : Z) : option (PairingTables * list PairingRequest) :=
  state ← readChannelPairingStateFromDatabase tables channel;
  let '(live, expired) := pruneExpiredRequests (ps_requests state) now in
  let '(kept, capped) := pruneExcessRequestsByAccount live PAIRING_PENDING_MAX in
  tables ← (if expired || capped
            then writeChannelPairingStateToDatabase tables channel (with_requests kept state) else Some tables);
  let normalizedAccountId := normalizePairingAccountId accountId in
  Some (tables, stable_sort (listed_before localeCompare)
                  (List.filter (fun entry => requestMatchesAccountId entry normalizedAccountId) kept)).

(** The metadata of a call, without the empty values, and with the account. *)
Definition request_meta (meta : option (list (jstr * option jstr))) (accountId : jstr) : PairingMeta :=
  let baseMeta :=
    List.filter (fun '(_, value) => truthy value)
      (map (fun '(key, value) => (key, default [] (normalizeOptionalString (of_opt value)))) (default [] meta)) in
  jm_set accountId_key accountId baseMeta.

Definition upsertChannelPairingRequest (tables : PairingTables) (channel : jstr) (id : list_entry)
    (accountId : jstr) (meta : option (list (jstr * option jstr))) (randomInt : nat -> nat) (nowMs : Z)
    : option (PairingTables * (jstr * bool)) :=
  let now := toISOString nowMs in
  let id := normalizeId id in
  let accountId := str_or (normalizePairingAccountId (Some accountId)) DEFAULT_ACCOUNT_ID in
  let meta := request_meta meta accountId in
  state ← readChannelPairingStateFromDatabase tables channel;
  let '(requests, expired) := pruneExpiredRequests (ps_requests state) nowMs in
  let existingCodes :=
    map (fun request => toUpperCase (default [] (normalizeOptionalString (VString (pq_code request))))) requests in
  match findIndex (fun request => bool_decide (pq_id request = id) && requestMatchesAccountId request accountId)
          requests with
  | Some index =>
      existing ← requests !! index;
      code ← match normalizeOptionalString (VString (pq_code existing)) with
             | Some code => Some code
             | None => generateUniqueCode randomInt existingCodes
             end;
      let requests := <[index := {| pq_id := id; pq_code := code; pq_createdAt := pq_createdAt existing;
                                    pq_lastSeenAt := now; pq_meta := Some meta |}]> requests in
      tables ← writeChannelPairingStateToDatabase tables channel
                 (with_requests (fst (pruneExcessRequestsByAccount requests PAIRING_PENDING_MAX)) state);
      Some (tables, (code, false))
  | None =>
      let '(requests, capped) := pruneExcessRequestsByAccount requests PAIRING_PENDING_MAX in
      let accountRequestCount :=
        length (List.filter (fun request => requestMatchesAccountId request accountId) requests) in
      if (PAIRING_PENDING_MAX <=? accountRequestCount)%nat then
        tables ← (if expired || capped
                  then writeChannelPairingStateToDatabase tables channel (with_requests requests state)
                  else Some tables);
        Some (tables, ([], false))
      else
        code ← generateUniqueCode randomInt existingCodes;
        tables ← writeChannelPairingStateToDatabase tables channel
                   (with_requests (requests ++ [{| pq_id := id; pq_code := code; pq_createdAt := now;
                                                   pq_lastSeenAt := now; pq_meta := Some meta |}]) state);
        Some (tables, (code, true))
  end.

(** What approving a request adds to the list, empty for nothing. *)
Definition approved_entry (channel : jstr) (adapter : option ChannelPairingAdapter) (entry : PairingRequest)
    : jstr :=
  let approvalEntry :=
    match adapter ≫= pa_resolveApprovalStoreEntry with
    | Some resolve => resolve (pq_id entry) (pq_meta entry)
    | None => Some (pq_id entry)
    end in
  match approvalEntry with
  | None => []
  | Some e => normalizeAllowFromInput channel (EText e) adapter
  end.

Definition approveChannelPairingCode (tables : PairingTables) (channel code : jstr) (accountId : option jstr)
    (pairingAdapter : option ChannelPairingAdapter) (nowMs : Z)
    : option (PairingTables * option (jstr * PairingRequest)) :=
  let code := toUpperCase (default [] (normalizeNullableString (VString code))) in
  if negb (truthy code) then Some (tables, None)
  else
    state ← readChannelPairingStateFromDatabase tables channel;
    let '(requests, removed) := pruneExpiredRequests (ps_requests state) nowMs in
    let normalizedAccountId := normalizePairingAccountId accountId in
    match findIndex (fun request => bool_decide (toUpperCase (pq_code request) = code)
                                       && requestMatchesAccountId request normalizedAccountId) requests with
    | None =>
        tables ← (if removed
                  then writeChannelPairingStateToDatabase tables channel (with_requests requests state)
                  else Some tables);
        Some (tables, None)
    | Some index =>
        entry ← requests !! index;
        let state := with_requests (delete index requests) state in
        let allowAccountId :=
          resolveAllowFromAccountId
            (match normalizeOptionalString (of_opt accountId) with
             | Some a => Some a
             | None => normalizeOptionalString (of_opt (meta_account (pq_meta entry)))
             end) in
        let normalizedAllow :=
          approved_entry channel (resolvePairingAdapter channel pairingAdapter) entry in
        state ← (if truthy normalizedAllow then
                   currentAllow ← allow_list state allowAccountId;
                   if includes normalizedAllow currentAllow then Some state
                   else Some (with_allow_list allowAccountId (currentAllow ++ [normalizedAllow]) state)
                 else Some state);
        tables ← writeChannelPairingStateToDatabase tables channel state;
        Some (tables, Some (pq_id entry, entry))
    end.
End store.
