(* ===== verification/PairingFacts.v ===== *)
(** * What the store of paired senders keeps

    The states [PairingStore] writes: canonical requests, whose senders and
    codes are distinct and which are at most three for an account, and lists of
    approved senders without repetition.  A state that was written is the state
    that is read, up to the order of the requests, and pruning a sound state by
    account does nothing. *)
From S2P Require Import Prelude JsString JsMap JsNumber NumberCoercion JsDate CronTime Normalization AllowFrom PairingStore.
#[local] Open Scope Z_scope.

(** ** Times *)

(** The clock, in the years whose dates have four digits. *)
Definition clock_range (t : Z) : Prop := 0 <= t < 253402300800000.

Definition written_time (t : Z) : IsoText := {|
  it_year := year_from_day (day_of t); it_month := month_from_day (day_of t) + 1;
  it_day := date_from_day (day_of t);
  it_clock := Some (ClockMilli (time_within_day t / 3600000) (time_within_day t / 60000 mod 60)
                      (time_within_day t / 1000 mod 60) (time_within_day t mod 1000), UtcZone) |}.

Lemma toISOString_text t : toISOString t = iso_text (written_time t).
Proof.
  unfold toISOString, iso_text, written_time. cbn [it_year it_month it_day it_clock clock_text zone_text].
  by rewrite <- !app_assoc.
Qed.

Lemma clock_year t : clock_range t -> 0 <= year_from_day (day_of t) < 10000.
Proof.
  intros Ht. assert (0 <= day_of t < 2932897) as Hd.
  { unfold clock_range, day_of, ms_per_day in *. Z.to_euclidean_division_equations; lia. }
  pose proof (year_from_day_spec (day_of t)) as Hy. set (y := year_from_day (day_of t)) in *. clearbody y.
  pose proof (day_from_year_bounds y). pose proof (day_from_year_bounds (y + 1)).
  assert (day_from_year 1970 = 0) as E0 by done. assert (day_from_year 10000 = 2932897) as E1 by done.
  split.
  - destruct (decide (0 <= y)) as [|Hn]; [done|]. pose proof (day_from_year_mono y 1970). lia.
  - destruct (decide (y < 10000)) as [|Hn]; [done|]. destruct (decide (y = 10000)) as [->|]; [lia|].
    pose proof (day_from_year_mono 10000 y). pose proof (year_length 10000).
    pose proof (leap_day_cases 10000). lia.
Qed.

Lemma days_in_month_small y m : 0 <= m < 12 -> days_in_month y m <= 31.
Proof.
  intros Hm. unfold days_in_month. destruct (leap_day_cases y) as [-> | ->];
    assert (m = 0 \/ m = 1 \/ m = 2 \/ m = 3 \/ m = 4 \/ m = 5 \/ m = 6 \/ m = 7 \/ m = 8 \/ m = 9
            \/ m = 10 \/ m = 11) as Hc by lia; destruct_or! Hc; subst m; vm_compute; discriminate.
Qed.

(** A printed instant is the instant that is parsed. *)
Lemma Date_parse_toISOString other t : clock_range t -> Date_parse other (toISOString t) = Some t.
Proof.
  intros Ht. unfold Date_parse. rewrite toISOString_text.
  pose proof (clock_year t Ht) as Hy. pose proof (civil_in_range (day_of t)) as [Hm Hd].
  pose proof (days_in_month_small (year_from_day (day_of t)) _ Hm) as Hs.
  destruct (time_fields_range t) as (H1 & H2 & H3 & H4).
  assert (iso_wf (written_time t)) as Hwf.
  { unfold iso_wf, written_time. cbn [it_year it_month it_day it_clock clock_fields]. repeat split; lia. }
  erewrite (parse_iso_text (written_time t)) by (done || reflexivity).
  assert (iso_exists (written_time t) = true) as ->.
  { unfold iso_exists, written_time. cbn [it_year it_month it_day it_clock clock_fields].
    apply andb_true_iff. split.
    - apply date_exists_spec. rewrite Z.add_simpl_r. lia.
    - unfold time_exists. rewrite !(proj2 (Z.ltb_lt _ _)) by lia. done. }
  assert (iso_instant (written_time t) = t) as ->.
  { unfold iso_instant, written_time. cbn [it_year it_month it_day it_clock clock_fields zone_offset].
    rewrite Z.add_simpl_r, make_day_civil. unfold make_date, make_time, day_of, time_within_day, ms_per_day.
    Z.to_euclidean_division_equations; lia. }
  apply time_clip_small. unfold clock_range, MAX_DATE_TIMESTAMP_MS in *. lia.
Qed.

Lemma digit_not_space c : is_digit c = true -> is_space c = false.
Proof.
  unfold is_digit, is_space. intros [H1%Nat.leb_le H2%Nat.leb_le]%andb_true_iff. apply orb_false_iff.
  rewrite orb_false_iff, andb_false_iff, Nat.leb_gt, Nat.leb_gt, !Nat.eqb_neq. lia.
Qed.

Lemma pad_no_space n z : no_space (pad n z).
Proof.
  apply Forall_forall. intros c Hc. apply digit_not_space.
  pose proof (pad_digits n z) as H. rewrite forallb_forall in H. by apply H, list_elem_of_In.
Qed.

(** A printed instant is a text that normalisation keeps. *)
Lemma toISOString_normal t : normal_entry (toISOString t).
Proof.
  split.
  - apply trim_no_space. unfold toISOString. rewrite !no_space_app. split_and!; try apply pad_no_space;
      by repeat constructor.
  - unfold toISOString. intros E. apply (f_equal length) in E. by rewrite length_app, pad_length in E.
Qed.

(** ** Sound states *)

Lemma normalize_normal s : normal_entry s -> normalizeOptionalString (VString s) = Some s.
Proof. intros [Hs Hne]. cbn. rewrite Hs. by destruct s. Qed.

(** The normal form of an account. *)
Definition account_ok (a : jstr) : Prop := fold_str a = a /\ a <> [].

Lemma account_ok_normal a : account_ok a -> normal_entry a.
Proof.
  intros [Ha Hne]. split; [|done]. rewrite <- Ha. unfold fold_str. by rewrite trim_lower, trim_idem.
Qed.

Lemma resolve_account o : resolveAllowFromAccountId o = str_or (fold_str (or_empty o)) DEFAULT_ACCOUNT_ID.
Proof. unfold resolveAllowFromAccountId. by rewrite normalizeLowercaseStringOrEmpty_opt. Qed.

Lemma resolve_account_ok o : account_ok (resolveAllowFromAccountId o).
Proof.
  rewrite resolve_account. destruct (fold_str (or_empty o)) as [|c s] eqn:E; [by vm_compute|].
  cbn [str_or]. rewrite <- E. split; [apply fold_str_idem|]. by rewrite E.
Qed.

Lemma resolve_account_id a : account_ok a -> resolveAllowFromAccountId (Some a) = a.
Proof. intros [Ha Hne]. rewrite resolve_account. change (or_empty (Some a)) with a. by rewrite Ha, str_or_cons. Qed.

(** The metadata of a request of the account [a]. *)
Definition meta_ok (a : jstr) (m : PairingMeta) : Prop :=
  jm_get accountId_key m = Some a /\ jm_all (fun _ value => normal_entry value) m.

Lemma meta_ok_normal a m : meta_ok a m -> normalizePersistedPairingMeta m = Some m.
Proof.
  intros [Ha Hm]. unfold normalizePersistedPairingMeta.
  assert (omap (fun '(key, entry) => (fun e => (key, e)) <$> normalizeOptionalString (VString entry)) m = m) as ->.
  { clear Ha. induction m as [|[k v] m IH]; [done|]. cbn [omap list_omap].
    rewrite normalize_normal by (apply (Hm k); by left). cbn. f_equal. apply IH.
    intros k' v' Hin. apply (Hm k'). by right. }
  by destruct m.
Qed.

(** What identifies a request: its sender, by account and id, and its code. *)
Definition request_key (r : PairingRequest) : jstr * jstr := (resolvePairingRequestAccountId r, pq_id r).
Definition slot (r : PairingRequest) : (jstr * jstr) * jstr := (request_key r, pq_code r).

Record request_ok (r : PairingRequest) : Prop := {
  ok_id : normal_entry (pq_id r);
  ok_code : normal_entry (pq_code r) /\ toUpperCase (pq_code r) = pq_code r;
  ok_created : exists t, clock_range t /\ pq_createdAt r = toISOString t;
  ok_seen : exists t, clock_range t /\ pq_lastSeenAt r = toISOString t;
  ok_meta : exists a m, pq_meta r = Some m /\ account_ok a /\ meta_ok a m;
}.

Lemma request_account r a m : pq_meta r = Some m -> account_ok a -> meta_ok a m ->
  resolvePairingRequestAccountId r = a.
Proof.
  intros E Ha [Hm _]. unfold resolvePairingRequestAccountId, meta_account. rewrite E. cbn [mbind option_bind].
  rewrite Hm, resolve_account_id by done. by destruct Ha, a.
Qed.

Definition sent_by (a : jstr) (s : (jstr * jstr) * jstr) : bool := bool_decide (s.1.1 = a).

Record slots_ok (l : list ((jstr * jstr) * jstr)) : Prop := {
  ok_keys : NoDup l.*1;
  ok_codes : NoDup l.*2;
  ok_cap : forall a, (length (List.filter (sent_by a) l) <= PAIRING_PENDING_MAX)%nat;
}.

Definition allow_entry_ok (e : jstr) : Prop := normal_entry e /\ e <> lit "*".

(** Accounts name no member that every object has, and entries are canonical
    and distinct. *)
Definition list_ok (a : jstr) (l : list jstr) : Prop :=
  account_ok a /\ includes a object_members = false /\ NoDup l /\ Forall allow_entry_ok l.

Record state_ok (st : ChannelPairingState) : Prop := {
  ok_requests : Forall request_ok (ps_requests st);
  ok_slots : slots_ok (slot <$> ps_requests st);
  ok_map : jm_wf (ps_allowFrom st);
  ok_lists : jm_all list_ok (ps_allowFrom st);
}.

Lemma slots_ok_sublist l l' : l' `sublist_of` l -> slots_ok l -> slots_ok l'.
Proof.
  intros Hl [Hk Hc Hn]. split.
  - eapply sublist_NoDup; [exact Hk|by apply fmap_sublist].
  - eapply sublist_NoDup; [exact Hc|by apply fmap_sublist].
  - intros a. etrans; [|apply (Hn a)]. clear -Hl.
    induction Hl as [|x l1 l2 _ IH|x l1 l2 _ IH]; cbn [List.filter]; [done|..];
      destruct (sent_by a x); cbn [length]; lia.
Qed.

Lemma slots_ok_perm l l' : l' ≡ₚ l -> slots_ok l -> slots_ok l'.
Proof.
  intros Hl [Hk Hc Hn]. split.
  - by rewrite Hl.
  - by rewrite Hl.
  - intros a. by rewrite (Permutation_length (filter_perm (sent_by a) _ _ Hl)).
Qed.

Lemma slots_ok_app l s : slots_ok l -> s.1 ∉ l.*1 -> s.2 ∉ l.*2 ->
  (length (List.filter (sent_by s.1.1) l) < PAIRING_PENDING_MAX)%nat -> slots_ok (l ++ [s]).
Proof.
  intros [Hk Hc Hn] H1 H2 H3. split.
  - rewrite fmap_app. apply NoDup_app. split; [done|]. split; [set_solver|apply NoDup_singleton].
  - rewrite fmap_app. apply NoDup_app. split; [done|]. split; [set_solver|apply NoDup_singleton].
  - intros a. rewrite List.filter_app, length_app. cbn [List.filter]. unfold sent_by at 2.
    case_bool_decide as E; [subst a; cbn [length]; lia|]. specialize (Hn a). cbn [length]. lia.
Qed.

Lemma sent_by_requests a l :
  length (List.filter (sent_by a) (slot <$> l))
  = length (List.filter (fun r => bool_decide (resolvePairingRequestAccountId r = a)) l).
Proof.
  induction l as [|r l IH]; [done|]. rewrite fmap_cons. cbn [List.filter].
  change (sent_by a (slot r)) with (bool_decide (resolvePairingRequestAccountId r = a)).
  case_bool_decide; cbn [length]; lia.
Qed.

(** ** Inserting rows *)

(** Inserting rows with distinct keys. *)
Lemma insert_rows {R K} (key : R -> K) (f : option (list R) -> R -> option (list R)) l rows :
  (forall rows row, key row ∉ key <$> rows -> f (Some rows) row = Some (rows ++ [row])) ->
  NoDup (key <$> rows ++ l) -> fold_left f l (Some rows) = Some (rows ++ l).
Proof.
  intros Hf. revert rows. induction l as [|r l IH]; intros rows Hnd; [by rewrite app_nil_r|].
  cbn [fold_left]. rewrite Hf.
  - rewrite IH; rewrite <- app_assoc; done.
  - rewrite fmap_app in Hnd. apply NoDup_app in Hnd as (_ & Hnd & _). intros Hin. apply (Hnd _ Hin). by left.
Qed.

(** ** Writing *)

Definition account_rows (list_of : jstr * list jstr) : list AllowRow :=
  imap (fun i e => {| ar_account_id := list_of.1; ar_entry := e; ar_sort_order := i |}) list_of.2.

(** The rows a state is written to. *)
Definition encode (st : ChannelPairingState) : ChannelRows := {|
  cr_requests := request_row <$> ps_requests st;
  cr_allow := concat (account_rows <$> ps_allowFrom st) |}.

Lemma allow_rows_ok a l : list_ok a l -> allow_rows a l = account_rows (a, l).
Proof.
  intros (Ha & _ & Hnd & Hl). unfold allow_rows, account_rows. rewrite resolve_account_id by done.
  cbn [fst snd]. f_equal.
  assert (map (fun entry => default [] (normalizeOptionalString (VString entry))) l = l) as ->.
  { clear Hnd. induction Hl as [|e l [[He _] _] _ IH]; [done|]. cbn [map]. by rewrite normalized_text, He, IH. }
  rewrite filter_all.
  2:{ intros e He. rewrite Forall_forall in Hl. destruct (Hl e He) as [[_ Hne] Hs].
      rewrite (proj2 (truthy_spec e) Hne). by rewrite bool_decide_eq_false_2. }
  unfold dedupePreserveOrder, normalizeUniqueStringEntries, uniqueStrings.
  rewrite normalizeStringEntries_id by (eapply Forall_impl; [exact Hl|]; by intros e [? _]).
  by apply js_set_NoDup.
Qed.

Lemma account_rows_keys a l :
  (fun r => (ar_account_id r, ar_entry r)) <$> account_rows (a, l) = (fun e => (a, e)) <$> l.
Proof.
  unfold account_rows. rewrite fmap_imap. apply list_eq. intros i. rewrite list_lookup_imap, list_lookup_fmap.
  cbn [snd]. by destruct (l !! i).
Qed.

Lemma encoded_keys m : jm_wf m -> jm_all list_ok m ->
  NoDup ((fun r => (ar_account_id r, ar_entry r)) <$> concat (account_rows <$> m)).
Proof.
  induction m as [|[a l] m IH]; [constructor|]. intros [Ha Hwf]%NoDup_cons Hm.
  rewrite fmap_cons. cbn [concat]. rewrite fmap_app, account_rows_keys. apply NoDup_app. split_and!.
  - apply NoDup_fmap_2; [by intros ?? [= ]|]. by apply (Hm a l); left.
  - intros [a' e] (e' & [= -> ->] & _)%list_elem_of_fmap (r & Hr & Hin)%list_elem_of_fmap.
    apply Ha. rewrite list_elem_of_In in Hin. apply in_concat in Hin as (rows & Hrows & Hin).
    apply list_elem_of_In, list_elem_of_fmap in Hrows as ([a' l'] & -> & Hl').
    apply list_elem_of_In in Hin. unfold account_rows in Hin.
    apply elem_of_lookup_imap in Hin as (i & e & -> & _). cbn in Hr. injection Hr as -> _.
    apply list_elem_of_fmap. by exists (a', l').
  - apply IH; [done|]. intros k v Hin. apply Hm. by right.
Qed.

Section stored.
  Context (other : jstr -> date).

Lemma parse_stamp t : clock_range t -> parseTimestamp other (toISOString t) = Some t.
Proof.
  intros Ht. unfold parseTimestamp. rewrite (proj2 (truthy_spec _) (proj2 (toISOString_normal t))).
  by apply Date_parse_toISOString.
Qed.

Lemma normalize_request id code t u meta : normal_entry id -> normal_entry code -> clock_range t -> clock_range u ->
  normalizePersistedPairingRequest other id code (toISOString t) (toISOString u) meta
  = Some {| pq_id := id; pq_code := code; pq_createdAt := toISOString t; pq_lastSeenAt := toISOString u;
            pq_meta := meta ≫= normalizePersistedPairingMeta |}.
Proof.
  intros Hid Hc Ht Hu. unfold normalizePersistedPairingRequest.
  rewrite (normalize_normal id), (normalize_normal code), !normalize_normal by (done || apply toISOString_normal).
  cbn [mbind option_bind]. rewrite parse_stamp by done. cbn [mbind option_bind].
  change (default ?x (Some ?y)) with y. by rewrite parse_stamp.
Qed.

Lemma canonical_ok r : request_ok r -> canonical_request other r = Some r.
Proof.
  intros [Hid [Hc _] (t & Ht & Et) (u & Hu & Eu) (a & m & Em & Ha & Hm)].
  unfold canonical_request. rewrite Et, Eu, normalize_request, Em by done. cbn [mbind option_bind].
  rewrite (meta_ok_normal a m Hm). destruct r; cbn in *; by subst.
Qed.

Lemma read_request_row r : request_ok r -> read_request other (request_row r) = Some r.
Proof.
  intros [Hid [Hc _] (t & Ht & Et) (u & Hu & Eu) (a & m & Em & Ha & Hm)].
  unfold read_request, request_row. cbn [rr_meta rr_account_id rr_request_id rr_code rr_created_at rr_last_seen_at].
  rewrite Et, Eu, normalize_request, Em by done. cbn [mbind option_bind].
  rewrite (request_account r a m Em Ha Hm), resolve_account_id by done.
  rewrite (meta_ok_normal a m Hm). change (default [] (Some m)) with m. destruct Hm as [Hg Hall].
  rewrite jm_set_same, (meta_ok_normal a m) by done. destruct r; cbn in *; by subst.
Qed.

(** A sound state is written as it is. *)
Lemma write_state tables channel ck st st' : safeChannelKey channel = Some ck -> state_ok st ->
  omap (canonical_request other) (ps_requests st') = ps_requests st -> ps_allowFrom st' = ps_allowFrom st ->
  writeChannelPairingStateToDatabase other tables channel st' = Some (jm_set ck (encode st) tables).
Proof.
  intros Hck [Hr [Hk _ _] Hwf Hl] Er Ea. unfold writeChannelPairingStateToDatabase. rewrite Hck, Er, Ea.
  cbn [mbind option_bind].
  rewrite (insert_rows (fun r => (rr_account_id r, rr_request_id r))).
  - cbn [mbind option_bind app].
    assert (map (fun '(a, l) => allow_rows a l) (ps_allowFrom st) = account_rows <$> ps_allowFrom st) as ->.
    { apply map_ext_in. intros [a l] Hin%list_elem_of_In. by apply allow_rows_ok, Hl. }
    rewrite (insert_rows (fun r => (ar_account_id r, ar_entry r))); [done| |by apply encoded_keys].
    intros rows row Hrow. unfold insert_allow. cbn [mbind option_bind].
    by rewrite (existsb_fresh (fun r => (ar_account_id r, ar_entry r))).
  - intros rows row Hrow. unfold insert_request. cbn [mbind option_bind].
    by rewrite (existsb_fresh (fun r => (rr_account_id r, rr_request_id r))).
  - cbn [app]. eapply (eq_ind _ (@NoDup _)); [exact Hk|].
    clear. induction (ps_requests st) as [|r l IH]; [done|]. cbn. by rewrite IH.
Qed.
End stored.

(** ** Reading *)

Definition entries_of (a : jstr) (st : ChannelPairingState) : list jstr := default [] (jm_get a (ps_allowFrom st)).

(** States with the same requests, in any order, and the same lists. *)
Definition same_state (st st' : ChannelPairingState) : Prop :=
  ps_requests st ≡ₚ ps_requests st' /\ forall a, entries_of a st = entries_of a st'.

#[export] Instance same_state_equiv : Equivalence same_state.
Proof.
  split.
  - by intros st.
  - intros st st' [Hr Ha]. by split.
  - intros st1 st2 st3 [Hr Ha] [Hr' Ha']. split; [by trans (ps_requests st2)|]. intros a. by rewrite Ha.
Qed.

Lemma allow_before_total a b : allow_before a b = true \/ allow_before b a = true.
Proof.
  unfold allow_before. destruct (decide (ar_account_id a = ar_account_id b)) as [E|E].
  - rewrite !bool_decide_eq_true_2 by done. rewrite (Nat.eqb_sym (ar_sort_order b)).
    destruct (Nat.eqb_spec (ar_sort_order a) (ar_sort_order b)); [apply jstr_le_total|].
    rewrite !Nat.ltb_lt. lia.
  - rewrite !bool_decide_eq_false_2 by congruence. apply jstr_le_total.
Qed.

Lemma allow_before_trans a b c : allow_before a b = true -> allow_before b c = true -> allow_before a c = true.
Proof.
  unfold allow_before. intros H1 H2.
  destruct (decide (ar_account_id a = ar_account_id b)) as [E1|E1];
    [rewrite bool_decide_eq_true_2 in H1 by done|rewrite bool_decide_eq_false_2 in H1 by done];
    (destruct (decide (ar_account_id b = ar_account_id c)) as [E2|E2];
    [rewrite bool_decide_eq_true_2 in H2 by done|rewrite bool_decide_eq_false_2 in H2 by done]).
  - rewrite bool_decide_eq_true_2 by congruence.
    destruct (Nat.eqb_spec (ar_sort_order a) (ar_sort_order b)), (Nat.eqb_spec (ar_sort_order b) (ar_sort_order c)),
      (Nat.eqb_spec (ar_sort_order a) (ar_sort_order c));
      rewrite ?Nat.ltb_lt in *; (lia || by eapply jstr_le_trans).
  - by rewrite bool_decide_eq_false_2, E1 by congruence.
  - by rewrite bool_decide_eq_false_2, <- E2 by congruence.
  - destruct (decide (ar_account_id a = ar_account_id c)) as [E|E].
    + destruct E1. rewrite E in H1 |- *. by apply jstr_le_anti.
    + rewrite bool_decide_eq_false_2 by done. by eapply jstr_le_trans.
Qed.

Definition of_account (a : jstr) (r : AllowRow) : bool := bool_decide (ar_account_id r = a).

Lemma account_rows_of a l a' : List.filter (of_account a') (account_rows (a, l))
  = if decide (a = a') then account_rows (a, l) else [].
Proof.
  unfold account_rows. cbn [fst snd].
  assert (Forall (fun r => ar_account_id r = a)
            (imap (fun i e => {| ar_account_id := a; ar_entry := e; ar_sort_order := i |}) l)) as H.
  { apply Forall_forall. by intros r (i & e & -> & _)%elem_of_lookup_imap. }
  destruct (decide (a = a')) as [E|E].
  - apply filter_all. intros r Hr. rewrite Forall_forall in H. apply bool_decide_eq_true. by rewrite H.
  - apply filter_nothing. intros r Hr. rewrite Forall_forall in H. apply bool_decide_eq_false. by rewrite H.
Qed.

(** The rows of an account are its list. *)
Lemma encoded_of a m : jm_wf m ->
  List.filter (of_account a) (concat (account_rows <$> m)) = account_rows (a, default [] (jm_get a m)).
Proof.
  induction m as [|[a' l] m IH]; [done|]. intros [Ha Hwf]%NoDup_cons. rewrite fmap_cons. cbn [concat jm_get].
  rewrite List.filter_app, account_rows_of, IH by done. destruct (decide (a' = a)) as [<-|Hne].
  - rewrite decide_True by done. rewrite (proj2 (jm_get_None a' m) Ha). cbn. by rewrite app_nil_r.
  - by rewrite decide_False by done.
Qed.

Lemma account_rows_sorted a l : StronglySorted (fun x y => allow_before x y = true) (account_rows (a, l)).
Proof.
  cut (forall j, StronglySorted (fun x y => allow_before x y = true)
    (imap (fun i e => {| ar_account_id := a; ar_entry := e; ar_sort_order := (j + i)%nat |}) l)).
  { intros H. exact (H 0%nat). }
  induction l as [|e l IH]; intros j; [constructor|]. rewrite imap_cons. constructor.
  - specialize (IH (S j)). erewrite imap_ext; [exact IH|]. intros i x _. cbn. f_equal. lia.
  - apply Forall_forall. intros r (i & x & -> & _)%elem_of_lookup_imap. unfold allow_before. cbn.
    rewrite bool_decide_eq_true_2 by done. rewrite (proj2 (Nat.eqb_neq _ _)) by lia. apply Nat.ltb_lt. lia.
Qed.

Lemma account_rows_entries a l : ar_entry <$> account_rows (a, l) = l.
Proof.
  unfold account_rows. rewrite fmap_imap. apply list_eq. intros i. rewrite list_lookup_imap. cbn [snd].
  by destruct (l !! i).
Qed.

(** The order of reading keeps the list of an account. *)
Lemma sorted_of a m : jm_wf m ->
  List.filter (of_account a) (stable_sort allow_before (concat (account_rows <$> m)))
  = account_rows (a, default [] (jm_get a m)).
Proof.
  intros Hwf. rewrite <- encoded_of by done. apply (StronglySorted_unique_strong (fun x y => allow_before x y = true)).
  - intros x y [_ Hx%bool_decide_eq_true]%elem_of_filter_bool [_ Hy%bool_decide_eq_true]%elem_of_filter_bool H1 H2.
    unfold allow_before in *. rewrite !bool_decide_eq_true_2 in H1, H2 by congruence.
    rewrite Nat.eqb_sym in H2. destruct (Nat.eqb_spec (ar_sort_order x) (ar_sort_order y)) as [E|E].
    + destruct x, y; cbn in *. f_equal; [congruence|by apply jstr_le_anti|done].
    + apply Nat.ltb_lt in H1, H2. lia.
  - apply sorted_filter, stable_sort_sorted; [apply allow_before_total|apply allow_before_trans].
  - rewrite encoded_of by done. apply account_rows_sorted.
  - apply filter_perm, stable_sort_perm.
Qed.

Lemma push_rows rows m :
  Forall (fun r => account_ok (ar_account_id r) /\ includes (ar_account_id r) object_members = false) rows ->
  jm_wf m ->
  exists m', fold_left push_allow rows (Some m) = Some m' /\ jm_wf m' /\
    (forall a, default [] (jm_get a m')
               = default [] (jm_get a m) ++ (ar_entry <$> List.filter (of_account a) rows)) /\
    (forall a, a ∈ m'.*1 -> a ∈ m.*1 \/ a ∈ ar_account_id <$> rows).
Proof.
  intros Hrows. revert m. induction Hrows as [|r rows [Ha Hm] _ IH]; intros m Hwf.
  { exists m. split_and!; [done|done| |by left]. intros a. by rewrite app_nil_r. }
  cbn [fold_left]. unfold push_allow at 2. cbn [mbind option_bind]. rewrite resolve_account_id, Hm by done.
  edestruct IH as (m' & -> & Hwf' & Hg & Hk); [by apply jm_wf_set|]. exists m'. split_and!; [done|done| |].
  - intros a. rewrite Hg, jm_get_set. cbn [List.filter]. unfold of_account at 2.
    case_decide as E; [subst a|].
    + rewrite bool_decide_eq_true_2 by done. cbn. by rewrite <- app_assoc.
    + by rewrite bool_decide_eq_false_2 by congruence.
  - intros a Hin. destruct (Hk a Hin) as [H|H]; [|right; by right].
    rewrite jm_set_keys in H. case_decide; [by left|]. apply elem_of_app in H as [H|H]; [by left|].
    right. apply list_elem_of_singleton in H as ->. by left.
Qed.

Lemma encoded_row r m : r ∈ concat (account_rows <$> m) -> ar_account_id r ∈ m.*1.
Proof.
  rewrite list_elem_of_In. intros (rows & Hrows%list_elem_of_In & Hin%list_elem_of_In)%in_concat.
  apply list_elem_of_fmap in Hrows as ([a l] & -> & Hl).
  apply elem_of_lookup_imap in Hin as (i & e & -> & _). apply list_elem_of_fmap. by exists (a, l).
Qed.

(** What is stored for a channel. *)
Definition stores (ck : jstr) (tables : PairingTables) (st : ChannelPairingState) : Prop :=
  state_ok st /\ rows_of ck tables = encode st.

(** What is stored is read, as a sound state. *)
Lemma read_state other tables channel ck st : safeChannelKey channel = Some ck -> stores ck tables st ->
  exists st', readChannelPairingStateFromDatabase other tables channel = Some st' /\
    state_ok st' /\ same_state st' st.
Proof.
  intros Hck [[Hr Hs Hwf Hl] Hrows]. unfold readChannelPairingStateFromDatabase. rewrite Hck.
  cbn [mbind option_bind]. rewrite Hrows. cbn [encode cr_requests cr_allow].
  destruct (push_rows (stable_sort allow_before (concat (account_rows <$> ps_allowFrom st))) [])
    as (m & -> & Hm & Hg & Hk); [|constructor|].
  { apply Forall_forall. intros r Hin%elem_of_sort%encoded_row.
    apply list_elem_of_fmap in Hin as ([a l] & -> & Hin). destruct (Hl a l Hin) as (? & ? & _). done. }
  cbn [mbind option_bind]. eexists. split; [done|].
  assert (omap (read_request other) (stable_sort request_before (request_row <$> ps_requests st))
          ≡ₚ ps_requests st) as Hp.
  { rewrite stable_sort_perm. rewrite omap_all; [done|]. intros r Hin. rewrite Forall_forall in Hr.
    by apply read_request_row, Hr. }
  assert (forall a, default [] (jm_get a m) = default [] (jm_get a (ps_allowFrom st))) as He.
  { intros a. rewrite Hg. cbn. by rewrite sorted_of, account_rows_entries by done. }
  split; [|by split]. split; cbn [ps_requests ps_allowFrom].
  - by rewrite Hp.
  - eapply slots_ok_perm; [|exact Hs]. by apply fmap_Permutation.
  - done.
  - intros a l Hin. pose proof (jm_elem_get _ _ _ Hm Hin) as E. specialize (He a). rewrite E in He.
    cbn in He. destruct (Hk a) as [H|H]; [apply list_elem_of_fmap; by exists (a, l)|by apply elem_of_nil in H|].
    apply list_elem_of_fmap in H as (r & -> & H%elem_of_sort%encoded_row).
    destruct (jm_get (ar_account_id r) (ps_allowFrom st)) as [l'|] eqn:E'.
    + subst l. by apply Hl, jm_get_elem.
    + by apply jm_get_None in E'.
Qed.
