(* ===== verification/PairingBook.v ===== *)
(** * The book of paired senders

    What the store of paired senders promises, without rows, texts of times and
    metadata: tickets that wait for approval, and the senders each account has
    admitted.  [book_step] gives the effect and the answer of every operation, the
    failures included, and [perform_refines] shows that the store has no others. *)
From S2P Require Import Prelude JsString JsMap JsNumber NumberCoercion JsDate Normalization AllowFrom PairingStore PairingFacts.
#[local] Open Scope Z_scope.

(** ** Operations *)

Inductive PairingAction :=
  | Ask (id : list_entry) (accountId : jstr) (meta : option (list (jstr * option jstr))) (randomInt : nat -> nat)
  | Approve (code : jstr) (accountId : option jstr) (adapter : option ChannelPairingAdapter)
  | Add (entry : list_entry) (accountId : option jstr) (adapter : option ChannelPairingAdapter)
  | Remove (entry : list_entry) (accountId : option jstr) (adapter : option ChannelPairingAdapter)
  | Listing (accountId : option jstr).

Inductive PairingAnswer :=
  | Asked (code : jstr) (created : bool)
  | Approved (request : option (jstr * PairingRequest))
  | Updated (changed : bool) (allowFrom : list jstr)
  | Listed (requests : list PairingRequest)
  | Failed.

(** An operation on a channel, at the time its clock shows. *)
Record PairingOp := { po_channel : jstr; po_time : Z; po_action : PairingAction }.

Section operations.
  Context (other : jstr -> date) (getPairingAdapter : jstr -> option ChannelPairingAdapter).
  Context (localeCompare : jstr -> jstr -> Z).

(** An operation that throws leaves the tables as they were. *)
Definition answered {A} (tables : PairingTables) (f : A -> PairingAnswer) (r : option (PairingTables * A))
    : PairingTables * PairingAnswer :=
  match r with Some (tables', x) => (tables', f x) | None => (tables, Failed) end.

Definition perform (op : PairingOp) (tables : PairingTables) : PairingTables * PairingAnswer :=
  let channel := po_channel op in
  match po_action op with
  | Ask id accountId meta randomInt =>
      answered tables (fun '(code, created) => Asked code created)
        (upsertChannelPairingRequest other tables channel id accountId meta randomInt (po_time op))
  | Approve code accountId adapter =>
      answered tables Approved
        (approveChannelPairingCode other getPairingAdapter tables channel code accountId adapter (po_time op))
  | Add entry accountId adapter =>
      answered tables (fun '(changed, l) => Updated changed l)
        (addChannelAllowFromStoreEntry other getPairingAdapter tables channel entry accountId adapter)
  | Remove entry accountId adapter =>
      answered tables (fun '(changed, l) => Updated changed l)
        (removeChannelAllowFromStoreEntry other getPairingAdapter tables channel entry accountId adapter)
  | Listing accountId =>
      answered tables Listed
        (listChannelPairingRequests other localeCompare tables channel accountId (po_time op))
  end.

(** ** The book *)

Record Ticket := { tk_account : jstr; tk_sender : jstr; tk_code : jstr; tk_issued : Z }.

Record Book := { bk_tickets : list Ticket; bk_admitted : jstr -> list jstr }.

(** An hour has not passed. *)
Definition fresh (t : Z) (k : Ticket) : bool := negb (PAIRING_PENDING_TTL_MS <? t - tk_issued k).

Definition live (t : Z) (b : Book) : list Ticket := List.filter (fresh t) (bk_tickets b).

Definition waiting (a : jstr) (ks : list Ticket) : nat :=
  length (List.filter (fun k => bool_decide (tk_account k = a)) ks).

Definition holds (a sender : jstr) (k : Ticket) : Prop := tk_account k = a /\ tk_sender k = sender.

Definition ask_account (accountId : jstr) : jstr :=
  str_or (normalizePairingAccountId (Some accountId)) DEFAULT_ACCOUNT_ID.

(** The account that is asked for, where one is. *)
Definition for_account (accountId : option jstr) (a : jstr) : bool :=
  let n := normalizePairingAccountId accountId in negb (truthy n) || bool_decide (a = n).

Definition typed_code (code : jstr) : jstr := toUpperCase (default [] (normalizeNullableString (VString code))).

Definition join_list (e : jstr) (l : list jstr) : list jstr := if truthy e && negb (includes e l) then l ++ [e] else l.

(** Accounts whose list cannot be kept. *)
Definition listless (a : jstr) : bool := includes a object_members.

(** Only the tickets change, to [ks]. *)
Definition becomes (ks : list Ticket) (b b' : Book) : Prop :=
  bk_tickets b' ≡ₚ ks /\ forall a, bk_admitted b' a = bk_admitted b a.

(** Only the list of [a] changes, to [l]. *)
Definition relists (a : jstr) (l : list jstr) (b b' : Book) : Prop :=
  bk_tickets b' ≡ₚ bk_tickets b /\
  forall a', bk_admitted b' a' = if decide (a' = a) then l else bk_admitted b a'.

Definition ticket (r : PairingRequest) : Ticket := {|
  tk_account := resolvePairingRequestAccountId r; tk_sender := pq_id r; tk_code := pq_code r;
  tk_issued := default 0 (parseTimestamp other (pq_createdAt r)) |}.

Definition book_of (st : ChannelPairingState) : Book := {|
  bk_tickets := ticket <$> ps_requests st; bk_admitted := fun a => entries_of a st |}.

(** What approving [r] admits on the channel. *)
Definition admission (channel : jstr) (adapter : option ChannelPairingAdapter) (r : PairingRequest) : jstr :=
  approved_entry getPairingAdapter channel (resolvePairingAdapter getPairingAdapter channel adapter) r.

Definition matches (code : jstr) (accountId : option jstr) (k : Ticket) : bool :=
  bool_decide (tk_code k = typed_code code) && for_account accountId (tk_account k).

(** The operations at the time [t] on a channel. *)
Inductive book_step (channel : jstr) (t : Z) (b b' : Book) : PairingAction -> PairingAnswer -> Prop :=
  | step_known id accountId meta rnd k :
      k ∈ live t b -> holds (ask_account accountId) (normalizeId id) k -> becomes (live t b) b b' ->
      book_step channel t b b' (Ask id accountId meta rnd) (Asked (tk_code k) false)
  | step_full id accountId meta rnd :
      (forall k, k ∈ live t b -> ~ holds (ask_account accountId) (normalizeId id) k) ->
      (PAIRING_PENDING_MAX <= waiting (ask_account accountId) (live t b))%nat -> becomes (live t b) b b' ->
      book_step channel t b b' (Ask id accountId meta rnd) (Asked [] false)
  | step_issued id accountId meta rnd code :
      (forall k, k ∈ live t b -> ~ holds (ask_account accountId) (normalizeId id) k) ->
      (waiting (ask_account accountId) (live t b) < PAIRING_PENDING_MAX)%nat ->
      code ∉ tk_code <$> live t b -> truthy code = true -> toUpperCase code = code ->
      becomes (live t b ++ if truthy (normalizeId id)
                           then [{| tk_account := ask_account accountId; tk_sender := normalizeId id;
                                    tk_code := code; tk_issued := t |}] else []) b b' ->
      book_step channel t b b' (Ask id accountId meta rnd) (Asked code true)
  | step_exhausted id accountId meta rnd :
      (forall k, k ∈ live t b -> ~ holds (ask_account accountId) (normalizeId id) k) ->
      (waiting (ask_account accountId) (live t b) < PAIRING_PENDING_MAX)%nat ->
      (forall attempt, (attempt < PAIRING_CODE_MAX_ATTEMPTS)%nat -> randomCode rnd attempt ∈ tk_code <$> live t b) ->
      becomes (bk_tickets b) b b' ->
      book_step channel t b b' (Ask id accountId meta rnd) Failed
  | step_admitted code accountId adapter r :
      ticket r ∈ live t b -> matches code accountId (ticket r) = true ->
      truthy (admission channel adapter r) && listless (tk_account (ticket r)) = false ->
      live t b ≡ₚ ticket r :: bk_tickets b' ->
      (forall a, bk_admitted b' a = if decide (a = tk_account (ticket r))
                                    then join_list (admission channel adapter r) (bk_admitted b a)
                                    else bk_admitted b a) ->
      book_step channel t b b' (Approve code accountId adapter) (Approved (Some (pq_id r, r)))
  | step_unadmitted code accountId adapter r :
      ticket r ∈ live t b -> matches code accountId (ticket r) = true ->
      truthy (admission channel adapter r) && listless (tk_account (ticket r)) = true ->
      becomes (bk_tickets b) b b' ->
      book_step channel t b b' (Approve code accountId adapter) Failed
  | step_unmatched code accountId adapter :
      truthy (typed_code code) = true -> (forall k, k ∈ live t b -> matches code accountId k = false) ->
      becomes (live t b) b b' ->
      book_step channel t b b' (Approve code accountId adapter) (Approved None)
  | step_blank code accountId adapter :
      truthy (typed_code code) = false -> becomes (bk_tickets b) b b' ->
      book_step channel t b b' (Approve code accountId adapter) (Approved None)
  | step_added entry accountId adapter a e :
      a = resolveAllowFromAccountId accountId -> e = normalizeAllowFromInput getPairingAdapter channel entry adapter ->
      listless a = false -> truthy e = true -> e ∉ bk_admitted b a ->
      relists a (bk_admitted b a ++ [e]) b b' ->
      book_step channel t b b' (Add entry accountId adapter) (Updated true (bk_admitted b a ++ [e]))
  | step_not_added entry accountId adapter a e :
      a = resolveAllowFromAccountId accountId -> e = normalizeAllowFromInput getPairingAdapter channel entry adapter ->
      listless a = false -> (truthy e = true -> e ∈ bk_admitted b a) -> becomes (bk_tickets b) b b' ->
      book_step channel t b b' (Add entry accountId adapter) (Updated false (bk_admitted b a))
  | step_removed entry accountId adapter a e l :
      a = resolveAllowFromAccountId accountId -> e = normalizeAllowFromInput getPairingAdapter channel entry adapter ->
      listless a = false -> truthy e = true -> e ∈ bk_admitted b a ->
      l = List.filter (fun x => negb (bool_decide (x = e))) (bk_admitted b a) -> relists a l b b' ->
      book_step channel t b b' (Remove entry accountId adapter) (Updated true l)
  | step_not_removed entry accountId adapter a e :
      a = resolveAllowFromAccountId accountId -> e = normalizeAllowFromInput getPairingAdapter channel entry adapter ->
      listless a = false -> (truthy e = true -> e ∉ bk_admitted b a) -> becomes (bk_tickets b) b b' ->
      book_step channel t b b' (Remove entry accountId adapter) (Updated false (bk_admitted b a))
  | step_listless_add entry accountId adapter :
      listless (resolveAllowFromAccountId accountId) = true -> becomes (bk_tickets b) b b' ->
      book_step channel t b b' (Add entry accountId adapter) Failed
  | step_listless_remove entry accountId adapter :
      listless (resolveAllowFromAccountId accountId) = true -> becomes (bk_tickets b) b b' ->
      book_step channel t b b' (Remove entry accountId adapter) Failed
  | step_listed accountId requests :
      ticket <$> requests ≡ₚ List.filter (fun k => for_account accountId (tk_account k)) (live t b) ->
      becomes (live t b) b b' ->
      book_step channel t b b' (Listing accountId) (Listed requests).

(** ** Equal books *)

Definition same_book (b b' : Book) : Prop :=
  bk_tickets b ≡ₚ bk_tickets b' /\ forall a, bk_admitted b a = bk_admitted b' a.

#[global] Instance same_book_equiv : Equivalence same_book.
Proof.
  split.
  - by intros b.
  - intros b b' [Hr Ha]. by split.
  - intros b1 b2 b3 [Hr Ha] [Hr' Ha']. split; [by trans (bk_tickets b2)|]. intros a. by rewrite Ha.
Qed.

#[global] Instance live_proper t : Proper (same_book ==> Permutation) (live t).
Proof. intros b b' [Hp _]. by apply filter_perm. Qed.

#[global] Instance book_of_proper : Proper (same_state ==> same_book) book_of.
Proof. intros st st' [Hr Ha]. split; [by apply fmap_Permutation|done]. Qed.

Lemma waiting_perm a ks ks' : ks ≡ₚ ks' -> waiting a ks = waiting a ks'.
Proof. intros H. by apply Permutation_length, filter_perm. Qed.

Lemma becomes_same ks ks' b0 b b' b0' : same_book b0 b -> same_book b0' b' -> ks' ≡ₚ ks ->
  becomes ks b b' -> becomes ks' b0 b0'.
Proof. intros [_ Ha] [Hp' Ha'] Hk [Ht Hb]. split; [by rewrite Hp', Hk|]. intros a. by rewrite Ha', Hb, Ha. Qed.

Lemma relists_same a l b0 b b' b0' : same_book b0 b -> same_book b0' b' -> relists a l b b' -> relists a l b0 b0'.
Proof.
  intros [Hp Ha] [Hp' Ha'] [Ht Hb]. split; [by rewrite Hp', Hp|]. intros a'. by rewrite Ha', Hb, Ha.
Qed.

(** A step depends on the tickets and lists of the books alone. *)
Lemma book_step_same channel t b0 b b' b0' action answer : same_book b0 b -> same_book b0' b' ->
  book_step channel t b b' action answer -> book_step channel t b0 b0' action answer.
Proof.
  intros Hs Hs' Hb. pose proof (live_proper t _ _ Hs) as Hl.
  assert (forall ks ks', ks' ≡ₚ ks -> becomes ks b b' -> becomes ks' b0 b0') as Hbec
    by (intros ks ks'; by apply becomes_same).
  assert (bk_tickets b0 ≡ₚ bk_tickets b) as Ht by apply Hs.
  assert (forall a, bk_admitted b0 a = bk_admitted b a) as Ha by apply Hs.
  destruct Hb.
  - eapply step_known; [by rewrite Hl|done|eauto].
  - eapply step_full; [intros ?; rewrite Hl; eauto|by erewrite waiting_perm|eauto].
  - eapply step_issued; [intros ?; rewrite Hl; eauto|by erewrite waiting_perm|by rewrite Hl|done..|].
    eapply Hbec; [|eassumption]. by rewrite Hl.
  - eapply step_exhausted; [intros ?; rewrite Hl; eauto|by erewrite waiting_perm|intros ?; rewrite Hl; eauto|eauto].
  - eapply step_admitted; [by rewrite Hl|done|done| |].
    + rewrite Hl. destruct Hs' as [-> _]. done.
    + intros a. destruct Hs' as [_ ->]. by rewrite Ha.
  - eapply step_unadmitted; [by rewrite Hl|done|done|eauto].
  - eapply step_unmatched; [done|intros ?; rewrite Hl; eauto|eauto].
  - eapply step_blank; eauto.
  - rewrite <- Ha in *. eapply step_added; eauto using relists_same.
  - rewrite <- Ha in *. eapply step_not_added; eauto.
  - rewrite <- Ha in *. eapply step_removed; eauto using relists_same.
  - rewrite <- Ha in *. eapply step_not_removed; eauto.
  - eapply step_listless_add; eauto.
  - eapply step_listless_remove; eauto.
  - eapply step_listed; [|eauto]. etrans; [eassumption|]. by apply filter_perm.
Qed.
End operations.
