(* ===== verification/PairingRefines.v ===== *)
(** * The store keeps the book

    Every operation of [PairingStore], performed on tables that store a sound
    state, leaves tables that store a sound state, and is a step of the book of
    [PairingBook]. *)
From S2P Require Import Prelude JsString JsMap JsNumber NumberCoercion JsDate Normalization AllowFrom PairingStore PairingFacts PairingBook.
#[local] Open Scope Z_scope.

Lemma findIndex_Some {A} (p : A -> bool) l i : findIndex p l = Some i -> exists x, l !! i = Some x /\ p x = true.
Proof.
  revert i. induction l as [|x l IH]; intros i; [done|]. cbn. destruct (p x) eqn:E; [intros [= <-]; by exists x|].
  destruct (findIndex p l) as [j|]; [|done]. intros [= <-]. by apply IH.
Qed.

Lemma findIndex_None {A} (p : A -> bool) l x : findIndex p l = None -> x ∈ l -> p x = false.
Proof.
  induction l as [|y l IH]; [by intros _ ?%elem_of_nil|]. cbn. destruct (p y) eqn:E; [done|].
  destruct (findIndex p l) eqn:F; [done|]. intros _ [->|H]%elem_of_cons; [done|by apply IH].
Qed.

Section facts.
  Context (other : jstr -> date) (getPairingAdapter : jstr -> option ChannelPairingAdapter).

  Notation ticket := (ticket other).
  Notation book_of := (book_of other).

(** ** Pruning *)

Lemma expired_ticket r t : request_ok r -> isExpired other r t = negb (fresh t (ticket r)).
Proof.
  intros [_ _ (c & Hc & E) _ _]. unfold isExpired, fresh, PairingBook.ticket. cbn [tk_issued].
  rewrite E, parse_stamp by done. change (default 0 (Some c)) with c. by rewrite negb_involutive.
Qed.

Lemma pruned_tickets reqs t : Forall request_ok reqs ->
  ticket <$> (pruneExpiredRequests other reqs t).1 = List.filter (fresh t) (ticket <$> reqs).
Proof.
  intros H. rewrite filter_fmap_list. f_equal. apply filter_ext_in. intros r Hr.
  rewrite Forall_forall in H. rewrite expired_ticket by auto. apply negb_involutive.
Qed.

Lemma pruned_none reqs t : (pruneExpiredRequests other reqs t).2 = false ->
  (pruneExpiredRequests other reqs t).1 = reqs.
Proof.
  intros H. apply filter_all. intros r Hr. apply negb_true_iff. apply not_true_is_false. intros E.
  cbn [pruneExpiredRequests snd] in H. rewrite (proj2 (existsb_exists _ _)) in H; [done|].
  exists r. by rewrite <- list_elem_of_In.
Qed.

(** A sound list of requests is not pruned by account. *)
Lemma excess_none reqs : slots_ok (slot <$> reqs) ->
  pruneExcessRequestsByAccount other reqs PAIRING_PENDING_MAX = (reqs, false).
Proof.
  intros [_ _ Hcap]. unfold pruneExcessRequestsByAccount. destruct (_ || _); [done|].
  assert (concat (map (excess_of other (imap pair reqs) PAIRING_PENDING_MAX)
                    (js_set (map resolvePairingRequestAccountId reqs))) = []) as ->; [|done].
  apply concat_nil_Forall, Forall_forall. intros l Hl.
  apply list_elem_of_In, in_map_iff in Hl as (a & <- & _). unfold excess_of.
  match goal with |- context [stable_sort ?le ?es] => set (entries := es); set (sorted := stable_sort le entries) end.
  assert (length sorted <= PAIRING_PENDING_MAX)%nat as Hlen.
  { unfold sorted. rewrite (Permutation_length (stable_sort_perm _ _)). etrans; [|apply (Hcap a)].
    pose proof (filter_fmap_list (fun r => bool_decide (resolvePairingRequestAccountId r = a)) snd (imap pair reqs)) as F.
    rewrite indexed_snd in F. rewrite sent_by_requests, F, length_fmap.
    unfold entries. apply Nat.eq_le_incl, f_equal, filter_ext_in. by intros [i r] _. }
  by replace (length sorted - PAIRING_PENDING_MAX)%nat with 0%nat by lia.
Qed.

(** ** Changing a sound state *)

Lemma sound_fewer st reqs : state_ok st -> reqs `sublist_of` ps_requests st -> state_ok (with_requests reqs st).
Proof.
  intros [Hr Hs Hm Hl] Hsub. split; [|..|done|done]; cbn [with_requests ps_requests].
  - apply Forall_forall. intros r Hin. rewrite Forall_forall in Hr. apply Hr. by eapply elem_of_sublist.
  - eapply slots_ok_sublist; [|exact Hs]. by apply fmap_sublist.
Qed.

Lemma sound_pruned st t : state_ok st ->
  state_ok (with_requests (pruneExpiredRequests other (ps_requests st) t).1 st).
Proof. intros H. apply sound_fewer; [done|]. apply filter_sublist. Qed.

Lemma with_same_requests st : with_requests (ps_requests st) st = st.
Proof. by destruct st. Qed.

Lemma sound_list st a l : state_ok st -> list_ok a l -> state_ok (with_allow_list a l st).
Proof. intros [Hr Hs Hm Hl] Ha. split; [done|done|by apply jm_wf_set|by apply jm_all_set]. Qed.

Lemma entries_with_list st a l a' :
  entries_of a' (with_allow_list a l st) = if decide (a' = a) then l else entries_of a' st.
Proof. unfold entries_of, with_allow_list. cbn [ps_allowFrom]. rewrite jm_get_set. by case_decide. Qed.

Lemma entries_ok st a : state_ok st -> account_ok a -> listless a = false -> list_ok a (entries_of a st).
Proof.
  intros Hst Ha Hm. unfold entries_of. destruct (jm_get a (ps_allowFrom st)) as [l|] eqn:E.
  - apply (ok_lists st Hst). by apply jm_get_elem.
  - split; [exact Ha|]. split; [exact Hm|]. split; constructor.
Qed.

(** Lists of names that every object has cannot be read. *)
Lemma allow_list_sound st a : state_ok st -> allow_list st a = if listless a then None else Some (entries_of a st).
Proof.
  intros Hst. unfold allow_list, entries_of, listless. destruct (jm_get a (ps_allowFrom st)) as [l|] eqn:E; [|done].
  destruct (ok_lists st Hst a l (jm_get_elem _ _ _ E)) as (_ & -> & _). done.
Qed.

Lemma write_sound tables channel ck st : safeChannelKey channel = Some ck -> state_ok st ->
  writeChannelPairingStateToDatabase other tables channel st = Some (jm_set ck (encode st) tables).
Proof.
  intros Hck Hst. apply write_state; [done|done| |done]. rewrite <- (list_fmap_id (ps_requests st)) at 1.
  apply omap_all. intros r Hr. apply canonical_ok. pose proof (ok_requests st Hst) as H.
  rewrite Forall_forall in H. by apply H.
Qed.

Lemma stores_written ck st tables : state_ok st -> stores ck (jm_set ck (encode st) tables) st.
Proof. intros H. split; [done|]. unfold rows_of. by rewrite jm_get_set_eq. Qed.

(** ** Refinement *)

(** A step on the channel, and on no other. *)
Definition refines (ck channel : jstr) (t : Z) (tables : PairingTables) (st : ChannelPairingState)
    (action : PairingAction) (after : PairingTables * PairingAnswer) : Prop :=
  exists st', stores ck after.1 st' /\
    book_step other getPairingAdapter channel t (book_of st) (book_of st') action after.2 /\
    forall ck', ck' <> ck -> rows_of ck' after.1 = rows_of ck' tables.

Lemma refines_written ck channel t tables st0 st st' action answer :
  same_state st st0 -> state_ok st' ->
  book_step other getPairingAdapter channel t (book_of st) (book_of st') action answer ->
  refines ck channel t tables st0 action (jm_set ck (encode st') tables, answer).
Proof.
  intros Hs Hst' Hb. exists st'. split_and!; [by apply stores_written| |].
  - eapply book_step_same; [| |exact Hb]; [by rewrite Hs|done].
  - intros ck' Hne. unfold rows_of. cbn [fst]. by rewrite jm_get_set_ne.
Qed.

Lemma refines_kept ck channel t tables st0 st st' action answer :
  stores ck tables st0 -> same_state st st0 -> same_state st' st ->
  book_step other getPairingAdapter channel t (book_of st) (book_of st') action answer ->
  refines ck channel t tables st0 action (tables, answer).
Proof.
  intros Hst0 Hs Hs' Hb. exists st0. split_and!; [done| |done].
  eapply book_step_same; [| |exact Hb]; [by rewrite Hs|by rewrite Hs', Hs].
Qed.

(** The pruned requests are written when any was removed. *)
Lemma refines_pruned {A} ck channel t tables st0 st action (f : A -> PairingAnswer) x :
  safeChannelKey channel = Some ck -> stores ck tables st0 -> state_ok st -> same_state st st0 ->
  let pruned := pruneExpiredRequests other (ps_requests st) t in
  let st' := with_requests pruned.1 st in
  book_step other getPairingAdapter channel t (book_of st) (book_of st') action (f x) ->
  refines ck channel t tables st0 action
    (answered tables f
       (tables ← (if pruned.2 then writeChannelPairingStateToDatabase other tables channel st' else Some tables);
        Some (tables, x))).
Proof.
  intros Hck Hst0 Hst Hs pruned st' Hb. destruct pruned.2 eqn:E.
  - rewrite (write_sound _ _ ck) by (done || by apply sound_pruned). cbn [mbind option_bind answered].
    eapply refines_written; [exact Hs|by apply sound_pruned|exact Hb].
  - cbn [mbind option_bind answered]. eapply refines_kept; [done..| |exact Hb].
    subst st' pruned. by rewrite pruned_none, with_same_requests.
Qed.

Lemma pruned_becomes st t : state_ok st ->
  becomes (live t (book_of st)) (book_of st)
    (book_of (with_requests (pruneExpiredRequests other (ps_requests st) t).1 st)).
Proof.
  intros Hst. split; [|done]. unfold live. cbn [PairingBook.book_of bk_tickets].
  by rewrite <- pruned_tickets by apply Hst.
Qed.

Lemma live_pruned st t : state_ok st ->
  live t (book_of st) = ticket <$> (pruneExpiredRequests other (ps_requests st) t).1.
Proof. intros Hst. symmetry. apply pruned_tickets, Hst. Qed.

(** ** Operations *)

Context (localeCompare : jstr -> jstr -> Z).

Notation perform := (perform other getPairingAdapter localeCompare).

Lemma listing_refines ck channel t tables st0 accountId :
  safeChannelKey channel = Some ck -> stores ck tables st0 ->
  refines ck channel t tables st0 (Listing accountId)
    (perform {| po_channel := channel; po_time := t; po_action := Listing accountId |} tables).
Proof.
  intros Hck Hst0. destruct (read_state other tables channel ck st0 Hck Hst0) as (st & Hread & Hst & Hs).
  unfold PairingBook.perform, listChannelPairingRequests. cbn [po_channel po_time po_action].
  rewrite Hread. cbn [mbind option_bind].
  rewrite (surjective_pairing (pruneExpiredRequests _ _ _)).
  rewrite excess_none by apply (sound_pruned st t Hst). rewrite orb_false_r.
  apply refines_pruned; [done..|]. eapply step_listed; [|by apply pruned_becomes].
  rewrite (live_pruned st t Hst), filter_fmap_list. apply fmap_Permutation. etrans; [apply stable_sort_perm|].
  done.
Qed.

Lemma allow_entry channel entry adapter e :
  e = normalizeAllowFromInput getPairingAdapter channel entry adapter -> truthy e = true -> allow_entry_ok e.
Proof.
  intros -> Ht. revert Ht. unfold normalizeAllowFromInput, normalizeAllowEntry. destruct (_ || _); [done|].
  match goal with |- context [normalizeOptionalString (VString ?x)] => set (n := x) end.
  rewrite normalized_text. case_bool_decide as E; [done|]. intros Ht. split; [|done].
  split; [apply trim_idem|by apply truthy_spec].
Qed.

(** An update of a list, by what it makes of the list that is read. *)
Lemma update_refines ck channel t tables st0 action entry accountId adapter apply :
  safeChannelKey channel = Some ck -> stores ck tables st0 ->
  let a := resolveAllowFromAccountId accountId in
  let e := normalizeAllowFromInput getPairingAdapter channel entry adapter in
  (forall b b', listless a = true -> becomes (bk_tickets b) b b' ->
     book_step other getPairingAdapter channel t b b' action Failed) ->
  (forall b b', listless a = false -> (truthy e = true -> apply (bk_admitted b a) e = None) ->
     becomes (bk_tickets b) b b' ->
     book_step other getPairingAdapter channel t b b' action (Updated false (bk_admitted b a))) ->
  (forall b b' l, listless a = false -> truthy e = true -> apply (bk_admitted b a) e = Some l ->
     relists a l b b' ->
     book_step other getPairingAdapter channel t b b' action (Updated true l)) ->
  (forall l l', NoDup l -> Forall allow_entry_ok l -> allow_entry_ok e -> apply l e = Some l' ->
     NoDup l' /\ Forall allow_entry_ok l') ->
  refines ck channel t tables st0 action
    (answered tables (fun '(changed, l) => Updated changed l)
       (updateAllowFromStoreEntry other getPairingAdapter tables channel entry accountId adapter apply)).
Proof.
  intros Hck Hst0 a e Hfail Hkeep Hchange Hlist.
  destruct (read_state other tables channel ck st0 Hck Hst0) as (st & Hread & Hst & Hs).
  unfold updateAllowFromStoreEntry. fold a e. rewrite Hread. cbn [mbind option_bind].
  rewrite allow_list_sound by done. destruct (listless a) eqn:Em; cbn [mbind option_bind].
  { eapply refines_kept; [done|exact Hs|reflexivity|]. by apply Hfail. }
  change (entries_of a st) with (bk_admitted (book_of st) a).
  destruct (truthy e) eqn:Ee; cbn [negb].
  2:{ eapply refines_kept; [done|exact Hs|reflexivity|]. by apply Hkeep. }
  destruct (apply (bk_admitted (book_of st) a) e) as [l|] eqn:Ea.
  2:{ eapply refines_kept; [done|exact Hs|reflexivity|]. by apply Hkeep. }
  assert (state_ok (with_allow_list a l st)) as Hst'.
  { apply sound_list; [done|]. destruct (entries_ok st a Hst (resolve_account_ok _) Em) as (H1 & H2 & H3 & H4).
    destruct (Hlist _ l H3 H4) as [H5 H6]; [by eapply allow_entry|done|]. done. }
  rewrite (write_sound _ _ ck) by done. cbn [mbind option_bind].
  eapply refines_written; [exact Hs|exact Hst'|]. apply Hchange; [done..|]. split; [done|].
  intros a'. apply entries_with_list.
Qed.

Lemma add_refines ck channel t tables st0 entry accountId adapter :
  safeChannelKey channel = Some ck -> stores ck tables st0 ->
  refines ck channel t tables st0 (Add entry accountId adapter)
    (perform {| po_channel := channel; po_time := t; po_action := Add entry accountId adapter |} tables).
Proof.
  intros Hck Hst0. apply update_refines; [done|done|..].
  - intros. by apply step_listless_add.
  - intros b b' Hm Hn Hb. eapply step_not_added; [done..| |done]. intros He. specialize (Hn He).
    destruct (includes _ _) eqn:E; [by apply includes_spec|done].
  - intros b b' l Hm He Hl Hb. destruct (includes _ _) eqn:E; [done|]. injection Hl as <-.
    eapply step_added; [done..| |done]. by apply bool_decide_eq_false in E.
  - intros l l' Hnd Hf He. destruct (includes _ _) eqn:E; [done|]. intros [= <-]. split.
    + apply NoDup_app. split; [done|]. split; [|apply NoDup_singleton].
      apply bool_decide_eq_false in E. set_solver.
    + apply Forall_app. by split; [|constructor].
Qed.

Lemma filter_length_lt {A} (p : A -> bool) l :
  (length (List.filter p l) =? length l)%nat = false <-> exists x, x ∈ l /\ p x = false.
Proof.
  rewrite Nat.eqb_neq. split.
  - intros H. destruct (forallb p l) eqn:E.
    + destruct H. rewrite filter_all; [done|]. rewrite forallb_forall in E. intros x Hx.
      by apply E, list_elem_of_In.
    + clear H. induction l as [|x l IH]; [done|]. cbn in E. apply andb_false_iff in E as [E|E].
      * exists x. split; [by left|done].
      * destruct (IH E) as (y & ? & ?). exists y. split; [by right|done].
  - intros (x & Hx & E). pose proof (filter_split_perm p l) as Hp. apply Permutation_length in Hp.
    rewrite length_app in Hp.
    assert (x ∈ List.filter (fun y => negb (p y)) l) as Hin by (apply elem_of_filter_bool; by rewrite E).
    destruct (List.filter (fun y => negb (p y)) l); [by apply elem_of_nil in Hin|]. cbn in Hp. lia.
Qed.

Lemma removal (l : list jstr) (e : jstr) :
  (let next := List.filter (fun entry => negb (bool_decide (entry = e))) l in
   if (length next =? length l)%nat then None else Some next)
  = if includes e l then Some (List.filter (fun entry => negb (bool_decide (entry = e))) l) else None.
Proof.
  cbv zeta. destruct (includes e l) eqn:E.
  - apply includes_spec in E. rewrite (proj2 (filter_length_lt _ _)); [done|]. exists e.
    by rewrite bool_decide_eq_true_2.
  - rewrite filter_all, Nat.eqb_refl; [done|]. intros x Hx. apply negb_true_iff, bool_decide_eq_false.
    intros ->. by apply includes_spec in Hx; rewrite E in Hx.
Qed.

Lemma remove_refines ck channel t tables st0 entry accountId adapter :
  safeChannelKey channel = Some ck -> stores ck tables st0 ->
  refines ck channel t tables st0 (Remove entry accountId adapter)
    (perform {| po_channel := channel; po_time := t; po_action := Remove entry accountId adapter |} tables).
Proof.
  intros Hck Hst0. apply update_refines; [done|done|..]; cbn [po_channel].
  - intros. by apply step_listless_remove.
  - intros b b' Hm Hn Hb. eapply step_not_removed; [done..| |done]. intros He Hin. specialize (Hn He).
    rewrite removal in Hn. apply includes_spec in Hin. by rewrite Hin in Hn.
  - intros b b' l Hm He Hl Hb. rewrite removal in Hl. destruct (includes _ _) eqn:E; [|done]. injection Hl as <-.
    apply includes_spec in E. by eapply step_removed.
  - intros l l' Hnd Hf He. rewrite removal. destruct (includes _ _); [|done]. intros [= <-]. split.
    + eapply sublist_NoDup; [exact Hnd|apply filter_sublist].
    + by apply Forall_filter_list.
Qed.

(** ** Approving *)

(** A request of the account that is asked for is approved for its own. *)
Lemma approval_account r accountId : request_ok r ->
  for_account accountId (resolvePairingRequestAccountId r) = true ->
  resolveAllowFromAccountId
    (match normalizeOptionalString (of_opt accountId) with
     | Some a => Some a
     | None => normalizeOptionalString (of_opt (meta_account (pq_meta r)))
     end) = resolvePairingRequestAccountId r.
Proof.
  intros [_ _ _ _ (a & m & Em & Ha & Hm)]. rewrite (request_account r a m) by done.
  unfold for_account, normalizePairingAccountId. rewrite normalizeLowercaseStringOrEmpty_opt.
  assert (meta_account (pq_meta r) = Some a) as -> by (rewrite Em; apply Hm).
  assert (normalizeOptionalString (of_opt (Some a)) = Some a) as -> by (by apply normalize_normal, account_ok_normal).
  destruct accountId as [s|]; cbn [of_opt]; [|intros _; by apply resolve_account_id].
  rewrite normalizeOptionalString_string. unfold non_empty. change (or_empty (Some s)) with s.
  destruct (trim s) as [|c x] eqn:Ex; [intros _; by apply resolve_account_id|].
  rewrite <- Ex. rewrite resolve_account. change (or_empty (Some (trim s))) with (trim s). rewrite fold_str_trim.
  assert (fold_str s <> []) as Hne by (unfold fold_str; by rewrite lower_nil, Ex).
  rewrite (proj2 (truthy_spec _) Hne), str_or_cons by done. cbn [negb orb].
  by intros ->%bool_decide_eq_true.
Qed.

Lemma matches_request r code accountId : request_ok r ->
  bool_decide (toUpperCase (pq_code r) = typed_code code)
    && requestMatchesAccountId r (normalizePairingAccountId accountId) = matches code accountId (ticket r).
Proof. intros [_ [_ Hu] _ _ _]. by rewrite Hu. Qed.

Lemma admission_ok channel adapter r : truthy (admission getPairingAdapter channel adapter r) = true ->
  allow_entry_ok (admission getPairingAdapter channel adapter r).
Proof.
  unfold admission, approved_entry.
  match goal with |- context [match ?x with Some e => _ | None => _ end] => destruct x as [e|] end; [|done].
  by eapply allow_entry.
Qed.

(** The list an approval writes. *)
Definition admitted (st : ChannelPairingState) (a e : jstr) : option ChannelPairingState :=
  if truthy e then
    currentAllow ← allow_list st a;
    if includes e currentAllow then Some st else Some (with_allow_list a (currentAllow ++ [e]) st)
  else Some st.

Lemma listless_state st a e : state_ok st -> truthy e && listless a = true -> admitted st a e = None.
Proof.
  intros Hst [He Ha]%andb_true_iff. unfold admitted. by rewrite He, allow_list_sound, Ha by done.
Qed.

Lemma admitted_state st a e : state_ok st -> account_ok a -> (truthy e = true -> allow_entry_ok e) ->
  truthy e && listless a = false ->
  exists st', admitted st a e = Some st' /\ state_ok st' /\ ps_requests st' = ps_requests st /\
    forall a', entries_of a' st' = if decide (a' = a) then join_list e (entries_of a' st) else entries_of a' st.
Proof.
  intros Hst Ha He Hl. unfold admitted, join_list. destruct (truthy e).
  2:{ exists st. split_and!; [done..|]. intros a'. by case_decide. }
  cbn [andb] in Hl. rewrite allow_list_sound, Hl by done. cbn [mbind option_bind andb].
  destruct (includes e (entries_of a st)) eqn:Ei.
  - exists st. split_and!; [done..|]. intros a'. case_decide as E; [|done]. subst a'. by rewrite Ei.
  - eexists. split_and!; [reflexivity| |done|].
    + destruct (entries_ok st a Hst Ha Hl) as (_ & _ & Hnd & Hf). apply sound_list; [done|].
      split; [done|]. split; [done|]. apply bool_decide_eq_false in Ei. split.
      * apply NoDup_app. split; [done|]. split; [set_solver|apply NoDup_singleton].
      * apply Forall_app. split; [done|]. constructor; [by apply He|constructor].
    + intros a'. rewrite entries_with_list. case_decide as E; [|done]. subst a'. by rewrite Ei.
Qed.

Lemma approve_refines ck channel t tables st0 code accountId adapter :
  safeChannelKey channel = Some ck -> stores ck tables st0 ->
  refines ck channel t tables st0 (Approve code accountId adapter)
    (perform {| po_channel := channel; po_time := t; po_action := Approve code accountId adapter |} tables).
Proof.
  intros Hck Hst0. destruct (read_state other tables channel ck st0 Hck Hst0) as (st & Hread & Hst & Hs).
  unfold PairingBook.perform, approveChannelPairingCode. cbn [po_channel po_time po_action].
  fold (typed_code code). destruct (truthy (typed_code code)) eqn:Et; cbn [negb].
  2:{ eapply refines_kept; [done|exact Hs|reflexivity|]. by apply step_blank. }
  rewrite Hread. cbn [mbind option_bind]. rewrite (surjective_pairing (pruneExpiredRequests _ _ _)).
  pose proof (sound_pruned st t Hst) as Hst1.
  assert (Forall request_ok (pruneExpiredRequests other (ps_requests st) t).1) as Hok by apply Hst1.
  rewrite Forall_forall in Hok.
  destruct (findIndex _ _) as [i|] eqn:Ei.
  2:{ apply refines_pruned; [done..|]. apply step_unmatched; [done| |by apply pruned_becomes].
      rewrite live_pruned by done. intros k (r & -> & Hr)%list_elem_of_fmap.
      rewrite <- matches_request by auto. apply (findIndex_None _ _ _ Ei Hr). }
  apply findIndex_Some in Ei as (r & Er & Hm). rewrite Er. cbn [mbind option_bind].
  assert (request_ok r) as Hr by (apply Hok; by eapply list_elem_of_lookup_2).
  rewrite matches_request in Hm by done. pose proof Hm as [Hc Hacc]%andb_true_iff.
  rewrite approval_account by done. fold (admission getPairingAdapter channel adapter r).
  set (e := admission getPairingAdapter channel adapter r). set (a := resolvePairingRequestAccountId r).
  set (reqs := (pruneExpiredRequests other (ps_requests st) t).1) in *.
  assert (state_ok (with_requests (delete i reqs) st)) as Hst2.
  { apply sound_fewer; [done|]. etrans; [apply sublist_delete|apply filter_sublist]. }
  assert (ticket r ∈ live t (book_of st)) as Hlive.
  { rewrite live_pruned by done. apply list_elem_of_fmap_2. by eapply list_elem_of_lookup_2. }
  assert (live t (book_of st) ≡ₚ ticket r :: (ticket <$> delete i reqs)) as Hperm.
  { rewrite live_pruned by done. fold reqs. by rewrite (delete_Permutation reqs i r Er) at 1. }
  match goal with |- context [?x ≫= fun state => _] => change x with (admitted (with_requests (delete i reqs) st) a e) end.
  destruct (truthy e && listless a) eqn:El.
  { rewrite listless_state by done. cbn [mbind option_bind answered].
    eapply refines_kept; [done|exact Hs|reflexivity|]. by eapply step_unadmitted. }
  destruct (admitted_state (with_requests (delete i reqs) st) a e) as (st3 & -> & Hst3 & Er3 & He3); [done| | |done|].
  { destruct Hr as [_ _ _ _ (a' & m & Em & Ha' & Hm')]. unfold a. by rewrite (request_account r a' m). }
  { apply admission_ok. }
  cbn [mbind option_bind]. rewrite (write_sound _ _ ck) by done. cbn [mbind option_bind answered].
  eapply refines_written; [exact Hs|exact Hst3|]. eapply step_admitted; [done..| |exact He3].
  rewrite Hperm. unfold book_of. cbn [bk_tickets]. by rewrite Er3.
Qed.

(** ** Asking *)

Lemma ask_account_eq accountId : ask_account accountId = resolveAllowFromAccountId (Some accountId).
Proof.
  unfold ask_account, normalizePairingAccountId. rewrite resolve_account.
  by rewrite normalizeLowercaseStringOrEmpty_opt.
Qed.

Lemma ask_account_ok accountId : account_ok (ask_account accountId).
Proof. rewrite ask_account_eq. apply resolve_account_ok. Qed.

Lemma request_meta_ok meta a : account_ok a -> meta_ok a (request_meta meta a).
Proof.
  intros Ha. split; [apply jm_get_set_eq|]. apply jm_all_set; [|by apply account_ok_normal].
  intros k v [Hin Hv]%elem_of_filter_bool. apply list_elem_of_In, in_map_iff in Hin as ([k' v'] & [= <- <-] & _).
  destruct v' as [x|]; [|done]. cbn [of_opt] in *. rewrite normalized_text in *.
  split; [apply trim_idem|by apply truthy_spec].
Qed.

Lemma code_chars rnd attempt : Forall (fun c => is_space c = false /\ upperc c = [c]) (randomCode rnd attempt).
Proof.
  assert (Forall (fun c => is_space c = false /\ upperc c = [c]) PAIRING_CODE_ALPHABET) as H.
  { apply Forall_forall. intros c Hc. vm_compute in Hc.
    repeat (apply elem_of_cons in Hc as [->|Hc]; [by vm_compute|]). by apply elem_of_nil in Hc. }
  unfold randomCode. apply Forall_forall. intros c Hc. apply list_elem_of_In, in_map_iff in Hc as (i & <- & _).
  rewrite Forall_forall in H. destruct (nth_in_or_default (rnd (attempt * PAIRING_CODE_LENGTH + i)%nat)
    PAIRING_CODE_ALPHABET "A"%char) as [Hin|E]; [by apply H, list_elem_of_In|].
  rewrite E. by vm_compute.
Qed.

Lemma code_upper s : Forall (fun c => is_space c = false /\ upperc c = [c]) s -> toUpperCase s = s.
Proof.
  unfold toUpperCase. induction 1 as [|c s [_ Hc] _ IH]; [done|]. cbn [map concat]. by rewrite Hc, IH.
Qed.

Lemma random_code_ok rnd attempt : normal_entry (randomCode rnd attempt) /\
  toUpperCase (randomCode rnd attempt) = randomCode rnd attempt.
Proof.
  pose proof (code_chars rnd attempt) as H. split; [|by apply code_upper].
  split; [|done]. apply trim_no_space. eapply Forall_impl; [exact H|]. by intros c [? _].
Qed.

Lemma generated_code rnd existing code : generateUniqueCode rnd existing = Some code ->
  code ∉ existing /\ normal_entry code /\ toUpperCase code = code.
Proof.
  unfold generateUniqueCode. intros [Hin Hn]%find_first_elem.
  apply list_elem_of_In, in_map_iff in Hin as (k & <- & _). split; [|apply random_code_ok].
  apply negb_true_iff in Hn. by apply bool_decide_eq_false in Hn.
Qed.

Lemma no_generated_code rnd existing attempt : generateUniqueCode rnd existing = None ->
  (attempt < PAIRING_CODE_MAX_ATTEMPTS)%nat -> randomCode rnd attempt ∈ existing.
Proof.
  unfold generateUniqueCode. rewrite find_first_None, Forall_forall. intros H Ha.
  specialize (H (randomCode rnd attempt)). apply includes_spec, negb_false_iff, H.
  apply list_elem_of_In, in_map, in_seq. lia.
Qed.

Lemma existing_codes reqs : Forall request_ok reqs ->
  map (fun r => toUpperCase (default [] (normalizeOptionalString (VString (pq_code r))))) reqs
  = tk_code <$> (ticket <$> reqs).
Proof.
  intros H. rewrite <- list_fmap_compose. apply map_ext_in. intros r Hr%list_elem_of_In.
  rewrite Forall_forall in H. destruct (H r Hr) as [_ [[Hc _] Hu] _ _ _]. by rewrite normalized_text, Hc.
Qed.

Lemma requests_waiting reqs a : account_ok a ->
  length (List.filter (fun r => requestMatchesAccountId r a) reqs) = waiting a (ticket <$> reqs).
Proof.
  intros [_ Hne]. unfold waiting. rewrite filter_fmap_list, length_fmap. f_equal. apply filter_ext_in.
  intros r _. unfold requestMatchesAccountId. by rewrite (proj2 (truthy_spec a) Hne).
Qed.

Lemma normalize_id id : normalizeId id = trim (text_of id).
Proof. unfold normalizeId. apply normalized_text. Qed.

(** The request a question leaves. *)
Definition asked_request id code created t meta accountId : PairingRequest := {|
  pq_id := id; pq_code := code; pq_createdAt := created; pq_lastSeenAt := toISOString t;
  pq_meta := Some (request_meta meta accountId) |}.

Lemma asked_request_ok id code c t meta a : normal_entry id -> normal_entry code /\ toUpperCase code = code ->
  clock_range c -> clock_range t -> account_ok a -> request_ok (asked_request id code (toISOString c) t meta a).
Proof.
  intros. split; [done|done|by exists c|by exists t|]. exists a, (request_meta meta a).
  split_and!; [done|done|by apply request_meta_ok].
Qed.

Lemma asked_request_account id code c t meta a : account_ok a ->
  resolvePairingRequestAccountId (asked_request id code c t meta a) = a.
Proof. intros Ha. eapply request_account; [done|done|by apply request_meta_ok]. Qed.

(** Asking again keeps the ticket. *)
Lemma asked_again st i r t meta : state_ok st -> clock_range t -> ps_requests st !! i = Some r ->
  let st' := with_requests (<[i := asked_request (pq_id r) (pq_code r) (pq_createdAt r) t meta
                                     (resolvePairingRequestAccountId r)]> (ps_requests st)) st in
  state_ok st' /\ ticket <$> ps_requests st' = ticket <$> ps_requests st.
Proof.
  intros [Hr Hs Hm Hl] Ht Hi st'. pose proof (Forall_lookup_1 _ _ _ _ Hr Hi) as Hri.
  pose proof Hri as [Hid Hc (c & Hcr & Ec) _ (a & m & Em & Ha & Hmo)].
  set (r' := asked_request _ _ _ _ _ _) in st'.
  assert (resolvePairingRequestAccountId r' = resolvePairingRequestAccountId r) as Ea.
  { unfold r'. rewrite asked_request_account; [done|]. by rewrite (request_account r a m). }
  assert (forall B (f : PairingRequest -> B), f r' = f r -> f <$> ps_requests st' = f <$> ps_requests st) as Hf.
  { intros B f E. cbn. rewrite list_fmap_insert, E. apply list_insert_id. by rewrite list_lookup_fmap, Hi. }
  split; [split|]; [| |done|done|].
  - apply Forall_insert; [done|]. unfold r'. rewrite Ec. apply asked_request_ok; [done..|].
    by rewrite (request_account r a m).
  - rewrite Hf; [done|]. unfold slot, request_key. by rewrite Ea.
  - apply Hf. unfold PairingBook.ticket. by rewrite Ea.
Qed.

(** A new request joins a sound state. *)
Lemma asked_first st id code t meta a : state_ok st -> clock_range t -> account_ok a -> normal_entry id ->
  normal_entry code /\ toUpperCase code = code ->
  (forall k, k ∈ ticket <$> ps_requests st -> ~ holds a id k) ->
  code ∉ tk_code <$> (ticket <$> ps_requests st) ->
  (waiting a (ticket <$> ps_requests st) < PAIRING_PENDING_MAX)%nat ->
  state_ok (with_requests (ps_requests st ++ [asked_request id code (toISOString t) t meta a]) st).
Proof.
  intros [Hr Hs Hm Hl] Ht Ha Hid Hc Hno Hcode Hw. split; [| |done|done]; cbn [with_requests ps_requests].
  - apply Forall_app. split; [done|]. constructor; [by apply asked_request_ok|constructor].
  - rewrite fmap_app. change (slot <$> [?x]) with [slot x].
    assert (slot (asked_request id code (toISOString t) t meta a) = ((a, id), code)) as ->.
    { unfold slot, request_key. by rewrite asked_request_account. }
    apply slots_ok_app; [done|..]; cbn [fst snd].
    + rewrite <- list_fmap_compose. intros (r & E & Hin)%list_elem_of_fmap.
      apply (Hno (ticket r)); [by apply list_elem_of_fmap_2|]. by injection E as -> ->.
    + rewrite <- list_fmap_compose. rewrite <- list_fmap_compose in Hcode. exact Hcode.
    + rewrite sent_by_requests. unfold waiting in Hw. by rewrite filter_fmap_list, length_fmap in Hw.
Qed.

(** A first question: refused, out of codes, or answered with a code. *)
Lemma first_question_refines ck channel t tables st0 st id accountId meta rnd :
  safeChannelKey channel = Some ck -> clock_range t -> stores ck tables st0 -> state_ok st -> same_state st st0 ->
  let pruned := pruneExpiredRequests other (ps_requests st) t in
  let a := ask_account accountId in
  (forall k, k ∈ live t (book_of st) -> ~ holds a (normalizeId id) k) ->
  refines ck channel t tables st0 (Ask id accountId meta rnd)
    (answered tables (fun '(code, created) => Asked code created)
      (if (PAIRING_PENDING_MAX <=? waiting a (live t (book_of st)))%nat then
         tables ← (if pruned.2 then writeChannelPairingStateToDatabase other tables channel (with_requests pruned.1 st)
                   else Some tables);
         Some (tables, ([], false))
       else
         code ← generateUniqueCode rnd (tk_code <$> live t (book_of st));
         tables ← writeChannelPairingStateToDatabase other tables channel
                    (with_requests (pruned.1 ++ [asked_request (normalizeId id) code (toISOString t) t meta a]) st);
         Some (tables, (code, true)))).
Proof.
  intros Hck Ht Hst0 Hst Hs pruned a Hno. destruct (_ <=? _)%nat eqn:Hw.
  { apply (refines_pruned ck channel t tables st0 st _ (fun '(code, created) => Asked code created) ([], false));
      [done..|]. apply step_full; [done|by apply Nat.leb_le|by apply pruned_becomes]. }
  apply Nat.leb_gt in Hw. destruct (generateUniqueCode _ _) as [code|] eqn:Ec; cbn [mbind option_bind answered].
  2:{ eapply refines_kept; [done|exact Hs|reflexivity|]. apply step_exhausted; [done|done| |done].
      intros attempt. by apply no_generated_code. }
  apply generated_code in Ec as (Hnew & Hcode & Hup). pose proof (sound_pruned st t Hst) as Hst1.
  pose proof (live_pruned st t Hst) as El. fold pruned in Hst1, El.
  assert (truthy code = true) as Htc by (apply truthy_spec, Hcode).
  destruct (truthy (normalizeId id)) eqn:Eid.
  - assert (state_ok (with_requests (pruned.1 ++ [asked_request (normalizeId id) code (toISOString t) t meta a]) st))
      as Hst2.
    { rewrite El in Hno, Hnew, Hw. apply (asked_first (with_requests pruned.1 st)); try done; [apply ask_account_ok|].
      apply truthy_spec in Eid. split; [|done]. rewrite normalize_id. apply trim_idem. }
    rewrite (write_sound _ _ ck) by done. cbn [mbind option_bind answered].
    eapply refines_written; [exact Hs|exact Hst2|]. apply step_issued; try done. rewrite Eid. split; [|done].
    rewrite El. cbn [PairingBook.book_of with_requests ps_requests bk_tickets]. rewrite fmap_app.
    unfold PairingBook.ticket at 2. cbn [fmap list_fmap map].
    rewrite asked_request_account by apply ask_account_ok. unfold asked_request at 3. cbn [pq_createdAt].
    rewrite parse_stamp by done. done.
  - rewrite (write_state other tables channel ck (with_requests pruned.1 st)); [|done|done| |done].
    + cbn [mbind option_bind answered]. eapply refines_written; [exact Hs|exact Hst1|].
      apply step_issued; try done. rewrite Eid, app_nil_r. by apply pruned_becomes.
    + cbn [with_requests ps_requests]. rewrite omap_app. destruct (normalizeId id) as [|? ?]; [|done].
      cbn [omap list_omap].
      change (canonical_request other (asked_request [] code (toISOString t) t meta a)) with (@None PairingRequest).
      rewrite app_nil_r.
      rewrite <- (list_fmap_id (pruned.1)) at 1. apply omap_all. intros r Hr. apply canonical_ok.
      pose proof (ok_requests _ Hst1) as H. rewrite Forall_forall in H. by apply H.
Qed.

Lemma ask_refines ck channel t tables st0 id accountId meta rnd :
  safeChannelKey channel = Some ck -> clock_range t -> stores ck tables st0 ->
  refines ck channel t tables st0 (Ask id accountId meta rnd)
    (perform {| po_channel := channel; po_time := t; po_action := Ask id accountId meta rnd |} tables).
Proof.
  intros Hck Ht Hst0. destruct (read_state other tables channel ck st0 Hck Hst0) as (st & Hread & Hst & Hs).
  unfold PairingBook.perform, upsertChannelPairingRequest. cbn [po_channel po_time po_action].
  fold (ask_account accountId). rewrite Hread. cbn [mbind option_bind].
  rewrite (surjective_pairing (pruneExpiredRequests _ _ _)).
  pose proof (sound_pruned st t Hst) as Hst1. pose proof (live_pruned st t Hst) as El.
  pose proof (first_question_refines ck channel t tables st0 st id accountId meta rnd Hck Ht Hst0 Hst Hs) as Hfirst.
  cbv zeta in Hfirst. set (pruned := pruneExpiredRequests other (ps_requests st) t) in *.
  pose proof (ok_requests _ Hst1) as Hok. cbn [with_requests ps_requests] in Hok.
  pose proof (ask_account_ok accountId) as Ha.
  rewrite existing_codes, <- El by done. destruct (findIndex _ _) as [i|] eqn:Ei.
  - apply findIndex_Some in Ei as (r & Er & [Eid Eacc]%andb_true_iff). rewrite Er. cbn [mbind option_bind].
    apply bool_decide_eq_true in Eid. unfold requestMatchesAccountId in Eacc.
    rewrite (proj2 (truthy_spec _) (proj2 Ha)) in Eacc. cbn [negb orb] in Eacc. apply bool_decide_eq_true in Eacc.
    pose proof (Forall_lookup_1 _ _ _ _ Hok Er) as Hr. rewrite (normalize_normal (pq_code r)) by apply Hr.
    cbn [mbind option_bind].
    destruct (asked_again (with_requests pruned.1 st) i r t meta Hst1 Ht Er) as [Hst2 Et].
    cbn [with_requests ps_requests] in Hst2, Et. unfold asked_request in Hst2, Et. rewrite Eid, Eacc in Hst2, Et.
    rewrite excess_none by apply (ok_slots _ Hst2). cbn [fst]. rewrite (write_sound _ _ ck) by done.
    cbn [mbind option_bind answered]. eapply refines_written; [exact Hs|exact Hst2|].
    apply (step_known _ _ _ _ _ _ id accountId meta rnd (ticket r)).
    + rewrite El. apply list_elem_of_fmap_2. by eapply list_elem_of_lookup_2.
    + done.
    + split; [|done]. rewrite El. cbn [PairingBook.book_of with_requests ps_requests bk_tickets]. by rewrite Et.
  - rewrite excess_none by apply (ok_slots _ Hst1). rewrite orb_false_r, requests_waiting, <- El by done.
    apply Hfirst. rewrite El. intros k (r & -> & Hr)%list_elem_of_fmap [E1 E2].
    pose proof (findIndex_None _ _ _ Ei Hr) as Hn. cbn [tk_sender PairingBook.ticket tk_account] in E1, E2.
    apply andb_false_iff in Hn as [Hn|Hn]; [by apply bool_decide_eq_false in Hn|].
    apply orb_false_iff in Hn as [_ Hn]. by apply bool_decide_eq_false in Hn.
Qed.

(** Every operation on a channel with a key keeps the store sound, is a step of
    the channel's book, and leaves the other channels alone. *)
Lemma perform_refines ck tables st op :
  safeChannelKey (po_channel op) = Some ck -> clock_range (po_time op) -> stores ck tables st ->
  refines ck (po_channel op) (po_time op) tables st (po_action op) (perform op tables).
Proof.
  destruct op as [channel t [id accountId meta rnd|code accountId adapter|entry accountId adapter|entry accountId adapter|accountId]];
    cbn [po_channel po_time po_action]; intros.
  - by apply ask_refines.
  - by apply approve_refines.
  - by apply add_refines.
  - by apply remove_refines.
  - by apply listing_refines.
Qed.

(** A channel without a key has no store, and nothing is written. *)
Lemma perform_keyless tables op : safeChannelKey (po_channel op) = None -> (perform op tables).1 = tables.
Proof.
  intros Hck. assert (readChannelPairingStateFromDatabase other tables (po_channel op) = None) as E
    by (unfold readChannelPairingStateFromDatabase; by rewrite Hck).
  destruct op as [channel t [id accountId meta rnd|code accountId adapter|entry accountId adapter|entry accountId adapter|accountId]];
    unfold PairingBook.perform; cbn [po_channel po_time po_action] in *.
  - unfold upsertChannelPairingRequest. by rewrite E.
  - unfold approveChannelPairingCode. destruct (negb _); [done|]. by rewrite E.
  - unfold addChannelAllowFromStoreEntry, updateAllowFromStoreEntry. by rewrite E.
  - unfold removeChannelAllowFromStoreEntry, updateAllowFromStoreEntry. by rewrite E.
  - unfold listChannelPairingRequests. by rewrite E.
Qed.
End facts.
