(* ===== verification/PairingRuns.v ===== *)
(** * What the store of paired senders guarantees

    Runs of operations from an empty store, with the answers they gave.  What is
    written is read back; the store is the book of [PairingBook] at every step;
    no sender is admitted without an explicit addition or a code that was issued
    to it and redeemed within the hour; and a request that was given a code can be
    approved for that hour, whatever other senders ask. *)
From S2P Require Import Prelude JsString JsMap JsNumber NumberCoercion JsDate Normalization AllowFrom PairingStore PairingFacts PairingBook PairingRefines.
#[local] Open Scope Z_scope.

Section runs.
  Context (other : jstr -> date) (getPairingAdapter : jstr -> option ChannelPairingAdapter).
  Context (localeCompare : jstr -> jstr -> Z).

  Notation perform := (perform other getPairingAdapter localeCompare).
  Notation read := (readChannelPairingStateFromDatabase other).
  Notation book_of := (book_of other).
  Notation admission := (admission getPairingAdapter).

(** The operations and their answers, in the order they were performed. *)
Abbreviation Log := (list (PairingOp * PairingAnswer)).

Definition performed (s : PairingTables * Log) (op : PairingOp) : PairingTables * Log :=
  let '(tables', answer) := perform op s.1 in (tables', s.2 ++ [(op, answer)]).

Definition run (ops : list PairingOp) : PairingTables * Log := fold_left performed ops ([], []).

Definition timely (op : PairingOp) : Prop := clock_range (po_time op).

(** ** Events *)

Definition on_channel (ck : jstr) (op : PairingOp) : Prop := safeChannelKey (po_channel op) = Some ck.

(** The answer that issued the ticket [k]. *)
Definition issues (ck : jstr) (k : Ticket) (x : PairingOp * PairingAnswer) : Prop :=
  on_channel ck x.1 /\ po_time x.1 = tk_issued k /\ x.2 = Asked (tk_code k) true /\
  match po_action x.1 with
  | Ask id accountId _ _ => ask_account accountId = tk_account k /\ normalizeId id = tk_sender k
  | _ => False
  end.

(** An explicit addition of [e] to the list of [a]. *)
Definition adds (ck a e : jstr) (x : PairingOp * PairingAnswer) : Prop :=
  on_channel ck x.1 /\
  match po_action x.1, x.2 with
  | Add entry accountId adapter, Updated true _ =>
      resolveAllowFromAccountId accountId = a /\
      normalizeAllowFromInput getPairingAdapter (po_channel x.1) entry adapter = e
  | _, _ => False
  end.

Definition removes (ck a e : jstr) (x : PairingOp * PairingAnswer) : Prop :=
  on_channel ck x.1 /\
  match po_action x.1, x.2 with
  | Remove entry accountId adapter, Updated true _ =>
      resolveAllowFromAccountId accountId = a /\
      normalizeAllowFromInput getPairingAdapter (po_channel x.1) entry adapter = e
  | _, _ => False
  end.

(** An approval of the code of [k] that admits [e]. *)
Definition redeems (ck : jstr) (k : Ticket) (e : jstr) (x : PairingOp * PairingAnswer) : Prop :=
  on_channel ck x.1 /\
  match po_action x.1, x.2 with
  | Approve code accountId adapter, Approved (Some (_, r)) =>
      ticket other r = k /\ typed_code code = tk_code k /\ admission (po_channel x.1) adapter r = e
  | _, _ => False
  end.

(** [x] made [e] a sender of [a], after [before]. *)
Definition admitted_by (ck a e : jstr) (before : Log) (x : PairingOp * PairingAnswer) : Prop :=
  adds ck a e x \/
  exists k y, redeems ck k e x /\ tk_account k = a /\ y ∈ before /\ issues ck k y /\
    po_time x.1 - po_time y.1 <= PAIRING_PENDING_TTL_MS.

(** Since [x], no removal took [e] from the list. *)
Definition justified (ck a e : jstr) (log : Log) : Prop :=
  exists before x after, log = before ++ x :: after /\ admitted_by ck a e before x /\
    Forall (fun y => ~ removes ck a e y) after.

(** ** Runs *)

Lemma run_snoc ops op : run (ops ++ [op]) = performed (run ops) op.
Proof. unfold run. by rewrite fold_left_app. Qed.

Definition sound (tables : PairingTables) : Prop := forall ck, exists st, stores ck tables st.

Lemma stores_nothing ck : stores ck [] {| ps_requests := []; ps_allowFrom := [] |}.
Proof.
  split; [|done]. split; [constructor|split; [constructor|constructor|intros a; cbn; lia]|constructor|].
  apply jm_all_nil.
Qed.

Lemma perform_elsewhere ck tables op : sound tables -> timely op -> ~ on_channel ck op ->
  rows_of ck (perform op tables).1 = rows_of ck tables.
Proof.
  intros Hs Ht Hne. destruct (safeChannelKey (po_channel op)) as [ck'|] eqn:E; [|by rewrite perform_keyless].
  destruct (Hs ck') as [st Hst].
  destruct (perform_refines other getPairingAdapter localeCompare ck' tables st op E Ht Hst) as (st' & _ & _ & H).
  apply H. intros ->. by apply Hne.
Qed.

(** One operation, seen from a channel. *)
Lemma step_channel ck tables st op : sound tables -> timely op -> stores ck tables st ->
  exists st', stores ck (perform op tables).1 st' /\
    (on_channel ck op ->
     book_step other getPairingAdapter (po_channel op) (po_time op) (book_of st) (book_of st') (po_action op)
       (perform op tables).2) /\
    (~ on_channel ck op -> st' = st).
Proof.
  intros Hs Ht Hst. destruct (decide (safeChannelKey (po_channel op) = Some ck)) as [E|E].
  - destruct (perform_refines other getPairingAdapter localeCompare ck tables st op E Ht Hst) as (st' & ? & ? & _).
    by exists st'.
  - exists st. split; [|by split; [intros ?|]]. destruct Hst as [H1 H2]. split; [done|].
    by rewrite perform_elsewhere.
Qed.

Lemma sound_step tables op : sound tables -> timely op -> sound (perform op tables).1.
Proof.
  intros Hs Ht ck. destruct (Hs ck) as [st Hst]. destruct (step_channel ck tables st op Hs Ht Hst) as (st' & H & _).
  by exists st'.
Qed.

Lemma performed_fst s op : (performed s op).1 = (perform op s.1).1.
Proof. unfold performed. by destruct (perform op s.1). Qed.

Lemma performed_snd s op : (performed s op).2 = s.2 ++ [(op, (perform op s.1).2)].
Proof. unfold performed. by destruct (perform op s.1). Qed.

Lemma sound_ops ops s : Forall timely ops -> sound s.1 -> sound (fold_left performed ops s).1.
Proof.
  intros H. revert s. induction H as [|op ops Ht _ IH]; intros s Hs; [done|]. apply IH.
  rewrite performed_fst. by apply sound_step.
Qed.

Lemma run_sound ops : Forall timely ops -> sound (run ops).1.
Proof. intros H. apply sound_ops; [done|]. intros ck. eexists. apply stores_nothing. Qed.

(** ** What a step explains *)

(** A ticket is older than the step, or issued by it. *)
Lemma step_tickets ck op answer b b' k : on_channel ck op ->
  book_step other getPairingAdapter (po_channel op) (po_time op) b b' (po_action op) answer ->
  k ∈ bk_tickets b' -> k ∈ bk_tickets b \/ issues ck k (op, answer).
Proof.
  intros Hck Hb Hk.
  assert (forall k', k' ∈ live (po_time op) b -> k' ∈ bk_tickets b) as Hl by (intros k'; by intros [? _]%elem_of_filter_bool).
  destruct op as [channel t action]. cbn [po_channel po_time po_action] in *.
  destruct Hb as [| |? ? ? ? ? ? ? ? ? ? [Hp _]| |? ? ? ? Hr ? ? Hp _| | | | | | | | | |];
    try (by left; match goal with H : becomes _ _ _ |- _ => destruct H as [Hp _]; rewrite Hp in Hk; auto end);
    try (by left; match goal with H : relists _ _ _ _ |- _ => destruct H as [Hp _]; rewrite Hp in Hk; auto end).
  - rewrite Hp in Hk. apply elem_of_app in Hk as [Hk|Hk]; [auto|].
    match type of Hk with context [truthy ?x] => destruct (truthy x) end; [|by apply elem_of_nil in Hk].
    apply list_elem_of_singleton in Hk as ->. by right.
  - left. apply Hl. rewrite Hp. by right.
Qed.

(** A sender of the list was on it and is not removed, or joins by the step. *)
Lemma step_senders ck op answer b b' a e : on_channel ck op ->
  book_step other getPairingAdapter (po_channel op) (po_time op) b b' (po_action op) answer ->
  e ∈ bk_admitted b' a ->
  e ∈ bk_admitted b a /\ ~ removes ck a e (op, answer) \/ adds ck a e (op, answer) \/
  exists k, k ∈ live (po_time op) b /\ tk_account k = a /\ redeems ck k e (op, answer).
Proof.
  intros Hck Hb He. destruct op as [channel t action]. cbn [po_channel po_time po_action] in *.
  destruct Hb as [| | | |code accountId adapter r Hr Hm Hl Hp Ha| | | |entry accountId adapter a0 e0 Ea Ee Hm Ht Hnew [_ Hb]| |
                  entry accountId adapter a0 e0 l Ea Ee Hm Ht Hin El [_ Hb]| | | |];
    try (left; match goal with H : becomes _ _ _ |- _ => destruct H as [_ H]; rewrite H in He end;
         split; [done|by intros [_ ?]]).
  - rewrite Ha in He. case_decide as E; [|left; split; [done|by intros [_ ?]]]. subst a.
    unfold join_list in He. match type of He with context [if ?x then _ else _] => destruct x end; [|left; split; [done|by intros [_ ?]]].
    apply elem_of_app in He as [He|He%list_elem_of_singleton]; [left; split; [done|by intros [_ ?]]|].
    subst e. right; right. exists (ticket other r). split_and!; [done|done|]. split; [done|].
    cbn. split_and!; [done| |done]. apply andb_true_iff in Hm as [Hm _]. symmetry. by apply bool_decide_eq_true in Hm.
  - rewrite Hb in He. case_decide as E; [|left; split; [done|by intros [_ ?]]]. subst a.
    apply elem_of_app in He as [He|He%list_elem_of_singleton]; [left; split; [done|by intros [_ ?]]|].
    right; left. subst e. split; [done|]. cbn. by rewrite <- Ea, <- Ee.
  - rewrite Hb in He. left. case_decide as E.
    + subst a l. apply elem_of_filter_bool in He as [He Hne]. split; [done|]. intros [_ [_ E2]].
      apply negb_true_iff, bool_decide_eq_false in Hne. cbn in E2. congruence.
    + split; [done|]. intros [_ [E1 _]]. congruence.
Qed.

(** Every ticket was issued, and every sender is justified. *)
Lemma run_explained ck ops : Forall timely ops ->
  exists st, stores ck (run ops).1 st /\
    (forall k, k ∈ bk_tickets (book_of st) -> exists y, y ∈ (run ops).2 /\ issues ck k y) /\
    (forall a e, e ∈ entries_of a st -> justified ck a e (run ops).2).
Proof.
  induction ops as [|op ops IH] using rev_ind; intros H.
  { eexists. split; [apply stores_nothing|]. split; [by intros k ?%elem_of_nil|by intros a e ?%elem_of_nil]. }
  apply Forall_app in H as [Hops Ht]. rewrite Forall_singleton in Ht.
  destruct (IH Hops) as (st & Hst & Hk & He). rewrite run_snoc, performed_fst, performed_snd.
  destruct (step_channel ck _ st op (run_sound ops Hops) Ht Hst) as (st' & Hst' & Hon & Hoff).
  exists st'. split; [done|]. set (x := (op, (perform op (run ops).1).2)).
  assert (forall a e, justified ck a e (run ops).2 -> ~ removes ck a e x -> justified ck a e ((run ops).2 ++ [x]))
    as Hkeep.
  { intros a e (l1 & y & l2 & -> & Hy & Hl2) Hx. exists l1, y, (l2 ++ [x]). split; [by rewrite <- app_assoc|].
    split; [done|]. apply Forall_app. by rewrite Forall_singleton. }
  destruct (decide (safeChannelKey (po_channel op) = Some ck)) as [E|E].
  2:{ rewrite (Hoff E). split.
      - intros k Hin. destruct (Hk k Hin) as (y & Hy & ?). exists y. split; [|done]. apply elem_of_app. by left.
      - intros a e Hin. apply Hkeep; [auto|]. by intros [Hc _]. }
  specialize (Hon E). split.
  - intros k Hin. destruct (step_tickets ck op _ _ _ k E Hon Hin) as [Hin'|Hx].
    + destruct (Hk k Hin') as (y & Hy & ?). exists y. split; [|done]. apply elem_of_app. by left.
    + exists x. split; [|done]. apply elem_of_app. right. by left.
  - intros a e Hin. destruct (step_senders ck op _ _ _ a e E Hon Hin) as [[Hin' Hn]|[Ha|(k & Hlive & Hka & Hr)]].
    + by apply Hkeep; [apply He|].
    + exists (run ops).2, x, []. split_and!; [done|by left|constructor].
    + apply elem_of_filter_bool in Hlive as [Hin' Hf]. destruct (Hk k Hin') as (y & Hy & Hyi).
      exists (run ops).2, x, []. split_and!; [done| |constructor]. right. exists k, y. split_and!; [done..|].
      destruct Hyi as (_ & -> & _). apply negb_true_iff, Z.ltb_ge in Hf. exact Hf.
Qed.

(** ** What a step keeps *)

(** The operation does not approve the ticket [k] of the channel. *)
Definition spares (ck : jstr) (k : Ticket) (op : PairingOp) : Prop :=
  on_channel ck op ->
  match po_action op with Approve code accountId _ => matches code accountId k = false | _ => True end.

Lemma step_keeps ck k op answer b b' : on_channel ck op -> spares ck k op -> k ∈ live (po_time op) b ->
  book_step other getPairingAdapter (po_channel op) (po_time op) b b' (po_action op) answer ->
  k ∈ bk_tickets b'.
Proof.
  intros Hck Hk Hlive Hb. specialize (Hk Hck). pose proof (proj1 (elem_of_filter_bool _ _ _) Hlive) as [Hin _].
  destruct op as [channel t action]. cbn [po_channel po_time po_action] in *.
  destruct Hb; repeat match goal with
    | H : becomes _ _ _ |- _ => destruct H as [-> _] | H : relists _ _ _ _ |- _ => destruct H as [-> _] end; try done.
  - apply elem_of_app. by left.
  - match goal with H : live _ _ ≡ₚ _ |- _ => rewrite H in Hlive end.
    apply elem_of_cons in Hlive as [->|?]; [congruence|done].
Qed.

Lemma ops_keep ck k ops tables st : sound tables -> Forall timely ops ->
  Forall (fun op => po_time op - tk_issued k <= PAIRING_PENDING_TTL_MS) ops -> Forall (spares ck k) ops ->
  stores ck tables st -> k ∈ bk_tickets (book_of st) -> forall log,
  exists st', stores ck (fold_left performed ops (tables, log)).1 st' /\ k ∈ bk_tickets (book_of st').
Proof.
  intros Hs Ht. revert tables st Hs. induction Ht as [|op ops Ht _ IH]; intros tables st Hs Hh Hk Hst Hin log.
  { by exists st. }
  apply Forall_cons in Hh as [Hh Hhs]. apply Forall_cons in Hk as [Hk Hks]. cbn [fold_left].
  destruct (step_channel ck tables st op Hs Ht Hst) as (st1 & Hst1 & Hon & Hoff).
  rewrite (surjective_pairing (performed (tables, log) op)), performed_fst.
  apply (IH _ st1); [by apply sound_step|done|done|done|].
  destruct (decide (safeChannelKey (po_channel op) = Some ck)) as [E|E]; [|by rewrite (Hoff E)].
  eapply step_keeps; [exact E|exact Hk| |exact (Hon E)]. apply elem_of_filter_bool. split; [done|].
  apply negb_true_iff, Z.ltb_ge. exact Hh.
Qed.

Lemma code_identifies st k k' : state_ok st -> k ∈ bk_tickets (book_of st) -> k' ∈ bk_tickets (book_of st) ->
  tk_code k = tk_code k' -> k = k'.
Proof.
  intros [_ [_ Hc _] _ _]. apply NoDup_fmap_eq. eapply (eq_ind _ (@NoDup _)); [exact Hc|].
  cbn. by rewrite <- !list_fmap_compose.
Qed.

(** Approving the code of a live ticket finds that ticket. *)
Lemma approved_ticket ck tables st b' channel t typed accountId adapter k answer :
  stores ck tables st -> k ∈ live t (book_of st) -> matches typed accountId k = true -> truthy (tk_code k) = true ->
  listless (tk_account k) = false ->
  book_step other getPairingAdapter channel t (book_of st) b' (Approve typed accountId adapter) answer ->
  exists r, answer = Approved (Some (pq_id r, r)) /\ ticket other r = k /\
    (truthy (admission channel adapter r) = true -> admission channel adapter r ∈ bk_admitted b' (tk_account k)).
Proof.
  intros [Hst _] Hk Hm Hcode Hl Hb. pose proof Hm as [Hc _]%andb_true_iff. apply bool_decide_eq_true in Hc.
  assert (forall r, ticket other r ∈ live t (book_of st) -> matches typed accountId (ticket other r) = true ->
            ticket other r = k) as Hsame.
  { intros r [Hr _]%elem_of_filter_bool [Hrc _]%andb_true_iff. apply bool_decide_eq_true in Hrc.
    apply elem_of_filter_bool in Hk as [Hk _]. apply (code_identifies st); [done..|]. congruence. }
  inversion Hb as [| | | |? ? ? r Hr Hrm _ _ Ha|? ? ? r Hr Hrm Hll _|? ? ? _ Hno _|? ? ? Hbl _| | | | | | |]; subst.
  - exists r. pose proof (Hsame r Hr Hrm) as E. split_and!; [done..|]. intros Ht.
    rewrite Ha, E, decide_True by done. unfold join_list. rewrite Ht. destruct (includes _ _) eqn:Ei; cbn.
    + by apply includes_spec in Ei.
    + apply elem_of_app. right. by left.
  - rewrite (Hsame r Hr Hrm), Hl, andb_false_r in Hll. done.
  - specialize (Hno k Hk). congruence.
  - congruence.
Qed.

Lemma read_rows tables tables' channel : (forall ck, safeChannelKey channel = Some ck -> rows_of ck tables' = rows_of ck tables) ->
  read tables' channel = read tables channel.
Proof.
  intros H. unfold readChannelPairingStateFromDatabase. destruct (safeChannelKey channel) as [ck|]; [|done].
  cbn [mbind option_bind]. by rewrite (H ck eq_refl).
Qed.

(** ** Guarantees *)

(** C29. A sound state that is written is the state that is read: the same
    requests, with their times and metadata, in some order, and the list of every
    account in its order.  The other channels read as before. *)
Theorem written_state_is_read tables channel ck st : safeChannelKey channel = Some ck -> state_ok st ->
  exists tables', writeChannelPairingStateToDatabase other tables channel st = Some tables' /\
    (exists st', read tables' channel = Some st' /\ state_ok st' /\ same_state st' st) /\
    forall channel', safeChannelKey channel' <> Some ck -> read tables' channel' = read tables channel'.
Proof.
  intros Hck Hst. exists (jm_set ck (encode st) tables). split; [by apply write_sound|]. split.
  - by apply (read_state _ _ _ ck), stores_written.
  - intros channel' Hne. apply read_rows. intros ck' E. unfold rows_of. rewrite jm_get_set_ne; [done|].
    intros ->. by apply Hne.
Qed.

(** C17. After any operations, the store of a channel reads as a sound state:
    requests with distinct senders and codes, at most three of an account of the
    channel, the cap of docs/channels/pairing.md, and canonical lists without
    repetition.  The next operation reads as a step of the
    channel's book, with the answer of the step, and no other channel changes. *)
Theorem store_keeps_the_book ops op ck : Forall timely (ops ++ [op]) -> on_channel ck op ->
  exists st st', read (run ops).1 (po_channel op) = Some st /\ read (run (ops ++ [op])).1 (po_channel op) = Some st' /\
    state_ok st /\ state_ok st' /\
    book_step other getPairingAdapter (po_channel op) (po_time op) (book_of st) (book_of st') (po_action op)
      (perform op (run ops).1).2 /\
    forall channel', safeChannelKey channel' <> Some ck ->
      read (run (ops ++ [op])).1 channel' = read (run ops).1 channel'.
Proof.
  intros [Hops Ht]%Forall_app Hck. rewrite Forall_singleton in Ht. rewrite run_snoc, performed_fst.
  pose proof (run_sound ops Hops) as Hs. destruct (Hs ck) as [st0 Hst0].
  destruct (step_channel ck _ st0 op Hs Ht Hst0) as (st1 & Hst1 & Hon & _).
  destruct (read_state other _ _ ck st0 Hck Hst0) as (st & E & Hok & Hsame).
  destruct (read_state other _ _ ck st1 Hck Hst1) as (st' & E' & Hok' & Hsame').
  exists st, st'. split_and!; [done..| |].
  - eapply book_step_same; [| |exact (Hon Hck)]; [by rewrite Hsame|by rewrite Hsame'].
  - intros channel' Hne. apply read_rows. intros ck' E''. apply perform_elsewhere; [done|done|].
    intros Hck'. apply Hne. congruence.
Qed.

(** C16. Every sender on a list was added to it explicitly, or was admitted by an
    approval of the code of a request of that account, which an earlier question
    of the request's sender had been answered with at most an hour before; and no
    later operation removed it. *)
Theorem approved_senders_held_a_code ops channel ck st a e : Forall timely ops ->
  safeChannelKey channel = Some ck -> read (run ops).1 channel = Some st -> e ∈ entries_of a st ->
  justified ck a e (run ops).2.
Proof.
  intros Hops Hck Hread He. destruct (run_explained ck ops Hops) as (st0 & Hst0 & _ & Hj). apply Hj.
  destruct (read_state other _ _ ck st0 Hck Hst0) as (st1 & E & _ & [_ Hs]). rewrite <- Hs. by simplify_eq.
Qed.

(** C18. A question that is answered with a new code leaves a request that
    survives: whatever is asked, listed, added and removed, and whatever other
    requests are approved, an approval with the code within the hour, for the
    account or for any, finds it, and what it admits is on the account's list. *)
Theorem pending_request_survives ops ask ops' approval ck id accountId meta rnd code typed accountId' adapter :
  Forall timely (ops ++ ask :: ops' ++ [approval]) ->
  on_channel ck ask -> po_action ask = Ask id accountId meta rnd ->
  (perform ask (run ops).1).2 = Asked code true -> normalizeId id <> [] ->
  let k := {| tk_account := ask_account accountId; tk_sender := normalizeId id; tk_code := code;
              tk_issued := po_time ask |} in
  Forall (fun op => po_time op - po_time ask <= PAIRING_PENDING_TTL_MS) (ops' ++ [approval]) ->
  Forall (spares ck k) ops' ->
  on_channel ck approval -> po_action approval = Approve typed accountId' adapter ->
  matches typed accountId' k = true -> listless (ask_account accountId) = false ->
  exists tables r st, perform approval (run (ops ++ ask :: ops')).1 = (tables, Approved (Some (pq_id r, r))) /\
    ticket other r = k /\ read tables (po_channel approval) = Some st /\
    (truthy (admission (po_channel approval) adapter r) = true ->
     admission (po_channel approval) adapter r ∈ entries_of (ask_account accountId) st).
Proof.
  intros Hall Hck Hask Hans Hid k Hhour Hspare Hck' Happ Hm Hl.
  apply Forall_app in Hall as [Hops [Htask [Hops' Htapp]%Forall_app]%Forall_cons].
  apply Forall_app in Hhour as [Hh Hhapp]. rewrite Forall_singleton in Htapp, Hhapp.
  pose proof (run_sound ops Hops) as Hs. destruct (Hs ck) as [st0 Hst0].
  destruct (step_channel ck _ st0 ask Hs Htask Hst0) as (st1 & Hst1 & Hon & _).
  specialize (Hon Hck). rewrite Hask, Hans in Hon.
  assert (k ∈ bk_tickets (book_of st1) /\ truthy code = true) as [Hk Hcode].
  { apply truthy_spec in Hid. inversion Hon as [| |? ? ? ? ? ? ? ? Htc ? [Hp _]| | | | | | | | | | | |]; subst.
    rewrite Hid in Hp. split; [|done]. rewrite Hp. apply elem_of_app. right. by left. }
  replace (run (ops ++ ask :: ops')) with (fold_left performed ops' ((perform ask (run ops).1).1, (performed (run ops) ask).2))
    by (unfold run; rewrite fold_left_app; cbn [fold_left]; fold (run ops); by rewrite <- performed_fst, <- surjective_pairing).
  set (log := (performed (run ops) ask).2).
  destruct (ops_keep ck k ops' _ st1 (sound_step _ _ Hs Htask) Hops' Hh Hspare Hst1 Hk log) as (st2 & Hst2 & Hk2).
  set (s := fold_left performed ops' _) in *.
  assert (sound s.1) as Hs2 by (apply sound_ops; [done|]; by apply sound_step).
  destruct (step_channel ck s.1 st2 approval Hs2 Htapp Hst2) as (st3 & Hst3 & Hon' & _).
  specialize (Hon' Hck'). rewrite Happ in Hon'. destruct (perform approval s.1) as [tables answer]. cbn [fst snd] in *.
  destruct (read_state other _ _ ck st3 Hck' Hst3) as (st & Hread & _ & [_ He]).
  assert (k ∈ live (po_time approval) (book_of st2)) as Hlive.
  { apply elem_of_filter_bool. split; [done|]. apply negb_true_iff, Z.ltb_ge. exact Hhapp. }
  edestruct approved_ticket as (r & -> & Er & Hadm); [exact Hst2|exact Hlive|exact Hm|exact Hcode|exact Hl|exact Hon'|].
  exists tables, r, st. split_and!; [done..|]. intros Ht. rewrite He. by apply Hadm.
Qed.
End runs.

(** ** An afternoon on one channel *)

Section example.
Definition noon : Z := 1700000000000.
Definition on_telegram (t : Z) (action : PairingAction) : PairingOp :=
  {| po_channel := lit " Telegram"; po_time := t; po_action := action |}.

Definition first_ask : PairingOp :=
  on_telegram noon (Ask (EText (lit " 4242 ")) (lit "Main") (Some [(lit "name", Some (lit "Ada"))]) id).
Definition other_ops : list PairingOp :=
  [on_telegram (noon + 1000) (Ask (ENumber 7) (lit "main") None id);
   on_telegram (noon + 2000) (Listing None);
   on_telegram (noon + 3000) (Add (EText (lit "9")) None None);
   on_telegram (noon + 4000) (Approve (lit "jklmnpqr") None None)].
Definition last_approval : PairingOp :=
  on_telegram (noon + 3600000) (Approve (lit "abcdefgh ") (Some (lit "MAIN")) None).

Definition no_date : jstr -> date := fun _ => None.
Definition no_adapter : jstr -> option ChannelPairingAdapter := fun _ => None.
Definition no_order : jstr -> jstr -> Z := fun _ _ => 0.
  Notation run := (run no_date no_adapter no_order).
  Notation perform := (perform no_date no_adapter no_order).

Lemma times_timely : Forall timely (first_ask :: other_ops ++ [last_approval]).
Proof. repeat constructor; by vm_compute. Qed.

Definition sound_example : ChannelPairingState := {|
  ps_requests := [asked_request (lit "4242") (lit "ABCDEFGH") (toISOString noon) noon None (lit "main")];
  ps_allowFrom := [(lit "main", [lit "7"; lit "5"])] |}.

Lemma sound_example_ok : state_ok sound_example.
Proof.
  split.
  - apply Forall_singleton, asked_request_ok; try (by vm_compute); split; by vm_compute.
  - split; [by repeat constructor; set_solver|by repeat constructor; set_solver|].
    intros a. cbn [fmap list_fmap map List.filter sound_example ps_requests]. unfold PAIRING_PENDING_MAX. destruct (sent_by _ _); cbn; lia.
  - by repeat constructor; set_solver.
  - intros a l [= -> ->]%list_elem_of_singleton. split; [by vm_compute|]. split; [by vm_compute|]. split.
    + by apply (bool_decide_eq_true_1 (NoDup [lit "7"; lit "5"])).
    + repeat constructor; by vm_compute.
Qed.

Lemma written_state_is_read_witness :
  safeChannelKey (lit " Telegram") = Some (lit "telegram") /\
  exists tables', writeChannelPairingStateToDatabase no_date [] (lit " Telegram") sound_example = Some tables' /\
    (exists st', readChannelPairingStateFromDatabase no_date tables' (lit " Telegram") = Some st' /\ state_ok st' /\
       same_state st' sound_example) /\
    forall channel', safeChannelKey channel' <> Some (lit "telegram") ->
      readChannelPairingStateFromDatabase no_date tables' channel'
      = readChannelPairingStateFromDatabase no_date [] channel'.
Proof.
  split; [by vm_compute|]. apply (written_state_is_read no_date [] (lit " Telegram") (lit "telegram") sound_example).
  - by vm_compute.
  - exact sound_example_ok.
Defined.

Lemma store_keeps_the_book_witness :
  (perform last_approval (run (first_ask :: other_ops)).1).2
  = Approved (Some (lit "4242", asked_request (lit "4242") (lit "ABCDEFGH") (toISOString noon) noon
                                  (Some [(lit "name", Some (lit "Ada"))]) (lit "main"))) /\
  exists st st', readChannelPairingStateFromDatabase no_date (run (first_ask :: other_ops)).1 (lit " Telegram") = Some st /\
    readChannelPairingStateFromDatabase no_date (run ((first_ask :: other_ops) ++ [last_approval])).1 (lit " Telegram") = Some st' /\
    state_ok st /\ state_ok st' /\
    book_step no_date no_adapter (lit " Telegram") (noon + 3600000) (book_of no_date st) (book_of no_date st')
      (po_action last_approval) (perform last_approval (run (first_ask :: other_ops)).1).2 /\
    forall channel', safeChannelKey channel' <> Some (lit "telegram") ->
      readChannelPairingStateFromDatabase no_date (run ((first_ask :: other_ops) ++ [last_approval])).1 channel'
      = readChannelPairingStateFromDatabase no_date (run (first_ask :: other_ops)).1 channel'.
Proof.
  split; [by vm_compute|].
  apply (store_keeps_the_book no_date no_adapter no_order (first_ask :: other_ops) last_approval (lit "telegram")).
  - exact times_timely.
  - by vm_compute.
Defined.

Lemma approved_senders_held_a_code_witness :
  match readChannelPairingStateFromDatabase no_date (run [first_ask; last_approval]).1 (lit "telegram") with
  | Some st => entries_of (lit "main") st = [lit "4242"]
  | None => False
  end /\
  justified no_date no_adapter (lit "telegram") (lit "main") (lit "4242") (run [first_ask; last_approval]).2.
Proof.
  split; [by vm_compute|].
  eapply (approved_senders_held_a_code no_date no_adapter no_order [first_ask; last_approval] (lit "telegram")).
  - repeat constructor; by vm_compute.
  - by vm_compute.
  - by vm_compute.
  - by apply (bool_decide_eq_true_1 (lit "4242" ∈ [lit "4242"])).
Defined.

Lemma pending_request_survives_witness :
  exists tables r st, perform last_approval (run (first_ask :: other_ops)).1 = (tables, Approved (Some (pq_id r, r))) /\
    ticket no_date r = {| tk_account := ask_account (lit "Main"); tk_sender := normalizeId (EText (lit " 4242 "));
                          tk_code := lit "ABCDEFGH"; tk_issued := noon |} /\
    readChannelPairingStateFromDatabase no_date tables (lit " Telegram") = Some st /\
    (truthy (admission no_adapter (lit " Telegram") None r) = true ->
     admission no_adapter (lit " Telegram") None r ∈ entries_of (ask_account (lit "Main")) st).
Proof.
  apply (pending_request_survives no_date no_adapter no_order [] first_ask other_ops last_approval (lit "telegram")
    (EText (lit " 4242 ")) (lit "Main") (Some [(lit "name", Some (lit "Ada"))]) id (lit "ABCDEFGH")
    (lit "abcdefgh ") (Some (lit "MAIN")) None).
  - exact times_timely.
  - by vm_compute.
  - reflexivity.
  - by vm_compute.
  - by vm_compute.
  - repeat constructor; by vm_compute.
  - repeat constructor; by vm_compute.
  - by vm_compute.
  - reflexivity.
  - by vm_compute.
  - by vm_compute.
Defined.
End example.
