(* ===== verification/AuthCredentials.v ===== *)
(** * Credentials of providers

    [src/agents/auth-profiles/types.ts], [credential-state.ts], the secret
    references of [src/config/types.secrets.ts], and
    [packages/model-catalog-core/src/provider-id.ts]: what a stored credential is
    and whether it can be used.

    Instants are integers.  A secret field is text, a record of fields, or left
    out; the aliases of providers, which plugins declare, are a
    map the functions are given. *)
From S2P Require Import Prelude JsString JsMap JsNumber JsRegExp NumberCoercion Normalization.
#[local] Open Scope Z_scope.

(** ** Providers *)

Definition normalizeProviderId (provider : jstr) : jstr := normalizeLowercaseStringOrEmpty (VString provider).

Definition findNormalizedProviderValue {T} (entries : option (list (jstr * T))) (provider : jstr) : option T :=
  match entries with
  | None => None
  | Some entries =>
      snd <$> find_first (fun '(key, _) =>
        bool_decide (normalizeProviderId key = normalizeProviderId provider)) entries
  end.

(** [resolveProviderAuthAliasMap]: what plugins declare, from normalized ids. *)
Abbreviation AliasMap := (list (jstr * jstr)).

Definition resolveProviderIdForAuth (aliases : AliasMap) (provider : jstr) : jstr :=
  let normalized := normalizeProviderId provider in
  if negb (truthy normalized) then normalized else default normalized (jm_get normalized aliases).

(** ** Secrets *)

Inductive SecretValue :=
  | SecretText (s : jstr)
  | SecretRecord (fields : list (jstr * jsval))
  | SecretAbsent.

Inductive SecretRefSource := EnvSource | FileSource | ExecSource.

Record SecretRef := { sr_source : SecretRefSource; sr_provider : jstr; sr_id : jstr }.

Definition DEFAULT_SECRET_PROVIDER_ALIAS : jstr := lit "default".

Definition is_AZ (c : ascii) : bool := (65 <=? code c)%nat && (code c <=? 90)%nat.

(** [[A-Z][A-Z0-9_]{0,127}]. *)
Definition isValidEnvSecretRefId (value : jstr) : bool :=
  match value with
  | [] => false
  | c :: rest =>
      is_AZ c && forallb (fun c => is_AZ c || JsString.is_digit c || is_char "_"%char c) rest
        && (length rest <=? 127)%nat
  end.

Definition secret_source (v : jsval) : option SecretRefSource :=
  match v with
  | VString s =>
      if bool_decide (s = lit "env") then Some EnvSource
      else if bool_decide (s = lit "file") then Some FileSource
      else if bool_decide (s = lit "exec") then Some ExecSource else None
  | _ => None
  end.

Definition secret_field (name : string) (fields : list (jstr * jsval)) : jsval :=
  default VUndefined (jm_get (lit name) fields).

(** A string that is not blank. *)
Definition secret_string (v : jsval) : option jstr :=
  match v with VString s => if truthy (trim s) then Some s else None | _ => None end.

Definition isSecretRef (value : SecretValue) : option SecretRef :=
  match value with
  | SecretRecord fields =>
      if negb (bool_decide (length fields = 3%nat)) then None
      else
        source ← secret_source (secret_field "source" fields);
        provider ← secret_string (secret_field "provider" fields);
        id ← secret_string (secret_field "id" fields);
        Some {| sr_source := source; sr_provider := provider; sr_id := id |}
  | _ => None
  end.

Definition env_ref (id : jstr) : SecretRef :=
  {| sr_source := EnvSource; sr_provider := DEFAULT_SECRET_PROVIDER_ALIAS; sr_id := id |}.

(** [secretref-env:NAME] and [__env__:NAME]. *)
Definition parseLegacySecretRefEnvMarker (value : SecretValue) : option SecretRef :=
  match value with
  | SecretText s =>
      let trimmed := trim s in
      let id :=
        if starts_with (lit "secretref-env:") trimmed then Some (drop 14 trimmed)
        else if starts_with (lit "__env__:") trimmed then Some (drop 8 trimmed) else None in
      match id with
      | Some id => if isValidEnvSecretRefId id then Some (env_ref id) else None
      | None => None
      end
  | _ => None
  end.

Definition isLegacySecretRefWithoutProvider (value : SecretValue) : option SecretRef :=
  match value with
  | SecretRecord fields =>
      source ← secret_source (secret_field "source" fields);
      id ← secret_string (secret_field "id" fields);
      match secret_field "provider" fields with
      | VUndefined => Some {| sr_source := source; sr_provider := DEFAULT_SECRET_PROVIDER_ALIAS; sr_id := id |}
      | _ => None
      end
  | _ => None
  end.

(** [${NAME}] and [$NAME]. *)
Definition parseEnvTemplateSecretRef (value : SecretValue) : option SecretRef :=
  match value with
  | SecretText s =>
      let trimmed := trim s in
      let braced := if starts_with (lit "${") trimmed && bool_decide (last trimmed = Some "}"%char)
                    then Some (drop 2 (take (length trimmed - 1) trimmed)) else None in
      let bare := if starts_with (lit "$") trimmed then Some (drop 1 trimmed) else None in
      match braced with
      | Some id => if isValidEnvSecretRefId id then Some (env_ref id) else None
      | None =>
          match bare with
          | Some id => if isValidEnvSecretRefId id then Some (env_ref id) else None
          | None => None
          end
      end
  | _ => None
  end.

(** Without defaults of the configuration. *)
Definition coerceSecretRef (value : SecretValue) : option SecretRef :=
  match isSecretRef value with
  | Some ref => Some ref
  | None =>
      match parseLegacySecretRefEnvMarker value with
      | Some ref => Some ref
      | None =>
          match isLegacySecretRefWithoutProvider value with
          | Some ref => Some ref
          | None => parseEnvTemplateSecretRef value
          end
      end
  end.

Definition normalizeSecretInputString (value : SecretValue) : option jstr :=
  match value with
  | SecretText s => let trimmed := trim s in if truthy trimmed then Some trimmed else None
  | _ => None
  end.

(** ** Credentials *)

Record ApiKeyCredential := { ak_provider : jstr; ak_key : SecretValue; ak_keyRef : SecretValue }.

(** [None] is an expiry that is left out. *)
Record TokenCredential := {
  tk_provider : jstr;
  tk_token : SecretValue;
  tk_tokenRef : SecretValue;
  tk_expires : option nval;
}.

Record OAuthCredential := {
  oa_provider : jstr;
  oa_access : SecretValue;
  oa_refresh : SecretValue;
  oa_expires : option nval;
  oa_accountId : option jstr;
  oa_oauthRef : bool;
}.

Inductive AuthProfileCredential :=
  | ApiKey (c : ApiKeyCredential)
  | TokenCred (c : TokenCredential)
  | OAuth (c : OAuthCredential).

Inductive CredentialType := TypeApiKey | TypeToken | TypeOAuth.
#[export] Instance CredentialType_eq : EqDecision CredentialType.
Proof. solve_decision. Defined.

Definition cred_type (c : AuthProfileCredential) : CredentialType :=
  match c with ApiKey _ => TypeApiKey | TokenCred _ => TypeToken | OAuth _ => TypeOAuth end.

Definition cred_provider (c : AuthProfileCredential) : jstr :=
  match c with ApiKey c => ak_provider c | TokenCred c => tk_provider c | OAuth c => oa_provider c end.

(** ** Eligibility *)

Inductive TokenExpiryState := ExpiryMissing | ExpiryValid | ExpiryExpiring | ExpiryExpired | InvalidExpires.

Definition resolveTokenExpiryState (expires : option nval) (now : num) (expiringWithinMs : option num)
    : TokenExpiryState :=
  match expires with
  | None => ExpiryMissing
  | Some (VNum expires) =>
      if negb (isFinite expires) || num_le expires (of_Z 0) || num_lt (of_Z MAX_DATE_TIMESTAMP_MS) expires
      then InvalidExpires
      else
        let remainingMs := num_sub expires now in
        if num_le remainingMs (of_Z 0) then ExpiryExpired
        else
          let expiringWithinMs := math_max (of_Z 0) (default (of_Z 0) expiringWithinMs) in
          if num_lt (of_Z 0) expiringWithinMs && num_le remainingMs expiringWithinMs
          then ExpiryExpiring else ExpiryValid
  | Some _ => InvalidExpires
  end.

Definition DEFAULT_OAUTH_REFRESH_MARGIN_MS : Z := 5 * 60 * 1000.

Definition hasUsableOAuthCredential (credential : option AuthProfileCredential) (now : num)
    (refreshMarginMs : option num) : bool :=
  match credential with
  | Some (OAuth c) =>
      match oa_access c with
      | SecretText access =>
          if negb (truthy (trim access)) then false
          else
            let refreshMarginMs :=
              math_max (of_Z 0) (default (of_Z DEFAULT_OAUTH_REFRESH_MARGIN_MS) refreshMarginMs) in
            match resolveTokenExpiryState (oa_expires c) now (Some refreshMarginMs) with
            | ExpiryValid => true
            | _ => false
            end
      | _ => false
      end
  | _ => false
  end.

Definition hasConfiguredSecretRef (value : SecretValue) : bool := bool_decide (is_Some (coerceSecretRef value)).
Definition hasConfiguredSecretString (value : SecretValue) : bool :=
  bool_decide (is_Some (normalizeSecretInputString value)).

(** The dot of an expression: all but the line terminators. *)
Definition re_dot : regexp :=
  RChar (fun c => negb (bool_decide (code c = 10%nat)) && negb (bool_decide (code c = 13%nat))).

(** An onboarding command, in place of a key; its last group is an alternative
    of a space, an equals sign and the end. *)
Definition MALFORMED_API_KEY_RE : regexp :=
  re_seqs [RStart; re_lit_i (lit "openclaw"); re_plus re_space; re_lit_i (lit "onboard");
           re_opt (RSeq (re_plus re_space) (RStar re_dot)); re_plus re_space;
           re_lit_i (lit "--auth-choice"); RAlt re_space (RAlt (re_char "="%char) REnd)].

Definition isMalformedApiKeyInput (value : SecretValue) : bool :=
  match normalizeSecretInputString value with
  | Some normalized => test MALFORMED_API_KEY_RE normalized
  | None => false
  end.

Inductive AuthCredentialReasonCode :=
  | ReasonOk | MissingCredential | ReasonInvalidExpires | ReasonExpired | UnresolvedRef | MalformedApiKey
  | ProfileMissing | ProviderMismatch | ModeMismatch.
#[export] Instance AuthCredentialReasonCode_eq : EqDecision AuthCredentialReasonCode.
Proof. solve_decision. Defined.

(** [eligible] is [reasonCode = ReasonOk]. *)
Definition evaluateStoredCredentialEligibility (credential : AuthProfileCredential) (now : num)
    : AuthCredentialReasonCode :=
  match credential with
  | ApiKey c =>
      if isMalformedApiKeyInput (ak_key c) then MalformedApiKey
      else if negb (hasConfiguredSecretString (ak_key c)) && negb (hasConfiguredSecretRef (ak_keyRef c))
      then MissingCredential else ReasonOk
  | TokenCred c =>
      if negb (hasConfiguredSecretString (tk_token c)) && negb (hasConfiguredSecretRef (tk_tokenRef c))
      then MissingCredential
      else match resolveTokenExpiryState (tk_expires c) now None with
           | InvalidExpires => ReasonInvalidExpires
           | ExpiryExpired => ReasonExpired
           | _ => ReasonOk
           end
  | OAuth c =>
      match normalizeSecretInputString (oa_access c), normalizeSecretInputString (oa_refresh c) with
      | None, None => if oa_oauthRef c then UnresolvedRef else MissingCredential
      | _, _ => ReasonOk
      end
  end.
