(* ===== verification/ProfileUsage.v ===== *)
(** * Cooldowns of credentials

    [src/agents/auth-profiles/usage-state.ts] and [usage.ts], with
    [markAuthProfileSuccess] of [profiles.ts]: when a stored credential (a
    profile) may be used, for which model, and what failures and successes do to
    it.

    Instants and counts are integers, as [Date.now] gives and the code counts
    them; durations come from the configuration and are doubles.  The record of
    a profile is a field of the store; the file under its lock is a second store
    that may not be available.  A failure is recorded in two turns around the
    usage probe, of which the request is an argument and the reading of the
    response is modelled.  Ids of profiles are not members of every object. *)
From S2P Require Import Prelude JsString JsMap JsNumber NumberCoercion Normalization AuthCredentials.
#[local] Open Scope Z_scope.

(** ** The record of a profile *)

Inductive AuthProfileFailureReason :=
  | FailAuth | FailAuthPermanent | FailFormat | FailOverloaded | FailRateLimit | FailBilling | FailTimeout
  | FailModelNotFound | FailSessionExpired | FailEmptyResponse | FailNoErrorDetails | FailUnclassified
  | FailUnknown.
#[export] Instance AuthProfileFailureReason_eq : EqDecision AuthProfileFailureReason.
Proof. solve_decision. Defined.

Inductive AuthProfileBlockedReason := SubscriptionLimit.
Inductive AuthProfileBlockedSource := CodexRateLimits | Wham.
Inductive BlockedScope := ModelScope.

Abbreviation FailureCounts := (list (AuthProfileFailureReason * Z)).

Record ProfileUsageStats := {
  us_lastUsed : option Z;
  us_blockedUntil : option Z;
  us_blockedReason : option AuthProfileBlockedReason;
  us_blockedSource : option AuthProfileBlockedSource;
  us_blockedModel : option jstr;
  us_blockedScope : option BlockedScope;
  us_cooldownUntil : option Z;
  us_cooldownReason : option AuthProfileFailureReason;
  us_cooldownModel : option jstr;
  us_disabledUntil : option Z;
  us_disabledReason : option AuthProfileFailureReason;
  us_errorCount : option Z;
  us_failureCounts : option FailureCounts;
  us_lastFailureAt : option Z;
}.

Definition no_stats : ProfileUsageStats := {|
  us_lastUsed := None; us_blockedUntil := None; us_blockedReason := None; us_blockedSource := None;
  us_blockedModel := None; us_blockedScope := None; us_cooldownUntil := None; us_cooldownReason := None;
  us_cooldownModel := None; us_disabledUntil := None; us_disabledReason := None; us_errorCount := None;
  us_failureCounts := None; us_lastFailureAt := None |}.

Section updates.
  Implicit Types (s : ProfileUsageStats).

Definition with_cooldown until reason model s : ProfileUsageStats := {|
  us_lastUsed := us_lastUsed s; us_blockedUntil := us_blockedUntil s; us_blockedReason := us_blockedReason s;
  us_blockedSource := us_blockedSource s; us_blockedModel := us_blockedModel s;
  us_blockedScope := us_blockedScope s; us_cooldownUntil := until; us_cooldownReason := reason;
  us_cooldownModel := model; us_disabledUntil := us_disabledUntil s; us_disabledReason := us_disabledReason s;
  us_errorCount := us_errorCount s; us_failureCounts := us_failureCounts s;
  us_lastFailureAt := us_lastFailureAt s |}.

Definition with_blocked until reason source model scope s : ProfileUsageStats := {|
  us_lastUsed := us_lastUsed s; us_blockedUntil := until; us_blockedReason := reason;
  us_blockedSource := source; us_blockedModel := model; us_blockedScope := scope;
  us_cooldownUntil := us_cooldownUntil s; us_cooldownReason := us_cooldownReason s;
  us_cooldownModel := us_cooldownModel s; us_disabledUntil := us_disabledUntil s;
  us_disabledReason := us_disabledReason s; us_errorCount := us_errorCount s;
  us_failureCounts := us_failureCounts s; us_lastFailureAt := us_lastFailureAt s |}.

Definition with_disabled until reason s : ProfileUsageStats := {|
  us_lastUsed := us_lastUsed s; us_blockedUntil := us_blockedUntil s; us_blockedReason := us_blockedReason s;
  us_blockedSource := us_blockedSource s; us_blockedModel := us_blockedModel s;
  us_blockedScope := us_blockedScope s; us_cooldownUntil := us_cooldownUntil s;
  us_cooldownReason := us_cooldownReason s; us_cooldownModel := us_cooldownModel s; us_disabledUntil := until;
  us_disabledReason := reason; us_errorCount := us_errorCount s; us_failureCounts := us_failureCounts s;
  us_lastFailureAt := us_lastFailureAt s |}.

Definition with_counts errors counts s : ProfileUsageStats := {|
  us_lastUsed := us_lastUsed s; us_blockedUntil := us_blockedUntil s; us_blockedReason := us_blockedReason s;
  us_blockedSource := us_blockedSource s; us_blockedModel := us_blockedModel s;
  us_blockedScope := us_blockedScope s; us_cooldownUntil := us_cooldownUntil s;
  us_cooldownReason := us_cooldownReason s; us_cooldownModel := us_cooldownModel s;
  us_disabledUntil := us_disabledUntil s; us_disabledReason := us_disabledReason s; us_errorCount := errors;
  us_failureCounts := counts; us_lastFailureAt := us_lastFailureAt s |}.

Definition with_times lastUsed lastFailureAt s : ProfileUsageStats := {|
  us_lastUsed := lastUsed; us_blockedUntil := us_blockedUntil s; us_blockedReason := us_blockedReason s;
  us_blockedSource := us_blockedSource s; us_blockedModel := us_blockedModel s;
  us_blockedScope := us_blockedScope s; us_cooldownUntil := us_cooldownUntil s;
  us_cooldownReason := us_cooldownReason s; us_cooldownModel := us_cooldownModel s;
  us_disabledUntil := us_disabledUntil s; us_disabledReason := us_disabledReason s;
  us_errorCount := us_errorCount s; us_failureCounts := us_failureCounts s; us_lastFailureAt := lastFailureAt |}.
End updates.

(** ** The store *)

Record AuthProfileStore := {
  as_profiles : list (jstr * AuthProfileCredential);
  as_order : option (list (jstr * list jstr));
  as_lastGood : option (list (jstr * jstr));
  as_usageStats : option (list (jstr * ProfileUsageStats));
}.

Definition profile_of (store : AuthProfileStore) (profileId : jstr) : option AuthProfileCredential :=
  jm_get profileId (as_profiles store).

Definition stats_of (store : AuthProfileStore) (profileId : jstr) : option ProfileUsageStats :=
  as_usageStats store ≫= jm_get profileId.

Definition with_usage (usage : option (list (jstr * ProfileUsageStats))) (store : AuthProfileStore)
    : AuthProfileStore := {|
  as_profiles := as_profiles store; as_order := as_order store; as_lastGood := as_lastGood store;
  as_usageStats := usage |}.

(** ** When a profile may be used *)

Definition isAuthCooldownBypassedForProvider (provider : option jstr) : bool :=
  let normalized := normalizeProviderId (default [] provider) in
  bool_decide (normalized = lit "openrouter") || bool_decide (normalized = lit "kilocode").

Definition isModelScopedCooldownReason (reason : option AuthProfileFailureReason) : bool :=
  match reason with Some FailRateLimit | Some FailTimeout => true | _ => false end.

(** [asDateTimestampMs] of an integer. *)
Definition date_timestamp (value : option Z) : option Z :=
  match value with Some t => if Z.abs t <=? MAX_DATE_TIMESTAMP_MS then Some t else None | None => None end.

(** The timestamps that count: those of a date after the epoch. *)
Definition window_until (until : option Z) : option Z :=
  match date_timestamp until with Some t => if 0 <? t then Some t else None | None => None end.

Definition isActiveUnusableWindow (until : option Z) (now : Z) : bool :=
  match window_until until with Some t => now <? t | None => false end.

Section state.
  Implicit Types (s : ProfileUsageStats) (forModel : option jstr) (now : Z).

Definition isBlockScopedToDifferentModel s forModel : bool :=
  truthy_opt forModel && bool_decide (is_Some (us_blockedScope s)) && truthy_opt (us_blockedModel s)
    && negb (bool_decide (us_blockedModel s = forModel)).

Definition isBlockedWindowActiveForModel s now forModel : bool :=
  negb (isBlockScopedToDifferentModel s forModel) && isActiveUnusableWindow (us_blockedUntil s) now.

Definition shouldBypassModelScopedCooldown s now forModel : bool :=
  truthy_opt forModel && isModelScopedCooldownReason (us_cooldownReason s) && truthy_opt (us_cooldownModel s)
    && negb (bool_decide (us_cooldownModel s = forModel)) && negb (isBlockedWindowActiveForModel s now forModel)
    && negb (isActiveUnusableWindow (us_disabledUntil s) now).

  (** [Math.max] of a list that is not empty. *)
Definition max_of (values : list Z) : option Z :=
  match values with [] => None | v :: vs => Some (fold_left Z.max vs v) end.

Definition resolveProfileUnusableUntil s forModel : option Z :=
  let blockedUntil := if isBlockScopedToDifferentModel s forModel then None else us_blockedUntil s in
  max_of (omap window_until [blockedUntil; us_cooldownUntil s; us_disabledUntil s]).

Definition isProfileInCooldown (store : AuthProfileStore) (profileId : jstr) now forModel : bool :=
  if isAuthCooldownBypassedForProvider (cred_provider <$> profile_of store profileId) then false
  else match stats_of store profileId with
       | None => false
       | Some stats =>
           if shouldBypassModelScopedCooldown stats now forModel then false
           else match resolveProfileUnusableUntil stats forModel with
                | Some until => now <? until
                | None => false
                end
       end.

  (** The latest cooldown of the model asked for, and the soonest other window. *)
Definition soonest_step (store : AuthProfileStore) now forModel (acc : option Z * option Z) (id : jstr)
    : option Z * option Z :=
  let '(soonest, latest) := acc in
  match stats_of store id with
  | None => acc
  | Some stats =>
      if shouldBypassModelScopedCooldown stats now forModel then acc
      else match resolveProfileUnusableUntil stats forModel with
           | None => acc
           | Some until =>
               if truthy_opt forModel && bool_decide (us_cooldownReason stats = Some FailRateLimit)
                  && bool_decide (us_cooldownModel stats = forModel)
                  && negb (isBlockedWindowActiveForModel stats now forModel)
                  && negb (isActiveUnusableWindow (us_disabledUntil stats) now)
               then (soonest, Some (match latest with None => until | Some l => Z.max l until end))
               else (match soonest with
                     | Some t => if until <? t then Some until else Some t
                     | None => Some until
                     end, latest)
           end
  end.

Definition getSoonestCooldownExpiry (store : AuthProfileStore) (profileIds : list jstr) now forModel
    : option Z :=
  match fold_left (soonest_step store now forModel) profileIds (None, None) with
  | (None, latest) => latest
  | (Some soonest, None) => Some soonest
  | (Some soonest, Some latest) => Some (Z.min soonest latest)
  end.

Definition window_expired (until : option Z) now : bool :=
  match until with Some t => (0 <? t) && (t <=? now) | None => false end.

  (** The record, and whether it was changed. *)
Definition clear_expired now s : ProfileUsageStats * bool :=
  let cooldownExpired := window_expired (us_cooldownUntil s) now in
  let blockedExpired := window_expired (us_blockedUntil s) now in
  let disabledExpired := window_expired (us_disabledUntil s) now in
  let s := if cooldownExpired then with_cooldown None None None s else s in
  let s := if blockedExpired then with_blocked None None None None None s else s in
  let s := if disabledExpired then with_disabled None None s else s in
  let profileMutated := cooldownExpired || blockedExpired || disabledExpired in
  let s := if profileMutated && negb (bool_decide (is_Some (resolveProfileUnusableUntil s None)))
           then with_counts (Some 0) None s else s in
  (s, profileMutated).

Definition clearExpiredCooldowns (store : AuthProfileStore) now : AuthProfileStore * bool :=
  match as_usageStats store with
  | None => (store, false)
  | Some usage =>
      (with_usage (Some (map (fun '(id, s) => (id, fst (clear_expired now s))) usage)) store,
       existsb (fun '(_, s) => snd (clear_expired now s)) usage)
  end.
End state.
