(* ===== verification/ProfileFailures.v ===== *)
(** * Failures and successes of credentials

    [src/agents/auth-profiles/usage.ts], with [markAuthProfileSuccess] of
    [profiles.ts]: what a failure, a reported limit, a success and a manual reset
    write to the record of a profile.

    A failure is recorded in two turns around the usage probe: the response is an
    argument, and what the code reads of it is modelled.  The file under its lock
    is a store of its own, [None] when it cannot be updated; the hook and the log
    of a change are left out. *)
From S2P Require Import Prelude JsString JsMap JsNumber NumberCoercion Normalization AuthCredentials ProfileUsage.
#[local] Open Scope Z_scope.

(** ** Durations of the configuration *)

Record CooldownsConfig := {
  cd_billingBackoffHours : option num;
  cd_billingBackoffHoursByProvider : option (list (jstr * option num));
  cd_billingMaxHours : option num;
  cd_authPermanentBackoffMinutes : option num;
  cd_authPermanentMaxMinutes : option num;
  cd_failureWindowHours : option num;
}.

Record ResolvedAuthCooldownConfig := {
  rc_billingBackoffMs : num;
  rc_billingMaxMs : num;
  rc_authPermanentBackoffMs : num;
  rc_authPermanentMaxMs : num;
  rc_failureWindowMs : num;
}.

Definition resolvePositiveNumber (value : option num) (fallback : Z) : num :=
  match value with
  | Some v => if isFinite v && num_lt (of_Z 0) v then v else of_Z fallback
  | None => of_Z fallback
  end.

Definition billingOverride (cooldowns : option CooldownsConfig) (providerId : jstr) : option num :=
  match cooldowns ≫= cd_billingBackoffHoursByProvider with
  | None => None
  | Some map =>
      (snd <$> find_first (fun '(key, _) => bool_decide (normalizeProviderId key = providerId)) map) ≫= id
  end.

Definition hours (x : num) : num := num_mul (num_mul (num_mul x (of_Z 60)) (of_Z 60)) (of_Z 1000).
Definition minutes (x : num) : num := num_mul (num_mul x (of_Z 60)) (of_Z 1000).

Definition resolveAuthCooldownConfig (cooldowns : option CooldownsConfig) (providerId : jstr)
    : ResolvedAuthCooldownConfig :=
  let billing := match billingOverride cooldowns providerId with
                 | Some v => Some v
                 | None => cooldowns ≫= cd_billingBackoffHours
                 end in {|
    rc_billingBackoffMs := hours (resolvePositiveNumber billing 5);
    rc_billingMaxMs := hours (resolvePositiveNumber (cooldowns ≫= cd_billingMaxHours) 24);
    rc_authPermanentBackoffMs :=
      minutes (resolvePositiveNumber (cooldowns ≫= cd_authPermanentBackoffMinutes) 10);
    rc_authPermanentMaxMs := minutes (resolvePositiveNumber (cooldowns ≫= cd_authPermanentMaxMinutes) 60);
    rc_failureWindowMs := hours (resolvePositiveNumber (cooldowns ≫= cd_failureWindowHours) 24) |}.

(** ** Backoff *)

Definition calculateAuthProfileCooldownMs (errorCount : Z) : Z :=
  let normalized := Z.max 1 errorCount in
  if normalized <=? 1 then 30000 else if normalized <=? 2 then 60000 else 5 * 60000.

Definition calculateDisabledLaneBackoffMs (errorCount : Z) (baseMs maxMs : num) : num :=
  let normalized := Z.max 1 errorCount in
  let baseMs := math_max (of_Z 60000) baseMs in
  let maxMs := math_max baseMs maxMs in
  let exponent := Z.min (normalized - 1) 10 in
  let raw := num_mul baseMs (of_Z (2 ^ exponent)) in
  math_min maxMs raw.

(** The two reasons that disable a profile. *)
Inductive DisabledFailureReason := DisabledBilling | DisabledAuthPermanent.

Definition disabled_reason (reason : AuthProfileFailureReason) : option DisabledFailureReason :=
  match reason with
  | FailBilling => Some DisabledBilling
  | FailAuthPermanent => Some DisabledAuthPermanent
  | _ => None
  end.

Definition resolveDisabledFailureBackoffMs (reason : DisabledFailureReason) (errorCount : Z)
    (cfg : ResolvedAuthCooldownConfig) : num :=
  match reason with
  | DisabledBilling =>
      calculateDisabledLaneBackoffMs errorCount (rc_billingBackoffMs cfg) (rc_billingMaxMs cfg)
  | DisabledAuthPermanent =>
      calculateDisabledLaneBackoffMs errorCount (rc_authPermanentBackoffMs cfg) (rc_authPermanentMaxMs cfg)
  end.

Definition resolveActiveWindowUntil (value : option Z) (now : Z) : Z :=
  match date_timestamp value with Some t => if now <? t then t else 0 | None => 0 end.

Definition resolveUsageWindowUntil (now : Z) (durationMs : num) : Z :=
  if negb (isFinite durationMs) || num_le durationMs (of_Z 0) then now
  else default now
         (resolveExpiresAtMsFromDurationMs (VNum (math_max (of_Z 1) (math_floor durationMs))) (of_Z now) None None
            ≫= to_Z).

Definition keepActiveWindowOrRecompute (existingUntil : option Z) (now recomputedUntil : Z) : Z :=
  match existingUntil with
  | Some t => if now <? t then t else recomputedUntil
  | None => recomputedUntil
  end.

(** ** A failure *)

(** The counters of the record are those of an earlier spell. *)
Definition shouldResetCounters (existing : ProfileUsageStats) (now : Z) (windowMs : num) : bool :=
  let windowExpired :=
    match us_lastFailureAt existing with
    | Some last => (0 <? last) && num_lt windowMs (of_Z (now - last))
    | None => false
    end in
  let previousCooldownExpired :=
    match resolveProfileUnusableUntil existing None with
    | Some unusableUntil => unusableUntil <=? now
    | None => false
    end in
  windowExpired || previousCooldownExpired.

Definition count_failure (reason : AuthProfileFailureReason) (counts : FailureCounts) : FailureCounts :=
  jm_set reason (default 0 (jm_get reason counts) + 1) counts.

(** Which models the cooldown holds for. *)
Definition next_cooldown_model (existing : ProfileUsageStats) (now : Z) (reason : AuthProfileFailureReason)
    (modelId : option jstr) : option jstr :=
  let scoped := isModelScopedCooldownReason (Some reason) in
  let existingCooldownActive := match us_cooldownUntil existing with Some t => now <? t | None => false end in
  if existingCooldownActive then
    if truthy_opt (us_cooldownModel existing) && truthy_opt modelId
       && negb (bool_decide (us_cooldownModel existing = modelId)) then None
    else if scoped && negb (truthy_opt modelId) && truthy_opt (us_cooldownModel existing) then None
    else if negb scoped then None
    else us_cooldownModel existing
  else if scoped then modelId else None.

Definition computeNextProfileUsageStats (existing : ProfileUsageStats) (now : Z)
    (reason : AuthProfileFailureReason) (cfgResolved : ResolvedAuthCooldownConfig) (modelId : option jstr)
    : ProfileUsageStats :=
  let reset := shouldResetCounters existing now (rc_failureWindowMs cfgResolved) in
  let baseErrorCount := if reset then 0 else default 0 (us_errorCount existing) in
  let nextErrorCount := baseErrorCount + 1 in
  let failureCounts := count_failure reason (if reset then [] else default [] (us_failureCounts existing)) in
  let updatedStats :=
    with_times (us_lastUsed existing) (Some now)
      (with_counts (Some nextErrorCount) (Some failureCounts) existing) in
  match disabled_reason reason with
  | Some disabledFailureReason =>
      let disableCount := default 1 (jm_get reason failureCounts) in
      let backoffMs := resolveDisabledFailureBackoffMs disabledFailureReason disableCount cfgResolved in
      with_disabled
        (Some (keepActiveWindowOrRecompute (us_disabledUntil existing) now
                 (resolveUsageWindowUntil now backoffMs)))
        (Some reason) updatedStats
  | None =>
      let backoffMs := calculateAuthProfileCooldownMs nextErrorCount in
      with_cooldown
        (Some (keepActiveWindowOrRecompute (us_cooldownUntil existing) now
                 (resolveUsageWindowUntil now (of_Z backoffMs))))
        (Some reason) (next_cooldown_model existing now reason modelId) updatedStats
  end.

(** ** The usage probe *)

Record WhamUsageWindow := {
  ww_used_percent : nval;
  ww_reset_at : nval;
  ww_reset_after_seconds : nval;
}.

Record WhamRateLimit := {
  wr_limit_reached : option bool;
  wr_primary_window : option WhamUsageWindow;
  wr_secondary_window : option WhamUsageWindow;
}.

(** What the request comes to: a status that is not a success, a body read at an
    instant, with its [rate_limit] if it has one, or an exception. *)
Inductive WhamResponse :=
  | WhamStatus (status : Z)
  | WhamBody (rate_limit : option WhamRateLimit) (readAt : Z)
  | WhamThrew.

Inductive WhamReason :=
  | wham_token_expired | wham_account_dead | wham_http_error | wham_probe_failed | wham_burst_contention
  | wham_personal_rolling | wham_team_weekly | wham_team_rolling.

Record WhamCooldownProbeResult := {
  wp_cooldownMs : Z;
  wp_reason : WhamReason;
  wp_blockedUntil : option Z;
  wp_blockedSource : option AuthProfileBlockedSource;
}.

Definition WHAM_BURST_COOLDOWN_MS : Z := 15000.
Definition WHAM_PROBE_FAILURE_COOLDOWN_MS : Z := 30000.
Definition WHAM_HTTP_ERROR_COOLDOWN_MS : Z := 5 * 60 * 1000.
Definition WHAM_TOKEN_EXPIRED_COOLDOWN_MS : Z := 12 * 60 * 60 * 1000.
Definition WHAM_DEAD_ACCOUNT_COOLDOWN_MS : Z := 24 * 60 * 60 * 1000.

Definition wham_cooldown (cooldownMs : Z) (reason : WhamReason) : WhamCooldownProbeResult :=
  {| wp_cooldownMs := cooldownMs; wp_reason := reason; wp_blockedUntil := None; wp_blockedSource := None |}.

Definition wham_failed : WhamCooldownProbeResult := wham_cooldown WHAM_PROBE_FAILURE_COOLDOWN_MS wham_probe_failed.

Definition secret_truthy (v : SecretValue) : bool :=
  match v with SecretText s => truthy s | SecretRecord _ => true | SecretAbsent => false end.

(** [===]: a record of one snapshot is not one of another. *)
Definition secret_eqb (a b : SecretValue) : bool :=
  match a, b with
  | SecretText s, SecretText t => bool_decide (s = t)
  | SecretAbsent, SecretAbsent => true
  | _, _ => false
  end.

Definition shouldProbeWhamForFailure (profile : option AuthProfileCredential)
    (reason : AuthProfileFailureReason) (now : Z) : bool :=
  match profile with
  | Some (OAuth c) =>
      secret_truthy (oa_access c) && isFutureDateTimestampMs (default VOther (oa_expires c)) (of_Z now)
        && bool_decide (normalizeProviderId (oa_provider c) = lit "openai")
        && match reason with
           | FailRateLimit | FailEmptyResponse | FailNoErrorDetails | FailUnclassified | FailUnknown => true
           | _ => false
           end
  | _ => false
  end.

Definition isSameWhamCredential (expected : AuthProfileCredential) (current : option AuthProfileCredential)
    : bool :=
  match expected, current with
  | OAuth e, Some (OAuth c) =>
      bool_decide (normalizeProviderId (oa_provider e) = normalizeProviderId (oa_provider c))
        && secret_eqb (oa_access e) (oa_access c) && bool_decide (oa_accountId e = oa_accountId c)
  | _, _ => false
  end.

Definition positive_number (v : nval) : option num :=
  match v with VNum x => if isFinite x && num_lt (of_Z 0) x then Some x else None | _ => None end.

Definition resolveWhamResetMs (window : option WhamUsageWindow) (now : Z) : option num :=
  match window with
  | None => None
  | Some window =>
      match positive_number (ww_reset_after_seconds window) with
      | Some seconds => positiveSecondsToSafeMilliseconds (VNum seconds)
      | None =>
          match positive_number (ww_reset_at window) with
          | Some seconds =>
              match resolveExpiresAtMsFromEpochSeconds (VNum seconds) None None with
              | Some resetAtMs => Some (math_max (of_Z 0) (num_sub resetAtMs (of_Z now)))
              | None => None
              end
          | None => None
          end
      end
  end.

Definition isWhamWindowExhausted (window : option WhamUsageWindow) : bool :=
  match window with
  | Some w => match ww_used_percent w with VNum x => isFinite x && num_le (of_Z 100) x | _ => false end
  | None => false
  end.

Definition wham_blocked (now : Z) (resetMs : option num) (reason : WhamReason) : WhamCooldownProbeResult :=
  match resetMs with
  | None => wham_failed
  | Some resetMs =>
      {| wp_cooldownMs := WHAM_BURST_COOLDOWN_MS; wp_reason := reason;
         wp_blockedUntil := Some (resolveUsageWindowUntil now resetMs); wp_blockedSource := Some Wham |}
  end.

Definition probeWhamForCooldown (store : AuthProfileStore) (profileId : jstr) (response : WhamResponse)
    : option WhamCooldownProbeResult :=
  match profile_of store profileId with
  | Some (OAuth c) =>
      if negb (secret_truthy (oa_access c)) then None
      else Some
        match response with
        | WhamStatus status =>
            if status =? 401 then wham_cooldown WHAM_TOKEN_EXPIRED_COOLDOWN_MS wham_token_expired
            else if status =? 403 then wham_cooldown WHAM_DEAD_ACCOUNT_COOLDOWN_MS wham_account_dead
            else wham_cooldown WHAM_HTTP_ERROR_COOLDOWN_MS wham_http_error
        | WhamBody None _ => wham_failed
        | WhamBody (Some rate_limit) now =>
            if bool_decide (wr_limit_reached rate_limit = Some false)
            then wham_cooldown WHAM_BURST_COOLDOWN_MS wham_burst_contention
            else
              let primaryResetMs := resolveWhamResetMs (wr_primary_window rate_limit) now in
              let secondaryResetMs := resolveWhamResetMs (wr_secondary_window rate_limit) now in
              match wr_secondary_window rate_limit with
              | None => wham_blocked now primaryResetMs wham_personal_rolling
              | Some _ =>
                  if isWhamWindowExhausted (wr_secondary_window rate_limit)
                  then wham_blocked now secondaryResetMs wham_team_weekly
                  else if isWhamWindowExhausted (wr_primary_window rate_limit)
                  then wham_blocked now primaryResetMs wham_team_rolling
                  else wham_failed
              end
        | WhamThrew => wham_failed
        end
  | _ => None
  end.

Definition active_or_zero (until : option Z) (now : Z) : Z :=
  match until with Some t => if now <? t then t else 0 | None => 0 end.

Definition applyWhamCooldownResult (existing computed : ProfileUsageStats) (now : Z)
    (whamResult : WhamCooldownProbeResult) : ProfileUsageStats :=
  let existingActiveCooldownUntil := active_or_zero (us_cooldownUntil existing) now in
  let existingActiveBlockedUntil := active_or_zero (us_blockedUntil existing) now in
  let cooled :=
    with_cooldown
      (Some (Z.max existingActiveCooldownUntil (resolveUsageWindowUntil now (of_Z (wp_cooldownMs whamResult)))))
      (us_cooldownReason computed) (us_cooldownModel computed) computed in
  match wp_blockedUntil whamResult with
  | None => cooled
  | Some blockedUntil =>
      if blockedUntil =? 0 then cooled
      else
        with_cooldown None None None
          (with_blocked (Some (Z.max existingActiveBlockedUntil blockedUntil)) (Some SubscriptionLimit)
             (Some (default Wham (wp_blockedSource whamResult))) None None computed)
  end.

(** ** The operations *)

(** What a call leaves: the store of the caller, and the store written to the
    file, [None] when nothing is. *)
Record StoreUpdate := {
  su_store : AuthProfileStore;
  su_saved : option AuthProfileStore;
}.

Definition dropped (store : AuthProfileStore) : StoreUpdate := {| su_store := store; su_saved := None |}.

(** [updateAuthProfileStoreWithLock], and the caller taking over the records: the
    file as it is under the lock, [None] when the update failed, and the updater,
    [None] when there is nothing to save. *)
Definition update_with_lock (store : AuthProfileStore) (fresh : option AuthProfileStore)
    (updater : AuthProfileStore -> option AuthProfileStore) : StoreUpdate :=
  match fresh with
  | None => dropped store
  | Some fresh =>
      let saved := updater fresh in
      {| su_store := with_usage (as_usageStats (default fresh saved)) store; su_saved := saved |}
  end.

Definition updateUsageStatsEntry (profileId : jstr)
    (updater : option ProfileUsageStats -> ProfileUsageStats) (store : AuthProfileStore) : AuthProfileStore :=
  let usage := default [] (as_usageStats store) in
  with_usage (Some (jm_set profileId (updater (jm_get profileId usage)) usage)) store.

(** The profile, unless it is gone or cooldowns do not apply to it. *)
Definition cooled_profile (store : AuthProfileStore) (profileId : jstr) : option AuthProfileCredential :=
  match profile_of store profileId with
  | Some profile =>
      if isAuthCooldownBypassedForProvider (Some (cred_provider profile)) then None else Some profile
  | None => None
  end.

(** The result of the probe, if it is of the credential the file holds now. *)
Definition current_wham_result (profile : AuthProfileCredential) (reason : AuthProfileFailureReason)
    (whamResult : option WhamCooldownProbeResult) (profileValue : AuthProfileCredential) (now : Z)
    : option WhamCooldownProbeResult :=
  match whamResult with
  | Some r =>
      if shouldProbeWhamForFailure (Some profileValue) reason now
         && isSameWhamCredential profile (Some profileValue) then Some r else None
  | None => None
  end.

Definition next_stats (previous : ProfileUsageStats) (now : Z) (reason : AuthProfileFailureReason)
    (cfg : ResolvedAuthCooldownConfig) (modelId : option jstr) (wham : option WhamCooldownProbeResult)
    : ProfileUsageStats :=
  let computed := computeNextProfileUsageStats previous now reason cfg modelId in
  match wham with
  | Some r => applyWhamCooldownResult previous computed now r
  | None => computed
  end.

Definition failure_updater (cooldowns : option CooldownsConfig) (profile : AuthProfileCredential)
    (profileId : jstr) (reason : AuthProfileFailureReason) (modelId : option jstr)
    (whamResult : option WhamCooldownProbeResult) (now : Z) (freshStore : AuthProfileStore)
    : option AuthProfileStore :=
  match cooled_profile freshStore profileId with
  | None => None
  | Some profileValue =>
      let currentWhamResult := current_wham_result profile reason whamResult profileValue now in
      if bool_decide (reason = FailNoErrorDetails) && negb (bool_decide (is_Some currentWhamResult)) then None
      else
        let cfgResolved :=
          resolveAuthCooldownConfig cooldowns (normalizeProviderId (cred_provider profileValue)) in
        Some (updateUsageStatsEntry profileId (fun previousStats =>
          next_stats (default no_stats previousStats) now reason cfgResolved modelId currentWhamResult)
          freshStore)
  end.

(** [startedAt] is when the call decides to probe and [now] when it holds the
    lock, with [fresh] the file then. *)
Definition markAuthProfileFailure (cooldowns : option CooldownsConfig) (store : AuthProfileStore)
    (profileId : jstr) (reason : AuthProfileFailureReason) (modelId : option jstr) (startedAt : Z)
    (response : WhamResponse) (fresh : option AuthProfileStore) (now : Z) : StoreUpdate :=
  match cooled_profile store profileId with
  | None => dropped store
  | Some profile =>
      let shouldProbeWham := shouldProbeWhamForFailure (Some profile) reason startedAt in
      if bool_decide (reason = FailNoErrorDetails) && negb shouldProbeWham then dropped store
      else
        let whamResult := if shouldProbeWham then probeWhamForCooldown store profileId response else None in
        update_with_lock store fresh
          (failure_updater cooldowns profile profileId reason modelId whamResult now)
  end.

Definition markAuthProfileCooldown (store : AuthProfileStore) (profileId : jstr) (startedAt : Z)
    (response : WhamResponse) (fresh : option AuthProfileStore) (now : Z) : StoreUpdate :=
  markAuthProfileFailure None store profileId FailUnknown None startedAt response fresh now.

Definition buildBlockedProfileUsageStats (previousStats : option ProfileUsageStats) (blockedUntil : Z)
    (source : AuthProfileBlockedSource) (modelId : option jstr) (now : Z) : ProfileUsageStats :=
  let previous := default no_stats previousStats in
  let activeBlockedUntil := resolveActiveWindowUntil (us_blockedUntil previous) now in
  let blockedModel :=
    if activeBlockedUntil =? 0 then modelId
    else if bool_decide (is_Some (us_blockedScope previous))
            && bool_decide (us_blockedModel previous = modelId) && truthy_opt modelId
    then modelId else None in
  with_times (us_lastUsed previous) (Some now)
    (with_counts (us_errorCount previous)
       (Some (count_failure FailRateLimit (default [] (us_failureCounts previous))))
       (with_cooldown None None None
          (with_blocked (Some (Z.max activeBlockedUntil blockedUntil)) (Some SubscriptionLimit) (Some source)
             blockedModel (if truthy_opt blockedModel then Some ModelScope else None) previous))).

Definition markAuthProfileBlockedUntil (store : AuthProfileStore) (profileId : jstr) (blockedUntil : Z)
    (source : AuthProfileBlockedSource) (modelId : option jstr) (startedAt : Z)
    (fresh : option AuthProfileStore) (now : Z) : StoreUpdate :=
  match cooled_profile store profileId with
  | None => dropped store
  | Some _ =>
      if negb (isFutureDateTimestampMs (VNum (of_Z blockedUntil)) (of_Z startedAt)) then dropped store
      else
        update_with_lock store fresh (fun freshStore =>
          match cooled_profile freshStore profileId, date_timestamp (Some now) with
          | Some _, Some now =>
              Some (updateUsageStatsEntry profileId (fun previousStats =>
                buildBlockedProfileUsageStats previousStats blockedUntil source modelId now) freshStore)
          | _, _ => None
          end)
  end.

Definition resetUsageStats (existing : option ProfileUsageStats) : ProfileUsageStats :=
  with_counts (Some 0) None
    (with_blocked None None None None None
       (with_cooldown None None None (with_disabled None None (default no_stats existing)))).

Definition clearAuthProfileCooldown (store : AuthProfileStore) (profileId : jstr)
    (fresh : option AuthProfileStore) : StoreUpdate :=
  update_with_lock store fresh (fun freshStore =>
    match stats_of freshStore profileId with
    | None => None
    | Some _ => Some (updateUsageStatsEntry profileId resetUsageStats freshStore)
    end).

(** The scope of a block is kept. *)
Definition resetSuccessfulUsageStats (existing : option ProfileUsageStats) (lastUsed : Z) : ProfileUsageStats :=
  let existing := default no_stats existing in
  with_times (Some lastUsed) (us_lastFailureAt existing)
    (with_counts (Some 0) None
       (with_blocked None None None None (us_blockedScope existing)
          (with_cooldown None None None (with_disabled None None existing)))).

Definition updateSuccessfulUsageStatsEntry (profileId : jstr) (lastUsed : Z) (store : AuthProfileStore)
    : AuthProfileStore :=
  updateUsageStatsEntry profileId (fun existing => resetSuccessfulUsageStats existing lastUsed) store.

Definition with_last_good (providerKey profileId : jstr) (store : AuthProfileStore) : AuthProfileStore := {|
  as_profiles := as_profiles store; as_order := as_order store;
  as_lastGood := Some (jm_set providerKey profileId (default [] (as_lastGood store)));
  as_usageStats := as_usageStats store |}.

Definition markAuthProfileSuccess (aliases : AliasMap) (store : AuthProfileStore) (provider profileId : jstr)
    (fresh : option AuthProfileStore) (lastUsed : Z) : StoreUpdate :=
  let providerKey := resolveProviderIdForAuth aliases provider in
  let updater freshStore :=
    match profile_of freshStore profileId with
    | None => None
    | Some profile =>
        if negb (bool_decide (resolveProviderIdForAuth aliases (cred_provider profile) = providerKey)) then None
        else Some (updateSuccessfulUsageStatsEntry profileId lastUsed
                     (with_last_good providerKey profileId freshStore))
    end in
  match fresh with
  | None => dropped store
  | Some freshStore =>
      let saved := updater freshStore in
      let updated := default freshStore saved in
      {| su_store := {| as_profiles := as_profiles store; as_order := as_order store;
                        as_lastGood := as_lastGood updated; as_usageStats := as_usageStats updated |};
         su_saved := saved |}
  end.
(** ** What is shown of it *)

Definition resolveProfileUnusableUntilForDisplay (store : AuthProfileStore) (profileId : jstr) : option Z :=
  if isAuthCooldownBypassedForProvider (cred_provider <$> profile_of store profileId) then None
  else match stats_of store profileId with
       | None => None
       | Some stats => resolveProfileUnusableUntil stats None
       end.

(** Without [FailSessionExpired]. *)
Definition FAILURE_REASON_PRIORITY : list AuthProfileFailureReason :=
  [FailAuthPermanent; FailAuth; FailBilling; FailFormat; FailModelNotFound; FailOverloaded; FailTimeout;
   FailRateLimit; FailEmptyResponse; FailNoErrorDetails; FailUnclassified; FailUnknown].

Definition in_reason_set (reason : AuthProfileFailureReason) : bool :=
  bool_decide (reason ∈ FAILURE_REASON_PRIORITY).

Definition addScore (reason : AuthProfileFailureReason) (value : Z) (scores : FailureCounts) : FailureCounts :=
  if negb (in_reason_set reason) || (value <=? 0) then scores
  else jm_set reason (default 0 (jm_get reason scores) + value) scores.

Definition score_profile (store : AuthProfileStore) (now : Z) (scores : FailureCounts) (profileId : jstr)
    : FailureCounts :=
  match stats_of store profileId with
  | None => scores
  | Some stats =>
      let cooled :=
        if isActiveUnusableWindow (us_blockedUntil stats) now then addScore FailRateLimit 1000 scores
        else if negb (isActiveUnusableWindow (us_cooldownUntil stats) now) then scores
        else
          let counted := filter (fun '(reason, count) => in_reason_set reason && (0 <? count))
                           (default [] (us_failureCounts stats)) in
          match counted with
          | [] => addScore FailUnknown 1 scores
          | _ => fold_left (fun scores '(reason, count) => addScore reason count scores) counted scores
          end in
      match us_disabledReason stats with
      | Some reason =>
          if isActiveUnusableWindow (us_disabledUntil stats) now && in_reason_set reason
          then addScore reason 1000 scores else cooled
      | None => cooled
      end
  end.

(** The best score; of equal ones the first in the order of priority. *)
Definition best_reason (scores : FailureCounts) : option AuthProfileFailureReason :=
  fst <$> fold_left (fun best reason =>
    match jm_get reason scores with
    | None => best
    | Some score =>
        match best with
        | Some (_, bestScore) => if bestScore <? score then Some (reason, score) else best
        | None => Some (reason, score)
        end
    end) FAILURE_REASON_PRIORITY None.

Definition resolveProfilesUnavailableReason (store : AuthProfileStore) (profileIds : list jstr) (now : Z)
    : option AuthProfileFailureReason :=
  best_reason (fold_left (score_profile store now) profileIds []).
