(* ===== verification/ProfileCooldowns.v ===== *)
(** * What holds of cooldowns

    Theorems on [ProfileUsage] and [ProfileFailures].  What a record says from an
    instant on is its [live_view]: the windows that are still open and the counts that
    still stand; the code decides from it, so records with one view behave alike,
    which is why windows that are over can be cleared at any time.  Then runs of
    failures: a window that is open does not move, it holds for every model that
    failed in it, and a spell of failures of one kind waits as after a single
    one. *)
From S2P Require Import Prelude JsString JsMap JsNumber NumberCoercion Normalization AuthCredentials ProfileUsage ProfileFailures.
#[local] Open Scope Z_scope.

(** ** Definitions *)

(** A profile that cooldowns apply to, by its record. *)
Definition stats_in_cooldown (s : ProfileUsageStats) (now : Z) (forModel : option jstr) : bool :=
  if shouldBypassModelScopedCooldown s now forModel then false
  else match resolveProfileUnusableUntil s forModel with
       | Some until => now <? until
       | None => false
       end.

(** A model of which a cooldown of another does not hold. *)
Definition scoped_elsewhere (reason : option AuthProfileFailureReason) (model forModel : option jstr) : bool :=
  truthy_opt forModel && isModelScopedCooldownReason reason && truthy_opt model
    && negb (bool_decide (model = forModel)).

Definition block_elsewhere (scope : option BlockedScope) (model forModel : option jstr) : bool :=
  truthy_opt forModel && bool_decide (is_Some scope) && truthy_opt model
    && negb (bool_decide (model = forModel)).

(** A failure: when, why, and of which model. *)
Record Failure := {
  fl_at : Z;
  fl_reason : AuthProfileFailureReason;
  fl_model : option jstr;
}.

(** What is left of a record. *)
Record View := {
  vw_cooldown : option (Z * (option AuthProfileFailureReason * option jstr));
  vw_block : option (Z * (option BlockedScope * option jstr));
  vw_disabled : option (Z * ());
  vw_errors : Z;
  vw_counts : FailureCounts;
  vw_lastFailureAt : option Z;
}.

Definition open_window {A} (until : option Z) (now : Z) (rest : A) : option (Z * A) :=
  match until with
  | Some t => if isActiveUnusableWindow until now then Some (t, rest) else None
  | None => None
  end.

(** Every window of the record is over. *)
Definition spell_over (s : ProfileUsageStats) (now : Z) : bool :=
  match resolveProfileUnusableUntil s None with Some until => until <=? now | None => false end.

Definition live_view (now : Z) (s : ProfileUsageStats) : View := {|
  vw_cooldown := open_window (us_cooldownUntil s) now (us_cooldownReason s, us_cooldownModel s);
  vw_block := open_window (us_blockedUntil s) now (us_blockedScope s, us_blockedModel s);
  vw_disabled := open_window (us_disabledUntil s) now ();
  vw_errors := if spell_over s now then 0 else default 0 (us_errorCount s);
  vw_counts := if spell_over s now then [] else default [] (us_failureCounts s);
  vw_lastFailureAt := us_lastFailureAt s |}.

Definition still_open {A} (now : Z) (w : option (Z * A)) : option (Z * A) :=
  match w with Some (t, rest) => if now <? t then Some (t, rest) else None | None => None end.

Definition nothing_open (v : View) : bool :=
  match vw_cooldown v, vw_block v, vw_disabled v with None, None, None => true | _, _, _ => false end.

(** Counts stand as long as a window does. *)
Definition settle_view (v : View) : View :=
  if nothing_open v then
    {| vw_cooldown := None; vw_block := None; vw_disabled := None; vw_errors := 0; vw_counts := [];
       vw_lastFailureAt := vw_lastFailureAt v |}
  else v.

(** Time passes. *)
Definition advance (now : Z) (v : View) : View :=
  if nothing_open v then v
  else settle_view {|
    vw_cooldown := still_open now (vw_cooldown v); vw_block := still_open now (vw_block v);
    vw_disabled := still_open now (vw_disabled v); vw_errors := vw_errors v; vw_counts := vw_counts v;
    vw_lastFailureAt := vw_lastFailureAt v |}.

Definition holds_for {A} (elsewhere : A -> bool) (w : option (Z * A)) (now : Z) : bool :=
  match w with Some (t, rest) => negb (elsewhere rest) && (now <? t) | None => false end.

Definition view_in_cooldown (v : View) (now : Z) (forModel : option jstr) : bool :=
  holds_for (fun '(scope, model) => block_elsewhere scope model forModel) (vw_block v) now
  || holds_for (fun _ => false) (vw_disabled v) now
  || holds_for (fun '(reason, model) => scoped_elsewhere reason model forModel) (vw_cooldown v) now.

(** A failure, of a view: an open window stays as it is. *)
Definition joined_model (w : option (Z * (option AuthProfileFailureReason * option jstr)))
    (reason : AuthProfileFailureReason) (modelId : option jstr) : option jstr :=
  let scoped := isModelScopedCooldownReason (Some reason) in
  match w with
  | None => if scoped then modelId else None
  | Some (_, (_, model)) =>
      if truthy_opt model && truthy_opt modelId && negb (bool_decide (model = modelId)) then None
      else if scoped && negb (truthy_opt modelId) && truthy_opt model then None
      else if negb scoped then None else model
  end.

Definition fail_view (cfg : ResolvedAuthCooldownConfig) (v : View) (f : Failure) : View :=
  let now := fl_at f in
  let reason := fl_reason f in
  let stale := match vw_lastFailureAt v with
               | Some last => (0 <? last) && num_lt (rc_failureWindowMs cfg) (of_Z (now - last))
               | None => false
               end in
  let errors := (if stale then 0 else vw_errors v) + 1 in
  let counts := count_failure reason (if stale then [] else vw_counts v) in
  let disabledBackoff d := resolveDisabledFailureBackoffMs d (default 1 (jm_get reason counts)) cfg in
  settle_view {|
    vw_cooldown :=
      match disabled_reason reason, vw_cooldown v with
      | Some _, w => w
      | None, Some (t, rest) => Some (t, (Some reason, joined_model (vw_cooldown v) reason (fl_model f)))
      | None, None =>
          still_open now
            (Some (resolveUsageWindowUntil now (of_Z (calculateAuthProfileCooldownMs errors)),
                   (Some reason, joined_model None reason (fl_model f))))
      end;
    vw_block := vw_block v;
    vw_disabled :=
      match disabled_reason reason, vw_disabled v with
      | Some d, None => still_open now (Some (resolveUsageWindowUntil now (disabledBackoff d), ()))
      | _, w => w
      end;
    vw_errors := errors; vw_counts := counts; vw_lastFailureAt := Some now |}.

(** Windows are instants of dates. *)
Definition dated (s : ProfileUsageStats) : Prop :=
  forall t, Some t ∈ [us_cooldownUntil s; us_blockedUntil s; us_disabledUntil s] -> t <= MAX_DATE_TIMESTAMP_MS.

Definition fail (cfg : ResolvedAuthCooldownConfig) (s : ProfileUsageStats) (f : Failure) : ProfileUsageStats :=
  computeNextProfileUsageStats s (fl_at f) (fl_reason f) cfg (fl_model f).

Definition failing (cfg : ResolvedAuthCooldownConfig) (fs : list Failure) (s : ProfileUsageStats)
    : ProfileUsageStats :=
  fold_left (fail cfg) fs s.

(** One failure after another, no later than [t]. *)
Fixpoint in_order (from : Z) (fs : list Failure) (t : Z) : Prop :=
  match fs with
  | [] => from <= t
  | f :: fs => from <= fl_at f /\ in_order (fl_at f) fs t
  end.

(** A record of no failure: no window and no count. *)
Definition clean (s : ProfileUsageStats) : Prop :=
  us_cooldownUntil s = None /\ us_blockedUntil s = None /\ us_disabledUntil s = None /\
  default 0 (us_errorCount s) = 0 /\ default [] (us_failureCounts s) = [].

(** ** Windows *)

Lemma date_timestamp_Some o t : date_timestamp o = Some t <-> o = Some t /\ Z.abs t <= MAX_DATE_TIMESTAMP_MS.
Proof.
  unfold date_timestamp. destruct o as [z|]; [|naive_solver]. destruct (Z.leb_spec (Z.abs z) MAX_DATE_TIMESTAMP_MS).
  - split; [intros [= ->]; done|]. by intros [[= ->] _].
  - split; [done|]. intros [[= ->] ?]. lia.
Qed.

Lemma window_until_Some o t :
  window_until o = Some t <-> o = Some t /\ 0 < t <= MAX_DATE_TIMESTAMP_MS.
Proof.
  unfold window_until. destruct (date_timestamp o) as [z|] eqn:E.
  - apply date_timestamp_Some in E as [-> H]. destruct (Z.ltb_spec 0 z).
    + split; [intros [= ->]; split; [done|lia]|]. by intros [[= ->] _].
    + split; [done|]. intros [[= ->] ?]. lia.
  - split; [done|]. intros [-> ?]. enough (date_timestamp (Some t) = Some t) by congruence.
    apply date_timestamp_Some. split; [done|lia].
Qed.

Lemma active_spec o now :
  isActiveUnusableWindow o now = true <-> exists t, o = Some t /\ 0 < t <= MAX_DATE_TIMESTAMP_MS /\ now < t.
Proof.
  unfold isActiveUnusableWindow. destruct (window_until o) as [t|] eqn:E.
  - apply window_until_Some in E as [-> H]. rewrite Z.ltb_lt. naive_solver.
  - split; [done|]. intros (t & -> & H & _). enough (window_until (Some t) = Some t) by congruence.
    by apply window_until_Some.
Qed.

Lemma active_later o now t : now <= t -> isActiveUnusableWindow o t = true -> isActiveUnusableWindow o now = true.
Proof. intros Hle (u & -> & H & Hlt)%active_spec. apply active_spec. exists u. split_and!; try done; lia. Qed.

Lemma fold_max_lt l a t : (t <? fold_left Z.max l a) = (t <? a) || existsb (Z.ltb t) l.
Proof.
  revert a. induction l as [|x l IH]; intros a; cbn [fold_left existsb]; [by rewrite orb_false_r|].
  rewrite IH, orb_assoc. f_equal. destruct (Z.ltb_spec t (Z.max a x)), (Z.ltb_spec t a), (Z.ltb_spec t x);
    simpl; try done; lia.
Qed.

Lemma max_of_lt l t : match max_of l with Some u => t <? u | None => false end = existsb (Z.ltb t) l.
Proof. destruct l as [|x l]; [done|]. cbn [max_of existsb]. apply fold_max_lt. Qed.

Lemma windows_lt l t :
  existsb (Z.ltb t) (omap window_until l) = existsb (fun o => isActiveUnusableWindow o t) l.
Proof.
  induction l as [|o l IH]; [done|]. cbn [existsb]. rewrite <- IH. unfold isActiveUnusableWindow at 1.
  simpl. by destruct (window_until o).
Qed.

(** A profile is in cooldown when it is blocked or disabled, or cooling for the
    model asked for. *)
Lemma in_cooldown_windows s now forModel :
  stats_in_cooldown s now forModel =
    (negb (block_elsewhere (us_blockedScope s) (us_blockedModel s) forModel)
       && isActiveUnusableWindow (us_blockedUntil s) now)
    || isActiveUnusableWindow (us_disabledUntil s) now
    || (negb (scoped_elsewhere (us_cooldownReason s) (us_cooldownModel s) forModel)
          && isActiveUnusableWindow (us_cooldownUntil s) now).
Proof.
  unfold stats_in_cooldown, resolveProfileUnusableUntil, shouldBypassModelScopedCooldown,
    isBlockedWindowActiveForModel. rewrite max_of_lt, windows_lt.
  change (isBlockScopedToDifferentModel s forModel) with
    (block_elsewhere (us_blockedScope s) (us_blockedModel s) forModel).
  change (truthy_opt forModel && isModelScopedCooldownReason (us_cooldownReason s)
    && truthy_opt (us_cooldownModel s) && negb (bool_decide (us_cooldownModel s = forModel))) with
    (scoped_elsewhere (us_cooldownReason s) (us_cooldownModel s) forModel).
  cbn [existsb].
  destruct (block_elsewhere _ _ _), (scoped_elsewhere _ _ _), (isActiveUnusableWindow (us_blockedUntil s) now),
    (isActiveUnusableWindow (us_disabledUntil s) now), (isActiveUnusableWindow (us_cooldownUntil s) now); done.
Qed.

Lemma isProfileInCooldown_stats store p now forModel s :
  isAuthCooldownBypassedForProvider (cred_provider <$> profile_of store p) = false ->
  stats_of store p = Some s -> isProfileInCooldown store p now forModel = stats_in_cooldown s now forModel.
Proof. intros H1 H2. unfold isProfileInCooldown. by rewrite H1, H2. Qed.

(** ** Durations *)

Lemma date_timestamp_of_Z z : Z.abs z <= MAX_DATE_TIMESTAMP_MS -> asDateTimestampMs (VNum (of_Z z)) = Some (of_Z z).
Proof.
  intros H. unfold asDateTimestampMs, asFiniteNumberInRange.
  cbn [asFiniteNumber isFinite of_Z rg_min rg_max rg_minExclusive rg_maxExclusive].
  change (Fin (inject_Z z)) with (of_Z z). rewrite !num_lt_of_Z, !(proj2 (Z.ltb_ge _ _)) by lia. done.
Qed.

Lemma hasIsoString_of_Z z : hasIsoString (of_Z z) = (Z.abs z <=? MAX_DATE_TIMESTAMP_MS).
Proof.
  unfold hasIsoString. destruct (Z.leb_spec (Z.abs z) MAX_DATE_TIMESTAMP_MS) as [H|H].
  - by rewrite date_timestamp_of_Z.
  - apply bool_decide_eq_false. intros [r Hr]. apply asDateTimestampMs_bounds in Hr as (_ & H1 & H2).
    rewrite num_lt_of_Z in H1, H2. apply Z.ltb_ge in H1, H2. lia.
Qed.

Lemma expires_of_Z now d : 0 < now <= MAX_DATE_TIMESTAMP_MS -> 1 <= d ->
  resolveExpiresAtMsFromDurationMs (VNum (of_Z d)) (of_Z now) None None =
    if now + d <=? MAX_DATE_TIMESTAMP_MS then Some (of_Z (now + d)) else None.
Proof.
  intros Hn Hd. unfold resolveExpiresAtMsFromDurationMs, asPositiveSafeInteger.
  rewrite isSafeInteger_of_Z, num_lt_of_Z, (proj2 (Z.ltb_lt 0 d)), andb_true_r by lia.
  assert (MAX_SAFE_INTEGER = 2 ^ 53 - 1) as HS by done.
  assert (MAX_DATE_TIMESTAMP_MS = 8640000000000000) as HM by done.
  destruct (Z.leb_spec (Z.abs d) MAX_SAFE_INTEGER).
  2: { rewrite (proj2 (Z.leb_gt _ _)) by lia. done. }
  rewrite date_timestamp_of_Z by lia. cbn [default asFiniteNumber isFinite of_Z].
  change (Fin (inject_Z (now))) with (of_Z now). change (Fin (inject_Z d)) with (of_Z d).
  change (Fin (inject_Z 0)) with (of_Z 0).
  destruct (Z.leb_spec (now + d) (2 ^ 53)).
  - rewrite add_exact, sub_exact, Z.sub_0_r, isSafeInteger_of_Z, hasIsoString_of_Z by lia.
    destruct (Z.leb_spec (now + d) MAX_DATE_TIMESTAMP_MS).
    + rewrite !(proj2 (Z.leb_le _ _)) by lia. done.
    + rewrite (proj2 (Z.leb_gt (Z.abs (now + d)) MAX_DATE_TIMESTAMP_MS)) by lia.
      cbn [negb]. by rewrite orb_true_r.
  - rewrite (proj2 (Z.leb_gt (now + d) MAX_DATE_TIMESTAMP_MS)) by lia.
    destruct (round_large (now + d)) as (m & Hm & Hmb); [lia|].
    replace (num_add (of_Z now) (of_Z d)) with (of_Z m).
    2: { rewrite <- Hm. unfold num_add, of_Z. f_equal. unfold inject_Z, Qplus. cbn. by rewrite !Z.mul_1_r. }
    assert (exists m', num_sub (of_Z m) (of_Z 0) = of_Z m' /\ 2 ^ 53 <= m') as (m' & -> & Hm').
    { unfold num_sub, num_add. cbn [num_neg of_Z].
      replace (inject_Z m + - inject_Z 0)%Q with (inject_Z m).
      2: { unfold inject_Z, Qplus. cbn. by rewrite !Z.mul_1_r, Z.add_0_r. }
      destruct (decide (m = 2 ^ 53)) as [->|]; [exists (2 ^ 53); split; [by apply round_exact|lia]|].
      destruct (decide (m = 2 ^ 54)) as [->|]; [exists (2 ^ 54); split; [by vm_compute|lia]|].
      destruct (round_large m) as (m' & -> & ?); [lia|]. exists m'. split; [done|lia]. }
    rewrite isSafeInteger_of_Z, (proj2 (Z.leb_gt _ _)) by lia. done.
Qed.

(** The end of a window: exact, and the instant itself when no date is left. *)
Lemma resolveUsageWindowUntil_eq now x : 0 < now <= MAX_DATE_TIMESTAMP_MS ->
  resolveUsageWindowUntil now x =
    match x with
    | Fin q =>
        if Qle_bool q 0 then now
        else let d := Z.max 1 (Qfloor q) in
             if now + d <=? MAX_DATE_TIMESTAMP_MS then now + d else now
    | _ => now
    end.
Proof.
  intros Hn. unfold resolveUsageWindowUntil. destruct x as [| |q]; [done..|].
  cbn [isFinite negb orb num_le of_Z math_floor]. change (inject_Z 0) with 0%Q.
  destruct (Qle_bool q 0); [done|]. change (Fin (inject_Z 1)) with (of_Z 1).
  rewrite math_max_of_Z, expires_of_Z by lia. cbv zeta.
  destruct (_ <=? _); [|done]. cbn [mbind option_bind]. by rewrite to_Z_of_Z.
Qed.

Lemma window_bounds now x : 0 < now <= MAX_DATE_TIMESTAMP_MS ->
  now <= resolveUsageWindowUntil now x <= MAX_DATE_TIMESTAMP_MS.
Proof.
  intros Hn. rewrite resolveUsageWindowUntil_eq by done. destruct x as [| |q]; [lia..|].
  destruct (Qle_bool q 0); [lia|]. cbv zeta. destruct (Z.leb_spec (now + Z.max 1 (Qfloor q)) MAX_DATE_TIMESTAMP_MS); lia.
Qed.

(** ** The view of a record *)

Lemma open_window_Some {A} until now (rest : A) t r :
  open_window until now rest = Some (t, r) <->
  until = Some t /\ r = rest /\ 0 < t <= MAX_DATE_TIMESTAMP_MS /\ now < t.
Proof.
  unfold open_window. destruct until as [u|]; [|naive_solver].
  destruct (isActiveUnusableWindow (Some u) now) eqn:E.
  - apply active_spec in E as (t' & [= ->] & H & Hlt). naive_solver.
  - split; [done|]. intros ([= ->] & _ & H & Hlt).
    assert (isActiveUnusableWindow (Some t) now = true) by (apply active_spec; eauto). congruence.
Qed.

Lemma open_window_None {A} until now (rest : A) :
  open_window until now rest = None <-> isActiveUnusableWindow until now = false.
Proof.
  unfold open_window. destruct until as [t|]; [|done]. destruct (isActiveUnusableWindow _ _); done.
Qed.

Lemma active_open {A} until now t (rest : A) : now <= t ->
  isActiveUnusableWindow until t = match open_window until now rest with Some (u, _) => t <? u | None => false end.
Proof.
  intros Hle. destruct (open_window until now rest) as [[u r]|] eqn:E.
  - apply open_window_Some in E as (-> & _ & H & Hlt). unfold isActiveUnusableWindow.
    assert (window_until (Some u) = Some u) as -> by by apply window_until_Some. done.
  - apply open_window_None in E. apply not_true_iff_false. intros Ht.
    by rewrite (active_later _ now t) in E.
Qed.

Lemma still_open_window {A} until now t (rest : A) : now <= t ->
  open_window until t rest = still_open t (open_window until now rest).
Proof.
  intros Hle. destruct (open_window until t rest) as [[u r]|] eqn:E.
  - apply open_window_Some in E as (-> & -> & H & Hlt).
    assert (open_window (Some u) now rest = Some (u, rest)) as ->.
    { apply open_window_Some. split_and!; try done; lia. }
    cbn [still_open]. by rewrite (proj2 (Z.ltb_lt _ _)).
  - apply open_window_None in E. rewrite (active_open _ now t rest) in E by done.
    destruct (open_window until now rest) as [[u r]|]; [|done]. cbn [still_open]. by rewrite E.
Qed.

Lemma holds_for_window {A} (elsewhere : A -> bool) until now t rest : now <= t ->
  negb (elsewhere rest) && isActiveUnusableWindow until t = holds_for elsewhere (open_window until now rest) t.
Proof.
  intros Hle. rewrite (active_open _ now t rest) by done.
  destruct (open_window until now rest) as [[u r]|] eqn:E; [|by rewrite andb_false_r].
  apply open_window_Some in E as (_ & -> & _). done.
Qed.

Lemma view_cooldown s now t forModel : now <= t ->
  stats_in_cooldown s t forModel = view_in_cooldown (live_view now s) t forModel.
Proof.
  intros Hle. rewrite in_cooldown_windows. unfold view_in_cooldown, live_view.
  cbn [vw_cooldown vw_block vw_disabled]. rewrite <- !holds_for_window by done. done.
Qed.

(** The windows of a record, and whether it has any. *)
Lemma max_of_None l : max_of l = None <-> l = [].
Proof. by destruct l. Qed.

Lemma some_window s :
  resolveProfileUnusableUntil s None = None <->
  window_until (us_blockedUntil s) = None /\ window_until (us_cooldownUntil s) = None /\
  window_until (us_disabledUntil s) = None.
Proof.
  unfold resolveProfileUnusableUntil. cbn [isBlockScopedToDifferentModel truthy_opt andb].
  rewrite max_of_None. simpl. destruct (window_until (us_blockedUntil s)), (window_until (us_cooldownUntil s)),
    (window_until (us_disabledUntil s)); naive_solver.
Qed.

Lemma spell_over_spec s now :
  spell_over s now = bool_decide (is_Some (resolveProfileUnusableUntil s None))
    && nothing_open (live_view now s).
Proof.
  unfold spell_over. destruct (resolveProfileUnusableUntil s None) as [u|] eqn:E; [|done].
  cbn [andb is_Some]. rewrite bool_decide_eq_true_2 by done. cbn [andb].
  assert ((now <? u) = existsb (fun o => isActiveUnusableWindow o now)
    [us_blockedUntil s; us_cooldownUntil s; us_disabledUntil s]) as H.
  { rewrite <- windows_lt, <- max_of_lt. unfold resolveProfileUnusableUntil in E.
    cbn [isBlockScopedToDifferentModel truthy_opt andb] in E. by rewrite E. }
  rewrite Z.leb_antisym, H. cbn [existsb]. unfold nothing_open, live_view.
  cbn [vw_cooldown vw_block vw_disabled]. unfold open_window.
  destruct (us_blockedUntil s) as [b|], (us_cooldownUntil s) as [c|], (us_disabledUntil s) as [d|]; simpl;
    repeat match goal with |- context [isActiveUnusableWindow ?o ?n] =>
      destruct (isActiveUnusableWindow o n) end; done.
Qed.

Lemma view_open s now : nothing_open (live_view now s) = false -> is_Some (resolveProfileUnusableUntil s None).
Proof.
  intros H. destruct (resolveProfileUnusableUntil s None) as [u|] eqn:E; [eauto|]. exfalso.
  apply some_window in E as (E1 & E2 & E3). unfold nothing_open, live_view, open_window in H.
  cbn [vw_cooldown vw_block vw_disabled] in H. unfold isActiveUnusableWindow in H. rewrite E1, E2, E3 in H.
  destruct (us_blockedUntil s), (us_cooldownUntil s), (us_disabledUntil s); done.
Qed.

Lemma view_settled s now : is_Some (resolveProfileUnusableUntil s None) ->
  live_view now s = settle_view {|
    vw_cooldown := vw_cooldown (live_view now s); vw_block := vw_block (live_view now s);
    vw_disabled := vw_disabled (live_view now s); vw_errors := default 0 (us_errorCount s);
    vw_counts := default [] (us_failureCounts s); vw_lastFailureAt := us_lastFailureAt s |}.
Proof.
  intros Hs. unfold settle_view. pose proof (spell_over_spec s now) as H.
  rewrite bool_decide_eq_true_2 in H by done. cbn [andb] in H. unfold nothing_open in *.
  cbn [vw_cooldown vw_block vw_disabled live_view] in *.
  destruct (open_window (us_cooldownUntil s) now _) eqn:E1, (open_window (us_blockedUntil s) now _) eqn:E2,
    (open_window (us_disabledUntil s) now _) eqn:E3; unfold live_view; rewrite H, E1, E2, E3; done.
Qed.

(** Time passing is a function of the view. *)
Lemma view_advance s now t : now <= t -> live_view t s = advance t (live_view now s).
Proof.
  intros Hle. unfold advance. destruct (nothing_open (live_view now s)) eqn:E.
  - assert (nothing_open (live_view t s) = true) as Et.
    { unfold nothing_open, live_view in *. cbn [vw_cooldown vw_block vw_disabled] in *.
      rewrite !(still_open_window _ now t) by done.
      destruct (open_window (us_cooldownUntil s) now _), (open_window (us_blockedUntil s) now _),
        (open_window (us_disabledUntil s) now _); done. }
    pose proof (spell_over_spec s now) as H1. pose proof (spell_over_spec s t) as H2.
    rewrite E in H1. rewrite Et, <- H1 in H2.
    unfold nothing_open, live_view in *. cbn [vw_cooldown vw_block vw_disabled] in *. rewrite H2.
    destruct (open_window (us_cooldownUntil s) now _), (open_window (us_blockedUntil s) now _),
      (open_window (us_disabledUntil s) now _), (open_window (us_cooldownUntil s) t _),
      (open_window (us_blockedUntil s) t _), (open_window (us_disabledUntil s) t _); done.
  - rewrite (view_settled s t) by by apply (view_open s now).
    assert (spell_over s now = false) as Hs by by rewrite spell_over_spec, E, andb_false_r.
    unfold live_view. cbn [vw_cooldown vw_block vw_disabled vw_errors vw_counts vw_lastFailureAt].
    rewrite Hs, !(still_open_window _ now t) by done. done.
Qed.

(** Clearing the windows that are over leaves the view. *)
Lemma window_expired_closed until now : window_expired until now = true -> isActiveUnusableWindow until now = false.
Proof.
  intros H. apply not_true_iff_false. intros (t & -> & Ht & Hlt)%active_spec. cbn in H.
  apply andb_true_iff in H as [_ H%Z.leb_le]. lia.
Qed.

Lemma window_expired_window until now : now <= MAX_DATE_TIMESTAMP_MS -> window_expired until now = true ->
  is_Some (window_until until).
Proof.
  intros Hn H. destruct until as [t|]; [|done]. cbn in H. apply andb_true_iff in H as [H1%Z.ltb_lt H2%Z.leb_le].
  exists t. apply window_until_Some. split; [done|lia].
Qed.

Lemma open_expired {A} until now (r : A) : window_expired until now = true -> open_window until now r = None.
Proof. intros H. by apply open_window_None, window_expired_closed. Qed.

(** The record before its counts are reset. *)
Lemma clear_expired_split now s : exists s2,
  (us_cooldownUntil s2, us_cooldownReason s2, us_cooldownModel s2) =
    (if window_expired (us_cooldownUntil s) now then (None, None, None)
     else (us_cooldownUntil s, us_cooldownReason s, us_cooldownModel s)) /\
  (us_blockedUntil s2, us_blockedScope s2, us_blockedModel s2) =
    (if window_expired (us_blockedUntil s) now then (None, None, None)
     else (us_blockedUntil s, us_blockedScope s, us_blockedModel s)) /\
  us_disabledUntil s2 = (if window_expired (us_disabledUntil s) now then None else us_disabledUntil s) /\
  us_errorCount s2 = us_errorCount s /\ us_failureCounts s2 = us_failureCounts s /\
  us_lastFailureAt s2 = us_lastFailureAt s /\
  let mutated := window_expired (us_cooldownUntil s) now || window_expired (us_blockedUntil s) now
                   || window_expired (us_disabledUntil s) now in
  (mutated = false -> s2 = s) /\
  clear_expired now s =
    (if mutated && negb (bool_decide (is_Some (resolveProfileUnusableUntil s2 None)))
     then with_counts (Some 0) None s2 else s2, mutated).
Proof.
  unfold clear_expired. cbv zeta.
  destruct (window_expired (us_cooldownUntil s) now), (window_expired (us_blockedUntil s) now),
    (window_expired (us_disabledUntil s) now); eexists; (split_and!; [..|intros ?|reflexivity]); try done.
Qed.

Lemma clear_expired_view now s : now <= MAX_DATE_TIMESTAMP_MS -> live_view now (fst (clear_expired now s)) = live_view now s.
Proof.
  intros Hn. destruct (clear_expired_split now s) as (s2 & Hc & Hb & Hd & He & Hf & Hl & Hid & ->). cbv zeta in Hid.
  destruct (_ || _ || _) eqn:Em; cbn [fst andb]; [|by rewrite Hid].
  assert (is_Some (resolveProfileUnusableUntil s None)) as Hs.
  { destruct (resolveProfileUnusableUntil s None) eqn:E; [eauto|]. apply some_window in E as (E1 & E2 & E3).
    apply orb_true_iff in Em as [[Em|Em]%orb_true_iff|Em]; apply (window_expired_window _ _ Hn) in Em as [??];
      congruence. }
  rewrite (view_settled s now) by done.
  assert (vw_cooldown (live_view now s2) = vw_cooldown (live_view now s)) as Vc.
  { unfold live_view. cbn [vw_cooldown]. destruct (window_expired (us_cooldownUntil s) now) eqn:E; injection Hc as -> -> ->; [|done].
    by rewrite (open_expired (us_cooldownUntil s)). }
  assert (vw_block (live_view now s2) = vw_block (live_view now s)) as Vb.
  { unfold live_view. cbn [vw_block]. destruct (window_expired (us_blockedUntil s) now) eqn:E; injection Hb as -> -> ->; [|done].
    by rewrite (open_expired (us_blockedUntil s)). }
  assert (vw_disabled (live_view now s2) = vw_disabled (live_view now s)) as Vd.
  { unfold live_view. cbn [vw_disabled]. rewrite Hd. destruct (window_expired (us_disabledUntil s) now) eqn:E; [|done].
    by rewrite (open_expired (us_disabledUntil s)). }
  destruct (resolveProfileUnusableUntil s2 None) as [u|] eqn:E2.
  - rewrite bool_decide_eq_true_2 by done. cbn [negb]. rewrite (view_settled s2 now) by by rewrite E2.
    by rewrite Vc, Vb, Vd, He, Hf, Hl.
  - rewrite bool_decide_eq_false_2 by by intros [? ?]. cbn [negb].
    assert (nothing_open (live_view now s2) = true) as Ho.
    { destruct (nothing_open (live_view now s2)) eqn:E; [done|]. apply view_open in E as [??]. congruence. }
    unfold nothing_open in Ho. rewrite Vc, Vb, Vd in Ho.
    unfold settle_view, nothing_open. cbn [vw_cooldown vw_block vw_disabled vw_lastFailureAt]. rewrite Ho.
    destruct (vw_cooldown (live_view now s)), (vw_block (live_view now s)), (vw_disabled (live_view now s)); try done.
    clear Ho. unfold live_view in *. cbn [vw_cooldown vw_block vw_disabled with_counts us_cooldownUntil us_blockedUntil
      us_disabledUntil us_cooldownReason us_cooldownModel us_blockedModel us_blockedScope us_errorCount
      us_failureCounts us_lastFailureAt default] in *.
    rewrite Vc, Vb, Vd, Hl. by destruct (spell_over _ _).
Qed.

(** ** Failures, of views *)

(** A window that is still open in a record is one of a date. *)
Lemma keep_open {A B} until now x (r : A) (r' : B) :
  0 < now -> (forall t, until = Some t -> t <= MAX_DATE_TIMESTAMP_MS) -> 0 < x <= MAX_DATE_TIMESTAMP_MS ->
  open_window (Some (keepActiveWindowOrRecompute until now x)) now r' =
    match open_window until now r with
    | Some (t, _) => Some (t, r')
    | None => still_open now (Some (x, r'))
    end.
Proof.
  intros Hn Hu Hx. unfold keepActiveWindowOrRecompute. cbn [still_open].
  assert (open_window (Some x) now r' = if now <? x then Some (x, r') else None) as Hopen.
  { destruct (Z.ltb_spec now x); [by apply open_window_Some|]. apply open_window_None, not_true_iff_false.
    intros (? & [= <-] & ? & ?)%active_spec. lia. }
  destruct until as [t|]; [|done]. specialize (Hu t eq_refl).
  destruct (Z.ltb_spec now t) as [Ht|Ht].
  - assert (0 < t <= MAX_DATE_TIMESTAMP_MS) as Hb by lia.
    rewrite (proj2 (open_window_Some _ _ r t r)), (proj2 (open_window_Some _ _ r' t r')); done.
  - rewrite (proj2 (open_window_None (Some t) now r)); [done|]. apply not_true_iff_false.
    intros (? & [= <-] & ? & ?)%active_spec. lia.
Qed.

Lemma keep_bounds until now x : 0 < now -> (forall t, until = Some t -> t <= MAX_DATE_TIMESTAMP_MS) ->
  0 < x <= MAX_DATE_TIMESTAMP_MS -> 0 < keepActiveWindowOrRecompute until now x <= MAX_DATE_TIMESTAMP_MS.
Proof.
  intros Hn Hu Hx. unfold keepActiveWindowOrRecompute. destruct until as [t|]; [|done].
  specialize (Hu t eq_refl). destruct (Z.ltb_spec now t); lia.
Qed.

Lemma joined_open s now reason m : 0 < now -> dated s ->
  next_cooldown_model s now reason m =
  joined_model (open_window (us_cooldownUntil s) now (us_cooldownReason s, us_cooldownModel s)) reason m.
Proof.
  intros Hn Hd. unfold next_cooldown_model.
  assert (isActiveUnusableWindow (us_cooldownUntil s) now =
    match us_cooldownUntil s with Some t => now <? t | None => false end) as E.
  { destruct (us_cooldownUntil s) as [t|] eqn:Et; [|done]. specialize (Hd t). rewrite Et in Hd.
    destruct (Z.ltb_spec now t).
    - apply active_spec. exists t. split; [done|]. specialize (Hd ltac:(set_solver)). lia.
    - apply not_true_iff_false. intros (? & [= <-] & ? & ?)%active_spec. lia. }
  rewrite <- E. unfold open_window. destruct (us_cooldownUntil s); [|done].
  by destruct (isActiveUnusableWindow _ _).
Qed.

Definition is_stale (cfg : ResolvedAuthCooldownConfig) (last : option Z) (now : Z) : bool :=
  match last with
  | Some last => (0 <? last) && num_lt (rc_failureWindowMs cfg) (of_Z (now - last))
  | None => false
  end.

Lemma base_counts {A} (cfg : ResolvedAuthCooldownConfig) s now (zero value : A) :
  (if shouldResetCounters s now (rc_failureWindowMs cfg) then zero else value) =
  (if is_stale cfg (us_lastFailureAt s) now then zero else if spell_over s now then zero else value).
Proof.
  unfold shouldResetCounters. change (match us_lastFailureAt s with Some _ => _ | None => false end) with
    (is_stale cfg (us_lastFailureAt s) now).
  change (match resolveProfileUnusableUntil s None with Some u => u <=? now | None => false end) with
    (spell_over s now).
  by destruct (is_stale _ _ _), (spell_over _ _).
Qed.

Lemma has_window s u :
  0 < u <= MAX_DATE_TIMESTAMP_MS -> us_cooldownUntil s = Some u \/ us_disabledUntil s = Some u ->
  is_Some (resolveProfileUnusableUntil s None).
Proof.
  intros Hu H. destruct (resolveProfileUnusableUntil s None) eqn:E; [eauto|]. apply some_window in E as (_ & E1 & E2).
  assert (window_until (Some u) = Some u) by by apply window_until_Some.
  destruct H as [H|H]; rewrite H in *; congruence.
Qed.

Lemma fail_dated cfg s f : 0 < fl_at f <= MAX_DATE_TIMESTAMP_MS -> dated s -> dated (fail cfg s f).
Proof.
  intros Hn Hd t. unfold fail, computeNextProfileUsageStats.
  assert (forall until x, Some t = Some (keepActiveWindowOrRecompute until (fl_at f)
    (resolveUsageWindowUntil (fl_at f) x)) -> until ∈ [us_cooldownUntil s; us_blockedUntil s; us_disabledUntil s] ->
    t <= MAX_DATE_TIMESTAMP_MS) as Hk.
  { intros w x [= ->] Hin. apply keep_bounds; [lia| |].
    - intros u ->. by apply Hd.
    - pose proof (window_bounds (fl_at f) x Hn). lia. }
  destruct (disabled_reason _) as [d|];
    cbn [with_disabled with_cooldown with_times with_counts us_cooldownUntil us_blockedUntil us_disabledUntil];
    intros Hin; repeat (apply elem_of_cons in Hin as [Hin|Hin]); try by apply elem_of_nil in Hin.
  all: (eapply Hk; [exact Hin|set_solver]) || (apply Hd; rewrite <- Hin; set_solver).
Qed.

(** A failure is a function of the view. *)
Lemma fail_view_spec cfg s f : 0 < fl_at f <= MAX_DATE_TIMESTAMP_MS -> dated s ->
  live_view (fl_at f) (fail cfg s f) = fail_view cfg (live_view (fl_at f) s) f.
Proof.
  intros Hn Hd. unfold fail, computeNextProfileUsageStats. rewrite !base_counts.
  unfold fail_view. cbv zeta. change (match vw_lastFailureAt (live_view (fl_at f) s) with Some _ => _ | None => false end)
    with (is_stale cfg (us_lastFailureAt s) (fl_at f)).
  cbn [vw_errors vw_counts vw_cooldown vw_disabled vw_block live_view].
  set (errors := (if is_stale _ _ _ then 0 else _) + 1). set (counts := count_failure _ _).
  assert (forall u x, u ∈ [us_cooldownUntil s; us_blockedUntil s; us_disabledUntil s] ->
    0 < keepActiveWindowOrRecompute u (fl_at f) (resolveUsageWindowUntil (fl_at f) x) <= MAX_DATE_TIMESTAMP_MS) as Hk.
  { intros u x Hin. pose proof (window_bounds (fl_at f) x Hn). apply keep_bounds; [lia| |lia].
    intros t ->. by apply Hd. }
  assert (forall u x, u ∈ [us_cooldownUntil s; us_blockedUntil s; us_disabledUntil s] ->
    forall A B (r : A) (r' : B), open_window (Some (keepActiveWindowOrRecompute u (fl_at f)
      (resolveUsageWindowUntil (fl_at f) x))) (fl_at f) r' =
    match open_window u (fl_at f) r with Some (t, _) => Some (t, r')
    | None => still_open (fl_at f) (Some (resolveUsageWindowUntil (fl_at f) x, r')) end) as Ho.
  { intros u x Hin A B r r'. pose proof (window_bounds (fl_at f) x Hn). apply keep_open; [lia| |lia].
    intros t ->. by apply Hd. }
  destruct (disabled_reason (fl_reason f)) as [d|] eqn:Er.
  - rewrite view_settled; [|eapply has_window; [|right; reflexivity]; apply Hk; set_solver].
    f_equal. unfold live_view.
    cbn [vw_cooldown vw_block vw_disabled with_disabled with_times with_counts us_cooldownUntil us_cooldownReason
      us_cooldownModel us_blockedUntil us_blockedScope us_blockedModel us_disabledUntil us_errorCount
      us_failureCounts us_lastFailureAt default]. f_equal.
    rewrite (Ho (us_disabledUntil s) _ ltac:(set_solver) _ _ () ()). by destruct (open_window (us_disabledUntil s) _ _) as [[? []]|].
  - rewrite view_settled; [|eapply has_window; [|left; reflexivity]; apply Hk; set_solver].
    f_equal. unfold live_view.
    cbn [vw_cooldown vw_block vw_disabled with_cooldown with_times with_counts us_cooldownUntil us_cooldownReason
      us_cooldownModel us_blockedUntil us_blockedScope us_blockedModel us_disabledUntil us_errorCount
      us_failureCounts us_lastFailureAt default]. f_equal.
    rewrite (Ho (us_cooldownUntil s) _ ltac:(set_solver) _ _ (us_cooldownReason s, us_cooldownModel s) _).
    rewrite (joined_open s) by (done || lia). by destruct (open_window (us_cooldownUntil s) _ _) as [[? []]|].
Qed.

(** ** Runs *)

Lemma in_order_le from fs t : in_order from fs t -> from <= t.
Proof. revert from. induction fs as [|f fs IH]; intros from; cbn [in_order]; [done|]. intros [H1 H2%IH]. lia. Qed.

(** What failures and time keep of a view. *)
Lemma failing_ind (P : View -> Prop) cfg fs t : forall s from,
  dated s -> 0 < from -> t <= MAX_DATE_TIMESTAMP_MS -> in_order from fs t -> P (live_view from s) ->
  (forall now v, now <= t -> P v -> P (advance now v)) ->
  (forall f v, f ∈ fs -> fl_at f <= t -> P v -> P (fail_view cfg v f)) ->
  P (live_view t (failing cfg fs s)).
Proof.
  induction fs as [|f fs IH]; intros s from Hd Hf Ht Ho HP Ha Hfail; cbn [in_order] in Ho.
  - rewrite (view_advance _ from t) by done. by apply Ha.
  - destruct Ho as [Hle Ho]. pose proof (in_order_le _ _ _ Ho).
    apply (IH (fail cfg s f) (fl_at f)); [apply fail_dated; [lia|done]|lia|done..| |done|].
    + rewrite fail_view_spec by (done || lia). apply Hfail; [by left|done|].
      rewrite (view_advance _ from) by done. apply Ha; [lia|done].
    + intros g v Hg. apply Hfail. by right.
Qed.

(** Records of one view stay so. *)
Lemma failing_view_eq cfg fs t : forall s s' from,
  dated s -> dated s' -> 0 < from -> t <= MAX_DATE_TIMESTAMP_MS -> in_order from fs t ->
  live_view from s = live_view from s' -> live_view t (failing cfg fs s) = live_view t (failing cfg fs s').
Proof.
  induction fs as [|f fs IH]; intros s s' from Hd Hd' Hf Ht Ho Heq; cbn [in_order] in Ho.
  - change (live_view t s = live_view t s'). by rewrite (view_advance s from t), (view_advance s' from t), Heq.
  - destruct Ho as [Hle Ho]. pose proof (in_order_le _ _ _ Ho).
    apply (IH _ _ (fl_at f)); try done; try lia; [apply fail_dated; (done || lia)..|].
    rewrite !fail_view_spec by (done || lia).
    by rewrite (view_advance s from), (view_advance s' from), Heq by done.
Qed.

(** ** Clearing windows that are over *)

Lemma stats_clear store now p :
  stats_of (fst (clearExpiredCooldowns store now)) p = (fun s => fst (clear_expired now s)) <$> stats_of store p.
Proof.
  unfold clearExpiredCooldowns, stats_of. destruct (as_usageStats store) as [usage|] eqn:E; cbn [fst]; [|by rewrite E].
  cbn [as_usageStats with_usage mbind option_bind]. clear E. induction usage as [|[id s] usage IH]; [done|].
  cbn [map jm_get]. case_decide; [done|]. exact IH.
Qed.

Lemma profile_clear store now p : profile_of (fst (clearExpiredCooldowns store now)) p = profile_of store p.
Proof. unfold clearExpiredCooldowns. by destruct (as_usageStats store). Qed.

Lemma clear_dated now s : dated s -> dated (fst (clear_expired now s)).
Proof.
  intros Hd t. destruct (clear_expired_split now s) as (s2 & Hc & Hb & Hdis & _ & _ & _ & _ & ->).
  assert (forall t, Some t ∈ [us_cooldownUntil s2; us_blockedUntil s2; us_disabledUntil s2] ->
    t <= MAX_DATE_TIMESTAMP_MS) as H2.
  { intros u Hu. apply Hd. rewrite Hdis in Hu.
    destruct (window_expired (us_cooldownUntil s) now), (window_expired (us_blockedUntil s) now),
      (window_expired (us_disabledUntil s) now); injection Hc as C1 _ _; injection Hb as B1 _ _;
      rewrite C1, B1 in Hu; set_solver. }
  cbn [fst]. destruct (_ && _); [|apply H2]. exact (H2 t).
Qed.

Lemma clear_again now s : snd (clear_expired now (fst (clear_expired now s))) = false.
Proof.
  destruct (clear_expired_split now s) as (s2 & Hc & Hb & Hdis & _ & _ & _ & _ & ->). cbn [fst].
  assert (window_expired (us_cooldownUntil s2) now = false /\ window_expired (us_blockedUntil s2) now = false /\
    window_expired (us_disabledUntil s2) now = false) as (E1 & E2 & E3).
  { rewrite Hdis. destruct (window_expired (us_cooldownUntil s) now) eqn:F1,
      (window_expired (us_blockedUntil s) now) eqn:F2, (window_expired (us_disabledUntil s) now) eqn:F3;
      injection Hc as -> _ _; injection Hb as -> _ _; done. }
  destruct (_ && _); unfold clear_expired; cbv zeta;
    cbn [with_counts us_cooldownUntil us_blockedUntil us_disabledUntil]; by rewrite E1, E2, E3.
Qed.

(** C19. Clearing the windows that are over changes no decision: at any later
    time, for any model, and after any failures in between, a profile is in
    cooldown exactly when it would be without the clearing, and clearing again
    at the same time does nothing. *)
Theorem clearing_is_unobservable cfg store now p s fs t forModel :
  0 < now -> t <= MAX_DATE_TIMESTAMP_MS -> in_order now fs t ->
  stats_of store p = Some s -> dated s ->
  let cleared := fst (clearExpiredCooldowns store now) in
  (exists s', stats_of cleared p = Some s' /\
     stats_in_cooldown (failing cfg fs s') t forModel = stats_in_cooldown (failing cfg fs s) t forModel) /\
  isProfileInCooldown cleared p t forModel = isProfileInCooldown store p t forModel /\
  snd (clearExpiredCooldowns cleared now) = false.
Proof.
  intros Hn Ht Ho Hs Hd. cbv zeta. pose proof (in_order_le _ _ _ Ho).
  assert (forall t, now <= t -> stats_in_cooldown (fst (clear_expired now s)) t forModel =
    stats_in_cooldown s t forModel) as Heq.
  { intros t' Ht'. rewrite !(view_cooldown _ now) by done. by rewrite clear_expired_view by lia. }
  split_and!.
  - exists (fst (clear_expired now s)). split; [by rewrite stats_clear, Hs|].
    rewrite !(view_cooldown _ t t) by done. f_equal. eapply failing_view_eq; try done; [by apply clear_dated|].
    apply clear_expired_view. lia.
  - unfold isProfileInCooldown. rewrite profile_clear, stats_clear, Hs. cbn [fmap option_fmap option_map].
    destruct (isAuthCooldownBypassedForProvider _); [done|]. by apply Heq.
  - unfold clearExpiredCooldowns. destruct (as_usageStats store) as [usage|] eqn:E; cbn [fst]; [|by rewrite E].
    cbn [as_usageStats with_usage snd]. clear. induction usage as [|[id s] usage IH]; [done|].
    cbn [map existsb]. by rewrite clear_again.
Qed.

(** ** Spells of failures *)

Lemma count_first reason : jm_get reason (count_failure reason []) = Some 1.
Proof. unfold count_failure. cbn [jm_get default]. apply jm_get_set_eq. Qed.

Lemma clean_after_success existing lastUsed : clean (resetSuccessfulUsageStats existing lastUsed).
Proof. done. Qed.

Lemma clean_after_reset existing : clean (resetUsageStats existing).
Proof. done. Qed.

Lemma clean_dated s : clean s -> dated s.
Proof. intros (E1 & E2 & E3 & _) t. rewrite E1, E2, E3. set_solver. Qed.

Section spells.
  Context (cfg : ResolvedAuthCooldownConfig) (fs : list Failure).

  (** At most one window, that of some failure alone, and no counts without. *)
Definition cooling_spell (v : View) : Prop :=
  vw_block v = None /\ vw_disabled v = None /\
  match vw_cooldown v with
  | Some (u, _) => exists f, f ∈ fs /\ u = resolveUsageWindowUntil (fl_at f) (of_Z 30000)
  | None => vw_errors v = 0
  end.

Definition disabled_spell (reason : AuthProfileFailureReason) (d : DisabledFailureReason) (v : View) : Prop :=
  vw_block v = None /\ vw_cooldown v = None /\
  match vw_disabled v with
  | Some (u, _) =>
      exists f, f ∈ fs /\ u = resolveUsageWindowUntil (fl_at f) (resolveDisabledFailureBackoffMs d 1 cfg)
  | None => vw_counts v = []
  end.

Lemma cooling_spell_advance now v : cooling_spell v -> cooling_spell (advance now v).
Proof.
  unfold cooling_spell, advance, settle_view, nothing_open. intros (E1 & E2 & H). rewrite E1, E2.
  destruct (vw_cooldown v) as [[u r]|] eqn:E; [|by rewrite E, E1, E2].
  cbn [vw_cooldown vw_block vw_disabled still_open]. by destruct (now <? u).
Qed.

Lemma cooling_spell_fail f v : f ∈ fs -> disabled_reason (fl_reason f) = None ->
  cooling_spell v -> cooling_spell (fail_view cfg v f).
Proof.
  unfold cooling_spell, fail_view. intros Hf Hr (E1 & E2 & H). cbv zeta. rewrite Hr.
  destruct (vw_cooldown v) as [[u [r m]]|] eqn:E.
  - unfold settle_view, nothing_open. cbn [vw_cooldown vw_block vw_disabled]. done.
  - rewrite H, E1, E2.
    replace ((if match vw_lastFailureAt v with Some _ => _ | None => false end then 0 else 0) + 1) with 1
      by (by destruct (match vw_lastFailureAt v with Some _ => _ | None => false end)).
    change (calculateAuthProfileCooldownMs 1) with 30000.
    unfold settle_view, nothing_open. cbn [vw_cooldown vw_block vw_disabled still_open].
    destruct (_ <? _); cbn [vw_cooldown vw_block vw_disabled vw_errors]; eauto.
Qed.

Lemma disabled_spell_advance reason d now v : disabled_spell reason d v -> disabled_spell reason d (advance now v).
Proof.
  unfold disabled_spell, advance, settle_view, nothing_open. intros (E1 & E2 & H). rewrite E1, E2.
  destruct (vw_disabled v) as [[u r]|] eqn:E; [|by rewrite E, E1, E2].
  cbn [vw_cooldown vw_block vw_disabled still_open]. by destruct (now <? u).
Qed.

Lemma disabled_spell_fail reason d f v : f ∈ fs -> fl_reason f = reason -> disabled_reason reason = Some d ->
  disabled_spell reason d v -> disabled_spell reason d (fail_view cfg v f).
Proof.
  unfold disabled_spell, fail_view. intros Hf Hr Hd (E1 & E2 & H). cbv zeta. rewrite Hr, Hd, E1, E2.
  destruct (vw_disabled v) as [[u r]|] eqn:E.
  - unfold settle_view, nothing_open. cbn [vw_cooldown vw_block vw_disabled]. done.
  - rewrite H.
    replace (if match vw_lastFailureAt v with Some _ => _ | None => false end then [] else []) with
      (@nil (AuthProfileFailureReason * Z))
      by (by destruct (match vw_lastFailureAt v with Some _ => _ | None => false end)).
    rewrite count_first. cbn [default].
    unfold settle_view, nothing_open. cbn [vw_cooldown vw_block vw_disabled still_open].
    destruct (_ <? _); cbn [vw_cooldown vw_block vw_disabled vw_errors vw_counts]; eauto.
Qed.
End spells.

Lemma clean_view s now : clean s -> live_view now s =
  {| vw_cooldown := None; vw_block := None; vw_disabled := None; vw_errors := 0; vw_counts := [];
     vw_lastFailureAt := us_lastFailureAt s |}.
Proof.
  intros (E1 & E2 & E3 & E4 & E5). unfold live_view. rewrite E1, E2, E3, E4, E5. cbn [open_window].
  by destruct (spell_over s now).
Qed.

Lemma window_of_Z_lt now d t : 0 < now <= MAX_DATE_TIMESTAMP_MS -> 1 <= d ->
  t < resolveUsageWindowUntil now (of_Z d) -> t < now + d.
Proof.
  intros Hn Hd. rewrite resolveUsageWindowUntil_eq by done. cbn [of_Z]. rewrite Qround.Qfloor_Z. cbv zeta.
  destruct (Qle_bool _ 0); [lia|]. rewrite Z.max_r by lia. destruct (_ <=? _); lia.
Qed.

Lemma in_order_elem from fs t f : in_order from fs t -> f ∈ fs -> from <= fl_at f <= t.
Proof.
  revert from. induction fs as [|g fs IH]; intros from; cbn [in_order]; [by intros _ ?%elem_of_nil|].
  intros [Hle Ho] [->|Hin]%elem_of_cons; [split; [done|by eapply in_order_le]|].
  specialize (IH _ Ho Hin). lia.
Qed.

(** Failures of one kind do not escalate.  From a record without failures,
    as a success or a reset leaves it: however many transient failures follow,
    the profile is in cooldown only within 30 seconds of one of them; and
    however many failures of one disabling reason follow, only within the
    backoff of a single one of them. *)
Theorem failures_do_not_escalate cfg s from fs t forModel :
  clean s -> 0 < from -> t <= MAX_DATE_TIMESTAMP_MS -> in_order from fs t ->
  (Forall (fun f => disabled_reason (fl_reason f) = None) fs ->
   stats_in_cooldown (failing cfg fs s) t forModel = true ->
   exists f, f ∈ fs /\ t < fl_at f + 30000) /\
  (forall reason d, disabled_reason reason = Some d -> Forall (fun f => fl_reason f = reason) fs ->
   stats_in_cooldown (failing cfg fs s) t forModel = true ->
   exists f, f ∈ fs /\
     t < resolveUsageWindowUntil (fl_at f) (resolveDisabledFailureBackoffMs d 1 cfg)).
Proof.
  intros Hc Hf Ht Ho. pose proof (clean_dated _ Hc) as Hd. split.
  - intros Hall. rewrite Forall_forall in Hall. rewrite (view_cooldown _ t t) by done.
    assert (cooling_spell fs (live_view t (failing cfg fs s))) as (E1 & E2 & H).
    { apply (failing_ind _ cfg fs t s from); try done.
      - by rewrite clean_view.
      - intros. by apply cooling_spell_advance.
      - intros f v Hin _. apply cooling_spell_fail; [done|]. by apply Hall. }
    unfold view_in_cooldown. rewrite E1, E2. destruct (vw_cooldown _) as [[u [r m]]|]; [|done].
    cbn [holds_for orb]. destruct H as (f & Hin & ->). intros [_ Hlt%Z.ltb_lt]%andb_true_iff.
    exists f. split; [done|]. pose proof (in_order_elem _ _ _ _ Ho Hin).
    apply window_of_Z_lt in Hlt; lia.
  - intros reason d Hr Hall. rewrite Forall_forall in Hall. rewrite (view_cooldown _ t t) by done.
    assert (disabled_spell cfg fs reason d (live_view t (failing cfg fs s))) as (E1 & E2 & H).
    { apply (failing_ind _ cfg fs t s from); try done.
      - by rewrite clean_view.
      - intros. by apply disabled_spell_advance.
      - intros f v Hin _. apply disabled_spell_fail; [done| |done]. by apply Hall. }
    unfold view_in_cooldown. rewrite E1, E2. destruct (vw_disabled _) as [[u r]|]; [|done].
    cbn [holds_for orb negb andb]. rewrite orb_false_r. destruct H as (f & Hin & ->). intros Hlt%Z.ltb_lt. eauto.
Qed.

(** ** Windows that are open *)

(** A cooldown up to [u] that holds for a model. *)
Definition cools (forModel : option jstr) (u : Z) (v : View) : Prop :=
  exists reason model, vw_cooldown v = Some (u, (reason, model)) /\
    scoped_elsewhere reason model forModel = false /\
    (isModelScopedCooldownReason reason = false -> truthy_opt model = false).

Lemma joined_model_cools w reason forModel :
  scoped_elsewhere (Some reason) (joined_model w reason forModel) forModel = false.
Proof.
  unfold scoped_elsewhere, joined_model.
  destruct (isModelScopedCooldownReason (Some reason)) eqn:Es; [|by rewrite andb_false_r].
  destruct (truthy_opt forModel) eqn:Ef; [|done]. rewrite !andb_true_l.
  destruct w as [[u [r m]]|].
  - cbn [negb andb]. destruct (truthy_opt m) eqn:Em; cbn [andb].
    + destruct (bool_decide (m = forModel)) eqn:Eb; cbn [negb]; [|done]. by rewrite Em, Eb.
    + by rewrite Em.
  - rewrite bool_decide_eq_true_2 by done. by rewrite andb_false_r.
Qed.

Lemma joined_model_unscoped w reason modelId :
  isModelScopedCooldownReason (Some reason) = false -> truthy_opt (joined_model w reason modelId) = false.
Proof.
  intros Hs. unfold joined_model. rewrite Hs. destruct w as [[u [r m]]|]; [|done]. cbn [negb andb].
  by destruct (_ && _).
Qed.

Lemma joined_model_keeps u r m reason modelId forModel :
  scoped_elsewhere r m forModel = false -> (isModelScopedCooldownReason r = false -> truthy_opt m = false) ->
  scoped_elsewhere (Some reason) (joined_model (Some (u, (r, m))) reason modelId) forModel = false.
Proof.
  unfold scoped_elsewhere, joined_model. intros H Hr.
  destruct (truthy_opt forModel); [|done]. cbn [andb] in *.
  destruct (isModelScopedCooldownReason (Some reason)); [|done]. cbn [negb andb].
  destruct (truthy_opt m && truthy_opt modelId && negb (bool_decide (m = modelId))); [done|].
  destruct (negb (truthy_opt modelId) && truthy_opt m); [done|].
  destruct (isModelScopedCooldownReason r); [exact H|]. by rewrite Hr.
Qed.

Lemma cools_advance forModel u now v : now < u -> cools forModel u v -> cools forModel u (advance now v).
Proof.
  intros Hlt (r & m & E & H). unfold advance, settle_view, nothing_open. rewrite E.
  cbn [vw_cooldown still_open]. rewrite (proj2 (Z.ltb_lt _ _)) by done. exists r, m. split; [|done].
  by rewrite E || done.
Qed.

Lemma cools_fail cfg forModel u f v : cools forModel u v -> cools forModel u (fail_view cfg v f).
Proof.
  intros (r & m & E & H & Hr). unfold fail_view, settle_view, nothing_open. cbv zeta. rewrite E.
  destruct (disabled_reason (fl_reason f)); cbn [vw_cooldown].
  - exists r, m. done.
  - eexists _, _. split; [done|]. split; [by apply joined_model_keeps|]. apply joined_model_unscoped.
Qed.

(** A failure cools its own model. *)
Lemma fail_cools cfg f v u r m : disabled_reason (fl_reason f) = None ->
  vw_cooldown (fail_view cfg v f) = Some (u, (r, m)) -> cools (fl_model f) u (fail_view cfg v f).
Proof.
  intros Hr E. exists r, m. split; [done|]. revert E. unfold fail_view, settle_view. cbv zeta. rewrite Hr.
  assert (r = Some (fl_reason f) -> m = joined_model (vw_cooldown v) (fl_reason f) (fl_model f) ->
    scoped_elsewhere r m (fl_model f) = false /\ (isModelScopedCooldownReason r = false -> truthy_opt m = false)) as Hj.
  { intros -> ->. split; [apply joined_model_cools|apply joined_model_unscoped]. }
  destruct (nothing_open _); [done|]. cbn [vw_cooldown].
  destruct (vw_cooldown v) as [[u0 [r0 m0]]|] eqn:Ev.
  - intros [= _ <- <-]. by apply Hj.
  - cbn [still_open]. destruct (_ <? _); [|done]. intros [= _ <- <-]. by apply Hj.
Qed.

Lemma cools_in_cooldown forModel u t v : t < u -> cools forModel u v -> view_in_cooldown v t forModel = true.
Proof.
  intros Hlt (r & m & E & H & _). unfold view_in_cooldown. rewrite E. cbn [holds_for]. rewrite H.
  rewrite (proj2 (Z.ltb_lt _ _)) by done. by rewrite !orb_true_r.
Qed.

(** C21. Of failures that are recorded without a result of the usage probe, which
    only OpenAI OAuth credentials have: a cooldown does not move while it is open,
    and it holds for every model that failed in it.  Whatever such failures follow
    one that left a cooldown up to [u], until [u] the window stays [u], and the
    profile is in cooldown for the model of each failure that is not of a
    disabling reason. *)
Theorem cooldown_holds_for_failed_models cfg s f fs t u store p :
  dated s -> 0 < fl_at f -> t <= MAX_DATE_TIMESTAMP_MS -> in_order (fl_at f) fs t ->
  disabled_reason (fl_reason f) = None -> us_cooldownUntil (fail cfg s f) = Some u -> t < u ->
  us_cooldownUntil (failing cfg fs (fail cfg s f)) = Some u /\
  (isAuthCooldownBypassedForProvider (cred_provider <$> profile_of store p) = false ->
   stats_of store p = Some (failing cfg fs (fail cfg s f)) ->
   forall g, g ∈ f :: fs -> disabled_reason (fl_reason g) = None ->
     isProfileInCooldown store p t (fl_model g) = true).
Proof.
  intros Hd Hf Ht Ho Hr Hu Hlt.
  assert (forall fs s f, dated s -> 0 < fl_at f -> in_order (fl_at f) fs t -> disabled_reason (fl_reason f) = None ->
    us_cooldownUntil (fail cfg s f) = Some u -> cools (fl_model f) u (live_view t (failing cfg fs (fail cfg s f)))) as Hcool.
  { clear f fs s Hd Hf Ho Hr Hu. intros fs s f Hd Hf Ho Hr Hu. pose proof (in_order_le _ _ _ Ho).
    apply (failing_ind _ cfg fs t _ (fl_at f)); try done.
    - apply fail_dated; [lia|done].
    - assert (0 < u <= MAX_DATE_TIMESTAMP_MS) as Hb.
      { split; [lia|]. eapply (fail_dated cfg s f); [lia|done|]. rewrite Hu. by left. }
      rewrite fail_view_spec by (done || lia). eapply fail_cools; [done|].
      rewrite <- fail_view_spec by (done || lia). unfold live_view. cbn [vw_cooldown].
      apply open_window_Some. split_and!; try done; lia.
    - intros now v Hnow. apply cools_advance. lia.
    - intros g v _ _. apply cools_fail. }
  assert (forall g, g ∈ f :: fs -> disabled_reason (fl_reason g) = None ->
    cools (fl_model g) u (live_view t (failing cfg fs (fail cfg s f)))) as Hall.
  { clear Hr. intros g Hin Hg. revert s f Hd Hf Ho Hu Hin. induction fs as [|h fs IH]; intros s f Hd Hf Ho Hu Hin.
    - apply list_elem_of_singleton in Hin as ->. by apply Hcool.
    - apply elem_of_cons in Hin as [->|Hin]; [by apply Hcool|]. destruct Ho as [Hle Ho].
      pose proof (in_order_le _ _ _ Ho). apply (IH (fail cfg s f) h); try done; try lia.
      { apply fail_dated; [lia|done]. }
      unfold fail at 1, computeNextProfileUsageStats. rewrite Hu. unfold keepActiveWindowOrRecompute.
      rewrite (proj2 (Z.ltb_lt (fl_at h) u)) by lia.
      by destruct (disabled_reason (fl_reason h)). }
  split.
  - destruct (Hall f ltac:(by left) Hr) as (r & m & E & _). unfold live_view in E. cbn [vw_cooldown] in E.
    by apply open_window_Some in E as [? _].
  - intros Hb Hs g Hin Hg. rewrite (isProfileInCooldown_stats _ _ _ _ _ Hb Hs), (view_cooldown _ t) by done.
    by apply (cools_in_cooldown _ u), Hall.
Qed.

(** ** Examples *)

Definition default_cooldowns : ResolvedAuthCooldownConfig := resolveAuthCooldownConfig None (lit "anthropic").

Definition sample_profile : jstr := lit "anthropic:default".

Definition sample_store (s : ProfileUsageStats) : AuthProfileStore := {|
  as_profiles := [(sample_profile, ApiKey {| ak_provider := lit "anthropic"; ak_key := SecretText (lit "sk-1");
                                             ak_keyRef := SecretAbsent |})];
  as_order := None; as_lastGood := None; as_usageStats := Some [(sample_profile, s)] |}.

Definition rate_limited (at_ : Z) (model : option jstr) : Failure :=
  {| fl_at := at_; fl_reason := FailRateLimit; fl_model := model |}.

(** A record of which the cooldown is over and the disabled window is not. *)
Definition half_over : ProfileUsageStats :=
  with_disabled (Some 900000) (Some FailBilling)
    (with_cooldown (Some 40000) (Some FailRateLimit) (Some (lit "a"))
       (with_counts (Some 3) (Some [(FailRateLimit, 2); (FailBilling, 1)]) no_stats)).

Lemma half_over_dated : dated half_over.
Proof. intros t H. cbn in H. unfold MAX_DATE_TIMESTAMP_MS. set_unfold. destruct H as [[= ->]|[[=]|[[= ->]|[]]]]; lia. Qed.

Lemma clearing_is_unobservable_witness :
  (exists s', stats_of (fst (clearExpiredCooldowns (sample_store half_over) 50000)) sample_profile = Some s' /\
     stats_in_cooldown (failing default_cooldowns [rate_limited 60000 None] s') 950000 (Some (lit "b")) =
     stats_in_cooldown (failing default_cooldowns [rate_limited 60000 None] half_over) 950000 (Some (lit "b"))) /\
  isProfileInCooldown (fst (clearExpiredCooldowns (sample_store half_over) 50000)) sample_profile 950000
    (Some (lit "b")) = isProfileInCooldown (sample_store half_over) sample_profile 950000 (Some (lit "b")) /\
  snd (clearExpiredCooldowns (fst (clearExpiredCooldowns (sample_store half_over) 50000)) 50000) = false.
Proof.
  apply (clearing_is_unobservable default_cooldowns (sample_store half_over) 50000 sample_profile half_over).
  - done.
  - done.
  - cbn. lia.
  - by vm_compute.
  - exact half_over_dated.
Defined.

(** Three rate limits half a minute apart: 30 seconds each time. *)
Definition three_limits : list Failure :=
  [rate_limited 100000 None; rate_limited 130000 None; rate_limited 160000 None].

Lemma failures_do_not_escalate_witness :
  stats_in_cooldown (failing default_cooldowns three_limits no_stats) 189999 None = true /\
  stats_in_cooldown (failing default_cooldowns three_limits no_stats) 190000 None = false /\
  exists f, f ∈ three_limits /\ 189999 < fl_at f + 30000.
Proof.
  split; [by vm_compute|]. split; [by vm_compute|].
  apply (failures_do_not_escalate default_cooldowns no_stats 100000 three_limits 189999 None).
  - done.
  - done.
  - done.
  - cbn. lia.
  - repeat constructor.
  - by vm_compute.
Defined.

(** A second model joins the cooldown of a first. *)
Lemma cooldown_holds_for_failed_models_witness :
  let f := rate_limited 100000 (Some (lit "a")) in
  let fs := [rate_limited 110000 (Some (lit "b"))] in
  let s := failing default_cooldowns fs (fail default_cooldowns no_stats f) in
  us_cooldownUntil s = Some 130000 /\
  isProfileInCooldown (sample_store s) sample_profile 120000 (Some (lit "a")) = true.
Proof.
  cbv zeta.
  destruct (cooldown_holds_for_failed_models default_cooldowns no_stats (rate_limited 100000 (Some (lit "a")))
    [rate_limited 110000 (Some (lit "b"))] 120000 130000
    (sample_store (failing default_cooldowns [rate_limited 110000 (Some (lit "b"))]
       (fail default_cooldowns no_stats (rate_limited 100000 (Some (lit "a")))))) sample_profile) as [H1 H2].
  - by apply clean_dated.
  - done.
  - done.
  - cbn. lia.
  - done.
  - by vm_compute.
  - done.
  - split; [exact H1|]. apply (H2 ltac:(by vm_compute) ltac:(by vm_compute) (rate_limited 100000 (Some (lit "a")))).
    + by left.
    + done.
Defined.
