(* ===== verification/ProfileUpdates.v ===== *)
(** * Updates of the records of credentials

    Theorems on the operations of [ProfileFailures]: what each of them writes to
    the file, and a condition on records that every store reached by them
    satisfies. *)
From S2P Require Import Prelude JsString JsMap JsNumber NumberCoercion Normalization AuthCredentials ProfileUsage ProfileFailures ProfileCooldowns.
#[local] Open Scope Z_scope.

(** ** Definitions *)

(** A record: its windows are instants of dates, a cooldown of one model is of a
    reason that can be of one, a block of one model names it, and what is
    counted is. *)
Record record_ok (s : ProfileUsageStats) : Prop := {
  ok_dated : dated s;
  ok_cooldown : isModelScopedCooldownReason (us_cooldownReason s) = false -> truthy_opt (us_cooldownModel s) = false;
  ok_block : is_Some (us_blockedUntil s) -> is_Some (us_blockedScope s) -> truthy_opt (us_blockedModel s) = true;
  ok_errors : 0 <= default 0 (us_errorCount s);
  ok_counts : jm_all (fun _ n => 0 < n) (default [] (us_failureCounts s));
}.

Definition store_ok (store : AuthProfileStore) : Prop :=
  forall p s, stats_of store p = Some s -> record_ok s.

Definition instant (t : Z) : Prop := 0 < t <= MAX_DATE_TIMESTAMP_MS.

Definition read_in_time (response : WhamResponse) : Prop :=
  match response with WhamBody _ readAt => instant readAt | _ => True end.

(** One change of the file. *)
Inductive update : AuthProfileStore -> AuthProfileStore -> Prop :=
  | update_failure cooldowns store p reason modelId startedAt response file now file' :
      instant now -> read_in_time response ->
      su_saved (markAuthProfileFailure cooldowns store p reason modelId startedAt response (Some file) now)
        = Some file' ->
      update file file'
  | update_blocked store p blockedUntil source modelId startedAt file now file' :
      instant now ->
      su_saved (markAuthProfileBlockedUntil store p blockedUntil source modelId startedAt (Some file) now)
        = Some file' ->
      update file file'
  | update_success aliases store provider p file lastUsed file' :
      su_saved (markAuthProfileSuccess aliases store provider p (Some file) lastUsed) = Some file' ->
      update file file'
  | update_cleared store p file file' :
      su_saved (clearAuthProfileCooldown store p (Some file)) = Some file' -> update file file'
  | update_expired file now : update file (fst (clearExpiredCooldowns file now)).

(** The file after any changes. *)
Inductive updated : AuthProfileStore -> AuthProfileStore -> Prop :=
  | updated_refl file : updated file file
  | updated_step file file' file'' : updated file file' -> update file' file'' -> updated file file''.

(** ** One record *)

Lemma stats_update p q f store :
  stats_of (updateUsageStatsEntry p f store) q =
    if decide (q = p) then Some (f (stats_of store p)) else stats_of store q.
Proof.
  unfold updateUsageStatsEntry, stats_of. cbn [as_usageStats with_usage mbind option_bind]. rewrite jm_get_set.
  destruct (as_usageStats store) as [usage|]; cbn [default option_bind jm_get]; case_decide; done.
Qed.

Lemma no_stats_ok : record_ok no_stats.
Proof. split; cbn; try done; [intros t H; set_solver|apply jm_all_nil]. Qed.

Lemma stats_ok store p : store_ok store -> record_ok (default no_stats (stats_of store p)).
Proof. intros H. destruct (stats_of store p) as [s|] eqn:E; [by apply (H p)|]. apply no_stats_ok. Qed.

Lemma update_ok p f store : store_ok store -> (forall o, record_ok (default no_stats o) -> record_ok (f o)) ->
  store_ok (updateUsageStatsEntry p f store).
Proof.
  intros Hs Hf q s. rewrite stats_update. case_decide; [|apply Hs]. intros [= <-]. apply Hf. by apply stats_ok.
Qed.

Lemma count_failure_ok reason counts : jm_all (fun _ n => 0 < n) counts ->
  jm_all (fun _ n => 0 < n) (count_failure reason counts).
Proof.
  intros H. unfold count_failure. apply jm_all_set; [done|]. destruct (jm_get reason counts) as [n|] eqn:E; cbn; [|lia].
  eapply jm_all_get in E; [|done]. cbn in E. lia.
Qed.

Lemma compute_ok s now reason cfg modelId : instant now -> record_ok s ->
  record_ok (computeNextProfileUsageStats s now reason cfg modelId).
Proof.
  intros Hn Hs. pose proof (fail_dated cfg s {| fl_at := now; fl_reason := reason; fl_model := modelId |} Hn
    (ok_dated _ Hs)) as Hd. unfold fail in Hd. cbn [fl_at fl_reason fl_model] in Hd.
  assert (0 <= (if shouldResetCounters s now (rc_failureWindowMs cfg) then 0 else default 0 (us_errorCount s)))
    as He by (destruct (shouldResetCounters _ _ _); [lia|apply Hs]).
  assert (jm_all (fun _ n => 0 < n) (if shouldResetCounters s now (rc_failureWindowMs cfg) then []
    else default [] (us_failureCounts s))) as Hc
    by (destruct (shouldResetCounters _ _ _); [apply jm_all_nil|apply Hs]).
  assert (isModelScopedCooldownReason (Some reason) = false ->
    truthy_opt (next_cooldown_model s now reason modelId) = false) as Hm.
  { intros E. rewrite joined_open; [|apply Hn|apply Hs]. by apply joined_model_unscoped. }
  split; [exact Hd|..]; clear Hd; unfold computeNextProfileUsageStats; cbv zeta;
    destruct (disabled_reason reason);
    cbn [with_disabled with_cooldown with_times with_counts us_cooldownReason us_cooldownModel us_blockedUntil
      us_blockedScope us_blockedModel us_errorCount us_failureCounts default from_option id];
    try apply Hs; try exact Hm; try lia; by apply count_failure_ok.
Qed.

(** ** The probe *)

Lemma wham_blocked_dated now resetMs reason u : instant now ->
  wp_blockedUntil (wham_blocked now resetMs reason) = Some u -> u <= MAX_DATE_TIMESTAMP_MS.
Proof.
  intros Hn. unfold wham_blocked. destruct resetMs as [x|]; [|done]. intros [= <-].
  pose proof (window_bounds now x Hn). lia.
Qed.

Lemma probe_dated store p response r u : read_in_time response ->
  probeWhamForCooldown store p response = Some r -> wp_blockedUntil r = Some u -> u <= MAX_DATE_TIMESTAMP_MS.
Proof.
  intros Hn. unfold probeWhamForCooldown. destruct (profile_of store p) as [[c|c|c]|]; [done..| |done].
  destruct (negb _); [done|]. intros [= <-]. destruct response as [status|[limit|] readAt|]; [|..|done].
  - by destruct (status =? 401), (status =? 403).
  - destruct (bool_decide _); [done|]. cbv zeta. destruct (wr_secondary_window limit).
    + destruct (isWhamWindowExhausted _); [by apply wham_blocked_dated|].
      destruct (isWhamWindowExhausted _); [by apply wham_blocked_dated|done].
    + by apply wham_blocked_dated.
  - done.
Qed.

Lemma active_or_zero_le until now : (forall t, until = Some t -> t <= MAX_DATE_TIMESTAMP_MS) ->
  active_or_zero until now <= MAX_DATE_TIMESTAMP_MS.
Proof.
  intros H. unfold active_or_zero. destruct until as [t|]; [|done].
  destruct (now <? t); [by apply H|done].
Qed.

Lemma wham_ok existing computed now r : instant now -> record_ok existing -> record_ok computed ->
  (forall u, wp_blockedUntil r = Some u -> u <= MAX_DATE_TIMESTAMP_MS) ->
  record_ok (applyWhamCooldownResult existing computed now r).
Proof.
  intros Hn He Hc Hr. unfold applyWhamCooldownResult. cbv zeta.
  assert (forall o, o ∈ [us_cooldownUntil existing; us_blockedUntil existing; us_disabledUntil existing] ->
    active_or_zero o now <= MAX_DATE_TIMESTAMP_MS) as Ha.
  { intros o Ho. apply active_or_zero_le. intros t ->. by apply (ok_dated _ He). }
  pose proof (Ha (us_cooldownUntil existing) ltac:(set_solver)) as H1.
  pose proof (Ha (us_blockedUntil existing) ltac:(set_solver)) as H2.
  pose proof (window_bounds now (of_Z (wp_cooldownMs r)) Hn) as H3.
  pose proof (ok_dated _ Hc) as Hd. unfold dated in Hd.
  assert (record_ok (with_cooldown (Some (Z.max (active_or_zero (us_cooldownUntil existing) now)
      (resolveUsageWindowUntil now (of_Z (wp_cooldownMs r))))) (us_cooldownReason computed)
      (us_cooldownModel computed) computed)) as Hcooled.
  { destruct Hc. split; try done. intros t Ht. cbn in Ht.
    apply elem_of_cons in Ht as [[= ->]|Ht]; [lia|]. apply Hd. set_solver. }
  destruct (wp_blockedUntil r) as [u|] eqn:E; [|exact Hcooled]. destruct (u =? 0); [exact Hcooled|].
  specialize (Hr u eq_refl). destruct Hc. split; try done.
  - intros t Ht. cbn in Ht. apply elem_of_cons in Ht as [[=]|Ht].
    apply elem_of_cons in Ht as [[= ->]|Ht]; [lia|]. apply Hd. set_solver.
  - cbn. by intros _ [? ?].
Qed.

Lemma next_stats_ok s now reason cfg modelId wham : instant now -> record_ok s ->
  (forall r u, wham = Some r -> wp_blockedUntil r = Some u -> u <= MAX_DATE_TIMESTAMP_MS) ->
  record_ok (next_stats s now reason cfg modelId wham).
Proof.
  intros Hn Hs Hw. unfold next_stats. destruct wham as [r|]; [|by apply compute_ok].
  apply wham_ok; [done..|by apply compute_ok|]. intros u. by apply Hw.
Qed.

Lemma blocked_ok previous u source modelId now : u <= MAX_DATE_TIMESTAMP_MS ->
  record_ok (default no_stats previous) ->
  record_ok (buildBlockedProfileUsageStats previous u source modelId now).
Proof.
  intros Hu Hp. unfold buildBlockedProfileUsageStats. cbv zeta. set (prev := default no_stats previous) in *.
  assert (resolveActiveWindowUntil (us_blockedUntil prev) now <= MAX_DATE_TIMESTAMP_MS) as Ha.
  { unfold resolveActiveWindowUntil. destruct (date_timestamp _) as [t|] eqn:E; [|done].
    apply date_timestamp_Some in E as [_ ?]. destruct (now <? t); [lia|done]. }
  set (model := if resolveActiveWindowUntil _ _ =? 0 then _ else _).
  pose proof (ok_dated _ Hp) as Hd. unfold dated in Hd. destruct Hp. split; try done.
  - intros t Ht. cbn in Ht. apply elem_of_cons in Ht as [[=]|Ht].
    apply elem_of_cons in Ht as [[= ->]|Ht]; [lia|]. apply Hd. set_solver.
  - cbn. intros _. by destruct (truthy_opt model); [|intros [? ?]].
  - cbn. by apply count_failure_ok.
Qed.

Lemma success_ok existing lastUsed : record_ok (resetSuccessfulUsageStats existing lastUsed).
Proof. split; cbn; try done; [intros t H; set_solver|apply jm_all_nil]. Qed.

Lemma reset_ok existing : record_ok (resetUsageStats existing).
Proof. split; cbn; try done; [intros t H; set_solver|apply jm_all_nil]. Qed.

Lemma expired_ok now s : record_ok s -> record_ok (fst (clear_expired now s)).
Proof.
  intros Hs. pose proof (clear_dated now s (ok_dated _ Hs)) as Hd.
  assert (clean_counts : 0 <= default 0 (us_errorCount (fst (clear_expired now s))) /\
    jm_all (fun _ n => 0 < n) (default [] (us_failureCounts (fst (clear_expired now s))))).
  { destruct (clear_expired_split now s) as (s2 & _ & _ & _ & He & Hf & _ & _ & ->). cbn [fst].
    destruct (_ && _); cbn [with_counts us_errorCount us_failureCounts default]; [split; [done|apply jm_all_nil]|].
    rewrite He, Hf. split; apply Hs. }
  destruct Hs as [_ Hc Hb _ _]. revert Hd clean_counts.
  destruct (clear_expired_split now s) as (s2 & Ec & Eb & _ & _ & _ & _ & _ & ->). cbn [fst].
  intros Hd [? ?]. split; try done.
  - destruct (_ && _); cbn [with_counts us_cooldownReason us_cooldownModel];
      destruct (window_expired (us_cooldownUntil s) now); by injection Ec as _ -> ->.
  - destruct (_ && _); cbn [with_counts us_blockedUntil us_blockedScope us_blockedModel];
      destruct (window_expired (us_blockedUntil s) now); injection Eb as -> -> ->; try done; by intros [? ?].
Qed.

(** ** Stores *)

Lemma with_lock_saved store file updater : su_saved (update_with_lock store (Some file) updater) = updater file.
Proof. done. Qed.

(** What a failure writes, and when. *)
Lemma failure_updater_Some cooldowns profile p reason modelId wham now file file' :
  failure_updater cooldowns profile p reason modelId wham now file = Some file' ->
  exists current, cooled_profile file p = Some current /\
    let result := current_wham_result profile reason wham current now in
    (reason = FailNoErrorDetails -> is_Some result) /\
    file' = updateUsageStatsEntry p (fun previous =>
      next_stats (default no_stats previous) now reason
        (resolveAuthCooldownConfig cooldowns (normalizeProviderId (cred_provider current))) modelId result) file.
Proof.
  unfold failure_updater. destruct (cooled_profile file p) as [current|]; [|done]. cbv zeta.
  destruct (bool_decide (reason = FailNoErrorDetails)) eqn:E1, (bool_decide (is_Some _)) eqn:E2; cbn [negb andb];
    intros [= <-]; exists current; (split; [done|]); (split; [|done]).
  - intros _. by apply bool_decide_eq_true in E2.
  - intros _. by apply bool_decide_eq_true in E2.
  - intros ?. by apply bool_decide_eq_false in E1.
Qed.

Lemma markFailure_saved cooldowns store p reason modelId startedAt response fresh now file' :
  su_saved (markAuthProfileFailure cooldowns store p reason modelId startedAt response fresh now) = Some file' ->
  exists file profile wham, fresh = Some file /\ cooled_profile store p = Some profile /\
    (wham = None \/ wham = probeWhamForCooldown store p response) /\
    failure_updater cooldowns profile p reason modelId wham now file = Some file'.
Proof.
  unfold markAuthProfileFailure. destruct (cooled_profile store p) as [profile|]; [|done]. cbv zeta.
  destruct (_ && _); [done|]. destruct fresh as [file|]; [|done]. rewrite with_lock_saved. intros H.
  destruct (shouldProbeWhamForFailure _ _ _); eauto 10.
Qed.

Lemma failure_ok cooldowns store p reason modelId startedAt response file now file' :
  instant now -> read_in_time response -> store_ok file ->
  su_saved (markAuthProfileFailure cooldowns store p reason modelId startedAt response (Some file) now)
    = Some file' -> store_ok file'.
Proof.
  intros Hn Hr Hok (file0 & profile & wham & [= <-] & _ & Hw & H)%markFailure_saved.
  apply failure_updater_Some in H as (current & _ & _ & ->). apply update_ok; [done|].
  intros o Ho. apply next_stats_ok; [done..|]. intros r u Hc Hu.
  destruct Hw as [->|Hw]; [done|]. unfold current_wham_result in Hc.
  destruct wham as [r0|]; [|done]. destruct (_ && _); [|done]. injection Hc as <-.
  by eapply probe_dated.
Qed.

Lemma future_dated u now : isFutureDateTimestampMs (VNum (of_Z u)) now = true -> u <= MAX_DATE_TIMESTAMP_MS.
Proof.
  unfold isFutureDateTimestampMs. destruct (asDateTimestampMs (VNum (of_Z u))) as [x|] eqn:E; [|done]. intros _.
  apply asDateTimestampMs_bounds in E as (_ & _ & H). rewrite num_lt_of_Z in H. by apply Z.ltb_ge in H.
Qed.

Lemma update_keeps_ok file file' : update file file' -> store_ok file -> store_ok file'.
Proof.
  intros [cooldowns store p reason modelId startedAt response file0 now file1 Hn Hr H
         |store p u source modelId startedAt file0 now file1 Hn H
         |aliases store provider p file0 lastUsed file1 H
         |store p file0 file1 H
         |file0 now] Hok.
  - by eapply failure_ok.
  - revert H. unfold markAuthProfileBlockedUntil. destruct (cooled_profile store p); [|done].
    destruct (isFutureDateTimestampMs _ _) eqn:E; [|done]. cbn [negb]. rewrite with_lock_saved.
    destruct (cooled_profile file0 p); [|done]. destruct (date_timestamp (Some now)) as [t|]; [|done].
    intros [= <-]. apply update_ok; [done|]. intros o Ho. apply blocked_ok; [by eapply future_dated|done].
  - revert H. unfold markAuthProfileSuccess. cbv zeta. cbn [su_saved].
    destruct (profile_of file0 p); [|done]. destruct (negb _); [done|]. intros [= <-].
    apply update_ok; [|intros; apply success_ok]. intros q s. apply Hok.
  - revert H. unfold clearAuthProfileCooldown. rewrite with_lock_saved. destruct (stats_of file0 p); [|done].
    intros [= <-]. apply update_ok; [done|]. intros. apply reset_ok.
  - intros q s. rewrite stats_clear. destruct (stats_of file0 q) as [s0|] eqn:E; [|done]. intros [= <-].
    apply expired_ok. by apply (Hok q).
Qed.

(** C22. Records stay well formed: in every store that failures, reported
    limits, successes, resets and clearings make of one without records, windows
    are instants a date can hold, a cooldown of one model is of a rate limit or
    a timeout, a block of one model names the model, and no count is negative
    or zero. *)
Theorem records_stay_well_formed file file' p s :
  as_usageStats file = None -> updated file file' -> stats_of file' p = Some s -> record_ok s.
Proof.
  intros Hnone Hu. assert (store_ok file') as H; [|apply H].
  induction Hu as [file|file file1 file2 Hu IH Hstep].
  - intros q s'. unfold stats_of. by rewrite Hnone.
  - eapply update_keeps_ok; [done|]. by apply IH.
Qed.

(** The result of the usage probe that counts for a failure: the call probed the
    credential it knew, the file still holds that credential, and it calls for a
    probe at both times. *)
Definition counted_probe (store : AuthProfileStore) (p : jstr) (reason : AuthProfileFailureReason) (startedAt : Z)
    (response : WhamResponse) (file : AuthProfileStore) (now : Z) : option WhamCooldownProbeResult :=
  match profile_of store p, profile_of file p with
  | Some probed, Some current =>
      if shouldProbeWhamForFailure (Some probed) reason startedAt &&
         shouldProbeWhamForFailure (Some current) reason now && isSameWhamCredential probed (Some current)
      then probeWhamForCooldown store p response else None
  | _, _ => None
  end.

(** The record that a failure leaves in a file: none when cooldowns do not apply
    to the profile, as the call or as the file knows it, and none for a failure
    without details and without a probe. *)
Definition recorded_failure (cooldowns : option CooldownsConfig) (store : AuthProfileStore) (p : jstr)
    (reason : AuthProfileFailureReason) (modelId : option jstr) (startedAt : Z) (response : WhamResponse)
    (file : AuthProfileStore) (now : Z) : option ProfileUsageStats :=
  match cooled_profile store p, cooled_profile file p with
  | Some _, Some current =>
      let wham := counted_probe store p reason startedAt response file now in
      if bool_decide (reason = FailNoErrorDetails) && negb (bool_decide (is_Some wham)) then None
      else Some (next_stats (default no_stats (stats_of file p)) now reason
                   (resolveAuthCooldownConfig cooldowns (normalizeProviderId (cred_provider current))) modelId wham)
  | _, _ => None
  end.

Lemma cooled_profile_of store p c : cooled_profile store p = Some c -> profile_of store p = Some c.
Proof.
  unfold cooled_profile. destruct (profile_of store p) as [c'|]; [|done].
  by destruct (isAuthCooldownBypassedForProvider _).
Qed.

(** What is written under the lock is the record of the failure. *)
Lemma failure_update_exact cooldowns store p reason modelId startedAt response file now profile :
  cooled_profile store p = Some profile ->
  failure_updater cooldowns profile p reason modelId
    (if shouldProbeWhamForFailure (Some profile) reason startedAt then probeWhamForCooldown store p response else None)
    now file =
  (fun next => updateUsageStatsEntry p (fun _ => next) file) <$>
    recorded_failure cooldowns store p reason modelId startedAt response file now.
Proof.
  intros Hp. unfold failure_updater, recorded_failure, counted_probe. rewrite Hp, (cooled_profile_of _ _ _ Hp).
  destruct (cooled_profile file p) as [current|] eqn:Hc; [|done]. rewrite (cooled_profile_of _ _ _ Hc). cbv zeta.
  assert (current_wham_result profile reason
    (if shouldProbeWhamForFailure (Some profile) reason startedAt then probeWhamForCooldown store p response else None)
    current now =
    (if shouldProbeWhamForFailure (Some profile) reason startedAt && shouldProbeWhamForFailure (Some current) reason now
        && isSameWhamCredential profile (Some current) then probeWhamForCooldown store p response else None)) as ->.
  { unfold current_wham_result. destruct (shouldProbeWhamForFailure (Some profile) reason startedAt); [|done]. cbn [andb].
    destruct (probeWhamForCooldown store p response); [done|]. by destruct (_ && _). }
  match goal with |- context [bool_decide (is_Some ?w)] => set (wham := w) end.
  destruct (bool_decide (reason = FailNoErrorDetails) && negb (bool_decide (is_Some wham))); [done|].
  cbn [fmap option_fmap option_map]. unfold updateUsageStatsEntry, stats_of. by destruct (as_usageStats file).
Qed.

(** C23. A failure is one update of one record.  When the file can be read, and
    the failure leaves a record ([recorded_failure]: cooldowns apply to the
    profile, as the call knows it and as the file holds it, and a failure without
    details comes with a probe; the probe counts only for the credential that was
    probed), the file is written with that record, computed from what the file
    held under the lock, and with everything else as the file held it, and the
    store of the caller takes over the records of the file.  In every other case
    nothing is written. *)
Theorem failure_updates_one_record cooldowns store p reason modelId startedAt response fresh now :
  let result := markAuthProfileFailure cooldowns store p reason modelId startedAt response fresh now in
  match fresh with
  | None => su_saved result = None /\ su_store result = store
  | Some file =>
      match recorded_failure cooldowns store p reason modelId startedAt response file now with
      | None =>
          su_saved result = None /\
          (su_store result = store \/ su_store result = with_usage (as_usageStats file) store)
      | Some next =>
          exists file', su_saved result = Some file' /\ su_store result = with_usage (as_usageStats file') store /\
            as_profiles file' = as_profiles file /\ as_order file' = as_order file /\
            as_lastGood file' = as_lastGood file /\
            forall q, stats_of file' q = if decide (q = p) then Some next else stats_of file q
      end
  end.
Proof.
  cbv zeta. unfold markAuthProfileFailure.
  destruct (cooled_profile store p) as [profile|] eqn:Hp.
  2:{ destruct fresh as [file|]; [|done]. unfold recorded_failure. rewrite Hp. split; [done|by left]. }
  destruct (bool_decide (reason = FailNoErrorDetails) && negb (shouldProbeWhamForFailure _ _ _)) eqn:Ed.
  { destruct fresh as [file|]; [|done].
    assert (recorded_failure cooldowns store p reason modelId startedAt response file now = None) as ->; [|split; [done|by left]].
    apply andb_true_iff in Ed as [Er Ep%negb_true_iff]. unfold recorded_failure, counted_probe.
    rewrite Hp, (cooled_profile_of _ _ _ Hp), Er, Ep. destruct (cooled_profile file p); [|done].
    destruct (profile_of file p); done. }
  cbv zeta. destruct fresh as [file|]; [|done].
  unfold update_with_lock. rewrite (failure_update_exact _ _ _ _ _ _ _ _ _ _ Hp).
  destruct (recorded_failure _ _ _ _ _ _ _ _ _) as [next|]; cbn [fmap option_fmap option_map su_saved su_store].
  - eexists. split; [done|]. split; [done|]. do 3 (split; [done|]). intros q. apply stats_update.
  - split; [done|by right].
Qed.

(** ** Examples *)

Definition bare_store : AuthProfileStore := {|
  as_profiles := as_profiles (sample_store no_stats); as_order := None; as_lastGood := None;
  as_usageStats := None |}.

Definition one_failure : AuthProfileStore :=
  default bare_store (su_saved (markAuthProfileFailure None bare_store sample_profile FailRateLimit
    (Some (lit "a")) 100000 WhamThrew (Some bare_store) 100000)).

Lemma records_stay_well_formed_witness :
  (us_cooldownUntil <$> stats_of one_failure sample_profile) = Some (Some 130000) /\
  record_ok (default no_stats (stats_of one_failure sample_profile)).
Proof.
  split; [by vm_compute|].
  apply (records_stay_well_formed bare_store one_failure sample_profile).
  - done.
  - eapply updated_step; [apply updated_refl|].
    apply (update_failure None bare_store sample_profile FailRateLimit (Some (lit "a")) 100000 WhamThrew bare_store
      100000); [done|done|by vm_compute].
  - by vm_compute.
Defined.
