(* ===== verification/ProfileOrder.v ===== *)
(** * Order of credentials

    [src/agents/auth-profiles/order.ts] and [profile-list.ts]: which stored
    credentials can serve a provider, and in what order they are tried.

    The configuration is its sections on auth, with the [auth] of each provider
    of models; a configuration left out has none of them.  The aliases of
    providers are two maps, with and without the configuration, as the code
    looks them up both ways. *)
From S2P Require Import Prelude JsString JsMap JsNumber NumberCoercion Normalization AuthCredentials ProfileUsage ProfileFailures ProfileCooldowns.
#[local] Open Scope Z_scope.

Record AuthProfileConfig := { pc_provider : jstr; pc_mode : jstr }.

Record AuthConfig := {
  ac_profiles : option (list (jstr * AuthProfileConfig));
  ac_order : option (list (jstr * list jstr));
  ac_providerAuth : option (list (jstr * option jstr));
}.

Inductive ReadinessMode := Execution | ReadOnly.

Record AuthProfileOrderResolution := { or_profileIds : list jstr; or_hasExplicitOrder : bool }.

Definition type_name (t : CredentialType) : jstr :=
  match t with TypeApiKey => lit "api_key" | TypeToken => lit "token" | TypeOAuth => lit "oauth" end.

Definition dedupeProfileIds (profileIds : list jstr) : list jstr := js_set profileIds.

Section order.
  Context (aliases defaultAliases : AliasMap) (cfg : AuthConfig).
  Implicit Types (store : AuthProfileStore) (provider providerAuthKey profileId : jstr) (now : Z).

Definition listProfilesForProvider store provider : list jstr :=
  let providerKey := resolveProviderIdForAuth defaultAliases provider in
  (List.filter (fun '(_, cred) =>
    bool_decide (resolveProviderIdForAuth defaultAliases (cred_provider cred) = providerKey))
    (as_profiles store)).*1.

Definition OPENAI_PROVIDER_ID : jstr := lit "openai".
Definition OPENAI_CODEX_PROVIDER_ID : jstr := lit "openai".

(** [mode] is the type of the credential, or the mode of the configuration. *)
Definition isOpenAIApiKeyCompatibleWithCodexAuth providerAuthKey (mode : option jstr) (profileProvider : jstr)
    : bool :=
  bool_decide (providerAuthKey = OPENAI_CODEX_PROVIDER_ID)
    && bool_decide (resolveProviderIdForAuth aliases profileProvider = OPENAI_PROVIDER_ID)
    && bool_decide (mode = Some (lit "api_key")).

Definition isCredentialProviderCompatibleWithAuthProvider providerAuthKey (credential : AuthProfileCredential)
    : bool :=
  bool_decide (resolveProviderIdForAuth aliases (cred_provider credential) = providerAuthKey)
    || isOpenAIApiKeyCompatibleWithCodexAuth providerAuthKey (Some (type_name (cred_type credential)))
         (cred_provider credential).

Definition isStoredCredentialCompatibleWithAuthProvider provider (credential : AuthProfileCredential) : bool :=
  isCredentialProviderCompatibleWithAuthProvider (resolveProviderIdForAuth aliases provider) credential.

Definition isConfiguredProfileCompatibleWithAuthProvider providerAuthKey (profile : AuthProfileConfig)
    (credential : option AuthProfileCredential) : bool :=
  bool_decide (resolveProviderIdForAuth aliases (pc_provider profile) = providerAuthKey)
    || isOpenAIApiKeyCompatibleWithCodexAuth providerAuthKey
         (Some (match credential with Some c => type_name (cred_type c) | None => pc_mode profile end))
         (pc_provider profile).

Definition listProfilesCompatibleWithAuthProvider store provider providerAuthKey : list jstr :=
  if negb (bool_decide (providerAuthKey = OPENAI_CODEX_PROVIDER_ID)) then listProfilesForProvider store provider
  else (List.filter (fun '(_, credential) =>
          isCredentialProviderCompatibleWithAuthProvider providerAuthKey credential) (as_profiles store)).*1.

Definition resolveProviderAuthMode provider : option jstr :=
  findNormalizedProviderValue (ac_providerAuth cfg) provider ≫= id.

Definition providerAllowsAwsSdkAuth provider : bool :=
  bool_decide (resolveProviderAuthMode provider = Some (lit "aws-sdk")).

Definition profile_config profileId : option AuthProfileConfig := ac_profiles cfg ≫= jm_get profileId.

Definition isConfiguredAwsSdkAuthProfileForProvider provider profileId : bool :=
  match profile_config profileId with
  | Some profileConfig =>
      bool_decide (pc_mode profileConfig = lit "aws-sdk")
        && bool_decide (resolveProviderIdForAuth aliases (pc_provider profileConfig)
                        = resolveProviderIdForAuth aliases provider)
        && providerAllowsAwsSdkAuth provider
  | None => false
  end.

(** The reason; [eligible] is [ReasonOk]. *)
Definition resolveAuthProfileEligibility store provider profileId now : AuthCredentialReasonCode :=
  let providerAuthKey := resolveProviderIdForAuth aliases provider in
  match profile_of store profileId with
  | None =>
      if isConfiguredAwsSdkAuthProfileForProvider provider profileId then ReasonOk else ProfileMissing
  | Some cred =>
      if negb (isCredentialProviderCompatibleWithAuthProvider providerAuthKey cred) then ProviderMismatch
      else
        let configured :=
          match profile_config profileId with
          | None => ReasonOk
          | Some profileConfig =>
              if negb (isConfiguredProfileCompatibleWithAuthProvider providerAuthKey profileConfig (Some cred))
              then ProviderMismatch
              else if bool_decide (pc_mode profileConfig = type_name (cred_type cred)) then ReasonOk
              else if bool_decide (pc_mode profileConfig = lit "oauth")
                      && bool_decide (cred_type cred = TypeToken) then ReasonOk
              else ModeMismatch
          end in
        match configured with
        | ReasonOk => evaluateStoredCredentialEligibility cred (of_Z now)
        | reason => reason
        end
  end.

Definition isNativeCredentialProviderCompatibleWithAuthProvider providerAuthKey
    (credential : option AuthProfileCredential) : bool :=
  match credential with
  | None => false
  | Some credential =>
      bool_decide (resolveProviderIdForAuth aliases (cred_provider credential) = providerAuthKey)
  end.

Definition mergeAliasOrderWithNativeProfiles (aliasOrder nativeProfiles : list jstr) : list jstr :=
  let aliasHasNativeProfile := existsb (fun profileId => includes profileId nativeProfiles) aliasOrder in
  dedupeProfileIds (if aliasHasNativeProfile then aliasOrder ++ nativeProfiles
                    else nativeProfiles ++ aliasOrder).

(** ** Sorting *)

Definition typeScore store profileId : Z :=
  match cred_type <$> profile_of store profileId with
  | Some TypeOAuth => 0
  | Some TypeToken => 1
  | Some TypeApiKey => 2
  | None => 3
  end.

Definition lastUsed store profileId : Z := default 0 (stats_of store profileId ≫= us_lastUsed).

(** By type, then the one used longest ago. *)
Definition use_before store (a b : jstr) : bool :=
  if bool_decide (typeScore store a = typeScore store b)
  then lastUsed store a <=? lastUsed store b
  else typeScore store a <? typeScore store b.

Definition cooldown_until store now (forModel : option jstr) profileId : Z :=
  default now (resolveProfileUnusableUntil (default no_stats (stats_of store profileId)) forModel).

Definition recovers_before store now forModel (a b : jstr) : bool :=
  cooldown_until store now forModel a <=? cooldown_until store now forModel b.

Definition available store now (forModel : option jstr) (ids : list jstr) : list jstr :=
  List.filter (fun id => negb (isProfileInCooldown store id now forModel)) ids.

Definition cooling store now (forModel : option jstr) (ids : list jstr) : list jstr :=
  List.filter (fun id => isProfileInCooldown store id now forModel) ids.

Definition orderProfilesByMode (order : list jstr) store now (forModel : option jstr) : list jstr :=
  stable_sort (use_before store) (available store now forModel order)
    ++ stable_sort (recovers_before store now forModel) (cooling store now forModel order).

Definition prefer (preferredProfile : option jstr) (ordered : list jstr) : list jstr :=
  match preferredProfile with
  | Some p => if truthy p && includes p ordered
              then p :: List.filter (fun e => negb (bool_decide (e = p))) ordered else ordered
  | None => ordered
  end.

(** ** The order *)

Definition resolveAuthOrder (order : option (list (jstr * list jstr))) provider : option (list jstr) :=
  findNormalizedProviderValue order provider.

Definition first_of {A} (a b : option A) : option A := match a with Some _ => a | None => b end.

Definition explicit_profiles store providerAuthKey : list jstr :=
  (List.filter (fun '(profileId, profile) =>
    isConfiguredProfileCompatibleWithAuthProvider providerAuthKey profile (profile_of store profileId))
    (default [] (ac_profiles cfg))).*1.

(** The order that is authored, and whether it is the one of the store. *)
Definition explicit_order store provider : option (list jstr) * bool :=
  let providerKey := normalizeProviderId provider in
  let providerAuthKey := resolveProviderIdForAuth aliases provider in
  let openAIOrderAlias := bool_decide (providerAuthKey = OPENAI_CODEX_PROVIDER_ID)
                            || bool_decide (providerKey = OPENAI_CODEX_PROVIDER_ID) in
  let direct order := first_of (resolveAuthOrder order providerAuthKey) (resolveAuthOrder order providerKey) in
  let alias order := if openAIOrderAlias then resolveAuthOrder order OPENAI_PROVIDER_ID else None in
  let directStoredOrder := direct (as_order store) in
  let aliasStoredOrder := alias (as_order store) in
  let directExplicitOrder := first_of directStoredOrder (direct (ac_order cfg)) in
  let aliasExplicitOrder := first_of aliasStoredOrder (alias (ac_order cfg)) in
  let explicitOrderFromStore :=
    bool_decide (is_Some directStoredOrder)
      || (negb (bool_decide (is_Some directExplicitOrder)) && bool_decide (is_Some aliasStoredOrder)) in
  let storeProfiles := listProfilesCompatibleWithAuthProvider store provider providerAuthKey in
  let nativeStoreProfiles :=
    if openAIOrderAlias && bool_decide (providerAuthKey = OPENAI_CODEX_PROVIDER_ID)
    then List.filter (fun profileId =>
           isNativeCredentialProviderCompatibleWithAuthProvider providerAuthKey (profile_of store profileId))
           storeProfiles
    else [] in
  let explicitOrder :=
    match directExplicitOrder with
    | Some order => Some order
    | None => (fun aliasOrder => mergeAliasOrderWithNativeProfiles aliasOrder nativeStoreProfiles)
                <$> aliasExplicitOrder
    end in
  (explicitOrder, explicitOrderFromStore).

Definition is_valid_profile store provider (readinessMode : ReadinessMode) now profileId : bool :=
  match resolveAuthProfileEligibility store provider profileId now with
  | ReasonOk => true
  | UnresolvedRef => match readinessMode with ReadOnly => true | Execution => false end
  | _ => false
  end.

(** The result, and the store with the windows that are over cleared. *)
Definition resolveAuthProfileOrderWithMetadata store provider (preferredProfile forModel : option jstr)
    (readinessMode : ReadinessMode) now : AuthProfileOrderResolution * AuthProfileStore :=
  let store := fst (clearExpiredCooldowns store now) in
  let providerAuthKey := resolveProviderIdForAuth aliases provider in
  let '(explicitOrder, explicitOrderFromStore) := explicit_order store provider in
  let explicitProfiles := explicit_profiles store providerAuthKey in
  let storeProfiles := listProfilesCompatibleWithAuthProvider store provider providerAuthKey in
  let hasExplicitOrder := bool_decide (is_Some explicitOrder) in
  let baseOrder := match explicitOrder with
                   | Some order => order
                   | None => if (0 <? length explicitProfiles)%nat then explicitProfiles else storeProfiles
                   end in
  let isValidProfile := is_valid_profile store provider readinessMode now in
  let resolution :=
    match baseOrder with
    | [] => {| or_profileIds := []; or_hasExplicitOrder := hasExplicitOrder |}
    | _ =>
        let filtered := List.filter isValidProfile baseOrder in
        let allBaseProfilesMissing :=
          forallb (fun profileId => negb (bool_decide (is_Some (profile_of store profileId)))) baseOrder in
        let repairedFallbackToStoreProfiles :=
          (length filtered =? 0)%nat && allBaseProfilesMissing
            && (explicitOrderFromStore || (0 <? length explicitProfiles)%nat) in
        let filtered := if repairedFallbackToStoreProfiles then List.filter isValidProfile storeProfiles
                        else filtered in
        let deduped := dedupeProfileIds filtered in
        if match explicitOrder with Some (_ :: _) => negb repairedFallbackToStoreProfiles | _ => false end
        then
          let ordered := available store now forModel deduped
                           ++ stable_sort (recovers_before store now forModel)
                                (cooling store now forModel deduped) in
          {| or_profileIds := prefer preferredProfile ordered; or_hasExplicitOrder := true |}
        else
          let sorted := orderProfilesByMode deduped store now forModel in
          {| or_profileIds := prefer preferredProfile sorted; or_hasExplicitOrder := hasExplicitOrder |}
    end in
  (resolution, store).

Definition resolveAuthProfileOrder store provider (preferredProfile forModel : option jstr)
    (readinessMode : ReadinessMode) now : list jstr :=
  or_profileIds (fst (resolveAuthProfileOrderWithMetadata store provider preferredProfile forModel
                        readinessMode now)).

Definition resolveSubscriptionAuthModeForProfiles store (profileIds : list (option jstr))
    : option CredentialType :=
  find_first (fun t => bool_decide (t = TypeOAuth) || bool_decide (t = TypeToken))
    (omap (fun profileId : option jstr =>
      id ← profileId; if truthy id then cred_type <$> profile_of store id else None) profileIds).
End order.

(** ** Lists *)

Lemma js_set_sublist {A} `{EqDecision A} (l : list A) : js_set l `sublist_of` l.
Proof.
  induction l as [|x l IH] using rev_ind; [done|]. rewrite js_set_snoc. unfold js_add. case_decide.
  - by apply sublist_inserts_r.
  - by apply sublist_app.
Qed.

Lemma elem_of_prefer pref ids id : id ∈ prefer pref ids <-> id ∈ ids.
Proof.
  unfold prefer. destruct pref as [p|]; [|done]. destruct (truthy p && includes p ids) eqn:E; [|done].
  apply andb_true_iff in E as [_ Hp%includes_spec]. rewrite elem_of_cons, elem_of_filter_bool.
  rewrite negb_true_iff, bool_decide_eq_false. destruct (decide (id = p)) as [->|]; naive_solver.
Qed.

Lemma NoDup_prefer pref ids : NoDup ids -> NoDup (prefer pref ids).
Proof.
  intros H. unfold prefer. destruct pref as [p|]; [|done]. destruct (_ && _); [|done]. apply NoDup_cons.
  split; [|eapply sublist_NoDup; [exact H|apply filter_sublist]]. rewrite elem_of_filter_bool, bool_decide_eq_true_2 by done. by intros [_ ?].
Qed.

(** ** The order *)

Section order_facts.
  Context (aliases defaultAliases : AliasMap) (cfg : AuthConfig).

Lemma use_before_total store a b : use_before store a b = true \/ use_before store b a = true.
Proof.
  unfold use_before. repeat case_bool_decide; rewrite ?Z.leb_le, ?Z.ltb_lt; lia.
Qed.

Lemma use_before_trans store a b c :
  use_before store a b = true -> use_before store b c = true -> use_before store a c = true.
Proof. unfold use_before. repeat case_bool_decide; rewrite ?Z.leb_le, ?Z.ltb_lt; lia. Qed.

Lemma recovers_total store now m a b : recovers_before store now m a b = true \/ recovers_before store now m b a = true.
Proof. unfold recovers_before. rewrite !Z.leb_le. lia. Qed.

Lemma recovers_trans store now m a b c :
  recovers_before store now m a b = true -> recovers_before store now m b c = true ->
  recovers_before store now m a c = true.
Proof. unfold recovers_before. rewrite !Z.leb_le. lia. Qed.

(** What is tried: the available ones, then those that cool, the soonest to
    recover first. *)
Lemma elem_of_split store now m before ids id :
  id ∈ stable_sort before (available store now m ids) ++
         stable_sort (recovers_before store now m) (cooling store now m ids) <-> id ∈ ids.
Proof.
  rewrite elem_of_app, !elem_of_sort. unfold available, cooling. rewrite !elem_of_filter_bool.
  destruct (isProfileInCooldown store id now m); naive_solver.
Qed.

Lemma elem_of_split' store now m ids id :
  id ∈ available store now m ids ++ stable_sort (recovers_before store now m) (cooling store now m ids) <->
  id ∈ ids.
Proof.
  rewrite elem_of_app, elem_of_sort. unfold available, cooling. rewrite !elem_of_filter_bool.
  destruct (isProfileInCooldown store id now m); naive_solver.
Qed.

Lemma NoDup_split store now m ids : NoDup ids ->
  NoDup (available store now m ids ++ cooling store now m ids).
Proof.
  intros H. apply NoDup_app. split_and!.
  - eapply sublist_NoDup; [exact H|apply filter_sublist].
  - unfold available, cooling. intros id. rewrite !elem_of_filter_bool.
    destruct (isProfileInCooldown store id now m); naive_solver.
  - eapply sublist_NoDup; [exact H|apply filter_sublist].
Qed.

(** What the result is made of: the profiles that were kept, and whether an
    authored order arranges them. *)
Definition kept_profiles store provider (readinessMode : ReadinessMode) now : list jstr * bool :=
  let providerAuthKey := resolveProviderIdForAuth aliases provider in
  let '(explicitOrder, fromStore) := explicit_order aliases defaultAliases cfg store provider in
  let explicitProfiles := explicit_profiles aliases cfg store providerAuthKey in
  let storeProfiles := listProfilesCompatibleWithAuthProvider aliases defaultAliases store provider providerAuthKey in
  let base := match explicitOrder with
              | Some order => order
              | None => if (0 <? length explicitProfiles)%nat then explicitProfiles else storeProfiles
              end in
  let valid := is_valid_profile aliases cfg store provider readinessMode now in
  let repaired := (length (List.filter valid base) =? 0)%nat
                    && forallb (fun id => negb (bool_decide (is_Some (profile_of store id)))) base
                    && (fromStore || (0 <? length explicitProfiles)%nat) in
  match base with
  | [] => ([], true)
  | _ => (List.filter valid (if repaired then storeProfiles else base),
          match explicitOrder with Some (_ :: _) => negb repaired | _ => false end)
  end.

Lemma order_shape store provider pref forModel mode now :
  let cleared := fst (clearExpiredCooldowns store now) in
  let '(kept, authored) := kept_profiles cleared provider mode now in
  let ids := dedupeProfileIds kept in
  resolveAuthProfileOrder aliases defaultAliases cfg store provider pref forModel mode now =
    prefer pref ((if authored then available cleared now forModel ids
                  else stable_sort (use_before cleared) (available cleared now forModel ids))
                 ++ stable_sort (recovers_before cleared now forModel) (cooling cleared now forModel ids)).
Proof.
  cbv zeta. unfold resolveAuthProfileOrder, resolveAuthProfileOrderWithMetadata, kept_profiles. cbv zeta.
  destruct (explicit_order _ _ _ _ _) as [order fromStore].
  match goal with |- context [match ?b with [] => ([], true) | _ => _ end] => set (base := b) end.
  destruct base as [|id base'].
  - cbn [fst or_profileIds]. unfold prefer. destruct pref as [p|]; [|done]. by destruct (truthy p).
  - set (repaired := (_ =? 0)%nat && _ && _). cbn [fst].
    destruct repaired, order as [[|? ?]|]; done.
Qed.
Lemma kept_valid store provider mode now id :
  id ∈ fst (kept_profiles store provider mode now) -> is_valid_profile aliases cfg store provider mode now id = true.
Proof.
  unfold kept_profiles. cbv zeta. destruct (explicit_order _ _ _ _ _) as [order fromStore].
  match goal with |- context [match ?b with [] => ([], true) | _ => _ end] => destruct b end; [by intros ?%elem_of_nil|].
  cbn [fst]. by intros [_ ?]%elem_of_filter_bool.
Qed.

(** An authored order of which a profile can be used is kept to. *)
Lemma kept_authored store provider mode now order id0 :
  fst (explicit_order aliases defaultAliases cfg store provider) = Some order -> id0 ∈ order ->
  is_valid_profile aliases cfg store provider mode now id0 = true ->
  kept_profiles store provider mode now =
    (List.filter (is_valid_profile aliases cfg store provider mode now) order, true).
Proof.
  unfold kept_profiles. cbv zeta. destruct (explicit_order _ _ _ _ _) as [o fromStore]. cbn [fst]. intros -> Hin Hv.
  assert (length (List.filter (is_valid_profile aliases cfg store provider mode now) order) =? 0 = false)%nat as ->.
  { apply Nat.eqb_neq. intros H%nil_length_inv.
    assert (id0 ∈ List.filter (is_valid_profile aliases cfg store provider mode now) order) as Hf
      by by apply elem_of_filter_bool. rewrite H in Hf. by apply elem_of_nil in Hf. }
  destruct order as [|? ?]; [by apply elem_of_nil in Hin|]. done.
Qed.

(** Without an authored order and configured profiles, those of the store are
    kept. *)
Lemma kept_store store provider mode now :
  fst (explicit_order aliases defaultAliases cfg store provider) = None ->
  explicit_profiles aliases cfg store (resolveProviderIdForAuth aliases provider) = [] ->
  fst (kept_profiles store provider mode now) =
    List.filter (is_valid_profile aliases cfg store provider mode now)
      (listProfilesCompatibleWithAuthProvider aliases defaultAliases store provider
         (resolveProviderIdForAuth aliases provider)).
Proof.
  unfold kept_profiles. cbv zeta. destruct (explicit_order _ _ _ _ _) as [o fromStore]. cbn [fst].
  intros -> ->. cbn [length Nat.ltb Nat.leb].
  destruct (listProfilesCompatibleWithAuthProvider _ _ _ _ _) as [|id ids]; [done|]. cbn [fst].
  by destruct (_ && _ && _).
Qed.

Lemma kept_unauthored store provider mode now :
  fst (explicit_order aliases defaultAliases cfg store provider) = None ->
  fst (kept_profiles store provider mode now) <> [] -> snd (kept_profiles store provider mode now) = false.
Proof.
  unfold kept_profiles. cbv zeta. destruct (explicit_order _ _ _ _ _) as [o fromStore]. cbn [fst].
  intros ->. match goal with |- context [match ?b with [] => ([], true) | _ => _ end] => by destruct b end.
Qed.

(** C20. The order in which profiles are tried.  No profile is tried twice, and
    every one can serve the provider; but for a preferred one at the head, those
    not in cooldown come first and those in cooldown after, the soonest to
    recover first.  An authored order of which a profile can be used is kept to:
    exactly its profiles that can be used are tried, the available ones in its
    order; without one, and without configured profiles, exactly those of the
    store that can be used, the available ones by type and then by when they
    were last used. *)
Theorem profile_order_spec store provider pref forModel mode now :
  let cleared := fst (clearExpiredCooldowns store now) in
  let usable := is_valid_profile aliases cfg cleared provider mode now in
  let authored := fst (explicit_order aliases defaultAliases cfg cleared provider) in
  let key := resolveProviderIdForAuth aliases provider in
  let tried := resolveAuthProfileOrder aliases defaultAliases cfg store provider pref forModel mode now in
  NoDup tried /\
  (forall id, id ∈ tried -> usable id = true) /\
  (exists first later, tried = prefer pref (first ++ later) /\
     (forall id, id ∈ first -> isProfileInCooldown cleared id now forModel = false) /\
     (forall id, id ∈ later -> isProfileInCooldown cleared id now forModel = true) /\
     StronglySorted (fun a b => recovers_before cleared now forModel a b = true) later /\
     (forall order, authored = Some order -> (exists id, id ∈ order /\ usable id = true) ->
        first `sublist_of` order) /\
     (authored = None -> StronglySorted (fun a b => use_before cleared a b = true) first)) /\
  (forall order, authored = Some order -> (exists id, id ∈ order /\ usable id = true) ->
     forall id, id ∈ tried <-> id ∈ order /\ usable id = true) /\
  (authored = None -> explicit_profiles aliases cfg cleared key = [] ->
     forall id, id ∈ tried <->
       id ∈ listProfilesCompatibleWithAuthProvider aliases defaultAliases cleared provider key /\ usable id = true).
Proof.
  cbv zeta. pose proof (order_shape store provider pref forModel mode now) as Hshape. cbv zeta in Hshape.
  set (cleared := fst (clearExpiredCooldowns store now)) in *.
  pose proof (kept_valid cleared provider mode now) as Hvalid.
  pose proof (kept_authored cleared provider mode now) as Hauth.
  pose proof (kept_store cleared provider mode now) as Hstore.
  pose proof (kept_unauthored cleared provider mode now) as Hun.
  destruct (kept_profiles cleared provider mode now) as [kept authored] eqn:Ek. cbn [fst snd] in *.
  rewrite Hshape. clear Hshape.
  set (ids := dedupeProfileIds kept). pose proof (NoDup_js_set kept : NoDup ids) as Hnd.
  pose proof (NoDup_split cleared now forModel ids Hnd) as Hsplit.
  assert (forall id, id ∈ (if authored then available cleared now forModel ids
    else stable_sort (use_before cleared) (available cleared now forModel ids)) ++
      stable_sort (recovers_before cleared now forModel) (cooling cleared now forModel ids) <-> id ∈ kept) as Hin.
  { intros id. rewrite <- (elem_of_js_set id kept). change (js_set kept) with ids. destruct authored;
      [apply elem_of_split'|apply elem_of_split]. }
  split_and!.
  - apply NoDup_prefer. destruct authored; by rewrite ?stable_sort_perm.
  - intros id Hid. apply Hvalid, Hin. by apply elem_of_prefer in Hid.
  - eexists _, _. split; [reflexivity|]. split_and!.
    + intros id Hid. assert (id ∈ available cleared now forModel ids) as [_ H]%elem_of_filter_bool
        by (destruct authored; by rewrite ?elem_of_sort in Hid). by apply negb_true_iff in H.
    + intros id Hid. rewrite elem_of_sort in Hid. by apply elem_of_filter_bool in Hid as [_ ?].
    + apply stable_sort_sorted; [apply recovers_total|apply recovers_trans].
    + intros order Ho (id0 & Hid0 & Hv0). specialize (Hauth _ _ Ho Hid0 Hv0) as [= Hk ->].
      etrans; [apply filter_sublist|]. etrans; [apply js_set_sublist|]. rewrite Hk. apply filter_sublist.
    + intros Hnone. destruct authored; [|apply stable_sort_sorted; [apply use_before_total|apply use_before_trans]].
      assert (ids = []) as ->; [|constructor]. unfold ids. destruct kept; [done|]. by specialize (Hun Hnone ltac:(done)).
  - intros order Ho (id0 & Hid0 & Hv0) id. specialize (Hauth _ _ Ho Hid0 Hv0) as [= Hk ->].
    rewrite elem_of_prefer, Hin, Hk. apply elem_of_filter_bool.
  - intros Hnone Hcfg id. rewrite elem_of_prefer, Hin, (Hstore Hnone Hcfg). apply elem_of_filter_bool.
Qed.
(** ** Taking turns *)

Lemma clear_keeps_lastUsed now s : us_lastUsed (fst (clear_expired now s)) = us_lastUsed s.
Proof.
  unfold clear_expired. cbv zeta. destruct (window_expired (us_cooldownUntil s) now),
    (window_expired (us_blockedUntil s) now), (window_expired (us_disabledUntil s) now); cbn [fst orb andb];
    try destruct (negb _); done.
Qed.

Lemma lastUsed_clear store now id : lastUsed (fst (clearExpiredCooldowns store now)) id = lastUsed store id.
Proof.
  unfold lastUsed. rewrite stats_clear. destruct (stats_of store id) as [s|]; [|done]. cbn [fmap option_fmap option_map mbind option_bind].
  by rewrite clear_keeps_lastUsed.
Qed.

Lemma typeScore_clear store now id : typeScore (fst (clearExpiredCooldowns store now)) id = typeScore store id.
Proof. unfold typeScore. by rewrite profile_clear. Qed.

Lemma success_stats file provider p t store file' :
  su_saved (markAuthProfileSuccess aliases store provider p (Some file) t) = Some file' ->
  stats_of file' p = Some (resetSuccessfulUsageStats (stats_of file p) t).
Proof.
  unfold markAuthProfileSuccess. cbv zeta. cbn [su_saved]. destruct (profile_of file p); [|done].
  destruct (negb _); [done|]. intros [= <-]. unfold updateSuccessfulUsageStatsEntry, updateUsageStatsEntry, stats_of.
  cbn [as_usageStats with_usage with_last_good mbind option_bind]. rewrite jm_get_set_eq.
  by destruct (as_usageStats file).
Qed.

Lemma success_available s t now m : stats_in_cooldown (fst (clear_expired now (resetSuccessfulUsageStats s t))) now m = false.
Proof. rewrite in_cooldown_windows. cbn. by rewrite !andb_false_r. Qed.

(** What is tried before the preferred profile was moved to the head is tried
    before all others than that one. *)
Lemma prefer_before pref ids l1 p l2 q : ids = l1 ++ p :: l2 -> q ∈ l1 -> pref <> Some p ->
  exists l1' l2', prefer pref ids = l1' ++ p :: l2' /\ q ∈ l1'.
Proof.
  intros -> Hq Hne. unfold prefer. destruct pref as [r|]; [|by exists l1, l2].
  destruct (truthy r && _); [|by exists l1, l2]. rewrite List.filter_app. cbn [List.filter].
  rewrite (bool_decide_eq_false_2 (p = r)) by congruence. cbn [negb].
  eexists (r :: List.filter (fun id => negb (bool_decide (id = r))) l1), _. split; [done|].
  rewrite elem_of_cons, elem_of_filter_bool, negb_true_iff, bool_decide_eq_false.
  destruct (decide (q = r)); auto.
Qed.

(** C28. Profiles take turns, where no authored order applies.  After a success a
    profile can be used at once, and unless it is itself the preferred profile,
    which goes first, every other profile of its type that can be used, is not in
    cooldown and was used before that success is tried before it. *)
Theorem success_goes_last store0 provider0 file p t file' provider pref forModel mode now q :
  su_saved (markAuthProfileSuccess aliases store0 provider0 p (Some file) t) = Some file' ->
  let cleared := fst (clearExpiredCooldowns file' now) in
  let tried := resolveAuthProfileOrder aliases defaultAliases cfg file' provider pref forModel mode now in
  fst (explicit_order aliases defaultAliases cfg cleared provider) = None -> pref <> Some p ->
  p ∈ tried -> q ∈ tried -> q <> p ->
  typeScore file' q = typeScore file' p -> lastUsed file' q < t ->
  isProfileInCooldown cleared q now forModel = false ->
  isProfileInCooldown cleared p now forModel = false /\
  exists l1 l2, tried = l1 ++ p :: l2 /\ q ∈ l1.
Proof.
  intros Hs. cbv zeta. intros Hnone Hpref Hp Hq Hne Htype Hlast Hqa. apply success_stats in Hs.
  set (cleared := fst (clearExpiredCooldowns file' now)) in *.
  assert (isProfileInCooldown cleared p now forModel = false) as Hpa.
  { unfold isProfileInCooldown, cleared. rewrite profile_clear, stats_clear, Hs.
    destruct (isAuthCooldownBypassedForProvider _); [done|]. apply success_available. }
  split; [done|].
  pose proof (order_shape file' provider pref forModel mode now) as Hshape. cbv zeta in Hshape. fold cleared in Hshape.
  pose proof (kept_unauthored cleared provider mode now Hnone) as Hun.
  destruct (kept_profiles cleared provider mode now) as [kept authored]. cbn [fst snd] in *.
  rewrite Hshape in Hp, Hq |- *. clear Hshape. rewrite elem_of_prefer in Hp, Hq. set (ids := dedupeProfileIds kept) in *.
  set (later := stable_sort _ (cooling _ _ _ _)) in *.
  assert (authored = false) as ->.
  { destruct kept as [|k kept]; [|by apply Hun]. unfold later, ids in Hp. cbn in Hp.
    destruct authored; by apply elem_of_nil in Hp. }
  assert (forall id, id ∈ stable_sort (use_before cleared) (available cleared now forModel ids) ++ later ->
    isProfileInCooldown cleared id now forModel = false ->
    id ∈ stable_sort (use_before cleared) (available cleared now forModel ids)) as Hfirst.
  { intros id Hid Ha. apply elem_of_app in Hid as [Hid|Hid]; [done|]. unfold later in Hid.
    rewrite elem_of_sort in Hid. apply elem_of_filter_bool in Hid as [_ Hid]. congruence. }
  specialize (Hfirst _ Hp Hpa) as Hp1. specialize (Hfirst _ Hq Hqa) as Hq1.
  apply list_elem_of_split in Hp1 as (l1 & l2 & E).
  pose proof (stable_sort_sorted (use_before cleared) (available cleared now forModel ids)
    (use_before_total cleared) (use_before_trans cleared)) as Hsorted.
  rewrite E in Hsorted, Hq1 |- *. apply (prefer_before _ _ l1 _ (l2 ++ later)); [by rewrite <- app_assoc| |done].
  apply elem_of_app in Hq1 as [Hq1|[->|Hq1]%elem_of_cons]; [done..|]. exfalso.
  apply StronglySorted_app_1_r in Hsorted.
  apply StronglySorted_inv in Hsorted as [_ Hall].
  rewrite Forall_forall in Hall. specialize (Hall q Hq1). unfold use_before in Hall.
  unfold cleared in Hall. rewrite !typeScore_clear, !lastUsed_clear, Htype, bool_decide_eq_true_2 in Hall by done.
  unfold lastUsed at 1 in Hall. rewrite Hs in Hall. cbn in Hall. apply Z.leb_le in Hall. lia.
Qed.
End order_facts.

(** ** Example *)

Definition api_key (key : string) : AuthProfileCredential :=
  ApiKey {| ak_provider := lit "anthropic"; ak_key := SecretText (lit key); ak_keyRef := SecretAbsent |}.

Definition two_keys : AuthProfileStore := {|
  as_profiles := [(lit "a", api_key "sk-a"); (lit "b", api_key "sk-b")];
  as_order := None; as_lastGood := None;
  as_usageStats := Some [(lit "b", with_times (Some 50000) None no_stats)] |}.

Definition no_auth_config : AuthConfig := {| ac_profiles := None; ac_order := None; ac_providerAuth := None |}.

Definition after_success : AuthProfileStore :=
  default two_keys (su_saved (markAuthProfileSuccess [] two_keys (lit "anthropic") (lit "a") (Some two_keys) 100000)).

Lemma success_goes_last_witness :
  resolveAuthProfileOrder [] [] no_auth_config two_keys (lit "anthropic") None None Execution 200000
    = [lit "a"; lit "b"] /\
  resolveAuthProfileOrder [] [] no_auth_config after_success (lit "anthropic") None None Execution 200000
    = [lit "b"; lit "a"] /\
  isProfileInCooldown (fst (clearExpiredCooldowns after_success 200000)) (lit "a") 200000 None = false /\
  exists l1 l2, resolveAuthProfileOrder [] [] no_auth_config after_success (lit "anthropic") None None Execution 200000
    = l1 ++ lit "a" :: l2 /\ lit "b" ∈ l1.
Proof.
  split; [by vm_compute|]. split; [by vm_compute|].
  assert (resolveAuthProfileOrder [] [] no_auth_config after_success (lit "anthropic") None None Execution 200000
    = [lit "b"; lit "a"]) as E by by vm_compute.
  apply (success_goes_last [] [] no_auth_config two_keys (lit "anthropic") two_keys (lit "a") 100000 after_success
    (lit "anthropic") None None Execution 200000 (lit "b")).
  - by vm_compute.
  - by vm_compute.
  - done.
  - rewrite E. right. by left.
  - rewrite E. by left.
  - by vm_compute.
  - by vm_compute.
  - by vm_compute.
  - by vm_compute.
Defined.
